(* ===== verification/_CoqProject ===== *)
-Q . S2P
Prelude.v
Indexes.v
JsMap.v
Json.v
JsonText.v
JsonParse.v
SafeText.v
MarkdownStream.v
Microphone.v
ThreadItems.v
Readers.v
EventIndex.v
ThreadEvents.v
ThreadLaws.v
ThreadSharing.v
ThreadProps.v
MemoryCache.v
SupervisorAttention.v
AttentionLaws.v
SupervisorRequests.v
CursorSync.v
ListStream.v
Domain.v
Unsolicited.v
RouteSessions.v
Connection.v
Reconnect.v
RenderWindow.v
Renderers.v
TurnSequence.v
Delivery.v
ProjectionGate.v
EngineSession.v
AppServer.v
ThreadHead.v
ThreadRows.v
DetailSource.v
DetailCommit.v
CommitLaws.v
PendingLaws.v
DetailCoverage.v
DetailPages.v
PageLaws.v
Ranking.v
SummaryTypes.v
SummaryProjection.v
SummaryTree.v
SummaryView.v
SummaryRows.v
SummaryOrder.v
SummaryOps.v
SummaryLaws.v
SummaryPages.v
SummaryModel.v
SummaryFresh.v
ProjectUnread.v
ChatRange.v
ChatModel.v
ChatLaws.v
ChatInterestLaws.v
AudioUpload.v
AudioLaws.v
CatalogWindow.v
VoiceReconnect.v
VoiceLaws.v
ToolPages.v
ToolCalls.v
ToolLaws.v
