(* ===== verification/Prelude.v ===== *)
(** * CodeWide: a verification library of the client's synchronisation core

    CodeWide lets a telephone follow and steer coding agents that run on other
    computers.  A companion on each computer streams the threads of its agents;
    the client (TypeScript, under apps/android/src and packages) keeps a cache of
    them, merges what it is sent, and draws it.  The library models the parts of
    that client that decide what is kept and shown: the reducers, merges,
    admission rules, registries and projections.  All paths below are under src/.

    ** The program and the files

    Values and arrays.  [Prelude] has JavaScript strings (sequences of UTF-16
    code units), arrays and numbers; [Indexes] lists of array positions; [JsMap]
    insertion-ordered maps; [Json] the [unknown] values of the wire, with
    [undefined] as [None]; [JsonText] the texts [JSON.stringify] gives to
    arrays of strings, which the code uses as keys, and that they are injective;
    [JsonParse] is [JSON.parse], which reads back what [JSON.stringify] writes.
    Its fuel is twice the length of the text, which is enough
    ([parseValue_fuel]).

    From the companion to the cache.
    - [ThreadItems]: packages/sync-client/src/thread-items.ts, how two
      projections of a turn are reconciled item by item.
    - [EventIndex], [ThreadEvents], [ThreadSharing], [ThreadLaws], [ThreadProps]:
      packages/sync-client/src/thread-events.ts.  [EventIndex] states what the
      reducer asks of a lookup (the class [EventLookup]) and discharges it for
      the index and for plain search; [ThreadEvents] is the reducer over that
      interface with what it copies and what it goes on sharing, [ThreadSharing] that
      the objects it writes are its own, [ThreadLaws] what each of its operations
      respects, [ThreadProps] the theorems.
    - [MemoryCache]: packages/sync-client/src/memory-cache.ts, the replay cursor,
      the threads and the requests of each connection; it calls the reducer.
    - [Readers]: the validating readers of packages/sync-client/src
      (activity-metrics, command-output, live-activity, question-history,
      thread-metadata), a Module each.
    - [CursorSync]: apps/android/src/data/thread-cursor-sync.ts, one thread read
      by cursor and laid over the cache; its Module [Lane] interleaves the
      callers of the coalescing lane.  It reconciles with [ThreadItems].
    - [ListStream]: threadListRow.ts and threadListStream.ts in
      apps/android/src/data, the rows of the thread list, their sessions and the
      rule that decides between competing observations.
    - [Domain]: packages/domain/src, keys, normalisation and the store.
    - [ProjectionGate]: apps/android/src/native/ordered-projection-gate.ts and
      ordered-projection-acknowledger.ts, and the serial task queue: the order in
      which projections are written and acknowledged.
    - [EngineSession]: the projection side of
      apps/android/src/native/native-engine.native.ts with
      live-event-priority.ts: the queue of live events of a connection, the
      pages of projections written and acknowledged, and recovery.
    - [AppServer]: packages/app-server-client/src, the JSON-RPC client of an App
      Server process.

    From the user to the companion.
    - [Delivery]: thread-delivery-state.ts, queue-event.ts, queued-input.ts,
      command-receipt-evidence.ts and the queue plans of
      thread-detail-projection.ts, all in apps/android/src/data.
    - [Microphone], [Unsolicited]: v1MicrophoneLease.ts and
      globalSupervisorUnsolicitedAdmission.ts in apps/android/src/data, who may
      speak and listen.
    - [SafeText], [SupervisorAttention], [AttentionLaws]: the files
      globalSupervisorSafeText.ts and globalSupervisorAttention.ts there: what
      the Global Supervisor is told of the threads, what it has acknowledged and
      what is kept of it.
    - [SupervisorRequests]: globalSupervisorPendingRequest.ts, the requests that
      wait for the user as they are offered, and the answers that are accepted.
    - [AudioUpload] with [AudioLaws]: realtime-audio-uploader.ts in
      apps/android/src/data, captured speech joined to batches and sent one at a
      time; durations are the doubles of the Standard Library's SpecFloat.
    - [VoiceReconnect] with [VoiceLaws]: globalSupervisorReconnectOwner.ts and
      globalSupervisorRecoveryPolicy.ts there, the transport of a voice
      activation as it is started, replaced, paused and stopped.
    - [ToolPages], [ToolCalls] and [ToolLaws]: globalSupervisorToolPagination.ts,
      globalSupervisorToolRouter.ts and the operations readChat and listChats of
      globalSupervisorTools.ts there.  [ToolPages] is a chat or the list of chats
      read by cursors, [ToolCalls] the calls that are accepted and how a request
      is settled.
    - [RouteSessions]: apps/android/src/services/routeSessionPolicy.ts, payloads
      of routes with deadline, capacity and leases.

    Connections.  [Connection] (connectionPath.ts, connectionHealth.ts,
    connection-state-model.ts) and [Reconnect] (thread-sync-reconnect.ts).

    From the cache to the screen.
    - [ThreadHead]: thread-current-usage.ts and thread-current-outcome.ts in
      apps/android/src/data, the usage and the outcome shown of a thread.
    - [ThreadRows]: the stored rows of a thread in thread-detail-projection.ts
      and thread-partitions.ts and turn-artifacts.ts in apps/android/src/data:
      their ordinals, epochs, write rules and materialisation.
    - [DetailSource], [DetailCommit], [CommitLaws], [PendingLaws],
      [DetailCoverage], [DetailPages], [PageLaws]: thread-detail-database.native.ts
      with resident-thread-window.ts and thread-pagination.ts there.
      [DetailSource] is the class ThreadDetailSource over the class of its
      indexes ([Bucket]); [DetailCommit] the transaction and the writes of a
      projection, a turn and a pending mutation, [CommitLaws] and [PendingLaws]
      what they respect; [DetailCoverage] the proven interval of a history and
      its windows; [DetailPages] what each kind of publication decides to write,
      and [PageLaws] that it can be written.
    - [SummaryTypes], [SummaryProjection], [SummaryTree], [SummaryView],
      [SummaryRows], [SummaryOps] and the laws [SummaryOrder], [SummaryLaws],
      [SummaryPages]: the summaries of the thread list in apps/android/src/data.
      [SummaryTypes] is the stored row and what is read into it
      (thread-summary-types.ts, threadAgent.ts, threadPinState.ts,
      questionLifecycle.ts, thread-cache.ts); [SummaryProjection] what a server
      row, a snapshot, a journal event and an answer do to it (threadListRow.ts,
      thread-summary-projection.ts, questionAnswerProjection.ts); [SummaryTree]
      the sub-agents below a root; [SummaryView] the ordered views, which search
      by the order of [Ranking] (thread-summary-view.ts).  [SummaryRows] is the
      database with its server rows, pages, snapshots and journal batches
      (threadSummaryServerRows.ts, thread-summary-database.native.ts) and calls
      the race rule of [ListStream]; [SummaryOps] are its other writes.
      [SummaryModel] is the model of the resident views over that database
      (thread-summary-model.ts) with the laws [SummaryFresh], and [ProjectUnread]
      the projects with something unread (project-unread-model.ts).
    - [CatalogWindow]: thread-catalog-window.ts, thread-catalog-loader.ts and the
      readers they call in apps/android/src/data, the pages of the thread list and
      the prefix that was asked for.
    - [ChatRange], [ChatModel] with [ChatLaws] and [ChatInterestLaws]: the model
      of open conversations, thread-chat-model.ts and thread-load-status.ts in
      apps/android/src/data.  [ChatRange] is its pure part, the range of turns that
      stays resident; [ChatModel] the rows, the windows and their eviction, the
      loads and the interest in live content; [ChatLaws] the budget of the windows
      and [ChatInterestLaws] the interest that is told.
    - [RenderWindow], [TurnSequence]: apps/android/src/rendering
      thread-render-window.ts and turn-sequence.ts.
    - [Renderers]: packages/renderers/src/registry.ts.
    - [MarkdownStream]: packages/rendering-core/src/markdown-stream.ts.

    ** How the code is modelled

    A pure function is a function of the same name.  An object with mutable
    state is a Record, a method a function from the state before to the state
    after; what throws is [None] or the left of a sum, and the state it leaves is
    the one returned.  Asynchronous code is cut at its awaits: each segment that
    runs without yielding is one handler, a promise is a pending continuation,
    and a step function or relation interleaves the settlements, so a theorem
    over all lists of events covers every interleaving.  A timer is a pending
    event that may fire; clocks and random ids are arguments.  Callbacks given
    from outside are logs or arguments.  Where identity of objects decides
    (caches, retained parts), objects are references into an explicit heap or
    carry a reference from a counter; in the resident rows the tests of identity
    ([sameObject], [sameItems]) and the order of [localeCompare] are arguments,
    and the theorems hold for every such test.  In the thread list
    [localeCompare] ranks distinct keys ([LocaleOrder]), the order of keys in the
    store and the hash of command ids are arguments, and a query without an
    order gives the rows as they were first written.  Strings are sequences of UTF-16 units;
    a JSON number is an integer or an opaque non-integer, compared as the code
    compares it; [Number.isSafeInteger] is written out.  Property names and
    comparisons follow [JSON.parse] objects, that is own properties in order.

    Loops that are structural are folds or Fixpoints.  The drain loop of
    [MarkdownStream] takes fuel: the length of the pending text is enough
    ([projectMarkdownStream_total]) unless a fence opener fills a segment, where
    no fuel is ([projectMarkdownStream_diverges]).  The theorems on its result assume
    such fuel and no such opener, and show that there is one.

    ** What the theorems show

    - Cached threads: a batch writes no object the cached thread still holds
      ([batch_keeps_source]; with an index that is out of date it does,
      [stale_index_writes_source]), keeps ids distinct ([batch_keeps_wf]), streams text
      in order ([agent_stream_concat]) and within bounds ([live_text_bounded]);
      the index is an optimisation only ([index_is_transparent]); redelivered
      events are absorbed ([replay_absorbed]) and a gap keeps what came before it
      ([gap_keeps_prefix]).
    - Reconciliation and pages: ids stay distinct, work is idempotent, nothing is
      lost ([reconcile_unique_ids], [reconcile_idempotent],
      [reconcile_conserves], [materialize_turns], [materialize_idempotent]).
    - Admission and ordering: [race_admits_newest], [race_converges],
      [lane_single_flight], [repaired_once], [admission_exclusive],
      [arbitration_refines], [deliveries_never_regress].
    - Durability: what is acknowledged was written ([acknowledged_is_durable]),
      a failure closes the gate until recovery ([gate_fails_closed]), a page
      either advances or ends the pass ([page_advances]); where recovery is
      forgotten is [stalled_forever].  Every request to an App Server is settled
      once ([requests_accounted]) and a listing returns what the pages held
      ([list_threads_exact]).
    - Stored rows: an epoch keeps its places ([epoch_keeps_places],
      [prepended_places]), partitions are merged without loss
      ([partitions_merged]) and compaction keeps what it must
      ([compaction_keeps]).
    - Resident rows: every index reads what the rows hold ([source_reads],
      [live_slice]); a transaction is applied whole or not at all
      ([commit_atomic]), and what the database plans can be committed and leaves
      the indexes exact ([plans_keep_index]), though a commit declines some rows
      it should write ([live_rekey_drops_sealed], [checkpoint_not_stored]);
      sealed turns and turns the server owns are not overwritten
      ([sealed_turn_kept], [server_owns_rows]).
    - History: the proven interval has no gaps ([coverage_without_gaps]), a
      complete window holds what it shows ([complete_window_holds]), trimming
      keeps the end in view ([trim_keeps_near_end]) and a page read from an
      anchor is placed where it fits ([anchored_page_places]).
    - The thread list: rows and events of a root thread the catalogue lists give
      the same summary however they interleave, with the newest sixty-four events
      waiting for the first row ([arrivals_commute]); every write keeps the marks
      of reading in agreement ([rows_stay_sound]) and a page removes only what is
      stale ([page_evicts_stale]); a view is kept up to date as it would be
      rebuilt ([incremental_view]) and the sub-agents of a root are all found
      ([descendants_exact]).  Events a bounded read overtakes are lost
      ([seeded_row_loses_events]), and a removed sub-agent leaves its root marked
      ([removed_child_leaves_root_active]).  What the view model shows was stored
      in every run that is orderly ([shown_rows_stored]); the two orders left out
      show stale rows: a retry may replay them ([retry_replays_stale]) and a load
      may commit after its eviction ([evicted_load_commits]).  The projects with something
      unread are exact ([unread_exact]).
    - Pages of the list: what a catalogue holds is what the pages accepted since
      it was last refreshed hold, in order ([catalogue_prefix_linked]); a drain reads what was asked for
      ([ensure_reads_enough]) and ends ([drain_terminates]), and a demand that comes
      too late is not read ([late_ensure_unread]).
    - Open conversations: resident rows are counted and the windows nobody holds
      stay in their budget ([resident_rows_counted], [windows_within_budget]), the
      resident range rolls with the history ([resident_range_rolls]) and what is
      told of the interest agrees with who holds or shows a thread
      ([interest_settles]); the refresh of an evicted window never ends
      ([evicted_refresh_never_ends]).
    - The voice: speech is sent in order, in full batches and once
      ([speech_sent_in_order], [batches_are_full]) and finishing waits for all of it
      ([finish_waits_for_all]); at most one transport is open
      ([one_transport_at_a_time]), unless a stop was refused and its caller goes on
      ([refused_pause_resumed], [refused_resume_replaced]).
    - Untrusted input: a response or frame is accepted whole or refused
      ([parse_response_sound], [frame_all_or_nothing]); queued input reads back as it
      was written, its attachments under the ids made of their places
      ([queued_input_roundtrip]).
    - The Supervisor: it is told only of news ([attention_is_news]), an
      acknowledgement is final ([acknowledged_once]), retention drops the oldest
      ([retention_keeps_newest]) and a forgotten connection leaves nothing
      ([connection_forgotten]); an accepted answer is sent as it was given, in the
      shape of its request ([response_exact]), but for one to a question named
      __proto__, which is lost ([prototype_answer_lost]), and what is offered is
      accepted ([offered_is_accepted]).
    - Tools: a cursor is read back as it was printed ([cursors_roundtrip]),
      following the cursors of a chat shows all of it once ([chat_read_whole]) in
      pages of bounded size ([page_bytes_bounded]), and a request is settled by one
      bounded response to an accepted call ([tool_requests_sound]); a message just
      below the bound cannot be read ([large_message_unreadable]) and a surrogate
      on its own is counted short ([lone_surrogate_undercounted]).
    - Drawing: every item is drawn once and in order ([window_partition],
      [active_order], [completed_content]), caches return what would be computed
      ([sequence_cached]).

    ** Not modelled

    React components, hooks and styles; native modules and the transport; the
    SQLite and TanStack DB stores, of which only the rows they keep and the
    decisions about them are modelled: of thread-detail-database.native.ts not
    the chat publication, the asynchronous reads of stored windows and the range
    requests to the companion; the Rust, Swift and Kotlin programs; the
    parsers of third-party packages and what is built on their trees; generated
    protocol bindings; scripts and tests.  The session of one voice call
    (globalSupervisorRuntime.ts), the operations of globalSupervisorTools.ts other
    than reading and listing chats, the voice input controller and the collection runtime of
    packages/tanstack-db-sqlite are left out too: what they do is in the order in
    which they call the audio session, the RPC client and the database, whose
    behaviour would have to be assumed. *)
From Stdlib Require Export ZArith NArith Ascii Lia.
From stdpp Require Export base numbers strings pretty sets list.

Open Scope Z_scope.

(** ** Scope, hint database and tactics of the development *)

Declare Scope js_scope.
Delimit Scope js_scope with js.
Open Scope js_scope.

Create HintDb codewide.

(** [js_case] splits every [match]/[if] scrutinee of the goal, keeping the
    equations, and cleans up; [js_case in H] does so in a hypothesis. *)
Ltac js_case := repeat (case_match; simplify_eq/=; try done).

(** Turns the boolean tests of the code into propositions. *)
Ltac bool_prop :=
  repeat match goal with
  | H : _ && _ = true |- _ => apply andb_true_iff in H; destruct H
  | H : _ || _ = false |- _ => apply orb_false_iff in H; destruct H
  | H : negb _ = true |- _ => apply negb_true_iff in H
  | H : negb _ = false |- _ => apply negb_false_iff in H
  | H : bool_decide _ = true |- _ => apply bool_decide_eq_true in H
  | H : bool_decide _ = false |- _ => apply bool_decide_eq_false in H
  | H : (_ <=? _)%nat = true |- _ => apply Nat.leb_le in H
  | H : (_ <=? _)%nat = false |- _ => apply Nat.leb_gt in H
  | H : (_ <? _)%nat = true |- _ => apply Nat.ltb_lt in H
  | H : (_ <? _)%nat = false |- _ => apply Nat.ltb_ge in H
  | H : (_ =? _)%nat = true |- _ => apply Nat.eqb_eq in H
  | H : (_ =? _)%nat = false |- _ => apply Nat.eqb_neq in H
  | H : (_ <=? _) = true |- _ => apply Z.leb_le in H
  | H : (_ <=? _) = false |- _ => apply Z.leb_gt in H
  | H : (_ <? _) = true |- _ => apply Z.ltb_lt in H
  | H : (_ <? _) = false |- _ => apply Z.ltb_ge in H
  | H : (_ =? _) = true |- _ => apply Z.eqb_eq in H
  | H : (_ =? _) = false |- _ => apply Z.eqb_neq in H
  end.

(** ** JavaScript strings

    A JavaScript string is a sequence of UTF-16 code units; [s.length] is the
    number of units and [s.slice(a, b)] cuts between units.  [js] turns an
    ASCII literal into its code units. *)

Abbreviation jstr := (list N).

Definition js (s : string) : jstr := N_of_ascii <$> String.list_ascii_of_string s.

Arguments js : simpl never.

(** [s.slice(from)] and [s.slice(0, upto)] for non-negative arguments. *)
Definition slice_from (from : nat) (s : jstr) : jstr := drop from s.
Definition slice_to (upto : nat) (s : jstr) : jstr := take upto s.

(** ** Arrays *)

Section arrays.
Context {A : Type}.
Implicit Types (p : A -> bool) (l : list A).

(** [array.findIndex(p)], with [None] for [-1]. *)
Fixpoint findIndex p l : option nat :=
  match l with
  | [] => None
  | x :: l => if p x then Some 0%nat else S <$> findIndex p l
  end.

Lemma findIndex_Some p l i :
  findIndex p l = Some i ->
  exists x, l !! i = Some x /\ p x = true /\
            forall j y, (j < i)%nat -> l !! j = Some y -> p y = false.
Proof.
  revert i. induction l as [|x l IH]; intros i; simpl; [done|].
  destruct (p x) eqn:Hx.
  - intros [= <-]. exists x. split_and!; [done|done|lia].
  - destruct (findIndex p l) as [k|]; intros [= <-].
    destruct (IH k eq_refl) as (y & Hy & Hp & Hlt).
    exists y. split_and!; [done|done|].
    intros [|j] z Hj; simpl; [by intros [= <-]|]. apply Hlt. lia.
Qed.

Lemma findIndex_None p l :
  findIndex p l = None <-> Forall (fun x => p x = false) l.
Proof.
  induction l as [|x l IH]; simpl; [done|].
  rewrite Forall_cons, <- IH. destruct (p x).
  - split; [done|by intros [? _]].
  - destruct (findIndex p l); simpl; split; try done; by intros [_ ?].
Qed.

Lemma findIndex_lt p l i : findIndex p l = Some i -> (i < length l)%nat.
Proof. intros (x & Hx & _)%findIndex_Some. by eapply lookup_lt_Some. Qed.

Lemma findIndex_ext p q l :
  (forall x, x ∈ l -> p x = q x) -> findIndex p l = findIndex q l.
Proof.
  induction l as [|x l IH]; intros H; simpl; [done|].
  rewrite (H x), IH; set_solver.
Qed.

Lemma findIndex_is_Some p l :
  is_Some (findIndex p l) <-> exists x, x ∈ l /\ p x = true.
Proof.
  induction l as [|x l IH]; simpl.
  - split; [by intros [? [=]]|]. intros (? & ?%elem_of_nil & _); done.
  - destruct (p x) eqn:Hx.
    + split; [|by eauto]. intros _. exists x. by rewrite elem_of_cons; auto.
    + rewrite fmap_is_Some, IH. split.
      * intros (y & ? & ?). exists y. rewrite elem_of_cons; auto.
      * intros (y & [->|?]%elem_of_cons & ?); [congruence|]. eauto.
Qed.

(** [array.some(p)]. *)
Lemma existsb_elem p l : existsb p l = true <-> exists x, x ∈ l /\ p x = true.
Proof.
  rewrite existsb_exists. by setoid_rewrite <- list_elem_of_In.
Qed.

End arrays.

#[export] Hint Resolve findIndex_lt : codewide.

(** [array.slice(-n)] for [n > 0]: the last [n] elements. *)
Definition slice_last {A} (n : nat) (l : list A) : list A := drop (length l - n) l.

Lemma slice_last_length {A} (n : nat) (l : list A) :
  (length (slice_last n l) <= n)%nat.
Proof. unfold slice_last. rewrite length_drop. lia. Qed.

(** Elements with distinct images are told apart by them. *)
Lemma same_image {A B} (f : A -> B) (l : list A) a b :
  NoDup (f <$> l) -> a ∈ l -> b ∈ l -> f a = f b -> a = b.
Proof.
  intros Hn [i Hi]%list_elem_of_lookup_1 [j Hj]%list_elem_of_lookup_1 E.
  assert (i = j); [|subst; congruence].
  apply (NoDup_lookup _ _ _ (f a) Hn); rewrite list_lookup_fmap; [by rewrite Hi|rewrite Hj; simpl; congruence].
Qed.

(** Overwriting an element with a new one keeps a list free of duplicates. *)
Lemma NoDup_insert {A} (l : list A) i x : NoDup l -> x ∉ l -> NoDup (<[i := x]> l).
Proof.
  rewrite !NoDup_alt. intros Hnd Hx j k y Hj Hk. rewrite list_lookup_insert in Hj, Hk.
  repeat case_decide; simplify_eq; try lia; try (by eapply Hnd).
  - exfalso. apply Hx. by eapply list_elem_of_lookup_2.
  - exfalso. apply Hx. by eapply list_elem_of_lookup_2.
Qed.

(** [s.startsWith(t)] and [s.endsWith(t)]. *)
Definition startsWith (t s : jstr) : bool := bool_decide (take (length t) s = t).
Definition endsWith (t s : jstr) : bool :=
  bool_decide (length t <= length s)%nat && bool_decide (drop (length s - length t) s = t).

Lemma startsWith_spec t s : startsWith t s = true <-> t `prefix_of` s.
Proof.
  unfold startsWith. rewrite bool_decide_eq_true. split.
  - intros <-. exists (drop (length (take (length t) s)) s).
    rewrite length_take. destruct (decide (length t <= length s)%nat).
    + rewrite Nat.min_l by done. by rewrite take_drop.
    + rewrite Nat.min_r by lia. rewrite (take_ge s), drop_ge by lia. by rewrite app_nil_r.
  - intros [k ->]. by rewrite take_app_length.
Qed.

(** [array.takeWhile]-style prefixes, for the character classes of the regular
    expressions. *)
Section while.
Context {A : Type} (p : A -> bool).

Fixpoint takeWhile (l : list A) : list A :=
  match l with
  | [] => []
  | x :: l => if p x then x :: takeWhile l else []
  end.

Fixpoint dropWhile (l : list A) : list A :=
  match l with
  | [] => []
  | x :: l' => if p x then dropWhile l' else l
  end.

Lemma takeWhile_dropWhile l : takeWhile l ++ dropWhile l = l.
Proof. induction l as [|x l IH]; simpl; [done|]. destruct (p x); simpl; congruence. Qed.

Lemma takeWhile_Forall l : Forall (fun x => p x = true) (takeWhile l).
Proof. induction l as [|x l IH]; simpl; [done|]. by destruct (p x) eqn:?; constructor. Qed.

Lemma takeWhile_app_stop l x l' :
  Forall (fun x => p x = true) l -> p x = false -> takeWhile (l ++ x :: l') = l.
Proof.
  intros Hl Hx. induction Hl as [|y l Hy _ IH]; simpl; [by rewrite Hx|].
  by rewrite Hy, IH.
Qed.

Lemma dropWhile_app_stop l x l' :
  Forall (fun x => p x = true) l -> p x = false -> dropWhile (l ++ x :: l') = x :: l'.
Proof.
  intros Hl Hx. induction Hl as [|y l Hy _ IH]; simpl; [by rewrite Hx|].
  by rewrite Hy.
Qed.

Lemma takeWhile_app_all l l' :
  Forall (fun x => p x = true) l -> takeWhile (l ++ l') = l ++ takeWhile l'.
Proof.
  intros Hl. induction Hl as [|y l Hy _ IH]; simpl; [done|]. by rewrite Hy, IH.
Qed.

Lemma dropWhile_app_all l l' :
  Forall (fun x => p x = true) l -> dropWhile (l ++ l') = dropWhile l'.
Proof.
  intros Hl. induction Hl as [|y l Hy _ IH]; simpl; [done|]. by rewrite Hy, IH.
Qed.

Lemma takeWhile_head_false l :
  (forall x, head l = Some x -> p x = false) -> takeWhile l = [] /\ dropWhile l = l.
Proof. destruct l as [|x l]; simpl; [done|]. intros H. by rewrite (H x eq_refl). Qed.

End while.

Lemma findIndex_app_stop {A} (p : A -> bool) l x l' :
  Forall (fun y => p y = false) l -> p x = true ->
  findIndex p (l ++ x :: l') = Some (length l).
Proof.
  intros Hl Hx. induction Hl as [|y l Hy _ IH]; simpl; [by rewrite Hx|].
  by rewrite Hy, IH.
Qed.

(** ** [array.sort] with a comparator: a stable sort

    [le a b] is [compare(a, b) <= 0]; equal elements keep their order. *)
Section sort.
Context {A : Type} (le : A -> A -> bool).

Fixpoint insertBy (x : A) (l : list A) : list A :=
  match l with
  | [] => [x]
  | y :: l' => if le x y then x :: l else y :: insertBy x l'
  end.

Fixpoint sortBy (l : list A) : list A :=
  match l with [] => [] | x :: l => insertBy x (sortBy l) end.

Lemma insertBy_perm x l : insertBy x l ≡ₚ x :: l.
Proof.
  induction l as [|y l IH]; simpl; [done|]. destruct (le x y); [done|].
  rewrite IH. apply Permutation_swap.
Qed.

Lemma sortBy_perm l : sortBy l ≡ₚ l.
Proof. induction l as [|x l IH]; simpl; [done|]. by rewrite insertBy_perm, IH. Qed.

(** Sorted for a total preorder. *)
Hypothesis le_total : forall x y, le x y = true \/ le y x = true.
Hypothesis le_trans : forall x y z, le x y = true -> le y z = true -> le x z = true.

Definition ordered (l : list A) : Prop :=
  forall i j x y, (i < j)%nat -> l !! i = Some x -> l !! j = Some y -> le x y = true.

Lemma ordered_cons x l : ordered (x :: l) <-> Forall (fun y => le x y = true) l /\ ordered l.
Proof.
  split.
  - intros H. split.
    + apply Forall_lookup. intros j y Hj. by apply (H 0%nat (S j) x y); [lia|..].
    + intros i j y z Hij Hi Hj. by apply (H (S i) (S j) y z); [lia|..].
  - intros [Hx Hl] [|i] [|j] y z Hij Hi Hj; simpl in *; try lia; simplify_eq.
    + by apply (Forall_lookup_1 _ _ _ _ Hx Hj).
    + apply (Hl i j); [lia|done..].
Qed.

Lemma insertBy_ordered x l : ordered l -> ordered (insertBy x l).
Proof.
  induction l as [|y l IH]; simpl; [intros _; apply ordered_cons; split; [done|by intros ???? _ ?]|].
  intros Hl. pose proof Hl as [Hy Hl']%ordered_cons. destruct (le x y) eqn:E.
  - apply ordered_cons. split; [|done]. constructor; [done|].
    eapply Forall_impl; [exact Hy|]. intros z. by apply le_trans.
  - apply ordered_cons. split; [|by apply IH].
    assert (le y x = true) by (destruct (le_total x y); congruence).
    rewrite insertBy_perm. by constructor.
Qed.

Lemma sortBy_ordered l : ordered (sortBy l).
Proof. induction l as [|x l IH]; simpl; [by intros ???? _ ?|]. by apply insertBy_ordered. Qed.
End sort.
