(* ===== verification/Indexes.v ===== *)
(** * Lists of array positions

    Shared lemmas on [array.entries()] filtered by a test, on ascending lists of
    positions, and on sorting positions numerically. *)
From Stdlib Require Import Sorted.
From S2P Require Import Prelude.

Local Open Scope nat_scope.

(** [indexes.sort((left, right) => left - right)]. *)
Definition sortNat (l : list nat) : list nat := sortBy Nat.leb l.

(** The positions of the elements that pass a test, in order. *)
Definition indexesOf {A} (p : nat * A -> bool) (l : list A) : list nat :=
  (filter (fun e => p e) (imap pair l)).*1.

(** Ascending lists: filtering keeps the order, and sorting restores it. *)
Definition ascending (l : list nat) : Prop := StronglySorted lt l.

(** ** Indexed lists *)

Section indexed.
Context {A : Type}.
Implicit Types (l : list A) (p : nat * A -> bool).

Lemma imap_pair_lookup l i e : imap pair l !! i = Some e <-> exists x, l !! i = Some x /\ e = (i, x).
Proof.
  rewrite list_lookup_imap. destruct (l !! i) as [x|]; simpl.
  - split; [intros [= <-]; eauto|]. by intros (y & [= ->] & ->).
  - split; [done|]. by intros (y & ? & _).
Qed.

Lemma elem_of_indexed l i x : (i, x) ∈ imap pair l <-> l !! i = Some x.
Proof.
  rewrite list_elem_of_lookup. setoid_rewrite imap_pair_lookup. split.
  - intros (j & y & Hj & [= -> ->]). done.
  - intros H. eauto.
Qed.

Lemma elem_of_indexesOf p l i : i ∈ indexesOf p l <-> exists x, l !! i = Some x /\ p (i, x) = true.
Proof.
  unfold indexesOf. rewrite list_elem_of_fmap. split.
  - intros ([j x] & -> & [Hp Hin%elem_of_indexed]%list_elem_of_filter).
    exists x. split; [done|]. by apply Is_true_true.
  - intros (x & Hx & Hp). exists (i, x). split; [done|].
    apply list_elem_of_filter. split; [by apply Is_true_true|by apply elem_of_indexed].
Qed.

Lemma imap_pair_fst l : (imap pair l).*1 = seq 0 (length l).
Proof.
  rewrite fmap_imap. apply list_eq. intros i. rewrite list_lookup_imap. simpl.
  destruct (l !! i) as [x|] eqn:E; simpl.
  - symmetry. apply lookup_seq. split; [done|]. by eapply lookup_lt_Some.
  - symmetry. apply lookup_seq_ge. by apply lookup_ge_None.
Qed.

End indexed.

Lemma ascending_seq k n : ascending (seq k n).
Proof.
  revert k. induction n as [|n IH]; intros k; simpl; constructor; [apply IH|].
  apply Forall_forall. intros x [? _]%elem_of_seq. lia.
Qed.

Lemma Forall_filter_in {A} (P : A -> Prop) (Q : A -> Prop) `{!forall x, Decision (Q x)} (l : list A) :
  Forall P l -> Forall P (filter Q l).
Proof. rewrite !Forall_forall. intros Hl x [_ Hx]%list_elem_of_filter. by apply Hl. Qed.

Lemma ascending_filter (Q : nat -> Prop) `{!forall x, Decision (Q x)} (l : list nat) :
  ascending l -> ascending (filter Q l).
Proof.
  unfold ascending. induction 1 as [|x l Hl IH Hx]; [constructor|].
  destruct (decide (Q x)).
  - rewrite filter_cons_True by done. constructor; [done|]. by apply Forall_filter_in.
  - by rewrite filter_cons_False by done.
Qed.

Lemma ascending_fst {A} (p : nat * A -> bool) (l : list (nat * A)) :
  ascending l.*1 -> ascending (filter (fun e => p e) l).*1.
Proof.
  induction l as [|[i x] l IH]; simpl; [done|].
  intros [Hl Hi]%StronglySorted_inv. destruct (decide (p (i, x))).
  - rewrite filter_cons_True by done. simpl. constructor; [by apply IH|].
    rewrite Forall_forall in Hi |- *. intros j ([k y] & -> & [_ Hk]%list_elem_of_filter)%list_elem_of_fmap.
    apply Hi. apply list_elem_of_fmap. by exists (k, y).
  - rewrite filter_cons_False by done. by apply IH.
Qed.

Lemma ascending_indexesOf {A} (p : nat * A -> bool) (l : list A) : ascending (indexesOf p l).
Proof. apply ascending_fst. rewrite imap_pair_fst. apply ascending_seq. Qed.

Lemma ascending_NoDup l : ascending l -> NoDup l.
Proof.
  induction 1 as [|x l Hl IH Hx]; constructor; [|done].
  rewrite Forall_forall in Hx. intros Hin. specialize (Hx x Hin). lia.
Qed.

Lemma ascending_lookup l i j x y :
  ascending l -> (i < j)%nat -> l !! i = Some x -> l !! j = Some y -> x < y.
Proof.
  intros H. revert i j. induction H as [|a l Hl IH Ha]; intros [|i] [|j] Hij Hi Hj;
    simpl in *; simplify_eq; try lia.
  - rewrite Forall_forall in Ha. apply Ha. by eapply list_elem_of_lookup_2.
  - apply (IH i j); [lia|done|done].
Qed.

Lemma ascending_drop n l : ascending l -> ascending (drop n l).
Proof.
  intros H. revert n. induction H as [|a l Hl IH Ha]; intros [|n]; simpl; try done.
  - constructor.
  - constructor.
  - by constructor.
Qed.

Lemma sortNat_perm l : sortNat l ≡ₚ l.
Proof. apply sortBy_perm. Qed.

Lemma sortNat_ascending l : NoDup l -> ascending (sortNat l).
Proof.
  intros Hnd. assert (Hn : NoDup (sortNat l)) by by rewrite sortNat_perm.
  assert (Ho : ordered Nat.leb (sortNat l)).
  { apply sortBy_ordered.
    - intros x y. destruct (Nat.leb_spec x y); [by left|right]. apply Nat.leb_le. lia.
    - intros x y z ?%Nat.leb_le ?%Nat.leb_le. apply Nat.leb_le. lia. }
  revert Hn Ho. generalize (sortNat l). clear. intros l. induction l as [|x l IH]; [constructor|].
  intros [Hx Hl]%NoDup_cons [Hle Ho]%ordered_cons. constructor; [by apply IH|].
  rewrite Forall_forall in Hle |- *. intros y Hy.
  specialize (Hle y Hy). apply Nat.leb_le in Hle.
  assert (x <> y) by (intros ->; done). lia.
Qed.

Lemma ascending_app l1 l2 : ascending (l1 ++ l2) -> forall x y, x ∈ l1 -> y ∈ l2 -> x < y.
Proof.
  induction l1 as [|a l1 IH]; simpl; [set_solver|].
  intros [Hl Ha]%StronglySorted_inv x y [->|Hx]%elem_of_cons Hy; [|by apply IH].
  rewrite Forall_forall in Ha. apply Ha. set_solver.
Qed.

(** [last] of the filtered positions: what a scan that keeps the latest match ends with. *)
Lemma last_indexesOf {A} (p : nat * A -> bool) (l : list A) i :
  last (indexesOf p l) = Some i <->
  (exists x, l !! i = Some x /\ p (i, x) = true)
  /\ (forall j x, i < j -> l !! j = Some x -> p (j, x) = false).
Proof.
  split.
  - intros H. pose proof H as Hin%last_Some_elem_of%elem_of_indexesOf. split; [done|].
    apply last_Some in H as [k Hk]. intros j x Hij Hj. apply not_true_iff_false. intros Hp.
    assert (j ∈ indexesOf p l) as Hj' by (apply elem_of_indexesOf; eauto).
    rewrite Hk in Hj'. apply elem_of_app in Hj' as [Hj'|Hj']; [|set_solver by lia].
    pose proof (ascending_indexesOf p l) as Ha. rewrite Hk in Ha.
    pose proof (ascending_app _ _ Ha j i Hj' ltac:(set_solver)). lia.
  - intros [Hx Hlast]. destruct (last (indexesOf p l)) as [j|] eqn:E.
    + f_equal. pose proof E as Hj%last_Some_elem_of%elem_of_indexesOf.
      destruct Hj as (y & Hy & Hpy). destruct (lt_eq_lt_dec i j) as [[?|?]|?]; [|done|].
      * rewrite (Hlast j y) in Hpy; done.
      * assert (i ∈ indexesOf p l) as Hi by (apply elem_of_indexesOf; eauto).
        apply last_Some in E as [k Hk]. rewrite Hk in Hi.
        apply elem_of_app in Hi as [Hi|Hi]; [|set_solver by lia].
        pose proof (ascending_indexesOf p l) as Ha. rewrite Hk in Ha.
        pose proof (ascending_app _ _ Ha i j Hi ltac:(set_solver)). lia.
    + apply last_None in E.
      assert (i ∈ indexesOf p l) as Hi by (apply elem_of_indexesOf; eauto).
      rewrite E in Hi. by apply elem_of_nil in Hi.
Qed.

(** ** Filtering, extensionality and disjoint unions *)

Section filters.
Context {A : Type}.
Implicit Types (p q : nat * A -> bool) (l : list A).

Lemma filter_indexesOf p (q : nat -> bool) l :
  filter (fun i => q i) (indexesOf p l) = indexesOf (fun e => p e && q e.1) l.
Proof.
  unfold indexesOf. induction (imap pair l) as [|[i x] es IH]; [done|].
  rewrite (filter_cons (fun e => p e)), (filter_cons (fun e => p e && q e.1)). simpl.
  destruct (p (i, x)) eqn:Hp; simpl; [|done].
  rewrite filter_cons.
  destruct (q i) eqn:Hq; simpl; [f_equal|]; exact IH.
Qed.

Lemma indexesOf_ext p q l :
  (forall i x, l !! i = Some x -> p (i, x) = q (i, x)) -> indexesOf p l = indexesOf q l.
Proof.
  intros H. unfold indexesOf. f_equal.
  assert (Hin : forall e, e ∈ imap pair l -> p e = q e).
  { intros [i x] He%elem_of_indexed. by apply H. }
  clear H. induction (imap pair l) as [|e es IH]; [done|].
  assert (He : p e = q e) by (apply Hin; set_solver).
  rewrite !filter_cons. rewrite IH by (intros; apply Hin; set_solver).
  destruct (p e) eqn:E, (q e) eqn:E'; try done; congruence.
Qed.

Lemma indexesOf_or p q l :
  (forall i x, l !! i = Some x -> p (i, x) = true -> q (i, x) = false) ->
  indexesOf (fun e => p e || q e) l ≡ₚ indexesOf p l ++ indexesOf q l.
Proof.
  intros H. unfold indexesOf. rewrite <- fmap_app. apply fmap_Permutation.
  assert (Hin : forall e, e ∈ imap pair l -> p e = true -> q e = false).
  { intros [i x] He%elem_of_indexed. by apply H. }
  clear H. induction (imap pair l) as [|e es IH]; [done|].
  specialize (IH ltac:(intros; apply Hin; set_solver)).
  specialize (Hin e ltac:(set_solver)). rewrite !filter_cons.
  destruct (p e) eqn:Hp, (q e) eqn:Hq; simpl.
  - specialize (Hin eq_refl). congruence.
  - by rewrite IH.
  - rewrite IH. by rewrite <- Permutation_middle.
  - done.
Qed.

Lemma indexesOf_none p l :
  (forall i x, l !! i = Some x -> p (i, x) = false) -> indexesOf p l = [].
Proof.
  intros H. destruct (indexesOf p l) as [|i k] eqn:E; [done|].
  assert (i ∈ indexesOf p l) as (x & Hx & Hp)%elem_of_indexesOf by (rewrite E; set_solver).
  rewrite (H i x Hx) in Hp. done.
Qed.

Lemma mem_indexesOf p l i x : l !! i = Some x -> bool_decide (i ∈ indexesOf p l) = p (i, x).
Proof.
  intros Hx. destruct (p (i, x)) eqn:Hp.
  - apply bool_decide_eq_true, elem_of_indexesOf. eauto.
  - apply bool_decide_eq_false. intros (y & Hy & Hpy)%elem_of_indexesOf. congruence.
Qed.

Lemma indexesOf_single l i x :
  l !! i = Some x -> indexesOf (fun e => bool_decide (i = e.1)) l = [i].
Proof.
  intros Hx.
  assert (H : forall j, j ∈ indexesOf (fun e => bool_decide (i = e.1)) l <-> j = i).
  { intros j. rewrite elem_of_indexesOf. split.
    - by intros (y & _ & Hj%bool_decide_eq_true).
    - intros ->. exists x. by rewrite bool_decide_true. }
  pose proof (ascending_NoDup _ (ascending_indexesOf (fun e => bool_decide (i = e.1)) l)) as Hnd.
  destruct (indexesOf _ l) as [|a [|b k]].
  - specialize (H i). set_solver.
  - f_equal. apply H. set_solver.
  - apply NoDup_cons in Hnd as [Ha _].
    rewrite (proj1 (H a)), (proj1 (H b)) in Ha by set_solver. set_solver.
Qed.
End filters.

Lemma indexesOf_snoc {A} (p : nat * A -> bool) (l : list A) x :
  indexesOf p (l ++ [x])
  = indexesOf p l ++ (if p (length l, x) then [length l] else []).
Proof.
  unfold indexesOf. rewrite imap_app, filter_app, fmap_app. f_equal. simpl.
  rewrite Nat.add_0_r, filter_cons. by destruct (p (length l, x)).
Qed.

Lemma filter_all {A} (p : A -> bool) (l : list A) :
  (forall x, x ∈ l -> p x = true) -> filter (fun x => p x) l = l.
Proof.
  induction l as [|x l IH]; intros H; [done|].
  rewrite filter_cons_True by (rewrite H by set_solver; done). f_equal. apply IH. set_solver.
Qed.

Lemma filter_nothing {A} (p : A -> bool) (l : list A) :
  (forall x, x ∈ l -> p x = false) -> filter (fun x => p x) l = [].
Proof.
  induction l as [|x l IH]; intros H; [done|].
  rewrite filter_cons_False by (rewrite H by set_solver; by intros ?). apply IH. set_solver.
Qed.

(** Cutting the last [n] elements of a list into another list leaves the first ones. *)
Lemma filter_cut_tail (l other : list nat) n :
  NoDup l -> (forall x, x ∈ other -> x ∉ l) ->
  filter (fun i => negb (bool_decide (i ∈ sortNat (other ++ drop n l)))) l = take n l.
Proof.
  intros Hnd Hdis. rewrite <- (take_drop n l) in Hnd.
  apply NoDup_app in Hnd as (_ & Hsep & _).
  transitivity (filter (fun i => negb (bool_decide (i ∈ sortNat (other ++ drop n l)))) (take n l ++ drop n l));
    [by rewrite take_drop|].
  rewrite filter_app, (filter_all _ (take n l)), filter_nothing, app_nil_r; [done|..].
  - intros x Hx. rewrite bool_decide_true; [done|]. rewrite sortNat_perm. set_solver.
  - intros x Hx. rewrite bool_decide_false; [done|]. rewrite sortNat_perm, elem_of_app.
    intros [Ho|Hd]; [|by apply (Hsep x)].
    apply (Hdis x Ho). rewrite <- (take_drop n l). set_solver.
Qed.

Lemma ascending_app_1 l1 l2 : ascending (l1 ++ l2) -> ascending l1.
Proof.
  unfold ascending. induction l1 as [|x l1 IH]; simpl; [constructor|].
  intros [Hl Hx]%StronglySorted_inv. constructor; [by apply IH|].
  rewrite Forall_app in Hx. tauto.
Qed.

(** Ascending lists are determined by their elements. *)
Lemma ascending_perm_eq l1 l2 : ascending l1 -> ascending l2 -> l1 ≡ₚ l2 -> l1 = l2.
Proof.
  intros H1. revert l2. induction H1 as [|x l1 H1 IH Hx]; intros l2 H2 Hp.
  - by apply Permutation_nil_l in Hp.
  - destruct H2 as [|y l2 H2 Hy]; [by apply Permutation_nil_r in Hp|].
    rewrite Forall_forall in Hx, Hy.
    assert (x = y) as <-.
    { assert (Hxin : x ∈ y :: l2) by (rewrite <- Hp; set_solver).
      assert (Hyin : y ∈ x :: l1) by (rewrite Hp; set_solver).
      apply elem_of_cons in Hxin as [->|Hxin]; [done|].
      apply elem_of_cons in Hyin as [->|Hyin]; [done|].
      specialize (Hx y Hyin). specialize (Hy x Hxin). lia. }
    f_equal. apply IH; [done|]. by apply (inj (cons x)) in Hp.
Qed.

(** The entry of one position. *)
Lemma filter_position {A} (l : list A) n x :
  l !! n = Some x -> filter (fun e => e.1 = n) (imap pair l) = [(n, x)].
Proof.
  revert n. induction l as [|y l IH] using rev_ind; [done|]. intros n Hn.
  rewrite imap_app, filter_app. simpl. rewrite Nat.add_0_r.
  destruct (decide (n = length l)) as [->|Hne].
  - rewrite lookup_app_r, Nat.sub_diag in Hn by done. injection Hn as ->.
    rewrite filter_cons_True by done. rewrite filter_nil.
    destruct (filter (fun e => e.1 = length l) (imap pair l)) as [|[i z] k] eqn:E; [done|].
    assert ((i, z) ∈ (i, z) :: k) as Hi by set_solver. rewrite <- E in Hi.
    apply list_elem_of_filter in Hi as [Hil Hi%elem_of_indexed]. simpl in Hil. subst i.
    apply lookup_lt_Some in Hi. lia.
  - assert (Hlt := lookup_lt_Some _ _ _ Hn). rewrite length_app in Hlt. simpl in Hlt.
    rewrite lookup_app_l in Hn by lia. rewrite (IH n Hn).
    by rewrite filter_cons_False by (simpl; congruence).
Qed.

Lemma filter_single {A} (p : A -> bool) x : filter (fun x => p x) [x] = if p x then [x] else [].
Proof. rewrite filter_cons. by destruct (p x). Qed.

Lemma imap_pair_snd {A} (l : list A) : (imap pair l).*2 = l.
Proof. rewrite fmap_imap. apply list_eq. intros i. rewrite list_lookup_imap. by destruct (l !! i). Qed.

(** [array.filter((_, index) => index !== i)]. *)
Lemma cut_position {A} (l : list A) i :
  (filter (fun e => bool_decide (Some i <> Some e.1)) (imap pair l)).*2 = delete i l.
Proof.
  revert i. induction l as [|x l IH] using rev_ind; intros i; [done|].
  rewrite imap_app, filter_app, fmap_app. rewrite IH. simpl. rewrite Nat.add_0_r, filter_single. simpl.
  rewrite !delete_take_drop. case_bool_decide as Hi.
  - simpl. destruct (decide (i < length l)).
    + by rewrite take_app_le, drop_app_le, (assoc_L (++)) by lia.
    + assert (i <> length l) by congruence.
      rewrite (take_ge l), (drop_ge l), (take_ge (l ++ [x])), (drop_ge (l ++ [x]))
        by (rewrite ?length_app; simpl; lia). by rewrite !app_nil_r.
  - injection Hi as ->.
    simpl. rewrite take_app_length, (take_ge l), (drop_ge l), (drop_ge (l ++ [x]))
      by (rewrite ?length_app; simpl; lia). by rewrite !app_nil_r.
Qed.
