(* ===== verification/JsMap.v ===== *)
(** * Insertion-ordered maps and sets

    [Map], [Set] and the string-keyed part of an object: [set] on a present
    key keeps the key's position, on a new key appends; iteration follows
    insertion order.  Modelled as association lists. *)
From S2P Require Import Prelude.

Section maps.
Context {K V : Type} `{EqDecision K}.
Implicit Types (m : list (K * V)) (k : K) (v : V).

Fixpoint mget k m : option V :=
  match m with
  | [] => None
  | (k', v) :: m => if bool_decide (k' = k) then Some v else mget k m
  end.

Fixpoint mset k v m : list (K * V) :=
  match m with
  | [] => [(k, v)]
  | (k', v') :: m => if bool_decide (k' = k) then (k, v) :: m else (k', v') :: mset k v m
  end.

Fixpoint mdel k m : list (K * V) :=
  match m with
  | [] => []
  | (k', v') :: m => if bool_decide (k' = k) then mdel k m else (k', v') :: mdel k m
  end.

Definition mhas k m : bool := bool_decide (is_Some (mget k m)).

Definition mkeys m : list K := m.*1.
Definition mvals m : list V := m.*2.

(** [new Map(entries)]. *)
Definition mfrom (es : list (K * V)) : list (K * V) :=
  foldl (fun m e => mset e.1 e.2 m) [] es.

Definition mwf m : Prop := NoDup (mkeys m).

Lemma mkeys_cons k v m : mkeys ((k, v) :: m) = k :: mkeys m.
Proof. done. Qed.

Lemma mget_mset_eq k v m : mget k (mset k v m) = Some v.
Proof.
  induction m as [|[k' v'] m IH]; simpl; [by rewrite bool_decide_true|].
  case_bool_decide; simpl; [by rewrite bool_decide_true|].
  by rewrite bool_decide_false.
Qed.

Lemma mget_mset_ne k k' v m : k <> k' -> mget k (mset k' v m) = mget k m.
Proof.
  intros Hne. induction m as [|[k0 v0] m IH]; simpl.
  - by rewrite bool_decide_false by congruence.
  - case_bool_decide; simpl; subst.
    + by rewrite !bool_decide_false by congruence.
    + by rewrite IH.
Qed.

Lemma mget_mset k k' v m :
  mget k (mset k' v m) = if bool_decide (k' = k) then Some v else mget k m.
Proof.
  case_bool_decide; subst; [apply mget_mset_eq|by apply mget_mset_ne].
Qed.

Lemma mget_mdel_eq k m : mget k (mdel k m) = None.
Proof.
  induction m as [|[k' v'] m IH]; simpl; [done|].
  case_bool_decide; simpl; [done|]. by rewrite bool_decide_false.
Qed.

Lemma mget_mdel_ne k k' m : k <> k' -> mget k (mdel k' m) = mget k m.
Proof.
  intros Hne. induction m as [|[k0 v0] m IH]; simpl; [done|].
  case_bool_decide; simpl; subst; [|by rewrite IH].
  by rewrite bool_decide_false by congruence.
Qed.

Lemma mget_mdel k k' m :
  mget k (mdel k' m) = if bool_decide (k' = k) then None else mget k m.
Proof.
  case_bool_decide; subst; [apply mget_mdel_eq|by apply mget_mdel_ne].
Qed.

Lemma mget_elem k v m : mget k m = Some v -> (k, v) ∈ m.
Proof.
  induction m as [|[k' v'] m IH]; simpl; [done|].
  case_bool_decide; subst; [intros [= ->]; left|intros; right; auto].
Qed.

Lemma mget_None k m : mget k m = None <-> k ∉ mkeys m.
Proof.
  induction m as [|[k' v'] m IH]; [set_solver|].
  rewrite mkeys_cons. simpl. case_bool_decide; subst; set_solver.
Qed.

Lemma mget_is_Some k m : is_Some (mget k m) <-> k ∈ mkeys m.
Proof.
  rewrite <- not_eq_None_Some, mget_None. split; [apply dec_stable|tauto].
Qed.

Lemma elem_mget k v m : mwf m -> (k, v) ∈ m -> mget k m = Some v.
Proof.
  unfold mwf. induction m as [|[k' v'] m IH]; [set_solver|].
  rewrite mkeys_cons. simpl.
  intros [Hni Hnd]%NoDup_cons [[= -> ->]|Hin]%elem_of_cons.
  - by rewrite bool_decide_true.
  - rewrite bool_decide_false; [auto|]. intros ->. apply Hni.
    by apply (list_elem_of_fmap_2 fst) in Hin.
Qed.

Lemma mkeys_mset k v m :
  mkeys (mset k v m) = if bool_decide (k ∈ mkeys m) then mkeys m else mkeys m ++ [k].
Proof.
  induction m as [|[k' v'] m IH]; [done|]. cbn [mset].
  destruct (decide (k' = k)) as [->|Hk].
  - rewrite (bool_decide_true (k = k)), !mkeys_cons, bool_decide_true by set_solver. done.
  - rewrite bool_decide_false, !mkeys_cons, IH by done.
    repeat case_bool_decide; try done; set_solver.
Qed.

Lemma mset_wf k v m : mwf m -> mwf (mset k v m).
Proof.
  unfold mwf. rewrite mkeys_mset. case_bool_decide; [done|].
  intros Hnd. apply NoDup_app. split_and!; [done|set_solver|apply NoDup_singleton].
Qed.

Lemma mdel_keys k m k' : k' ∈ mkeys (mdel k m) <-> k' <> k /\ k' ∈ mkeys m.
Proof.
  rewrite <- !mget_is_Some, mget_mdel. case_bool_decide; subst.
  - split; [by intros [? [=]]|tauto].
  - naive_solver.
Qed.

Lemma mdel_wf k m : mwf m -> mwf (mdel k m).
Proof.
  unfold mwf. induction m as [|[k' v'] m IH]; [done|]. cbn [mdel].
  rewrite mkeys_cons. intros [Hni Hnd]%NoDup_cons. case_bool_decide; [auto|].
  rewrite mkeys_cons, NoDup_cons, mdel_keys. tauto.
Qed.

Lemma mdel_absent k m : k ∉ mkeys m -> mdel k m = m.
Proof.
  induction m as [|[k' v'] m IH]; [done|]. rewrite mkeys_cons. simpl.
  intros Hni. rewrite bool_decide_false by set_solver. f_equal. set_solver.
Qed.

Lemma mfrom_wf es : mwf (mfrom es).
Proof.
  unfold mfrom. cut (forall m, mwf m -> mwf (foldl (fun m e => mset e.1 e.2 m) m es)).
  { intros H. apply H. apply NoDup_nil_2. }
  induction es as [|e es IH]; intros m Hm; simpl; [done|]. by apply IH, mset_wf.
Qed.

Lemma elem_mset k v m e : e ∈ mset k v m -> e = (k, v) \/ e ∈ m.
Proof.
  induction m as [|[k' v'] m IH]; cbn [mset]; [set_solver|].
  case_bool_decide; set_solver.
Qed.

Lemma elem_mdel k m e : e ∈ mdel k m -> e ∈ m.
Proof. induction m as [|[k' v] m IH]; [done|]. cbn [mdel]. case_bool_decide; set_solver. Qed.

Lemma elem_mvals m v : v ∈ mvals m <-> exists k, (k, v) ∈ m.
Proof.
  unfold mvals. rewrite list_elem_of_fmap. split.
  - intros ([k v'] & -> & Hin). by exists k.
  - intros (k & Hin). by exists (k, v).
Qed.

Lemma in_mvals k v m : (k, v) ∈ m -> v ∈ mvals m.
Proof. intros H. apply elem_mvals. by exists k. Qed.

(** A map built from entries holds only those entries. *)
Lemma mget_mfrom_elem es k v : mget k (mfrom es) = Some v -> (k, v) ∈ es.
Proof.
  intros H%mget_elem. revert H. unfold mfrom.
  cut (forall m, (k, v) ∈ foldl (fun m e => mset e.1 e.2 m) m es -> (k, v) ∈ m \/ (k, v) ∈ es).
  { intros Hc [H|H]%Hc; [by apply elem_of_nil in H|done]. }
  induction es as [|[k' v'] es IH]; intros m; simpl; [auto|].
  intros [H|H]%IH; [|right; by right]. apply elem_mset in H as [->|H]; [right; by left|by left].
Qed.

(** Every key of the entries is a key of the map. *)
Lemma mget_mfrom_has (es : list (K * V)) k : k ∈ es.*1 -> is_Some (mget k (mfrom es)).
Proof.
  unfold mfrom. cut (forall m, k ∈ mkeys m \/ k ∈ es.*1 -> is_Some (mget k (foldl (fun m e => mset e.1 e.2 m) m es))).
  { intros H Hk. apply H. by right. }
  induction es as [|[k' v] es IH]; intros m; simpl.
  - intros [H|H]; [by apply mget_is_Some|by apply elem_of_nil in H].
  - intros H. apply IH. destruct (decide (k' = k)) as [->|Hne].
    + left. apply mget_is_Some. rewrite mget_mset_eq. by eexists.
    + destruct H as [H|[H|H]%elem_of_cons]; [left|congruence|by right].
      apply mget_is_Some. rewrite mget_mset_ne by congruence. by apply mget_is_Some.
Qed.

Lemma mset_same k v m : mget k m = Some v -> mset k v m = m.
Proof.
  induction m as [|[k' v'] m IH]; cbn [mget mset]; [done|].
  case_bool_decide; [intros [= ->]; by subst|]. intros Hm. by rewrite IH.
Qed.

Lemma mset_new k v m : mget k m = None -> mset k v m = m ++ [(k, v)].
Proof.
  induction m as [|[k' v'] m IH]; cbn [mget mset]; [done|].
  case_bool_decide; [done|]. intros Hm. by rewrite IH.
Qed.

(** A list of entries with distinct keys is the map made of it. *)
Lemma mfrom_distinct (es : list (K * V)) : NoDup es.*1 -> mfrom es = es.
Proof.
  unfold mfrom. induction es as [|[k v] es IH] using rev_ind; [done|].
  rewrite fmap_app, foldl_app. simpl. intros (Hes & Hk & _)%NoDup_app. rewrite IH by done.
  assert (Hn : k ∉ mkeys es) by (intros Hin; by apply (Hk k Hin), list_elem_of_singleton).
  clear -Hn. unfold mkeys in Hn. induction es as [|[k' v'] es IH]; simpl in *; [done|].
  rewrite bool_decide_eq_false_2 by set_solver. f_equal. apply IH. set_solver.
Qed.

Lemma mget_distinct (es : list (K * V)) k v :
  NoDup es.*1 -> mget k (mfrom es) = Some v <-> (k, v) ∈ es.
Proof.
  intros Hn. rewrite mfrom_distinct by done. split; [by apply mget_elem|]. by apply elem_mget.
Qed.

Lemma mdel_length k m : mwf m -> k ∈ mkeys m -> S (length (mdel k m)) = length m.
Proof.
  unfold mwf. induction m as [|[k' v'] m IH]; [set_solver|]. rewrite mkeys_cons.
  simpl. intros [Hni Hnd]%NoDup_cons Hin. case_bool_decide; subst.
  - by rewrite mdel_absent.
  - simpl. rewrite IH; [done|done|set_solver].
Qed.

Lemma mdel_le k m : (length (mdel k m) <= length m)%nat.
Proof.
  induction m as [|[k' v'] m IH]; simpl; [done|]. case_bool_decide; simpl; lia.
Qed.

Lemma mset_length k v m :
  length (mset k v m) = if bool_decide (k ∈ mkeys m) then length m else S (length m).
Proof.
  rewrite <- (length_fmap fst (mset k v m)). fold (mkeys (mset k v m)).
  rewrite mkeys_mset. unfold mkeys. case_bool_decide.
  - by rewrite length_fmap.
  - rewrite length_app, length_fmap. simpl. lia.
Qed.

(** Two maps with the same lookups, whatever their iteration order. *)
Definition meq (m1 m2 : list (K * V)) : Prop := forall k, mget k m1 = mget k m2.

#[export] Instance meq_equivalence : Equivalence meq.
Proof.
  split.
  - intros m k. done.
  - intros m1 m2 H k. by rewrite H.
  - intros m1 m2 m3 H1 H2 k. by rewrite H1, H2.
Qed.

#[export] Instance mset_proper k v : Proper (meq ==> meq) (mset k v).
Proof. intros m1 m2 H k'. by rewrite !mget_mset, H. Qed.

#[export] Instance mdel_proper k : Proper (meq ==> meq) (mdel k).
Proof. intros m1 m2 H k'. by rewrite !mget_mdel, H. Qed.

#[export] Instance mget_proper k : Proper (meq ==> eq) (mget k).
Proof. intros m1 m2 H. apply H. Qed.

End maps.

Arguments mwf {K V} m.
Arguments mkeys {K V} m.
Arguments mvals {K V} m.

#[export] Hint Resolve mset_wf mdel_wf mfrom_wf : codewide.

(** ** Sets *)

Section sets.
Context {K : Type} `{EqDecision K}.
Implicit Types (s : list K) (k : K).

Definition shas k s : bool := bool_decide (k ∈ s).
Definition sadd k s : list K := if shas k s then s else s ++ [k].
Definition sdel k s : list K := filter (fun k' => k' <> k) s.

Lemma elem_of_sadd k k' s : k' ∈ sadd k s <-> k' = k \/ k' ∈ s.
Proof. unfold sadd, shas. case_bool_decide; set_solver. Qed.

Lemma elem_of_sdel k k' s : k' ∈ sdel k s <-> k' <> k /\ k' ∈ s.
Proof. unfold sdel. by rewrite list_elem_of_filter. Qed.

Lemma sadd_nodup k s : NoDup s -> NoDup (sadd k s).
Proof.
  unfold sadd, shas. case_bool_decide; [done|]. intros.
  apply NoDup_app. split_and!; [done|set_solver|apply NoDup_singleton].
Qed.

Lemma sdel_nodup k s : NoDup s -> NoDup (sdel k s).
Proof. intros. by apply NoDup_filter. Qed.

End sets.

#[export] Hint Resolve sadd_nodup sdel_nodup : codewide.
