(* ===== verification/Json.v ===== *)
(** * JSON values

    The wire and cache values the client code handles as [unknown]: the data
    [JSON.parse] can return.  A property read that finds nothing is
    [undefined], modelled as [None] in [option json]. *)
From S2P Require Import Prelude JsMap.

(** A number: an integer, or a finite non-integer given by its shortest
    decimal text (what [String(n)] prints). *)
Inductive jnum :=
| NInt (z : Z)
| NDec (text : string).

Inductive json :=
| JNull
| JBool (b : bool)
| JNum (n : jnum)
| JStr (s : jstr)
| JArr (l : list json)
| JObj (o : list (string * json)).

Abbreviation jobj := (list (string * json)).

#[export] Instance jnum_eq_dec : EqDecision jnum.
Proof. solve_decision. Defined.

(** Structural equality (the same keys in the same order). *)
Fixpoint json_eqb (a b : json) : bool :=
  match a, b with
  | JNull, JNull => true
  | JBool x, JBool y => Bool.eqb x y
  | JNum x, JNum y => bool_decide (x = y)
  | JStr x, JStr y => bool_decide (x = y)
  | JArr x, JArr y =>
      (fix go x y := match x, y with
                     | [], [] => true
                     | u :: x, v :: y => json_eqb u v && go x y
                     | _, _ => false
                     end) x y
  | JObj x, JObj y =>
      (fix go x y := match x, y with
                     | [], [] => true
                     | (k, u) :: x, (k', v) :: y => bool_decide (k = k') && json_eqb u v && go x y
                     | _, _ => false
                     end) x y
  | _, _ => false
  end.

Lemma json_eqb_spec a b : json_eqb a b = true <-> a = b.
Proof.
  revert a b. fix IH 1. intros [|x|x|x|x|x] [|y|y|y|y|y]; simpl; try (by split).
  - rewrite Bool.eqb_true_iff. split; congruence.
  - rewrite bool_decide_eq_true. split; congruence.
  - rewrite bool_decide_eq_true. split; congruence.
  - transitivity (x = y); [|split; congruence].
    revert x y. fix IHl 1. intros [|u x] [|v y]; try (by split).
    rewrite andb_true_iff, IH, IHl. split; [by intros [-> ->]|by intros [= -> ->]].
  - transitivity (x = y); [|split; congruence].
    revert x y. fix IHl 1. intros [|[k u] x] [|[k' v] y]; try (by split).
    rewrite !andb_true_iff, bool_decide_eq_true, IH, IHl.
    split; [by intros [[-> ->] ->]|by intros [= -> -> ->]].
Qed.

(** Induction with hypotheses for the elements and the entries. *)
Lemma json_nested_ind (P : json -> Prop) :
  P JNull -> (forall b, P (JBool b)) -> (forall n, P (JNum n)) -> (forall s, P (JStr s)) ->
  (forall l, Forall P l -> P (JArr l)) -> (forall o, Forall (fun e => P e.2) o -> P (JObj o)) ->
  forall v, P v.
Proof.
  intros HN HB Hn HS HA HO. fix IH 1. intros [|b|n|s|l|o]; [done|done|done|done| |].
  - apply HA. induction l as [|x l IHl]; constructor; [apply IH|apply IHl].
  - apply HO. induction o as [|[k x] o IHo]; constructor; [apply IH|apply IHo].
Qed.

#[export] Instance json_eq_dec : EqDecision json.
Proof.
  intros a b. destruct (json_eqb a b) eqn:E.
  - left. by apply json_eqb_spec.
  - right. intros H%json_eqb_spec. congruence.
Defined.

(** ** Property access *)

(** The checks [value !== null && typeof value === "object" && !Array.isArray(value)]
    every reader performs before reading fields. *)
Definition asObject (v : option json) : option jobj :=
  match v with Some (JObj o) => Some o | _ => None end.

Definition asString (v : option json) : option jstr :=
  match v with Some (JStr s) => Some s | _ => None end.

Definition asArray (v : option json) : option (list json) :=
  match v with Some (JArr l) => Some l | _ => None end.

Definition asBool (v : option json) : option bool :=
  match v with Some (JBool b) => Some b | _ => None end.

Definition oget (k : string) (o : jobj) : option json := mget k o.
Definition oset (k : string) (v : json) (o : jobj) : jobj := mset k v o.
Definition odel (k : string) (o : jobj) : jobj := mdel k o.

(** [object?.field], and [object.field] for a value known to be an object. *)
Definition field (k : string) (v : json) : option json :=
  match v with JObj o => oget k o | _ => None end.

Definition setField (k : string) (x : json) (v : json) : json :=
  match v with JObj o => JObj (oset k x o) | _ => v end.

Definition delField (k : string) (v : json) : json :=
  match v with JObj o => JObj (odel k o) | _ => v end.

(** [{ ...a, ...b }]. *)
Definition ospread (a b : jobj) : jobj := foldl (fun m e => mset e.1 e.2 m) a b.

(** [v === "literal"]. *)
Definition isStr (v : option json) (lit : string) : bool :=
  bool_decide (v = Some (JStr (js lit))).

(** [v === n] for an integer literal. *)
Definition isInt (v : option json) (n : Z) : bool :=
  bool_decide (v = Some (JNum (NInt n))).

(** [Number.isSafeInteger(v) && v >= 0]. *)
Definition max_safe_integer : Z := 9007199254740991.

Definition asSafeNat (v : option json) : option Z :=
  match v with
  | Some (JNum (NInt z)) => if (0 <=? z) && (z <=? max_safe_integer) then Some z else None
  | _ => None
  end.

(** [Number.isSafeInteger]. *)
Definition asSafeInt (v : option json) : option Z :=
  match v with
  | Some (JNum (NInt z)) => if Z.abs z <=? max_safe_integer then Some z else None
  | _ => None
  end.

Definition safe (z : Z) : Prop := Z.abs z <= max_safe_integer.

Lemma asSafeInt_int z : safe z -> asSafeInt (Some (JNum (NInt z))) = Some z.
Proof. unfold safe, asSafeInt. intros H%Z.leb_le. by rewrite H. Qed.

Lemma asSafeInt_safe v z : asSafeInt v = Some z -> safe z.
Proof.
  destruct v as [[| |[z'|]| | |]|]; simpl; try done. destruct (_ <=? _) eqn:E; [|done].
  intros [= ->]. by apply Z.leb_le.
Qed.

Definition is_obj (v : json) : Prop := exists o, v = JObj o.

Lemma field_setField_eq k x v : is_obj v -> field k (setField k x v) = Some x.
Proof. intros [o ->]. simpl. unfold oget, oset. apply mget_mset_eq. Qed.

Lemma field_setField_ne k k' x v : k <> k' -> field k (setField k' x v) = field k v.
Proof. intros. destruct v; simpl; try done. unfold oget, oset. by apply mget_mset_ne. Qed.

Lemma setField_is_obj k x v : is_obj v -> is_obj (setField k x v).
Proof. intros [o ->]. by eexists. Qed.

Lemma field_is_obj k v x : field k v = Some x -> is_obj v.
Proof. destruct v; try done. by eexists. Qed.

Lemma field_delField_ne k k' v : k <> k' -> field k (delField k' v) = field k v.
Proof. intros. destruct v; simpl; try done. unfold oget, odel. by apply mget_mdel_ne. Qed.

Lemma delField_is_obj k v : is_obj v -> is_obj (delField k v).
Proof. intros [o ->]. by eexists. Qed.

Lemma oget_ospread k a b :
  mwf b -> oget k (ospread a b) = match oget k b with Some v => Some v | None => oget k a end.
Proof.
  unfold ospread, oget, mwf. revert a.
  induction b as [|[k' v'] b IH]; intros a; [done|].
  rewrite mkeys_cons. intros [Hni Hnd]%NoDup_cons. simpl. rewrite IH by done.
  rewrite mget_mset. case_bool_decide as Hk.
  - subst. by rewrite (proj2 (mget_None k b) Hni).
  - done.
Qed.

Lemma asString_Some v s : asString v = Some s <-> v = Some (JStr s).
Proof. destruct v as [[]|]; simpl; split; congruence. Qed.

Lemma asArray_Some v l : asArray v = Some l <-> v = Some (JArr l).
Proof. destruct v as [[]|]; simpl; split; congruence. Qed.

Lemma asObject_Some v o : asObject v = Some o <-> v = Some (JObj o).
Proof. destruct v as [[]|]; simpl; split; congruence. Qed.

Lemma isStr_spec v s : isStr v s = true <-> v = Some (JStr (js s)).
Proof. apply bool_decide_eq_true. Qed.

Lemma isStr_excl v a b : isStr v a = true -> js a <> js b -> isStr v b = false.
Proof. intros ->%isStr_spec Hne. apply bool_decide_eq_false. congruence. Qed.

Lemma asSafeNat_Some v z :
  asSafeNat v = Some z <-> v = Some (JNum (NInt z)) /\ 0 <= z <= max_safe_integer.
Proof.
  destruct v as [[| |[z'|]| | |]|]; simpl; try (split; [done|intros [[=] _]]).
  destruct (_ && _) eqn:E; bool_prop; split; try done.
  - by intros [= ->].
  - by intros [[= ->] ?].
  - intros [[= ->] ?]. apply andb_false_iff in E as [?|?]; bool_prop; lia.
Qed.

#[export] Hint Resolve setField_is_obj delField_is_obj field_is_obj : codewide.

(** Key inequalities between literals, decided by computation. *)
Ltac key_ne := by (apply (bool_decide_unpack _); vm_compute).

(** Simplifies reads after writes of literal fields. *)
Ltac field_simpl :=
  repeat first
    [ rewrite field_setField_eq by eauto with codewide
    | rewrite field_setField_ne by done
    | rewrite field_delField_ne by done ].

(** ** White space and [String.prototype.trim] *)

(** The units [\s] and [trim] treat as white space or line terminators. *)
Definition isSpace (c : N) : bool :=
  bool_decide (c ∈ [9; 10; 11; 12; 13; 32; 160; 5760; 8232; 8233; 8239; 8287; 12288; 65279]%N)
  || ((8192 <=? c)%N && (c <=? 8202)%N).

Fixpoint trimStart (s : jstr) : jstr :=
  match s with
  | [] => []
  | c :: s' => if isSpace c then trimStart s' else s
  end.

Definition trimEnd (s : jstr) : jstr := reverse (trimStart (reverse s)).
Definition trim (s : jstr) : jstr := trimEnd (trimStart s).

(** [value.trim() !== ""] holds exactly when some unit is not white space. *)
Lemma trimStart_nil s : trimStart s = [] <-> forallb isSpace s = true.
Proof.
  induction s as [|c s IH]; simpl; [done|].
  destruct (isSpace c); simpl; [done|]. split; done.
Qed.

Lemma trimStart_nonspace s c s' : trimStart s = c :: s' -> isSpace c = false.
Proof.
  induction s as [|d s IH]; simpl; [done|].
  destruct (isSpace d) eqn:E; [done|]. by intros [= -> _].
Qed.

Lemma forallb_reverse {A} (p : A -> bool) l : forallb p (reverse l) = forallb p l.
Proof.
  apply eq_true_iff_eq. rewrite !forallb_forall.
  setoid_rewrite <- list_elem_of_In. by setoid_rewrite elem_of_reverse.
Qed.

Lemma trim_nil s : trim s = [] <-> forallb isSpace s = true.
Proof.
  unfold trim, trimEnd.
  rewrite <- (reverse_involutive []) at 1.
  split.
  - intros H%(inj reverse). simpl in H. apply trimStart_nil in H.
    rewrite forallb_reverse in H.
    destruct (trimStart s) as [|c s'] eqn:E; [by apply trimStart_nil|].
    apply trimStart_nonspace in E. simpl in H. by rewrite E in H.
  - intros H%trimStart_nil. by rewrite H.
Qed.

Lemma trimStart_idem s : trimStart (trimStart s) = trimStart s.
Proof. induction s as [|c s IH]; [done|]. simpl. destruct (isSpace c) eqn:E; [done|]. simpl. by rewrite E. Qed.

Lemma trimStart_suffix s : exists p, s = p ++ trimStart s.
Proof.
  induction s as [|c s [p IH]]; [by exists []|]. simpl. destruct (isSpace c); [|by exists []].
  exists (c :: p). simpl. by rewrite <- IH.
Qed.

Lemma trimEnd_prefix s : exists p, s = trimEnd s ++ p.
Proof.
  destruct (trimStart_suffix (reverse s)) as [p Hp]. exists (reverse p). unfold trimEnd.
  rewrite <- reverse_app, <- Hp. by rewrite reverse_involutive.
Qed.

Lemma trimStart_fixed c s : isSpace c = false -> trimStart (c :: s) = c :: s.
Proof. intros H. simpl. by rewrite H. Qed.

Lemma trim_idem s : trim (trim s) = trim s.
Proof.
  unfold trim. set (u := trimStart s).
  assert (Hv : trimStart (trimEnd u) = trimEnd u).
  { destruct (trimEnd_prefix u) as [p Hp]. destruct (trimEnd u) as [|c v]; [done|].
    apply trimStart_fixed, (trimStart_nonspace s c (v ++ p)). exact Hp. }
  rewrite Hv. unfold trimEnd. by rewrite reverse_involutive, trimStart_idem.
Qed.

Lemma trim_length s : (length (trim s) <= length s)%nat.
Proof.
  unfold trim. destruct (trimStart_suffix s) as [p Hp]. destruct (trimEnd_prefix (trimStart s)) as [q Hq].
  apply (f_equal length) in Hp, Hq. rewrite length_app in *. lia.
Qed.

(** ** [JSON.stringify] *)

Definition hexDigit (n : N) : N := (if n <? 10 then 48 + n else 87 + n)%N.

Definition unicodeEscape (c : N) : jstr :=
  js "\u" ++ [hexDigit (c / 4096); hexDigit (c / 256 mod 16);
              hexDigit (c / 16 mod 16); hexDigit (c mod 16)]%N.

Definition isHigh (c : N) : bool := ((55296 <=? c) && (c <=? 56319))%N.
Definition isLow (c : N) : bool := ((56320 <=? c) && (c <=? 57343))%N.

Definition escapeUnit (c : N) : jstr :=
  if bool_decide (c = 34%N) then [92; 34]%N
  else if bool_decide (c = 92%N) then [92; 92]%N
  else if bool_decide (c = 8%N) then js "\b"
  else if bool_decide (c = 12%N) then js "\f"
  else if bool_decide (c = 10%N) then js "\n"
  else if bool_decide (c = 13%N) then js "\r"
  else if bool_decide (c = 9%N) then js "\t"
  else if (c <? 32)%N then unicodeEscape c
  else [c].

Fixpoint escape (s : jstr) : jstr :=
  match s with
  | [] => []
  | c :: s' =>
      if isHigh c then
        match s' with
        | d :: s'' => if isLow d then c :: d :: escape s'' else unicodeEscape c ++ escape s'
        | [] => unicodeEscape c
        end
      else if isLow c then unicodeEscape c ++ escape s'
      else escapeUnit c ++ escape s'
  end.

Definition quote (s : jstr) : jstr := [34%N] ++ escape s ++ [34%N].

Fixpoint join (sep : jstr) (parts : list jstr) : jstr :=
  match parts with
  | [] => []
  | [p] => p
  | p :: ps => p ++ sep ++ join sep ps
  end.

Definition printZ (z : Z) : jstr := js (pretty.pretty z).

Fixpoint stringify (v : json) : jstr :=
  match v with
  | JNull => js "null"
  | JBool b => js (if b then "true" else "false")
  | JNum (NInt z) => printZ z
  | JNum (NDec t) => js t
  | JStr s => quote s
  | JArr l => js "[" ++ join (js ",") (map stringify l) ++ js "]"
  | JObj o =>
      js "{" ++ join (js ",") (map (fun e => quote (js e.1) ++ js ":" ++ stringify e.2) o)
      ++ js "}"
  end.

Example stringify_ex :
  stringify (JArr [JObj [("type", JStr (js "text")); ("n", JNum (NInt (-12)))]; JNull])
  = js "[{" ++ quote (js "type") ++ js ":" ++ quote (js "text") ++ js ","
    ++ quote (js "n") ++ js ":-12},null]".
Proof. vm_compute. reflexivity. Qed.
