(* ===== verification/JsonText.v ===== *)
(** * The text of identities

    Row ids, event ids and map keys of the client are built with
    [JSON.stringify] of an array of strings and numbers.  This file shows that
    such a text determines the values: [quote] can be read back in front of any
    continuation, so identities are injective and prefixes name one value. *)
From S2P Require Import Prelude JsMap Json.

(** ** Reading a quoted string back *)

Definition hexValue (u : N) : N := (if u <? 58 then u - 48 else u - 87)%N.

(** The unit a short escape stands for. *)
Definition shortEscape (u : N) : N :=
  (if u =? 98 then 8 else if u =? 102 then 12 else if u =? 110 then 10
   else if u =? 114 then 13 else if u =? 116 then 9 else u)%N.

(** The first unit of the text of a string, and the text after it; nothing at
    the closing quote. *)
Definition readUnit (s : jstr) : option (N * jstr) :=
  match s with
  | [] => None
  | u :: r =>
      if (u =? 34)%N then None
      else if (u =? 92)%N then
        match r with
        | [] => None
        | e :: r =>
            if (e =? 117)%N then
              match r with
              | a :: b :: c :: d :: r =>
                  Some (4096 * hexValue a + 256 * hexValue b + 16 * hexValue c + hexValue d, r)%N
              | _ => None
              end
            else Some (shortEscape e, r)
        end
      else Some (u, r)
  end.

Fixpoint readQuoted (fuel : nat) (s : jstr) : option (jstr * jstr) :=
  match fuel with
  | O => None
  | S fuel =>
      match readUnit s with
      | Some (u, r) => (fun p => (u :: p.1, p.2)) <$> readQuoted fuel r
      | None => match s with [] => None | _ :: r => Some ([], r) end
      end
  end.

Lemma hexValue_digit n : (n < 16)%N -> hexValue (hexDigit n) = n.
Proof. unfold hexValue, hexDigit. intros H.
  destruct (N.ltb_spec n 10) as [?|?]; [destruct (N.ltb_spec (48 + n) 58)|destruct (N.ltb_spec (87 + n) 58)]; lia.
Qed.

Lemma readUnit_unicode c r : (c < 65536)%N -> readUnit (unicodeEscape c ++ r) = Some (c, r).
Proof.
  intros Hc. unfold unicodeEscape. change (js "\u") with [92; 117]%N. simpl.
  rewrite !hexValue_digit.
  - f_equal. f_equal.
    pose proof (N.div_mod c 16) as H1. pose proof (N.div_mod (c / 16) 16) as H2. pose proof (N.div_mod (c / 256) 16) as H3.
    rewrite N.Div0.div_div in H2, H3. change (16 * 16)%N with 256%N in H2. change (256 * 16)%N with 4096%N in H3. lia.
  - by apply N.mod_lt.
  - by apply N.mod_lt.
  - by apply N.mod_lt.
  - apply N.Div0.div_lt_upper_bound. lia.
Qed.

Lemma readUnit_control c r : (c < 32)%N -> readUnit (escapeUnit c ++ r) = Some (c, r).
Proof.
  intros Hc. unfold escapeUnit. repeat (case_bool_decide; [subst; done|]).
  rewrite (proj2 (N.ltb_lt _ _) Hc). apply readUnit_unicode. lia.
Qed.

Lemma readUnit_escape c r : readUnit (escapeUnit c ++ r) = Some (c, r).
Proof.
  destruct (N.lt_ge_cases c 32) as [Hc|Hc]; [by apply readUnit_control|].
  unfold escapeUnit. repeat (case_bool_decide; [subst; done|]).
  rewrite (proj2 (N.ltb_ge _ _) Hc). simpl.
  by rewrite !(proj2 (N.eqb_neq _ _)).
Qed.

Lemma readUnit_plain c r : (127 < c)%N -> readUnit (c :: r) = Some (c, r).
Proof. intros Hc. simpl. rewrite !(proj2 (N.eqb_neq _ _)); [done|lia..]. Qed.

Lemma readQuoted_unit fuel c s r t rest :
  readUnit s = Some (c, r) -> readQuoted fuel r = Some (t, rest) -> readQuoted (S fuel) s = Some (c :: t, rest).
Proof. intros Hs Hr. simpl. by rewrite Hs, Hr. Qed.

Lemma high_range c : isHigh c = true -> (127 < c < 65536)%N.
Proof. unfold isHigh. intros [?%N.leb_le ?%N.leb_le]%andb_true_iff. lia. Qed.
Lemma low_range c : isLow c = true -> (127 < c < 65536)%N.
Proof. unfold isLow. intros [?%N.leb_le ?%N.leb_le]%andb_true_iff. lia. Qed.

(** A surrogate pair is written as it is; any other unit is read on its own. *)
Lemma escape_cases s :
  s = [] \/ (exists c d s', s = c :: d :: s' /\ isHigh c = true /\ isLow d = true
              /\ escape s = c :: d :: escape s')
  \/ (exists c s', s = c :: s' /\ exists e, escape s = e ++ escape s' /\ forall r, readUnit (e ++ r) = Some (c, r)).
Proof.
  destruct s as [|c s']; [by left|right]. simpl. destruct (isHigh c) eqn:Eh.
  - pose proof (high_range c Eh). destruct s' as [|d s''].
    + right. exists c, []. split; [done|]. exists (unicodeEscape c). rewrite app_nil_r. split; [done|].
      intros r. apply readUnit_unicode. lia.
    + destruct (isLow d) eqn:El; [left; by exists c, d, s''|]. right. exists c, (d :: s''). split; [done|].
      exists (unicodeEscape c). split; [done|]. intros r. apply readUnit_unicode. lia.
  - right. exists c, s'. split; [done|]. destruct (isLow c) eqn:El.
    + exists (unicodeEscape c). split; [done|]. intros r. apply readUnit_unicode. apply low_range in El. lia.
    + exists (escapeUnit c). split; [done|]. apply readUnit_escape.
Qed.

Lemma readQuoted_escape s rest fuel :
  (length s < fuel)%nat -> readQuoted fuel (escape s ++ 34%N :: rest) = Some (s, rest).
Proof.
  revert s. induction fuel as [fuel IH] using lt_wf_ind. intros s Hf.
  destruct fuel as [|fuel]; [lia|].
  destruct (escape_cases s) as [-> |[(c & d & s' & -> & Hc & Hd & ->)|(c & s' & -> & e & -> & He)]].
  - done.
  - destruct fuel as [|fuel]; [simpl in Hf; lia|]. simpl in Hf.
    apply high_range in Hc. apply low_range in Hd.
    eapply readQuoted_unit; [apply readUnit_plain; lia|].
    eapply readQuoted_unit; [apply readUnit_plain; lia|]. apply IH; lia.
  - simpl in Hf. rewrite <- app_assoc. eapply readQuoted_unit; [apply He|]. apply IH; lia.
Qed.

Lemma quote_app_inj a b x y : quote a ++ x = quote b ++ y -> a = b /\ x = y.
Proof.
  unfold quote. rewrite <- !app_assoc. intros H. injection H as H. simpl in H.
  pose proof (readQuoted_escape a x (S (length a + length b)) ltac:(lia)) as Ha.
  rewrite H, readQuoted_escape in Ha by lia. by injection Ha as -> ->.
Qed.

(** ** Numbers *)

Definition numeric (u : N) : bool := bool_decide (u = 45%N) || ((48 <=? u) && (u <=? 57))%N.

Lemma js_cons a s : js (String a s) = N_of_ascii a :: js s.
Proof. done. Qed.

#[export] Instance js_inj : Inj (=) (=) js.
Proof.
  intros s. induction s as [|a s IH]; intros [|b t]; rewrite ?js_cons; try done.
  intros [= Hab Hst]. f_equal; [|by apply IH].
  by rewrite <- (ascii_N_embedding a), Hab, ascii_N_embedding.
Qed.

Lemma pretty_N_char_numeric n : numeric (N_of_ascii (pretty_N_char n)) = true.
Proof. unfold pretty_N_char. by repeat case_match. Qed.

Lemma pretty_N_go_numeric n s :
  Forall (fun u => numeric u = true) (js s) -> Forall (fun u => numeric u = true) (js (pretty_N_go n s)).
Proof.
  revert s. induction (N.lt_wf_0 n) as [n _ IH]. intros s Hs.
  destruct (decide (0 < n)%N) as [Hn|Hn].
  - rewrite pretty_N_go_step by done. apply IH; [apply N.div_lt; lia|].
    rewrite js_cons. constructor; [|done]. apply pretty_N_char_numeric.
  - assert (n = 0%N) as -> by lia. by rewrite pretty_N_go_0.
Qed.

Lemma printZ_numeric z : Forall (fun u => numeric u = true) (printZ z).
Proof.
  assert (forall n, Forall (fun u => numeric u = true) (js (pretty (A := N) n))) as HN.
  { intros n. unfold pretty, pretty_N. case_decide; [by repeat constructor|]. by apply pretty_N_go_numeric. }
  unfold printZ. destruct z; unfold pretty; simpl.
  - by repeat constructor.
  - apply (HN (Npos p)).
  - change (Forall (fun u => numeric u = true) (45%N :: js (pretty (Npos p)))). constructor; [done|]. apply HN.
Qed.

Lemma pretty_N_go_length n s : (String.length s <= String.length (pretty_N_go n s))%nat.
Proof.
  revert s. induction (N.lt_wf_0 n) as [n _ IH]. intros s. destruct (decide (0 < n)%N) as [Hn|Hn].
  - rewrite pretty_N_go_step by done. etrans; [|apply IH, N.div_lt; lia]. simpl. lia.
  - assert (n = 0%N) as -> by lia. done.
Qed.

Lemma printZ_nonempty z : printZ z <> [].
Proof.
  intros H. unfold printZ in H. change [] with (js "") in H. apply (inj js) in H. destruct z as [|p|p]; [done| |done].
  change (pretty_N (N.pos p) = EmptyString) in H. unfold pretty_N in H. rewrite decide_False in H by done.
  rewrite pretty_N_go_step in H by done.
  pose proof (pretty_N_go_length (N.pos p `div` 10) (String (pretty_N_char (N.pos p `mod` 10)) "")) as Hl.
  rewrite H in Hl. simpl in Hl. lia.
Qed.

(** ** Identities *)

(** The parts of an identity: [string | number]. *)
Inductive idPart := IdStr (s : jstr) | IdInt (z : Z).

#[export] Instance idPart_eq_dec : EqDecision idPart.
Proof. solve_decision. Defined.

Definition partJson (p : idPart) : json :=
  match p with IdStr s => JStr s | IdInt z => JNum (NInt z) end.

(** [JSON.stringify(parts)]. *)
Definition identity (parts : list idPart) : jstr := stringify (JArr (partJson <$> parts)).

(** Text that ends the part before it. *)
Definition stops (x : jstr) : Prop := exists u r, x = u :: r /\ (u = 44 \/ u = 93)%N.

Lemma numeric_app_inj a b x y :
  Forall (fun u => numeric u = true) a -> Forall (fun u => numeric u = true) b ->
  stops x -> stops y -> a ++ x = b ++ y -> a = b /\ x = y.
Proof.
  revert b. induction a as [|u a IH]; intros [|v b] Ha Hb Hx Hy H.
  - done.
  - destruct Hx as (u & r & -> & Hu). injection H as -> _. apply Forall_cons in Hb as [Hb _].
    destruct Hu as [-> | ->]; done.
  - destruct Hy as (v & r & -> & Hv). injection H as <- _. apply Forall_cons in Ha as [Ha _].
    destruct Hv as [-> | ->]; done.
  - injection H as -> H. apply Forall_cons in Ha as [_ Ha], Hb as [_ Hb].
    destruct (IH b Ha Hb Hx Hy H) as [-> ->]. done.
Qed.

Lemma quote_not_numeric s z x y : stops y -> quote s ++ x <> printZ z ++ y.
Proof.
  intros (u & r & -> & Hu) H. unfold quote in H. pose proof (printZ_numeric z) as Hz.
  destruct (printZ z) as [|v t].
  - injection H as <- _. by destruct Hu.
  - injection H as <- _. by apply Forall_cons in Hz as [Hz _].
Qed.

Lemma part_app_inj p q x y :
  stops x -> stops y -> stringify (partJson p) ++ x = stringify (partJson q) ++ y -> p = q /\ x = y.
Proof.
  intros Hx Hy. destruct p as [s|z], q as [t|w]; simpl; intros H.
  - by apply quote_app_inj in H as [-> ->].
  - by apply quote_not_numeric in H.
  - symmetry in H. by apply quote_not_numeric in H.
  - apply numeric_app_inj in H as [Hz ->]; try done; [|apply printZ_numeric..].
    unfold printZ in Hz. apply (inj js), (inj pretty) in Hz. by subst.
Qed.

(** The text of the parts after the first. *)
Fixpoint moreParts (parts : list idPart) : jstr :=
  match parts with [] => [93%N] | p :: ps => 44%N :: stringify (partJson p) ++ moreParts ps end.

Lemma identity_cons p ps : identity (p :: ps) = 91%N :: stringify (partJson p) ++ moreParts ps.
Proof.
  unfold identity. simpl. change (js "[") with [91%N]. change (js ",") with [44%N]. change (js "]") with [93%N].
  simpl. f_equal. revert p. induction ps as [|q ps IH]; intros p; [done|].
  change (fmap partJson (q :: ps)) with (partJson q :: (partJson <$> ps)).
  simpl map. cbn [join]. rewrite <- !app_assoc. simpl. f_equal. f_equal. apply IH.
Qed.

Lemma moreParts_stops ps : stops (moreParts ps).
Proof. destruct ps; eexists _, _; eauto. Qed.

Lemma moreParts_app_inj ps qs x y : moreParts ps ++ x = moreParts qs ++ y -> ps = qs /\ x = y.
Proof.
  revert qs. induction ps as [|p ps IH]; intros [|q qs]; simpl; intros H; try done.
  - by injection H.
  - injection H as H. rewrite <- !app_assoc in H.
    assert (Hs : forall rs z, stops (moreParts rs ++ z)) by (intros [|? ?] z; eexists _, _; simpl; eauto).
    apply part_app_inj in H as [-> H]; [|apply Hs..]. apply IH in H as [-> ->]. done.
Qed.

(** An identity names its parts. *)
#[export] Instance identity_inj : Inj (=) (=) identity.
Proof.
  assert (Hnil : forall p ps, identity [] <> identity (p :: ps)).
  { intros p ps. rewrite identity_cons. change (identity []) with [91; 93]%N. intros [= H].
    pose proof (moreParts_stops ps) as Hs. destruct p as [s|z]; [done|]. simpl in H.
    pose proof (printZ_numeric z) as Hz. destruct (printZ z) as [|u t] eqn:E; [by apply printZ_nonempty in E|].
    injection H as <- _. by apply Forall_cons in Hz as [Hz _]. }
  intros [|p ps] [|q qs]; try done.
  - by intros ?%Hnil.
  - by intros ?%eq_sym%Hnil.
  - rewrite !identity_cons. intros [= H]. apply part_app_inj in H as [-> H]; [|apply moreParts_stops..].
    rewrite <- (app_nil_r (moreParts ps)), <- (app_nil_r (moreParts qs)) in H.
    by apply moreParts_app_inj in H as [-> _].
Qed.

(** The test [key.startsWith(`[${JSON.stringify(s)},`)] recognises the
    identities of two or more parts that begin with [s]. *)
Lemma identity_prefix s p q ps :
  startsWith ([91%N] ++ quote s ++ [44%N]) (identity (p :: q :: ps)) = bool_decide (p = IdStr s).
Proof.
  apply eq_true_iff_eq. rewrite startsWith_spec, bool_decide_eq_true, identity_cons. split.
  - intros [k H]. change ([91%N] ++ quote s ++ [44%N]) with (91%N :: stringify (partJson (IdStr s)) ++ [44%N]) in H.
    rewrite <- app_comm_cons, <- app_assoc in H. apply (f_equal tail) in H. cbn [tail] in H.
    apply part_app_inj in H as [-> _]; [done|apply moreParts_stops|eexists _, _; eauto].
  - intros ->. exists (stringify (partJson q) ++ moreParts ps). by rewrite <- !app_assoc.
Qed.
