(* ===== verification/JsonParse.v ===== *)
(** * Reading JSON

    [JSON.parse] for the texts whose property names are Latin-1, which are the
    names an object of [Json] can have, and that it reads back what
    [JSON.stringify] writes.

    A number is read as the double nearest to it.  An integer is kept as one; a
    number that is none keeps the text it has in the source, which no reader of
    the library looks at. *)
From S2P Require Import Prelude JsMap Json JsonText.

Local Open Scope nat_scope.

(** ** Characters *)

Definition isJsonSpace (u : N) : bool := bool_decide (u ∈ [9; 10; 13; 32]%N).

Fixpoint skipSpace (s : jstr) : jstr :=
  match s with
  | u :: r => if isJsonSpace u then skipSpace r else s
  | [] => []
  end.

Definition isDigit (u : N) : bool := ((48 <=? u) && (u <=? 57))%N.

Definition parseHex (u : N) : option N :=
  (if isDigit u then Some (u - 48)
   else if (97 <=? u) && (u <=? 102) then Some (u - 87)
   else if (65 <=? u) && (u <=? 70) then Some (u - 55) else None)%N.

Definition parseShortEscape (u : N) : option N :=
  (if (u =? 34) || (u =? 92) || (u =? 47) then Some u
   else if u =? 98 then Some 8 else if u =? 102 then Some 12 else if u =? 110 then Some 10
   else if u =? 114 then Some 13 else if u =? 116 then Some 9 else None)%N.

Definition pushUnit (u : N) (read : option (jstr * jstr)) : option (jstr * jstr) :=
  (fun p => (u :: p.1, p.2)) <$> read.

(** A string after its opening quote, and the text after its closing quote. *)
Fixpoint parseString (s : jstr) : option (jstr * jstr) :=
  match s with
  | [] => None
  | u :: r =>
      if (u =? 34)%N then Some ([], r)
      else if (u =? 92)%N then
        match r with
        | e :: r =>
            if (e =? 117)%N then
              match r with
              | a :: b :: c :: d :: r =>
                  match parseHex a, parseHex b, parseHex c, parseHex d with
                  | Some a, Some b, Some c, Some d => pushUnit (4096 * a + 256 * b + 16 * c + d)%N (parseString r)
                  | _, _, _, _ => None
                  end
              | _ => None
              end
            else match parseShortEscape e with Some v => pushUnit v (parseString r) | None => None end
        | [] => None
        end
      else if (u <? 32)%N then None
      else pushUnit u (parseString r)
  end.

(** ** Numbers *)

Fixpoint takeDigits (s : jstr) : jstr * jstr :=
  match s with
  | u :: r => if isDigit u then let '(ds, r) := takeDigits r in (u :: ds, r) else ([], s)
  | [] => ([], [])
  end.

Definition digitsValue (ds : jstr) : Z := foldl (fun n d => 10 * n + (Z.of_N d - 48))%Z 0%Z ds.

(** The quotient rounded to the nearest integer, ties to even. *)
Definition roundHalfEven (n d : Z) : Z :=
  (let q := n / d in let r := n mod d in
   if (d <? 2 * r) || ((2 * r =? d) && Z.odd q) then q + 1 else q)%Z.

(** The double nearest to [n / d], when it is an integer: 53 significant bits,
    and no bit below 2^-1074. *)
Definition nearestInteger (n d : Z) : option Z :=
  (let l := Z.log2 n - Z.log2 d in
   let l := if (if 0 <=? l then d * 2 ^ l <=? n else d <=? n * 2 ^ (- l)) then l else l - 1 in
   let e := Z.max (-1074) (l - 52) in
   if 0 <=? e then Some (roundHalfEven n (d * 2 ^ e) * 2 ^ e)
   else
     let q := roundHalfEven (n * 2 ^ (- e)) d in
     if q mod 2 ^ (- e) =? 0 then Some (q / 2 ^ (- e)) else None)%Z.

Definition maxExactInteger : Z := (2 ^ 53)%Z.

Definition numberOf (negative : bool) (digits : jstr) (exponent : Z) (text : jstr) : jnum :=
  (let sign z := if negative then - z else z in
   let n := digitsValue digits * 10 ^ Z.max 0 exponent in
   let d := 10 ^ Z.max 0 (- exponent) in
   if (n mod d =? 0) && (n / d <=? maxExactInteger) then NInt (sign (n / d))
   else
     match nearestInteger n d with
     | Some z => if z <? 2 ^ 1024 then NInt (sign z) else NDec (if negative then "-Infinity" else "Infinity")
     | None => NDec (String.string_of_list_ascii (ascii_of_N <$> text))
     end)%Z.

Definition readFraction (s : jstr) : option (jstr * jstr) :=
  match s with
  | u :: r =>
      if (u =? 46)%N then match takeDigits r with ([], _) => None | digits => Some digits end
      else Some ([], s)
  | [] => Some ([], s)
  end.

Definition readExponent (s : jstr) : option (Z * jstr) :=
  match s with
  | u :: r =>
      if (u =? 101)%N || (u =? 69)%N then
        let '(negative, r) := match r with
                              | v :: r' => if (v =? 45)%N then (true, r') else if (v =? 43)%N then (false, r') else (false, r)
                              | [] => (false, r)
                              end in
        match takeDigits r with
        | ([], _) => None
        | (ds, r) => Some (if negative : bool then - digitsValue ds else digitsValue ds, r)%Z
        end
      else Some (0%Z, s)
  | [] => Some (0%Z, s)
  end.

Definition parseNumber (s : jstr) : option (json * jstr) :=
  let '(negative, r) := match s with u :: r => if (u =? 45)%N then (true, r) else (false, s) | [] => (false, s) end in
  match takeDigits r with
  | ([], _) => None
  | (first :: more, r) =>
      if (first =? 48)%N && negb (bool_decide (more = [])) then None
      else
        match readFraction r with
        | None => None
        | Some (fraction, r) =>
            match readExponent r with
            | None => None
            | Some (exponent, r) =>
                Some (JNum (numberOf negative (first :: more ++ fraction) (exponent - Z.of_nat (length fraction))
                              (take (length s - length r) s)), r)
            end
        end
  end.

(** ** Values *)

Definition parseWord (word : jstr) (v : json) (s : jstr) : option (json * jstr) :=
  if startsWith word s then Some (v, drop (length word) s) else None.

Definition keyOf (s : jstr) : option string :=
  if forallb (fun u => (u <? 256)%N) s then Some (String.string_of_list_ascii (ascii_of_N <$> s)) else None.

Fixpoint parseValue (fuel : nat) (s : jstr) : option (json * jstr) :=
  match fuel with
  | O => None
  | S fuel =>
      match skipSpace s with
      | [] => None
      | u :: r =>
          if (u =? 34)%N then (fun p => (JStr p.1, p.2)) <$> parseString r
          else if (u =? 91)%N then
            match skipSpace r with
            | v :: r' => if (v =? 93)%N then Some (JArr [], r') else (fun p => (JArr p.1, p.2)) <$> parseElements fuel r
            | [] => None
            end
          else if (u =? 123)%N then
            match skipSpace r with
            | v :: r' => if (v =? 125)%N then Some (JObj [], r') else (fun p => (JObj p.1, p.2)) <$> parseMembers fuel [] r
            | [] => None
            end
          else if (u =? 110)%N then parseWord (js "null") JNull (u :: r)
          else if (u =? 116)%N then parseWord (js "true") (JBool true) (u :: r)
          else if (u =? 102)%N then parseWord (js "false") (JBool false) (u :: r)
          else parseNumber (u :: r)
      end
  end
with parseElements (fuel : nat) (s : jstr) : option (list json * jstr) :=
  match fuel with
  | O => None
  | S fuel =>
      match parseValue fuel s with
      | None => None
      | Some (v, r) =>
          match skipSpace r with
          | u :: r =>
              if (u =? 44)%N then (fun p => (v :: p.1, p.2)) <$> parseElements fuel r
              else if (u =? 93)%N then Some ([v], r) else None
          | [] => None
          end
      end
  end
with parseMembers (fuel : nat) (o : jobj) (s : jstr) : option (jobj * jstr) :=
  match fuel with
  | O => None
  | S fuel =>
      match skipSpace s with
      | q :: r =>
          if negb (q =? 34)%N then None
          else
            match parseString r with
            | None => None
            | Some (k, r) =>
                match keyOf k, skipSpace r with
                | Some k, c :: r =>
                    if negb (c =? 58)%N then None
                    else
                      match parseValue fuel r with
                      | None => None
                      | Some (v, r) =>
                          match skipSpace r with
                          | u :: r =>
                              if (u =? 44)%N then parseMembers fuel (oset k v o) r
                              else if (u =? 125)%N then Some (oset k v o, r) else None
                          | [] => None
                          end
                      end
                | _, _ => None
                end
            end
      | [] => None
      end
  end.

(** [JSON.parse]; what it throws is [None].  Every step of a value reads a unit,
    so twice the length is enough fuel ([parseValue_fuel]). *)
Definition parseFuel (s : jstr) : nat := 2 * length s + 2.

Definition parseJson (s : jstr) : option json :=
  match parseValue (parseFuel s) s with
  | Some (v, r) => if bool_decide (skipSpace r = []) then Some v else None
  | None => None
  end.

(** ** Enough fuel *)

Lemma skipSpace_length s : length (skipSpace s) <= length s.
Proof. induction s as [|u r IH]; [done|]. cbn. destruct (isJsonSpace u); cbn; lia. Qed.

Lemma pushUnit_Some u o s r : pushUnit u o = Some (s, r) -> exists s', o = Some (s', r) /\ s = u :: s'.
Proof. destruct o as [[s' r']|]; [|done]. intros [= <- <-]. by exists s'. Qed.

Lemma parseString_length s t r : parseString s = Some (t, r) -> length r < length s.
Proof.
  revert t r. induction s as [s IH] using (induction_ltof1 _ (@length _)). unfold ltof in IH. intros t r.
  destruct s as [|u s]; [done|]. cbn [parseString].
  destruct (u =? 34)%N; [intros [= <- <-]; cbn; lia|].
  destruct (u =? 92)%N; [|destruct (u <? 32)%N; [done|intros (t' & H & _)%pushUnit_Some; apply IH in H; cbn; lia]].
  destruct s as [|e s]; [done|]. destruct (e =? 117)%N.
  - destruct s as [|a [|b [|c [|d s]]]]; try done.
    destruct (parseHex a), (parseHex b), (parseHex c), (parseHex d); try done. intros (t' & H & _)%pushUnit_Some. apply IH in H; cbn in *; lia.
  - destruct (parseShortEscape e); [|done]. intros (t' & H & _)%pushUnit_Some. apply IH in H; cbn in *; lia.
Qed.

Lemma takeDigits_length s ds r : takeDigits s = (ds, r) -> length s = length ds + length r.
Proof.
  revert ds r. induction s as [|u s IH]; intros ds r; cbn; [by intros [= <- <-]|].
  destruct (isDigit u); [|by intros [= <- <-]]. destruct (takeDigits s) as [ds' r'] eqn:E. intros [= <- <-]. cbn. by rewrite (IH _ _ eq_refl).
Qed.

Lemma readFraction_length s ds r : readFraction s = Some (ds, r) -> length r <= length s.
Proof.
  destruct s as [|u s]; cbn; [by intros [= <- <-]|]. destruct (u =? 46)%N; [|intros [= <- <-]; cbn; lia].
  destruct (takeDigits s) as [[|d ds'] r'] eqn:E; [done|]. intros [= <- <-]. apply takeDigits_length in E. cbn in *. lia.
Qed.

Lemma readExponent_length s e r : readExponent s = Some (e, r) -> length r <= length s.
Proof.
  destruct s as [|u s]; cbn; [by intros [= <- <-]|]. destruct ((u =? 101)%N || (u =? 69)%N); [|intros [= <- <-]; cbn; lia].
  set (p := match s with [] => _ | _ :: _ => _ end). assert (length p.2 <= length s) as Hp.
  { unfold p. destruct s as [|v s]; [done|]. destruct (v =? 45)%N; [cbn; lia|]. destruct (v =? 43)%N; cbn; lia. }
  destruct p as [negative s']. destruct (takeDigits s') as [[|d ds] r'] eqn:E; [done|]. intros [= <- <-]. apply takeDigits_length in E. cbn in *. lia.
Qed.

Lemma parseNumber_length s v r : parseNumber s = Some (v, r) -> length r < length s.
Proof.
  unfold parseNumber. set (p := match s with [] => _ | _ :: _ => _ end). assert (length p.2 <= length s) as Hp.
  { unfold p. destruct s as [|u s]; [done|]. destruct (u =? 45)%N; cbn; lia. }
  destruct p as [negative s']. destruct (takeDigits s') as [[|d ds] r1] eqn:E1; [done|]. apply takeDigits_length in E1.
  destruct (_ && _); [done|]. destruct (readFraction r1) as [[fraction r2]|] eqn:E2; [|done]. apply readFraction_length in E2.
  destruct (readExponent r2) as [[e r3]|] eqn:E3; [|done]. apply readExponent_length in E3. intros [= <- <-]. cbn in *. lia.
Qed.

Lemma parseWord_length word v s w r : word <> [] -> parseWord word v s = Some (w, r) -> length r < length s.
Proof.
  unfold parseWord. intros Hw. destruct (startsWith word s) eqn:E; [|done]. intros [= <- <-]. apply startsWith_spec in E as [k ->].
  rewrite drop_app_length, length_app. destruct word; [done|]. cbn. lia.
Qed.

Ltac skip_cases s r E := destruct (skipSpace s) as [|? r] eqn:E; [done|]; pose proof (skipSpace_length s); rewrite E in *; cbn [length] in *.

(** Each reader leaves less than it was given. *)
Lemma parse_length fuel :
  (forall s v r, parseValue fuel s = Some (v, r) -> length r < length s)
  /\ (forall s l r, parseElements fuel s = Some (l, r) -> length r < length s)
  /\ (forall o s o' r, parseMembers fuel o s = Some (o', r) -> length r < length s).
Proof.
  induction fuel as [|fuel (IHv & IHe & IHm)]; [done|]. split_and!.
  - intros s v r. cbn [parseValue]. skip_cases s s' E.
    destruct (n =? 34)%N; [destruct (parseString s') as [[t r']|] eqn:Es; [|done]; intros [= <- <-]; apply parseString_length in Es; cbn; lia|].
    destruct (n =? 91)%N.
    { skip_cases s' s'' E'. destruct (n0 =? 93)%N; [intros [= <- <-]; lia|].
      destruct (parseElements fuel s') as [[l r']|] eqn:Es; [|done]. intros [= <- <-]. apply IHe in Es. cbn. lia. }
    destruct (n =? 123)%N.
    { skip_cases s' s'' E'. destruct (n0 =? 125)%N; [intros [= <- <-]; lia|].
      destruct (parseMembers fuel [] s') as [[l r']|] eqn:Es; [|done]. intros [= <- <-]. apply IHm in Es. cbn. lia. }
    destruct (n =? 110)%N; [intros Hw%parseWord_length; [cbn in *; lia|done]|].
    destruct (n =? 116)%N; [intros Hw%parseWord_length; [cbn in *; lia|done]|].
    destruct (n =? 102)%N; [intros Hw%parseWord_length; [cbn in *; lia|done]|].
    intros Hn%parseNumber_length. cbn in *. lia.
  - intros s l r. cbn [parseElements]. destruct (parseValue fuel s) as [[v r1]|] eqn:Ev; [|done]. apply IHv in Ev.
    skip_cases r1 r2 E. destruct (n =? 44)%N; [|destruct (n =? 93)%N; [intros [= <- <-]; lia|done]].
    destruct (parseElements fuel r2) as [[l' r3]|] eqn:Es; [|done]. intros [= <- <-]. apply IHe in Es. cbn. lia.
  - intros o s o' r. cbn [parseMembers]. skip_cases s s1 E. destruct (negb (n =? 34)%N); [done|].
    destruct (parseString s1) as [[k s2]|] eqn:Ek; [|done]. apply parseString_length in Ek.
    destruct (keyOf k) as [key|]; [|done]. skip_cases s2 s3 E2. destruct (negb (n0 =? 58)%N); [done|].
    destruct (parseValue fuel s3) as [[v s4]|] eqn:Ev; [|done]. apply IHv in Ev.
    skip_cases s4 s5 E4. destruct (n1 =? 44)%N; [|destruct (n1 =? 125)%N; [intros [= <- <-]; lia|done]].
    intros Es%IHm. lia.
Qed.

(** More fuel than twice the length changes nothing. *)
Lemma parse_fuel fuel :
  (forall fuel' s, 2 * length s < fuel -> 2 * length s < fuel' -> parseValue fuel s = parseValue fuel' s)
  /\ (forall fuel' s, 2 * length s + 1 < fuel -> 2 * length s + 1 < fuel' -> parseElements fuel s = parseElements fuel' s)
  /\ (forall fuel' o s, 2 * length s + 1 < fuel -> 2 * length s + 1 < fuel' -> parseMembers fuel o s = parseMembers fuel' o s).
Proof.
  induction fuel as [|fuel (IHv & IHe & IHm)]; [split_and!; lia|]. split_and!.
  - intros [|fuel'] s H H'; [lia|]. cbn [parseValue]. skip_cases s s' E.
    rewrite (IHe fuel' s'), (IHm fuel' [] s') by lia. done.
  - intros [|fuel'] s H H'; [lia|]. cbn [parseElements]. rewrite (IHv fuel' s) by lia.
    destruct (parseValue fuel' s) as [[v r1]|] eqn:Ev; [|done]. apply parse_length in Ev. skip_cases r1 r2 E.
    by rewrite (IHe fuel' r2) by lia.
  - intros [|fuel'] o s H H'; [lia|]. cbn [parseMembers]. skip_cases s s1 E. destruct (negb (n =? 34)%N); [done|].
    destruct (parseString s1) as [[k s2]|] eqn:Ek; [|done]. apply parseString_length in Ek. destruct (keyOf k) as [key|]; [|done].
    skip_cases s2 s3 E2. destruct (negb (n0 =? 58)%N); [done|]. rewrite (IHv fuel' s3) by lia.
    destruct (parseValue fuel' s3) as [[v s4]|] eqn:Ev; [|done]. apply parse_length in Ev. skip_cases s4 s5 E4.
    by rewrite (IHm fuel' _ s5) by lia.
Qed.

Lemma parseValue_fuel fuel s : parseFuel s <= fuel -> parseValue fuel s = parseValue (parseFuel s) s.
Proof. unfold parseFuel. intros H. apply (proj1 (parse_fuel fuel)); lia. Qed.

(** ** What [JSON.stringify] writes is read back *)

Lemma parseHex_digit n : (n < 16)%N -> parseHex (hexDigit n) = Some n.
Proof.
  intros H. unfold parseHex, hexDigit, isDigit. destruct (N.ltb_spec n 10).
  - rewrite (proj2 (N.leb_le 48 (48 + n))), (proj2 (N.leb_le (48 + n) 57)) by lia. cbn [andb]. f_equal. lia.
  - rewrite (proj2 (N.leb_gt (87 + n) 57)), andb_false_r by lia.
    rewrite (proj2 (N.leb_le 97 (87 + n))), (proj2 (N.leb_le (87 + n) 102)) by lia. cbn [andb]. f_equal. lia.
Qed.

Lemma parseString_unicode c r : (c < 65536)%N -> parseString (unicodeEscape c ++ r) = pushUnit c (parseString r).
Proof.
  intros Hc. pose proof (readUnit_unicode c r Hc) as Hr. unfold unicodeEscape in *. change (js "\u") with [92; 117]%N in *.
  cbn in Hr. cbn [app parseString]. change (92 =? 34)%N with false. change (92 =? 92)%N with true. change (117 =? 117)%N with true. cbn iota.
  rewrite !parseHex_digit by (try (by apply N.mod_lt); apply N.Div0.div_lt_upper_bound; lia).
  rewrite !hexValue_digit in Hr by (try (by apply N.mod_lt); apply N.Div0.div_lt_upper_bound; lia).
  injection Hr as Hr. cbn iota. by rewrite Hr.
Qed.

Lemma parseString_escapeUnit c r : parseString (escapeUnit c ++ r) = pushUnit c (parseString r).
Proof.
  unfold escapeUnit. repeat (case_bool_decide; [subst; done|]). destruct (N.ltb_spec c 32) as [Hc|Hc]; [apply parseString_unicode; lia|].
  cbn [app parseString]. rewrite !(proj2 (N.eqb_neq _ _)) by done. by rewrite (proj2 (N.ltb_ge _ _) Hc).
Qed.

Lemma parseString_plain c r : (127 < c)%N -> parseString (c :: r) = pushUnit c (parseString r).
Proof. intros Hc. cbn [parseString]. rewrite !(proj2 (N.eqb_neq _ _)) by lia. by rewrite (proj2 (N.ltb_ge _ _)) by lia. Qed.

Lemma parseString_escape s rest : parseString (escape s ++ 34%N :: rest) = Some (s, rest).
Proof.
  induction s as [s IH] using (induction_ltof1 _ (@length _)). unfold ltof in IH. destruct s as [|c s]; [done|]. cbn [escape].
  assert (Hr : forall s', length s' < length (c :: s) -> pushUnit c (parseString (escape s' ++ 34%N :: rest)) = Some (c :: s', rest)).
  { intros s' Hl. by rewrite IH. }
  destruct (isHigh c) eqn:Eh.
  - apply high_range in Eh. destruct s as [|d s]; [rewrite parseString_unicode by lia; exact (Hr [] ltac:(cbn; lia))|].
    destruct (isLow d) eqn:El; [|rewrite <- app_assoc, parseString_unicode by lia; apply Hr; cbn; lia].
    apply low_range in El. cbn [app]. rewrite !parseString_plain by lia. rewrite IH by (cbn; lia). done.
  - destruct (isLow c) eqn:El.
    + apply low_range in El. rewrite <- app_assoc, parseString_unicode by lia. apply Hr. cbn. lia.
    + rewrite <- app_assoc, parseString_escapeUnit. apply Hr. cbn. lia.
Qed.

(** Text after a value: nothing, or the end of an element. *)
Definition endsValue (rest : jstr) : Prop := forall u, head rest = Some u -> (u = 44 \/ u = 93 \/ u = 125)%N.

Lemma endsValue_after u rest : (u = 44 \/ u = 93 \/ u = 125)%N -> endsValue (u :: rest).
Proof. by intros H v [= <-]. Qed.

Lemma takeDigits_app ds rest :
  Forall (fun u => isDigit u = true) ds -> endsValue rest -> takeDigits (ds ++ rest) = (ds, rest).
Proof.
  intros Hds Hrest. induction Hds as [|u ds Hu Hds IH]; cbn.
  - destruct rest as [|v rest]; [done|]. destruct (Hrest v eq_refl) as [->|[->| ->]]; done.
  - by rewrite Hu, IH.
Qed.

Lemma digitsValue_snoc ds d : digitsValue (ds ++ [d]) = (10 * digitsValue ds + (Z.of_N d - 48))%Z.
Proof. unfold digitsValue. by rewrite foldl_app. Qed.

Lemma pretty_N_char_digit n : (n < 10)%N -> N_of_ascii (pretty_N_char n) = (48 + n)%N.
Proof.
  intros H.
  assert (Hall : forallb (fun k => N_of_ascii (pretty_N_char k) =? 48 + k)%N (N.of_nat <$> seq 0 10) = true) by (vm_compute; reflexivity).
  rewrite forallb_forall in Hall. apply N.eqb_eq, Hall, list_elem_of_In, list_elem_of_fmap. exists (N.to_nat n).
  rewrite N2Nat.id, elem_of_seq. split; [done|lia].
Qed.

(** The digits of a positive number. *)
Lemma pretty_N_go_digits n s : (0 < n)%N ->
  exists d ds, js (pretty_N_go n s) = (d :: ds) ++ js s /\ isDigit d = true /\ d <> 48%N
    /\ Forall (fun u => isDigit u = true) ds /\ digitsValue (d :: ds) = Z.of_N n.
Proof.
  revert s. induction (N.lt_wf_0 n) as [n _ IH]. intros s Hn. rewrite pretty_N_go_step by done.
  pose proof (N.div_mod n 10 ltac:(done)) as Hdm. pose proof (N.mod_lt n 10 ltac:(done)) as Hm.
  remember (n `mod` 10)%N as m eqn:Em. remember (n `div` 10)%N as q eqn:Eq. clear Em Eq.
  pose proof (pretty_N_char_digit m Hm) as Hc. remember (pretty_N_char m) as c eqn:Ec. clear Ec.
  assert (Hdig : isDigit (48 + m)%N = true) by (unfold isDigit; apply andb_true_iff; rewrite !N.leb_le; lia).
  destruct (decide (q = 0%N)) as [->|Hq].
  - rewrite pretty_N_go_0, js_cons, Hc. exists (48 + m)%N, [].
    split_and!; [done|done|lia|constructor|]. cbn [digitsValue foldl]. lia.
  - destruct (IH q ltac:(lia) (String c s) ltac:(lia)) as (d & ds & Heq & Hd & Hne & Hds & Hv).
    exists d, (ds ++ [48 + m])%N. rewrite Heq, js_cons, Hc. split_and!; [|done|done| |].
    + rewrite <- !app_comm_cons, <- app_assoc. done.
    + apply Forall_app. by split; [|repeat constructor].
    + rewrite app_comm_cons, digitsValue_snoc, Hv. lia.
Qed.

Lemma parseNumber_digits negative d ds rest text :
  isDigit d = true -> d <> 48%N \/ ds = [] -> Forall (fun u => isDigit u = true) ds -> endsValue rest ->
  (digitsValue (d :: ds) <= maxExactInteger)%Z -> text = (if negative : bool then [45%N] else []) ++ d :: ds ->
  parseNumber (text ++ rest) = Some (JNum (NInt (if negative then - digitsValue (d :: ds) else digitsValue (d :: ds))), rest)%Z.
Proof.
  intros Hd Hz Hds Hrest Hmax ->. unfold parseNumber.
  assert (H45 : (d =? 45)%N = false) by (apply N.eqb_neq; intros ->; done).
  assert (Htake : takeDigits ((d :: ds) ++ rest) = (d :: ds, rest)) by (by apply takeDigits_app; [constructor|]).
  assert (Hfr : readFraction rest = Some ([], rest)).
  { destruct rest as [|u r]; [done|]. cbn. by destruct (Hrest u eq_refl) as [->|[->| ->]]. }
  assert (Hex : readExponent rest = Some (0%Z, rest)).
  { destruct rest as [|u r]; [done|]. cbn. by destruct (Hrest u eq_refl) as [->|[->| ->]]. }
  assert (Hlead : (d =? 48)%N && negb (bool_decide (ds = [])) = false).
  { destruct Hz as [Hz| ->]; [by rewrite (proj2 (N.eqb_neq _ _) Hz)|]. by rewrite andb_false_r. }
  assert (Hnum : forall t, numberOf negative (d :: ds ++ []) (0 - Z.of_nat 0) t = NInt (if negative then - digitsValue (d :: ds) else digitsValue (d :: ds))%Z).
  { intros t. rewrite app_nil_r. unfold numberOf. change (Z.max 0 (0 - Z.of_nat 0)) with 0%Z. change (Z.max 0 (- (0 - Z.of_nat 0))) with 0%Z.
    rewrite Z.pow_0_r, Z.mul_1_r, Z.mod_1_r, Z.div_1_r. by rewrite (proj2 (Z.leb_le _ _) Hmax). }
  destruct negative; cbn [app].
  - change (45 =? 45)%N with true. cbn iota. change (d :: ds ++ rest) with ((d :: ds) ++ rest). by rewrite Htake, Hlead, Hfr, Hex, Hnum.
  - rewrite H45. change (d :: ds ++ rest) with ((d :: ds) ++ rest). by rewrite Htake, Hlead, Hfr, Hex, Hnum.
Qed.

Lemma parseNumber_print z rest :
  (Z.abs z <= maxExactInteger)%Z -> endsValue rest -> parseNumber (printZ z ++ rest) = Some (JNum (NInt z), rest).
Proof.
  intros Hz Hrest.
  assert (Hpos : forall p, (Z.pos p <= maxExactInteger)%Z -> exists d ds, js (pretty (N.pos p)) = d :: ds /\ isDigit d = true /\ d <> 48%N
     /\ Forall (fun u => isDigit u = true) ds /\ digitsValue (d :: ds) = Z.pos p).
  { intros p _. destruct (pretty_N_go_digits (N.pos p) "" ltac:(done)) as (d & ds & Heq & H). exists d, ds. split; [|exact H].
    rewrite <- (app_nil_r (d :: ds)). change [] with (js ""). rewrite <- Heq. done. }
  unfold printZ. destruct z as [|p|p]; cbn [pretty].
  - by apply (parseNumber_digits false 48%N []); [|right|constructor|..].
  - destruct (Hpos p ltac:(lia)) as (d & ds & Heq & Hd & Hne & Hds & Hv). change (js (pretty (Z.pos p))) with (js (pretty (N.pos p))). rewrite Heq.
    rewrite (parseNumber_digits false d ds rest (d :: ds)), Hv; try done; [by left|]. rewrite Hv. lia.
  - destruct (Hpos p ltac:(lia)) as (d & ds & Heq & Hd & Hne & Hds & Hv).
    change (js (pretty (Z.neg p))) with (45%N :: js (pretty (N.pos p))). rewrite Heq.
    rewrite (parseNumber_digits true d ds rest (45%N :: d :: ds)), Hv; try done; [by left|]. rewrite Hv. lia.
Qed.

(** The values [JSON.stringify] writes in full: exact integers, and each
    property once. *)
Fixpoint plain (v : json) : bool :=
  match v with
  | JNull | JBool _ | JStr _ => true
  | JNum (NInt z) => (Z.abs z <=? maxExactInteger)%Z
  | JNum (NDec _) => false
  | JArr l => forallb plain l
  | JObj o => bool_decide (NoDup o.*1) && forallb (fun e => plain e.2) o
  end.

Lemma keyOf_js k : keyOf (js k) = Some k.
Proof.
  unfold keyOf. assert (forallb (fun u => u <? 256)%N (js k) = true) as ->.
  { apply forallb_forall. intros u (a & -> & _)%list_elem_of_In%list_elem_of_fmap. apply N.ltb_lt, N_ascii_bounded. }
  unfold js. rewrite <- list_fmap_compose.
  assert (forall l : list ascii, (ascii_of_N ∘ N_of_ascii) <$> l = l) as ->.
  { intros l. induction l as [|a l IH]; [done|]. rewrite fmap_cons, IH. cbn. by rewrite ascii_N_embedding. }
  by rewrite String.string_of_list_ascii_of_string.
Qed.

(** The first unit of a text: no space, and not the end of a list. *)
Definition startsValue (u : N) : bool := negb (isJsonSpace u) && negb (u =? 93)%N && negb (u =? 125)%N.

Lemma printZ_head z : exists u r, printZ z = u :: r /\ (u = 45%N \/ isDigit u = true).
Proof.
  pose proof (printZ_numeric z) as Hz. destruct (printZ z) as [|u r] eqn:E; [by apply printZ_nonempty in E|].
  apply Forall_cons in Hz as [Hu _]. exists u, r. split; [done|]. unfold numeric in Hu. apply orb_true_iff in Hu as [Hu|Hu]; [left|by right].
  by apply bool_decide_eq_true in Hu.
Qed.

Lemma digit_cases u : isDigit u = true -> (48 <= u <= 57)%N.
Proof. unfold isDigit. rewrite andb_true_iff, !N.leb_le. done. Qed.

Lemma stringify_head v : plain v = true -> exists u r, stringify v = u :: r /\ startsValue u = true.
Proof.
  destruct v as [|[]|[z|t]|s|l|o]; intros Hp; try done; try (eexists _, _; split; [reflexivity|done]).
  destruct (printZ_head z) as (u & r & Hz & Hu). exists u, r. split; [exact Hz|]. unfold startsValue, isJsonSpace.
  destruct Hu as [->|Hu%digit_cases]; [done|]. rewrite bool_decide_false, !(proj2 (N.eqb_neq _ _)) by (rewrite ?elem_of_cons, ?elem_of_nil; lia). done.
Qed.

Lemma skipSpace_start u r : startsValue u = true -> skipSpace (u :: r) = u :: r.
Proof. unfold startsValue. rewrite !andb_true_iff. intros [[H _] _]. cbn. by destruct (isJsonSpace u). Qed.

Definition readsBack (v : json) : Prop :=
  forall rest, endsValue rest -> exists n, forall fuel, n <= fuel -> parseValue fuel (stringify v ++ rest) = Some (v, rest).

Lemma parseValue_number z rest :
  (Z.abs z <= maxExactInteger)%Z -> endsValue rest -> forall fuel, 1 <= fuel -> parseValue fuel (printZ z ++ rest) = Some (JNum (NInt z), rest).
Proof.
  intros Hz Hrest [|fuel] Hf; [lia|]. rewrite <- (parseNumber_print z rest Hz Hrest).
  destruct (printZ_head z) as (u & r & Heq & Hu). rewrite Heq. cbn [app parseValue]. rewrite skipSpace_start.
  - destruct Hu as [->|Hu%digit_cases]; [done|]. by rewrite !(proj2 (N.eqb_neq _ _)) by lia.
  - unfold startsValue, isJsonSpace. destruct Hu as [->|Hu%digit_cases]; [done|].
    by rewrite bool_decide_false, !(proj2 (N.eqb_neq _ _)) by (rewrite ?elem_of_cons, ?elem_of_nil; lia).
Qed.

Lemma join_cons sep p q ps : join sep (p :: q :: ps) = p ++ sep ++ join sep (q :: ps).
Proof. done. Qed.

Lemma parseElements_print l rest :
  l <> [] -> Forall readsBack l ->
  exists n, forall fuel, n <= fuel -> parseElements fuel (join [44%N] (stringify <$> l) ++ 93%N :: rest) = Some (l, rest).
Proof.
  intros Hne Hl. induction Hl as [|v l Hv Hl IH]; [done|]. destruct l as [|w l].
  - destruct (Hv (93%N :: rest) (endsValue_after 93 rest ltac:(lia))) as [n Hn]. exists (S n). intros [|fuel] Hf; [lia|].
    cbn [fmap list_fmap join parseElements]. by rewrite (Hn fuel) by lia.
  - destruct (IH ltac:(done)) as [n2 Hn2].
    destruct (Hv (44%N :: join [44%N] (stringify <$> (w :: l)) ++ 93%N :: rest) (endsValue_after 44 _ ltac:(lia))) as [n1 Hn1].
    exists (S (n1 + n2)). intros [|fuel] Hf; [lia|]. rewrite !fmap_cons, join_cons, <- !app_assoc. cbn [app parseElements].
    rewrite <- fmap_cons, (Hn1 fuel) by lia. cbn [skipSpace]. change (isJsonSpace 44) with false. cbn iota. change (44 =? 44)%N with true. cbn iota.
    by rewrite (Hn2 fuel) by lia.
Qed.

Definition entryText (e : string * json) : jstr := quote (js e.1) ++ js ":" ++ stringify e.2.

Lemma parseMembers_print o before rest :
  o <> [] -> Forall (fun e => readsBack e.2) o -> NoDup (before ++ o).*1 -> Forall (fun e => plain e.2 = true) o ->
  exists n, forall fuel, n <= fuel ->
    parseMembers fuel before (join [44%N] (entryText <$> o) ++ 125%N :: rest) = Some (before ++ o, rest).
Proof.
  intros Hne Ho Hnd Hplain. revert before Hnd. induction Ho as [|[k v] o Hv Ho IH]; [done|]. intros before Hnd. cbn [snd] in Hv.
  apply Forall_cons in Hplain as [Hpv Hplain]. cbn [snd] in Hpv.
  assert (Hset : oset k v before = before ++ [(k, v)]).
  { apply mset_new, mget_None. rewrite fmap_app in Hnd. apply NoDup_app in Hnd as (_ & Hnd & _). intros Hin. by apply (Hnd k Hin), list_elem_of_here. }
  assert (Hstep : forall fuel tail, endsValue tail -> parseValue fuel (stringify v ++ tail) = Some (v, tail) ->
    parseMembers (S fuel) before (entryText (k, v) ++ tail)
    = match skipSpace tail with
      | u :: r => if (u =? 44)%N then parseMembers fuel (oset k v before) r else if (u =? 125)%N then Some (oset k v before, r) else None
      | [] => None
      end).
  { intros fuel tail Ht Hp. unfold entryText, quote. cbn [fst snd]. change (js ":") with [58%N]. rewrite <- !app_assoc. cbn [app parseMembers skipSpace].
    change (isJsonSpace 34) with false. cbn iota. change (34 =? 34)%N with true. cbn [negb].
    rewrite parseString_escape, keyOf_js. cbn [skipSpace]. change (isJsonSpace 58) with false. cbn iota. change (58 =? 58)%N with true. cbn [negb].
    by rewrite Hp. }
  destruct o as [|e o].
  - pose proof (endsValue_after 125 rest ltac:(lia)) as He. destruct (Hv _ He) as [n Hn]. exists (S n). intros [|fuel] Hf; [lia|].
    change (join [44%N] (entryText <$> [(k, v)])) with (entryText (k, v)). rewrite Hstep by (done || apply Hn; lia). by rewrite Hset.
  - set (tail := join [44%N] (entryText <$> (e :: o)) ++ 125%N :: rest).
    pose proof (endsValue_after 44 tail ltac:(lia)) as He. destruct (Hv _ He) as [n1 Hn1].
    destruct (IH ltac:(done) Hplain (before ++ [(k, v)])) as [n2 Hn2]; [by rewrite <- app_assoc|].
    exists (S (n1 + n2)). intros [|fuel] Hf; [lia|]. rewrite !fmap_cons, join_cons, <- fmap_cons, <- !app_assoc.
    change ([44%N] ++ join [44%N] (entryText <$> e :: o) ++ 125%N :: rest) with (44%N :: tail).
    rewrite Hstep by (done || apply Hn1; lia). cbn [skipSpace]. change (isJsonSpace 44) with false. cbn iota. change (44 =? 44)%N with true. cbn iota.
    unfold tail. rewrite Hset, (Hn2 fuel) by lia. by rewrite <- app_assoc.
Qed.

Lemma stringify_array l : stringify (JArr l) = 91%N :: join [44%N] (stringify <$> l) ++ [93%N].
Proof. done. Qed.

Lemma stringify_object o : stringify (JObj o) = 123%N :: join [44%N] (entryText <$> o) ++ [125%N].
Proof. done. Qed.

Lemma join_head (parts : list jstr) u r ps : parts = (u :: r) :: ps -> exists r', join [44%N] parts = u :: r'.
Proof. intros ->. destruct ps as [|p ps]; [by exists r|]. rewrite join_cons. by eexists. Qed.

Lemma plain_reads_back v : plain v = true -> readsBack v.
Proof.
  induction v as [|b|[z|t]|s|l IH|o IH] using json_nested_ind; intros Hp rest Hrest; try done.
  - exists 1. by intros [|fuel] Hf; [lia|].
  - exists 1. by destruct b; intros [|fuel] Hf; [lia| |lia|].
  - exists 1. apply parseValue_number; [|done]. by apply Z.leb_le.
  - exists 1. intros [|fuel] Hf; [lia|]. cbn [stringify]. unfold quote. rewrite <- !app_assoc. cbn [app parseValue skipSpace].
    change (isJsonSpace 34) with false. cbn iota. change (34 =? 34)%N with true. cbn iota. by rewrite parseString_escape.
  - cbn [plain] in Hp. rewrite stringify_array. destruct l as [|v l]; [exists 1; by intros [|fuel] Hf; [lia|]|].
    assert (Hl : Forall readsBack (v :: l)).
    { rewrite forallb_forall in Hp. apply Forall_forall. intros w Hw. rewrite Forall_forall in IH. apply IH; [done|]. by apply Hp, list_elem_of_In. }
    destruct (parseElements_print (v :: l) rest ltac:(done) Hl) as [n Hn]. exists (S n). intros [|fuel] Hf; [lia|].
    cbn [app parseValue skipSpace]. change (isJsonSpace 91) with false. cbn iota. change (91 =? 34)%N with false. change (91 =? 91)%N with true. cbn iota.
    rewrite <- app_assoc. cbn [app]. rewrite (Hn fuel) by lia. cbn [forallb] in Hp. apply andb_prop in Hp as [Hpv _].
    destruct (stringify_head v Hpv) as (u & r & Hu & Hs). rewrite fmap_cons, Hu. destruct (join_head ((u :: r) :: (stringify <$> l)) u r _ eq_refl) as [r' Hj].
    rewrite Hj. rewrite <- app_comm_cons, skipSpace_start by done. unfold startsValue in Hs. apply andb_prop in Hs as [[_ Hs]%andb_prop _].
    by destruct (u =? 93)%N.
  - cbn [plain] in Hp. apply andb_prop in Hp as [Hnd%bool_decide_eq_true Hp]. rewrite stringify_object.
    destruct o as [|e o]; [exists 1; by intros [|fuel] Hf; [lia|]|].
    rewrite forallb_forall in Hp.
    assert (Hpl : Forall (fun e => plain e.2 = true) (e :: o)) by (apply Forall_forall; intros w Hw; by apply Hp, list_elem_of_In).
    assert (Ho : Forall (fun e => readsBack e.2) (e :: o)).
    { apply Forall_forall. intros w Hw. rewrite Forall_forall in IH. apply IH; [done|]. by apply Hp, list_elem_of_In. }
    destruct (parseMembers_print (e :: o) [] rest ltac:(done) Ho Hnd Hpl) as [n Hn]. exists (S n). intros [|fuel] Hf; [lia|].
    cbn [app parseValue skipSpace]. change (isJsonSpace 123) with false. cbn iota.
    change (123 =? 34)%N with false. change (123 =? 91)%N with false. change (123 =? 123)%N with true. cbn iota.
    rewrite <- app_assoc. cbn [app]. rewrite (Hn fuel) by lia.
    destruct (join_head (entryText e :: (entryText <$> o)) 34%N _ _ eq_refl) as [r' Hj]. rewrite fmap_cons, Hj. done.
Qed.

(** What is written in full is read back. *)
Lemma parse_stringify v : plain v = true -> parseJson (stringify v) = Some v.
Proof.
  intros Hp. destruct (plain_reads_back v Hp [] ltac:(done)) as [n Hn]. rewrite app_nil_r in Hn.
  unfold parseJson. rewrite <- (parseValue_fuel (Nat.max n (parseFuel (stringify v)))) by lia. by rewrite Hn by lia.
Qed.
