(* ===== verification/SafeText.v ===== *)
(** * Text for the supervisor

    Models apps/android/src/data/globalSupervisorSafeText.ts: what is taken out
    of a text, and how it is bounded, before it enters the supervisor's control
    plane.  The four regular expressions are matchers on code units: each is
    written as the leftmost match a backtracking matcher finds, given the unit
    before it. *)
From S2P Require Import Prelude Json.

Local Open Scope nat_scope.

(** ** Code points *)

(** [for (const character of value)]: surrogate pairs are one character. *)
Fixpoint characters (s : jstr) : list jstr :=
  match s with
  | [] => []
  | c :: s' =>
      match s' with
      | d :: s'' => if isHigh c && isLow d then [c; d] :: characters s'' else [c] :: characters s'
      | [] => [[c]]
      end
  end.

Definition ELLIPSIS : jstr := [8230%N].

(** The loop of [boundedCharacters]: the count of characters seen, the prefix
    kept; [None] when the text ends within the limit. *)
Fixpoint boundedLoop (limit count : nat) (prefix : jstr) (rest : list jstr) : option jstr :=
  match rest with
  | [] => None
  | character :: rest =>
      if count =? limit then Some (prefix ++ ELLIPSIS)
      else boundedLoop limit (count + 1)
             (if count <? limit - 1 then prefix ++ character else prefix) rest
  end.

Definition boundedCharacters (value : jstr) (limit : nat) : jstr :=
  default value (boundedLoop limit 0 [] (characters value)).

(** ** Regular expressions *)

(** [value.replaceAll(regexp, replacement)]: [match_] gives, at a position,
    the replacement and the length of the match there. *)
Fixpoint replaceMatches (match_ : option N -> jstr -> option (jstr * nat))
    (previous : option N) (skip : nat) (s : jstr) : jstr :=
  match s with
  | [] => []
  | c :: s' =>
      match skip with
      | S skip => replaceMatches match_ (Some c) skip s'
      | O =>
          match match_ previous s with
          | Some (replacement, n) => replacement ++ replaceMatches match_ (Some c) (n - 1) s'
          | None => c :: replaceMatches match_ (Some c) 0 s'
          end
      end
  end.

Definition replaceAll match_ (s : jstr) : jstr := replaceMatches match_ None 0 s.

(** [/\s+/gu] to a space. *)
Definition spacesMatch (previous : option N) (s : jstr) : option (jstr * nat) :=
  match takeWhile isSpace s with [] => None | run => Some (js " ", length run) end.

(** [\w], and [\w] under the flags [iu], which add the letters folding to
    [s] and [k]. *)
Definition isWord (c : N) : bool :=
  ((48 <=? c) && (c <=? 57) || (65 <=? c) && (c <=? 90) || (97 <=? c) && (c <=? 122) || (c =? 95))%N.
Definition isWordFolded (c : N) : bool := (isWord c || (c =? 383) || (c =? 8490))%N.

(** A position after [previous] where [\b] holds in front of a word character. *)
Definition atWordStart (word : N -> bool) (previous : option N) : bool :=
  match previous with Some c => negb (word c) | None => true end.

(** The simple case folding, onto the ASCII letters. *)
Definition foldCase (c : N) : N :=
  (if (65 <=? c) && (c <=? 90) then c + 32 else if c =? 383 then 115 else if c =? 8490 then 107 else c)%N.

(** A literal in front of the text, and the text after it. *)
Definition literal (fold : N -> N) (l : string) (s : jstr) : option jstr :=
  if startsWith (js l) (fold <$> take (length (js l)) s) then Some (drop (length (js l)) s) else None.

Fixpoint firstLiteral (fold : N -> N) (ls : list string) (s : jstr) : option jstr :=
  match ls with
  | [] => None
  | l :: ls => match literal fold l s with Some r => Some r | None => firstLiteral fold ls s end
  end.

Definition optionalLiteral (fold : N -> N) (ls : list string) (s : jstr) : jstr :=
  default s (firstLiteral fold ls s).

Definition isOneOf (cs : string) (c : N) : bool := bool_decide (c ∈ js cs).

(** An [http] or [https] address with its query and fragment (the second
    expression of the source), cut to the part before the query. *)
Definition urlMatch (previous : option N) (s : jstr) : option (jstr * nat) :=
  if negb (atWordStart isWordFolded previous) then None
  else
    r ← literal foldCase "http" s;
    r ← literal foldCase "://" (optionalLiteral foldCase ["s"] r);
    let host c := negb (isSpace c) && negb (isOneOf "?#" c) in
    match takeWhile host r with
    | [] => None
    | _ =>
        let r := dropWhile host r in
        let r := match r with
                 | 63%N :: r' => dropWhile (fun c => negb (isSpace c) && negb (isOneOf "#" c)) r'
                 | _ => r
                 end in
        let r := match r with 35%N :: r' => dropWhile (fun c => negb (isSpace c)) r' | _ => r end in
        let url := take (length s - length r) s in
        Some (takeWhile (fun c => negb (isOneOf "?#" c)) url, length url)
    end.

(** [\s*[:=]?\s+[^\s,;]+], and the text after it. *)
Definition assignedValue (s : jstr) : option jstr :=
  let value c := negb (isSpace c) && negb (isOneOf ",;" c) in
  let r := dropWhile isSpace s in
  let spaced := match takeWhile isSpace s, takeWhile value r with
                | _ :: _, _ :: _ => Some (dropWhile value r)
                | _, _ => None
                end in
  match r with
  | c :: r' =>
      if isOneOf ":=" c then
        match takeWhile isSpace r', takeWhile value (dropWhile isSpace r') with
        | _ :: _, _ :: _ => Some (dropWhile value (dropWhile isSpace r'))
        | _, _ => spaced
        end
      else spaced
  | [] => None
  end.

Definition credentialName (s : jstr) : option jstr :=
  match firstLiteral foldCase ["bearer"; "password"; "secret"; "token"] s with
  | Some r => Some r
  | None => r ← literal foldCase "api" s;
            literal foldCase "key" (optionalLiteral foldCase [" "; "_"; "-"] r)
  end.

(** [/\b(bearer|password|secret|token|api[ _-]?key)\s*[:=]?\s+[^\s,;]+/giu] to
    [$1 [redacted]]. *)
Definition credentialMatch (previous : option N) (s : jstr) : option (jstr * nat) :=
  if negb (atWordStart isWordFolded previous) then None
  else
    r ← credentialName s;
    rest ← assignedValue r;
    Some (take (length s - length r) s ++ js " [redacted]", length s - length rest).

Definition isTokenCharacter (c : N) : bool :=
  isWord c || (c =? 45)%N.

(** The longest token of [n] characters or fewer, eight at least, that ends at
    a word boundary. *)
Fixpoint tokenEnd (n : nat) (s : jstr) : option nat :=
  match n with
  | O => None
  | S n' =>
      if n <? 8 then None
      else if Bool.eqb (from_option isWord false (s !! n')) (from_option isWord false (s !! n))
      then tokenEnd n' s else Some n
  end.

(** [/\b(?:ghp|github_pat|sk|xox[baprs])[-_][A-Za-z0-9_-]{8,}\b/gu]. *)
Definition tokenMatch (previous : option N) (s : jstr) : option (jstr * nat) :=
  if negb (atWordStart isWord previous) then None
  else
    r ← firstLiteral id ["ghp"; "github_pat"; "sk"; "xoxb"; "xoxa"; "xoxp"; "xoxr"; "xoxs"] s;
    r ← firstLiteral id ["-"; "_"] r;
    n ← tokenEnd (length (takeWhile isTokenCharacter r)) r;
    Some (js "[redacted token]", length s - length r + n).

Definition projectGlobalSupervisorSafeText (value : jstr) (limit : nat) : jstr :=
  let normalized := trim (replaceAll spacesMatch value) in
  let withoutUrlSecrets := replaceAll urlMatch normalized in
  let withoutCredentialAssignments := replaceAll credentialMatch withoutUrlSecrets in
  let withoutKnownTokens := replaceAll tokenMatch withoutCredentialAssignments in
  boundedCharacters withoutKnownTokens limit.

Example safe_ex1 : projectGlobalSupervisorSafeText (js "see  HTTPS://a.b/c?token=1#x now") 80 = js "see HTTPS://a.b/c now".
Proof. vm_compute. reflexivity. Qed.
Example safe_ex2 : projectGlobalSupervisorSafeText (js "Password: hunter2, api-key = abc; bearer x.y") 80
  = js "Password [redacted], api-key [redacted]; bearer [redacted]".
Proof. vm_compute. reflexivity. Qed.
Example safe_ex3 : projectGlobalSupervisorSafeText (js "use ghp_0123456789- and sk-1234567") 80
  = js "use [redacted token]- and sk-1234567".
Proof. vm_compute. reflexivity. Qed.
Example safe_ex4 : projectGlobalSupervisorSafeText (js "abcdef") 4 = js "abc" ++ ELLIPSIS.
Proof. vm_compute. reflexivity. Qed.

(** ** The bound *)

Lemma characters_cons c b :
  length (characters b) <= length (characters (c :: b)) <= S (length (characters b)).
Proof.
  remember (length b) as n eqn:Hn. revert b c Hn.
  induction n as [n IH] using lt_wf_ind. intros [|d b] c ->; [simpl; lia|].
  pose proof (IH (length b) ltac:(simpl; lia) b d eq_refl) as Hb.
  change (characters (c :: d :: b)) with
    (if isHigh c && isLow d then [c; d] :: characters b else [c] :: characters (d :: b)).
  destruct (isHigh c && isLow d); simpl length in *; lia.
Qed.

Lemma characters_app a b : length (characters (a ++ b)) <= length (characters a) + length (characters b).
Proof.
  remember (length a) as n eqn:Hn. revert a Hn.
  induction n as [n IH] using lt_wf_ind. intros [|c [|d a]] ->; [done| |].
  - change ([c] ++ b) with (c :: b). pose proof (characters_cons c b).
    change (length (characters [c])) with 1. lia.
  - change (characters ((c :: d :: a) ++ b)) with
      (if isHigh c && isLow d then [c; d] :: characters (a ++ b) else [c] :: characters ((d :: a) ++ b)).
    change (characters (c :: d :: a)) with
      (if isHigh c && isLow d then [c; d] :: characters a else [c] :: characters (d :: a)).
    pose proof (IH (length a) ltac:(simpl; lia) a eq_refl).
    pose proof (IH (length (d :: a)) ltac:(simpl; lia) (d :: a) eq_refl).
    destruct (isHigh c && isLow d); simpl length in *; lia.
Qed.

Lemma characters_single s x : x ∈ characters s -> length (characters x) = 1.
Proof.
  remember (length s) as n eqn:Hn. revert s Hn.
  induction n as [n IH] using lt_wf_ind. intros [|c [|d s]] ->; simpl.
  - by intros ?%elem_of_nil.
  - by intros ->%list_elem_of_singleton.
  - destruct (isHigh c && isLow d) eqn:E; intros [-> |Hx]%elem_of_cons.
    + simpl. by rewrite E.
    + by apply (IH (length s) ltac:(simpl; lia) s).
    + done.
    + by apply (IH (length (d :: s)) ltac:(simpl; lia) (d :: s)).
Qed.

Lemma boundedLoop_length limit count prefix rest s :
  boundedLoop limit count prefix rest = Some s ->
  Forall (fun x => length (characters x) = 1) rest ->
  length (characters prefix) <= count -> length (characters prefix) <= limit - 1 -> count <= limit ->
  length (characters s) <= limit - 1 + 1.
Proof.
  revert count prefix. induction rest as [|x rest IH]; intros count prefix; [done|]. simpl.
  intros Hs [Hx Hrest]%Forall_cons Hc Hl Hcl. destruct (count =? limit) eqn:E.
  - injection Hs as <-. pose proof (characters_app prefix ELLIPSIS).
    assert (length (characters ELLIPSIS) = 1) by done. lia.
  - apply Nat.eqb_neq in E. eapply IH; [exact Hs|done|..].
    + pose proof (characters_app prefix x). destruct (count <? limit - 1); lia.
    + pose proof (characters_app prefix x). destruct (count <? limit - 1) eqn:E'; [apply Nat.ltb_lt in E'|]; lia.
    + lia.
Qed.

Lemma boundedLoop_none limit count prefix rest :
  count <= limit -> boundedLoop limit count prefix rest = None -> count + length rest <= limit.
Proof.
  revert count prefix. induction rest as [|x rest IH]; intros count prefix Hc; simpl; [lia|].
  destruct (count =? limit) eqn:E; [done|]. apply Nat.eqb_neq in E.
  intros H%IH; lia.
Qed.

(** What is said of a chat stays within the limit, in characters: an ellipsis
    takes the last one when something is left out. *)
Lemma boundedCharacters_length value limit : length (characters (boundedCharacters value limit)) <= Nat.max 1 limit.
Proof.
  unfold boundedCharacters. destruct (boundedLoop limit 0 [] (characters value)) as [s|] eqn:E; simpl.
  - eapply boundedLoop_length in E; [|by apply Forall_forall, characters_single|simpl; lia..]. lia.
  - apply boundedLoop_none in E; lia.
Qed.

(** A secret written without a space after the sign is not taken out. *)
Lemma unspaced_secret_kept :
  projectGlobalSupervisorSafeText (js "password=hunter2 token:abc") 80 = js "password=hunter2 token:abc".
Proof. vm_compute. reflexivity. Qed.
