(* ===== verification/MarkdownStream.v ===== *)
(** * Incremental Markdown segmentation

    Models packages/rendering-core/src/markdown-stream.ts: the scanner that
    looks for the next place to cut a growing Markdown text, the repair of a
    fenced block that has to be cut, and the loop that drains the pending text
    into parser inputs. *)
From S2P Require Import Prelude JsMap Json.

Local Open Scope nat_scope.

(** ** Data *)

Record MarkdownStreamProjection := { segments : list jstr; remainder : jstr }.

Record MarkdownStreamLimits := { targetSegmentChars : nat; maxSegmentChars : nat }.

Definition TARGET_MARKDOWN_SEGMENT_CHARS : nat := 48 * 1024.
Definition MAX_MARKDOWN_SEGMENT_CHARS : nat := 96 * 1024.

Definition DEFAULT_LIMITS : MarkdownStreamLimits :=
  {| targetSegmentChars := TARGET_MARKDOWN_SEGMENT_CHARS;
     maxSegmentChars := MAX_MARKDOWN_SEGMENT_CHARS |}.

Record SegmentSplit := { segment : jstr; split_remainder : jstr }.
Record Fence := { marker : jstr; opener : jstr }.

#[export] Instance Fence_eq_dec : EqDecision Fence.
Proof. solve_decision. Defined.

Definition newline : N := 10.
Definition nl : jstr := [newline].

(** ** Operations *)

(** The fence pattern on one line: at most three white space units, a run of
    at least three equal marks, then anything but a line terminator up to the
    end of the line. Returns the run and what follows it. *)
Definition isLineTerminator (c : N) : bool := bool_decide (c ∈ [10; 13; 8232; 8233]%N).

Definition fenceMarks (c : N) : bool := bool_decide (c = 96%N) || bool_decide (c = 126%N).

Definition matchFence (line : jstr) : option (jstr * jstr) :=
  let body := dropWhile isSpace line in
  if 3 <? length (takeWhile isSpace line) then None
  else match body with
       | [] => None
       | c :: _ =>
           if fenceMarks c then
             let run := takeWhile (fun d => bool_decide (d = c)) body in
             let rest := dropWhile (fun d => bool_decide (d = c)) body in
             if length run <? 3 then None
             else if existsb isLineTerminator rest then None
             else Some (run, rest)
           else None
       end.

Definition updateFence (current : option Fence) (line : jstr) : option Fence :=
  match matchFence line with
  | None => current
  | Some (m, rest) =>
      match current with
      | None => Some {| marker := m; opener := m ++ rest |}
      | Some f =>
          if bool_decide (head m = head (marker f)) && (length (marker f) <=? length m)
          then None else current
      end
  end.

Definition sliceAt (source : jstr) (boundary : nat) : SegmentSplit :=
  {| segment := slice_to boundary source; split_remainder := slice_from boundary source |}.

(** [source.charCodeAt(i)] for [i = boundary - 1]: nothing before the text. *)
Definition safeStringBoundary (source : jstr) (requested : nat) : nat :=
  let boundary := Nat.min (length source) requested in
  match boundary with
  | O => boundary
  | S previous =>
      match source !! previous, source !! boundary with
      | Some p, Some n => if isHigh p && isLow n then previous else boundary
      | _, _ => boundary
      end
  end.

Definition splitFence (source : jstr) (boundary : nat) (fence : Fence) : SegmentSplit :=
  let prefix := slice_to boundary source in
  let suffix := slice_from boundary source in
  {| segment := prefix ++ (if endsWith nl prefix then [] else nl) ++ marker fence ++ nl;
     split_remainder := opener fence ++ nl ++ suffix |}.

Definition indexOfNewline (source : jstr) (cursor : nat) : option nat :=
  (fun i => cursor + i) <$>
    findIndex (fun c => bool_decide (c = newline)) (slice_from cursor source).

(** What the scan of the lines of [nextSegment] ends with. *)
Inductive ScanResult :=
| Split (s : SegmentSplit)
| Break (fence : option Fence)
| OutOfFuel.

Definition cutAt (source : jstr) (requested : nat) (fence : option Fence) : SegmentSplit :=
  let boundary := safeStringBoundary source requested in
  match fence with
  | Some f => splitFence source boundary f
  | None => sliceAt source boundary
  end.

(** The [while (cursor < source.length)] loop; [lastSafe] is [None] for [-1]. *)
Fixpoint scanLines (fuel : nat) (limits : MarkdownStreamLimits) (source : jstr)
    (cursor : nat) (fence : option Fence) (lastSafe : option nat) : ScanResult :=
  match fuel with
  | O => OutOfFuel
  | S fuel =>
      if cursor <? length source then
        match indexOfNewline source cursor with
        | None => Break fence
        | Some nlIndex =>
            let lineEnd := nlIndex + 1 in
            let line := slice_from cursor (slice_to nlIndex source) in
            let fence := updateFence fence line in
            let lastSafe :=
              if bool_decide (fence = None) && bool_decide (trim line = [])
              then Some lineEnd else lastSafe in
            match lastSafe with
            | Some safe =>
                if targetSegmentChars limits <=? safe then Split (sliceAt source safe)
                else if maxSegmentChars limits <=? lineEnd
                then Split (cutAt source (maxSegmentChars limits) fence)
                else scanLines fuel limits source lineEnd fence lastSafe
            | None =>
                if maxSegmentChars limits <=? lineEnd
                then Split (cutAt source (maxSegmentChars limits) fence)
                else scanLines fuel limits source lineEnd fence lastSafe
            end
        end
      else Break fence
  end.

Definition nextSegment (source : jstr) (complete : bool) (limits : MarkdownStreamLimits)
    : option SegmentSplit :=
  match scanLines (S (length source)) limits source 0 None None with
  | Split s => Some s
  | Break fence =>
      if maxSegmentChars limits <=? length source
      then Some (cutAt source (maxSegmentChars limits) fence)
      else if complete then Some (sliceAt source (length source)) else None
  | OutOfFuel => None
  end.

(** The [while (pending.length > 0)] loop; [None] when [fuel] runs out. *)
Fixpoint drain (fuel : nat) (pending : jstr) (complete : bool) (limits : MarkdownStreamLimits)
    (segs : list jstr) : option MarkdownStreamProjection :=
  match fuel with
  | O => None
  | S fuel =>
      if bool_decide (pending = [])
      then Some {| segments := segs; remainder := pending |}
      else match nextSegment pending complete limits with
           | None => Some {| segments := segs; remainder := pending |}
           | Some split =>
               let segs := match segment split with [] => segs | s => segs ++ [s] end in
               if bool_decide (split_remainder split = pending)
               then Some {| segments := segs; remainder := pending |}
               else drain fuel (split_remainder split) complete limits segs
           end
  end.

Definition projectMarkdownStream (fuel : nat) (rem chunk : jstr) (complete : bool)
    (limits : MarkdownStreamLimits) : option MarkdownStreamProjection :=
  drain fuel (rem ++ chunk) complete limits [].

Definition projectCompleteMarkdown (fuel : nat) (source : jstr) : option (list jstr) :=
  match source with
  | [] => Some []
  | _ =>
      projected ← projectMarkdownStream fuel [] source true DEFAULT_LIMITS;
      Some (segments projected
            ++ match remainder projected with [] => [] | r => [r] end)
  end.

(** ** Lines of a text *)

Definition occurs (l s : jstr) : Prop := exists pre post, s = pre ++ l ++ post.

(** [l] is a newline-free stretch of [s]. *)
Definition line_in (s l : jstr) : Prop := occurs l s /\ newline ∉ l.

(** [f] was opened by a line of [s]. *)
Definition fence_of (s : jstr) (f : Fence) : Prop :=
  exists line rest, line_in s line /\ matchFence line = Some (marker f, rest)
                    /\ opener f = marker f ++ rest.

Lemma occurs_trans a b c : occurs a b -> occurs b c -> occurs a c.
Proof.
  intros (p1 & q1 & ->) (p2 & q2 & ->).
  exists (p2 ++ p1), (q1 ++ q2). by rewrite !app_assoc.
Qed.

Lemma occurs_refl s : occurs s s.
Proof. exists [], []. by rewrite app_nil_r. Qed.

Lemma occurs_drop n s : occurs (drop n s) s.
Proof. exists (take n s), []. by rewrite app_nil_r, take_drop. Qed.

Lemma occurs_take n s : occurs (take n s) s.
Proof. exists [], (drop n s). simpl. by rewrite take_drop. Qed.

Lemma line_in_mono s t l : occurs s t -> line_in s l -> line_in t l.
Proof. intros Ho [Hl Hn]. split; [by eapply occurs_trans|done]. Qed.

#[local] Hint Resolve occurs_refl occurs_drop occurs_take : codewide.

(** A newline separates the lines of the two sides. *)
Lemma line_in_app a b l : line_in (a ++ nl ++ b) l -> line_in a l \/ line_in b l.
Proof.
  intros [(pre & post & Heq) Hn].
  apply app_eq_inv in Heq as [(k & Ha & Hk)|(k & Ha & Hk)].
  - (* the stretch starts inside [a] *)
    destruct (decide (length l <= length k)) as [Hle|Hgt].
    + left. split; [|done]. exists pre, (drop (length l) k).
      rewrite Ha. f_equal. rewrite <- (take_drop (length l) k) at 1. f_equal.
      apply (f_equal (take (length l))) in Hk.
      by rewrite take_app_length, take_app_le in Hk by done.
    + exfalso. apply Hn.
      assert (l !! length k = Some newline) as Hx.
      { rewrite <- (lookup_app_l l post) by lia. rewrite Hk.
        by rewrite lookup_app_r, Nat.sub_diag. }
      by eapply list_elem_of_lookup_2.
  - (* it starts after [a] *)
    destruct k as [|c k].
    + simpl in Hk. destruct l as [|c l].
      * left. split; [|done]. exists a, []. by rewrite app_nil_r.
      * exfalso. apply Hn. simpl in Hk. injection Hk as <- _. left.
    + right. split; [|done]. simpl in Hk. injection Hk as _ Hk. by exists k, post.
Qed.

Lemma indexOfNewline_Some source cursor i :
  indexOfNewline source cursor = Some i ->
  cursor <= i < length source /\ source !! i = Some newline /\
  newline ∉ slice_from cursor (slice_to i source).
Proof.
  unfold indexOfNewline, slice_from, slice_to. intros H.
  destruct (findIndex _ _) as [k|] eqn:E; [|done]. injection H as <-.
  apply findIndex_Some in E as (c & Hc & Hp & Hlt).
  rewrite lookup_drop in Hc. apply bool_decide_eq_true in Hp as ->.
  split_and!; [lia|by eapply lookup_lt_Some|done|].
  rewrite <- take_drop_commute. intros [j Hj]%list_elem_of_lookup.
  rewrite lookup_take in Hj. destruct (decide _) as [Hjk|]; [|done].
  specialize (Hlt j newline Hjk Hj). by rewrite bool_decide_true in Hlt.
Qed.

Lemma indexOfNewline_None source cursor :
  indexOfNewline source cursor = None -> newline ∉ slice_from cursor source.
Proof.
  unfold indexOfNewline. intros H%fmap_None%findIndex_None Hin.
  rewrite Forall_forall in H. specialize (H _ Hin).
  by apply bool_decide_eq_false in H.
Qed.

(** ** The scan of one segment *)

(** The line at [cursor] ending at newline [i] is a line of [source]. *)
Lemma scanned_line_in source cursor i :
  indexOfNewline source cursor = Some i ->
  line_in source (slice_from cursor (slice_to i source)).
Proof.
  intros (_ & _ & Hn)%indexOfNewline_Some. split; [|done].
  eapply occurs_trans; [apply occurs_drop|apply occurs_take].
Qed.

Lemma updateFence_of source current line f :
  (forall g, current = Some g -> fence_of source g) -> line_in source line ->
  updateFence current line = Some f -> fence_of source f.
Proof.
  intros Hc Hl. unfold updateFence.
  destruct (matchFence line) as [[m rest]|] eqn:Em; [|by apply Hc].
  destruct current as [g|].
  - destruct (_ && _); [done|]. by apply Hc.
  - intros [= <-]. by exists line, rest.
Qed.

(** What a scan can return: a cut after a blank line or a forced cut at the
    limit, inside the fence (if any) some line opened. *)
Inductive scan_spec (limits : MarkdownStreamLimits) (source : jstr) : ScanResult -> Prop :=
| scan_safe safe blank :
    0 < safe -> safe <= length source -> safe <= maxSegmentChars limits + length blank + 1 ->
    line_in source blank -> trim blank = [] ->
    scan_spec limits source (Split (sliceAt source safe))
| scan_cut fence :
    maxSegmentChars limits <= length source ->
    (forall f, fence = Some f -> fence_of source f) ->
    scan_spec limits source (Split (cutAt source (maxSegmentChars limits) fence))
| scan_break fence :
    (forall f, fence = Some f -> fence_of source f) ->
    scan_spec limits source (Break fence).

(** [lastSafe] is always the end of a blank line already passed. *)
Definition safe_inv (limits : MarkdownStreamLimits) (source : jstr) (safe : nat) : Prop :=
  0 < safe /\ safe <= length source /\
  exists blank, line_in source blank /\ trim blank = []
                /\ safe <= maxSegmentChars limits + length blank + 1.

Lemma scanned_line_length source cursor i :
  indexOfNewline source cursor = Some i ->
  length (slice_from cursor (slice_to i source)) = i - cursor.
Proof.
  intros (Hi & _ & _)%indexOfNewline_Some. unfold slice_from, slice_to.
  rewrite length_drop, length_take. lia.
Qed.

Lemma safe_inv_step limits source cursor i fence lastSafe :
  cursor <= maxSegmentChars limits ->
  indexOfNewline source cursor = Some i ->
  (forall safe, lastSafe = Some safe -> safe_inv limits source safe) ->
  forall safe,
    (if bool_decide (fence = @None Fence)
        && bool_decide (trim (slice_from cursor (slice_to i source)) = [])
     then Some (i + 1) else lastSafe) = Some safe ->
    safe_inv limits source safe.
Proof.
  intros Hc Hi Hs safe. destruct (_ && _) eqn:E; [|by apply Hs].
  intros [= <-]. bool_prop.
  pose proof (scanned_line_in _ _ _ Hi) as Hl.
  pose proof (scanned_line_length _ _ _ Hi) as Hlen.
  apply indexOfNewline_Some in Hi as (Hi & _ & _).
  split_and!; [lia|lia|]. exists (slice_from cursor (slice_to i source)).
  split_and!; [done|done|lia].
Qed.

Lemma scanLines_spec limits source fuel cursor fence lastSafe :
  cursor <= length source -> length source < cursor + fuel ->
  cursor <= maxSegmentChars limits ->
  (forall f, fence = Some f -> fence_of source f) ->
  (forall safe, lastSafe = Some safe -> safe_inv limits source safe) ->
  scan_spec limits source (scanLines fuel limits source cursor fence lastSafe).
Proof.
  revert cursor fence lastSafe.
  induction fuel as [|fuel IH]; intros cursor fence lastSafe Hle Hfuel Hcur Hf Hs;
    [exfalso; lia|].
  cbn [scanLines]. destruct (cursor <? length source) eqn:Hlt; [|by constructor].
  destruct (indexOfNewline source cursor) as [i|] eqn:Hi; [|by constructor].
  pose proof (indexOfNewline_Some _ _ _ Hi) as (Hb & _ & _).
  set (line := slice_from cursor (slice_to i source)).
  pose proof (scanned_line_in _ _ _ Hi : line_in source line) as Hl.
  assert (forall f, updateFence fence line = Some f -> fence_of source f) as Hf'
    by (intros; by eapply updateFence_of).
  pose proof (safe_inv_step limits source cursor i (updateFence fence line) lastSafe
                Hcur Hi Hs) as Hs'.
  fold line in Hs'.
  destruct (if _ && _ then _ else _) as [safe|].
  - destruct (Hs' safe eq_refl) as (H0 & H1 & blank & Hbl & Htr & H2).
    destruct (_ <=? safe); [by eapply scan_safe|].
    destruct (_ <=? i + 1) eqn:Hm; bool_prop; [apply scan_cut; [lia|done]|].
    apply IH; [lia|lia|lia|done|done].
  - destruct (_ <=? i + 1) eqn:Hm; bool_prop; [apply scan_cut; [lia|done]|].
    apply IH; [lia|lia|lia|done|done].
Qed.

(** One step of the segmenter: it waits, or cuts after a blank line, or cuts at
    the size limit, or returns the rest of a completed text. *)
Inductive step_spec (complete : bool) (limits : MarkdownStreamLimits) (source : jstr)
    : option SegmentSplit -> Prop :=
| step_wait :
    length source < maxSegmentChars limits -> complete = false ->
    step_spec complete limits source None
| step_rest :
    length source < maxSegmentChars limits ->
    step_spec complete limits source (Some (sliceAt source (length source)))
| step_safe safe blank :
    0 < safe -> safe <= length source -> safe <= maxSegmentChars limits + length blank + 1 ->
    line_in source blank -> trim blank = [] ->
    step_spec complete limits source (Some (sliceAt source safe))
| step_cut fence :
    maxSegmentChars limits <= length source ->
    (forall f, fence = Some f -> fence_of source f) ->
    step_spec complete limits source (Some (cutAt source (maxSegmentChars limits) fence)).

Lemma nextSegment_spec source complete limits :
  step_spec complete limits source (nextSegment source complete limits).
Proof.
  unfold nextSegment.
  assert (scan_spec limits source
            (scanLines (S (length source)) limits source 0 None None)) as H
    by (apply scanLines_spec; [lia|lia|lia|done|done]).
  destruct H; [by eapply step_safe|by apply step_cut|].
  destruct (_ <=? length source) eqn:Hm; bool_prop; [by apply step_cut|].
  destruct complete; [by apply step_rest|by apply step_wait].
Qed.

(** ** Cuts *)

Lemma safeStringBoundary_bounds source requested :
  requested <= length source ->
  requested - 1 <= safeStringBoundary source requested <= requested.
Proof.
  intros H. unfold safeStringBoundary. rewrite Nat.min_r by done.
  destruct requested as [|previous]; [done|].
  destruct (source !! previous), (source !! S previous); try (by split; lia).
  destruct (_ && _); split; lia.
Qed.

(** [p] followed by [s], delivered as parser input: the text [p ++ s] minus
    the rest, where a fence open at a cut is closed before it and reopened
    after it by its own opening line. *)
Inductive preserves : jstr -> list jstr -> jstr -> Prop :=
| preserves_rest s : preserves s [] s
| preserves_plain p s segs r :
    preserves s segs r -> preserves (p ++ s) (p :: segs) r
| preserves_fence f p s segs r :
    fence_of (p ++ s) f -> preserves (opener f ++ nl ++ s) segs r ->
    preserves (p ++ s)
      ((p ++ (if endsWith nl p then [] else nl) ++ marker f ++ nl) :: segs) r.

(** The two shapes a cut can have. *)
Inductive split_spec (source : jstr) : SegmentSplit -> Prop :=
| split_plain p s :
    source = p ++ s -> split_spec source {| segment := p; split_remainder := s |}
| split_fence f p s :
    source = p ++ s -> fence_of source f ->
    split_spec source
      {| segment := p ++ (if endsWith nl p then [] else nl) ++ marker f ++ nl;
         split_remainder := opener f ++ nl ++ s |}.

Lemma sliceAt_spec source b : split_spec source (sliceAt source b).
Proof. apply split_plain. unfold slice_to, slice_from. by rewrite take_drop. Qed.

Lemma cutAt_spec source b fence :
  (forall f, fence = Some f -> fence_of source f) ->
  split_spec source (cutAt source b fence).
Proof.
  intros Hf. unfold cutAt. destruct fence as [f|]; [|apply sliceAt_spec].
  apply split_fence; [|by apply Hf]. unfold slice_to, slice_from. by rewrite take_drop.
Qed.

Lemma nextSegment_split source complete limits split :
  nextSegment source complete limits = Some split -> split_spec source split.
Proof.
  intros H. pose proof (nextSegment_spec source complete limits) as Hs.
  rewrite H in Hs. inversion Hs; subst; auto using sliceAt_spec, cutAt_spec.
Qed.

(** Segments are only ever appended. *)
Lemma drain_preserves fuel pending complete limits segs p :
  drain fuel pending complete limits segs = Some p ->
  exists tail, segments p = segs ++ tail /\ preserves pending tail (remainder p).
Proof.
  revert pending segs. induction fuel as [|fuel IH]; intros pending segs; [done|].
  cbn [drain]. case_bool_decide.
  { intros [= <-]. exists []. rewrite app_nil_r. split; [done|]. apply preserves_rest. }
  destruct (nextSegment pending complete limits) as [split|] eqn:Hn.
  2:{ intros [= <-]. exists []. rewrite app_nil_r. split; [done|]. apply preserves_rest. }
  assert (forall tail r, preserves (split_remainder split) tail r ->
            exists tail', (match segment split with [] => segs | s => segs ++ [s] end) ++ tail
                          = segs ++ tail' /\ preserves pending tail' r) as Hstep.
  { intros tail r. apply nextSegment_split in Hn as [q s ->|f q s -> Hf]; simpl; intros Hp.
    - destruct q as [|c q]; [by exists tail|].
      exists ((c :: q) :: tail). rewrite <- app_assoc. split; [done|]. by apply preserves_plain.
    - eexists (_ :: tail). split; [|by apply preserves_fence].
      case_match eqn:E; [|by rewrite <- app_assoc].
      apply (f_equal length) in E. rewrite !length_app in E. simpl in E. lia. }
  case_bool_decide as Heq.
  - intros [= <-]. simpl.
    destruct (Hstep [] pending) as (tail' & Ht & Hp); [rewrite Heq; apply preserves_rest|].
    rewrite app_nil_r in Ht. by exists tail'.
  - intros (tail & Ht & Hp)%IH.
    destruct (Hstep _ _ Hp) as (tail' & Ht' & Hp').
    exists tail'. by rewrite Ht, Ht'.
Qed.

Lemma preserves_join s segs r :
  preserves s segs r -> (forall line, line_in s line -> matchFence line = None) ->
  mjoin segs ++ r = s.
Proof.
  induction 1 as [s|q s segs r _ IH|f q s segs r (line & rest & Hl & Hm & _) _ _];
    intros Hno; simpl.
  - done.
  - rewrite <- app_assoc, IH; [done|].
    intros line Hl. apply Hno. eapply line_in_mono; [|done]. by exists q, []; rewrite app_nil_r.
  - by rewrite Hno in Hm.
Qed.

(** ** Termination and size bounds *)

(** No line of [s] opens a fence longer than the limit leaves room for.  A cut can
    leave any newline-free stretch of the text as a line, so all of them count. *)
Definition fence_bounded (limits : MarkdownStreamLimits) (s : jstr) : Prop :=
  forall line m rest, line_in s line -> matchFence line = Some (m, rest) ->
    length (m ++ rest) + 2 < maxSegmentChars limits.

(** White-space-only lines of [s] fit in a segment. *)
Definition blank_bounded (limits : MarkdownStreamLimits) (s : jstr) : Prop :=
  forall line, line_in s line -> trim line = [] -> length line < maxSegmentChars limits.

Lemma matchFence_occurs line m rest :
  matchFence line = Some (m, rest) -> occurs (m ++ rest) line.
Proof.
  unfold matchFence. destruct (_ <? _); [done|].
  destruct (dropWhile isSpace line) as [|c body] eqn:E; [done|].
  destruct (fenceMarks c); [|done]. destruct (_ <? _); [done|].
  destruct (existsb _ _); [done|]. intros H. apply (inj Some) in H.
  apply (inj2 pair) in H as [<- <-].
  exists (takeWhile isSpace line), [].
  by rewrite takeWhile_dropWhile, app_nil_r, <- E, takeWhile_dropWhile.
Qed.

(** A line of the opener of a fence is a line of the text it was found in. *)
Lemma fence_of_opener s f : fence_of s f -> occurs (opener f) s.
Proof.
  intros (line & rest & [Ho _] & Hm & ->).
  eapply occurs_trans; [by eapply matchFence_occurs|done].
Qed.

Lemma split_lines source split l :
  split_spec source split -> line_in (split_remainder split) l -> line_in source l.
Proof.
  intros [p s ->|f p s -> Hf] Hl; simpl in Hl.
  - eapply line_in_mono; [|done]. by exists p, []; rewrite app_nil_r.
  - apply (line_in_app (opener f) s l) in Hl as [Hl|Hl].
    + eapply line_in_mono; [by apply fence_of_opener|done].
    + eapply line_in_mono; [|done]. by exists p, []; rewrite app_nil_r.
Qed.

Lemma fence_bounded_split limits source split :
  split_spec source split -> fence_bounded limits source ->
  fence_bounded limits (split_remainder split).
Proof. intros Hs Hb line m rest Hl. eapply Hb. by eapply split_lines. Qed.

Lemma blank_bounded_split limits source split :
  split_spec source split -> blank_bounded limits source ->
  blank_bounded limits (split_remainder split).
Proof. intros Hs Hb line Hl. apply Hb. by eapply split_lines. Qed.

Section bounded.
Context (limits : MarkdownStreamLimits).
Hypothesis limits_ok : 2 <= maxSegmentChars limits.

(** Every cut of a text with short fence openers makes progress. *)
Lemma nextSegment_shrinks source complete split :
  source <> [] -> fence_bounded limits source ->
  nextSegment source complete limits = Some split ->
  length (split_remainder split) < length source.
Proof.
  intros Hne Hb Hn. pose proof (nextSegment_spec source complete limits) as Hs.
  rewrite Hn in Hs. assert (0 < length source) by (destruct source; simpl; [done|lia]).
  inversion Hs as [|Hlt|safe blank H0 H1 _ _ _ Heq|fence Hle Hf Heq]; subst split.
  - simpl. unfold slice_from. rewrite length_drop. lia.
  - simpl. unfold slice_from. rewrite length_drop. lia.
  - pose proof (safeStringBoundary_bounds source _ Hle) as Hsb.
    unfold cutAt. destruct fence as [f|]; simpl; unfold slice_from.
    + rewrite length_app, length_cons, length_drop.
      destruct (Hf f eq_refl) as (line & rest & Hl & Hm & Ho).
      specialize (Hb _ _ _ Hl Hm). rewrite <- Ho in Hb. lia.
    + rewrite length_drop. lia.
Qed.

Lemma drain_total fuel pending complete segs :
  fence_bounded limits pending -> length pending < fuel ->
  exists p, drain fuel pending complete limits segs = Some p
            /\ length (remainder p) < maxSegmentChars limits
            /\ (complete = true -> remainder p = []).
Proof.
  revert pending segs. induction fuel as [|fuel IH]; intros pending segs Hb Hf; [lia|].
  cbn [drain]. case_bool_decide as Hp.
  { eexists. split; [done|]. rewrite Hp. simpl. split; [lia|done]. }
  destruct (nextSegment pending complete limits) as [split|] eqn:Hn.
  - pose proof (nextSegment_shrinks _ _ _ Hp Hb Hn) as Hlt.
    rewrite bool_decide_false by (intros Heq; rewrite Heq in Hlt; lia).
    apply IH; [|lia]. eapply fence_bounded_split; [by eapply nextSegment_split|done].
  - pose proof (nextSegment_spec pending complete limits) as Hs. rewrite Hn in Hs.
    inversion Hs as [Hlt Hc| | |]. eexists. split; [done|]. simpl. split; [done|].
    by rewrite Hc.
Qed.

Lemma nextSegment_bounded source complete split :
  fence_bounded limits source -> blank_bounded limits source ->
  nextSegment source complete limits = Some split ->
  length (segment split) <= 2 * maxSegmentChars limits.
Proof.
  intros Hb Hbl Hn. pose proof (nextSegment_spec source complete limits) as Hs.
  rewrite Hn in Hs.
  inversion Hs as [|Hlt|safe blank H0 H1 H2 H3 H4 Heq|fence Hle Hf Heq]; subst split.
  - simpl. unfold slice_to. rewrite length_take. lia.
  - specialize (Hbl _ H3 H4). simpl. unfold slice_to. rewrite length_take. lia.
  - pose proof (safeStringBoundary_bounds source _ Hle) as Hsb.
    unfold cutAt. destruct fence as [f|]; simpl; unfold slice_to.
    + destruct (Hf f eq_refl) as (line & rest & Hl & Hm & Ho).
      specialize (Hb _ _ _ Hl Hm). rewrite length_app in Hb.
      rewrite !length_app, length_take. destruct (endsWith _ _); simpl; lia.
    + rewrite length_take. lia.
Qed.

Lemma drain_bounded fuel pending complete segs p :
  fence_bounded limits pending -> blank_bounded limits pending ->
  Forall (fun s => length s <= 2 * maxSegmentChars limits) segs ->
  drain fuel pending complete limits segs = Some p ->
  Forall (fun s => length s <= 2 * maxSegmentChars limits) (segments p).
Proof.
  revert pending segs. induction fuel as [|fuel IH]; intros pending segs Hb Hbl Hs; [done|].
  cbn [drain]. case_bool_decide as Hp; [by intros [= <-]|].
  destruct (nextSegment pending complete limits) as [split|] eqn:Hn; [|by intros [= <-]].
  pose proof (nextSegment_bounded _ _ _ Hb Hbl Hn) as Hlen.
  assert (Forall (fun s => length s <= 2 * maxSegmentChars limits)
            (match segment split with [] => segs | s => segs ++ [s] end)) as Hs'.
  { destruct (segment split); [done|]. by apply Forall_app_2; [|constructor]. }
  case_bool_decide; [by intros [= <-]|]. apply IH; [| |done].
  - eapply fence_bounded_split; [by eapply nextSegment_split|done].
  - eapply blank_bounded_split; [by eapply nextSegment_split|done].
Qed.

End bounded.

(** C39. When no line, nor a stretch of one that a cut could leave as a line, opens a
    fence longer than the segment limit leaves room for, the segmenter has a result,
    whatever the chunks and whatever the rounds allowed beyond one per unit of text:
    the emitted segments followed by the remainder are the accumulated text, character
    for character, except that a fenced block that had to be cut is closed at the cut
    and reopened by its own opening line; a text without such openers comes out
    unchanged. *)
Theorem projectMarkdownStream_preserves limits rem chunk complete fuel :
  2 <= maxSegmentChars limits -> fence_bounded limits (rem ++ chunk) ->
  length (rem ++ chunk) < fuel ->
  exists p, projectMarkdownStream fuel rem chunk complete limits = Some p
    /\ preserves (rem ++ chunk) (segments p) (remainder p)
    /\ ((forall line, line_in (rem ++ chunk) line -> matchFence line = None) ->
        mjoin (segments p) ++ remainder p = rem ++ chunk).
Proof.
  intros Hl Hb Hfuel.
  destruct (drain_total limits Hl fuel (rem ++ chunk) complete [] Hb Hfuel) as (p & Hp & _).
  exists p. split; [exact Hp|].
  destruct (drain_preserves _ _ _ _ _ _ Hp) as (tail & -> & Hpre). simpl.
  split; [done|]. by apply preserves_join.
Qed.

(** C40. The segmenter terminates within one iteration per unit of text as long
    as no line opens a fence longer than the segment limit leaves room for;
    the remainder then stays below the segment limit, it is empty once the
    text is complete, and every parser input is at most twice the limit. *)
Theorem projectMarkdownStream_total limits rem chunk complete :
  2 <= maxSegmentChars limits -> fence_bounded limits (rem ++ chunk) ->
  exists p, projectMarkdownStream (S (length (rem ++ chunk))) rem chunk complete limits = Some p
    /\ length (remainder p) < maxSegmentChars limits
    /\ (complete = true -> remainder p = [])
    /\ (blank_bounded limits (rem ++ chunk) ->
        Forall (fun s => length s <= 2 * maxSegmentChars limits) (segments p)).
Proof.
  intros Hl Hb. unfold projectMarkdownStream.
  destruct (drain_total limits Hl (S (length (rem ++ chunk))) (rem ++ chunk) complete [] Hb)
    as (p & Hp & Hr & Hc); [lia|].
  exists p. split_and!; [done|done|done|]. intros Hbl. by eapply drain_bounded.
Qed.

(** ** Divergence on an over-long fence opener *)

Section diverges.
Context (limits : MarkdownStreamLimits) (info : jstr).
Hypothesis limits_ok : 0 < maxSegmentChars limits.
Hypothesis info_line : existsb isLineTerminator info = false.
Hypothesis info_mark : head info <> Some 96%N.

Let line : jstr := js "```" ++ info.
Hypothesis line_long : maxSegmentChars limits <= length line.

Lemma ticks_eq : js "```" = [96; 96; 96]%N.
Proof. vm_compute. reflexivity. Qed.

Lemma long_line_newline_free : Forall (fun c => bool_decide (c = newline) = false) line.
Proof.
  apply Forall_app. rewrite ticks_eq. split; [by repeat constructor|].
  apply Forall_forall. intros c Hc. apply bool_decide_eq_false. intros ->.
  assert (existsb isLineTerminator info = true) as H; [|by rewrite info_line in H].
  apply existsb_elem. by exists newline.
Qed.

Lemma long_line_fence : matchFence line = Some (js "```", info).
Proof.
  unfold matchFence, line. rewrite ticks_eq.
  destruct (takeWhile_head_false isSpace ([96; 96; 96]%N ++ info)) as [-> ->];
    [by intros ? [= <-]|].
  destruct (takeWhile_head_false (fun d => bool_decide (d = 96%N)) info) as [Ht Hd].
  { intros c Hc. apply bool_decide_eq_false. intros ->. done. }
  cbn [app length]. change (fenceMarks 96) with true. cbv iota.
  change (96%N :: 96%N :: 96%N :: info) with ([96; 96; 96]%N ++ info).
  rewrite takeWhile_app_all, dropWhile_app_all by (by repeat constructor).
  by rewrite Ht, Hd, info_line, app_nil_r.
Qed.

Lemma nextSegment_long suffix complete :
  nextSegment (line ++ nl ++ suffix) complete limits =
  Some (splitFence (line ++ nl ++ suffix)
          (safeStringBoundary (line ++ nl ++ suffix) (maxSegmentChars limits))
          {| marker := js "```"; opener := line |}).
Proof.
  unfold nextSegment. cbn [scanLines].
  replace (0 <? length (line ++ nl ++ suffix)) with true
    by (symmetry; apply Nat.ltb_lt; rewrite length_app; unfold line; simpl; lia).
  assert (indexOfNewline (line ++ nl ++ suffix) 0 = Some (length line)) as ->.
  { unfold indexOfNewline, slice_from. rewrite drop_0.
    rewrite (findIndex_app_stop _ line newline suffix); [done| |by apply bool_decide_true].
    apply long_line_newline_free. }
  assert (slice_from 0 (slice_to (length line) (line ++ nl ++ suffix)) = line) as ->
    by (unfold slice_from, slice_to; by rewrite drop_0, take_app_length).
  assert (updateFence None line = Some {| marker := js "```"; opener := line |}) as ->.
  { unfold updateFence. by rewrite long_line_fence. }
  rewrite (bool_decide_false (Some _ = None)) by done. cbn [andb].
  replace (maxSegmentChars limits <=? length line + 1) with true
    by (symmetry; apply Nat.leb_le; lia).
  done.
Qed.

Lemma drain_long fuel suffix complete segs :
  drain fuel (line ++ nl ++ suffix) complete limits segs = None.
Proof.
  revert suffix segs. induction fuel as [|fuel IH]; intros suffix segs; [done|].
  cbn [drain]. rewrite bool_decide_false by done. rewrite nextSegment_long.
  set (b := safeStringBoundary _ _). cbn [split_remainder splitFence opener].
  assert (b <= length line) as Hb.
  { assert (maxSegmentChars limits <= length (line ++ nl ++ suffix)) as Hle
      by (rewrite (length_app line); lia).
    pose proof (safeStringBoundary_bounds _ _ Hle). unfold b. lia. }
  rewrite bool_decide_false; [apply IH|].
  assert (forall t, length (line ++ nl ++ t) = length line + S (length t)) as Hlen
    by (intros; by rewrite (length_app line)).
  intros H. apply (f_equal length) in H. unfold slice_from in H.
  rewrite (Hlen suffix), Hlen, length_drop, Hlen in H. lia.
Qed.

End diverges.

(** A text whose first line opens a fence and is at least as long as the
    segment limit is never segmented: every cut repeats the whole opening line
    in the remainder, so the pending text does not shrink and the loop runs
    for ever, whatever the number of iterations allowed. *)
Theorem projectMarkdownStream_diverges limits info suffix complete fuel :
  0 < maxSegmentChars limits -> existsb isLineTerminator info = false ->
  head info <> Some 96%N ->
  maxSegmentChars limits <= length (js "```" ++ info) ->
  projectMarkdownStream fuel [] ((js "```" ++ info) ++ nl ++ suffix) complete limits = None.
Proof. intros. unfold projectMarkdownStream. by apply drain_long. Qed.

(** ** Witnesses *)

Definition small_limits : MarkdownStreamLimits :=
  {| targetSegmentChars := 6; maxSegmentChars := 12 |}.

(** A fenced block that is cut: closed at the cut, reopened in the remainder. *)
Definition fenced_text : jstr := js "~~~" ++ nl ++ js "abcd" ++ nl ++ js "efghij".

Lemma short_lines line : line_in fenced_text line -> length line <= 6.
Proof.
  assert (Hlen : forall s, line_in s line -> length line <= length s).
  { intros s [(pre & post & ->) _]. rewrite !length_app. lia. }
  intros [H|[H|H]%line_in_app]%line_in_app; apply Hlen in H;
    (etrans; [exact H|vm_compute; lia]).
Qed.

Lemma projectMarkdownStream_preserves_witness :
  preserves fenced_text [js "~~~" ++ nl ++ js "abcd" ++ nl ++ js "efg" ++ nl ++ js "~~~" ++ nl]
    (js "~~~" ++ nl ++ js "hij").
Proof.
  destruct (projectMarkdownStream_preserves small_limits [] fenced_text false 16)
    as (p & Hp & Hs & _).
  - simpl; lia.
  - intros line m rest Hl Hm.
    apply matchFence_occurs in Hm as (pre & post & ->).
    apply short_lines in Hl. rewrite !length_app in Hl. rewrite length_app. simpl. lia.
  - vm_compute; lia.
  - vm_compute in Hp. injection Hp as <-. exact Hs.
Defined.

Lemma projectMarkdownStream_total_witness :
  exists p, projectMarkdownStream 9 (js "ab") (js "cdefgh") true small_limits = Some p
            /\ remainder p = [].
Proof.
  destruct (projectMarkdownStream_total small_limits (js "ab") (js "cdefgh") true)
    as (p & Hp & _ & Hc & _).
  - simpl; lia.
  - intros line m rest [(pre & post & Heq) _] Hm.
    apply matchFence_occurs in Hm as (pre' & post' & ->).
    apply (f_equal length) in Heq. rewrite !length_app in *. simpl in *. lia.
  - exists p. split; [exact Hp|by apply Hc].
Defined.

Lemma projectMarkdownStream_diverges_witness :
  projectMarkdownStream 1000 [] ((js "```" ++ js "0123456789") ++ nl ++ js "x") false small_limits
  = None.
Proof.
  apply (projectMarkdownStream_diverges small_limits (js "0123456789"));
    [simpl; lia|vm_compute; reflexivity|discriminate|vm_compute; lia].
Defined.
