(* ===== verification/Microphone.v ===== *)
(** * Microphone arbitration

    Models apps/android/src/data/v1MicrophoneLease.ts: one microphone shared by
    the voice assistant and ordinary dictation. Every operation of the
    registry is a handler on an explicit state; the two awaited handoff calls
    ([pauseForDictation], [resumeAfterDictation]) are pending continuations
    that settle, with either outcome, as separate events of an interleaving. *)
From S2P Require Import Prelude JsMap.

Local Open Scope nat_scope.

(** ** Data *)

Inductive V1MicrophoneLeaseOwner :=
| OwnDictation (scope : jstr)
| OwnGlobalSupervisor (activationId : jstr).

(** Records are compared by identity ([===]); [a_id] and [d_id] stand for it.
    [a_handoff] tells whether the record carries a handoff capability. *)
Record AssistantLeaseRecord :=
  { a_id : nat; a_handoff : bool; a_activation : jstr; a_token : jstr }.

Record DictationLeaseRecord := { d_id : nat; d_scope : jstr; d_token : jstr }.

Inductive ArbitrationRecord :=
| Idle
| AssistantOwned (assistant : AssistantLeaseRecord)
| HandoffToDictation (assistant : AssistantLeaseRecord) (dictation : DictationLeaseRecord)
| DictationOwned (assistant : option AssistantLeaseRecord) (dictation : DictationLeaseRecord)
| HandoffBack (assistant : AssistantLeaseRecord) (dictation : DictationLeaseRecord).

(** A lease is the closure over its record: what [release] acts on. *)
Inductive V1MicrophoneLease :=
| AssistantLease (assistant : AssistantLeaseRecord)
| DictationLease (dictation : DictationLeaseRecord).

(** An asynchronous continuation waiting for the runtime: the code after
    [await handoff.pauseForDictation()] or [await handoff.resumeAfterDictation()]. *)
Inductive Awaiting :=
| PauseOf (assistant : AssistantLeaseRecord) (dictation : DictationLeaseRecord)
| ResumeOf (assistant : AssistantLeaseRecord) (dictation : DictationLeaseRecord).

(** What a call returns, or its promise settles with. *)
Inductive Reply :=
| Acquired (lease : V1MicrophoneLease)
| Busy (owner : V1MicrophoneLeaseOwner)
| Released (result : bool)
| Promised (result : Awaiting)
| Rejected.

(** [released] lists the assistants whose mutable flag is set; [calls] counts
    the records created so far; [issued] are the leases clients may hold. *)
Record Registry :=
  { current : ArbitrationRecord;
    released : list nat;
    calls : nat;
    awaiting : list Awaiting;
    issued : list V1MicrophoneLease }.

#[export] Instance assistant_eq_dec : EqDecision AssistantLeaseRecord.
Proof. solve_decision. Defined.
#[export] Instance dictation_eq_dec : EqDecision DictationLeaseRecord.
Proof. solve_decision. Defined.
#[export] Instance lease_eq_dec : EqDecision V1MicrophoneLease.
Proof. solve_decision. Defined.
#[export] Instance awaiting_eq_dec : EqDecision Awaiting.
Proof. solve_decision. Defined.

(** What [state()] shows. *)
Inductive V1MicrophoneArbitrationState :=
| SIdle
| SAssistantOwned (assistant : V1MicrophoneLeaseOwner)
| SHandoffToDictation (assistant dictation : V1MicrophoneLeaseOwner)
| SDictationOwned (assistant : option V1MicrophoneLeaseOwner) (dictation : V1MicrophoneLeaseOwner)
| SHandoffBack (assistant dictation : V1MicrophoneLeaseOwner).

(** ** Operations *)

Section registry.
(** The [n]-th identifier the injected [randomUUID] returns. *)
Context (randomUUID : nat -> jstr).

Definition ownerOfAssistant (a : AssistantLeaseRecord) := OwnGlobalSupervisor (a_activation a).
Definition ownerOfDictation (d : DictationLeaseRecord) := OwnDictation (d_scope d).

Definition leaseOwner (l : V1MicrophoneLease) : V1MicrophoneLeaseOwner :=
  match l with
  | AssistantLease a => ownerOfAssistant a
  | DictationLease d => ownerOfDictation d
  end.

Definition isReleased (st : Registry) (a : AssistantLeaseRecord) : bool :=
  bool_decide (a_id a ∈ released st).

Definition sameAssistant (a b : AssistantLeaseRecord) : bool := bool_decide (a_id a = a_id b).
Definition sameDictation (d e : DictationLeaseRecord) : bool := bool_decide (d_id d = d_id e).

Definition initial : Registry :=
  {| current := Idle; released := []; calls := 0; awaiting := []; issued := [] |}.

Definition setCurrent (c : ArbitrationRecord) (st : Registry) : Registry :=
  {| current := c; released := released st; calls := calls st;
     awaiting := awaiting st; issued := issued st |}.

Definition await (w : Awaiting) (st : Registry) : Registry :=
  {| current := current st; released := released st; calls := calls st;
     awaiting := awaiting st ++ [w]; issued := issued st |}.

Definition issue (l : V1MicrophoneLease) (st : Registry) : Registry :=
  {| current := current st; released := released st; calls := calls st;
     awaiting := awaiting st; issued := issued st ++ [l] |}.

Definition newRecord (st : Registry) : Registry :=
  {| current := current st; released := released st; calls := S (calls st);
     awaiting := awaiting st; issued := issued st |}.

Definition setReleased (a : AssistantLeaseRecord) (st : Registry) : Registry :=
  {| current := current st; released := a_id a :: released st; calls := calls st;
     awaiting := awaiting st; issued := issued st |}.

Definition releaseAssistant (a : AssistantLeaseRecord) (st : Registry) : Registry * Reply :=
  if isReleased st a then (st, Released false)
  else
    let st := setReleased a st in
    match current st with
    | AssistantOwned b =>
        if sameAssistant b a then (setCurrent Idle st, Released true) else (st, Released false)
    | HandoffToDictation b _ => (st, Released (sameAssistant b a))
    | DictationOwned (Some b) d =>
        if sameAssistant b a then (setCurrent (DictationOwned None d) st, Released true)
        else (st, Released false)
    | DictationOwned None _ => (st, Released false)
    | HandoffBack b _ => (st, Released (sameAssistant b a))
    | Idle => (st, Released false)
    end.

Definition releaseDictation (d : DictationLeaseRecord) (st : Registry) : Registry * Reply :=
  match current st with
  | DictationOwned assistant e =>
      if sameDictation e d then
        match assistant with
        | Some a =>
            if isReleased st a || negb (a_handoff a)
            then (setCurrent Idle st, Released true)
            else (setCurrent (HandoffBack a d) (await (ResumeOf a d) st),
                  Promised (ResumeOf a d))
        | None => (setCurrent Idle st, Released true)
        end
      else (st, Released false)
  | _ => (st, Released false)
  end.

Definition acquireIdleDictation (scope : jstr) (st : Registry) : Registry * Reply :=
  let d := {| d_id := calls st; d_scope := scope; d_token := randomUUID (calls st) |} in
  (issue (DictationLease d) (setCurrent (DictationOwned None d) (newRecord st)),
   Acquired (DictationLease d)).

Definition beginAssistantHandoff (a : AssistantLeaseRecord) (scope : jstr) (st : Registry)
    : Registry * Reply :=
  if a_handoff a then
    let d := {| d_id := calls st; d_scope := scope; d_token := randomUUID (calls st) |} in
    (setCurrent (HandoffToDictation a d) (await (PauseOf a d) (newRecord st)),
     Promised (PauseOf a d))
  else (st, Busy (ownerOfAssistant a)).

Definition acquireDictation (scope : jstr) (st : Registry) : Registry * Reply :=
  match current st with
  | Idle => acquireIdleDictation scope st
  | HandoffToDictation a d =>
      if bool_decide (d_scope d = scope) then (st, Promised (PauseOf a d))
      else (st, Busy (ownerOfDictation d))
  | DictationOwned _ d => (st, Busy (ownerOfDictation d))
  | HandoffBack _ d => (st, Busy (ownerOfDictation d))
  | AssistantOwned a => beginAssistantHandoff a scope st
  end.

Definition acquireGlobalSupervisor (activationId : jstr) (handoff : bool) (st : Registry)
    : Registry * Reply :=
  match current st with
  | Idle =>
      let a := {| a_id := calls st; a_handoff := handoff; a_activation := activationId;
                  a_token := randomUUID (calls st) |} in
      (issue (AssistantLease a) (setCurrent (AssistantOwned a) (newRecord st)),
       Acquired (AssistantLease a))
  | AssistantOwned a | HandoffToDictation a _ => (st, Busy (ownerOfAssistant a))
  | DictationOwned _ d | HandoffBack _ d => (st, Busy (ownerOfDictation d))
  end.

Definition currentOwner (st : Registry) : option V1MicrophoneLeaseOwner :=
  match current st with
  | AssistantOwned a | HandoffToDictation a _ => Some (ownerOfAssistant a)
  | DictationOwned _ d => Some (ownerOfDictation d)
  | Idle | HandoffBack _ _ => None
  end.

Definition state (st : Registry) : V1MicrophoneArbitrationState :=
  match current st with
  | AssistantOwned a => SAssistantOwned (ownerOfAssistant a)
  | HandoffToDictation a d => SHandoffToDictation (ownerOfAssistant a) (ownerOfDictation d)
  | DictationOwned a d => SDictationOwned (ownerOfAssistant <$> a) (ownerOfDictation d)
  | HandoffBack a d => SHandoffBack (ownerOfAssistant a) (ownerOfDictation d)
  | Idle => SIdle
  end.

Definition replaceDictation (lease : V1MicrophoneLease) (scope : jstr) (st : Registry)
    : Registry * Reply :=
  match current st with
  | DictationOwned assistant d =>
      match lease with
      | AssistantLease _ => (st, Busy (ownerOfDictation d))
      | DictationLease e =>
          if bool_decide (d_token d <> d_token e) then (st, Busy (ownerOfDictation d))
          else if bool_decide (d_scope d <> d_scope e) then (st, Busy (ownerOfDictation d))
          else
            let d' := {| d_id := calls st; d_scope := scope; d_token := randomUUID (calls st) |} in
            (issue (DictationLease d') (setCurrent (DictationOwned assistant d') (newRecord st)),
             Acquired (DictationLease d'))
      end
  | AssistantOwned a | HandoffToDictation a _ => (st, Busy (ownerOfAssistant a))
  | HandoffBack _ d => (st, Busy (ownerOfDictation d))
  | Idle => (st, Busy (leaseOwner lease))
  end.

(** The continuation of [beginAssistantHandoff] after the awaited pause. *)
Definition pauseSettled (a : AssistantLeaseRecord) (d : DictationLeaseRecord) (ok : bool)
    (st : Registry) : Registry * Reply :=
  match current st with
  | HandoffToDictation b _ =>
      if sameAssistant b a then
        if ok then
          (issue (DictationLease d)
             (setCurrent (DictationOwned (if isReleased st a then None else Some a) d) st),
           Acquired (DictationLease d))
        else (setCurrent (if isReleased st a then Idle else AssistantOwned a) st, Rejected)
      else (st, if ok then Busy (ownerOfDictation d) else Rejected)
  | _ => (st, if ok then Busy (ownerOfDictation d) else Rejected)
  end.

(** The [finally] of [releaseDictation] after the awaited resume. *)
Definition resumeSettled (a : AssistantLeaseRecord) (ok : bool) (st : Registry)
    : Registry * Reply :=
  let st :=
    match current st with
    | HandoffBack b _ =>
        if sameAssistant b a
        then setCurrent (if isReleased st a then Idle else AssistantOwned a) st else st
    | _ => st
    end in
  (st, if ok then Released true else Rejected).

Definition release (l : V1MicrophoneLease) (st : Registry) : Registry * Reply :=
  match l with
  | AssistantLease a => releaseAssistant a st
  | DictationLease d => releaseDictation d st
  end.

(** ** Interleavings *)

Inductive event :=
| EAcquireDictation (scope : jstr)
| EAcquireGlobalSupervisor (activationId : jstr) (handoff : bool)
| ERelease (lease : V1MicrophoneLease)
| EReplace (lease : V1MicrophoneLease) (scope : jstr)
| EPauseSettled (a : AssistantLeaseRecord) (d : DictationLeaseRecord) (ok : bool)
| EResumeSettled (a : AssistantLeaseRecord) (d : DictationLeaseRecord) (ok : bool).

(** Taking a settled continuation off the pending ones. *)
Fixpoint remove_one (w : Awaiting) (ws : list Awaiting) : list Awaiting :=
  match ws with
  | [] => []
  | w' :: ws => if bool_decide (w' = w) then ws else w' :: remove_one w ws
  end.

Definition settle (w : Awaiting) (st : Registry) : Registry :=
  {| current := current st; released := released st; calls := calls st;
     awaiting := remove_one w (awaiting st); issued := issued st |}.

(** A client can only release or replace a lease it was given, and only a
    pending continuation can settle; [None] is an event that cannot happen. *)
Definition step (e : event) (st : Registry) : option (Registry * Reply) :=
  match e with
  | EAcquireDictation scope => Some (acquireDictation scope st)
  | EAcquireGlobalSupervisor activationId handoff =>
      Some (acquireGlobalSupervisor activationId handoff st)
  | ERelease l => if bool_decide (l ∈ issued st) then Some (release l st) else None
  | EReplace l scope =>
      if bool_decide (l ∈ issued st) then Some (replaceDictation l scope st) else None
  | EPauseSettled a d ok =>
      if bool_decide (PauseOf a d ∈ awaiting st)
      then Some (pauseSettled a d ok (settle (PauseOf a d) st)) else None
  | EResumeSettled a d ok =>
      if bool_decide (ResumeOf a d ∈ awaiting st)
      then Some (resumeSettled a ok (settle (ResumeOf a d) st)) else None
  end.

(** Running a list of events from a state; the replies in order. *)
Inductive runs : Registry -> list event -> list Reply -> Registry -> Prop :=
| runs_nil st : runs st [] [] st
| runs_cons st e st1 r es rs st2 :
    step e st = Some (st1, r) -> runs st1 es rs st2 ->
    runs st (e :: es) (r :: rs) st2.

Definition reachable (st : Registry) : Prop := exists es rs, runs initial es rs st.

(** ** Invariant *)

Definition lease_id (l : V1MicrophoneLease) : nat :=
  match l with AssistantLease a => a_id a | DictationLease d => d_id d end.

(** The activation a phase belongs to. *)
Definition assistantOf (c : ArbitrationRecord) : option AssistantLeaseRecord :=
  match c with
  | AssistantOwned a | HandoffToDictation a _ | HandoffBack a _ => Some a
  | DictationOwned a _ => a
  | Idle => None
  end.

(** The continuations a phase waits for. *)
Definition expected (c : ArbitrationRecord) : list Awaiting :=
  match c with
  | HandoffToDictation a d => [PauseOf a d]
  | HandoffBack a d => [ResumeOf a d]
  | _ => []
  end.

(** An owning or suspended assistant has not been released, and one that takes
    part in a handoff can be resumed. *)
Definition live (st : Registry) : Prop :=
  match current st with
  | AssistantOwned a => a_id a ∉ released st
  | DictationOwned (Some a) _ => (a_id a ∉ released st) /\ a_handoff a = true
  | HandoffToDictation a _ | HandoffBack a _ => a_handoff a = true
  | _ => True
  end.

(** The phase's records are the issued ones; only the dictation of a pending
    pause has not been handed out yet. *)
Definition records (st : Registry) : Prop :=
  (forall a, assistantOf (current st) = Some a -> AssistantLease a ∈ issued st) /\
  match current st with
  | DictationOwned _ d | HandoffBack _ d => DictationLease d ∈ issued st
  | HandoffToDictation _ d => (d_id d ∉ (lease_id <$> issued st)) /\ d_id d < calls st
  | _ => True
  end.

Record inv (st : Registry) : Prop :=
  { inv_awaiting : awaiting st = expected (current st);
    inv_live : live st;
    inv_records : records st;
    inv_fresh : forall l, l ∈ issued st -> lease_id l < calls st;
    inv_released : forall n, n ∈ released st -> n < calls st;
    inv_nodup : NoDup (lease_id <$> issued st) }.

Lemma inv_initial : inv initial.
Proof. constructor; try done; set_solver by apply NoDup_nil_2. Qed.

(** Issued leases are determined by their record's identity. *)
Lemma issued_inj st l l' :
  inv st -> l ∈ issued st -> l' ∈ issued st -> lease_id l = lease_id l' -> l = l'.
Proof.
  intros H Hl Hl' Heq. apply list_elem_of_lookup in Hl as [i Hi], Hl' as [j Hj].
  assert (i = j) as <-; [|congruence].
  apply (NoDup_lookup (lease_id <$> issued st) i j (lease_id l)).
  - apply (inv_nodup _ H).
  - by rewrite list_lookup_fmap, Hi.
  - by rewrite list_lookup_fmap, Hj, Heq.
Qed.

Lemma inv_id_lt st a : inv st -> assistantOf (current st) = Some a -> a_id a < calls st.
Proof. intros H Ha. apply (inv_fresh _ H (AssistantLease a)), (inv_records _ H), Ha. Qed.

(** Handing out a lease on a new record keeps the identities distinct. *)
Lemma issued_fresh st l l' :
  inv st -> lease_id l = calls st -> l' ∈ (issued st ++ [l]) -> lease_id l' < S (calls st).
Proof.
  intros H Hl [Hin| ->%list_elem_of_singleton]%elem_of_app; [|lia].
  apply (inv_fresh _ H) in Hin. lia.
Qed.

Lemma issued_nodup st l :
  NoDup (lease_id <$> issued st) -> lease_id l ∉ (lease_id <$> issued st) ->
  NoDup (lease_id <$> (issued st ++ [l])).
Proof.
  intros Hnd Hl. rewrite fmap_app. apply NoDup_app.
  split_and!; [done|set_solver|apply NoDup_singleton].
Qed.

Lemma fresh_id st : inv st -> calls st ∉ (lease_id <$> issued st).
Proof.
  intros H (l & Hl & Hin)%list_elem_of_fmap. apply (inv_fresh _ H) in Hin. lia.
Qed.

(** Every operation keeps the invariant: the parts about leases follow from the
    lemmas above, the others from the phase. *)
Ltac keep_inv H E :=
  constructor; unfold live, records; simpl; rewrite ?(inv_awaiting _ H), ?E; simpl;
  [try done|try done|try (split; [try done|try done])
  |try (intros l Hl; first [by eapply (issued_fresh _ _ _ H); [|exact Hl] | apply (inv_fresh _ H) in Hl; lia])
  |try (intros n Hn; apply (inv_released _ H) in Hn; lia)
  |try first [apply (inv_nodup _ H)
             |apply issued_nodup; [apply (inv_nodup _ H)|by apply fresh_id]]].

Lemma inv_acquireDictation scope st : inv st -> inv (acquireDictation scope st).1.
Proof.
  intros H. pose proof (inv_records _ H) as [Has Hdi]. unfold acquireDictation.
  destruct (current st) as [|a|a d|a d|a d] eqn:E; [| |by case_bool_decide|done|done].
  - keep_inv H E. set_solver.
  - unfold beginAssistantHandoff. destruct (a_handoff a) eqn:Eh; [|done].
    keep_inv H E. split; [by apply fresh_id|lia].
Qed.

Lemma inv_acquireGlobalSupervisor activationId h st :
  inv st -> inv (acquireGlobalSupervisor activationId h st).1.
Proof.
  intros H. unfold acquireGlobalSupervisor. destruct (current st) eqn:E; try done.
  keep_inv H E.
  - intros Hr%(inv_released _ H). lia.
  - intros a [= <-]. set_solver.
Qed.

Lemma inv_replaceDictation l scope st : inv st -> inv (replaceDictation l scope st).1.
Proof.
  intros H. pose proof (inv_records _ H) as [Has Hdi].
  pose proof (inv_live _ H) as Hlive. unfold live in Hlive.
  unfold replaceDictation. destruct (current st) as [|a|a d|a d|a d] eqn:E; try done.
  destruct l as [|e]; [done|]. do 2 (case_bool_decide; [done|]).
  keep_inv H E.
  - intros a' Ha'. set_solver.
  - set_solver.
Qed.

Lemma inv_releaseDictation d st :
  inv st -> DictationLease d ∈ issued st -> inv (releaseDictation d st).1.
Proof.
  intros H Hin. pose proof (inv_records _ H) as [Has Hdi].
  pose proof (inv_live _ H) as Hlive. unfold live in Hlive.
  unfold releaseDictation. destruct (current st) as [|a|a e|[a|] e|a e] eqn:E; try done.
  all: unfold sameDictation; destruct (decide (d_id e = d_id d)) as [Hid|Hid];
    [rewrite (bool_decide_true _ Hid)|by rewrite (bool_decide_false _ Hid)].
  - destruct Hlive as [Hr Hh]. unfold isReleased.
    rewrite bool_decide_false, Hh by done. simpl. by keep_inv H E.
  - by keep_inv H E.
Qed.

Lemma inv_releaseAssistant a st :
  inv st -> AssistantLease a ∈ issued st -> inv (releaseAssistant a st).1.
Proof.
  intros H Hin. pose proof (inv_records _ H) as [Has Hdi].
  pose proof (inv_live _ H) as Hlive. unfold live in Hlive.
  assert (forall b, assistantOf (current st) = Some b -> a_id b = a_id a -> b = a) as Hinj.
  { intros b Hb Hid. enough (AssistantLease b = AssistantLease a) by congruence.
    by apply (issued_inj st); auto. }
  assert (forall n, n ∈ a_id a :: released st -> n < calls st) as Hrel.
  { intros n [->|Hn]%elem_of_cons; [exact (inv_fresh _ H _ Hin)|].
    by apply (inv_released _ H). }
  unfold releaseAssistant. destruct (isReleased st a); [done|].
  destruct (current st) as [|b|b e|[b|] e|b e] eqn:E; simpl; rewrite E; simpl;
    unfold sameAssistant; simpl in Hinj;
    try (destruct (decide (a_id b = a_id a)) as [Hid|Hid];
      [rewrite (bool_decide_true _ Hid)|rewrite (bool_decide_false _ Hid)]);
    keep_inv H E; try done; try set_solver.
Qed.

(** A pending pause or resume is the one its phase waits for. *)
Lemma pending_pause a d st :
  inv st -> PauseOf a d ∈ awaiting st -> current st = HandoffToDictation a d.
Proof. intros H. rewrite (inv_awaiting _ H). destruct (current st); set_solver. Qed.

Lemma pending_resume a d st :
  inv st -> ResumeOf a d ∈ awaiting st -> current st = HandoffBack a d.
Proof. intros H. rewrite (inv_awaiting _ H). destruct (current st); set_solver. Qed.

Lemma settle_awaiting w st :
  inv st -> expected (current st) = [w] -> awaiting (settle w st) = [].
Proof.
  intros H Hw. simpl. rewrite (inv_awaiting _ H), Hw. simpl. by rewrite bool_decide_true.
Qed.

(** The phase a settled continuation installs. *)
Definition afterPause (a : AssistantLeaseRecord) (d : DictationLeaseRecord) (ok : bool)
    (st : Registry) : ArbitrationRecord :=
  if ok then DictationOwned (if isReleased st a then None else Some a) d
  else if isReleased st a then Idle else AssistantOwned a.

Definition afterResume (a : AssistantLeaseRecord) (st : Registry) : ArbitrationRecord :=
  if isReleased st a then Idle else AssistantOwned a.

Lemma pauseSettled_eq a d ok st :
  current st = HandoffToDictation a d ->
  pauseSettled a d ok (settle (PauseOf a d) st) =
    ((if ok then issue (DictationLease d) else id)
       (setCurrent (afterPause a d ok st) (settle (PauseOf a d) st)),
     if ok then Acquired (DictationLease d) else Rejected).
Proof.
  intros E. unfold pauseSettled. simpl. rewrite E. unfold sameAssistant.
  rewrite bool_decide_true by done. by destruct ok.
Qed.

Lemma resumeSettled_eq a d ok st :
  current st = HandoffBack a d ->
  resumeSettled a ok (settle (ResumeOf a d) st) =
    (setCurrent (afterResume a st) (settle (ResumeOf a d) st),
     if ok then Released true else Rejected).
Proof.
  intros E. unfold resumeSettled. simpl. rewrite E. unfold sameAssistant.
  by rewrite bool_decide_true.
Qed.

Lemma inv_pauseSettled a d ok st :
  inv st -> PauseOf a d ∈ awaiting st ->
  inv (pauseSettled a d ok (settle (PauseOf a d) st)).1.
Proof.
  intros H Hin. pose proof (pending_pause _ _ _ H Hin) as E.
  pose proof (settle_awaiting (PauseOf a d) _ H) as Hs. rewrite E in Hs. specialize (Hs eq_refl).
  pose proof (inv_records _ H) as Hrec. pose proof (inv_live _ H) as Hlive.
  unfold live, records in *. rewrite E in *. destruct Hrec as [Has [Hd Hlt]].
  specialize (Has a eq_refl). rewrite pauseSettled_eq by done.
  unfold afterPause, isReleased. destruct ok; simpl; case_bool_decide.
  all: constructor; unfold live, records; simpl in *; rewrite ?Hs; try done.
  all: try apply (inv_nodup _ H).
  all: try apply (inv_fresh _ H).
  all: try apply (inv_released _ H).
  all: try (apply issued_nodup; [apply (inv_nodup _ H)|done]).
  all: try (intros l [Hl| ->%list_elem_of_singleton]%elem_of_app;
            [by apply (inv_fresh _ H)|done]).
  all: split; [intros b [=]; subst; set_solver|set_solver].
Qed.

Lemma inv_resumeSettled a d ok st :
  inv st -> ResumeOf a d ∈ awaiting st ->
  inv (resumeSettled a ok (settle (ResumeOf a d) st)).1.
Proof.
  intros H Hin. pose proof (pending_resume _ _ _ H Hin) as E.
  pose proof (settle_awaiting (ResumeOf a d) _ H) as Hs. rewrite E in Hs. specialize (Hs eq_refl).
  pose proof (inv_records _ H) as Hrec. unfold records in Hrec. rewrite E in Hrec.
  destruct Hrec as [Has Hd]. rewrite (resumeSettled_eq _ d) by done.
  unfold afterResume, isReleased. case_bool_decide.
  all: constructor; unfold live, records; simpl in *; rewrite ?Hs; try done; apply H.
Qed.

Lemma inv_step e st p : inv st -> step e st = Some p -> inv p.1.
Proof.
  intros H. destruct e as [| |[]|[]| |]; cbn [step]; try case_bool_decide;
    intros [= <-].
  all: eauto using inv_acquireDictation, inv_acquireGlobalSupervisor, inv_releaseAssistant,
    inv_releaseDictation, inv_replaceDictation, inv_pauseSettled, inv_resumeSettled.
Qed.

Lemma inv_runs st es rs st' : inv st -> runs st es rs st' -> inv st'.
Proof.
  intros H Hr. induction Hr as [|st e st1 r es rs st2 Hs _ IH]; [done|].
  by apply IH, (inv_step _ _ _ H Hs).
Qed.

Lemma inv_reachable st : reachable st -> inv st.
Proof. intros (es & rs & Hr). by eapply inv_runs, Hr; apply inv_initial. Qed.

(** ** Released assistants *)

(** No operation clears a released flag. *)
Lemma released_step e st p n : step e st = Some p -> n ∈ released st -> n ∈ released p.1.
Proof.
  destruct e as [| |[]|[]| |]; cbn [step]; try case_bool_decide; intros [= <-] Hn.
  all: unfold acquireDictation, acquireIdleDictation, beginAssistantHandoff,
    acquireGlobalSupervisor, release, releaseAssistant, releaseDictation,
    replaceDictation, pauseSettled, resumeSettled.
  all: repeat (case_match; simpl; simplify_eq; try done); set_solver.
Qed.

Lemma released_runs st es rs st' n :
  runs st es rs st' -> n ∈ released st -> n ∈ released st'.
Proof.
  intros Hr. induction Hr as [|st e st1 r es rs st2 Hs _ IH]; [done|].
  intros. apply IH. by apply (released_step _ _ _ _ Hs).
Qed.

(** ** The arbitration contract

    The phases a microphone may go through, given the assistants released so
    far: an assistant gives way only to a dictation and gets the microphone
    back unless it was released in between. *)
Inductive arbitrates (rel : list nat) : ArbitrationRecord -> ArbitrationRecord -> Prop :=
| arb_stay c : arbitrates rel c c
| arb_start a : a_id a ∉ rel -> arbitrates rel Idle (AssistantOwned a)
| arb_end a : a_id a ∈ rel -> arbitrates rel (AssistantOwned a) Idle
| arb_dictate d : arbitrates rel Idle (DictationOwned None d)
| arb_replace a d d' : arbitrates rel (DictationOwned a d) (DictationOwned a d')
| arb_free d : arbitrates rel (DictationOwned None d) Idle
| arb_pause a d :
    a_handoff a = true -> arbitrates rel (AssistantOwned a) (HandoffToDictation a d)
| arb_paused a d :
    a_id a ∉ rel -> arbitrates rel (HandoffToDictation a d) (DictationOwned (Some a) d)
| arb_paused_gone a d :
    a_id a ∈ rel -> arbitrates rel (HandoffToDictation a d) (DictationOwned None d)
| arb_unpaused a d : a_id a ∉ rel -> arbitrates rel (HandoffToDictation a d) (AssistantOwned a)
| arb_unpaused_gone a d : a_id a ∈ rel -> arbitrates rel (HandoffToDictation a d) Idle
| arb_suspended_gone a d :
    a_id a ∈ rel -> arbitrates rel (DictationOwned (Some a) d) (DictationOwned None d)
| arb_resume a d :
    a_id a ∉ rel -> arbitrates rel (DictationOwned (Some a) d) (HandoffBack a d)
| arb_resumed a d : a_id a ∉ rel -> arbitrates rel (HandoffBack a d) (AssistantOwned a)
| arb_resumed_gone a d : a_id a ∈ rel -> arbitrates rel (HandoffBack a d) Idle.

Hint Constructors arbitrates : codewide.

Lemma arbitrates_release l st :
  inv st -> l ∈ issued st ->
  arbitrates (released (release l st).1) (current st) (current (release l st).1).
Proof.
  intros H Hin. pose proof (inv_records _ H) as [Has Hdi].
  pose proof (inv_live _ H) as Hl. unfold live in Hl.
  destruct l as [a|d]; cbn [release].
  - assert (forall b, AssistantLease b ∈ issued st -> a_id b = a_id a -> b = a) as Hinj.
    { intros b Hb Hid. enough (AssistantLease b = AssistantLease a) by congruence.
      by apply (issued_inj st). }
    unfold releaseAssistant. destruct (isReleased st a); [auto with codewide|]. simpl.
    destruct (current st) as [|b|b e|[b|] e|b e] eqn:E; simpl; rewrite ?E;
      auto with codewide; unfold sameAssistant; case_bool_decide; simpl; rewrite ?E;
      auto with codewide.
    all: rewrite (Hinj b) by (simpl in Has; auto); constructor; by left.
  - assert (forall b, DictationLease b ∈ issued st -> d_id b = d_id d -> b = d) as Hinj.
    { intros b Hb Hid. enough (DictationLease b = DictationLease d) by congruence.
      by apply (issued_inj st). }
    unfold releaseDictation.
    destruct (current st) as [|b|b e|[b|] e|b e] eqn:E; simpl; rewrite ?E;
      auto with codewide; unfold sameDictation; case_bool_decide; simpl; rewrite ?E;
      auto with codewide.
    destruct Hl as [Hr Hh]. unfold isReleased. rewrite bool_decide_false, Hh by done.
    simpl. rewrite (Hinj e) by done. auto with codewide.
Qed.

Lemma arbitrates_step e st p :
  inv st -> step e st = Some p -> arbitrates (released p.1) (current st) (current p.1).
Proof.
  intros H Hs. destruct e as [sc|act h|l|l sc|a d ok|a d ok]; cbn [step] in Hs;
    try (case_bool_decide as Hin; [|done]); injection Hs as <-.
  - unfold acquireDictation. destruct (current st) eqn:E; try (simpl; rewrite E; constructor).
    + simpl. constructor.
    + unfold beginAssistantHandoff. case_match; simpl; rewrite ?E; auto with codewide.
    + case_bool_decide; simpl; rewrite E; constructor.
  - unfold acquireGlobalSupervisor. destruct (current st) eqn:E; try (simpl; rewrite E; constructor).
    simpl. constructor. simpl. intros Hn%(inv_released _ H). lia.
  - by apply arbitrates_release.
  - unfold replaceDictation.
    destruct (current st) eqn:E; destruct l; simpl; rewrite ?E; auto with codewide.
    do 2 (case_bool_decide; [simpl; rewrite E; constructor|]). simpl. constructor.
  - apply pending_pause in Hin; [|done]. rewrite pauseSettled_eq, Hin by done.
    unfold afterPause, isReleased. destruct ok; simpl; case_bool_decide; auto with codewide.
  - apply pending_resume in Hin; [|done]. rewrite (resumeSettled_eq _ d), Hin by done.
    unfold afterResume, isReleased. simpl. case_bool_decide; auto with codewide.
Qed.

(** ** Dead leases *)

(** A dictation record whose identity no phase carries and that cannot be
    created again. *)
Definition dictationOf (c : ArbitrationRecord) : option DictationLeaseRecord :=
  match c with
  | DictationOwned _ d | HandoffToDictation _ d => Some d
  | _ => None
  end.

Definition dead (l : V1MicrophoneLease) (st : Registry) : Prop :=
  match l with
  | AssistantLease a => a_id a ∈ released st
  | DictationLease d =>
      d_id d < calls st /\ (forall e, dictationOf (current st) = Some e -> d_id e <> d_id d)
  end.

Lemma dead_release l st : dead l st -> (release l st).2 = Released false.
Proof.
  destruct l as [a|d]; simpl.
  - intros Hr. unfold releaseAssistant, isReleased. by rewrite bool_decide_true.
  - intros [_ Hd]. unfold releaseDictation. destruct (current st); try done.
    unfold sameDictation. rewrite bool_decide_false; [done|]. by apply Hd.
Qed.

Lemma calls_step e st p : step e st = Some p -> calls st <= calls p.1.
Proof.
  destruct e as [| |[]|[]| |]; cbn [step]; try case_bool_decide; intros [= <-].
  all: unfold acquireDictation, acquireIdleDictation, beginAssistantHandoff,
    acquireGlobalSupervisor, release, releaseAssistant, releaseDictation,
    replaceDictation, pauseSettled, resumeSettled.
  all: repeat (case_match; simpl; simplify_eq; try lia).
Qed.

(** A dictation that appears in a phase is that phase's earlier one or new. *)
Lemma dictation_step e st p d :
  inv st -> step e st = Some p -> dictationOf (current p.1) = Some d ->
  dictationOf (current st) = Some d \/ d_id d = calls st.
Proof.
  intros H Hs. destruct e as [sc|act h|l|l sc|a d' ok|a d' ok]; cbn [step] in Hs;
    try (case_bool_decide as Hin; [|done]); injection Hs as <-.
  - unfold acquireDictation, beginAssistantHandoff.
    destruct (current st) eqn:E; repeat case_match; simpl; rewrite ?E; simpl;
      intros ?; simplify_eq/=; auto.
  - unfold acquireGlobalSupervisor. destruct (current st) eqn:E; simpl; rewrite ?E; auto.
  - destruct l; cbn [release]; unfold releaseAssistant, releaseDictation;
      repeat (case_match; simpl); intros Hd; simpl in *; try tauto; simplify_eq;
      repeat match goal with E : current st = _ |- _ => rewrite E in * end; auto.
  - unfold replaceDictation.
    destruct (current st) eqn:E; destruct l; repeat case_match; simpl; rewrite ?E; simpl;
      intros ?; simplify_eq/=; auto.
  - apply pending_pause in Hin; [|done]. rewrite pauseSettled_eq, Hin by done.
    unfold afterPause. destruct ok; simpl; repeat case_match; simpl; naive_solver.
  - apply pending_resume in Hin; [|done]. rewrite (resumeSettled_eq _ d') by done.
    unfold afterResume. simpl. case_match; simpl; done.
Qed.

Lemma dead_step e st p l : inv st -> step e st = Some p -> dead l st -> dead l p.1.
Proof.
  intros H Hs. destruct l as [a|d]; simpl; [by apply (released_step _ _ _ _ Hs)|].
  intros [Hlt Hd]. pose proof (calls_step _ _ _ Hs). split; [lia|].
  intros e' [Hc|Hc]%(dictation_step _ _ _ _ H Hs); [by apply Hd|lia].
Qed.

Lemma dead_runs st es rs st' l : inv st -> runs st es rs st' -> dead l st -> dead l st'.
Proof.
  intros H Hr. induction Hr as [|st e st1 r es rs st2 Hs _ IH]; [done|].
  intros Hd. apply IH; [by apply (inv_step _ _ _ H Hs)|by apply (dead_step _ _ _ _ H Hs)].
Qed.

(** A release that does not answer [false] kills its lease. *)
Lemma release_kills l st :
  inv st -> l ∈ issued st -> (release l st).2 <> Released false -> dead l (release l st).1.
Proof.
  intros H Hin. destruct l as [a|d]; cbn [release dead].
  - unfold releaseAssistant. destruct (isReleased st a); [done|]. simpl.
    repeat (case_match; simpl; try done); intros _; by left.
  - unfold releaseDictation. pose proof (inv_fresh _ H _ Hin) as Hlt. simpl in Hlt.
    destruct (current st) as [|b|b e|[b|] e|b e] eqn:E; try done;
      repeat (case_match; simpl; try done); intros _; split; done.
Qed.

(** A lease that can still be released. *)
Definition releasable (l : V1MicrophoneLease) (st : Registry) : Prop :=
  l ∈ issued st /\ (release l st).2 <> Released false.

Definition same_kind (l1 l2 : V1MicrophoneLease) : Prop :=
  match l1, l2 with
  | AssistantLease _, AssistantLease _ | DictationLease _, DictationLease _ => True
  | _, _ => False
  end.

Lemma releasable_assistant a st :
  releasable (AssistantLease a) st ->
  exists b, assistantOf (current st) = Some b /\ a_id b = a_id a.
Proof.
  intros [_ Hr]. cbn [release] in Hr. revert Hr. unfold releaseAssistant.
  destruct (isReleased st a); [done|]. simpl.
  destruct (current st) as [|b|b e|[b|] e|b e]; try done; simpl; unfold sameAssistant;
    case_bool_decide; try done; eauto.
Qed.

Lemma releasable_dictation d st :
  releasable (DictationLease d) st ->
  exists a e, current st = DictationOwned a e /\ d_id e = d_id d.
Proof.
  intros [_ Hr]. cbn [release] in Hr. revert Hr. unfold releaseDictation.
  destruct (current st) as [|b|b e|b e|b e]; try done. unfold sameDictation.
  case_bool_decide; try done; eauto.
Qed.

Lemma releasable_unique l1 l2 st :
  inv st -> releasable l1 st -> releasable l2 st -> same_kind l1 l2 -> l1 = l2.
Proof.
  intros H H1 H2 Hk.
  apply (issued_inj st); [done|apply H1|apply H2|].
  destruct l1, l2; try done; simpl.
  - destruct (releasable_assistant _ _ H1) as (b & Hb & <-).
    destruct (releasable_assistant _ _ H2) as (b' & Hb' & <-). congruence.
  - destruct (releasable_dictation _ _ H1) as (b & e & Hb & <-).
    destruct (releasable_dictation _ _ H2) as (b' & e' & Hb' & <-). congruence.
Qed.

(** In a handoff phase only the pending continuation changes the phase. *)
Lemma handoff_only_pause a d st e p :
  inv st -> current st = HandoffToDictation a d -> step e st = Some p ->
  (exists ok, e = EPauseSettled a d ok) \/ current p.1 = HandoffToDictation a d.
Proof.
  intros H E Hs. destruct e as [sc|act h|[b|b]|l sc|b e ok|b e ok]; cbn [step] in Hs;
    try (case_bool_decide as Hin; [|done]); injection Hs as <-; cbn [release].
  - right. unfold acquireDictation. rewrite E. by case_bool_decide.
  - right. unfold acquireGlobalSupervisor. by rewrite E.
  - right. unfold releaseAssistant. case_match; [done|]. simpl. by rewrite E.
  - right. unfold releaseDictation. by rewrite E.
  - right. unfold replaceDictation. by rewrite E.
  - left. apply pending_pause in Hin; [|done]. rewrite E in Hin. simplify_eq. by exists ok.
  - apply pending_resume in Hin; [|done]. congruence.
Qed.

Lemma handoff_only_resume a d st e p :
  inv st -> current st = HandoffBack a d -> step e st = Some p ->
  (exists ok, e = EResumeSettled a d ok) \/ current p.1 = HandoffBack a d.
Proof.
  intros H E Hs. destruct e as [sc|act h|[b|b]|l sc|b e ok|b e ok]; cbn [step] in Hs;
    try (case_bool_decide as Hin; [|done]); injection Hs as <-; cbn [release].
  - right. unfold acquireDictation. by rewrite E.
  - right. unfold acquireGlobalSupervisor. by rewrite E.
  - right. unfold releaseAssistant. case_match; [done|]. simpl. by rewrite E.
  - right. unfold releaseDictation. by rewrite E.
  - right. unfold replaceDictation. by rewrite E.
  - apply pending_pause in Hin; [|done]. congruence.
  - left. apply pending_resume in Hin; [|done]. rewrite E in Hin. simplify_eq. by exists ok.
Qed.

(** ** Properties *)

(** C38. The registry implements the arbitration contract: between any two
    consecutive reachable states the phase changes only as the contract allows,
    so an activation leaves the microphone only by its own release and a new
    activation starts only on an idle microphone. *)
Theorem arbitration_refines st e p :
  reachable st -> step e st = Some p ->
  arbitrates (released p.1) (current st) (current p.1) /\
  (forall a, assistantOf (current st) = Some a ->
     assistantOf (current p.1) = Some a \/ a_id a ∈ released p.1) /\
  (forall a, assistantOf (current p.1) = Some a ->
     assistantOf (current st) = Some a \/ (current st = Idle /\ a_id a ∉ released p.1)).
Proof.
  intros H%inv_reachable Hs. pose proof (arbitrates_step _ _ _ H Hs) as Ha.
  split; [done|]. split; intros a; destruct Ha; simpl; intros; simplify_eq; auto.
Qed.

(** A lease is released at most once: when a release of an issued lease
    does not answer [false], every later release of it, after any further
    interleaving of calls and settlements, answers [false]; and at any moment
    at most one assistant lease and one dictation lease can be released. *)
Theorem lease_released_once st l :
  reachable st -> releasable l st ->
  (forall es rs st', runs (release l st).1 es rs st' -> (release l st').2 = Released false) /\
  (forall l', releasable l' st -> same_kind l l' -> l' = l).
Proof.
  intros H%inv_reachable Hr. split.
  - intros es rs st' Hruns. apply dead_release.
    eapply (dead_runs (release l st).1); [|exact Hruns|by apply release_kills; [done|apply Hr..]].
    apply (inv_step (ERelease l) st (release l st) H). cbn [step].
    by rewrite bool_decide_true by apply Hr.
  - intros l' Hl' Hk. symmetry. by apply (releasable_unique _ _ st).
Qed.

(** A handoff always completes: in a handoff phase exactly its own
    continuation is pending, no other event changes the phase, and settling it,
    whether the runtime call succeeded or threw, installs the dictation, the
    assistant or (when the assistant was released meanwhile) neither. *)
Theorem handoff_settles st a d :
  reachable st ->
  (current st = HandoffToDictation a d ->
     awaiting st = [PauseOf a d] /\
     (forall ok, exists p, step (EPauseSettled a d ok) st = Some p /\
        current p.1 = afterPause a d ok st /\ awaiting p.1 = [] /\
        p.2 = if ok then Acquired (DictationLease d) else Rejected) /\
     (forall e p, step e st = Some p ->
        (exists ok, e = EPauseSettled a d ok) \/ current p.1 = HandoffToDictation a d)) /\
  (current st = HandoffBack a d ->
     awaiting st = [ResumeOf a d] /\
     (forall ok, exists p, step (EResumeSettled a d ok) st = Some p /\
        current p.1 = afterResume a st /\ awaiting p.1 = [] /\
        p.2 = if ok then Released true else Rejected) /\
     (forall e p, step e st = Some p ->
        (exists ok, e = EResumeSettled a d ok) \/ current p.1 = HandoffBack a d)).
Proof.
  intros H%inv_reachable. pose proof (inv_awaiting _ H) as Haw.
  split; intros E; rewrite E in Haw; (split; [done|]); split.
  - intros ok. cbn [step]. rewrite Haw, bool_decide_true by by left.
    eexists. split; [done|]. rewrite pauseSettled_eq by done.
    pose proof (settle_awaiting (PauseOf a d) st H) as Hs. rewrite E in Hs.
    destruct ok; split_and!; try done; by apply Hs.
  - intros e p Hs. by apply (handoff_only_pause _ _ st).
  - intros ok. cbn [step]. rewrite Haw, bool_decide_true by by left.
    eexists. split; [done|]. rewrite (resumeSettled_eq _ d) by done.
    pose proof (settle_awaiting (ResumeOf a d) st H) as Hs. rewrite E in Hs.
    split_and!; try done; by apply Hs.
  - intros e p Hs. by apply (handoff_only_resume _ _ st).
Qed.

End registry.

(** ** Witnesses: dictation interrupts an activation and gives the microphone back *)

Definition demo_uuid (n : nat) : jstr := js (pretty n).
Definition demo_a : AssistantLeaseRecord :=
  {| a_id := 0; a_handoff := true; a_activation := js "act"; a_token := js "0" |}.
Definition demo_d : DictationLeaseRecord := {| d_id := 1; d_scope := js "chat"; d_token := js "1" |}.
Definition demo_pausing : Registry :=
  {| current := HandoffToDictation demo_a demo_d; released := []; calls := 2;
     awaiting := [PauseOf demo_a demo_d]; issued := [AssistantLease demo_a] |}.
Definition demo_dictating : Registry :=
  {| current := DictationOwned (Some demo_a) demo_d; released := []; calls := 2;
     awaiting := []; issued := [AssistantLease demo_a; DictationLease demo_d] |}.

Lemma demo_pausing_reachable : reachable demo_uuid demo_pausing.
Proof.
  exists [EAcquireGlobalSupervisor (js "act") true; EAcquireDictation (js "chat")]. eexists.
  eapply runs_cons; [vm_compute; reflexivity|].
  eapply runs_cons; [vm_compute; reflexivity|]. constructor.
Qed.

Lemma demo_dictating_reachable : reachable demo_uuid demo_dictating.
Proof.
  exists [EAcquireGlobalSupervisor (js "act") true; EAcquireDictation (js "chat");
          EPauseSettled demo_a demo_d true]. eexists.
  do 3 (eapply runs_cons; [vm_compute; reflexivity|]). constructor.
Qed.

Lemma arbitration_refines_witness :
  arbitrates [] (DictationOwned (Some demo_a) demo_d) (HandoffBack demo_a demo_d).
Proof.
  refine (proj1 (arbitration_refines demo_uuid demo_dictating
    (ERelease (DictationLease demo_d))
    (release (DictationLease demo_d) demo_dictating) demo_dictating_reachable _)).
  vm_compute. reflexivity.
Defined.

Lemma lease_released_once_witness :
  (release (DictationLease demo_d) (release (DictationLease demo_d) demo_dictating).1).2
  = Released false.
Proof.
  refine (proj1 (lease_released_once demo_uuid demo_dictating (DictationLease demo_d)
    demo_dictating_reachable _) [] [] _ _).
  - split; [|vm_compute; done]. right. left.
  - constructor.
Defined.

Lemma handoff_settles_witness :
  exists p, step demo_uuid (EPauseSettled demo_a demo_d false) demo_pausing = Some p /\
    current p.1 = AssistantOwned demo_a.
Proof.
  destruct (proj1 (handoff_settles demo_uuid demo_pausing demo_a demo_d
    demo_pausing_reachable) eq_refl) as (_ & Hok & _).
  destruct (Hok false) as (p & Hp & Hc & _). exists p. split; [exact Hp|].
  rewrite Hc. vm_compute. reflexivity.
Defined.
