(* ===== verification/ThreadItems.v ===== *)
(** * Reconciling two projections of one turn

    Models packages/sync-client/src/thread-items.ts.  Items are the wire
    objects themselves; a slot is a cached item with the flag that tells
    whether the set [matched] of the source holds its index. *)
From S2P Require Import Prelude JsMap Json.

(** [item.type === t] and [a.k === b.k]. *)
Definition isType (t : string) (item : json) : bool := isStr (field "type" item) t.
Definition sameField (k : string) (a b : json) : bool := bool_decide (field k a = field k b).

(** A field the protocol types as a string. *)
Definition strField (k : string) (v : json) : jstr := default [] (asString (field k v)).

(** A field the protocol types as an array. *)
Definition arrField (k : string) (v : json) : list json := default [] (asArray (field k v)).

Definition isChatBoundary (item : json) : bool :=
  isType "userMessage" item || isType "agentMessage" item || isType "contextCompaction" item.

(** [nonEmpty(value) !== null]: an absent field is neither null nor empty. *)
Definition nonEmpty (v : option json) : bool :=
  bool_decide (v <> Some JNull) && bool_decide (v <> Some (JStr [])).

Definition textParts (content : list json) : list jstr :=
  content ≫= fun part => if isType "text" part then [strField "text" part] else [].

Definition userMessageFingerprint (item : json) : jstr :=
  let content := arrField "content" item in
  let text := trim (join [10%N] (textParts content)) in
  if bool_decide (text = []) then stringify (JArr content) else text.

Definition sameLogicalBoundary (left right : json) : bool :=
  if isType "contextCompaction" left && isType "contextCompaction" right then true
  else if isType "userMessage" left && isType "userMessage" right then
    if nonEmpty (field "clientId" left) && sameField "clientId" left right then true
    else bool_decide (userMessageFingerprint left = userMessageFingerprint right)
  else if negb (isType "agentMessage" left) || negb (isType "agentMessage" right) then false
  else if isStr (field "delivery" left) "async" || isStr (field "delivery" right) "async" then false
  else sameField "text" left right
    || (isStr (field "phase" left) "final_answer" && isStr (field "phase" right) "final_answer").

(** Assigning a field read from another object: an absent one reads as absent. *)
Definition copyField (k : string) (v : option json) (item : json) : json :=
  match v with Some x => setField k x item | None => delField k item end.

Definition preserveUserClientId (incoming cached : json) : json :=
  if negb (isType "userMessage" incoming) || negb (isType "userMessage" cached) then incoming
  else if nonEmpty (field "clientId" incoming) then incoming
  else if nonEmpty (field "clientId" cached)
  then copyField "clientId" (field "clientId" cached) incoming
  else incoming.

Definition preserveActiveAgentText (incoming cached : json) (preserveLifecycle : bool) : json :=
  if negb preserveLifecycle
     || negb (isType "agentMessage" incoming)
     || negb (isType "agentMessage" cached)
     || negb (startsWith (strField "text" incoming) (strField "text" cached))
     || bool_decide (strField "text" cached = strField "text" incoming)
  then incoming
  else setField "text" (JStr (strField "text" cached)) incoming.

Definition withProjectedPreTurn (item : json) : json :=
  setField "codewidePreTurn" (JBool true) item.

Definition withProjectedLifecycle (item : json) (phase : jstr) : json :=
  setField "codewideLifecyclePhase" (JStr phase) item.

Definition projectedPreTurn (item : json) : bool :=
  bool_decide (field "codewidePreTurn" item = Some (JBool true)).

Definition projectedLifecyclePhase (item : json) : option jstr :=
  let phase := field "codewideLifecyclePhase" item in
  if isStr phase "started" || isStr phase "completed" then asString phase else None.

Definition preserveProjectedItemMarkers (incoming cached : json) (preserveLifecycle : bool)
    : json :=
  let projected := preserveActiveAgentText incoming cached preserveLifecycle in
  let projected := preserveUserClientId projected cached in
  let projected :=
    if projectedPreTurn cached && negb (projectedPreTurn projected)
    then withProjectedPreTurn projected else projected in
  let lifecyclePhase :=
    if preserveLifecycle && isType "contextCompaction" projected
    then projectedLifecyclePhase cached else None in
  match lifecyclePhase, projectedLifecyclePhase projected with
  | Some phase, None => withProjectedLifecycle projected phase
  | _, _ => projected
  end.

(** The first unmatched slot that satisfies [p]. *)
Definition findUnmatched (p : json -> bool) (slots : list (json * bool)) : option nat :=
  findIndex (fun s => negb s.2 && p s.1) slots.

Definition matchIndex (item : json) (slots : list (json * bool)) : option nat :=
  match findUnmatched (fun candidate => sameField "id" candidate item) slots with
  | Some i => Some i
  | None =>
      if isChatBoundary item
      then findUnmatched (fun candidate => sameLogicalBoundary candidate item) slots
      else None
  end.

Record Placement :=
  { pl_slots : list (json * bool); pl_leading : list json; pl_trailing : list json }.

Definition placeItem (preserveLifecycle : bool) (st : Placement) (item : json) : Placement :=
  match matchIndex item (pl_slots st) with
  | None =>
      if isType "userMessage" item
      then {| pl_slots := pl_slots st; pl_leading := pl_leading st ++ [item];
              pl_trailing := pl_trailing st |}
      else {| pl_slots := pl_slots st; pl_leading := pl_leading st;
              pl_trailing := pl_trailing st ++ [item] |}
  | Some i =>
      {| pl_slots :=
           alter (fun s => (preserveProjectedItemMarkers item s.1 preserveLifecycle, true)) i
             (pl_slots st);
         pl_leading := pl_leading st; pl_trailing := pl_trailing st |}
  end.

Definition startPlacement (cached : list json) : Placement :=
  {| pl_slots := (fun item => (item, false)) <$> cached; pl_leading := []; pl_trailing := [] |}.

Definition finishPlacement (st : Placement) : list json :=
  pl_leading st ++ (pl_slots st).*1 ++ pl_trailing st.

Definition reconcileItems (cached incoming : list json) (preserveLifecycle : bool) : list json :=
  match cached, incoming with
  | [], _ => incoming
  | _, [] => cached
  | _, _ => finishPlacement (foldl (placeItem preserveLifecycle) (startPlacement cached) incoming)
  end.

Definition reconcileTurnItems (cached incoming : list json) : list json :=
  reconcileItems cached incoming false.

Definition reconcileActiveTurnItems (cached incoming : list json) : list json :=
  reconcileItems cached incoming true.

(** ** Reading the result of the marker transfer *)

(** The fields the transfer may set. *)
Definition markerFields : list string :=
  ["text"; "clientId"; "codewidePreTurn"; "codewideLifecyclePhase"].

Lemma field_copyField_ne k k' v x : k <> k' -> field k (copyField k' v x) = field k x.
Proof. intros. destruct v; simpl; [by apply field_setField_ne|by apply field_delField_ne]. Qed.

Lemma isType_setField t k v x : k <> "type" -> isType t (setField k v x) = isType t x.
Proof. intros. unfold isType. by rewrite field_setField_ne. Qed.

Lemma isType_copyField t k v x : k <> "type" -> isType t (copyField k v x) = isType t x.
Proof. intros. unfold isType. by rewrite field_copyField_ne. Qed.

Lemma markers_field k item cached b :
  k ∉ markerFields -> field k (preserveProjectedItemMarkers item cached b) = field k item.
Proof.
  unfold markerFields. intros Hk. unfold preserveProjectedItemMarkers.
  set (p1 := preserveActiveAgentText item cached b).
  assert (field k p1 = field k item) as H1.
  { unfold p1, preserveActiveAgentText. case_match; [done|]. apply field_setField_ne. set_solver. }
  set (p2 := preserveUserClientId p1 cached).
  assert (field k p2 = field k item) as H2.
  { rewrite <- H1. unfold p2, preserveUserClientId. repeat case_match; try done.
    apply field_copyField_ne. set_solver. }
  set (p3 := if _ && _ then withProjectedPreTurn p2 else p2).
  assert (field k p3 = field k item) as H3.
  { rewrite <- H2. unfold p3. case_match; [|done]. apply field_setField_ne. set_solver. }
  repeat case_match; try done. rewrite <- H3. apply field_setField_ne. set_solver.
Qed.

Lemma markers_id item cached b :
  field "id" (preserveProjectedItemMarkers item cached b) = field "id" item.
Proof. apply markers_field. unfold markerFields. set_solver. Qed.

Lemma markers_self item b : preserveProjectedItemMarkers item item b = item.
Proof.
  unfold preserveProjectedItemMarkers, preserveActiveAgentText.
  rewrite (bool_decide_true (strField "text" item = strField "text" item)) by done.
  rewrite orb_true_r.
  assert (preserveUserClientId item item = item) as ->.
  { unfold preserveUserClientId. repeat case_match; congruence. }
  rewrite andb_negb_r. repeat case_match; simplify_eq; congruence.
Qed.

(** The four transfers one after the other. *)
Definition preserveTurnMarker (projected cached : json) : json :=
  if projectedPreTurn cached && negb (projectedPreTurn projected)
  then withProjectedPreTurn projected else projected.

Definition preserveLifecycleMarker (b : bool) (projected cached : json) : json :=
  match (if b && isType "contextCompaction" projected
         then projectedLifecyclePhase cached else None), projectedLifecyclePhase projected with
  | Some phase, None => withProjectedLifecycle projected phase
  | _, _ => projected
  end.

Lemma markers_stages item cached b :
  preserveProjectedItemMarkers item cached b =
  preserveLifecycleMarker b
    (preserveTurnMarker
       (preserveUserClientId (preserveActiveAgentText item cached b) cached) cached) cached.
Proof. done. Qed.

Lemma isType_is_obj t x : isType t x = true -> is_obj x.
Proof. unfold isType. rewrite isStr_spec. apply field_is_obj. Qed.

Lemma field_delField_eq k x : field k (delField k x) = None.
Proof. destruct x; try done. simpl. unfold oget, odel. apply mget_mdel_eq. Qed.

Lemma field_copyField_eq k v x : is_obj x -> field k (copyField k v x) = v.
Proof. intros. destruct v; simpl; [by apply field_setField_eq|apply field_delField_eq]. Qed.

(** What each transfer leaves alone. *)
Lemma agentText_field k x c b :
  k <> "text" -> field k (preserveActiveAgentText x c b) = field k x.
Proof. intros. unfold preserveActiveAgentText. case_match; [done|]. by apply field_setField_ne. Qed.

Lemma clientId_field k x c : k <> "clientId" -> field k (preserveUserClientId x c) = field k x.
Proof.
  intros. unfold preserveUserClientId. repeat case_match; try done. by apply field_copyField_ne.
Qed.

Lemma turnMarker_field k x c :
  k <> "codewidePreTurn" -> field k (preserveTurnMarker x c) = field k x.
Proof. intros. unfold preserveTurnMarker. case_match; [|done]. by apply field_setField_ne. Qed.

Lemma lifecycle_field k b x c :
  k <> "codewideLifecyclePhase" -> field k (preserveLifecycleMarker b x c) = field k x.
Proof.
  intros. unfold preserveLifecycleMarker. repeat case_match; try done. by apply field_setField_ne.
Qed.

(** Each transfer is idempotent: it reads the same from its own result. *)
Lemma agentText_idem x c d b :
  field "type" d = field "type" x ->
  field "text" d = field "text" (preserveActiveAgentText x c b) ->
  preserveActiveAgentText x d b = preserveActiveAgentText x c b.
Proof.
  intros Ht Hd. unfold preserveActiveAgentText at 2. case_match eqn:E.
  - assert (field "text" d = field "text" x) as Hx.
    { rewrite Hd. unfold preserveActiveAgentText. by rewrite E. }
    unfold preserveActiveAgentText, strField. rewrite Hx, (bool_decide_true (_ = _)) by done.
    by rewrite orb_true_r.
  - unfold preserveActiveAgentText in Hd. rewrite E in Hd. bool_prop.
    rewrite field_setField_eq in Hd by by eapply isType_is_obj.
    unfold preserveActiveAgentText, isType, strField in *. rewrite Hd, Ht. simpl.
    repeat match goal with H : _ = true |- _ => rewrite H | H : _ = false |- _ => rewrite H end.
    simpl. rewrite bool_decide_false by done. done.
Qed.

Lemma clientId_idem x c d :
  field "type" d = field "type" x ->
  field "clientId" d = field "clientId" (preserveUserClientId x c) ->
  preserveUserClientId x d = preserveUserClientId x c.
Proof.
  intros Ht Hd. unfold preserveUserClientId in *. unfold isType in *. rewrite Ht.
  destruct (isStr (field "type" x) "userMessage") eqn:Eu; simpl in *; [|done].
  destruct (nonEmpty (field "clientId" x)) eqn:En; [by destruct (negb _)|].
  destruct (isStr (field "type" c) "userMessage"); simpl in *; [|by rewrite Hd, En].
  destruct (nonEmpty (field "clientId" c)) eqn:Ec; [|by rewrite Hd, En].
  rewrite field_copyField_eq in Hd; [by rewrite Hd, Ec|].
  by apply (isType_is_obj "userMessage").
Qed.

Lemma turnMarker_idem x c d :
  projectedPreTurn d = projectedPreTurn (preserveTurnMarker x c) ->
  preserveTurnMarker x d = preserveTurnMarker x c.
Proof.
  intros Hd. unfold preserveTurnMarker in *. rewrite Hd.
  destruct (projectedPreTurn c && negb (projectedPreTurn x)) eqn:E; bool_prop.
  - destruct (projectedPreTurn (withProjectedPreTurn x)) eqn:Ew; simpl; [by rewrite H0|].
    destruct x; try done. exfalso. revert Ew. unfold projectedPreTurn, withProjectedPreTurn.
    rewrite field_setField_eq by by eexists. done.
  - by rewrite andb_negb_r.
Qed.

Lemma lifecyclePhase_spec x p :
  projectedLifecyclePhase x = Some p ->
  field "codewideLifecyclePhase" x = Some (JStr p) /\ (p = js "started" \/ p = js "completed").
Proof.
  unfold projectedLifecyclePhase. case_match eqn:E; [|done].
  intros Hp%asString_Some. split; [done|]. rewrite Hp in E.
  apply orb_true_iff in E as [E|E]; apply isStr_spec in E; simplify_eq; auto.
Qed.

Lemma lifecyclePhase_with x p :
  is_obj x -> p = js "started" \/ p = js "completed" ->
  projectedLifecyclePhase (withProjectedLifecycle x p) = Some p.
Proof.
  intros Hx Hp. unfold projectedLifecyclePhase, withProjectedLifecycle.
  rewrite field_setField_eq by done. unfold isStr.
  destruct Hp as [->| ->]; by repeat case_bool_decide.
Qed.

Lemma lifecycle_idem b x c :
  preserveLifecycleMarker b x (preserveLifecycleMarker b x c) = preserveLifecycleMarker b x c.
Proof.
  unfold preserveLifecycleMarker at 1 3.
  destruct (b && isType "contextCompaction" x) eqn:Eb; [|done]. bool_prop.
  destruct (projectedLifecyclePhase c) as [p|] eqn:Ec.
  - destruct (projectedLifecyclePhase x) as [q|] eqn:Ex; [by repeat case_match|].
    unfold preserveLifecycleMarker. rewrite H, H0. simpl. rewrite Ec, Ex.
    rewrite lifecyclePhase_with; [done| |by apply lifecyclePhase_spec in Ec as [_ ?]].
    by eapply isType_is_obj.
  - unfold preserveLifecycleMarker. rewrite H, H0. simpl. rewrite Ec.
    by destruct (projectedLifecyclePhase x).
Qed.

Lemma markers_idem x c b :
  preserveProjectedItemMarkers x (preserveProjectedItemMarkers x c b) b =
  preserveProjectedItemMarkers x c b.
Proof.
  rewrite !markers_stages.
  set (x1 := preserveActiveAgentText x c b).
  set (x2 := preserveUserClientId x1 c).
  set (x3 := preserveTurnMarker x2 c).
  set (x4 := preserveLifecycleMarker b x3 c).
  assert (preserveActiveAgentText x x4 b = x1) as ->.
  { apply agentText_idem; unfold x4, x3, x2.
    - rewrite lifecycle_field, turnMarker_field, clientId_field by done.
      by apply agentText_field.
    - by rewrite lifecycle_field, turnMarker_field, clientId_field by done. }
  assert (preserveUserClientId x1 x4 = x2) as ->.
  { apply clientId_idem; unfold x4, x3.
    - unfold x2. by rewrite lifecycle_field, turnMarker_field, clientId_field by done.
    - by rewrite lifecycle_field, turnMarker_field by done. }
  assert (preserveTurnMarker x2 x4 = x3) as ->.
  { apply turnMarker_idem. unfold x4, projectedPreTurn. by rewrite lifecycle_field. }
  apply lifecycle_idem.
Qed.

(** ** The placement loop *)

Definition ids (items : list json) : list (option json) := field "id" <$> items.

Lemma findUnmatched_Some p slots i :
  findUnmatched p slots = Some i ->
  exists c, slots !! i = Some (c, false) /\ p c = true.
Proof.
  intros ([c m] & Hc & Hp & _)%findIndex_Some. simpl in Hp. bool_prop.
  destruct m; [done|]. eauto.
Qed.

Lemma findUnmatched_None p slots c :
  findUnmatched p slots = None -> (c, false) ∈ slots -> p c = false.
Proof.
  unfold findUnmatched. rewrite findIndex_None, Forall_forall. intros H Hin.
  by specialize (H _ Hin).
Qed.

(** A slot is matched by id, or by its boundary when no free slot has the id. *)
Lemma matchIndex_Some item slots i :
  matchIndex item slots = Some i ->
  exists c, slots !! i = Some (c, false) /\
    (field "id" c = field "id" item \/
     (sameLogicalBoundary c item = true /\
      forall c', (c', false) ∈ slots -> field "id" c' <> field "id" item)).
Proof.
  unfold matchIndex. destruct (findUnmatched _ _) as [j|] eqn:E.
  - intros [= <-]. apply findUnmatched_Some in E as (c & Hc & Hp). exists c.
    split; [done|]. left. by apply bool_decide_eq_true in Hp.
  - case_match; [|done]. intros (c & Hc & Hp)%findUnmatched_Some. exists c.
    split; [done|]. right. split; [done|]. intros c' Hc' Hid.
    pose proof (findUnmatched_None _ _ _ E Hc') as Hf. simpl in Hf.
    by apply bool_decide_eq_false in Hf.
Qed.

Lemma matchIndex_None item slots :
  matchIndex item slots = None ->
  forall c, (c, false) ∈ slots -> field "id" c <> field "id" item.
Proof.
  unfold matchIndex. destruct (findUnmatched _ _) as [j|] eqn:E; [done|].
  intros _ c Hc Hid. pose proof (findUnmatched_None _ _ _ E Hc) as Hf. simpl in Hf.
  by apply bool_decide_eq_false in Hf.
Qed.

Section placement.
Context (b : bool) (cached : list json).

(** The part of the invariant that needs no identity assumption. *)
Record placed (pre : list json) (st : Placement) : Prop :=
  { pi_length : length (pl_slots st) = length cached;
    pi_slot : forall j c, cached !! j = Some c -> exists (y : json) (m : bool), pl_slots st !! j = Some (y, m) /\
      if m then exists x : json, x ∈ pre /\ y = preserveProjectedItemMarkers x c b /\
                     (field "id" c = field "id" x \/ sameLogicalBoundary c x = true)
      else y = c;
    pi_seen : forall x, x ∈ pre ->
      (exists c, c ∈ cached /\ (preserveProjectedItemMarkers x c b, true) ∈ pl_slots st)
      \/ x ∈ (pl_leading st ++ pl_trailing st);
    pi_new : forall y, y ∈ (pl_leading st ++ pl_trailing st) -> y ∈ pre }.

Lemma placed_start : placed [] (startPlacement cached).
Proof.
  constructor; simpl; [by rewrite length_fmap| |set_solver|set_solver].
  intros j c Hj. exists c, false. by rewrite list_lookup_fmap, Hj.
Qed.

Lemma placed_step pre st x : placed pre st -> placed (pre ++ [x]) (placeItem b st x).
Proof.
  intros [Hlen Hslot Hseen Hnew]. unfold placeItem.
  destruct (matchIndex x (pl_slots st)) as [i|] eqn:E.
  - apply matchIndex_Some in E as (c & Hc & Hm).
    assert (i < length cached)%nat as Hi by (rewrite <- Hlen; by eapply lookup_lt_Some).
    apply lookup_lt_is_Some in Hi as [c' Hc'].
    destruct (Hslot _ _ Hc') as (y & m & Hy & Hym). rewrite Hc in Hy. simplify_eq.
    constructor; simpl.
    + by rewrite length_alter.
    + intros j d Hd. destruct (decide (i = j)) as [<-|Hne].
      * simplify_eq. rewrite list_lookup_alter, decide_True, Hc by done. simpl. do 2 eexists. split; [done|].
        exists x. split_and!; [set_solver|done|]. destruct Hm as [?|[? _]]; auto.
      * rewrite list_lookup_alter, decide_False by done. destruct (Hslot _ _ Hd) as (y & m & Hy & Hym).
        exists y, m. split; [done|]. destruct m; [|done].
        destruct Hym as (z & ? & ? & ?). exists z. set_solver.
    + intros z [Hz|Hz]%elem_of_app.
      * destruct (Hseen _ Hz) as [(d & Hd & Hin)|?]; [|by right].
        left. exists d. split; [done|].
        apply list_elem_of_lookup in Hin as [j Hj]. apply list_elem_of_lookup. exists j.
        rewrite list_lookup_alter, decide_False; [done|]. intros <-. congruence.
      * apply list_elem_of_singleton in Hz as ->. left. exists c'.
        split; [by eapply list_elem_of_lookup_2|]. apply list_elem_of_lookup. exists i.
        by rewrite list_lookup_alter, decide_True, Hc.
    + intros y Hy. specialize (Hnew _ Hy). set_solver.
  - assert (forall j c, cached !! j = Some c -> exists (y : json) (m : bool), pl_slots st !! j = Some (y, m) /\
      if m then exists z : json, z ∈ (pre ++ [x]) /\ y = preserveProjectedItemMarkers z c b /\
                     (field "id" c = field "id" z \/ sameLogicalBoundary c z = true)
      else y = c) as Hslot'.
    { intros j d Hd. destruct (Hslot _ _ Hd) as (y & m & Hy & Hym).
      exists y, m. split; [done|]. destruct m; [|done].
      destruct Hym as (z & ? & ? & ?). exists z. set_solver. }
    destruct (isType "userMessage" x); constructor; simpl; try done.
    all: intros y; set_solver.
Qed.

Lemma placed_foldl pre inc st :
  placed pre st -> placed (pre ++ inc) (foldl (placeItem b) st inc).
Proof.
  revert pre st. induction inc as [|x inc IH]; intros pre st H; simpl.
  - by rewrite app_nil_r.
  - rewrite cons_middle, (assoc (++)). by apply IH, placed_step.
Qed.

Lemma placed_result inc : placed inc (foldl (placeItem b) (startPlacement cached) inc).
Proof. apply (placed_foldl []), placed_start. Qed.

(** A matched slot carries the id of an incoming item. *)
Lemma placed_matched_id pre st y :
  placed pre st -> (y, true) ∈ pl_slots st -> exists x, x ∈ pre /\ field "id" y = field "id" x.
Proof.
  intros H [j Hj]%list_elem_of_lookup.
  assert (j < length cached)%nat as Hlt.
  { rewrite <- (pi_length _ _ H). by eapply lookup_lt_Some. }
  apply lookup_lt_is_Some in Hlt as [c Hc].
  destruct (pi_slot _ _ H _ _ Hc) as (y' & m & Hy & Hm). rewrite Hj in Hy. simplify_eq.
  destruct Hm as (x & Hx & -> & _). exists x. by rewrite markers_id.
Qed.

(** An item whose id was not placed before has an id no slot carries, unless
    it is matched by that id. *)
Lemma fresh_slots pre st x :
  placed pre st -> field "id" x ∉ ids pre ->
  (forall c, (c, false) ∈ pl_slots st -> field "id" c <> field "id" x) ->
  field "id" x ∉ ids ((pl_slots st).*1).
Proof.
  intros H Hx Hf (y & Hid & Hy)%list_elem_of_fmap.
  apply list_elem_of_fmap in Hy as ([y' m] & -> & Hin). simpl in Hid. destruct m.
  - destruct (placed_matched_id _ _ _ H Hin) as (z & Hz & Hyz). apply Hx.
    apply list_elem_of_fmap. exists z. split; [congruence|done].
  - by apply (Hf _ Hin).
Qed.

Definition distinct (st : Placement) : Prop := NoDup (ids (finishPlacement st)).

Lemma ids_app l k : ids (l ++ k) = ids l ++ ids k.
Proof. apply fmap_app. Qed.

Lemma distinct_step pre st x :
  placed pre st -> field "id" x ∉ ids pre -> distinct st -> distinct (placeItem b st x).
Proof.
  intros H Hx Hd. unfold distinct, finishPlacement in *.
  assert ((field "id" x ∉ ids (pl_leading st)) /\ (field "id" x ∉ ids (pl_trailing st))) as [Hl Ht].
  { split; intros (y & Hid & Hy)%list_elem_of_fmap; apply Hx; apply list_elem_of_fmap;
      exists y; (split; [done|]); apply (pi_new _ _ H); set_solver. }
  unfold placeItem. destruct (matchIndex x (pl_slots st)) as [i|] eqn:E.
  - apply matchIndex_Some in E as (c & Hc & Hm). simpl.
    assert (ids ((alter (fun s => (preserveProjectedItemMarkers x s.1 b, true)) i
                    (pl_slots st)).*1)
            = <[i := field "id" x]> (ids ((pl_slots st).*1))) as Hids.
    { unfold ids. apply list_eq. intros j.
      rewrite !list_lookup_fmap, list_lookup_alter, list_lookup_insert.
      rewrite !list_lookup_fmap, !length_fmap. case_decide as Hij.
      - subst. rewrite decide_True by (split; [done|by eapply lookup_lt_Some]).
        rewrite Hc. simpl. by rewrite markers_id.
      - rewrite decide_False by naive_solver. done. }
    rewrite !ids_app in *. rewrite Hids.
    destruct Hm as [Hm|[_ Hm]].
    + rewrite list_insert_id; [done|]. unfold ids. by rewrite !list_lookup_fmap, Hc, <- Hm.
    + pose proof (fresh_slots _ _ _ H Hx Hm) as Hs.
      apply NoDup_app in Hd as (Hd1 & Hd2 & Hd3). apply NoDup_app in Hd3 as (Hd3 & Hd4 & Hd5).
      assert (forall o, o ∈ <[i := field "id" x]> (ids ((pl_slots st).*1)) ->
                o = field "id" x \/ o ∈ ids ((pl_slots st).*1)) as Hins.
      { intros o [j Hj]%list_elem_of_lookup. rewrite list_lookup_insert in Hj.
        case_decide; [left; congruence|right; by eapply list_elem_of_lookup_2]. }
      apply NoDup_app. split_and!; [done| |apply NoDup_app; split_and!; [| |done]].
      * intros o Ho [Ho'|Ho']%elem_of_app; [apply Hins in Ho' as [->|?]|]; set_solver.
      * apply NoDup_insert; done.
      * intros o Ho. apply Hins in Ho as [->|?]; set_solver.
  - pose proof (fresh_slots _ _ _ H Hx (matchIndex_None _ _ E)) as Hs.
    destruct (isType "userMessage" x); simpl; rewrite !ids_app in *;
      apply NoDup_app in Hd as (Hd1 & Hd2 & Hd3); apply NoDup_app in Hd3 as (Hd3 & Hd4 & Hd5);
      repeat (apply NoDup_app; split_and!); simpl; try done; try apply NoDup_singleton; set_solver.
Qed.

Lemma distinct_foldl pre inc st :
  placed pre st -> NoDup (ids (pre ++ inc)) -> distinct st ->
  distinct (foldl (placeItem b) st inc).
Proof.
  revert pre st. induction inc as [|x inc IH]; intros pre st H Hnd Hd; simpl; [done|].
  rewrite cons_middle, (assoc (++)) in Hnd.
  apply (IH (pre ++ [x])); [by apply placed_step|done|].
  apply (distinct_step pre); [done| |done].
  rewrite ids_app in Hnd. apply NoDup_app in Hnd as (Hnd & _ & _).
  rewrite ids_app in Hnd. apply NoDup_app in Hnd as (_ & Hnd & _).
  intros Hx. apply (Hnd _ Hx). simpl. by left.
Qed.

(** Items that are already placed stay as they are. *)
Lemma place_fixed r pre inc st :
  NoDup (ids r) -> NoDup (ids (pre ++ inc)) ->
  (forall x, x ∈ inc -> exists y, y ∈ r /\ field "id" y = field "id" x /\
                           preserveProjectedItemMarkers x y b = y) ->
  (pl_slots st).*1 = r -> pl_leading st = [] -> pl_trailing st = [] ->
  (forall y, (y, true) ∈ pl_slots st -> field "id" y ∈ ids pre) ->
  finishPlacement (foldl (placeItem b) st inc) = r.
Proof.
  intros Hr. revert pre st.
  induction inc as [|x inc IH]; intros pre [slots lead trail] Hnd Hfix Hst Hl Ht Hm;
    simpl in *; subst; [unfold finishPlacement; simpl; by rewrite app_nil_r|].
  destruct (Hfix x) as (y & Hy & Hid & Hmk); [by left|].
  pose proof Hy as Hy'.
  apply list_elem_of_fmap in Hy' as ([y' m] & Hyy & Hslot). simpl in Hyy. subst y'.
  assert (field "id" x ∉ ids pre) as Hpre.
  { rewrite ids_app in Hnd. apply NoDup_app in Hnd as (_ & Hnd & _). intros Hx.
    apply (Hnd _ Hx). by left. }
  destruct m; [by apply Hm in Hslot; rewrite Hid in Hslot|].
  unfold placeItem at 2. simpl.
  destruct (matchIndex x slots) as [i|] eqn:E;
    [|by destruct (matchIndex_None _ _ E _ Hslot)].
  apply matchIndex_Some in E as (c & Hc & Hcid).
  assert (c = y) as ->.
  { destruct Hcid as [Hcid|[_ Hcid]]; [|by destruct (Hcid _ Hslot)].
    apply list_elem_of_lookup in Hslot as [j Hj].
    assert (i = j) as <-; [|congruence].
    apply (NoDup_lookup _ _ _ (field "id" x) Hr); unfold ids.
    - by rewrite !list_lookup_fmap, Hc, <- Hcid.
    - by rewrite !list_lookup_fmap, Hj, <- Hid. }
  assert ((alter (fun s => (preserveProjectedItemMarkers x s.1 b, true)) i slots).*1 = slots.*1) as Hal.
  { apply list_eq. intros j. rewrite !list_lookup_fmap, list_lookup_alter.
    case_decide; subst; [|done]. rewrite Hc. simpl. by rewrite Hmk. }
  rewrite (IH (pre ++ [x])); simpl; try done.
  - by rewrite <- (assoc (++)).
  - intros z Hz. apply Hfix. by right.
  - intros z [j Hj]%list_elem_of_lookup. rewrite list_lookup_alter in Hj. rewrite ids_app.
    case_decide as Hij.
    + subst. rewrite Hc in Hj. simpl in Hj. simplify_eq. rewrite Hmk, Hid. set_solver.
    + apply elem_of_app. left. apply Hm. by eapply list_elem_of_lookup_2.
Qed.

Lemma reconcile_eq inc :
  cached <> [] -> inc <> [] ->
  reconcileItems cached inc b =
    finishPlacement (foldl (placeItem b) (startPlacement cached) inc).
Proof. unfold reconcileItems. by destruct cached, inc. Qed.

Lemma start_finish : finishPlacement (startPlacement cached) = cached.
Proof.
  unfold finishPlacement, startPlacement. simpl. rewrite app_nil_r.
  rewrite <- list_fmap_compose. apply list_fmap_id.
Qed.

End placement.

(** A result that already contains every incoming item is left alone. *)
Lemma reconcile_fixed b r inc :
  NoDup (ids r) -> NoDup (ids inc) ->
  (forall x, x ∈ inc -> exists y, y ∈ r /\ field "id" y = field "id" x /\
                           preserveProjectedItemMarkers x y b = y) ->
  reconcileItems r inc b = r.
Proof.
  intros Hr Hi Hfix. destruct (decide (r = [])) as [->|Hrne].
  - destruct inc as [|x inc]; [done|]. destruct (Hfix x) as (y & Hy & _); [by left|].
    by apply elem_of_nil in Hy.
  - destruct (decide (inc = [])) as [->|Hine]; [by destruct r|].
    rewrite reconcile_eq by done.
    apply (place_fixed b r [] inc); try done; [by simpl; rewrite <- list_fmap_compose, list_fmap_id|].
    simpl. intros y Hy. apply list_elem_of_fmap in Hy as (? & [=] & _).
Qed.

Lemma reconcile_nodup b cached incoming :
  NoDup (ids cached) -> NoDup (ids incoming) -> NoDup (ids (reconcileItems cached incoming b)).
Proof.
  intros Hc Hi. destruct (decide (cached = [])) as [->|Hcne]; [done|].
  destruct (decide (incoming = [])) as [->|Hine]; [by destruct cached|].
  rewrite reconcile_eq by done.
  apply (distinct_foldl b cached []); [apply placed_start|done|].
  unfold distinct. by rewrite start_finish.
Qed.

(** Every incoming item is in the result as its own fixed point. *)
Lemma reconcile_contains b cached incoming x :
  x ∈ incoming -> exists y, y ∈ reconcileItems cached incoming b /\
    field "id" y = field "id" x /\ preserveProjectedItemMarkers x y b = y /\
    (forall k, k ∉ markerFields -> field k y = field k x).
Proof.
  intros Hx. destruct (decide (cached = [])) as [->|Hcne].
  { exists x. split_and!; [done|done|apply markers_self|done]. }
  assert (incoming <> []) as Hine by (intros ->; by apply elem_of_nil in Hx).
  rewrite reconcile_eq by done.
  destruct (pi_seen _ _ _ _ (placed_result b cached incoming) x Hx) as [(c & Hc & Hin)|Hin].
  - exists (preserveProjectedItemMarkers x c b). split_and!.
    + unfold finishPlacement. apply elem_of_app. right. apply elem_of_app. left.
      apply list_elem_of_fmap. by exists (preserveProjectedItemMarkers x c b, true).
    + apply markers_id.
    + apply markers_idem.
    + intros k. apply markers_field.
  - exists x. split_and!; [|done|apply markers_self|done].
    unfold finishPlacement. set_solver.
Qed.

(** ** Properties *)

(** Reconciling keeps item ids distinct: projections with distinct ids
    yield a turn with distinct ids, so no chat item is stacked twice. *)
Theorem reconcile_unique_ids b cached incoming :
  NoDup (ids cached) -> NoDup (ids incoming) ->
  NoDup (ids (reconcileItems cached incoming b)).
Proof. apply reconcile_nodup. Qed.

(** Redelivery is absorbed: reconciling a result with the same projection
    again changes nothing, for completed and for active turns. *)
Theorem reconcile_idempotent b cached incoming :
  NoDup (ids cached) -> NoDup (ids incoming) ->
  reconcileItems (reconcileItems cached incoming b) incoming b =
  reconcileItems cached incoming b.
Proof.
  intros Hc Hi. apply reconcile_fixed; [by apply reconcile_nodup|done|].
  intros x Hx. destruct (reconcile_contains b cached incoming x Hx) as (y & ? & ? & ? & _).
  by exists y.
Qed.

(** Reconciling loses nothing and keeps the cached order: the cached items
    keep their relative positions, each either unchanged or replaced by an
    incoming item with its id or logical boundary; every incoming item is
    present with all its fields but the projected markers; nothing else is. *)
Theorem reconcile_conserves b cached incoming :
  exists lead slots trail,
    reconcileItems cached incoming b = lead ++ slots ++ trail /\
    length slots = length cached /\
    (forall j c, cached !! j = Some c -> exists y, slots !! j = Some y /\
       (y = c \/ exists x, x ∈ incoming /\ y = preserveProjectedItemMarkers x c b /\
                  (field "id" c = field "id" x \/ sameLogicalBoundary c x = true))) /\
    (forall x, x ∈ incoming -> exists y, y ∈ reconcileItems cached incoming b /\
       forall k, k ∉ markerFields -> field k y = field k x) /\
    (forall y, y ∈ (lead ++ trail) -> y ∈ incoming).
Proof.
  assert (forall x, x ∈ incoming -> exists y, y ∈ reconcileItems cached incoming b /\
       forall k, k ∉ markerFields -> field k y = field k x) as Hall.
  { intros x Hx. destruct (reconcile_contains b cached incoming x Hx) as (y & ? & _ & _ & ?).
    by exists y. }
  destruct (decide (cached = [])) as [->|Hcne].
  { exists incoming, [], []. simpl. rewrite app_nil_r. split_and!; done. }
  destruct (decide (incoming = [])) as [->|Hine].
  { exists [], cached, []. rewrite app_nil_r. split_and!; try done; [by destruct cached|].
    intros j c Hj. eauto. }
  pose proof (placed_result b cached incoming) as H.
  set (st := foldl (placeItem b) (startPlacement cached) incoming) in *.
  exists (pl_leading st), ((pl_slots st).*1), (pl_trailing st). split_and!.
  - by rewrite reconcile_eq.
  - rewrite length_fmap. apply (pi_length _ _ _ _ H).
  - intros j c Hj. destruct (pi_slot _ _ _ _ H _ _ Hj) as (y & m & Hy & Hm).
    exists y. rewrite list_lookup_fmap, Hy. split; [done|]. destruct m; eauto.
  - done.
  - apply (pi_new _ _ _ _ H).
Qed.

(** Two user messages without a [clientId] field are one boundary, whatever
    they say: an absent field passes the test for a non-empty client id. *)
Lemma clientless_users_merge left right :
  isType "userMessage" left = true -> isType "userMessage" right = true ->
  field "clientId" left = None -> field "clientId" right = None ->
  sameLogicalBoundary left right = true.
Proof.
  unfold sameLogicalBoundary, isType. rewrite !isStr_spec. intros Hl Hr Hcl Hcr.
  rewrite Hl, Hr. unfold sameField. rewrite Hcl, Hcr. vm_compute. done.
Qed.

(** ** Witnesses *)

Definition demo_user (id : string) : json :=
  JObj [("type", JStr (js "userMessage")); ("id", JStr (js id)); ("clientId", JNull);
        ("content", JArr [JObj [("type", JStr (js "text")); ("text", JStr (js "Hello"))]])].
Definition demo_agent (id text : string) : json :=
  JObj [("type", JStr (js "agentMessage")); ("id", JStr (js id)); ("text", JStr (js text))].

Definition demo_cached : list json := [demo_user "live-user"; demo_agent "live-agent" "Hi there"].
Definition demo_incoming : list json := [demo_user "history-user"; demo_agent "live-agent" "Hi"].

Lemma reconcile_unique_ids_witness :
  NoDup (ids (reconcileItems demo_cached demo_incoming true)).
Proof. apply (reconcile_unique_ids true demo_cached demo_incoming); vm_compute;
  repeat constructor; set_solver. Defined.

Lemma reconcile_idempotent_witness :
  reconcileItems (reconcileItems demo_cached demo_incoming true) demo_incoming true
  = [demo_user "history-user"; demo_agent "live-agent" "Hi there"].
Proof.
  transitivity (reconcileItems demo_cached demo_incoming true).
  - apply (reconcile_idempotent true demo_cached demo_incoming);
      apply (bool_decide_unpack _); vm_compute; exact I.
  - vm_compute. reflexivity.
Defined.
