(* ===== verification/Readers.v ===== *)
(** * Readers of the companion's projections

    Models the validating readers of packages/sync-client/src:
    activity-metrics.ts, command-output.ts, live-activity.ts,
    question-history.ts and thread-metadata.ts.  A reader takes an untrusted
    value and returns a typed one, or [None] where the source returns [null]. *)
From S2P Require Import Prelude JsMap Json ThreadItems.

(** [typeof v === "number" && Number.isFinite(v) && v >= 0]: every number of a
    JSON value is finite. *)
Definition asNonNegative (v : json) : option jnum :=
  match v with
  | JNum (NInt z) => if 0 <=? z then Some (NInt z) else None
  | JNum (NDec t) => if startsWith (js "-") (js t) then None else Some (NDec t)
  | _ => None
  end.

Definition jint (z : Z) : json := JNum (NInt z).

(** ** Activity metrics *)

Module Activity.

Record ActivityFootprint :=
  { bytes : Z; estimatedTokens : Z; estimatedInputCostUsd : option jnum }.

Record ActivitySummary :=
  { s_count : Z; s_kinds : list jstr; outputFootprint : ActivityFootprint }.

Record ActivityRange :=
  { firstItemId : jstr; lastItemId : jstr; range_summary : ActivitySummary }.

Record ActivityMetrics :=
  { total : ActivitySummary; ranges : list ActivityRange;
    commands : list (string * ActivityFootprint) }.

Definition readCost (v : option json) : option (option jnum) :=
  match v with
  | Some JNull => Some None
  | Some n => Some <$> asNonNegative n
  | None => None
  end.

Definition parseActivityFootprint (value : option json) : option ActivityFootprint :=
  r ← asObject value;
  if negb (isInt (oget "version" r) 1) || negb (isStr (oget "basis" r) "approxBytesPerToken")
  then None
  else
    bytes ← asSafeNat (oget "bytes" r);
    estimatedTokens ← asSafeNat (oget "estimatedTokens" r);
    cost ← readCost (oget "estimatedInputCostUsd" r);
    Some {| bytes := bytes; estimatedTokens := estimatedTokens; estimatedInputCostUsd := cost |}.

Definition summary (value : option json) : option ActivitySummary :=
  r ← asObject value;
  count ← asSafeNat (oget "count" r);
  rawKinds ← asArray (oget "kinds" r);
  kinds ← mapM (fun kind => asString (Some kind)) rawKinds;
  outputFootprint ← parseActivityFootprint (oget "outputFootprint" r);
  Some {| s_count := count; s_kinds := kinds; outputFootprint := outputFootprint |}.

Definition readRange (entry : json) : option ActivityRange :=
  range ← asObject (Some entry);
  first ← asString (oget "firstItemId" range);
  last ← asString (oget "lastItemId" range);
  stats ← summary (oget "summary" range);
  Some {| firstItemId := first; lastItemId := last; range_summary := stats |}.

Definition readCommand (entry : string * json) : option (string * ActivityFootprint) :=
  (fun footprint => (entry.1, footprint)) <$> parseActivityFootprint (Some entry.2).

Definition parseActivityMetrics (value : option json) : option ActivityMetrics :=
  r ← asObject value;
  if negb (isInt (oget "version" r) 1) then None
  else
    rawRanges ← asArray (oget "ranges" r);
    total ← summary (oget "total" r);
    rawCommands ← asObject (oget "commands" r);
    ranges ← mapM readRange rawRanges;
    commands ← mapM readCommand rawCommands;
    Some {| total := total; ranges := ranges; commands := commands |}.

(** Reads one immutable turn projection; the [WeakMap] in front of it only
    memoises the answer for the same object. *)
Definition projectedActivityMetrics (turn : json) : option ActivityMetrics :=
  metadata ← asObject (field "codewide" turn);
  raw ← asObject (oget "activityMetrics" metadata);
  parseActivityMetrics (Some (JObj raw)).

Definition activityRange (metrics : option ActivityMetrics) (first last : option json)
    : option ActivitySummary :=
  first ← asString first;
  last ← asString last;
  metrics ← metrics;
  range ← head (filter (fun range => firstItemId range = first /\ lastItemId range = last)
                  (ranges metrics));
  Some (range_summary range).

Definition projectedItemActivityRange (first : jobj) (lastId : option json)
    : option ActivitySummary :=
  lastId ← asString lastId;
  entries ← asArray (oget "codewideActivityRanges" first);
  i ← findIndex (fun entry =>
        match entry with
        | JObj range =>
            bool_decide (oget "firstItemId" range = oget "id" first)
            && bool_decide (oget "lastItemId" range = Some (JStr lastId))
        | _ => false
        end) entries;
  entry ← entries !! i;
  summary (field "summary" entry).

(** The value the reducer stores: the typed metrics are an ordinary object. *)
Definition costJson (c : option jnum) : json :=
  match c with None => JNull | Some n => JNum n end.

Definition footprintJson (f : ActivityFootprint) : json :=
  JObj [("version", jint 1); ("basis", JStr (js "approxBytesPerToken"));
        ("bytes", jint (bytes f)); ("estimatedTokens", jint (estimatedTokens f));
        ("estimatedInputCostUsd", costJson (estimatedInputCostUsd f))].

Definition summaryJson (s : ActivitySummary) : json :=
  JObj [("count", jint (s_count s)); ("kinds", JArr (JStr <$> s_kinds s));
        ("outputFootprint", footprintJson (outputFootprint s))].

Definition rangeJson (r : ActivityRange) : json :=
  JObj [("firstItemId", JStr (firstItemId r)); ("lastItemId", JStr (lastItemId r));
        ("summary", summaryJson (range_summary r))].

Definition metricsJson (m : ActivityMetrics) : json :=
  JObj [("version", jint 1); ("total", summaryJson (total m));
        ("ranges", JArr (rangeJson <$> ranges m));
        ("commands", JObj (prod_map id footprintJson <$> commands m))].

(** What the readers guarantee of the figures they accept. *)
Definition safe_count (z : Z) : Prop := 0 <= z <= max_safe_integer.

Definition valid_cost (c : option jnum) : Prop :=
  match c with None => True | Some n => asNonNegative (JNum n) = Some n end.

Definition valid_footprint (f : ActivityFootprint) : Prop :=
  safe_count (bytes f) /\ safe_count (estimatedTokens f) /\ valid_cost (estimatedInputCostUsd f).

Definition valid_summary (s : ActivitySummary) : Prop :=
  safe_count (s_count s) /\ valid_footprint (outputFootprint s).

Definition valid_metrics (m : ActivityMetrics) : Prop :=
  valid_summary (total m) /\ Forall (fun r => valid_summary (range_summary r)) (ranges m) /\
  Forall (fun c => valid_footprint c.2) (commands m).

Ltac read_inv :=
  repeat match goal with
  | H : mbind _ _ = Some _ |- _ => apply bind_Some in H as (? & ? & ?)
  | H : _ <$> _ = Some _ |- _ => apply fmap_Some in H as (? & ? & ?)
  | H : (if ?b then None else _) = Some _ |- _ => destruct b eqn:?; [discriminate H|]
  | H : asSafeNat _ = Some _ |- _ => apply asSafeNat_Some in H as [? ?]
  end; simplify_eq.

Lemma asNonNegative_valid v n : asNonNegative v = Some n -> asNonNegative (JNum n) = Some n.
Proof. destruct v as [| |[z|t]| | |]; simpl; try done; case_match eqn:E; intros [= <-]; simpl; by rewrite E. Qed.

Lemma readCost_valid v c : readCost v = Some c -> valid_cost c.
Proof.
  destruct v as [v|]; [|done]. unfold readCost. intros H.
  destruct v as [|?|?|?|?|?]; try (apply fmap_Some in H as (n1 & Hn1 & ->); by eapply asNonNegative_valid).
  simplify_eq. exact I.
Qed.

Lemma readCost_json c : valid_cost c -> readCost (Some (costJson c)) = Some c.
Proof. destruct c as [n|]; [|done]. simpl. by intros ->. Qed.

Lemma parseActivityFootprint_valid v f : parseActivityFootprint v = Some f -> valid_footprint f.
Proof.
  unfold parseActivityFootprint. intros H. read_inv. split_and!; simpl; try done.
  by eapply readCost_valid.
Qed.

Lemma asSafeNat_jint z : safe_count z -> asSafeNat (Some (jint z)) = Some z.
Proof. intros H. by apply asSafeNat_Some. Qed.

Lemma parseActivityFootprint_json f :
  valid_footprint f -> parseActivityFootprint (Some (footprintJson f)) = Some f.
Proof.
  intros (Hb & Ht & Hc). unfold parseActivityFootprint, footprintJson. simpl asObject.
  cbn [mbind option_bind]. unfold oget. simpl mget.
  rewrite (asSafeNat_jint _ Hb), (asSafeNat_jint _ Ht), (readCost_json _ Hc).
  by destruct f.
Qed.

(** [mapM] inverts an encoder on the values its results satisfy. *)
Lemma mapM_roundtrip {A B} (f : A -> option B) (g : B -> A) (P : B -> Prop) l :
  (forall x, P x -> f (g x) = Some x) -> Forall P l -> mapM f (g <$> l) = Some l.
Proof.
  intros Hf H. induction H as [|x l Hx _ IH]; [done|]. rewrite fmap_cons. cbn [mapM].
  rewrite (Hf _ Hx). cbn [mbind option_bind]. by rewrite IH.
Qed.

Lemma mapM_Forall {A B} (f : A -> option B) (P : B -> Prop) l k :
  (forall x y, f x = Some y -> P y) -> mapM f l = Some k -> Forall P k.
Proof.
  intros Hf Hk%mapM_Some. induction Hk as [|x y l k Hy _ IH]; constructor; [by eapply Hf|done].
Qed.

Lemma summary_valid v s : summary v = Some s -> valid_summary s.
Proof.
  unfold summary. intros H. read_inv. split; [done|]. by eapply parseActivityFootprint_valid.
Qed.

Lemma summary_json s : valid_summary s -> summary (Some (summaryJson s)) = Some s.
Proof.
  intros [Hc Hf]. unfold summary, summaryJson. simpl asObject. cbn [mbind option_bind].
  unfold oget. simpl mget. rewrite (asSafeNat_jint _ Hc). cbn [asArray mbind option_bind].
  rewrite (mapM_roundtrip _ JStr (fun _ => True)) by (try done; by apply Forall_true).
  cbn [mbind option_bind]. rewrite (parseActivityFootprint_json _ Hf). by destruct s.
Qed.

Lemma readRange_json r :
  valid_summary (range_summary r) -> readRange (rangeJson r) = Some r.
Proof.
  intros H. unfold readRange, rangeJson. simpl. rewrite (summary_json _ H). by destruct r.
Qed.

Lemma readCommand_json c :
  valid_footprint c.2 -> readCommand (prod_map id footprintJson c) = Some c.
Proof.
  intros H. unfold readCommand. simpl. rewrite (parseActivityFootprint_json _ H).
  by destruct c.
Qed.

Lemma parseActivityMetrics_valid v m : parseActivityMetrics v = Some m -> valid_metrics m.
Proof.
  unfold parseActivityMetrics. intros H. read_inv. split_and!; simpl.
  - by eapply summary_valid.
  - eapply mapM_Forall; [|done]. intros e r Hr. unfold readRange in Hr. read_inv.
    by eapply summary_valid.
  - eapply mapM_Forall; [|done]. intros e c Hc. unfold readCommand in Hc. read_inv.
    by eapply parseActivityFootprint_valid.
Qed.

Lemma parseActivityMetrics_json m :
  valid_metrics m -> parseActivityMetrics (Some (metricsJson m)) = Some m.
Proof.
  intros (Ht & Hr & Hc). unfold parseActivityMetrics, metricsJson. simpl asObject.
  cbn [mbind option_bind]. unfold oget. simpl mget. cbn [asArray mbind option_bind negb].
  rewrite (summary_json _ Ht). cbn [asObject mbind option_bind].
  rewrite (mapM_roundtrip _ rangeJson _ _ readRange_json Hr). cbn [mbind option_bind].
  rewrite (mapM_roundtrip _ _ _ _ readCommand_json Hc). by destruct m.
Qed.

(** The reader of activity metrics accepts only safe non-negative counts
    and finite non-negative costs, and what it accepts is stable: stored on a
    turn as the reducer stores it, it is read back as the same metrics. *)
Theorem activity_metrics_roundtrip v m turn o :
  parseActivityMetrics v = Some m ->
  field "codewide" turn = Some (JObj o) ->
  valid_metrics m /\
  projectedActivityMetrics
    (setField "codewide" (JObj (oset "activityMetrics" (metricsJson m) o)) turn) = Some m.
Proof.
  intros Hv%parseActivityMetrics_valid Hf. split; [done|].
  unfold projectedActivityMetrics.
  rewrite field_setField_eq by by eapply field_is_obj. cbn [asObject mbind option_bind].
  unfold oget, oset. rewrite mget_mset_eq. unfold metricsJson at 1.
  cbn [asObject mbind option_bind]. by apply parseActivityMetrics_json.
Qed.

Definition demo_footprint : json :=
  JObj [("version", jint 1); ("basis", JStr (js "approxBytesPerToken")); ("bytes", jint 120);
        ("estimatedTokens", jint 30); ("estimatedInputCostUsd", JNum (NDec "0.25"))].
Definition demo_summary : json :=
  JObj [("count", jint 2); ("kinds", JArr [JStr (js "command")]);
        ("outputFootprint", demo_footprint)].
Definition demo_metrics : json :=
  JObj [("version", jint 1); ("total", demo_summary); ("ranges", JArr []);
        ("commands", JObj [("item-1", demo_footprint)])].

Lemma activity_metrics_roundtrip_witness :
  exists m, parseActivityMetrics (Some demo_metrics) = Some m /\ valid_metrics m.
Proof.
  destruct (parseActivityMetrics (Some demo_metrics)) as [m|] eqn:E.
  - exists m. split; [reflexivity|].
    exact (proj1 (activity_metrics_roundtrip _ m (JObj [("codewide", JObj [])]) [] E eq_refl)).
  - exfalso. vm_compute in E. discriminate E.
Defined.

End Activity.

(** ** Command output references *)

Module CommandOutput.
Import Activity.

Record CommandOutputReference := { ref_id : jstr; byteLength : Z; contentType : jstr }.

(** The pattern of 64 lower-case hexadecimal digits. *)
Definition isHexLower (c : N) : bool :=
  ((48 <=? c)%N && (c <=? 57)%N) || ((97 <=? c)%N && (c <=? 102)%N).
Definition isDigest (s : jstr) : bool :=
  bool_decide (length s = 64%nat) && forallb isHexLower s.

Definition reference (value : option json) : option CommandOutputReference :=
  data ← asObject value;
  id ← asString (oget "id" data);
  if negb (isDigest id) then None
  else
    byteLength ← asSafeNat (oget "byteLength" data);
    contentType ← asString (oget "contentType" data);
    if negb (isStr (oget "encoding" data) "utf-8") then None
    else Some {| ref_id := id; byteLength := byteLength; contentType := contentType |}.

Definition commandOutputField (value : option json) (name : string)
    : option CommandOutputReference :=
  o ← asObject value;
  metadata ← asObject (oget "codewideContent" o);
  if isInt (oget "version" metadata) 1 then
    fields ← asObject (oget "fields" metadata);
    reference (oget name fields)
  else None.

Definition commandOutputReferences (value : option json) : list CommandOutputReference :=
  let base := commandOutputField value "/aggregatedOutput" in
  let deltas := o ← asObject value; asArray (oget "codewideOutputDeltas" o) in
  match base with Some r => [r] | None => [] end
  ++ omap (fun delta => reference (Some delta)) (default [] deltas).

Definition referenceJson (r : CommandOutputReference) : json :=
  JObj [("id", JStr (ref_id r)); ("byteLength", jint (byteLength r));
        ("contentType", JStr (contentType r)); ("encoding", JStr (js "utf-8"))].

(** The item after the call, or [None] where the source returns [false]. *)
Definition appendCommandOutputReference (item : option json) (params : jobj) : option json :=
  target ← asObject item;
  delta ← commandOutputField (Some (JObj params)) "/delta";
  Some (JObj (oset "codewideOutputDeltas"
                (JArr (default [] (asArray (oget "codewideOutputDeltas" target))
                         ++ [referenceJson delta]))
                target)).

Lemma reference_json r v : reference v = Some r -> reference (Some (referenceJson r)) = Some r.
Proof.
  unfold reference at 1. intros H. read_inv.
  unfold reference, referenceJson. simpl asObject. cbn [mbind option_bind].
  unfold oget. simpl mget. cbn [asString mbind option_bind].
  match goal with H : negb (isDigest _) = _ |- _ => rewrite H end.
  rewrite asSafeNat_jint by done. done.
Qed.

Lemma commandOutputField_json v name r :
  commandOutputField v name = Some r -> reference (Some (referenceJson r)) = Some r.
Proof.
  unfold commandOutputField. intros (o & _ & H)%bind_Some.
  apply bind_Some in H as (metadata & _ & H). case_match; [|done].
  apply bind_Some in H as (fields & _ & H). by eapply reference_json.
Qed.

Lemma commandOutputReferences_eq o :
  commandOutputReferences (Some (JObj o)) =
  match commandOutputField (Some (JObj o)) "/aggregatedOutput" with Some r => [r] | None => [] end
  ++ omap (fun delta => reference (Some delta))
       (default [] (asArray (oget "codewideOutputDeltas" o))).
Proof. done. Qed.

(** Streaming output by reference appends exactly one segment: the
    references of the item afterwards are those before, in order, followed by
    the referenced delta, and no other field of the item changes. *)
Theorem command_output_append item params item' :
  appendCommandOutputReference (Some item) params = Some item' ->
  (exists delta, commandOutputField (Some (JObj params)) "/delta" = Some delta /\
     commandOutputReferences (Some item') = commandOutputReferences (Some item) ++ [delta]) /\
  (forall k, k <> "codewideOutputDeltas" -> field k item' = field k item).
Proof.
  unfold appendCommandOutputReference. intros (o & Ho & H)%bind_Some.
  apply bind_Some in H as (delta & Hd & [= <-]). apply asObject_Some in Ho as [= ->].
  split.
  - exists delta. split; [done|]. rewrite !commandOutputReferences_eq.
    rewrite <- (assoc (++)). f_equal.
    + unfold commandOutputField. cbn [asObject mbind option_bind]. unfold oset, oget.
      by rewrite mget_mset_ne.
    + unfold oget, oset. rewrite mget_mset_eq. cbn [asArray default]. unfold id.
      rewrite omap_app. simpl. by rewrite (commandOutputField_json _ _ _ Hd).
  - intros k Hk. simpl. unfold oget, oset. by rewrite mget_mset_ne.
Qed.

Definition demo_digest : string :=
  "0123456789abcdef0123456789abcdef0123456789abcdef0123456789abcdef".
Definition demo_reference : json :=
  JObj [("id", JStr (js demo_digest)); ("byteLength", jint 5);
        ("contentType", JStr (js "text/plain")); ("encoding", JStr (js "utf-8"))].
Definition demo_output_params : jobj :=
  [("codewideContent", JObj [("version", jint 1);
     ("fields", JObj [("/delta", demo_reference)])])].
Definition demo_command : json := JObj [("id", JStr (js "item-1"))].

Lemma command_output_append_witness :
  exists item', appendCommandOutputReference (Some demo_command) demo_output_params = Some item' /\
    length (commandOutputReferences (Some item')) = 1%nat.
Proof.
  destruct (appendCommandOutputReference (Some demo_command) demo_output_params) as [i|] eqn:E.
  - exists i. split; [reflexivity|].
    destruct (proj1 (command_output_append demo_command demo_output_params i E)) as (d & _ & ->).
    vm_compute. reflexivity.
  - exfalso. vm_compute in E. discriminate E.
Defined.

End CommandOutput.

(** ** Live activity *)

Module LiveActivity.
Import Activity.

Inductive LiveActivity :=
| ActReasoning (title : jstr)
| ActPlanStep (step : jstr)
| ActCommand (command : jstr)
| ActFileEdit (path : jstr) (more : Z)
| ActTool (server : option jstr) (tool : jstr)
| ActWebSearch
| ActCompacting.

Inductive LiveActivityChange :=
| SetActivity (activity : LiveActivity)
| Cleared.

(** [typeof value === "string" && value.trim() !== ""]. *)
Definition label (value : option json) : option jstr :=
  s ← asString value; if bool_decide (trim s = []) then None else Some s.

Definition readServer (value : option json) : option (option jstr) :=
  match value with
  | Some JNull => Some None
  | _ => Some <$> label value
  end.

Definition parseLiveActivity (value : option json) : option LiveActivity :=
  r ← asObject value;
  kind ← asString (oget "kind" r);
  if bool_decide (kind = js "reasoning") then ActReasoning <$> label (oget "title" r)
  else if bool_decide (kind = js "planStep") then ActPlanStep <$> label (oget "step" r)
  else if bool_decide (kind = js "command") then ActCommand <$> label (oget "command" r)
  else if bool_decide (kind = js "fileEdit") then
    path ← label (oget "path" r);
    more ← asSafeNat (oget "more" r);
    Some (ActFileEdit path more)
  else if bool_decide (kind = js "tool") then
    tool ← label (oget "tool" r);
    server ← readServer (oget "server" r);
    Some (ActTool server tool)
  else if bool_decide (kind = js "webSearch") then Some ActWebSearch
  else if bool_decide (kind = js "compacting") then Some ActCompacting
  else None.

(** [operation] is the patch's operation object. *)
Definition liveActivityChangeFromPatch (operation : jobj) : option LiveActivityChange :=
  if mhas "liveActivity" operation then
    Some (match parseLiveActivity (oget "liveActivity" operation) with
          | None => Cleared
          | Some activity => SetActivity activity
          end)
  else None.

(** The wire form of an activity. *)
Definition activityJson (a : LiveActivity) : json :=
  match a with
  | ActReasoning t => JObj [("kind", JStr (js "reasoning")); ("title", JStr t)]
  | ActPlanStep t => JObj [("kind", JStr (js "planStep")); ("step", JStr t)]
  | ActCommand t => JObj [("kind", JStr (js "command")); ("command", JStr t)]
  | ActFileEdit p n => JObj [("kind", JStr (js "fileEdit")); ("path", JStr p); ("more", jint n)]
  | ActTool s t =>
      JObj [("kind", JStr (js "tool"));
            ("server", match s with None => JNull | Some s => JStr s end); ("tool", JStr t)]
  | ActWebSearch => JObj [("kind", JStr (js "webSearch"))]
  | ActCompacting => JObj [("kind", JStr (js "compacting"))]
  end.

Definition shown (s : jstr) : Prop := trim s <> [].

Definition presentable (a : LiveActivity) : Prop :=
  match a with
  | ActReasoning t | ActPlanStep t | ActCommand t => shown t
  | ActFileEdit p n => shown p /\ safe_count n
  | ActTool s t => shown t /\ from_option shown True s
  | ActWebSearch | ActCompacting => True
  end.

Lemma label_Some v s : label v = Some s <-> v = Some (JStr s) /\ shown s.
Proof.
  unfold label, shown. rewrite bind_Some. split.
  - intros (t & Ht%asString_Some & H). case_bool_decide; simplify_eq. auto.
  - intros [-> Hs]. exists s. split; [done|]. by rewrite bool_decide_false.
Qed.

Lemma label_JStr s : shown s -> label (Some (JStr s)) = Some s.
Proof. intros. by apply label_Some. Qed.

Lemma readServer_Some v s :
  readServer v = Some s ->
  v = Some (match s with None => JNull | Some s => JStr s end) /\ from_option shown True s.
Proof.
  unfold readServer. intros H.
  destruct v as [[]|]; try (apply fmap_Some in H as (t & [Ht ?]%label_Some & ->));
    simplify_eq; done.
Qed.

Lemma parseLiveActivity_presentable v a : parseLiveActivity v = Some a -> presentable a.
Proof.
  unfold parseLiveActivity. intros H. apply bind_Some in H as (r & _ & H).
  apply bind_Some in H as (kind & _ & H).
  repeat case_bool_decide; read_inv; simpl;
    repeat match goal with
    | H : label _ = Some _ |- _ => apply label_Some in H as [_ ?]
    | H : readServer _ = Some _ |- _ => apply readServer_Some in H as [_ ?]
    end; done.
Qed.

Lemma parseLiveActivity_json a :
  presentable a -> parseLiveActivity (Some (activityJson a)) = Some a.
Proof.
  destruct a as [t|t|t|p n|s t| |]; simpl; intros H; unfold parseLiveActivity;
    cbn [asObject mbind option_bind]; unfold oget; simpl mget;
    cbn [asString mbind option_bind];
    repeat (rewrite (bool_decide_true (js _ = js _)) by done
            || rewrite (bool_decide_false (js _ = js _)) by done).
  - by rewrite label_JStr.
  - by rewrite label_JStr.
  - by rewrite label_JStr.
  - destruct H as [Hp Hn]. rewrite label_JStr by done. cbn [mbind option_bind].
    by rewrite asSafeNat_jint.
  - destruct H as [Ht Hs]. rewrite label_JStr by done. cbn [mbind option_bind].
    destruct s as [s|]; [|done]. unfold readServer. by rewrite label_JStr.
  - done.
  - done.
Qed.

(** A patch changes the live label exactly when it carries the field; a
    published activity is shown as sent (the reader inverts its wire form),
    every other value of the field clears the label, and a shown label is
    never blank. *)
Theorem live_activity_change operation :
  (liveActivityChangeFromPatch operation = None <-> oget "liveActivity" operation = None) /\
  (forall a, presentable a ->
     liveActivityChangeFromPatch (oset "liveActivity" (activityJson a) operation)
     = Some (SetActivity a)) /\
  (forall a, liveActivityChangeFromPatch operation = Some (SetActivity a) -> presentable a).
Proof.
  unfold liveActivityChangeFromPatch, mhas, oset, oget. split_and!.
  - destruct (mget _ operation) as [v|];
      [rewrite bool_decide_true by by eexists|rewrite bool_decide_false by by intros [? [=]]];
      done.
  - intros a Ha. rewrite mget_mset_eq, bool_decide_true by by eexists.
    by rewrite parseLiveActivity_json.
  - intros a. case_bool_decide; [|done]. destruct (parseLiveActivity _) eqn:E; [|done].
    intros [= <-]. by eapply parseLiveActivity_presentable.
Qed.

Lemma live_activity_change_witness :
  liveActivityChangeFromPatch
    (oset "liveActivity" (activityJson (ActCommand (js "ls"))) [])
  = Some (SetActivity (ActCommand (js "ls"))).
Proof.
  apply (proj1 (proj2 (live_activity_change []))). vm_compute. discriminate.
Defined.

End LiveActivity.

(** ** Question history *)

Module QuestionHistory.
Import Activity.

Record HistoricalOption := { o_label : jstr; o_description : jstr }.

Record HistoricalQuestion :=
  { q_id : jstr; q_title : jstr; q_secret : bool; q_options : list HistoricalOption }.

Inductive AnswerValue :=
| SecretAnswer
| TextAnswer (values : list jstr).

Record HistoricalAnswer := { questionId : jstr; answer : AnswerValue }.

Inductive Outcome :=
| Unconfirmed
| Answered (answers : list HistoricalAnswer).

Record QuestionHistory :=
  { h_itemId : jstr; h_questions : list HistoricalQuestion; h_outcome : Outcome }.

Definition readOption (value : json) : option HistoricalOption :=
  option ← asObject (Some value);
  label ← asString (oget "label" option);
  description ← asString (oget "description" option);
  Some {| o_label := label; o_description := description |}.

Definition readQuestion (value : json) : option HistoricalQuestion :=
  row ← asObject (Some value);
  id ← asString (oget "id" row);
  if bool_decide (id = []) then None
  else
    title ← asString (oget "title" row);
    if bool_decide (trim title = []) then None
    else
      secret ← asBool (oget "secret" row);
      rawOptions ← asArray (oget "options" row);
      options ← mapM readOption rawOptions;
      Some {| q_id := id; q_title := title; q_secret := secret; q_options := options |}.

Definition readAnswer (value : option json) (secret : bool) : option AnswerValue :=
  let kind := row ← asObject value; oget "kind" row in
  if secret && (isStr kind "secret" || isStr kind "text") then Some SecretAnswer
  else if negb (isStr kind "text") then None
  else
    row ← asObject value;
    rawValues ← asArray (oget "values" row);
    values ← mapM (fun value => asString (Some value)) rawValues;
    if existsb (fun value => bool_decide (trim value <> [])) values
    then Some (TextAnswer values) else None.

(** One round of the loop over [row.questions]. *)
Definition addQuestion (questions : option (list HistoricalQuestion)) (value : json)
    : option (list HistoricalQuestion) :=
  questions ← questions;
  question ← readQuestion value;
  if existsb (fun entry => bool_decide (q_id entry = q_id question)) questions then None
  else Some (questions ++ [question]).

(** One round of the loop over [row.answers]. *)
Definition addAnswer (questions : list HistoricalQuestion)
    (answers : option (list HistoricalAnswer)) (value : json) : option (list HistoricalAnswer) :=
  answers ← answers;
  i ← findIndex (fun question =>
        bool_decide (Some (JStr (q_id question)) = field "questionId" value)) questions;
  question ← questions !! i;
  if existsb (fun answer => bool_decide (questionId answer = q_id question)) answers then None
  else
    answer ← readAnswer (field "answer" value) (q_secret question);
    Some (answers ++ [{| questionId := q_id question; answer := answer |}]).

Definition readOutcome (value : option json) (questions : list HistoricalQuestion)
    : option Outcome :=
  row ← asObject value;
  if isStr (oget "status" row) "unconfirmed" then Some Unconfirmed
  else if negb (isStr (oget "status" row) "answered") then None
  else
    rawAnswers ← asArray (oget "answers" row);
    if bool_decide (rawAnswers = []) then None
    else Answered <$> foldl (addAnswer questions) (Some []) rawAnswers.

Definition readHistory (value : json) : option QuestionHistory :=
  row ← asObject (Some value);
  itemId ← asString (oget "itemId" row);
  rawQuestions ← asArray (oget "questions" row);
  if bool_decide (itemId = []) || bool_decide (rawQuestions = []) then None
  else
    questions ← foldl addQuestion (Some []) rawQuestions;
    outcome ← readOutcome (oget "outcome" row) questions;
    Some {| h_itemId := itemId; h_questions := questions; h_outcome := outcome |}.

Definition addHistory (history : list QuestionHistory) (value : json) : list QuestionHistory :=
  match readHistory value with
  | Some question =>
      if existsb (fun entry => bool_decide (h_itemId entry = h_itemId question)) history
      then history else history ++ [question]
  | None => history
  end.

Definition projectedQuestionHistory (turn : json) : list QuestionHistory :=
  let questions := metadata ← asObject (field "codewide" turn); asArray (oget "questions" metadata) in
  foldl addHistory [] (default [] questions).

(** A text answer says something; a secret question has no text answer. *)
Definition answer_ok (questions : list HistoricalQuestion) (a : HistoricalAnswer) : Prop :=
  exists q, q ∈ questions /\ q_id q = questionId a /\
    match answer a with
    | SecretAnswer => q_secret q = true
    | TextAnswer values => q_secret q = false /\ exists v, v ∈ values /\ trim v <> []
    end.

Definition outcome_ok (questions : list HistoricalQuestion) (o : Outcome) : Prop :=
  match o with
  | Unconfirmed => True
  | Answered answers =>
      answers <> [] /\ NoDup (questionId <$> answers) /\ Forall (answer_ok questions) answers
  end.

Definition history_ok (h : QuestionHistory) : Prop :=
  h_itemId h <> [] /\ h_questions h <> [] /\ NoDup (q_id <$> h_questions h) /\
  outcome_ok (h_questions h) (h_outcome h).

(** Folding an accumulator that may fail. *)
Lemma foldl_None {A B} (f : option A -> B -> option A) l :
  (forall x, f None x = None) -> foldl f None l = None.
Proof. intros Hf. induction l as [|x l IH]; simpl; [done|]. by rewrite Hf. Qed.

Lemma foldl_option_inv {A B} (f : option A -> B -> option A) (P : A -> Prop) l a b :
  (forall x, f None x = None) ->
  (forall a x b, P a -> f (Some a) x = Some b -> P b) ->
  P a -> foldl f (Some a) l = Some b -> P b.
Proof.
  intros Hn Hf. revert a. induction l as [|x l IH]; intros a Ha; simpl; [congruence|].
  destruct (f (Some a) x) as [c|] eqn:E; [eauto|]. by rewrite foldl_None.
Qed.

(** Appending an element with a new key keeps the keys distinct. *)
Lemma NoDup_fmap_snoc {A K} `{EqDecision K} (f : A -> K) l x :
  NoDup (f <$> l) -> existsb (fun y => bool_decide (f y = f x)) l = false ->
  NoDup (f <$> (l ++ [x])).
Proof.
  intros Hnd Hex. rewrite fmap_app. apply NoDup_app.
  split_and!; [done| |apply NoDup_singleton].
  intros k (y & -> & Hy)%list_elem_of_fmap. simpl. rewrite list_elem_of_singleton. intros Hk.
  apply not_true_iff_false in Hex. apply Hex, existsb_elem. exists y.
  by rewrite bool_decide_true.
Qed.

Lemma readAnswer_ok v secret a :
  readAnswer v secret = Some a ->
  match a with
  | SecretAnswer => secret = true
  | TextAnswer values => secret = false /\ exists w, w ∈ values /\ trim w <> []
  end.
Proof.
  unfold readAnswer. destruct secret; simpl.
  - case_match; [by intros [= <-]|]. bool_prop.
    match goal with H : isStr _ "text" = false |- _ => rewrite H end. done.
  - case_match; [done|]. intros Hv. read_inv. case_match eqn:E; simplify_eq.
    split; [done|]. apply existsb_elem in E as (w & Hw & Ht). bool_prop. eauto.
Qed.

Lemma addAnswer_ok questions answers v answers' :
  NoDup (questionId <$> answers) /\ Forall (answer_ok questions) answers ->
  addAnswer questions (Some answers) v = Some answers' ->
  NoDup (questionId <$> answers') /\ Forall (answer_ok questions) answers'.
Proof.
  intros [Hnd Hok] H. unfold addAnswer in H. cbn [mbind option_bind] in H.
  apply bind_Some in H as (i & Hi & H). apply bind_Some in H as (q & Hq & H).
  destruct (existsb _ _) eqn:E; [done|]. apply bind_Some in H as (a & Ha & [= <-]).
  split; [by apply NoDup_fmap_snoc|]. apply Forall_app. split; [done|].
  apply Forall_singleton. exists q. split_and!; [by eapply list_elem_of_lookup_2|done|].
  apply readAnswer_ok in Ha. by destruct a.
Qed.

Lemma addAnswer_cons questions l answers :
  l <> [] -> foldl (addAnswer questions) (Some []) l = Some answers -> answers <> [].
Proof.
  intros Hl H. assert (length answers = length l) as Hlen; [|by destruct l, answers].
  cut (forall a, foldl (addAnswer questions) (Some a) l = Some answers ->
         length answers = (length a + length l)%nat); [intros Hc; by apply Hc in H|].
  clear. induction l as [|x l IH]; intros a; cbn [foldl]; [intros [= ->]; simpl; lia|].
  destruct (addAnswer questions (Some a) x) as [c|] eqn:E;
    [|by rewrite foldl_None].
  intros ->%IH. unfold addAnswer in E. cbn [mbind option_bind] in E.
  apply bind_Some in E as (i & Hi & E). apply bind_Some in E as (q & Hq & E).
  destruct (existsb _ _) in E; [done|]. apply bind_Some in E as (b & Hb & [= <-]).
  rewrite length_app. simpl. lia.
Qed.

Lemma readHistory_ok v h : readHistory v = Some h -> history_ok h.
Proof.
  unfold readHistory. intros H. apply bind_Some in H as (row & _ & H).
  apply bind_Some in H as (itemId & _ & H). apply bind_Some in H as (raw & _ & H).
  destruct (_ || _) eqn:E; [done|]. bool_prop.
  apply bind_Some in H as (qs & Hqs & H). apply bind_Some in H as (o & Ho & [= <-]).
  unfold history_ok. simpl.
  assert (NoDup (q_id <$> qs) /\ (qs <> [] \/ raw = [])) as [Hnd Hne].
  { revert Hqs. destruct raw as [|x raw]; [done|]. cbn [foldl]. intros Hqs.
    destruct (addQuestion (Some []) x) as [qs0|] eqn:E1; [|by rewrite foldl_None in Hqs].
    apply (foldl_option_inv addQuestion (fun l => NoDup (q_id <$> l) /\ (l <> [] \/ x :: raw = [])))
      in Hqs; [done|done| |].
    - intros l y k [Hl _] Hk. unfold addQuestion in Hk. cbn [mbind option_bind] in Hk.
      apply bind_Some in Hk as (q & Hq & Hk). destruct (existsb _ _) eqn:Ee; [done|].
      simplify_eq. split; [by apply NoDup_fmap_snoc|]. left. by destruct l.
    - unfold addQuestion in E1. cbn [mbind option_bind] in E1.
      apply bind_Some in E1 as (q & Hq & [= <-]). split; [apply NoDup_singleton|by left]. }
  split_and!; [done|by destruct Hne|done|].
  unfold readOutcome in Ho. apply bind_Some in Ho as (orow & _ & Ho).
  destruct (isStr _ "unconfirmed"); [by simplify_eq|]. destruct (negb _); [done|].
  apply bind_Some in Ho as (answers & _ & Ho). case_bool_decide; [done|].
  apply fmap_Some in Ho as (as' & Has & ->). simpl.
  split; [by eapply addAnswer_cons|].
  eapply (foldl_option_inv (addAnswer qs)
    (fun l => NoDup (questionId <$> l) /\ Forall (answer_ok qs) l)); [done| | |exact Has].
  - intros a x b. apply addAnswer_ok.
  - split; [apply NoDup_nil_2|done].
Qed.

(** The question history is well formed whatever the companion sent: one
    entry per item, distinct questions in each, at least one answer per answered
    entry, each to a listed question and only once; the answer to a secret
    question carries no text and a text answer is not blank. *)
Theorem question_history_safe turn :
  NoDup (h_itemId <$> projectedQuestionHistory turn) /\
  Forall history_ok (projectedQuestionHistory turn).
Proof.
  unfold projectedQuestionHistory. set (l := default [] _). clearbody l.
  cut (forall hs, NoDup (h_itemId <$> hs) /\ Forall history_ok hs ->
         NoDup (h_itemId <$> foldl addHistory hs l) /\ Forall history_ok (foldl addHistory hs l)).
  { intros H. apply H. split; [apply NoDup_nil_2|done]. }
  induction l as [|v l IH]; intros hs [Hnd Hok]; simpl; [done|]. apply IH.
  unfold addHistory. destruct (readHistory v) as [h|] eqn:E; [|done].
  destruct (existsb _ _) eqn:Ee; [done|].
  split; [by apply NoDup_fmap_snoc|]. apply Forall_app. split; [done|].
  apply Forall_singleton. by eapply readHistory_ok.
Qed.

End QuestionHistory.

(** ** Thread metadata *)

Definition restoreSubagentParent (thread : json) : json :=
  if negb (bool_decide (field "parentThreadId" thread = Some JNull)) then thread
  else
    let parent :=
      source ← asObject (field "source" thread);
      subagent ← asObject (oget "subAgent" source);
      spawn ← asObject (oget "thread_spawn" subagent);
      asString (oget "parent_thread_id" spawn) in
    match parent with
    | Some parentThreadId =>
        if bool_decide (parentThreadId = []) then thread
        else setField "parentThreadId" (JStr parentThreadId) thread
    | None => thread
    end.
