(* ===== verification/EventIndex.v ===== *)
(** * Turn and item lookup

    Models the event index of packages/sync-client/src/thread-events.ts: maps
    from ids to array positions kept beside a thread.  [EventLookup] is what the
    reducer relies on; the indexed lookup discharges it whatever the maps hold,
    because it checks the position it is given and falls back to a search. *)
From S2P Require Import Prelude JsMap Json ThreadItems.

Definition turnsOf (thread : json) : list json := arrField "turns" thread.
Definition itemsOf (turn : json) : list json := arrField "items" turn.

(** [value.id === id]. *)
Definition hasId (id : jstr) (v : json) : bool := bool_decide (field "id" v = Some (JStr id)).

Lemma hasId_spec id v : hasId id v = true <-> field "id" v = Some (JStr id).
Proof. apply bool_decide_eq_true. Qed.

Lemma hasId_false id v : hasId id v = false <-> field "id" v <> Some (JStr id).
Proof. apply bool_decide_eq_false. Qed.

(** A position of an element with the id, [None] for [-1]. *)
Definition finds (l : list json) (id : jstr) (r : option nat) : Prop :=
  match r with
  | Some i => exists v, l !! i = Some v /\ hasId id v = true
  | None => forall v, v ∈ l -> hasId id v = false
  end.

(** What the reducer needs of a lookup.  The [raw] positions are the entries of
    the maps as they are, which the copy of a batch reads without the check. *)
Class EventLookup := {
  turnIndex : json -> jstr -> option nat;
  itemIndex : json -> jstr -> jstr -> option nat;
  rawTurnIndex : json -> jstr -> option nat;
  rawItemIndex : json -> jstr -> jstr -> option nat;
  turnIndex_finds : forall thread turnId, finds (turnsOf thread) turnId (turnIndex thread turnId);
  itemIndex_finds : forall turn turnId itemId,
    finds (itemsOf turn) itemId (itemIndex turn turnId itemId) }.

(** ** The maps *)

Record ThreadEventIndex :=
  { turnIndexById : list (jstr * nat);
    itemIndexByTurnId : list (jstr * list (jstr * nat)) }.

(** [new Map(items.map((item, index) => [item.id, index]))]: entries whose id is
    a string, which every protocol id is. *)
Definition indexById (l : list json) : list (jstr * nat) :=
  mfrom (omap (fun e => (fun id => (id, e.1)) <$> asString (field "id" e.2)) (imap pair l)).

Definition indexTurnItems (lookup : ThreadEventIndex) (turnId : jstr) (turn : json)
    : ThreadEventIndex :=
  {| turnIndexById := turnIndexById lookup;
     itemIndexByTurnId := mset turnId (indexById (itemsOf turn)) (itemIndexByTurnId lookup) |}.

Definition buildEventIndex (turns : list json) : ThreadEventIndex :=
  foldl (fun lookup turn =>
           match asString (field "id" turn) with
           | Some id => indexTurnItems lookup id turn
           | None => lookup
           end)
    {| turnIndexById := indexById turns; itemIndexByTurnId := [] |} turns.

(** The position the map gives, checked, else a search. *)
Definition checkedIndex (entry : option nat) (l : list json) (id : jstr) : option nat :=
  match entry with
  | Some index =>
      match l !! index with
      | Some v => if hasId id v then Some index else findIndex (hasId id) l
      | None => findIndex (hasId id) l
      end
  | None => findIndex (hasId id) l
  end.

Definition indexedTurn (lookup : ThreadEventIndex) (thread : json) (turnId : jstr) : option nat :=
  checkedIndex (mget turnId (turnIndexById lookup)) (turnsOf thread) turnId.

(** [itemIndexByTurnId.get(turnId)?.get(itemId)]. *)
Definition itemEntry (lookup : ThreadEventIndex) (turnId itemId : jstr) : option nat :=
  indexes ← mget turnId (itemIndexByTurnId lookup); mget itemId indexes.

(** [itemIndex] for a turn that was found; an array the index was not built from
    is indexed again, which only replaces the entry. *)
Definition indexedItem (lookup : ThreadEventIndex) (turn : json) (turnId itemId : jstr)
    : option nat :=
  checkedIndex (itemEntry lookup turnId itemId) (itemsOf turn) itemId.

Lemma findIndex_finds l id : finds l id (findIndex (hasId id) l).
Proof.
  destruct (findIndex (hasId id) l) as [i|] eqn:E; simpl.
  - apply findIndex_Some in E as (v & Hv & Hp & _). eauto.
  - rewrite findIndex_None, Forall_forall in E. done.
Qed.

Lemma checkedIndex_finds entry l id : finds l id (checkedIndex entry l id).
Proof.
  unfold checkedIndex. destruct entry as [i|]; [|apply findIndex_finds].
  destruct (l !! i) as [v|] eqn:E; [|apply findIndex_finds].
  destruct (hasId id v) eqn:Eh; [|apply findIndex_finds]. simpl. eauto.
Qed.

(** The index as it is kept, and the plain search, both serve the reducer; the
    search keeps no maps, so its entries are those of maps built on the spot. *)
Definition indexedLookup (lookup : ThreadEventIndex) : EventLookup :=
  {| turnIndex := indexedTurn lookup; itemIndex := indexedItem lookup;
     rawTurnIndex := fun _ turnId => mget turnId (turnIndexById lookup);
     rawItemIndex := fun _ turnId itemId => itemEntry lookup turnId itemId;
     turnIndex_finds := fun _ _ => checkedIndex_finds _ _ _;
     itemIndex_finds := fun _ _ _ => checkedIndex_finds _ _ _ |}.

Definition searchLookup : EventLookup :=
  {| turnIndex := fun thread id => findIndex (hasId id) (turnsOf thread);
     itemIndex := fun turn _ id => findIndex (hasId id) (itemsOf turn);
     rawTurnIndex := fun thread id => mget id (indexById (turnsOf thread));
     rawItemIndex := fun turn _ id => mget id (indexById (itemsOf turn));
     turnIndex_finds := fun _ _ => findIndex_finds _ _;
     itemIndex_finds := fun _ _ _ => findIndex_finds _ _ |}.

(** With distinct ids the position is determined. *)
Lemma finds_unique l id r1 r2 :
  NoDup (ids l) -> finds l id r1 -> finds l id r2 -> r1 = r2.
Proof.
  intros Hnd H1 H2. destruct r1 as [i|], r2 as [j|]; simpl in *; try done.
  - destruct H1 as (v & Hv & Hi), H2 as (w & Hw & Hj). f_equal.
    apply hasId_spec in Hi, Hj.
    apply (NoDup_lookup (ids l) i j (Some (JStr id))); [done|unfold ids..];
      rewrite list_lookup_fmap.
    + by rewrite Hv, <- Hi.
    + by rewrite Hw, <- Hj.
  - destruct H1 as (v & Hv & Hi). rewrite (H2 v) in Hi; [done|by eapply list_elem_of_lookup_2].
  - destruct H2 as (v & Hv & Hi). rewrite (H1 v) in Hi; [done|by eapply list_elem_of_lookup_2].
Qed.

(** ** Entries that are up to date *)

(** A map built from a list gives the position of every element, when the ids
    are distinct. *)
Lemma indexById_lookup l i v id :
  NoDup (ids l) -> l !! i = Some v -> hasId id v = true -> mget id (indexById l) = Some i.
Proof.
  intros Hnd Hi Hid%hasId_spec. unfold indexById.
  set (es := omap _ _).
  assert ((id, i) ∈ es) as Hin.
  { apply list_elem_of_omap. exists (i, v). split; [|by simpl; rewrite Hid].
    apply (list_elem_of_lookup_2 _ i). by rewrite list_lookup_imap, Hi. }
  assert (forall k m, (k, m) ∈ es -> ids l !! m = Some (Some (JStr k))) as Hes.
  { intros k m ([m' w] & Hw & Hf)%list_elem_of_omap. simpl in Hf.
    apply fmap_Some in Hf as (k' & Hk%asString_Some & [= -> ->]).
    apply list_elem_of_lookup in Hw as [n Hn]. rewrite list_lookup_imap in Hn.
    destruct (l !! n) as [w'|] eqn:En; [|done]. simplify_eq/=. unfold ids.
    by rewrite list_lookup_fmap, En, <- Hk. }
  destruct (mget_mfrom_has es id) as [m Hm].
  { apply list_elem_of_fmap. by exists (id, i). }
  rewrite Hm. f_equal. apply mget_mfrom_elem in Hm. apply Hes in Hm, Hin.
  by apply (NoDup_lookup (ids l) m i (Some (JStr id))).
Qed.

(** The maps of [buildEventIndex]. *)
Lemma buildEventIndex_turns turns :
  turnIndexById (buildEventIndex turns) = indexById turns.
Proof.
  unfold buildEventIndex. generalize (indexById turns) as m, (@nil (jstr * list (jstr * nat))) as n.
  induction turns as [|t turns IH]; intros m n; simpl; [done|].
  destruct (asString (field "id" t)); [|apply IH]. apply IH.
Qed.

Lemma buildEventIndex_items turns turn id :
  NoDup (ids turns) -> turn ∈ turns -> hasId id turn = true ->
  mget id (itemIndexByTurnId (buildEventIndex turns)) = Some (indexById (itemsOf turn)).
Proof.
  unfold buildEventIndex. generalize {| turnIndexById := indexById turns; itemIndexByTurnId := [] |}.
  set (f := fun _ _ => _).
  assert (forall l lookup, Some (JStr id) ∉ ids l ->
            mget id (itemIndexByTurnId (foldl f lookup l)) = mget id (itemIndexByTurnId lookup))
    as Hskip.
  { induction l as [|t l IH]; intros lookup Hno; [done|]. simpl in *.
    apply not_elem_of_cons in Hno as [Hne Hno]. rewrite IH by done. unfold f.
    destruct (asString (field "id" t)) as [k|] eqn:Ek; [|done]. apply asString_Some in Ek.
    simpl. apply mget_mset_ne. congruence. }
  induction turns as [|t turns IH]; intros lookup Hnd Hin Hid; [by apply elem_of_nil in Hin|].
  apply NoDup_cons in Hnd as [Hno Hnd]. apply hasId_spec in Hid. simpl.
  apply elem_of_cons in Hin as [<-|Hin].
  - rewrite Hskip by (by rewrite <- Hid). unfold f. rewrite Hid. simpl. by rewrite mget_mset_eq.
  - apply IH; [done..|by apply hasId_spec].
Qed.
