(* ===== verification/ThreadEvents.v ===== *)
(** * The thread reducer

    Models packages/sync-client/src/thread-events.ts: the semantic patches the
    companion attaches to notifications and their effect on a cached thread.
    A thread is the wire object; a mutation in place is a function from the
    object before to the object after.  Lookups go through [EventLookup]. *)
From S2P Require Import Prelude JsMap Json ThreadItems Readers EventIndex.
Import Activity CommandOutput.

Local Open Scope nat_scope.

(** ** Bounded text *)

Definition MAX_LIVE_FIELD_CHARS : nat := 64 * 1024.
Definition LIVE_HEAD_CHARS : nat := 48 * 1024.
Definition LIVE_TRUNCATION_MARKER : jstr :=
  [10; 8230]%N ++ js " [earlier live output omitted] " ++ [8230; 10]%N.

Definition boundedText (value : jstr) : jstr :=
  if length value <=? MAX_LIVE_FIELD_CHARS then value
  else
    let tailChars := MAX_LIVE_FIELD_CHARS - LIVE_HEAD_CHARS - length LIVE_TRUNCATION_MARKER in
    slice_to LIVE_HEAD_CHARS value ++ LIVE_TRUNCATION_MARKER ++ slice_last tailChars value.

Definition appendBoundedText (current delta : jstr) : jstr := boundedText (current ++ delta).

(** ** Values *)

(** [a ?? b]. *)
Definition nullish (v : option json) : bool := bool_decide (v = None \/ v = Some JNull).
Definition coalesce (a b : option json) : option json := if nullish a then b else a.

(** [typeof v === "string" ? v : null] as a stored value. *)
Definition stringOrNull (v : option json) : json :=
  match asString v with Some s => JStr s | None => JNull end.
Definition jopt (o : option jstr) : json := match o with Some s => JStr s | None => JNull end.

(** [v?.k] of a value that may be absent. *)
Definition optField (k : string) (v : option json) : option json := v ≫= field k.

Definition isTrue (v : option json) : bool := bool_decide (v = Some (JBool true)).

Record ThreadProjectionPatchV1 := { patch_threadId : jstr; operation : jobj }.

Definition threadProjectionPatchFromEvent (payload : jobj) : option ThreadProjectionPatchV1 :=
  patch ← asObject (oget "codewideThreadPatch" payload);
  op ← asObject (oget "operation" patch);
  if negb (isInt (oget "version" patch) 1) then None
  else
    threadId ← asString (oget "threadId" patch);
    _ ← asString (oget "kind" op);
    Some {| patch_threadId := threadId;
            operation := ospread (default [] (asObject (oget "params" payload))) op |}.

Definition threadIdFromEvent (payload : jobj) : option jstr :=
  patch_threadId <$> threadProjectionPatchFromEvent payload.

(** ** The catalogue *)

(** [isCatalogExcluded]; [None] when the companion sent something else than a
    boolean, where the code throws. *)
Definition isCatalogExcluded (value : json) : option bool :=
  match field "codewideCatalogExcluded" value with
  | None => Some false
  | Some (JBool excluded) => Some excluded
  | Some _ => None
  end.

(** ** Execution settings *)

Record ThreadExecutionSettings :=
  { model : jstr; modelLabel : option jstr; effort : option jstr;
    serviceTier : option (option jstr); permissions : option jstr;
    approvalPolicy : option jstr; sandboxPolicy : option jstr }.

Definition executionSettings (thread : json) : option json :=
  optField "executionSettings" (field "codewide" thread).

Definition projectedThreadExecutionSettings (thread : json) : option ThreadExecutionSettings :=
  let settings := asObject (executionSettings thread) in
  let get k := o ← settings; oget k o in
  let direct := bool_decide (is_Some (field "model" thread)) in
  let modelValue := if direct then field "model" thread else get "model" in
  let effortValue := if direct then field "reasoningEffort" thread else get "effort" in
  model ← asString modelValue;
  if bool_decide (model = []) then None
  else
    Some {| model := model;
            modelLabel :=
              if bool_decide (get "model" = Some (JStr model)) then asString (get "modelLabel")
              else None;
            effort := asString effortValue;
            serviceTier :=
              match field "serviceTier" thread, get "serviceTier" with
              | Some v, _ => Some (asString (Some v))
              | None, Some v => Some (asString (Some v))
              | None, None => None
              end;
            permissions := asString (get "permissions");
            approvalPolicy := asString (get "approvalPolicy");
            sandboxPolicy := asString (get "sandboxPolicy") |}.

(** The settings object a caller passes; the service tier is given. *)
Record SeedSettings :=
  { seed_model : jstr; seed_modelLabel : option jstr; seed_effort : option jstr;
    seed_serviceTier : option jstr; seed_permissions : option jstr;
    seed_approvalPolicy : option jstr; seed_sandboxPolicy : option jstr }.

Definition projectedTurnMetadata (turn : json) : option json :=
  JObj <$> asObject (field "codewide" turn).

(** [object.codewide ??= {}] followed by an update of that object. *)
Definition updateCodewide (f : json -> json) (v : json) : json :=
  setField "codewide" (f (default (JObj []) (coalesce (field "codewide" v) None))) v.

Definition setTurns (turns : list json) (thread : json) : json :=
  setField "turns" (JArr turns) thread.
Definition setItems (items : list json) (turn : json) : json :=
  setField "items" (JArr items) turn.

Definition approvalPolicyName (value : option json) : option jstr :=
  match asString value with
  | Some s => Some s
  | None =>
      match o ← asObject value; oget "granular" o with
      | None => None
      | Some _ => Some (js "granular")
      end
  end.

Definition sandboxPolicyName (value : option json) : option jstr :=
  policy ← asObject value; asString (oget "type" policy).

Definition kindIs (params : jobj) (kind : string) : bool := isStr (oget "kind" params) kind.

Section reducer.
Context `{EventLookup}.

(** ** Access to turns, items and metadata *)

Definition turnInThread (thread : json) (turnId : jstr) : option json :=
  i ← turnIndex thread turnId; turnsOf thread !! i.

Definition updateTurn (turnId : jstr) (f : json -> json) (thread : json) : json :=
  match turnIndex thread turnId with
  | Some i => setTurns (alter f i (turnsOf thread)) thread
  | None => thread
  end.

Definition itemInTurn (thread : json) (rawTurnId rawItemId : option json) : option json :=
  turnId ← asString rawTurnId;
  itemId ← asString rawItemId;
  turn ← turnInThread thread turnId;
  i ← itemIndex turn turnId itemId;
  itemsOf turn !! i.

(** A mutation of the item [itemInTurn] returns. *)
Definition updateItem (rawTurnId rawItemId : option json) (f : json -> json) (thread : json)
    : json :=
  match asString rawTurnId, asString rawItemId with
  | Some turnId, Some itemId =>
      updateTurn turnId
        (fun turn =>
           match itemIndex turn turnId itemId with
           | Some i => setItems (alter f i (itemsOf turn)) turn
           | None => turn
           end) thread
  | _, _ => thread
  end.

(** A write to the object [metadataForTurn] returns; without the turn that
    object is a fresh one and the write is lost. *)
Definition updateMetadata (rawTurnId : option json) (f : json -> json) (thread : json) : json :=
  match asString rawTurnId with
  | Some turnId => updateTurn turnId (updateCodewide f) thread
  | None => thread
  end.

(** ** Execution settings of threads and turns *)

Definition snapshotTurnExecution (rawTurnId : option json) (thread : json) : json :=
  match asString rawTurnId, projectedThreadExecutionSettings thread with
  | Some _, Some settings =>
      updateMetadata rawTurnId
        (setField "execution"
           (JObj [("model", JStr (model settings)); ("modelLabel", jopt (modelLabel settings));
                  ("effort", jopt (effort settings));
                  ("permissions", jopt (permissions settings));
                  ("modelSource", JStr (js "settings"))])) thread
  | _, _ => thread
  end.

Definition snapshotIfMissing (thread : json) (i : nat) : json :=
  match turnsOf thread !! i with
  | Some turn =>
      if isStr (field "status" turn) "inProgress"
         && bool_decide (optField "execution" (projectedTurnMetadata turn) = None)
      then snapshotTurnExecution (field "id" turn) thread
      else thread
  | None => thread
  end.

Definition seedThreadExecutionSettings (s : SeedSettings) (thread : json) : json :=
  let thread := setField "model" (JStr (seed_model s)) thread in
  let thread := setField "reasoningEffort" (jopt (seed_effort s)) thread in
  let thread := setField "serviceTier" (jopt (seed_serviceTier s)) thread in
  let previous := executionSettings thread in
  let label :=
    if bool_decide (optField "model" previous = Some (JStr (seed_model s)))
    then default JNull (coalesce (optField "modelLabel" previous) None) else JNull in
  let keep k own := default JNull (coalesce (coalesce (Some (jopt own)) (optField k previous)) None) in
  let settings :=
    JObj [("model", JStr (seed_model s));
          ("modelLabel", match seed_modelLabel s with Some l => JStr l | None => label end);
          ("effort", jopt (seed_effort s));
          ("serviceTier", jopt (seed_serviceTier s));
          ("permissions", jopt (seed_permissions s));
          ("approvalPolicy", keep "approvalPolicy" (seed_approvalPolicy s));
          ("sandboxPolicy", keep "sandboxPolicy" (seed_sandboxPolicy s))] in
  let thread := updateCodewide (setField "executionSettings" settings) thread in
  foldl snapshotIfMissing thread (seq 0 (length (turnsOf thread))).

Definition updateThreadSettings (value : option json) (thread : json) : json :=
  match settings ← asObject value; model ← asString (oget "model" settings);
        Some (settings, model) with
  | Some (settings, model) =>
      let activePermissionProfile := asObject (oget "activePermissionProfile" settings) in
      seedThreadExecutionSettings
        {| seed_model := model;
           seed_modelLabel := asString (oget "modelLabel" settings);
           seed_effort := asString (oget "effort" settings);
           seed_serviceTier := asString (oget "serviceTier" settings);
           seed_permissions := profile ← activePermissionProfile; asString (oget "id" profile);
           seed_approvalPolicy := approvalPolicyName (oget "approvalPolicy" settings);
           seed_sandboxPolicy := sandboxPolicyName (oget "sandboxPolicy" settings) |} thread
  | None => thread
  end.

Definition updateReroutedModel (rawTurnId toModel toModelLabel : option json) (thread : json)
    : json :=
  match asString toModel with
  | Some toModel =>
      let fallback := executionSettings thread in
      updateMetadata rawTurnId
        (fun metadata =>
           let inherited k :=
             default JNull
               (coalesce (coalesce (optField k (field "execution" metadata)) (optField k fallback))
                  None) in
           setField "execution"
             (JObj [("model", JStr toModel); ("modelLabel", stringOrNull toModelLabel);
                    ("effort", inherited "effort"); ("permissions", inherited "permissions");
                    ("modelSource", JStr (js "reroute"))]) metadata) thread
  | None => thread
  end.

(** ** Turns *)

Definition mergeTurnMetadataWithItemPolicy (incoming : json) (cached : option json)
    (preserveLifecycle : bool) : json :=
  let incoming :=
    match cached with
    | Some cached =>
        match asArray (field "items" cached), asArray (field "items" incoming) with
        | Some (item :: rest), Some incomingItems =>
            setItems (if preserveLifecycle
                      then reconcileActiveTurnItems (item :: rest) incomingItems
                      else reconcileTurnItems (item :: rest) incomingItems) incoming
        | _, _ => incoming
        end
    | None => incoming
    end in
  match cached ≫= projectedTurnMetadata with
  | Some (JObj cachedMetadata) =>
      setField "codewide"
        (JObj (ospread cachedMetadata (default [] (asObject (field "codewide" incoming)))))
        incoming
  | _ => incoming
  end.

Definition mergeTurnMetadata (incoming : json) (cached : option json) : json :=
  mergeTurnMetadataWithItemPolicy incoming cached false.
Definition mergeActiveTurnMetadata (incoming : json) (cached : option json) : json :=
  mergeTurnMetadataWithItemPolicy incoming cached true.

(** The clone of the incoming turn, completed from the cached one. *)
Definition completedTurn (source : jobj) (cached : option json) : json :=
  match asArray (oget "items" source) with
  | Some _ => JObj source
  | None =>
      setField "itemsView"
        (default (JStr (js "full"))
           (coalesce (optField "itemsView" cached) None))
        (setItems (from_option itemsOf [] cached) (JObj source))
  end.

Definition upsertTurn (value : option json) (thread : json) : json :=
  match source ← asObject value; id ← asString (oget "id" source); Some (source, id) with
  | Some (source, id) =>
      match turnIndex thread id with
      | Some index =>
          let cached := turnsOf thread !! index in
          setTurns (<[index := mergeTurnMetadata (completedTurn source cached) cached]>
                      (turnsOf thread)) thread
      | None =>
          setTurns (turnsOf thread ++ [mergeTurnMetadata (completedTurn source None) None]) thread
      end
  | None => thread
  end.

(** ** Items *)

Definition sameUserBoundary (left right : json) : bool :=
  let clientId v := coalesce (field "clientId" v) (Some (JStr [])) in
  (bool_decide (clientId left <> Some (JStr []))
   && bool_decide (clientId left = clientId right))
  || bool_decide (userMessageFingerprint left = userMessageFingerprint right).

Definition preserveProjectedUserClientId (incoming cached : json) : json :=
  if negb (isType "userMessage" cached)
     || bool_decide (field "clientId" incoming <> Some JNull)
  then incoming
  else if bool_decide (field "clientId" cached = Some JNull) then incoming
  else copyField "clientId" (field "clientId" cached) incoming.

(** The position [removeMatchingAgentPlaceholder] splices out. *)
Definition placeholderIndex (turnId : jstr) (canonicalItemId : jstr) (turn : json) : option nat :=
  let placeholderId := turnId ++ js ":agent" in
  if bool_decide (canonicalItemId = placeholderId) then None
  else
    canonicalItem ← (i ← findIndex (hasId canonicalItemId) (itemsOf turn); itemsOf turn !! i);
    if negb (isType "agentMessage" canonicalItem) then None
    else
      findIndex (fun candidate =>
        isType "agentMessage" candidate && hasId placeholderId candidate
        && (sameField "text" candidate canonicalItem
            || (isStr (field "phase" candidate) "final_answer"
                && isStr (field "phase" canonicalItem) "final_answer")))
        (itemsOf turn).

(** The turn after [removeMatchingAgentPlaceholder]. *)
Definition removeMatchingAgentPlaceholder (turnId : jstr) (canonicalItemId : jstr) (turn : json)
    : json :=
  match placeholderIndex turnId canonicalItemId turn with
  | Some index => setItems (delete index (itemsOf turn)) turn
  | None => turn
  end.

(** The cached user message an unknown incoming one replaces. *)
Definition userPlaceholderIndex (nextItem : json) (items : list json) : option nat :=
  if isType "userMessage" nextItem
  then findIndex (fun candidate =>
         isType "userMessage" candidate && sameUserBoundary candidate nextItem) items
  else None.

Definition upsertItemInTurn (turnId itemId : jstr) (nextItem : json) (turn : json) : json :=
  let items := itemsOf turn in
  let finish items := removeMatchingAgentPlaceholder turnId itemId (setItems items turn) in
  match itemIndex turn turnId itemId with
  | Some index => finish (<[index := nextItem]> items)
  | None =>
      match userPlaceholderIndex nextItem items with
      | Some index => setItems (alter (preserveProjectedUserClientId nextItem) index items) turn
      | None => finish (items ++ [nextItem])
      end
  end.

Definition upsertItem (rawTurnId : option json) (value : option json) (thread : json) : json :=
  match asString rawTurnId, asObject value with
  | Some turnId, Some item =>
      match asString (oget "id" item) with
      | Some itemId => updateTurn turnId (upsertItemInTurn turnId itemId (JObj item)) thread
      | None => thread
      end
  | _, _ => thread
  end.

Definition itemWithLifecycleMetadata (thread : json) (rawTurnId value phase : option json)
    : option json :=
  match asObject value with
  | None => value
  | Some item =>
      let turn := turnId ← asString rawTurnId; turnInThread thread turnId in
      let existing :=
        id ← asString (oget "id" item);
        turn ← turn;
        i ← findIndex (hasId id) (itemsOf turn);
        itemsOf turn !! i in
      let preTurn :=
        negb (isType "userMessage" (JObj item))
        && (from_option projectedPreTurn false existing
            || from_option (fun turn => negb (existsb (isType "userMessage") (itemsOf turn)))
                 false turn) in
      let item := JObj item in
      let item :=
        if isStr phase "started" || isStr phase "completed"
        then setField "codewideLifecyclePhase" (default JNull phase) item else item in
      Some (if preTurn then setField "codewidePreTurn" (JBool true) item else item)
  end.

Inductive textKind := AgentMessage | Plan | CommandExecution.

Definition textKindOf (v : option json) : option textKind :=
  if isStr v "agentMessage" then Some AgentMessage
  else if isStr v "plan" then Some Plan
  else if isStr v "commandExecution" then Some CommandExecution
  else None.

Definition textKindName (kind : textKind) : string :=
  match kind with
  | AgentMessage => "agentMessage" | Plan => "plan" | CommandExecution => "commandExecution"
  end.

(** [item.text += delta]. *)
Definition appendAgentText (turnId itemId : option json) (delta : jstr) (thread : json) : json :=
  updateItem turnId itemId
    (fun item => setField "text" (JStr (strField "text" item ++ delta)) item) thread.

(** The thread and whether the delta was applied. *)
Definition appendText (turnId itemId delta : option json) (kind : textKind) (thread : json)
    : json * bool :=
  match asString delta, itemInTurn thread turnId itemId with
  | Some delta, Some item =>
      if negb (isType (textKindName kind) item) then (thread, false)
      else
        match kind with
        | AgentMessage =>
            let thread := appendAgentText turnId itemId delta thread in
            (match asString turnId, asString itemId with
             | Some t, Some i => updateTurn t (removeMatchingAgentPlaceholder t i) thread
             | _, _ => thread
             end, true)
        | Plan =>
            (updateItem turnId itemId
               (fun item =>
                  setField "text" (JStr (appendBoundedText (strField "text" item) delta)) item)
               thread, true)
        | CommandExecution =>
            (updateItem turnId itemId
               (fun item =>
                  setField "aggregatedOutput"
                    (JStr (appendBoundedText (strField "aggregatedOutput" item) delta)) item)
               thread, true)
        end
  | _, _ => (thread, false)
  end.

Definition updateFileChanges (turnId itemId changes : option json) (thread : json) : json :=
  match asArray changes with
  | Some changes =>
      updateItem turnId itemId
        (fun item =>
           if isType "fileChange" item then setField "changes" (JArr changes) item else item) thread
  | None => thread
  end.

Definition pushProgress (message : jstr) (progress : list jstr) : list jstr :=
  let bounded := slice_to 4096 message in
  slice_last 100
    (if bool_decide (last progress <> Some bounded) then progress ++ [bounded] else progress).

Definition appendMcpProgress (turnId itemId message : option json) (thread : json) : json :=
  match asString message with
  | Some message =>
      if bool_decide (message = []) then thread
      else
        updateItem turnId itemId
          (fun item =>
             if isType "mcpToolCall" item then
               setField "progress"
                 (JArr (JStr <$> pushProgress message
                          (omap (fun entry => asString (Some entry)) (arrField "progress" item))))
                 item
             else item) thread
  | None => thread
  end.

(** ** Turn metadata *)

Definition isTurnUsageProjection (value : option json) : bool :=
  match asObject value with
  | Some projection =>
      isInt (oget "version" projection) 1
      && (isStr (oget "status" projection) "live" || isStr (oget "status" projection) "final")
      && bool_decide (is_Some (turn ← asObject (oget "turn" projection);
                               asObject (oget "tokens" turn)))
      && bool_decide (is_Some (thread ← asObject (oget "thread" projection);
                               asObject (oget "tokens" thread)))
  | None => false
  end.

Definition updateTurnUsage (turnId usage : option json) (thread : json) : json :=
  if isTurnUsageProjection usage
  then updateMetadata turnId (setField "usage" (default JNull usage)) thread
  else thread.

Definition updateTurnDiff (turnId diff : option json) (thread : json) : json :=
  match asString diff with
  | Some diff => updateMetadata turnId (setField "diff" (JStr (boundedText diff))) thread
  | None => thread
  end.

Definition planStep (step : json) : option json :=
  match step with
  | JObj value =>
      if isStr (oget "status" value) "pending" || isStr (oget "status" value) "inProgress"
         || isStr (oget "status" value) "completed"
      then s ← asString (oget "step" value);
           Some (JObj (oset "step" (JStr (boundedText s)) value))
      else None
  | _ => None
  end.

Definition updateTurnPlan (turnId explanation plan : option json) (thread : json) : json :=
  match asArray plan with
  | Some plan =>
      updateMetadata turnId
        (setField "plan"
           (JObj [("explanation", match asString explanation with
                                  | Some e => JStr (boundedText e)
                                  | None => JNull
                                  end);
                  ("steps", JArr (omap planStep plan))])) thread
  | None => thread
  end.

(** ** Reasoning parts *)

Definition padParts (index : nat) (parts : list json) : list json :=
  parts ++ replicate (S index - length parts) (JStr []).

Definition addReasoningPart (turnId itemId index : option json) (name : string) (thread : json)
    : json :=
  match asSafeNat index with
  | Some index =>
      updateItem turnId itemId
        (fun item =>
           if isType "reasoning" item
           then setField name (JArr (padParts (Z.to_nat index) (arrField name item))) item
           else item) thread
  | None => thread
  end.

Definition appendPart (delta : jstr) (part : json) : json :=
  JStr (appendBoundedText (default [] (asString (Some part))) delta).

Definition appendReasoning (turnId itemId index delta : option json) (name : string)
    (thread : json) : json :=
  match asString delta, asSafeNat index with
  | Some delta, Some i =>
      updateItem turnId itemId
        (fun item =>
           if isType "reasoning" item
           then setField name (JArr (alter (appendPart delta) (Z.to_nat i) (arrField name item))) item
           else item)
        (addReasoningPart turnId itemId index name thread)
  | _, _ => thread
  end.

(** ** One patch *)

Definition setStatus (params : jobj) (status : json) (thread : json) : json :=
  let thread := setField "status" status thread in
  match asBool (oget "canAcceptDirectInput" params) with
  | Some b => setField "canAcceptDirectInput" (JBool b) thread
  | None => thread
  end.

Definition reasoningField (params : jobj) : option string :=
  if isStr (oget "field" params) "summary" then Some "summary"
  else if isStr (oget "field" params) "content" then Some "content" else None.

Definition turnOf (params : jobj) : option json := JObj <$> asObject (oget "turn" params).

(** A text delta: output kept by reference first, then text. *)
Definition applyTextDelta (params : jobj) (kind : textKind) (thread : json) : json * bool :=
  let p k := oget k params in
  let external :=
    match kind with
    | CommandExecution =>
        appendCommandOutputReference (itemInTurn thread (p "turnId") (p "itemId")) params
    | _ => None
    end in
  match external with
  | Some _ =>
      (updateItem (p "turnId") (p "itemId")
         (fun item => default item (appendCommandOutputReference (Some item) params)) thread, true)
  | None => appendText (p "turnId") (p "itemId") (p "delta") kind thread
  end.

(** The branch the operation's kind selects: the thread after it, and whether
    the source leaves [changed] true. *)
Definition applyOperation (params : jobj) (thread : json) : json * bool :=
  let p k := oget k params in
  let isKind := kindIs params in
  if isKind "threadStatus" && bool_decide (p "status" <> None) then
    (setStatus params (default JNull (p "status")) thread, true)
  else if isKind "threadName" then (setField "name" (stringOrNull (p "threadName")) thread, true)
  else if isKind "threadSettings" then (updateThreadSettings (p "threadSettings") thread, true)
  else if isKind "turnStarted" then
    (snapshotTurnExecution (optField "id" (turnOf params)) (upsertTurn (p "turn") thread), true)
  else if isKind "turnCompleted" then
    (updateTurnUsage (optField "id" (turnOf params)) (p "usage") (upsertTurn (p "turn") thread), true)
  else if isKind "modelRerouted" then
    (updateReroutedModel (p "turnId") (p "toModel") (p "toModelLabel") thread, true)
  else if isKind "itemUpsert" then
    (upsertItem (p "turnId")
       (itemWithLifecycleMetadata thread (p "turnId") (p "item") (p "itemPhase")) thread, true)
  else
    match (if isKind "itemTextDelta" then textKindOf (p "itemType") else None) with
    | Some kind => applyTextDelta params kind thread
    | None =>
        if isKind "fileChanges" then
          (updateFileChanges (p "turnId") (p "itemId") (p "changes") thread, true)
        else if isKind "mcpProgress" then
          (appendMcpProgress (p "turnId") (p "itemId") (p "message") thread, true)
        else if isKind "tokenUsage" then (updateTurnUsage (p "turnId") (p "usage") thread, true)
        else if isKind "turnDiff" then (updateTurnDiff (p "turnId") (p "diff") thread, true)
        else if isKind "turnPlan" then
          (updateTurnPlan (p "turnId") (p "explanation") (p "plan") thread, true)
        else
          let index := coalesce (p "summaryIndex") (p "contentIndex") in
          match (if isKind "reasoningPart" then reasoningField params else None),
                (if isKind "reasoningDelta" then reasoningField params else None) with
          | Some name, _ => (addReasoningPart (p "turnId") (p "itemId") index name thread, true)
          | None, Some name =>
              (appendReasoning (p "turnId") (p "itemId") index (p "delta") name thread, true)
          | None, None => (thread, false)
          end
    end.

(** The output footprint of the addressed item. *)
Definition applyFootprint (params : jobj) (thread : json) : json :=
  match parseActivityFootprint (oget "codewideOutputFootprint" params) with
  | Some footprint =>
      updateItem (oget "turnId" params) (oget "itemId" params)
        (setField "codewideOutputFootprint" (footprintJson footprint)) thread
  | None => thread
  end.

Definition applyMetrics (params : jobj) (st : json * bool) : json * bool :=
  let metricsTurnId := coalesce (oget "turnId" params) (optField "id" (turnOf params)) in
  match parseActivityMetrics (oget "activityMetrics" params), asString metricsTurnId with
  | Some metrics, Some _ =>
      (updateMetadata metricsTurnId (setField "activityMetrics" (metricsJson metrics)) st.1, true)
  | _, Some _ =>
      if bool_decide (oget "activityMetrics" params = Some JNull)
      then (updateMetadata metricsTurnId (delField "activityMetrics") st.1, true)
      else st
  | _, None => st
  end.

(** [now] is [Math.floor(Date.now() / 1000)]; [updatedAt] is a whole number. *)
Definition touch (now : Z) (thread : json) : json :=
  match field "updatedAt" thread with
  | Some (JNum (NInt updatedAt)) =>
      setField "updatedAt" (JNum (NInt (Z.max updatedAt now))) thread
  | _ => thread
  end.

Definition applyThreadProjectionPatch (now : Z) (thread : json) (patch : ThreadProjectionPatchV1)
    : json * bool :=
  if negb (hasId (patch_threadId patch) thread) then (thread, false)
  else
    let params := operation patch in
    let '(thread, changed) := applyOperation params thread in
    let thread := applyFootprint params thread in
    let '(thread, changed) := applyMetrics params (thread, changed) in
    (if changed then touch now thread else thread, changed).

Definition applyThreadEvent (now : Z) (thread : json) (payload : jobj) : json * bool :=
  match threadProjectionPatchFromEvent payload with
  | None => (thread, false)
  | Some patch => applyThreadProjectionPatch now thread patch
  end.

(** ** Batches *)

(** The turns a batch addresses; only these are copied. *)
Definition affectedTurnIds (thread : json) (patches : list ThreadProjectionPatchV1) : list jstr :=
  foldl (fun affected patch =>
           if hasId (patch_threadId patch) thread then
             let params := operation patch in
             let affected := match asString (oget "turnId" params) with
                             | Some id => sadd id affected | None => affected end in
             match asString (optField "id" (turnOf params)) with
             | Some id => sadd id affected | None => affected end
           else affected) [] patches.

(** The item an operation addresses. *)
Definition addressedItemId (params : jobj) : option jstr :=
  match asString (oget "itemId" params) with
  | Some id => Some id
  | None => item ← asObject (oget "item" params); asString (oget "id" item)
  end.

(** The items a batch addresses, by turn; only these are copied in depth. *)
Definition affectedItemIdsByTurn (thread : json) (patches : list ThreadProjectionPatchV1)
    : list (jstr * list jstr) :=
  foldl (fun affected patch =>
           if hasId (patch_threadId patch) thread then
             let params := operation patch in
             match asString (oget "turnId" params), addressedItemId params with
             | Some turnId, Some itemId =>
                 mset turnId (sadd itemId (default [] (mget turnId affected))) affected
             | _, _ => affected
             end
           else affected) [] patches.

Definition applyAll (now : Z) (st : json * bool) (patch : ThreadProjectionPatchV1) : json * bool :=
  let '(next, changed) := applyThreadProjectionPatch now st.1 patch in (next, changed || st.2).

(** ** What a batch shares with its source

    The new thread is a shallow copy.  An object the copy reuses is the source's
    own: a write to it is a write to the source.  The parts of a copied turn that
    are still the source's: its metadata object, its item array, and, by the
    position in the array of the copy, the item that is the object at a position
    of the source turn; past the end of [copy_items] items are new. *)
Record TurnCopy :=
  { copy_sharesMetadata : bool;
    copy_sharesArray : bool;
    copy_items : list (option nat) }.

Inductive TurnOwner := SharedTurn | OwnTurn (copy : TurnCopy).

(** The same for the thread; a position past the end of [owners] holds a turn
    the batch created. *)
Record Sharing :=
  { sharesTurns : bool; sharesCodewide : bool; owners : list TurnOwner }.

(** Whether the loop over [itemIds] replaces the item at position [i]. *)
Definition clonesItem (turnId : jstr) (turn : json) (itemIds : list jstr) (i : nat) : bool :=
  existsb (fun itemId =>
             bool_decide (rawItemIndex turn turnId itemId = Some i)
             && from_option (hasId itemId) false (itemsOf turn !! i)) itemIds.

Definition cloneTurnForEvents (turnId : jstr) (turn : json) (itemIds : option (list jstr))
    : TurnCopy :=
  {| copy_sharesMetadata := false;
     copy_sharesArray := false;
     copy_items :=
       imap (fun i _ => if clonesItem turnId turn (default [] itemIds) i then None else Some i)
         (itemsOf turn) |}.

(** One turn of the loop over the affected ids: an entry that is missing or
    stale is skipped. *)
Definition cloneAffectedTurn (thread : json) (itemIds : list (jstr * list jstr))
    (owners : list TurnOwner) (turnId : jstr) : list TurnOwner :=
  match rawTurnIndex thread turnId with
  | Some i =>
      match turnsOf thread !! i with
      | Some turn =>
          if hasId turnId turn
          then <[i := OwnTurn (cloneTurnForEvents turnId turn (mget turnId itemIds))]> owners
          else owners
      | None => owners
      end
  | None => owners
  end.

Definition shareThread (thread : json) (patches : list ThreadProjectionPatchV1) : Sharing :=
  let affected := affectedTurnIds thread patches in
  {| sharesTurns := bool_decide (affected = []);
     sharesCodewide := false;
     owners := foldl (cloneAffectedTurn thread (affectedItemIdsByTurn thread patches))
                 ((fun _ => SharedTurn) <$> turnsOf thread) affected |}.

(** *** Writes to array slots put new objects in the place of shared ones *)

Definition dropPlaceholder (turnId itemId : jstr) (turn : json) (items : list (option nat))
    : list (option nat) :=
  match placeholderIndex turnId itemId turn with
  | Some index => delete index items
  | None => items
  end.

Definition upsertCopyItems (turnId itemId : jstr) (nextItem turn : json)
    (copied : list (option nat)) : list (option nat) :=
  let items := itemsOf turn in
  match itemIndex turn turnId itemId with
  | Some index =>
      dropPlaceholder turnId itemId (setItems (<[index := nextItem]> items) turn)
        (<[index := None]> copied)
  | None =>
      match userPlaceholderIndex nextItem items with
      | Some index => <[index := None]> copied
      | None => dropPlaceholder turnId itemId (setItems (items ++ [nextItem]) turn) copied
      end
  end.

Definition updateCopy (turnId : jstr) (f : json -> list (option nat) -> list (option nat))
    (thread : json) (owners : list TurnOwner) : list TurnOwner :=
  match turnIndex thread turnId with
  | Some i =>
      match turnsOf thread !! i, owners !! i with
      | Some turn, Some (OwnTurn copy) =>
          <[i := OwnTurn {| copy_sharesMetadata := copy_sharesMetadata copy;
                            copy_sharesArray := copy_sharesArray copy;
                            copy_items := f turn (copy_items copy) |}]> owners
      | _, _ => owners
      end
  | None => owners
  end.

(** The turn [upsertTurn] puts in a slot shares nothing. *)
Definition upsertTurnOwner (value : option json) (thread : json) (owners : list TurnOwner)
    : list TurnOwner :=
  match source ← asObject value; id ← asString (oget "id" source); turnIndex thread id with
  | Some index =>
      <[index := OwnTurn {| copy_sharesMetadata := false; copy_sharesArray := false;
                            copy_items := [] |}]> owners
  | None => owners
  end.

Definition upsertItemOwner (rawTurnId value : option json) (thread : json)
    (owners : list TurnOwner) : list TurnOwner :=
  match asString rawTurnId, asObject value with
  | Some turnId, Some item =>
      match asString (oget "id" item) with
      | Some itemId => updateCopy turnId (upsertCopyItems turnId itemId (JObj item)) thread owners
      | None => owners
      end
  | _, _ => owners
  end.

Definition agentTextOwner (rawTurnId rawItemId delta : option json) (thread : json)
    (owners : list TurnOwner) : list TurnOwner :=
  match asString delta, itemInTurn thread rawTurnId rawItemId,
        asString rawTurnId, asString rawItemId with
  | Some delta, Some item, Some turnId, Some itemId =>
      if isType "agentMessage" item
      then updateCopy turnId (dropPlaceholder turnId itemId)
             (appendAgentText rawTurnId rawItemId delta thread) owners
      else owners
  | _, _, _, _ => owners
  end.

(** The owners after a patch: only these branches write to a slot. *)
Definition patchOwners (thread : json) (patch : ThreadProjectionPatchV1) (owners : list TurnOwner)
    : list TurnOwner :=
  let params := operation patch in
  let p k := oget k params in
  if negb (hasId (patch_threadId patch) thread) then owners
  else if kindIs params "turnStarted" || kindIs params "turnCompleted" then
    upsertTurnOwner (p "turn") thread owners
  else if kindIs params "itemUpsert" then
    upsertItemOwner (p "turnId")
      (itemWithLifecycleMetadata thread (p "turnId") (p "item") (p "itemPhase")) thread owners
  else if kindIs params "itemTextDelta" && isStr (p "itemType") "agentMessage" then
    agentTextOwner (p "turnId") (p "itemId") (p "delta") thread owners
  else owners.

(** *** Writes to objects: the source holds what the shared objects hold *)

(** The field of an object both hold, as it now is. *)
Definition syncField (k : string) (next source : json) : json :=
  match field k next with Some v => setField k v source | None => source end.

Definition onArray (k : string) (f : list json -> list json) (source : json) : json :=
  match field k source with Some (JArr l) => setField k (JArr (f l)) source | _ => source end.

Definition syncItems (copied : list (option nat)) (next source : list json) : list json :=
  imap (fun i item =>
          default item (j ← findIndex (fun o => bool_decide (o = Some i)) copied; next !! j)) source.

Definition syncTurn (owner : TurnOwner) (next source : json) : json :=
  match owner with
  | SharedTurn => next
  | OwnTurn copy =>
      let source := if copy_sharesMetadata copy then syncField "codewide" next source else source in
      onArray "items"
        (fun items => if copy_sharesArray copy then itemsOf next
                      else syncItems (copy_items copy) (itemsOf next) items) source
  end.

Definition syncSource (sharing : Sharing) (next source : json) : json :=
  let source := if sharesCodewide sharing then syncField "codewide" next source else source in
  onArray "turns"
    (fun turns =>
       if sharesTurns sharing then turnsOf next
       else imap (fun i turn =>
                    default turn (owner ← owners sharing !! i; next ← turnsOf next !! i;
                                  Some (syncTurn owner next turn))) turns) source.

(** The new thread, what it shares, and the source, through one patch. *)
Definition shareStep (now : Z) (st : json * Sharing * json) (patch : ThreadProjectionPatchV1)
    : json * Sharing * json :=
  let '(next, sharing, source) := st in
  let next' := (applyThreadProjectionPatch now next patch).1 in
  let sharing' :=
    {| sharesTurns := sharesTurns sharing; sharesCodewide := sharesCodewide sharing;
       owners := patchOwners next patch (owners sharing) |} in
  (next', sharing', syncSource sharing' next' source).

(** The source thread after the batch. *)
Definition sourceAfter (now : Z) (thread : json) (patches : list ThreadProjectionPatchV1) : json :=
  (foldl (shareStep now) (thread, shareThread thread patches, thread) patches).2.

(** The returned thread, and the source thread as the call leaves it. *)
Definition applyThreadProjectionPatchesImmutable (now : Z) (thread : json)
    (patches : list ThreadProjectionPatchV1) : json * json :=
  let '(next, changed) := foldl (applyAll now) (thread, false) patches in
  let source := sourceAfter now thread patches in
  (if changed then next else source, source).

Definition applyThreadEventsImmutable (now : Z) (thread : json) (payloads : list jobj)
    : json * json :=
  applyThreadProjectionPatchesImmutable now thread (omap threadProjectionPatchFromEvent payloads).

(** ** Refreshing from a full read *)

Definition preserveProjectedTurnMetadata (incoming : json) (cached : option json) : json :=
  match cached with
  | None => incoming
  | Some cached =>
      let incoming :=
        match asObject (field "codewide" cached) with
        | Some cachedMetadata =>
            let metadata :=
              ospread cachedMetadata (default [] (asObject (field "codewide" incoming))) in
            setField "codewide"
              (JObj (if bool_decide (executionSettings incoming = None)
                     then odel "executionSettings" metadata else metadata)) incoming
        | None => incoming
        end in
      if bool_decide (turnsOf cached = []) || bool_decide (turnsOf incoming = []) then incoming
      else
        let cachedTurn turn :=
          last (filter (fun t => field "id" t = field "id" turn) (turnsOf cached)) in
        setTurns
          ((fun turn =>
              if isStr (field "status" turn) "inProgress"
              then mergeActiveTurnMetadata turn (cachedTurn turn)
              else mergeTurnMetadata turn (cachedTurn turn)) <$> turnsOf incoming) incoming
  end.

End reducer.

(** ** Detecting an incomplete batch *)

Definition itemTypes (items : list json) : list (jstr * jstr) :=
  mfrom (omap (fun item =>
           id ← asString (field "id" item);
           type ← asString (field "type" item);
           Some (id, type)) items).

Abbreviation turnTypes := (list (jstr * list (jstr * jstr))).

Definition expectedProjectionItemType (op : jobj) : option jstr :=
  if kindIs op "itemTextDelta" then Some (default [] (asString (oget "itemType" op)))
  else if kindIs op "fileChanges" then Some (js "fileChange")
  else if kindIs op "mcpProgress" then Some (js "mcpToolCall")
  else if kindIs op "reasoningPart" || kindIs op "reasoningDelta" then Some (js "reasoning")
  else None.

Definition turnScoped (op : jobj) : bool :=
  kindIs op "modelRerouted" || kindIs op "tokenUsage" || kindIs op "turnDiff" || kindIs op "turnPlan".

(** One patch of the scan: the types after it, or [None] when the batch needs a
    repair. *)
Definition scanPatch (types : turnTypes) (op : jobj) : option turnTypes :=
  let turn := turnOf op in
  let turnId := asString (oget "turnId" op) in
  if kindIs op "turnCompleted" then
    match asString (optField "id" turn), asArray (optField "items" turn) with
    | Some id, Some items =>
        if isStr (optField "itemsView" turn) "full"
        then Some (mset id (itemTypes items) types) else None
    | _, _ => None
    end
  else if kindIs op "turnStarted" then
    id ← asString (optField "id" turn);
    Some (mset id (itemTypes (default [] (asArray (optField "items" turn)))) types)
  else if kindIs op "itemUpsert" then
    turnId ← turnId;
    known ← mget turnId types;
    item ← asObject (oget "item" op);
    id ← asString (oget "id" item);
    type ← asString (oget "type" item);
    Some (mset turnId (mset id type known) types)
  else
    match expectedProjectionItemType op with
    | Some expected =>
        turnId ← turnId;
        itemId ← asString (oget "itemId" op);
        known ← mget turnId types;
        actual ← mget itemId known;
        if bool_decide (actual = expected) then Some types else None
    | None =>
        if turnScoped op then turnId ← turnId; _ ← mget turnId types; Some types
        else Some types
    end.

Definition initialTypes (thread : json) : turnTypes :=
  mfrom (omap (fun turn =>
           (fun id => (id, itemTypes (itemsOf turn))) <$> asString (field "id" turn))
           (turnsOf thread)).

Definition threadProjectionNeedsAuthoritativeRepair (thread : json)
    (patches : list ThreadProjectionPatchV1) : bool :=
  bool_decide
    (foldl (fun types patch =>
              types ← types;
              if hasId (patch_threadId patch) thread then scanPatch types (operation patch)
              else Some types) (Some (initialTypes thread)) patches = None).
