(* ===== verification/ThreadLaws.v ===== *)
(** * Laws of the thread reducer

    What every operation of ThreadEvents.v respects: the ids, the distinctness
    of turn and item ids, and the turns it does not address ([good]); what can
    be read after a write; and that the answer does not depend on the lookup. *)
From S2P Require Import Prelude JsMap Json ThreadItems Readers EventIndex ThreadEvents.
Import Activity CommandOutput.

Local Open Scope nat_scope.

(** ** Frames

    [frame A thread thread'] says that every turn of [thread] keeps its
    position and id, and is the very same turn unless its id is in [A]. *)
Definition frame (A : jstr -> Prop) (thread thread' : json) : Prop :=
  forall j t, turnsOf thread !! j = Some t ->
    exists t', turnsOf thread' !! j = Some t' /\ field "id" t' = field "id" t /\
      ((forall id, A id -> hasId id t = false) -> t' = t).

(** Well-formed threads: turn ids are distinct, and item ids within a turn. *)
Definition wf_turn (turn : json) : Prop :=
  (exists items, field "items" turn = Some (JArr items)) /\ NoDup (ids (itemsOf turn)).

Definition wf_thread (thread : json) : Prop :=
  (exists turns, field "turns" thread = Some (JArr turns)) /\
  NoDup (ids (turnsOf thread)) /\ Forall wf_turn (turnsOf thread).

(** A step of the reducer: what it guarantees when the incoming payload is
    well formed ([ok]) and in any case. *)
Record good (A : jstr -> Prop) (ok : Prop) (thread thread' : json) : Prop :=
  { good_wf : ok -> wf_thread thread -> wf_thread thread';
    good_frame : frame A thread thread';
    good_id : field "id" thread' = field "id" thread }.

Lemma good_refl A ok thread : good A ok thread thread.
Proof. split; [done| |done]. intros j t Hj. eauto. Qed.

Lemma good_trans A ok t1 t2 t3 : good A ok t1 t2 -> good A ok t2 t3 -> good A ok t1 t3.
Proof.
  intros [Hw1 Hf1 Hi1] [Hw2 Hf2 Hi2]. split; [auto| |congruence].
  intros j t Hj. destruct (Hf1 j t Hj) as (t' & Hj' & Hid & Heq).
  destruct (Hf2 j t' Hj') as (t'' & Hj'' & Hid' & Heq'). exists t''.
  split_and!; [done|congruence|]. intros HA. rewrite (Heq HA) in *. by apply Heq'.
Qed.

Lemma arrField_setField_ne k k' v x : k <> k' -> arrField k (setField k' v x) = arrField k x.
Proof. intros. unfold arrField. by rewrite field_setField_ne. Qed.

Lemma turnsOf_setTurns turns thread : is_obj thread -> turnsOf (setTurns turns thread) = turns.
Proof. intros. unfold turnsOf, setTurns, arrField. by rewrite field_setField_eq. Qed.

Lemma itemsOf_setItems items turn : is_obj turn -> itemsOf (setItems items turn) = items.
Proof. intros. unfold itemsOf, setItems, arrField. by rewrite field_setField_eq. Qed.

Lemma arrField_is_obj k v i x : arrField k v !! i = Some x -> is_obj v.
Proof. destruct v; try done. by eexists. Qed.

(** A write to a field that is neither the turns nor the id. *)
Lemma good_setField A ok k v thread :
  k <> "turns" -> k <> "id" -> good A ok thread (setField k v thread).
Proof.
  intros Ht Hi. assert (turnsOf (setField k v thread) = turnsOf thread) as Hturns.
  { unfold turnsOf. by apply arrField_setField_ne. }
  split.
  - intros _ (Hex & Hnd & Hall). unfold wf_thread. by rewrite Hturns, field_setField_ne.
  - intros j t Hj. rewrite Hturns. eauto.
  - by apply field_setField_ne.
Qed.

(** Replacing a turn by one with its id. *)
Lemma ids_alter f i l :
  (forall t, l !! i = Some t -> field "id" (f t) = field "id" t) -> ids (alter f i l) = ids l.
Proof.
  intros Hf. unfold ids. apply list_eq. intros j. rewrite !list_lookup_fmap, list_lookup_alter.
  case_decide; subst; [|done]. destruct (l !! j) eqn:E; [|done]. simpl. by rewrite Hf.
Qed.

Lemma wf_setTurns turns thread :
  is_obj thread -> NoDup (ids turns) -> Forall wf_turn turns -> wf_thread (setTurns turns thread).
Proof.
  intros Ho Hnd Hall. unfold wf_thread. rewrite turnsOf_setTurns by done.
  split_and!; [|done|done]. exists turns. unfold setTurns. by rewrite field_setField_eq.
Qed.

Lemma wf_is_obj thread : wf_thread thread -> is_obj thread.
Proof. intros [[turns Ht] _]. by eapply field_is_obj. Qed.

(** A mutation of an item leaves its id alone. *)
Ltac item_id := intros item; repeat case_match; try done; by apply field_setField_ne.

Section reducer_facts.
Context `{EventLookup}.
Implicit Types (A : jstr -> Prop) (ok : Prop) (thread turn item : json).

Lemma turnIndex_Some thread id i :
  turnIndex thread id = Some i -> exists t, turnsOf thread !! i = Some t /\ hasId id t = true.
Proof. intros E. pose proof (turnIndex_finds thread id) as Hf. by rewrite E in Hf. Qed.

Lemma turnIndex_None thread id t :
  turnIndex thread id = None -> t ∈ turnsOf thread -> hasId id t = false.
Proof. intros E. pose proof (turnIndex_finds thread id) as Hf. rewrite E in Hf. apply Hf. Qed.

Lemma itemIndex_Some turn id itemId i :
  itemIndex turn id itemId = Some i -> exists t, itemsOf turn !! i = Some t /\ hasId itemId t = true.
Proof. intros E. pose proof (itemIndex_finds turn id itemId) as Hf. by rewrite E in Hf. Qed.

Lemma itemIndex_None turn id itemId t :
  itemIndex turn id itemId = None -> t ∈ itemsOf turn -> hasId itemId t = false.
Proof. intros E. pose proof (itemIndex_finds turn id itemId) as Hf. rewrite E in Hf. apply Hf. Qed.

(** What a mutation of one turn must respect. *)
Definition turn_step (f : json -> json) : Prop :=
  forall turn, field "id" (f turn) = field "id" turn /\ (wf_turn turn -> wf_turn (f turn)).

Lemma good_updateTurn A ok turnId f thread :
  turn_step f -> A turnId -> good A ok thread (updateTurn turnId f thread).
Proof.
  intros Hf HA. unfold updateTurn. destruct (turnIndex thread turnId) as [i|] eqn:E;
    [|apply good_refl].
  apply turnIndex_Some in E as (t & Ht & Hid). pose proof (arrField_is_obj _ _ _ _ Ht) as Ho.
  split.
  - intros _ (Hex & Hnd & Hall). apply wf_setTurns; [done| |].
    + rewrite ids_alter; [done|]. intros u _. apply Hf.
    + apply Forall_lookup. intros j u. rewrite list_lookup_alter. rewrite Forall_lookup in Hall.
      case_decide; subst; [|apply Hall]. destruct (turnsOf thread !! j) eqn:Ej; [|done].
      intros [= <-]. by eapply Hf, Hall.
  - intros j u Hj. rewrite turnsOf_setTurns, list_lookup_alter by done. case_decide.
    + subst. rewrite Hj. eexists. split_and!; [done|apply Hf|].
      intros Hno. rewrite Ht in Hj. simplify_eq. rewrite Hno in Hid by done. done.
    + eauto.
  - by apply field_setField_ne.
Qed.

Lemma turn_step_metadata f : turn_step (updateCodewide f).
Proof.
  intros turn. unfold updateCodewide. split; [by apply field_setField_ne|].
  unfold wf_turn, itemsOf. intros. by rewrite field_setField_ne, arrField_setField_ne.
Qed.

Lemma good_updateMetadata A ok rawTurnId f thread :
  (forall id, asString rawTurnId = Some id -> A id) ->
  good A ok thread (updateMetadata rawTurnId f thread).
Proof.
  intros HA. unfold updateMetadata. destruct (asString rawTurnId); [|apply good_refl].
  apply good_updateTurn; [apply turn_step_metadata|auto].
Qed.

Lemma wf_setItems items turn :
  wf_turn turn -> NoDup (ids items) -> wf_turn (setItems items turn).
Proof.
  intros [[its Hits] _] Hnd. assert (is_obj turn) by by eapply field_is_obj.
  split; [|by rewrite itemsOf_setItems]. exists items. unfold setItems.
  by rewrite field_setField_eq.
Qed.

Lemma setItems_id items turn : field "id" (setItems items turn) = field "id" turn.
Proof. by apply field_setField_ne. Qed.

Lemma good_updateItem A ok rawTurnId rawItemId f thread :
  (forall item, field "id" (f item) = field "id" item) ->
  (forall id, asString rawTurnId = Some id -> A id) ->
  good A ok thread (updateItem rawTurnId rawItemId f thread).
Proof.
  intros Hf HA. unfold updateItem. destruct (asString rawTurnId) as [turnId|]; [|apply good_refl].
  destruct (asString rawItemId) as [itemId|]; [|apply good_refl].
  apply good_updateTurn; [|auto]. intros turn. destruct (itemIndex turn turnId itemId); [|done].
  split; [apply setItems_id|]. intros Hwf. apply wf_setItems; [done|].
  rewrite ids_alter by auto. apply Hwf.
Qed.

Lemma good_snapshot A ok rawTurnId thread :
  (forall id, asString rawTurnId = Some id -> A id) ->
  good A ok thread (snapshotTurnExecution rawTurnId thread).
Proof.
  intros HA. unfold snapshotTurnExecution. repeat case_match; try apply good_refl.
  apply good_updateMetadata. intros id Hid. apply HA. congruence.
Qed.

Lemma good_seed A ok s thread :
  (forall id, A id) -> good A ok thread (seedThreadExecutionSettings s thread).
Proof.
  intros HA. unfold seedThreadExecutionSettings.
  set (l := seq 0 _). clearbody l.
  match goal with |- good _ _ _ (foldl _ ?t _) => assert (good A ok thread t) as Hseed end.
  { unfold updateCodewide. repeat (eapply good_trans; [|by apply good_setField]). apply good_refl. }
  match goal with |- good _ _ _ (foldl _ ?t _) => revert Hseed; generalize t end.
  intros t0 Hseed. eapply good_trans; [exact Hseed|]. clear Hseed. revert t0.
  induction l as [|i l IH]; intros t0; simpl; [apply good_refl|].
  eapply good_trans; [|apply IH]. unfold snapshotIfMissing.
  repeat case_match; try apply good_refl. by apply good_snapshot.
Qed.

(** *** Items *)

Lemma preserveUser_id incoming cached :
  field "id" (preserveProjectedUserClientId incoming cached) = field "id" incoming.
Proof.
  unfold preserveProjectedUserClientId. repeat case_match; try done.
  by apply field_copyField_ne.
Qed.

Lemma NoDup_delete {B} (l : list B) i : NoDup l -> NoDup (delete i l).
Proof. intros Hnd. apply (sublist_NoDup _ l); [done|apply sublist_delete]. Qed.

Lemma placeholder_step turnId itemId : turn_step (removeMatchingAgentPlaceholder turnId itemId).
Proof.
  intros turn. unfold removeMatchingAgentPlaceholder. case_match; [|done].
  split; [apply setItems_id|]. intros Hwf. apply wf_setItems; [done|].
  unfold ids. rewrite list_fmap_delete. apply NoDup_delete, Hwf.
Qed.

Lemma ids_insert (l : list json) i item :
  ids (<[i := item]> l) = <[i := field "id" item]> (ids l).
Proof. apply list_fmap_insert. Qed.

Lemma not_in_ids l itemId :
  (forall t, t ∈ l -> hasId itemId t = false) -> Some (JStr itemId) ∉ ids l.
Proof.
  intros Hf (t & Hid & Ht)%list_elem_of_fmap. apply Hf, hasId_false in Ht. congruence.
Qed.

Lemma upsertItem_step turnId itemId nextItem :
  field "id" nextItem = Some (JStr itemId) ->
  turn_step (upsertItemInTurn turnId itemId nextItem).
Proof.
  intros Hid turn. unfold upsertItemInTurn.
  destruct (itemIndex turn turnId itemId) as [i|] eqn:E.
  - destruct (placeholder_step turnId itemId (setItems (<[i := nextItem]> (itemsOf turn)) turn))
      as [Hi Hw].
    split; [rewrite Hi; apply setItems_id|]. intros Hwf. apply Hw, wf_setItems; [done|].
    apply itemIndex_Some in E as (t & Ht & Htid%hasId_spec).
    rewrite ids_insert, list_insert_id; [apply Hwf|].
    unfold ids. by rewrite list_lookup_fmap, Ht, Hid, <- Htid.
  - pose proof (fun t => itemIndex_None _ _ _ t E) as Hno. apply not_in_ids in Hno.
    destruct (userPlaceholderIndex nextItem (itemsOf turn)) as [j|].
    + split; [apply setItems_id|]. intros Hwf. apply wf_setItems; [done|].
      destruct (itemsOf turn !! j) as [c|] eqn:Ec.
      * replace (alter _ j (itemsOf turn))
          with (<[j := preserveProjectedUserClientId nextItem c]> (itemsOf turn)).
        { rewrite ids_insert, preserveUser_id, Hid. apply NoDup_insert; [apply Hwf|done]. }
        apply list_eq. intros k. rewrite list_lookup_alter, list_lookup_insert.
        repeat case_decide; subst; try naive_solver; try by rewrite Ec.
        exfalso. apply lookup_lt_Some in Ec. naive_solver.
      * rewrite ids_alter; [apply Hwf|]. congruence.
    + destruct (placeholder_step turnId itemId (setItems (itemsOf turn ++ [nextItem]) turn))
        as [Hi Hw].
      split; [rewrite Hi; apply setItems_id|]. intros Hwf. apply Hw, wf_setItems; [done|].
      rewrite ids_app. apply NoDup_app. split_and!; [apply Hwf| |apply NoDup_singleton].
      simpl. rewrite Hid. set_solver.
Qed.

Lemma good_upsertItem A ok rawTurnId value thread :
  (forall id, asString rawTurnId = Some id -> A id) ->
  good A ok thread (upsertItem rawTurnId value thread).
Proof.
  intros HA. unfold upsertItem. destruct (asString rawTurnId) as [turnId|]; [|apply good_refl].
  destruct (asObject value) as [item|]; [|apply good_refl].
  destruct (asString (oget "id" item)) as [itemId|] eqn:E; [|apply good_refl].
  apply asString_Some in E. apply good_updateTurn; [by apply upsertItem_step|auto].
Qed.

(** *** Turns *)

(** The items a payload carries for a turn have distinct ids. *)
Definition payload_ok (value : option json) : Prop :=
  NoDup (ids (default [] (asArray (optField "items" (JObj <$> asObject value))))).

Definition cached_ok (cached : option json) : Prop := from_option wf_turn True cached.

Lemma is_obj_JObj o : is_obj (JObj o).
Proof. by exists o. Qed.

Lemma completedTurn_id source cached :
  field "id" (completedTurn source cached) = oget "id" source.
Proof.
  unfold completedTurn. case_match; [done|]. unfold setItems.
  by rewrite !field_setField_ne.
Qed.

Lemma completedTurn_wf source cached :
  payload_ok (Some (JObj source)) -> cached_ok cached -> wf_turn (completedTurn source cached).
Proof.
  unfold payload_ok. cbn [asObject fmap option_fmap option_map]. simpl optField.
  intros Hp Hc. unfold completedTurn. destruct (asArray (oget "items" source)) as [l|] eqn:E.
  - split.
    + exists l. by apply asArray_Some in E.
    + unfold itemsOf, arrField. simpl. by rewrite E.
  - assert (wf_turn (setItems (from_option itemsOf [] cached) (JObj source))) as Hw.
    { split.
      - eexists. unfold setItems. rewrite field_setField_eq by apply is_obj_JObj. done.
      - rewrite itemsOf_setItems by apply is_obj_JObj.
        destruct cached; [apply Hc|apply NoDup_nil_2]. }
    unfold wf_turn, itemsOf in *. by rewrite field_setField_ne, arrField_setField_ne.
Qed.

Lemma merge_id incoming cached b :
  field "id" (mergeTurnMetadataWithItemPolicy incoming cached b) = field "id" incoming.
Proof.
  unfold mergeTurnMetadataWithItemPolicy.
  repeat case_match; rewrite ?field_setField_ne by done; rewrite ?setItems_id; done.
Qed.

Lemma merge_wf incoming cached b :
  wf_turn incoming -> cached_ok cached ->
  wf_turn (mergeTurnMetadataWithItemPolicy incoming cached b).
Proof.
  intros Hw Hc. unfold mergeTurnMetadataWithItemPolicy.
  set (inc := match cached with Some _ => _ | None => _ end).
  assert (wf_turn inc) as Hinc.
  { unfold inc. destruct cached as [c|]; [|done]. simpl in Hc.
    destruct (asArray (field "items" c)) as [[|i l]|] eqn:Ec; [done| |done].
    destruct (asArray (field "items" incoming)) as [k|] eqn:Ek; [|done].
    destruct Hc as [_ Hcn]. pose proof Hw as [_ Hin].
    unfold itemsOf, arrField in Hcn, Hin. rewrite Ec in Hcn. rewrite Ek in Hin. simpl in Hcn, Hin.
    apply wf_setItems; [done|]. destruct b; by apply reconcile_nodup. }
  clearbody inc. repeat case_match; try done.
  unfold wf_turn, itemsOf in *. by rewrite field_setField_ne, arrField_setField_ne.
Qed.

Lemma good_setTurns A ok turns thread :
  is_obj thread ->
  (ok -> wf_thread thread -> NoDup (ids turns) /\ Forall wf_turn turns) ->
  (forall j t, turnsOf thread !! j = Some t ->
     exists t', turns !! j = Some t' /\ field "id" t' = field "id" t /\
       ((forall id, A id -> hasId id t = false) -> t' = t)) ->
  good A ok thread (setTurns turns thread).
Proof.
  intros Ho Hw Hf. split.
  - intros Hok Hwf. destruct (Hw Hok Hwf). by apply wf_setTurns.
  - intros j t Hj. rewrite turnsOf_setTurns by done. by apply Hf.
  - by apply field_setField_ne.
Qed.

Lemma good_upsertTurn A ok value thread :
  is_obj thread ->
  (forall id, asString (optField "id" (JObj <$> asObject value)) = Some id -> A id) ->
  (ok -> payload_ok value) ->
  good A ok thread (upsertTurn value thread).
Proof.
  intros Ho HA Hok. unfold upsertTurn.
  destruct (asObject value) as [source|] eqn:Ev; [|apply good_refl].
  apply asObject_Some in Ev as ->. cbn [mbind option_bind].
  destruct (asString (oget "id" source)) as [id|] eqn:Eid; [|apply good_refl].
  cbn [mbind option_bind]. specialize (HA id Eid). apply asString_Some in Eid.
  destruct (turnIndex thread id) as [i|] eqn:E.
  - apply turnIndex_Some in E as (t & Ht & Htid). rewrite Ht.
    set (new := mergeTurnMetadata _ _).
    assert (field "id" new = field "id" t) as Hnew.
    { unfold new, mergeTurnMetadata. rewrite merge_id, completedTurn_id, Eid.
      symmetry. by apply hasId_spec. }
    apply good_setTurns; [done| |].
    + intros Hok' (_ & Hnd & Hall). rewrite ids_insert, Hnew, list_insert_id.
      * split; [done|]. apply Forall_insert; [done|].
        assert (wf_turn t) by (eapply (Forall_lookup_1 _ _ _ _ Hall Ht)).
        apply merge_wf; [|done]. apply completedTurn_wf; [by apply Hok|done].
      * unfold ids. by rewrite list_lookup_fmap, Ht.
    + intros j u Hj. rewrite list_lookup_insert. case_decide as Hij.
      * destruct Hij as [-> _]. rewrite Ht in Hj. simplify_eq. eexists. split_and!; [done|done|].
        intros Hno. by rewrite Hno in Htid.
      * eauto.
  - apply good_setTurns; [done| |].
    + intros Hok' (_ & Hnd & Hall). split.
      * rewrite ids_app. apply NoDup_app. split_and!; [done| |apply NoDup_singleton].
        simpl. unfold mergeTurnMetadata. rewrite merge_id, completedTurn_id, Eid.
        pose proof (fun t => turnIndex_None _ _ t E) as Hno. apply not_in_ids in Hno. set_solver.
      * apply Forall_app. split; [done|]. apply Forall_singleton.
        apply merge_wf; [|done]. apply completedTurn_wf; [by apply Hok|done].
    + intros j u Hj. exists u. by rewrite lookup_app_l by (by eapply lookup_lt_Some).
Qed.

(** *** One operation *)

Lemma append_reference_id item params :
  field "id" (default item (appendCommandOutputReference (Some item) params)) = field "id" item.
Proof.
  destruct (appendCommandOutputReference (Some item) params) as [i|] eqn:E; [|done]. simpl.
  unfold appendCommandOutputReference in E. apply bind_Some in E as (o & Ho & E).
  apply bind_Some in E as (d & _ & [= <-]). apply asObject_Some in Ho as [= ->].
  simpl. unfold oget, oset. by apply mget_mset_ne.
Qed.

Lemma good_appendText A ok turnId itemId delta kind thread :
  (forall id, asString turnId = Some id -> A id) ->
  good A ok thread (appendText turnId itemId delta kind thread).1.
Proof.
  intros HA. unfold appendText. destruct (asString delta); [|apply good_refl].
  destruct (itemInTurn thread turnId itemId); [|apply good_refl].
  destruct (negb _); [apply good_refl|]. destruct kind; simpl.
  - assert (good A ok thread (updateItem turnId itemId
      (fun item => setField "text" (JStr (strField "text" item ++ l)) item) thread)) as Hu.
    { apply good_updateItem; [item_id|done]. }
    destruct (asString turnId) as [t|] eqn:Et; [|done]. destruct (asString itemId); [|done].
    eapply good_trans; [exact Hu|]. apply good_updateTurn; [apply placeholder_step|auto].
  - apply good_updateItem; [item_id|done].
  - apply good_updateItem; [item_id|done].
Qed.

Lemma good_reasoning A ok turnId itemId index name thread :
  name <> "id" -> (forall id, asString turnId = Some id -> A id) ->
  good A ok thread (addReasoningPart turnId itemId index name thread).
Proof.
  intros Hn HA. unfold addReasoningPart. destruct (asSafeNat index); [|apply good_refl].
  apply good_updateItem; [|done]. item_id.
Qed.

Lemma good_appendReasoning A ok turnId itemId index delta name thread :
  name <> "id" -> (forall id, asString turnId = Some id -> A id) ->
  good A ok thread (appendReasoning turnId itemId index delta name thread).
Proof.
  intros Hn HA. unfold appendReasoning. destruct (asString delta); [|apply good_refl].
  destruct (asSafeNat index); [|apply good_refl].
  eapply good_trans; [by apply good_reasoning|]. apply good_updateItem; [|done]. item_id.
Qed.

(** The turns an operation addresses. *)
Definition addresses (params : jobj) (id : jstr) : Prop :=
  asString (oget "turnId" params) = Some id \/
  asString (optField "id" (turnOf params)) = Some id.

Lemma good_applyOperation A params thread :
  is_obj thread ->
  (forall id, addresses params id -> A id) ->
  (kindIs params "threadSettings" = true -> forall id, A id) ->
  good A (payload_ok (oget "turn" params)) thread (applyOperation params thread).1.
Proof.
  intros Ho HA Hset. assert (forall id, asString (oget "turnId" params) = Some id -> A id) as HAt.
  { intros id Hid. apply HA. by left. }
  assert (forall id, asString (optField "id" (turnOf params)) = Some id -> A id) as HAo.
  { intros id Hid. apply HA. by right. }
  unfold applyOperation.
  case_match; [simpl; unfold setStatus|].
  { case_match; [eapply good_trans; [|by apply good_setField]|]; by apply good_setField. }
  case_match; [by apply good_setField|].
  destruct (kindIs params "threadSettings") eqn:Eset.
  { simpl. unfold updateThreadSettings. case_match; [|apply good_refl].
    repeat case_match. by apply good_seed, Hset. }
  case_match.
  { simpl. eapply good_trans; [by apply good_upsertTurn|]. by apply good_snapshot. }
  case_match.
  { simpl. eapply good_trans; [by apply good_upsertTurn|]. unfold updateTurnUsage.
    case_match; [by apply good_updateMetadata|apply good_refl]. }
  case_match.
  { simpl. unfold updateReroutedModel. case_match; [by apply good_updateMetadata|apply good_refl]. }
  case_match; [by apply good_upsertItem|].
  destruct (if kindIs params "itemTextDelta" then _ else None) as [kind|].
  { unfold applyTextDelta. repeat case_match; simpl;
      first [by apply good_appendText | apply good_updateItem; [intros; apply append_reference_id|done]]. }
  case_match.
  { simpl. unfold updateFileChanges. case_match; [|apply good_refl].
    apply good_updateItem; [item_id|done]. }
  case_match.
  { simpl. unfold appendMcpProgress. repeat case_match; try apply good_refl.
    apply good_updateItem; [item_id|done]. }
  case_match.
  { simpl. unfold updateTurnUsage. case_match; [by apply good_updateMetadata|apply good_refl]. }
  case_match.
  { simpl. unfold updateTurnDiff. case_match; [by apply good_updateMetadata|apply good_refl]. }
  case_match.
  { simpl. unfold updateTurnPlan. case_match; [by apply good_updateMetadata|apply good_refl]. }
  assert (forall name, reasoningField params = Some name -> name <> "id") as Hname.
  { unfold reasoningField. intros name. repeat case_match; by intros [= <-]. }
  destruct (if kindIs params "reasoningPart" then _ else None) as [name|] eqn:E1.
  { simpl. apply good_reasoning; [|done]. apply Hname. by destruct (kindIs params "reasoningPart"). }
  destruct (if kindIs params "reasoningDelta" then _ else None) as [name|] eqn:E2; [|apply good_refl].
  simpl. apply good_appendReasoning; [|done]. apply Hname.
  by destruct (kindIs params "reasoningDelta").
Qed.

Lemma coalesce_Some a b s : asString (coalesce a b) = Some s -> asString a = Some s \/ asString b = Some s.
Proof. unfold coalesce. case_match; auto. Qed.

Lemma good_patch now A thread patch :
  is_obj thread ->
  (hasId (patch_threadId patch) thread = true ->
     (forall id, addresses (operation patch) id -> A id) /\
     (kindIs (operation patch) "threadSettings" = true -> forall id, A id)) ->
  good A (payload_ok (oget "turn" (operation patch))) thread
    (applyThreadProjectionPatch now thread patch).1.
Proof.
  intros Ho HA. unfold applyThreadProjectionPatch.
  destruct (hasId (patch_threadId patch) thread); [|apply good_refl].
  destruct (HA eq_refl) as [HAd Hset]. clear HA. set (params := operation patch) in *. simpl.
  pose proof (good_applyOperation A params thread Ho HAd Hset) as H1.
  destruct (applyOperation params thread) as [t1 c1] eqn:E1. simpl in H1.
  set (ok := payload_ok (oget "turn" params)) in *. clearbody ok.
  assert (good A ok thread (applyFootprint params t1)) as H2.
  { eapply good_trans; [exact H1|]. unfold applyFootprint. case_match; [|apply good_refl].
    apply good_updateItem; [item_id|]. intros id Hid. apply HAd. by left. }
  assert (good A ok thread (applyMetrics params (applyFootprint params t1, c1)).1) as H3.
  { eapply good_trans; [exact H2|]. unfold applyMetrics.
    repeat case_match; simpl; try apply good_refl; apply good_updateMetadata;
      intros id Hid; apply HAd, coalesce_Some, Hid. }
  destruct (applyMetrics params (applyFootprint params t1, c1)) as [t3 c3]. simpl in *.
  destruct c3; simpl; [|done]. eapply good_trans; [exact H3|].
  unfold touch. repeat case_match; try apply good_refl; by apply good_setField.
Qed.

(** ** Reading after writing *)

Lemma finds_ids l k id r : ids l = ids k -> finds l id r -> finds k id r.
Proof.
  intros Hids. assert (forall i, field "id" <$> l !! i = field "id" <$> k !! i) as Hl.
  { intros i. pose proof (f_equal (.!! i) Hids) as Hi. simpl in Hi.
    unfold ids in Hi. by rewrite !list_lookup_fmap in Hi. }
  destruct r as [i|]; simpl.
  - intros (v & Hv & Hid). specialize (Hl i). rewrite Hv in Hl. simpl in Hl.
    destruct (k !! i) as [w|]; simplify_eq/=. exists w. split; [done|].
    apply hasId_spec. apply hasId_spec in Hid. congruence.
  - intros Hno w [i Hi]%list_elem_of_lookup. specialize (Hl i). rewrite Hi in Hl. simpl in Hl.
    destruct (l !! i) as [v|] eqn:Ev; simplify_eq/=. apply list_elem_of_lookup_2 in Ev.
    apply Hno in Ev. apply hasId_false in Ev. apply hasId_false. congruence.
Qed.

Lemma elem_finds l id r v :
  NoDup (ids l) -> finds l id r -> v ∈ l -> hasId id v = true ->
  exists i, r = Some i /\ l !! i = Some v.
Proof.
  intros Hnd Hr [i Hi]%list_elem_of_lookup Hid. exists i. split; [|done].
  apply (finds_unique l id); [done|done|]. simpl. eauto.
Qed.

Lemma turnInThread_iff thread id turn :
  wf_thread thread ->
  turnInThread thread id = Some turn <-> turn ∈ turnsOf thread /\ hasId id turn = true.
Proof.
  intros (_ & Hnd & _). unfold turnInThread. split.
  - intros (i & (t & Ht & Hid)%turnIndex_Some & Hi)%bind_Some. simplify_eq.
    split; [by eapply list_elem_of_lookup_2|done].
  - intros [Hin Hid].
    destruct (elem_finds _ _ _ _ Hnd (turnIndex_finds thread id) Hin Hid) as (i & -> & Hi).
    done.
Qed.

Lemma wf_turn_elem thread turn : wf_thread thread -> turn ∈ turnsOf thread -> wf_turn turn.
Proof. intros (_ & _ & Hall). rewrite Forall_forall in Hall. apply Hall. Qed.

Lemma itemInTurn_iff thread turnId itemId item :
  wf_thread thread ->
  itemInTurn thread (Some (JStr turnId)) (Some (JStr itemId)) = Some item <->
  exists turn, turn ∈ turnsOf thread /\ hasId turnId turn = true /\
               item ∈ itemsOf turn /\ hasId itemId item = true.
Proof.
  intros Hwf. unfold itemInTurn. cbn [asString mbind option_bind]. split.
  - intros (turn & [Hin Hid]%turnInThread_iff & H1)%bind_Some; [|done].
    apply bind_Some in H1 as (i & (t & Ht & Hit)%itemIndex_Some & Hi). simplify_eq.
    exists turn. split_and!; try done. by eapply list_elem_of_lookup_2.
  - intros (turn & Hin & Hid & Hit & Hiid).
    assert (turnInThread thread turnId = Some turn) as ->.
    { by apply turnInThread_iff. }
    cbn [mbind option_bind]. destruct (wf_turn_elem _ _ Hwf Hin) as [_ Hnd].
    destruct (elem_finds _ _ _ _ Hnd (itemIndex_finds turn turnId itemId) Hit Hiid)
      as (i & -> & Hi). done.
Qed.

(** The turn an update addresses, afterwards. *)
Lemma updateTurn_elem thread id f turn :
  wf_thread thread -> turn ∈ turnsOf thread -> hasId id turn = true ->
  f turn ∈ turnsOf (updateTurn id f thread).
Proof.
  intros Hwf Hin Hid. pose proof Hwf as (_ & Hnd & _). unfold updateTurn.
  destruct (elem_finds _ _ _ _ Hnd (turnIndex_finds thread id) Hin Hid) as (i & -> & Hi).
  rewrite turnsOf_setTurns by by apply wf_is_obj. apply (list_elem_of_lookup_2 _ i).
  by rewrite list_lookup_alter, decide_True, Hi.
Qed.

Lemma updateItem_elem thread turnId itemId f item :
  wf_thread thread -> (forall item, field "id" (f item) = field "id" item) ->
  itemInTurn thread (Some (JStr turnId)) (Some (JStr itemId)) = Some item ->
  itemInTurn (updateItem (Some (JStr turnId)) (Some (JStr itemId)) f thread)
    (Some (JStr turnId)) (Some (JStr itemId)) = Some (f item).
Proof.
  intros Hwf Hf Hit. pose proof Hit as (turn & Hin & Hid & Hitem & Hiid)%itemInTurn_iff; [|done].
  assert (wf_thread (updateItem (Some (JStr turnId)) (Some (JStr itemId)) f thread)) as Hwf'.
  { by apply (good_wf _ _ _ _ (good_updateItem (fun _ => True) True _ _ _ _ Hf (fun _ _ => I))). }
  apply itemInTurn_iff; [done|]. unfold updateItem. cbn [asString].
  destruct (wf_turn_elem _ _ Hwf Hin) as [[its Hits] Hnd].
  destruct (elem_finds _ _ _ _ Hnd (itemIndex_finds turn turnId itemId) Hitem Hiid)
    as (i & Hi & Hii).
  eexists. split_and!; [by eapply updateTurn_elem| | |].
  - simpl. rewrite Hi. apply hasId_spec. rewrite setItems_id. by apply hasId_spec.
  - simpl. rewrite Hi, itemsOf_setItems by by eapply field_is_obj.
    apply (list_elem_of_lookup_2 _ i). by rewrite list_lookup_alter, decide_True, Hii.
  - apply hasId_spec. rewrite Hf. by apply hasId_spec.
Qed.

(** The spliced item has the placeholder's id, which is not the canonical one. *)
Lemma placeholderIndex_Some turnId itemId turn i :
  placeholderIndex turnId itemId turn = Some i ->
  exists p, itemsOf turn !! i = Some p /\ hasId (turnId ++ js ":agent") p = true /\
            itemId <> turnId ++ js ":agent".
Proof.
  unfold placeholderIndex. case_bool_decide as Hp; [done|].
  intros (c & _ & E)%bind_Some. destruct (negb _); [done|].
  apply findIndex_Some in E as (p & Hk & Hpp & _). bool_prop. eauto.
Qed.

(** Removing a placeholder keeps the canonical item. *)
Lemma placeholder_keeps turnId itemId turn item :
  is_obj turn -> item ∈ itemsOf turn -> hasId itemId item = true ->
  item ∈ itemsOf (removeMatchingAgentPlaceholder turnId itemId turn).
Proof.
  intros Ho Hin Hid. unfold removeMatchingAgentPlaceholder.
  destruct (placeholderIndex turnId itemId turn) as [i|] eqn:E; [|done].
  apply placeholderIndex_Some in E as (p & Hk & Hpp & Hp).
  rewrite itemsOf_setItems by done. apply list_elem_of_lookup in Hin as [m Hj].
  assert (m <> i) as Hjk.
  { intros ->. rewrite Hk in Hj. simplify_eq.
    apply hasId_spec in Hpp, Hid. congruence. }
  apply list_elem_of_lookup. destruct (decide (m < i)).
  - exists m. by rewrite list_lookup_delete_lt.
  - exists (m - 1). rewrite list_lookup_delete_ge by lia. by replace (S (m - 1)) with m by lia.
Qed.

Lemma wf_turn_is_obj turn : wf_turn turn -> is_obj turn.
Proof. intros [[its Hi] _]. by eapply field_is_obj. Qed.

Lemma placeholder_item thread turnId itemId item :
  wf_thread thread ->
  itemInTurn thread (Some (JStr turnId)) (Some (JStr itemId)) = Some item ->
  itemInTurn (updateTurn turnId (removeMatchingAgentPlaceholder turnId itemId) thread)
    (Some (JStr turnId)) (Some (JStr itemId)) = Some item.
Proof.
  intros Hwf (turn & Hin & Hid & Hitem & Hiid)%itemInTurn_iff; [|done].
  apply itemInTurn_iff.
  - apply (good_wf _ _ _ _ (good_updateTurn (fun _ => True) True _ _ _
      (placeholder_step turnId itemId) I)); done.
  - eexists. split_and!; [by eapply updateTurn_elem| | |done].
    + apply hasId_spec. rewrite (proj1 (placeholder_step turnId itemId turn)).
      by apply hasId_spec.
    + apply placeholder_keeps; [|done..]. by eapply wf_turn_is_obj, wf_turn_elem.
Qed.

(** ** Streaming *)

(** One token of an agent message, and its batch. *)
Definition agentDelta (turnId itemId delta : jstr) : jobj :=
  [("kind", JStr (js "itemTextDelta")); ("itemType", JStr (js "agentMessage"));
   ("turnId", JStr turnId); ("itemId", JStr itemId); ("delta", JStr delta)].

Lemma agentDelta_apply now thread threadId turnId itemId delta :
  hasId threadId thread = true ->
  applyThreadProjectionPatch now thread
    {| patch_threadId := threadId; operation := agentDelta turnId itemId delta |} =
  (let st := appendText (Some (JStr turnId)) (Some (JStr itemId)) (Some (JStr delta))
               AgentMessage thread in
   (if st.2 then touch now st.1 else st.1, st.2)).
Proof.
  intros Hid. unfold applyThreadProjectionPatch. cbn [patch_threadId operation]. rewrite Hid.
  change (applyOperation (agentDelta turnId itemId delta) thread)
    with (appendText (Some (JStr turnId)) (Some (JStr itemId)) (Some (JStr delta))
            AgentMessage thread).
  by destruct (appendText _ _ _ _ _).
Qed.

Lemma turnsOf_touch now thread : turnsOf (touch now thread) = turnsOf thread.
Proof.
  unfold touch. repeat case_match; try done. unfold turnsOf. by apply arrField_setField_ne.
Qed.

Lemma good_touch A ok now thread : good A ok thread (touch now thread).
Proof. unfold touch. repeat case_match; try apply good_refl; by apply good_setField. Qed.

Lemma appendText_agent thread turnId itemId delta item :
  wf_thread thread ->
  itemInTurn thread (Some (JStr turnId)) (Some (JStr itemId)) = Some item ->
  isType "agentMessage" item = true ->
  exists thread', appendText (Some (JStr turnId)) (Some (JStr itemId)) (Some (JStr delta))
                    AgentMessage thread = (thread', true) /\
    wf_thread thread' /\ field "id" thread' = field "id" thread /\
    itemInTurn thread' (Some (JStr turnId)) (Some (JStr itemId)) =
      Some (setField "text" (JStr (strField "text" item ++ delta)) item).
Proof.
  intros Hwf Hit Htype. unfold appendText. rewrite Hit. cbn [asString]. simpl negb.
  unfold textKindName. rewrite Htype. simpl.
  set (f := fun item => setField "text" (JStr (strField "text" item ++ delta)) item).
  assert (forall item, field "id" (f item) = field "id" item) as Hf.
  { intros. by apply field_setField_ne. }
  pose proof (good_updateItem (fun _ => True) True (Some (JStr turnId)) (Some (JStr itemId)) f
    thread Hf (fun _ _ => I)) as H1.
  pose proof (good_updateTurn (fun _ => True) True turnId _
    (updateItem (Some (JStr turnId)) (Some (JStr itemId)) f thread)
    (placeholder_step turnId itemId) I) as H2.
  pose proof (good_trans _ _ _ _ _ H1 H2) as H3.
  eexists. split_and!; [done|by apply (good_wf _ _ _ _ H3)|by apply (good_id _ _ _ _ H3)|].
  apply placeholder_item; [by apply (good_wf _ _ _ _ H1)|]. by apply (updateItem_elem _ _ _ f).
Qed.

Lemma stream_fold now threadId turnId itemId ds thread c item :
  wf_thread thread -> hasId threadId thread = true ->
  itemInTurn thread (Some (JStr turnId)) (Some (JStr itemId)) = Some item ->
  isType "agentMessage" item = true ->
  exists thread' item',
    foldl (applyAll now) (thread, c)
      ((fun d => {| patch_threadId := threadId; operation := agentDelta turnId itemId d |}) <$> ds)
    = (thread', bool_decide (ds <> []) || c) /\
    itemInTurn thread' (Some (JStr turnId)) (Some (JStr itemId)) = Some item' /\
    strField "text" item' = strField "text" item ++ concat ds /\
    (forall k, k <> "text" -> field k item' = field k item).
Proof.
  intros Hwf Hid. revert thread c item Hwf Hid.
  induction ds as [|d ds IH]; intros thread c item Hwf Hid Hit Htype.
  - exists thread, item. simpl. by rewrite app_nil_r.
  - rewrite fmap_cons. cbn [foldl].
    destruct (appendText_agent thread turnId itemId d item Hwf Hit Htype)
      as (thread' & Happ & Hwf' & Hid' & Hit').
    assert (applyAll now (thread, c)
              {| patch_threadId := threadId; operation := agentDelta turnId itemId d |}
            = (touch now thread', true)) as ->.
    { unfold applyAll. cbn [fst snd]. rewrite agentDelta_apply by done. by rewrite Happ. }
    pose proof (good_touch (fun _ => True) True now thread') as Ht.
    set (item1 := setField "text" _ item) in *.
    assert (is_obj item) as Ho by by eapply isType_is_obj.
    destruct (IH (touch now thread') true item1) as (th2 & item2 & -> & Hit2 & Htx & Hrest).
    + by apply (good_wf _ _ _ _ Ht).
    + apply hasId_spec. rewrite (good_id _ _ _ _ Ht), Hid'. by apply hasId_spec.
    + apply itemInTurn_iff in Hit' as (t & Hin & ?); [|done].
      apply itemInTurn_iff; [by apply (good_wf _ _ _ _ Ht)|]. exists t.
      by rewrite turnsOf_touch.
    + unfold item1. by rewrite isType_setField.
    + exists th2, item2. split_and!; [|done| |].
      * rewrite orb_true_r. by rewrite (bool_decide_true (d :: ds <> [])).
      * rewrite Htx. unfold item1, strField at 1. rewrite field_setField_eq by done. simpl.
        cbn [concat]. by rewrite <- (assoc (++)).
      * intros k Hk. rewrite Hrest by done. by apply field_setField_ne.
Qed.

(** ** Bounds *)

Lemma boundedText_length v : length (boundedText v) <= MAX_LIVE_FIELD_CHARS.
Proof.
  unfold boundedText. destruct (Nat.leb_spec (length v) MAX_LIVE_FIELD_CHARS) as [|Hlt]; [done|].
  rewrite !length_app. unfold slice_to. rewrite length_take.
  pose proof (slice_last_length
    (MAX_LIVE_FIELD_CHARS - LIVE_HEAD_CHARS - length LIVE_TRUNCATION_MARKER) v) as Hs.
  assert (LIVE_HEAD_CHARS + length LIVE_TRUNCATION_MARKER <= MAX_LIVE_FIELD_CHARS).
  { apply Nat.leb_le. vm_compute. done. }
  lia.
Qed.

Lemma boundedText_short v : length v <= MAX_LIVE_FIELD_CHARS -> boundedText v = v.
Proof. intros Hv. unfold boundedText. by rewrite (proj2 (Nat.leb_le _ _) Hv). Qed.

Lemma boundedText_long v :
  MAX_LIVE_FIELD_CHARS < length v ->
  slice_to LIVE_HEAD_CHARS (boundedText v) = slice_to LIVE_HEAD_CHARS v /\
  exists tail, tail `suffix_of` v /\ tail `suffix_of` boundedText v /\
    LIVE_HEAD_CHARS + length LIVE_TRUNCATION_MARKER + length tail = MAX_LIVE_FIELD_CHARS.
Proof.
  intros Hv. unfold boundedText. rewrite (proj2 (Nat.leb_gt _ _) Hv).
  assert (LIVE_HEAD_CHARS + length LIVE_TRUNCATION_MARKER <= MAX_LIVE_FIELD_CHARS) as Hle.
  { apply Nat.leb_le. vm_compute. done. }
  set (n := MAX_LIVE_FIELD_CHARS - LIVE_HEAD_CHARS - length LIVE_TRUNCATION_MARKER).
  assert (length (slice_last n v) = n) as Hn.
  { unfold slice_last. rewrite length_drop. lia. }
  split.
  - unfold slice_to. rewrite take_app_le, take_take, Nat.min_id; [done|].
    rewrite length_take. lia.
  - exists (slice_last n v). split_and!; [|rewrite (assoc (++)); by eexists|lia].
    unfold slice_last. exists (take (length v - n) v). by rewrite take_drop.
Qed.

(** ** The check for incomplete batches *)

Lemma itemTypes_elem items id ty :
  mget id (itemTypes items) = Some ty ->
  exists item, item ∈ items /\ hasId id item = true /\ field "type" item = Some (JStr ty).
Proof.
  intros Hm%mget_mfrom_elem. apply list_elem_of_omap in Hm as (item & Hin & Hi).
  apply bind_Some in Hi as (id' & Hid & Hi). apply bind_Some in Hi as (ty' & Hty & [= <- <-]).
  exists item. split_and!; [done| |by apply asString_Some]. apply hasId_spec.
  by apply asString_Some.
Qed.

Lemma initialTypes_elem thread turnId known :
  mget turnId (initialTypes thread) = Some known ->
  exists turn, turn ∈ turnsOf thread /\ hasId turnId turn = true /\ known = itemTypes (itemsOf turn).
Proof.
  intros Hm%mget_mfrom_elem. apply list_elem_of_omap in Hm as (turn & Hin & Ht).
  apply fmap_Some in Ht as (id & Hid & [= -> ->]). exists turn. split_and!; [done| |done].
  apply hasId_spec. by apply asString_Some.
Qed.

(** A patch the scan accepts finds what it addresses. *)
Lemma scan_finds thread params :
  wf_thread thread -> scanPatch (initialTypes thread) params <> None ->
  (forall expected, expectedProjectionItemType params = Some expected ->
     exists item, itemInTurn thread (oget "turnId" params) (oget "itemId" params) = Some item /\
                  field "type" item = Some (JStr expected)) /\
  (turnScoped params = true ->
     exists id turn, oget "turnId" params = Some (JStr id) /\ turnInThread thread id = Some turn).
Proof.
  intros Hwf Hscan. unfold scanPatch in Hscan. split.
  - intros expected Hex.
    assert (kindIs params "turnCompleted" = false /\ kindIs params "turnStarted" = false /\
            kindIs params "itemUpsert" = false) as (E1 & E2 & E3).
    { clear Hscan. unfold expectedProjectionItemType, kindIs in *.
      repeat case_match; simplify_eq; bool_prop;
        try match goal with Hk : _ || _ = true |- _ => apply orb_true_iff in Hk as [|] end;
        split_and!; by eapply isStr_excl. }
    rewrite E1, E2, E3, Hex in Hscan. clear E1 E2 E3.
    destruct (asString (oget "turnId" params)) as [turnId|] eqn:Et; [|done].
    cbn [mbind option_bind] in Hscan.
    destruct (asString (oget "itemId" params)) as [itemId|] eqn:Ei; [|done].
    cbn [mbind option_bind] in Hscan.
    destruct (mget turnId (initialTypes thread)) as [known|] eqn:Ek; [|done].
    cbn [mbind option_bind] in Hscan.
    destruct (mget itemId known) as [actual|] eqn:Ea; [|done]. cbn [mbind option_bind] in Hscan.
    case_bool_decide; [subst|done].
    apply initialTypes_elem in Ek as (turn & Hin & Hid & ->).
    apply itemTypes_elem in Ea as (item & Hii & Hiid & Hty).
    apply asString_Some in Et, Ei. rewrite Et, Ei. exists item. split; [|done].
    apply itemInTurn_iff; [done|]. eauto.
  - intros Hts.
    assert (kindIs params "turnCompleted" = false /\ kindIs params "turnStarted" = false /\
            kindIs params "itemUpsert" = false /\ expectedProjectionItemType params = None)
      as (E1 & E2 & E3 & E4).
    { clear Hscan. unfold turnScoped, expectedProjectionItemType, kindIs in *.
      repeat match goal with Hk : _ || _ = true |- _ => apply orb_true_iff in Hk as [Hk|Hk] end;
        rewrite !(isStr_excl _ _ _ Hts) by done; done. }
    rewrite E1, E2, E3, E4, Hts in Hscan. clear E1 E2 E3 E4.
    destruct (asString (oget "turnId" params)) as [turnId|] eqn:Et; [|done].
    cbn [mbind option_bind] in Hscan.
    destruct (mget turnId (initialTypes thread)) as [known|] eqn:Ek; [|done].
    apply initialTypes_elem in Ek as (turn & Hin & Hid & _).
    exists turnId, turn. apply asString_Some in Et. split; [done|].
    by apply turnInThread_iff.
Qed.

(** ** Batches *)

Definition patches_ok (patches : list ThreadProjectionPatchV1) : Prop :=
  Forall (fun patch => payload_ok (oget "turn" (operation patch))) patches.

(** The thread a client holds: it has an id, like every thread of the protocol. *)
Definition has_id (thread : json) : Prop := exists id, field "id" thread = Some (JStr id).

Lemma has_id_obj thread : has_id thread -> is_obj thread.
Proof. intros [id Hid]. by eapply field_is_obj. Qed.

Definition within A thread patch : Prop :=
  hasId (patch_threadId patch) thread = true ->
  (forall id, addresses (operation patch) id -> A id) /\
  (kindIs (operation patch) "threadSettings" = true -> forall id, A id).

Lemma good_weaken A (ok ok' : Prop) t t' : (ok' -> ok) -> good A ok t t' -> good A ok' t t'.
Proof. intros Hok [Hw Hf Hi]. split; auto. Qed.

Lemma good_batch now A patches thread c :
  has_id thread -> Forall (within A thread) patches ->
  good A (patches_ok patches) thread (foldl (applyAll now) (thread, c) patches).1.
Proof.
  revert thread c. induction patches as [|patch patches IH]; intros thread c Hid Hw;
    cbn [foldl]; [apply good_refl|].
  apply Forall_cons in Hw as [Hp Hw].
  pose proof (good_patch now A thread patch (has_id_obj _ Hid) Hp) as H1.
  unfold applyAll at 2. cbn [fst snd].
  destruct (applyThreadProjectionPatch now thread patch) as [next changed]. cbn [fst] in H1.
  assert (has_id next) as Hid'.
  { destruct Hid as [id Hid]. exists id. by rewrite (good_id _ _ _ _ H1). }
  eapply good_trans.
  - eapply good_weaken; [|exact H1]. intros Hok. by apply Forall_cons in Hok as [? _].
  - eapply good_weaken; [|apply IH; [done|]].
    + intros Hok. by apply Forall_cons in Hok as [_ ?].
    + eapply Forall_impl; [exact Hw|]. intros q Hq Hqid. apply Hq.
      apply hasId_spec. apply hasId_spec in Hqid. by rewrite (good_id _ _ _ _ H1) in Hqid.
Qed.

Lemma within_all thread patches : Forall (within (fun _ => True) thread) patches.
Proof. apply Forall_forall. intros p _ _. done. Qed.

(** Every addressed turn is among the affected ones. *)
Lemma affected_spec thread patches patch id :
  patch ∈ patches -> hasId (patch_threadId patch) thread = true ->
  addresses (operation patch) id -> id ∈ affectedTurnIds thread patches.
Proof.
  unfold affectedTurnIds. set (f := fun _ _ => _).
  assert (forall acc p x, x ∈ acc -> x ∈ f acc p) as Hmono.
  { intros acc p x Hx. unfold f. repeat case_match; rewrite ?elem_of_sadd; auto. }
  assert (forall l acc x, x ∈ acc -> x ∈ foldl f acc l) as Hfold.
  { induction l as [|p l IH]; intros acc x Hx; simpl; [done|]. by apply IH, Hmono. }
  generalize (@nil jstr) as acc. induction patches as [|p l IH]; intros acc Hin Hid Ha;
    [by apply elem_of_nil in Hin|]. simpl.
  apply elem_of_cons in Hin as [<-|Hin]; [|by apply IH].
  apply Hfold. unfold f. rewrite Hid. destruct Ha as [Ha|Ha].
  - rewrite Ha. repeat case_match; rewrite ?elem_of_sadd; auto.
  - rewrite Ha. rewrite elem_of_sadd. auto.
Qed.

Lemma setField_same k v x : field k v = Some x -> setField k x v = v.
Proof.
  destruct v as [| | | | |o]; try done. simpl. unfold oget, oset. intros Hk. f_equal.
  revert Hk. induction o as [|[k' v'] o IH]; [done|]. simpl.
  case_bool_decide; subst; intros; simplify_eq; [done|]. by rewrite IH.
Qed.

Lemma existsb_false_elem {B} (p : B -> bool) l x : existsb p l = false -> x ∈ l -> p x = false.
Proof.
  intros Hf Hx. destruct (p x) eqn:E; [|done]. exfalso.
  apply not_true_iff_false in Hf. apply Hf, existsb_elem. eauto.
Qed.

End reducer_facts.

(** ** Two lookups *)

Section two_lookups.
Context (L1 L2 : EventLookup).

Lemma turnIndex_eq thread id : wf_thread thread -> turnIndex (EventLookup := L1) thread id = turnIndex (EventLookup := L2) thread id.
Proof.
  intros (_ & Hnd & _). by apply (finds_unique (turnsOf thread) id); try apply turnIndex_finds.
Qed.

Lemma itemIndex_eq turn id itemId : wf_turn turn -> itemIndex (EventLookup := L1) turn id itemId = itemIndex (EventLookup := L2) turn id itemId.
Proof.
  intros [_ Hnd]. by apply (finds_unique (itemsOf turn) itemId); try apply itemIndex_finds.
Qed.

Lemma turnInThread_eq thread id : wf_thread thread -> @turnInThread L1 thread id = @turnInThread L2 thread id.
Proof. intros. unfold turnInThread. by rewrite turnIndex_eq. Qed.

Lemma itemInTurn_eq thread a b : wf_thread thread -> @itemInTurn L1 thread a b = @itemInTurn L2 thread a b.
Proof.
  intros Hwf. unfold itemInTurn. destruct (asString a) as [t|]; [|done].
  destruct (asString b) as [i|]; [|done]. cbn [mbind option_bind].
  rewrite turnInThread_eq by done.
  destruct (@turnInThread L2 thread t) as [turn|] eqn:E; [|done]. cbn [mbind option_bind].
  apply turnInThread_iff in E as [Hin _]; [|done].
  rewrite itemIndex_eq; [done|]. by eapply wf_turn_elem.
Qed.

Lemma updateTurn_eq thread id f g :
  wf_thread thread -> (forall turn, wf_turn turn -> f turn = g turn) ->
  @updateTurn L1 id f thread = @updateTurn L2 id g thread.
Proof.
  intros Hwf Hfg. unfold updateTurn. rewrite turnIndex_eq by done.
  case_match; [|done]. f_equal. apply list_eq. intros j.
  rewrite !list_lookup_alter. case_decide; subst; [|done].
  destruct (turnsOf thread !! _) as [t|] eqn:E; [|done]. simpl. f_equal. apply Hfg.
  eapply wf_turn_elem; [exact Hwf|]. by eapply list_elem_of_lookup_2.
Qed.

Lemma updateItem_eq thread a b f :
  wf_thread thread -> @updateItem L1 a b f thread = @updateItem L2 a b f thread.
Proof.
  intros Hwf. unfold updateItem. destruct (asString a); [|done]. destruct (asString b); [|done].
  apply updateTurn_eq; [done|]. intros turn Ht. by rewrite itemIndex_eq.
Qed.

Lemma updateMetadata_eq thread a f :
  wf_thread thread -> @updateMetadata L1 a f thread = @updateMetadata L2 a f thread.
Proof. intros Hwf. unfold updateMetadata. destruct (asString a); [|done]. by apply updateTurn_eq. Qed.

Lemma snapshot_eq thread a :
  wf_thread thread -> @snapshotTurnExecution L1 a thread = @snapshotTurnExecution L2 a thread.
Proof.
  intros Hwf. unfold snapshotTurnExecution. destruct (asString a); [|done].
  destruct (projectedThreadExecutionSettings thread); [|done]. by apply updateMetadata_eq.
Qed.

(** [good] with no restriction on the turns: it only carries well-formedness. *)
Lemma wf_of_good ok thread thread' :
  good (fun _ => True) ok thread thread' -> ok -> wf_thread thread -> wf_thread thread'.
Proof. intros Hg. apply (good_wf _ _ _ _ Hg). Qed.

Lemma seed_eq thread s :
  wf_thread thread -> @seedThreadExecutionSettings L1 s thread = @seedThreadExecutionSettings L2 s thread.
Proof.
  intros Hwf. unfold seedThreadExecutionSettings. set (l := seq 0 _). clearbody l.
  match goal with |- foldl _ ?t _ = _ => assert (wf_thread t) as Hs end.
  { apply (wf_of_good True thread); [|done..]. unfold updateCodewide.
    repeat (eapply good_trans; [|by apply good_setField]). apply good_refl. }
  match goal with |- foldl _ ?t _ = _ => revert Hs; generalize t end.
  induction l as [|i l IH]; intros t0 Ht0; simpl; [done|].
  assert (@snapshotIfMissing L1 t0 i = @snapshotIfMissing L2 t0 i) as ->.
  { unfold snapshotIfMissing. destruct (turnsOf t0 !! i); [|done].
    destruct (_ && _); [|done]. by apply snapshot_eq. }
  apply IH. unfold snapshotIfMissing. repeat case_match; try done.
  apply (wf_of_good True t0); [|done..]. by apply good_snapshot.
Qed.

Lemma upsertTurn_eq thread value :
  wf_thread thread -> @upsertTurn L1 value thread = @upsertTurn L2 value thread.
Proof.
  intros Hwf. unfold upsertTurn. case_match; [|done]. case_match. by rewrite turnIndex_eq.
Qed.

Lemma upsertItem_eq thread a value :
  wf_thread thread -> @upsertItem L1 a value thread = @upsertItem L2 a value thread.
Proof.
  intros Hwf. unfold upsertItem. destruct (asString a); [|done]. destruct (asObject value); [|done].
  destruct (asString _); [|done]. apply updateTurn_eq; [done|]. intros turn Ht.
  unfold upsertItemInTurn. by rewrite itemIndex_eq.
Qed.

Lemma lifecycle_eq thread a v p :
  wf_thread thread ->
  @itemWithLifecycleMetadata L1 thread a v p = @itemWithLifecycleMetadata L2 thread a v p.
Proof.
  intros Hwf. unfold itemWithLifecycleMetadata. destruct (asObject v); [|done].
  destruct (asString a) as [t|]; [|done]. cbn [mbind option_bind]. by rewrite turnInThread_eq.
Qed.

Lemma appendText_eq thread a b d kind :
  wf_thread thread -> @appendText L1 a b d kind thread = @appendText L2 a b d kind thread.
Proof.
  intros Hwf. unfold appendText. destruct (asString d) as [delta|]; [|done].
  rewrite itemInTurn_eq by done. destruct (@itemInTurn L2 thread a b); [|done].
  destruct (negb _); [done|].
  destruct kind; unfold appendAgentText; rewrite updateItem_eq by done; [|done..].
  destruct (asString a) as [t|]; [|done]. destruct (asString b) as [i|]; [|done].
  f_equal. apply updateTurn_eq; [|done].
  apply (wf_of_good True thread); [|done..]. apply good_updateItem; [item_id|done].
Qed.

Lemma applyOperation_eq params thread :
  wf_thread thread -> payload_ok (oget "turn" params) ->
  @applyOperation L1 params thread = @applyOperation L2 params thread.
Proof.
  intros Hwf Hok. unfold applyOperation.
  assert (wf_thread (@upsertTurn L2 (oget "turn" params) thread)) as Hup.
  { apply (wf_of_good True thread); [|done..].
    apply good_upsertTurn; [by apply wf_is_obj|done|done]. }
  case_match; [done|]. case_match; [done|]. case_match.
  { unfold updateThreadSettings. case_match; [|done]. case_match. by rewrite seed_eq. }
  case_match; [by rewrite upsertTurn_eq, snapshot_eq|].
  case_match.
  { rewrite upsertTurn_eq by done. unfold updateTurnUsage. case_match; [|done].
    by rewrite updateMetadata_eq. }
  case_match.
  { unfold updateReroutedModel. destruct (asString _); [|done]. by rewrite updateMetadata_eq. }
  case_match; [by rewrite lifecycle_eq, upsertItem_eq|].
  destruct (if kindIs params "itemTextDelta" then _ else None) as [kind|].
  { unfold applyTextDelta. rewrite itemInTurn_eq by done. case_match; [by rewrite updateItem_eq|].
    by apply appendText_eq. }
  case_match.
  { unfold updateFileChanges. destruct (asArray _); [|done]. by rewrite updateItem_eq. }
  case_match.
  { unfold appendMcpProgress. destruct (asString _) as [m|]; [|done].
    destruct (bool_decide (m = [])); [done|]. by rewrite updateItem_eq. }
  case_match.
  { unfold updateTurnUsage. case_match; [|done]. by rewrite updateMetadata_eq. }
  case_match.
  { unfold updateTurnDiff. destruct (asString _); [|done]. by rewrite updateMetadata_eq. }
  case_match.
  { unfold updateTurnPlan. destruct (asArray _); [|done]. by rewrite updateMetadata_eq. }
  assert (forall a b i n, n <> "id" ->
            @addReasoningPart L1 a b i n thread = @addReasoningPart L2 a b i n thread) as Hr.
  { intros. unfold addReasoningPart. destruct (asSafeNat i); [|done]. by apply updateItem_eq. }
  assert (forall name, reasoningField params = Some name -> name <> "id") as Hname.
  { unfold reasoningField. intros name. clear. repeat case_match; by intros [= <-]. }
  destruct (if kindIs params "reasoningPart" then _ else None) as [name|] eqn:E1.
  { rewrite Hr; [done|]. apply Hname. by destruct (kindIs params "reasoningPart"). }
  destruct (if kindIs params "reasoningDelta" then _ else None) as [name|] eqn:E2; [|done].
  assert (name <> "id") by (apply Hname; by destruct (kindIs params "reasoningDelta")).
  unfold appendReasoning. destruct (asString _); [|done].
  destruct (asSafeNat _) eqn:Ei; [|done]. rewrite Hr, updateItem_eq; [done| |done].
  apply (wf_of_good True thread); [|done..]. by apply good_reasoning.
Qed.

Lemma patch_eq now thread patch :
  has_id thread -> wf_thread thread -> payload_ok (oget "turn" (operation patch)) ->
  @applyThreadProjectionPatch L1 now thread patch = @applyThreadProjectionPatch L2 now thread patch.
Proof.
  intros Hid Hwf Hok. unfold applyThreadProjectionPatch. case_match; [done|].
  rewrite applyOperation_eq by done.
  pose proof (@good_applyOperation L2 (fun _ => True) (operation patch) thread
    (has_id_obj _ Hid) (fun _ _ => I) (fun _ _ => I)) as Hg.
  destruct (@applyOperation L2 (operation patch) thread) as [t1 c1]. cbn [fst] in Hg.
  pose proof (wf_of_good _ _ _ Hg Hok Hwf) as Hwf1.
  assert (@applyFootprint L1 (operation patch) t1 = @applyFootprint L2 (operation patch) t1) as ->.
  { unfold applyFootprint. case_match; [|done]. by apply updateItem_eq. }
  assert (wf_thread (@applyFootprint L2 (operation patch) t1)) as Hwf2.
  { apply (wf_of_good True t1); [|done..]. unfold applyFootprint. case_match; [|apply good_refl].
    apply good_updateItem; [item_id|done]. }
  assert (forall st, wf_thread st.1 ->
            @applyMetrics L1 (operation patch) st = @applyMetrics L2 (operation patch) st) as Hm.
  { intros st Hst. unfold applyMetrics. destruct (parseActivityMetrics _).
    - destruct (asString _); [|done]. by rewrite updateMetadata_eq.
    - destruct (asString _); [|done]. case_bool_decide; [|done]. by rewrite updateMetadata_eq. }
  by rewrite Hm.
Qed.

Lemma batch_eq now thread c patches :
  has_id thread -> wf_thread thread -> patches_ok patches ->
  foldl (@applyAll L1 now) (thread, c) patches = foldl (@applyAll L2 now) (thread, c) patches.
Proof.
  revert thread c. induction patches as [|patch patches IH]; intros thread c Hid Hwf Hok; [done|].
  apply Forall_cons in Hok as [Hp Hok]. cbn [foldl]. unfold applyAll at 2 4. cbn [fst snd].
  rewrite patch_eq by done.
  pose proof (@good_patch L2 now (fun _ => True) thread patch (has_id_obj _ Hid)
    (fun _ => conj (fun _ _ => I) (fun _ _ => I))) as Hg.
  destruct (@applyThreadProjectionPatch L2 now thread patch) as [next ch]. cbn [fst] in Hg.
  apply IH; [|by apply (wf_of_good _ _ _ Hg)|done].
  destruct Hid as [id Hid]. exists id. by rewrite (good_id _ _ _ _ Hg).
Qed.
End two_lookups.

(** ** Text deltas *)

Lemma textKindOf_name v kind :
  textKindOf v = Some kind -> default [] (asString v) = js (textKindName kind).
Proof.
  unfold textKindOf. intros H.
  repeat (case_match; [match goal with E : isStr _ _ = true |- _ => apply isStr_spec in E end;
                       by simplify_eq|]). done.
Qed.

Section text_delta.
Context `{EventLookup}.

Lemma kind_excl params a b : kindIs params a = true -> js a <> js b -> kindIs params b = false.
Proof. apply isStr_excl. Qed.

Lemma applyMetrics_changed params st : st.2 = true -> (applyMetrics params st).2 = true.
Proof. intros Hs. unfold applyMetrics. by repeat case_match. Qed.

(** A text delta for an item of its kind is applied. *)
Lemma text_delta_applied now thread patch kind delta :
  hasId (patch_threadId patch) thread = true ->
  kindIs (operation patch) "itemTextDelta" = true ->
  textKindOf (oget "itemType" (operation patch)) = Some kind ->
  oget "delta" (operation patch) = Some (JStr delta) ->
  (exists item, itemInTurn thread (oget "turnId" (operation patch))
                  (oget "itemId" (operation patch)) = Some item /\
     isType (textKindName kind) item = true) ->
  (applyThreadProjectionPatch now thread patch).2 = true.
Proof.
  intros Hid Hk Htk Hd (item & Hit & Hty). unfold applyThreadProjectionPatch. rewrite Hid.
  cbn [negb]. assert ((applyOperation (operation patch) thread).2 = true) as Hop.
  { unfold applyOperation. rewrite !(kind_excl _ _ _ Hk) by done. cbn [andb]. rewrite Hk, Htk.
    unfold applyTextDelta. case_match; [done|]. unfold appendText. rewrite Hd, Hit.
    cbn [asString]. rewrite Hty. simpl. by destruct kind. }
  destruct (applyOperation (operation patch) thread) as [t c]. cbn [snd] in Hop. subst c.
  pose proof (applyMetrics_changed (operation patch) (applyFootprint (operation patch) t, true)
    eq_refl) as Hm.
  by destruct (applyMetrics _ _).
Qed.
End text_delta.
