(* ===== verification/ThreadSharing.v ===== *)
(** * What a batch leaves of its source

    Laws of the copy in [applyThreadProjectionPatchesImmutable]: the objects the
    new thread shares with the cached one, how a patch writes through them, and
    when the source comes out unchanged. *)
From S2P Require Import Prelude JsMap Json ThreadItems Readers EventIndex ThreadEvents ThreadLaws.

Local Open Scope nat_scope.

Section sharing.
Context `{EventLookup}.
Implicit Types (aff : jstr -> jstr -> Prop) (thread turn item : json) (copied : list (option nat)).

(** ** What a patch does to the items

    [aff turnId itemId]: the batch addresses the item.  An item it spares is the
    same object with the same contents at its new position. *)
Definition spared aff turn item : Prop :=
  forall turnId itemId, hasId turnId turn = true -> aff turnId itemId -> hasId itemId item = false.

Definition kept aff turn item item' : Prop :=
  field "id" item' = field "id" item /\ (spared aff turn item -> item' = item).

Definition items_kept aff turn turn' : Prop :=
  field "id" turn' = field "id" turn /\
  forall j item, itemsOf turn !! j = Some item ->
    exists item', itemsOf turn' !! j = Some item' /\ kept aff turn item item'.

(** A step that writes to no slot. *)
Definition in_place aff thread thread' : Prop :=
  length (turnsOf thread') = length (turnsOf thread) /\
  forall i turn, turnsOf thread !! i = Some turn ->
    exists turn', turnsOf thread' !! i = Some turn' /\ items_kept aff turn turn'.

Lemma kept_refl aff turn item : kept aff turn item item.
Proof. done. Qed.

Lemma spared_id aff turn turn' item item' :
  field "id" turn' = field "id" turn -> field "id" item' = field "id" item ->
  spared aff turn item -> spared aff turn' item'.
Proof. intros Ht Hi Hs T x. unfold hasId. rewrite Ht, Hi. apply Hs. Qed.

Lemma kept_trans aff turn turn' a b c :
  field "id" turn' = field "id" turn -> kept aff turn a b -> kept aff turn' b c ->
  kept aff turn a c.
Proof.
  intros Ht [H1 H2] [H3 H4]. split; [congruence|]. intros Hs. rewrite H4; [by apply H2|].
  by eapply spared_id.
Qed.

Lemma items_kept_refl aff turn : items_kept aff turn turn.
Proof. split; [done|]. intros j item Hj. exists item. split; [done|apply kept_refl]. Qed.

Lemma in_place_refl aff thread : in_place aff thread thread.
Proof. split; [done|]. intros i t Ht. exists t. split; [done|apply items_kept_refl]. Qed.

Lemma in_place_trans aff t1 t2 t3 : in_place aff t1 t2 -> in_place aff t2 t3 -> in_place aff t1 t3.
Proof.
  intros [Hl1 H1] [Hl2 H2]. split; [congruence|]. intros i t Ht.
  destruct (H1 i t Ht) as (t' & Ht' & Hid & Hit). destruct (H2 i t' Ht') as (u & Hu & Hid' & Hit').
  exists u. split; [done|]. split; [congruence|]. intros j item Hj.
  destruct (Hit j item Hj) as (item' & Hj' & Hk). destruct (Hit' j item' Hj') as (v & Hv & Hk').
  exists v. split; [done|]. by eapply kept_trans.
Qed.

Lemma in_place_setField aff k v thread : k <> "turns" -> in_place aff thread (setField k v thread).
Proof.
  intros Hk. assert (turnsOf (setField k v thread) = turnsOf thread) as Ht
    by by apply arrField_setField_ne.
  unfold in_place. rewrite Ht. apply in_place_refl.
Qed.

Lemma in_place_updateTurn aff turnId f thread :
  (forall turn, hasId turnId turn = true -> items_kept aff turn (f turn)) ->
  in_place aff thread (updateTurn turnId f thread).
Proof.
  intros Hf. unfold updateTurn. destruct (turnIndex thread turnId) as [i|] eqn:E;
    [|apply in_place_refl].
  apply turnIndex_Some in E as (t & Ht & Hid). pose proof (arrField_is_obj _ _ _ _ Ht) as Ho.
  unfold in_place. rewrite turnsOf_setTurns by done. split; [apply length_alter|].
  intros j u Hu. rewrite list_lookup_alter. case_decide.
  - subst. rewrite Hu. simplify_eq. eexists. split; [done|]. by apply Hf.
  - exists u. split; [done|apply items_kept_refl].
Qed.

Lemma items_kept_codewide aff f turn : items_kept aff turn (updateCodewide f turn).
Proof.
  split; [by apply field_setField_ne|]. intros j item Hj. exists item. split; [|apply kept_refl].
  unfold itemsOf, updateCodewide. by rewrite arrField_setField_ne.
Qed.

Lemma in_place_updateMetadata aff rawTurnId f thread :
  in_place aff thread (updateMetadata rawTurnId f thread).
Proof.
  unfold updateMetadata. case_match; [|apply in_place_refl].
  apply in_place_updateTurn. intros. apply items_kept_codewide.
Qed.

Lemma in_place_updateItem aff rawTurnId rawItemId f thread :
  (forall item, field "id" (f item) = field "id" item) ->
  (forall turnId itemId, asString rawTurnId = Some turnId -> asString rawItemId = Some itemId ->
     aff turnId itemId) ->
  in_place aff thread (updateItem rawTurnId rawItemId f thread).
Proof.
  intros Hf Ha. unfold updateItem. destruct (asString rawTurnId) as [T|]; [|apply in_place_refl].
  destruct (asString rawItemId) as [x|]; [|apply in_place_refl].
  apply in_place_updateTurn. intros turn HT.
  destruct (itemIndex turn T x) as [i|] eqn:E; [|apply items_kept_refl].
  apply itemIndex_Some in E as (v & Hv & Hid). pose proof (arrField_is_obj _ _ _ _ Hv) as Ho.
  split; [apply setItems_id|]. intros j item Hj. rewrite itemsOf_setItems by done.
  rewrite list_lookup_alter. case_decide; subst; [|exists item; split; [done|apply kept_refl]].
  rewrite Hj. simplify_eq. eexists. split; [done|]. split; [apply Hf|]. intros Hs.
  rewrite (Hs T x) in Hid; [done..|by apply Ha].
Qed.

Lemma in_place_snapshot aff rawTurnId thread :
  in_place aff thread (snapshotTurnExecution rawTurnId thread).
Proof.
  unfold snapshotTurnExecution. repeat case_match; try apply in_place_refl.
  apply in_place_updateMetadata.
Qed.

Lemma in_place_usage aff rawTurnId usage thread :
  in_place aff thread (updateTurnUsage rawTurnId usage thread).
Proof.
  unfold updateTurnUsage. case_match; [apply in_place_updateMetadata|apply in_place_refl].
Qed.

Lemma in_place_seed aff s thread : in_place aff thread (seedThreadExecutionSettings s thread).
Proof.
  unfold seedThreadExecutionSettings. set (l := seq 0 _). clearbody l.
  match goal with |- in_place _ _ (foldl _ ?t _) => assert (in_place aff thread t) as Hs end.
  { unfold updateCodewide.
    repeat (eapply in_place_trans; [|by apply in_place_setField]). apply in_place_refl. }
  match goal with |- in_place _ _ (foldl _ ?t _) => revert Hs; generalize t end.
  induction l as [|i l IH]; intros t Ht; simpl; [done|]. apply IH.
  eapply in_place_trans; [exact Ht|]. unfold snapshotIfMissing.
  repeat case_match; try apply in_place_refl. apply in_place_snapshot.
Qed.

Lemma in_place_reasoning aff turnId itemId index name thread :
  name <> "id" ->
  (forall T x, asString turnId = Some T -> asString itemId = Some x -> aff T x) ->
  in_place aff thread (addReasoningPart turnId itemId index name thread).
Proof.
  intros Hn Ha. unfold addReasoningPart. case_match; [|apply in_place_refl].
  apply in_place_updateItem; [item_id|done].
Qed.

(** ** Kinds that write to slots *)

Definition slotKind (params : jobj) : bool :=
  kindIs params "turnStarted" || kindIs params "turnCompleted" || kindIs params "itemUpsert"
  || (kindIs params "itemTextDelta" && isStr (oget "itemType" params) "agentMessage").

Lemma operation_in_place aff params thread :
  slotKind params = false ->
  (forall T x, asString (oget "turnId" params) = Some T ->
     asString (oget "itemId" params) = Some x -> aff T x) ->
  in_place aff thread (applyOperation params thread).1.
Proof.
  intros Hs Ha. unfold slotKind in Hs.
  apply orb_false_iff in Hs as [[[H1 H2]%orb_false_iff H3]%orb_false_iff H4].
  unfold applyOperation. rewrite H1, H2, H3.
  case_match; [simpl; unfold setStatus|].
  { case_match; [eapply in_place_trans; [|by apply in_place_setField]|]; by apply in_place_setField. }
  case_match; [by apply in_place_setField|].
  case_match.
  { simpl. unfold updateThreadSettings. case_match; [|apply in_place_refl].
    repeat case_match. apply in_place_seed. }
  case_match.
  { simpl. unfold updateReroutedModel. case_match; [apply in_place_updateMetadata|apply in_place_refl]. }
  destruct (if kindIs params "itemTextDelta" then _ else None) as [kind|] eqn:Ek.
  { destruct (kindIs params "itemTextDelta"); [|done]. simpl in H4. unfold applyTextDelta.
    destruct (match kind with CommandExecution => _ | _ => None end).
    { apply in_place_updateItem; [intros; apply append_reference_id|done]. }
    unfold appendText. destruct (asString (oget "delta" params)); [|apply in_place_refl].
    destruct (itemInTurn _ _ _); [|apply in_place_refl].
    destruct (negb _); [apply in_place_refl|].
    destruct kind; [|apply in_place_updateItem; [item_id|done]..].
    exfalso. unfold textKindOf in Ek. rewrite H4 in Ek. by repeat case_match. }
  clear Ek H4. case_match.
  { simpl. unfold updateFileChanges. case_match; [|apply in_place_refl].
    apply in_place_updateItem; [item_id|done]. }
  case_match.
  { simpl. unfold appendMcpProgress. repeat case_match; try apply in_place_refl.
    apply in_place_updateItem; [item_id|done]. }
  case_match; [apply in_place_usage|].
  case_match.
  { simpl. unfold updateTurnDiff. case_match; [apply in_place_updateMetadata|apply in_place_refl]. }
  case_match.
  { simpl. unfold updateTurnPlan. case_match; [apply in_place_updateMetadata|apply in_place_refl]. }
  assert (forall name, reasoningField params = Some name -> name <> "id") as Hname.
  { unfold reasoningField. intros name. repeat case_match; by intros [= <-]. }
  destruct (if kindIs params "reasoningPart" then _ else None) as [name|] eqn:E1.
  { apply in_place_reasoning; [|done]. apply Hname. by destruct (kindIs params "reasoningPart"). }
  clear E1. destruct (if kindIs params "reasoningDelta" then _ else None) as [name|] eqn:E2;
    [|apply in_place_refl].
  assert (name <> "id") as Hn by (apply Hname; by destruct (kindIs params "reasoningDelta")).
  clear E2. simpl. unfold appendReasoning. repeat case_match; try apply in_place_refl.
  eapply in_place_trans; [by apply in_place_reasoning|]. apply in_place_updateItem; [item_id|done].
Qed.

(** ** Slots

    Every item the copy still shares after a step was shared before it, and is
    what the step made of it. *)
Definition traced aff turn turn' copied copied' : Prop :=
  forall j l, copied' !! j = Some (Some l) ->
    exists k, copied !! k = Some (Some l) /\
      forall item, itemsOf turn !! k = Some item ->
        exists item', itemsOf turn' !! j = Some item' /\ kept aff turn item item'.

Definition unshared (copy : TurnCopy) : Prop :=
  copy_sharesMetadata copy = false /\ copy_sharesArray copy = false /\
  forall j l, copy_items copy !! j <> Some (Some l).

Definition copy_traced aff thread thread' i (copy copy' : TurnCopy) : Prop :=
  copy_sharesMetadata copy' = copy_sharesMetadata copy /\
  copy_sharesArray copy' = copy_sharesArray copy /\
  (forall j l, copy_items copy' !! j = Some (Some l) -> exists k, copy_items copy !! k = Some (Some l)) /\
  forall turn, turnsOf thread !! i = Some turn ->
    exists turn', turnsOf thread' !! i = Some turn' /\ field "id" turn' = field "id" turn /\
      traced aff turn turn' (copy_items copy) (copy_items copy').

Definition owners_traced aff thread thread' (ow ow' : list TurnOwner) : Prop :=
  forall i,
    (ow' !! i = Some SharedTurn -> ow !! i = Some SharedTurn) /\
    (forall copy', ow' !! i = Some (OwnTurn copy') ->
       unshared copy' \/
       exists copy, ow !! i = Some (OwnTurn copy) /\ copy_traced aff thread thread' i copy copy').

Lemma traced_trans aff t1 t2 t3 c1 c2 c3 :
  field "id" t2 = field "id" t1 ->
  traced aff t1 t2 c1 c2 -> traced aff t2 t3 c2 c3 -> traced aff t1 t3 c1 c3.
Proof.
  intros Hid H1 H2 j l Hj. destruct (H2 j l Hj) as (k & Hk & Hi).
  destruct (H1 k l Hk) as (m & Hm & Hi'). exists m. split; [done|]. intros item Ht.
  destruct (Hi' item Ht) as (a & Ha & Hka). destruct (Hi a Ha) as (b & Hb & Hkb).
  exists b. split; [done|]. by eapply kept_trans.
Qed.

Lemma traced_in_place aff turn turn' copied :
  items_kept aff turn turn' -> traced aff turn turn' copied copied.
Proof. intros [_ Hk] j l Hj. exists j. split; [done|]. apply Hk. Qed.

Lemma in_place_traced aff thread thread' ow :
  in_place aff thread thread' -> owners_traced aff thread thread' ow ow.
Proof.
  intros [_ Hi] i. split; [done|]. intros c Hc. right. exists c. split; [done|].
  split_and!; [done|done|eauto|].
  intros t Ht. destruct (Hi i t Ht) as (t' & Ht' & Hk). exists t'.
  split_and!; [done|apply Hk|]. by apply traced_in_place.
Qed.

Lemma owners_traced_trans aff t1 t2 t3 o1 o2 o3 :
  owners_traced aff t1 t2 o1 o2 -> owners_traced aff t2 t3 o2 o3 -> owners_traced aff t1 t3 o1 o3.
Proof.
  intros H1 H2 i. destruct (H1 i) as [Hs1 Ho1], (H2 i) as [Hs2 Ho2]. split; [by auto|].
  intros c3 Hc3. destruct (Ho2 c3 Hc3) as [|(c2 & Hc2 & Hm & Ha & Hs & Ht)]; [by left|].
  destruct (Ho1 c2 Hc2) as [(Hm2 & Ha2 & Hno)|(c1 & Hc1 & Hm1 & Ha1 & Hsub1 & Ht1)].
  - left. split_and!; [congruence..|]. intros j l Hj. destruct (Hs j l Hj) as [k Hk].
    by apply (Hno k l).
  - right. exists c1. split; [done|]. split_and!; [congruence..| |].
    { intros j l Hj. destruct (Hs j l Hj) as [k Hk]. by apply (Hsub1 k). }
    intros t Hti.
    destruct (Ht1 t Hti) as (t' & Ht' & Hid & Htr). destruct (Ht t' Ht') as (u & Hu & Hid' & Htr').
    exists u. split_and!; [done|congruence|]. by eapply traced_trans.
Qed.

(** *** The slot writes *)

Lemma lookup_delete_some {B} (l : list B) i j x :
  delete i l !! j = Some x -> l !! (if decide (j < i) then j else S j) = Some x.
Proof. case_decide; by rewrite ?list_lookup_delete_lt, ?list_lookup_delete_ge by lia. Qed.

Lemma lookup_delete_at {B} (l : list B) i j :
  delete i l !! j = l !! (if decide (j < i) then j else S j).
Proof. case_decide; by rewrite ?list_lookup_delete_lt, ?list_lookup_delete_ge by lia. Qed.

Lemma traced_placeholder aff turnId itemId turn copied :
  traced aff turn (removeMatchingAgentPlaceholder turnId itemId turn) copied
    (dropPlaceholder turnId itemId turn copied).
Proof.
  unfold removeMatchingAgentPlaceholder, dropPlaceholder. case_match.
  - intros j l Hj. apply lookup_delete_some in Hj. eexists. split; [exact Hj|].
    intros item Hi. exists item. split; [|apply kept_refl].
    rewrite itemsOf_setItems by (by eapply arrField_is_obj). by rewrite lookup_delete_at.
  - apply traced_in_place, items_kept_refl.
Qed.

Lemma traced_insert aff turn copied i (f : list json -> list json) :
  (forall j, j <> i -> f (itemsOf turn) !! j = itemsOf turn !! j) ->
  traced aff turn (setItems (f (itemsOf turn)) turn) copied (<[i := None]> copied).
Proof.
  intros Hf j l Hj. destruct (decide (j = i)) as [->|Hne].
  - apply list_lookup_insert_Some in Hj as [(_ & [=] & _)|(? & _)]. done.
  - rewrite list_lookup_insert_ne in Hj by done. exists j. split; [done|]. intros item Hi.
    exists item. split; [|apply kept_refl].
    rewrite itemsOf_setItems by (by eapply arrField_is_obj). by rewrite Hf.
Qed.

Lemma traced_push aff turn copied item :
  traced aff turn (setItems (itemsOf turn ++ [item]) turn) copied copied.
Proof.
  intros j l Hj. exists j. split; [done|]. intros v Hv. exists v. split; [|apply kept_refl].
  rewrite itemsOf_setItems by (by eapply arrField_is_obj).
  by rewrite lookup_app_l by (by eapply lookup_lt_Some).
Qed.

Lemma upsert_traced aff turnId itemId nextItem turn copied :
  traced aff turn (upsertItemInTurn turnId itemId nextItem turn) copied
    (upsertCopyItems turnId itemId nextItem turn copied).
Proof.
  unfold upsertItemInTurn, upsertCopyItems. case_match; [|case_match].
  - eapply traced_trans; [apply setItems_id| |apply traced_placeholder].
    apply (traced_insert _ _ _ _ (fun items => <[_ := nextItem]> items)).
    intros j Hj. by apply list_lookup_insert_ne.
  - apply (traced_insert _ _ _ _ (alter (preserveProjectedUserClientId nextItem) _)).
    intros j Hj. by apply list_lookup_alter_ne.
  - eapply traced_trans; [apply setItems_id|apply traced_push|apply traced_placeholder].
Qed.

(** A write to the slots of the addressed turn. *)
Lemma owners_traced_turn aff turnId f g thread ow :
  (forall turn copied, hasId turnId turn = true ->
     field "id" (f turn) = field "id" turn /\ traced aff turn (f turn) copied (g turn copied)) ->
  owners_traced aff thread (updateTurn turnId f thread) ow (updateCopy turnId g thread ow).
Proof.
  intros Hf. unfold updateTurn, updateCopy.
  destruct (turnIndex thread turnId) as [i|] eqn:E; [|apply in_place_traced, in_place_refl].
  apply turnIndex_Some in E as (t & Ht & Hid). pose proof (arrField_is_obj _ _ _ _ Ht) as Ho.
  rewrite Ht. intros k. destruct (decide (i = k)) as [<-|Hik].
  - destruct (ow !! i) as [[|c]|] eqn:Ec.
    + rewrite Ec. split; [done|]. intros c' [=].
    + rewrite list_lookup_insert_eq by (by eapply lookup_lt_Some). split; [by intros [=]|].
      intros c' [= <-]. right. exists c. split; [done|]. split_and!; [done|done| |].
      * intros j l Hj. destruct (Hf t (copy_items c) Hid) as [_ Htr].
        destruct (Htr j l Hj) as (m & Hm & _). eauto.
      * intros t' Ht'. simplify_eq. rewrite turnsOf_setTurns, list_lookup_alter_eq, Ht by done.
        eexists. split; [done|]. by apply Hf.
    + rewrite Ec. split; [done|]. intros c' [=].
  - assert (forall ow', (match ow !! i with Some (OwnTurn c) => <[i := ow' c]> ow | _ => ow end)
              !! k = ow !! k) as Hk.
    { intros ow'. repeat case_match; try done. by apply list_lookup_insert_ne. }
    rewrite (Hk (fun c => OwnTurn _)). split; [done|]. intros c Hc. right. exists c.
    split; [done|]. split_and!; [done|done|eauto|]. intros t' Ht'. exists t'.
    rewrite turnsOf_setTurns, list_lookup_alter_ne by done. split_and!; [done..|].
    apply traced_in_place, items_kept_refl.
Qed.

Lemma owners_traced_upsertItem aff rawTurnId value thread ow :
  owners_traced aff thread (upsertItem rawTurnId value thread) ow
    (upsertItemOwner rawTurnId value thread ow).
Proof.
  unfold upsertItem, upsertItemOwner.
  repeat (case_match; [|apply in_place_traced, in_place_refl]).
  apply owners_traced_turn. intros turn copied _. split; [|apply upsert_traced].
  match goal with E : asString _ = Some _ |- _ => apply asString_Some in E end.
  by apply upsertItem_step.
Qed.

Lemma owners_traced_upsertTurn aff value thread ow :
  is_obj thread -> owners_traced aff thread (upsertTurn value thread) ow
    (upsertTurnOwner value thread ow).
Proof.
  intros Ho. unfold upsertTurn, upsertTurnOwner.
  destruct (asObject value) as [source|]; [|apply in_place_traced, in_place_refl].
  cbn [mbind option_bind]. destruct (asString (oget "id" source)) as [id|];
    [|apply in_place_traced, in_place_refl]. cbn [mbind option_bind].
  destruct (turnIndex thread id) as [i|] eqn:E.
  - set (new := mergeTurnMetadata _ _). intros k. destruct (decide (i = k)) as [<-|Hik].
    + split; [by intros [(_ & [=] & _)|(? & _)]%list_lookup_insert_Some|].
      intros c' [(_ & [= <-] & _)|(? & _)]%list_lookup_insert_Some; [|done]. left. done.
    + rewrite list_lookup_insert_ne by done. split; [done|]. intros c Hc. right. exists c.
      split; [done|]. split_and!; [done|done|eauto|]. intros t' Ht'. exists t'.
      rewrite turnsOf_setTurns, list_lookup_insert_ne by done. split_and!; [done..|].
      apply traced_in_place, items_kept_refl.
  - intros k. split; [done|]. intros c Hc. right. exists c.
    split; [done|]. split_and!; [done|done|eauto|]. intros t' Ht'. exists t'.
    rewrite turnsOf_setTurns, lookup_app_l by (done || by eapply lookup_lt_Some).
    split_and!; [done..|]. apply traced_in_place, items_kept_refl.
Qed.

(** A token for an agent message: its text in place, then the splice. *)
Lemma owners_traced_agentText aff rawTurnId rawItemId delta thread ow :
  (forall T x, asString rawTurnId = Some T -> asString rawItemId = Some x -> aff T x) ->
  owners_traced aff thread (appendText rawTurnId rawItemId delta AgentMessage thread).1 ow
    (agentTextOwner rawTurnId rawItemId delta thread ow).
Proof.
  intros Ha. unfold appendText, agentTextOwner.
  destruct (asString delta) as [d|]; [|apply in_place_traced, in_place_refl].
  destruct (itemInTurn thread rawTurnId rawItemId) as [it|];
    [|apply in_place_traced, in_place_refl].
  assert (in_place aff thread (appendAgentText rawTurnId rawItemId d thread)) as Hp.
  { apply in_place_updateItem; [item_id|done]. }
  simpl textKindName. destruct (isType "agentMessage" it); simpl.
  - destruct (asString rawTurnId) as [T|]; [|by apply in_place_traced].
    destruct (asString rawItemId) as [x|]; [|by apply in_place_traced].
    eapply owners_traced_trans; [by apply in_place_traced|].
    apply owners_traced_turn. intros turn copied _.
    split; [apply placeholder_step|apply traced_placeholder].
  - repeat case_match; apply in_place_traced, in_place_refl.
Qed.

(** *** One patch *)

(** The branch of the operation alone. *)
Definition operationOwners (params : jobj) (thread : json) (ow : list TurnOwner)
    : list TurnOwner :=
  patchOwners thread
    {| patch_threadId := default [] (asString (field "id" thread)); operation := params |} ow.

Lemma operation_traced aff params thread ow :
  is_obj thread -> (exists id, field "id" thread = Some (JStr id)) ->
  (forall T x, asString (oget "turnId" params) = Some T ->
     asString (oget "itemId" params) = Some x -> aff T x) ->
  owners_traced aff thread (applyOperation params thread).1 ow (operationOwners params thread ow).
Proof.
  intros Ho [k Hid] Ha. unfold operationOwners, patchOwners. cbn [patch_threadId operation].
  rewrite Hid. change (default [] (asString (Some (JStr k)))) with k.
  rewrite (proj2 (hasId_spec k thread)) by done.
  cbn [negb]. destruct (slotKind params) eqn:Es.
  - unfold slotKind in Es. apply orb_true_iff in Es as [Es|Es].
    + apply orb_true_iff in Es as [Es|Es].
      * rewrite Es. unfold applyOperation.
        apply orb_true_iff in Es as [Es|Es]; rewrite Es, !(kind_excl _ _ _ Es) by done;
          cbn [andb fst]; (eapply owners_traced_trans; [by apply owners_traced_upsertTurn|]);
          apply in_place_traced; [apply in_place_snapshot|apply in_place_usage].
      * rewrite Es, !(kind_excl _ _ _ Es) by done. unfold applyOperation.
        rewrite Es, !(kind_excl _ _ _ Es) by done. cbn [andb orb fst].
        apply owners_traced_upsertItem.
    + apply andb_true_iff in Es as [Es Et]. rewrite Es, Et, !(kind_excl _ _ _ Es) by done.
      unfold applyOperation. rewrite Es, !(kind_excl _ _ _ Es) by done. cbn [andb orb].
      unfold textKindOf. rewrite Et. by apply owners_traced_agentText.
  - replace (if _ || _ then _ else _) with ow.
    + apply in_place_traced. by apply operation_in_place.
    + unfold slotKind in Es.
      apply orb_false_iff in Es as [[Es1 Es2]%orb_false_iff Es3]. by rewrite Es1, Es2, Es3.
Qed.

Lemma tail_in_place aff now params thread changed :
  (forall T x, asString (oget "turnId" params) = Some T ->
     asString (oget "itemId" params) = Some x -> aff T x) ->
  in_place aff thread
    (let '(thread, changed) := applyMetrics params (applyFootprint params thread, changed) in
     if changed then touch now thread else thread).
Proof.
  intros Ha.
  assert (in_place aff thread (applyFootprint params thread)) as H1.
  { unfold applyFootprint. case_match; [|apply in_place_refl].
    apply in_place_updateItem; [item_id|done]. }
  assert (in_place aff thread (applyMetrics params (applyFootprint params thread, changed)).1)
    as H2.
  { eapply in_place_trans; [exact H1|]. unfold applyMetrics.
    repeat case_match; simpl; try apply in_place_refl; apply in_place_updateMetadata. }
  destruct (applyMetrics _ _) as [t c]. simpl in H2. destruct c; [|done].
  eapply in_place_trans; [exact H2|]. unfold touch.
  repeat case_match; try apply in_place_refl. by apply in_place_setField.
Qed.

Lemma patch_split now thread patch :
  hasId (patch_threadId patch) thread = true ->
  (applyThreadProjectionPatch now thread patch).1 =
  let params := operation patch in
  let '(thread, changed) :=
    applyMetrics params (applyFootprint params (applyOperation params thread).1,
                         (applyOperation params thread).2) in
  if changed then touch now thread else thread.
Proof.
  intros Hid. unfold applyThreadProjectionPatch. rewrite Hid. simpl.
  destruct (applyOperation (operation patch) thread) as [t c]. simpl.
  by destruct (applyMetrics _ _) as [? []].
Qed.

Definition addressesItem (params : jobj) aff : Prop :=
  forall T x, asString (oget "turnId" params) = Some T ->
    asString (oget "itemId" params) = Some x -> aff T x.

Lemma patch_traced aff now thread patch ow :
  has_id thread ->
  (hasId (patch_threadId patch) thread = true -> addressesItem (operation patch) aff) ->
  owners_traced aff thread (applyThreadProjectionPatch now thread patch).1 ow
    (patchOwners thread patch ow).
Proof.
  intros Hid Ha. destruct (hasId (patch_threadId patch) thread) eqn:Ep.
  - rewrite patch_split by done. specialize (Ha eq_refl). cbv zeta.
    eapply owners_traced_trans; [|by apply in_place_traced, tail_in_place].
    replace (patchOwners thread patch ow) with (operationOwners (operation patch) thread ow).
    + apply operation_traced; [by apply has_id_obj|done|done].
    + unfold operationOwners. destruct Hid as [id Hid]. rewrite Hid. apply hasId_spec in Ep.
      destruct patch as [k o]. simpl in *. rewrite Hid in Ep. by simplify_eq.
  - unfold applyThreadProjectionPatch, patchOwners. rewrite Ep. simpl.
    apply in_place_traced, in_place_refl.
Qed.

(** Only an operation that addresses a turn adds one. *)
Lemma patch_length now thread patch :
  (hasId (patch_threadId patch) thread = true -> forall id, ~ addresses (operation patch) id) ->
  length (turnsOf (applyThreadProjectionPatch now thread patch).1) = length (turnsOf thread).
Proof.
  intros Hno. destruct (hasId (patch_threadId patch) thread) eqn:Ep.
  2:{ unfold applyThreadProjectionPatch. by rewrite Ep. }
  specialize (Hno eq_refl). set (params := operation patch) in *.
  assert (asString (oget "turnId" params) = None) as Ht.
  { destruct (asString (oget "turnId" params)) eqn:E; [|done]. exfalso. eapply Hno. by left. }
  assert (asString (optField "id" (turnOf params)) = None) as Hu.
  { destruct (asString (optField "id" (turnOf params))) eqn:E; [|done]. exfalso. eapply Hno. by right. }
  rewrite patch_split by done. fold params. cbv zeta.
  assert (forall T x, asString (oget "turnId" params) = Some T ->
            asString (oget "itemId" params) = Some x -> (fun _ _ => True) T x) as Ha by done.
  rewrite (proj1 (tail_in_place (fun _ _ => True) now params _ (applyOperation params thread).2 Ha)).
  destruct (slotKind params) eqn:Es;
    [|by apply (proj1 (operation_in_place (fun _ _ => True) params thread Es Ha))].
  assert (forall v, turnOf params = JObj <$> asObject v -> upsertTurn v thread = thread) as Hup.
  { intros v Hv. unfold upsertTurn. destruct (asObject v) as [o|]; [|done].
    rewrite Hv in Hu. simpl in Hu. cbn [mbind option_bind]. by rewrite Hu. }
  unfold slotKind in Es. unfold applyOperation.
  apply orb_true_iff in Es as [[[Es|Es]%orb_true_iff|Es]%orb_true_iff|Es].
  - rewrite Es, !(kind_excl _ _ _ Es) by done. cbn [andb fst]. rewrite Hup by done.
    apply (in_place_snapshot (fun _ _ => True)).
  - rewrite Es, !(kind_excl _ _ _ Es) by done. cbn [andb fst]. rewrite Hup by done.
    apply (in_place_usage (fun _ _ => True)).
  - rewrite Es, !(kind_excl _ _ _ Es) by done. cbn [andb fst]. unfold upsertItem. by rewrite Ht.
  - apply andb_true_iff in Es as [Es Ety]. rewrite Es, !(kind_excl _ _ _ Es) by done. cbn [andb].
    unfold textKindOf. rewrite Ety. unfold applyTextDelta, appendText, itemInTurn. rewrite Ht.
    destruct (asString (oget "delta" params)); done.
Qed.

(** ** The source through a batch

    [Linked]: turns of the source keep their positions and ids in the new
    thread, and a shared item has one id in both. *)
Record Linked (next : json) (sh : Sharing) (source : json) : Prop :=
  { li_wf : wf_thread source;
    li_turn : forall i s, turnsOf source !! i = Some s ->
      exists t, turnsOf next !! i = Some t /\ field "id" t = field "id" s;
    li_items : sharesTurns sh = false ->
      forall i c s t, owners sh !! i = Some (OwnTurn c) -> copy_sharesArray c = false ->
        turnsOf source !! i = Some s -> turnsOf next !! i = Some t ->
        forall j l, copy_items c !! j = Some (Some l) ->
          exists a b, itemsOf t !! j = Some a /\ itemsOf s !! l = Some b /\
                      field "id" a = field "id" b }.

Lemma field_onArray k k' f v : k <> k' -> field k (onArray k' f v) = field k v.
Proof. intros Hk. unfold onArray. repeat case_match; try done. by apply field_setField_ne. Qed.

Lemma arrField_onArray k f v l :
  field k v = Some (JArr l) -> arrField k (onArray k f v) = f l.
Proof.
  intros Hl. unfold onArray, arrField. rewrite Hl.
  by rewrite field_setField_eq by (by eapply field_is_obj).
Qed.

Lemma field_onArray_eq k f v l :
  field k v = Some (JArr l) -> field k (onArray k f v) = Some (JArr (f l)).
Proof.
  intros Hl. unfold onArray. rewrite Hl. by rewrite field_setField_eq by (by eapply field_is_obj).
Qed.

Lemma field_syncField_ne k k' next v : k <> k' -> field k (syncField k' next v) = field k v.
Proof. intros Hk. unfold syncField. case_match; [|done]. by apply field_setField_ne. Qed.

Lemma wf_turn_items turn : wf_turn turn -> field "items" turn = Some (JArr (itemsOf turn)).
Proof. intros [[l Hl] _]. unfold itemsOf, arrField. by rewrite Hl. Qed.

Lemma wf_thread_turns thread : wf_thread thread -> field "turns" thread = Some (JArr (turnsOf thread)).
Proof. intros [[l Hl] _]. unfold turnsOf, arrField. by rewrite Hl. Qed.

Lemma syncItems_lookup copied next source i item :
  source !! i = Some item ->
  syncItems copied next source !! i =
    Some (default item (j ← findIndex (fun o => bool_decide (o = Some i)) copied; next !! j)).
Proof. intros Hi. unfold syncItems. by rewrite list_lookup_imap, Hi. Qed.

Lemma findIndex_copied copied i j :
  findIndex (fun o => bool_decide (o = Some i)) copied = Some j -> copied !! j = Some (Some i).
Proof. intros (o & Ho & Hp & _)%findIndex_Some. bool_prop. by subst. Qed.

Lemma syncItems_ids copied next source :
  (forall j l, copied !! j = Some (Some l) ->
     exists a b, next !! j = Some a /\ source !! l = Some b /\ field "id" a = field "id" b) ->
  ids (syncItems copied next source) = ids source.
Proof.
  intros Hl. unfold ids. apply list_eq. intros i. rewrite !list_lookup_fmap.
  destruct (source !! i) as [item|] eqn:Ei.
  - rewrite (syncItems_lookup _ _ _ _ item) by done. simpl. f_equal.
    destruct (findIndex _ copied) as [j|] eqn:Ej; [|done]. apply findIndex_copied in Ej.
    destruct (Hl j i Ej) as (a & b & Ha & Hb & Hab). simpl. rewrite Ha. simpl. congruence.
  - unfold syncItems. by rewrite list_lookup_imap, Ei.
Qed.

(** One turn after the synchronisation. *)
Lemma syncTurn_ok owner next source :
  wf_turn next -> wf_turn source -> field "id" next = field "id" source ->
  (forall c, owner = OwnTurn c -> copy_sharesArray c = false ->
     forall j l, copy_items c !! j = Some (Some l) ->
       exists a b, itemsOf next !! j = Some a /\ itemsOf source !! l = Some b /\
                   field "id" a = field "id" b) ->
  wf_turn (syncTurn owner next source) /\
  field "id" (syncTurn owner next source) = field "id" source /\
  (forall c, owner = OwnTurn c -> copy_sharesArray c = false ->
     ids (itemsOf (syncTurn owner next source)) = ids (itemsOf source)).
Proof.
  intros Hwn Hws Hid Hl. destruct owner as [|c]; [done|]. specialize (Hl c eq_refl).
  unfold syncTurn. set (s := if copy_sharesMetadata c then _ else source).
  assert (field "items" s = field "items" source /\ field "id" s = field "id" source) as [Hs Hsi].
  { unfold s. case_match; [|done]. by rewrite !field_syncField_ne by done. }
  assert (field "items" s = Some (JArr (itemsOf source))) as Hits.
  { rewrite Hs. by apply wf_turn_items. }
  assert (itemsOf (onArray "items"
    (fun items => if copy_sharesArray c then itemsOf next
                  else syncItems (copy_items c) (itemsOf next) items) s)
    = if copy_sharesArray c then itemsOf next
      else syncItems (copy_items c) (itemsOf next) (itemsOf source)) as Hi
    by exact (arrField_onArray _ _ _ _ Hits).
  split; [|split].
  - split; [eexists; by apply field_onArray_eq|]. rewrite Hi.
    destruct (copy_sharesArray c); [apply Hwn|]. rewrite syncItems_ids by auto. apply Hws.
  - by rewrite field_onArray.
  - intros c' [= <-] Ha. rewrite Hi, Ha. apply syncItems_ids. auto.
Qed.

Lemma syncSource_base sh next source :
  let source' := if sharesCodewide sh then syncField "codewide" next source else source in
  turnsOf source' = turnsOf source /\ field "turns" source' = field "turns" source /\
  field "id" source' = field "id" source.
Proof.
  case_match; [|done]. unfold turnsOf, arrField. by rewrite !field_syncField_ne by done.
Qed.

Lemma syncSource_turns sh next source :
  wf_thread source ->
  field "turns" (syncSource sh next source) = Some (JArr (turnsOf (syncSource sh next source))) /\
  turnsOf (syncSource sh next source) =
    if sharesTurns sh then turnsOf next
    else imap (fun i turn =>
                 default turn (owner ← owners sh !! i; next ← turnsOf next !! i;
                               Some (syncTurn owner next turn))) (turnsOf source).
Proof.
  intros Hwf. destruct (syncSource_base sh next source) as (_ & Hf & _).
  unfold syncSource. set (s := if sharesCodewide sh then _ else source) in *.
  rewrite (wf_thread_turns _ Hwf) in Hf.
  assert (forall g, turnsOf (onArray "turns" g s) = g (turnsOf source)) as Ht
    by (intros; by apply arrField_onArray).
  set (g := fun turns => if sharesTurns sh then _ else _).
  change (field "turns" (onArray "turns" g s) = Some (JArr (turnsOf (onArray "turns" g s))) /\
          turnsOf (onArray "turns" g s) = g (turnsOf source)).
  rewrite Ht. split; [|done]. by apply field_onArray_eq.
Qed.

Lemma linked_sync next sh source :
  wf_thread next -> Linked next sh source -> Linked next sh (syncSource sh next source).
Proof.
  intros Hwn [Hws Hpos Hit]. destruct (syncSource_turns sh next source Hws) as [Hf Ht].
  destruct (sharesTurns sh) eqn:Esh.
  { split; [| |congruence].
    - split; [eauto|]. rewrite Ht. apply Hwn.
    - intros i s. rewrite Ht. eauto. }
  assert (forall i s', turnsOf (syncSource sh next source) !! i = Some s' ->
            exists s t, turnsOf source !! i = Some s /\ turnsOf next !! i = Some t /\
              wf_turn s' /\ field "id" s' = field "id" s /\ field "id" t = field "id" s /\
              (forall c, owners sh !! i = Some (OwnTurn c) -> copy_sharesArray c = false ->
                 ids (itemsOf s') = ids (itemsOf s))) as Hall.
  { intros i s' Hs'. rewrite Ht, list_lookup_imap in Hs'.
    destruct (turnsOf source !! i) as [s|] eqn:Es; [|done]. simpl in Hs'. simplify_eq.
    destruct (Hpos i s Es) as (t & Et & Hid). exists s, t.
    assert (wf_turn s) as Hwt by (eapply wf_turn_elem; [exact Hws|by eapply list_elem_of_lookup_2]).
    assert (wf_turn t) as Hwu by (eapply wf_turn_elem; [exact Hwn|by eapply list_elem_of_lookup_2]).
    rewrite Et. destruct (owners sh !! i) as [owner|] eqn:Eo; [|done]. simpl.
    destruct (syncTurn_ok owner t s Hwu Hwt Hid) as (H1 & H2 & H3).
    { intros c -> Ha. by apply (Hit eq_refl i c s t). }
    split_and!; try done. intros c [= ->]. by apply H3. }
  split; [split; [eauto|split]| |].
  - replace (ids (turnsOf (syncSource sh next source))) with (ids (turnsOf source)); [apply Hws|].
    unfold ids. apply list_eq. intros i. rewrite !list_lookup_fmap.
    destruct (turnsOf (syncSource sh next source) !! i) as [s'|] eqn:E'.
    + destruct (Hall i s' E') as (s & t & -> & _ & _ & Hid & _). simpl. by rewrite Hid.
    + rewrite Ht, list_lookup_imap in E'. by destruct (turnsOf source !! i).
  - apply Forall_lookup. intros i s' Hs'. by destruct (Hall i s' Hs') as (s & t & _ & _ & ? & _).
  - intros i s' Hs'. destruct (Hall i s' Hs') as (s & t & _ & Et & _ & Hid & Hid' & _).
    exists t. split; [done|congruence].
  - intros _ i c s' u Ho Ha Hs' Hu j l Hj.
    destruct (Hall i s' Hs') as (s & t & Es & Et & _ & _ & _ & Hids).
    assert (t = u) as -> by congruence.
    destruct (Hit eq_refl i c s u Ho Ha Es Et j l Hj) as (a & b & Hia & Hib & Hab).
    specialize (Hids c Ho Ha). exists a.
    assert (ids (itemsOf s') !! l = Some (field "id" b)) as Hl.
    { rewrite Hids. unfold ids. by rewrite list_lookup_fmap, Hib. }
    unfold ids in Hl. rewrite list_lookup_fmap in Hl.
    apply fmap_Some in Hl as (b' & Hb' & Hbb). exists b'. split_and!; [done..|congruence].
Qed.

(** Any step of the new thread that traces the shared objects. *)
Lemma linked_move aff next next' sh source ow :
  frame (fun _ => True) next next' -> owners_traced aff next next' (owners sh) ow ->
  Linked next sh source ->
  Linked next' {| sharesTurns := sharesTurns sh; sharesCodewide := sharesCodewide sh; owners := ow |}
    source.
Proof.
  intros Hf Htr [Hws Hpos Hit]. split; [done| |].
  - intros i s Hs. destruct (Hpos i s Hs) as (t & Ht & Hid).
    destruct (Hf i t Ht) as (t' & Ht' & Hid' & _). exists t'. split; [done|congruence].
  - cbn [sharesTurns owners]. intros Hsh i c s t' Ho Ha Hs Ht' j l Hj.
    destruct (Hpos i s Hs) as (t & Ht & Hid). destruct (Htr i) as [_ Hown].
    destruct (Hown c Ho) as [(_ & _ & Hno)|(c0 & Hc0 & _ & Ha0 & _ & Hc)];
      [by apply Hno in Hj|].
    destruct (Hc t Ht) as (u & Hu & _ & Htu). simplify_eq.
    destruct (Htu j l Hj) as (k & Hk & Hi).
    destruct (Hit Hsh i c0 s t Hc0 ltac:(congruence) Hs Ht k l Hk) as (a & b & Hta & Hsb & Hab).
    destruct (Hi a Hta) as (a' & Ha' & Hid' & _). exists a', b. split_and!; [done..|congruence].
Qed.

Lemma cloneAffectedTurn_lookup thread itemIds l ow i :
  (foldl (cloneAffectedTurn thread itemIds) ow l !! i = Some SharedTurn ->
     ow !! i = Some SharedTurn /\
     forall id turn, id ∈ l -> turnsOf thread !! i = Some turn -> hasId id turn = true ->
       rawTurnIndex thread id <> Some i) /\
  (forall c, foldl (cloneAffectedTurn thread itemIds) ow l !! i = Some (OwnTurn c) ->
     ow !! i = Some (OwnTurn c) \/
     exists id turn, turnsOf thread !! i = Some turn /\ hasId id turn = true /\
       c = cloneTurnForEvents id turn (mget id itemIds)).
Proof.
  revert ow. induction l as [|id l IH]; intros ow; cbn [foldl].
  { split; [|by left]. intros Hi. split; [done|]. intros ? ? Hin. by apply elem_of_nil in Hin. }
  destruct (IH (cloneAffectedTurn thread itemIds ow id)) as [IHs IHo]. clear IH.
  assert (cloneAffectedTurn thread itemIds ow id !! i = ow !! i /\
            (forall turn, turnsOf thread !! i = Some turn -> hasId id turn = true ->
               ow !! i = None \/ rawTurnIndex thread id <> Some i) \/
          exists turn, turnsOf thread !! i = Some turn /\ hasId id turn = true /\
            cloneAffectedTurn thread itemIds ow id !! i =
              Some (OwnTurn (cloneTurnForEvents id turn (mget id itemIds)))) as Hstep.
  { unfold cloneAffectedTurn. destruct (rawTurnIndex thread id) as [k|] eqn:Er; [|naive_solver].
    destruct (decide (k = i)) as [->|Hne].
    - destruct (turnsOf thread !! i) as [t|] eqn:Et; [|by left].
      destruct (hasId id t) eqn:Eh; [|left; split; [done|]; intros ? [= <-]; congruence].
      destruct (ow !! i) as [o|] eqn:Eo.
      + right. exists t. split_and!; [done..|]. apply list_lookup_insert_eq. by eapply lookup_lt_Some.
      + left. rewrite list_insert_ge by (by apply lookup_ge_None). naive_solver.
    - left. split; [|intros; right; congruence].
      repeat case_match; try done. by apply list_lookup_insert_ne. }
  split.
  - intros Hi. destruct (IHs Hi) as [Hs Hl].
    destruct Hstep as [[Heq Hid]|(t & _ & _ & Heq)]; [|congruence].
    rewrite Heq in Hs. split; [done|]. intros k turn Hk Ht Hh.
    apply elem_of_cons in Hk as [->|Hk]; [|by apply (Hl k turn)].
    destruct (Hid turn Ht Hh); [congruence|done].
  - intros c Hc. destruct (IHo c Hc) as [Ho|]; [|by right].
    destruct Hstep as [[Heq _]|(t & Ht & Hh & Heq)].
    + left. congruence.
    + right. exists id, t. split_and!; [done..|congruence].
Qed.

Lemma shareThread_owner thread patches i :
  (owners (shareThread thread patches) !! i = Some SharedTurn ->
     forall id turn, id ∈ affectedTurnIds thread patches -> turnsOf thread !! i = Some turn ->
       hasId id turn = true -> rawTurnIndex thread id <> Some i) /\
  (forall c, owners (shareThread thread patches) !! i = Some (OwnTurn c) ->
     exists id turn, turnsOf thread !! i = Some turn /\ hasId id turn = true /\
       c = cloneTurnForEvents id turn (mget id (affectedItemIdsByTurn thread patches))).
Proof.
  destruct (cloneAffectedTurn_lookup thread (affectedItemIdsByTurn thread patches)
    (affectedTurnIds thread patches) ((fun _ => SharedTurn) <$> turnsOf thread) i) as [Hs Ho].
  split; [intros Hi; apply (Hs Hi)|]. intros c Hc. destruct (Ho c Hc) as [Hf|]; [|done].
  rewrite list_lookup_fmap in Hf. by destruct (turnsOf thread !! i).
Qed.

Lemma cloneTurnForEvents_items id turn itemIds j l :
  copy_items (cloneTurnForEvents id turn itemIds) !! j = Some (Some l) ->
  l = j /\ exists item, itemsOf turn !! j = Some item /\
    clonesItem id turn (default [] itemIds) j = false.
Proof.
  unfold cloneTurnForEvents. cbn [copy_items]. rewrite list_lookup_imap.
  destruct (itemsOf turn !! j) as [item|]; [|done]. simpl. intros [= Hc].
  destruct (clonesItem _ _ _ _) eqn:E; [done|]. simplify_eq. eauto.
Qed.

Lemma linked_init thread patches :
  wf_thread thread -> Linked thread (shareThread thread patches) thread.
Proof.
  intros Hwf. split; [done|eauto|]. intros _ i c s t Hc _ Hs Ht j l Hj. simplify_eq.
  destruct (proj2 (shareThread_owner thread patches i) c Hc) as (id & u & Hu & _ & ->).
  simplify_eq. apply cloneTurnForEvents_items in Hj as (-> & item & Hi & _). eauto.
Qed.

Lemma frame_of_good A ok t t' : good A ok t t' -> frame (fun _ => True) t t'.
Proof.
  intros Hg j u Hj. destruct (good_frame _ _ _ _ Hg j u Hj) as (u' & Hu & Hid & Heq).
  exists u'. split_and!; [done..|]. intros Hno. apply Heq. auto.
Qed.

Lemma batch_linked now patches next sh source :
  wf_thread next -> has_id next -> patches_ok patches -> Linked next sh source ->
  wf_thread (foldl (shareStep now) (next, sh, source) patches).2.
Proof.
  revert next sh source. induction patches as [|p ps IH]; intros next sh source Hwf Hid Hok Hl.
  { apply (li_wf _ _ _ Hl). }
  apply Forall_cons in Hok as [Hp Hok]. cbn [foldl]. unfold shareStep at 2.
  pose proof (good_patch now (fun _ => True) next p (has_id_obj _ Hid)
    (fun _ => conj (fun _ _ => I) (fun _ _ => I))) as Hg.
  pose proof (good_wf _ _ _ _ Hg Hp Hwf) as Hwf'.
  apply IH; [done| |done|].
  - destruct Hid as [id Hid]. exists id. by rewrite (good_id _ _ _ _ Hg).
  - apply linked_sync; [done|].
    apply (linked_move (fun _ _ => True) next); [by eapply frame_of_good| |done].
    by apply patch_traced.
Qed.

(** The source stays well formed even where it is written through. *)
Lemma sourceAfter_wf now thread patches :
  wf_thread thread -> has_id thread -> patches_ok patches ->
  wf_thread (sourceAfter now thread patches).
Proof. intros Hwf Hid Hok. apply batch_linked; [done..|]. by apply linked_init. Qed.

Lemma batch_source_id now patches next sh source :
  field "id" (foldl (shareStep now) (next, sh, source) patches).2 = field "id" source.
Proof.
  revert next sh source. induction patches as [|p ps IH]; intros next sh source; [done|].
  cbn [foldl]. unfold shareStep at 2. rewrite IH. unfold syncSource.
  rewrite field_onArray by done. apply syncSource_base.
Qed.

Lemma sourceAfter_id now thread patches :
  field "id" (sourceAfter now thread patches) = field "id" thread.
Proof. apply batch_source_id. Qed.

(** ** A source that is not written

    The maps are up to date for the thread: every position a lookup finds is the
    entry. *)
Definition fresh_index thread : Prop :=
  (forall turnId i, turnIndex thread turnId = Some i -> rawTurnIndex thread turnId = Some i) /\
  (forall turn turnId itemId j, turn ∈ turnsOf thread -> hasId turnId turn = true ->
     itemIndex turn turnId itemId = Some j -> rawItemIndex turn turnId itemId = Some j).

(** [Clean]: what the new thread still shares with the source is what the batch
    does not address, as it was. *)
Record Clean (A : jstr -> Prop) aff thread (next : json) (sh : Sharing) : Prop :=
  { cl_codewide : sharesCodewide sh = false;
    cl_turn : forall i s, turnsOf thread !! i = Some s ->
      exists t, turnsOf next !! i = Some t /\ field "id" t = field "id" s;
    cl_turns : sharesTurns sh = true ->
      (forall id, ~ A id) /\ turnsOf next = turnsOf thread;
    cl_shared : forall i, owners sh !! i = Some SharedTurn ->
      forall t, turnsOf thread !! i = Some t ->
        turnsOf next !! i = Some t /\ forall id, A id -> hasId id t = false;
    cl_own : forall i c, owners sh !! i = Some (OwnTurn c) ->
      copy_sharesMetadata c = false /\ copy_sharesArray c = false /\
      forall s t, turnsOf thread !! i = Some s -> turnsOf next !! i = Some t ->
        forall j l, copy_items c !! j = Some (Some l) ->
          exists item, itemsOf t !! j = Some item /\ itemsOf s !! l = Some item /\
                       spared aff s item }.

Lemma clean_sync A aff thread next sh :
  wf_thread thread -> Clean A aff thread next sh -> syncSource sh next thread = thread.
Proof.
  intros Hwf [Hc Hpos Ht Hs Ho]. unfold syncSource. rewrite Hc.
  unfold onArray. rewrite (wf_thread_turns _ Hwf). apply setField_same.
  rewrite (wf_thread_turns _ Hwf). do 2 f_equal.
  destruct (sharesTurns sh); [symmetry; by apply Ht|].
  symmetry. apply list_eq. intros i. rewrite list_lookup_imap.
  destruct (turnsOf thread !! i) as [s|] eqn:Es; [|done]. simpl. f_equal.
  destruct (owners sh !! i) as [[|c]|] eqn:Eo; [| |done].
  - destruct (Hs i Eo s Es) as [-> _]. done.
  - destruct (Ho i c Eo) as (Hm & Ha & Hi). destruct (Hpos i s Es) as (t & Et & _).
    pose proof (Hi s t Es Et) as Hit. rewrite Et. simpl.
    rewrite Hm, Ha. assert (wf_turn s) as Hws.
    { eapply wf_turn_elem; [exact Hwf|]. by eapply list_elem_of_lookup_2. }
    unfold onArray. rewrite (wf_turn_items _ Hws). apply setField_same.
    rewrite (wf_turn_items _ Hws). do 2 f_equal. apply list_eq. intros l.
    destruct (itemsOf s !! l) as [item|] eqn:El.
    + rewrite (syncItems_lookup _ _ _ _ item) by done. f_equal.
      destruct (findIndex _ (copy_items c)) as [j|] eqn:Ej; [|done].
      apply findIndex_copied in Ej. destruct (Hit j l Ej) as (v & Hv & Hv' & _).
      simpl. rewrite Hv. simpl. congruence.
    + unfold syncItems. by rewrite list_lookup_imap, El.
Qed.

Lemma clean_step A aff thread next next' sh ow :
  frame A next next' ->
  ((forall id, ~ A id) -> length (turnsOf next') = length (turnsOf next)) ->
  owners_traced aff next next' (owners sh) ow ->
  Clean A aff thread next sh ->
  Clean A aff thread next'
    {| sharesTurns := sharesTurns sh; sharesCodewide := sharesCodewide sh; owners := ow |}.
Proof.
  intros Hf Hlen Htr [Hc Hpos Ht Hs Ho].
  split; cbn [sharesTurns sharesCodewide owners]; [done| | | |].
  - intros i s Hsi. destruct (Hpos i s Hsi) as (t & Hti & Hid).
    destruct (Hf i t Hti) as (t' & Ht' & Hid' & _). exists t'. split; [done|congruence].
  - intros Hsh. destruct (Ht Hsh) as [Hno Heq]. split; [done|]. rewrite <- Heq.
    apply list_eq_same_length with (n := length (turnsOf next)); [done|by apply Hlen|].
    intros i x y _ Hx Hy. destruct (Hf i y Hy) as (t' & Ht' & _ & Hsame).
    rewrite Hsame in Ht' by (intros id Hid; by apply Hno in Hid). congruence.
  - intros i Hi t Hti. destruct (Hs i (proj1 (Htr i) Hi) t Hti) as [Hn Hno]. split; [|done].
    destruct (Hf i t Hn) as (t' & Ht' & _ & Heq). by rewrite <- Heq.
  - intros i c Hi. destruct (proj2 (Htr i) c Hi) as [(Hm & Ha & Hno)|(c0 & Hc0 & Hm & Ha & _ & Hcp)].
    { split_and!; [done..|]. intros s t _ _ j l Hj. by apply Hno in Hj. }
    destruct (Ho i c0 Hc0) as (Hm0 & Ha0 & Hit). split_and!; [congruence..|].
    intros s t' Hsi Ht' j l Hj. destruct (Hpos i s Hsi) as (t & Hti & Hid).
    destruct (Hcp t Hti) as (u & Hu & _ & Htt). simplify_eq.
    destruct (Htt j l Hj) as (k & Hk & Hkept).
    destruct (Hit s t Hsi Hti k l Hk) as (item & Hit1 & Hit2 & Hsp).
    destruct (Hkept item Hit1) as (item' & Hit' & _ & Hsame). exists item.
    rewrite Hsame in Hit'; [done|]. by eapply (spared_id _ s t).
Qed.

(** The addressed items of every patch. *)
Definition addressed (thread : json) (patches : list ThreadProjectionPatchV1) (T x : jstr) : Prop :=
  x ∈ default [] (mget T (affectedItemIdsByTurn thread patches)).

Lemma addressed_spec thread patches patch :
  patch ∈ patches -> hasId (patch_threadId patch) thread = true ->
  addressesItem (operation patch) (addressed thread patches).
Proof.
  intros Hin Hid T x HT Hx. unfold addressed, affectedItemIdsByTurn. set (f := fun _ _ => _).
  assert (forall acc p, x ∈ default [] (mget T acc) -> x ∈ default [] (mget T (f acc p))) as Hmono.
  { intros acc p Ha. unfold f. repeat case_match; try done. rewrite mget_mset.
    case_decide; [subst; simpl; rewrite elem_of_sadd; by right|done]. }
  assert (forall l acc, x ∈ default [] (mget T acc) -> x ∈ default [] (mget T (foldl f acc l)))
    as Hfold.
  { induction l as [|p l IH]; intros acc Ha; simpl; [done|]. by apply IH, Hmono. }
  generalize (@nil (jstr * list jstr)) as acc.
  induction patches as [|p l IH]; intros acc; [by apply elem_of_nil in Hin|]. simpl.
  apply elem_of_cons in Hin as [<-|Hin]; [|by apply IH]. apply Hfold. unfold f.
  rewrite Hid. cbv zeta. unfold addressedItemId. rewrite HT, Hx, mget_mset_eq. simpl.
  apply elem_of_sadd. by left.
Qed.

Lemma clean_init thread patches :
  wf_thread thread -> fresh_index thread ->
  Clean (.∈ affectedTurnIds thread patches) (addressed thread patches) thread thread
    (shareThread thread patches).
Proof.
  intros Hwf [Hft Hfi]. pose proof Hwf as (_ & Hnd & _). split; [done|eauto| | |].
  - unfold shareThread. cbn [sharesTurns]. intros ->%bool_decide_eq_true. split; [|done].
    intros id. apply not_elem_of_nil.
  - intros i Hi t Ht. split; [done|]. intros id Hid. destruct (hasId id t) eqn:Eh; [|done].
    destruct (proj1 (shareThread_owner thread patches i) Hi id t Hid Ht Eh).
    apply Hft, (finds_unique (turnsOf thread) id); [done|apply turnIndex_finds|]. simpl. eauto.
  - intros i c Hc. destruct (proj2 (shareThread_owner thread patches i) c Hc) as (T & t & Ht & HT & ->).
    split_and!; [done..|]. intros s t' Hs Ht' j l Hj. simplify_eq.
    apply cloneTurnForEvents_items in Hj as (-> & item & Hi & Hcl). exists item.
    split_and!; [done..|]. intros T' x HT' Hx.
    assert (T' = T) as -> by (apply hasId_spec in HT, HT'; congruence).
    destruct (hasId x item) eqn:Ex; [|done].
    assert (t ∈ turnsOf thread) as Hin by by eapply list_elem_of_lookup_2.
    pose proof (wf_turn_elem _ _ Hwf Hin) as [_ Hndi].
    unfold clonesItem in Hcl. apply not_true_iff_false in Hcl. exfalso. apply Hcl.
    apply existsb_elem. exists x. split; [exact Hx|]. rewrite Hi. simpl. rewrite Ex.
    apply andb_true_iff. split; [|done]. apply bool_decide_eq_true. apply Hfi; [done..|].
    apply (finds_unique (itemsOf t) x); [done|apply itemIndex_finds|]. simpl. eauto.
Qed.

Lemma batch_clean now A aff thread patches next sh :
  wf_thread thread -> has_id next ->
  Forall (fun p => within A next p /\
            (hasId (patch_threadId p) next = true -> addressesItem (operation p) aff)) patches ->
  Clean A aff thread next sh ->
  (foldl (shareStep now) (next, sh, thread) patches).2 = thread.
Proof.
  intros Hwf. revert next sh. induction patches as [|p ps IH]; intros next sh Hid Hp Hc; [done|].
  apply Forall_cons in Hp as [[Hw Ha] Hp]. cbn [foldl]. unfold shareStep at 2.
  pose proof (good_patch now A next p (has_id_obj _ Hid) Hw) as Hg.
  set (next' := (applyThreadProjectionPatch now next p).1) in *.
  assert (forall k, hasId k next' = hasId k next) as Hk.
  { intros k. unfold hasId. by rewrite (good_id _ _ _ _ Hg). }
  set (sh' := {| sharesTurns := _ |}).
  assert (Clean A aff thread next' sh') as Hc'.
  { apply (clean_step _ _ _ next); [apply (good_frame _ _ _ _ Hg)| |by apply patch_traced|done].
    intros Hno. apply patch_length. intros He id Hadd. destruct (Hw He) as [Hin _].
    by apply (Hno id), Hin. }
  rewrite (clean_sync _ _ _ _ _ Hwf Hc'). apply IH; [| |done].
  - destruct Hid as [id Hid]. exists id. by rewrite (good_id _ _ _ _ Hg).
  - eapply Forall_impl; [exact Hp|]. intros q [Hq Hqa]. unfold within. by rewrite Hk.
Qed.

Lemma batch_within thread patches :
  Forall (fun p => kindIs (operation p) "threadSettings" = false) patches ->
  Forall (within (.∈ affectedTurnIds thread patches) thread) patches.
Proof.
  rewrite !Forall_forall. intros Hset p Hp Hpid.
  split; [intros id Ha; by apply (affected_spec thread patches p)|]. by rewrite Hset.
Qed.

Lemma sourceAfter_same now thread patches :
  wf_thread thread -> has_id thread -> fresh_index thread ->
  Forall (fun p => kindIs (operation p) "threadSettings" = false) patches ->
  sourceAfter now thread patches = thread.
Proof.
  intros Hwf Hid Hfresh Hset.
  apply (batch_clean now (.∈ affectedTurnIds thread patches) (addressed thread patches));
    [done..| |by apply clean_init].
  pose proof (batch_within thread patches Hset) as Hw. rewrite Forall_forall in Hw.
  apply Forall_forall. intros p Hp. split; [by apply Hw|]. intros Hpid. by apply addressed_spec.
Qed.
End sharing.

(** Maps that are up to date: those built for the thread. *)
Lemma fresh_search thread : wf_thread thread -> fresh_index (H := searchLookup) thread.
Proof.
  intros Hwf. pose proof Hwf as (_ & Hnd & _). split.
  - intros T i (v & Hv & Hid)%turnIndex_Some. by eapply indexById_lookup.
  - intros turn T x j Hin _ (v & Hv & Hid)%itemIndex_Some.
    eapply indexById_lookup; [by eapply wf_turn_elem|done..].
Qed.

Lemma fresh_built thread :
  wf_thread thread -> fresh_index (H := indexedLookup (buildEventIndex (turnsOf thread))) thread.
Proof.
  intros Hwf. pose proof Hwf as (_ & Hnd & _). split.
  - intros T i (v & Hv & Hid)%turnIndex_Some. simpl. rewrite buildEventIndex_turns.
    by eapply indexById_lookup.
  - intros turn T x j Hin HT (v & Hv & Hid)%itemIndex_Some. simpl. unfold itemEntry.
    rewrite (buildEventIndex_items _ turn) by done. cbn [mbind option_bind].
    eapply indexById_lookup; [by eapply wf_turn_elem|done..].
Qed.
