(* ===== verification/ThreadProps.v ===== *)
(** * Properties of the thread reducer

    The theorems about ThreadEvents.v, each from the laws of ThreadLaws.v. *)
From S2P Require Import Prelude JsMap Json ThreadItems Readers EventIndex ThreadEvents ThreadLaws ThreadSharing.
Import Activity CommandOutput.

Local Open Scope nat_scope.

Section properties.
Context `{EventLookup}.

(** C1. A batch keeps the source thread: unless it carries a settings change,
    applying a batch to a cached thread whose index is up to date leaves that
    thread exactly as it was, although the new thread shares with it every turn
    and every item the batch does not address and is written in place; and every
    turn the batch does not address is the same turn, at the same position, in
    the result. *)
Theorem batch_keeps_source now thread patches :
  wf_thread thread -> has_id thread -> fresh_index thread ->
  Forall (fun p => kindIs (operation p) "threadSettings" = false) patches ->
  let '(result, source) := applyThreadProjectionPatchesImmutable now thread patches in
  source = thread /\
  (forall j t, turnsOf thread !! j = Some t ->
     (forall id, id ∈ affectedTurnIds thread patches -> hasId id t = false) ->
     turnsOf result !! j = Some t).
Proof.
  intros Hwf Hid Hfresh Hset. unfold applyThreadProjectionPatchesImmutable.
  pose proof (good_batch now (.∈ affectedTurnIds thread patches) patches thread false Hid) as Hg.
  rewrite sourceAfter_same by done.
  destruct (foldl (applyAll now) (thread, false) patches) as [next changed]. cbn [fst] in Hg.
  split; [done|]. intros j t Hj Hno. destruct changed; [|done].
  destruct (good_frame _ _ _ _ (Hg (batch_within thread patches Hset)) j t Hj)
    as (t' & -> & _ & Heq). by rewrite Heq.
Qed.

(** C2. The reducer keeps threads well formed: whatever the patches, when the
    items of every turn they carry have distinct ids, the resulting thread has
    distinct turn ids, distinct item ids in every turn, and the same thread id. *)
Theorem batch_keeps_wf now thread patches :
  wf_thread thread -> has_id thread -> patches_ok patches ->
  let result := (applyThreadProjectionPatchesImmutable now thread patches).1 in
  wf_thread result /\ field "id" result = field "id" thread.
Proof.
  intros Hwf Hid Hok. unfold applyThreadProjectionPatchesImmutable.
  pose proof (good_batch now (fun _ => True) patches thread false Hid
    (within_all thread patches)) as Hg.
  destruct (foldl (applyAll now) (thread, false) patches) as [next changed].
  cbn [fst] in *. pose proof (good_wf _ _ _ _ Hg Hok Hwf) as Hwf'.
  destruct changed; simpl.
  - split; [done|apply (good_id _ _ _ _ Hg)].
  - split; [by apply sourceAfter_wf|apply sourceAfter_id].
Qed.

(** C3. A streamed message is the concatenation of its tokens: after any
    sequence of agent-text deltas the addressed item's text is its text before
    followed by all deltas in order, its other fields are unchanged, and the
    batch reports a change as soon as it has a delta. *)
Theorem agent_stream_concat now thread threadId turnId itemId deltas item :
  wf_thread thread -> hasId threadId thread = true ->
  itemInTurn thread (Some (JStr turnId)) (Some (JStr itemId)) = Some item ->
  isType "agentMessage" item = true ->
  let patch d := {| patch_threadId := threadId; operation := agentDelta turnId itemId d |} in
  exists thread' item',
    foldl (applyAll now) (thread, false) (patch <$> deltas)
      = (thread', bool_decide (deltas <> [])) /\
    itemInTurn thread' (Some (JStr turnId)) (Some (JStr itemId)) = Some item' /\
    strField "text" item' = strField "text" item ++ concat deltas /\
    (forall k, k <> "text" -> field k item' = field k item).
Proof.
  intros Hwf Hid Hit Hty patch.
  destruct (stream_fold now threadId turnId itemId deltas thread false item Hwf Hid Hit Hty)
    as (t & i & Hf & ?). exists t, i. by rewrite <- (orb_false_r (bool_decide _)).
Qed.

(** The completeness check is sound for a patch on its own: a delta the
    check accepts is addressed to an item of the expected type that the cached
    thread has, and turn metadata to a turn it has; an accepted text delta is
    applied. *)
Theorem repair_check_sound now thread patch :
  wf_thread thread -> hasId (patch_threadId patch) thread = true ->
  threadProjectionNeedsAuthoritativeRepair thread [patch] = false ->
  let params := operation patch in
  (forall expected, expectedProjectionItemType params = Some expected ->
     exists item, itemInTurn thread (oget "turnId" params) (oget "itemId" params) = Some item /\
                  field "type" item = Some (JStr expected)) /\
  (turnScoped params = true ->
     exists id turn, oget "turnId" params = Some (JStr id) /\ turnInThread thread id = Some turn) /\
  (forall kind delta, kindIs params "itemTextDelta" = true ->
     textKindOf (oget "itemType" params) = Some kind -> oget "delta" params = Some (JStr delta) ->
     (applyThreadProjectionPatch now thread patch).2 = true).
Proof.
  intros Hwf Hid Hcheck params. subst params. unfold threadProjectionNeedsAuthoritativeRepair in Hcheck.
  apply bool_decide_eq_false in Hcheck. cbn [foldl mbind option_bind] in Hcheck.
  rewrite Hid in Hcheck. destruct (scan_finds thread (operation patch) Hwf Hcheck) as [Hitem Hturn].
  split_and!; [done|done|]. intros kind delta Hk Htk Hd.
  apply (text_delta_applied now thread patch kind delta); try done.
  assert (expectedProjectionItemType (operation patch) = Some (js (textKindName kind))) as Hexp.
  { unfold expectedProjectionItemType. rewrite Hk. by rewrite (textKindOf_name _ _ Htk). }
  destruct (Hitem _ Hexp) as (item & Hit & Hty). rewrite Hit. exists item. split; [done|].
  by apply isStr_spec.
Qed.

(** The field a bounded text delta extends. *)
Definition boundedField (kind : textKind) : string :=
  match kind with CommandExecution => "aggregatedOutput" | _ => "text" end.

(** Live plan and command text stays bounded: a delta extends the field
    unless the result would exceed the limit, in which case its head and the
    newest characters are kept around the truncation marker. *)
Theorem live_text_bounded thread turnId itemId delta kind item :
  wf_thread thread -> kind <> AgentMessage ->
  itemInTurn thread (Some (JStr turnId)) (Some (JStr itemId)) = Some item ->
  isType (textKindName kind) item = true ->
  exists thread' item',
    appendText (Some (JStr turnId)) (Some (JStr itemId)) (Some (JStr delta)) kind thread
      = (thread', true) /\
    itemInTurn thread' (Some (JStr turnId)) (Some (JStr itemId)) = Some item' /\
    let before := strField (boundedField kind) item ++ delta in
    let after := strField (boundedField kind) item' in
    length after <= MAX_LIVE_FIELD_CHARS /\
    (length before <= MAX_LIVE_FIELD_CHARS -> after = before) /\
    (MAX_LIVE_FIELD_CHARS < length before ->
       slice_to LIVE_HEAD_CHARS after = slice_to LIVE_HEAD_CHARS before /\
       exists tail, tail `suffix_of` before /\ tail `suffix_of` after /\
         LIVE_HEAD_CHARS + length LIVE_TRUNCATION_MARKER + length tail = MAX_LIVE_FIELD_CHARS).
Proof.
  intros Hwf Hk Hit Hty.
  set (f := fun it => setField (boundedField kind)
              (JStr (appendBoundedText (strField (boundedField kind) it) delta)) it).
  assert (forall it, field "id" (f it) = field "id" it) as Hf.
  { intros it. apply field_setField_ne. by destruct kind. }
  assert (strField (boundedField kind) (f item)
          = boundedText (strField (boundedField kind) item ++ delta)) as Hafter.
  { unfold f, strField at 1. by rewrite field_setField_eq by by eapply isType_is_obj. }
  exists (updateItem (Some (JStr turnId)) (Some (JStr itemId)) f thread), (f item).
  split; [|split; [by apply updateItem_elem|]].
  - unfold appendText. rewrite Hit. cbn [asString]. rewrite Hty. cbn [negb].
    by destruct kind.
  - cbv zeta. rewrite Hafter. split; [apply boundedText_length|].
    split; [apply boundedText_short|apply boundedText_long].
Qed.

End properties.

(** C4. The index is only an optimisation: on a well-formed thread, whatever
    the index maps hold, stale entries included, the reducer that uses them
    computes what the reducer that searches the arrays computes. *)
Theorem index_is_transparent lookup now thread patches :
  has_id thread -> wf_thread thread -> patches_ok patches ->
  foldl (applyAll (H := indexedLookup lookup) now) (thread, false) patches =
  foldl (applyAll (H := searchLookup) now) (thread, false) patches.
Proof. apply batch_eq. Qed.

(** ** Witnesses *)

Definition demo_agent_item : json :=
  JObj [("type", JStr (js "agentMessage")); ("id", JStr (js "item")); ("text", JStr (js "Hel"))].
Definition demo_plan_item : json :=
  JObj [("type", JStr (js "plan")); ("id", JStr (js "plan")); ("text", JStr (js "1. "))].
Definition demo_turn (id : string) (items : list json) : json :=
  JObj [("id", JStr (js id)); ("status", JStr (js "inProgress")); ("items", JArr items)].
Definition demo_thread : json :=
  JObj [("id", JStr (js "thread")); ("updatedAt", jint 1%Z);
        ("turns", JArr [demo_turn "old" []; demo_turn "turn" [demo_agent_item; demo_plan_item]])].

Definition demo_patch (d : string) : ThreadProjectionPatchV1 :=
  {| patch_threadId := js "thread"; operation := agentDelta (js "turn") (js "item") (js d) |}.

(** Concrete threads are checked by evaluation. *)
Definition wf_turnb (turn : json) : bool :=
  bool_decide (is_Some (asArray (field "items" turn))) && bool_decide (NoDup (ids (itemsOf turn))).
Definition wf_threadb (thread : json) : bool :=
  bool_decide (is_Some (asArray (field "turns" thread)))
  && bool_decide (NoDup (ids (turnsOf thread))) && forallb wf_turnb (turnsOf thread).

Lemma wf_threadb_sound thread : wf_threadb thread = true -> wf_thread thread.
Proof.
  unfold wf_threadb, wf_turnb. intros. bool_prop. split_and!; [|done|].
  - match goal with Hs : is_Some (asArray (field "turns" _)) |- _ => destruct Hs as [l Hl] end.
    apply asArray_Some in Hl. eauto.
  - apply Forall_forall. intros t Ht. apply list_elem_of_In in Ht.
    match goal with Hf : forallb _ _ = true |- _ => rewrite forallb_forall in Hf; apply Hf in Ht end.
    bool_prop. split; [|done].
    match goal with Hs : is_Some (asArray (field "items" _)) |- _ => destruct Hs as [l Hl] end.
    apply asArray_Some in Hl. eauto.
Qed.

Lemma demo_thread_wf : wf_thread demo_thread.
Proof. apply wf_threadb_sound. vm_compute. reflexivity. Qed.

Lemma demo_thread_has_id : has_id demo_thread.
Proof. exists (js "thread"). reflexivity. Qed.

Definition demo_lookup : EventLookup := indexedLookup (buildEventIndex (turnsOf demo_thread)).

Lemma batch_keeps_source_witness :
  (applyThreadProjectionPatchesImmutable (H := demo_lookup) 5 demo_thread [demo_patch "lo"]).2
  = demo_thread.
Proof.
  pose proof (batch_keeps_source (H := demo_lookup) 5 demo_thread [demo_patch "lo"]
    demo_thread_wf demo_thread_has_id (fresh_built demo_thread demo_thread_wf)) as Hp.
  destruct (applyThreadProjectionPatchesImmutable _ _ _) as [result source].
  apply Hp. repeat constructor.
Defined.

Lemma batch_keeps_wf_witness :
  wf_thread (applyThreadProjectionPatchesImmutable (H := searchLookup) 5 demo_thread
               [demo_patch "lo"]).1.
Proof.
  refine (proj1 (batch_keeps_wf (H := searchLookup) 5 demo_thread [demo_patch "lo"]
    demo_thread_wf demo_thread_has_id _)).
  repeat constructor.
Defined.

Lemma agent_stream_concat_witness :
  exists thread' item',
    foldl (applyAll (H := searchLookup) 5) (demo_thread, false) [demo_patch "l"; demo_patch "o"]
      = (thread', true) /\ strField "text" item' = js "Hello".
Proof.
  destruct (agent_stream_concat (H := searchLookup) 5 demo_thread (js "thread") (js "turn")
    (js "item") [js "l"; js "o"] demo_agent_item demo_thread_wf eq_refl)
    as (thread' & item' & Hf & _ & Ht & _); [vm_compute; reflexivity..|].
  exists thread', item'. split; [exact Hf|]. rewrite Ht. vm_compute. reflexivity.
Defined.

Lemma repair_check_sound_witness :
  (applyThreadProjectionPatch (H := searchLookup) 5 demo_thread (demo_patch "lo")).2 = true.
Proof.
  apply (proj2 (proj2 (repair_check_sound (H := searchLookup) 5 demo_thread (demo_patch "lo")
    demo_thread_wf eq_refl ltac:(vm_compute; reflexivity))) AgentMessage (js "lo")); reflexivity.
Defined.

Lemma live_text_bounded_witness :
  exists thread' item',
    appendText (H := searchLookup) (Some (JStr (js "turn"))) (Some (JStr (js "plan")))
      (Some (JStr (js "Read"))) Plan demo_thread = (thread', true) /\
    strField "text" item' = js "1. Read".
Proof.
  destruct (live_text_bounded (H := searchLookup) demo_thread (js "turn") (js "plan") (js "Read")
    Plan demo_plan_item demo_thread_wf ltac:(discriminate)) as (t & i & Ha & _ & _ & Hs & _);
    [vm_compute; reflexivity..|].
  exists t, i. split; [exact Ha|]. apply Hs. apply Nat.leb_le. vm_compute. reflexivity.
Defined.

Lemma index_is_transparent_witness :
  foldl (applyAll (H := indexedLookup {| turnIndexById := [(js "turn", 0)]; itemIndexByTurnId := [] |}) 5)
    (demo_thread, false) [demo_patch "lo"] =
  foldl (applyAll (H := searchLookup) 5) (demo_thread, false) [demo_patch "lo"].
Proof.
  apply (index_is_transparent {| turnIndexById := [(js "turn", 0)]; itemIndexByTurnId := [] |} 5
    demo_thread [demo_patch "lo"] demo_thread_has_id demo_thread_wf).
  repeat constructor.
Defined.

(** ** What the batch-level contracts do not cover *)

(** A settings change snapshots the execution of every turn in progress, also
    of turns the batch did not copy: the cached source thread is written. *)
Definition demo_settings_patch : ThreadProjectionPatchV1 :=
  {| patch_threadId := js "thread";
     operation := [("kind", JStr (js "threadSettings"));
                   ("threadSettings", JObj [("model", JStr (js "gpt"))])] |}.

Lemma settings_batch_writes_source :
  (applyThreadProjectionPatchesImmutable (H := searchLookup) 5 demo_thread
     [demo_settings_patch]).2 <> demo_thread.
Proof. apply (proj1 (bool_decide_eq_false _)). vm_compute. reflexivity. Qed.

(** With maps that are not up to date the addressed turn, or the addressed item
    of a copied turn, is not copied, and the token is written into the source. *)
Definition stale_turns : ThreadEventIndex := {| turnIndexById := []; itemIndexByTurnId := [] |}.
Definition stale_items : ThreadEventIndex :=
  {| turnIndexById := [(js "turn", 1)]; itemIndexByTurnId := [(js "turn", [])] |}.

Lemma stale_index_writes_source :
  (applyThreadProjectionPatchesImmutable (H := indexedLookup stale_turns) 5 demo_thread
     [demo_patch "lo"]).2 <> demo_thread /\
  (applyThreadProjectionPatchesImmutable (H := indexedLookup stale_items) 5 demo_thread
     [demo_patch "lo"]).2 <> demo_thread.
Proof. split; apply (proj1 (bool_decide_eq_false _)); vm_compute; reflexivity. Qed.

(** The check tracks upserts but not the placeholder an upsert removes: a later
    delta to the placeholder passes the check and is dropped. *)
Definition demo_placeholder_thread : json :=
  JObj [("id", JStr (js "thread")); ("updatedAt", jint 1%Z);
        ("turns", JArr [demo_turn "turn"
           [JObj [("type", JStr (js "agentMessage")); ("id", JStr (js "turn:agent"));
                  ("text", JStr (js "Hi"))]]])].
Definition demo_canonical_patch : ThreadProjectionPatchV1 :=
  {| patch_threadId := js "thread";
     operation := [("kind", JStr (js "itemUpsert")); ("turnId", JStr (js "turn"));
                   ("item", JObj [("type", JStr (js "agentMessage")); ("id", JStr (js "canon"));
                                  ("text", JStr (js "Hi"))])] |}.
Definition demo_placeholder_patch : ThreadProjectionPatchV1 :=
  {| patch_threadId := js "thread"; operation := agentDelta (js "turn") (js "turn:agent") (js "!") |}.

Lemma repair_check_misses_placeholder :
  threadProjectionNeedsAuthoritativeRepair demo_placeholder_thread
    [demo_canonical_patch; demo_placeholder_patch] = false /\
  (applyThreadProjectionPatch (H := searchLookup) 5
     (applyThreadProjectionPatch (H := searchLookup) 5 demo_placeholder_thread
        demo_canonical_patch).1 demo_placeholder_patch).2 = false.
Proof. split; vm_compute; reflexivity. Qed.
