(* ===== verification/MemoryCache.v ===== *)
(** * The in-memory sync cache

    Models packages/sync-client/src/memory-cache.ts: per connection a replay
    cursor, the cached threads and the pending server requests, fed by
    snapshots and by numbered events.  An operation returns the cache after it;
    [emits] counts the notifications sent to the listeners. *)
From S2P Require Import Prelude JsMap Json ThreadItems EventIndex ThreadEvents ThreadLaws.

Local Open Scope nat_scope.

(** ** Data *)

Inductive RemoteConnectionState := Offline | Connecting | Syncing | Live | Degraded | AuthRequired.

#[export] Instance remote_state_eq_dec : EqDecision RemoteConnectionState.
Proof. solve_decision. Defined.

Record SyncEvent := { ev_cursor : Z; payload : jobj }.
Record SyncSnapshotThread := { snap_thread : json; archived : bool }.
Record SyncServerRequest := { req_id : json; req_method : jstr; req_params : jobj }.

Record ConnectionData :=
  { cursor : option Z;
    conn_state : RemoteConnectionState;
    conn_diagnostic : option jstr;
    threads : list (jstr * json);
    pending : list (jstr * SyncServerRequest) }.

Record MemorySyncCache := { connections : list (jstr * ConnectionData); emits : nat }.

Definition emptyData : ConnectionData :=
  {| cursor := None; conn_state := Offline; conn_diagnostic := None; threads := []; pending := [] |}.

Definition emptyCache : MemorySyncCache := {| connections := []; emits := 0 |}.

(** ** Payloads *)

Definition requestIdType (id : json) : option string :=
  match id with JStr _ => Some "string" | JNum _ => Some "number" | _ => None end.

(** The key of a pending request: [typeof id] and the JSON text of [id]; [None]
    for an id that is neither a string nor a number. *)
Definition requestKey (id : json) : option jstr :=
  (fun type => js type ++ js ":" ++ stringify id) <$> requestIdType id.

Definition USER_SERVER_REQUESTS : list string :=
  ["item/commandExecution/requestApproval"; "item/fileChange/requestApproval";
   "item/tool/requestUserInput"; "mcpServer/elicitation/request";
   "item/permissions/requestApproval"].

Definition isUserRequest (method : jstr) : bool :=
  existsb (fun m => bool_decide (js m = method)) USER_SERVER_REQUESTS.

Definition preserveCachedTurns (summary : json) (cached : option json) : json :=
  match cached with
  | Some cached =>
      if bool_decide (turnsOf summary <> []) || bool_decide (turnsOf cached = []) then summary
      else setTurns (turnsOf cached) summary
  | None => summary
  end.

Definition isEphemeral (thread : json) : bool := isTrue (field "ephemeral" thread).

Definition asThread (value : option json) : option json :=
  object ← asObject value;
  _ ← asString (oget "id" object);
  Some (JObj object).

Definition setThreads (ts : list (jstr * json)) (data : ConnectionData) : ConnectionData :=
  {| cursor := cursor data; conn_state := conn_state data; conn_diagnostic := conn_diagnostic data;
     threads := ts; pending := pending data |}.

Definition setPending (ps : list (jstr * SyncServerRequest)) (data : ConnectionData)
    : ConnectionData :=
  {| cursor := cursor data; conn_state := conn_state data; conn_diagnostic := conn_diagnostic data;
     threads := threads data; pending := ps |}.

Definition setCursor (c : Z) (data : ConnectionData) : ConnectionData :=
  {| cursor := Some c; conn_state := conn_state data; conn_diagnostic := conn_diagnostic data;
     threads := threads data; pending := pending data |}.

Section cache.
Context `{EventLookup}.
(** [Math.floor(Date.now() / 1000)] while a batch is applied. *)
Context (now : Z).

Definition recordRequest (method : jstr) (params : jobj) (id : option json)
    (data : ConnectionData) : ConnectionData :=
  match id with
  | Some id =>
      match requestKey id with
      | Some key =>
          if isUserRequest method
          then setPending
                 (mset key {| req_id := id; req_method := method; req_params := params |}
                    (pending data)) data
          else data
      | None => data
      end
  | None => data
  end.

Definition resolveRequest (id : option json) (data : ConnectionData) : ConnectionData :=
  match id ≫= requestKey with
  | Some key => setPending (mdel key (pending data)) data
  | None => data
  end.

Definition applyThreadPayload (method : jstr) (params payload : jobj) (data : ConnectionData)
    : ConnectionData :=
  if bool_decide (method = js "thread/started") then
    match asThread (oget "thread" params) with
    | Some thread =>
        match asString (field "id" thread) with
        | Some id =>
            if isEphemeral thread then data else setThreads (mset id thread (threads data)) data
        | None => data
        end
    | None => data
    end
  else
    match asString (oget "threadId" params) with
    | None => data
    | Some threadId =>
        if bool_decide (method = js "thread/deleted") || bool_decide (method = js "thread/archived")
        then setThreads (mdel threadId (threads data)) data
        else
          match mget threadId (threads data) with
          | Some thread =>
              setThreads (mset threadId (applyThreadEvent now thread payload).1 (threads data)) data
          | None => data
          end
    end.

Definition applyPayload (payload : jobj) (data : ConnectionData) : ConnectionData :=
  match asString (oget "method" payload), asObject (oget "params" payload) with
  | Some method, Some params =>
      if bool_decide (method = js "serverRequest/resolved")
      then resolveRequest (oget "requestId" params) data
      else
        applyThreadPayload method params payload
          (recordRequest method params (oget "id" payload) data)
  | _, _ => data
  end.

(** ** The event loop

    [Gap] is the thrown error; the data is what the call leaves behind. *)
Inductive EventsResult := Applied | Gap.

Definition applyOne (data : ConnectionData) (event : SyncEvent) : ConnectionData :=
  setCursor (ev_cursor event) (applyPayload (payload event) data).

(** Data, whether anything was applied, and how the loop ended. *)
Fixpoint applyLoop (events : list SyncEvent) (changed : bool) (data : ConnectionData)
    : ConnectionData * bool * EventsResult :=
  match events with
  | [] => (data, changed, Applied)
  | event :: events =>
      match cursor data with
      | Some c =>
          if (ev_cursor event <=? c)%Z then applyLoop events changed data
          else if negb (ev_cursor event =? c + 1)%Z then (data, changed, Gap)
          else applyLoop events true (applyOne data event)
      | None => applyLoop events true (applyOne data event)
      end
  end.

(** ** Operations of the cache *)

Definition dataOf (connectionId : jstr) (cache : MemorySyncCache) : ConnectionData :=
  default emptyData (mget connectionId (connections cache)).

Definition putData (connectionId : jstr) (data : ConnectionData) (emitted : bool)
    (cache : MemorySyncCache) : MemorySyncCache :=
  {| connections := mset connectionId data (connections cache);
     emits := if emitted then S (emits cache) else emits cache |}.

Definition applyEvents (connectionId : jstr) (events : list SyncEvent) (cache : MemorySyncCache)
    : MemorySyncCache * EventsResult :=
  let '(data, changed, result) := applyLoop events false (dataOf connectionId cache) in
  (putData connectionId data
     (match result with Applied => changed | Gap => false end) cache, result).

Definition applyEvent (connectionId : jstr) (event : SyncEvent) (cache : MemorySyncCache)
    : MemorySyncCache * EventsResult :=
  applyEvents connectionId [event] cache.

Definition snapshotEntry (data : ConnectionData) (s : SyncSnapshotThread) : option (jstr * json) :=
  let thread := snap_thread s in
  if isEphemeral thread then None
  else
    (fun id => (id, preserveCachedTurns thread (mget id (threads data))))
      <$> asString (field "id" thread).

Definition applySnapshot (connectionId : jstr) (snapshot : list SyncSnapshotThread)
    (newCursor : Z) (cache : MemorySyncCache) : MemorySyncCache :=
  let data := dataOf connectionId cache in
  putData connectionId
    (setCursor newCursor (setThreads (mfrom (omap (snapshotEntry data) snapshot)) data)) true cache.

Definition replacePendingServerRequests (connectionId : jstr) (requests : list SyncServerRequest)
    (cache : MemorySyncCache) : MemorySyncCache :=
  putData connectionId
    (setPending
       (mfrom (omap (fun r => (fun key => (key, r)) <$> requestKey (req_id r)) requests))
       (dataOf connectionId cache)) true cache.

(** [diagnostic] is the optional argument: [None] when it is not passed. *)
Definition setConnectionState (connectionId : jstr) (state : RemoteConnectionState)
    (diagnostic : option (option jstr)) (cache : MemorySyncCache) : MemorySyncCache :=
  let data := dataOf connectionId cache in
  putData connectionId
    {| cursor := cursor data; conn_state := state;
       conn_diagnostic :=
         if bool_decide (state = Live) then None
         else default (conn_diagnostic data) diagnostic;
       threads := threads data; pending := pending data |} true cache.

Definition getCursor (connectionId : jstr) (cache : MemorySyncCache) : option Z :=
  cursor (dataOf connectionId cache).

(** [thread.recencyAt ?? thread.updatedAt], whole numbers of seconds. *)
Definition recency (thread : json) : Z :=
  match coalesce (field "recencyAt" thread) (field "updatedAt" thread) with
  | Some (JNum (NInt z)) => z
  | _ => 0%Z
  end.

Definition newestFirst (a b : json) : bool := (recency b <=? recency a)%Z.

Definition listThreads (connectionId : jstr) (cache : MemorySyncCache) : list json :=
  sortBy newestFirst (mvals (threads (dataOf connectionId cache))).

Definition pendingServerRequests (connectionId : jstr) (cache : MemorySyncCache)
    : list SyncServerRequest :=
  mvals (pending (dataOf connectionId cache)).

(** ** Replay *)

Lemma applyLoop_app es1 es2 changed data data1 ch1 :
  applyLoop es1 changed data = (data1, ch1, Applied) ->
  applyLoop (es1 ++ es2) changed data = applyLoop es2 ch1 data1.
Proof.
  revert changed data. induction es1 as [|e es1 IH]; intros changed data; simpl;
    [by intros [= -> ->]|].
  destruct (cursor data) as [c|]; [|by apply IH].
  destruct (ev_cursor e <=? c)%Z; [by apply IH|].
  destruct (negb _); [by intros [=]|by apply IH].
Qed.

Lemma applyLoop_gap es1 es2 changed data data1 ch1 :
  applyLoop es1 changed data = (data1, ch1, Gap) ->
  applyLoop (es1 ++ es2) changed data = (data1, ch1, Gap).
Proof.
  revert changed data. induction es1 as [|e es1 IH]; intros changed data; simpl; [by intros [=]|].
  destruct (cursor data) as [c|]; [|by apply IH].
  destruct (ev_cursor e <=? c)%Z; [by apply IH|].
  destruct (negb _); [by intros [= -> ->]|by apply IH].
Qed.

(** Events up to the cursor are skipped. *)
Definition upTo (c : Z) (es : list SyncEvent) : Prop := Forall (fun e => ev_cursor e <= c)%Z es.

Lemma applyLoop_skip es c changed data :
  cursor data = Some c -> upTo c es -> applyLoop es changed data = (data, changed, Applied).
Proof.
  intros Hc Hes. induction Hes as [|e es He _ IH]; simpl; [done|].
  rewrite Hc. apply Z.leb_le in He. by rewrite He.
Qed.

(** The loop only moves the cursor forward, one event at a time. *)
Lemma applyLoop_cursor es changed data data1 ch1 r :
  applyLoop es changed data = (data1, ch1, r) ->
  (forall c, cursor data = Some c -> exists c1, cursor data1 = Some c1 /\ (c <= c1)%Z) /\
  (r = Applied -> forall c1, cursor data1 = Some c1 -> upTo c1 es).
Proof.
  revert changed data. induction es as [|e es IH]; intros changed data; simpl.
  { intros [= <- <- <-]. split; [intros c ->; eauto with lia|intros _ c1 _; constructor]. }
  assert (forall data0, applyLoop es true (applyOne data0 e) = (data1, ch1, r) ->
    (exists c1, cursor data1 = Some c1 /\ (ev_cursor e <= c1)%Z) /\
    (r = Applied -> forall c1, cursor data1 = Some c1 -> upTo c1 (e :: es))) as Hstep.
  { intros data0 Hl. destruct (IH _ _ Hl) as [Hmono Hall].
    destruct (Hmono (ev_cursor e) eq_refl) as (c1 & Hc1 & Hle). split; [eauto|].
    intros Hr c2 Hc2. rewrite Hc1 in Hc2. simplify_eq. constructor; [done|by apply Hall]. }
  destruct (cursor data) as [c|] eqn:Ec.
  - destruct (Z.leb_spec (ev_cursor e) c) as [Hle|Hlt].
    + intros Hl. destruct (IH _ _ Hl) as [Hmono Hall]. rewrite Ec in Hmono. split; [done|].
      intros Hr c1 Hc1. destruct (Hmono c eq_refl) as (c2 & Hc2 & Hle2).
      rewrite Hc1 in Hc2. simplify_eq. constructor; [lia|by apply Hall].
    + destruct (Z.eqb_spec (ev_cursor e) (c + 1)) as [Heq|Hne]; simpl.
      * intros [(c1 & Hc1 & Hle) Hall]%Hstep. split; [|done].
        intros c' [= <-]. exists c1. split; [done|lia].
      * intros [= <- <- <-]. rewrite Ec. split; [intros c' [= <-]; eauto with lia|done].
  - intros [(c1 & Hc1 & Hle) Hall]%Hstep. by split.
Qed.

Lemma applyLoop_some es changed data data1 ch1 :
  es <> [] -> applyLoop es changed data = (data1, ch1, Applied) -> is_Some (cursor data1).
Proof.
  destruct es as [|e es]; [done|]. intros _. simpl.
  assert (forall data0 ch, applyLoop es ch (applyOne data0 e) = (data1, ch1, Applied) ->
            is_Some (cursor data1)) as Hs.
  { intros data0 ch Hl. destruct (applyLoop_cursor _ _ _ _ _ _ Hl) as [Hm _].
    destruct (Hm (ev_cursor e) eq_refl) as (c1 & -> & _). eauto. }
  destruct (cursor data) as [c|] eqn:Ec; [|by apply Hs].
  destruct (_ <=? _)%Z.
  - intros Hl. destruct (applyLoop_cursor _ _ _ _ _ _ Hl) as [Hm _].
    destruct (Hm c Ec) as (c1 & -> & _). eauto.
  - destruct (negb _); [done|by apply Hs].
Qed.

Lemma applyLoop_flag es ch1 ch2 data :
  (applyLoop es ch1 data).1.1 = (applyLoop es ch2 data).1.1 /\
  (applyLoop es ch1 data).2 = (applyLoop es ch2 data).2.
Proof.
  revert ch1 ch2 data. induction es as [|e es IH]; intros ch1 ch2 data; simpl; [done|].
  destruct (cursor data) as [c|]; [|done]. destruct (_ <=? _)%Z; [done|].
  by destruct (negb _).
Qed.

(** A gap splits the events: what precedes it was applied. *)
Lemma applyLoop_gap_split es changed data data1 ch1 :
  applyLoop es changed data = (data1, ch1, Gap) ->
  exists pre e post c, es = pre ++ e :: post /\
    applyLoop pre changed data = (data1, ch1, Applied) /\
    cursor data1 = Some c /\ (c + 1 < ev_cursor e)%Z.
Proof.
  revert changed data. induction es as [|e es IH]; intros changed data; simpl; [by intros [=]|].
  assert (forall ch data0, applyLoop es ch data0 = (data1, ch1, Gap) ->
    (forall l, applyLoop (e :: l) changed data = applyLoop l ch data0) ->
    exists pre e' post c, e :: es = pre ++ e' :: post /\
      applyLoop pre changed data = (data1, ch1, Applied) /\
      cursor data1 = Some c /\ (c + 1 < ev_cursor e')%Z) as Hcons.
  { intros ch data0 Hl Heq. destruct (IH _ _ Hl) as (pre & e' & post & c & -> & Hp & ?).
    exists (e :: pre), e', post, c. split_and!; [done|by rewrite Heq|naive_solver..]. }
  destruct (cursor data) as [c|] eqn:Ec.
  - destruct (Z.leb_spec (ev_cursor e) c) as [Hle|Hlt].
    + intros Hl. apply (Hcons _ _ Hl). intros l. simpl. rewrite Ec.
      by rewrite (proj2 (Z.leb_le _ _) Hle).
    + destruct (Z.eqb_spec (ev_cursor e) (c + 1)) as [Heq|Hne]; simpl.
      * intros Hl. apply (Hcons _ _ Hl). intros l. simpl. rewrite Ec.
        rewrite (proj2 (Z.leb_gt _ _) Hlt). by rewrite (proj2 (Z.eqb_eq _ _) Heq).
      * intros [= <- <-]. exists [], e, es, c. split_and!; [done|done|done|lia].
  - intros Hl. apply (Hcons _ _ Hl). intros l. simpl. by rewrite Ec.
Qed.

(** ** Invariant *)

Record data_ok (data : ConnectionData) : Prop :=
  { ok_threads_wf : mwf (threads data);
    ok_threads : forall k t, mget k (threads data) = Some t -> hasId k t = true;
    ok_pending_wf : mwf (pending data);
    ok_pending : forall k r, mget k (pending data) = Some r -> requestKey (req_id r) = Some k }.

Lemma emptyData_ok : data_ok emptyData.
Proof. split; simpl; try done; apply NoDup_nil_2. Qed.

Lemma ok_setThreads ts data :
  data_ok data -> mwf ts -> (forall k t, mget k ts = Some t -> hasId k t = true) ->
  data_ok (setThreads ts data).
Proof. intros [] Hw Ht. by split. Qed.

Lemma ok_setPending ps data :
  data_ok data -> mwf ps -> (forall k r, mget k ps = Some r -> requestKey (req_id r) = Some k) ->
  data_ok (setPending ps data).
Proof. intros [] Hw Ht. by split. Qed.

Lemma ok_setCursor c data : data_ok data -> data_ok (setCursor c data).
Proof. intros []. by split. Qed.

Lemma ok_mset_thread k t data :
  data_ok data -> hasId k t = true -> data_ok (setThreads (mset k t (threads data)) data).
Proof.
  intros Hd Ht. apply ok_setThreads; [done|apply mset_wf, Hd|].
  intros k' t'. rewrite mget_mset. case_bool_decide; [intros [= <-]; by subst|apply Hd].
Qed.

Lemma applyThreadEvent_id thread ev k :
  hasId k thread = true -> hasId k (applyThreadEvent now thread ev).1 = true.
Proof.
  intros Hk. unfold applyThreadEvent. destruct (threadProjectionPatchFromEvent ev) as [p|]; [|done].
  assert (is_obj thread) as Ho by (apply hasId_spec in Hk; by eapply field_is_obj).
  pose proof (good_patch now (fun _ => True) thread p Ho
    (fun _ => conj (fun _ _ => I) (fun _ _ => I))) as Hg.
  apply hasId_spec. rewrite (good_id _ _ _ _ Hg). by apply hasId_spec.
Qed.

Lemma ok_applyPayload ev data : data_ok data -> data_ok (applyPayload ev data).
Proof.
  intros Hd. unfold applyPayload. destruct (asString _) as [method|]; [|done].
  destruct (asObject _) as [params|]; [|done]. case_bool_decide.
  { unfold resolveRequest. destruct (_ ≫= _) as [key|]; [|done].
    apply ok_setPending; [done|apply mdel_wf, Hd|]. intros k r. rewrite mget_mdel.
    case_bool_decide; [done|apply Hd]. }
  assert (data_ok (recordRequest method params (oget "id" ev) data)) as Hr.
  { unfold recordRequest. destruct (oget "id" ev) as [id|]; [|done].
    destruct (requestKey id) as [key|] eqn:Ek; [|done]. destruct (isUserRequest method); [|done].
    apply ok_setPending; [done|apply mset_wf, Hd|]. intros k r. rewrite mget_mset.
    case_bool_decide; [intros [= <-]; by subst|apply Hd]. }
  revert Hr. generalize (recordRequest method params (oget "id" ev) data). clear data Hd.
  intros data Hd. unfold applyThreadPayload. case_bool_decide.
  - destruct (asThread _) as [thread|]; [|done].
    destruct (asString (field "id" thread)) as [id|] eqn:Eid; [|done].
    destruct (isEphemeral thread); [done|]. apply ok_mset_thread; [done|].
    apply hasId_spec. by apply asString_Some.
  - destruct (asString _) as [threadId|]; [|done]. destruct (_ || _).
    + apply ok_setThreads; [done|apply mdel_wf, Hd|]. intros k t. rewrite mget_mdel.
      case_bool_decide; [done|apply Hd].
    + destruct (mget threadId (threads data)) as [thread|] eqn:Et; [|done].
      apply ok_mset_thread; [done|]. by apply applyThreadEvent_id, Hd.
Qed.

Lemma ok_applyLoop es changed data :
  data_ok data -> data_ok (applyLoop es changed data).1.1.
Proof.
  revert changed data. induction es as [|e es IH]; intros changed data Hd; simpl; [done|].
  assert (data_ok (applyOne data e)) by by apply ok_setCursor, ok_applyPayload.
  destruct (cursor data); [|auto]. destruct (_ <=? _)%Z; [auto|]. destruct (negb _); auto.
Qed.

(** Every change of the cache. *)
Inductive cacheOp :=
| OpSnapshot (connectionId : jstr) (snapshot : list SyncSnapshotThread) (newCursor : Z)
| OpPending (connectionId : jstr) (requests : list SyncServerRequest)
| OpEvents (connectionId : jstr) (events : list SyncEvent)
| OpState (connectionId : jstr) (state : RemoteConnectionState)
    (diagnostic : option (option jstr)).

Definition opConnection (op : cacheOp) : jstr :=
  match op with
  | OpSnapshot c _ _ | OpPending c _ | OpEvents c _ | OpState c _ _ => c
  end.

Definition runOp (cache : MemorySyncCache) (op : cacheOp) : MemorySyncCache :=
  match op with
  | OpSnapshot c s n => applySnapshot c s n cache
  | OpPending c rs => replacePendingServerRequests c rs cache
  | OpEvents c es => (applyEvents c es cache).1
  | OpState c s d => setConnectionState c s d cache
  end.

Lemma dataOf_putData c c' data e cache :
  dataOf c' (putData c data e cache) = if bool_decide (c = c') then data else dataOf c' cache.
Proof.
  unfold dataOf, putData. simpl. rewrite mget_mset.
  by repeat case_bool_decide.
Qed.

Lemma snapshotEntry_ok data s k t :
  data_ok data -> snapshotEntry data s = Some (k, t) -> hasId k t = true.
Proof.
  intros Hd. unfold snapshotEntry. destruct (isEphemeral _); [done|].
  intros (id & Hid%asString_Some & [= -> ->])%fmap_Some. apply hasId_spec.
  unfold preserveCachedTurns. repeat case_match; try done.
  unfold setTurns. by rewrite field_setField_ne.
Qed.

Lemma runOp_ok cache op :
  (forall c, data_ok (dataOf c cache)) ->
  data_ok (dataOf (opConnection op) (runOp cache op)).
Proof.
  intros Hall. destruct op as [c s n|c rs|c es|c st d]; simpl; cbn [opConnection].
  - unfold applySnapshot. rewrite dataOf_putData, bool_decide_true by done.
    apply ok_setCursor, ok_setThreads; [done|apply mfrom_wf|].
    intros k t (sn & _ & He)%mget_mfrom_elem%list_elem_of_omap. by eapply snapshotEntry_ok.
  - unfold replacePendingServerRequests. rewrite dataOf_putData, bool_decide_true by done.
    apply ok_setPending; [done|apply mfrom_wf|].
    intros k r (r' & _ & He)%mget_mfrom_elem%list_elem_of_omap.
    apply fmap_Some in He as (key & Hk & [= -> ->]). done.
  - unfold applyEvents. pose proof (ok_applyLoop es false (dataOf c cache) (Hall c)) as Hl.
    destruct (applyLoop es false (dataOf c cache)) as [[data ch] r]. simpl in *.
    by rewrite dataOf_putData, bool_decide_true.
  - unfold setConnectionState. rewrite dataOf_putData, bool_decide_true by done.
    destruct (Hall c). by split.
Qed.

(** ** Properties *)

(** C32. Redelivery is absorbed: events the cursor already covers may be sent
    again, alone or in front of new ones, and the connection ends as if every
    event had been delivered once. *)
Theorem replay_absorbed connectionId cache cache1 es1 again es2 c :
  applyEvents connectionId es1 cache = (cache1, Applied) ->
  getCursor connectionId cache1 = Some c -> upTo c again ->
  upTo c es1 /\
  dataOf connectionId (applyEvents connectionId (again ++ es2) cache1).1 =
  dataOf connectionId (applyEvents connectionId (es1 ++ es2) cache).1 /\
  (applyEvents connectionId (again ++ es2) cache1).2 =
  (applyEvents connectionId (es1 ++ es2) cache).2.
Proof.
  unfold applyEvents, getCursor.
  destruct (applyLoop es1 false (dataOf connectionId cache)) as [[data1 ch1] r] eqn:E1.
  intros [= <- ->]. rewrite dataOf_putData, bool_decide_true by done. intros Hc Hagain.
  pose proof (applyLoop_skip again c false data1 Hc Hagain) as Hskip.
  rewrite (applyLoop_app again es2 _ _ _ _ Hskip).
  rewrite (applyLoop_app es1 es2 _ _ _ _ E1).
  destruct (applyLoop_flag es2 false ch1 data1) as [Hd Hr].
  destruct (applyLoop es2 false data1) as [[d2 c2] r2],
           (applyLoop es2 ch1 data1) as [[d3 c3] r3]. simpl in *. subst.
  rewrite !dataOf_putData, !bool_decide_true by done.
  split; [|done]. by apply (applyLoop_cursor _ _ _ _ _ _ E1).
Qed.

(** A gap is never skipped: when a batch is rejected, exactly the events
    before the first one beyond the next cursor have been applied, the cursor
    stands at the last of them, and no listener has been notified. *)
Theorem gap_keeps_prefix connectionId cache cache' es :
  applyEvents connectionId es cache = (cache', Gap) ->
  exists pre e post c cache1, es = pre ++ e :: post /\
    applyEvents connectionId pre cache = (cache1, Applied) /\
    getCursor connectionId cache1 = Some c /\ (c + 1 < ev_cursor e)%Z /\
    dataOf connectionId cache' = dataOf connectionId cache1 /\ emits cache' = emits cache.
Proof.
  unfold applyEvents, getCursor.
  destruct (applyLoop es false (dataOf connectionId cache)) as [[data1 ch1] r] eqn:E1.
  intros [= <- ->].
  destruct (applyLoop_gap_split _ _ _ _ _ E1) as (pre & e & post & c & -> & Hpre & Hc & Hlt).
  exists pre, e, post, c. eexists. rewrite Hpre. split_and!; [done|done| |done| |done].
  - by rewrite dataOf_putData, bool_decide_true.
  - by rewrite !dataOf_putData, !bool_decide_true.
Qed.

(** The cache stays consistent under every sequence of operations: each
    thread and each pending request is filed once, under its own id; and an
    operation leaves the data of every other connection as it was. *)
Theorem cache_consistent ops op connectionId :
  data_ok (dataOf connectionId (foldl runOp emptyCache ops)) /\
  (opConnection op <> connectionId ->
   dataOf connectionId (foldl runOp emptyCache (ops ++ [op])) =
   dataOf connectionId (foldl runOp emptyCache ops)).
Proof.
  assert (forall cache o c', opConnection o <> c' -> dataOf c' (runOp cache o) = dataOf c' cache)
    as Hframe.
  { intros cache o c' Hne. destruct o; cbn [runOp opConnection] in *.
    1,2,4: unfold applySnapshot, replacePendingServerRequests, setConnectionState;
      by rewrite dataOf_putData, bool_decide_false.
    unfold applyEvents. destruct (applyLoop _ _ _) as [[d ch] r]. simpl.
    by rewrite dataOf_putData, bool_decide_false. }
  split.
  - revert connectionId.
    assert (forall cache, (forall c, data_ok (dataOf c cache)) ->
              forall c, data_ok (dataOf c (foldl runOp cache ops))) as Hops.
    { induction ops as [|o l IH]; intros cache Hc c; simpl; [done|]. apply IH. intros c'.
      destruct (decide (opConnection o = c')) as [<-|Hne]; [by apply runOp_ok|].
      by rewrite Hframe. }
    apply Hops. intros c. apply emptyData_ok.
  - intros Hne. rewrite foldl_app. simpl. by apply Hframe.
Qed.
End cache.

(** ** Witnesses *)

Definition demo_event (n : Z) (name : string) : SyncEvent :=
  {| ev_cursor := n;
     payload := [("method", JStr (js "thread/started"));
                 ("params", JObj [("thread", JObj [("id", JStr (js name))])])] |}.

Lemma replay_absorbed_witness :
  dataOf (js "c")
    (applyEvents (H := searchLookup) 0 (js "c") [demo_event 7 "a"; demo_event 8 "b"]
       (applyEvents (H := searchLookup) 0 (js "c") [demo_event 7 "a"] emptyCache).1).1 =
  dataOf (js "c")
    (applyEvents (H := searchLookup) 0 (js "c") [demo_event 7 "a"; demo_event 8 "b"] emptyCache).1.
Proof.
  refine (proj1 (proj2 (replay_absorbed (H := searchLookup) 0 (js "c") emptyCache _
    [demo_event 7 "a"] [demo_event 7 "a"] [demo_event 8 "b"] 7 _ _ _)));
    [vm_compute; reflexivity|vm_compute; reflexivity|].
  constructor; [vm_compute; discriminate|constructor].
Defined.

Lemma gap_keeps_prefix_witness :
  exists cache', applyEvents (H := searchLookup) 0 (js "c") [demo_event 7 "a"; demo_event 9 "b"]
                   emptyCache = (cache', Gap) /\ emits cache' = 0.
Proof.
  destruct (applyEvents (H := searchLookup) 0 (js "c") [demo_event 7 "a"; demo_event 9 "b"]
    emptyCache) as [cache' r] eqn:E.
  assert (r = Gap) as -> by (vm_compute in E; congruence).
  exists cache'. split; [reflexivity|].
  destruct (gap_keeps_prefix (H := searchLookup) 0 (js "c") emptyCache cache' _ E)
    as (? & ? & ? & ? & ? & _ & _ & _ & _ & _ & He).
  exact He.
Defined.
