(* ===== verification/SupervisorAttention.v ===== *)
(** * What the supervisor is told of its workers

    Models apps/android/src/data/globalSupervisorAttention.ts with the rows of
    globalSupervisorAttentionStorage.types.ts and the store of
    globalSupervisorAttentionStorage.web.ts: the durable relations between a
    supervisor and its worker chats, the reduction of what happens in a worker
    chat to attention events, their deduplication, order, acknowledgement and
    retention.  Operations run one after the other on the promise chain of the
    owner; each is a segment up to its commit and a continuation.

    A stored row has non-empty ids (no operation writes another); a time is an
    integer, and the product of a fractional number of seconds with 1000 is a
    parameter. *)
From S2P Require Import Prelude JsMap Json JsonText SafeText ThreadItems ThreadEvents MemoryCache.

(** ** Rows *)

Record ChatRef := { connectionId : jstr; threadId : jstr }.

#[export] Instance ChatRef_eq_dec : EqDecision ChatRef.
Proof. solve_decision. Defined.

Inductive AttentionKind := Blocked | Completed | Failed | NeedsInput.

#[export] Instance AttentionKind_eq_dec : EqDecision AttentionKind.
Proof. solve_decision. Defined.

(** An attention event but for its two chats. *)
Record AttentionSource :=
  { eventId : jstr; kind : AttentionKind; observedAt : Z; sourceCursor : option Z;
    summary : jstr; turnId : option jstr }.

Record AttentionEvent := { source : AttentionSource; supervisor : ChatRef; worker : ChatRef }.

Record AttentionCandidate := { c_source : AttentionSource; c_threadId : jstr }.

Inductive RelationStatus := Creating (source : jstr) | Active.
Inductive AttentionState := Acknowledged | Pending.
Inductive SpokenPolicy := Muted | Snoozed (until : Z).

#[export] Instance AttentionState_eq_dec : EqDecision AttentionState.
Proof. solve_decision. Defined.

Inductive RowBody :=
| Relation (createdAt : Z) (status : RelationStatus)
| Attention (attention : AttentionEvent) (state : AttentionState)
| SpeechPolicy (policy : SpokenPolicy).

Record StoredRow :=
  { row_id : jstr; row_observedAt : Z; body : RowBody;
    supervisorConnectionId : jstr; supervisorThreadId : jstr;
    workerConnectionId : jstr; workerThreadId : option jstr }.

Inductive StorageChange := Put (row : StoredRow) | Delete (id : jstr).

Abbreviation rowMap := (list (jstr * StoredRow)).

Record DeliveryScope :=
  { baselineCursors : list (jstr * Z); enabledAt : Z; s_supervisor : ChatRef }.

(** ** Identities *)

(** [globalSupervisorQualifiedChatRef]; [None] where it throws. *)
Definition globalSupervisorQualifiedChatRef (connectionId threadId : jstr) : option ChatRef :=
  match connectionId, threadId with
  | [], _ | _, [] => None
  | _, _ => Some {| connectionId := connectionId; threadId := threadId |}
  end.

Definition qualifiedKey (ref : ChatRef) : jstr :=
  identity [IdStr (connectionId ref); IdStr (threadId ref)].

Definition relationRowId (supervisor worker : ChatRef) : jstr :=
  js "relation:" ++ identity [IdStr (connectionId supervisor); IdStr (threadId supervisor);
                              IdStr (connectionId worker); IdStr (threadId worker)].

Definition creationRowId (supervisor : ChatRef) (workerConnectionId source : jstr) : jstr :=
  js "creation:" ++ identity [IdStr (connectionId supervisor); IdStr (threadId supervisor);
                              IdStr workerConnectionId; IdStr source].

Definition attentionRowId (supervisor : ChatRef) (eventId : jstr) : jstr :=
  js "attention:" ++ identity [IdStr (connectionId supervisor); IdStr (threadId supervisor); IdStr eventId].

Definition speechPolicyRowId (supervisor worker : ChatRef) : jstr :=
  js "speech-policy:" ++ identity [IdStr (connectionId supervisor); IdStr (threadId supervisor);
                                   IdStr (connectionId worker); IdStr (threadId worker)].

Definition sameRef (left right : ChatRef) : bool :=
  bool_decide (connectionId left = connectionId right) && bool_decide (threadId left = threadId right).

Definition supervisorFromRow (row : StoredRow) : ChatRef :=
  {| connectionId := supervisorConnectionId row; threadId := supervisorThreadId row |}.

Definition workerFromRelation (row : StoredRow) : option ChatRef :=
  match body row, workerThreadId row with
  | Relation _ Active, Some threadId =>
      Some {| connectionId := workerConnectionId row; threadId := threadId |}
  | _, _ => None
  end.

(** [typeof requestId], and the identity of a request of a chat
    (globalSupervisorPendingRequest.ts). *)
Definition typeOf (v : json) : jstr :=
  js match v with
     | JStr _ => "string" | JNum _ => "number" | JBool _ => "boolean" | _ => "object"
     end.

Definition requestIdentity (connectionId threadId : jstr) (requestId : json) : jstr :=
  identity [IdStr connectionId; IdStr threadId; IdStr (typeOf requestId); IdStr (stringify requestId)].

Definition globalSupervisorServerRequestEventId (connectionId : jstr) (request : SyncServerRequest)
    (threadId : jstr) : jstr :=
  js "request:" ++ requestIdentity connectionId threadId (req_id request).

(** ** Reading events *)

Definition ATTENTION_SUMMARY_MAX_CHARACTERS : nat := 480.
Definition ATTENTION_READ_MAX_ENTRIES : Z := 32.
Definition ATTENTION_ACKNOWLEDGED_MAX_ENTRIES_PER_SUPERVISOR : nat := 256.
Definition MILLISECONDS_PER_SECOND : Z := 1000.

Definition USER_INTERACTION_METHODS : list string :=
  ["item/commandExecution/requestApproval"; "item/fileChange/requestApproval";
   "item/tool/requestUserInput"; "mcpServer/elicitation/request"; "item/permissions/requestApproval"].

Definition boundedSummary (value : option json) (fallback : string) : jstr :=
  match asString value with
  | None => js fallback
  | Some s =>
      match projectGlobalSupervisorSafeText s ATTENTION_SUMMARY_MAX_CHARACTERS with
      | [] => js fallback
      | projected => projected
      end
  end.

Definition nonEmptyString (value : option json) : option jstr :=
  match asString value with Some (c :: s) => Some (c :: s) | _ => None end.

Inductive TerminalTurnStatus := TCompleted | TFailed | TInterrupted.

Definition terminalTurnStatus (value : option json) : option TerminalTurnStatus :=
  if isStr value "completed" then Some TCompleted
  else if isStr value "failed" then Some TFailed
  else if isStr value "interrupted" then Some TInterrupted else None.

Definition statusName (status : TerminalTurnStatus) : jstr :=
  js match status with TCompleted => "completed" | TFailed => "failed" | TInterrupted => "interrupted" end.

Definition terminalAttentionKind (status : TerminalTurnStatus) : AttentionKind :=
  match status with TCompleted => Completed | TFailed => Failed | TInterrupted => Blocked end.

Definition terminalAttentionSummary (status : TerminalTurnStatus) (completedSummary : option json) : jstr :=
  match status with
  | TCompleted => boundedSummary completedSummary "Worker chat turn completed."
  | TFailed => js "Worker chat turn failed."
  | TInterrupted => js "Worker chat stopped before completion."
  end.

(** [unknownRecord(v)?.k]. *)
Definition recordField (k : string) (v : option json) : option json := o ← asObject v; oget k o.

Definition isMethod (event : SyncEvent) (method : string) : bool :=
  isStr (oget "method" (payload event)) method.

Definition eventParams (event : SyncEvent) : option json := oget "params" (payload event).

Definition eventObservedAt (payload : jobj) (fallback : Z) : Z :=
  default fallback (asSafeNat (oget "emittedAtMs" payload)).

Section attention.
(** The milliseconds of a fractional number of seconds, and the collation. *)
Variable fractionMs : string -> Z.
Variable localeCompare : jstr -> jstr -> Z.

Definition secondsToMs (value : option json) : option Z :=
  match value with
  | Some (JNum (NInt z)) => Some (z * MILLISECONDS_PER_SECOND)
  | Some (JNum (NDec t)) => Some (fractionMs t)
  | _ => None
  end.

Definition completedAt (turn : jobj) : option Z := secondsToMs (oget "completedAt" turn).

Definition turnAttention (connectionId : jstr) (event : SyncEvent) (fallbackObservedAt : Z)
    : option AttentionSource :=
  patch ← threadProjectionPatchFromEvent (payload event);
  if negb (kindIs (operation patch) "turnCompleted") then None
  else
    turn ← asObject (oget "turn" (operation patch));
    turnId ← nonEmptyString (oget "id" turn);
    status ← terminalTurnStatus (oget "status" turn);
    Some {| eventId := js "turn:" ++ identity [IdStr connectionId; IdStr (patch_threadId patch);
                                               IdStr turnId; IdStr (statusName status)];
            kind := terminalAttentionKind status;
            observedAt := eventObservedAt (payload event) (default fallbackObservedAt (completedAt turn));
            sourceCursor := Some (ev_cursor event);
            summary := terminalAttentionSummary status (recordField "previewText" (oget "summary" (operation patch)));
            turnId := Some turnId |}.

Definition blockedGoalAttention (connectionId : jstr) (event : SyncEvent) (fallbackObservedAt : Z)
    : option AttentionCandidate :=
  if negb (isMethod event "thread/goal/updated") then None
  else
    threadId ← nonEmptyString (recordField "threadId" (eventParams event));
    if negb (isStr (recordField "status" (recordField "goal" (eventParams event))) "blocked") then None
    else
      Some {| c_source :=
                {| eventId := js "goal:" ++ identity [IdStr connectionId; IdStr threadId;
                                                      IdInt (ev_cursor event); IdStr (js "blocked")];
                   kind := Blocked;
                   observedAt := eventObservedAt (payload event) fallbackObservedAt;
                   sourceCursor := Some (ev_cursor event);
                   summary := js "Worker chat reported a blocker.";
                   turnId := nonEmptyString (recordField "turnId" (eventParams event)) |};
              c_threadId := threadId |}.

Definition systemErrorAttention (connectionId : jstr) (event : SyncEvent) (fallbackObservedAt : Z)
    : option AttentionCandidate :=
  if negb (isMethod event "thread/status/changed") then None
  else
    threadId ← asString (recordField "threadId" (eventParams event));
    if negb (isStr (recordField "type" (recordField "status" (eventParams event))) "systemError") then None
    else
      Some {| c_source :=
                {| eventId := js "status:" ++ identity [IdStr connectionId; IdStr threadId;
                                                        IdInt (ev_cursor event); IdStr (js "systemError")];
                   kind := Failed;
                   observedAt := eventObservedAt (payload event) fallbackObservedAt;
                   sourceCursor := Some (ev_cursor event);
                   summary := js "Worker chat entered a system error state.";
                   turnId := None |};
              c_threadId := threadId |}.

Definition eventThreadId (event : SyncEvent) : option jstr :=
  match threadIdFromEvent (payload event) with
  | Some threadId => Some threadId
  | None => asString (recordField "threadId" (eventParams event))
  end.

Definition eventCandidate (connectionId : jstr) (event : SyncEvent) (now : Z) : option AttentionCandidate :=
  match turnAttention connectionId event now with
  | Some turn => (fun threadId => {| c_source := turn; c_threadId := threadId |}) <$> eventThreadId event
  | None =>
      match blockedGoalAttention connectionId event now with
      | Some goal => Some goal
      | None => systemErrorAttention connectionId event now
      end
  end.

Definition terminalSnapshotCandidate (connectionId : jstr) (snapshot : SyncSnapshotThread)
    : option AttentionSource :=
  turn ← last (arrField "turns" (snap_thread snapshot));
  observedAt ← secondsToMs (field "completedAt" turn);
  status ← terminalTurnStatus (field "status" turn);
  let lastMessage := last (filter (fun item => isType "agentMessage" item = true) (arrField "items" turn)) in
  Some {| eventId := js "turn:" ++ identity [IdStr connectionId; IdStr (strField "id" (snap_thread snapshot));
                                             IdStr (strField "id" turn); IdStr (statusName status)];
          kind := terminalAttentionKind status; observedAt := observedAt; sourceCursor := None;
          summary := terminalAttentionSummary status (lastMessage ≫= field "text");
          turnId := Some (strField "id" turn) |}.

Definition isDecisionRequest (method : jstr) : bool :=
  bool_decide (method = js "item/tool/requestUserInput")
  || bool_decide (method = js "mcpServer/elicitation/request").

Definition requestEvent (connectionId : jstr) (request : SyncServerRequest) (observedAt : Z)
    : option AttentionCandidate :=
  if negb (bool_decide (req_method request ∈ js <$> USER_INTERACTION_METHODS)) then None
  else
    threadId ← nonEmptyString (oget "threadId" (req_params request));
    Some {| c_source :=
              {| eventId := globalSupervisorServerRequestEventId connectionId request threadId;
                 kind := NeedsInput; observedAt := observedAt; sourceCursor := None;
                 summary := js (if isDecisionRequest (req_method request)
                                then "Worker chat is waiting for a user decision."
                                else "Worker chat is waiting for user approval.");
                 turnId := asString (oget "turnId" (req_params request)) |};
            c_threadId := threadId |}.

(** ** Relations *)

Definition activeRelationsForWorker (rows : list StoredRow) (worker : ChatRef) : list StoredRow :=
  filter (fun row => from_option (fun target => sameRef target worker) false (workerFromRelation row) = true) rows.

Definition relationForActive (supervisor worker : ChatRef) (createdAt : Z) : StoredRow :=
  {| row_id := relationRowId supervisor worker; row_observedAt := createdAt;
     body := Relation createdAt Active;
     supervisorConnectionId := connectionId supervisor; supervisorThreadId := threadId supervisor;
     workerConnectionId := connectionId worker; workerThreadId := Some (threadId worker) |}.

Definition relationCreatedAt (row : StoredRow) : Z :=
  match body row with Relation createdAt _ => createdAt | _ => 0 end.

Definition isAfterBaseline (sourceCursor baseline : option Z) : bool :=
  match sourceCursor, baseline with Some c, Some b => b <? c | _, _ => true end.

Definition automaticRelationCandidates (connectionId : jstr) (deliveryScopes : list (jstr * DeliveryScope))
    (sourceCursor : option Z) (worker : ChatRef) : list StoredRow :=
  omap (fun scope =>
          if sameRef (s_supervisor scope) worker then None
          else if negb (isAfterBaseline sourceCursor (mget connectionId (baselineCursors scope))) then None
          else Some (relationForActive (s_supervisor scope) worker (enabledAt scope)))
       (mvals deliveryScopes).

Definition attentionRelations (automatic rows : list StoredRow) (worker : ChatRef) : list StoredRow :=
  let stored := foldl (fun m relation => mset (qualifiedKey (supervisorFromRow relation)) relation m) []
                  (activeRelationsForWorker rows worker) in
  mvals (foldl (fun m relation =>
                  let key := qualifiedKey (supervisorFromRow relation) in
                  if mhas key m then m else mset key relation m) stored automatic).

Definition attentionRow (deliveryScopes : list (jstr * DeliveryScope)) (relation : StoredRow)
    (src : AttentionSource) (w : ChatRef) : StoredRow :=
  let sup := supervisorFromRow relation in
  {| row_id := attentionRowId sup (eventId src); row_observedAt := observedAt src;
     body := Attention {| source := src; supervisor := sup; worker := w |}
               match mget (qualifiedKey sup) deliveryScopes with
               | Some delivery =>
                   if isAfterBaseline (sourceCursor src) (mget (connectionId w) (baselineCursors delivery))
                      && (enabledAt delivery <=? observedAt src)
                   then Pending else Acknowledged
               | None => Acknowledged
               end;
     supervisorConnectionId := connectionId sup; supervisorThreadId := threadId sup;
     workerConnectionId := connectionId w; workerThreadId := Some (threadId w) |}.

Definition isPending (row : StoredRow) : bool :=
  match body row with Attention _ Pending => true | _ => false end.

(** The row of an attention with its state set. *)
Definition acknowledgedRow (row : StoredRow) : StoredRow :=
  match body row with
  | Attention a _ =>
      {| row_id := row_id row; row_observedAt := row_observedAt row; body := Attention a Acknowledged;
         supervisorConnectionId := supervisorConnectionId row; supervisorThreadId := supervisorThreadId row;
         workerConnectionId := workerConnectionId row; workerThreadId := workerThreadId row |}
  | _ => row
  end.

(** ** Reducing a batch *)

(** What a batch works on: the eligibility of workers, the working copy of the
    rows, the changes to commit and the supervisors they are news to. *)
Record Batch :=
  { b_ineligible : list jstr; working : rowMap; changes : list StorageChange;
    changedSupervisors : list jstr }.

(** A step on the batch; [false] when it throws. *)
Definition Step := Batch -> Batch * bool.

Definition done_ (b : Batch) : Batch * bool := (b, true).
Definition throws (b : Batch) : Batch * bool := (b, false).
Definition andThen (f g : Step) : Step :=
  fun b => match f b with (b, true) => g b | (b, false) => (b, false) end.
Definition onValue {A} (v : option A) (f : A -> Step) : Step :=
  match v with Some x => f x | None => throws end.
Definition pure (f : Batch -> Batch) : Step := fun b => (f b, true).

Definition withIneligible (f : list jstr -> list jstr) (b : Batch) : Batch :=
  {| b_ineligible := f (b_ineligible b); working := working b; changes := changes b;
     changedSupervisors := changedSupervisors b |}.

Definition working_delete (id : jstr) (b : Batch) : Batch :=
  {| b_ineligible := b_ineligible b; working := mdel id (working b);
     changes := changes b ++ [Delete id]; changedSupervisors := changedSupervisors b |}.

Definition working_put (row : StoredRow) (b : Batch) : Batch :=
  {| b_ineligible := b_ineligible b; working := mset (row_id row) row (working b);
     changes := changes b ++ [Put row]; changedSupervisors := changedSupervisors b |}.

Definition markPendingSupervisorChanged (row : StoredRow) (changed : list jstr) : list jstr :=
  match body row with
  | Attention a Pending => sadd (qualifiedKey (supervisor a)) changed
  | _ => changed
  end.

Definition marked (row : StoredRow) (b : Batch) : Batch :=
  {| b_ineligible := b_ineligible b; working := working b; changes := changes b;
     changedSupervisors := markPendingSupervisorChanged row (changedSupervisors b) |}.

(** The loop of [activateStartedRelations] and [activateSnapshotRelations]: the
    relations being created for the source become relations to the worker.  The
    rows a turn of the loop adds are visited too; they are active and skipped. *)
Definition activateRow (connectionId_ src : jstr) (w : ChatRef) (b : Batch) (row : StoredRow) : Batch :=
  match body row with
  | Relation createdAt (Creating s) =>
      if bool_decide (workerConnectionId row = connectionId_) && bool_decide (s = src)
      then working_put (relationForActive (supervisorFromRow row) w createdAt)
             (working_delete (row_id row) b)
      else b
  | _ => b
  end.

Definition activateRelations (connectionId_ src : jstr) (w : ChatRef) (b : Batch) : Batch :=
  foldl (activateRow connectionId_ src w) b (mvals (working b)).

Definition startedThread (event : SyncEvent) : option json :=
  if isMethod event "thread/started" then JObj <$> asObject (recordField "thread" (eventParams event)) else None.

Definition creatingThreadFromEvent (event : SyncEvent) : option (jstr * jstr) :=
  thread ← startedThread event;
  id ← nonEmptyString (field "id" thread);
  src ← asString (field "threadSource" thread);
  Some (id, src).

Definition startedThreadId (event : SyncEvent) : option jstr :=
  thread ← startedThread event; nonEmptyString (field "id" thread).

Definition isClosingEvent (event : SyncEvent) : bool := isMethod event "thread/deleted".

Definition startedThreadHasParent (event : SyncEvent) : bool :=
  match startedThread event with
  | Some thread => negb (nullish (field "parentThreadId" thread))
  | None => false
  end.

Definition activateStartedRelations (connectionId_ : jstr) (event : SyncEvent) : Step :=
  match creatingThreadFromEvent event with
  | None => done_
  | Some (id, src) =>
      onValue (globalSupervisorQualifiedChatRef connectionId_ id) (fun w =>
        pure (activateRelations connectionId_ src w))
  end.

(** One relation of the loop of [appendCandidateAttention] and
    [addSnapshotAttention]. *)
Definition appendRelation (deliveryScopes : list (jstr * DeliveryScope)) (src : AttentionSource)
    (terminalAt : option Z) (w : ChatRef) (b : Batch) (relation : StoredRow) : Batch :=
  if match terminalAt with Some t => t <? relationCreatedAt relation | None => false end then b
  else
    let row := attentionRow deliveryScopes relation src w in
    if mhas (row_id row) (working b) then b else marked row (working_put row b).

Definition appendCandidateAttention (deliveryScopes : list (jstr * DeliveryScope)) (src : AttentionSource)
    (connectionId_ : jstr) (terminalAt : option Z) (w : ChatRef) (b : Batch) : Batch :=
  let automatic := automaticRelationCandidates connectionId_ deliveryScopes (sourceCursor src) w in
  foldl (appendRelation deliveryScopes src terminalAt w) b
    (attentionRelations automatic (mvals (working b)) w).

Definition addEventAttention (deliveryScopes : list (jstr * DeliveryScope)) (connectionId_ : jstr)
    (event : SyncEvent) (now : Z) : Step :=
  match eventCandidate connectionId_ event now with
  | None => done_
  | Some candidate =>
      onValue (globalSupervisorQualifiedChatRef connectionId_ (c_threadId candidate)) (fun w =>
      onValue (isCatalogExcluded (JObj (payload event))) (fun excluded =>
      pure (fun b =>
        if excluded || shas (qualifiedKey w) (b_ineligible b) then b
        else
          let turn := asObject (recordField "turn" (eventParams event)) in
          appendCandidateAttention deliveryScopes (c_source candidate) connectionId_ (turn ≫= completedAt) w b)))
  end.

Definition updateAutomaticWorkerEligibility (connectionId_ : jstr) (event : SyncEvent) : Step :=
  match (match eventThreadId event with Some t => Some t | None => startedThreadId event end) with
  | None => done_
  | Some threadId_ =>
      onValue (globalSupervisorQualifiedChatRef connectionId_ threadId_) (fun w =>
      if isClosingEvent event then pure (withIneligible (sadd (qualifiedKey w)))
      else
        onValue (isCatalogExcluded (JObj (payload event))) (fun excluded =>
        pure (withIneligible
          (if excluded || startedThreadHasParent event then sadd (qualifiedKey w)
           else if isMethod event "thread/started" then sdel (qualifiedKey w) else id))))
  end.

Definition removeClosedRelations (connectionId_ : jstr) (event : SyncEvent) : Step :=
  if negb (isClosingEvent event) then done_
  else
    match eventThreadId event with
    | None => done_
    | Some threadId_ =>
        onValue (globalSupervisorQualifiedChatRef connectionId_ threadId_) (fun w =>
          pure (fun b => foldl (fun b relation => working_delete (row_id relation) b) b
                           (activeRelationsForWorker (mvals (working b)) w)))
    end.

(** One event, with the time read when it is reached. *)
Definition reduceEvent (deliveryScopes : list (jstr * DeliveryScope)) (connectionId_ : jstr)
    (timed : SyncEvent * Z) : Step :=
  andThen (updateAutomaticWorkerEligibility connectionId_ timed.1)
    (andThen (activateStartedRelations connectionId_ timed.1)
      (andThen (addEventAttention deliveryScopes connectionId_ timed.1 timed.2)
        (removeClosedRelations connectionId_ timed.1))).

Definition reduceEventAttentionBatch (deliveryScopes : list (jstr * DeliveryScope)) (connectionId_ : jstr)
    (events : list (SyncEvent * Z)) : Step :=
  foldr (fun timed rest => andThen (reduceEvent deliveryScopes connectionId_ timed) rest) done_ events.

(** ** Snapshots *)

Definition addSnapshotAttention (deliveryScopes : list (jstr * DeliveryScope)) (connectionId_ : jstr)
    (snapshot : SyncSnapshotThread) (w : ChatRef) (b : Batch) : Batch :=
  match terminalSnapshotCandidate connectionId_ snapshot with
  | None => b
  | Some candidate =>
      appendCandidateAttention deliveryScopes candidate connectionId_ (Some (observedAt candidate)) w b
  end.

Definition activateSnapshotRelations (connectionId_ : jstr) (snapshot : SyncSnapshotThread) (w : ChatRef)
    (b : Batch) : Batch :=
  match asString (field "threadSource" (snap_thread snapshot)) with
  | Some src => activateRelations connectionId_ src w b
  | None => b
  end.

Definition reduceSnapshot (deliveryScopes : list (jstr * DeliveryScope)) (connectionId_ : jstr)
    (snapshot : SyncSnapshotThread) : Step :=
  onValue (globalSupervisorQualifiedChatRef connectionId_ (strField "id" (snap_thread snapshot))) (fun w =>
  match asObject (Some (snap_thread snapshot)) with
  | None => pure (withIneligible (sadd (qualifiedKey w)))
  | Some thread =>
      onValue (isCatalogExcluded (JObj thread)) (fun excluded =>
      if excluded || negb (nullish (oget "parentThreadId" thread))
      then pure (withIneligible (sadd (qualifiedKey w)))
      else pure (fun b =>
             addSnapshotAttention deliveryScopes connectionId_ snapshot w
               (activateSnapshotRelations connectionId_ snapshot w
                 (withIneligible (sdel (qualifiedKey w)) b))))
  end).

Definition reduceSnapshots (deliveryScopes : list (jstr * DeliveryScope)) (connectionId_ : jstr)
    (snapshots : list SyncSnapshotThread) : Step :=
  foldr (fun snapshot rest => andThen (reduceSnapshot deliveryScopes connectionId_ snapshot) rest) done_ snapshots.

(** ** Pending requests *)

Record PendingBatch :=
  { known : list jstr; currentEventIds : list jstr; p_changes : list StorageChange;
    p_changed : list jstr }.

Definition addRequestRelation (deliveryScopes : list (jstr * DeliveryScope)) (src : AttentionSource)
    (w : ChatRef) (b : PendingBatch) (relation : StoredRow) : PendingBatch :=
  let row := attentionRow deliveryScopes relation src w in
  if shas (row_id row) (known b) then b
  else {| known := sadd (row_id row) (known b); currentEventIds := currentEventIds b;
          p_changes := p_changes b ++ [Put row];
          p_changed := markPendingSupervisorChanged row (p_changed b) |}.

(** [None] where a chat reference is invalid. *)
Definition addPendingRequest (deliveryScopes : list (jstr * DeliveryScope)) (ineligibleWorkers : list jstr)
    (connectionId_ : jstr) (rows : list StoredRow) (observedAt_ : Z) (b : PendingBatch)
    (request : SyncServerRequest) : option PendingBatch :=
  match requestEvent connectionId_ request observedAt_ with
  | None => Some b
  | Some candidate =>
      let src := c_source candidate in
      w ← globalSupervisorQualifiedChatRef connectionId_ (c_threadId candidate);
      let b := {| known := known b; currentEventIds := sadd (eventId src) (currentEventIds b);
                  p_changes := p_changes b; p_changed := p_changed b |} in
      if shas (qualifiedKey w) ineligibleWorkers then Some b
      else
        let automatic := automaticRelationCandidates connectionId_ deliveryScopes (sourceCursor src) w in
        Some (foldl (addRequestRelation deliveryScopes src w) b (attentionRelations automatic rows w))
  end.

Fixpoint addPendingRequestAttention (deliveryScopes : list (jstr * DeliveryScope)) (ineligibleWorkers : list jstr)
    (connectionId_ : jstr) (rows : list StoredRow) (observedAt_ : Z) (requests : list SyncServerRequest)
    (b : PendingBatch) : option PendingBatch :=
  match requests with
  | [] => Some b
  | request :: requests =>
      b ← addPendingRequest deliveryScopes ineligibleWorkers connectionId_ rows observedAt_ b request;
      addPendingRequestAttention deliveryScopes ineligibleWorkers connectionId_ rows observedAt_ requests b
  end.

Definition acknowledgeMissing (connectionId_ : jstr) (b : PendingBatch) (row : StoredRow) : PendingBatch :=
  match body row with
  | Attention a Pending =>
      if negb (bool_decide (kind (source a) = NeedsInput))
         || negb (bool_decide (workerConnectionId row = connectionId_))
         || shas (eventId (source a)) (currentEventIds b) then b
      else {| known := known b; currentEventIds := currentEventIds b;
              p_changes := p_changes b ++ [Put (acknowledgedRow row)];
              p_changed := sadd (qualifiedKey (supervisor a)) (p_changed b) |}
  | _ => b
  end.

Definition acknowledgeMissingRequestAttention (connectionId_ : jstr) (rows : list StoredRow)
    (b : PendingBatch) : PendingBatch :=
  foldl (acknowledgeMissing connectionId_) b rows.

(** ** Acknowledgement and retention *)

Definition ofSupervisor (s : ChatRef) (row : StoredRow) : bool :=
  match body row with Attention a _ => sameRef (supervisor a) s | _ => false end.

Definition pendingAcknowledgementChanges (rows : list StoredRow) (s : ChatRef) : list StorageChange :=
  (fun row => Put (acknowledgedRow row)) <$> filter (fun row => isPending row && ofSupervisor s row = true) rows.

Definition applyAttentionStorageChange (rows : rowMap) (change : StorageChange) : rowMap :=
  match change with
  | Delete id => mdel id rows
  | Put row => mset (row_id row) row rows
  end.

Definition projectedAttentionRows (rows : list StoredRow) (cs : list StorageChange) : rowMap :=
  foldl applyAttentionStorageChange (mfrom ((fun row => (row_id row, row)) <$> rows)) cs.

Definition isAcknowledged (row : StoredRow) : bool :=
  match body row with Attention _ Acknowledged => true | _ => false end.

Definition appendAcknowledgedAttention (bySupervisor : list (jstr * list StoredRow)) (row : StoredRow)
    : list (jstr * list StoredRow) :=
  if negb (isAcknowledged row) then bySupervisor
  else
    let key := identity [IdStr (supervisorConnectionId row); IdStr (supervisorThreadId row)] in
    mset key (default [] (mget key bySupervisor) ++ [row]) bySupervisor.

Definition acknowledgedAttentionBySupervisor (rows : list StoredRow) : list (list StoredRow) :=
  mvals (foldl appendAcknowledgedAttention [] rows).

Definition compareStoredAttention (left right : StoredRow) : Z :=
  let chronology := row_observedAt left - row_observedAt right in
  if chronology =? 0 then localeCompare (row_id left) (row_id right) else chronology.

Definition sortStored (group : list StoredRow) : list StoredRow :=
  sortBy (fun left right => compareStoredAttention left right <=? 0) group.

Definition evictedOf (group : list StoredRow) : list StoredRow :=
  take (length group - ATTENTION_ACKNOWLEDGED_MAX_ENTRIES_PER_SUPERVISOR) (sortStored group).

Definition acknowledgedRetentionChanges (groups : list (list StoredRow)) : list StorageChange :=
  groups ≫= fun group => (fun row => Delete (row_id row)) <$> evictedOf group.

Definition withAcknowledgedAttentionRetention (rows : list StoredRow) (cs : list StorageChange)
    : list StorageChange :=
  let projected := projectedAttentionRows rows cs in
  let groups := acknowledgedAttentionBySupervisor (mvals projected) in
  cs ++ acknowledgedRetentionChanges groups.

(** ** Speech policies and reads *)

Inductive SpokenAttentionPolicy := SpokenActive | SpokenMuted | SpokenSnoozed (until : Z).

#[export] Instance SpokenAttentionPolicy_eq_dec : EqDecision SpokenAttentionPolicy.
Proof. solve_decision. Defined.

Definition storedSpeechPolicy (rows : list StoredRow) (s w : ChatRef) : option SpokenPolicy :=
  match list_find (fun row => row_id row = speechPolicyRowId s w) rows with
  | Some (_, row) => match body row with SpeechPolicy policy => Some policy | _ => None end
  | None => None
  end.

Definition effectiveSpeechPolicy (policy : option SpokenPolicy) (now : Z) : SpokenAttentionPolicy :=
  match policy with
  | None => SpokenActive
  | Some Muted => SpokenMuted
  | Some (Snoozed until) => if until <=? now then SpokenActive else SpokenSnoozed until
  end.

Definition attentionBefore (left right : AttentionEvent) : bool :=
  let chronology := observedAt (source left) - observedAt (source right) in
  (if chronology =? 0 then localeCompare (eventId (source left)) (eventId (source right)) else chronology) <=? 0.

Definition pendingEventOf (include : AttentionEvent -> bool) (s : ChatRef) (row : StoredRow) : option AttentionEvent :=
  match body row with
  | Attention a Pending => if sameRef (supervisor a) s && include a then Some a else None
  | _ => None
  end.

Definition pendingAttentionEvents (include : AttentionEvent -> bool) (limit : Z) (rows : list StoredRow)
    (s : ChatRef) : list AttentionEvent :=
  take (Z.to_nat limit) (sortBy attentionBefore (omap (pendingEventOf include s) rows)).

(** ** The owner *)

Inductive AttentionOp :=
| SetDelivery (s : ChatRef) (enabled : bool)
| Follow (s w : ChatRef)
| Unfollow (s w : ChatRef)
| Acknowledge (s : ChatRef) (eventId : jstr)
| BeginWorkerCreation (src : jstr) (s : ChatRef) (workerConnectionId : jstr)
| CompleteWorkerCreation (src : jstr) (w : ChatRef)
| DeleteConnection (connectionId : jstr)
| IngestEvents (connectionId : jstr) (events : list (SyncEvent * Z))
| IngestPendingRequests (connectionId : jstr) (requests : list SyncServerRequest)
| IngestSnapshot (connectionId : jstr) (snapshots : list SyncSnapshotThread) (cursor : Z)
| SetSpokenAttention (s w : ChatRef) (policy : SpokenAttentionPolicy)
| WakeSpeech.

(** What an operation does once its commit has settled. *)
Inductive Continuation :=
| Finish
| ThenDeliver (s : ChatRef) (enabled : bool)
| ThenForget (connectionId : jstr)
| ThenCursor (connectionId : jstr) (cursor : option Z)
| ThenSchedule.

Record Running := { committing : list StorageChange; news : list jstr; continue : Continuation }.

Record Owner :=
  { storage : rowMap; deliveryScopes : list (jstr * DeliveryScope); connectionCursors : list (jstr * Z);
    ineligibleWorkers : list jstr; speechWakeTimer : option Z; closed : bool;
    tail : list AttentionOp; running : option Running; notified : list (list jstr) }.

Definition rows (o : Owner) : list StoredRow := mvals (storage o).

Definition withRunning (r : option Running) (o : Owner) : Owner :=
  {| storage := storage o; deliveryScopes := deliveryScopes o; connectionCursors := connectionCursors o;
     ineligibleWorkers := ineligibleWorkers o; speechWakeTimer := speechWakeTimer o; closed := closed o;
     tail := tail o; running := r; notified := notified o |}.

Definition withTail (t : list AttentionOp) (o : Owner) : Owner :=
  {| storage := storage o; deliveryScopes := deliveryScopes o; connectionCursors := connectionCursors o;
     ineligibleWorkers := ineligibleWorkers o; speechWakeTimer := speechWakeTimer o; closed := closed o;
     tail := t; running := running o; notified := notified o |}.

Definition withMemory (scopes : list (jstr * DeliveryScope)) (cursors : list (jstr * Z)) (ineligible : list jstr)
    (o : Owner) : Owner :=
  {| storage := storage o; deliveryScopes := scopes; connectionCursors := cursors;
     ineligibleWorkers := ineligible; speechWakeTimer := speechWakeTimer o; closed := closed o;
     tail := tail o; running := running o; notified := notified o |}.

Definition withStorage (r : rowMap) (o : Owner) : Owner :=
  {| storage := r; deliveryScopes := deliveryScopes o; connectionCursors := connectionCursors o;
     ineligibleWorkers := ineligibleWorkers o; speechWakeTimer := speechWakeTimer o; closed := closed o;
     tail := tail o; running := running o; notified := notified o |}.

Definition withTimer (t : option Z) (o : Owner) : Owner :=
  {| storage := storage o; deliveryScopes := deliveryScopes o; connectionCursors := connectionCursors o;
     ineligibleWorkers := ineligibleWorkers o; speechWakeTimer := t; closed := closed o;
     tail := tail o; running := running o; notified := notified o |}.

(** [notify]: the keys whose listeners are called, and the general ones when
    there is any. *)
Definition notify (keys : list jstr) (o : Owner) : Owner :=
  {| storage := storage o; deliveryScopes := deliveryScopes o; connectionCursors := connectionCursors o;
     ineligibleWorkers := ineligibleWorkers o; speechWakeTimer := speechWakeTimer o; closed := closed o;
     tail := tail o; running := running o;
     notified := if bool_decide (keys = []) then notified o else notified o ++ [keys] |}.

(** [await apply(changes, changed)] of the rows at that time. *)
Definition apply (cs : list StorageChange) (changed : list jstr) (k : Continuation) (o : Owner) : Owner :=
  withRunning (Some {| committing := withAcknowledgedAttentionRetention (rows o) cs; news := changed;
                       continue := k |}) o.

Definition hasRow (id : jstr) (o : Owner) : bool := existsb (fun row => bool_decide (row_id row = id)) (rows o).

Definition emptyBatch (o : Owner) : Batch :=
  {| b_ineligible := ineligibleWorkers o;
     working := mfrom ((fun row => (row_id row, row)) <$> rows o); changes := []; changedSupervisors := [] |}.

(** Ends a batch: the eligibility of workers is kept even when it throws. *)
Definition finishBatch (r : Batch * bool) (k : Continuation) (o : Owner) : Owner :=
  let o := withMemory (deliveryScopes o) (connectionCursors o) (b_ineligible r.1) o in
  if r.2 then apply (changes r.1) (changedSupervisors r.1) k o else o.

Definition setDeliveryEnabled (s : ChatRef) (enabled : bool) (o : Owner) : Owner :=
  let key := qualifiedKey s in
  if enabled && mhas key (deliveryScopes o) then o
  else
    let cs := pendingAcknowledgementChanges (rows o) s in
    apply cs (match cs with [] => [] | _ => [key] end) (ThenDeliver s enabled) o.

Definition unfollowChanges (s w : ChatRef) (o : Owner) : list StorageChange :=
  Delete (relationRowId s w) ::
  ((fun row => Put (acknowledgedRow row)) <$>
     filter (fun row => isPending row && ofSupervisor s row
                        && match body row with Attention a _ => sameRef (worker a) w | _ => false end = true) (rows o)).

Definition beginWorkerCreation (src : jstr) (s : ChatRef) (connectionId_ : jstr) (now : Z) (o : Owner) : Owner :=
  let id := creationRowId s connectionId_ src in
  if hasRow id o then o
  else
    apply [Put {| row_id := id; row_observedAt := now; body := Relation now (Creating src);
                  supervisorConnectionId := connectionId s; supervisorThreadId := threadId s;
                  workerConnectionId := connectionId_; workerThreadId := None |}] [] Finish o.

Definition completeCreationChanges (src : jstr) (w : ChatRef) (row : StoredRow) : list StorageChange :=
  match body row with
  | Relation createdAt (Creating s) =>
      if bool_decide (workerConnectionId row = connectionId w) && bool_decide (s = src)
      then [Delete (row_id row); Put (relationForActive (supervisorFromRow row) w createdAt)] else []
  | _ => []
  end.

Definition acknowledge (s : ChatRef) (eventId_ : jstr) (o : Owner) : Owner :=
  let id := attentionRowId s eventId_ in
  match list_find (fun row => row_id row = id) (rows o) with
  | Some (_, current) =>
      if isPending current then apply [Put (acknowledgedRow current)] [qualifiedKey s] Finish o else o
  | None => o
  end.

Definition ofConnection (connectionId_ : jstr) (row : StoredRow) : bool :=
  bool_decide (supervisorConnectionId row = connectionId_) || bool_decide (workerConnectionId row = connectionId_).

Definition deleteConnection (connectionId_ : jstr) (o : Owner) : Owner :=
  let mine := filter (fun row => ofConnection connectionId_ row = true) (rows o) in
  withRunning (Some {| committing := (fun row => Delete (row_id row)) <$> mine;
                       news := foldl (fun keys row => sadd (qualifiedKey (supervisorFromRow row)) keys) [] mine;
                       continue := ThenForget connectionId_ |}) o.

Definition baselineScope (connectionId_ : jstr) (cursor : Z) (scope : DeliveryScope) : DeliveryScope :=
  if mhas connectionId_ (baselineCursors scope) then scope
  else {| baselineCursors := mset connectionId_ cursor (baselineCursors scope);
          enabledAt := enabledAt scope; s_supervisor := s_supervisor scope |}.

Definition ingestSnapshot (connectionId_ : jstr) (snapshots : list SyncSnapshotThread) (cursor : Z)
    (o : Owner) : Owner :=
  let o := withMemory ((fun e => (e.1, baselineScope connectionId_ cursor e.2)) <$> deliveryScopes o)
             (mset connectionId_ cursor (connectionCursors o)) (ineligibleWorkers o) o in
  finishBatch (reduceSnapshots (deliveryScopes o) connectionId_ snapshots (emptyBatch o)) Finish o.

Definition ingestPendingRequests (connectionId_ : jstr) (requests : list SyncServerRequest) (now : Z)
    (o : Owner) : Owner :=
  let start := {| known := foldl (fun s row => sadd (row_id row) s) [] (rows o); currentEventIds := [];
                  p_changes := []; p_changed := [] |} in
  match addPendingRequestAttention (deliveryScopes o) (ineligibleWorkers o) connectionId_ (rows o) now requests start with
  | None => o
  | Some b =>
      let b := acknowledgeMissingRequestAttention connectionId_ (rows o) b in
      apply (p_changes b) (p_changed b) Finish o
  end.

Definition setSpokenAttention (s w : ChatRef) (policy : SpokenAttentionPolicy) (now : Z) (o : Owner) : Owner :=
  let id := speechPolicyRowId s w in
  let put p := Put {| row_id := id; row_observedAt := now; body := SpeechPolicy p;
                      supervisorConnectionId := connectionId s; supervisorThreadId := threadId s;
                      workerConnectionId := connectionId w; workerThreadId := Some (threadId w) |} in
  let change := match policy with
                | SpokenActive => Delete id
                | SpokenMuted => put Muted
                | SpokenSnoozed until => if until <=? now then Delete id else put (Snoozed until)
                end in
  apply [change] [qualifiedKey s] ThenSchedule o.

Definition snoozedUntil (row : StoredRow) : option Z :=
  match body row with SpeechPolicy (Snoozed until) => Some until | _ => None end.

Definition wakeSpeech (now : Z) (o : Owner) : Owner :=
  let expired := filter (fun row => match snoozedUntil row with Some until => until <=? now | None => false end = true)
                   (rows o) in
  apply ((fun row => Delete (row_id row)) <$> expired)
    (foldl (fun keys row => sadd (qualifiedKey (supervisorFromRow row)) keys) [] expired) ThenSchedule o.

(** The segment of an operation up to its commit. *)
Definition startOp (op : AttentionOp) (now : Z) (o : Owner) : Owner :=
  match op with
  | SetDelivery s enabled => setDeliveryEnabled s enabled o
  | Follow s w =>
      if hasRow (relationRowId s w) o then o else apply [Put (relationForActive s w now)] [] Finish o
  | Unfollow s w => apply (unfollowChanges s w o) [qualifiedKey s] Finish o
  | Acknowledge s eventId_ => acknowledge s eventId_ o
  | BeginWorkerCreation src s c => beginWorkerCreation src s c now o
  | CompleteWorkerCreation src w => apply (rows o ≫= completeCreationChanges src w) [] Finish o
  | DeleteConnection c => deleteConnection c o
  | IngestEvents c events =>
      finishBatch (reduceEventAttentionBatch (deliveryScopes o) c events (emptyBatch o))
        (ThenCursor c (ev_cursor ∘ fst <$> last events)) o
  | IngestPendingRequests c requests => ingestPendingRequests c requests now o
  | IngestSnapshot c snapshots cursor => ingestSnapshot c snapshots cursor o
  | SetSpokenAttention s w policy => setSpokenAttention s w policy now o
  | WakeSpeech => wakeSpeech now o
  end.

Definition earliest (times : list Z) : option Z :=
  match times with [] => None | t :: times => Some (foldl Z.min t times) end.

(** The timer is kept as the time it fires. *)
Definition scheduleSpeechWake (now : Z) (o : Owner) : Owner :=
  if closed o then withTimer None o
  else
    withTimer (earliest (omap (fun row => until ← snoozedUntil row; if now <? until then Some until else None) (rows o))) o.

Definition connectionPrefix (connectionId_ : jstr) : jstr := js "[" ++ quote connectionId_ ++ js ",".

Definition afterCommit (k : Continuation) (now : Z) (o : Owner) : Owner :=
  match k with
  | Finish => o
  | ThenDeliver s enabled =>
      let key := qualifiedKey s in
      withMemory (if enabled
                  then mset key {| baselineCursors := connectionCursors o; enabledAt := now; s_supervisor := s |}
                         (deliveryScopes o)
                  else mdel key (deliveryScopes o)) (connectionCursors o) (ineligibleWorkers o) o
  | ThenForget c =>
      withMemory (filter (fun e => startsWith (connectionPrefix c) e.1 = false) (deliveryScopes o))
        (mdel c (connectionCursors o))
        (filter (fun key => startsWith (connectionPrefix c) key = false) (ineligibleWorkers o)) o
  | ThenCursor c cursor =>
      withMemory (deliveryScopes o)
        (match cursor with Some z => mset c z (connectionCursors o) | None => connectionCursors o end)
        (ineligibleWorkers o) o
  | ThenSchedule => scheduleSpeechWake now o
  end.

Inductive AttentionStep :=
| Enqueued (op : AttentionOp)
| Turn (now : Z)
| Settled (committed : bool) (now : Z)
| Restored (now : Z)
| TimerFired
| Closed.

Definition ownerStep (step : AttentionStep) (o : Owner) : Owner :=
  match step with
  | Enqueued op => withTail (tail o ++ [op]) o
  | Turn now =>
      match running o, tail o with
      | None, op :: rest =>
          let o := withTail rest o in
          if closed o then o else startOp op now o
      | _, _ => o
      end
  | Settled committed now =>
      match running o with
      | None => o
      | Some r =>
          let o := withRunning None o in
          if committed
          then notify (news r)
                 (afterCommit (continue r) now
                   (withStorage (foldl applyAttentionStorageChange (storage o) (committing r)) o))
          else o
      end
  | Restored now => scheduleSpeechWake now o
  | TimerFired =>
      match speechWakeTimer o with
      | Some _ => withTail (tail o ++ [WakeSpeech]) (withTimer None o)
      | None => o
      end
  | Closed =>
      {| storage := storage o; deliveryScopes := []; connectionCursors := []; ineligibleWorkers := [];
         speechWakeTimer := None; closed := true; tail := tail o; running := running o; notified := notified o |}
  end.

Definition runOwner (steps : list AttentionStep) (o : Owner) : Owner := foldl (fun o step => ownerStep step o) o steps.

Definition newOwner (stored : rowMap) : Owner :=
  {| storage := stored; deliveryScopes := []; connectionCursors := []; ineligibleWorkers := [];
     speechWakeTimer := None; closed := false; tail := []; running := None; notified := [] |}.

Definition boundedLimit (limit : Z) : Z := Z.max 0 (Z.min limit ATTENTION_READ_MAX_ENTRIES).

Definition pending (s : ChatRef) (limit : Z) (o : Owner) : list AttentionEvent :=
  if negb (mhas (qualifiedKey s) (deliveryScopes o)) then []
  else pendingAttentionEvents (fun _ => true) (boundedLimit limit) (rows o) s.

Definition pendingCount (s : ChatRef) (o : Owner) : nat :=
  if negb (mhas (qualifiedKey s) (deliveryScopes o)) then 0%nat
  else length (filter (fun row => isPending row && ofSupervisor s row = true) (rows o)).

Definition spokenAttention (s w : ChatRef) (now : Z) (o : Owner) : SpokenAttentionPolicy :=
  effectiveSpeechPolicy (storedSpeechPolicy (rows o) s w) now.

Definition pendingForSpeech (s : ChatRef) (limit now : Z) (o : Owner) : list AttentionEvent :=
  if negb (mhas (qualifiedKey s) (deliveryScopes o)) then []
  else
    pendingAttentionEvents
      (fun event => bool_decide (effectiveSpeechPolicy (storedSpeechPolicy (rows o) s (worker event)) now = SpokenActive))
      (boundedLimit limit) (rows o) s.

End attention.
