(* ===== verification/AttentionLaws.v ===== *)
(** * The laws of the attention owner

    What SupervisorAttention.v promises: an attention is told while it is news
    and at most once, reads are bounded and in order, and retention only lets
    go of the oldest acknowledged rows. *)
From S2P Require Import Prelude JsMap Json JsonText SafeText ThreadEvents MemoryCache SupervisorAttention.

(** ** Keys and ids *)

Lemma sameRef_spec a b : sameRef a b = true <-> a = b.
Proof.
  unfold sameRef. rewrite andb_true_iff, !bool_decide_eq_true. destruct a, b; simpl.
  split; [by intros [-> ->]|by intros [= -> ->]].
Qed.

#[export] Instance qualifiedKey_inj : Inj (=) (=) qualifiedKey.
Proof. intros [a b] [c d] H. apply (inj identity) in H. simpl in H. congruence. Qed.

Lemma attentionRowId_inj s e s' e' : attentionRowId s e = attentionRowId s' e' -> s = s' /\ e = e'.
Proof.
  intros H%(inj (app _))%(inj identity). destruct s, s'. simpl in H. injection H as -> -> ->. done.
Qed.

(** An id that is not that of an attention. *)
Definition otherId (id : jstr) : Prop := forall s e, id <> attentionRowId s e.

Lemma relationRowId_other s w : otherId (relationRowId s w).
Proof. intros ? ?. done. Qed.
Lemma creationRowId_other s c src : otherId (creationRowId s c src).
Proof. intros ? ?. done. Qed.
Lemma speechPolicyRowId_other s w : otherId (speechPolicyRowId s w).
Proof. intros ? ?. done. Qed.

#[export] Hint Resolve relationRowId_other creationRowId_other speechPolicyRowId_other : codewide.

(** ** Well-formed rows and stores *)

Definition row_ok (row : StoredRow) : Prop :=
  match body row with
  | Attention a _ =>
      row_id row = attentionRowId (supervisor a) (eventId (source a))
      /\ supervisorFromRow row = supervisor a /\ row_observedAt row = observedAt (source a)
  | _ => otherId (row_id row)
  end.

Definition store_ok (m : rowMap) : Prop :=
  mwf m /\ forall k row, (k, row) ∈ m -> k = row_id row /\ row_ok row.

Lemma relationForActive_ok s w t : row_ok (relationForActive s w t).
Proof. apply relationRowId_other. Qed.

Lemma acknowledgedRow_id row : row_id (acknowledgedRow row) = row_id row.
Proof. unfold acknowledgedRow. by destruct (body row). Qed.

Lemma acknowledgedRow_ok row : row_ok row -> row_ok (acknowledgedRow row).
Proof. unfold row_ok, acknowledgedRow. destruct (body row) eqn:E; simpl; rewrite ?E; try done. Qed.

Lemma acknowledgedRow_pending row : isPending (acknowledgedRow row) = false.
Proof. unfold isPending, acknowledgedRow. destruct (body row) eqn:E; simpl; by rewrite ?E. Qed.

Lemma attentionRow_ok scopes relation src w : row_ok (attentionRow scopes relation src w).
Proof. by repeat split. Qed.

#[export] Hint Resolve relationForActive_ok acknowledgedRow_ok attentionRow_ok acknowledgedRow_pending : codewide.

Lemma store_lookup m k row : store_ok m -> mget k m = Some row -> k = row_id row /\ row_ok row.
Proof. intros [_ H] Hk. apply H. by apply mget_elem. Qed.

Lemma store_row m row : store_ok m -> row ∈ mvals m -> mget (row_id row) m = Some row /\ row_ok row.
Proof.
  intros [Hwf Hm] (k & Hin)%elem_mvals. destruct (Hm k row Hin) as [-> Hr]. split; [|done]. by apply elem_mget.
Qed.

Lemma store_mvals (m : rowMap) k row : mget k m = Some row -> row ∈ mvals m.
Proof. intros H%mget_elem. apply elem_mvals. by exists k. Qed.

Lemma store_again m : store_ok m -> mfrom ((fun row => (row_id row, row)) <$> mvals m) = m.
Proof.
  intros [Hwf Hm].
  assert (E : (fun row => (row_id row, row)) <$> mvals m = m).
  { unfold mvals. rewrite <- list_fmap_compose. rewrite <- (list_fmap_id m) at 2. apply list_fmap_ext.
    intros i [k row] Hi. simpl. f_equal. symmetry. by apply (Hm k row), (list_elem_of_lookup_2 _ i). }
  rewrite E. by apply mfrom_distinct.
Qed.

(** ** Changes *)

Definition change_ok (c : StorageChange) : Prop := match c with Put row => row_ok row | Delete _ => True end.

Lemma applied_ok m c : store_ok m -> change_ok c -> store_ok (applyAttentionStorageChange m c).
Proof.
  intros [Hwf Hm] Hc. destruct c as [row|id]; simpl in *.
  - split; [by apply mset_wf|]. intros k r [[= -> ->]|Hin]%elem_mset; [done|by apply Hm].
  - split; [by apply mdel_wf|]. intros k r Hin.
    apply elem_mget in Hin; [|by apply mdel_wf]. rewrite mget_mdel in Hin. case_bool_decide; [done|].
    apply Hm. by apply mget_elem.
Qed.

Lemma applies_ok cs m : store_ok m -> Forall change_ok cs -> store_ok (foldl applyAttentionStorageChange m cs).
Proof.
  revert m. induction cs as [|c cs IH]; intros m Hm; simpl; [done|].
  intros [Hc Hcs]%Forall_cons. apply IH; [|done]. by apply applied_ok.
Qed.

(** Where a row of the store comes from. *)
Lemma applies_lookup cs m k row :
  mget k (foldl applyAttentionStorageChange m cs) = Some row ->
  (Put row ∈ cs /\ row_id row = k)
  \/ (mget k m = Some row /\ Forall (fun c => match c with Put r => row_id r <> k | Delete id => id <> k end) cs).
Proof.
  revert m. induction cs as [|c cs IH]; intros m; simpl; [auto|].
  intros [[H1 H2]|[H1 H2]]%IH; [left; split; [by right|done]|].
  destruct c as [r|id]; simpl in H1.
  - rewrite mget_mset in H1. case_bool_decide.
    + injection H1 as ->. left. split; [by left|done].
    + right. split; [done|]. constructor; [congruence|done].
  - rewrite mget_mdel in H1. case_bool_decide; [done|]. right. split; [done|]. constructor; [congruence|done].
Qed.

(** ** News *)

(** What a scope may be told: nothing observed before it was enabled. *)
Definition fresh (scopes : list (jstr * DeliveryScope)) (row : StoredRow) : Prop :=
  match body row with
  | Attention a Pending =>
      forall scope, mget (qualifiedKey (supervisor a)) scopes = Some scope -> enabledAt scope <= observedAt (source a)
  | _ => True
  end.

(** A change of a store: well formed, and a row it makes pending is news for
    its scope and no attention the store has. *)
Definition telling (m : rowMap) (scopes : list (jstr * DeliveryScope)) (c : StorageChange) : Prop :=
  match c with
  | Put row => row_ok row /\ (isPending row = true -> fresh scopes row /\ mget (row_id row) m = None)
  | Delete _ => True
  end.

Lemma quiet_telling m scopes row : row_ok row -> isPending row = false -> telling m scopes (Put row).
Proof. intros Ho Hp. split; [done|]. by rewrite Hp. Qed.

Lemma attentionRow_fresh scopes relation src w : fresh scopes (attentionRow scopes relation src w).
Proof.
  unfold fresh, attentionRow. simpl. case_match eqn:E; [done|]. intros scope Hs. rewrite Hs in E.
  destruct (isAfterBaseline _ _ && _) eqn:Eb; [|done]. apply andb_true_iff in Eb as [_ Eb]. by apply Z.leb_le.
Qed.

Lemma attention_telling m scopes relation src w :
  mget (row_id (attentionRow scopes relation src w)) m = None ->
  telling m scopes (Put (attentionRow scopes relation src w)).
Proof. intros Hn. split; [apply attentionRow_ok|]. intros _. split; [apply attentionRow_fresh|done]. Qed.

Lemma telling_ok m scopes cs : Forall (telling m scopes) cs -> Forall change_ok cs.
Proof. intros H. eapply Forall_impl; [exact H|]. intros [row|id]; simpl; [by intros [? _]|done]. Qed.

(** ** Batches *)

(** A batch over the store: the rows of its working copy are well formed, every
    attention of the store is in it, and its changes are telling. *)
Record batch_ok (m : rowMap) (scopes : list (jstr * DeliveryScope)) (b : Batch) : Prop :=
  { bo_working : store_ok (working b);
    bo_covers : forall s e, is_Some (mget (attentionRowId s e) m) -> is_Some (mget (attentionRowId s e) (working b));
    bo_changes : Forall (telling m scopes) (changes b) }.

Section batches.
Context (m : rowMap) (scopes : list (jstr * DeliveryScope)).
Context (fractionMs : string -> Z).

Lemma batch_ineligible f b : batch_ok m scopes b -> batch_ok m scopes (withIneligible f b).
Proof. by intros []. Qed.

Lemma batch_marked row b : batch_ok m scopes b -> batch_ok m scopes (marked row b).
Proof. by intros []. Qed.

Lemma batch_delete id b : otherId id -> batch_ok m scopes b -> batch_ok m scopes (working_delete id b).
Proof.
  intros Hid [Hw Hc Hch]. split; simpl.
  - by apply (applied_ok _ (Delete id)).
  - intros s e H%Hc. by rewrite mget_mdel_ne by (intros E; by apply (Hid s e)).
  - apply Forall_app. split; [done|]. by constructor.
Qed.

Lemma batch_put row b : telling m scopes (Put row) -> batch_ok m scopes b -> batch_ok m scopes (working_put row b).
Proof.
  intros Hrow [Hw Hc Hch]. split; simpl.
  - apply (applied_ok _ (Put row)); [done|apply Hrow].
  - intros s e H%Hc. rewrite mget_mset. case_bool_decide; [by eexists|done].
  - apply Forall_app. split; [done|]. by constructor.
Qed.

Lemma batch_row b row : batch_ok m scopes b -> row ∈ mvals (working b) -> row_ok row.
Proof. intros [Hw _ _] Hin. by apply (store_row _ _ Hw Hin). Qed.

Lemma relation_other row createdAt status : row_ok row -> body row = Relation createdAt status -> otherId (row_id row).
Proof. unfold row_ok. intros H E. by rewrite E in H. Qed.

Lemma batch_activateRow c src w b row :
  row_ok row -> batch_ok m scopes b -> batch_ok m scopes (activateRow c src w b row).
Proof.
  intros Hr Hb. unfold activateRow. destruct (body row) as [t [s|]| |] eqn:E; try done.
  destruct (_ && _); [|done]. apply batch_put.
  - apply quiet_telling; [apply relationForActive_ok|done].
  - apply batch_delete; [by eapply relation_other|done].
Qed.

(** A property of the batch kept by a loop over rows. *)
Lemma batch_foldl (f : Batch -> StoredRow -> Batch) l b :
  (forall b row, row ∈ l -> batch_ok m scopes b -> batch_ok m scopes (f b row)) ->
  batch_ok m scopes b -> batch_ok m scopes (foldl f b l).
Proof.
  revert b. induction l as [|row l IH]; intros b Hf Hb; simpl; [done|].
  apply IH; [|by apply Hf; [left|]]. intros b' row' Hin. apply Hf. by right.
Qed.

Lemma batch_activate c src w b : batch_ok m scopes b -> batch_ok m scopes (activateRelations c src w b).
Proof.
  intros Hb. apply batch_foldl; [|done]. intros b' row Hin Hb'. apply batch_activateRow; [|done].
  by apply (batch_row b).
Qed.

Lemma batch_appendRelation src t w b relation :
  batch_ok m scopes b -> batch_ok m scopes (appendRelation scopes src t w b relation).
Proof.
  intros Hb. unfold appendRelation. destruct (match t with Some _ => _ | None => _ end); [done|].
  destruct (mhas _ _) eqn:E; [done|]. apply batch_marked, batch_put; [|done]. apply attention_telling.
  destruct (mget _ m) eqn:Em; [|done]. exfalso.
  destruct (bo_covers _ _ _ Hb (supervisorFromRow relation) (eventId src)) as [x Hx].
  { simpl in Em. by rewrite Em. }
  unfold mhas in E. apply bool_decide_eq_false in E. apply E. simpl. by rewrite Hx.
Qed.

Lemma batch_appendCandidate src c t w b :
  batch_ok m scopes b -> batch_ok m scopes (appendCandidateAttention scopes src c t w b).
Proof. intros Hb. apply batch_foldl; [|done]. intros b' row _. apply batch_appendRelation. Qed.

Lemma batch_removeClosed w b :
  batch_ok m scopes b ->
  batch_ok m scopes (foldl (fun b relation => working_delete (row_id relation) b) b
                       (activeRelationsForWorker (mvals (working b)) w)).
Proof.
  intros Hb. apply batch_foldl; [|done]. intros b' row [Hr Hin]%list_elem_of_filter. apply batch_delete.
  pose proof (batch_row b row Hb Hin) as Ho. unfold workerFromRelation in Hr.
  destruct (body row) eqn:E; [by eapply relation_other|done..].
Qed.

(** A step that keeps batches well formed, whether or not it throws. *)
Definition keeps (f : Step) : Prop := forall b, batch_ok m scopes b -> batch_ok m scopes (f b).1.

Lemma keeps_done : keeps done_.
Proof. by intros b. Qed.
Lemma keeps_throws : keeps throws.
Proof. by intros b. Qed.
Lemma keeps_pure f : (forall b, batch_ok m scopes b -> batch_ok m scopes (f b)) -> keeps (pure f).
Proof. intros H b. apply H. Qed.
Lemma keeps_then f g : keeps f -> keeps g -> keeps (andThen f g).
Proof.
  intros Hf Hg b Hb. unfold andThen. specialize (Hf b Hb). destruct (f b) as [b' []]; [by apply Hg|done].
Qed.
Lemma keeps_value {A} (v : option A) f : (forall x, keeps (f x)) -> keeps (onValue v f).
Proof. intros Hf. destruct v; [apply Hf|apply keeps_throws]. Qed.
Lemma keeps_foldr {A} (f : A -> Step) l : (forall x, keeps (f x)) -> keeps (foldr (fun x rest => andThen (f x) rest) done_ l).
Proof. intros Hf. induction l as [|x l IH]; simpl; [apply keeps_done|]. by apply keeps_then. Qed.

#[local] Hint Resolve keeps_done keeps_throws batch_ineligible batch_activate batch_appendCandidate batch_removeClosed : core.

Ltac keeps_auto :=
  repeat lazymatch goal with
  | |- keeps done_ => apply keeps_done
  | |- keeps (andThen _ _) => apply keeps_then
  | |- keeps (onValue _ _) => apply keeps_value; intros ?
  | |- keeps (pure _) => apply keeps_pure; intros ? ?
  | |- _ => case_match
  end; eauto.

Lemma keeps_reduceEvent c timed : keeps (reduceEvent fractionMs scopes c timed).
Proof.
  unfold reduceEvent, updateAutomaticWorkerEligibility, activateStartedRelations, addEventAttention, removeClosedRelations.
  keeps_auto.
Qed.

Lemma keeps_reduceSnapshot c snapshot : keeps (reduceSnapshot fractionMs scopes c snapshot).
Proof.
  unfold reduceSnapshot, addSnapshotAttention, activateSnapshotRelations. keeps_auto.
Qed.
End batches.

(** ** Pending requests *)

Record pending_ok (m : rowMap) (scopes : list (jstr * DeliveryScope)) (b : PendingBatch) : Prop :=
  { po_known : forall k, is_Some (mget k m) -> k ∈ known b;
    po_changes : Forall (telling m scopes) (p_changes b) }.

Lemma pending_relation m scopes src w b relation :
  pending_ok m scopes b -> pending_ok m scopes (addRequestRelation scopes src w b relation).
Proof.
  intros [Hk Hc]. unfold addRequestRelation. destruct (shas _ _) eqn:E; [done|].
  unfold shas in E. apply bool_decide_eq_false in E. split; simpl.
  - intros k H%Hk. apply elem_of_sadd. by right.
  - apply Forall_app. split; [done|]. constructor; [|done]. apply attention_telling.
    destruct (mget _ m) eqn:Em; [|done]. destruct E. apply Hk. by rewrite Em.
Qed.

Lemma pending_relations m scopes src w l b :
  pending_ok m scopes b -> pending_ok m scopes (foldl (addRequestRelation scopes src w) b l).
Proof. revert b. induction l as [|x l IH]; intros b Hb; simpl; [done|]. by apply IH, pending_relation. Qed.

Lemma pending_request m scopes ineligible c l now b request b' :
  addPendingRequest scopes ineligible c l now b request = Some b' -> pending_ok m scopes b -> pending_ok m scopes b'.
Proof.
  unfold addPendingRequest. destruct (requestEvent _ _ _) as [candidate|]; [|by intros [= ->]].
  destruct (globalSupervisorQualifiedChatRef _ _) as [w|]; [|done]. simpl.
  assert (Hid : forall ids, pending_ok m scopes b ->
    pending_ok m scopes {| known := known b; currentEventIds := ids; p_changes := p_changes b; p_changed := p_changed b |})
    by (by intros ? []).
  destruct (shas _ _); intros [= <-] Hb; [by apply Hid|]. apply pending_relations. by apply Hid.
Qed.

Lemma pending_requests m scopes ineligible c l now requests b b' :
  addPendingRequestAttention scopes ineligible c l now requests b = Some b' -> pending_ok m scopes b -> pending_ok m scopes b'.
Proof.
  revert b. induction requests as [|request requests IH]; intros b; simpl; [by intros [= ->]|].
  destruct (addPendingRequest _ _ _ _ _ _ _) as [b1|] eqn:E; [|done]. simpl. intros H Hb.
  eapply IH; [exact H|]. by eapply pending_request.
Qed.

Lemma pending_missing m scopes c l b :
  store_ok m -> (forall row, row ∈ l -> row ∈ mvals m) -> pending_ok m scopes b ->
  pending_ok m scopes (acknowledgeMissingRequestAttention c l b).
Proof.
  intros Hm. unfold acknowledgeMissingRequestAttention. revert b.
  induction l as [|row l IH]; intros b Hl Hb; simpl; [done|].
  apply IH; [intros r Hr; apply Hl; by right|]. unfold acknowledgeMissing.
  destruct (body row) as [|a []|] eqn:E; try done. destruct (_ || _); [done|].
  destruct Hb as [Hk Hc]. split; [done|]. simpl. apply Forall_app. split; [done|]. constructor; [|done].
  apply quiet_telling; [|apply acknowledgedRow_pending]. apply acknowledgedRow_ok.
  apply (store_row m); [done|]. apply Hl. by left.
Qed.

(** ** The owner *)

(** A commit under way: its changes are telling, and when delivery is enabled
    for a supervisor after it, nothing older is left pending for it. *)
Definition run_ok (m : rowMap) (scopes : list (jstr * DeliveryScope)) (r : Running) : Prop :=
  Forall (telling m scopes) (committing r)
  /\ forall s, continue r = ThenDeliver s true ->
       forall row, row ∈ mvals (foldl applyAttentionStorageChange m (committing r)) ->
                   isPending row && ofSupervisor s row = false.

Definition scopes_ok (scopes : list (jstr * DeliveryScope)) : Prop :=
  mwf scopes /\ forall k scope, (k, scope) ∈ scopes -> k = qualifiedKey (s_supervisor scope).

Record owner_ok (o : Owner) : Prop :=
  { oo_store : store_ok (storage o);
    oo_scopes : scopes_ok (deliveryScopes o);
    oo_fresh : forall row, row ∈ rows o -> fresh (deliveryScopes o) row;
    oo_running : forall r, running o = Some r -> run_ok (storage o) (deliveryScopes o) r }.

(** Scopes that tell no more than others. *)
Definition narrower (scopes scopes' : list (jstr * DeliveryScope)) : Prop :=
  forall k scope', mget k scopes' = Some scope' -> exists scope, mget k scopes = Some scope /\ enabledAt scope = enabledAt scope'.

Lemma fresh_narrower scopes scopes' row : narrower scopes scopes' -> fresh scopes row -> fresh scopes' row.
Proof.
  intros Hn. unfold fresh. destruct (body row) as [|a []|]; try done.
  intros Hf scope' (scope & Hs & <-)%Hn. by apply Hf.
Qed.

Lemma telling_narrower m scopes scopes' c : narrower scopes scopes' -> telling m scopes c -> telling m scopes' c.
Proof.
  intros Hn. destruct c as [row|]; simpl; [|done]. intros [Ho Hp]. split; [done|]. intros H.
  destruct (Hp H). split; [by eapply fresh_narrower|done].
Qed.

Lemma run_narrower m scopes scopes' r : narrower scopes scopes' -> run_ok m scopes r -> run_ok m scopes' r.
Proof.
  intros Hn [H1 H2]. split; [|done]. eapply Forall_impl; [exact H1|]. intros c. by apply telling_narrower.
Qed.

Lemma narrower_nil scopes : narrower scopes [].
Proof. by intros k scope'. Qed.

Lemma mget_map {V} (f : V -> V) (m : list (jstr * V)) k : mget k ((fun e => (e.1, f e.2)) <$> m) = f <$> mget k m.
Proof. induction m as [|[k' v] m IH]; simpl; [done|]. case_bool_decide; [done|exact IH]. Qed.

Lemma mget_filtered {V} (p : jstr * V -> bool) (m : list (jstr * V)) k v :
  mwf m -> mget k (filter (fun e => p e = true) m) = Some v -> mget k m = Some v /\ p (k, v) = true.
Proof.
  intros Hwf H%mget_elem. apply list_elem_of_filter in H as [Hp Hin]. split; [by apply elem_mget|done].
Qed.

Lemma mwf_filter {V} (P : jstr * V -> Prop) `{!forall e, Decision (P e)} (m : list (jstr * V)) : mwf m -> mwf (filter P m).
Proof.
  unfold mwf, mkeys. intros Hm. eapply sublist_NoDup; [exact Hm|]. apply fmap_sublist, sublist_filter.
Qed.

Section owner.
Context (fractionMs : string -> Z) (localeCompare : jstr -> jstr -> Z).

Lemma retention_deletes groups c : c ∈ acknowledgedRetentionChanges localeCompare groups -> exists id, c = Delete id.
Proof.
  unfold acknowledgedRetentionChanges. rewrite list_elem_of_bind.
  intros (g & (row & -> & _)%list_elem_of_fmap & _). by eexists.
Qed.

Lemma retention_put l cs row :
  Put row ∈ withAcknowledgedAttentionRetention localeCompare l cs -> Put row ∈ cs.
Proof.
  unfold withAcknowledgedAttentionRetention. intros [Hin|Hin]%elem_of_app; [done|].
  by apply retention_deletes in Hin as [id ?].
Qed.

Lemma retention_telling m scopes l cs :
  Forall (telling m scopes) cs -> Forall (telling m scopes) (withAcknowledgedAttentionRetention localeCompare l cs).
Proof.
  intros H. apply Forall_app. split; [done|]. apply Forall_forall. intros c [id ->]%retention_deletes. done.
Qed.

Lemma owner_apply cs changed k o :
  owner_ok o -> Forall (telling (storage o) (deliveryScopes o)) cs -> (forall s, k <> ThenDeliver s true) ->
  owner_ok (apply localeCompare cs changed k o).
Proof.
  intros [H1 H2 H3 H4] Hcs Hk. split; try done. intros r [= <-]. split; [by apply retention_telling|].
  simpl. intros s ->. by destruct (Hk s).
Qed.

Lemma quiet_row o row : owner_ok o -> row ∈ rows o -> telling (storage o) (deliveryScopes o) (Put (acknowledgedRow row)).
Proof.
  intros Ho Hin. apply quiet_telling; [|apply acknowledgedRow_pending].
  apply acknowledgedRow_ok. by apply (store_row _ _ (oo_store _ Ho)).
Qed.

Lemma acknowledged_telling o p :
  owner_ok o ->
  Forall (telling (storage o) (deliveryScopes o))
    ((fun row => Put (acknowledgedRow row)) <$> filter (fun row => p row = true) (rows o)).
Proof.
  intros Ho. apply Forall_forall. intros c (row & -> & [_ Hin]%list_elem_of_filter)%list_elem_of_fmap.
  by apply quiet_row.
Qed.

Lemma deletes_telling m scopes l : Forall (telling m scopes) ((fun row => Delete (row_id row)) <$> l).
Proof. apply Forall_forall. by intros c (row & -> & _)%list_elem_of_fmap. Qed.

Lemma emptyBatch_ok o : owner_ok o -> batch_ok (storage o) (deliveryScopes o) (emptyBatch o).
Proof.
  intros Ho. unfold emptyBatch, rows. rewrite (store_again _ (oo_store _ Ho)). split; simpl; [apply Ho|done|constructor].
Qed.

Lemma owner_memory cursors ineligible o :
  owner_ok o -> owner_ok (withMemory (deliveryScopes o) cursors ineligible o).
Proof. by intros []. Qed.

Lemma owner_finishBatch r k o :
  owner_ok o -> batch_ok (storage o) (deliveryScopes o) r.1 -> (forall s, k <> ThenDeliver s true) ->
  owner_ok (finishBatch localeCompare r k o).
Proof.
  intros Ho Hb Hk. unfold finishBatch. pose proof (owner_memory (connectionCursors o) (b_ineligible r.1) o Ho).
  destruct r as [b []]; simpl in *; [|done]. apply owner_apply; [done| |done]. apply Hb.
Qed.

Lemma owner_setDelivery s enabled o : owner_ok o -> owner_ok (setDeliveryEnabled localeCompare s enabled o).
Proof.
  intros Ho. unfold setDeliveryEnabled. destruct (enabled && _); [done|].
  assert (Hcs : Forall (telling (storage o) (deliveryScopes o)) (pendingAcknowledgementChanges (rows o) s))
    by exact (acknowledged_telling o _ Ho).
  destruct Ho as [H1 H2 H3 H4]. split; try done. intros r [= <-]. split; [by apply retention_telling|].
  intros s' [= -> _] row Hin. simpl in Hin. destruct (isPending row && ofSupervisor s' row) eqn:E; [|done]. exfalso.
  assert (Hfin : store_ok (foldl applyAttentionStorageChange (storage o)
    (withAcknowledgedAttentionRetention localeCompare (rows o) (pendingAcknowledgementChanges (rows o) s')))).
  { apply applies_ok; [done|]. eapply telling_ok, retention_telling, Hcs. }
  destruct (store_row _ _ Hfin Hin) as [Hget _].
  apply applies_lookup in Hget as [[Hput _]|[Hold Hnone]].
  - apply retention_put, list_elem_of_fmap in Hput as (old & [= ->] & _).
    by rewrite acknowledgedRow_pending in E.
  - apply (proj1 (Forall_forall _ _) Hnone (Put (acknowledgedRow row))); [|apply acknowledgedRow_id].
    apply elem_of_app. left. apply list_elem_of_fmap. exists row. split; [done|].
    apply list_elem_of_filter. split; [done|]. by eapply store_mvals.
Qed.

Lemma owner_snapshot c snapshots cursor o : owner_ok o -> owner_ok (ingestSnapshot fractionMs localeCompare c snapshots cursor o).
Proof.
  intros Ho. unfold ingestSnapshot.
  match goal with |- owner_ok (finishBatch _ _ _ ?o1) => set (o' := o1) end.
  assert (Hn : narrower (deliveryScopes o) (deliveryScopes o')).
  { intros k scope'. simpl. rewrite mget_map. destruct (mget k (deliveryScopes o)) as [scope|]; [|done].
    intros [= <-]. exists scope. split; [done|]. unfold baselineScope. by destruct (mhas _ _). }
  assert (Ho' : owner_ok o').
  { destruct Ho as [H1 [H2 H2'] H3 H4]. split; simpl.
    - done.
    - split; [unfold mwf, mkeys; by rewrite <- list_fmap_compose|].
      intros k scope ([k' scope0] & [= -> ->] & Hin)%list_elem_of_fmap. simpl.
      rewrite (H2' _ _ Hin). unfold baselineScope. by destruct (mhas _ _).
    - intros row Hin. eapply fresh_narrower; [exact Hn|]. by apply H3.
    - intros r Hr. eapply run_narrower; [exact Hn|]. by apply H4. }
  apply owner_finishBatch; [done| |done].
  apply (keeps_foldr (storage o') (deliveryScopes o')); [|by apply emptyBatch_ok].
  intros snapshot. apply keeps_reduceSnapshot.
Qed.

Lemma owner_requests c requests now o : owner_ok o -> owner_ok (ingestPendingRequests localeCompare c requests now o).
Proof.
  intros Ho. unfold ingestPendingRequests. destruct (addPendingRequestAttention _ _ _ _ _ _ _) as [b|] eqn:E; [|done].
  apply owner_apply; [done| |done]. eapply po_changes, pending_missing; [apply Ho|done|].
  eapply pending_requests; [exact E|]. split; simpl; [|constructor].
  intros k [row Hrow]. destruct (store_lookup _ _ _ (oo_store _ Ho) Hrow) as [-> _].
  apply store_mvals in Hrow. clear -Hrow. fold (rows o) in Hrow. generalize (@nil jstr). revert Hrow.
  generalize (rows o). intros l. induction l as [|x l IH]; intros Hin acc; [by apply elem_of_nil in Hin|]. simpl.
  assert (Hacc : forall l acc, row_id row ∈ acc -> row_id row ∈ foldl (fun s r => sadd (row_id r) s) acc l).
  { clear. intros l. induction l as [|y l IH]; intros acc H; simpl; [done|]. apply IH, elem_of_sadd. by right. }
  apply elem_of_cons in Hin as [-> |Hin]; [|by apply IH]. apply Hacc, elem_of_sadd. by left.
Qed.

Lemma owner_start op now o : running o = None -> owner_ok o -> owner_ok (startOp fractionMs localeCompare op now o).
Proof.
  intros Hr Ho. destruct op; simpl.
  - by apply owner_setDelivery.
  - destruct (hasRow _ _); [done|]. apply owner_apply; [done| |done]. constructor; [|done].
    apply quiet_telling; [apply relationForActive_ok|done].
  - apply owner_apply; [done| |done]. constructor; [done|]. by apply acknowledged_telling.
  - unfold acknowledge. destruct (list_find _ _) as [[i row]|] eqn:E; [|done]. destruct (isPending row); [|done].
    apply list_find_Some in E as (E & _). apply owner_apply; [done| |done]. constructor; [|done].
    apply quiet_row; [done|]. by eapply list_elem_of_lookup_2.
  - unfold beginWorkerCreation. destruct (hasRow _ _); [done|]. apply owner_apply; [done| |done]. constructor; [|done].
    apply quiet_telling; [apply creationRowId_other|done].
  - apply owner_apply; [done| |done]. apply Forall_forall. intros ch (row & Hin & _)%list_elem_of_bind.
    unfold completeCreationChanges in Hin. destruct (body row) as [t [src'|]| |]; try by apply elem_of_nil in Hin.
    destruct (_ && _); [|by apply elem_of_nil in Hin].
    apply elem_of_cons in Hin as [-> |Hin%list_elem_of_singleton]; [done|]. subst ch.
    apply quiet_telling; [apply relationForActive_ok|done].
  - destruct Ho as [H1 H2 H3 H4]. split; try done. intros r [= <-]. split; [apply deletes_telling|done].
  - apply owner_finishBatch; [done| |done]. apply (keeps_foldr (storage o) (deliveryScopes o)); [|by apply emptyBatch_ok].
    intros timed. apply keeps_reduceEvent.
  - by apply owner_requests.
  - by apply owner_snapshot.
  - apply owner_apply; [done| |done]. constructor; [|done].
    destruct policy; [done| |destruct (_ <=? _); [done|]]; (apply quiet_telling; [apply speechPolicyRowId_other|done]).
  - apply owner_apply; [done|apply deletes_telling|done].
Qed.

(** The rows after a commit. *)
Lemma committed_rows o r :
  owner_ok o -> run_ok (storage o) (deliveryScopes o) r ->
  let m := foldl applyAttentionStorageChange (storage o) (committing r) in
  store_ok m /\ forall row, row ∈ mvals m -> fresh (deliveryScopes o) row.
Proof.
  intros Ho [Hr _] m. assert (Hm : store_ok m) by (eapply applies_ok; [apply Ho|]; by eapply telling_ok).
  split; [done|]. intros row Hin. destruct (store_row _ _ Hm Hin) as [Hget _].
  apply applies_lookup in Hget as [[Hput _]|[Hold _]].
  - apply (proj1 (Forall_forall _ _) Hr) in Hput as [_ Hp]. destruct (isPending row) eqn:E; [by apply Hp|].
    unfold fresh, isPending in *. by destruct (body row) as [|a []|].
  - apply (oo_fresh _ Ho). by eapply store_mvals.
Qed.

Lemma owner_schedule now o : owner_ok o -> owner_ok (scheduleSpeechWake now o).
Proof. intros []. unfold scheduleSpeechWake. by destruct (closed o). Qed.

Lemma owner_afterCommit k now o :
  owner_ok o ->
  (forall s, k = ThenDeliver s true -> forall row, row ∈ rows o -> isPending row && ofSupervisor s row = false) ->
  running o = None -> owner_ok (afterCommit k now o).
Proof.
  intros Ho Hk Hr. destruct k as [|s []|c|c z|]; simpl.
  - done.
  - specialize (Hk s eq_refl). destruct Ho as [H1 [H2 H2'] H3 H4]. split; simpl; [done| | |by rewrite Hr].
    + split; [by apply mset_wf|]. intros k scope [[= -> ->]|Hin]%elem_mset; [done|]. by apply H2'.
    + intros row Hin. pose proof (H3 row Hin) as Hf. pose proof (Hk row Hin) as Hp. unfold fresh, isPending, ofSupervisor in *.
      destruct (body row) as [|a []|]; try done. intros scope. rewrite mget_mset. case_bool_decide as E; [|by apply Hf].
      apply (inj qualifiedKey) in E. by rewrite (proj2 (sameRef_spec (supervisor a) s)) in Hp by congruence.
  - destruct Ho as [H1 [H2 H2'] H3 H4]. split; simpl; [done| | |by rewrite Hr].
    + split; [by apply mdel_wf|]. intros k scope Hin. apply H2'. apply mget_elem.
      apply elem_mget in Hin; [|by apply mdel_wf]. rewrite mget_mdel in Hin. by case_bool_decide.
    + intros row Hin. eapply fresh_narrower; [|by apply H3]. intros k scope. rewrite mget_mdel. case_bool_decide; [done|].
      intros ->. by eexists.
  - destruct Ho as [H1 [H2 H2'] H3 H4]. split; simpl; [done| | |by rewrite Hr].
    + split; [by apply mwf_filter|]. intros k scope [_ Hin]%list_elem_of_filter. by apply H2'.
    + intros row Hin. eapply fresh_narrower; [|by apply H3]. intros k scope Hg. exists scope. split; [|done].
      apply mget_elem, list_elem_of_filter in Hg as [_ Hg]. by apply elem_mget.
  - by apply owner_memory.
  - by apply owner_schedule.
Qed.

Lemma owner_notify keys o : owner_ok o -> owner_ok (notify keys o).
Proof. by intros []. Qed.

Lemma owner_step step o : owner_ok o -> owner_ok (ownerStep fractionMs localeCompare step o).
Proof.
  intros Ho. destruct step as [op|now|committed now|now| |]; simpl.
  - by destruct Ho.
  - destruct (running o) eqn:Er; [done|]. destruct (tail o) as [|op rest]; [done|].
    assert (Ho' : owner_ok (withTail rest o)) by (by destruct Ho).
    destruct (closed _); [done|]. by apply owner_start.
  - destruct (running o) as [r|] eqn:Er; [|done]. pose proof (oo_running _ Ho r Er) as Hr.
    assert (Ho' : owner_ok (withRunning None o)) by (by destruct Ho). destruct committed; [|done].
    destruct (committed_rows o r Ho Hr) as [Hm Hf].
    apply owner_notify, owner_afterCommit; [|apply Hr|done].
    destruct Ho. by split.
  - by apply owner_schedule.
  - destruct (speechWakeTimer o); [|done]. by destruct Ho.
  - destruct Ho as [H1 H2 H3 H4]. split; simpl; [done|by split; [apply NoDup_nil_2|intros ? ? ?%elem_of_nil]| |].
    + intros row Hin. eapply fresh_narrower; [apply narrower_nil|by apply H3].
    + intros r Hr. eapply run_narrower; [apply narrower_nil|by apply H4].
Qed.

Lemma owner_new stored : store_ok stored -> owner_ok (newOwner stored).
Proof.
  intros Hs. split; simpl; [done|by split; [apply NoDup_nil_2|intros ? ? ?%elem_of_nil]| |done].
  intros row _. unfold fresh. by destruct (body row) as [|a []|].
Qed.

Lemma owner_run steps o : owner_ok o -> owner_ok (runOwner fractionMs localeCompare steps o).
Proof.
  revert o. unfold runOwner. induction steps as [|step steps IH]; intros o Ho; simpl; [done|]. by apply IH, owner_step.
Qed.
End owner.

(** ** Reads *)

Lemma told_elem include s (l : list StoredRow) e :
  e ∈ omap (pendingEventOf include s) l <->
  exists row, row ∈ l /\ body row = Attention e Pending /\ supervisor e = s /\ include e = true.
Proof.
  rewrite list_elem_of_omap. unfold pendingEventOf. split.
  - intros (row & Hin & He). exists row. destruct (body row) as [|a []|]; try done.
    destruct (_ && _) eqn:E; [|done]. injection He as ->. apply andb_true_iff in E as [E1 E2].
    apply sameRef_spec in E1. done.
  - intros (row & Hin & Hb & <- & Hi). exists row. split; [done|].
    by rewrite Hb, (proj2 (sameRef_spec _ _) eq_refl), Hi.
Qed.

Lemma told_distinct include s (l : list StoredRow) :
  Forall row_ok l -> NoDup (row_id <$> l) -> NoDup ((fun e => eventId (source e)) <$> omap (pendingEventOf include s) l).
Proof.
  induction l as [|row l IH]; intros Hl Hn; [constructor|].
  apply Forall_cons in Hl as [Hr Hl]. apply NoDup_cons in Hn as [Hni Hn]. simpl.
  destruct (pendingEventOf include s row) as [e|] eqn:E; [|by apply IH]. simpl. apply NoDup_cons. split; [|by apply IH].
  intros (e' & Hee & He')%list_elem_of_fmap. apply told_elem in He' as (row' & Hin & Hb & Hs & _).
  assert (He : e ∈ omap (pendingEventOf include s) [row]) by (simpl; rewrite E; by left).
  apply told_elem in He as (row1 & ->%list_elem_of_singleton & Hb1 & Hs1 & _).
  apply Hni, list_elem_of_fmap. exists row'. split; [|done].
  pose proof (proj1 (Forall_forall _ _) Hl _ Hin) as Hr'. unfold row_ok in Hr, Hr'. rewrite Hb1 in Hr. rewrite Hb in Hr'.
  destruct Hr as [-> _], Hr' as [-> _]. congruence.
Qed.

Lemma store_ids m : store_ok m -> row_id <$> mvals m = mkeys m.
Proof.
  intros [_ Hm]. unfold mvals, mkeys. rewrite <- list_fmap_compose. apply list_fmap_ext.
  intros i [k row] Hi. simpl. symmetry. by apply (Hm k row), (list_elem_of_lookup_2 _ i).
Qed.

Lemma store_rows_ok m : store_ok m -> Forall row_ok (mvals m).
Proof. intros Hm. apply Forall_forall. intros row Hin. by apply (store_row _ _ Hm Hin). Qed.

(** C33. Whatever a companion sends, and however operations, commits, failures and
    teardown interleave, what a supervisor reads as pending is its own, at most
    32 attentions, each once, and nothing observed before delivery to it was
    enabled; and when the read is not cut, nothing pending for it is missing. *)
Theorem attention_is_news fractionMs localeCompare stored steps s limit :
  store_ok stored ->
  let o := runOwner fractionMs localeCompare steps (newOwner stored) in
  let told := pending localeCompare s limit o in
  (length told <= 32)%nat
  /\ NoDup ((fun e => eventId (source e)) <$> told)
  /\ (forall e, e ∈ told ->
        supervisor e = s
        /\ exists scope, mget (qualifiedKey s) (deliveryScopes o) = Some scope /\ enabledAt scope <= observedAt (source e))
  /\ (mhas (qualifiedKey s) (deliveryScopes o) = true -> Z.of_nat (length told) < boundedLimit limit ->
      forall row e, row ∈ rows o -> body row = Attention e Pending -> supervisor e = s -> e ∈ told).
Proof.
  intros Hs o told. assert (Ho : owner_ok o) by by apply owner_run, owner_new.
  subst told. unfold pending. destruct (mhas _ _) eqn:Eh; simpl.
  2: { split_and!; [lia|constructor|by intros e ?%elem_of_nil|done]. }
  unfold mhas in Eh. apply bool_decide_eq_true in Eh as [scope Hscope].
  unfold pendingAttentionEvents. set (all := omap _ _). set (cut := Z.to_nat (boundedLimit limit)).
  pose proof (sortBy_perm (attentionBefore localeCompare) all) as Hperm.
  assert (Hcut : (cut <= 32)%nat) by (subst cut; unfold boundedLimit, ATTENTION_READ_MAX_ENTRIES; lia).
  split_and!.
  - rewrite length_take. lia.
  - eapply sublist_NoDup; [|apply fmap_sublist, sublist_take].
    rewrite Hperm. apply told_distinct; [apply store_rows_ok, Ho|].
    unfold rows. rewrite (store_ids _ (oo_store _ Ho)). apply Ho.
  - intros e (i & Hi%list_elem_of_lookup_2 & _)%elem_of_take. rewrite Hperm in Hi.
    apply told_elem in Hi as (row & Hin & Hb & Hsup & _). split; [done|]. exists scope. split; [done|].
    pose proof (oo_fresh _ Ho row Hin) as Hf. unfold fresh in Hf. rewrite Hb in Hf. apply Hf. by rewrite Hsup.
  - intros _ Hlt row e Hin Hb Hsup. rewrite take_ge.
    + rewrite Hperm. apply told_elem. by exists row.
    + rewrite length_take in Hlt. subst cut. lia.
Qed.

Lemma startOp_storage fractionMs localeCompare op now o :
  storage (startOp fractionMs localeCompare op now o) = storage o.
Proof.
  destruct op; simpl; try done.
  - unfold setDeliveryEnabled. by destruct (_ && _).
  - by destruct (hasRow _ _).
  - unfold acknowledge. destruct (list_find _ _) as [[]|]; [|done]. by destruct (isPending _).
  - unfold beginWorkerCreation. by destruct (hasRow _ _).
  - unfold finishBatch. by destruct (snd _).
  - unfold ingestPendingRequests. by destruct (addPendingRequestAttention _ _ _ _ _ _ _).
  - unfold ingestSnapshot, finishBatch. by destruct (snd _).
Qed.

(** Only a commit that succeeds changes the store. *)
Lemma ownerStep_storage fractionMs localeCompare step o :
  storage (ownerStep fractionMs localeCompare step o) = storage o
  \/ exists r, running o = Some r
       /\ storage (ownerStep fractionMs localeCompare step o) = foldl applyAttentionStorageChange (storage o) (committing r).
Proof.
  destruct step as [op|now|[] now|now| |]; simpl; try (by left).
  - left. destruct (running o), (tail o) as [|op rest]; try done. simpl. destruct (closed o); [done|].
    apply (startOp_storage fractionMs localeCompare op now (withTail rest o)).
  - destruct (running o) as [r|]; [right|by left]. exists r. split; [done|]. simpl.
    destruct (continue r); simpl; try done. unfold scheduleSpeechWake. by destruct (closed _).
  - left. by destruct (running o).
  - left. unfold scheduleSpeechWake. by destruct (closed _).
  - left. by destruct (speechWakeTimer o).
Qed.

(** Once acknowledged, an attention stays so for as long as it is stored: no
    event, snapshot or request that arrives again makes it pending. *)
Theorem acknowledged_once fractionMs localeCompare stored steps step k row :
  store_ok stored ->
  let o := runOwner fractionMs localeCompare steps (newOwner stored) in
  mget k (storage o) = Some row -> isAcknowledged row = true ->
  match mget k (storage (ownerStep fractionMs localeCompare step o)) with
  | Some row' => isAcknowledged row' = true
  | None => True
  end.
Proof.
  intros Hs o Hk Hack. assert (Ho : owner_ok o) by by apply owner_run, owner_new.
  destruct (mget k (storage (ownerStep _ _ step o))) as [row'|] eqn:E; [|done].
  assert (Hsame : storage (ownerStep fractionMs localeCompare step o) = storage o -> isAcknowledged row' = true)
    by congruence.
  destruct (ownerStep_storage fractionMs localeCompare step o) as [Hst|(r & Hr & Hst)]; [by apply Hsame|].
  rewrite Hst in E. apply applies_lookup in E as [[Hput Hid]|[Hold _]]; [|congruence].
  destruct (oo_running _ Ho r Hr) as [Htell _].
  apply (proj1 (Forall_forall _ _) Htell) in Hput as [Hok Hp]. rewrite Hid in Hp.
  destruct (store_lookup _ _ _ (oo_store _ Ho) Hk) as [-> Hrow].
  unfold isAcknowledged, isPending, row_ok in *. rewrite Hid in Hok.
  destruct (body row) as [|a []|]; try done. destruct Hrow as [Hrow _].
  destruct (body row') as [|a' []|]; try done; [by apply Hok in Hrow| |by apply Hok in Hrow].
  destruct (Hp eq_refl) as [_ Hn]. congruence.
Qed.

(** ** Retention *)

(** The acknowledged rows of a supervisor. *)
Definition acknowledgedOf (s : ChatRef) (l : list StoredRow) : list StoredRow :=
  filter (fun row => isAcknowledged row && bool_decide (supervisorFromRow row = s) = true) l.

Lemma elem_of_acknowledgedOf s l row :
  row ∈ acknowledgedOf s l <-> row ∈ l /\ isAcknowledged row = true /\ supervisorFromRow row = s.
Proof.
  unfold acknowledgedOf. rewrite list_elem_of_filter, andb_true_iff, bool_decide_eq_true. tauto.
Qed.

Lemma groups_spec l :
  let groups := foldl appendAcknowledgedAttention [] l in
  mwf groups /\ forall s, default [] (mget (qualifiedKey s) groups) = acknowledgedOf s l.
Proof.
  induction l as [|row l [Hw IH]] using rev_ind; [split; [apply NoDup_nil_2|done]|].
  simpl. rewrite foldl_app. simpl. unfold appendAcknowledgedAttention at 1 3.
  change (identity [IdStr (supervisorConnectionId row); IdStr (supervisorThreadId row)])
    with (qualifiedKey (supervisorFromRow row)).
  destruct (isAcknowledged row) eqn:Ea; simpl.
  - split; [by apply mset_wf|]. intros s. rewrite mget_mset. unfold acknowledgedOf. rewrite filter_app.
    case_bool_decide as E.
    + apply (inj qualifiedKey) in E. subst s. simpl. rewrite IH. unfold acknowledgedOf. f_equal.
      rewrite filter_cons_True; [done|]. by rewrite Ea, bool_decide_eq_true_2.
    + rewrite IH, filter_cons_False; [by rewrite app_nil_r|]. rewrite Ea. simpl. rewrite bool_decide_eq_true.
      intros <-. by apply E.
  - split; [done|]. intros s. rewrite IH. unfold acknowledgedOf.
    rewrite filter_app, filter_cons_False; [by rewrite app_nil_r|]. by rewrite Ea.
Qed.

(** A group is that of a supervisor. *)
Lemma group_of l g : g ∈ acknowledgedAttentionBySupervisor l -> exists k, mget k (foldl appendAcknowledgedAttention [] l) = Some g.
Proof.
  intros (k & Hin)%elem_mvals. exists k. apply elem_mget; [apply groups_spec|done].
Qed.

Lemma group_key l k g :
  mget k (foldl appendAcknowledgedAttention [] l) = Some g ->
  exists s, k = qualifiedKey s /\ g = acknowledgedOf s l.
Proof.
  intros Hk. assert (exists s, k = qualifiedKey s) as [s ->].
  { revert g Hk. induction l as [|row l IH] using rev_ind; intros g; [done|].
    rewrite foldl_app. simpl. unfold appendAcknowledgedAttention at 1. destruct (negb _); [apply IH|].
    rewrite mget_mset. case_bool_decide; [|apply IH]. intros _. by exists (supervisorFromRow row). }
  exists s. split; [done|]. destruct (groups_spec l) as [_ Hg]. specialize (Hg s). by rewrite Hk in Hg.
Qed.

Lemma deletes_lookup ids m k :
  mget k (foldl applyAttentionStorageChange m (Delete <$> ids)) = if bool_decide (k ∈ ids) then None else mget k m.
Proof.
  revert m. induction ids as [|id ids IH]; intros m; simpl; [done|]. rewrite IH, mget_mdel.
  repeat case_bool_decide; try done; set_solver.
Qed.

Section retention.
Context (localeCompare : jstr -> jstr -> Z).
(** The collation is a total preorder. *)
Hypothesis collation_total : forall a b, localeCompare a b <= 0 \/ localeCompare b a <= 0.
Hypothesis collation_trans : forall a b c, localeCompare a b <= 0 -> localeCompare b c <= 0 -> localeCompare a c <= 0.

Lemma sortStored_ordered g : ordered (fun a b => compareStoredAttention localeCompare a b <=? 0) (sortStored localeCompare g).
Proof.
  apply sortBy_ordered.
  - intros a b. rewrite !Z.leb_le. unfold compareStoredAttention.
    destruct (collation_total (row_id a) (row_id b)); repeat case_match; bool_prop; lia.
  - intros a b c. rewrite !Z.leb_le. unfold compareStoredAttention.
    pose proof (collation_trans (row_id a) (row_id b) (row_id c)). repeat case_match; bool_prop; lia.
Qed.

(** The rows retention lets go of, among those a commit would leave. *)
Definition evictedRows (l : list StoredRow) : list StoredRow :=
  acknowledgedAttentionBySupervisor l ≫= evictedOf localeCompare.

Lemma retention_eq m cs :
  store_ok m ->
  withAcknowledgedAttentionRetention localeCompare (mvals m) cs
  = cs ++ (Delete <$> (row_id <$> evictedRows (mvals (foldl applyAttentionStorageChange m cs)))).
Proof.
  intros Hm. unfold withAcknowledgedAttentionRetention, projectedAttentionRows. rewrite (store_again _ Hm). f_equal.
  unfold acknowledgedRetentionChanges, evictedRows. generalize (acknowledgedAttentionBySupervisor (mvals (foldl applyAttentionStorageChange m cs))).
  intros groups. induction groups as [|g groups IH]; [done|]. cbn [mbind list_bind]. rewrite !fmap_app.
  f_equal; [|exact IH]. by rewrite <- list_fmap_compose.
Qed.

Definition excess (s : ChatRef) (l : list StoredRow) : nat :=
  length (acknowledgedOf s l) - ATTENTION_ACKNOWLEDGED_MAX_ENTRIES_PER_SUPERVISOR.

(** The acknowledged rows of a supervisor in the order of their age, and which
    of them are let go. *)
Lemma evicted_spec l row :
  row ∈ evictedRows l <->
  row ∈ take (excess (supervisorFromRow row) l) (sortStored localeCompare (acknowledgedOf (supervisorFromRow row) l)).
Proof.
  unfold evictedRows. rewrite list_elem_of_bind. split.
  - intros (g & Hrow & Hg). apply group_of in Hg as [k Hg]. apply group_key in Hg as (s & -> & ->).
    unfold evictedOf in Hrow. assert (supervisorFromRow row = s) as ->; [|done].
    apply elem_of_take in Hrow as (i & Hi%list_elem_of_lookup_2 & _). unfold sortStored in Hi. rewrite sortBy_perm in Hi.
    by apply elem_of_acknowledgedOf in Hi as (_ & _ & ?).
  - set (s := supervisorFromRow row). intros Hrow. destruct (groups_spec l) as [Hw Hg]. specialize (Hg s).
    destruct (mget (qualifiedKey s) (foldl appendAcknowledgedAttention [] l)) as [g|] eqn:E; simpl in Hg.
    + exists g. split; [by rewrite Hg|]. apply elem_mvals. eexists. by apply mget_elem.
    + rewrite <- Hg in Hrow. unfold sortStored in Hrow. simpl in Hrow. rewrite take_nil in Hrow. by apply elem_of_nil in Hrow.
Qed.

(** With distinct rows, those kept of a supervisor are the rest of the order. *)
Lemma kept_row m row :
  store_ok m -> row ∈ mvals m -> isAcknowledged row = true ->
  row ∈ drop (excess (supervisorFromRow row) (mvals m)) (sortStored localeCompare (acknowledgedOf (supervisorFromRow row) (mvals m)))
  <-> row_id row ∉ row_id <$> evictedRows (mvals m).
Proof.
  intros Hm Hin Hack. set (s := supervisorFromRow row). set (l := sortStored _ _). set (n := excess _ _).
  assert (Hnd : NoDup l).
  { subst l. unfold sortStored. rewrite sortBy_perm. apply NoDup_filter, (NoDup_fmap_1 row_id).
    rewrite (store_ids _ Hm). apply Hm. }
  rewrite <- (take_drop n l) in Hnd. apply NoDup_app in Hnd as (_ & Hdis & _). split.
  - intros Hd (row' & Hid & He)%list_elem_of_fmap. assert (row' = row) as ->.
    { assert (Hin' : row' ∈ mvals m).
      { apply evicted_spec in He. apply elem_of_take in He as (i & Hi%list_elem_of_lookup_2 & _).
        unfold sortStored in Hi. rewrite sortBy_perm in Hi. by apply elem_of_acknowledgedOf in Hi as [? _]. }
      destruct (store_row _ _ Hm Hin) as [H1 _], (store_row _ _ Hm Hin') as [H2 _]. congruence. }
    apply evicted_spec in He. by apply (Hdis row).
  - intros Hn. assert (Hl : row ∈ l).
    { subst l. unfold sortStored. rewrite sortBy_perm. by apply elem_of_acknowledgedOf. }
    rewrite <- (take_drop n l) in Hl. apply elem_of_app in Hl as [Hl|Hl]; [|done]. exfalso.
    apply Hn, list_elem_of_fmap. exists row. split; [done|]. by apply evicted_spec.
Qed.

Lemma kept_lookup m ids k row :
  mget k (foldl applyAttentionStorageChange m (Delete <$> ids)) = Some row <-> mget k m = Some row /\ k ∉ ids.
Proof. rewrite deletes_lookup. case_bool_decide; naive_solver. Qed.

(** The acknowledged rows a supervisor is left with, as a set: the newest. *)
Lemma kept_rows m s :
  store_ok m ->
  acknowledgedOf s (mvals (foldl applyAttentionStorageChange m (Delete <$> (row_id <$> evictedRows (mvals m)))))
  ≡ₚ drop (excess s (mvals m)) (sortStored localeCompare (acknowledgedOf s (mvals m))).
Proof.
  intros Hm. set (f := foldl _ _ _).
  assert (Hf : store_ok f).
  { apply applies_ok; [done|]. apply Forall_forall. by intros c (id & -> & _)%list_elem_of_fmap. }
  assert (Hnd : forall m', store_ok m' -> NoDup (acknowledgedOf s (mvals m'))).
  { intros m' Hm'. apply NoDup_filter, (NoDup_fmap_1 row_id). rewrite (store_ids _ Hm'). apply Hm'. }
  apply NoDup_Permutation; [by apply Hnd| |].
  { eapply sublist_NoDup; [|apply sublist_drop]. unfold sortStored. rewrite sortBy_perm. by apply Hnd. }
  intros row. rewrite elem_of_acknowledgedOf. split.
  - intros (Hin & Hack & <-). destruct (store_row _ _ Hf Hin) as [Hg _].
    apply kept_lookup in Hg as [Hg Hn]. apply kept_row; [done|by eapply store_mvals|done|done].
  - intros Hd. assert (Ha : row ∈ acknowledgedOf s (mvals m)).
    { rewrite <- (sortBy_perm (fun a b => compareStoredAttention localeCompare a b <=? 0)).
      eapply elem_of_submseteq; [exact Hd|]. apply sublist_submseteq, sublist_drop. }
    apply elem_of_acknowledgedOf in Ha as (Hin & Hack & <-). split; [|done].
    apply (kept_row m row Hm Hin Hack) in Hd. eapply (store_mvals f (row_id row)). apply kept_lookup.
    split; [by apply store_row|done].
Qed.
End retention.

(** A commit leaves each supervisor at most 256 acknowledged attentions, and
    lets go of nothing else: a row the changes leave is stored, unless it is an
    acknowledged attention and 256 of its supervisor, none older, stay. *)
Theorem retention_keeps_newest localeCompare m cs :
  (forall a b, localeCompare a b <= 0 \/ localeCompare b a <= 0) ->
  (forall a b c, localeCompare a b <= 0 -> localeCompare b c <= 0 -> localeCompare a c <= 0) ->
  store_ok m -> Forall change_ok cs ->
  let projected := foldl applyAttentionStorageChange m cs in
  let final := foldl applyAttentionStorageChange m (withAcknowledgedAttentionRetention localeCompare (mvals m) cs) in
  (forall s, (length (acknowledgedOf s (mvals final)) <= 256)%nat)
  /\ (forall k row, mget k final = Some row -> mget k projected = Some row)
  /\ (forall k row, mget k projected = Some row ->
        mget k final = Some row
        \/ isAcknowledged row = true
           /\ length (acknowledgedOf (supervisorFromRow row) (mvals final)) = 256%nat
           /\ forall row', row' ∈ acknowledgedOf (supervisorFromRow row) (mvals final) ->
                compareStoredAttention localeCompare row row' <= 0).
Proof.
  intros Htotal Htrans Hm Hcs projected final.
  assert (Hp : store_ok projected) by by apply applies_ok.
  assert (Hfinal : final = foldl applyAttentionStorageChange projected
                             (Delete <$> (row_id <$> evictedRows localeCompare (mvals projected)))).
  { subst final. rewrite retention_eq by done. by rewrite foldl_app. }
  assert (Hkept : forall s, acknowledgedOf s (mvals final)
            ≡ₚ drop (excess s (mvals projected)) (sortStored localeCompare (acknowledgedOf s (mvals projected)))).
  { intros s. rewrite Hfinal. by apply kept_rows. }
  assert (Hlen : forall s, length (acknowledgedOf s (mvals final)) = (length (acknowledgedOf s (mvals projected)) - excess s (mvals projected))%nat).
  { intros s. rewrite Hkept, length_drop. unfold sortStored. by rewrite sortBy_perm. }
  split_and!.
  - intros s. rewrite Hlen. unfold excess, ATTENTION_ACKNOWLEDGED_MAX_ENTRIES_PER_SUPERVISOR. lia.
  - intros k row. rewrite Hfinal. by intros [? _]%kept_lookup.
  - intros k row Hk. destruct (decide (k ∈ row_id <$> evictedRows localeCompare (mvals projected))) as [He|Hn].
    2: { left. rewrite Hfinal. by apply kept_lookup. }
    right. apply list_elem_of_fmap in He as (row1 & -> & He). apply evicted_spec in He.
    pose proof He as He2. apply elem_of_take in He as (i & Hi & Hlt).
    assert (Ha : row1 ∈ acknowledgedOf (supervisorFromRow row1) (mvals projected)).
    { rewrite <- (sortBy_perm (fun a b => compareStoredAttention localeCompare a b <=? 0)). by eapply list_elem_of_lookup_2. }
    apply elem_of_acknowledgedOf in Ha as (Hin & Hack & _).
    assert (row1 = row) as -> by (destruct (store_row _ _ Hp Hin); congruence).
    split_and!; [done| |].
    + rewrite Hlen. unfold excess, ATTENTION_ACKNOWLEDGED_MAX_ENTRIES_PER_SUPERVISOR in *. lia.
    + intros row' Hrow'. rewrite Hkept in Hrow'. apply list_elem_of_lookup in Hrow' as [j Hj]. rewrite lookup_drop in Hj.
      apply Z.leb_le. eapply (sortStored_ordered localeCompare Htotal Htrans); [|exact Hi|exact Hj]. lia.
Qed.

(** ** Forgetting a connection *)

Lemma connectionPrefix_key c ref : startsWith (connectionPrefix c) (qualifiedKey ref) = bool_decide (connectionId ref = c).
Proof.
  unfold qualifiedKey. rewrite (identity_prefix c). apply bool_decide_ext. naive_solver.
Qed.

(** When a connection is deleted and the commit succeeds, nothing of it is
    left: no stored row with a chat of it, no delivery to a supervisor on it,
    and no cursor of it; and other connections keep their rows. *)
Theorem connection_forgotten fractionMs localeCompare stored steps c now later :
  store_ok stored ->
  let run := runOwner fractionMs localeCompare in
  let o := run steps (newOwner stored) in
  running o = None -> closed o = false -> tail o = [DeleteConnection c] ->
  let o' := run [Turn now; Settled true later] o in
  (forall row, row ∈ rows o' <-> row ∈ rows o /\ ofConnection c row = false)
  /\ (forall k scope, (k, scope) ∈ deliveryScopes o' -> connectionId (s_supervisor scope) <> c)
  /\ mget c (connectionCursors o') = None
  /\ (forall c', c' <> c -> mget c' (connectionCursors o') = mget c' (connectionCursors o)).
Proof.
  intros Hs run o Hr Hc Ht o'. assert (Ho : owner_ok o) by by apply owner_run, owner_new.
  subst o'. unfold run, runOwner. simpl. rewrite Hr, Ht. simpl. rewrite Hc. simpl. split_and!.
  - intros row. unfold rows at 1. simpl. set (ids := _ <$> filter _ _).
    assert (Hids : ids = Delete <$> (row_id <$> filter (fun row => ofConnection c row = true) (rows o)))
      by (subst ids; rewrite <- list_fmap_compose; done).
    rewrite Hids. clear ids Hids. set (gone := row_id <$> _).
    assert (Hf : store_ok (foldl applyAttentionStorageChange (storage o) (Delete <$> gone))).
    { apply applies_ok; [apply Ho|]. apply Forall_forall. by intros ch (id & -> & _)%list_elem_of_fmap. }
    assert (Hgone : forall r, r ∈ rows o -> row_id r ∈ gone <-> ofConnection c r = true).
    { intros r Hin. subst gone. rewrite list_elem_of_fmap. split.
      - intros (r' & Hid & [Hof Hin']%list_elem_of_filter). destruct (store_row _ _ (oo_store _ Ho) Hin) as [H1 _].
        destruct (store_row _ _ (oo_store _ Ho) Hin') as [H2 _]. congruence.
      - intros Hof. exists r. split; [done|]. by apply list_elem_of_filter. }
    split.
    + intros Hin. destruct (store_row _ _ Hf Hin) as [[Hg Hn]%kept_lookup _]. apply store_mvals in Hg as Hin'.
      split; [done|]. destruct (ofConnection c row) eqn:E; [|done]. by apply Hgone in E.
    + intros [Hin Hof]. apply (store_mvals _ (row_id row)), kept_lookup. split; [by apply (store_row _ _ (oo_store _ Ho))|].
      rewrite Hgone by done. congruence.
  - intros k scope [Hp Hin]%list_elem_of_filter. destruct (oo_scopes _ Ho) as [_ Hk]. rewrite (Hk _ _ Hin) in Hp.
    simpl in Hp. rewrite connectionPrefix_key in Hp. by apply bool_decide_eq_false in Hp.
  - apply mget_mdel_eq.
  - intros c' Hne. by apply mget_mdel_ne.
Qed.

(** The id of a request names its connection, its chat and the request id, a
    number never taken for the string of its digits. *)
Lemma request_named c t r c' t' r' :
  requestIdentity c t (partJson r) = requestIdentity c' t' (partJson r') -> c = c' /\ t = t' /\ r = r'.
Proof.
  intros H%(inj identity). injection H as -> -> Ht Hs. split_and!; [done..|].
  assert (stops [93%N]) as Hstop by (eexists _, _; eauto).
  apply (part_app_inj r r' [93%N] [93%N] Hstop Hstop). by rewrite Hs.
Qed.

(** ** An execution *)

Definition demo_supervisor : ChatRef := {| connectionId := js "home"; threadId := js "s" |}.
Definition demo_worker : ChatRef := {| connectionId := js "box"; threadId := js "w" |}.

Definition demo_blocked (cursor : Z) : SyncEvent :=
  {| ev_cursor := cursor;
     payload := [("method", JStr (js "thread/goal/updated"));
                 ("params", JObj [("threadId", JStr (js "w")); ("goal", JObj [("status", JStr (js "blocked"))])])] |}.

Definition noFraction (_ : string) : Z := 0.
Definition noCollation (_ _ : jstr) : Z := 0.

Definition demo_done (op : AttentionOp) (now : Z) : list AttentionStep := [Enqueued op; Turn now; Settled true now].

Definition demo_told : list AttentionStep :=
  demo_done (SetDelivery demo_supervisor true) 10 ++ demo_done (Follow demo_supervisor demo_worker) 11
  ++ demo_done (IngestEvents (js "box") [(demo_blocked 5, 12)]) 12.

Definition demo_event : jstr := js "goal:" ++ identity [IdStr (js "box"); IdStr (js "w"); IdInt 5; IdStr (js "blocked")].

Definition demo_redelivered : list AttentionStep :=
  demo_told ++ demo_done (Acknowledge demo_supervisor demo_event) 13
  ++ [Enqueued (IngestEvents (js "box") [(demo_blocked 5, 14); (demo_blocked 6, 14)]); Turn 14].

Lemma store_ok_nil : store_ok [].
Proof. split; [apply NoDup_nil_2|by intros ? ? ?%elem_of_nil]. Qed.

Lemma attention_is_news_witness :
  length (pending noCollation demo_supervisor 32 (runOwner noFraction noCollation demo_told (newOwner []))) = 1%nat
  /\ (length (pending noCollation demo_supervisor 32 (runOwner noFraction noCollation demo_told (newOwner []))) <= 32)%nat.
Proof.
  split; [vm_compute; reflexivity|].
  exact (proj1 (attention_is_news noFraction noCollation [] demo_told demo_supervisor 32 store_ok_nil)).
Defined.

Lemma acknowledged_once_witness :
  match mget (attentionRowId demo_supervisor demo_event)
          (storage (ownerStep noFraction noCollation (Settled true 14)
                      (runOwner noFraction noCollation demo_redelivered (newOwner [])))) with
  | Some row' => isAcknowledged row' = true
  | None => True
  end.
Proof.
  destruct (mget (attentionRowId demo_supervisor demo_event)
              (storage (runOwner noFraction noCollation demo_redelivered (newOwner [])))) as [row|] eqn:E.
  - refine (acknowledged_once noFraction noCollation [] demo_redelivered (Settled true 14) _ row store_ok_nil E _).
    assert (option_map isAcknowledged (mget (attentionRowId demo_supervisor demo_event)
              (storage (runOwner noFraction noCollation demo_redelivered (newOwner [])))) = Some true) as H
      by (vm_compute; reflexivity).
    rewrite E in H. by injection H.
  - exfalso. revert E. vm_compute. discriminate.
Defined.

Definition demo_acknowledged (n : Z) : StoredRow :=
  {| row_id := attentionRowId demo_supervisor (printZ n); row_observedAt := n;
     body := Attention {| source := {| eventId := printZ n; kind := Blocked; observedAt := n; sourceCursor := None;
                                       summary := []; turnId := None |};
                          supervisor := demo_supervisor; worker := demo_worker |} Acknowledged;
     supervisorConnectionId := js "home"; supervisorThreadId := js "s";
     workerConnectionId := js "box"; workerThreadId := Some (js "w") |}.

Lemma demo_acknowledged_ok cs : Forall change_ok ((fun n => Put (demo_acknowledged n)) <$> cs).
Proof. apply Forall_forall. intros c (n & -> & _)%list_elem_of_fmap. by repeat split. Qed.

Lemma retention_keeps_newest_witness :
  let cs := (fun n => Put (demo_acknowledged n)) <$> seqZ 1 258 in
  let final := foldl applyAttentionStorageChange []
                 (withAcknowledgedAttentionRetention noCollation (mvals (@nil (jstr * StoredRow))) cs) in
  length final = 256%nat /\ (length (acknowledgedOf demo_supervisor (mvals final)) <= 256)%nat.
Proof.
  split; [vm_compute; reflexivity|].
  refine (proj1 (retention_keeps_newest noCollation [] ((fun n => Put (demo_acknowledged n)) <$> seqZ 1 258) _ _
                  store_ok_nil (demo_acknowledged_ok _)) demo_supervisor); unfold noCollation; lia.
Defined.

Lemma connection_forgotten_witness :
  let o := runOwner noFraction noCollation (demo_told ++ [Enqueued (DeleteConnection (js "home"))]) (newOwner []) in
  rows (runOwner noFraction noCollation [Turn 20; Settled true 20] o) = []
  /\ forall k scope, (k, scope) ∈ deliveryScopes (runOwner noFraction noCollation [Turn 20; Settled true 20] o) ->
       connectionId (s_supervisor scope) <> js "home".
Proof.
  split; [vm_compute; reflexivity|].
  apply (connection_forgotten noFraction noCollation [] (demo_told ++ [Enqueued (DeleteConnection (js "home"))])
           (js "home") 20 20 store_ok_nil); vm_compute; reflexivity.
Defined.
