(* ===== verification/SupervisorRequests.v ===== *)
(** * Requests a worker makes of the user

    Models apps/android/src/data/globalSupervisorPendingRequest.ts: how a pending
    server request is shown to the supervisor, and which typed answers are turned
    into a response.  A function that throws is [None].  The content of an answer
    and the schema of a request are parsed from different texts, so two objects
    are never the same object. *)
From S2P Require Import Prelude JsMap Json JsonText SafeText ThreadEvents MemoryCache SupervisorAttention.

(** ** Numbers *)

(** The value of a number as [mantissa * 10 ^ exponent]: the text of a
    non-integer is [-]digits[.digits][e[+-]digits]. *)
Fixpoint readDigits (value : Z) (count : nat) (s : jstr) : Z * nat * jstr :=
  match s with
  | c :: s' =>
      if ((48 <=? c) && (c <=? 57))%N then readDigits (10 * value + Z.of_N (c - 48)) (S count) s'
      else (value, count, s)
  | [] => (value, count, [])
  end.

Definition readExponent (s : jstr) : Z :=
  match s with
  | e :: s' =>
      if negb (e =? 101)%N then 0
      else
        match s' with
        | 45%N :: d => - (readDigits 0 0 d).1.1
        | 43%N :: d => (readDigits 0 0 d).1.1
        | d => (readDigits 0 0 d).1.1
        end
  | [] => 0
  end.

Definition readDecimal (s : jstr) : Z * Z :=
  let '(sign, s) := match s with 45%N :: s' => (-1, s') | _ => (1, s) end in
  let '(whole, _, s) := readDigits 0 0 s in
  let '(value, places, s) := match s with
                             | 46%N :: s' => readDigits whole 0 s'
                             | _ => (whole, O, s)
                             end in
  (sign * value, readExponent s - Z.of_nat places).

Definition numberValue (n : jnum) : Z * Z := match n with NInt z => (z, 0) | NDec t => readDecimal (js t) end.

(** [left < right]. *)
Definition numberLt (left right : jnum) : bool :=
  let '(m, e) := numberValue left in
  let '(m', e') := numberValue right in
  let low := Z.min e e' in
  m * 10 ^ (e - low) <? m' * 10 ^ (e' - low).

Example numberLt_ex :
  numberLt (NDec "-1.5") (NInt (-1)) && numberLt (NDec "1e-7") (NDec "0.25") && numberLt (NInt 2) (NDec "2.01")
  && negb (numberLt (NDec "2.5e+21") (NDec "2.5")) = true.
Proof. vm_compute. reflexivity. Qed.

(** ** Requests *)

Record PendingServerRequest :=
  { rq_connectionId : jstr; rq_method : jstr; rq_params : jobj; rq_requestId : json }.

Definition REQUEST_TEXT_MAX_CHARACTERS : nat := 320.
Definition REQUEST_QUESTION_MAX_ENTRIES : nat := 8.
Definition REQUEST_FIELD_MAX_ENTRIES : nat := 16.

Definition nonEmptyString (value : option json) : option jstr :=
  s ← asString value; if bool_decide (trim s = []) then None else Some s.

Definition globalSupervisorPendingRequestEventId (request : PendingServerRequest) : option jstr :=
  threadId ← nonEmptyString (oget "threadId" (rq_params request));
  Some (js "request:" ++ requestIdentity (rq_connectionId request) threadId (rq_requestId request)).

Definition boundedText (value : option json) (fallback : string) : jstr :=
  match asString value with
  | None => js fallback
  | Some s =>
      match projectGlobalSupervisorSafeText s REQUEST_TEXT_MAX_CHARACTERS with
      | [] => js fallback
      | projected => projected
      end
  end.

Definition hasMethod (request : PendingServerRequest) (method : string) : bool :=
  bool_decide (rq_method request = js method).

(** ** Questions *)

Record UserInputQuestion :=
  { allowsOther : bool; q_id : jstr; q_options : list jstr; question : jstr; secret : bool }.

Definition userInputOptions (value : option json) : option (list jstr) :=
  if nullish value then Some []
  else
    candidates ← asArray value;
    mapM (fun candidate => option ← asObject (Some candidate); nonEmptyString (oget "label" option)) candidates.

Definition isOptionalBoolean (value : option json) : bool :=
  match value with None | Some (JBool _) => true | _ => false end.

Definition userInputQuestion (value : json) : option UserInputQuestion :=
  row ← asObject (Some value);
  id ← nonEmptyString (oget "id" row);
  text ← nonEmptyString (oget "question" row);
  options ← userInputOptions (oget "options" row);
  if negb (isOptionalBoolean (oget "isOther" row)) || negb (isOptionalBoolean (oget "isSecret" row)) then None
  else
    Some {| allowsOther := isTrue (oget "isOther" row) || bool_decide (options = []);
            q_id := id; q_options := options;
            question := boundedText (Some (JStr text)) "The agent needs input.";
            secret := isTrue (oget "isSecret" row) |}.

Fixpoint readQuestions (questions : list UserInputQuestion) (candidates : list json)
    : option (list UserInputQuestion) :=
  match candidates with
  | [] => Some questions
  | candidate :: candidates =>
      q ← userInputQuestion candidate;
      if existsb (fun existing => bool_decide (q_id existing = q_id q)) questions then None
      else readQuestions (questions ++ [q]) candidates
  end.

Definition userInputQuestions (request : PendingServerRequest) : option (list UserInputQuestion) :=
  if negb (hasMethod request "item/tool/requestUserInput") then None
  else
    candidates ← asArray (oget "questions" (rq_params request));
    questions ← readQuestions [] candidates;
    if bool_decide (length questions = 0%nat) then None else Some questions.

(** ** Fields of an elicitation *)

Inductive FieldType := FArray | FBoolean | FInteger | FNumber | FString.

#[export] Instance FieldType_eq_dec : EqDecision FieldType.
Proof. solve_decision. Defined.

Record ElicitationBounds :=
  { maximum : option jnum; maxItems : option Z; maxLength : option Z;
    minimum : option jnum; minItems : option Z; minLength : option Z }.

Record ElicitationField :=
  { f_id : string; bounds : ElicitationBounds; f_options : list json; required : bool; type_ : FieldType }.

Definition elicitationOptions (field : jobj) : list json :=
  match (if isStr (oget "type" field) "array" then asObject (oget "items" field) else Some field) with
  | None => []
  | Some src =>
      match asArray (oget "enum" src) with
      | Some values => values
      | None =>
          match asArray (oget "oneOf" src) with
          | Some candidates => omap (fun candidate => option ← asObject (Some candidate); oget "const" option) candidates
          | None => []
          end
      end
  end.

(** [null] for an absent value, [undefined] (here [None]) for a wrong one. *)
Definition optionalFiniteNumber (value : option json) : option (option jnum) :=
  match value with None => Some None | Some (JNum n) => Some (Some n) | Some _ => None end.

Definition optionalNonNegativeInteger (value : option json) : option (option Z) :=
  match value with None => Some None | Some _ => Some <$> asSafeNat value end.

Definition elicitationFieldType (value : option json) : option FieldType :=
  if isStr value "array" then Some FArray
  else if isStr value "boolean" then Some FBoolean
  else if isStr value "integer" then Some FInteger
  else if isStr value "number" then Some FNumber
  else if isStr value "string" then Some FString else None.

Definition elicitationBounds (field : jobj) : option ElicitationBounds :=
  maximum ← optionalFiniteNumber (oget "maximum" field);
  maxItems ← optionalNonNegativeInteger (oget "maxItems" field);
  maxLength ← optionalNonNegativeInteger (oget "maxLength" field);
  minimum ← optionalFiniteNumber (oget "minimum" field);
  minItems ← optionalNonNegativeInteger (oget "minItems" field);
  minLength ← optionalNonNegativeInteger (oget "minLength" field);
  Some {| maximum := maximum; maxItems := maxItems; maxLength := maxLength;
          minimum := minimum; minItems := minItems; minLength := minLength |}.

Definition elicitationField (required : list jstr) (entry : string * json) : option ElicitationField :=
  field ← asObject (Some entry.2);
  _ ← nonEmptyString (Some (JStr (js entry.1)));
  type ← elicitationFieldType (oget "type" field);
  bounds ← elicitationBounds field;
  let options := elicitationOptions field in
  if bool_decide (type = FArray) && bool_decide (length options = 0%nat) then None
  else Some {| f_id := entry.1; bounds := bounds; f_options := options;
               required := shas (js entry.1) required; type_ := type |}.

Definition elicitationSchema (value : option json) : option (jobj * list jstr) :=
  schema ← asObject value;
  if negb (isStr (oget "type" schema) "object") then None
  else
    properties ← asObject (oget "properties" schema);
    let names := omap (fun candidate => asString (Some candidate)) (default [] (asArray (oget "required" schema))) in
    Some (properties, foldl (fun s name => sadd name s) [] names).

Definition elicitationFields (request : PendingServerRequest) : option (list ElicitationField) :=
  if negb (hasMethod request "mcpServer/elicitation/request") then None
  else if isStr (oget "mode" (rq_params request)) "url" then Some []
  else
    schema ← elicitationSchema (oget "requestedSchema" (rq_params request));
    fields ← mapM (elicitationField schema.2) schema.1;
    let fieldIds := (fun field => js (f_id field)) <$> fields in
    if existsb (fun id => negb (bool_decide (id ∈ fieldIds))) schema.2 then None else Some fields.

(** ** What is shown *)

Inductive ApprovalDecision := Accept | AcceptForSession | Decline.
Inductive PermissionsDecision := AllowSession | AllowTurn | DeclinePermissions.
Inductive ElicitationAction := AcceptElicitation | DeclineElicitation.

(** A field as it is shown: only its options that are strings. *)
Record ShownField :=
  { s_id : string; s_bounds : ElicitationBounds; s_options : list jstr; s_required : bool; s_type : FieldType }.

Inductive ResponseContract :=
| ApprovalContract (decisions : list ApprovalDecision)
| PermissionsContract (decisions : list PermissionsDecision)
| UserInputContract (questions : list UserInputQuestion)
| ElicitationContract (actions : list ElicitationAction) (fields : list ShownField).

Record PendingRequestSummary :=
  { ps_eventId : jstr; ps_requestId : json; response : ResponseContract; ps_summary : jstr }.

Definition shownField (field : ElicitationField) : ShownField :=
  {| s_id := f_id field; s_bounds := bounds field;
     s_options := omap (fun value => asString (Some value)) (f_options field);
     s_required := required field; s_type := type_ field |}.

Definition isApprovalRequest (request : PendingServerRequest) : bool :=
  hasMethod request "item/commandExecution/requestApproval" || hasMethod request "item/fileChange/requestApproval".

(** [None] where the identity throws; [Some None] for a request of no known kind. *)
Definition projectGlobalSupervisorPendingRequest (request : PendingServerRequest)
    : option (option PendingRequestSummary) :=
  eventId ← globalSupervisorPendingRequestEventId request;
  let make contract text := Some (Some {| ps_eventId := eventId; ps_requestId := rq_requestId request;
                                          response := contract; ps_summary := text |}) in
  let params := rq_params request in
  if isApprovalRequest request then
    make (ApprovalContract [Accept; AcceptForSession; Decline])
      (boundedText (oget "reason" params) "The agent is waiting for approval.")
  else if hasMethod request "item/permissions/requestApproval" then
    make (PermissionsContract [AllowTurn; AllowSession; DeclinePermissions])
      (boundedText (oget "reason" params) "The agent is waiting for permission approval.")
  else
    match userInputQuestions request with
    | Some questions =>
        make (UserInputContract (take REQUEST_QUESTION_MAX_ENTRIES questions))
          (boundedText (Some (JStr (join (js " ") (question <$> questions)))) "The agent needs input.")
    | None =>
        match elicitationFields request with
        | Some fields =>
            let accepts := isStr (oget "mode" params) "url" || negb (bool_decide (length fields = 0%nat)) in
            make (ElicitationContract
                    (if accepts then [AcceptElicitation; DeclineElicitation] else [DeclineElicitation])
                    (shownField <$> take REQUEST_FIELD_MAX_ENTRIES fields))
              (boundedText (oget "message" params) "An external tool is waiting for a response.")
        | None => Some None
        end
    end.

(** ** Answers *)

Record GivenAnswer := { answer : jstr; questionId : jstr }.

Inductive GlobalSupervisorRequestAnswer :=
| ApprovalAnswer (decision : ApprovalDecision)
| PermissionsAnswer (decision : PermissionsDecision)
| UserInputAnswer (answers : list GivenAnswer)
| ElicitationAnswer (action : ElicitationAction) (content : option jobj).

Inductive RequestResult :=
| ApprovalResult (decision : ApprovalDecision)
| PermissionsResult (permissions : json) (session : bool)
| UserInputResult (answers : list (jstr * list jstr))
| ElicitationResult (action : ElicitationAction) (content : option jobj).

Fixpoint explicitUserInputAnswers (supplied : list (jstr * jstr)) (answers : list GivenAnswer)
    : option (list (jstr * jstr)) :=
  match answers with
  | [] => Some supplied
  | item :: answers =>
      let value := trim (answer item) in
      if mhas (questionId item) supplied || bool_decide (value = []) then None
      else explicitUserInputAnswers (mset (questionId item) value supplied) answers
  end.

Definition validatedUserInputAnswer (supplied : list (jstr * jstr)) (q : UserInputQuestion) : option jstr :=
  value ← mget (q_id q) supplied;
  if negb (allowsOther q) && negb (bool_decide (value ∈ q_options q)) then None else Some value.

(** [responses[id] = value] on an object literal: the assignment to
    [__proto__] sets the prototype and leaves no property. *)
Definition assignProperty {V} (id : jstr) (value : V) (responses : list (jstr * V)) : list (jstr * V) :=
  if bool_decide (id = js "__proto__") then responses else mset id value responses.

Fixpoint collectResponses (supplied : list (jstr * jstr)) (questions : list UserInputQuestion)
    (responses : list (jstr * list jstr)) : option (list (jstr * list jstr)) :=
  match questions with
  | [] => Some responses
  | q :: questions =>
      value ← validatedUserInputAnswer supplied q;
      collectResponses supplied questions (assignProperty (q_id q) [value] responses)
  end.

Definition userInputResult (request : PendingServerRequest) (answers : list GivenAnswer) : option RequestResult :=
  questions ← userInputQuestions request;
  if negb (bool_decide (length answers = length questions)) then None
  else
    supplied ← explicitUserInputAnswers [] answers;
    UserInputResult <$> collectResponses supplied questions [].

Definition validatePrimitive (type : FieldType) (value : json) : bool :=
  match type, value with
  | FString, JStr _ | FNumber, JNum _ | FBoolean, JBool _ | FArray, JArr _ => true
  | FInteger, _ => bool_decide (is_Some (asSafeInt (Some value)))
  | _, _ => false
  end.

Definition below {A} (lt : A -> A -> bool) (value : A) (limit : option A) : bool :=
  match limit with Some l => lt value l | None => false end.
Definition above {A} (lt : A -> A -> bool) (value : A) (limit : option A) : bool :=
  match limit with Some l => lt l value | None => false end.

Definition violatesNumericBounds (field : ElicitationField) (value : json) : bool :=
  match value with
  | JNum n => below numberLt n (minimum (bounds field)) || above numberLt n (maximum (bounds field))
  | _ => false
  end.

Definition unicodeCodePointLength (value : jstr) : Z := Z.of_nat (length (characters value)).

Definition violatesLengthBounds (field : ElicitationField) (value : json) : bool :=
  match value with
  | JStr s =>
      let length_ := unicodeCodePointLength s in
      below Z.ltb length_ (minLength (bounds field)) || above Z.ltb length_ (maxLength (bounds field))
  | JArr l =>
      let length_ := Z.of_nat (length l) in
      below Z.ltb length_ (minItems (bounds field)) || above Z.ltb length_ (maxItems (bounds field))
  | _ => false
  end.

(** [Object.is] of two values of different texts. *)
Definition objectIs (left right : json) : bool :=
  match left, right with
  | JArr _, _ | JObj _, _ => false
  | _, _ => bool_decide (left = right)
  end.

Definition matchesElicitationOptions (field : ElicitationField) (value : json) : bool :=
  if bool_decide (length (f_options field) = 0%nat) then true
  else
    match value with
    | JArr items => forallb (fun item => existsb (fun option => objectIs option item) (f_options field)) items
    | _ => existsb (fun option => objectIs option value) (f_options field)
    end.

(** [true] where the code does not throw. *)
Definition validateElicitationField (content : jobj) (field : ElicitationField) : bool :=
  match oget (f_id field) content with
  | None => negb (required field)
  | Some value =>
      validatePrimitive (type_ field) value
      && negb (violatesNumericBounds field value || violatesLengthBounds field value)
      && matchesElicitationOptions field value
  end.

Definition validatedElicitationContent (fields : list ElicitationField) (content : jobj) : option jobj :=
  if existsb (fun key => negb (bool_decide (key ∈ f_id <$> fields))) (mkeys content) then None
  else if forallb (validateElicitationField content) fields then Some content else None.

Definition elicitationResult (request : PendingServerRequest) (action : ElicitationAction)
    (content : option jobj) : option RequestResult :=
  fields ← elicitationFields request;
  match action, content with
  | DeclineElicitation, Some _ => None
  | DeclineElicitation, None => Some (ElicitationResult DeclineElicitation None)
  | AcceptElicitation, _ =>
      if isStr (oget "mode" (rq_params request)) "url" then
        match content with Some _ => None | None => Some (ElicitationResult AcceptElicitation None) end
      else
        given ← content;
        valid ← validatedElicitationContent fields given;
        Some (ElicitationResult AcceptElicitation (Some valid))
  end.

Definition approvalResult (request : PendingServerRequest) (a : GlobalSupervisorRequestAnswer) : option RequestResult :=
  if negb (isApprovalRequest request) then None
  else match a with ApprovalAnswer decision => Some (ApprovalResult decision) | _ => None end.

Definition permissionsResult (request : PendingServerRequest) (a : GlobalSupervisorRequestAnswer)
    : option RequestResult :=
  if negb (hasMethod request "item/permissions/requestApproval") then None
  else
    match a with
    | PermissionsAnswer decision =>
        Some (match decision with
              | DeclinePermissions => PermissionsResult (JObj []) false
              | AllowSession => PermissionsResult (default (JObj []) (coalesce (oget "permissions" (rq_params request)) None)) true
              | AllowTurn => PermissionsResult (default (JObj []) (coalesce (oget "permissions" (rq_params request)) None)) false
              end)
    | _ => None
    end.

Definition globalSupervisorPendingRequestResult (request : PendingServerRequest)
    (a : GlobalSupervisorRequestAnswer) : option RequestResult :=
  match approvalResult request a with
  | Some r => Some r
  | None =>
      match permissionsResult request a with
      | Some r => Some r
      | None =>
          match a with
          | UserInputAnswer answers =>
              if hasMethod request "item/tool/requestUserInput" then userInputResult request answers else None
          | ElicitationAnswer action content =>
              if hasMethod request "mcpServer/elicitation/request" then elicitationResult request action content else None
          | _ => None
          end
      end
  end.

(** * What an answer may be *)

(** The answers to a list of questions: one to each, not blank, and one of the
    options unless another is allowed. *)
Definition AnswersQuestions (qs : list UserInputQuestion) (answers : list GivenAnswer) : Prop :=
  (questionId <$> answers) ≡ₚ (q_id <$> qs)
  /\ Forall (fun a => trim (answer a) <> []) answers
  /\ forall q a, q ∈ qs -> a ∈ answers -> questionId a = q_id q ->
       allowsOther q = true \/ trim (answer a) ∈ q_options q.

(** Neither an array nor an object. *)
Definition isPrimitive (v : json) : bool := match v with JArr _ | JObj _ => false | _ => true end.

Definition within {A} (lt : A -> A -> bool) (low high : option A) (value : A) : Prop :=
  (forall l, low = Some l -> lt value l = false) /\ (forall h, high = Some h -> lt h value = false).

(** A value a field allows. *)
Definition FieldAllows (f : ElicitationField) (value : json) : Prop :=
  match type_ f, value with
  | FString, JStr s =>
      within Z.ltb (minLength (bounds f)) (maxLength (bounds f)) (Z.of_nat (length (characters s)))
      /\ (f_options f = [] \/ value ∈ f_options f)
  | FNumber, JNum n =>
      within numberLt (minimum (bounds f)) (maximum (bounds f)) n /\ (f_options f = [] \/ value ∈ f_options f)
  | FInteger, JNum (NInt z) =>
      safe z /\ within numberLt (minimum (bounds f)) (maximum (bounds f)) (NInt z)
      /\ (f_options f = [] \/ value ∈ f_options f)
  | FBoolean, JBool _ => f_options f = [] \/ value ∈ f_options f
  | FArray, JArr items =>
      within Z.ltb (minItems (bounds f)) (maxItems (bounds f)) (Z.of_nat (length items))
      /\ (f_options f = [] \/ Forall (fun item => item ∈ f_options f /\ isPrimitive item = true) items)
  | _, _ => False
  end.

Definition AnswersFields (fields : list ElicitationField) (content : jobj) : Prop :=
  (forall key, key ∈ mkeys content -> key ∈ f_id <$> fields)
  /\ Forall (fun f => match oget (f_id f) content with
                      | Some value => FieldAllows f value
                      | None => required f = false
                      end) fields.

(** The answers a request allows. *)
Definition Allowed (request : PendingServerRequest) (a : GlobalSupervisorRequestAnswer) : Prop :=
  match a with
  | ApprovalAnswer _ => isApprovalRequest request = true
  | PermissionsAnswer _ => hasMethod request "item/permissions/requestApproval" = true
  | UserInputAnswer answers => exists qs, userInputQuestions request = Some qs /\ AnswersQuestions qs answers
  | ElicitationAnswer action content =>
      exists fields, elicitationFields request = Some fields
        /\ match action with
           | DeclineElicitation => content = None
           | AcceptElicitation =>
               if isStr (oget "mode" (rq_params request)) "url" then content = None
               else exists o, content = Some o /\ AnswersFields fields o
           end
  end.

(** The permissions a request asks for: none where it names none. *)
Definition requestedPermissions (request : PendingServerRequest) : json :=
  match oget "permissions" (rq_params request) with
  | None | Some JNull => JObj []
  | Some permissions => permissions
  end.

(** What a response says of its answer: the decision; the permissions the request
    asked for, when they are allowed, and for how long; each answer trimmed, under
    its question; the action and the content.  The one answer that is not sent is
    the one to a question named [__proto__]. *)
Definition Carries (request : PendingServerRequest) (a : GlobalSupervisorRequestAnswer) (r : RequestResult) : Prop :=
  match a, r with
  | ApprovalAnswer d, ApprovalResult d' => d' = d
  | PermissionsAnswer d, PermissionsResult permissions session =>
      match d with
      | AllowSession => permissions = requestedPermissions request /\ session = true
      | AllowTurn => permissions = requestedPermissions request /\ session = false
      | DeclinePermissions => permissions = JObj [] /\ session = false
      end
  | UserInputAnswer answers, UserInputResult responses =>
      forall id, mget id responses
        = if bool_decide (id = js "__proto__") then None
          else (fun a => [trim (answer a)]) <$> (snd <$> list_find (fun a => questionId a = id) answers)
  | ElicitationAnswer action content, ElicitationResult action' content' => action' = action /\ content' = content
  | _, _ => False
  end.

(** ** Questions *)

Lemma explicit_spec supplied answers given :
  explicitUserInputAnswers supplied answers = Some given <->
  NoDup (questionId <$> answers) /\ Forall (fun a => questionId a ∉ mkeys supplied) answers
  /\ Forall (fun a => trim (answer a) <> []) answers
  /\ given = supplied ++ ((fun a => (questionId a, trim (answer a))) <$> answers).
Proof.
  revert supplied. induction answers as [|a answers IH]; intros supplied; simpl.
  - rewrite app_nil_r. split; [intros [= ->]; split_and!; constructor|by intros (_ & _ & _ & ->)].
  - unfold mhas. destruct (bool_decide (is_Some (mget (questionId a) supplied))) eqn:Eh; simpl.
    + apply bool_decide_eq_true, mget_is_Some in Eh. split; [done|]. by intros (_ & [? _]%Forall_cons & _).
    + apply bool_decide_eq_false in Eh. rewrite mget_is_Some in Eh. case_bool_decide as Et.
      * split; [done|]. by intros (_ & _ & [? _]%Forall_cons & _).
      * rewrite IH, mset_new by (by apply mget_None). rewrite <- app_assoc. simpl.
        assert (Hk : mkeys (supplied ++ [(questionId a, trim (answer a))]) = mkeys supplied ++ [questionId a])
          by (unfold mkeys; by rewrite fmap_app).
        rewrite Hk, NoDup_cons, !Forall_cons, !Forall_forall. split.
        -- intros (Hn & Hd & Ht & ->). split_and!; try done.
           ++ intros (b & Hb & Hin)%list_elem_of_fmap. apply (Hd b Hin). rewrite <- Hb. apply elem_of_app. right. by left.
           ++ intros b Hin Hb. apply (Hd b Hin), elem_of_app. by left.
        -- intros ([Hna Hn] & [_ Hd] & [_ Ht] & ->). split_and!; try done.
           intros b Hin [Hb|Hb%list_elem_of_singleton]%elem_of_app; [by apply (Hd b)|].
           apply Hna, list_elem_of_fmap. by exists b.
Qed.

Lemma collect_spec (supplied : list (jstr * jstr)) qs responses r :
  collectResponses supplied qs responses = Some r <->
  Forall (fun q => is_Some (validatedUserInputAnswer supplied q)) qs
  /\ r = foldl (fun r q => assignProperty (q_id q) [default [] (mget (q_id q) supplied)] r) responses qs.
Proof.
  revert responses. induction qs as [|q qs IH]; intros responses; simpl.
  - split; [intros [= ->]; by split|by intros [_ ->]].
  - rewrite Forall_cons. destruct (validatedUserInputAnswer supplied q) as [v|] eqn:E; simpl.
    + assert (mget (q_id q) supplied = Some v) as ->.
      { unfold validatedUserInputAnswer in E. destruct (mget _ _); [|done]. simpl in E. by destruct (_ && _). }
      rewrite IH. simpl. naive_solver.
    + split; [done|]. by intros [[[? ?] _] _].
Qed.

Lemma mget_responses (supplied : list (jstr * jstr)) qs responses id :
  mget id (foldl (fun r q => assignProperty (q_id q) [default [] (mget (q_id q) supplied)] r) responses qs)
  = if bool_decide (id <> js "__proto__" /\ id ∈ q_id <$> qs) then Some [default [] (mget id supplied)]
    else mget id responses.
Proof.
  revert responses. induction qs as [|q qs IH]; intros responses; simpl.
  - rewrite bool_decide_false; [done|]. intros [_ H]. by apply elem_of_nil in H.
  - rewrite IH. clear IH. unfold assignProperty. case_bool_decide as E1.
    + rewrite bool_decide_true; [done|]. split; [apply E1|right; apply E1].
    + destruct (decide (id = q_id q)) as [-> |Hne].
      * case_bool_decide as E2.
        -- rewrite bool_decide_false; [done|]. by intros [? _].
        -- rewrite mget_mset_eq, bool_decide_true; [done|]. split; [done|by left].
      * rewrite (bool_decide_false (id <> js "__proto__" /\ id ∈ _)).
        -- case_bool_decide; [done|]. by rewrite mget_mset_ne.
        -- intros [H1 [H2|H2]%elem_of_cons]; [done|]. by apply E1.
Qed.

Lemma find_answer answers id :
  mget id ((fun a => (questionId a, trim (answer a))) <$> answers)
  = (fun a => trim (answer a)) <$> (snd <$> list_find (fun a => questionId a = id) answers).
Proof.
  induction answers as [|a answers IH]; [done|]. rewrite fmap_cons. cbn [mget list_find]. case_bool_decide as E.
  - by rewrite decide_True by done.
  - rewrite decide_False by congruence. rewrite IH. by destruct (list_find _ answers) as [[]|].
Qed.

Lemma validated_spec answers q :
  NoDup (questionId <$> answers) ->
  is_Some (validatedUserInputAnswer ((fun a => (questionId a, trim (answer a))) <$> answers) q) <->
  exists a, a ∈ answers /\ questionId a = q_id q /\ (allowsOther q = true \/ trim (answer a) ∈ q_options q).
Proof.
  intros Hn. unfold validatedUserInputAnswer.
  assert (Hget : forall v, mget (q_id q) ((fun a => (questionId a, trim (answer a))) <$> answers) = Some v <->
                 exists a, a ∈ answers /\ questionId a = q_id q /\ trim (answer a) = v).
  { intros v. split.
    - intros H%mget_elem. apply list_elem_of_fmap in H as (a & [= Hq ->] & Hin). by exists a.
    - intros (a & Hin & Hq & <-). apply elem_mget.
      + unfold mwf, mkeys. by rewrite <- list_fmap_compose.
      + apply list_elem_of_fmap. exists a. by rewrite Hq. }
  destruct (mget _ _) as [v|] eqn:E; simpl.
  - destruct (proj1 (Hget v) eq_refl) as (a & Hin & Hq & <-).
    assert (Huniq : forall b, b ∈ answers -> questionId b = q_id q -> trim (answer b) = trim (answer a)).
    { intros b Hb Hbq. assert (H1 := proj2 (Hget _) (ex_intro _ b (conj Hb (conj Hbq eq_refl)))).
      assert (H2 := proj2 (Hget _) (ex_intro _ a (conj Hin (conj Hq eq_refl)))). congruence. }
    destruct (allowsOther q); simpl.
    + split; [intros _; exists a; auto|intros _; by eexists].
    + case_bool_decide as Eo; simpl.
      * split; [intros _; exists a; auto|intros _; by eexists].
      * split; [by intros []|]. intros (b & Hb & Hbq & [?|Hbo]); [done|]. by rewrite (Huniq b) in Hbo.
  - split; [by intros []|]. intros (a & Hin & Hq & _).
    assert (H1 := proj2 (Hget _) (ex_intro _ a (conj Hin (conj Hq eq_refl)))). congruence.
Qed.

Lemma readQuestions_nodup qs0 l qs :
  readQuestions qs0 l = Some qs -> NoDup (q_id <$> qs0) -> NoDup (q_id <$> qs).
Proof.
  revert qs0. induction l as [|x l IH]; intros qs0; simpl; [by intros [= ->]|].
  destruct (userInputQuestion x) as [q|]; [|done]. simpl. destruct (existsb _ _) eqn:E; [done|].
  intros H Hn. apply (IH _ H). rewrite fmap_app. apply NoDup_app. split_and!; [done| |apply NoDup_singleton].
  intros id Hin ->%list_elem_of_singleton. apply list_elem_of_fmap in Hin as (q' & Hq & Hin).
  assert (existsb (fun existing => bool_decide (q_id existing = q_id q)) qs0 = true) as H'; [|congruence].
  apply existsb_elem. exists q'. split; [done|]. by apply bool_decide_eq_true.
Qed.

Lemma userInputQuestions_nodup request qs :
  userInputQuestions request = Some qs -> hasMethod request "item/tool/requestUserInput" = true /\ NoDup (q_id <$> qs).
Proof.
  unfold userInputQuestions. destruct (hasMethod _ _); [|done]. simpl. destruct (asArray _) as [l|]; [|done]. simpl.
  destruct (readQuestions [] l) as [qs'|] eqn:E; [|done]. simpl. case_bool_decide; [done|]. intros [= ->].
  split; [done|]. eapply readQuestions_nodup; [exact E|constructor].
Qed.

(** As many distinct ids as questions, all of questions: a permutation. *)
Lemma distinct_answers qs (answers : list GivenAnswer) :
  length answers = length qs -> NoDup (questionId <$> answers) -> NoDup (q_id <$> qs) ->
  (forall q, q ∈ qs -> exists a, a ∈ answers /\ questionId a = q_id q) ->
  (questionId <$> answers) ≡ₚ (q_id <$> qs).
Proof.
  intros Hl Ha Hq Hall. symmetry. apply submseteq_length_Permutation.
  - apply NoDup_submseteq; [done|]. intros id (q & -> & Hin)%list_elem_of_fmap.
    destruct (Hall q Hin) as (a & Hin' & <-). apply list_elem_of_fmap. by exists a.
  - rewrite !length_fmap. lia.
Qed.

(** The answers by question, trimmed. *)
Abbreviation supplies answers := ((fun a => (questionId a, trim (answer a))) <$> answers).

Lemma answers_supplied answers given :
  explicitUserInputAnswers [] answers = Some given <->
  NoDup (questionId <$> answers) /\ Forall (fun a => trim (answer a) <> []) answers /\ given = supplies answers.
Proof.
  rewrite explicit_spec, app_nil_l. split; [by intros (? & _ & ? & ?)|]. intros (? & ? & ->). split_and!; try done.
  apply Forall_forall. intros a _ Hin. by apply elem_of_nil in Hin.
Qed.

(** The answers to all questions, once each question has a valid one. *)
Lemma validated_all qs answers :
  NoDup (questionId <$> answers) -> NoDup (q_id <$> qs) -> length answers = length qs ->
  Forall (fun a => trim (answer a) <> []) answers ->
  Forall (fun q => is_Some (validatedUserInputAnswer (supplies answers) q)) qs <-> AnswersQuestions qs answers.
Proof.
  intros Hn Hq Hl Ht. rewrite Forall_forall. split.
  - intros Hv. assert (Hv' := fun q Hin => proj1 (validated_spec answers q Hn) (Hv q Hin)). split_and!; [|done|].
    + apply distinct_answers; try done. intros q Hin. destruct (Hv' q Hin) as (a & ? & ? & _). eauto.
    + intros q a Hin Ha Hqa. destruct (Hv' q Hin) as (b & Hb & Hbq & Hor).
      assert (a = b) as ->; [|done]. apply list_elem_of_lookup in Ha as [i Hi], Hb as [j Hj].
      assert (i = j) as ->; [|congruence]. apply (NoDup_lookup (questionId <$> answers) i j (questionId a)); [done|..].
      * by rewrite list_lookup_fmap, Hi.
      * rewrite list_lookup_fmap, Hj. simpl. congruence.
  - intros (Hp & _ & Ho) q Hin. apply validated_spec; [done|].
    assert (Hid : q_id q ∈ questionId <$> answers) by (rewrite Hp; apply list_elem_of_fmap; eauto).
    apply list_elem_of_fmap in Hid as (a & Hqa & Ha). exists a. split_and!; [done..|]. by apply (Ho q a).
Qed.

Definition responsesOf (qs : list UserInputQuestion) (answers : list GivenAnswer) : list (jstr * list jstr) :=
  foldl (fun r q => assignProperty (q_id q) [default [] (mget (q_id q) (supplies answers))] r) [] qs.

Lemma answers_length qs (answers : list GivenAnswer) : AnswersQuestions qs answers -> length answers = length qs.
Proof. intros [Hp _]. apply Permutation_length in Hp. by rewrite !length_fmap in Hp. Qed.

Lemma userInput_exact request answers r :
  userInputResult request answers = Some r <->
  exists qs, userInputQuestions request = Some qs /\ AnswersQuestions qs answers
             /\ r = UserInputResult (responsesOf qs answers).
Proof.
  unfold userInputResult. destruct (userInputQuestions request) as [qs|] eqn:Eq; simpl; [|naive_solver].
  apply userInputQuestions_nodup in Eq as [_ Hq]. case_bool_decide as El; simpl.
  2: { split; [done|]. by intros (? & [= <-] & Ha%answers_length & _). }
  destruct (explicitUserInputAnswers [] answers) as [given|] eqn:Eg; simpl.
  - apply answers_supplied in Eg as (Hn & Ht & ->). pose proof (validated_all qs answers Hn Hq El Ht) as Hv.
    destruct (collectResponses _ qs []) as [resp|] eqn:Ec; simpl.
    + apply collect_spec in Ec as [Hc ->]. split.
      * intros [= <-]. exists qs. split_and!; [done|by apply Hv|done].
      * by intros (? & [= <-] & _ & ->).
    + split; [done|]. intros (? & [= <-] & Ha & _). apply Hv in Ha.
      assert (Hc := proj2 (collect_spec _ _ [] _) (conj Ha eq_refl)). congruence.
  - split; [done|]. intros (? & [= <-] & (Hp & Ht & _) & _).
    assert (Hn : NoDup (questionId <$> answers)) by by rewrite Hp.
    assert (Hc := proj2 (answers_supplied answers _) (conj Hn (conj Ht eq_refl))). congruence.
Qed.

(** ** Fields *)

Lemma below_spec {A} (lt : A -> A -> bool) v limit : below lt v limit = false <-> forall l, limit = Some l -> lt v l = false.
Proof. destruct limit; simpl; naive_solver. Qed.
Lemma above_spec {A} (lt : A -> A -> bool) v limit : above lt v limit = false <-> forall l, limit = Some l -> lt l v = false.
Proof. destruct limit; simpl; naive_solver. Qed.

Lemma within_spec {A} (lt : A -> A -> bool) low high v :
  below lt v low || above lt v high = false <-> within lt low high v.
Proof. rewrite orb_false_iff, below_spec, above_spec. done. Qed.

Lemma objectIs_spec a b : objectIs a b = true <-> a = b /\ isPrimitive b = true.
Proof. destruct a; simpl; rewrite ?bool_decide_eq_true; naive_solver. Qed.

Lemma matches_item f v :
  existsb (fun option => objectIs option v) (f_options f) = true <-> v ∈ f_options f /\ isPrimitive v = true.
Proof.
  rewrite existsb_elem. setoid_rewrite objectIs_spec. naive_solver.
Qed.

Lemma matches_spec f v :
  matchesElicitationOptions f v = true <->
  f_options f = [] \/ match v with
                      | JArr items => Forall (fun item => item ∈ f_options f /\ isPrimitive item = true) items
                      | _ => v ∈ f_options f /\ isPrimitive v = true
                      end.
Proof.
  unfold matchesElicitationOptions. case_bool_decide as E.
  - apply length_zero_iff_nil in E. naive_solver.
  - assert (Hne : f_options f <> []) by (by intros H; rewrite H in E).
    destruct v as [|b|n|s|items|o]; rewrite ?matches_item; try naive_solver.
    rewrite forallb_forall. setoid_rewrite matches_item. rewrite Forall_forall. setoid_rewrite list_elem_of_In. naive_solver.
Qed.

Lemma field_exact content f :
  validateElicitationField content f = true <->
  match oget (f_id f) content with Some value => FieldAllows f value | None => required f = false end.
Proof.
  unfold validateElicitationField. destruct (oget (f_id f) content) as [v|]; [|apply negb_true_iff].
  rewrite !andb_true_iff, negb_true_iff, matches_spec. unfold FieldAllows, violatesNumericBounds, violatesLengthBounds.
  destruct (type_ f), v as [|b|[z|t]|s|items|o]; simpl; rewrite ?orb_false_r, ?within_spec; try tauto.
  all: try (split; [by intros [[? ?] ?]|done]).
  rewrite bool_decide_eq_true.
  assert (is_Some (if Z.abs z <=? max_safe_integer then Some z else None) <-> safe z) as ->; [|tauto].
  unfold safe. destruct (Z.leb_spec (Z.abs z) max_safe_integer); (split; [by intros []|]); [by eexists|lia].
Qed.

Lemma content_exact fields content o :
  validatedElicitationContent fields content = Some o <-> AnswersFields fields content /\ o = content.
Proof.
  unfold validatedElicitationContent, AnswersFields.
  assert (Hkeys : existsb (fun key => negb (bool_decide (key ∈ f_id <$> fields))) (mkeys content) = false <->
                  forall key, key ∈ mkeys content -> key ∈ f_id <$> fields).
  { rewrite <- not_true_iff_false, existsb_elem. setoid_rewrite negb_true_iff. setoid_rewrite bool_decide_eq_false.
    split; [|naive_solver]. intros H key Hin. destruct (decide (key ∈ f_id <$> fields)); [done|]. exfalso. eauto. }
  assert (Hall : forallb (validateElicitationField content) fields = true <->
    Forall (fun f => match oget (f_id f) content with Some value => FieldAllows f value | None => required f = false end) fields).
  { rewrite forallb_forall, Forall_forall. setoid_rewrite field_exact. by setoid_rewrite list_elem_of_In. }
  destruct (existsb _ _).
  - split; [done|]. intros [[H _] _]. by apply Hkeys in H.
  - destruct (forallb _ _).
    + split; [intros [= <-]; split_and!; [by apply Hkeys|by apply Hall|done]|by intros [_ ->]].
    + split; [done|]. intros [[_ H] _]. by apply Hall in H.
Qed.

Lemma elicitationFields_method request fields :
  elicitationFields request = Some fields -> hasMethod request "mcpServer/elicitation/request" = true.
Proof. unfold elicitationFields. by destruct (hasMethod _ _). Qed.

Lemma elicitation_exact request action content r :
  elicitationResult request action content = Some r <->
  Allowed request (ElicitationAnswer action content) /\ r = ElicitationResult action content.
Proof.
  unfold elicitationResult. simpl. destruct (elicitationFields request) as [fields|]; simpl; [|naive_solver].
  destruct action, content as [o|]; simpl.
  - destruct (isStr _ "url"); simpl; [naive_solver|]. destruct (validatedElicitationContent fields o) as [o'|] eqn:E; simpl.
    + apply content_exact in E as [E ->]. naive_solver.
    + split; [done|]. intros [(? & [= <-] & ? & [= <-] & H) _].
      by rewrite (proj2 (content_exact fields o o) (conj H eq_refl)) in E.
  - destruct (isStr _ "url"); naive_solver.
  - naive_solver.
  - naive_solver.
Qed.

(** ** The response *)

Lemma find_permuted qs answers id :
  AnswersQuestions qs answers -> NoDup (q_id <$> qs) ->
  mget id (responsesOf qs answers)
  = if bool_decide (id = js "__proto__") then None
    else (fun a => [trim (answer a)]) <$> (snd <$> list_find (fun a => questionId a = id) answers).
Proof.
  intros (Hp & Ht & Ho) Hq. unfold responsesOf. rewrite mget_responses, find_answer. simpl.
  case_bool_decide as E.
  - rewrite bool_decide_false by tauto. destruct E as [_ E]. rewrite <- Hp in E.
    apply list_elem_of_fmap in E as (a & -> & Ha).
    destruct (list_find_elem_of (fun b => questionId b = questionId a) answers a Ha eq_refl) as [[i b] ->]. done.
  - case_bool_decide; [done|]. destruct (list_find _ answers) as [[i a]|] eqn:Ef; [|done]. exfalso.
    apply list_find_Some in Ef as (Ha & Hid & _). apply E. split; [done|]. rewrite <- Hp.
    apply list_elem_of_fmap. exists a. split; [done|]. by eapply list_elem_of_lookup_2.
Qed.

(** C34. A typed answer becomes a response exactly when the pending request allows
    it: the decision of its kind, one answer to each question among its options,
    or content whose every field is declared, typed, bounded and listed; and the
    response says what was answered: the decision, exactly the permissions the
    request asked for when they are allowed and none when they are declined, the
    trimmed answer under each question, or the content.  One accepted answer is
    not sent, the one to a question named [__proto__]: [prototype_answer_lost]. *)
Theorem response_exact request a :
  (is_Some (globalSupervisorPendingRequestResult request a) <-> Allowed request a)
  /\ forall r, globalSupervisorPendingRequestResult request a = Some r -> Carries request a r.
Proof.
  unfold globalSupervisorPendingRequestResult, approvalResult, permissionsResult.
  destruct a as [d|d|answers|action content]; simpl.
  - destruct (isApprovalRequest request); simpl.
    + split; [split; [done|by eexists]|by intros r [= <-]].
    + destruct (hasMethod request _); simpl; (split; [split; [by intros []|done]|done]).
  - destruct (isApprovalRequest request); simpl; (destruct (hasMethod request _); simpl;
      [|split; [split; [by intros []|done]|done]]);
      (split; [split; [done|by eexists]|]); intros r [= <-]; destruct d; simpl; (split; [|done]); try done;
      unfold requestedPermissions, coalesce; by destruct (oget "permissions" _) as [[]|].
  - assert (Hnone : forall b : bool, (if b then None else None) = @None RequestResult) by by intros [].
    rewrite !Hnone.
    assert (Hres : forall r, (if hasMethod request "item/tool/requestUserInput" then userInputResult request answers else None) = Some r
                     <-> userInputResult request answers = Some r).
    { intros r. destruct (hasMethod request "item/tool/requestUserInput") eqn:E; [done|]. split; [done|].
      intros (qs & [Hm _]%userInputQuestions_nodup & _)%userInput_exact. congruence. }
    split.
    + split.
      * intros [r Hr%Hres]. apply userInput_exact in Hr as (qs & ? & ? & _). by exists qs.
      * intros (qs & Hq & Ha). eexists. apply Hres, userInput_exact. by exists qs.
    + intros r Hr%Hres. apply userInput_exact in Hr as (qs & Hq & Ha & ->). simpl. intros id.
      apply find_permuted; [done|]. by apply userInputQuestions_nodup in Hq as [_ ?].
  - assert (Hnone : forall b : bool, (if b then None else None) = @None RequestResult) by by intros [].
    rewrite !Hnone.
    assert (Hres : forall r, (if hasMethod request "mcpServer/elicitation/request" then elicitationResult request action content else None) = Some r
                     <-> elicitationResult request action content = Some r).
    { intros r. destruct (hasMethod request "mcpServer/elicitation/request") eqn:E; [done|]. split; [done|].
      intros [(fs & Hm%elicitationFields_method & _) _]%elicitation_exact. congruence. }
    split.
    + split.
      * intros [r Hr%Hres]. by apply elicitation_exact in Hr as [? _].
      * intros H. eexists. apply Hres, elicitation_exact. by split.
    + intros r Hr%Hres. by apply elicitation_exact in Hr as [_ ->].
Qed.

(** ** What is offered *)

(** A contract the request keeps: every answer it offers is accepted. *)
Definition Kept (request : PendingServerRequest) (contract : ResponseContract) : Prop :=
  let accepted a := is_Some (globalSupervisorPendingRequestResult request a) in
  match contract with
  | ApprovalContract decisions => forall d, d ∈ decisions -> accepted (ApprovalAnswer d)
  | PermissionsContract decisions => forall d, d ∈ decisions -> accepted (PermissionsAnswer d)
  | UserInputContract shown =>
      exists qs, userInputQuestions request = Some qs /\ shown = take REQUEST_QUESTION_MAX_ENTRIES qs
        /\ forall answers, AnswersQuestions shown answers ->
             accepted (UserInputAnswer answers) <-> (length qs <= REQUEST_QUESTION_MAX_ENTRIES)%nat
  | ElicitationContract actions _ =>
      accepted (ElicitationAnswer DeclineElicitation None)
      /\ (isStr (oget "mode" (rq_params request)) "url" = true ->
          accepted (ElicitationAnswer AcceptElicitation None))
  end.

(** The contracts a projection may show, by the method of the request. *)
Lemma projected_cases request p :
  projectGlobalSupervisorPendingRequest request = Some (Some p) ->
  (isApprovalRequest request = true /\ response p = ApprovalContract [Accept; AcceptForSession; Decline])
  \/ (isApprovalRequest request = false /\ hasMethod request "item/permissions/requestApproval" = true
      /\ response p = PermissionsContract [AllowTurn; AllowSession; DeclinePermissions])
  \/ (exists qs, userInputQuestions request = Some qs
      /\ response p = UserInputContract (take REQUEST_QUESTION_MAX_ENTRIES qs))
  \/ (exists fields actions, elicitationFields request = Some fields
      /\ response p = ElicitationContract actions (shownField <$> take REQUEST_FIELD_MAX_ENTRIES fields)).
Proof.
  unfold projectGlobalSupervisorPendingRequest. destruct (globalSupervisorPendingRequestEventId request) as [e|]; [|done].
  simpl. destruct (isApprovalRequest request); [intros [= <-]; by left|].
  destruct (hasMethod request "item/permissions/requestApproval"); [intros [= <-]; right; by left|].
  destruct (userInputQuestions request) as [qs|]; [intros [= <-]; right; right; left; by exists qs|].
  destruct (elicitationFields request) as [fields|]; [|done]. intros [= <-]. do 3 right. by eexists _, _.
Qed.

Lemma questions_answered request answers :
  hasMethod request "item/tool/requestUserInput" = true ->
  globalSupervisorPendingRequestResult request (UserInputAnswer answers) = userInputResult request answers.
Proof.
  intros Hm. unfold globalSupervisorPendingRequestResult, approvalResult, permissionsResult. rewrite Hm.
  by destruct (negb (isApprovalRequest request)), (negb (hasMethod request _)).
Qed.

Lemma fields_answered request action content :
  hasMethod request "mcpServer/elicitation/request" = true ->
  globalSupervisorPendingRequestResult request (ElicitationAnswer action content) = elicitationResult request action content.
Proof.
  intros Hm. unfold globalSupervisorPendingRequestResult, approvalResult, permissionsResult. rewrite Hm.
  by destruct (negb (isApprovalRequest request)), (negb (hasMethod request _)).
Qed.

(** What is shown of a pending request can be answered as shown: every decision
    offered is accepted, an elicitation can be declined and a visited address
    confirmed, and answers to the shown questions are accepted exactly when no
    question was left out. *)
Theorem offered_is_accepted request p :
  projectGlobalSupervisorPendingRequest request = Some (Some p) -> Kept request (response p).
Proof.
  intros [[Hm ->]|[(Ha & Hm & ->)|[(qs & Hq & ->)|(fields & actions & Hf & ->)]]]%projected_cases; simpl.
  - intros d _. unfold globalSupervisorPendingRequestResult, approvalResult. rewrite Hm. by eexists.
  - intros d _. unfold globalSupervisorPendingRequestResult, approvalResult, permissionsResult. rewrite Ha, Hm. by eexists.
  - exists qs. split_and!; [done..|]. intros answers Hans. destruct (userInputQuestions_nodup _ _ Hq) as [Hm _].
    rewrite (questions_answered request answers Hm). split.
    + intros [r (qs' & Hq' & Hl%answers_length & _)%userInput_exact]. rewrite Hq in Hq'. injection Hq' as <-.
      apply answers_length in Hans. rewrite length_take in Hans. lia.
    + intros Hle. rewrite take_ge in Hans by done. eexists. apply userInput_exact. by exists qs.
  - pose proof (elicitationFields_method _ _ Hf) as Hm. rewrite !(fields_answered request) by done. split.
    + eexists. apply elicitation_exact. split; [|done]. by exists fields.
    + intros Hu. eexists. apply elicitation_exact. split; [|done]. exists fields. split; [done|]. by rewrite Hu.
Qed.

(** ** Executions *)

Definition demo_question (id : string) (options : list string) : json :=
  JObj [("id", JStr (js id)); ("question", JStr (js "Which?"));
        ("options", JArr ((fun label => JObj [("label", JStr (js label))]) <$> options))].

Definition demo_request (questions : list json) : PendingServerRequest :=
  {| rq_connectionId := js "box"; rq_method := js "item/tool/requestUserInput";
     rq_params := [("threadId", JStr (js "w")); ("questions", JArr questions)]; rq_requestId := JNum (NInt 7) |}.

Lemma offered_is_accepted_witness :
  match projectGlobalSupervisorPendingRequest (demo_request [demo_question "q" ["yes"; "no"]]) with
  | Some (Some p) => Kept (demo_request [demo_question "q" ["yes"; "no"]]) (response p)
  | _ => False
  end.
Proof.
  destruct (projectGlobalSupervisorPendingRequest (demo_request [demo_question "q" ["yes"; "no"]])) as [[p|]|] eqn:E.
  - exact (offered_is_accepted (demo_request [demo_question "q" ["yes"; "no"]]) p E).
  - exfalso. revert E. vm_compute. discriminate.
  - exfalso. revert E. vm_compute. discriminate.
Defined.

Definition given (id text : string) : GivenAnswer := {| answer := js text; questionId := js id |}.

Example answered :
  globalSupervisorPendingRequestResult (demo_request [demo_question "a" ["yes"; "no"]; demo_question "b" []])
    (UserInputAnswer [given "b" " later "; given "a" "yes"])
  = Some (UserInputResult [(js "a", [js "yes"]); (js "b", [js "later"])]).
Proof. vm_compute. reflexivity. Qed.

(** An option with white space around it is offered, and choosing it as it is
    shown is refused: the answer is trimmed before it is compared. *)
Lemma padded_option_refused :
  (exists q, userInputQuestions (demo_request [demo_question "a" ["yes "]]) = Some [q] /\ q_options q = [js "yes "])
  /\ globalSupervisorPendingRequestResult (demo_request [demo_question "a" ["yes "]])
       (UserInputAnswer [given "a" "yes "]) = None.
Proof. split; [eexists; split; vm_compute; reflexivity|vm_compute; reflexivity]. Qed.

(** The answer to a question named [__proto__] is accepted and not sent. *)
Lemma prototype_answer_lost :
  globalSupervisorPendingRequestResult (demo_request [demo_question "__proto__" ["yes"]])
    (UserInputAnswer [given "__proto__" "yes"]) = Some (UserInputResult []).
Proof. vm_compute. reflexivity. Qed.

(** A ninth question is not shown, and without its answer none is accepted. *)
Lemma ninth_question_hidden :
  let request := demo_request ((fun n => demo_question (pretty n) ["yes"]) <$> seqZ 1 9) in
  let shown := (fun n => given (pretty n) "yes") <$> seqZ 1 8 in
  match projectGlobalSupervisorPendingRequest request with
  | Some (Some p) => match response p with UserInputContract qs => q_id <$> qs = questionId <$> shown | _ => False end
  | _ => False
  end
  /\ globalSupervisorPendingRequestResult request (UserInputAnswer shown) = None.
Proof. split; vm_compute; reflexivity. Qed.
