(* ===== verification/CursorSync.v ===== *)
(** * Cursor synchronisation of one thread

    Models apps/android/src/data/thread-cursor-sync.ts (and the witness check of
    thread-history-source-witness.ts): reading the companion's sync response,
    merging it into the cached thread, the cursor a client may claim, and the
    lane that coalesces concurrent synchronisations of a thread. *)
From S2P Require Import Prelude JsMap Json ThreadItems Readers EventIndex ThreadEvents ThreadLaws.
Import Activity CommandOutput.

Local Open Scope nat_scope.

(** ** Reading the response *)

Inductive HistoryKind := HistoryCurrent | HistoryDelta | HistoryReset.

#[export] Instance history_kind_eq_dec : EqDecision HistoryKind.
Proof. solve_decision. Defined.

Record ThreadSyncHistory :=
  { hasMore : bool; headTurnId : option jstr; hkind : HistoryKind;
    olderCursor : option jstr; sourceWitness : option jstr; hturns : list json }.

Record ThreadSyncResponse :=
  { activeTurn : option json; history : ThreadSyncHistory; sync_thread : json;
    throughCursor : Z; sync_settings : option SeedSettings; readModelVersion : Z }.

Definition isTurn (value : json) : bool :=
  match value with
  | JObj turn =>
      bool_decide (is_Some (asString (oget "id" turn)))
      && bool_decide (is_Some (asString (oget "status" turn)))
      && bool_decide (is_Some (asArray (oget "items" turn)))
  | _ => false
  end.

Definition isThread (value : json) : bool :=
  match value with
  | JObj thread =>
      bool_decide (is_Some (asString (oget "id" thread)))
      && bool_decide (is_Some (asString (oget "cwd" thread)))
      && from_option (forallb isTurn) false (asArray (oget "turns" thread))
      && bool_decide (is_Some (asObject (oget "status" thread)))
  | _ => false
  end.

Definition isMetadataOnlyTurnEnvelope (value : json) : bool :=
  match value with
  | JObj turn =>
      bool_decide (is_Some (asString (oget "id" turn)))
      && bool_decide (is_Some (asString (oget "status" turn)))
      && bool_decide (oget "items" turn = None)
  | _ => false
  end.

Definition isContentBackedMetadataOnlyTurnEnvelope (value : json) : bool :=
  isMetadataOnlyTurnEnvelope value &&
  match content ← asObject (field "codewideContent" value);
        whole ← asObject (oget "whole" content);
        Some (content, whole) with
  | Some (content, whole) =>
      isInt (oget "version" content) 1
      && bool_decide (is_Some (asObject (oget "fields" content)))
      && bool_decide (is_Some (asString (oget "id" whole)))
      && bool_decide (is_Some (asSafeNat (oget "byteLength" whole)))
      && bool_decide (is_Some (asString (oget "contentType" whole)))
  | None => false
  end.

(** [{ ...turn, items: [], itemsView: "notLoaded" }]. *)
Definition notLoadedTurn (turn : json) : json :=
  setField "itemsView" (JStr (js "notLoaded")) (setItems [] turn).

(** [None] where the source returns [undefined]. *)
Definition parseActiveTurn (value : option json) : option (option json) :=
  match value with
  | Some JNull => Some None
  | Some turn =>
      if isTurn turn then Some (Some turn)
      else if isContentBackedMetadataOnlyTurnEnvelope turn then Some (Some (notLoadedTurn turn))
      else None
  | None => None
  end.

Definition parseHistoryTurn (turn : json) : option json :=
  if isTurn turn then Some turn
  else if isMetadataOnlyTurnEnvelope turn then Some (notLoadedTurn turn)
  else None.

Definition parseHistoryTurns (value : option json) : option (list json) :=
  turns ← asArray value; mapM parseHistoryTurn turns.

Definition MAX_SOURCE_WITNESS_LENGTH : nat := 4096 + length (js "codewide-history-source-v1:").

Definition isThreadHistorySourceWitness (value : jstr) : bool :=
  (0 <? length value) && (length value <=? MAX_SOURCE_WITNESS_LENGTH).

(** A field that is null or a string; [None] for anything else. *)
Definition nullableString (value : option json) : option (option jstr) :=
  match value with
  | Some JNull => Some None
  | Some (JStr s) => Some (Some s)
  | _ => None
  end.

Definition readWitness (value : option json) : option (option jstr) :=
  match value with
  | None => Some None
  | Some (JStr s) => if isThreadHistorySourceWitness s then Some (Some s) else None
  | Some _ => None
  end.

Definition requireThreadExecutionSettingsString (settings : jobj) (name : string) : option jstr :=
  value ← asString (oget name settings); if bool_decide (value = []) then None else Some value.

Definition readThreadExecutionSettingsLabel (settings : jobj) : option (option jstr) :=
  match oget "modelLabel" settings with
  | None | Some JNull => Some None
  | Some (JStr s) => if bool_decide (s = []) then None else Some (Some s)
  | Some _ => None
  end.

(** The settings, [Some None] for an explicit null, [None] for the thrown error. *)
Definition parseThreadExecutionSettings (value : option json) : option (option SeedSettings) :=
  match value with
  | Some JNull => Some None
  | _ =>
      settings ← asObject value;
      approvalPolicy ← requireThreadExecutionSettingsString settings "approvalPolicy";
      effort ← nullableString (oget "effort" settings);
      model ← requireThreadExecutionSettingsString settings "model";
      modelLabel ← readThreadExecutionSettingsLabel settings;
      permissions ← nullableString (oget "permissions" settings);
      sandboxPolicy ← requireThreadExecutionSettingsString settings "sandboxPolicy";
      serviceTier ← nullableString (oget "serviceTier" settings);
      Some (Some {| seed_model := model; seed_modelLabel := modelLabel; seed_effort := effort;
                    seed_serviceTier := serviceTier; seed_permissions := permissions;
                    seed_approvalPolicy := Some approvalPolicy;
                    seed_sandboxPolicy := Some sandboxPolicy |})
  end.

Definition readKind (value : option json) : option HistoryKind :=
  if isStr value "current" then Some HistoryCurrent
  else if isStr value "delta" then Some HistoryDelta
  else if isStr value "reset" then Some HistoryReset
  else None.

Definition HISTORY_READ_MODEL_VERSION : Z := 3.
Definition EXECUTION_SETTINGS_READ_MODEL_VERSION : Z := 4.

Definition readVersion (value : option json) : option Z :=
  if isInt value HISTORY_READ_MODEL_VERSION then Some HISTORY_READ_MODEL_VERSION
  else if isInt value EXECUTION_SETTINGS_READ_MODEL_VERSION
  then Some EXECUTION_SETTINGS_READ_MODEL_VERSION else None.

(** The response, or [None] where the source throws. *)
Definition parseThreadSyncResponse (value : option json) : option ThreadSyncResponse :=
  response ← asObject value;
  history ← asObject (oget "history" response);
  thread ← oget "thread" response;
  turns ← parseHistoryTurns (oget "turns" history);
  activeTurn ← parseActiveTurn (oget "activeTurn" response);
  version ← readVersion (oget "readModelVersion" response);
  throughCursor ← asSafeNat (oget "throughCursor" response);
  kind ← readKind (oget "kind" history);
  hasMore ← asBool (oget "hasMore" history);
  headTurnId ← nullableString (oget "headTurnId" history);
  olderCursor ← nullableString (oget "olderCursor" history);
  sourceWitness ← readWitness (oget "sourceWitness" history);
  if negb (isThread thread) then None
  else
    settings ← (if (version =? HISTORY_READ_MODEL_VERSION)%Z then Some None
                else parseThreadExecutionSettings (oget "executionSettings" response));
    Some {| activeTurn := activeTurn;
            history := {| hasMore := hasMore; headTurnId := headTurnId; hkind := kind;
                          olderCursor := olderCursor; sourceWitness := sourceWitness;
                          hturns := turns |};
            sync_thread := thread; throughCursor := throughCursor;
            sync_settings := settings; readModelVersion := version |}.

(** ** Materialising *)

Definition inProgress (turn : json) : bool := isStr (field "status" turn) "inProgress".

(** [{ ...a, ...b }] of two objects. *)
Definition spread (a b : json) : json :=
  match a, b with JObj x, JObj y => JObj (ospread x y) | _, _ => b end.

Definition mergedMetadata (previous checkpoint : json) : option json :=
  match projectedTurnMetadata previous, projectedTurnMetadata checkpoint with
  | None, None => None
  | p, c => Some (spread (default (JObj []) p) (default (JObj []) c))
  end.

Definition mergeActiveTurnCheckpoint (cached : option json) (checkpoint : option json)
    : option json :=
  match checkpoint with
  | None => None
  | Some checkpoint =>
      let previous :=
        i ← findIndex (fun turn => sameField "id" turn checkpoint && inProgress turn)
              (from_option turnsOf [] cached);
        from_option turnsOf [] cached !! i in
      match previous with
      | None => Some checkpoint
      | Some previous =>
          if isStr (field "itemsView" previous) "notLoaded" then Some checkpoint
          else
            let items := reconcileActiveTurnItems (itemsOf previous) (itemsOf checkpoint) in
            let turn := spread previous checkpoint in
            let turn := match mergedMetadata previous checkpoint with
                        | Some codewide => setField "codewide" codewide turn
                        | None => turn
                        end in
            Some (copyField "itemsView"
                    (if isStr (field "itemsView" previous) "full"
                        || isStr (field "itemsView" checkpoint) "notLoaded"
                     then field "itemsView" previous else field "itemsView" checkpoint)
                    (setItems items turn))
      end
  end.

Definition isReset (response : ThreadSyncResponse) : bool :=
  bool_decide (hkind (history response) = HistoryReset).

Definition sealedTurns (cached : option json) (response : ThreadSyncResponse) : list json :=
  if isReset response then []
  else filter (fun turn => inProgress turn = false) (from_option turnsOf [] cached).

(** [byId.set(turn.id, turn)] for a turn with a string id, which [isTurn] checks. *)
Definition setById (byId : list (jstr * json)) (turn : json) : list (jstr * json) :=
  match asString (field "id" turn) with
  | Some id => mset id turn byId
  | None => byId
  end.

Definition mergedTurns (cached : option json) (response : ThreadSyncResponse) : list json :=
  let byId := foldl setById [] (sealedTurns cached response ++ hturns (history response)) in
  mvals byId
  ++ option_list (mergeActiveTurnCheckpoint (if isReset response then None else cached)
                    (activeTurn response)).

Section sync.
Context `{EventLookup}.

Definition materializeThreadSync (cached : option json) (response : ThreadSyncResponse)
    (currentHistoryCursor : option (option jstr)) : json * option (option jstr) :=
  let thread := setTurns (mergedTurns cached response) (sync_thread response) in
  (match sync_settings response with
   | Some settings => seedThreadExecutionSettings settings thread
   | None => thread
   end,
   if isReset response then Some (olderCursor (history response)) else currentHistoryCursor).

(** One catch-up over several pages. *)
Record ThreadSyncCatchUp :=
  { cu_thread : option json; cu_historyCursor : option (option jstr); cu_reset : bool;
    cu_sourceWitness : option jstr }.

Definition accept (st : ThreadSyncCatchUp) (response : ThreadSyncResponse) : ThreadSyncCatchUp :=
  let next := materializeThreadSync (cu_thread st) response (cu_historyCursor st) in
  {| cu_thread := Some next.1; cu_historyCursor := next.2;
     cu_reset := cu_reset st || isReset response;
     cu_sourceWitness := sourceWitness (history response) |}.

(** The active agent text kept outside the response; [read] may fail. *)
Definition projectedContentField (value : json) (pointer : string)
    : option CommandOutputReference :=
  content ← asObject (field "codewideContent" value);
  fields ← asObject (oget "fields" content);
  reference ← asObject (oget pointer fields);
  id ← asString (oget "id" reference);
  if negb (isDigest id) then None
  else
    byteLength ← asSafeNat (oget "byteLength" reference);
    contentType ← asString (oget "contentType" reference);
    Some {| ref_id := id; byteLength := byteLength; contentType := contentType |}.

Definition hydrateItem (read : CommandOutputReference -> option jstr) (item : json) : option json :=
  if negb (isType "agentMessage" item) then Some item
  else
    match projectedContentField item "/text" with
    | None => Some item
    | Some reference =>
        text ← read reference;
        Some (if bool_decide (field "text" item = Some (JStr text)) then item
              else setField "text" (JStr text) item)
    end.

Definition hydrateThreadSyncActiveText (read : CommandOutputReference -> option jstr)
    (response : ThreadSyncResponse) : option ThreadSyncResponse :=
  match activeTurn response with
  | None => Some response
  | Some turn =>
      items ← mapM (hydrateItem read) (itemsOf turn);
      Some {| activeTurn := Some (if bool_decide (items = itemsOf turn) then turn
                                  else setItems items turn);
              history := history response; sync_thread := sync_thread response;
              throughCursor := throughCursor response; sync_settings := sync_settings response;
              readModelVersion := readModelVersion response |}
  end.

(** ** The cursor a client may claim *)

(** [false] where the source throws. *)
Definition assertThreadSyncReachedHead (response : ThreadSyncResponse)
    (requestedAfterTurnId : option jstr) : bool :=
  if hasMore (history response) then true
  else
    let lastTurnId := last (hturns (history response)) ≫= fun turn => asString (field "id" turn) in
    let reached :=
      if isReset response then lastTurnId
      else match lastTurnId with Some id => Some id | None => requestedAfterTurnId end in
    bool_decide (reached = headTurnId (history response)).

Definition isStableThreadCursorTurn (turn : json) : bool :=
  if inProgress turn then false
  else if negb (isStr (field "status" turn) "completed") then true
  else
    existsb (fun item => isType "agentMessage" item && isStr (field "phase" item) "final_answer"
                         && bool_decide (trim (strField "text" item) <> [])) (itemsOf turn).

(** The loop from the last turn down. *)
Definition latestSealedTurnId (turns : list json) : option jstr :=
  i ← findIndex isStableThreadCursorTurn (reverse turns);
  turn ← reverse turns !! i;
  asString (field "id" turn).
End sync.

(** ** The lane

    Operations are numbered in the order they start; a follow-up is named by the
    operation it waits for.  [follow] records what a follow-up resolved to. *)
Module Lane.

Record LaneState := { ls_op : nat; ls_followUp : bool }.

Inductive Freshness := InFlight | AfterCurrent.

Inductive Promised := Operation (op : nat) | FollowUp (op : nat).

Record Lane :=
  { states : list (jstr * LaneState);
    started : nat;
    keyOf : list (nat * jstr);
    unsettled : list nat;
    (** follow-ups whose [startNext] is queued, and what each became *)
    queued : list nat;
    follow : list (nat * Promised) }.

Definition idle : Lane :=
  {| states := []; started := 0; keyOf := []; unsettled := []; queued := []; follow := [] |}.

Definition startOperation (key : jstr) (lane : Lane) : Lane * Promised :=
  ({| states := mset key {| ls_op := started lane; ls_followUp := false |} (states lane);
      started := S (started lane);
      keyOf := mset (started lane) key (keyOf lane);
      unsettled := unsettled lane ++ [started lane];
      queued := queued lane; follow := follow lane |}, Operation (started lane)).

Definition run (key : jstr) (freshness : Freshness) (lane : Lane) : Lane * Promised :=
  match mget key (states lane) with
  | Some existing =>
      match freshness with
      | InFlight => (lane, Operation (ls_op existing))
      | AfterCurrent =>
          ({| states := mset key {| ls_op := ls_op existing; ls_followUp := true |} (states lane);
              started := started lane; keyOf := keyOf lane; unsettled := unsettled lane;
              queued := queued lane; follow := follow lane |}, FollowUp (ls_op existing))
      end
  | None => startOperation key lane
  end.

(** Operation [op] settles: its [finally] releases the key, and its follow-up,
    if one was asked for, is queued to start. *)
Definition settleOperation (op : nat) (lane : Lane) : option Lane :=
  if bool_decide (op ∈ unsettled lane) then
    key ← mget op (keyOf lane);
    Some
      match mget key (states lane) with
      | Some st =>
          if bool_decide (ls_op st = op) then
            {| states := mdel key (states lane); started := started lane; keyOf := keyOf lane;
               unsettled := sdel op (unsettled lane);
               queued := if ls_followUp st then queued lane ++ [op] else queued lane;
               follow := follow lane |}
          else
            {| states := states lane; started := started lane; keyOf := keyOf lane;
               unsettled := sdel op (unsettled lane); queued := queued lane; follow := follow lane |}
      | None =>
          {| states := states lane; started := started lane; keyOf := keyOf lane;
             unsettled := sdel op (unsettled lane); queued := queued lane; follow := follow lane |}
      end
  else None.

(** The queued [startNext] of operation [op] runs. *)
Definition startNext (op : nat) (lane : Lane) : option Lane :=
  if bool_decide (op ∈ queued lane) then
    key ← mget op (keyOf lane);
    let '(lane, promised) := run key InFlight lane in
    Some {| states := states lane; started := started lane; keyOf := keyOf lane;
            unsettled := unsettled lane; queued := sdel op (queued lane);
            follow := mset op promised (follow lane) |}
  else None.

Inductive laneEvent :=
| Run (key : jstr) (freshness : Freshness)
| Settle (op : nat)
| StartNext (op : nat).

Definition laneStep (e : laneEvent) (lane : Lane) : option Lane :=
  match e with
  | Run key freshness => Some (run key freshness lane).1
  | Settle op => settleOperation op lane
  | StartNext op => startNext op lane
  end.

Inductive laneRuns : Lane -> list laneEvent -> Lane -> Prop :=
| laneRuns_nil lane : laneRuns lane [] lane
| laneRuns_cons lane e lane1 es lane2 :
    laneStep e lane = Some lane1 -> laneRuns lane1 es lane2 -> laneRuns lane (e :: es) lane2.

Definition laneReachable (lane : Lane) : Prop := exists es, laneRuns idle es lane.
(** *** Invariant *)

Record linv (lane : Lane) : Prop :=
  { li_states : forall key st, mget key (states lane) = Some st ->
      ls_op st ∈ unsettled lane /\ mget (ls_op st) (keyOf lane) = Some key;
    li_unsettled : forall op, op ∈ unsettled lane -> exists key f,
      mget op (keyOf lane) = Some key /\
      mget key (states lane) = Some {| ls_op := op; ls_followUp := f |};
    li_fresh : forall op, is_Some (mget op (keyOf lane)) -> op < started lane;
    li_queued : forall op, op ∈ queued lane ->
      (op ∉ unsettled lane) /\ is_Some (mget op (keyOf lane));
    li_follow : forall op, is_Some (mget op (follow lane)) ->
      (op ∉ unsettled lane) /\ is_Some (mget op (keyOf lane)) }.

Lemma linv_idle : linv idle.
Proof. split; simpl; [done|set_solver|by intros ? [? [=]]|set_solver|by intros ? [? [=]]]. Qed.

Lemma linv_start key lane :
  linv lane -> mget key (states lane) = None -> linv (startOperation key lane).1.
Proof.
  intros [Hs Hu Hf Hq Hfo] Hk.
  assert (forall op, is_Some (mget op (keyOf lane)) -> op <> started lane) as Hne.
  { intros op Hop. apply Hf in Hop. lia. }
  split; simpl.
  - intros k st. rewrite mget_mset. case_bool_decide as Hkk.
    + intros [= <-]. simpl. subst. rewrite mget_mset_eq. split; [set_solver|done].
    + intros [Hin Hkey]%Hs. split; [set_solver|].
      rewrite mget_mset_ne; [done|]. apply Hne. by rewrite Hkey.
  - intros op [Hin|Hin]%elem_of_app.
    + destruct (Hu _ Hin) as (k & f & Hkey & Hst). exists k, f.
      rewrite !mget_mset_ne; [done|congruence|]. apply Hne. by rewrite Hkey.
    + apply list_elem_of_singleton in Hin as ->. exists key, false. by rewrite !mget_mset_eq.
  - intros op. rewrite mget_mset. case_bool_decide; [intros; lia|]. intros Hop%Hf. lia.
  - intros op Hop. destruct (Hq _ Hop) as [Hn Hkey]. pose proof (Hne _ Hkey). split.
    + set_solver.
    + rewrite mget_mset. case_bool_decide; [by eexists|done].
  - intros op Hop. destruct (Hfo _ Hop) as [Hn Hkey]. pose proof (Hne _ Hkey). split.
    + set_solver.
    + rewrite mget_mset. case_bool_decide; [by eexists|done].
Qed.

Lemma linv_run key freshness lane : linv lane -> linv (run key freshness lane).1.
Proof.
  intros Hl. unfold run. destruct (mget key (states lane)) as [st|] eqn:E;
    [|by apply linv_start].
  destruct freshness; [done|]. destruct Hl as [Hs Hu Hf Hq Hfo]. split; simpl; [| |done..].
  - intros k st'. rewrite mget_mset. case_bool_decide; [|apply Hs].
    intros [= <-]. subst. simpl. by apply Hs.
  - intros op Hop. destruct (Hu _ Hop) as (k & f & Hkey & Hst). exists k.
    destruct (decide (key = k)) as [<-|Hne].
    + exists true. rewrite mget_mset_eq. rewrite E in Hst. by simplify_eq/=.
    + exists f. by rewrite mget_mset_ne.
Qed.

(** Running leaves the queue and the resolved follow-ups alone. *)
Lemma run_shared key freshness lane :
  queued (run key freshness lane).1 = queued lane /\
  follow (run key freshness lane).1 = follow lane.
Proof. unfold run, startOperation. by repeat case_match. Qed.

Lemma linv_settle op lane lane' : linv lane -> settleOperation op lane = Some lane' -> linv lane'.
Proof.
  intros [Hs Hu Hf Hq Hfo]. unfold settleOperation. case_bool_decide as Hop; [|done].
  destruct (Hu _ Hop) as (key & f & Hkey & Hst). rewrite Hkey. cbn [mbind option_bind].
  rewrite Hst. simpl. rewrite bool_decide_true by done. intros [= <-]. split; simpl.
  - intros k st. rewrite mget_mdel. case_bool_decide as Hkk; [done|]. intros [Hin Hk]%Hs.
    split; [|done]. apply elem_of_sdel. split; [|done]. intros Heq. congruence.
  - intros o [Hne Ho]%elem_of_sdel. destruct (Hu _ Ho) as (k & f' & Hk & Hst').
    exists k, f'. split; [done|]. rewrite mget_mdel_ne; [done|]. intros ->.
    rewrite Hst in Hst'. congruence.
  - done.
  - intros o Ho. assert (o = op \/ o ∈ queued lane) as [->|Ho'].
    { destruct f; [|by right]. set_solver. }
    + split; [rewrite elem_of_sdel; tauto|by rewrite Hkey].
    + destruct (Hq _ Ho'). rewrite elem_of_sdel. naive_solver.
  - intros o Ho. destruct (Hfo _ Ho). rewrite elem_of_sdel. naive_solver.
Qed.

Lemma linv_startNext op lane lane' : linv lane -> startNext op lane = Some lane' -> linv lane'.
Proof.
  intros Hl. unfold startNext. case_bool_decide as Hop; [|done].
  destruct (mget op (keyOf lane)) as [key|] eqn:Ekey; [|done]. cbn [mbind option_bind].
  pose proof (linv_run key InFlight lane Hl) as [Hs Hu Hf Hq Hfo].
  pose proof (run_shared key InFlight lane) as [Hqq Hff].
  destruct (run key InFlight lane) as [lane1 p]. simpl in *. intros [= <-].
  split; simpl; [done|done|done| |].
  - intros o [_ Ho]%elem_of_sdel. by apply Hq.
  - intros o. rewrite mget_mset. case_bool_decide as Ho; [subst|apply Hfo].
    intros _. apply Hq. by rewrite Hqq.
Qed.

Lemma linv_step e lane lane' : linv lane -> laneStep e lane = Some lane' -> linv lane'.
Proof.
  intros Hl. destruct e; simpl.
  - intros [= <-]. by apply linv_run.
  - by apply linv_settle.
  - by apply linv_startNext.
Qed.

Lemma linv_runs lane es lane' : linv lane -> laneRuns lane es lane' -> linv lane'.
Proof. intros Hl Hr. induction Hr; eauto using linv_step. Qed.

Lemma linv_reachable lane : laneReachable lane -> linv lane.
Proof. intros [es Hr]. by eapply linv_runs, Hr; apply linv_idle. Qed.

(** *** Freshness

    What stays true of operation [n] of [key] once a caller has asked, when
    [N] operations had started, for a read after the current one. *)
Definition awaited (key : jstr) (n N : nat) (lane : Lane) : Prop :=
  N <= started lane /\ mget n (keyOf lane) = Some key /\
  ((n ∈ unsettled lane /\ mget n (follow lane) = None /\
    mget key (states lane) = Some {| ls_op := n; ls_followUp := true |}) \/
   ((n ∉ unsettled lane) /\ (n ∈ queued lane \/ is_Some (mget n (follow lane))) /\
    (forall st, mget key (states lane) = Some st -> N <= ls_op st) /\
    (forall p, mget n (follow lane) = Some p -> exists m, p = Operation m /\ N <= m))).

Lemma awaited_start k key n N lane :
  linv lane -> mget k (states lane) = None -> awaited key n N lane ->
  awaited key n N (startOperation k lane).1.
Proof.
  intros Hl Hk (Hle & Hkey & Hcase).
  assert (n < started lane) as Hn by (apply (li_fresh _ Hl); by rewrite Hkey).
  unfold awaited. simpl. split; [lia|]. split; [rewrite mget_mset_ne by lia; done|].
  destruct Hcase as [(Hu & Hf & Hst)|(Hu & Hq & Hst & Hf)].
  - left. split_and!; [set_solver|done|]. rewrite mget_mset_ne; [done|]. intros ->. congruence.
  - right. split_and!; [|done| |done].
    + rewrite elem_of_app, list_elem_of_singleton. intros [?| ->]; [done|lia].
    + intros st. rewrite mget_mset. case_bool_decide; [intros [= <-]; simpl; lia|apply Hst].
Qed.

Lemma awaited_run k freshness key n N lane :
  linv lane -> awaited key n N lane -> awaited key n N (run k freshness lane).1.
Proof.
  intros Hl Ha. unfold run. destruct (mget k (states lane)) as [st|] eqn:E;
    [|by apply awaited_start].
  destruct freshness; [done|]. destruct Ha as (Hle & Hkey & Hcase). unfold awaited. simpl.
  split_and!; [done|done|]. destruct Hcase as [(Hu & Hf & Hst)|(Hu & Hq & Hst & Hf)].
  - left. split_and!; [done|done|]. rewrite mget_mset. case_bool_decide as Hkk; [|done].
    subst. rewrite E in Hst. by simplify_eq/=.
  - right. split_and!; [done|done| |done]. intros st'. rewrite mget_mset.
    case_bool_decide as Hkk; [|apply Hst]. intros [= <-]. subst. simpl. by apply Hst.
Qed.

Lemma awaited_settle op key n N lane lane' :
  linv lane -> awaited key n N lane -> settleOperation op lane = Some lane' ->
  awaited key n N lane'.
Proof.
  intros Hl (Hle & Hkey & Hcase). unfold settleOperation. case_bool_decide as Hop; [|done].
  destruct (li_unsettled _ Hl _ Hop) as (k & f & Hk & Hst). rewrite Hk. cbn [mbind option_bind].
  rewrite Hst. simpl. rewrite bool_decide_true by done. intros [= <-]. unfold awaited. simpl.
  split_and!; [done|done|]. destruct Hcase as [(Hu & Hf & Hst')|(Hu & Hq & Hst' & Hf)].
  - destruct (decide (op = n)) as [->|Hne].
    + right. assert (k = key) as -> by congruence. rewrite Hst' in Hst. simplify_eq.
      split_and!.
      * rewrite elem_of_sdel. tauto.
      * left. set_solver.
      * intros st. by rewrite mget_mdel_eq.
      * congruence.
    + left. split_and!; [by apply elem_of_sdel|done|]. rewrite mget_mdel_ne; [done|].
      intros ->. rewrite Hst' in Hst. congruence.
  - right. split_and!.
    + rewrite elem_of_sdel. tauto.
    + destruct Hq as [Hq|Hq]; [left|by right]. destruct f; set_solver.
    + intros st. rewrite mget_mdel. case_bool_decide; [done|apply Hst'].
    + done.
Qed.

Lemma awaited_startNext op key n N lane lane' :
  linv lane -> awaited key n N lane -> startNext op lane = Some lane' -> awaited key n N lane'.
Proof.
  intros Hl Ha. unfold startNext. case_bool_decide as Hop; [|done].
  destruct (mget op (keyOf lane)) as [k|] eqn:Ek; [|done]. cbn [mbind option_bind].
  pose proof (awaited_run k InFlight key n N lane Hl Ha) as (Hle & Hkey & Hcase).
  destruct (run k InFlight lane) as [lane1 p] eqn:Erun. cbn [fst] in *. intros [= <-].
  unfold awaited. simpl. split_and!; [done|done|].
  assert (exists st, mget k (states lane1) = Some st /\ p = Operation (ls_op st)) as (st & Hst & ->).
  { revert Erun. unfold run, startOperation. destruct (mget k (states lane)) as [st|] eqn:E.
    - intros [= <- <-]. eauto.
    - intros [= <- <-]. simpl. rewrite mget_mset_eq. eauto. }
  destruct Hcase as [(Hu & Hf & Hst')|(Hu & Hq & Hst' & Hf)].
  - left. split_and!; [done| |done]. rewrite mget_mset. case_bool_decide as Hon; [|done].
    subst. exfalso. destruct Ha as (_ & _ & [(Hu' & _)|(Hu' & _)]).
    + by apply (li_queued _ Hl) in Hop as [? _].
    + revert Hu. assert (unsettled lane1 = unsettled lane \/ unsettled lane1 = unsettled lane ++ [started lane]) as [->| ->].
      { revert Erun. unfold run, startOperation. repeat case_match; intros [= <- _]; auto. }
      * done.
      * rewrite elem_of_app, list_elem_of_singleton. intros [?| Hn]; [done|].
        assert (n < started lane); [|lia]. apply (li_fresh _ Hl). by rewrite Ek.
  - right. split_and!; [done| |done|].
    + rewrite mget_mset. case_bool_decide as Hon; [right; by eexists|].
      destruct Hq as [Hq|Hq]; [left|by right]. apply elem_of_sdel. split; [congruence|done].
    + intros p'. rewrite mget_mset. case_bool_decide as Hon; [|apply Hf].
      intros [= <-]. subst. exists (ls_op st). split; [done|]. apply Hst'.
      assert (k = key) as ->; [|done]. destruct Ha as (_ & Hkey' & _). congruence.
Qed.

Lemma awaited_runs key n N lane es lane' :
  linv lane -> awaited key n N lane -> laneRuns lane es lane' -> awaited key n N lane'.
Proof.
  intros Hl Ha Hr. revert Hl Ha.
  induction Hr as [|lane e lane1 es lane2 Hstep _ IH]; intros Hl Ha; [done|].
  apply IH; [by eapply linv_step|]. destruct e; simpl in Hstep.
  - simplify_eq. by apply awaited_run.
  - by eapply awaited_settle.
  - by eapply awaited_startNext.
Qed.

(** C36. Synchronisation of a thread is single-flight: in every reachable state
    at most one operation of a key is running, and a caller that shares the
    running one gets exactly that operation. *)
Theorem lane_single_flight lane key op1 op2 :
  laneReachable lane ->
  (op1 ∈ unsettled lane -> op2 ∈ unsettled lane ->
   mget op1 (keyOf lane) = Some key -> mget op2 (keyOf lane) = Some key -> op1 = op2) /\
  (op1 ∈ unsettled lane -> mget op1 (keyOf lane) = Some key ->
   run key InFlight lane = (lane, Operation op1)).
Proof.
  intros Hl%linv_reachable. split.
  - intros H1 H2 Hk1 Hk2.
    destruct (li_unsettled _ Hl _ H1) as (k1 & f1 & Hk1' & Hs1).
    destruct (li_unsettled _ Hl _ H2) as (k2 & f2 & Hk2' & Hs2). congruence.
  - intros H1 Hk1. destruct (li_unsettled _ Hl _ H1) as (k1 & f1 & Hk1' & Hs1).
    assert (k1 = key) as -> by congruence. unfold run. by rewrite Hs1.
Qed.

(** A reader that asks for a read after the current one gets a fresh one:
    its follow-up resolves to an operation that starts after the request, no
    matter how calls, settlements and queued starts interleave, and it does
    start once the current operation has settled. *)
Theorem lane_follow_up_fresh lane lane2 key n es lane3 :
  laneReachable lane -> run key AfterCurrent lane = (lane2, FollowUp n) ->
  laneRuns lane2 es lane3 ->
  (forall p, mget n (follow lane3) = Some p -> exists m, p = Operation m /\ started lane <= m) /\
  (n ∉ unsettled lane3 ->
   is_Some (mget n (follow lane3)) \/
   exists lane4, startNext n lane3 = Some lane4 /\ is_Some (mget n (follow lane4))) /\
  (n ∈ unsettled lane3 -> is_Some (settleOperation n lane3)).
Proof.
  intros Hl%linv_reachable Hrun Hruns.
  pose proof (linv_run key AfterCurrent lane Hl) as Hl2. rewrite Hrun in Hl2. cbn [fst] in Hl2.
  assert (awaited key n (started lane) lane2) as Haw.
  { revert Hrun. unfold run. destruct (mget key (states lane)) as [st|] eqn:E; [|by intros [= _]].
    intros [= <- <-]. destruct (li_states _ Hl _ _ E) as [Hu Hk].
    unfold awaited. simpl. split_and!; [done|done|]. left. split_and!; [done| |].
    - destruct (mget (ls_op st) (follow lane)) eqn:Ef; [|done].
      destruct (li_follow _ Hl (ls_op st)) as [? _]; [by rewrite Ef|done].
    - by rewrite mget_mset_eq. }
  pose proof (awaited_runs _ _ _ _ _ _ Hl2 Haw Hruns) as (_ & Hkey & Hcase).
  split_and!.
  - intros p Hp. destruct Hcase as [(_ & Hf & _)|(_ & _ & _ & Hf)]; [congruence|by apply Hf].
  - intros Hn. destruct Hcase as [(? & _)|(_ & [Hq|Hq] & _)]; [done| |by left].
    right. unfold startNext. rewrite bool_decide_true, Hkey by done. cbn [mbind option_bind].
    destruct (run key InFlight lane3). eexists. split; [done|]. simpl.
    rewrite mget_mset_eq. by eexists.
  - intros Hn. unfold settleOperation. rewrite bool_decide_true, Hkey by done. by eexists.
Qed.

Definition demo_running : Lane := (run (js "t") InFlight idle).1.

Lemma demo_running_reachable : laneReachable demo_running.
Proof. exists [Run (js "t") InFlight]. eapply laneRuns_cons; [reflexivity|constructor]. Qed.

Lemma lane_single_flight_witness :
  run (js "t") InFlight demo_running = (demo_running, Operation 0).
Proof.
  apply (proj2 (lane_single_flight demo_running (js "t") 0 0 demo_running_reachable));
    [left|reflexivity].
Defined.

Definition demo_after : Lane * Promised := run (js "t") AfterCurrent demo_running.

Lemma lane_follow_up_fresh_witness :
  is_Some (settleOperation 0 demo_after.1).
Proof.
  refine (proj2 (proj2 (lane_follow_up_fresh demo_running demo_after.1 (js "t") 0 [] demo_after.1
    demo_running_reachable eq_refl _)) _); [constructor|left].
Defined.
End Lane.

(** ** What a synchronised thread holds *)

(** A turn map files every turn under its own id. *)
Definition byId_ok (m : list (jstr * json)) : Prop :=
  mwf m /\ forall k t, (k, t) ∈ m -> field "id" t = Some (JStr k).

Definition with_id (turn : json) : Prop := exists id, field "id" turn = Some (JStr id).

Lemma setById_ok m turn : byId_ok m -> byId_ok (setById m turn).
Proof.
  intros [Hw Hm]. unfold setById. destruct (asString (field "id" turn)) as [id|] eqn:E; [|done].
  apply asString_Some in E. split; [by apply mset_wf|].
  intros k t [[= -> ->]|Hin]%elem_mset; auto.
Qed.

Lemma foldl_setById_ok m turns : byId_ok m -> byId_ok (foldl setById m turns).
Proof. revert m. induction turns as [|t l IH]; intros m Hm; simpl; [done|]. by apply IH, setById_ok. Qed.

Lemma byId_empty : byId_ok [].
Proof. split; [apply NoDup_nil_2|]. intros k t Hin. by apply elem_of_nil in Hin. Qed.

Lemma byId_ids m : byId_ok m -> NoDup (ids (mvals m)).
Proof.
  intros [Hw Hm]. assert (ids (mvals m) = (fun k : jstr => Some (JStr k)) <$> mkeys m) as ->.
  { unfold ids, mvals, mkeys. rewrite <- !list_fmap_compose. apply list_fmap_ext.
    intros i [k t] Hi. simpl. apply Hm. by eapply list_elem_of_lookup_2. }
  apply NoDup_fmap_2_strong; [|done]. by intros x y _ _ [= ->].
Qed.

(** The turns a map built from a list holds. *)
Lemma foldl_setById_in turns m t :
  byId_ok m -> t ∈ mvals (foldl setById m turns) -> t ∈ mvals m \/ t ∈ turns.
Proof.
  revert m. induction turns as [|u l IH]; intros m Hm; simpl; [auto|].
  intros [Hin|Hin]%IH; [|right; by right|by apply setById_ok].
  unfold setById in Hin. case_match; [|by left].
  apply elem_mvals in Hin as (k & [[= _ ->]|Hin]%elem_mset); [right; by left|left].
  apply elem_mvals. by exists k.
Qed.

Lemma foldl_setById_keep turns m k t :
  byId_ok m -> mget k m = Some t -> (forall u, u ∈ turns -> field "id" u <> Some (JStr k)) ->
  mget k (foldl setById m turns) = Some t.
Proof.
  revert m. induction turns as [|u l IH]; intros m Hm Hk Hno; simpl; [done|].
  apply IH; [by apply setById_ok| |intros v Hv; apply Hno; by right].
  unfold setById. destruct (asString (field "id" u)) as [id|] eqn:E; [|done].
  apply asString_Some in E. rewrite mget_mset_ne; [done|]. intros <-. apply (Hno u); [by left|done].
Qed.

(** A turn whose id no later turn has is kept. *)
Lemma foldl_setById_last l1 t l2 m :
  byId_ok m -> with_id t -> (forall u, u ∈ l2 -> field "id" u <> field "id" t) ->
  t ∈ mvals (foldl setById m (l1 ++ t :: l2)).
Proof.
  intros Hm [id Hid] Hno. rewrite foldl_app. simpl.
  pose proof (foldl_setById_ok _ l1 Hm) as Hm1.
  pose proof (setById_ok _ t Hm1) as Hm2.
  assert (mget id (foldl setById (setById (foldl setById m l1) t) l2) = Some t) as Hg.
  { apply foldl_setById_keep; [done| |intros u Hu; rewrite <- Hid; by apply Hno].
    unfold setById at 1. rewrite Hid. simpl. apply mget_mset_eq. }
  apply elem_mvals. exists id. by apply mget_elem.
Qed.

(** *** Seeding the settings *)

(** All that seeding may change of a turn is the metadata of one in progress. *)
Definition touched (t t' : json) : Prop :=
  (forall k, k <> "codewide" -> field k t' = field k t) /\ (inProgress t = false -> t' = t).

Lemma touched_refl t : touched t t.
Proof. done. Qed.

Lemma touched_trans t1 t2 t3 : touched t1 t2 -> touched t2 t3 -> touched t1 t3.
Proof.
  intros [Hf1 He1] [Hf2 He2]. split.
  - intros k Hk. rewrite Hf2, Hf1; done.
  - intros Hp. specialize (He1 Hp). subst. by apply He2.
Qed.

Lemma touched_ids l l' : Forall2 touched l l' -> ids l' = ids l.
Proof.
  unfold ids. induction 1 as [|t t' l l' [Hf _] _ IH]; [done|].
  rewrite !fmap_cons, IH, Hf; done.
Qed.

Lemma Forall2_touched_refl l : Forall2 touched l l.
Proof. by apply Forall_Forall2_diag, Forall_true. Qed.

Lemma Forall2_touched_trans l1 l2 l3 :
  Forall2 touched l1 l2 -> Forall2 touched l2 l3 -> Forall2 touched l1 l3.
Proof.
  intros H. revert l3. induction H as [|x y l1 l2 Hxy _ IH]; intros l3 H3.
  - by apply Forall2_nil_inv_l in H3 as ->.
  - apply Forall2_cons_inv_l in H3 as (z & l3' & ? & ? & ->). constructor; [by eapply touched_trans|auto].
Qed.

Section seeding.
Context `{EventLookup}.

Lemma snapshot_touched th i u :
  wf_thread th -> turnsOf th !! i = Some u -> inProgress u = true ->
  Forall2 touched (turnsOf th) (turnsOf (snapshotTurnExecution (field "id" u) th)).
Proof.
  intros Hwf Hi Hp. unfold snapshotTurnExecution.
  destruct (asString (field "id" u)) as [id|] eqn:Eid; [|apply Forall2_touched_refl].
  destruct (projectedThreadExecutionSettings th); [|apply Forall2_touched_refl].
  unfold updateMetadata. rewrite Eid. unfold updateTurn. apply asString_Some in Eid.
  pose proof Hwf as (_ & Hnd & _).
  destruct (elem_finds (turnsOf th) id (turnIndex th id) u Hnd (turnIndex_finds _ _))
    as (j & Hj & Hju); [by eapply list_elem_of_lookup_2|by apply hasId_spec|].
  rewrite Hj, turnsOf_setTurns by by apply wf_is_obj.
  apply Forall2_same_length_lookup_2; [by rewrite length_alter|].
  intros k v v' Hv. rewrite list_lookup_alter. case_decide; [|intros; simplify_eq; apply touched_refl].
  subst. rewrite Hv. intros [= <-]. rewrite Hv in Hju. simplify_eq. split.
  - intros x Hx. unfold updateCodewide. by apply field_setField_ne.
  - congruence.
Qed.

Lemma snapshotIfMissing_touched th i :
  wf_thread th -> wf_thread (snapshotIfMissing th i) /\
  Forall2 touched (turnsOf th) (turnsOf (snapshotIfMissing th i)).
Proof.
  intros Hw. unfold snapshotIfMissing. destruct (turnsOf th !! i) as [u|] eqn:Eu;
    [|split; [done|apply Forall2_touched_refl]].
  destruct (isStr _ _ && _) eqn:E; [|split; [done|apply Forall2_touched_refl]].
  apply andb_true_iff in E as [E _]. split.
  - apply (wf_of_good True th); [|done..]. by apply good_snapshot.
  - by eapply snapshot_touched.
Qed.

Lemma snapshots_touched l th :
  wf_thread th -> Forall2 touched (turnsOf th) (turnsOf (foldl snapshotIfMissing th l)).
Proof.
  revert th. induction l as [|i l IH]; intros th Hw; cbn [foldl]; [apply Forall2_touched_refl|].
  destruct (snapshotIfMissing_touched th i Hw) as [Hw' Hf].
  eapply Forall2_touched_trans; [exact Hf|]. by apply IH.
Qed.

Lemma seed_touched s th :
  wf_thread th -> Forall2 touched (turnsOf th) (turnsOf (seedThreadExecutionSettings s th)).
Proof.
  intros Hwf. unfold seedThreadExecutionSettings. set (l := seq 0 _). clearbody l.
  match goal with |- Forall2 _ _ (turnsOf (foldl _ ?t _)) =>
    assert (wf_thread t /\ turnsOf t = turnsOf th) as [Hwt Ht];
      [|rewrite <- Ht at 1; by apply snapshots_touched] end.
  unfold updateCodewide. split.
  - apply (wf_of_good True th); [|done..].
    repeat (eapply good_trans; [|by apply good_setField]). apply good_refl.
  - unfold turnsOf. by rewrite !arrField_setField_ne.
Qed.

(** *** The merged turns *)

Definition wf_obj (v : json) : Prop := exists o, v = JObj o /\ mwf o.

Definition wf_payload (t : json) : Prop := wf_turn t /\ with_id t /\ wf_obj t.

(** What the check of the response and the cache establish: turns have ids,
    distinct item ids, and the checkpoint is not also a sealed turn. *)
Record sync_ok (cached : option json) (response : ThreadSyncResponse) : Prop :=
  { so_thread : is_obj (sync_thread response);
    so_cached : from_option wf_thread True cached;
    so_history : Forall wf_payload (hturns (history response));
    so_active : from_option wf_payload True (activeTurn response);
    so_apart : forall a t, activeTurn response = Some a ->
      t ∈ (sealedTurns cached response ++ hturns (history response)) ->
      field "id" t <> field "id" a }.

Lemma spread_field k a b : wf_obj b -> field k b <> None -> field k (spread a b) = field k b.
Proof.
  intros (y & -> & Hw) Hk. destruct a as [| | | | |x]; try done. simpl in *.
  rewrite oget_ospread by done. by destruct (oget k y).
Qed.

Lemma spread_id a b : with_id b -> wf_obj b -> field "id" (spread a b) = field "id" b.
Proof. intros [id Hb] Ho. apply spread_field; [done|congruence]. Qed.

Lemma spread_is_obj a b : is_obj b -> is_obj (spread a b).
Proof. intros [y ->]. destruct a; try (by exists y). by eexists. Qed.

Lemma wf_obj_is_obj v : wf_obj v -> is_obj v.
Proof. intros (o & -> & _). by exists o. Qed.

Lemma copyField_is_obj k v x : is_obj x -> is_obj (copyField k v x).
Proof. intros. destruct v; simpl; eauto with codewide. Qed.

Lemma ids_inj l x y : NoDup (ids l) -> x ∈ l -> y ∈ l -> field "id" x = field "id" y -> x = y.
Proof.
  intros Hnd [i Hi]%list_elem_of_lookup [j Hj]%list_elem_of_lookup Heq.
  assert (i = j) as ->; [|congruence]. unfold ids in Hnd. rewrite NoDup_alt in Hnd.
  apply (Hnd i j (field "id" x)); rewrite list_lookup_fmap; [by rewrite Hi|by rewrite Hj, Heq].
Qed.

(** The active turn keeps the checkpoint's id; its items are reconciled with
    those of the cached turn it extends. *)
Lemma checkpoint_merged cached a :
  wf_payload a -> from_option wf_thread True cached ->
  exists a', mergeActiveTurnCheckpoint cached (Some a) = Some a' /\
    field "id" a' = field "id" a /\ wf_turn a' /\
    (inProgress a = true -> inProgress a' = true) /\
    (a' = a /\ (forall previous, previous ∈ from_option turnsOf [] cached ->
       field "id" previous = field "id" a -> inProgress previous = true ->
       isStr (field "itemsView" previous) "notLoaded" = true) \/
     exists previous, previous ∈ from_option turnsOf [] cached /\
       field "id" previous = field "id" a /\ inProgress previous = true /\
       isStr (field "itemsView" a') "notLoaded" = false /\
       itemsOf a' = reconcileActiveTurnItems (itemsOf previous) (itemsOf a)).
Proof.
  intros (Hwf & Hid & Ho) Hc. unfold mergeActiveTurnCheckpoint.
  destruct (findIndex _ _) as [i|] eqn:Ei; cbn [mbind option_bind].
  2: { exists a. split_and!; try done. left. split; [done|]. intros p Hp Hpid Hpp.
       apply findIndex_None in Ei. rewrite Forall_forall in Ei. specialize (Ei p Hp).
       simpl in Ei. rewrite Hpp, andb_true_r in Ei. by apply bool_decide_eq_false in Ei. }
  apply findIndex_Some in Ei as (p & Hp & Hpp & _). rewrite Hp.
  apply andb_true_iff in Hpp as [Hsame Hprog]. apply bool_decide_eq_true in Hsame.
  assert (p ∈ from_option turnsOf [] cached) as Hin by by eapply list_elem_of_lookup_2.
  destruct cached as [th|]; [|by apply elem_of_nil in Hin]. simpl in Hc, Hin, Hp.
  destruct Hc as (_ & Hids & HF).
  assert (wf_turn p) as [_ Hnd] by by eapply (proj1 (Forall_forall _ _) HF).
  destruct (isStr (field "itemsView" p) "notLoaded") eqn:Ep.
  { exists a. split_and!; try done. left. split; [done|]. intros q Hq Hqid _.
    by rewrite (ids_inj (turnsOf th) q p) by (done || congruence). }
  set (s := match mergedMetadata p a with
            | Some codewide => setField "codewide" codewide (spread p a) | None => spread p a end).
  assert (is_obj s) as Hs.
  { assert (is_obj (spread p a)) by by apply spread_is_obj, wf_obj_is_obj.
    unfold s. destruct (mergedMetadata p a); eauto with codewide. }
  assert (forall k, k <> "codewide" -> field k a <> None -> field k s = field k a) as Hsk.
  { intros k Hk Hak. unfold s.
    destruct (mergedMetadata p a); [rewrite field_setField_ne by done|]; by apply spread_field. }
  set (v := if _ || _ then field "itemsView" p else field "itemsView" a).
  set (items := reconcileActiveTurnItems (itemsOf p) (itemsOf a)).
  set (a' := copyField "itemsView" v (setItems items s)).
  assert (field "items" a' = Some (JArr items)) as Hit.
  { unfold a', setItems. rewrite field_copyField_ne by done. by apply field_setField_eq. }
  assert (itemsOf a' = items) as Hitems by (unfold itemsOf, arrField; by rewrite Hit).
  assert (field "itemsView" a' = v) as Hv by by apply field_copyField_eq, setField_is_obj.
  assert (forall k, k <> "codewide" -> k <> "items" -> k <> "itemsView" -> field k a <> None ->
            field k a' = field k a) as Hk.
  { intros k ???. unfold a', setItems. rewrite field_copyField_ne, field_setField_ne by done. by apply Hsk. }
  exists a'. split; [reflexivity|]. split; [|split; [split; [eauto|]|split]].
  - apply Hk; try done. destruct Hid as [? ->]. done.
  - rewrite Hitems. apply reconcile_nodup; [done|]. by destruct Hwf.
  - unfold inProgress. intros Ha%isStr_spec. rewrite Hk; try done; [by apply isStr_spec|congruence].
  - right. exists p. split_and!; [done..| |done].
    rewrite Hv. unfold v. destruct (isStr (field "itemsView" p) "full" || _) eqn:E; [done|].
    by apply orb_false_iff in E as [_ ?].
Qed.

Lemma sealed_elem cached response t :
  t ∈ sealedTurns cached response ->
  inProgress t = false /\ isReset response = false /\ t ∈ from_option turnsOf [] cached.
Proof.
  unfold sealedTurns. destruct (isReset response); [by intros ?%elem_of_nil|].
  by intros [? ?]%list_elem_of_filter.
Qed.

Lemma sealed_wf cached response :
  from_option wf_thread True cached ->
  NoDup (ids (sealedTurns cached response)) /\ Forall wf_turn (sealedTurns cached response).
Proof.
  unfold sealedTurns. intros Hc. destruct (isReset response); [by split; [apply NoDup_nil_2|]|].
  destruct cached as [th|]; [|by split; [apply NoDup_nil_2|]].
  destruct Hc as (_ & Hnd & HF). simpl. split.
  2: { apply Forall_forall. intros t [_ Ht]%list_elem_of_filter. by eapply (proj1 (Forall_forall _ _) HF). }
  unfold ids in *. eapply sublist_NoDup; [exact Hnd|]. by apply fmap_sublist, sublist_filter.
Qed.

(** The cache a response is applied to. *)
Definition baseOf (cached : option json) (response : ThreadSyncResponse) : option json :=
  if isReset response then None else cached.

Lemma mergedTurns_wf cached response :
  sync_ok cached response ->
  NoDup (ids (mergedTurns cached response)) /\ Forall wf_turn (mergedTurns cached response).
Proof.
  intros [_ Hc Hh Ha Hap]. unfold mergedTurns. fold (baseOf cached response).
  set (l := sealedTurns cached response ++ hturns (history response)) in *.
  pose proof (foldl_setById_ok [] l byId_empty) as Hok.
  assert (forall t, t ∈ mvals (foldl setById [] l) -> t ∈ l) as Hin.
  { intros t [Ht|Ht]%foldl_setById_in; [by apply elem_of_nil in Ht|done|apply byId_empty]. }
  assert (Forall wf_turn l) as Hl.
  { apply Forall_app. split; [by apply sealed_wf|].
    eapply Forall_impl; [exact Hh|]. by intros ? [? _]. }
  rewrite ids_app. destruct (activeTurn response) as [a|] eqn:Ea.
  - destruct (checkpoint_merged (baseOf cached response) a) as (a' & -> & Hid & Hw & _);
      [done|unfold baseOf; by destruct (isReset response)|]. simpl. split.
    + apply NoDup_app. split_and!; [by apply byId_ids| |apply NoDup_singleton].
      intros x (t & -> & Ht)%list_elem_of_fmap Hx%list_elem_of_singleton.
      apply (Hap a t eq_refl); [by apply Hin|congruence].
    + apply Forall_app. split; [|by constructor]. apply Forall_forall. intros t Ht.
      by eapply (proj1 (Forall_forall _ _) Hl), Hin.
  - simpl. rewrite !app_nil_r. split; [by apply byId_ids|]. apply Forall_forall. intros t Ht.
    by eapply (proj1 (Forall_forall _ _) Hl), Hin.
Qed.

Lemma materialized cached response cursor :
  sync_ok cached response ->
  wf_thread (materializeThreadSync cached response cursor).1 /\
  Forall2 touched (mergedTurns cached response)
    (turnsOf (materializeThreadSync cached response cursor).1).
Proof.
  intros Hok. pose proof (mergedTurns_wf _ _ Hok) as [Hnd HF].
  set (th := setTurns (mergedTurns cached response) (sync_thread response)).
  assert (turnsOf th = mergedTurns cached response) as Ht by by apply turnsOf_setTurns, so_thread with cached.
  assert (wf_thread th) as Hw.
  { split; [|by rewrite Ht]. eexists. apply field_setField_eq. by eapply so_thread. }
  unfold materializeThreadSync. fold th. destruct (sync_settings response) as [s|]; cbn [fst].
  - split; [|rewrite <- Ht; by apply seed_touched].
    apply (wf_of_good True th); [by apply good_seed|done..].
  - split; [done|]. rewrite Ht. apply Forall2_touched_refl.
Qed.

Lemma touched_lookup l l' t : Forall2 touched l l' -> t ∈ l -> exists t', t' ∈ l' /\ touched t t'.
Proof.
  intros HF [i Hi]%list_elem_of_lookup. destruct (Forall2_lookup_l _ _ _ _ _ HF Hi) as (t' & Ht' & ?).
  exists t'. split; [by eapply list_elem_of_lookup_2|done].
Qed.

Lemma nodup_ids_cut l1 t l2 : NoDup (ids (l1 ++ t :: l2)) -> forall u, u ∈ l2 -> field "id" u <> field "id" t.
Proof.
  rewrite ids_app, NoDup_app. intros (_ & _ & Hn). unfold ids in Hn. rewrite fmap_cons in Hn.
  apply NoDup_cons in Hn as [Hn _]. intros u Hu Heq. apply Hn. rewrite <- Heq.
  by apply list_elem_of_fmap_2.
Qed.

(** A synchronised thread is exactly the page laid over the cache: turn and
    item ids stay unique, every sealed cached turn the page does not replace is
    kept as it was, every turn of the page is there (its last version), the
    checkpoint is the last turn with its items reconciled with the live ones,
    nothing else appears, and only a reset drops the cache and moves the
    history cursor. *)
Theorem materialize_turns cached response cursor :
  sync_ok cached response ->
  let th := (materializeThreadSync cached response cursor).1 in
  wf_thread th /\
  (isReset response = false -> forall t, t ∈ from_option turnsOf [] cached ->
     inProgress t = false -> with_id t ->
     (forall u, u ∈ hturns (history response) -> field "id" u <> field "id" t) -> t ∈ turnsOf th) /\
  (forall l1 t l2, hturns (history response) = l1 ++ t :: l2 ->
     (forall u, u ∈ l2 -> field "id" u <> field "id" t) ->
     exists t', t' ∈ turnsOf th /\ touched t t') /\
  (forall a, activeTurn response = Some a ->
     exists a', last (turnsOf th) = Some a' /\ field "id" a' = field "id" a /\
       (itemsOf a' = itemsOf a \/
        isReset response = false /\ exists previous, previous ∈ from_option turnsOf [] cached /\
          field "id" previous = field "id" a /\
          itemsOf a' = reconcileActiveTurnItems (itemsOf previous) (itemsOf a))) /\
  (forall t', t' ∈ turnsOf th -> exists t, touched t t' /\
     (t ∈ sealedTurns cached response \/ t ∈ hturns (history response) \/
      exists a, activeTurn response = Some a /\ field "id" t = field "id" a)) /\
  (materializeThreadSync cached response cursor).2 =
    if isReset response then Some (olderCursor (history response)) else cursor.
Proof.
  intros Hok th. destruct (materialized cached response cursor Hok) as [Hw HF]. fold th in Hw, HF.
  split; [done|]. pose proof Hok as [_ Hc Hh Ha Hap]. unfold mergedTurns in HF.
  fold (baseOf cached response) in HF.
  set (l := sealedTurns cached response ++ hturns (history response)) in *. split_and!; [| | | |done].
  - intros Hr t Ht Hp Hid Hno.
    assert (t ∈ sealedTurns cached response) as Hs.
    { unfold sealedTurns. rewrite Hr. by apply list_elem_of_filter. }
    pose proof Hs as Hs'. apply list_elem_of_split in Hs' as (l1 & l2 & Hl).
    destruct (touched_lookup _ _ t HF) as (t' & Ht' & _ & Heq); [|by rewrite <- (Heq Hp)].
    apply elem_of_app. left. unfold l. rewrite Hl, <- app_assoc. simpl.
    apply foldl_setById_last; [apply byId_empty|done|].
    intros u [Hu|Hu]%elem_of_app; [|by apply Hno].
    apply (nodup_ids_cut l1 t l2); [rewrite <- Hl; by apply sealed_wf|done].
  - intros l1 t l2 Hl Hno. destruct (touched_lookup _ _ t HF) as (t' & ? & ?); [|by exists t'].
    apply elem_of_app. left. unfold l. rewrite Hl, app_assoc.
    apply foldl_setById_last; [apply byId_empty| |done].
    rewrite Hl, Forall_app, Forall_cons in Hh. by destruct Hh as (_ & (_ & ? & _) & _).
  - intros a Hact. rewrite Hact in HF. rewrite Hact in Ha.
    destruct (checkpoint_merged (baseOf cached response) a Ha) as (a' & Hm & Hid & _ & _ & Hcase);
      [unfold baseOf; by destruct (isReset response)|]. rewrite Hm in HF. simpl in HF.
    apply Forall2_app_inv_l in HF as (k1 & k2 & _ & Hk & Hth).
    apply Forall2_cons_inv_l in Hk as (a'' & k3 & [Hf _] & Hnil & ->).
    apply Forall2_nil_inv_l in Hnil as ->. exists a''.
    rewrite Hth, last_snoc, Hf by done. split_and!; [done|done|].
    assert (itemsOf a'' = itemsOf a') as -> by (unfold itemsOf, arrField; by rewrite Hf).
    destruct Hcase as [[-> _]|(p & Hp & Hpid & _ & _ & Hitems)]; [by left|right].
    unfold baseOf in Hp. destruct (isReset response); [by apply elem_of_nil in Hp|]. eauto.
  - intros t' [i Hi]%list_elem_of_lookup.
    destruct (Forall2_lookup_r _ _ _ _ _ HF Hi) as (t & Ht & Htt). exists t. split; [done|].
    apply list_elem_of_lookup_2, elem_of_app in Ht as [Ht|Ht].
    + apply foldl_setById_in in Ht as [Ht|Ht]; [by apply elem_of_nil in Ht| |apply byId_empty].
      apply elem_of_app in Ht as [?|?]; auto.
    + right. right. destruct (activeTurn response) as [a|] eqn:Ea; [|by apply elem_of_nil in Ht].
      destruct (checkpoint_merged (baseOf cached response) a Ha) as (a' & Hm & Hid & _);
        [unfold baseOf; by destruct (isReset response)|].
      rewrite Hm in Ht. apply list_elem_of_singleton in Ht as ->. eauto.
Qed.
End seeding.

(** *** Redelivery *)

(** A map is rebuilt from its own turns. *)
Lemma foldl_setById_self m : byId_ok m -> foldl setById [] (mvals m) = m.
Proof.
  cut (forall m1 m2, byId_ok (m1 ++ m2) -> foldl setById m1 (mvals m2) = m1 ++ m2).
  { intros H. apply (H []). }
  intros m1 m2. revert m1. induction m2 as [|[k t] m2 IH]; intros m1 [Hw Hm]; cbn;
    [by rewrite app_nil_r|].
  assert (setById m1 t = m1 ++ [(k, t)]) as ->.
  { unfold setById. rewrite (Hm k t) by set_solver. simpl. apply mset_new, mget_None.
    unfold mwf, mkeys in Hw. rewrite fmap_app, fmap_cons in Hw.
    apply NoDup_app in Hw as (_ & Hd & _). intros Hk. apply (Hd _ Hk). by left. }
  change (snd <$> m2) with (mvals m2). rewrite (IH (m1 ++ [(k, t)])); by rewrite <- app_assoc.
Qed.

(** Turns a map already holds leave it alone. *)
Lemma foldl_setById_held m turns :
  byId_ok m -> (forall t, t ∈ turns -> with_id t /\ t ∈ mvals m) -> foldl setById m turns = m.
Proof.
  intros [Hw Hm]. induction turns as [|t l IH]; intros Hl; simpl; [done|].
  assert (setById m t = m) as ->; [|apply IH; intros; apply Hl; by right].
  destruct (Hl t) as [[id Hid] (k & Hk)%elem_mvals]; [by left|].
  assert (k = id) as -> by (specialize (Hm _ _ Hk); congruence).
  unfold setById. rewrite Hid. simpl. by apply mset_same, elem_mget.
Qed.

(** The sealed part of what a response leaves, when its page is sealed. *)
Definition page (cached : option json) (response : ThreadSyncResponse) : list json :=
  mvals (foldl setById [] (sealedTurns cached response ++ hturns (history response))).

Definition page_sealed (response : ThreadSyncResponse) : Prop :=
  NoDup (ids (hturns (history response))) /\
  Forall (fun t => inProgress t = false) (hturns (history response)) /\
  from_option (fun a => inProgress a = true) True (activeTurn response).

Lemma page_elem cached response t :
  t ∈ page cached response -> t ∈ (sealedTurns cached response ++ hturns (history response)).
Proof.
  intros [Ht|Ht]%foldl_setById_in; [by apply elem_of_nil in Ht|done|apply byId_empty].
Qed.

Lemma page_inProgress cached response t :
  page_sealed response -> t ∈ page cached response -> inProgress t = false.
Proof.
  intros (_ & Hs & _) [Ht|Ht]%page_elem%elem_of_app.
  - by apply sealed_elem in Ht as (? & _).
  - by eapply (proj1 (Forall_forall _ _) Hs).
Qed.

Lemma touched_sealed l l' :
  Forall2 touched l l' -> (forall t, t ∈ l -> inProgress t = false) -> l' = l.
Proof.
  induction 1 as [|t t' l l' [_ Heq] _ IH]; intros Hp; [done|].
  rewrite Heq by (apply Hp; by left). f_equal. apply IH. intros u Hu. apply Hp. by right.
Qed.

Lemma touched_field k t t' : touched t t' -> k <> "codewide" -> field k t' = field k t.
Proof. intros [Hf _]. apply Hf. Qed.

Lemma filter_kept (l : list json) :
  (forall t, t ∈ l -> inProgress t = false) -> filter (fun t => inProgress t = false) l = l.
Proof.
  induction l as [|t l IH]; intros Hl; [done|].
  rewrite filter_cons_True by (apply Hl; by left). f_equal. apply IH. set_solver.
Qed.

Lemma filter_dropped (l : list json) :
  (forall t, t ∈ l -> inProgress t = true) -> filter (fun t => inProgress t = false) l = [].
Proof.
  induction l as [|t l IH]; intros Hl; [done|].
  rewrite filter_cons_False by (rewrite (Hl t) by (by left); done). apply IH. set_solver.
Qed.

Section redelivery.
Context `{EventLookup}.
Context (cached : option json) (response : ThreadSyncResponse) (cursor : option (option jstr)).
Hypothesis Hok : sync_ok cached response.
Hypothesis Hpage : page_sealed response.
Hypothesis Hdelta : isReset response = false.

Let th := (materializeThreadSync cached response cursor).1.

(** The first delivery leaves the page, then the active turn. *)
Lemma first_delivery :
  wf_thread th /\ exists last1, turnsOf th = page cached response ++ last1 /\
    Forall2 touched (option_list (mergeActiveTurnCheckpoint cached (activeTurn response))) last1.
Proof.
  destruct (materialized cached response cursor Hok) as [Hw HF]. split; [done|].
  fold th in HF. unfold mergedTurns in HF. rewrite Hdelta in HF.
  apply Forall2_app_inv_l in HF as (k1 & k2 & Hk1 & Hk2 & ->). exists k2. split; [|done].
  f_equal. apply touched_sealed; [done|]. intros t. by apply page_inProgress.
Qed.

Lemma active_progress t :
  t ∈ option_list (mergeActiveTurnCheckpoint cached (activeTurn response)) -> inProgress t = true.
Proof.
  destruct (activeTurn response) as [a|] eqn:Ea; [|by intros ?%elem_of_nil].
  pose proof (so_active _ _ Hok) as Ha. rewrite Ea in Ha.
  destruct (checkpoint_merged cached a Ha (so_cached _ _ Hok)) as (a' & -> & _ & _ & Hp & _).
  intros ->%list_elem_of_singleton. apply Hp. destruct Hpage as (_ & _ & Hq). by rewrite Ea in Hq.
Qed.

Lemma second_sealed : sealedTurns (Some th) response = page cached response.
Proof.
  destruct first_delivery as (_ & last1 & Ht & HF). unfold sealedTurns. rewrite Hdelta.
  cbn [from_option]. rewrite Ht, filter_app.
  rewrite filter_kept, filter_dropped; [by rewrite app_nil_r| |].
  - intros t' Ht'. apply list_elem_of_lookup in Ht' as [i Hi].
    destruct (Forall2_lookup_r _ _ _ _ _ HF Hi) as (t & Hti & Htt).
    unfold inProgress. rewrite (touched_field _ _ _ Htt) by done.
    apply active_progress. by eapply list_elem_of_lookup_2.
  - intros t. by apply page_inProgress.
Qed.

Lemma second_page : page (Some th) response = page cached response.
Proof.
  unfold page at 1. rewrite second_sealed, foldl_app.
  pose proof (foldl_setById_ok [] (sealedTurns cached response ++ hturns (history response))
                byId_empty) as Hm.
  unfold page. rewrite foldl_setById_self by done. rewrite foldl_setById_held; [done..|].
  intros t Ht. pose proof (so_history _ _ Hok) as Hh. rewrite Forall_forall in Hh.
  destruct (Hh t Ht) as (_ & Hid & _). split; [done|].
  apply list_elem_of_split in Ht as (l1 & l2 & Hl). rewrite Hl, app_assoc.
  apply foldl_setById_last; [apply byId_empty|done|].
  apply (nodup_ids_cut l1). rewrite <- Hl. by apply Hpage.
Qed.

Lemma second_ok : sync_ok (Some th) response.
Proof.
  destruct first_delivery as (Hw & _). split; [by eapply so_thread|done|by eapply so_history|
    by eapply so_active|].
  intros a t Ha. rewrite second_sealed. intros [Ht%page_elem|Ht]%elem_of_app.
  - by apply (so_apart _ _ Hok a t Ha).
  - apply (so_apart _ _ Hok a t Ha). apply elem_of_app. by right.
Qed.

(** The active turn, redelivered over what the first delivery left of it. *)
Lemma second_active a' last1 :
  mergeActiveTurnCheckpoint cached (activeTurn response) = Some a' ->
  last1 ∈ turnsOf th -> touched a' last1 ->
  exists a2, mergeActiveTurnCheckpoint (Some th) (activeTurn response) = Some a2 /\
    field "id" a2 = field "id" a' /\ itemsOf a2 = itemsOf a'.
Proof.
  intros Hm Hin Htt.
  assert (inProgress a' = true) as Hprog by (apply active_progress; rewrite Hm; by left).
  destruct (activeTurn response) as [a|] eqn:Ea; [|done].
  pose proof (so_active _ _ Hok) as Ha. rewrite Ea in Ha.
  destruct (checkpoint_merged cached a Ha (so_cached _ _ Hok)) as (a1 & Hm1 & Hid & Hwa & _ & Hcase).
  rewrite Hm1 in Hm. simplify_eq. destruct first_delivery as (Hw & _).
  destruct (checkpoint_merged (Some th) a Ha Hw) as (a2 & Hm2 & Hid2 & _ & _ & Hcase2).
  exists a2. split_and!; [done|congruence|].
  assert (itemsOf last1 = itemsOf a') as Hlast
    by (unfold itemsOf, arrField; by rewrite (touched_field _ _ _ Htt)).
  assert (field "id" last1 = field "id" a) as Hlid by (rewrite (touched_field _ _ _ Htt) by done; done).
  destruct Ha as ([_ Hnd] & _). destruct Hwa as [_ Hndr].
  assert (forall x, x ∈ itemsOf a -> exists y, y ∈ itemsOf a' /\ field "id" y = field "id" x /\
            preserveProjectedItemMarkers x y true = y) as Hfix.
  { intros x Hx. destruct Hcase as [[-> _]|(p & _ & _ & _ & _ & ->)].
    - exists x. split_and!; [done|done|apply markers_self].
    - destruct (reconcile_contains true (itemsOf p) (itemsOf a) x Hx) as (y & ? & ? & ? & _). eauto. }
  destruct Hcase2 as [[-> Hnl]|(p & Hp & Hpid & _ & _ & ->)].
  - destruct Hcase as [[-> _]|(p & _ & _ & _ & Hv & _)]; [done|].
    assert (isStr (field "itemsView" last1) "notLoaded" = true) as Hl.
    { apply Hnl; [done|done|]. unfold inProgress. by rewrite (touched_field _ _ _ Htt). }
    rewrite (touched_field _ _ _ Htt) in Hl by done. congruence.
  - assert (p = last1) as ->.
    { apply (ids_inj (turnsOf th)); [by apply Hw|done|done|congruence]. }
    rewrite Hlast. by apply reconcile_fixed.
Qed.
End redelivery.

Definition sameTurn (t t' : json) : Prop :=
  field "id" t' = field "id" t /\ itemsOf t' = itemsOf t /\ (inProgress t = false -> t' = t).

Lemma touched_sameTurn t t' : touched t t' -> sameTurn t t'.
Proof.
  intros [Hf Heq]. split_and!; [by apply Hf|unfold itemsOf, arrField; by rewrite Hf|done].
Qed.

(** Synchronisation is idempotent under redelivery: applying the same page
    and checkpoint again to the thread it produced leaves every sealed turn as
    it was and duplicates neither a turn nor an item of the active turn. *)
Theorem materialize_idempotent `{EventLookup} cached response cursor cursor' :
  sync_ok cached response -> page_sealed response -> isReset response = false ->
  let th := (materializeThreadSync cached response cursor).1 in
  let th' := (materializeThreadSync (Some th) response cursor').1 in
  Forall2 sameTurn (turnsOf th) (turnsOf th').
Proof.
  intros Hok Hpage Hdelta th th'.
  destruct (first_delivery cached response cursor Hok Hpage Hdelta) as (_ & k1 & Ht & HF1).
  pose proof (second_ok cached response cursor Hok Hpage Hdelta) as Hok2. fold th in Ht, Hok2.
  destruct (first_delivery (Some th) response cursor' Hok2 Hpage Hdelta) as (_ & k2 & Ht2 & HF2).
  fold th' in Ht2. unfold th in Ht2 at 1. rewrite second_page in Ht2 by done.
  pose proof (second_active cached response cursor Hok Hpage Hdelta) as Hact. fold th in Hact.
  rewrite Ht2, Ht. apply Forall2_app.
  { apply Forall_Forall2_diag, Forall_forall. intros t _. done. }
  pose proof (active_progress cached response Hok Hpage) as Hprog.
  destruct (mergeActiveTurnCheckpoint cached (activeTurn response)) as [a'|] eqn:Ea.
  - apply Forall2_cons_inv_l in HF1 as (x1 & ? & Hx1 & Hnil & ->). apply Forall2_nil_inv_l in Hnil as ->.
    destruct (Hact a' x1 eq_refl) as (a2 & Ha2 & Hid & Hitems); [rewrite Ht; set_solver|done|].
    rewrite Ha2 in HF2. apply Forall2_cons_inv_l in HF2 as (x2 & ? & Hx2 & Hnil & ->).
    apply Forall2_nil_inv_l in Hnil as ->. constructor; [|done].
    destruct (touched_sameTurn _ _ Hx1) as (H1 & H2 & _), (touched_sameTurn _ _ Hx2) as (H3 & H4 & _).
    split_and!; [congruence|congruence|]. unfold inProgress.
    rewrite (touched_field _ _ _ Hx1) by done. specialize (Hprog a'). unfold inProgress in Hprog.
    rewrite Hprog by (by left). done.
  - apply Forall2_nil_inv_l in HF1 as ->. destruct (activeTurn response) as [a|] eqn:Eact.
    + pose proof (so_active _ _ Hok) as Hsa. rewrite Eact in Hsa.
      destruct (checkpoint_merged cached a Hsa (so_cached _ _ Hok)) as (? & ? & _). congruence.
    + simpl in HF2. by apply Forall2_nil_inv_l in HF2 as ->.
Qed.

(** *** What parsing guarantees *)

Lemma notLoaded_isTurn t : isMetadataOnlyTurnEnvelope t = true -> isTurn (notLoadedTurn t) = true.
Proof.
  unfold isMetadataOnlyTurnEnvelope, isTurn, notLoadedTurn, setItems.
  destruct t as [| | | | |o]; try done. simpl. intros H. bool_prop.
  unfold oget, oset. rewrite mget_mset_ne, mget_mset_ne by done.
  rewrite mget_mset_ne, mget_mset_ne by done. rewrite mget_mset_ne, mget_mset_eq by done.
  rewrite !andb_true_iff, !bool_decide_eq_true. split_and!; [done..|by eexists].
Qed.

Lemma parseActiveTurn_isTurn v t : parseActiveTurn v = Some (Some t) -> isTurn t = true.
Proof.
  unfold parseActiveTurn, isContentBackedMetadataOnlyTurnEnvelope.
  destruct v as [v|]; [|done]. intros H. destruct (isTurn v) eqn:Et; [by destruct v; simplify_eq/=|].
  destruct (isMetadataOnlyTurnEnvelope v) eqn:Em; simpl in H; [|by destruct v].
  apply notLoaded_isTurn in Em. repeat case_match; by simplify_eq.
Qed.

Lemma parseHistoryTurns_isTurn v ts : parseHistoryTurns v = Some ts -> Forall (fun t => isTurn t = true) ts.
Proof.
  unfold parseHistoryTurns. destruct (asArray v) as [l|]; [|done]. cbn [mbind option_bind].
  intros H%mapM_Some. induction H as [|x y l ts Hxy _ IH]; constructor; [|done].
  revert Hxy. unfold parseHistoryTurn.
  destruct (isTurn x) eqn:E; [intros [= <-]; done|].
  destruct (isMetadataOnlyTurnEnvelope x) eqn:E2; [|done]. intros [= <-]. by apply notLoaded_isTurn.
Qed.

Lemma readWitness_bounded v w :
  readWitness v = Some (Some w) -> 0 < length w <= MAX_SOURCE_WITNESS_LENGTH.
Proof.
  unfold readWitness, isThreadHistorySourceWitness. destruct v as [[| | |s| |]|]; try done.
  destruct (_ && _) eqn:E; [|done]. intros [= <-]. bool_prop. lia.
Qed.

(** A sync response is accepted whole or not at all, and an accepted one
    is usable: every turn of the page and the checkpoint has an id, a status
    and an item list (an envelope whose items were evicted becomes an empty
    turn marked not loaded), the cursor is a safe natural number, the source
    witness is bounded, and only read models 3 and 4 are understood, the
    former without settings. *)
Theorem parse_response_sound v r :
  parseThreadSyncResponse v = Some r ->
  Forall (fun t => isTurn t = true) (hturns (history r)) /\
  from_option (fun t => isTurn t = true) True (activeTurn r) /\
  isThread (sync_thread r) = true /\
  (0 <= throughCursor r <= max_safe_integer)%Z /\
  from_option (fun w => 0 < length w <= MAX_SOURCE_WITNESS_LENGTH) True (sourceWitness (history r)) /\
  ((readModelVersion r = 3%Z /\ sync_settings r = None) \/ readModelVersion r = 4%Z).
Proof.
  unfold parseThreadSyncResponse, mbind, option_bind. intros H.
  repeat (case_match; [|done]). destruct (negb (isThread _)) eqn:Et; [done|].
  apply negb_false_iff in Et.
  match type of H with match ?s with _ => _ end = _ => destruct s as [settings|] eqn:Es; [|done] end.
  simplify_eq/=. split; [|split; [|split; [|split; [|split]]]].
  - by eapply parseHistoryTurns_isTurn.
  - match goal with H : parseActiveTurn _ = Some ?a |- _ => destruct a eqn:?; [|done] end.
    simpl. by eapply parseActiveTurn_isTurn.
  - done.
  - match goal with H : asSafeNat _ = Some _ |- _ => by apply asSafeNat_Some in H as [_ ?] end.
  - match goal with H : readWitness _ = Some ?w |- _ => destruct w eqn:?; [|done] end.
    simpl. by eapply readWitness_bounded.
  - match goal with H : readVersion _ = Some _ |- _ => unfold readVersion in H end.
    repeat case_match; simplify_eq; [left|right]; done.
Qed.

(** *** Demonstrations *)

Definition demo_item (id text : string) : json :=
  JObj [("type", JStr (js "agentMessage")); ("id", JStr (js id)); ("text", JStr (js text))].
Definition demo_turn (id status : string) (items : list json) : json :=
  JObj [("id", JStr (js id)); ("status", JStr (js status)); ("items", JArr items)].
Definition demo_sync_thread (turns : list json) : json :=
  JObj [("id", JStr (js "t")); ("cwd", JStr (js "/w")); ("turns", JArr turns);
        ("status", JObj [("type", JStr (js "idle"))])].
Definition demo_cache : json :=
  demo_sync_thread [demo_turn "a" "completed" [demo_item "a1" "hi"];
                    demo_turn "c" "inProgress" [demo_item "c1" "Hello wor"]].
Definition demo_wire : json :=
  JObj [("activeTurn", demo_turn "c" "inProgress" [demo_item "c1" "Hello"]);
        ("history", JObj [("hasMore", JBool false); ("headTurnId", JStr (js "b"));
                          ("kind", JStr (js "delta")); ("olderCursor", JNull);
                          ("turns", JArr [JObj [("id", JStr (js "b")); ("status", JStr (js "failed"))]])]);
        ("readModelVersion", JNum (NInt 4)); ("thread", demo_sync_thread []);
        ("throughCursor", JNum (NInt 9));
        ("executionSettings",
          JObj [("approvalPolicy", JStr (js "never")); ("effort", JNull); ("model", JStr (js "m"));
                ("permissions", JNull); ("sandboxPolicy", JStr (js "ro")); ("serviceTier", JNull)])].

Definition demo_response : ThreadSyncResponse :=
  {| activeTurn := Some (demo_turn "c" "inProgress" [demo_item "c1" "Hello"]);
     history := {| hasMore := false; headTurnId := Some (js "b"); hkind := HistoryDelta;
                   olderCursor := None; sourceWitness := None;
                   hturns := [JObj [("id", JStr (js "b")); ("status", JStr (js "failed"));
                                    ("items", JArr []); ("itemsView", JStr (js "notLoaded"))]] |};
     sync_thread := demo_sync_thread []; throughCursor := 9;
     sync_settings := Some {| seed_model := js "m"; seed_modelLabel := None; seed_effort := None;
                              seed_serviceTier := None; seed_permissions := None;
                              seed_approvalPolicy := Some (js "never");
                              seed_sandboxPolicy := Some (js "ro") |};
     readModelVersion := 4 |}.

Lemma parse_response_sound_witness :
  parseThreadSyncResponse (Some demo_wire) = Some demo_response /\
  isThread (sync_thread demo_response) = true.
Proof.
  assert (parseThreadSyncResponse (Some demo_wire) = Some demo_response) as H
    by (vm_compute; reflexivity).
  split; [exact H|]. exact (proj1 (proj2 (proj2 (parse_response_sound _ _ H)))).
Defined.

Lemma wf_turn_b t items :
  field "items" t = Some (JArr items) -> bool_decide (NoDup (ids items)) = true -> wf_turn t.
Proof.
  intros Hi Hnd. split; [by eexists|]. unfold itemsOf, arrField. rewrite Hi.
  by apply bool_decide_eq_true in Hnd.
Qed.

Lemma wf_payload_b o items id :
  oget "items" o = Some (JArr items) -> bool_decide (NoDup (ids items)) = true ->
  oget "id" o = Some (JStr id) -> bool_decide (NoDup (mkeys o)) = true -> wf_payload (JObj o).
Proof.
  intros Hi Hnd Hid Ho. split; [by eapply wf_turn_b|]. split; [by exists id|].
  exists o. split; [done|]. by apply bool_decide_eq_true in Ho.
Qed.

Lemma demo_sync_ok : sync_ok (Some demo_cache) demo_response.
Proof.
  split.
  - by eexists.
  - split; [by eexists|]. split; [apply (bool_decide_eq_true_1 _); by vm_compute|].
    apply Forall_forall. intros t [->|[->|Ht]%elem_of_cons]%elem_of_cons; [| |by apply elem_of_nil in Ht];
      eapply wf_turn_b; by vm_compute.
  - constructor; [|done]. eapply wf_payload_b; by vm_compute.
  - eapply wf_payload_b; by vm_compute.
  - intros a t [= <-] Ht. change (t ∈ [demo_turn "a" "completed" [demo_item "a1" "hi"];
      JObj [("id", JStr (js "b")); ("status", JStr (js "failed"));
            ("items", JArr []); ("itemsView", JStr (js "notLoaded"))]]) in Ht.
    apply elem_of_cons in Ht as [->|Ht]; [by vm_compute|].
    apply list_elem_of_singleton in Ht as ->. by vm_compute.
Qed.

Lemma materialize_turns_witness :
  wf_thread (@materializeThreadSync searchLookup (Some demo_cache) demo_response None).1 /\
  ids (turnsOf (@materializeThreadSync searchLookup (Some demo_cache) demo_response None).1)
  = [Some (JStr (js "a")); Some (JStr (js "b")); Some (JStr (js "c"))].
Proof.
  split; [|vm_compute; reflexivity].
  exact (proj1 (@materialize_turns searchLookup (Some demo_cache) demo_response None demo_sync_ok)).
Defined.

Lemma materialize_idempotent_witness :
  let th := (@materializeThreadSync searchLookup (Some demo_cache) demo_response None).1 in
  Forall2 sameTurn (turnsOf th)
    (turnsOf (@materializeThreadSync searchLookup (Some th) demo_response None).1).
Proof.
  apply (@materialize_idempotent searchLookup (Some demo_cache) demo_response None None demo_sync_ok).
  - split; [|split]; [|by repeat constructor|done]. apply NoDup_singleton.
  - reflexivity.
Defined.
