(* ===== verification/ListStream.v ===== *)
(** * The thread-list stream

    Models apps/android/src/data/threadListRow.ts (the wire adapter) and
    threadListStream.ts (the sessions, the race rule and the ingress). *)
From S2P Require Import Prelude JsMap Json Readers CursorSync.
Import LiveActivity.

Local Open Scope nat_scope.

(** ** Rows and frames *)

Definition MAX_ROWS_PER_FRAME : nat := 100.
Definition MAX_THREAD_ID_CHARS : nat := 256.

(** [{ status: "ok", value }] and [{ status: "error", error }]. *)
Inductive ListRowParse (A : Type) := ParseOk (value : A) | ParseError (error : string).
Arguments ParseOk {A} value.
Arguments ParseError {A} error.

Record ListRowMeta :=
  { row_archived : bool; row_cursor : Z; row_liveActivity : option LiveActivity }.

Record ThreadListRow := { meta : ListRowMeta; row_thread : json; row_threadId : jstr }.

Record RowTombstone := { tomb_cursor : Z; tomb_threadId : jstr }.

Record ThreadListRowsFrame := { removed : list RowTombstone; rows : list ThreadListRow }.

Definition isListRowThreadId (value : option json) : option jstr :=
  s ← asString value;
  if bool_decide (s = []) || (MAX_THREAD_ID_CHARS <? length s) then None else Some s.

Definition parseRowActivity (value : json) : option LiveActivity :=
  if bool_decide (value = JNull) then None else parseLiveActivity (Some value).

Definition parseListRowMeta (value : option json) : option ListRowMeta :=
  meta ← asObject value;
  cursor ← asSafeNat (oget "cursor" meta);
  archived ← asBool (oget "archived" meta);
  activity ← oget "liveActivity" meta;
  Some {| row_archived := archived; row_cursor := cursor;
          row_liveActivity := parseRowActivity activity |}.

Definition isNum (value : option json) : bool :=
  match value with Some (JNum _) => true | _ => false end.

Definition parseThreadListRow (value : json) : ListRowParse ThreadListRow :=
  if negb (isThread value) || bool_decide (asString (field "preview" value) = None)
     || negb (isNum (field "updatedAt" value))
  then ParseError "invalid thread metadata"
  else
    match isListRowThreadId (field "id" value) with
    | None => ParseError "invalid thread id"
    | Some threadId =>
        match parseListRowMeta (field "codewideList" value) with
        | None => ParseError "invalid list metadata"
        | Some meta => ParseOk {| meta := meta; row_thread := value; row_threadId := threadId |}
        end
    end.

Definition parseTombstone (value : json) : option RowTombstone :=
  threadId ← isListRowThreadId (field "threadId" value);
  cursor ← asSafeNat (field "cursor" value);
  Some {| tomb_cursor := cursor; tomb_threadId := threadId |}.

(** Whether the id is new, and the ids seen so far. *)
Definition claimThreadId (seen : list jstr) (threadId : jstr) : bool * list jstr :=
  if shas threadId seen then (false, seen) else (true, sadd threadId seen).

Fixpoint parseFrameRows (candidates : list json) (seen : list jstr)
    : ListRowParse (list ThreadListRow) * list jstr :=
  match candidates with
  | [] => (ParseOk [], seen)
  | candidate :: rest =>
      match parseThreadListRow candidate with
      | ParseError error => (ParseError error, seen)
      | ParseOk row =>
          let '(claimed, seen) := claimThreadId seen (row_threadId row) in
          if negb claimed then (ParseError "repeated thread id", seen)
          else
            match parseFrameRows rest seen with
            | (ParseOk rows, seen) => (ParseOk (row :: rows), seen)
            | (ParseError error, seen) => (ParseError error, seen)
            end
      end
  end.

Definition parseThreadListRows (candidates : list json) : ListRowParse (list ThreadListRow) :=
  (parseFrameRows candidates []).1.

Fixpoint parseFrameTombstones (candidates : list json) (seen : list jstr)
    : ListRowParse (list RowTombstone) :=
  match candidates with
  | [] => ParseOk []
  | candidate :: rest =>
      match parseTombstone candidate with
      | None => ParseError "invalid tombstone"
      | Some tombstone =>
          let '(claimed, seen) := claimThreadId seen (tomb_threadId tombstone) in
          if negb claimed then ParseError "repeated thread id"
          else
            match parseFrameTombstones rest seen with
            | ParseOk removed => ParseOk (tombstone :: removed)
            | ParseError error => ParseError error
            end
      end
  end.

(** The frame's [rows] and [removed]. *)
Definition frameEntries (value : json) : ListRowParse (list json * list json) :=
  match isStr (field "type" value) "threadListRows", asArray (field "rows" value),
        asArray (field "removed" value) with
  | true, Some rows, Some removed =>
      let size := length rows + length removed in
      if (size =? 0) || (MAX_ROWS_PER_FRAME <? size) then ParseError "invalid frame size"
      else ParseOk (rows, removed)
  | _, _, _ => ParseError "invalid frame envelope"
  end.

Definition parseThreadListRowsFrame (value : json) : ListRowParse ThreadListRowsFrame :=
  match frameEntries value with
  | ParseError error => ParseError error
  | ParseOk (rows, removed) =>
      match parseFrameRows rows [] with
      | (ParseError error, _) => ParseError error
      | (ParseOk rows, seen) =>
          match parseFrameTombstones removed seen with
          | ParseError error => ParseError error
          | ParseOk removed => ParseOk {| removed := removed; rows := rows |}
          end
      end
  end.

(** ** Sessions and the race rule *)

Definition MAX_TOMBSTONES : nat := 1024.

Record SessionState :=
  { cursors : list (jstr * Z); sess_generation : option Z; tombstones : list (jstr * Z) }.

Definition emptySession (generation : option Z) : SessionState :=
  {| cursors := []; sess_generation := generation; tombstones := [] |}.

Abbreviation Sessions := (list (jstr * SessionState)).

(** The session, created when there is none. *)
Definition sessionOf (connectionId : jstr) (sessions : Sessions) : SessionState :=
  default (emptySession None) (mget connectionId sessions).

Definition rememberTombstone (session : SessionState) (threadId : jstr) (cursor : Z)
    : SessionState :=
  let kept := mset threadId cursor (mdel threadId (tombstones session)) in
  {| cursors := cursors session; sess_generation := sess_generation session;
     tombstones :=
       if MAX_TOMBSTONES <? length kept then
         match kept with
         | (oldest, _) :: _ => mdel oldest kept
         | [] => kept
         end
       else kept |}.

(** The methods on the session of the connection. *)
Definition admitRowS (threadId : jstr) (cursor : Z) (session : SessionState)
    : SessionState * bool :=
  let check (session : SessionState) :=
    match mget threadId (cursors session) with
    | Some entry =>
        if (cursor <? entry)%Z then (session, false)
        else ({| cursors := mset threadId cursor (cursors session);
                 sess_generation := sess_generation session;
                 tombstones := tombstones session |}, true)
    | None => ({| cursors := mset threadId cursor (cursors session);
                  sess_generation := sess_generation session;
                  tombstones := tombstones session |}, true)
    end in
  match mget threadId (tombstones session) with
  | Some removedAt =>
      if (cursor <? removedAt)%Z then (session, false)
      else check {| cursors := cursors session; sess_generation := sess_generation session;
                    tombstones := mdel threadId (tombstones session) |}
  | None => check session
  end.

Definition admitTombstoneS (threadId : jstr) (cursor : Z) (session : SessionState)
    : SessionState * bool :=
  let admitting :=
    (rememberTombstone {| cursors := mset threadId cursor (cursors session);
                          sess_generation := sess_generation session;
                          tombstones := tombstones session |} threadId cursor, true) in
  match mget threadId (cursors session) with
  | Some entry => if (cursor <? entry)%Z then (session, false) else admitting
  | None => admitting
  end.

Definition admitRow (connectionId threadId : jstr) (cursor : Z) (sessions : Sessions)
    : Sessions * bool :=
  let '(session, admitted) := admitRowS threadId cursor (sessionOf connectionId sessions) in
  (mset connectionId session sessions, admitted).

Definition admitTombstone (connectionId threadId : jstr) (cursor : Z) (sessions : Sessions)
    : Sessions * bool :=
  let '(session, admitted) := admitTombstoneS threadId cursor (sessionOf connectionId sessions) in
  (mset connectionId session sessions, admitted).

Definition raceGeneration (connectionId : jstr) (sessions : Sessions) : option Z :=
  mget connectionId sessions ≫= sess_generation.

Definition isCurrent (connectionId : jstr) (generation : option Z) (sessions : Sessions) : bool :=
  bool_decide (raceGeneration connectionId sessions = generation).

Definition newerThan (connectionId threadId : jstr) (cursor : Z) (sessions : Sessions) : bool :=
  match session ← mget connectionId sessions; mget threadId (cursors session) with
  | Some entry => (cursor <? entry)%Z
  | None => false
  end.

Definition observeGeneration (connectionId : jstr) (generation : Z) (sessions : Sessions)
    : Sessions :=
  if bool_decide (raceGeneration connectionId sessions = Some generation) then sessions
  else mset connectionId (emptySession (Some generation)) sessions.

Definition forgetConnection (connectionId : jstr) (sessions : Sessions) : Sessions :=
  mdel connectionId sessions.

Inductive ThreadListStreamSignal :=
| GenerationSignal (generation : jnum)
| RowsSignal (frame : json) (generation : jnum).

Definition signalGeneration (signal : ThreadListStreamSignal) : jnum :=
  match signal with GenerationSignal g | RowsSignal _ g => g end.

Inductive ThreadListStreamAcceptance := Accepted | Invalid (reason : string).

(** The acceptance, the sessions, and the frame handed to [applyRows]. *)
Definition accept (connectionId : jstr) (signal : ThreadListStreamSignal) (sessions : Sessions)
    : ThreadListStreamAcceptance * Sessions * option (Z * ThreadListRowsFrame) :=
  match asSafeNat (Some (JNum (signalGeneration signal))) with
  | None => (Invalid "invalid generation", sessions, None)
  | Some generation =>
      match signal with
      | GenerationSignal _ => (Accepted, observeGeneration connectionId generation sessions, None)
      | RowsSignal frame _ =>
          if negb (isCurrent connectionId (Some generation) sessions) then (Accepted, sessions, None)
          else
            match parseThreadListRowsFrame frame with
            | ParseError error => (Invalid error, sessions, None)
            | ParseOk frame => (Accepted, sessions, Some (generation, frame))
            end
      end
  end.

(** ** The race rule, specified *)

Inductive RaceEvent :=
| RowAt (connectionId threadId : jstr) (cursor : Z)
| TombstoneAt (connectionId threadId : jstr) (cursor : Z)
| Forget (connectionId : jstr).

Definition raceStep (e : RaceEvent) (sessions : Sessions) : Sessions * bool :=
  match e with
  | RowAt c t n => admitRow c t n sessions
  | TombstoneAt c t n => admitTombstone c t n sessions
  | Forget c => (forgetConnection c sessions, false)
  end.

Fixpoint decisions (es : list RaceEvent) (sessions : Sessions) : list bool :=
  match es with
  | [] => []
  | e :: es => let '(sessions, b) := raceStep e sessions in b :: decisions es sessions
  end.

(** The change an event offers for a thread of a connection. *)
Definition offer (e : RaceEvent) : option (jstr * jstr * Z) :=
  match e with
  | RowAt c t n | TombstoneAt c t n => Some (c, t, n)
  | Forget _ => None
  end.

(** The newest cursor offered for a thread since its connection was last
    forgotten. *)
Definition newestStep (c t : jstr) (m : option Z) (e : RaceEvent) : option Z :=
  match e with
  | RowAt c' t' n | TombstoneAt c' t' n =>
      if bool_decide (c' = c) && bool_decide (t' = t)
      then Some (match m with Some m => Z.max m n | None => n end) else m
  | Forget c' => if bool_decide (c' = c) then None else m
  end.

Definition newest (c t : jstr) (past : list RaceEvent) : option Z :=
  foldl (newestStep c t) None past.

(** An event is admitted unless a newer change of its thread was offered. *)
Definition admitted (past : list RaceEvent) (e : RaceEvent) : bool :=
  match offer e with
  | Some (c, t, n) => match newest c t past with Some m => (m <=? n)%Z | None => true end
  | None => false
  end.

Fixpoint expected (past es : list RaceEvent) : list bool :=
  match es with
  | [] => []
  | e :: es => admitted past e :: expected (past ++ [e]) es
  end.

(** *** One session *)

Record session_ok (newest : jstr -> option Z) (s : SessionState) : Prop :=
  { so_cursors : forall t, mget t (cursors s) = newest t;
    so_tombs : forall t n, mget t (tombstones s) = Some n -> exists m, newest t = Some m /\ (n <= m)%Z;
    so_wf : mwf (tombstones s);
    so_bound : length (tombstones s) <= MAX_TOMBSTONES }.

Definition newer (n : Z) (m : option Z) : option Z :=
  Some (match m with Some m => Z.max m n | None => n end).

Lemma session_ok_ext f g s : (forall t, f t = g t) -> session_ok f s -> session_ok g s.
Proof. intros Hfg [H1 H2 H3 H4]. split; [|setoid_rewrite <- Hfg|..]; try done. intros t. by rewrite <- Hfg. Qed.

(** Admitting or refusing an entry both leave the newest cursor recorded. *)
Lemma admitRow_ok f t n s :
  session_ok f s ->
  (admitRowS t n s).2 = match f t with Some m => (m <=? n)%Z | None => true end /\
  session_ok (fun u => if bool_decide (t = u) then newer n (f u) else f u) (admitRowS t n s).1.
Proof.
  intros [Hc Ht Hw Hb]. unfold admitRowS.
  assert (forall ts, mwf ts -> (length ts <= MAX_TOMBSTONES)%nat ->
    (forall u x, mget u ts = Some x -> mget u (tombstones s) = Some x) ->
    let s0 := {| cursors := cursors s; sess_generation := sess_generation s; tombstones := ts |} in
    let r := match mget t (cursors s0) with
      | Some entry => if (n <? entry)%Z then (s0, false)
         else ({| cursors := mset t n (cursors s0); sess_generation := sess_generation s0;
                  tombstones := tombstones s0 |}, true)
      | None => ({| cursors := mset t n (cursors s0); sess_generation := sess_generation s0;
                    tombstones := tombstones s0 |}, true) end in
    r.2 = match f t with Some m => (m <=? n)%Z | None => true end /\
    session_ok (fun u => if bool_decide (t = u) then newer n (f u) else f u) r.1) as Hcheck.
  { intros ts Hwt Hbt Hsub s0 r. subst r s0. simpl. rewrite Hc.
    assert (forall u x, mget u ts = Some x -> exists m,
      (if bool_decide (t = u) then newer n (f u) else f u) = Some m /\ (x <= m)%Z) as Hts.
    { intros u x Hx%Hsub%Ht. destruct Hx as (m & Hm & Hle). rewrite Hm. unfold newer.
      case_bool_decide; eexists; (split; [done|lia]). }
    destruct (f t) as [m|] eqn:Ef; [destruct (n <? m)%Z eqn:En|]; bool_prop; simpl.
    - split; [symmetry; apply Z.leb_gt; lia|]. split; simpl; try done. intros u. rewrite Hc.
      case_bool_decide; [|done]. subst. rewrite Ef. unfold newer. do 2 f_equal. lia.
    - split; [symmetry; apply Z.leb_le; lia|]. split; simpl; try done. intros u. rewrite mget_mset.
      case_bool_decide; [|done]. subst. rewrite Ef. unfold newer. do 2 f_equal. lia.
    - split; [done|]. split; simpl; try done. intros u. rewrite mget_mset.
      case_bool_decide; [|done]. subst. by rewrite Ef. }
  destruct (mget t (tombstones s)) as [r|] eqn:Er.
  - destruct (n <? r)%Z eqn:En.
    + bool_prop. destruct (Ht _ _ Er) as (m & Hm & Hle). simpl. rewrite Hm.
      split; [symmetry; apply Z.leb_gt; lia|]. split; try done.
      * intros u. rewrite Hc. case_bool_decide; [|done]. subst. rewrite Hm. unfold newer.
        f_equal. lia.
      * intros u x Hx. destruct (Ht _ _ Hx) as (m' & Hm' & ?). rewrite Hm'. unfold newer.
        case_bool_decide; eexists; (split; [done|lia]).
    + apply Hcheck; [by apply mdel_wf|pose proof (mdel_le t (tombstones s)); lia|].
      intros u x. rewrite mget_mdel. by case_bool_decide.
  - specialize (Hcheck (tombstones s) Hw Hb (fun _ _ H => H)). by destruct s.
Qed.

Lemma remember_tombs s t n u x :
  mget u (tombstones (rememberTombstone s t n)) = Some x ->
  (u = t /\ x = n) \/ mget u (tombstones s) = Some x.
Proof.
  unfold rememberTombstone. simpl.
  assert (mget u (mset t n (mdel t (tombstones s))) = Some x ->
          (u = t /\ x = n) \/ mget u (tombstones s) = Some x) as H.
  { rewrite mget_mset, mget_mdel. case_bool_decide; [|by auto]. intros [= ->]. auto. }
  destruct (_ <? _); [|done]. destruct (mset t n _) as [|[o v] l] eqn:El; [done|].
  rewrite mget_mdel. by case_bool_decide.
Qed.

Lemma remember_bound s t n :
  mwf (tombstones s) -> length (tombstones s) <= MAX_TOMBSTONES ->
  mwf (tombstones (rememberTombstone s t n)) /\
  length (tombstones (rememberTombstone s t n)) <= MAX_TOMBSTONES.
Proof.
  intros Hw Hb. unfold rememberTombstone. cbn [tombstones].
  assert (mwf (mset t n (mdel t (tombstones s)))) as Hw' by auto with codewide.
  assert (length (mset t n (mdel t (tombstones s))) <= S MAX_TOMBSTONES)%nat as Hl.
  { rewrite mset_length. pose proof (mdel_le t (tombstones s)). case_bool_decide; lia. }
  destruct (_ <? _) eqn:E; bool_prop; [|by split].
  destruct (mset t n _) as [|[o v] l] eqn:El; [cbn [length] in E; lia|].
  split; [by apply mdel_wf|]. pose proof (mdel_length o ((o, v) :: l) Hw').
  rewrite mkeys_cons in H. specialize (H (list_elem_of_here _ _)). lia.
Qed.

Lemma admitTombstone_ok f t n s :
  session_ok f s ->
  (admitTombstoneS t n s).2 = match f t with Some m => (m <=? n)%Z | None => true end /\
  session_ok (fun u => if bool_decide (t = u) then newer n (f u) else f u) (admitTombstoneS t n s).1.
Proof.
  intros Hs. pose proof Hs as [Hc Ht Hw Hb]. unfold admitTombstoneS. rewrite Hc.
  set (admitting := (rememberTombstone _ _ _, true)).
  assert (match f t with Some m => (m <= n)%Z | None => True end ->
    session_ok (fun u => if bool_decide (t = u) then newer n (f u) else f u) admitting.1) as Hadm.
  { intros Hle. subst admitting. cbn [fst].
    destruct (remember_bound {| cursors := mset t n (cursors s); sess_generation := sess_generation s;
      tombstones := tombstones s |} t n Hw Hb) as [Hw' Hb'].
    split; [| |exact Hw'|exact Hb'].
    - intros u. cbn [cursors rememberTombstone]. rewrite mget_mset.
      case_bool_decide; [|by rewrite Hc]. subst. unfold newer. destruct (f u); [f_equal; lia|done].
    - intros u x [[-> ->]|Hx]%remember_tombs.
      + rewrite bool_decide_true by done. eexists. split; [done|]. destruct (f t); lia.
      + destruct (Ht _ _ Hx) as (m & Hm & ?). rewrite Hm. unfold newer.
        case_bool_decide; eexists; (split; [done|lia]). }
  destruct (f t) as [m|] eqn:Ef; [destruct (n <? m)%Z eqn:En|]; bool_prop.
  - split; [symmetry; apply Z.leb_gt; lia|]. cbn [fst]. destruct Hs as [_ _ _ _]. split; try done.
    + intros u. rewrite Hc. case_bool_decide; [|done]. subst. rewrite Ef. unfold newer. f_equal. lia.
    + intros u x Hx. destruct (Ht _ _ Hx) as (m' & Hm' & ?). rewrite Hm'. unfold newer.
      case_bool_decide; eexists; (split; [done|lia]).
  - split; [symmetry; apply Z.leb_le; lia|]. by apply Hadm.
  - split; [done|]. by apply Hadm.
Qed.

(** *** All sessions *)

Definition sessions_ok (past : list RaceEvent) (sessions : Sessions) : Prop :=
  forall c, session_ok (fun t => newest c t past) (sessionOf c sessions).

Lemma newest_snoc c t past e : newest c t (past ++ [e]) = newestStep c t (newest c t past) e.
Proof. unfold newest. by rewrite foldl_snoc. Qed.

Lemma sessions_step past e sessions :
  sessions_ok past sessions ->
  (raceStep e sessions).2 = admitted past e /\ sessions_ok (past ++ [e]) (raceStep e sessions).1.
Proof.
  intros Hs. destruct e as [c t n|c t n|c]; simpl.
  - unfold admitRow. destruct (admitRow_ok _ t n _ (Hs c)) as [Hd Hok].
    destruct (admitRowS t n _) as [s b]. simpl in *. split; [done|]. intros c'.
    unfold sessionOf. rewrite mget_mset. case_bool_decide as Hcc; simpl.
    + subst. eapply session_ok_ext; [|exact Hok]. intros u. simpl. rewrite newest_snoc. simpl.
      rewrite (bool_decide_true (c' = c')) by done. simpl. by case_bool_decide.
    + eapply session_ok_ext; [|exact (Hs c')]. intros u. simpl. rewrite newest_snoc. simpl.
      by rewrite (bool_decide_false (c = c')).
  - unfold admitTombstone. destruct (admitTombstone_ok _ t n _ (Hs c)) as [Hd Hok].
    destruct (admitTombstoneS t n _) as [s b]. simpl in *. split; [done|]. intros c'.
    unfold sessionOf. rewrite mget_mset. case_bool_decide as Hcc; simpl.
    + subst. eapply session_ok_ext; [|exact Hok]. intros u. simpl. rewrite newest_snoc. simpl.
      rewrite (bool_decide_true (c' = c')) by done. simpl. by case_bool_decide.
    + eapply session_ok_ext; [|exact (Hs c')]. intros u. simpl. rewrite newest_snoc. simpl.
      by rewrite (bool_decide_false (c = c')).
  - split; [done|]. intros c'. unfold sessionOf, forgetConnection. rewrite mget_mdel.
    case_bool_decide as Hcc; simpl.
    + subst. split; simpl; [|done|apply NoDup_nil_2|lia].
      intros u. rewrite newest_snoc. simpl. by rewrite bool_decide_true.
    + eapply session_ok_ext; [|exact (Hs c')]. intros u. simpl. rewrite newest_snoc. simpl.
      by rewrite (bool_decide_false (c = c')).
Qed.

Lemma sessions_ok_nil : sessions_ok [] [].
Proof. intros c. split; simpl; [done|done|apply NoDup_nil_2|lia]. Qed.

Lemma decisions_expected past es sessions :
  sessions_ok past sessions -> decisions es sessions = expected past es.
Proof.
  revert past sessions. induction es as [|e es IH]; intros past sessions Hs; simpl; [done|].
  destruct (sessions_step past e sessions Hs) as [Hd Hok].
  destruct (raceStep e sessions) as [s b]. simpl in *. subst. f_equal. by apply IH.
Qed.

Lemma race_decisions es : decisions es [] = expected [] es.
Proof. apply decisions_expected, sessions_ok_nil. Qed.

(** No event forgets the connection. *)
Definition Forgetless (c : jstr) (es : list RaceEvent) : Prop := Forall (fun e => e <> Forget c) es.

(** Rows, removals and pages race by cursor alone: over any sequence of
    pushes, page reads and disconnects of any connections, a change is admitted
    exactly when no newer change of its thread was offered in the session, so
    forgetting all but 1024 removals never lets an older row through. *)
Theorem race_admits_newest es :
  decisions es [] = expected [] es.
Proof. apply race_decisions. Qed.

(** *** Convergence *)

(** The last admitted event of a thread: what the store holds of it. *)
Definition held (c t : jstr) (es : list RaceEvent) : option RaceEvent :=
  foldl (fun held '(e, b) =>
    if (b : bool) && bool_decide ((fst <$> offer e) = Some (c, t)) then Some e else held)
    None (zip es (decisions es [])).

Lemma expected_snoc past es e :
  expected past (es ++ [e]) = expected past es ++ [admitted (past ++ es) e].
Proof.
  revert past. induction es as [|x es IH]; intros past; simpl; [by rewrite app_nil_r|].
  by rewrite IH, <- app_assoc.
Qed.

Lemma length_expected past es : length (expected past es) = length es.
Proof. revert past. induction es as [|e es IH]; intros past; simpl; [done|]. by rewrite IH. Qed.

Lemma held_snoc c t es e :
  held c t (es ++ [e]) =
  if admitted es e && bool_decide ((fst <$> offer e) = Some (c, t)) then Some e else held c t es.
Proof.
  unfold held. rewrite !race_decisions, expected_snoc, zip_with_app, foldl_app; [done|].
  by rewrite length_expected.
Qed.

Definition offers (c t : jstr) (n : Z) (e : RaceEvent) : Prop := offer e = Some (c, t, n).

Lemma newestStep_spec c t m e :
  e <> Forget c ->
  newestStep c t m e =
  match offer e with
  | Some (c', t', n) => if bool_decide ((c', t') = (c, t)) then newer n m else m
  | None => m
  end.
Proof.
  destruct e as [c' t' n|c' t' n|c']; simpl; intros Hf.
  - repeat case_bool_decide; naive_solver.
  - repeat case_bool_decide; naive_solver.
  - by rewrite bool_decide_false by congruence.
Qed.

(** The newest cursor is the largest of those offered, and what is held
    offered it. *)
Lemma held_newest c t es :
  Forgetless c es ->
  match newest c t es, held c t es with
  | Some n, Some e => e ∈ es /\ offers c t n e /\
      (forall m e', e' ∈ es -> offers c t m e' -> (m <= n)%Z)
  | None, None => forall m e', e' ∈ es -> ~ offers c t m e'
  | _, _ => False
  end.
Proof.
  unfold Forgetless. induction es as [|e es IH] using rev_ind; intros Hf.
  { intros m e' He. by apply elem_of_nil in He. }
  apply Forall_app in Hf as [Hf He]. apply Forall_cons in He as [He _]. specialize (IH Hf).
  rewrite newest_snoc, held_snoc. rewrite newestStep_spec; [|exact He]. unfold admitted.
  destruct (offer e) as [[[c' t'] n]|] eqn:Eo; cbn [fmap option_fmap option_map fst].
  2: { simpl. destruct (newest c t es), (held c t es); try done.
       - destruct IH as (Hin & Ho & Hmax). split_and!; [set_solver|done|].
         intros m e' [He'| ->%list_elem_of_singleton]%elem_of_app Hoff; [by eapply Hmax|].
         unfold offers in Hoff. congruence.
       - intros m e' [He'| ->%list_elem_of_singleton]%elem_of_app Hoff; [by eapply IH|].
         unfold offers in Hoff. congruence. }
  destruct (decide ((c', t') = (c, t))) as [[= -> ->]|Hne].
  - rewrite !bool_decide_true, andb_true_r by done. unfold newer.
    destruct (newest c t es) as [x|], (held c t es) as [h|]; try done.
    + destruct IH as (Hin & Ho & Hmax). destruct (x <=? n)%Z eqn:Ex; bool_prop.
      * split_and!; [set_solver|unfold offers; rewrite Eo; do 3 f_equal; lia|].
        intros m e' [He'| ->%list_elem_of_singleton]%elem_of_app Hoff.
        { specialize (Hmax _ _ He' Hoff). lia. } unfold offers in Hoff. simplify_eq. lia.
      * split_and!; [set_solver|unfold offers in *; rewrite Ho; do 3 f_equal; lia|].
        intros m e' [He'| ->%list_elem_of_singleton]%elem_of_app Hoff.
        { specialize (Hmax _ _ He' Hoff). lia. } unfold offers in Hoff. simplify_eq. lia.
    + split_and!; [set_solver|done|].
      intros m e' [He'| ->%list_elem_of_singleton]%elem_of_app Hoff; [by destruct (IH _ _ He' Hoff)|].
      unfold offers in Hoff. simplify_eq. lia.
  - rewrite !(bool_decide_false ((c', t') = (c, t))) by done.
    rewrite (bool_decide_false (Some (c', t') = Some (c, t))), andb_false_r by congruence.
    destruct (newest c t es), (held c t es); try done.
    + destruct IH as (Hin & Ho & Hmax). split_and!; [set_solver|done|].
      intros m e' [He'| ->%list_elem_of_singleton]%elem_of_app Hoff; [by eapply Hmax|].
      unfold offers in Hoff. congruence.
    + intros m e' [He'| ->%list_elem_of_singleton]%elem_of_app Hoff; [by eapply IH|].
      unfold offers in Hoff. congruence.
Qed.

(** Rows and removals converge: whatever order pushes and page reads of a
    session arrive in, the store ends holding the same change of every thread,
    the one with the newest cursor. *)
Theorem race_converges c t es1 es2 :
  es1 ≡ₚ es2 -> Forgetless c es1 ->
  (forall e e' n, e ∈ es1 -> e' ∈ es1 -> offers c t n e -> offers c t n e' -> e = e') ->
  held c t es1 = held c t es2 /\
  from_option (fun e => exists n, offers c t n e /\
    forall m e', e' ∈ es1 -> offers c t m e' -> (m <= n)%Z) 
    (forall m e', e' ∈ es1 -> ~ offers c t m e') (held c t es1).
Proof.
  intros Hp Hf Hu. assert (Forgetless c es2) as Hf2 by (unfold Forgetless; by rewrite <- Hp).
  pose proof (held_newest c t es1 Hf) as H1. pose proof (held_newest c t es2 Hf2) as H2.
  destruct (newest c t es1) as [n1|], (held c t es1) as [e1|]; try done;
    destruct (newest c t es2) as [n2|], (held c t es2) as [e2|]; try done.
  - destruct H1 as (Hin1 & Ho1 & Hm1), H2 as (Hin2 & Ho2 & Hm2). split; [|simpl; eauto].
    rewrite <- Hp in Hin2. assert (n1 = n2) as ->.
    { apply Z.le_antisymm; [apply (Hm2 n1 e1); [by rewrite <- Hp|done]|by apply (Hm1 n2 e2)]. }
    f_equal. by apply (Hu e1 e2 n2).
  - destruct H1 as (Hin1 & Ho1 & _). rewrite Hp in Hin1. by destruct (H2 _ _ Hin1 Ho1).
  - destruct H2 as (Hin2 & Ho2 & _). rewrite <- Hp in Hin2. by destruct (H1 _ _ Hin2 Ho2).
Qed.

(** ** Frames *)

Definition rowIds (f : ThreadListRowsFrame) : list jstr :=
  (row_threadId <$> rows f) ++ (tomb_threadId <$> removed f).

(** An entry list is read whole: each candidate alone is valid, and no id is
    claimed twice. *)
Lemma frameRows_spec l seen rs seen' :
  NoDup seen ->
  parseFrameRows l seen = (ParseOk rs, seen') <->
  Forall2 (fun c r => parseThreadListRow c = ParseOk r) l rs /\
  seen' = seen ++ (row_threadId <$> rs) /\ NoDup seen'.
Proof.
  revert seen rs seen'. induction l as [|c l IH]; intros seen rs seen' Hnd; simpl.
  - split.
    + intros [= <- <-]. rewrite app_nil_r. by split_and!.
    + intros (Hl & -> & _). apply Forall2_nil_inv_l in Hl as ->. simpl. by rewrite app_nil_r.
  - destruct (parseThreadListRow c) as [r|] eqn:Er.
    2: { split; [done|]. intros (Hl & _). apply Forall2_cons_inv_l in Hl as (? & ? & ? & _). congruence. }
    unfold claimThreadId, shas, sadd. case_bool_decide as Hin; simpl.
    + split; [done|]. intros (Hl & -> & Hn). apply Forall2_cons_inv_l in Hl as (r' & rs' & Hr' & _ & ->).
      assert (r' = r) as -> by congruence.
      apply NoDup_app in Hn as (_ & Hd & _). destruct (Hd _ Hin). by left.
    + unfold shas. rewrite (bool_decide_false _ Hin).
      assert (NoDup (seen ++ [row_threadId r])) as Hnd'.
      { apply NoDup_app. split_and!; [done|set_solver|apply NoDup_singleton]. }
      transitivity (exists rs', rs = r :: rs' /\
        parseFrameRows l (seen ++ [row_threadId r]) = (ParseOk rs', seen')).
      { destruct (parseFrameRows l _) as [[rs'|e] s]; split; [|naive_solver..].
        intros [= <- <-]. eauto. }
      split.
      * intros (rs' & -> & (HF & -> & Hn)%IH); [|done]. split_and!; [by constructor| |done].
        by rewrite <- app_assoc.
      * intros (Hl & -> & Hn). apply Forall2_cons_inv_l in Hl as (r' & rs' & Hr' & HF & ->).
        assert (r' = r) as -> by congruence. exists rs'. split; [done|].
        rewrite fmap_cons in Hn |- *.
        rewrite (cons_middle _ seen (row_threadId <$> rs')), app_assoc in Hn |- *. by apply IH.
Qed.

Lemma frameTombstones_spec l seen ts :
  NoDup seen ->
  parseFrameTombstones l seen = ParseOk ts <->
  Forall2 (fun c t => parseTombstone c = Some t) l ts /\ NoDup (seen ++ (tomb_threadId <$> ts)).
Proof.
  revert seen ts. induction l as [|c l IH]; intros seen ts Hnd; simpl.
  - split.
    + intros [= <-]. by rewrite app_nil_r.
    + intros (Hl & _). by apply Forall2_nil_inv_l in Hl as ->.
  - destruct (parseTombstone c) as [r|] eqn:Er.
    2: { split; [done|]. intros (Hl & _). apply Forall2_cons_inv_l in Hl as (? & ? & ? & _). congruence. }
    unfold claimThreadId, shas, sadd. case_bool_decide as Hin; simpl.
    + split; [done|]. intros (Hl & Hn). apply Forall2_cons_inv_l in Hl as (r' & rs' & Hr' & _ & ->).
      assert (r' = r) as -> by congruence.
      apply NoDup_app in Hn as (_ & Hd & _). destruct (Hd _ Hin). by left.
    + unfold shas. rewrite (bool_decide_false _ Hin).
      assert (NoDup (seen ++ [tomb_threadId r])) as Hnd'.
      { apply NoDup_app. split_and!; [done|set_solver|apply NoDup_singleton]. }
      transitivity (exists ts', ts = r :: ts' /\
        parseFrameTombstones l (seen ++ [tomb_threadId r]) = ParseOk ts').
      { destruct (parseFrameTombstones l _) as [ts'|e]; split; naive_solver. }
      split.
      * intros (ts' & -> & (HF & Hn)%IH); [|done]. split; [by constructor|].
        by rewrite fmap_cons, cons_middle, app_assoc.
      * intros (Hl & Hn). apply Forall2_cons_inv_l in Hl as (r' & ts' & Hr' & HF & ->).
        assert (r' = r) as -> by congruence. exists ts'. split; [done|].
        rewrite fmap_cons, cons_middle, app_assoc in Hn. by apply IH.
Qed.

(** A pushed frame is taken whole or refused: it is accepted exactly when
    it is a [threadListRows] frame of 1 to 100 entries, every row and every
    removal is valid on its own, and no thread is named twice. *)
Theorem frame_all_or_nothing value f :
  parseThreadListRowsFrame value = ParseOk f <->
  exists rs ts,
    field "type" value = Some (JStr (js "threadListRows")) /\
    field "rows" value = Some (JArr rs) /\ field "removed" value = Some (JArr ts) /\
    1 <= length rs + length ts <= MAX_ROWS_PER_FRAME /\
    Forall2 (fun c r => parseThreadListRow c = ParseOk r) rs (rows f) /\
    Forall2 (fun c t => parseTombstone c = Some t) ts (removed f) /\
    NoDup (rowIds f).
Proof.
  unfold parseThreadListRowsFrame, frameEntries, rowIds.
  destruct (isStr (field "type" value) "threadListRows") eqn:Et.
  2: { split; [done|]. intros (rs & ts & H%isStr_spec & _). congruence. }
  apply isStr_spec in Et.
  destruct (asArray (field "rows" value)) as [rs|] eqn:Er.
  2: { split; [done|]. intros (rs & ts & _ & H%asArray_Some & _). congruence. }
  destruct (asArray (field "removed" value)) as [ts|] eqn:Em.
  2: { split; [done|]. intros (rs' & ts & _ & _ & H%asArray_Some & _). congruence. }
  apply asArray_Some in Er, Em.
  destruct (_ || _) eqn:Es.
  { split; [done|]. intros (rs' & ts' & _ & H1 & H2 & Hlen & _). simplify_eq.
    apply orb_true_iff in Es as [Es|Es]; [apply Nat.eqb_eq in Es|apply Nat.ltb_lt in Es]; lia. }
  bool_prop. split.
  - destruct (parseFrameRows rs []) as [[rows|] seen] eqn:Ep; [|done].
    apply frameRows_spec in Ep as (HF & -> & Hn); [|apply NoDup_nil_2]. simpl in *.
    destruct (parseFrameTombstones ts _) as [rem|] eqn:Eq; [|done]. intros [= <-].
    apply frameTombstones_spec in Eq as (HF2 & Hn2); [|done].
    exists rs, ts. split_and!; try done; lia.
  - intros (rs' & ts' & _ & H1 & H2 & Hlen & HF & HF2 & Hn). simplify_eq.
    assert (parseFrameRows rs [] = (ParseOk (rows f), row_threadId <$> rows f)) as ->.
    { apply frameRows_spec; [apply NoDup_nil_2|]. split_and!; [done|done|].
      by apply NoDup_app in Hn as [? _]. }
    assert (parseFrameTombstones ts (row_threadId <$> rows f) = ParseOk (removed f)) as ->.
    { apply frameTombstones_spec; [by apply NoDup_app in Hn as [? _]|]. done. }
    by destruct f.
Qed.

(** The ingress passes on only frames of the connection's current socket:
    [applyRows] is called exactly for a valid frame whose generation is the
    current one; a frame of a replaced socket is dropped without complaint; an
    invalid frame or generation changes nothing; a new generation starts an
    empty session; and no signal touches another connection. *)
Theorem accept_current_only connectionId signal sessions :
  let '(acceptance, sessions', applied) := accept connectionId signal sessions in
  (forall g f, applied = Some (g, f) <->
     exists frame, signal = RowsSignal frame (NInt g) /\ (0 <= g <= max_safe_integer)%Z /\
       raceGeneration connectionId sessions = Some g /\ parseThreadListRowsFrame frame = ParseOk f) /\
  (forall frame g, signal = RowsSignal frame (NInt g) -> (0 <= g <= max_safe_integer)%Z ->
     raceGeneration connectionId sessions <> Some g -> acceptance = Accepted /\ applied = None) /\
  ((exists g, signal = GenerationSignal (NInt g) /\ acceptance = Accepted /\
      raceGeneration connectionId sessions' = Some g /\
      (raceGeneration connectionId sessions = Some g \/
       sessionOf connectionId sessions' = emptySession (Some g))) \/ sessions' = sessions) /\
  (forall c, c <> connectionId -> mget c sessions' = mget c sessions).
Proof.
  unfold accept. destruct (asSafeNat _) as [g|] eqn:Eg.
  - apply asSafeNat_Some in Eg as [[= Eg] Hg]. destruct signal as [g'|frame g']; simpl in Eg; subst g'.
    + unfold observeGeneration. split; [|split; [|split]].
      * intros g0 f. split; [done|]. by intros (? & ? & _).
      * by intros.
      * left. exists g. split_and!; [done|done| |].
        -- case_bool_decide; [done|]. unfold raceGeneration. by rewrite mget_mset_eq.
        -- case_bool_decide; [by left|right]. unfold sessionOf. by rewrite mget_mset_eq.
      * intros c Hc. case_bool_decide; [done|]. by apply mget_mset_ne.
    + assert (forall frame' g', RowsSignal frame (NInt g) = RowsSignal frame' (NInt g') ->
                frame' = frame /\ g' = g) as Hinv by by intros ?? [= -> ->].
      unfold isCurrent. case_bool_decide as Hcur; simpl.
      * destruct (parseThreadListRowsFrame frame) as [f|] eqn:Ef;
          (split; [|split; [|split; [by right|done]]]).
        -- intros g0 f0. split; [intros [= <- <-]; eauto|].
           intros (fr & [-> ->]%Hinv & _ & _ & Hf). rewrite Ef in Hf. by simplify_eq.
        -- intros fr g0 [-> ->]%Hinv. done.
        -- intros g0 f0. split; [done|]. intros (fr & [-> ->]%Hinv & _ & _ & Hf). congruence.
        -- intros fr g0 [-> ->]%Hinv. done.
      * split; [|split; [|split; [by right|done]]].
        -- intros g0 f0. split; [done|]. by intros (fr & [-> ->]%Hinv & _ & ? & _).
        -- by intros.
  - assert (forall frame g, signal = RowsSignal frame (NInt g) -> ~ (0 <= g <= max_safe_integer)%Z) as Hno.
    { intros frame g -> Hg. simpl in Eg.
      assert (asSafeNat (Some (JNum (NInt g))) = Some g) as H by by apply asSafeNat_Some.
      simpl in H. congruence. }
    split; [|split; [|split; [by right|done]]].
    + intros g f. split; [done|]. intros (fr & Hs & Hg & _). by destruct (Hno _ _ Hs).
    + intros fr g Hs Hg. by destruct (Hno _ _ Hs).
Qed.

(** ** Demonstrations *)

Definition demo_race : list RaceEvent :=
  [TombstoneAt (js "c") (js "t") 5; RowAt (js "c") (js "t") 3].

Lemma race_converges_witness :
  held (js "c") (js "t") demo_race = Some (TombstoneAt (js "c") (js "t") 5) /\
  held (js "c") (js "t") demo_race = held (js "c") (js "t") (reverse demo_race).
Proof.
  split; [vm_compute; reflexivity|].
  refine (proj1 (race_converges (js "c") (js "t") demo_race (reverse demo_race) _ _ _)).
  - symmetry. apply reverse_Permutation.
  - repeat constructor; discriminate.
  - intros e e' n He He'. unfold demo_race in He, He'. unfold offers.
    apply elem_of_cons in He as [->|He%list_elem_of_singleton];
      apply elem_of_cons in He' as [->|He'%list_elem_of_singleton]; subst; simpl; congruence.
Defined.

Definition demo_row : json :=
  JObj [("id", JStr (js "t")); ("cwd", JStr (js "/w")); ("turns", JArr []); ("status", JObj []);
        ("preview", JStr []); ("updatedAt", JNum (NInt 7));
        ("codewideList", JObj [("cursor", JNum (NInt 4)); ("archived", JBool false);
                               ("liveActivity", JNull)])].

Definition demo_frame (id : string) : json :=
  JObj [("type", JStr (js "threadListRows")); ("rows", JArr [demo_row]);
        ("removed", JArr [JObj [("threadId", JStr (js id)); ("cursor", JNum (NInt 5))]])].

Example frame_accepted : exists f, parseThreadListRowsFrame (demo_frame "u") = ParseOk f.
Proof. eexists. vm_compute. reflexivity. Qed.

Example frame_repeated :
  parseThreadListRowsFrame (demo_frame "t") = ParseError "repeated thread id".
Proof. vm_compute. reflexivity. Qed.
