(* ===== verification/Domain.v ===== *)
(** * The domain store

    Models packages/domain/src: identity.ts (the keys), model.ts and
    normalize.ts (the protocol's threads as the client keeps them) and store.ts.
    An operation that throws returns [None] and leaves the store alone. *)
From S2P Require Import Prelude JsMap Json.

Local Open Scope nat_scope.

(** ** Identity *)

Definition KEY_SEPARATOR : N := 0%N.

(** [assertPart]: [true] when it does not throw. *)
Definition assertPart (value : jstr) : bool :=
  negb (bool_decide (value = []) || bool_decide (KEY_SEPARATOR ∈ value)).

Definition checkPart (value : jstr) : option jstr := if assertPart value then Some value else None.

Definition connectionId (value : jstr) : option jstr := checkPart value.

Definition threadKey (connection remoteThreadId : jstr) : option jstr :=
  remoteThreadId ← checkPart remoteThreadId;
  Some (connection ++ [KEY_SEPARATOR] ++ remoteThreadId).

Definition turnKey (connection remoteThreadId turnId : jstr) : option jstr :=
  turnId ← checkPart turnId;
  thread ← threadKey connection remoteThreadId;
  Some (thread ++ [KEY_SEPARATOR] ++ turnId).

Definition itemKey (connection remoteThreadId turnId itemId : jstr) : option jstr :=
  itemId ← checkPart itemId;
  turn ← turnKey connection remoteThreadId turnId;
  Some (turn ++ [KEY_SEPARATOR] ++ itemId).

(** ** The protocol's threads, and the client's *)

Record Turn :=
  { turn_id : jstr; turn_status : json; turn_startedAt : option Z; turn_completedAt : option Z;
    turn_durationMs : option Z; turn_items : list json }.

Record Thread :=
  { thread_id : jstr; thread_name : option jstr; thread_preview : jstr; thread_cwd : jstr;
    thread_updatedAt : Z; thread_recencyAt : option Z; thread_status : json;
    thread_turns : list Turn }.

Record NormalizedItem :=
  { item_key : jstr; item_connectionId : jstr; item_threadId : jstr; item_turnId : jstr;
    item_itemId : jstr; item_type : jstr; item_payload : json; item_unknown : bool }.

Record NormalizedTurn :=
  { nturn_key : jstr; nturn_id : jstr; nturn_status : json; nturn_startedAt : option Z;
    nturn_completedAt : option Z; nturn_durationMs : option Z; nturn_items : list NormalizedItem }.

Record NormalizedThread :=
  { key : jstr; nthread_connectionId : jstr; remoteId : jstr; nthread_name : option jstr;
    nthread_preview : jstr; nthread_cwd : jstr; updatedAt : Z; recencyAt : option Z;
    nthread_status : json; nthread_turns : list NormalizedTurn }.

Definition KNOWN_ITEM_TYPES : list jstr :=
  js <$> ["userMessage"; "agentMessage"; "plan"; "reasoning"; "commandExecution"; "fileChange";
          "mcpToolCall"; "dynamicToolCall"; "hookPrompt"; "collabAgentToolCall";
          "subAgentActivity"; "webSearch"; "imageView"; "sleep"; "imageGeneration";
          "enteredReviewMode"; "exitedReviewMode"; "contextCompaction"]%string.

(** The id an item goes by at position [index] of its turn. *)
Definition itemIdOf (rawItem : json) (index : nat) : jstr :=
  match asString (field "id" rawItem) with
  | Some ((_ :: _) as rawId) => rawId
  | _ => js "anonymous-" ++ printZ (Z.of_nat index)
  end.

Definition normalizeThreadItem (connection remoteThreadId turnId : jstr) (rawItem : json)
    (index : nat) : option NormalizedItem :=
  let type := default (js "unknown") (asString (field "type" rawItem)) in
  let itemId := itemIdOf rawItem index in
  key ← itemKey connection remoteThreadId turnId itemId;
  Some {| item_key := key; item_connectionId := connection; item_threadId := remoteThreadId;
          item_turnId := turnId; item_itemId := itemId; item_type := type;
          item_payload := rawItem; item_unknown := negb (bool_decide (type ∈ KNOWN_ITEM_TYPES)) |}.

(** [items.map((item, index) => ...)], which throws when a call does. *)
Fixpoint normalizeItems (connection remoteThreadId turnId : jstr) (items : list json)
    (index : nat) : option (list NormalizedItem) :=
  match items with
  | [] => Some []
  | item :: items =>
      x ← normalizeThreadItem connection remoteThreadId turnId item index;
      xs ← normalizeItems connection remoteThreadId turnId items (S index);
      Some (x :: xs)
  end.

Definition normalizeTurn (connection remoteThreadId : jstr) (turn : Turn) : option NormalizedTurn :=
  key ← turnKey connection remoteThreadId (turn_id turn);
  items ← normalizeItems connection remoteThreadId (turn_id turn) (turn_items turn) 0;
  Some {| nturn_key := key; nturn_id := turn_id turn; nturn_status := turn_status turn;
          nturn_startedAt := turn_startedAt turn; nturn_completedAt := turn_completedAt turn;
          nturn_durationMs := turn_durationMs turn; nturn_items := items |}.

Definition normalizeThread (connection : jstr) (thread : Thread) : option NormalizedThread :=
  key ← threadKey connection (thread_id thread);
  turns ← mapM (normalizeTurn connection (thread_id thread)) (thread_turns thread);
  Some {| key := key; nthread_connectionId := connection; remoteId := thread_id thread;
          nthread_name := thread_name thread; nthread_preview := thread_preview thread;
          nthread_cwd := thread_cwd thread; updatedAt := thread_updatedAt thread;
          recencyAt := thread_recencyAt thread; nthread_status := thread_status thread;
          nthread_turns := turns |}.

(** ** The store *)

Inductive ConnectionState :=
| Offline | Connecting | Syncing | Live | Degraded | AuthRequired.

Record ConnectionProfile :=
  { profile_id : jstr; displayName : jstr; emoji : jstr; endpoint : jstr; enabled : bool;
    sortOrder : Z; profile_state : ConnectionState; lastSeenAt : option Z;
    syncCursor : option jstr }.

Record DomainStore :=
  { connections : list (jstr * ConnectionProfile); threads : list (jstr * NormalizedThread) }.

Definition emptyStore : DomainStore := {| connections := []; threads := [] |}.

Definition upsertConnection (connection : ConnectionProfile) (store : DomainStore) : DomainStore :=
  {| connections := mset (profile_id connection) connection (connections store);
     threads := threads store |}.

Definition removeConnection (connectionId : jstr) (store : DomainStore) : DomainStore :=
  {| connections := mdel connectionId (connections store);
     threads := filter (fun e => nthread_connectionId e.2 <> connectionId) (threads store) |}.

Definition upsertThread (connectionId : jstr) (thread : Thread) (store : DomainStore)
    : option (DomainStore * NormalizedThread) :=
  if negb (mhas connectionId (connections store)) then None
  else
    normalized ← normalizeThread connectionId thread;
    Some ({| connections := connections store;
             threads := mset (key normalized) normalized (threads store) |}, normalized).

(** [None] when it throws, [Some None] for [undefined]. *)
Definition getThread (connectionId remoteThreadId : jstr) (store : DomainStore)
    : option (option NormalizedThread) :=
  k ← threadKey connectionId remoteThreadId;
  Some (mget k (threads store)).

Definition recencyOf (thread : NormalizedThread) : Z := default (updatedAt thread) (recencyAt thread).

(** [compareThreads(left, right) <= 0]. *)
Definition compareThreads (left right : NormalizedThread) : bool :=
  (recencyOf right - recencyOf left <=? 0)%Z.

Definition threadsForConnection (connectionId : jstr) (store : DomainStore) : list NormalizedThread :=
  sortBy compareThreads
    (filter (fun thread => nthread_connectionId thread = connectionId) (mvals (threads store))).

Definition aggregatedThreads (store : DomainStore) : list NormalizedThread :=
  sortBy compareThreads (mvals (threads store)).

Definition snapshot (store : DomainStore) : list ConnectionProfile * list NormalizedThread :=
  (sortBy (fun left right => (sortOrder left - sortOrder right <=? 0)%Z) (mvals (connections store)),
   aggregatedThreads store).

Inductive storeOp :=
| UpsertConnection (connection : ConnectionProfile)
| RemoveConnection (connectionId : jstr)
| UpsertThread (connectionId : jstr) (thread : Thread).

Definition runStoreOp (store : DomainStore) (op : storeOp) : DomainStore :=
  match op with
  | UpsertConnection connection => upsertConnection connection store
  | RemoveConnection connectionId => removeConnection connectionId store
  | UpsertThread connectionId thread =>
      match upsertThread connectionId thread store with
      | Some (store, _) => store
      | None => store
      end
  end.

(** ** Keys *)

(** The check [connectionId] makes before a string is used as one. *)
Definition valid (part : jstr) : Prop := part <> [] /\ (KEY_SEPARATOR ∉ part).

Lemma assertPart_spec s : assertPart s = true <-> valid s.
Proof.
  unfold assertPart, valid. rewrite negb_true_iff, orb_false_iff, !bool_decide_eq_false. done.
Qed.

Lemma checkPart_Some s x : checkPart s = Some x <-> x = s /\ valid s.
Proof.
  unfold checkPart. rewrite <- assertPart_spec. destruct (assertPart s); naive_solver.
Qed.

Lemma separated_inj a b a' b' :
  (KEY_SEPARATOR ∉ a) -> (KEY_SEPARATOR ∉ a') ->
  a ++ [KEY_SEPARATOR] ++ b = a' ++ [KEY_SEPARATOR] ++ b' -> a = a' /\ b = b'.
Proof.
  revert a'. induction a as [|x a IH]; intros [|y a'] Ha Ha'; simpl.
  - by intros [= ->].
  - intros [= <- _]. destruct Ha'. by left.
  - intros [= -> _]. destruct Ha. by left.
  - intros [= -> H]. destruct (IH a') as [-> ->]; [set_solver..|done|done].
Qed.

Lemma threadKey_Some c t k : threadKey c t = Some k <-> valid t /\ k = c ++ [KEY_SEPARATOR] ++ t.
Proof.
  unfold threadKey. destruct (checkPart t) as [x|] eqn:E; cbn [mbind option_bind].
  - apply checkPart_Some in E as [-> Ht]. naive_solver.
  - split; [done|]. intros [Ht _]. assert (checkPart t = Some t) by by apply checkPart_Some. congruence.
Qed.

Lemma turnKey_Some c t u k :
  turnKey c t u = Some k <->
  valid t /\ valid u /\ k = c ++ [KEY_SEPARATOR] ++ t ++ [KEY_SEPARATOR] ++ u.
Proof.
  unfold turnKey. split.
  - intros (u' & [-> Hu]%checkPart_Some & (k' & [Ht ->]%threadKey_Some & [= <-])%bind_Some)%bind_Some.
    split_and!; [done..|]. by rewrite <- !app_assoc.
  - intros (Ht & Hu & ->). assert (checkPart u = Some u) as -> by by apply checkPart_Some.
    assert (threadKey c t = Some (c ++ [KEY_SEPARATOR] ++ t)) as -> by by apply threadKey_Some.
    cbn [mbind option_bind]. f_equal. by rewrite <- !app_assoc.
Qed.

Lemma itemKey_Some c t u i k :
  itemKey c t u i = Some k <->
  valid t /\ valid u /\ valid i /\
  k = c ++ [KEY_SEPARATOR] ++ t ++ [KEY_SEPARATOR] ++ u ++ [KEY_SEPARATOR] ++ i.
Proof.
  unfold itemKey. split.
  - intros (i' & [-> Hi]%checkPart_Some & (k' & (Ht & Hu & ->)%turnKey_Some & [= <-])%bind_Some)%bind_Some.
    split_and!; [done..|]. simpl. by rewrite <- app_assoc; simpl; rewrite <- app_assoc.
  - intros (Ht & Hu & Hi & ->). assert (checkPart i = Some i) as -> by by apply checkPart_Some.
    assert (turnKey c t u = Some (c ++ [KEY_SEPARATOR] ++ t ++ [KEY_SEPARATOR] ++ u)) as ->
      by by apply turnKey_Some.
    cbn [mbind option_bind]. f_equal. simpl. by rewrite <- app_assoc; simpl; rewrite <- app_assoc.
Qed.

(** What a key names. *)
Inductive keyOf : list jstr -> jstr -> Prop :=
| keyOf_thread c t k : threadKey c t = Some k -> keyOf [c; t] k
| keyOf_turn c t u k : turnKey c t u = Some k -> keyOf [c; t; u] k
| keyOf_item c t u i k : itemKey c t u i = Some k -> keyOf [c; t; u; i] k.

Fixpoint joined (parts : list jstr) : jstr :=
  match parts with
  | [] => []
  | [p] => p
  | p :: ps => p ++ [KEY_SEPARATOR] ++ joined ps
  end.

Lemma joined_inj ps qs :
  Forall valid ps -> Forall valid qs -> ps <> [] -> qs <> [] -> joined ps = joined qs -> ps = qs.
Proof.
  revert qs. induction ps as [|p ps IH]; intros qs Hp Hq Hpn Hqn; [done|].
  destruct qs as [|q qs]; [done|]. apply Forall_cons in Hp as [[_ Hp] Hps], Hq as [[_ Hq] Hqs].
  destruct ps as [|p' ps], qs as [|q' qs].
  - simpl. by intros ->.
  - change (p = q ++ [KEY_SEPARATOR] ++ joined (q' :: qs) -> [p] = q :: q' :: qs).
    intros ->. destruct Hp. set_solver.
  - change (p ++ [KEY_SEPARATOR] ++ joined (p' :: ps) = q -> p :: p' :: ps = [q]).
    intros <-. destruct Hq. set_solver.
  - change (p ++ [KEY_SEPARATOR] ++ joined (p' :: ps) = q ++ [KEY_SEPARATOR] ++ joined (q' :: qs) ->
            p :: p' :: ps = q :: q' :: qs).
    intros [-> Hj]%separated_inj; [|done..]. f_equal. by apply IH.
Qed.

Lemma keyOf_joined parts k c rest :
  keyOf parts k -> parts = c :: rest -> valid c -> k = joined parts /\ Forall valid parts.
Proof.
  intros Hk Hp Hc. destruct Hk as [? ? ? H|? ? ? ? H|? ? ? ? ? H]; simplify_eq.
  - apply threadKey_Some in H as (? & ->). split; [done|]; repeat (constructor; [done|]); constructor.
  - apply turnKey_Some in H as (? & ? & ->). split; [done|]; repeat (constructor; [done|]); constructor.
  - apply itemKey_Some in H as (? & ? & ? & ->). split; [done|]; repeat (constructor; [done|]); constructor.
Qed.

(** Keys name one thing: for connections that passed [connectionId], a
    thread, turn or item key determines every part it was built from, and keys
    of different kinds never coincide. *)
Theorem keys_injective c rest c' rest' k :
  is_Some (connectionId c) -> is_Some (connectionId c') ->
  keyOf (c :: rest) k -> keyOf (c' :: rest') k -> c = c' /\ rest = rest'.
Proof.
  intros [? [_ Hc]%checkPart_Some] [? [_ Hc']%checkPart_Some] H1 H2.
  destruct (keyOf_joined _ _ c rest H1 eq_refl Hc) as [-> HF].
  destruct (keyOf_joined _ _ c' rest' H2 eq_refl Hc') as [Hj HF'].
  apply joined_inj in Hj; [by simplify_eq|done..].
Qed.

(** ** The store *)

Record store_ok (st : DomainStore) : Prop :=
  { ds_connections : mwf (connections st);
    ds_threads : mwf (threads st);
    ds_entry : forall k n, (k, n) ∈ threads st ->
      valid (nthread_connectionId n) /\
      threadKey (nthread_connectionId n) (remoteId n) = Some k /\
      is_Some (mget (nthread_connectionId n) (connections st)) }.

Definition op_ok (op : storeOp) : Prop :=
  match op with
  | UpsertConnection connection => valid (profile_id connection)
  | RemoveConnection connectionId | UpsertThread connectionId _ => valid connectionId
  end.

Lemma normalizeThread_key c th n :
  normalizeThread c th = Some n ->
  threadKey c (thread_id th) = Some (key n) /\ nthread_connectionId n = c /\ remoteId n = thread_id th.
Proof.
  unfold normalizeThread. intros (k & Hk & (ts & _ & [= <-])%bind_Some)%bind_Some. done.
Qed.

Lemma store_ok_upsertThread c th st st' n :
  store_ok st -> valid c -> upsertThread c th st = Some (st', n) -> store_ok st'.
Proof.
  intros [Hc Ht He] Hv. unfold upsertThread, mhas. case_bool_decide as Hin; [|done]. simpl.
  destruct (normalizeThread c th) as [n'|] eqn:En; [|done]. intros [= <- ->].
  apply normalizeThread_key in En as (Hk & Hcn & Hr).
  split; simpl; [done|by apply mset_wf|]. intros k m [[= -> ->]|Hm]%elem_mset; [|by apply He].
  by rewrite Hcn, Hr.
Qed.

Lemma store_ok_remove c st : store_ok st -> store_ok (removeConnection c st).
Proof.
  intros [Hc Ht He]. unfold removeConnection. split; simpl; [by apply mdel_wf| |].
  - unfold mwf, mkeys in *. eapply sublist_NoDup; [exact Ht|]. by apply fmap_sublist, sublist_filter.
  - intros k n [Hne Hin]%list_elem_of_filter. destruct (He _ _ Hin) as (? & ? & ?).
    split_and!; [done|done|]. by rewrite mget_mdel_ne.
Qed.

Lemma store_ok_upsertConnection p st : store_ok st -> store_ok (upsertConnection p st).
Proof.
  intros [Hc Ht He]. split; simpl; [by apply mset_wf|done|]. intros k n Hin.
  destruct (He _ _ Hin) as (? & ? & ?). split_and!; [done|done|].
  rewrite mget_mset. by case_bool_decide.
Qed.

Lemma store_ok_op st op : store_ok st -> op_ok op -> store_ok (runStoreOp st op).
Proof.
  intros Hs Hop. destruct op as [p|c|c th]; simpl in *.
  - by apply store_ok_upsertConnection.
  - by apply store_ok_remove.
  - destruct (upsertThread c th st) as [[st' n]|] eqn:E; [|done]. by eapply store_ok_upsertThread.
Qed.

Lemma store_ok_runs ops : Forall op_ok ops -> store_ok (foldl runStoreOp emptyStore ops).
Proof.
  intros Hops. assert (store_ok emptyStore) as H0.
  { split; simpl; [apply NoDup_nil_2|apply NoDup_nil_2|]. intros k n H. by apply elem_of_nil in H. }
  revert H0. generalize emptyStore. induction Hops as [|op ops Hop _ IH]; intros st Hst; simpl; [done|].
  by apply IH, store_ok_op.
Qed.

Lemma threadKey_inj c t c' t' k :
  valid c -> valid c' -> threadKey c t = Some k -> threadKey c' t' = Some k -> c = c' /\ t = t'.
Proof.
  intros Hc Hc' [_ ->]%threadKey_Some [_ Heq]%threadKey_Some.
  apply separated_inj in Heq; [done|apply Hc|apply Hc'].
Qed.

Lemma mget_filter_keep c (m : list (jstr * NormalizedThread)) k :
  mwf m -> (forall n, mget k m = Some n -> nthread_connectionId n <> c) ->
  mget k (filter (fun e => nthread_connectionId e.2 <> c) m) = mget k m.
Proof.
  intros Hw HP. assert (mwf (filter (fun e => nthread_connectionId e.2 <> c) m)) as Hw'.
  { unfold mwf, mkeys in *. eapply sublist_NoDup; [exact Hw|]. by apply fmap_sublist, sublist_filter. }
  destruct (mget k m) as [n|] eqn:E.
  - apply elem_mget; [done|]. apply list_elem_of_filter. split; [by apply HP|by apply mget_elem].
  - destruct (mget k (filter _ m)) as [n|] eqn:E'; [|done].
    apply mget_elem, list_elem_of_filter in E' as [_ Hin]. apply elem_mget in Hin; [congruence|done].
Qed.

Lemma filter_none {A} (P : A -> Prop) `{forall x, Decision (P x)} l :
  (forall x, x ∈ l -> ~ P x) -> filter P l = [].
Proof.
  induction l as [|x l IH]; intros Hl; [done|]. rewrite filter_cons_False by (apply Hl; by left).
  apply IH. intros y Hy. apply Hl. by right.
Qed.

(** The store keeps connections apart: in every state reached by valid
    operations, a thread is filed once, under its own key and a registered
    connection; storing a thread answers exactly its own lookup and is refused
    for an unregistered connection; removing a connection removes its threads
    and no others. *)
Theorem store_isolated ops :
  Forall op_ok ops ->
  let st := foldl runStoreOp emptyStore ops in
  store_ok st /\
  (forall c th, valid c -> mget c (connections st) = None -> upsertThread c th st = None) /\
  (forall c th st' n, valid c -> upsertThread c th st = Some (st', n) ->
     getThread c (thread_id th) st' = Some (Some n) /\
     forall c' t', valid c' -> (c', t') <> (c, thread_id th) -> getThread c' t' st' = getThread c' t' st) /\
  (forall c, valid c ->
     threadsForConnection c (removeConnection c st) = [] /\
     (forall t, valid t -> getThread c t (removeConnection c st) = Some None) /\
     forall c' t', valid c' -> c' <> c -> getThread c' t' (removeConnection c st) = getThread c' t' st).
Proof.
  intros Hops st. pose proof (store_ok_runs ops Hops) as Hok. fold st in Hok. split; [done|].
  destruct Hok as [Hc Ht He]. split_and!.
  - intros c th _ Hno. unfold upsertThread, mhas. rewrite bool_decide_false; [done|].
    rewrite Hno. by intros [? [=]].
  - intros c th st' n Hv. unfold upsertThread. destruct (negb _); [done|].
    destruct (normalizeThread c th) as [n'|] eqn:En; [|done]. intros [= <- ->].
    apply normalizeThread_key in En as (Hk & _). unfold getThread. rewrite Hk. simpl. split.
    + by rewrite mget_mset_eq.
    + intros c' t' Hv' Hne. destruct (threadKey c' t') as [k'|] eqn:Ek; [|done]. simpl. f_equal.
      apply mget_mset_ne. intros ->. destruct (threadKey_inj c' t' c (thread_id th) (key n)); try done.
      congruence.
  - intros c Hv. assert (forall k n t', mget k (threads st) = Some n -> forall c', valid c' ->
      threadKey c' t' = Some k -> nthread_connectionId n = c') as Hconn.
    { intros k n t' Hn c' Hc' Hk. apply mget_elem in Hn. destruct (He _ _ Hn) as (Hvn & Hkn & _).
      by destruct (threadKey_inj (nthread_connectionId n) (remoteId n) c' t' k). }
    split_and!.
    + unfold threadsForConnection. rewrite filter_none; [done|].
      intros n ([k n'] & -> & Hin)%list_elem_of_fmap. simpl in *.
      by apply list_elem_of_filter in Hin as [? _].
    + intros t Hvt. unfold getThread. assert (threadKey c t = Some (c ++ [KEY_SEPARATOR] ++ t)) as Hk
        by by apply threadKey_Some. rewrite Hk. simpl. f_equal.
      destruct (mget _ (filter _ _)) as [n|] eqn:E; [|done].
      apply mget_elem, list_elem_of_filter in E as [Hne Hin]. destruct Hne.
      apply elem_mget in Hin; [|done]. by eapply Hconn.
    + intros c' t' Hv' Hne. unfold getThread. destruct (threadKey c' t') as [k|] eqn:Hk; [|done].
      simpl. f_equal. apply mget_filter_keep; [done|].
      intros n Hn. by rewrite (Hconn _ _ _ Hn c' Hv' Hk).
Qed.

Lemma compareThreads_spec x y : compareThreads x y = true <-> (recencyOf y <= recencyOf x)%Z.
Proof. unfold compareThreads. rewrite Z.leb_le. lia. Qed.

(** The lists are the stored threads, newest first: the aggregated list
    holds every stored thread and a connection's list exactly its own, each
    once and in order of recency (the update time where there is none). *)
Theorem lists_newest_first c store :
  aggregatedThreads store ≡ₚ mvals (threads store) /\
  threadsForConnection c store ≡ₚ
    filter (fun thread => nthread_connectionId thread = c) (mvals (threads store)) /\
  (forall l, l = aggregatedThreads store \/ l = threadsForConnection c store ->
     forall i j x y, i < j -> l !! i = Some x -> l !! j = Some y -> (recencyOf y <= recencyOf x)%Z).
Proof.
  split; [apply sortBy_perm|]. split; [apply sortBy_perm|].
  assert (forall k, ordered compareThreads (sortBy compareThreads k)) as Hord.
  { apply sortBy_ordered; intros *; rewrite !compareThreads_spec; lia. }
  intros l Hl i j x y Hij Hi Hj. apply compareThreads_spec.
  destruct Hl as [->| ->]; by eapply (Hord _ i j).
Qed.

(** An item named like a position of its turn shares a key with the nameless
    item there. *)
Lemma anonymous_key_collides :
  exists a b, normalizeTurn (js "c") (js "t")
    {| turn_id := js "u"; turn_status := JNull; turn_startedAt := None; turn_completedAt := None;
       turn_durationMs := None;
       turn_items := [JObj [("id", JStr (js "anonymous-1"))]; JObj [("type", JStr (js "plan"))]] |}
    = Some a /\ nturn_items a = b /\ item_key <$> head b = item_key <$> last b /\ length b = 2.
Proof. eexists _, _. split; [vm_compute; reflexivity|]. split; [reflexivity|]. by vm_compute. Qed.

(** ** Demonstrations *)

Definition demo_profile (id : string) : ConnectionProfile :=
  {| profile_id := js id; displayName := []; emoji := []; endpoint := []; enabled := true;
     sortOrder := 0; profile_state := Live; lastSeenAt := None; syncCursor := None |}.

Definition demo_domain_thread (id : string) : Thread :=
  {| thread_id := js id; thread_name := None; thread_preview := []; thread_cwd := [];
     thread_updatedAt := 3; thread_recencyAt := None; thread_status := JNull; thread_turns := [] |}.

Definition demo_ops : list storeOp :=
  [UpsertConnection (demo_profile "a"); UpsertConnection (demo_profile "b");
   UpsertThread (js "a") (demo_domain_thread "t"); UpsertThread (js "b") (demo_domain_thread "t")].

Lemma keys_injective_witness :
  js "a" = js "a" /\ [js "t"; js "u"] = [js "t"; js "u"].
Proof.
  assert (keyOf [js "a"; js "t"; js "u"] (js "a" ++ [0%N] ++ js "t" ++ [0%N] ++ js "u")) as H.
  { apply keyOf_turn. reflexivity. }
  apply (keys_injective (js "a") _ (js "a") _ _) with (3 := H) (4 := H); by exists (js "a").
Defined.

Lemma store_isolated_witness :
  length (threadsForConnection (js "b") (foldl runStoreOp emptyStore demo_ops)) = 1 /\
  threadsForConnection (js "b") (removeConnection (js "b") (foldl runStoreOp emptyStore demo_ops)) = [].
Proof.
  split; [vm_compute; reflexivity|].
  assert (valid (js "b")) as Hb by (apply assertPart_spec; reflexivity).
  refine (proj1 (proj2 (proj2 (proj2 (store_isolated demo_ops _))) (js "b") Hb)).
  repeat constructor; apply assertPart_spec; reflexivity.
Defined.
