(* ===== verification/Unsolicited.v ===== *)
(** * Admission of unsolicited speech

    Models apps/android/src/data/globalSupervisorUnsolicitedAdmission.ts.  Each
    [claimWhenOpen] is a numbered waiter with its own abort signal; a claim is a
    number.  Listeners subscribed from outside only observe: they are notified
    and change nothing. *)
From S2P Require Import Prelude JsMap.

Local Open Scope nat_scope.

Inductive Outcome := Active | Cancelled | Completed | Interrupted.

#[export] Instance outcome_eq_dec : EqDecision Outcome.
Proof. solve_decision. Defined.

(** A listener: the [attempt] of a waiter, or an observer. *)
Inductive Listener := Waiter (n : nat) | Observer (n : nat).

#[export] Instance listener_eq_dec : EqDecision Listener.
Proof. solve_decision. Defined.

Inductive Settlement := Resolved (claim : nat) | RejectedCancelled | RejectedStopped.

Record Admission :=
  { accepting : bool; lifecycleIdle : bool; userExchangeCompleted : bool;
    userExchangePending : bool;
    (** the active claim and its [exchangeCompleted] *)
    activeClaim : option (nat * bool);
    listeners : list Listener;
    outcomes : list (nat * Outcome);
    nextClaim : nat;
    aborted : list nat;
    settled : list (nat * Settlement);
    (** the waiters created so far *)
    created : list nat }.

Definition initialAdmission : Admission :=
  {| accepting := true; lifecycleIdle := false; userExchangeCompleted := false;
     userExchangePending := false; activeClaim := None; listeners := []; outcomes := [];
     nextClaim := 0; aborted := []; settled := []; created := [] |}.

Definition isOpen (s : Admission) : bool :=
  accepting s && lifecycleIdle s && negb (userExchangePending s)
  && bool_decide (activeClaim s = None).

Definition withClaim (c : option (nat * bool)) (s : Admission) : Admission :=
  {| accepting := accepting s; lifecycleIdle := lifecycleIdle s;
     userExchangeCompleted := userExchangeCompleted s; userExchangePending := userExchangePending s;
     activeClaim := c; listeners := listeners s; outcomes := outcomes s; nextClaim := nextClaim s;
     aborted := aborted s; settled := settled s;
     created := created s |}.

Definition withExchange (completed pending : bool) (s : Admission) : Admission :=
  {| accepting := accepting s; lifecycleIdle := lifecycleIdle s;
     userExchangeCompleted := completed; userExchangePending := pending;
     activeClaim := activeClaim s; listeners := listeners s; outcomes := outcomes s;
     nextClaim := nextClaim s; aborted := aborted s; settled := settled s;
     created := created s |}.

Definition withIdle (idle : bool) (s : Admission) : Admission :=
  {| accepting := accepting s; lifecycleIdle := idle;
     userExchangeCompleted := userExchangeCompleted s; userExchangePending := userExchangePending s;
     activeClaim := activeClaim s; listeners := listeners s; outcomes := outcomes s;
     nextClaim := nextClaim s; aborted := aborted s; settled := settled s;
     created := created s |}.

Definition withAccepting (b : bool) (s : Admission) : Admission :=
  {| accepting := b; lifecycleIdle := lifecycleIdle s;
     userExchangeCompleted := userExchangeCompleted s; userExchangePending := userExchangePending s;
     activeClaim := activeClaim s; listeners := listeners s; outcomes := outcomes s;
     nextClaim := nextClaim s; aborted := aborted s; settled := settled s;
     created := created s |}.

Definition withListeners (l : list Listener) (s : Admission) : Admission :=
  {| accepting := accepting s; lifecycleIdle := lifecycleIdle s;
     userExchangeCompleted := userExchangeCompleted s; userExchangePending := userExchangePending s;
     activeClaim := activeClaim s; listeners := l; outcomes := outcomes s; nextClaim := nextClaim s;
     aborted := aborted s; settled := settled s;
     created := created s |}.

Definition withAborted (l : list nat) (s : Admission) : Admission :=
  {| accepting := accepting s; lifecycleIdle := lifecycleIdle s;
     userExchangeCompleted := userExchangeCompleted s; userExchangePending := userExchangePending s;
     activeClaim := activeClaim s; listeners := listeners s; outcomes := outcomes s;
     nextClaim := nextClaim s; aborted := l; settled := settled s;
     created := created s |}.

Definition withCreated (l : list nat) (s : Admission) : Admission :=
  {| accepting := accepting s; lifecycleIdle := lifecycleIdle s;
     userExchangeCompleted := userExchangeCompleted s; userExchangePending := userExchangePending s;
     activeClaim := activeClaim s; listeners := listeners s; outcomes := outcomes s;
     nextClaim := nextClaim s; aborted := aborted s; settled := settled s; created := l |}.

(** [activeClaim = createClaim()]. *)
Definition createClaim (s : Admission) : Admission :=
  {| accepting := accepting s; lifecycleIdle := lifecycleIdle s;
     userExchangeCompleted := userExchangeCompleted s; userExchangePending := userExchangePending s;
     activeClaim := Some (nextClaim s, false); listeners := listeners s;
     outcomes := mset (nextClaim s) Active (outcomes s); nextClaim := S (nextClaim s);
     aborted := aborted s; settled := settled s;
     created := created s |}.

(** [activeClaim.setOutcome(outcome); activeClaim = null]. *)
Definition retireClaim (outcome : Outcome) (s : Admission) : Admission :=
  match activeClaim s with
  | None => s
  | Some (claim, _) =>
      {| accepting := accepting s; lifecycleIdle := lifecycleIdle s;
         userExchangeCompleted := userExchangeCompleted s;
         userExchangePending := userExchangePending s; activeClaim := None;
         listeners := listeners s; outcomes := mset claim outcome (outcomes s);
         nextClaim := nextClaim s; aborted := aborted s; settled := settled s;
     created := created s |}
  end.

(** Cleanup, then the promise settles, once. *)
Definition settle (n : nat) (r : Settlement) (s : Admission) : Admission :=
  {| accepting := accepting s; lifecycleIdle := lifecycleIdle s;
     userExchangeCompleted := userExchangeCompleted s; userExchangePending := userExchangePending s;
     activeClaim := activeClaim s; listeners := sdel (Waiter n) (listeners s);
     outcomes := outcomes s; nextClaim := nextClaim s; aborted := aborted s;
     settled := if mhas n (settled s) then settled s else mset n r (settled s);
     created := created s |}.

Section publishing.
(** The publication a nested [begin] makes. *)
Variable publish : bool -> Admission -> Admission.

Definition beginWith (s : Admission) : Admission * option nat :=
  if negb (isOpen s) then (s, None)
  else (publish true (createClaim s), Some (nextClaim s)).

Definition attemptWith (n : nat) (s : Admission) : Admission :=
  if bool_decide (n ∈ aborted s) then settle n RejectedCancelled s
  else if negb (accepting s) then settle n RejectedStopped s
  else
    match beginWith s with
    | (s, Some claim) => settle n (Resolved claim) s
    | (s, None) => s
    end.

Definition notifyWith (s : Admission) (l : Listener) : Admission :=
  if bool_decide (l ∈ listeners s) then
    match l with Waiter n => attemptWith n s | Observer _ => s end
  else s.
End publishing.

(** [depth] bounds the nesting of publications: a claim made while publishing
    publishes once more, with the gate closed, so a depth of two is never
    exhausted ([publish_depth]). *)
Fixpoint publishIfChanged (depth : nat) (wasOpen : bool) (s : Admission) : Admission :=
  match depth with
  | O => s
  | S depth =>
      if Bool.eqb wasOpen (isOpen s) then s
      else foldl (notifyWith (publishIfChanged depth)) s (listeners s)
  end.

Definition publish : bool -> Admission -> Admission := publishIfChanged 2.

Definition begin (s : Admission) : Admission * option nat := beginWith publish s.
Definition attempt (n : nat) (s : Admission) : Admission := attemptWith publish n s.

Definition cancel (claim : nat) (s : Admission) : Admission :=
  if bool_decide ((fst <$> activeClaim s) = Some claim)
  then publish (isOpen s) (retireClaim Cancelled s) else s.

(** Waiter [n] subscribes and tries at once; [preAborted] is its signal's state. *)
Definition claimWhenOpen (n : nat) (preAborted : bool) (s : Admission) : Admission :=
  let s := withCreated (n :: created s) (withListeners (sadd (Waiter n) (listeners s)) s) in
  attempt n (if preAborted then withAborted (sadd n (aborted s)) s else s).

(** The signal of waiter [n] aborts; its listener is attached while it waits. *)
Definition abort (n : nat) (s : Admission) : Admission :=
  let s := withAborted (sadd n (aborted s)) s in
  if mhas n (settled s) then s else attempt n s.

Definition completeExchange (s : Admission) : Admission :=
  if negb (accepting s) then s
  else
    let wasOpen := isOpen s in
    let s := match activeClaim s with Some (c, _) => withClaim (Some (c, true)) s | None => s end in
    let s := if userExchangePending s then withExchange true (userExchangePending s) s else s in
    let s :=
      if lifecycleIdle s then
        let s := if userExchangeCompleted s then withExchange false false s else s in
        match activeClaim s with Some (_, true) => retireClaim Completed s | _ => s end
      else s in
    publish wasOpen s.

Definition setLifecycleIdle (idle : bool) (s : Admission) : Admission :=
  if negb (accepting s) then s
  else
    let wasOpen := isOpen s in
    let s := withIdle idle s in
    let s := if idle && userExchangePending s && userExchangeCompleted s
             then withExchange false false s else s in
    let s := match idle, activeClaim s with
             | true, Some (_, true) => retireClaim Completed s
             | _, _ => s
             end in
    publish wasOpen s.

Definition setUserSpeaking (speaking : bool) (s : Admission) : Admission :=
  if negb (accepting s) || negb speaking then s
  else
    let wasOpen := isOpen s in
    publish wasOpen (retireClaim Interrupted (withExchange false true s)).

Definition stop (s : Admission) : Admission :=
  if negb (accepting s) then s
  else
    let wasOpen := isOpen s in
    withListeners [] (publish wasOpen (retireClaim Cancelled (withAccepting false s))).

Definition subscribe (n : nat) (s : Admission) : Admission :=
  withListeners (sadd (Observer n) (listeners s)) s.

Definition unsubscribe (n : nat) (s : Admission) : Admission :=
  withListeners (sdel (Observer n) (listeners s)) s.

(** [appendGlobalSupervisorUnsolicited] of waiter [n], once [appendText] has
    succeeded or failed. *)
Definition appendSettled (n : nat) (succeeded : bool) (s : Admission) : Admission :=
  match mget n (settled s) with
  | Some (Resolved claim) => if succeeded then s else cancel claim s
  | _ => s
  end.

Inductive AdmissionOp :=
| Begin
| Cancel (claim : nat)
| ClaimWhenOpen (n : nat) (preAborted : bool)
| Abort (n : nat)
| CompleteExchange
| SetLifecycleIdle (idle : bool)
| SetUserSpeaking (speaking : bool)
| Stop
| Subscribe (n : nat)
| Unsubscribe (n : nat)
| AppendSettled (n : nat) (succeeded : bool).

(** A waiter is created once, and its signal aborts after that. *)
Definition enabled (op : AdmissionOp) (s : Admission) : Prop :=
  match op with
  | ClaimWhenOpen n _ => n ∉ created s
  | Abort n => n ∈ created s
  | _ => True
  end.

Definition runOp (op : AdmissionOp) (s : Admission) : Admission :=
  match op with
  | Begin => (begin s).1
  | Cancel claim => cancel claim s
  | ClaimWhenOpen n preAborted => claimWhenOpen n preAborted s
  | Abort n => abort n s
  | CompleteExchange => completeExchange s
  | SetLifecycleIdle idle => setLifecycleIdle idle s
  | SetUserSpeaking speaking => setUserSpeaking speaking s
  | Stop => stop s
  | Subscribe n => subscribe n s
  | Unsubscribe n => unsubscribe n s
  | AppendSettled n succeeded => appendSettled n succeeded s
  end.

Inductive admissionRuns : Admission -> list AdmissionOp -> Admission -> Prop :=
| runs_nil s : admissionRuns s [] s
| runs_cons s op ops s' :
    enabled op s -> admissionRuns (runOp op s) ops s' -> admissionRuns s (op :: ops) s'.

(** ** Publication hands the gate to one waiter *)

Definition firstWaiter (l : list Listener) : option nat :=
  head (omap (fun x => match x with Waiter n => Some n | Observer _ => None end) l).

(** What a publication that opens the gate does: the longest waiting waiter
    gets a claim, and the gate is closed again. *)
Definition hand (s : Admission) : Admission :=
  if isOpen s then
    match firstWaiter (listeners s) with
    | Some n => settle n (Resolved (nextClaim s)) (createClaim s)
    | None => s
    end
  else s.

(** No waiter that is still listening has a signal that aborted. *)
Definition calm (s : Admission) : Prop := forall n, Waiter n ∈ listeners s -> n ∉ aborted s.

Definition quiet (s : Admission) : Prop := forall n, Waiter n ∉ listeners s.

Lemma isOpen_createClaim s : isOpen (createClaim s) = false.
Proof. unfold isOpen. simpl. by rewrite andb_false_r. Qed.

Lemma isOpen_accepting s : isOpen s = true -> accepting s = true.
Proof. unfold isOpen. rewrite !andb_true_iff. tauto. Qed.

(** While the gate is closed, attempts leave everything as it was. *)
Lemma notify_closed publish l s :
  isOpen s = false -> calm s -> accepting s = true -> foldl (notifyWith publish) s l = s.
Proof.
  intros Hc Hcalm Ha. induction l as [|x l IH]; simpl; [done|].
  assert (notifyWith publish s x = s) as ->; [|done].
  unfold notifyWith. case_bool_decide as Hx; [|done]. destruct x as [n|n]; [|done].
  unfold attemptWith, beginWith. rewrite bool_decide_false by by apply Hcalm.
  by rewrite Ha, Hc.
Qed.

Lemma notify_quiet publish l s : quiet s -> foldl (notifyWith publish) s l = s.
Proof.
  intros Hq. induction l as [|x l IH]; simpl; [done|].
  assert (notifyWith publish s x = s) as ->; [|done].
  unfold notifyWith. case_bool_decide as Hx; [|done]. destruct x as [n|n]; [|done].
  by destruct (Hq n).
Qed.

Lemma nested_publish d s :
  isOpen s = true -> calm s -> publishIfChanged d true (createClaim s) = createClaim s.
Proof.
  intros Ho Hc. destruct d as [|d]; [done|]. cbn [publishIfChanged].
  rewrite isOpen_createClaim. cbn [Bool.eqb]. apply notify_closed; [|done|].
  - apply isOpen_createClaim.
  - exact (isOpen_accepting s Ho).
Qed.

Lemma beginWith_eq d s :
  calm s -> beginWith (publishIfChanged d) s =
  if isOpen s then (createClaim s, Some (nextClaim s)) else (s, None).
Proof.
  intros Hc. unfold beginWith. destruct (isOpen s) eqn:Ho; simpl; [|done]. by rewrite nested_publish.
Qed.

Lemma calm_settle n r s : calm s -> calm (settle n r s).
Proof. intros Hc m [_ Hm]%elem_of_sdel. by apply Hc. Qed.

Lemma notify_open d l s :
  isOpen s = true -> calm s -> NoDup l -> (forall x, x ∈ l -> x ∈ listeners s) ->
  foldl (notifyWith (publishIfChanged d)) s l =
  match firstWaiter l with
  | Some n => settle n (Resolved (nextClaim s)) (createClaim s)
  | None => s
  end.
Proof.
  intros Ho Hc. induction l as [|x l IH]; intros Hnd Hl; simpl; [done|].
  apply NoDup_cons in Hnd as [Hx Hnd]. unfold notifyWith at 2.
  rewrite bool_decide_true by (apply Hl; by left). destruct x as [n|n].
  - unfold attemptWith. rewrite bool_decide_false by (apply Hc, Hl; by left).
    rewrite (isOpen_accepting s Ho). cbn [negb]. rewrite beginWith_eq, Ho by done.
    rewrite notify_closed; [done| | |].
    + unfold isOpen. simpl. by rewrite andb_false_r.
    + by apply calm_settle.
    + simpl. by apply isOpen_accepting.
  - unfold firstWaiter. simpl. apply IH; [done|]. intros y Hy. apply Hl. by right.
Qed.

(** A publication at any depth of at least one hands the gate over; the depth
    never matters. *)
Lemma publish_depth d w s :
  calm s -> NoDup (listeners s) -> (accepting s = true \/ quiet s) -> (w = true -> quiet s) ->
  publishIfChanged (S d) w s = hand s.
Proof.
  intros Hc Hnd Ha Hw. cbn [publishIfChanged]. unfold hand.
  assert (quiet s -> firstWaiter (listeners s) = None) as Hquiet.
  { intros Hq. unfold firstWaiter. destruct (omap _ _) as [|n l] eqn:E; [done|].
    assert (n ∈ n :: l) as Hn by (by left). rewrite <- E in Hn.
    apply list_elem_of_omap in Hn as (x & Hx & Hxn). destruct x; simplify_eq. by destruct (Hq n). }
  destruct (isOpen s) eqn:Ho, w; cbn [Bool.eqb].
  - by rewrite Hquiet by auto.
  - by rewrite notify_open.
  - apply notify_quiet. auto.
  - done.
Qed.

Lemma attempt_eq n s :
  calm s \/ n ∈ aborted s ->
  attempt n s =
  if bool_decide (n ∈ aborted s) then settle n RejectedCancelled s
  else if negb (accepting s) then settle n RejectedStopped s
  else if isOpen s then settle n (Resolved (nextClaim s)) (createClaim s)
  else s.
Proof.
  unfold attempt, attemptWith. intros Hc. case_bool_decide; [done|].
  destruct Hc as [Hc|?]; [|done]. destruct (negb _); [done|].
  unfold publish. rewrite beginWith_eq by done. by destruct (isOpen s).
Qed.

(** ** Invariant *)

Record pinv (s : Admission) : Prop :=
  { p_active : forall c, mget c (outcomes s) = Some Active <-> exists b, activeClaim s = Some (c, b);
    p_fresh : forall c, is_Some (mget c (outcomes s)) -> c < nextClaim s;
    p_pending : userExchangePending s = true -> activeClaim s = None;
    p_stopped : accepting s = false -> activeClaim s = None /\ quiet s;
    p_nodup : NoDup (listeners s);
    p_waiting : forall n, Waiter n ∈ listeners s ->
      n ∈ created s /\ mget n (settled s) = None /\ (n ∉ aborted s);
    p_created : accepting s = true -> forall n, n ∈ created s ->
      Waiter n ∈ listeners s \/ is_Some (mget n (settled s));
    p_settled : forall n, is_Some (mget n (settled s)) -> n ∈ created s;
    p_aborted : forall n, n ∈ aborted s -> n ∈ created s }.

Definition inv (s : Admission) : Prop := pinv s /\ (isOpen s = true -> quiet s).

Lemma pinv_calm s : pinv s -> calm s.
Proof. intros Hp n Hn. by apply (p_waiting _ Hp). Qed.

Lemma ainv_initial : inv initialAdmission.
Proof.
  split; [|by intros [=]]. split; simpl; try done; try set_solver; try (by intros ? [? ?]).
  apply NoDup_nil_2.
Qed.

(** A claim is made for a waiter that listens. *)
Lemma pinv_createClaim s : pinv s -> isOpen s = true -> pinv (createClaim s).
Proof.
  intros Hp Ho. pose proof Ho as Ho'. unfold isOpen in Ho'. bool_prop.
  destruct Hp as [Ha Hf Hpe Hst Hnd Hwa Hcr Hse Hab]. split; simpl; try done.
  - intros c. rewrite mget_mset. case_bool_decide; subst; [naive_solver|].
    rewrite Ha. naive_solver.
  - intros c. rewrite mget_mset. case_bool_decide; [intros; lia|]. intros Hc%Hf. lia.
  - congruence.
  - congruence.
Qed.

Lemma pinv_settle n r s :
  pinv s -> n ∈ created s -> pinv (settle n r s).
Proof.
  intros [Ha Hf Hpe Hst Hnd Hwa Hcr Hse Hab] Hn. split; simpl; try done.
  - intros Hacc. destruct (Hst Hacc) as [? Hq]. split; [done|]. intros m [_ Hm]%elem_of_sdel. by apply (Hq m).
  - by apply sdel_nodup.
  - intros m [Hne Hm]%elem_of_sdel. destruct (Hwa _ Hm) as (? & Hs & ?). split_and!; [done| |done].
    destruct (mhas n (settled s)); [done|]. rewrite mget_mset_ne; [done|congruence].
  - intros Hacc m Hm. destruct (decide (m = n)) as [->|Hne].
    + right. unfold mhas. case_bool_decide; [done|]. rewrite mget_mset_eq. by eexists.
    + destruct (Hcr Hacc m Hm) as [?|?]; [left; apply elem_of_sdel; split; [congruence|done]|right].
      destruct (mhas n (settled s)); [done|]. by rewrite mget_mset_ne.
  - intros m. destruct (mhas n (settled s)); [apply Hse|]. rewrite mget_mset.
    case_bool_decide; [by subst|apply Hse].
Qed.

Lemma firstWaiter_Some l n : firstWaiter l = Some n -> Waiter n ∈ l.
Proof.
  unfold firstWaiter. destruct (omap _ l) as [|m k] eqn:E; [done|]. intros [= ->].
  assert (n ∈ n :: k) as Hn by (by left). rewrite <- E in Hn.
  apply list_elem_of_omap in Hn as (x & Hx & Hxn). destruct x; by simplify_eq.
Qed.

Lemma firstWaiter_None l n : firstWaiter l = None -> Waiter n ∉ l.
Proof.
  unfold firstWaiter. destruct (omap _ l) as [|m k] eqn:E; [|done]. intros _ Hn.
  assert (n ∈ @nil nat) as H; [|by apply elem_of_nil in H]. rewrite <- E.
  apply list_elem_of_omap. by exists (Waiter n).
Qed.

Lemma hand_inv s : pinv s -> inv (hand s).
Proof.
  intros Hp. unfold hand. destruct (isOpen s) eqn:Ho; [|by split; [|intros; congruence]].
  destruct (firstWaiter (listeners s)) as [n|] eqn:Ef.
  - apply firstWaiter_Some in Ef. split.
    + apply pinv_settle; [by apply pinv_createClaim|]. simpl. by apply (p_waiting _ Hp).
    + unfold isOpen. simpl. by rewrite andb_false_r.
  - split; [done|]. intros _ n. by apply firstWaiter_None.
Qed.

Lemma publish_hand w s : pinv s -> (w = true -> quiet s) -> publish w s = hand s.
Proof.
  intros Hp Hw. apply publish_depth; [by apply pinv_calm|by apply p_nodup| |done].
  destruct (accepting s) eqn:Ea; [by left|right]. by apply (p_stopped _ Hp).
Qed.

Lemma pinv_retire o s : pinv s -> o <> Active -> pinv (retireClaim o s).
Proof.
  intros Hp Ho. unfold retireClaim. destruct (activeClaim s) as [[c b]|] eqn:E; [|done].
  destruct Hp as [Ha Hf Hpe Hst Hnd Hwa Hcr Hse Hab]. rewrite E in *. split; simpl; try done.
  - intros c'. rewrite mget_mset. case_bool_decide; subst; [naive_solver|]. rewrite Ha. naive_solver.
  - intros c'. rewrite mget_mset. case_bool_decide; [|apply Hf]. subst. intros _. apply Hf.
    assert (mget c' (outcomes s) = Some Active) as ->; [|by eexists]. apply Ha. eauto.
  - intros Hacc. split; [done|]. by apply Hst.
Qed.

Lemma pinv_withExchange a b s :
  pinv s -> (b = true -> activeClaim s = None) -> pinv (withExchange a b s).
Proof. intros [Ha Hf Hpe Hst Hnd Hwa Hcr Hse Hab] Hb. by split. Qed.

Lemma pinv_withIdle b s : pinv s -> pinv (withIdle b s).
Proof. intros [Ha Hf Hpe Hst Hnd Hwa Hcr Hse Hab]. by split. Qed.

Lemma pinv_mark c b b' s : activeClaim s = Some (c, b) -> pinv s -> pinv (withClaim (Some (c, b')) s).
Proof.
  intros Hc [Ha Hf Hpe Hst Hnd Hwa Hcr Hse Hab]. rewrite Hc in *. split; simpl; try done.
  - intros c'. rewrite Ha. naive_solver.
  - intros Hpend. by specialize (Hpe Hpend).
  - intros Hacc. by destruct (Hst Hacc).
Qed.

(** Claims that have ended keep their outcome. *)
Definition mono (s s' : Admission) : Prop :=
  forall c o, mget c (outcomes s) = Some o -> o <> Active -> mget c (outcomes s') = Some o.

Lemma mono_refl s : mono s s.
Proof. by intros c o. Qed.

Lemma mono_trans s1 s2 s3 : mono s1 s2 -> mono s2 s3 -> mono s1 s3.
Proof. intros H1 H2 c o Hc Ho. apply H2; [by apply H1|done]. Qed.

Lemma mono_retire o s : pinv s -> mono s (retireClaim o s).
Proof.
  intros Hp c o' Hc Ho. unfold retireClaim. destruct (activeClaim s) as [[c' b]|] eqn:E; [|done].
  simpl. rewrite mget_mset_ne; [done|]. intros ->.
  assert (mget c' (outcomes s) = Some Active) by (apply (p_active _ Hp); eauto). congruence.
Qed.

Lemma mono_createClaim s : pinv s -> mono s (createClaim s).
Proof.
  intros Hp c o Hc Ho. simpl. rewrite mget_mset_ne; [done|]. intros ->.
  assert (nextClaim s < nextClaim s); [|lia]. apply (p_fresh _ Hp). by rewrite Hc.
Qed.

Lemma mono_hand s : pinv s -> mono s (hand s).
Proof.
  intros Hp. unfold hand. destruct (isOpen s); [|apply mono_refl].
  destruct (firstWaiter _); [|apply mono_refl]. by apply mono_createClaim.
Qed.

(** An operation: the state it leaves is well formed and no ended claim
    changes. *)
Definition proceeds (s s' : Admission) : Prop := inv s' /\ mono s s'.

Lemma proceeds_publish w s s1 :
  pinv s1 -> mono s s1 -> (w = true -> quiet s1) -> proceeds s (publish w s1).
Proof.
  intros Hp Hm Hw. rewrite publish_hand by done. split; [by apply hand_inv|].
  eapply mono_trans; [exact Hm|by apply mono_hand].
Qed.

Lemma proceeds_attempt s n s1 :
  pinv s1 -> n ∈ created s1 -> mono s s1 -> (isOpen s1 = true -> forall m, Waiter m ∈ listeners s1 -> m = n) ->
  proceeds s (attempt n s1).
Proof.
  intros Hp Hn Hm Ho. rewrite attempt_eq by (left; by apply pinv_calm).
  assert (forall r, proceeds s (settle n r s1)) as Hset.
  { intros r. split; [|done]. split; [by apply pinv_settle|]. intros Hop m [Hne Hin]%elem_of_sdel.
    change (isOpen s1 = true) in Hop. by rewrite (Ho Hop m Hin) in Hne. }
  case_bool_decide; [done|]. destruct (negb _); [done|]. destruct (isOpen s1) eqn:Eo.
  - split; [split|].
    + apply pinv_settle; [by apply pinv_createClaim|done].
    + unfold isOpen. simpl. by rewrite andb_false_r.
    + eapply mono_trans; [exact Hm|by apply mono_createClaim].
  - split; [|done]. split; [done|]. congruence.
Qed.

Lemma inv_quiet s s1 :
  inv s -> listeners s1 = listeners s -> (isOpen s = true -> quiet s1).
Proof. intros [_ Hq] Hl Ho n. rewrite Hl. by apply Hq. Qed.

Lemma retire_listeners o s : listeners (retireClaim o s) = listeners s.
Proof. unfold retireClaim. by repeat case_match. Qed.

Lemma proceeds_cancel c s : inv s -> proceeds s (cancel c s).
Proof.
  intros Hi. pose proof Hi as [Hp _]. unfold cancel. case_bool_decide; [|by split; [|apply mono_refl]].
  apply proceeds_publish; [by apply pinv_retire|by apply mono_retire|].
  apply (inv_quiet s); [done|apply retire_listeners].
Qed.

Lemma proceeds_begin s : inv s -> proceeds s (begin s).1.
Proof.
  intros [Hp Hq]. unfold begin, publish. rewrite beginWith_eq by by apply pinv_calm.
  destruct (isOpen s) eqn:Ho; cbn [fst];
    [|by split; [split; [|intros; congruence]|apply mono_refl]].
  split; [split|by apply mono_createClaim]; [by apply pinv_createClaim|]. simpl.
  rewrite isOpen_createClaim. done.
Qed.

Lemma sadd_listener n s : n ∉ created s -> pinv s -> NoDup (sadd (Waiter n) (listeners s)).
Proof. intros _ Hp. apply sadd_nodup, Hp. Qed.

Lemma sdel_sadd {A} `{EqDecision A} (x : A) l : x ∉ l -> sdel x (sadd x l) = l.
Proof.
  intros Hx. unfold sadd, shas, sdel. rewrite bool_decide_false by done. rewrite filter_app.
  rewrite (filter_cons_False _ x) by (intros H; by apply H). rewrite filter_nil, app_nil_r.
  clear -Hx. induction l as [|y l IH]; [done|].
  apply not_elem_of_cons in Hx as [Hne Hx]. rewrite filter_cons_True by congruence. f_equal. auto.
Qed.

(** The state after a new waiter settled at once. *)
Definition registered (n : nat) (pre : bool) (r : Settlement) (s : Admission) : Admission :=
  {| accepting := accepting s; lifecycleIdle := lifecycleIdle s;
     userExchangeCompleted := userExchangeCompleted s; userExchangePending := userExchangePending s;
     activeClaim := activeClaim s; listeners := listeners s; outcomes := outcomes s;
     nextClaim := nextClaim s; aborted := if pre then sadd n (aborted s) else aborted s;
     settled := mset n r (settled s); created := n :: created s |}.

Lemma pinv_registered n pre r s : pinv s -> n ∉ created s -> pinv (registered n pre r s).
Proof.
  intros [Ha Hf Hpe Hst Hnd Hwa Hcr Hse Hab] Hn. split; simpl; try done.
  - intros m Hm. destruct (Hwa m Hm) as (Hc & Hsm & Hnm). assert (m <> n) by congruence.
    rewrite mget_mset_ne by done. split_and!; [by right|done|].
    destruct pre; [|done]. rewrite elem_of_sadd. tauto.
  - intros Hacc m [->|Hm]%elem_of_cons; [right; rewrite mget_mset_eq; by eexists|].
    rewrite mget_mset_ne by congruence. by apply Hcr.
  - intros m. rewrite mget_mset. case_bool_decide; subst; [by left|right; by apply Hse].
  - intros m. destruct pre; rewrite ?elem_of_sadd; intros Hm; [|right; by apply Hab].
    destruct Hm as [->|Hm]; [by left|right; by apply Hab].
Qed.

(** The new waiter while it listens. *)
Definition listening (n : nat) (s : Admission) : Admission :=
  withCreated (n :: created s) (withListeners (sadd (Waiter n) (listeners s)) s).

Lemma unsettled n s : pinv s -> n ∉ created s -> mget n (settled s) = None /\ Waiter n ∉ listeners s.
Proof.
  intros Hp Hn. split.
  - destruct (mget n (settled s)) eqn:E; [|done]. destruct Hn. apply (p_settled _ Hp). by rewrite E.
  - intros Hin. by apply Hn, (p_waiting _ Hp).
Qed.

Lemma settle_listening n (pre : bool) r s :
  pinv s -> n ∉ created s ->
  settle n r (if pre then withAborted (sadd n (aborted (listening n s))) (listening n s)
              else listening n s) = registered n pre r s.
Proof.
  intros Hp Hn. destruct (unsettled n s Hp Hn) as [Hs Hl].
  unfold settle, registered, mhas. destruct pre; simpl; rewrite Hs, sdel_sadd by done;
    by rewrite bool_decide_false by (intros [? [=]]).
Qed.

Lemma pinv_listening n s : pinv s -> accepting s = true -> n ∉ created s -> pinv (listening n s).
Proof.
  intros Hp Hacc Hn. destruct (unsettled n s Hp Hn) as [Hs Hl].
  destruct Hp as [Ha Hf Hpe Hst Hnd Hwa Hcr Hse Hab]. split; simpl; try done.
  - by rewrite Hacc.
  - by apply sadd_nodup.
  - intros m [[= ->]|Hm]%elem_of_sadd.
    + split_and!; [by left|done|by intros ?%Hab].
    + destruct (Hwa m Hm) as (? & ? & ?). split_and!; [by right|done|done].
  - intros _ m [->|Hm]%elem_of_cons; [left; apply elem_of_sadd; by left|].
    destruct (Hcr Hacc m Hm); [left; apply elem_of_sadd; by right|by right].
  - intros m Hm. right. by apply Hse.
  - intros m Hm. right. by apply Hab.
Qed.

Lemma proceeds_registered n pre r s :
  inv s -> n ∉ created s -> proceeds s (registered n pre r s).
Proof. intros [Hp Hq] Hn. split; [split; [by apply pinv_registered|exact Hq]|exact (mono_refl s)]. Qed.

Lemma proceeds_claim n pre s :
  inv s -> n ∉ created s -> proceeds s (claimWhenOpen n pre s).
Proof.
  intros Hi Hn. pose proof Hi as [Hp Hq]. unfold claimWhenOpen. fold (listening n s).
  set (s2 := if pre then _ else _).
  assert (forall r, proceeds s (settle n r s2)) as Hset.
  { intros r. unfold s2. rewrite settle_listening by done. by apply proceeds_registered. }
  destruct (decide (n ∈ aborted s2)) as [Hab|Hab].
  { rewrite attempt_eq by (by right). by rewrite bool_decide_true. }
  assert (pre = false) as ->.
  { destruct pre; [|done]. destruct Hab. simpl. apply elem_of_sadd. by left. }
  destruct (accepting s) eqn:Hacc.
  - apply proceeds_attempt; [by apply pinv_listening|by left|exact (mono_refl s)|].
    intros Ho m [[= ->]|Hm]%elem_of_sadd; [done|]. by destruct (Hq Ho m).
  - rewrite attempt_eq; [|left; intros m Hm Hma].
    + rewrite bool_decide_false by done. simpl. rewrite Hacc. apply Hset.
    + apply elem_of_sadd in Hm as [[= ->]|Hm]; [done|]. by apply (p_waiting _ Hp m).
Qed.

Lemma proceeds_abort n s : inv s -> n ∈ created s -> proceeds s (abort n s).
Proof.
  intros [Hp Hq] Hn. unfold abort. set (s1 := withAborted _ s).
  assert (mhas n (settled s1) = true -> pinv s1) as Hps.
  { unfold mhas. rewrite bool_decide_eq_true. intros Hs.
    destruct Hp as [Ha Hf Hpe Hst Hnd Hwa Hcr Hse Hab]. split; simpl; try done.
    - intros m Hm. destruct (Hwa m Hm) as (? & Hsm & ?). split_and!; [done|done|].
      rewrite elem_of_sadd. intros [->|?]; [|done]. simpl in Hs. rewrite Hsm in Hs. by destruct Hs.
    - intros m [->|Hm]%elem_of_sadd; [done|by apply Hab]. }
  destruct (mhas n (settled s1)) eqn:Es; [split; [split; [by apply Hps|exact Hq]|exact (mono_refl s)]|].
  rewrite attempt_eq by (right; simpl; apply elem_of_sadd; by left).
  rewrite bool_decide_true by (simpl; apply elem_of_sadd; by left).
  split; [split|exact (mono_refl s)].
  - unfold settle. rewrite Es. clear Hps. simpl in *.
    destruct Hp as [Ha Hf Hpe Hst Hnd Hwa Hcr Hse Hab]. split; simpl; try done.
    + intros Hacc. destruct (Hst Hacc) as [? Hqu]. split; [done|].
      intros m [_ Hm]%elem_of_sdel. by apply (Hqu m).
    + by apply sdel_nodup.
    + intros m [Hne Hm]%elem_of_sdel. destruct (Hwa m Hm) as (? & ? & ?).
      rewrite mget_mset_ne by congruence. rewrite elem_of_sadd. naive_solver.
    + intros Hacc m Hm. rewrite elem_of_sdel, mget_mset. case_bool_decide; [right; by eexists|].
      destruct (Hcr Hacc m Hm); [left; split; [congruence|done]|by right].
    + intros m. rewrite mget_mset. case_bool_decide; [by subst|apply Hse].
    + intros m [->|Hm]%elem_of_sadd; [done|by apply Hab].
  - intros Ho m [_ Hm]%elem_of_sdel. by apply (Hq Ho m).
Qed.

Lemma inv_open_listeners s s1 :
  inv s -> listeners s1 = listeners s -> isOpen s = true -> quiet s1.
Proof. intros Hi Hl Ho. by eapply inv_quiet. Qed.

(** An operation that only rewrites fields, then publishes. *)
Lemma proceeds_fields s s1 :
  inv s -> pinv s1 -> mono s s1 -> listeners s1 = listeners s -> proceeds s (publish (isOpen s) s1).
Proof. intros Hi Hp Hm Hl. apply proceeds_publish; [done|done|]. intros Ho. by eapply inv_quiet. Qed.

(** Field updates that keep the invariant, the ended claims and the listeners. *)
Definition tame (s s1 : Admission) : Prop :=
  pinv s -> pinv s1 /\ mono s s1 /\ listeners s1 = listeners s.

Lemma tame_refl s : tame s s.
Proof. intros Hp. split_and!; [done|apply mono_refl|done]. Qed.

Lemma tame_trans s1 s2 s3 : tame s1 s2 -> tame s2 s3 -> tame s1 s3.
Proof.
  intros H12 H23 Hp. destruct (H12 Hp) as (Hp2 & Hm2 & Hl2). destruct (H23 Hp2) as (Hp3 & Hm3 & Hl3).
  split_and!; [done|by eapply mono_trans|congruence].
Qed.

Lemma tame_retire o s : o <> Active -> tame s (retireClaim o s).
Proof.
  intros Ho Hp. split_and!; [by apply pinv_retire|by apply mono_retire|apply retire_listeners].
Qed.

Lemma tame_exchange a b s :
  (b = true -> activeClaim s = None) -> tame s (withExchange a b s).
Proof. intros Hb Hp. split_and!; [by apply pinv_withExchange|exact (mono_refl s)|done]. Qed.

Lemma tame_idle b s : tame s (withIdle b s).
Proof. intros Hp. split_and!; [by apply pinv_withIdle|exact (mono_refl s)|done]. Qed.

Lemma tame_mark s :
  tame s (match activeClaim s with Some (c, _) => withClaim (Some (c, true)) s | None => s end).
Proof.
  destruct (activeClaim s) as [[c b]|] eqn:E; [|apply tame_refl]. intros Hp.
  split_and!; [by eapply pinv_mark|exact (mono_refl s)|done].
Qed.

Lemma tame_complete s :
  tame s (match activeClaim s with Some (_, true) => retireClaim Completed s | _ => s end).
Proof. repeat case_match; try apply tame_refl. by apply tame_retire. Qed.

Lemma proceeds_tame s s1 : inv s -> tame s s1 -> proceeds s (publish (isOpen s) s1).
Proof. intros Hi Ht. pose proof Hi as [Hp _]. destruct (Ht Hp) as (? & ? & ?). by apply proceeds_fields. Qed.

Lemma proceeds_refl s : inv s -> proceeds s s.
Proof. intros Hi. split; [done|apply mono_refl]. Qed.

Lemma proceeds_completeExchange s : inv s -> proceeds s (completeExchange s).
Proof.
  intros Hi. unfold completeExchange. destruct (negb (accepting s)); [by apply proceeds_refl|].
  apply proceeds_tame; [done|]. eapply tame_trans; [apply (tame_mark s)|].
  set (s1 := match activeClaim s with Some _ => _ | None => _ end).
  eapply tame_trans; [|].
  - instantiate (1 := if userExchangePending s1 then withExchange true (userExchangePending s1) s1 else s1).
    destruct (userExchangePending s1) eqn:E; [|apply tame_refl]. intros Hp.
    apply tame_exchange; [|done]. intros _. by apply (p_pending _ Hp).
  - set (s2 := if userExchangePending s1 then _ else _). destruct (lifecycleIdle s2); [|apply tame_refl].
    eapply tame_trans; [|apply tame_complete].
    destruct (userExchangeCompleted s2); [by apply tame_exchange|apply tame_refl].
Qed.

Lemma proceeds_setLifecycleIdle b s : inv s -> proceeds s (setLifecycleIdle b s).
Proof.
  intros Hi. unfold setLifecycleIdle. destruct (negb (accepting s)); [by apply proceeds_refl|].
  apply proceeds_tame; [done|]. eapply tame_trans; [apply (tame_idle b)|].
  destruct b; simpl; [|apply tame_refl]. eapply tame_trans; [|apply tame_complete].
  destruct (_ && _); [by apply tame_exchange|apply tame_refl].
Qed.

Lemma proceeds_setUserSpeaking b s : inv s -> proceeds s (setUserSpeaking b s).
Proof.
  intros Hi. unfold setUserSpeaking. destruct (_ || _) eqn:E; [by apply proceeds_refl|].
  bool_prop. apply proceeds_tame; [done|]. intros Hp.
  assert (forall s0, activeClaim (retireClaim Interrupted s0) = None) as Hr.
  { intros s0. unfold retireClaim. by destruct (activeClaim s0) as [[]|] eqn:?. }
  assert (retireClaim Interrupted (withExchange false true s) =
          withExchange false true (retireClaim Interrupted s)) as ->.
  { unfold retireClaim. simpl. by repeat case_match. }
  eapply (tame_trans _ (retireClaim Interrupted s)); [by apply tame_retire|by apply tame_exchange|done].
Qed.

(** Stopping a gate publishes nothing that anyone hears: when it was open there
    is no waiter, and when it was closed it stays closed. *)
Lemma stop_eq s :
  inv s -> accepting s = true ->
  stop s = withListeners [] (retireClaim Cancelled (withAccepting false s)).
Proof.
  intros [Hp Hq] Ha. unfold stop. rewrite Ha. cbn [negb]. f_equal.
  set (s1 := retireClaim _ _).
  assert (isOpen s1 = false) as Ho1.
  { unfold s1, retireClaim. simpl. unfold isOpen. by repeat case_match. }
  unfold publish. cbn [publishIfChanged]. rewrite Ho1. destruct (isOpen s) eqn:Ho; simpl; [|done].
  apply notify_quiet. intros n. unfold s1. rewrite retire_listeners. by apply Hq.
Qed.

Lemma proceeds_stop s : inv s -> proceeds s (stop s).
Proof.
  intros Hi. destruct (accepting s) eqn:Ha; [|unfold stop; rewrite Ha; by apply proceeds_refl].
  rewrite stop_eq by done. pose proof Hi as [Hp _].
  pose proof (pinv_retire Cancelled s Hp ltac:(done)) as [Hac Hf Hpe Hst Hnd Hwa Hcr Hse Hab].
  assert (retireClaim Cancelled (withAccepting false s) = withAccepting false (retireClaim Cancelled s)) as ->.
  { unfold retireClaim. simpl. by repeat case_match. }
  assert (activeClaim (retireClaim Cancelled s) = None) as Hn.
  { unfold retireClaim. by destruct (activeClaim s) as [[]|] eqn:?. }
  split; [split|].
  - split; simpl; [exact Hac|exact Hf|exact Hpe| |apply NoDup_nil_2| |done|exact Hse|exact Hab].
    + intros _. split; [exact Hn|]. by intros n ?%elem_of_nil.
    + by intros n ?%elem_of_nil.
  - by intros [=].
  - exact (mono_retire Cancelled s Hp).
Qed.

Lemma proceeds_observe l s :
  inv s -> NoDup l -> (forall n, Waiter n ∈ l <-> Waiter n ∈ listeners s) ->
  proceeds s (withListeners l s).
Proof.
  intros [Hp Hq] Hnd Hl. destruct Hp as [Ha Hf Hpe Hst Hnd' Hwa Hcr Hse Hab].
  split; [split|exact (mono_refl s)].
  - split; simpl; try done.
    + intros Hacc. destruct (Hst Hacc) as [? Hqu]. split; [done|]. intros n. simpl. rewrite Hl. apply Hqu.
    + intros n Hn%Hl. by apply Hwa.
    + intros Hacc n Hn. rewrite Hl. by apply Hcr.
  - intros Ho n. simpl. rewrite Hl. by apply Hq.
Qed.

Lemma proceeds_op op s : inv s -> enabled op s -> proceeds s (runOp op s).
Proof.
  intros Hi He. pose proof Hi as [Hp _]. destruct op; simpl in *.
  - by apply proceeds_begin.
  - by apply proceeds_cancel.
  - by apply proceeds_claim.
  - by apply proceeds_abort.
  - by apply proceeds_completeExchange.
  - by apply proceeds_setLifecycleIdle.
  - by apply proceeds_setUserSpeaking.
  - by apply proceeds_stop.
  - apply proceeds_observe; [done|apply sadd_nodup, Hp|]. intros m. rewrite elem_of_sadd. naive_solver.
  - apply proceeds_observe; [done|apply sdel_nodup, Hp|]. intros m. rewrite elem_of_sdel. naive_solver.
  - unfold appendSettled. repeat case_match; try by apply proceeds_refl. by apply proceeds_cancel.
Qed.

Lemma proceeds_runs s ops s' : inv s -> admissionRuns s ops s' -> proceeds s s'.
Proof.
  intros Hi Hr. induction Hr as [|s op ops s' He _ IH]; [by apply proceeds_refl|].
  destruct (proceeds_op op s Hi He) as [Hi' Hm]. destruct (IH Hi') as [Hi2 Hm2].
  split; [done|by eapply mono_trans].
Qed.

(** Once stopped, a waiter is settled by its own operations only. *)
Lemma claim_stopped m pre s :
  inv s -> accepting s = false -> m ∉ created s ->
  exists r, claimWhenOpen m pre s = registered m pre r s.
Proof.
  intros [Hp _] Ha Hm. unfold claimWhenOpen. fold (listening m s).
  set (s2 := if pre then _ else _).
  assert (exists r, attempt m s2 = settle m r s2) as [r ->].
  { rewrite attempt_eq.
    - case_bool_decide; [eauto|]. assert (accepting s2 = false) as -> by (unfold s2; by destruct pre).
      simpl. eauto.
    - destruct pre; [right; simpl; apply elem_of_sadd; by left|left].
      intros k [[= ->]|Hk]%elem_of_sadd; [by intros ?%(p_aborted _ Hp)|by apply (p_waiting _ Hp k)]. }
  exists r. unfold s2. by rewrite settle_listening.
Qed.

Lemma stopped_op op s n :
  inv s -> enabled op s -> accepting s = false -> n ∈ created s -> mget n (settled s) = None ->
  op <> Abort n ->
  accepting (runOp op s) = false /\ n ∈ created (runOp op s) /\ mget n (settled (runOp op s)) = None.
Proof.
  intros Hi He Ha Hc Hs Hop. pose proof Hi as [Hp _].
  destruct (p_stopped _ Hp Ha) as [Hact _].
  assert (isOpen s = false) as Ho by (unfold isOpen; by rewrite Ha).
  assert (forall c, cancel c s = s) as Hcancel by (intros c; unfold cancel; rewrite Hact; done).
  destruct op as [|c|m pre|m| |b|b| |m|m|m b]; simpl in *; try done.
  - unfold begin, beginWith. by rewrite Ho.
  - by rewrite Hcancel.
  - destruct (claim_stopped m pre s Hi Ha He) as [r ->]. simpl. split_and!; [done|by right|].
    rewrite mget_mset_ne; [done|]. intros ->. done.
  - assert (m <> n) as Hne by congruence. unfold abort.
    set (s1 := withAborted _ s). destruct (mhas m (settled s1)) eqn:Em; [done|].
    rewrite attempt_eq by (right; simpl; apply elem_of_sadd; by left).
    rewrite bool_decide_true by (simpl; apply elem_of_sadd; by left).
    unfold settle. rewrite Em. simpl. by rewrite mget_mset_ne.
  - unfold completeExchange. by rewrite Ha.
  - unfold setLifecycleIdle. by rewrite Ha.
  - unfold setUserSpeaking. by rewrite Ha.
  - unfold stop. by rewrite Ha.
  - unfold appendSettled. repeat case_match; try done; by rewrite Hcancel.
Qed.

(** The gate admits one unsolicited exchange at a time: over any sequence
    of operations at most one claim is active, none while the user's exchange
    is pending, a claim that has ended keeps its outcome for good, the gate is
    never left open while a caller waits for it, and the user speaking
    interrupts the claim that is active. *)
Theorem admission_exclusive ops s ops' s' :
  admissionRuns initialAdmission ops s -> admissionRuns s ops' s' ->
  (forall c1 c2, mget c1 (outcomes s) = Some Active -> mget c2 (outcomes s) = Some Active -> c1 = c2) /\
  (userExchangePending s = true -> forall c, mget c (outcomes s) <> Some Active) /\
  (forall c o, mget c (outcomes s) = Some o -> o <> Active -> mget c (outcomes s') = Some o) /\
  (isOpen s = true -> forall n, n ∈ created s -> is_Some (mget n (settled s))) /\
  (accepting s = true -> forall c, mget c (outcomes s) = Some Active ->
     mget c (outcomes (setUserSpeaking true s)) = Some Interrupted).
Proof.
  intros H1 H2. destruct (proceeds_runs _ _ _ ainv_initial H1) as [Hi _].
  destruct (proceeds_runs _ _ _ Hi H2) as [_ Hm]. pose proof Hi as [Hp Hq]. split_and!.
  - intros c1 c2 [b1 ?]%(p_active _ Hp) [b2 ?]%(p_active _ Hp). congruence.
  - intros Hpend c [b Hc]%(p_active _ Hp). apply (p_pending _ Hp) in Hpend. congruence.
  - exact Hm.
  - intros Ho n Hn. destruct (p_created _ Hp (isOpen_accepting _ Ho) n Hn); [|done].
    by destruct (Hq Ho n).
  - intros Ha c [b Hc]%(p_active _ Hp). unfold setUserSpeaking. rewrite Ha. cbn [negb orb].
    set (s1 := retireClaim Interrupted (withExchange false true s)).
    assert (mget c (outcomes s1) = Some Interrupted) as Hs1.
    { unfold s1, retireClaim. simpl. rewrite Hc. simpl. apply mget_mset_eq. }
    assert (isOpen s1 = false) as Ho1.
    { unfold s1, retireClaim. simpl. rewrite Hc. unfold isOpen. simpl. by rewrite andb_false_r. }
    assert (isOpen s = false) as Ho by (unfold isOpen; rewrite Hc, andb_false_r; done).
    unfold publish. cbn [publishIfChanged]. by rewrite Ho1, Ho.
Qed.

(** Stopping the gate strands its waiters: a caller waiting in
    [claimWhenOpen] when [stop] is called is not rejected, and whatever happens
    afterwards, short of an abort of its own signal, its promise never settles. *)
Theorem stop_strands_waiters ops s n ops' s' :
  admissionRuns initialAdmission ops s -> accepting s = true -> Waiter n ∈ listeners s ->
  admissionRuns (stop s) ops' s' -> Abort n ∉ ops' -> mget n (settled s') = None.
Proof.
  intros H1 Ha Hn H2. destruct (proceeds_runs _ _ _ ainv_initial H1) as [Hi _].
  pose proof Hi as [Hp _]. destruct (p_waiting _ Hp n Hn) as (Hc & Hs & _).
  destruct (proceeds_stop s Hi) as [Hi2 _].
  assert (inv (stop s) /\ accepting (stop s) = false /\ n ∈ created (stop s) /\
          mget n (settled (stop s)) = None) as Hstart.
  { split; [done|]. rewrite stop_eq by done. unfold retireClaim. simpl. by repeat case_match. }
  clear -H2 Hstart. revert Hstart. generalize dependent (stop s). clear s. intros s H2 Hstart.
  revert Hstart. induction H2 as [s|s op ops s' He _ IH];
    intros (Hi & Ha & Hc & Hs) Hno; [done|].
  apply IH; [|set_solver]. destruct (proceeds_op op s Hi He) as [Hi' _].
  split; [done|]. apply (stopped_op op); [done..|]. intros ->. apply Hno. by left.
Qed.

(** ** Demonstrations *)

Definition demo_waiting : Admission := runOp (ClaimWhenOpen 0 false) initialAdmission.

Lemma admission_exclusive_witness :
  mget 0 (outcomes (setUserSpeaking true (runOp Begin (runOp (SetLifecycleIdle true) initialAdmission))))
  = Some Interrupted.
Proof.
  refine (proj2 (proj2 (proj2 (proj2 (admission_exclusive [SetLifecycleIdle true; Begin] _ [] _ _ _))))
            _ 0 _).
  - eapply runs_cons; [exact I|]. eapply runs_cons; [exact I|]. constructor.
  - constructor.
  - reflexivity.
  - vm_compute. reflexivity.
Defined.

Lemma stop_strands_waiters_witness :
  Waiter 0 ∈ listeners demo_waiting /\
  mget 0 (settled (runOp (SetLifecycleIdle true) (stop demo_waiting))) = None.
Proof.
  split; [left|].
  apply (stop_strands_waiters [ClaimWhenOpen 0 false] demo_waiting 0 [SetLifecycleIdle true]).
  - eapply runs_cons; [by intros H; inversion H|]. constructor.
  - reflexivity.
  - left.
  - eapply runs_cons; [exact I|]. constructor.
  - intros H. inversion H as [|? ? ? H']; subst. inversion H'.
Defined.
