(* ===== verification/RouteSessions.v ===== *)
(** * Route sessions

    Models apps/android/src/services/routeSessionPolicy.ts: one registry of
    private route payloads with its deadline, capacity and leases.  [Date.now()]
    is an argument of each operation; an entry object is named by a handle; the
    cleanup calls and the published retirements are logs. *)
From S2P Require Import Prelude JsMap.

Local Open Scope Z_scope.

Record RouteSessionEntry := { e_id : jstr; e_handle : nat; touchedAt : Z }.

Record RouteSessionRegistry :=
  { entries : list (jstr * RouteSessionEntry);
    leases : list (jstr * nat);
    (** when the expiry timer fires *)
    expiryTimer : option Z;
    cleaned : list nat;
    version : nat;
    (** the release callbacks not called yet, and the id each releases *)
    releases : list (nat * jstr);
    nextRelease : nat }.

Definition emptyRegistry : RouteSessionRegistry :=
  {| entries := []; leases := []; expiryTimer := None; cleaned := []; version := 0;
     releases := []; nextRelease := 0 |}.

Definition withEntries (m : list (jstr * RouteSessionEntry)) (r : RouteSessionRegistry) :=
  {| entries := m; leases := leases r; expiryTimer := expiryTimer r; cleaned := cleaned r;
     version := version r; releases := releases r; nextRelease := nextRelease r |}.

Definition withLeases (m : list (jstr * nat)) (r : RouteSessionRegistry) :=
  {| entries := entries r; leases := m; expiryTimer := expiryTimer r; cleaned := cleaned r;
     version := version r; releases := releases r; nextRelease := nextRelease r |}.

Definition withTimer (t : option Z) (r : RouteSessionRegistry) :=
  {| entries := entries r; leases := leases r; expiryTimer := t; cleaned := cleaned r;
     version := version r; releases := releases r; nextRelease := nextRelease r |}.

Definition withReleases (m : list (nat * jstr)) (n : nat) (r : RouteSessionRegistry) :=
  {| entries := entries r; leases := leases r; expiryTimer := expiryTimer r; cleaned := cleaned r;
     version := version r; releases := m; nextRelease := n |}.

Section registry.
(** The options. *)
Context (canEvictOption : RouteSessionEntry -> bool) (limit : nat) (touchOnGet : bool) (ttlMs : Z).

Definition leased (id : jstr) (r : RouteSessionRegistry) : bool := mhas id (leases r).

Definition canEvict (entry : RouteSessionEntry) (r : RouteSessionRegistry) : bool :=
  negb (leased (e_id entry) r) && canEvictOption entry.

Definition allEntriesRetained (r : RouteSessionRegistry) : bool :=
  negb (bool_decide (entries r = [])) && forallb (fun id => leased id r) (mkeys (entries r)).

(** The first entry with the smallest [touchedAt] among those that satisfy [p]. *)
Definition oldest (p : RouteSessionEntry -> bool) (l : list RouteSessionEntry)
    : option RouteSessionEntry :=
  foldl (fun oldest entry =>
    if p entry && match oldest with Some o => touchedAt entry <? touchedAt o | None => true end
    then Some entry else oldest) None l.

Definition oldestEvictable (r : RouteSessionRegistry) : option RouteSessionEntry :=
  oldest (fun entry => canEvict entry r) (mvals (entries r)).

Definition retire (r : RouteSessionRegistry) (entry : RouteSessionEntry) : RouteSessionRegistry :=
  if negb (mhas (e_id entry) (entries r)) then r
  else
    {| entries := mdel (e_id entry) (entries r); leases := mdel (e_id entry) (leases r);
       expiryTimer := expiryTimer r; cleaned := cleaned r ++ [e_handle entry];
       version := S (version r); releases := releases r; nextRelease := nextRelease r |}.

Definition scheduleExpiry (now : Z) (r : RouteSessionRegistry) : RouteSessionRegistry :=
  withTimer
    (match oldest (fun entry => negb (leased (e_id entry) r)) (mvals (entries r)) with
     | None => None
     | Some entry => Some (now + Z.max 0 (touchedAt entry + ttlMs - now))
     end) r.

Definition retireExpired (now : Z) (r : RouteSessionRegistry) : RouteSessionRegistry :=
  let cutoff := now - ttlMs in
  scheduleExpiry now
    (foldl (fun r entry =>
       if negb (leased (e_id entry) r) && (touchedAt entry <=? cutoff) then retire r entry else r)
       r (mvals (entries r))).

(** The eviction loop of [admit]: whether to go on, and the registry.  Each
    turn retires an entry, so the number of entries is fuel enough. *)
Fixpoint makeRoom (fuel : nat) (r : RouteSessionRegistry) : bool * RouteSessionRegistry :=
  if (limit <=? length (entries r))%nat then
    match oldestEvictable r with
    | None => (allEntriesRetained r, r)
    | Some entry =>
        match fuel with
        | O => (false, r)
        | S fuel => makeRoom fuel (retire r entry)
        end
    end
  else (true, r).

(** [admit]. *)
Definition admitEntry (now : Z) (entry : RouteSessionEntry) (r : RouteSessionRegistry)
    : bool * RouteSessionRegistry :=
  let r := retireExpired now r in
  match makeRoom (length (entries r)) r with
  | (false, r) => (false, r)
  | (true, r) =>
      (true, scheduleExpiry now (withEntries (mset (e_id entry) entry (entries r)) r))
  end.

Definition touched (now : Z) (entry : RouteSessionEntry) : RouteSessionEntry :=
  {| e_id := e_id entry; e_handle := e_handle entry; touchedAt := now |}.

Definition touchEntry (now : Z) (entry : RouteSessionEntry) (r : RouteSessionRegistry) :=
  withEntries (mset (e_id entry) (touched now entry) (entries r)) r.

Definition get (now : Z) (id : jstr) (r : RouteSessionRegistry)
    : option RouteSessionEntry * RouteSessionRegistry :=
  let r := retireExpired now r in
  match mget id (entries r) with
  | Some entry =>
      if touchOnGet then (Some (touched now entry), scheduleExpiry now (touchEntry now entry r))
      else (Some entry, r)
  | None => (None, r)
  end.

(** [touch(id, entry)], for the object [handle]. *)
Definition touch (now : Z) (id : jstr) (handle : nat) (r : RouteSessionRegistry)
    : RouteSessionRegistry :=
  match mget id (entries r) with
  | Some entry =>
      if bool_decide (e_handle entry = handle) then scheduleExpiry now (touchEntry now entry r) else r
  | None => r
  end.

(** The release callback it returns is a number. *)
Definition retain (now : Z) (id : jstr) (r : RouteSessionRegistry)
    : option nat * RouteSessionRegistry :=
  match mget id (entries r) with
  | None => (None, r)
  | Some entry =>
      let r := withLeases (mset id (S (default 0%nat (mget id (leases r)))) (leases r)) r in
      let r := scheduleExpiry now (touchEntry now entry r) in
      (Some (nextRelease r), withReleases (mset (nextRelease r) id (releases r)) (S (nextRelease r)) r)
  end.

Definition release (now : Z) (k : nat) (r : RouteSessionRegistry) : RouteSessionRegistry :=
  match mget k (releases r) with
  | None => r
  | Some id =>
      let r := withReleases (mdel k (releases r)) (nextRelease r) r in
      scheduleExpiry now
        (withLeases
           (match mget id (leases r) with
            | None => mdel id (leases r)
            | Some n => if (n <=? 1)%nat then mdel id (leases r) else mset id (n - 1)%nat (leases r)
            end) r)
  end.

Definition close (now : Z) (id : jstr) (r : RouteSessionRegistry) : RouteSessionRegistry :=
  scheduleExpiry now
    (match mget id (entries r) with Some entry => retire r entry | None => r end).

Definition disposeAll (r : RouteSessionRegistry) : RouteSessionRegistry :=
  withTimer None (foldl retire r (mvals (entries r))).

(** The timer fires. *)
Definition expire (now : Z) (r : RouteSessionRegistry) : RouteSessionRegistry :=
  retireExpired now (withTimer None r).

Inductive routeOp :=
| Admission (entry : RouteSessionEntry)
| Get (id : jstr)
| Touch (id : jstr) (handle : nat)
| Retain (id : jstr)
| Release (k : nat)
| Close (id : jstr)
| DisposeAll
| Expire.

Definition runRouteOp (now : Z) (op : routeOp) (r : RouteSessionRegistry) : RouteSessionRegistry :=
  match op with
  | Admission entry => (admitEntry now entry r).2
  | Get id => (get now id r).2
  | Touch id handle => touch now id handle r
  | Retain id => (retain now id r).2
  | Release k => release now k r
  | Close id => close now id r
  | DisposeAll => disposeAll r
  | Expire => expire now r
  end.

(** ** Retiring *)

Record rwf (r : RouteSessionRegistry) : Prop :=
  { rw_map : mwf (entries r);
    rw_key : forall k e, mget k (entries r) = Some e -> e_id e = k;
    rw_lease : forall k, leased k r = true -> is_Some (mget k (entries r)) }.

Definition handles (r : RouteSessionRegistry) : list nat := e_handle <$> mvals (entries r).

(** Entries leave by being cleaned up, and a leased one stays. *)
Record shrinks (r r' : RouteSessionRegistry) : Prop :=
  { sh_sub : forall k e, mget k (entries r') = Some e -> mget k (entries r) = Some e;
    sh_leased : forall k, leased k r = true ->
      mget k (entries r') = mget k (entries r) /\ leased k r' = true;
    sh_leases : forall k, leased k r' = true -> leased k r = true;
    sh_conserve : cleaned r' ++ handles r' ≡ₚ cleaned r ++ handles r;
    sh_releases : releases r' = releases r }.

Lemma shrinks_refl r : shrinks r r.
Proof. by split. Qed.

Lemma shrinks_trans r1 r2 r3 : shrinks r1 r2 -> shrinks r2 r3 -> shrinks r1 r3.
Proof.
  intros [Hs1 Hl1 Hb1 Hc1 Hr1] [Hs2 Hl2 Hb2 Hc2 Hr2]. split.
  - auto.
  - intros k Hk. destruct (Hl1 k Hk) as [He1 Hk2]. destruct (Hl2 k Hk2) as [He2 Hk3].
    split; [congruence|done].
  - auto.
  - by rewrite Hc2.
  - congruence.
Qed.

Lemma mvals_mdel k e (m : list (jstr * RouteSessionEntry)) :
  mwf m -> mget k m = Some e -> mvals m ≡ₚ e :: mvals (mdel k m).
Proof.
  induction m as [|[k' e'] m IH]; [done|]. unfold mwf. rewrite mkeys_cons.
  intros [Hn Hw]%NoDup_cons. simpl. case_bool_decide as Hk.
  - intros [= ->]. subst. by rewrite mdel_absent.
  - intros Hm. simpl. rewrite (IH Hw Hm). apply Permutation_swap.
Qed.

Lemma retire_wf r e : rwf r -> rwf (retire r e).
Proof.
  intros [Hw Hk Hl]. unfold retire. destruct (negb _); [done|]. split; simpl.
  - by apply mdel_wf.
  - intros k e'. rewrite mget_mdel. case_bool_decide; [done|apply Hk].
  - intros k. unfold leased, mhas. rewrite bool_decide_eq_true. simpl. rewrite !mget_mdel.
    case_bool_decide; [by intros [? ?]|]. intros Hlk. apply Hl. unfold leased, mhas.
    by apply bool_decide_eq_true.
Qed.

Lemma retire_shrinks r e :
  rwf r -> mget (e_id e) (entries r) = Some e -> leased (e_id e) r = false ->
  shrinks r (retire r e) /\ mget (e_id e) (entries (retire r e)) = None /\
  S (length (entries (retire r e))) = length (entries r).
Proof.
  intros [Hw Hk Hl] He Hle. unfold retire, mhas. rewrite He, bool_decide_true by by eexists.
  simpl. split; [split; simpl|split].
  - intros k e'. rewrite mget_mdel. by case_bool_decide.
  - intros k Hlk. assert (e_id e <> k) as Hne by congruence.
    split; [by rewrite mget_mdel_ne|]. revert Hlk. unfold leased, mhas. simpl.
    by rewrite mget_mdel_ne.
  - intros k. unfold leased, mhas. rewrite !bool_decide_eq_true. simpl. rewrite mget_mdel.
    case_bool_decide; [by intros [? ?]|done].
  - unfold handles. simpl. rewrite <- app_assoc. apply Permutation_app_head. simpl.
    by rewrite (mvals_mdel _ _ _ Hw He).
  - done.
  - apply mget_mdel_eq.
  - apply mdel_length; [done|]. apply mget_is_Some. by eexists.
Qed.

(** Retiring those of a snapshot that a test on the registry selects, none of
    them leased. *)
Lemma retire_fold (p : RouteSessionRegistry -> RouteSessionEntry -> bool) l r :
  rwf r -> (forall r e, p r e = true -> leased (e_id e) r = false) ->
  (forall e, e ∈ l -> mget (e_id e) (entries r) = Some e \/ mget (e_id e) (entries r) = None) ->
  let r' := foldl (fun r e => if p r e then retire r e else r) r l in
  rwf r' /\ shrinks r r'.
Proof.
  intros Hw Hp. revert r Hw. induction l as [|e l IH]; intros r Hw Hl; [by split; [|apply shrinks_refl]|].
  cbn [foldl]. set (r1 := if p r e then retire r e else r).
  assert (rwf r1 /\ shrinks r r1) as [Hw1 Hs1].
  { unfold r1. destruct (p r e) eqn:Epe; [|by split; [|apply shrinks_refl]].
    split; [by apply retire_wf|]. destruct (Hl e) as [He|He]; [by left| |].
    - by apply retire_shrinks; [| |apply Hp].
    - unfold retire, mhas. rewrite He. simpl. apply shrinks_refl. }
  destruct (IH r1 Hw1) as [Hw2 Hs2]; [|split; [done|by eapply shrinks_trans]].
  intros x Hx. destruct (Hl x) as [Hxe|Hxe]; [by right| |].
  - destruct (mget (e_id x) (entries r1)) as [y|] eqn:Ey; [|by right]. left.
    apply (sh_sub _ _ Hs1) in Ey. congruence.
  - right. destruct (mget (e_id x) (entries r1)) as [y|] eqn:Ey; [|done].
    apply (sh_sub _ _ Hs1) in Ey. congruence.
Qed.

Lemma vals_keyed r e : rwf r -> e ∈ mvals (entries r) -> mget (e_id e) (entries r) = Some e.
Proof.
  intros [Hw Hk _] ([k e'] & -> & Hin)%list_elem_of_fmap. apply elem_mget in Hin; [|done].
  simpl in *. by rewrite (Hk _ _ Hin).
Qed.

Lemma keyed_vals r k e : mget k (entries r) = Some e -> e ∈ mvals (entries r).
Proof. intros Hm%mget_elem. apply list_elem_of_fmap. by exists (k, e). Qed.

Lemma schedule_shrinks now r r' : shrinks r r' -> shrinks r (scheduleExpiry now r').
Proof. intros [Hs Hl Hb Hc Hr]. by split. Qed.

Lemma schedule_wf now r : rwf r -> rwf (scheduleExpiry now r).
Proof. intros [Hw Hk Hl]. by split. Qed.

Definition expired (now : Z) (e : RouteSessionEntry) : bool := touchedAt e <=? now - ttlMs.

Lemma expired_gone now l r e :
  rwf r -> e ∈ l -> (forall x, x ∈ l -> mget (e_id x) (entries r) = Some x \/ mget (e_id x) (entries r) = None) ->
  leased (e_id e) r = false -> expired now e = true ->
  mget (e_id e) (entries (foldl (fun r e => if negb (leased (e_id e) r) && (touchedAt e <=? now - ttlMs)
                                   then retire r e else r) r l)) = None.
Proof.
  revert r. induction l as [|x l IH]; intros r Hw Hin Hl Hle Hex; [by apply elem_of_nil in Hin|].
  cbn [foldl]. set (p := fun r e => negb (leased (e_id e) r) && (touchedAt e <=? now - ttlMs)).
  assert (forall r e, p r e = true -> leased (e_id e) r = false) as Hp.
  { intros r0 e0. unfold p. rewrite andb_true_iff, negb_true_iff. tauto. }
  assert (rwf (if p r x then retire r x else r) /\ shrinks r (if p r x then retire r x else r)) as [Hw1 Hs1].
  { apply (retire_fold p [x] r Hw Hp). intros y ->%list_elem_of_singleton. apply Hl. by left. }
  fold (p r x). fold p. 
  apply elem_of_cons in Hin as [->|Hin].
  - destruct (retire_fold p l _ Hw1 Hp) as [_ Hs2].
    { intros y Hy. destruct (mget (e_id y) (entries (if p r x then retire r x else r))) as [z|] eqn:Ez; [|by right].
      left. apply (sh_sub _ _ Hs1) in Ez. destruct (Hl y) as [?|?]; [by right|congruence..]. }
    destruct (mget (e_id x) (entries (foldl _ _ l))) as [z|] eqn:Ez; [|done].
    apply (sh_sub _ _ Hs2) in Ez. unfold p in Ez. rewrite Hle in Ez. unfold expired in Hex.
    rewrite Hex in Ez. simpl in Ez. destruct (Hl x) as [Hx|Hx]; [by left| |].
    + destruct (retire_shrinks r x Hw Hx Hle) as (_ & Hn & _). congruence.
    + unfold retire, mhas in Ez. rewrite Hx in Ez. simpl in Ez. congruence.
  - apply IH; [done|done| | |done].
    + intros y Hy. destruct (mget (e_id y) (entries (if p r x then retire r x else r))) as [z|] eqn:Ez; [|by right].
      left. apply (sh_sub _ _ Hs1) in Ez. destruct (Hl y) as [?|?]; [by right|congruence..].
    + destruct (leased (e_id e) (if p r x then retire r x else r)) eqn:E; [|done].
      apply (sh_leases _ _ Hs1) in E. congruence.
Qed.

Lemma retireExpired_spec now r :
  rwf r ->
  rwf (retireExpired now r) /\ shrinks r (retireExpired now r) /\
  (forall k e, mget k (entries (retireExpired now r)) = Some e ->
     leased k r = true \/ expired now e = false).
Proof.
  intros Hw. unfold retireExpired.
  set (p := fun r e => negb (leased (e_id e) r) && (touchedAt e <=? now - ttlMs)).
  assert (forall r e, p r e = true -> leased (e_id e) r = false) as Hp.
  { intros r0 e0. unfold p. rewrite andb_true_iff, negb_true_iff. tauto. }
  assert (forall e, e ∈ mvals (entries r) ->
    mget (e_id e) (entries r) = Some e \/ mget (e_id e) (entries r) = None) as Hl.
  { intros e He. left. by apply vals_keyed. }
  destruct (retire_fold p (mvals (entries r)) r Hw Hp Hl) as [Hw' Hs'].
  split; [by apply schedule_wf|]. split; [by apply schedule_shrinks|].
  intros k e He. change (mget k (entries (foldl (fun r e => if p r e then retire r e else r) r
    (mvals (entries r)))) = Some e) in He. pose proof (sh_sub _ _ Hs' _ _ He) as Her.
  pose proof (rw_key _ Hw _ _ Her) as Hid. destruct (leased k r) eqn:Elk; [by left|right].
  destruct (expired now e) eqn:Ex; [|done]. exfalso.
  pose proof (expired_gone now (mvals (entries r)) r e Hw (keyed_vals _ _ _ Her) Hl) as Hg.
  rewrite Hid in Hg. specialize (Hg Elk Ex). fold p in Hg. unfold p in He. congruence.
Qed.

(** ** Invariant *)

(** Every entry without a lease is covered by the timer: it fires no later than
    the entry's deadline, or than [now] if that has passed. *)
Definition timed (now : Z) (r : RouteSessionRegistry) : Prop :=
  forall k e, mget k (entries r) = Some e -> leased k r = false ->
    exists d, expiryTimer r = Some d /\ d <= Z.max now (touchedAt e + ttlMs).

Definition rinv (now : Z) (r : RouteSessionRegistry) : Prop := rwf r /\ timed now r.

Lemma oldest_snoc p l x :
  oldest p (l ++ [x]) =
  if p x && match oldest p l with Some o => touchedAt x <? touchedAt o | None => true end
  then Some x else oldest p l.
Proof. unfold oldest. by rewrite foldl_snoc. Qed.

Lemma oldest_spec p l :
  match oldest p l with
  | Some o => o ∈ l /\ p o = true /\ forall x, x ∈ l -> p x = true -> touchedAt o <= touchedAt x
  | None => forall x, x ∈ l -> p x = false
  end.
Proof.
  induction l as [|x l IH] using rev_ind; [by intros x ?%elem_of_nil|].
  rewrite oldest_snoc. destruct (p x) eqn:Hx; cbn [andb].
  2: { destruct (oldest p l) as [o|].
       - destruct IH as (Hin & Hp & Hmin). split_and!; [set_solver|done|].
         intros y [Hy| ->%list_elem_of_singleton]%elem_of_app Hpy; [by apply Hmin|congruence].
       - intros y [Hy| ->%list_elem_of_singleton]%elem_of_app; [by apply IH|done]. }
  destruct (oldest p l) as [o|].
  - destruct IH as (Hin & Hp & Hmin). destruct (touchedAt x <? touchedAt o) eqn:E; bool_prop.
    + split_and!; [set_solver|done|].
      intros y [Hy| ->%list_elem_of_singleton]%elem_of_app Hpy; [|lia]. specialize (Hmin y Hy Hpy). lia.
    + split_and!; [set_solver|done|].
      intros y [Hy| ->%list_elem_of_singleton]%elem_of_app Hpy; [by apply Hmin|lia].
  - split_and!; [set_solver|done|].
    intros y [Hy| ->%list_elem_of_singleton]%elem_of_app Hpy; [|lia]. rewrite IH in Hpy; done.
Qed.

Lemma schedule_timed now r : rwf r -> timed now (scheduleExpiry now r).
Proof.
  intros Hw k e He Hl. unfold scheduleExpiry in *. simpl in *.
  pose proof (oldest_spec (fun entry => negb (leased (e_id entry) r)) (mvals (entries r))) as Ho.
  assert (negb (leased (e_id e) r) = true) as Hne.
  { rewrite (rw_key _ Hw _ _ He). unfold leased in *. simpl in Hl. by rewrite Hl. }
  destruct (oldest _ _) as [o|].
  - destruct Ho as (_ & _ & Hmin). eexists. split; [done|].
    specialize (Hmin e (keyed_vals _ _ _ He) Hne). lia.
  - rewrite Ho in Hne; [done|by eapply keyed_vals].
Qed.

Lemma schedule_inv now r : rwf r -> rinv now (scheduleExpiry now r).
Proof. intros Hw. split; [by apply schedule_wf|by apply schedule_timed]. Qed.

Lemma timed_later now now' r : now <= now' -> timed now r -> timed now' r.
Proof. intros Hle Ht k e He Hl. destruct (Ht k e He Hl) as (d & ? & ?). exists d. split; [done|lia]. Qed.

Lemma makeRoom_spec fuel r :
  rwf r -> (length (entries r) <= fuel)%nat ->
  let '(room, r') := makeRoom fuel r in
  rwf r' /\ shrinks r r' /\ expiryTimer r' = expiryTimer r /\
  (room = true -> (length (entries r') < limit)%nat \/ allEntriesRetained r' = true) /\
  (room = false -> (limit <= length (entries r'))%nat /\ allEntriesRetained r' = false /\
     forall e, e ∈ mvals (entries r') -> canEvict e r' = false).
Proof.
  revert r. induction fuel as [|fuel IH]; intros r Hw Hf; cbn [makeRoom].
  - assert (entries r = []) as Hnil by (destruct (entries r); simpl in Hf; [done|lia]).
    destruct (limit <=? length (entries r))%nat eqn:El; bool_prop.
    + unfold oldestEvictable. rewrite Hnil. simpl. unfold allEntriesRetained. rewrite Hnil. simpl.
      split_and!; [done|apply shrinks_refl|done|done|]. intros _. split_and!; [rewrite Hnil in El; simpl in El; lia|done|].
      intros e He. by apply elem_of_nil in He.
    + split_and!; [done|apply shrinks_refl|done| |done]. intros _. left. lia.
  - destruct (limit <=? length (entries r))%nat eqn:El; bool_prop.
    2: { split_and!; [done|apply shrinks_refl|done| |done]. intros _. left. lia. }
    unfold oldestEvictable.
    pose proof (oldest_spec (fun entry => canEvict entry r) (mvals (entries r))) as Ho.
    destruct (oldest _ _) as [o|].
    + destruct Ho as (Hin & Hev & _). unfold canEvict in Hev. apply andb_true_iff in Hev as [Hev _].
      apply negb_true_iff in Hev.
      destruct (retire_shrinks r o Hw (vals_keyed _ _ Hw Hin) Hev) as (Hs & _ & Hlen).
      specialize (IH (retire r o) (retire_wf _ _ Hw)). destruct (makeRoom fuel (retire r o)) as [room r'].
      destruct IH as (Hw' & Hs' & Ht & Hroom & Hno); [lia|].
      split_and!; [done|by eapply shrinks_trans| |done|done].
      rewrite Ht. unfold retire. by repeat case_match.
    + split_and!; [done|apply shrinks_refl|done|by right|]. by intros ->.
Qed.

Lemma touch_wf now e r : rwf r -> mget (e_id e) (entries r) = Some e -> rwf (touchEntry now e r).
Proof.
  intros [Hw Hk Hl] He. split; simpl.
  - by apply mset_wf.
  - intros k e'. rewrite mget_mset. case_bool_decide; [by intros [= <-]|apply Hk].
  - intros k Hlk. rewrite mget_mset. case_bool_decide; [by eexists|by apply Hl].
Qed.

Lemma admit_wf e r : rwf r -> rwf (withEntries (mset (e_id e) e (entries r)) r).
Proof.
  intros [Hw Hk Hl]. split; simpl.
  - by apply mset_wf.
  - intros k e'. rewrite mget_mset. case_bool_decide; [by intros [= <-]|apply Hk].
  - intros k Hlk. rewrite mget_mset. case_bool_decide; [by eexists|by apply Hl].
Qed.

Lemma lease_wf id n r : rwf r -> is_Some (mget id (entries r)) -> rwf (withLeases (mset id n (leases r)) r).
Proof.
  intros [Hw Hk Hl] Hid. split; simpl; [done|done|]. intros k. unfold leased, mhas. simpl.
  rewrite bool_decide_eq_true, mget_mset. case_bool_decide; [by subst|]. intros Hlk. apply Hl.
  by apply bool_decide_eq_true.
Qed.

Lemma unlease_wf id r : rwf r -> rwf (withLeases (mdel id (leases r)) r).
Proof.
  intros [Hw Hk Hl]. split; simpl; [done|done|]. intros k. unfold leased, mhas. simpl.
  rewrite bool_decide_eq_true, mget_mdel. case_bool_decide; [by intros [? ?]|]. intros Hlk. apply Hl.
  by apply bool_decide_eq_true.
Qed.

Lemma rwf_fields r r' : entries r' = entries r -> leases r' = leases r -> rwf r -> rwf r'.
Proof. intros He Hls [Hw Hk Hl]. split; unfold leased in *; rewrite ?He, ?Hls; done. Qed.

Lemma timed_shrinks now r r' :
  shrinks r r' -> expiryTimer r' = expiryTimer r -> timed now r -> timed now r'.
Proof.
  intros Hs Ht Htd k e He Hl. rewrite Ht. apply (Htd k e); [by apply (sh_sub _ _ Hs)|].
  destruct (leased k r) eqn:E; [|done]. destruct (sh_leased _ _ Hs k E). congruence.
Qed.

Lemma rinv_op now now' op r : now <= now' -> rinv now r -> rinv now' (runRouteOp now' op r).
Proof.
  intros Hle [Hw Ht]. apply (timed_later now now') in Ht; [|done]. clear Hle now.
  destruct (retireExpired_spec now' r Hw) as (Hwe & Hse & _).
  destruct op as [e|id|id h|id|k|id| |]; simpl.
  - unfold admitEntry. pose proof (makeRoom_spec (length (entries (retireExpired now' r))) _ Hwe (le_n _)) as Hm.
    destruct (makeRoom _ _) as [[|] r']; destruct Hm as (Hw' & Hs' & Htm & _).
    + by apply schedule_inv, admit_wf.
    + split; [done|]. eapply timed_shrinks; [exact Hs'|exact Htm|]. unfold retireExpired.
      apply schedule_timed. by eapply (rwf_fields (retireExpired now' r)).
  - unfold get. assert (rinv now' (retireExpired now' r)) as Hri.
    { split; [done|]. unfold retireExpired. apply schedule_timed.
      by eapply (rwf_fields (retireExpired now' r)). }
    destruct (mget id _) as [e|] eqn:E; [|done]. destruct touchOnGet; [|done]. simpl.
    apply schedule_inv, touch_wf; [done|]. by rewrite (rw_key _ Hwe _ _ E).
  - unfold touch. destruct (mget id (entries r)) as [e|] eqn:E; [|done]. case_bool_decide; [|done].
    apply schedule_inv, touch_wf; [done|]. by rewrite (rw_key _ Hw _ _ E).
  - unfold retain. destruct (mget id (entries r)) as [e|] eqn:E; [|done]. simpl.
    assert (rinv now' (scheduleExpiry now' (touchEntry now' e
      (withLeases (mset id (S (default 0%nat (mget id (leases r)))) (leases r)) r)))) as Hri.
    { apply schedule_inv, touch_wf; [apply lease_wf; [done|by rewrite E]|]. simpl.
      by rewrite (rw_key _ Hw _ _ E). }
    destruct Hri as [Hw3 Ht3]. split; [by eapply rwf_fields; [..|exact Hw3]|exact Ht3].
  - unfold release. destruct (mget k (releases r)) as [id|]; [|done]. apply schedule_inv.
    set (r1 := withReleases _ _ r). assert (rwf r1) as Hw1 by by eapply (rwf_fields r).
    change (leases r) with (leases r1).
    destruct (mget id (leases r1)) as [n|] eqn:E; [|by apply unlease_wf].
    destruct (n <=? 1)%nat; [by apply unlease_wf|]. apply lease_wf; [done|]. apply (rw_lease _ Hw).
    unfold leased, mhas. apply bool_decide_eq_true. change (leases r1) with (leases r) in E. by rewrite E.
  - apply schedule_inv. destruct (mget id (entries r)); [by apply retire_wf|done].
  - split; [apply (rwf_fields (foldl retire r (mvals (entries r)))); [done|done|]|].
    + assert (forall l r, rwf r -> rwf (foldl retire r l)) as Hf; [|by apply Hf].
      induction l as [|e l IH]; intros r0 Hw0; simpl; [done|]. by apply IH, retire_wf.
    + intros k e. simpl. intros He. exfalso.
      assert (forall l r0, (forall k x, mget k (entries r0) = Some x -> e_id x = k /\ x ∈ l) ->
        forall k, mget k (entries (foldl retire r0 l)) = None) as Hf.
      { clear. induction l as [|e l IH]; intros r0 Hin k; cbn [foldl].
        - destruct (mget k (entries r0)) eqn:E; [|done]. destruct (Hin _ _ E) as [_ H].
          by apply elem_of_nil in H.
        - apply IH. intros k' x Hx.
          assert (mget k' (entries r0) = Some x) as Hx0.
          { revert Hx. unfold retire. destruct (negb _); [done|]. simpl. rewrite mget_mdel.
            by case_bool_decide. }
          destruct (Hin _ _ Hx0) as [Hid Hxl]. split; [done|].
          apply elem_of_cons in Hxl as [->|Hxl]; [|done]. exfalso. revert Hx. unfold retire, mhas.
          rewrite Hid, Hx0, bool_decide_true by by eexists. simpl. by rewrite mget_mdel_eq. }
      rewrite Hf in He; [done|]. intros k' x Hx. split; [by apply (rw_key _ Hw)|by eapply keyed_vals].
  - unfold expire. assert (rwf (withTimer None r)) as Hw1 by by eapply (rwf_fields r).
    destruct (retireExpired_spec now' _ Hw1) as (Hw2 & _). split; [done|].
    unfold retireExpired. apply schedule_timed. by eapply (rwf_fields (retireExpired now' (withTimer None r))).
Qed.

Inductive routeRuns : Z -> RouteSessionRegistry -> list (Z * routeOp) -> Z -> RouteSessionRegistry -> Prop :=
| routeRuns_nil now r : routeRuns now r [] now r
| routeRuns_cons now now1 op r ops now' r' :
    now <= now1 -> routeRuns now1 (runRouteOp now1 op r) ops now' r' ->
    routeRuns now r ((now1, op) :: ops) now' r'.

Fixpoint monotone (now : Z) (ops : list (Z * routeOp)) : Prop :=
  match ops with
  | [] => True
  | (now1, _) :: ops => now <= now1 /\ monotone now1 ops
  end.

Lemma routeRuns_fold now r ops :
  monotone now ops ->
  routeRuns now r ops (foldl (fun _ e => e.1) now ops) (foldl (fun r e => runRouteOp e.1 e.2 r) r ops).
Proof.
  revert now r. induction ops as [|[now1 op] ops IH]; intros now r; simpl; [constructor|].
  intros [Hle Hm]. eapply routeRuns_cons; [done|by apply IH].
Qed.

Lemma rinv_runs now r ops now' r' : rinv now r -> routeRuns now r ops now' r' -> rinv now' r'.
Proof. intros Hi Hr. induction Hr as [|??????? Hle _ IH]; [done|]. apply IH. by eapply rinv_op. Qed.

Lemma rinv_empty now : rinv now emptyRegistry.
Proof. split; [split; simpl; [apply NoDup_nil_2|done|]|done]. intros k. by vm_compute. Qed.

(** The handle an id stands for. *)
Definition handleAt (id : jstr) (r : RouteSessionRegistry) : option nat :=
  e_handle <$> mget id (entries r).

(** A private route payload never outlives its deadline unnoticed: in
    every reachable registry each entry without a lease is covered by the
    timer, which fires by the entry's deadline; when it fires, or when anything
    is read, every such entry past its deadline has been retired; and what
    [get] returns is leased or still within its deadline. *)
Theorem expiry_covered ops now r now' id :
  routeRuns 0 emptyRegistry ops now r -> now <= now' ->
  timed now r /\
  (forall k e, mget k (entries (expire now' r)) = Some e ->
     leased k r = true \/ now' < touchedAt e + ttlMs) /\
  (forall e r', get now' id r = (Some e, r') ->
     leased id r = true \/ exists e0, mget id (entries r) = Some e0 /\ now' < touchedAt e0 + ttlMs).
Proof.
  intros Hr Hle. pose proof (rinv_runs _ _ _ _ _ (rinv_empty 0) Hr) as [Hw Ht]. split_and!; [done| |].
  - intros k e He. assert (rwf (withTimer None r)) as Hw1 by by eapply (rwf_fields r).
    destruct (retireExpired_spec now' _ Hw1) as (_ & _ & Hx).
    destruct (Hx k e He) as [?|Hex]; [by left|right]. unfold expired in Hex. bool_prop. lia.
  - intros e r' Hg. destruct (retireExpired_spec now' r Hw) as (_ & Hs & Hx). revert Hg. unfold get.
    destruct (mget id (entries (retireExpired now' r))) as [e0|] eqn:E; [|done]. intros _.
    destruct (Hx id e0 E) as [?|Hex]; [by left|right]. exists e0. split; [by apply (sh_sub _ _ Hs)|].
    unfold expired in Hex. bool_prop. lia.
Qed.

Lemma touch_handle now e r id :
  rwf r -> mget (e_id e) (entries r) = Some e ->
  handleAt id (touchEntry now e r) = handleAt id r.
Proof.
  intros Hw He. unfold handleAt. simpl. rewrite mget_mset. case_bool_decide; [|done].
  subst. by rewrite He.
Qed.

Lemma shrinks_handle r r' id : shrinks r r' -> leased id r = true -> handleAt id r' = handleAt id r.
Proof. intros Hs Hl. unfold handleAt. by destruct (sh_leased _ _ Hs id Hl) as [-> _]. Qed.

(** The operations that may end a leased session: closing it, disposing of
    everything, and admitting another entry under its id. *)
Definition ends (id : jstr) (op : routeOp) : bool :=
  match op with
  | Admission e => bool_decide (e_id e = id)
  | Close id' => bool_decide (id' = id)
  | DisposeAll => true
  | _ => false
  end.

Lemma leased_kept now op id r :
  rwf r -> leased id r = true -> ends id op = false ->
  handleAt id (runRouteOp now op r) = handleAt id r.
Proof.
  intros Hw Hl Hop. destruct (retireExpired_spec now r Hw) as (Hwe & Hse & _).
  pose proof (shrinks_handle _ _ id Hse Hl) as He.
  destruct op as [e|id'|id' h|id'|k|id'| |]; simpl in *; try done.
  - unfold admitEntry. pose proof (makeRoom_spec (length (entries (retireExpired now r))) _ Hwe (le_n _)) as Hm.
    destruct (makeRoom _ _) as [[|] r']; destruct Hm as (_ & Hs' & _);
      pose proof (shrinks_handle _ _ id Hs' (proj2 (sh_leased _ _ Hse id Hl))) as Hh; simpl.
    + bool_prop. unfold handleAt in *. simpl. rewrite mget_mset_ne by congruence. congruence.
    + congruence.
  - unfold get. destruct (mget id' _) as [e|] eqn:E; [|done]. destruct touchOnGet; [|done]. simpl.
    etransitivity; [|exact He]. apply touch_handle; [done|]. by rewrite (rw_key _ Hwe _ _ E).
  - unfold touch. destruct (mget id' (entries r)) as [e|] eqn:E; [|done]. case_bool_decide; [|done].
    apply touch_handle; [done|]. by rewrite (rw_key _ Hw _ _ E).
  - unfold retain. destruct (mget id' (entries r)) as [e|] eqn:E; [|done]. simpl.
    apply (touch_handle now e r); [done|]. by rewrite (rw_key _ Hw _ _ E).
  - unfold release. by destruct (mget k (releases r)).
  - bool_prop. unfold close. destruct (mget id' (entries r)) as [e|] eqn:E; [|done].
    unfold handleAt, retire. destruct (negb _); [done|]. simpl.
    rewrite mget_mdel_ne; [done|]. rewrite (rw_key _ Hw _ _ E). congruence.
  - assert (rwf (withTimer None r)) as Hw1 by by eapply (rwf_fields r).
    destruct (retireExpired_spec now _ Hw1) as (_ & Hs1 & _).
    by apply (shrinks_handle _ _ id Hs1).
Qed.

(** A lease keeps a mounted session, and capacity holds around it: in
    every reachable registry a leased session survives every operation but its
    own close, a disposal or an admission under its id; an admission leaves at
    most [limit] entries unless every other one is leased, and is refused only
    when the registry is full, some entry has no lease, and none can be evicted;
    and every entry that leaves is cleaned up exactly once. *)
Theorem leases_and_capacity ops now r now' :
  routeRuns 0 emptyRegistry ops now r -> now <= now' ->
  (forall id op, leased id r = true -> ends id op = false ->
     handleAt id (runRouteOp now' op r) = handleAt id r) /\
  (forall e r', admitEntry now' e r = (true, r') ->
     mget (e_id e) (entries r') = Some e /\
     ((length (entries r') <= limit)%nat \/
      forall k, is_Some (mget k (entries r')) -> k <> e_id e -> leased k r' = true) /\
     (mget (e_id e) (entries r) = None ->
        cleaned r' ++ handles r' ≡ₚ e_handle e :: cleaned r ++ handles r)) /\
  (forall e r', admitEntry now' e r = (false, r') ->
     (limit <= length (entries r'))%nat /\ allEntriesRetained r' = false /\
     (forall x, x ∈ mvals (entries r') -> canEvict x r' = false) /\
     cleaned r' ++ handles r' ≡ₚ cleaned r ++ handles r) /\
  cleaned (expire now' r) ++ handles (expire now' r) ≡ₚ cleaned r ++ handles r.
Proof.
  intros Hr Hle. pose proof (rinv_runs _ _ _ _ _ (rinv_empty 0) Hr) as [Hw Ht].
  destruct (retireExpired_spec now' r Hw) as (Hwe & Hse & _).
  pose proof (makeRoom_spec (length (entries (retireExpired now' r))) _ Hwe (le_n _)) as Hm.
  split_and!.
  - intros id op. by apply leased_kept.
  - intros e r'. unfold admitEntry. destruct (makeRoom _ _) as [[|] r1]; [|done]. intros [= <-].
    destruct Hm as (Hw1 & Hs1 & _ & Hroom & _). simpl. rewrite mget_mset_eq. split_and!; [done| |].
    + destruct (Hroom eq_refl) as [Hlt|Hall].
      * left. rewrite mset_length. case_bool_decide; lia.
      * right. intros k Hk Hne. rewrite mget_mset_ne in Hk by done.
        unfold allEntriesRetained in Hall. apply andb_true_iff in Hall as [_ Hall].
        rewrite forallb_forall in Hall. apply Hall. by apply list_elem_of_In, mget_is_Some.
    + intros Hnew. assert (mget (e_id e) (entries r1) = None) as Hn1.
      { destruct (mget (e_id e) (entries r1)) eqn:E; [|done].
        apply (sh_sub _ _ Hs1), (sh_sub _ _ Hse) in E. congruence. }
      unfold handles. simpl. assert (mset (e_id e) e (entries r1) = entries r1 ++ [(e_id e, e)]) as ->.
      { clear -Hn1. induction (entries r1) as [|[k' v'] m IH]; [done|]. cbn [mget mset] in *.
        case_bool_decide; [done|]. by rewrite IH. }
      unfold mvals. rewrite !fmap_app. simpl. rewrite app_assoc.
      rewrite <- Permutation_cons_append. constructor.
      change (cleaned r1 ++ handles r1 ≡ₚ cleaned r ++ handles r).
      rewrite (sh_conserve _ _ Hs1). apply Hse.
  - intros e r'. unfold admitEntry. destruct (makeRoom _ _) as [[|] r1]; [done|]. intros [= <-].
    destruct Hm as (Hw1 & Hs1 & _ & _ & Hno). destruct (Hno eq_refl) as (? & ? & ?).
    split_and!; [done|done|done|]. rewrite (sh_conserve _ _ Hs1). apply Hse.
  - assert (rwf (withTimer None r)) as Hw1 by by eapply (rwf_fields r).
    destruct (retireExpired_spec now' _ Hw1) as (_ & Hs1 & _). apply (sh_conserve _ _ Hs1).
Qed.
End registry.

(** ** Demonstrations *)

Definition demo_entry (id : string) (handle : nat) (at_ : Z) : RouteSessionEntry :=
  {| e_id := js id; e_handle := handle; touchedAt := at_ |}.

Definition demo_route_ops : list (Z * routeOp) :=
  [(1, Admission (demo_entry "a" 1 1)); (2, Retain (js "a")); (3, Admission (demo_entry "b" 2 3))].

Definition demo_registry : RouteSessionRegistry :=
  foldl (fun r e => runRouteOp (fun _ => true) 2 true 10 e.1 e.2 r) emptyRegistry demo_route_ops.

Lemma demo_route_runs :
  routeRuns (fun _ => true) 2 true 10 0 emptyRegistry demo_route_ops 3 demo_registry.
Proof. apply (routeRuns_fold _ _ _ _ 0 emptyRegistry demo_route_ops). simpl. lia. Qed.

Lemma expiry_covered_witness :
  mkeys (entries (expire 10 20 demo_registry)) = [js "a"] /\
  timed 10 3 demo_registry.
Proof.
  split; [vm_compute; reflexivity|].
  exact (proj1 (expiry_covered (fun _ => true) 2 true 10 demo_route_ops 3 demo_registry 20 (js "a")
    demo_route_runs ltac:(lia))).
Defined.

Lemma leases_and_capacity_witness :
  handleAt (js "a") (runRouteOp (fun _ => true) 2 true 10 50 Expire demo_registry) = Some 1%nat.
Proof.
  rewrite (proj1 (leases_and_capacity (fun _ => true) 2 true 10 demo_route_ops 3 demo_registry 50
    demo_route_runs ltac:(lia)) (js "a") Expire eq_refl eq_refl). vm_compute. reflexivity.
Defined.

(** A release callback outlives the session it was made for: called after the
    id has been closed and admitted again, it drops the new session's lease. *)
Lemma stale_release_drops_lease :
  exists r, r = foldl (fun r e => runRouteOp (fun _ => true) 2 true 10 e.1 e.2 r) emptyRegistry
    [(1, Admission (demo_entry "a" 1 1)); (1, Retain (js "a")); (2, Close (js "a"));
     (3, Admission (demo_entry "a" 2 3)); (3, Retain (js "a")); (4, Release 0)] /\
    handleAt (js "a") r = Some 2%nat /\ leased (js "a") r = false.
Proof. eexists. split; [reflexivity|]. by vm_compute. Qed.
