(* ===== verification/Connection.v ===== *)
(** * Connection state, path and health

    Models apps/android/src/data/connectionPath.ts (the native observation),
    connectionHealth.ts (what is shown) and connection-state-model.ts (the rows,
    their health and their listeners).  Observables are their values; a listener
    is a number and what it was told is a log. *)
From S2P Require Import Prelude JsMap Json MemoryCache.

Local Open Scope nat_scope.

(** ** The native path *)

Inductive NetworkStatus :=
| NetUnknown | NoDefaultNetwork | Unvalidated | CaptivePortal | Validated | Blocked.

Inductive AppServer := ServerUnknown | ServerReconnecting | ServerLive.

Inductive Link :=
| Connected (appServer : AppServer)
| LinkConnecting | WaitingForNetwork | Backoff | LinkAuthRequired.

Record ConnectionPath := { epoch : Z; network : NetworkStatus; link : Link }.

(** [None] where the source throws. *)
Definition networkStatus (value : option json) : option NetworkStatus :=
  if isStr value "unknown" then Some NetUnknown
  else if isStr value "noDefaultNetwork" then Some NoDefaultNetwork
  else if isStr value "unvalidated" then Some Unvalidated
  else if isStr value "captivePortal" then Some CaptivePortal
  else if isStr value "validated" then Some Validated
  else if isStr value "blocked" then Some Blocked
  else None.

Definition parseLink (value : jobj) : option Link :=
  let companion := oget "companion" value in
  let appServer := oget "appServer" value in
  if isStr companion "connected" then
    if isStr appServer "unknown" then Some (Connected ServerUnknown)
    else if isStr appServer "reconnecting" then Some (Connected ServerReconnecting)
    else if isStr appServer "live" then Some (Connected ServerLive)
    else None
  else if isStr companion "connecting" then Some LinkConnecting
  else if isStr companion "waitingForNetwork" then Some WaitingForNetwork
  else if isStr companion "backoff" then Some Backoff
  else if isStr companion "authRequired" then Some LinkAuthRequired
  else None.

(** [Some None] for an older binary without the envelope, [None] for a throw. *)
Definition parseConnectionPath (input : option json) : option (option ConnectionPath) :=
  match input with
  | None => Some None
  | Some _ =>
      value ← asObject input;
      network ← asObject (oget "network" value);
      epoch ← asSafeNat (oget "epoch" network);
      link ← parseLink value;
      status ← networkStatus (oget "status" network);
      Some (Some {| epoch := epoch; network := status; link := link |})
  end.

(** ** Health *)

Inductive ConnectionHealthStatus :=
| Online | Reconnecting | NoConnection | ServiceUnavailable | HealthAuthRequired
| ConnectionError | Disabled.

Definition availableRouteHealth (path : ConnectionPath) : ConnectionHealthStatus :=
  match link path with
  | Connected ServerReconnecting => ServiceUnavailable
  | Connected _ => Reconnecting
  | l =>
      match network path with
      | Unvalidated | CaptivePortal => NoConnection
      | _ => match l with Backoff => ServiceUnavailable | _ => Reconnecting end
      end
  end.

Definition disconnectedHealth (path : option ConnectionPath) : ConnectionHealthStatus :=
  match path with
  | None => Reconnecting
  | Some path =>
      match network path with
      | NoDefaultNetwork | Blocked => NoConnection
      | _ => availableRouteHealth path
      end
  end.

(** ** Rows *)

Definition MAX_CONNECTION_DIAGNOSTIC_CHARS : nat := Z.to_nat 8000.

Record ConnectionStateRow :=
  { row_connectionId : jstr; row_enabled : bool; row_id : jstr; lastError : option jstr;
    lastErrorAt : option Z; rpcAvailable : bool; row_state : RemoteConnectionState }.

Record ConnectionStateProfile :=
  { prof_id : jstr; prof_connectionId : jstr; prof_enabled : bool }.

#[export] Instance row_eq_dec : EqDecision ConnectionStateRow.
Proof. solve_decision. Defined.

Definition connectionHealth (row : ConnectionStateRow) (path : option ConnectionPath)
    : ConnectionHealthStatus :=
  if negb (row_enabled row) then Disabled
  else if bool_decide (row_state row = AuthRequired) then HealthAuthRequired
  else if rpcAvailable row then Online
  else disconnectedHealth path.

Definition connectionDisplayState (row : ConnectionStateRow) : RemoteConnectionState :=
  if bool_decide (row_state row = AuthRequired) then AuthRequired
  else if rpcAvailable row then Live
  else match row_state row with Live | Syncing => Connecting | s => s end.

Definition sameState (left right : ConnectionStateRow) : bool :=
  Bool.eqb (row_enabled left) (row_enabled right)
  && bool_decide (row_state left = row_state right)
  && Bool.eqb (rpcAvailable left) (rpcAvailable right)
  && bool_decide (lastError left = lastError right)
  && bool_decide (lastErrorAt left = lastErrorAt right).

(** ** The model *)

Record ConnectionStateModel :=
  { rows : list ConnectionStateRow;
    health : list (jstr * ConnectionHealthStatus);
    paths : list (jstr * option ConnectionPath);
    listeners : list nat;
    disposed : bool;
    told : list (nat * ConnectionStateRow) }.

Definition createConnectionStateModel : ConnectionStateModel :=
  {| rows := []; health := []; paths := []; listeners := []; disposed := false; told := [] |}.

Definition setRows (l : list ConnectionStateRow) (m : ConnectionStateModel) : ConnectionStateModel :=
  {| rows := l; health := health m; paths := paths m; listeners := listeners m;
     disposed := disposed m; told := told m |}.

Definition pathOf (connectionId : jstr) (m : ConnectionStateModel) : option ConnectionPath :=
  default None (mget connectionId (paths m)).

Definition updateHealth (m : ConnectionStateModel) (row : ConnectionStateRow) : ConnectionStateModel :=
  {| rows := rows m;
     health := mset (row_connectionId row) (connectionHealth row (pathOf (row_connectionId row) m))
                 (health m);
     paths := paths m; listeners := listeners m; disposed := disposed m; told := told m |}.

Definition removeHealth (m : ConnectionStateModel) (connectionId : jstr) : ConnectionStateModel :=
  {| rows := rows m; health := mdel connectionId (health m); paths := mdel connectionId (paths m);
     listeners := listeners m; disposed := disposed m; told := told m |}.

(** [updateHealth(row); for (const listener of listeners) listener(row)]. *)
Definition announce (m : ConnectionStateModel) (row : ConnectionStateRow) : ConnectionStateModel :=
  let m := updateHealth m row in
  {| rows := rows m; health := health m; paths := paths m; listeners := listeners m;
     disposed := disposed m; told := told m ++ ((fun l => (l, row)) <$> listeners m) |}.

Definition publishRow (row : ConnectionStateRow) (m : ConnectionStateModel) : ConnectionStateModel :=
  if disposed m then m
  else
    match findIndex (fun candidate => bool_decide (row_id candidate = row_id row)) (rows m) with
    | Some index =>
        match rows m !! index with
        | Some previous =>
            if sameState previous row then m else announce (setRows (<[index := row]> (rows m)) m) row
        | None => m
        end
    | None => announce (setRows (rows m ++ [row]) m) row
    end.

Definition closeModel (m : ConnectionStateModel) : ConnectionStateModel :=
  {| rows := []; health := []; paths := []; listeners := []; disposed := true; told := told m |}.

Definition findRow (connectionId : jstr) (l : list ConnectionStateRow) : option ConnectionStateRow :=
  i ← findIndex (fun row => bool_decide (row_connectionId row = connectionId)) l; l !! i.

(** A row of a profile that is new, or that was switched on or off. *)
Definition profileRow (id : jstr) (profile : ConnectionStateProfile) : ConnectionStateRow :=
  {| row_connectionId := prof_connectionId profile; row_enabled := prof_enabled profile;
     row_id := id; lastError := None; lastErrorAt := None; rpcAvailable := false;
     row_state := if prof_enabled profile then Connecting else Offline |}.

(** The profile of a connection: the last one, as [new Map] keeps it. *)
Definition profileOf (connectionId : jstr) (profiles : list ConnectionStateProfile)
    : option ConnectionStateProfile :=
  mget connectionId (mfrom ((fun p => (prof_connectionId p, p)) <$> profiles)).

(** What becomes of a current row: the row kept, and whether it changed. *)
Definition nextRow (profiles : list ConnectionStateProfile) (current : ConnectionStateRow)
    : option (ConnectionStateRow * bool) :=
  profile ← profileOf (row_connectionId current) profiles;
  if Bool.eqb (row_enabled current) (prof_enabled profile) then Some (current, false)
  else
    Some ({| row_connectionId := row_connectionId current; row_enabled := prof_enabled profile;
             row_id := row_id current; lastError := None; lastErrorAt := None;
             rpcAvailable := false;
             row_state := if prof_enabled profile then Connecting else Offline |}, true).

Definition addedRows (currentRows : list ConnectionStateRow)
    (profiles : list ConnectionStateProfile) : list ConnectionStateRow :=
  omap (fun profile =>
    if bool_decide (prof_connectionId profile ∈ row_connectionId <$> currentRows) then None
    else Some (profileRow (prof_id profile) profile)) profiles.

Definition reconcileProfiles (profiles : list ConnectionStateProfile) (m : ConnectionStateModel)
    : ConnectionStateModel :=
  if disposed m then m
  else
    let currentRows := rows m in
    let dropped :=
      filter (fun row => profileOf (row_connectionId row) profiles = None) currentRows in
    let m := foldl removeHealth m (row_connectionId <$> dropped) in
    let kept := omap (nextRow profiles) currentRows in
    let nextRows := kept.*1 ++ addedRows currentRows profiles in
    let changedRows := (filter (fun e => e.2 = true) kept).*1 ++ addedRows currentRows profiles in
    if bool_decide (dropped = []) && bool_decide (changedRows = []) then m
    else foldl announce (setRows nextRows m) changedRows.

Definition removeConnection (connectionId : jstr) (m : ConnectionStateModel) : ConnectionStateModel :=
  if disposed m then m
  else
    setRows (filter (fun row => row_connectionId row <> connectionId) (rows m))
      (removeHealth m connectionId).

Definition setPath (connectionId : jstr) (path : option ConnectionPath) (m : ConnectionStateModel)
    : ConnectionStateModel :=
  if disposed m then m
  else
    match findRow connectionId (rows m) with
    | Some current =>
        updateHealth
          {| rows := rows m; health := health m; paths := mset connectionId path (paths m);
             listeners := listeners m; disposed := disposed m; told := told m |} current
    | None => m
    end.

(** [diagnostic] is undefined, null or a string; [rpc] may be undefined. *)
Definition setState (now : Z) (connectionId : jstr) (state : RemoteConnectionState)
    (diagnostic : option (option jstr)) (rpc : option bool) (m : ConnectionStateModel)
    : ConnectionStateModel :=
  let current :=
    default {| row_connectionId := connectionId; row_enabled := true; row_id := connectionId;
               lastError := None; lastErrorAt := None; rpcAvailable := false;
               row_state := Connecting |} (findRow connectionId (rows m)) in
  let clearError := bool_decide (state = Live) || bool_decide (diagnostic = Some None) in
  publishRow
    {| row_connectionId := row_connectionId current; row_enabled := row_enabled current;
       row_id := row_id current;
       lastError :=
         if clearError then None
         else match diagnostic with
              | Some (Some text) => Some (slice_to MAX_CONNECTION_DIAGNOSTIC_CHARS text)
              | _ => lastError current
              end;
       lastErrorAt :=
         if clearError then None
         else match diagnostic with Some (Some _) => Some now | _ => lastErrorAt current end;
       rpcAvailable := default (rpcAvailable current) rpc;
       row_state := state |} m.

Definition subscribeChanges (listener : nat) (includeInitialState : bool)
    (m : ConnectionStateModel) : ConnectionStateModel :=
  if disposed m then m
  else
    {| rows := rows m; health := health m; paths := paths m;
       listeners := sadd listener (listeners m); disposed := disposed m;
       told := told m ++ (if includeInitialState then (fun row => (listener, row)) <$> rows m else []) |}.

Definition unsubscribeChanges (listener : nat) (m : ConnectionStateModel) : ConnectionStateModel :=
  {| rows := rows m; health := health m; paths := paths m;
     listeners := sdel listener (listeners m); disposed := disposed m; told := told m |}.

Inductive connectionOp :=
| Close
| ReconcileProfiles (profiles : list ConnectionStateProfile)
| Remove (connectionId : jstr)
| SetPath (connectionId : jstr) (path : option ConnectionPath)
| SetState (now : Z) (connectionId : jstr) (state : RemoteConnectionState)
    (diagnostic : option (option jstr)) (rpc : option bool)
| SubscribeChanges (listener : nat) (includeInitialState : bool)
| UnsubscribeChanges (listener : nat).

Definition runConnectionOp (op : connectionOp) (m : ConnectionStateModel) : ConnectionStateModel :=
  match op with
  | Close => closeModel m
  | ReconcileProfiles profiles => reconcileProfiles profiles m
  | Remove c => removeConnection c m
  | SetPath c path => setPath c path m
  | SetState now c state diagnostic rpc => setState now c state diagnostic rpc m
  | SubscribeChanges l initial => subscribeChanges l initial m
  | UnsubscribeChanges l => unsubscribeChanges l m
  end.

(** ** The rows and their health *)

Definition conns (l : list ConnectionStateRow) : list jstr := row_connectionId <$> l.

Lemma findRow_Some c l r : findRow c l = Some r -> r ∈ l /\ row_connectionId r = c.
Proof.
  unfold findRow. intros (i & (x & Hx & Hp & _)%findIndex_Some & Hr)%bind_Some.
  assert (x = r) as -> by congruence. apply bool_decide_eq_true in Hp.
  split; [by eapply list_elem_of_lookup_2|done].
Qed.

Lemma findRow_cons c r l :
  findRow c (r :: l) = if bool_decide (row_connectionId r = c) then Some r else findRow c l.
Proof. unfold findRow. simpl. case_bool_decide; [done|]. by destruct (findIndex _ l). Qed.

Lemma findRow_None c l : findRow c l = None <-> c ∉ conns l.
Proof.
  induction l as [|r l IH]; [set_solver|]. rewrite findRow_cons. unfold conns in *.
  rewrite fmap_cons, not_elem_of_cons. case_bool_decide; [naive_solver|]. rewrite IH. naive_solver.
Qed.

Lemma findRow_elem l r : NoDup (conns l) -> r ∈ l -> findRow (row_connectionId r) l = Some r.
Proof.
  induction l as [|x l IH]; [by intros _ ?%elem_of_nil|]. unfold conns. rewrite fmap_cons.
  intros [Hn Hnd]%NoDup_cons. rewrite findRow_cons. intros [->|Hr]%elem_of_cons.
  - by rewrite bool_decide_true.
  - rewrite bool_decide_false; [by apply IH|]. intros Heq. apply Hn. rewrite Heq.
    by apply list_elem_of_fmap_2.
Qed.

Lemma findRow_app c l k :
  findRow c (l ++ k) = match findRow c l with Some r => Some r | None => findRow c k end.
Proof.
  induction l as [|r l IH]; simpl; [done|]. rewrite !findRow_cons. by case_bool_decide.
Qed.

(** Replacing a connection's row by another one of the connection. *)
Lemma findRow_insert l i r r' c :
  NoDup (conns l) -> l !! i = Some r -> row_connectionId r' = row_connectionId r ->
  conns (<[i := r']> l) = conns l /\
  findRow c (<[i := r']> l) = if bool_decide (row_connectionId r' = c) then Some r' else findRow c l.
Proof.
  intros Hnd Hi Hc. split.
  - unfold conns. rewrite list_fmap_insert, Hc. apply list_insert_id. by rewrite list_lookup_fmap, Hi.
  - revert i Hi Hnd. induction l as [|x l IH]; intros [|i] Hi Hnd; simplify_eq/=; rewrite !findRow_cons.
    + rewrite Hc. by repeat case_bool_decide.
    + apply NoDup_cons in Hnd as [Hn Hnd].
      rewrite (IH i) by done. repeat case_bool_decide; try done. subst. destruct Hn.
      replace (row_connectionId x) with (row_connectionId r) by congruence.
      apply list_elem_of_fmap_2. by eapply list_elem_of_lookup_2.
Qed.

Definition healthOf (l : list ConnectionStateRow) (m : ConnectionStateModel) (c : jstr)
    : option ConnectionHealthStatus :=
  (fun row => connectionHealth row (pathOf c m)) <$> findRow c l.

Record cinv (m : ConnectionStateModel) : Prop :=
  { ci_conns : NoDup (conns (rows m));
    ci_ids : Forall (fun row => row_id row = row_connectionId row) (rows m);
    ci_health : forall c, mget c (health m) = healthOf (rows m) m c;
    ci_paths : forall c, findRow c (rows m) = None -> mget c (paths m) = None }.

Lemma announce_health m row c :
  mget c (health (announce m row)) =
  if bool_decide (row_connectionId row = c) then Some (connectionHealth row (pathOf c m))
  else mget c (health m).
Proof. simpl. rewrite mget_mset. case_bool_decide; [by subst|done]. Qed.

Lemma findIndex_id l c :
  Forall (fun row => row_id row = row_connectionId row) l ->
  findIndex (fun candidate => bool_decide (row_id candidate = c)) l =
  findIndex (fun row => bool_decide (row_connectionId row = c)) l.
Proof.
  intros HF. apply findIndex_ext. intros x Hx.
  rewrite Forall_forall in HF. by rewrite HF.
Qed.

Lemma cinv_publish row m :
  cinv m -> row_id row = row_connectionId row -> cinv (publishRow row m).
Proof.
  intros Hm Hid. pose proof Hm as [Hc Hi Hh Hp]. unfold publishRow. destruct (disposed m); [done|].
  rewrite Hid, findIndex_id by done.
  assert (forall c, findRow c (rows m) = (i ← findIndex (fun row => bool_decide (row_connectionId row = c)) (rows m); rows m !! i)) as Hfr by done.
  destruct (findIndex _ (rows m)) as [i|] eqn:Ei.
  - pose proof Ei as (previous & Hi' & Hpc & _)%findIndex_Some. rewrite Hi'.
    apply bool_decide_eq_true in Hpc. destruct (sameState previous row); [done|].
    destruct (findRow_insert (rows m) i previous row (row_connectionId row) Hc Hi') as [Hcs _]; [done|].
    split.
    + simpl. by rewrite Hcs.
    + simpl. apply Forall_insert; done.
    + intros c. rewrite announce_health. unfold healthOf. simpl.
      destruct (findRow_insert (rows m) i previous row c Hc Hi') as [_ ->]; [done|].
      case_bool_decide; [done|]. apply Hh.
    + intros c. simpl. destruct (findRow_insert (rows m) i previous row c Hc Hi') as [_ ->]; [done|].
      case_bool_decide; [done|]. apply Hp.
  - assert (findRow (row_connectionId row) (rows m) = None) as Hno by by rewrite Hfr, Ei.
    split.
    + simpl. unfold conns. rewrite fmap_app. apply NoDup_app. split_and!; [done| |apply NoDup_singleton].
      intros x Hx ->%list_elem_of_singleton. by apply findRow_None in Hno.
    + simpl. apply Forall_app. split; [done|]. by constructor.
    + intros c. rewrite announce_health. unfold healthOf. simpl. rewrite findRow_app, findRow_cons.
      case_bool_decide as Hcc; [subst; by rewrite Hno|].
      change (mget c (health m) = healthOf (rows m) m c) in Hh || idtac.
      change (findRow c []) with (@None ConnectionStateRow). rewrite Hh. unfold healthOf.
      by destruct (findRow c (rows m)).
    + intros c. simpl. rewrite findRow_app. destruct (findRow c (rows m)) eqn:E; [done|].
      intros _. by apply Hp.
Qed.

Lemma cinv_setState now c state diagnostic rpc m :
  cinv m -> cinv (setState now c state diagnostic rpc m).
Proof.
  intros Hm. unfold setState. apply cinv_publish; [done|]. simpl.
  destruct (findRow c (rows m)) as [r|] eqn:E; [|done]. simpl.
  apply findRow_Some in E as [Hin _]. pose proof (ci_ids _ Hm) as HF. rewrite Forall_forall in HF.
  by apply HF.
Qed.

Lemma removeHealth_fold l m :
  let m' := foldl removeHealth m l in
  rows m' = rows m /\ disposed m' = disposed m /\
  (forall c, mget c (health m') = if bool_decide (c ∈ l) then None else mget c (health m)) /\
  (forall c, mget c (paths m') = if bool_decide (c ∈ l) then None else mget c (paths m)).
Proof.
  revert m. induction l as [|x l IH]; intros m; cbn [foldl]; [by split_and!|].
  destruct (IH (removeHealth m x)) as (Hr & Hd & Hh & Hp). split_and!; [done|done| |].
  - intros c. rewrite Hh. simpl. rewrite mget_mdel.
    repeat case_bool_decide; try done; set_solver.
  - intros c. rewrite Hp. simpl. rewrite mget_mdel.
    repeat case_bool_decide; try done; set_solver.
Qed.

Lemma announce_fold l m :
  NoDup (conns l) ->
  let m' := foldl announce m l in
  rows m' = rows m /\ paths m' = paths m /\ disposed m' = disposed m /\
  (forall c, mget c (health m') =
     match findRow c l with
     | Some row => Some (connectionHealth row (pathOf c m))
     | None => mget c (health m)
     end).
Proof.
  revert m. induction l as [|x l IH]; intros m Hnd; cbn [foldl]; [by split_and!|].
  unfold conns in Hnd. rewrite fmap_cons in Hnd. apply NoDup_cons in Hnd as [Hn Hnd].
  destruct (IH (announce m x) Hnd) as (Hr & Hp & Hd & Hh). split_and!; [done|done|done|].
  intros c. rewrite Hh, announce_health, findRow_cons. case_bool_decide as Hc; [|done].
  subst. rewrite (proj2 (findRow_None _ l) Hn). done.
Qed.

Definition profiles_ok (profiles : list ConnectionStateProfile) : Prop :=
  NoDup (prof_connectionId <$> profiles) /\
  Forall (fun p => prof_id p = prof_connectionId p) profiles.

Lemma nextRow_conn profiles r r' b :
  nextRow profiles r = Some (r', b) ->
  row_connectionId r' = row_connectionId r /\ row_id r' = row_id r /\ (b = false -> r' = r).
Proof.
  unfold nextRow. intros (p & _ & H)%bind_Some. revert H.
  destruct (Bool.eqb _ _); intros [= <- <-]; done.
Qed.

Lemma kept_spec profiles l :
  NoDup (conns l) ->
  NoDup (conns (omap (nextRow profiles) l).*1) /\
  (forall c, c ∈ conns (omap (nextRow profiles) l).*1 -> c ∈ conns l) /\
  forall c, findRow c (omap (nextRow profiles) l).*1 = fst <$> (findRow c l ≫= nextRow profiles).
Proof.
  induction l as [|r l IH]; [intros _; split_and!; [apply NoDup_nil_2|done|done]|].
  unfold conns. rewrite fmap_cons.
  intros [Hn Hnd]%NoDup_cons. destruct (IH Hnd) as (IH1 & IH2 & IH3). fold (conns l) in Hn.
  cbn [omap list_omap]. destruct (nextRow profiles r) as [[r' b]|] eqn:E.
  - destruct (nextRow_conn _ _ _ _ E) as (Hc & _ & _). rewrite fmap_cons. split_and!.
    + rewrite fmap_cons. apply NoDup_cons. split; [|done]. simpl. rewrite Hc.
      intros Hin. by apply Hn, IH2.
    + intros c. rewrite fmap_cons, !elem_of_cons. simpl. rewrite Hc. intros [->|Hin]; [by left|].
      right. by apply IH2.
    + intros c. cbn [fst]. rewrite !findRow_cons, Hc. case_bool_decide; [|apply IH3]. simpl. by rewrite E.
  - split_and!; [done| |].
    + intros c Hin. apply elem_of_cons. right. by apply IH2.
    + intros c. rewrite findRow_cons. case_bool_decide as Hcc; [|apply IH3]. simpl. rewrite E. simpl.
      apply findRow_None. intros Hin%IH2. subst. done.
Qed.

Lemma added_spec l profiles :
  profiles_ok profiles ->
  NoDup (conns (addedRows l profiles)) /\
  (forall c, c ∈ conns (addedRows l profiles) -> c ∉ conns l) /\
  Forall (fun row => row_id row = row_connectionId row) (addedRows l profiles).
Proof.
  intros [Hnd Hid]. unfold addedRows.
  induction profiles as [|p ps IH]; [split_and!; [apply NoDup_nil_2|set_solver|done]|].
  rewrite fmap_cons in Hnd. apply NoDup_cons in Hnd as [Hn Hnd]. apply Forall_cons in Hid as [Hp Hid].
  destruct (IH Hnd Hid) as (IH1 & IH2 & IH3). cbn [omap list_omap].
  case_bool_decide as Hin; [done|].
  assert (forall c, c ∈ conns (omap (fun profile => if bool_decide (prof_connectionId profile ∈ conns l)
      then None else Some (profileRow (prof_id profile) profile)) ps) -> c ∈ prof_connectionId <$> ps) as Hsub.
  { intros c (r & -> & (q & Hq & Hr)%list_elem_of_omap)%list_elem_of_fmap. case_bool_decide; [done|].
    simplify_eq. simpl. by apply list_elem_of_fmap_2. }
  split_and!.
  - unfold conns at 1. rewrite fmap_cons. apply NoDup_cons. split; [|done]. simpl.
    intros Hc%Hsub. done.
  - intros c. unfold conns at 1. rewrite fmap_cons. intros [->|Hc]%elem_of_cons; [done|by apply IH2].
  - constructor; [done|done].
Qed.

Lemma dropped_spec profiles l c :
  NoDup (conns l) ->
  c ∈ row_connectionId <$> filter (fun row => profileOf (row_connectionId row) profiles = None) l <->
  exists r, findRow c l = Some r /\ nextRow profiles r = None.
Proof.
  intros Hnd. split.
  - intros (r & -> & [Hp Hr]%list_elem_of_filter)%list_elem_of_fmap. exists r.
    split; [by apply findRow_elem|]. unfold nextRow. by rewrite Hp.
  - intros (r & Hr & Hn). destruct (findRow_Some _ _ _ Hr) as [Hin <-].
    apply list_elem_of_fmap_2, list_elem_of_filter. split; [|done]. unfold nextRow in Hn.
    destruct (profileOf _ _) as [p|]; [|done]. simpl in Hn. by destruct (Bool.eqb _ _).
Qed.

(** Rows with a flag, of distinct connections: the flagged ones. *)
Lemma flagged_spec (l : list (ConnectionStateRow * bool)) c :
  NoDup (conns l.*1) ->
  NoDup (conns (filter (fun e => e.2 = true) l).*1) /\
  findRow c (filter (fun e => e.2 = true) l).*1 =
  match findRow c l.*1 with
  | Some r => if bool_decide ((r, true) ∈ l) then Some r else None
  | None => None
  end.
Proof.
  intros Hnd. split.
  { unfold conns in *. eapply sublist_NoDup; [exact Hnd|]. apply fmap_sublist, fmap_sublist, sublist_filter. }
  induction l as [|[r b] l IH]; [done|]. unfold conns in Hnd. rewrite !fmap_cons in Hnd.
  apply NoDup_cons in Hnd as [Hn Hnd]. cbn [fst] in Hn. rewrite fmap_cons, findRow_cons. cbn [fst].
  assert (forall r', row_connectionId r' = row_connectionId r -> (r', true) ∉ l) as Hnot.
  { intros r' Heq Hin. apply Hn. rewrite <- Heq.
    apply (list_elem_of_fmap_2 row_connectionId). by apply (list_elem_of_fmap_2 fst _ (r', true)). }
  destruct (decide (row_connectionId r = c)) as [Hc|Hc].
  - rewrite (bool_decide_true (row_connectionId r = c)) by done. destruct b.
    + rewrite filter_cons_True by done. rewrite fmap_cons, findRow_cons. cbn [fst].
      rewrite !bool_decide_true; [done|by left|done].
    + rewrite filter_cons_False by done. rewrite IH by done.
      rewrite (bool_decide_false ((r, true) ∈ _)).
      * destruct (findRow c l.*1) as [r'|] eqn:E; [|done]. exfalso. apply Hn.
        apply findRow_Some in E as [Hin Heq]. rewrite Hc, <- Heq. by apply (list_elem_of_fmap_2 row_connectionId).
      * intros [?|Hin]%elem_of_cons; [done|]. by apply (Hnot r).
  - rewrite (bool_decide_false (row_connectionId r = c)) by done.
    assert (findRow c (filter (fun e => e.2 = true) ((r, b) :: l)).*1 = findRow c (filter (fun e => e.2 = true) l).*1) as ->.
    { destruct b; [rewrite filter_cons_True by done|by rewrite filter_cons_False].
      rewrite fmap_cons, findRow_cons. cbn [fst]. by rewrite bool_decide_false. }
    rewrite IH by done. destruct (findRow c l.*1) as [r'|] eqn:E; [|done].
    apply findRow_Some in E as [_ Heq].
    rewrite (bool_decide_ext ((r', true) ∈ l) ((r', true) ∈ (r, b) :: l)); [done|].
    rewrite elem_of_cons. naive_solver.
Qed.

Lemma kept_flag profiles (l : list ConnectionStateRow) r : (r, false) ∈ omap (nextRow profiles) l -> r ∈ l.
Proof.
  intros (x & Hx & Hn)%list_elem_of_omap. destruct (nextRow_conn _ _ _ _ Hn) as (_ & _ & Heq).
  by rewrite Heq.
Qed.

Lemma cinv_reconcile profiles m :
  cinv m -> profiles_ok profiles -> cinv (reconcileProfiles profiles m).
Proof.
  intros Hm Hp. pose proof Hm as [Hc Hi Hh Hpa]. unfold reconcileProfiles. destruct (disposed m); [done|].
  set (dropped := filter (fun row => profileOf (row_connectionId row) profiles = None) (rows m)).
  set (kept := omap (nextRow profiles) (rows m)). set (added := addedRows (rows m) profiles).
  set (m1 := foldl removeHealth m (row_connectionId <$> dropped)).
  destruct (removeHealth_fold (row_connectionId <$> dropped) m) as (Hr1 & _ & Hh1 & Hp1).
  fold m1 in Hr1, Hh1, Hp1.
  destruct (kept_spec profiles (rows m) Hc) as (Hk1 & Hk2 & Hk3). fold kept in Hk1, Hk2, Hk3.
  destruct (added_spec (rows m) profiles Hp) as (Ha1 & Ha2 & Ha3). fold added in Ha1, Ha2, Ha3.
  destruct (bool_decide (dropped = []) && _) eqn:Eb.
  { apply andb_true_iff in Eb as [Ed%bool_decide_eq_true _]. unfold m1. rewrite Ed. done. }
  assert (NoDup (conns (kept.*1 ++ added))) as Hnd.
  { unfold conns. rewrite fmap_app. apply NoDup_app. split_and!; [done| |done].
    intros c Hck Hca. by apply (Ha2 c Hca), Hk2. }
  set (changed := (filter (fun e => e.2 = true) kept).*1 ++ added).
  assert (NoDup (conns changed)) as Hndc.
  { unfold conns, changed. rewrite fmap_app. apply NoDup_app. split_and!; [|clear Eb|done].
    - by apply (flagged_spec kept [] Hk1).
    - intros c Hck Hca. apply (Ha2 c Hca), Hk2. unfold conns in *.
      eapply elem_of_submseteq; [exact Hck|].
      apply sublist_submseteq, fmap_sublist, fmap_sublist, sublist_filter. }
  destruct (announce_fold changed (setRows (kept.*1 ++ added) m1) Hndc) as (Hrf & Hpf & _ & Hhf).
  set (mf := foldl announce _ changed) in *.
  assert (forall c, findRow c (kept.*1 ++ added) =
    match findRow c (rows m) with Some r => fst <$> nextRow profiles r | None => findRow c added end) as Hrow.
  { intros c. rewrite findRow_app, Hk3. destruct (findRow c (rows m)) as [r|] eqn:E; [|done]. simpl.
    destruct (nextRow profiles r); [done|]. simpl. apply findRow_None. intros Hca%Ha2.
    apply Hca. destruct (findRow_Some _ _ _ E) as [Hin <-]. by apply list_elem_of_fmap_2. }
  assert (forall c, bool_decide (c ∈ row_connectionId <$> dropped) =
    match findRow c (rows m) with Some r => bool_decide (nextRow profiles r = None) | None => false end) as Hdrop.
  { intros c. destruct (findRow c (rows m)) as [r|] eqn:E.
    - apply bool_decide_ext. unfold dropped. rewrite dropped_spec by done. rewrite E. naive_solver.
    - apply bool_decide_eq_false. unfold dropped. rewrite dropped_spec by done. rewrite E. naive_solver. }
  split; rewrite ?Hrf; cbn [rows setRows].
  - done.
  - apply Forall_app. split; [|done]. apply Forall_forall. intros r ([r' b] & -> & Hin)%list_elem_of_fmap.
    apply list_elem_of_omap in Hin as (x & Hx & Hn). destruct (nextRow_conn _ _ _ _ Hn) as (Hcx & Hix & _).
    simpl. rewrite Hcx, Hix. rewrite Forall_forall in Hi. by apply Hi.
  - intros c. rewrite Hhf. unfold healthOf, pathOf. rewrite Hpf, Hrow. cbn [paths setRows health].
    unfold changed. rewrite findRow_app. destruct (flagged_spec kept c Hk1) as [_ ->].
    rewrite Hk3, Hh1, Hp1, Hdrop, Hh. unfold healthOf, pathOf.
    destruct (findRow c (rows m)) as [r|] eqn:E; simpl.
    + assert (findRow c added = None) as Hna.
      { apply findRow_None. intros Hca%Ha2. apply Hca. destruct (findRow_Some _ _ _ E) as [Hin <-].
        by apply list_elem_of_fmap_2. }
      destruct (nextRow profiles r) as [[r' b]|] eqn:En; simpl; rewrite Hna; [|by case_bool_decide].
      destruct b.
      * rewrite (bool_decide_true ((r', true) ∈ kept)); [done|]. apply list_elem_of_omap.
        exists r. split; [by apply (findRow_Some _ _ _ E)|done].
      * destruct (nextRow_conn _ _ _ _ En) as (_ & _ & ->); [|done].
        by repeat case_bool_decide.
    + rewrite (Hpa c E). by destruct (findRow c added).
  - intros c. rewrite Hrow, Hpf. cbn [paths setRows]. rewrite Hp1, Hdrop.
    destruct (findRow c (rows m)) as [r|] eqn:E.
    + destruct (nextRow profiles r) as [[r' b]|]; simpl; [done|]. done.
    + intros _. by apply Hpa.
Qed.

Lemma findRow_filter c c' l :
  findRow c (filter (fun row => row_connectionId row <> c') l) =
  if bool_decide (c = c') then None else findRow c l.
Proof.
  induction l as [|r l IH]; [by case_bool_decide|].
  destruct (decide (row_connectionId r = c')) as [Hr|Hr].
  - rewrite filter_cons_False by (intros H; by apply H). rewrite IH, findRow_cons.
    repeat case_bool_decide; congruence.
  - rewrite filter_cons_True by done. rewrite !findRow_cons, IH. repeat case_bool_decide; congruence.
Qed.

Lemma cinv_remove c m : cinv m -> cinv (removeConnection c m).
Proof.
  intros [Hc Hi Hh Hp]. unfold removeConnection. destruct (disposed m); [done|]. split; simpl.
  - unfold conns in *. eapply sublist_NoDup; [exact Hc|]. by apply fmap_sublist, sublist_filter.
  - apply Forall_forall. intros r [_ Hr]%list_elem_of_filter. rewrite Forall_forall in Hi. by apply Hi.
  - intros c'. rewrite mget_mdel, Hh. unfold healthOf, pathOf. simpl.
    rewrite findRow_filter, mget_mdel. repeat case_bool_decide; done || congruence.
  - intros c'. rewrite findRow_filter, mget_mdel. repeat case_bool_decide; try done; try congruence. apply Hp.
Qed.

Lemma cinv_setPath c path m : cinv m -> cinv (setPath c path m).
Proof.
  intros Hm. pose proof Hm as [Hc Hi Hh Hp]. unfold setPath. destruct (disposed m); [done|].
  destruct (findRow c (rows m)) as [r|] eqn:E; [|done].
  destruct (findRow_Some _ _ _ E) as [_ Hrc]. split; simpl; [done|done| |].
  - intros c'. rewrite mget_mset, Hh. unfold healthOf, pathOf. simpl. rewrite !mget_mset.
    repeat case_bool_decide; subst; try done; try congruence. by rewrite E.
  - intros c' Hc'. rewrite mget_mset. case_bool_decide; [congruence|by apply Hp].
Qed.

Definition connection_op_ok (op : connectionOp) : Prop :=
  match op with ReconcileProfiles profiles => profiles_ok profiles | _ => True end.

Lemma cinv_op op m : cinv m -> connection_op_ok op -> cinv (runConnectionOp op m).
Proof.
  intros Hm Hop. destruct op; simpl in *.
  - split; simpl; [apply NoDup_nil_2|done|done|done].
  - by apply cinv_reconcile.
  - by apply cinv_remove.
  - by apply cinv_setPath.
  - by apply cinv_setState.
  - unfold subscribeChanges. destruct (disposed m); [done|]. destruct Hm. by split.
  - destruct Hm. by split.
Qed.

(** What is shown of a connection is a function of its row and path: after
    any sequence of operations (profiles with distinct ids) the rows have
    distinct connections and the health map holds, for each of them and nothing
    else, the health of its current row; path evidence changes neither a row nor
    tells a listener; and a state report that changes nothing is silent. *)
Theorem health_follows_rows ops :
  Forall connection_op_ok ops ->
  let m := foldl (fun m op => runConnectionOp op m) createConnectionStateModel ops in
  NoDup (conns (rows m)) /\
  (forall c, mget c (health m) =
     (fun row => connectionHealth row (pathOf c m)) <$> findRow c (rows m)) /\
  (forall c path, rows (setPath c path m) = rows m /\ told (setPath c path m) = told m) /\
  (forall now c r, disposed m = false -> findRow c (rows m) = Some r -> row_state r <> Live ->
     setState now c (row_state r) None None m = m).
Proof.
  intros Hops m. assert (cinv m) as Hm.
  { assert (cinv createConnectionStateModel) as H0 by (split; simpl; [apply NoDup_nil_2|done|done|done]).
    unfold m. clear m. revert H0. generalize createConnectionStateModel.
    induction Hops as [|op ops Hop _ IH]; intros m Hm; simpl; [done|]. by apply IH, cinv_op. }
  split; [by apply ci_conns|]. split; [by apply ci_health|]. split.
  - intros c path. unfold setPath. destruct (disposed m); [done|]. by destruct (findRow c (rows m)).
  - intros now c r Hd Hr Hl. unfold setState. rewrite Hr. cbn [default from_option]. unfold id.
    rewrite (bool_decide_false (row_state r = Live)), (bool_decide_false (None = Some None)) by done.
    cbn [orb]. unfold publishRow. rewrite Hd. cbn [row_id].
    pose proof (ci_ids _ Hm) as HF. destruct (findRow_Some _ _ _ Hr) as [Hin Hc].
    rewrite findIndex_id by done. rewrite Forall_forall in HF. rewrite (HF r Hin), Hc.
    unfold findRow in Hr. destruct (findIndex _ (rows m)) as [i|] eqn:Ei; [|done]. simpl in Hr. rewrite Hr.
    unfold sameState. simpl. rewrite !bool_decide_true, !eqb_reflx by done. done.
Qed.

Lemma health_follows_rows_witness :
  mget (js "a") (health (foldl (fun m op => runConnectionOp op m) createConnectionStateModel
    [ReconcileProfiles [{| prof_id := js "a"; prof_connectionId := js "a"; prof_enabled := true |}];
     SetState 5 (js "a") Live None (Some true)])) = Some Online.
Proof.
  set (ops := [ReconcileProfiles _; _]).
  assert (Forall connection_op_ok ops) as Hok.
  { constructor; [split; [apply NoDup_singleton|by constructor]|by constructor]. }
  rewrite (proj1 (proj2 (health_follows_rows ops Hok)) (js "a")). vm_compute. reflexivity.
Defined.

(** The display state is live exactly when RPC is available and the credentials
    stand. *)
Lemma display_live row :
  connectionDisplayState row = Live <-> rpcAvailable row = true /\ row_state row <> AuthRequired.
Proof.
  unfold connectionDisplayState. case_bool_decide as Ha; [rewrite Ha; naive_solver|].
  destruct (rpcAvailable row); [naive_solver|]. split; [|naive_solver].
  destruct (row_state row); naive_solver.
Qed.
