(* ===== verification/Reconnect.v ===== *)
(** * Repair after a reconnect

    Models apps/android/src/data/thread-sync-reconnect.ts.  A timer is a number;
    the calls into the catalog, the details, the sync runtime and the account
    loaders are an effect log; the desired thread of a connection and its current
    row are what those owners answer at the time. *)
From S2P Require Import Prelude JsMap MemoryCache Connection.

Local Open Scope nat_scope.

Inductive Recovery := Unusable | Usable (timer : option nat).

#[export] Instance recovery_eq_dec : EqDecision Recovery.
Proof. solve_decision. Defined.

Inductive Effect :=
| InvalidateHistoryExhaustion (connectionId : jstr)
| FlushTelemetry
| ReadThread (connectionId threadId : jstr)
| RefreshVisibleCatalog (connectionId : jstr)
| RefreshAccountRateLimits (connectionId : jstr) (force : bool)
| RefreshAgentProviders (connectionId : jstr)
| InvalidateHistoryReads (connectionId : jstr)
| RecordConnectionUsability (row : ConnectionStateRow).

Record ThreadSyncReconnect :=
  { recoveries : list (jstr * Recovery);
    generations : list (jstr * Z);
    closed : bool;
    (** the timers set and not cleared, and the connection each repairs *)
    timers : list (nat * jstr);
    nextTimer : nat;
    effects : list Effect }.

Definition createThreadSyncReconnect : ThreadSyncReconnect :=
  {| recoveries := []; generations := []; closed := false; timers := []; nextTimer := 0;
     effects := [] |}.

Definition withEffects (es : list Effect) (s : ThreadSyncReconnect) : ThreadSyncReconnect :=
  {| recoveries := recoveries s; generations := generations s; closed := closed s;
     timers := timers s; nextTimer := nextTimer s; effects := effects s ++ es |}.

Definition withRecovery (c : jstr) (r : Recovery) (s : ThreadSyncReconnect) : ThreadSyncReconnect :=
  {| recoveries := mset c r (recoveries s); generations := generations s; closed := closed s;
     timers := timers s; nextTimer := nextTimer s; effects := effects s |}.

(** [recoveryStatus(row) === "usable"]. *)
Definition recoveryUsable (row : ConnectionStateRow) : bool := row_enabled row && rpcAvailable row.

Definition cancelRecovery (recovery : option Recovery) (s : ThreadSyncReconnect)
    : ThreadSyncReconnect :=
  match recovery with
  | Some (Usable (Some timer)) =>
      {| recoveries := recoveries s; generations := generations s; closed := closed s;
         timers := mdel timer (timers s); nextTimer := nextTimer s; effects := effects s |}
  | _ => s
  end.

Definition repair (connectionId : jstr) (desiredThreadId : option jstr) : list Effect :=
  [InvalidateHistoryExhaustion connectionId; FlushTelemetry]
  ++ match desiredThreadId with Some t => [ReadThread connectionId t] | None => [] end
  ++ [RefreshVisibleCatalog connectionId; RefreshAccountRateLimits connectionId true;
      RefreshAgentProviders connectionId].

Definition scheduleRepair (connectionId : jstr) (s : ThreadSyncReconnect) : ThreadSyncReconnect :=
  let s := cancelRecovery (mget connectionId (recoveries s)) s in
  {| recoveries := mset connectionId (Usable (Some (nextTimer s))) (recoveries s);
     generations := generations s; closed := closed s;
     timers := mset (nextTimer s) connectionId (timers s); nextTimer := S (nextTimer s);
     effects := effects s |}.

Definition sameStatus (recovery : option Recovery) (usable : bool) : bool :=
  match recovery, usable with
  | Some (Usable _), true | Some Unusable, false => true
  | _, _ => false
  end.

(** [accept]. *)
Definition acceptRow (row : ConnectionStateRow) (s : ThreadSyncReconnect) : ThreadSyncReconnect :=
  if closed s then s
  else
    let s := withEffects [RecordConnectionUsability row] s in
    let connectionId := row_connectionId row in
    let usable := recoveryUsable row in
    let previous := mget connectionId (recoveries s) in
    if sameStatus previous usable then s
    else
      let s := cancelRecovery previous s in
      if usable then scheduleRepair connectionId s
      else
        let s := withRecovery connectionId Unusable s in
        match previous with
        | Some (Usable _) => withEffects [InvalidateHistoryReads connectionId] s
        | _ => s
        end.

(** The timer's callback, when the clock reaches it; [readConnection] and the
    desired thread are read then. *)
Definition fire (timer : nat) (readConnection : option ConnectionStateRow)
    (desiredThreadId : option jstr) (s : ThreadSyncReconnect) : ThreadSyncReconnect :=
  match mget timer (timers s) with
  | None => s
  | Some connectionId =>
      let s :=
        {| recoveries :=
             match mget connectionId (recoveries s) with
             | Some (Usable (Some t)) =>
                 if bool_decide (t = timer) then mset connectionId (Usable None) (recoveries s)
                 else recoveries s
             | _ => recoveries s
             end;
           generations := generations s; closed := closed s; timers := mdel timer (timers s);
           nextTimer := nextTimer s; effects := effects s |} in
      match readConnection with
      | Some row =>
          if negb (closed s) && row_enabled row && rpcAvailable row
          then withEffects (repair connectionId desiredThreadId) s else s
      | None => s
      end
  end.

Definition closeReconnect (s : ThreadSyncReconnect) : ThreadSyncReconnect :=
  let s := foldl (fun s recovery => cancelRecovery (Some recovery) s) s (mvals (recoveries s)) in
  {| recoveries := []; generations := generations s; closed := true; timers := timers s;
     nextTimer := nextTimer s; effects := effects s |}.

Definition observeGeneration (connectionId : jstr) (generation : Z) (s : ThreadSyncReconnect)
    : ThreadSyncReconnect :=
  let previous := mget connectionId (generations s) in
  let s :=
    {| recoveries := recoveries s; generations := mset connectionId generation (generations s);
       closed := closed s; timers := timers s; nextTimer := nextTimer s; effects := effects s |} in
  if closed s || bool_decide (previous = None) || bool_decide (previous = Some generation)
     || negb (sameStatus (mget connectionId (recoveries s)) true)
  then s else scheduleRepair connectionId s.

Inductive reconnectEvent :=
| Accept (row : ConnectionStateRow)
| Fire (timer : nat) (readConnection : option ConnectionStateRow) (desiredThreadId : option jstr)
| CloseReconnect
| ObserveGeneration (connectionId : jstr) (generation : Z).

Definition reconnectStep (s : ThreadSyncReconnect) (e : reconnectEvent) : ThreadSyncReconnect :=
  match e with
  | Accept row => acceptRow row s
  | Fire t row desired => fire t row desired s
  | CloseReconnect => closeReconnect s
  | ObserveGeneration c g => observeGeneration c g s
  end.

(** ** What a connection is owed

    The specification follows one connection through the events: whether its
    RPC is usable, the last generation, how often it recovered and how often it
    was lost. *)
Record Track :=
  { tr_usable : option bool; tr_generation : option Z; tr_closed : bool;
    tr_recovered : nat; tr_lost : nat }.

Definition untracked : Track :=
  {| tr_usable := None; tr_generation := None; tr_closed := false; tr_recovered := 0; tr_lost := 0 |}.

Definition track (c : jstr) (t : Track) (e : reconnectEvent) : Track :=
  match e with
  | Accept row =>
      if tr_closed t || bool_decide (row_connectionId row <> c)
         || bool_decide (tr_usable t = Some (recoveryUsable row)) then t
      else {| tr_usable := Some (recoveryUsable row); tr_generation := tr_generation t;
              tr_closed := tr_closed t;
              tr_recovered := if recoveryUsable row then S (tr_recovered t) else tr_recovered t;
              tr_lost := if bool_decide (tr_usable t = Some true) then S (tr_lost t) else tr_lost t |}
  | Fire _ _ _ => t
  | CloseReconnect =>
      {| tr_usable := None; tr_generation := tr_generation t; tr_closed := true;
         tr_recovered := tr_recovered t; tr_lost := tr_lost t |}
  | ObserveGeneration c' g =>
      if bool_decide (c' = c) then
        {| tr_usable := tr_usable t; tr_generation := Some g; tr_closed := tr_closed t;
           tr_recovered :=
             if negb (tr_closed t) && bool_decide (is_Some (tr_generation t))
                && negb (bool_decide (tr_generation t = Some g))
                && bool_decide (tr_usable t = Some true)
             then S (tr_recovered t) else tr_recovered t;
           tr_lost := tr_lost t |}
      else t
  end.

Definition tracked (c : jstr) (es : list reconnectEvent) : Track := foldl (track c) untracked es.

Definition count (p : Effect -> bool) (es : list Effect) : nat := length (List.filter p es).

Definition isRepairOf (c : jstr) (e : Effect) : bool :=
  match e with RefreshVisibleCatalog c' => bool_decide (c' = c) | _ => false end.

Definition isLossOf (c : jstr) (e : Effect) : bool :=
  match e with InvalidateHistoryReads c' => bool_decide (c' = c) | _ => false end.

(** One if a repair of the connection is scheduled. *)
Definition scheduled (c : jstr) (s : ThreadSyncReconnect) : nat :=
  match mget c (recoveries s) with Some (Usable (Some _)) => 1 | _ => 0 end.

(** ** Invariant *)

Record rinv (s : ThreadSyncReconnect) : Prop :=
  { ri_pending : forall t c, mget t (timers s) = Some c <-> mget c (recoveries s) = Some (Usable (Some t));
    ri_fresh : forall t, is_Some (mget t (timers s)) -> t < nextTimer s;
    ri_closed : closed s = true -> recoveries s = [];
    ri_wf : mwf (recoveries s) }.

(** What the state says of a connection is what the specification says. *)
Definition agrees (c : jstr) (s : ThreadSyncReconnect) (t : Track) : Prop :=
  closed s = tr_closed t /\
  mget c (generations s) = tr_generation t /\
  tr_usable t = match mget c (recoveries s) with
                | Some (Usable _) => Some true | Some Unusable => Some false | None => None end /\
  count (isRepairOf c) (effects s) + scheduled c s <= tr_recovered t /\
  count (isLossOf c) (effects s) = tr_lost t.

Lemma count_app p es es' : count p (es ++ es') = count p es + count p es'.
Proof. unfold count. by rewrite List.filter_app, length_app. Qed.

Lemma rinv_initial : rinv createThreadSyncReconnect.
Proof. split; simpl; [done|by intros ? [? ?]|done|apply NoDup_nil_2]. Qed.

Lemma rinv_fields s s' :
  recoveries s' = recoveries s -> timers s' = timers s -> nextTimer s' = nextTimer s ->
  closed s' = closed s -> rinv s -> rinv s'.
Proof. intros H1 H2 H3 H4 [Hp Hf Hc Hw]. split; rewrite ?H1, ?H2, ?H3, ?H4; done. Qed.

(** Cancelling the timer of the recovery a connection has, before that recovery
    is replaced. *)
Lemma cancel_timers s c t :
  rinv s ->
  mget t (timers (cancelRecovery (mget c (recoveries s)) s)) =
  match mget t (timers s) with
  | Some c' => if bool_decide (c' = c) then None else Some c'
  | None => None
  end.
Proof.
  intros Hi. destruct (mget c (recoveries s)) as [[|[t'|]]|] eqn:E; simpl.
  3: { destruct (mget t (timers s)) as [c'|] eqn:Et; [|done]. case_bool_decide; [|done]. subst.
       apply (ri_pending _ Hi) in Et. congruence. }
  1: { destruct (mget t (timers s)) as [c'|] eqn:Et; [|done]. case_bool_decide; [|done]. subst.
       apply (ri_pending _ Hi) in Et. congruence. }
  2: { destruct (mget t (timers s)) as [c'|] eqn:Et; [|done]. case_bool_decide; [|done]. subst.
       apply (ri_pending _ Hi) in Et. congruence. }
  rewrite mget_mdel. apply (ri_pending _ Hi) in E as Et. case_bool_decide as Ht.
  - subst. rewrite Et. by rewrite bool_decide_true.
  - destruct (mget t (timers s)) as [c'|] eqn:Et'; [|done]. case_bool_decide; [|done]. subst.
    apply (ri_pending _ Hi) in Et'. congruence.
Qed.

Lemma cancel_fields r s :
  recoveries (cancelRecovery r s) = recoveries s /\ closed (cancelRecovery r s) = closed s /\
  nextTimer (cancelRecovery r s) = nextTimer s /\ effects (cancelRecovery r s) = effects s /\
  generations (cancelRecovery r s) = generations s.
Proof. unfold cancelRecovery. by repeat case_match. Qed.

(** Replacing the recovery of [c] by one without a timer, its timer cancelled. *)
Lemma rinv_replace s s' c r :
  rinv s -> closed s = false -> (forall t, r <> Usable (Some t)) ->
  recoveries s' = mset c r (recoveries s) -> closed s' = false -> nextTimer s' = nextTimer s ->
  timers s' = timers (cancelRecovery (mget c (recoveries s)) s) -> rinv s'.
Proof.
  intros Hi Hcl Hr H1 H2 H3 H4. split.
  - intros t c'. rewrite H4, cancel_timers, H1, mget_mset by done.
    case_bool_decide as Hc; [subst|].
    + split; [|by intros [= ->]; destruct (Hr t)].
      destruct (mget t (timers s)); [|done]. case_bool_decide; [done|]. congruence.
    + rewrite <- (ri_pending _ Hi). destruct (mget t (timers s)) as [x|]; [|done].
      case_bool_decide; [|done]. split; congruence.
  - intros t. rewrite H4, cancel_timers, H3 by done. intros Ht. apply (ri_fresh _ Hi).
    destruct (mget t (timers s)); [by eexists|done].
  - congruence.
  - rewrite H1. by apply mset_wf, Hi.
Qed.

Lemma rinv_schedule c s : rinv s -> closed s = false -> rinv (scheduleRepair c s).
Proof.
  intros Hi Hcl. unfold scheduleRepair. destruct (cancel_fields (mget c (recoveries s)) s) as (Hr & Hc & Hn & _ & _).
  split; simpl.
  - intros t c'. rewrite mget_mset, cancel_timers, Hr, Hn, mget_mset by done.
    case_bool_decide as Ht; [subst|].
    + case_bool_decide; [subst; split; congruence|]. split; [congruence|].
      intros Hx%(ri_pending _ Hi). assert (nextTimer s < nextTimer s); [|lia].
      apply (ri_fresh _ Hi). by rewrite Hx.
    + case_bool_decide as Hcc; [subst|].
      * split; [|intros [= Heq]; congruence]. destruct (mget t (timers s)); [|done].
        case_bool_decide; [done|congruence].
      * rewrite <- (ri_pending _ Hi). destruct (mget t (timers s)); [|done].
        case_bool_decide; [split; congruence|done].
  - intros t. rewrite mget_mset, cancel_timers, Hn by done. case_bool_decide; [lia|].
    intros Ht. assert (t < nextTimer s); [|lia]. apply (ri_fresh _ Hi).
    destruct (mget t (timers s)); [by eexists|done].
  - congruence.
  - rewrite Hr. by apply mset_wf, Hi.
Qed.

(** Closing clears every timer. *)
Lemma cancel_all l s t :
  mget t (timers (foldl (fun s recovery => cancelRecovery (Some recovery) s) s l)) =
  if bool_decide (Usable (Some t) ∈ l) then None else mget t (timers s).
Proof.
  revert s. induction l as [|r l IH]; intros s; cbn [foldl]; [by rewrite bool_decide_false by apply not_elem_of_nil|].
  rewrite IH. destruct r as [|[t'|]]; simpl.
  - rewrite (bool_decide_ext (_ ∈ Unusable :: l) (Usable (Some t) ∈ l)); [done|]. rewrite elem_of_cons. naive_solver.
  - rewrite mget_mdel. repeat case_bool_decide; try done; set_solver.
  - rewrite (bool_decide_ext (_ ∈ Usable None :: l) (Usable (Some t) ∈ l)); [done|]. rewrite elem_of_cons. naive_solver.
Qed.

Lemma cancel_idle r s : sameStatus r true = false -> cancelRecovery r s = s.
Proof. by destruct r as [[|[]]|]. Qed.

Lemma schedule_agrees c c' s :
  recoveries (scheduleRepair c' s) = mset c' (Usable (Some (nextTimer s))) (recoveries s) /\
  generations (scheduleRepair c' s) = generations s /\
  closed (scheduleRepair c' s) = closed s /\
  effects (scheduleRepair c' s) = effects s /\
  scheduled c (scheduleRepair c' s) = if bool_decide (c' = c) then 1 else scheduled c s.
Proof.
  unfold scheduleRepair, scheduled.
  destruct (cancel_fields (mget c' (recoveries s)) s) as (-> & -> & -> & -> & ->). simpl.
  split_and!; try done. rewrite mget_mset. by case_bool_decide.
Qed.

Lemma accept_ok c row s t :
  rinv s -> agrees c s t -> rinv (acceptRow row s) /\ agrees c (acceptRow row s) (track c t (Accept row)).
Proof.
  intros Hi Ha. pose proof Ha as (Hcl & Hg & Hu & Hr & Hl). unfold acceptRow. cbn [track]. rewrite <- Hcl.
  destruct (closed s) eqn:Ec; cbn [orb]; [done|].
  set (c' := row_connectionId row). set (u := recoveryUsable row).
  set (s1 := withEffects [RecordConnectionUsability row] s).
  assert (rinv s1) as Hi1 by by apply (rinv_fields s).
  assert (forall p, p (RecordConnectionUsability row) = false -> count p (effects s1) = count p (effects s)) as Hcnt.
  { intros p Hp. unfold s1. simpl. rewrite count_app. unfold count at 2. simpl. rewrite Hp. simpl. lia. }
  assert (agrees c s1 t) as Ha1.
  { split_and!; [by rewrite <- Hcl|done|done|by rewrite Hcnt|by rewrite Hcnt]. }
  change (recoveries s1) with (recoveries s).
  destruct (sameStatus (mget c' (recoveries s)) u) eqn:Es.
  { split; [done|]. destruct (decide (c' = c)) as [Hc|Hc].
    - rewrite (bool_decide_true (tr_usable t = Some u)); [by rewrite orb_true_r|].
      rewrite Hu, <- Hc. destruct (mget c' (recoveries s)) as [[|]|], u; done.
    - by rewrite (bool_decide_true (c' <> c)). }
  destruct u eqn:Eu.
  - rewrite cancel_idle by done. split; [by apply rinv_schedule|].
    destruct (schedule_agrees c c' s1) as (Hrec & Hgen & Hclo & Heff & Hsch).
    destruct (decide (c' = c)) as [Hc|Hc].
    + rewrite (bool_decide_false (c' <> c)) by (intros H; by apply H). rewrite Hu, <- Hc.
      rewrite (bool_decide_false (_ = Some true)) by (destruct (mget c' (recoveries s)) as [[|]|]; done).
      cbn [orb]. unfold agrees. rewrite <- Hc in Hsch, Ha1.
      rewrite Hclo, Hgen, Heff, Hrec, Hsch, mget_mset_eq, bool_decide_true by done.
      cbn [tr_closed tr_generation tr_usable tr_recovered tr_lost].
      destruct Ha1 as (Hcl1 & Hg1 & _ & Hr1 & Hl1).
      split_and!; [done|done|done|lia|done].
    + rewrite (bool_decide_true (c' <> c)) by done. cbn [orb]. unfold agrees.
      rewrite Hclo, Hgen, Heff, Hrec, Hsch, mget_mset_ne, bool_decide_false by done. exact Ha1.
  - set (s2 := withRecovery c' Unusable (cancelRecovery (mget c' (recoveries s)) s1)).
    destruct (cancel_fields (mget c' (recoveries s)) s1) as (Hrec & Hclo & Hnx & Heff & Hgen).
    assert (rinv s2) as Hi2.
    { apply (rinv_replace s1 s2 c' Unusable); [done|done|done|unfold s2; simpl; by rewrite Hrec| | |done];
        unfold s2; simpl; [by rewrite Hclo|by rewrite Hnx]. }
    set (s3 := match mget c' (recoveries s) with Some (Usable _) => _ | _ => s2 end).
    assert (rinv s3) as Hi3.
    { unfold s3. destruct (mget c' (recoveries s)) as [[|]|]; [done|by apply (rinv_fields s2)|done]. }
    split; [done|].
    assert (recoveries s3 = mset c' Unusable (recoveries s) /\ closed s3 = false /\ generations s3 = generations s /\
      effects s3 = effects s1 ++ match mget c' (recoveries s) with Some (Usable _) => [InvalidateHistoryReads c'] | _ => [] end)
      as (Hrec3 & Hclo3 & Hgen3 & Heff3).
    { unfold s3, s2. destruct (mget c' (recoveries s)) as [[|]|]; simpl in *;
        rewrite ?Hrec, ?Hclo, ?Heff, ?Hgen, ?app_nil_r; done. }
    destruct Ha1 as (_ & Hg1 & _ & Hr1 & Hl1). unfold agrees.
    rewrite Hclo3, Hgen3, Heff3, Hrec3, !count_app. unfold scheduled. rewrite Hrec3.
    destruct (decide (c' = c)) as [Hc|Hc].
    + rewrite (bool_decide_false (c' <> c)) by (intros H; by apply H). rewrite Hu, <- Hc, mget_mset_eq.
      rewrite (bool_decide_false (_ = Some false)) by (destruct (mget c' (recoveries s)) as [[|]|]; done).
      cbn [orb tr_closed tr_generation tr_usable tr_recovered tr_lost]. rewrite <- Hc in Hr1, Hl1, Hg.
      split_and!; [done|done|done| |].
      * assert (count (isRepairOf c') (effects s1) <= tr_recovered t) by lia.
        replace (count (isRepairOf c') (match mget c' (recoveries s) with
          Some (Usable _) => [InvalidateHistoryReads c'] | _ => [] end)) with 0
          by (by destruct (mget c' (recoveries s)) as [[|]|]). lia.
      * rewrite Hl1. destruct (mget c' (recoveries s)) as [[|]|]; [by rewrite Nat.add_0_r| |].
        -- unfold count. simpl. rewrite !bool_decide_true by done. simpl. lia.
        -- rewrite bool_decide_false by done. by rewrite Nat.add_0_r.
    + rewrite (bool_decide_true (c' <> c)) by done. cbn [orb]. rewrite mget_mset_ne by done.
      unfold scheduled in Hr1. split_and!; [done|done|done| |].
      * replace (count (isRepairOf c) (match mget c' (recoveries s) with
          Some (Usable _) => [InvalidateHistoryReads c'] | _ => [] end)) with 0
          by (by destruct (mget c' (recoveries s)) as [[|]|]). rewrite Nat.add_0_r. exact Hr1.
      * rewrite <- Hl1. rewrite <- (Nat.add_0_r (count (isLossOf c) (effects s1))) at 2. f_equal.
        destruct (mget c' (recoveries s)) as [[|]|]; try done.
        unfold count. simpl. by rewrite bool_decide_false.
Qed.

Lemma count_repair c c' desired :
  count (isRepairOf c) (repair c' desired) = (if bool_decide (c' = c) then 1 else 0) /\
  count (isLossOf c) (repair c' desired) = 0.
Proof. unfold repair, count. destruct desired; simpl; case_bool_decide; done. Qed.

Lemma fire_ok c timer row desired s t :
  rinv s -> agrees c s t -> rinv (fire timer row desired s) /\ agrees c (fire timer row desired s) t.
Proof.
  intros Hi Ha. unfold fire. destruct (mget timer (timers s)) as [c'|] eqn:Et; [|done].
  pose proof Et as Hc'. apply (ri_pending _ Hi) in Hc'. rewrite Hc', bool_decide_true by done.
  set (s1 := Build_ThreadSyncReconnect _ _ _ _ _ _).
  assert (closed s = false) as Hcl.
  { destruct (closed s) eqn:E; [|done]. rewrite (ri_closed _ Hi E) in Hc'. done. }
  assert (rinv s1) as Hi1.
  { apply (rinv_replace s s1 c' (Usable None)); try done. simpl. by rewrite Hc'. }
  destruct Ha as (Hc & Hg & Hu & Hr & Hl).
  assert (count (isRepairOf c) (effects s1) + scheduled c s1 + (if bool_decide (c' = c) then 1 else 0)
          <= tr_recovered t /\
          tr_usable t = match mget c (recoveries s1) with
            | Some (Usable _) => Some true | Some Unusable => Some false | None => None end) as [Hr1 Hu1].
  { unfold scheduled in Hr |- *. simpl. rewrite mget_mset. case_bool_decide as Hcc.
    - rewrite <- Hcc, Hc' in Hu, Hr. rewrite <- Hcc. split; [lia|done].
    - split; [lia|done]. }
  assert (agrees c s1 t) as Ha1 by (split_and!; [done|done|done|lia|done]).
  destruct row as [row|]; [|done]. destruct (_ && _); [|done].
  split; [by apply (rinv_fields s1)|]. destruct (count_repair c c' desired) as [Hn1 Hn2].
  split_and!; [done|done|done| |]; simpl; rewrite count_app.
  - change (scheduled c (withEffects _ s1)) with (scheduled c s1).
    change (effects s1) with (effects s) in Hr1. rewrite Hn1. lia.
  - rewrite Hn2, Nat.add_0_r. exact Hl.
Qed.

Lemma close_ok c s t :
  rinv s -> agrees c s t -> rinv (closeReconnect s) /\ agrees c (closeReconnect s) (track c t CloseReconnect).
Proof.
  intros Hi (Hc & Hg & Hu & Hr & Hl). unfold closeReconnect.
  set (s1 := foldl _ s _).
  assert (generations s1 = generations s /\ effects s1 = effects s) as [Hgen Heff].
  { unfold s1. generalize (mvals (recoveries s)). intros l. clear. revert s.
    induction l as [|r l IH]; intros s; cbn [foldl]; [done|].
    destruct (IH (cancelRecovery (Some r) s)) as [-> ->].
    destruct (cancel_fields (Some r) s) as (_ & _ & _ & ? & ?). done. }
  assert (forall tm, mget tm (timers s1) = None) as Htm.
  { intros tm. unfold s1. rewrite cancel_all. case_bool_decide as Hin; [done|].
    destruct (mget tm (timers s)) as [c'|] eqn:E; [|done]. destruct Hin.
    apply (ri_pending _ Hi), mget_elem in E. apply list_elem_of_fmap. by exists (c', Usable (Some tm)). }
  split.
  - split; simpl; [|intros tm; rewrite Htm; by intros [? ?]|done|apply NoDup_nil_2].
    intros tm c'. rewrite Htm. done.
  - unfold agrees. simpl. rewrite Hgen, Heff. unfold scheduled. simpl. split_and!; try done. lia.
Qed.

Lemma observe_ok c c' g s t :
  rinv s -> agrees c s t ->
  rinv (observeGeneration c' g s) /\ agrees c (observeGeneration c' g s) (track c t (ObserveGeneration c' g)).
Proof.
  intros Hi (Hc & Hg & Hu & Hr & Hl). unfold observeGeneration. set (s1 := Build_ThreadSyncReconnect _ _ _ _ _ _).
  assert (rinv s1) as Hi1 by by apply (rinv_fields s).
  assert (mget c (generations s1) = if bool_decide (c' = c) then Some g else tr_generation t) as Hg1.
  { simpl. rewrite mget_mset. case_bool_decide; [done|by rewrite Hg]. }
  change (closed s1) with (closed s). change (recoveries s1) with (recoveries s).
  set (skip := closed s || _ || _ || _). cbn [track].
  assert (c' = c -> negb skip = negb (tr_closed t) && bool_decide (is_Some (tr_generation t))
            && negb (bool_decide (tr_generation t = Some g)) && bool_decide (tr_usable t = Some true)) as Hskip.
  { intros ->. unfold skip. rewrite Hc, Hg, Hu, !negb_orb, negb_involutive.
    replace (negb (bool_decide (tr_generation t = None))) with (bool_decide (is_Some (tr_generation t)))
      by (by destruct (tr_generation t)).
    f_equal. by destruct (mget c (recoveries s)) as [[|]|]. }
  destruct skip eqn:Eskip.
  - split; [done|]. destruct (decide (c' = c)) as [Hcc|Hcc].
    + rewrite (bool_decide_true (c' = c)), <- (Hskip Hcc) by done. unfold agrees.
      rewrite Hg1, bool_decide_true by done.
      cbn [negb tr_closed tr_generation tr_usable tr_recovered tr_lost]. by split_and!.
    + rewrite (bool_decide_false (c' = c)) by done. unfold agrees.
      rewrite Hg1, bool_decide_false by done. by split_and!.
  - assert (closed s = false /\ sameStatus (mget c' (recoveries s)) true = true) as [Hcl Hst].
    { unfold skip in Eskip. apply orb_false_iff in Eskip as [Eskip Hs].
      apply negb_false_iff in Hs. by destruct (closed s). }
    split; [by apply rinv_schedule|].
    destruct (schedule_agrees c c' s1) as (Hrec & Hgen & Hclo & Heff & Hsch).
    unfold agrees. rewrite Hclo, Hgen, Heff, Hrec, Hsch, Hg1, mget_mset.
    destruct (decide (c' = c)) as [Hcc|Hcc].
    + rewrite !(bool_decide_true (c' = c)), <- (Hskip Hcc) by done.
      cbn [negb tr_closed tr_generation tr_usable tr_recovered tr_lost].
      change (effects s1) with (effects s). split_and!; [done|done| |lia|done].
      rewrite Hu. rewrite Hcc in Hst. by destruct (mget c (recoveries s)) as [[|]|].
    + rewrite !(bool_decide_false (c' = c)) by done. by split_and!.
Qed.

Lemma step_ok c e s t :
  rinv s -> agrees c s t -> rinv (reconnectStep s e) /\ agrees c (reconnectStep s e) (track c t e).
Proof.
  intros Hi Ha. destruct e; simpl.
  - by apply accept_ok.
  - by apply fire_ok.
  - by apply close_ok.
  - by apply observe_ok.
Qed.

Lemma reconnect_runs c es :
  let s := foldl reconnectStep createThreadSyncReconnect es in rinv s /\ agrees c s (tracked c es).
Proof.
  unfold tracked. assert (rinv createThreadSyncReconnect /\ agrees c createThreadSyncReconnect untracked) as H.
  { split; [apply rinv_initial|]. by split_and!. }
  revert H. generalize createThreadSyncReconnect untracked.
  induction es as [|e es IH]; intros s t [Hi Ha]; simpl; [done|]. apply IH. by apply step_ok.
Qed.

(** A reconnect is repaired at most once per recovery: over any events,
    repairs done and scheduled never exceed the times the connection's RPC
    became usable (or its socket generation changed while usable), losses
    invalidate the history reads once each, a repair is scheduled only while
    the connection is usable and the owner open, and only once; and when the
    timer fires for a connection whose current row is usable, it repairs it,
    re-reading the desired thread and the visible catalog. *)
Theorem repaired_once c es :
  let s := foldl reconnectStep createThreadSyncReconnect es in
  let t := tracked c es in
  count (isRepairOf c) (effects s) + scheduled c s <= tr_recovered t /\
  count (isLossOf c) (effects s) = tr_lost t /\
  (forall tm, mget tm (timers s) = Some c ->
     tr_usable t = Some true /\ tr_closed t = false /\ scheduled c s = 1 /\
     (forall tm', mget tm' (timers s) = Some c -> tm' = tm) /\
     forall row desired, recoveryUsable row = true ->
       effects (fire tm (Some row) desired s) = effects s ++ repair c desired /\
       scheduled c (fire tm (Some row) desired s) = 0) /\
  (scheduled c s = 1 -> exists tm, mget tm (timers s) = Some c).
Proof.
  intros s t. destruct (reconnect_runs c es) as [Hi (Hc & Hg & Hu & Hr & Hl)]. fold s t in Hi, Hc, Hg, Hu, Hr, Hl.
  split; [done|]. split; [done|]. split.
  - intros tm Htm. pose proof Htm as Hrec. apply (ri_pending _ Hi) in Hrec.
    assert (closed s = false) as Hcl.
    { destruct (closed s) eqn:E; [|done]. rewrite (ri_closed _ Hi E) in Hrec. done. }
    rewrite Hu, Hrec, <- Hc. unfold scheduled at 1. rewrite Hrec. split_and!; [done|done|done| |].
    + intros tm' Htm'%(ri_pending _ Hi). congruence.
    + intros row desired Hrow. unfold fire. rewrite Htm, Hrec, bool_decide_true by done. simpl.
      unfold recoveryUsable in Hrow. apply andb_true_iff in Hrow as [H1 H2].
      rewrite Hcl, H1, H2. simpl. split; [done|]. unfold scheduled. simpl. by rewrite mget_mset_eq.
  - unfold scheduled. destruct (mget c (recoveries s)) as [[|[tm|]]|] eqn:E; try done.
    intros _. exists tm. by apply (ri_pending _ Hi).
Qed.

Definition demo_usable : ConnectionStateRow :=
  {| row_connectionId := js "a"; row_enabled := true; row_id := js "a"; lastError := None;
     lastErrorAt := None; rpcAvailable := true; row_state := Live |}.

(** Two generations within the stability window: one repair. *)
Example superseded_timer_never_fires :
  count (isRepairOf (js "a")) (effects (foldl reconnectStep createThreadSyncReconnect
    [ObserveGeneration (js "a") 1; Accept demo_usable; ObserveGeneration (js "a") 2;
     Fire 0 (Some demo_usable) None; Fire 1 (Some demo_usable) None])) = 1.
Proof. vm_compute. reflexivity. Qed.
