(* ===== verification/RenderWindow.v ===== *)
(** * The render window of a turn

    Models apps/android/src/rendering/thread-render-window.ts: which items of a
    turn become rich UI and where each of them is drawn.  A turn and its items
    are the wire objects; [-1] and [Infinity] for a missing index are [None]. *)
From S2P Require Import Prelude Indexes JsMap Json ThreadItems.

Local Open Scope nat_scope.

Definition LIVE_ACTIVITY_WINDOW : Z := 16.

Record TurnRenderWindow :=
  { collapsedActivityIndexes : list nat; latestAgentIndex : option nat;
    leadCompactionIndexes : list nat; liveActivityIndexes : list nat;
    preTurnActivityIndexes : list nat; userItemIndexes : list nat }.

(** ** The tests on one item *)

Definition isTaskNotificationItem (item : json) : bool := isType "codewideTaskNotification" item.

Definition isQuestionMessage (item : json) : bool :=
  isType "agentMessage" item && isStr (field "delivery" item) "async"
  && (0 <? length (arrField "questions" item)).

Definition isTurnActivityItem (item : json) : bool :=
  negb (isType "userMessage" item) && negb (isType "contextCompaction" item)
  && negb (isQuestionMessage item) && negb (isTaskNotificationItem item).

(** [item.text.trim() === ""]. *)
Definition blankText (item : json) : bool := bool_decide (trim (strField "text" item) = []).

Definition isBlankAgentMessage (item : json) : bool := isType "agentMessage" item && blankText item.
Definition isProjectedPreTurn (item : json) : bool := projectedPreTurn item.

Definition turnItems (turn : json) : list json := arrField "items" turn.
Definition turnInProgress (turn : json) : bool := isStr (field "status" turn) "inProgress".

Definition isAgentMessageStillStreaming (turn : json) (itemId : jstr) : bool :=
  if negb (turnInProgress turn) then false
  else
    match findIndex (fun item => bool_decide (field "id" item = Some (JStr itemId))
                                 && isType "agentMessage" item) (turnItems turn) with
    | None => false
    | Some itemIndex =>
        match turnItems turn !! itemIndex with
        | Some item =>
            if isType "agentMessage" item && isStr (field "delivery" item) "async" then false
            else negb (existsb (fun item => negb (isType "userMessage" item))
                         (drop (S itemIndex) (turnItems turn)))
        | None => false
        end
    end.

(** ** Hidden placeholders *)

Definition isPlaceholder (placeholderId : jstr) (item : json) : bool :=
  isType "agentMessage" item && bool_decide (field "id" item = Some (JStr placeholderId)).

(** The turn's canonical agent message stands for the placeholder. *)
Definition canonicalMatch (placeholderId : jstr) (placeholder item : json) : bool :=
  isType "agentMessage" item && negb (isStr (field "delivery" item) "async")
  && negb (bool_decide (field "id" item = Some (JStr placeholderId)))
  && (sameField "text" item placeholder
      || (isStr (field "phase" item) "final_answer"
          && isStr (field "phase" placeholder) "final_answer")).

Definition matchingAgentPlaceholderIndexes (turn : json) : list nat :=
  let placeholderId := strField "id" turn ++ js ":agent" in
  match findIndex (isPlaceholder placeholderId) (turnItems turn) with
  | None => []
  | Some placeholderIndex =>
      match turnItems turn !! placeholderIndex with
      | Some placeholder =>
          if existsb (fun e => negb (e.1 =? placeholderIndex)
                               && canonicalMatch placeholderId placeholder e.2)
               (imap pair (turnItems turn))
          then [placeholderIndex] else []
      | None => []
      end
  end.

(** ** The first pass *)

Record Scan :=
  { sc_user : list nat; sc_agent : option nat; sc_final : option nat; sc_nonUser : option nat }.

Definition scanItem (hidden : list nat) (st : Scan) (e : nat * json) : Scan :=
  let '(index, item) := e in
  if isType "userMessage" item then
    {| sc_user := sc_user st ++ [index]; sc_agent := sc_agent st; sc_final := sc_final st;
       sc_nonUser := sc_nonUser st |}
  else if isType "contextCompaction" item then
    {| sc_user := sc_user st; sc_agent := sc_agent st; sc_final := sc_final st;
       sc_nonUser := Some index |}
  else if isTurnActivityItem item && negb (bool_decide (index ∈ hidden)) then
    let speaks := isType "agentMessage" item && negb (blankText item) in
    {| sc_user := sc_user st;
       sc_agent := if speaks then Some index else sc_agent st;
       sc_final := if speaks && isStr (field "phase" item) "final_answer"
                   then Some index else sc_final st;
       sc_nonUser := Some index |}
  else st.

Definition scanItems (hidden : list nat) (items : list json) : Scan :=
  foldl (scanItem hidden) {| sc_user := []; sc_agent := None; sc_final := None; sc_nonUser := None |}
    (imap pair items).

(** ** The second pass: what is materialized *)

Definition materializes (inProgress : bool) (hidden : list nat) (newest : option nat)
    (e : nat * json) : bool :=
  let '(index, item) := e in
  negb (bool_decide (index ∈ hidden)) && isTurnActivityItem item
  && negb (isType "reasoning" item && (negb inProgress || negb (bool_decide (newest = Some index)))).

(** [index < (indexes[0] ?? Infinity)]. *)
Definition before (index : nat) (first : option nat) : bool :=
  match first with Some first => index <? first | None => true end.

(** The tests [turn.items[index]] makes on an index of the turn. *)
Definition itemAt (turn : json) (p : json -> bool) (index : nat) : bool :=
  from_option p false (turnItems turn !! index).

Definition splitCompactions (turn : json) (responseIndexes : list nat) (hasUserBoundary : bool)
    : list nat * list nat :=
  let lead e :=
    before e.1 (head responseIndexes) || (hasUserBoundary && isProjectedPreTurn e.2) in
  let compaction e := isType "contextCompaction" e.2 in
  (indexesOf (fun e => compaction e && lead e) (turnItems turn),
   indexesOf (fun e => compaction e && negb (lead e)) (turnItems turn)).

Definition selectTurnRenderWindow (turn : json) (liveActivityLimit : Z) : TurnRenderWindow :=
  let items := turnItems turn in
  let hidden := matchingAgentPlaceholderIndexes turn in
  let running := turnInProgress turn in
  let scan := scanItems hidden items in
  let latestAgent :=
    if negb running && bool_decide (is_Some (sc_final scan)) then sc_final scan else sc_agent scan in
  let materialized :=
    indexesOf (materializes running hidden (sc_nonUser scan)) items in
  let firstUser := head (sc_user scan) in
  let preTurn :=
    match sc_user scan with
    | [] => []
    | _ =>
        filter (fun index =>
          itemAt turn (fun item => negb (isType "agentMessage" item)
                                   && (before index firstUser || isProjectedPreTurn item)) index)
          materialized
    end in
  let separated index := bool_decide (index ∈ preTurn) in
  let '(lead, work) :=
    splitCompactions turn
      (if running then
         filter (fun index => negb (separated index) && negb (itemAt turn isBlankAgentMessage index))
           materialized
       else [])
      (bool_decide (sc_user scan <> [])) in
  if negb running then
    {| collapsedActivityIndexes :=
         filter (fun index => negb (bool_decide (latestAgent = Some index)) && negb (separated index))
           materialized;
       latestAgentIndex := latestAgent; leadCompactionIndexes := lead; liveActivityIndexes := [];
       preTurnActivityIndexes := preTurn; userItemIndexes := sc_user scan |}
  else
    let agents :=
      filter (fun index =>
        negb (separated index)
        && itemAt turn (fun item => isType "agentMessage" item && negb (blankText item)) index)
        materialized in
    let activity :=
      sortNat
        (filter (fun index => negb (itemAt turn (isType "agentMessage") index)
                              && negb (separated index)) materialized ++ work) in
    let liveCount := Z.to_nat (Z.max 0 (Z.min liveActivityLimit (Z.of_nat (length activity)))) in
    let live := sortNat (agents ++ (if liveCount =? 0 then [] else slice_last liveCount activity)) in
    {| collapsedActivityIndexes := filter (fun index => negb (bool_decide (index ∈ live))) activity;
       latestAgentIndex := latestAgent; leadCompactionIndexes := lead; liveActivityIndexes := live;
       preTurnActivityIndexes := preTurn; userItemIndexes := sc_user scan |}.

(** ** What the window is meant to draw *)

(** Work a running turn may still be thinking before. *)
Definition isWork (hidden : list nat) (e : nat * json) : bool :=
  isType "contextCompaction" e.2 || (isTurnActivityItem e.2 && negb (bool_decide (e.1 ∈ hidden))).

Definition speaks (hidden : list nat) (e : nat * json) : bool :=
  isTurnActivityItem e.2 && negb (bool_decide (e.1 ∈ hidden))
  && isType "agentMessage" e.2 && negb (blankText e.2).

Definition newestWork (turn : json) (i : nat) : Prop :=
  forall j x, i < j -> turnItems turn !! j = Some x ->
              isWork (matchingAgentPlaceholderIndexes turn) (j, x) = false.

(** The items that are drawn: every user message and compaction, and the turn
    activity that is not a replaced placeholder, except thinking that is over
    and, while the turn runs, agent messages with no text yet. *)
Definition drawn (turn : json) (i : nat) (item : json) : Prop :=
  isType "userMessage" item = true \/ isType "contextCompaction" item = true
  \/ (isTurnActivityItem item = true /\ (i ∉ matchingAgentPlaceholderIndexes turn)
      /\ (isType "reasoning" item = true -> turnInProgress turn = true /\ newestWork turn i)
      /\ (turnInProgress turn = true -> isBlankAgentMessage item = false)).

(** The places of a window. *)
Definition places (turn : json) (w : TurnRenderWindow) : list nat :=
  userItemIndexes w ++ leadCompactionIndexes w ++ preTurnActivityIndexes w
  ++ collapsedActivityIndexes w ++ liveActivityIndexes w
  ++ (if turnInProgress turn then [] else option_list (latestAgentIndex w)).

(** ** The first pass *)

Lemma isType_excl t t' item : js t <> js t' -> isType t item = true -> isType t' item = false.
Proof. intros Hne Ht. by eapply isStr_excl. Qed.

Lemma scan_snoc hidden items x :
  scanItems hidden (items ++ [x])
  = scanItem hidden (scanItems hidden items) (length items, x).
Proof. unfold scanItems. rewrite imap_app, foldl_app. simpl. by rewrite Nat.add_0_r. Qed.

Lemma scan_spec hidden items :
  scanItems hidden items =
  {| sc_user := indexesOf (fun e => isType "userMessage" e.2) items;
     sc_agent := last (indexesOf (speaks hidden) items);
     sc_final := last (indexesOf (fun e => speaks hidden e
                                  && (isStr (field "phase" e.2) "final_answer")) items);
     sc_nonUser := last (indexesOf (isWork hidden) items) |}.
Proof.
  induction items as [|x items IH] using rev_ind; [done|].
  rewrite scan_snoc, !indexesOf_snoc, IH. unfold scanItem, isWork, speaks, isTurnActivityItem. simpl.
  destruct (isType "userMessage" x) eqn:Hu; simpl.
  { rewrite (isType_excl "userMessage" "contextCompaction") by done. simpl. by rewrite !app_nil_r. }
  destruct (isType "contextCompaction" x) eqn:Hc; simpl.
  { rewrite !app_nil_r. f_equal. by rewrite last_snoc. }
  destruct (negb (isQuestionMessage x) && negb (isTaskNotificationItem x)) eqn:Ha; simpl;
    [|by rewrite !app_nil_r].
  destruct (bool_decide (length items ∈ hidden)); simpl; [by rewrite !app_nil_r|].
  rewrite last_snoc. destruct (isType "agentMessage" x && negb (blankText x)); simpl;
    rewrite ?last_snoc, ?app_nil_r; [|done].
  destruct (isStr (field "phase" x) "final_answer"); by rewrite ?last_snoc, ?app_nil_r.
Qed.

(** ** The lists of the window, as tests on the items *)

Section window.
Context (turn : json).
Let items := turnItems turn.
Let hidden := matchingAgentPlaceholderIndexes turn.
Let running := turnInProgress turn.

Definition wMat : nat * json -> bool :=
  materializes running hidden (last (indexesOf (isWork hidden) items)).

Definition wUser : list nat := indexesOf (fun e => isType "userMessage" e.2) items.

Definition wPre (e : nat * json) : bool :=
  wMat e && (bool_decide (wUser <> []) && negb (isType "agentMessage" e.2)
             && (before e.1 (head wUser) || isProjectedPreTurn e.2)).

Definition wResponse : list nat :=
  if running then indexesOf (fun e => wMat e && (negb (wPre e) && negb (isBlankAgentMessage e.2))) items
  else [].

Definition wLead (e : nat * json) : bool :=
  isType "contextCompaction" e.2
  && (before e.1 (head wResponse) || (bool_decide (wUser <> []) && isProjectedPreTurn e.2)).
Definition wWork (e : nat * json) : bool :=
  isType "contextCompaction" e.2
  && negb (before e.1 (head wResponse) || (bool_decide (wUser <> []) && isProjectedPreTurn e.2)).

Definition wAgent (e : nat * json) : bool :=
  wMat e && (negb (wPre e) && (isType "agentMessage" e.2 && negb (blankText e.2))).
Definition wTool (e : nat * json) : bool :=
  wMat e && (negb (isType "agentMessage" e.2) && negb (wPre e)).

Definition wLatest : option nat :=
  let final := last (indexesOf (fun e => speaks hidden e
                                  && (isStr (field "phase" e.2) "final_answer")) items) in
  if negb running && bool_decide (is_Some final) then final
  else last (indexesOf (speaks hidden) items).

Definition wActivity : list nat := sortNat (indexesOf wTool items ++ indexesOf wWork items).
Definition wCount (limit : Z) : nat :=
  Z.to_nat (Z.max 0 (Z.min limit (Z.of_nat (length wActivity)))).

Lemma itemAt_eq p i x : items !! i = Some x -> itemAt turn p i = p x.
Proof. unfold itemAt. fold items. by intros ->. Qed.

Lemma preTurn_eq :
  match wUser with
  | [] => []
  | _ =>
      filter (fun index =>
        itemAt turn (fun item => negb (isType "agentMessage" item)
                                 && (before index (head wUser) || isProjectedPreTurn item)) index)
        (indexesOf wMat items)
  end = indexesOf wPre items.
Proof.
  unfold wPre. destruct wUser as [|u us] eqn:E.
  - symmetry. apply indexesOf_none. intros. rewrite andb_false_r. done.
  - rewrite filter_indexesOf. apply indexesOf_ext. intros i x Hx. simpl.
    by rewrite (itemAt_eq _ _ _ Hx).
Qed.

Lemma separated_eq i x :
  items !! i = Some x -> bool_decide (i ∈ indexesOf wPre items) = wPre (i, x).
Proof. apply mem_indexesOf. Qed.

(** A list of positions cut down by a test that the item at each of them decides. *)
Lemma cut_mat (q : nat -> bool) (p : nat * json -> bool) :
  (forall i x, items !! i = Some x -> q i = p (i, x)) ->
  filter (fun i => q i) (indexesOf wMat items) = indexesOf (fun e => wMat e && p e) items.
Proof.
  intros H. rewrite filter_indexesOf. apply indexesOf_ext. intros i x Hx. simpl. by rewrite (H i x).
Qed.

Lemma window_running limit :
  running = true ->
  let tail := if (wCount limit =? 0)%nat then [] else slice_last (wCount limit) wActivity in
  let live := sortNat (indexesOf wAgent items ++ tail) in
  selectTurnRenderWindow turn limit =
  {| collapsedActivityIndexes := filter (fun i => negb (bool_decide (i ∈ live))) wActivity;
     latestAgentIndex := wLatest; leadCompactionIndexes := indexesOf wLead items;
     liveActivityIndexes := live; preTurnActivityIndexes := indexesOf wPre items;
     userItemIndexes := wUser |}.
Proof.
  intros Hrun. unfold selectTurnRenderWindow, splitCompactions. fold items hidden running.
  rewrite scan_spec. cbn [sc_user sc_agent sc_final sc_nonUser].
  fold wMat wUser. rewrite preTurn_eq. rewrite Hrun. cbn [negb andb].
  rewrite (cut_mat (fun i => negb (bool_decide (i ∈ indexesOf wPre items)) && negb (itemAt turn isBlankAgentMessage i))
             (fun e => negb (wPre e) && negb (isBlankAgentMessage e.2)))
    by (intros i x Hx; by rewrite (separated_eq _ _ Hx), (itemAt_eq _ _ _ Hx)).
  rewrite (cut_mat (fun i => negb (bool_decide (i ∈ indexesOf wPre items)) && itemAt turn (fun item => isType "agentMessage" item && negb (blankText item)) i)
             (fun e => negb (wPre e) && (isType "agentMessage" e.2 && negb (blankText e.2))))
    by (intros i x Hx; by rewrite (separated_eq _ _ Hx), (itemAt_eq _ _ _ Hx)).
  rewrite (cut_mat (fun i => negb (itemAt turn (isType "agentMessage") i) && negb (bool_decide (i ∈ indexesOf wPre items)))
             (fun e => negb (isType "agentMessage" e.2) && negb (wPre e)))
    by (intros i x Hx; by rewrite (separated_eq _ _ Hx), (itemAt_eq _ _ _ Hx)).
  unfold wLatest, wCount, wActivity, wTool, wWork, wLead, wAgent, wResponse. rewrite Hrun. done.
Qed.

Lemma window_finished limit :
  running = false ->
  selectTurnRenderWindow turn limit =
  {| collapsedActivityIndexes :=
       indexesOf (fun e => wMat e && (negb (bool_decide (wLatest = Some e.1)) && negb (wPre e))) items;
     latestAgentIndex := wLatest; leadCompactionIndexes := indexesOf wLead items;
     liveActivityIndexes := []; preTurnActivityIndexes := indexesOf wPre items;
     userItemIndexes := wUser |}.
Proof.
  intros Hrun. unfold selectTurnRenderWindow, splitCompactions. fold items hidden running.
  rewrite scan_spec. cbn [sc_user sc_agent sc_final sc_nonUser].
  fold wMat wUser. rewrite preTurn_eq. rewrite Hrun. cbn [negb andb].
  unfold wLead, wResponse, wLatest. rewrite Hrun. f_equal.
  apply cut_mat. intros i x Hx. by rewrite (separated_eq _ _ Hx).
Qed.

End window.

(** ** The places of a window *)

#[local] Arguments wMat : simpl never.

Section partition.
Context (turn : json) (limit : Z).
Let items := turnItems turn.
Let hidden := matchingAgentPlaceholderIndexes turn.
Let running := turnInProgress turn.

Lemma mat_spec i x :
  items !! i = Some x ->
  wMat turn (i, x) = true <->
  isTurnActivityItem x = true /\ (i ∉ hidden)
  /\ (isType "reasoning" x = true -> running = true /\ newestWork turn i).
Proof.
  intros Hx. unfold wMat, materializes. fold items hidden running.
  rewrite !andb_true_iff, !negb_true_iff, bool_decide_eq_false, andb_false_iff, orb_false_iff,
    !negb_false_iff, bool_decide_eq_true.
  destruct (isType "reasoning" x) eqn:Hr; [|naive_solver congruence].
  split.
  - intros ((? & ?) & [?|[? Hlast]]); [done|]. split_and!; [done..|]. intros _. split; [done|].
    intros j y Hj Hy. by apply (proj2 (proj1 (last_indexesOf _ _ _) Hlast) j y).
  - intros (Ha & Hh & Hn). destruct (Hn eq_refl) as [? Hnew]. split_and!; [done..|]. right.
    split; [done|]. apply last_indexesOf. split; [|by intros j y; apply Hnew].
    exists x. split; [done|]. unfold isWork. simpl. rewrite Ha, bool_decide_false by done.
    by rewrite orb_true_r.
Qed.

Lemma mat_activity i x : wMat turn (i, x) = true -> isTurnActivityItem x = true.
Proof. unfold wMat, materializes. intros. bool_prop. done. Qed.

Lemma activity_kind x :
  isTurnActivityItem x = true ->
  isType "userMessage" x = false /\ isType "contextCompaction" x = false.
Proof. unfold isTurnActivityItem. intros. bool_prop. done. Qed.

Definition drawnb (e : nat * json) : bool :=
  isType "userMessage" e.2 || (isType "contextCompaction" e.2
  || (wMat turn e && negb (running && isBlankAgentMessage e.2))).

Lemma drawnb_spec i x : items !! i = Some x -> drawnb (i, x) = true <-> drawn turn i x.
Proof.
  intros Hx. unfold drawnb, drawn. simpl.
  rewrite !orb_true_iff, andb_true_iff, (mat_spec i x Hx), negb_true_iff, andb_false_iff.
  fold running hidden. destruct running, (isBlankAgentMessage x); naive_solver congruence.
Qed.

(** While the turn runs, the older work is collapsed and the newest is live. *)
Lemma running_cut :
  running = true ->
  let w := selectTurnRenderWindow turn limit in
  let k := length (wActivity turn) - wCount turn limit in
  collapsedActivityIndexes w = take k (wActivity turn)
  /\ liveActivityIndexes w
     = sortNat (indexesOf (wAgent turn) items ++ drop k (wActivity turn))
  /\ ascending (wActivity turn)
  /\ NoDup (indexesOf (wAgent turn) items ++ wActivity turn).
Proof.
  intros Hrun w k. subst w. rewrite (window_running turn limit Hrun). simpl.
  assert (Htail : (if wCount turn limit =? 0 then [] else slice_last (wCount turn limit) (wActivity turn))
                  = drop k (wActivity turn)).
  { unfold slice_last, k. destruct (Nat.eqb_spec (wCount turn limit) 0) as [->|]; [|done].
    by rewrite Nat.sub_0_r, drop_all. }
  rewrite Htail.
  assert (Hnd : NoDup (indexesOf (wAgent turn) items ++ wActivity turn)).
  { unfold wActivity. rewrite sortNat_perm. fold items. rewrite <- !indexesOf_or.
    - apply ascending_NoDup, ascending_indexesOf.
    - intros i x _. unfold wTool, wWork, wAgent, wMat. simpl. intros Ha. bool_prop.
      unfold materializes in *. bool_prop.
      match goal with H : isTurnActivityItem x = true |- _ => apply activity_kind in H as [_ ->] end.
      match goal with H : isType "agentMessage" x = true |- _ => rewrite H end.
      by rewrite andb_false_r.
    - intros i x _. unfold wTool, wWork, wMat, materializes. simpl. intros Ha. bool_prop.
      match goal with H : isTurnActivityItem x = true |- _ => apply activity_kind in H as [_ ->] end.
      done. }
  pose proof Hnd as (_ & Hdis & Hnda)%NoDup_app.
  split_and!; [by apply filter_cut_tail|done| |done].
  apply sortNat_ascending. by rewrite <- (sortNat_perm (_ ++ _)).
Qed.

Lemma compactions_split :
  indexesOf (fun e => isType "contextCompaction" e.2) items
  ≡ₚ indexesOf (wLead turn) items ++ indexesOf (wWork turn) items.
Proof.
  rewrite <- indexesOf_or.
  - apply reflexive_eq, indexesOf_ext. intros i x _. unfold wLead, wWork. simpl.
    by destruct (isType _ x), (before _ _ || _).
  - intros i x _. unfold wLead, wWork. simpl. intros H. bool_prop.
    match goal with H : _ || _ = true |- _ => rewrite H end. by rewrite andb_false_r.
Qed.

Lemma drawn_split :
  indexesOf drawnb items
  ≡ₚ wUser turn ++ (indexesOf (wLead turn) items ++ indexesOf (wWork turn) items)
     ++ indexesOf (fun e => wMat turn e && negb (running && isBlankAgentMessage e.2)) items.
Proof.
  rewrite <- compactions_split. unfold wUser, drawnb. fold items. rewrite <- !indexesOf_or; [done|..].
  - intros i x _ Hu. simpl in *. rewrite (isType_excl "userMessage" "contextCompaction") by done. simpl.
    apply not_true_iff_false. intros [Hm _]%andb_true_iff.
    apply mat_activity, activity_kind in Hm as [? _]. congruence.
  - intros i x _ Hc. simpl in *. apply not_true_iff_false. intros [Hm _]%andb_true_iff.
    apply mat_activity, activity_kind in Hm as [_ ?]. congruence.
Qed.

(** Blank agent messages are agent messages, and pre-turn work is not one. *)
Lemma running_split :
  running = true ->
  indexesOf (fun e => wMat turn e && negb (running && isBlankAgentMessage e.2)) items
  ≡ₚ indexesOf (wPre turn) items ++ indexesOf (wAgent turn) items ++ indexesOf (wTool turn) items.
Proof.
  intros Hrun. rewrite Hrun. rewrite <- !indexesOf_or.
  - apply reflexive_eq, indexesOf_ext. intros i x _. unfold wAgent, wTool, isBlankAgentMessage.
    destruct (wPre turn (i, x)) eqn:Hp; simpl.
    + unfold wPre in Hp. simpl in Hp. bool_prop.
      repeat match goal with H : _ = _ |- _ => rewrite H; clear H end. done.
    + by destruct (wMat turn (i, x)), (isType "agentMessage" x), (blankText x).
  - intros i x _ Hp. unfold wAgent, wTool. rewrite Hp. simpl. by rewrite !andb_false_r.
  - intros i x _ Ha. unfold wAgent, wTool in *. simpl in *. bool_prop.
    repeat match goal with H : _ = _ |- _ => rewrite H; clear H end. by rewrite ?andb_false_r.
Qed.

Lemma latest_spoken i :
  wLatest turn = Some i -> exists x, items !! i = Some x /\ speaks hidden (i, x) = true.
Proof.
  unfold wLatest. fold items hidden. intros H.
  destruct (negb _ && _); apply last_indexesOf, proj1 in H as (x & Hx & Hs); exists x;
    (split; [done|]); bool_prop; done.
Qed.

Lemma latest_mat i :
  wLatest turn = Some i ->
  exists x, items !! i = Some x /\ wMat turn (i, x) = true /\ wPre turn (i, x) = false.
Proof.
  intros (x & Hx & Hs)%latest_spoken. exists x. split; [done|].
  unfold speaks in Hs. simpl in Hs. bool_prop.
  assert (isType "reasoning" x = false) as Hr by (by apply (isType_excl "agentMessage")).
  split.
  - apply mat_spec; [done|]. split_and!; [done|done|]. rewrite Hr. done.
  - unfold wPre. simpl. match goal with H : isType "agentMessage" x = true |- _ => rewrite H end.
    by rewrite andb_false_r, andb_false_r.
Qed.

Lemma finished_split :
  running = false ->
  indexesOf (fun e => wMat turn e && negb (running && isBlankAgentMessage e.2)) items
  ≡ₚ indexesOf (wPre turn) items
     ++ indexesOf (fun e => wMat turn e && (negb (bool_decide (wLatest turn = Some e.1))
                                            && negb (wPre turn e))) items
     ++ option_list (wLatest turn).
Proof.
  intros Hrun. rewrite Hrun.
  assert (Hl : option_list (wLatest turn)
               = indexesOf (fun e => bool_decide (wLatest turn = Some e.1)) items).
  { destruct (wLatest turn) as [i|] eqn:E; simpl.
    - apply latest_mat in E as (x & Hx & _). rewrite <- (indexesOf_single items i x Hx).
      apply indexesOf_ext. intros j y _. apply bool_decide_ext. naive_solver.
    - symmetry. by apply indexesOf_none. }
  rewrite Hl. rewrite <- !indexesOf_or.
  - apply reflexive_eq, indexesOf_ext. intros i x Hx. simpl. rewrite andb_true_r.
    destruct (bool_decide _) eqn:E; simpl.
    + apply bool_decide_eq_true in E. apply latest_mat in E as (y & Hy & Hm & Hp).
      assert (y = x) as -> by congruence. by rewrite Hm, Hp.
    + destruct (wPre turn (i, x)) eqn:Hp; simpl; [|by rewrite andb_true_r, orb_false_r].
      unfold wPre in Hp. bool_prop. done.
  - intros i x Hx Hp. rewrite Hp. rewrite andb_false_r, andb_false_r. simpl.
    apply bool_decide_eq_false. intros (y & Hy & _ & Hn)%latest_mat. congruence.
  - intros i x _. simpl. destruct (bool_decide _); [|done]. by rewrite andb_false_r.
Qed.

Lemma places_perm :
  places turn (selectTurnRenderWindow turn limit) ≡ₚ indexesOf drawnb items.
Proof.
  rewrite drawn_split. assert (running = true \/ running = false) as [Hrun|Hrun]
    by (destruct running; auto).
  - destruct (running_cut Hrun) as (Hc & Hl & _).
    rewrite running_split by done. unfold places. fold running. rewrite Hrun.
    rewrite Hc, Hl, (window_running turn limit Hrun). simpl.
    rewrite sortNat_perm, app_nil_r, (Permutation_app_comm (take _ _)), <- (assoc_L (++)).
    rewrite (Permutation_app_comm (drop _ _)), take_drop. unfold wActivity. rewrite sortNat_perm.
    fold items. apply Permutation_app_head. rewrite <- !(assoc_L (++)). apply Permutation_app_head.
    rewrite (assoc_L (++) (indexesOf (wAgent turn) items)).
    rewrite (assoc_L (++) (indexesOf (wPre turn) items)).
    rewrite (Permutation_app_comm (indexesOf (wWork turn) items)). by rewrite <- !(assoc_L (++)).
  - rewrite finished_split by done. unfold places. fold running. rewrite Hrun.
    rewrite (window_finished turn limit Hrun). simpl.
    rewrite (indexesOf_none (wWork turn)), app_nil_r; [done|].
    intros i x _. unfold wWork, wResponse. fold running. rewrite Hrun. simpl. by rewrite andb_false_r.
Qed.
End partition.

(** ** Properties *)

(** Every item is drawn at one place at most, and an item has a place exactly
    when it is to be drawn: nothing that should be visible is lost between the
    lists of the window, and nothing appears in two of them. *)
Theorem window_partition turn limit :
  NoDup (places turn (selectTurnRenderWindow turn limit))
  /\ forall i, i ∈ places turn (selectTurnRenderWindow turn limit)
               <-> exists item, turnItems turn !! i = Some item /\ drawn turn i item.
Proof.
  rewrite places_perm. split; [apply ascending_NoDup, ascending_indexesOf|].
  intros i. rewrite places_perm, elem_of_indexesOf. split; intros (x & Hx & Hd); exists x;
    (split; [done|]); by apply (drawnb_spec turn i x Hx).
Qed.

Definition isAgentAt (turn : json) (i : nat) : bool := itemAt turn (isType "agentMessage") i.

Lemma activity_not_agent turn i : i ∈ wActivity turn -> isAgentAt turn i = false.
Proof.
  unfold wActivity. rewrite sortNat_perm, elem_of_app, !elem_of_indexesOf.
  unfold isAgentAt. intros [(x & Hx & Ht)|(x & Hx & Hw)]; rewrite (itemAt_eq _ _ _ _ Hx).
  - unfold wTool in Ht. bool_prop. done.
  - unfold wWork in Hw. simpl in Hw. bool_prop. by apply (isType_excl "contextCompaction").
Qed.

Lemma agent_is_agent turn i : i ∈ indexesOf (wAgent turn) (turnItems turn) -> isAgentAt turn i = true.
Proof.
  intros (x & Hx & Ha)%elem_of_indexesOf. unfold isAgentAt. rewrite (itemAt_eq _ _ _ _ Hx).
  unfold wAgent in Ha. bool_prop. done.
Qed.

(** While the turn runs, at most [limit] cards other than agent messages are
    live, they are the newest ones, and every agent message with text that is
    drawn is live; the lists are in wire order. *)
Theorem window_bounded turn limit :
  turnInProgress turn = true ->
  let w := selectTurnRenderWindow turn limit in
  let cards := filter (fun i => negb (isAgentAt turn i)) (liveActivityIndexes w) in
  (Z.of_nat (length cards) <= Z.max 0 limit)%Z
  /\ (forall c l, c ∈ collapsedActivityIndexes w -> l ∈ cards -> c < l)
  /\ (collapsedActivityIndexes w <> [] -> Z.of_nat (length cards) = Z.max 0 limit)
  /\ (forall i item, turnItems turn !! i = Some item -> isType "agentMessage" item = true ->
        drawn turn i item -> i ∈ liveActivityIndexes w)
  /\ ascending (liveActivityIndexes w) /\ ascending (collapsedActivityIndexes w).
Proof.
  intros Hrun w cards. destruct (running_cut turn limit Hrun) as (Hc & Hl & Ha & Hnd).
  subst cards. subst w. set (w := selectTurnRenderWindow turn limit) in *.
  set (k := length (wActivity turn) - wCount turn limit) in *.
  assert (Hcards : filter (fun i => negb (isAgentAt turn i)) (liveActivityIndexes w)
                   ≡ₚ drop k (wActivity turn)).
  { rewrite Hl, sortNat_perm, filter_app, filter_nothing, filter_all; [done|..].
    - intros i Hi. rewrite activity_not_agent; [done|]. rewrite <- (take_drop k). set_solver.
    - intros i Hi. by rewrite (agent_is_agent _ _ Hi). }
  assert (Hcount : Z.of_nat (length (drop k (wActivity turn)))
                   = Z.max 0 (Z.min limit (Z.of_nat (length (wActivity turn))))).
  { rewrite length_drop. unfold k, wCount. lia. }
  split_and!.
  - rewrite Hcards, Hcount. lia.
  - intros c l Hci Hli. rewrite Hcards in Hli. rewrite Hc in Hci.
    apply (ascending_app (take k (wActivity turn)) (drop k (wActivity turn))); [|done|done].
    by rewrite take_drop.
  - intros Hne. rewrite Hcards, Hcount.
    assert (k <> 0) by (intros Hk; rewrite Hc, Hk in Hne; done). unfold k, wCount in *. lia.
  - intros i x Hx Hag Hd. rewrite Hl, sortNat_perm, elem_of_app. left.
    apply elem_of_indexesOf. exists x. split; [done|].
    apply (drawnb_spec turn i x Hx) in Hd. unfold drawnb in Hd. simpl in Hd.
    rewrite Hrun, (isType_excl "agentMessage" "userMessage"),
      (isType_excl "agentMessage" "contextCompaction") in Hd by done. simpl in Hd. bool_prop.
    unfold wAgent. simpl. unfold isBlankAgentMessage in *. rewrite Hag in *. simpl in *.
    match goal with H : wMat turn (i, x) = true |- _ => rewrite H end.
    match goal with H : blankText x = false |- _ => rewrite H end.
    unfold wPre. simpl. rewrite Hag. simpl. by rewrite !andb_false_r.
  - rewrite Hl. apply sortNat_ascending. rewrite <- (take_drop k (wActivity turn)) in Hnd.
    rewrite (Permutation_app_comm (take _ _)), (assoc_L (++)) in Hnd.
    by apply NoDup_app in Hnd as [? _].
  - rewrite Hc. rewrite <- (take_drop k) in Ha. clear -Ha. revert Ha.
    generalize (take k (wActivity turn)), (drop k (wActivity turn)). intros l1 l2.
    apply ascending_app_1.
Qed.

(** The message that may still receive text is the last item but for user
    messages, so there is one at most, and it is the window's latest agent
    message as soon as it has text and stands for no placeholder. *)
Theorem streaming_is_latest turn limit itemId :
  isAgentMessageStillStreaming turn itemId = true ->
  exists i item,
    turnItems turn !! i = Some item /\ field "id" item = Some (JStr itemId)
    /\ isType "agentMessage" item = true
    /\ (forall j x, i < j -> turnItems turn !! j = Some x -> isType "userMessage" x = true)
    /\ (i ∉ matchingAgentPlaceholderIndexes turn -> blankText item = false ->
        latestAgentIndex (selectTurnRenderWindow turn limit) = Some i).
Proof.
  unfold isAgentMessageStillStreaming. destruct (turnInProgress turn) eqn:Hrun; [|done]. simpl.
  destruct (findIndex _ _) as [i|] eqn:Ei; [|done].
  apply findIndex_Some in Ei as (item & Hi & Hp & _). rewrite Hi.
  apply andb_true_iff in Hp as [Hid Hag]. apply bool_decide_eq_true in Hid. rewrite Hag. simpl.
  destruct (isStr (field "delivery" item) "async") eqn:Has; [done|]. intros Hlast.
  apply negb_true_iff in Hlast.
  assert (Husers : forall j x, i < j -> turnItems turn !! j = Some x -> isType "userMessage" x = true).
  { intros j x Hj Hx. apply not_false_iff_true. intros Hn.
    apply not_true_iff_false in Hlast. apply Hlast, existsb_elem. exists x. split; [|by rewrite Hn].
    apply list_elem_of_lookup. exists (j - S i). rewrite lookup_drop. by replace (S i + (j - S i)) with j by lia. }
  exists i, item. split_and!; [done..|]. intros Hh Hb.
  rewrite (window_running turn limit Hrun). simpl. unfold wLatest. rewrite Hrun. simpl.
  apply last_indexesOf. split.
  - exists item. split; [done|]. unfold speaks. simpl. rewrite Hag, Hb, bool_decide_false by done.
    unfold isTurnActivityItem, isQuestionMessage, isTaskNotificationItem.
    rewrite Has, Hag, (isType_excl "agentMessage" "userMessage"),
      (isType_excl "agentMessage" "contextCompaction"),
      (isType_excl "agentMessage" "codewideTaskNotification") by done. done.
  - intros j x Hj Hx. unfold speaks, isTurnActivityItem. simpl. by rewrite (Husers j x Hj Hx).
Qed.

(** ** Witnesses *)

Definition demo_item (id ty text : string) : json :=
  JObj [("id", JStr (js id)); ("type", JStr (js ty)); ("text", JStr (js text))].

Definition demo_running : json :=
  JObj [("id", JStr (js "t")); ("status", JStr (js "inProgress"));
        ("items", JArr [demo_item "r" "reasoning" ""; demo_item "c" "commandExecution" "";
                        demo_item "u" "userMessage" ""; demo_item "k" "contextCompaction" "";
                        demo_item "d" "commandExecution" ""; demo_item "k" "contextCompaction" "";
                        demo_item "e" "fileChange" ""; demo_item "a" "agentMessage" "Hi"])].

Example demo_window :
  selectTurnRenderWindow demo_running 2 =
  {| collapsedActivityIndexes := [4]; latestAgentIndex := Some 7; leadCompactionIndexes := [3];
     liveActivityIndexes := [5; 6; 7]; preTurnActivityIndexes := [1]; userItemIndexes := [2] |}.
Proof. vm_compute. reflexivity. Qed.

Lemma window_bounded_witness :
  liveActivityIndexes (selectTurnRenderWindow demo_running 1) = [6; 7]
  /\ (forall c l, c ∈ collapsedActivityIndexes (selectTurnRenderWindow demo_running 1) ->
        l ∈ filter (fun i => negb (isAgentAt demo_running i))
              (liveActivityIndexes (selectTurnRenderWindow demo_running 1)) -> c < l).
Proof.
  split; [vm_compute; reflexivity|].
  refine (proj1 (proj2 (window_bounded demo_running 1 _))). vm_compute. reflexivity.
Defined.

Lemma streaming_is_latest_witness :
  isAgentMessageStillStreaming demo_running (js "a") = true
  /\ exists i item, turnItems demo_running !! i = Some item
       /\ field "id" item = Some (JStr (js "a")).
Proof.
  split; [vm_compute; reflexivity|].
  destruct (streaming_is_latest demo_running 16 (js "a")) as (i & item & Hi & Hid & _).
  - vm_compute. reflexivity.
  - exists i, item. by split.
Defined.
