(* ===== verification/Renderers.v ===== *)
(** * Render blocks

    Models packages/renderers/src/registry.ts: the block every turn item is
    drawn as, and the bounded JSON text of structured payloads.  Payloads are
    wire values, hence trees: the [seen] set of [boundedJson] never holds a
    value that is visited again.  Item types are read as plain strings, so the
    lookup in the registry object also finds what the object inherits. *)
From S2P Require Import Prelude JsMap Json Readers Domain.
Import CommandOutput.

Local Open Scope nat_scope.

Definition ellipsis : jstr := [8230]%N.

Inductive RenderTone := Neutral | Info | Success | Warning | Danger.

Record RenderContentProjection :=
  { fields : list (string * CommandOutputReference); whole : option CommandOutputReference }.

Record RenderBlock :=
  { block_key : jstr; kind : jstr; title : jstr; body : option jstr; status : option jstr;
    durationMs : option jnum; tone : RenderTone; collapsible : bool; raw : json;
    content : option RenderContentProjection }.

(** What a renderer returns: a block without its identity. *)
Record RenderParts :=
  { p_title : jstr; p_body : option jstr; p_status : option jstr; p_durationMs : option jnum;
    p_tone : RenderTone; p_collapsible : bool }.

(** ** Bounded JSON *)

Record Budget := { chars : nat; nodes : nat }.

Definition spent (b : Budget) : bool := (chars b =? 0) || (nodes b =? 0).

(** A string under the budget. *)
Definition visitString (s : jstr) (b : Budget) : json * Budget :=
  let taken := Nat.min (length s) (chars b) in
  (if taken =? length s then JStr s else JStr (slice_to (taken - 1) s ++ ellipsis),
   {| chars := chars b - taken; nodes := nodes b |}).

(** The first elements of an array, and the entries of an object while the
    budget lasts; assigning ["__proto__"] makes no property of the copy. *)
Section children.
Context (visit : json -> Budget -> json * Budget).

Fixpoint visitElements (room : nat) (l : list json) (b : Budget) {struct l} : list json * Budget :=
  match l, room with
  | x :: l, S room =>
      let '(y, b) := visit x b in
      let '(ys, b) := visitElements room l b in (y :: ys, b)
  | _, _ => ([], b)
  end.

Fixpoint visitEntries (o : jobj) (b : Budget) : jobj * Budget :=
  match o with
  | (k, x) :: o =>
      if spent b then ([], b)
      else
        let '(y, b) := visit x b in
        let '(ys, b) := visitEntries o b in
        (if bool_decide (k = "__proto__"%string) then ys else (k, y) :: ys, b)
  | [] => ([], b)
  end.
End children.

Fixpoint visit (candidate : json) (depth : nat) (b : Budget) {struct candidate} : json * Budget :=
  if spent b then (JStr ellipsis, b)
  else
    let b := {| chars := chars b; nodes := nodes b - 1 |} in
    match candidate with
    | JStr s => visitString s b
    | JNull | JNum _ | JBool _ => (candidate, b)
    | JArr l =>
        if 10 <=? depth then (JStr ellipsis, b)
        else let '(l, b) := visitElements (fun x => visit x (S depth)) 100 l b in (JArr l, b)
    | JObj o =>
        if 10 <=? depth then (JStr ellipsis, b)
        else let '(o, b) := visitEntries (fun x => visit x (S depth)) o b in (JObj o, b)
    end.

(** [JSON.stringify(value, null, 2)]. *)
Definition newline (indent : nat) : jstr := [10%N] ++ replicate indent 32%N.

Fixpoint prettyJson (indent : nat) (v : json) : jstr :=
  match v with
  | JArr [] => js "[]"
  | JArr l =>
      js "[" ++ newline (indent + 2)
      ++ join (js "," ++ newline (indent + 2)) (map (prettyJson (indent + 2)) l)
      ++ newline indent ++ js "]"
  | JObj [] => js "{}"
  | JObj o =>
      js "{" ++ newline (indent + 2)
      ++ join (js "," ++ newline (indent + 2))
           (map (fun e => quote (js e.1) ++ js ": " ++ prettyJson (indent + 2) e.2) o)
      ++ newline indent ++ js "}"
  | _ => stringify v
  end.

Definition MAX_NODES : nat := 1000.
Definition MAX_BODY_CHARS : nat := 8 * 1024.

Definition boundedJson (value : json) (maxChars : nat) : jstr :=
  prettyJson 0 (visit value 0 {| chars := maxChars; nodes := MAX_NODES |}).1.

Definition compactJson (value : json) : jstr :=
  let serialized := boundedJson value MAX_BODY_CHARS in
  if MAX_BODY_CHARS <? length serialized then slice_to MAX_BODY_CHARS serialized ++ [10%N] ++ ellipsis else serialized.

(** ** The readers of a payload *)

Definition text (value : option json) : option jstr := asString value.
Definition number (value : option json) : option jnum :=
  match value with Some (JNum n) => Some n | _ => None end.

Definition statusTone (status : option jstr) : RenderTone :=
  match status with
  | None => Neutral
  | Some s =>
      if bool_decide (s = js "completed" \/ s = js "success") then Success
      else if bool_decide (s = js "failed" \/ s = js "declined" \/ s = js "error") then Danger
      else if bool_decide (s = js "inProgress" \/ s = js "running") then Info
      else Neutral
  end.

(** [value ?? fallback]. *)
Definition orElse (value : option json) (fallback : json) : json :=
  match value with None | Some JNull => fallback | Some v => v end.

Definition markdownFragments (value : option json) : option jstr :=
  entries ← asArray value;
  let fragments :=
    omap (fun entry => fragment ← asObject (Some entry); asString (oget "text" fragment)) entries in
  match fragments with [] => None | _ => Some (join [10; 10]%N fragments) end.

Definition spokenParts (value : option json) : list jstr :=
  filter (fun part => trim part <> []) (omap (fun part => asString (Some part)) (default [] (asArray value))).

Definition reasoningBody (payload : json) : option jstr :=
  match spokenParts (field "summary" payload) with
  | [] =>
      match spokenParts (field "content" payload) with
      | [] => None
      | parts => Some (join [10%N] parts)
      end
  | parts => Some (join [10%N] parts)
  end.

Definition contentReference (value : option json) : option CommandOutputReference := reference value.

Definition contentProjection (payload : json) : option RenderContentProjection :=
  metadata ← asObject (field "codewideContent" payload);
  if negb (isInt (oget "version" metadata) 1) then None
  else
    fieldsValue ← asObject (oget "fields" metadata);
    let fields :=
      omap (fun e => (fun r => (e.1, r)) <$> contentReference (Some e.2)) fieldsValue in
    let whole := contentReference (oget "whole" metadata) in
    match fields, whole with
    | [], None => None
    | _, _ => Some {| fields := fields; whole := whole |}
    end.

(** Argument names that identify what a tool looked at, in priority order. *)
Definition DYNAMIC_TOOL_PRIMARY_ARGUMENTS : list string := ["file_path"; "pattern"; "path"]%string.

Fixpoint primaryArgument (names : list string) (args : jobj) : option jstr :=
  match names with
  | [] => None
  | name :: names =>
      match asString (oget name args) with
      | Some value =>
          if bool_decide (trim value <> []) then Some (trim value) else primaryArgument names args
      | None => primaryArgument names args
      end
  end.

Definition dynamicToolTitle (payload : json) : jstr :=
  let tool := default (js "Dynamic tool") (text (field "tool" payload)) in
  match asObject (field "arguments" payload) with
  | None => tool
  | Some args =>
      match primaryArgument DYNAMIC_TOOL_PRIMARY_ARGUMENTS args with
      | Some value => tool ++ [32%N] ++ value
      | None => tool
      end
  end.

(** ** The registry *)

Definition middleDot : jstr := [32; 183; 32]%N.

Definition plainParts (title : string) (body : option jstr) (tone : RenderTone) (collapsible : bool)
    : RenderParts :=
  {| p_title := js title; p_body := body; p_status := None; p_durationMs := None; p_tone := tone;
     p_collapsible := collapsible |}.

Definition statusParts (title : jstr) (body : option jstr) (payload : json) (duration : option jnum)
    : RenderParts :=
  let status := text (field "status" payload) in
  {| p_title := title; p_body := body; p_status := status; p_durationMs := duration;
     p_tone := statusTone status; p_collapsible := true |}.

Definition or2 (a b : option json) (fallback : json) : json := orElse a (orElse b fallback).

(** The entries of the registry, by item type. *)
Definition renderRegistry : list (string * (json -> RenderParts)) :=
  [("userMessage", fun payload =>
      plainParts "You" (Some (compactJson (orElse (field "content" payload) (JArr [])))) Info false);
   ("hookPrompt", fun payload =>
      plainParts "Hook prompt" (markdownFragments (field "fragments" payload)) Warning true);
   ("agentMessage", fun payload =>
      {| p_title := js "Agent"; p_body := text (field "text" payload);
         p_status := text (field "phase" payload); p_durationMs := None; p_tone := Neutral;
         p_collapsible := false |});
   ("plan", fun payload => plainParts "Plan" (text (field "text" payload)) Info true);
   ("reasoning", fun payload => plainParts "Reasoning" (reasoningBody payload) Neutral true);
   ("commandExecution", fun payload =>
      statusParts (default (js "Command") (text (field "command" payload)))
        (text (field "aggregatedOutput" payload)) payload (number (field "durationMs" payload)));
   ("fileChange", fun payload =>
      statusParts (js "File changes") (Some (compactJson (orElse (field "changes" payload) (JArr []))))
        payload None);
   ("mcpToolCall", fun payload =>
      statusParts (default (js "MCP") (text (field "server" payload)) ++ middleDot
                   ++ default (js "tool") (text (field "tool" payload)))
        (Some (compactJson (or2 (field "result" payload) (field "arguments" payload) JNull)))
        payload (number (field "durationMs" payload)));
   ("dynamicToolCall", fun payload =>
      statusParts (dynamicToolTitle payload)
        (Some (compactJson (or2 (field "contentItems" payload) (field "arguments" payload) JNull)))
        payload (number (field "durationMs" payload)));
   ("collabAgentToolCall", fun payload =>
      statusParts (js "Agent" ++ middleDot
                   ++ default (js "collaboration") (text (field "tool" payload)))
        (Some (match text (field "prompt" payload) with
               | Some prompt => prompt
               | None => compactJson (orElse (field "agentsStates" payload) (JObj []))
               end)) payload None);
   ("subAgentActivity", fun payload =>
      {| p_title := js "Subagent activity"; p_body := text (field "agentPath" payload);
         p_status := text (field "kind" payload); p_durationMs := None; p_tone := Info;
         p_collapsible := true |});
   ("webSearch", fun payload =>
      plainParts "Web search" (Some (compactJson (orElse (field "action" payload) payload))) Info true);
   ("imageView", fun payload => plainParts "Image" (text (field "path" payload)) Neutral false);
   ("sleep", fun payload =>
      {| p_title := js "Wait"; p_body := Some (compactJson payload); p_status := None;
         p_durationMs := number (field "durationMs" payload); p_tone := Neutral;
         p_collapsible := true |});
   ("imageGeneration", fun payload =>
      {| p_title := js "Generated image";
         p_body := Some (match text (field "revisedPrompt" payload) with
                         | Some prompt => prompt | None => compactJson payload end);
         p_status := text (field "status" payload); p_durationMs := None; p_tone := Success;
         p_collapsible := false |});
   ("enteredReviewMode", fun payload =>
      plainParts "Entered review mode" (text (field "review" payload)) Info true);
   ("exitedReviewMode", fun payload =>
      plainParts "Exited review mode" (text (field "review" payload)) Neutral true);
   ("contextCompaction", fun payload =>
      let running := isStr (field "codewideLifecyclePhase" payload) "started" in
      {| p_title := js (if running then "Compacting context" else "Context compacted");
         p_body := None;
         p_status := Some (js (if running then "inProgress" else "completed")); p_durationMs := None;
         p_tone := if running then Info else Neutral; p_collapsible := false |})]%string.

(** The names every object inherits. *)
Definition inheritedNames : list string :=
  ["constructor"; "toString"; "__defineGetter__"; "__defineSetter__"; "hasOwnProperty";
   "__lookupGetter__"; "__lookupSetter__"; "isPrototypeOf"; "propertyIsEnumerable"; "valueOf";
   "__proto__"; "toLocaleString"]%string.

(** The block; an object that is not a block; or a [TypeError]. *)
Inductive Rendered := Block (b : RenderBlock) | NotABlock | Throws.

Definition registered (type : jstr) : option (json -> RenderParts) :=
  snd <$> find (fun e => bool_decide (js e.1 = type)) renderRegistry.

(** [Object(item)] and the text of [toString()] are spread into the result;
    the other inherited members cannot be called without a receiver. *)
Definition inherited (type : jstr) : option Rendered :=
  if bool_decide (type ∈ js <$> ["constructor"; "toString"]%string) then Some NotABlock
  else if bool_decide (type ∈ js <$> inheritedNames) then Some Throws
  else None.

Definition toRenderBlock (item : NormalizedItem) : Rendered :=
  let payload := item_payload item in
  match registered (item_type item) with
  | Some renderer =>
      let parts := renderer payload in
      Block {| block_key := item_key item; kind := item_type item; title := p_title parts;
               body := p_body parts; status := p_status parts; durationMs := p_durationMs parts;
               tone := p_tone parts; collapsible := p_collapsible parts; raw := payload;
               content := contentProjection payload |}
  | None =>
      match inherited (item_type item) with
      | Some r => r
      | None =>
          Block {| block_key := item_key item; kind := js "unknown";
                   title := js "Unsupported block" ++ middleDot ++ item_type item;
                   body := Some (compactJson payload); status := None; durationMs := None;
                   tone := Warning; collapsible := true; raw := payload;
                   content := contentProjection payload |}
      end
  end.

(** ** Values within the budget *)

Fixpoint stringChars (v : json) : nat :=
  match v with
  | JStr s => length s
  | JArr l => list_sum (map stringChars l)
  | JObj o => list_sum (map (fun e => stringChars e.2) o)
  | _ => 0
  end.

Fixpoint nodeCount (v : json) : nat :=
  match v with
  | JArr l => S (list_sum (map nodeCount l))
  | JObj o => S (list_sum (map (fun e => nodeCount e.2) o))
  | _ => 1
  end.

(** Containers nest at most ten deep, arrays hold at most a hundred elements. *)
Fixpoint shallow (depth : nat) (v : json) : bool :=
  match v with
  | JArr l => (depth <? 10) && (length l <=? 100) && forallb (shallow (S depth)) l
  | JObj o => (depth <? 10)
              && forallb (fun e => negb (bool_decide (e.1 = "__proto__"%string))
                                   && shallow (S depth) e.2) o
  | _ => true
  end.

Definition charge (v : json) (b : Budget) : Budget :=
  {| chars := chars b - stringChars v; nodes := nodes b - nodeCount v |}.

Lemma nodeCount_pos v : 1 <= nodeCount v.
Proof. destruct v; simpl; lia. Qed.

Definition within (v : json) (b : Budget) : Prop := stringChars v < chars b /\ nodeCount v <= nodes b.

Lemma within_lasts v b : within v b -> spent b = false.
Proof.
  intros [Hc Hn]. pose proof (nodeCount_pos v). unfold spent.
  destruct (Nat.eqb_spec (chars b) 0), (Nat.eqb_spec (nodes b) 0); simpl; lia.
Qed.

Lemma elements_within (f : json -> Budget -> json * Budget) : forall l room b,
  Forall (fun v => forall b, within v b -> f v b = (v, charge v b)) l ->
  length l <= room -> list_sum (map stringChars l) < chars b -> list_sum (map nodeCount l) <= nodes b ->
  visitElements f room l b
  = (l, {| chars := chars b - list_sum (map stringChars l);
           nodes := nodes b - list_sum (map nodeCount l) |}).
Proof.
  induction l as [|x l IH]; intros room b Hf Hl Hc Hn; simpl in *.
  - destruct b. simpl. by rewrite !Nat.sub_0_r.
  - destruct room as [|room]; [lia|]. apply Forall_cons in Hf as [Hx Hf].
    rewrite Hx by (split; lia). unfold charge. rewrite IH by (done || simpl; lia).
    simpl. by rewrite !Nat.sub_add_distr.
Qed.

Lemma entries_within (f : json -> Budget -> json * Budget) : forall o b,
  Forall (fun e => forall b, within e.2 b -> f e.2 b = (e.2, charge e.2 b)) o ->
  Forall (fun e => e.1 <> "__proto__"%string) o ->
  list_sum (map (fun e => stringChars e.2) o) < chars b ->
  list_sum (map (fun e => nodeCount e.2) o) <= nodes b ->
  visitEntries f o b
  = (o, {| chars := chars b - list_sum (map (fun e => stringChars e.2) o);
           nodes := nodes b - list_sum (map (fun e => nodeCount e.2) o) |}).
Proof.
  induction o as [|[k x] o IH]; intros b Hf Hk Hc Hn; simpl in *.
  - destruct b. simpl. by rewrite !Nat.sub_0_r.
  - apply Forall_cons in Hf as [Hx Hf], Hk as [Hkx Hk]. simpl in *.
    assert (Hw : within x b) by (split; lia). rewrite (within_lasts x b Hw), Hx by done.
    unfold charge. rewrite IH by (done || simpl; lia). rewrite bool_decide_false by done.
    simpl. by rewrite !Nat.sub_add_distr.
Qed.

Lemma visit_arr l depth b :
  spent b = false -> depth < 10 ->
  visit (JArr l) depth b
  = let '(l, b) := visitElements (fun x => visit x (S depth)) 100 l
                     {| chars := chars b; nodes := nodes b - 1 |} in (JArr l, b).
Proof. intros Hs Hd. apply Nat.leb_gt in Hd. cbn [visit]. by rewrite Hs, Hd. Qed.

Lemma visit_obj o depth b :
  spent b = false -> depth < 10 ->
  visit (JObj o) depth b
  = let '(o, b) := visitEntries (fun x => visit x (S depth)) o
                     {| chars := chars b; nodes := nodes b - 1 |} in (JObj o, b).
Proof. intros Hs Hd. apply Nat.leb_gt in Hd. cbn [visit]. by rewrite Hs, Hd. Qed.

Lemma visit_within v : forall depth b,
  shallow depth v = true -> within v b -> visit v depth b = (v, charge v b).
Proof.
  induction v as [|x|n|s|l IH|o IH] using json_nested_ind; intros depth b Hsh Hw;
    pose proof (within_lasts _ _ Hw) as Hs; destruct Hw as [Hc Hn]; cbn [shallow] in Hsh.
  1-3: simpl; rewrite Hs; unfold charge; simpl; by rewrite Nat.sub_0_r.
  - simpl in *. rewrite Hs. unfold visitString, charge. simpl. rewrite Nat.min_l by lia.
    by rewrite Nat.eqb_refl.
  - apply andb_true_iff in Hsh as [[Hd Hl]%andb_true_iff Hall]. apply Nat.ltb_lt in Hd.
    apply Nat.leb_le in Hl. rewrite visit_arr by done. simpl in Hc, Hn.
    rewrite elements_within; [| |done|simpl; lia|simpl; lia].
    + unfold charge. simpl. do 2 f_equal; lia.
    + rewrite Forall_forall in IH |- *. intros y Hy b' Hw. apply IH; [done| |done].
      rewrite forallb_forall in Hall. apply Hall. by apply list_elem_of_In.
  - apply andb_true_iff in Hsh as [Hd Hall]. apply Nat.ltb_lt in Hd.
    rewrite forallb_forall in Hall. setoid_rewrite <- list_elem_of_In in Hall.
    rewrite visit_obj by done. simpl in Hc, Hn.
    rewrite entries_within; [| | |simpl; lia|simpl; lia].
    + unfold charge. simpl. do 2 f_equal; lia.
    + rewrite Forall_forall in IH |- *. intros y Hy b' Hw. apply IH; [done| |done].
      specialize (Hall y Hy). by bool_prop.
    + rewrite Forall_forall. intros y Hy. specialize (Hall y Hy). by bool_prop.
Qed.

(** ** Properties *)

(** The JSON body of a block is short, and it is the value's own indented JSON
    whenever that is within the limits: nothing is elided early. *)
Theorem compact_json_faithful value :
  length (compactJson value) <= MAX_BODY_CHARS + 2
  /\ (shallow 0 value = true -> stringChars value < MAX_BODY_CHARS -> nodeCount value <= MAX_NODES ->
      length (prettyJson 0 value) <= MAX_BODY_CHARS ->
      compactJson value = prettyJson 0 value).
Proof.
  unfold compactJson. split.
  - destruct (Nat.ltb_spec MAX_BODY_CHARS (length (boundedJson value MAX_BODY_CHARS))); [|lia].
    unfold slice_to. rewrite length_app, length_take. simpl length. lia.
  - intros Hsh Hc Hn Hl. unfold boundedJson.
    rewrite visit_within by (done || split; simpl; done). simpl.
    apply Nat.leb_le in Hl. by rewrite Nat.ltb_antisym, Hl.
Qed.

Lemma registered_names type : is_Some (registered type) <-> type ∈ js <$> renderRegistry.*1.
Proof.
  unfold registered. rewrite fmap_is_Some. split.
  - intros [e He]. apply find_some in He as [Hin Ht%bool_decide_eq_true]. rewrite <- Ht.
    by apply list_elem_of_fmap_2, list_elem_of_fmap_2, list_elem_of_In.
  - intros (name & -> & ([n f] & -> & Hf)%list_elem_of_fmap)%list_elem_of_fmap. simpl.
    destruct (find (fun e => bool_decide (js e.1 = js n)) renderRegistry) as [e|] eqn:E; [done|].
    pose proof (find_none _ _ E (n, f) (proj1 (list_elem_of_In _ _) Hf)) as Hn. simpl in Hn.
    by rewrite bool_decide_true in Hn.
Qed.

(** The registry and the domain model know the same item types. *)
Lemma registered_known type : is_Some (registered type) <-> type ∈ KNOWN_ITEM_TYPES.
Proof.
  rewrite registered_names.
  assert (H1 : Forall (fun t => t ∈ KNOWN_ITEM_TYPES) (js <$> renderRegistry.*1))
    by (apply (bool_decide_unpack _); vm_compute; exact I).
  assert (H2 : Forall (fun t => t ∈ js <$> renderRegistry.*1) KNOWN_ITEM_TYPES)
    by (apply (bool_decide_unpack _); vm_compute; exact I).
  rewrite Forall_forall in H1, H2. split; [apply H1|apply H2].
Qed.

(** A normalised item is drawn as a block that keeps its key and payload; its
    kind is the item type, or "unknown" exactly for the items the domain model
    flags as unknown. *)
Theorem render_block_faithful connection threadId turnId rawItem index item :
  normalizeThreadItem connection threadId turnId rawItem index = Some item ->
  inherited (item_type item) = None ->
  exists b, toRenderBlock item = Block b
    /\ block_key b = item_key item /\ raw b = rawItem
    /\ kind b = (if item_unknown item then js "unknown" else item_type item)
    /\ (kind b = js "unknown" <-> item_unknown item = true).
Proof.
  intros Hn Hi.
  assert (Hitem : item_payload item = rawItem
                  /\ item_unknown item = negb (bool_decide (item_type item ∈ KNOWN_ITEM_TYPES))).
  { unfold normalizeThreadItem in Hn. by destruct (itemKey _ _ _ _); simplify_eq/=. }
  destruct Hitem as [Hraw Hu]. unfold toRenderBlock. rewrite Hi.
  pose proof (registered_known (item_type item)) as Hreg.
  destruct (registered (item_type item)) as [renderer|].
  - rewrite bool_decide_true in Hu by (by apply Hreg). rewrite Hu. simpl.
    eexists. split; [done|]. split_and!; [done..|]. simpl. split; [|done]. intros Ht.
    apply proj1 in Hreg. rewrite Ht in Hreg. exfalso. revert Hreg.
    assert (Hno : js "unknown" ∉ KNOWN_ITEM_TYPES)
      by (apply (bool_decide_unpack _); vm_compute; exact I).
    intros Hreg. by apply Hno, Hreg.
  - rewrite bool_decide_false in Hu by (rewrite <- Hreg; by intros [? ?]). rewrite Hu. simpl.
    eexists. split; [done|]. by split_and!.
Qed.

(** An item type the registry object inherits a member for is not drawn. *)
Lemma inherited_type_throws connection threadId turnId index :
  let item := JObj [("type", JStr (js "__proto__")); ("id", JStr (js "i"))] in
  toRenderBlock <$> normalizeThreadItem connection threadId turnId item index
  = (fun _ => Throws) <$> itemKey connection threadId turnId (js "i").
Proof. simpl. unfold normalizeThreadItem. simpl. by destruct (itemKey _ _ _ _). Qed.

(** ** Witnesses *)

Definition demo_payload : json :=
  JObj [("type", JStr (js "commandExecution")); ("id", JStr (js "i")); ("command", JStr (js "ls"));
        ("status", JStr (js "completed"))].

Lemma render_block_faithful_witness :
  exists item, normalizeThreadItem (js "c") (js "t") (js "u") demo_payload 0 = Some item
    /\ exists b, toRenderBlock item = Block b /\ kind b = js "commandExecution" /\ title b = js "ls".
Proof.
  eexists. split; [vm_compute; reflexivity|].
  edestruct (render_block_faithful (js "c") (js "t") (js "u") demo_payload 0)
    as (b & Hb & _ & _ & Hk & _); [vm_compute; reflexivity|vm_compute; reflexivity|].
  exists b. split; [exact Hb|]. split; [rewrite Hk; vm_compute; reflexivity|].
  vm_compute in Hb. injection Hb as <-. vm_compute. reflexivity.
Defined.

Lemma compact_json_faithful_witness :
  compactJson (JArr [JObj [("a", JNum (NInt 1))]; JStr (js "b")])
  = prettyJson 0 (JArr [JObj [("a", JNum (NInt 1))]; JStr (js "b")]).
Proof.
  apply (proj2 (compact_json_faithful (JArr [JObj [("a", JNum (NInt 1))]; JStr (js "b")])));
    try (apply Nat.leb_le || apply Nat.ltb_lt); vm_compute; reflexivity.
Defined.
