(* ===== verification/TurnSequence.v ===== *)
(** * The parts of a turn in order

    Models apps/android/src/rendering/turn-sequence.ts.  Blocks are immutable
    objects compared by reference: a block is a position of [heap].  The parts
    and arrays the module creates are objects too; their references come from
    a counter, and the cache hands out old ones for unchanged parts. *)
From S2P Require Import Prelude Indexes JsMap Json Renderers.

Local Open Scope nat_scope.

Definition ACTIVE_SEQUENCE_CACHE_MAX_ENTRIES : nat := 64.

Inductive TurnSequencePart :=
| AgentPart (block : nat) (key : jstr)
| ActivityPart (blocks : list nat) (followedByAgent : bool) (key : jstr)
| CollapsedPart (indexes : list nat) (key : jstr).

Definition partKey (part : TurnSequencePart) : jstr :=
  match part with AgentPart _ k | ActivityPart _ _ k | CollapsedPart _ k => k end.

Record CompletedTurnContent := { finalAnswer : option nat; history : list nat }.

(** An array of parts: its reference, and each part with its reference. *)
Record PartArray := { arr_ref : nat; arr_parts : list (nat * TurnSequencePart) }.

Record SequenceCache := { entries : list (jstr * PartArray); nextRef : nat }.

Section heap.
Context (heap : nat -> RenderBlock).

Definition isKind (k : string) (block : nat) : bool := bool_decide (kind (heap block) = js k).

(** [block.kind === "agentMessage" && (block.body ?? "").trim() !== ""]. *)
Definition speaksUp (block : nat) : bool :=
  isKind "agentMessage" block && bool_decide (trim (default [] (body (heap block))) <> []).

(** ** Chronological order *)

Definition flushActivity (parts : list TurnSequencePart) (activity : list nat) (followedByAgent : bool)
    : list TurnSequencePart :=
  match activity with
  | [] => parts
  | first :: _ =>
      parts ++ [ActivityPart activity followedByAgent (js "activity:" ++ block_key (heap first))]
  end.

Definition chronologicalStep (st : list TurnSequencePart * list nat) (block : nat)
    : list TurnSequencePart * list nat :=
  let '(parts, activity) := st in
  if isKind "userMessage" block then st
  else if speaksUp block then
    (flushActivity parts activity true ++ [AgentPart block (js "agent:" ++ block_key (heap block))], [])
  else if negb (isKind "agentMessage" block) then (parts, activity ++ [block])
  else st.

Definition chronologicalTurnSequence (blocks : list nat) : list TurnSequencePart :=
  let '(parts, activity) := foldl chronologicalStep ([], []) blocks in
  flushActivity parts activity false.

(** ** The active turn *)

Record ActiveSequenceBuilder :=
  { ab_parts : list TurnSequencePart; collapsed : list nat; liveBlocks : list nat; runKey : jstr }.

Definition flushActivityRun (followedByAgent : bool) (b : ActiveSequenceBuilder)
    : ActiveSequenceBuilder :=
  let parts :=
    match collapsed b with
    | [] => ab_parts b
    | _ => ab_parts b ++ [CollapsedPart (collapsed b) (runKey b ++ js ":collapsed")]
    end in
  let parts :=
    match liveBlocks b with
    | [] => parts
    | _ => parts ++ [ActivityPart (liveBlocks b) followedByAgent (runKey b ++ js ":live")]
    end in
  {| ab_parts := parts; collapsed := []; liveBlocks := []; runKey := runKey b |}.

Definition appendActiveSequenceBlock (sequenceScope : jstr) (block : nat) (b : ActiveSequenceBuilder)
    : ActiveSequenceBuilder :=
  if speaksUp block then
    let b := flushActivityRun true b in
    {| ab_parts := ab_parts b ++ [AgentPart block (js "agent:" ++ block_key (heap block))];
       collapsed := collapsed b; liveBlocks := liveBlocks b;
       runKey := js "activity:" ++ sequenceScope ++ js ":after:" ++ block_key (heap block) |}
  else if negb (isKind "userMessage" block) && negb (isKind "agentMessage" block) then
    {| ab_parts := ab_parts b; collapsed := collapsed b; liveBlocks := liveBlocks b ++ [block];
       runKey := runKey b |}
  else b.

(** [liveByIndex.get(index)]: a later entry of an index replaces an earlier one. *)
Definition liveAt (liveEntries : list (nat * nat)) (index : nat) : option nat :=
  snd <$> last (filter (fun e => e.1 = index) liveEntries).

Definition activeStep (liveEntries : list (nat * nat)) (sequenceScope : jstr)
    (b : ActiveSequenceBuilder) (index : nat) : ActiveSequenceBuilder :=
  match liveAt liveEntries index with
  | None => {| ab_parts := ab_parts b; collapsed := collapsed b ++ [index];
               liveBlocks := liveBlocks b; runKey := runKey b |}
  | Some block => appendActiveSequenceBlock sequenceScope block b
  end.

(** The parts before the cache replaces unchanged ones. *)
Definition activeParts (liveEntries : list (nat * nat)) (collapsedIndexes : list nat)
    (sequenceScope : jstr) : list TurnSequencePart :=
  let orderedIndexes := sortNat (collapsedIndexes ++ liveEntries.*1) in
  ab_parts
    (flushActivityRun false
       (foldl (activeStep liveEntries sequenceScope)
          {| ab_parts := []; collapsed := []; liveBlocks := [];
             runKey := js "activity:" ++ sequenceScope ++ js ":start" |} orderedIndexes)).

(** ** The completed turn *)

Definition phaseOf (block : nat) : option jstr :=
  match asString (field "phase" (raw (heap block))) with
  | Some phase => Some phase
  | None => status (heap block)
  end.

(** The loop from the last block to the first. *)
Fixpoint finalScan (backwards : list (nat * nat)) (finalIndex : option nat) : option nat :=
  match backwards with
  | [] => finalIndex
  | (index, block) :: rest =>
      if negb (speaksUp block) then finalScan rest finalIndex
      else if bool_decide (phaseOf block = Some (js "final_answer")) then Some index
      else finalScan rest (match finalIndex with None => Some index | Some _ => finalIndex end)
  end.

Definition completedTurnContent (blocks : list nat) : CompletedTurnContent :=
  let content := filter (fun block => negb (isKind "userMessage" block)) blocks in
  let finalIndex := finalScan (reverse (imap pair content)) None in
  {| finalAnswer := i ← finalIndex; content !! i;
     history := (filter (fun e => bool_decide (finalIndex <> Some e.1)) (imap pair content)).*2 |}.

End heap.

(** ** Keeping unchanged parts *)

(** Blocks are compared by reference, indexes by value. *)
Definition sameSequencePart (previous next : TurnSequencePart) : bool :=
  match previous, next with
  | AgentPart b _, AgentPart b' _ => b =? b'
  | ActivityPart bs f _, ActivityPart bs' f' _ => Bool.eqb f f' && bool_decide (bs = bs')
  | CollapsedPart l _, CollapsedPart l' _ => bool_decide (l = l')
  | _, _ => false
  end.

(** The candidate of a key: the last part of the previous array that has it. *)
Definition candidateOf (previous : option PartArray) (key : jstr) : option (nat * TurnSequencePart) :=
  previous ← previous; last (filter (fun e => partKey e.2 = key) (arr_parts previous)).

Definition retainPart (previous : option PartArray) (e : nat * TurnSequencePart)
    : nat * TurnSequencePart :=
  match candidateOf previous (partKey e.2) with
  | Some candidate => if sameSequencePart candidate.2 e.2 then candidate else e
  | None => e
  end.

(** The loop that drops the oldest entries. *)
Fixpoint evictOldest (l : list (jstr * PartArray)) : list (jstr * PartArray) :=
  match l with
  | [] => []
  | _ :: rest => if ACTIVE_SEQUENCE_CACHE_MAX_ENTRIES <? length l then evictOldest rest else l
  end.

Definition retainUnchangedSequenceParts (sequenceScope : jstr) (next : list TurnSequencePart)
    (cache : SequenceCache) : SequenceCache * PartArray :=
  let previous := mget sequenceScope (entries cache) in
  let created := imap (fun i part => (nextRef cache + i, part)) next in
  let retained := retainPart previous <$> created in
  let fresh := {| arr_ref := nextRef cache + length next; arr_parts := retained |} in
  let value :=
    match previous with
    | Some previous =>
        if bool_decide ((arr_parts previous).*1 = retained.*1) then previous else fresh
    | None => fresh
    end in
  ({| entries := evictOldest (mset sequenceScope value (mdel sequenceScope (entries cache)));
      nextRef := S (nextRef cache + length next) |}, value).

Definition activeTurnSequence (heap : nat -> RenderBlock) (liveEntries : list (nat * nat))
    (collapsedIndexes : list nat) (sequenceScope : jstr) (cache : SequenceCache)
    : SequenceCache * PartArray :=
  retainUnchangedSequenceParts sequenceScope
    (activeParts heap liveEntries collapsedIndexes sequenceScope) cache.

(** ** The order of the parts *)

#[local] Arguments flushActivityRun : simpl never.

Definition stripKey (part : TurnSequencePart) : TurnSequencePart :=
  match part with
  | AgentPart b _ => AgentPart b []
  | ActivityPart bs f _ => ActivityPart bs f []
  | CollapsedPart l _ => CollapsedPart l []
  end.

Definition blocksOf (part : TurnSequencePart) : list nat :=
  match part with AgentPart b _ => [b] | ActivityPart bs _ _ => bs | CollapsedPart _ _ => [] end.
Definition collapsedOf (part : TurnSequencePart) : list nat :=
  match part with CollapsedPart l _ => l | _ => [] end.

Definition isAgentPart (part : option TurnSequencePart) : bool :=
  match part with Some (AgentPart _ _) => true | _ => false end.

(** No part is empty, and an activity knows whether an agent message follows. *)
Fixpoint wellFollowed (parts : list TurnSequencePart) : Prop :=
  match parts with
  | [] => True
  | part :: rest =>
      match part with
      | AgentPart _ _ => True
      | ActivityPart bs f _ => bs <> [] /\ f = isAgentPart (head rest)
      | CollapsedPart l _ => l <> []
      end /\ wellFollowed rest
  end.

Section order.
Context (heap : nat -> RenderBlock).

(** The blocks with a place of their own: everything but user messages and
    agent messages without text. *)
Definition placed (block : nat) : bool :=
  speaksUp heap block
  || (negb (isKind heap "userMessage" block) && negb (isKind heap "agentMessage" block)).

Lemma speaksUp_kind block :
  speaksUp heap block = true ->
  isKind heap "agentMessage" block = true /\ isKind heap "userMessage" block = false.
Proof.
  unfold speaksUp. intros [Ha _]%andb_true_iff. split; [done|]. unfold isKind in *.
  apply bool_decide_eq_true in Ha. apply bool_decide_eq_false. rewrite Ha. done.
Qed.

(** Parts that end before an agent message, or before anything else. *)
Lemma wellFollowed_app l1 l2 :
  wellFollowed l1 -> wellFollowed l2 ->
  (forall bs f k, last l1 = Some (ActivityPart bs f k) -> f = isAgentPart (head l2)) ->
  wellFollowed (l1 ++ l2).
Proof.
  induction l1 as [|p l1 IH]; simpl; [done|]. intros [Hp H1] H2 Hl. destruct l1 as [|q l1].
  - simpl. split; [|done]. destruct p; try done. destruct Hp as [? _]. split; [done|].
    by eapply Hl.
  - split; [exact Hp|]. apply IH; [done|done|]. intros. by eapply Hl.
Qed.

(** What a builder holds after some positions. *)
Definition builderSpec (liveEntries : list (nat * nat)) (l : list nat) (b : ActiveSequenceBuilder)
    : Prop :=
  (ab_parts b ≫= blocksOf) ++ liveBlocks b
    = filter (fun block => placed block) (omap (liveAt liveEntries) l)
  /\ (ab_parts b ≫= collapsedOf) ++ collapsed b
    = filter (fun i => bool_decide (liveAt liveEntries i = None)) l
  /\ wellFollowed (ab_parts b)
  /\ (forall bs f k, last (ab_parts b) <> Some (ActivityPart bs f k)).

Lemma flush_blocks b f : ab_parts (flushActivityRun f b) ≫= blocksOf = (ab_parts b ≫= blocksOf) ++ liveBlocks b.
Proof.
  unfold flushActivityRun. cbn [ab_parts]. destruct (collapsed b), (liveBlocks b);
    rewrite ?bind_app; simpl; by rewrite ?app_nil_r.
Qed.

Lemma flush_collapsed b f :
  ab_parts (flushActivityRun f b) ≫= collapsedOf = (ab_parts b ≫= collapsedOf) ++ collapsed b.
Proof.
  unfold flushActivityRun. cbn [ab_parts]. destruct (collapsed b), (liveBlocks b);
    rewrite ?bind_app; simpl; by rewrite ?app_nil_r.
Qed.

Lemma flush_followed b f tail :
  wellFollowed (ab_parts b) -> (forall bs f k, last (ab_parts b) <> Some (ActivityPart bs f k)) ->
  wellFollowed tail -> f = isAgentPart (head tail) ->
  wellFollowed (ab_parts (flushActivityRun f b) ++ tail).
Proof.
  intros Hw Hl Ht Hf. unfold flushActivityRun. simpl.
  destruct (collapsed b) eqn:Ec, (liveBlocks b) eqn:El; rewrite <- ?(assoc_L (++));
    (apply wellFollowed_app; [done| |intros ??? H; by apply Hl in H]); simpl; by rewrite <- ?Hf.
Qed.

Lemma activeStep_spec liveEntries scope l b i :
  builderSpec liveEntries l b -> builderSpec liveEntries (l ++ [i]) (activeStep heap liveEntries scope b i).
Proof.
  intros (Hb & Hc & Hw & Hl). unfold builderSpec. rewrite omap_app, !filter_app, <- Hb, <- Hc.
  rewrite (filter_single (fun i => bool_decide (liveAt liveEntries i = None))).
  unfold activeStep. cbn [omap list_omap].
  destruct (liveAt liveEntries i) as [block|] eqn:E; cbn [ab_parts collapsed liveBlocks].
  2: { by rewrite filter_nil, app_nil_r, (assoc_L (++)). }
  rewrite filter_single. unfold appendActiveSequenceBlock, placed.
  rewrite (bool_decide_false (Some block = None)), app_nil_r by done.
  destruct (speaksUp heap block) eqn:Hs; cbn [orb].
  - cbn [ab_parts collapsed liveBlocks].
    change (collapsed (flushActivityRun true b)) with (@nil nat).
    change (liveBlocks (flushActivityRun true b)) with (@nil nat).
    rewrite !bind_app, flush_blocks, flush_collapsed, !app_nil_r.
    split_and!; [done|done| |intros ???; by rewrite last_snoc].
    by apply flush_followed.
  - destruct (negb _ && negb _) eqn:Hk; cbn [ab_parts collapsed liveBlocks];
      [by rewrite (assoc_L (++))|by rewrite app_nil_r].
Qed.

Lemma active_builder liveEntries scope l b :
  builderSpec liveEntries [] b ->
  builderSpec liveEntries l (foldl (activeStep heap liveEntries scope) b l).
Proof.
  intros Hb. induction l as [|i l IH] using rev_ind; [done|].
  rewrite foldl_app. simpl. by apply activeStep_spec.
Qed.

(** The parts of an active turn hold every live block with a place and every
    collapsed position, each in wire order; none is empty, and an activity is
    marked as followed by an agent message exactly when it is. *)
Theorem active_order liveEntries collapsedIndexes scope :
  let parts := activeParts heap liveEntries collapsedIndexes scope in
  let ordered := sortNat (collapsedIndexes ++ liveEntries.*1) in
  parts ≫= blocksOf = filter (fun block => placed block) (omap (liveAt liveEntries) ordered)
  /\ parts ≫= collapsedOf = filter (fun i => bool_decide (liveAt liveEntries i = None)) ordered
  /\ wellFollowed parts.
Proof.
  intros parts ordered. subst parts. unfold activeParts. fold ordered.
  edestruct (active_builder liveEntries scope ordered) as (Hb & Hc & Hw & Hl);
    [|rewrite flush_blocks, flush_collapsed; split_and!; [exact Hb|exact Hc|]].
  - by split_and!.
  - rewrite <- (app_nil_r (ab_parts _)). by apply flush_followed.
Qed.

(** With nothing collapsed the active turn shows what the finished turn shows:
    the parts differ from the chronological ones in their keys only. *)
Definition simulates (b : ActiveSequenceBuilder) (st : list TurnSequencePart * list nat) : Prop :=
  stripKey <$> ab_parts b = stripKey <$> st.1 /\ liveBlocks b = st.2 /\ collapsed b = [].

Lemma simulates_step scope b st block :
  simulates b st ->
  simulates (appendActiveSequenceBlock heap scope block b) (chronologicalStep heap st block).
Proof.
  destruct st as [parts activity]. intros (Hp & Hl & Hc). simpl in *.
  unfold appendActiveSequenceBlock, chronologicalStep, simulates.
  destruct (speaksUp heap block) eqn:Hs.
  - destruct (speaksUp_kind block Hs) as [Ha ->]. simpl. unfold flushActivityRun, flushActivity.
    rewrite Hc, Hl. simpl. split; [|done]. destruct activity; rewrite !fmap_app, Hp; simpl; done.
  - destruct (isKind heap "userMessage" block), (isKind heap "agentMessage" block) eqn:Ha; simpl;
      split_and!; try done; congruence.
Qed.

Theorem active_matches_chronological blocks scope :
  stripKey <$> activeParts heap (imap pair blocks) [] scope
  = stripKey <$> chronologicalTurnSequence heap blocks.
Proof.
  unfold activeParts, chronologicalTurnSequence. rewrite app_nil_l, imap_pair_fst.
  assert (Hsort : sortNat (seq 0 (length blocks)) = seq 0 (length blocks)).
  { assert (Hnd : NoDup (seq 0 (length blocks))) by apply NoDup_seq.
    apply (ascending_perm_eq _ _ (sortNat_ascending _ Hnd) (ascending_seq _ _)), sortNat_perm. }
  rewrite Hsort.
  set (start := {| ab_parts := []; collapsed := []; liveBlocks := []; runKey := _ |}).
  assert (Hsim : forall n, n <= length blocks ->
    simulates (foldl (activeStep heap (imap pair blocks) scope) start (seq 0 n))
              (foldl (chronologicalStep heap) ([], []) (take n blocks))).
  { induction n as [|n IH]; intros Hn; [by split_and!|].
    destruct (lookup_lt_is_Some_2 blocks n ltac:(lia)) as [block Hb].
    rewrite seq_S, (take_S_r _ _ _ Hb), !foldl_app. simpl. unfold activeStep at 1.
    assert (liveAt (imap pair blocks) n = Some block) as ->.
    { unfold liveAt. rewrite (filter_position blocks n block Hb). done. }
    apply simulates_step, IH. lia. }
  specialize (Hsim (length blocks) ltac:(done)). rewrite take_ge in Hsim by done.
  destruct (foldl (chronologicalStep heap) ([], []) blocks) as [parts activity].
  destruct Hsim as (Hp & Hl & Hc). simpl in *. unfold flushActivityRun, flushActivity. simpl.
  rewrite Hc, Hl. destruct activity; rewrite ?fmap_app, Hp; done.
Qed.
End order.

(** ** The cache *)

Lemma sameSequencePart_eq p q : partKey p = partKey q -> sameSequencePart p q = true -> p = q.
Proof.
  destruct p as [b k|bs f k|l k], q as [b' k'|bs' f' k'|l' k']; simpl; try done; intros ->.
  - by intros ->%Nat.eqb_eq.
  - intros [->%Bool.eqb_prop ->%bool_decide_eq_true]%andb_true_iff. done.
  - by intros ->%bool_decide_eq_true.
Qed.

Lemma sameSequencePart_refl p : sameSequencePart p p = true.
Proof.
  destruct p; simpl; [by rewrite Nat.eqb_refl|rewrite Bool.eqb_reflx|]; by rewrite bool_decide_true.
Qed.

(** Cached references are used up, and a reference stands for one part. *)
Definition array_ok (next : nat) (a : PartArray) : Prop :=
  (forall e, e ∈ arr_parts a -> e.1 < next)
  /\ (forall e e', e ∈ arr_parts a -> e' ∈ arr_parts a -> e.1 = e'.1 -> e = e').

Definition cache_ok (cache : SequenceCache) : Prop :=
  mwf (entries cache) /\ length (entries cache) <= ACTIVE_SEQUENCE_CACHE_MAX_ENTRIES
  /\ forall scope a, mget scope (entries cache) = Some a -> array_ok (nextRef cache) a.

Lemma retainPart_content previous e : (retainPart previous e).2 = e.2.
Proof.
  unfold retainPart. destruct (candidateOf previous (partKey e.2)) as [c|] eqn:E; [|done].
  destruct (sameSequencePart c.2 e.2) eqn:Hs; [|done].
  apply sameSequencePart_eq; [|done]. unfold candidateOf in E. destruct previous as [a|]; [|done].
  simpl in E. apply last_Some_elem_of, list_elem_of_filter in E as [? _]. done.
Qed.

Lemma retainPart_origin previous e :
  retainPart previous e = e
  \/ exists a, previous = Some a /\ retainPart previous e ∈ arr_parts a.
Proof.
  unfold retainPart. destruct (candidateOf previous (partKey e.2)) as [c|] eqn:E; [|by left].
  destruct (sameSequencePart c.2 e.2); [|by left]. right. destruct previous as [a|]; [|done].
  exists a. split; [done|]. simpl in E. by apply last_Some_elem_of, list_elem_of_filter in E as [_ ?].
Qed.

Lemma created_spec (next : list TurnSequencePart) n e :
  e ∈ imap (fun i part => (n + i, part)) next <-> exists i, next !! i = Some e.2 /\ e.1 = n + i.
Proof.
  rewrite list_elem_of_lookup. setoid_rewrite list_lookup_imap. split.
  - intros [i Hi]. exists i. destruct (next !! i) as [p|] eqn:E; simplify_eq/=. done.
  - intros (i & Hi & He). exists i. rewrite Hi. simpl. destruct e. simpl in *. by subst.
Qed.

Lemma created_content (next : list TurnSequencePart) n :
  (imap (fun i part => (n + i, part)) next).*2 = next.
Proof. rewrite fmap_imap. apply list_eq. intros i. rewrite list_lookup_imap. by destruct (next !! i). Qed.

Lemma retained_ok cache next previous :
  (forall a, previous = Some a -> array_ok (nextRef cache) a) ->
  array_ok (S (nextRef cache + length next))
    {| arr_ref := nextRef cache + length next;
       arr_parts := retainPart previous <$> imap (fun i part => (nextRef cache + i, part)) next |}.
Proof.
  intros Hp. split; simpl.
  - intros e (e0 & -> & (i & Hi & He)%created_spec)%list_elem_of_fmap.
    destruct (retainPart_origin previous e0) as [->|(a & Ha & Hin)].
    + rewrite He. apply lookup_lt_Some in Hi. lia.
    + apply Hp in Ha as [Ha _]. specialize (Ha _ Hin). lia.
  - intros e e' (e0 & -> & (i & Hi & He)%created_spec)%list_elem_of_fmap
      (e1 & -> & (j & Hj & Hf)%created_spec)%list_elem_of_fmap Heq.
    destruct (retainPart_origin previous e0) as [H0|(a & Ha & Hin)],
      (retainPart_origin previous e1) as [H1|(a' & Ha' & Hin')].
    + rewrite H0, H1 in *. rewrite He, Hf in Heq. assert (i = j) by lia. subst.
      destruct e0, e1. simpl in *. congruence.
    + apply Hp in Ha' as [Ha' _]. specialize (Ha' _ Hin'). rewrite H0, He in Heq. lia.
    + apply Hp in Ha as [Ha _]. specialize (Ha _ Hin). rewrite H1, Hf in Heq. lia.
    + assert (a' = a) as -> by congruence. apply Hp in Ha as [_ Ha]. by apply Ha.
Qed.

(** Equal references of two arrays with one meaning of references are equal parts. *)
Lemma refs_determine (l l' : list (nat * TurnSequencePart)) :
  (forall e e', e ∈ l -> e' ∈ l -> e.1 = e'.1 -> e = e') ->
  (forall e, e ∈ l' -> e.1 ∈ l.*1 -> e ∈ l) -> l.*1 = l'.*1 -> l = l'.
Proof.
  intros Hl Hin Heq. apply list_eq. intros i.
  assert (Hi : fst <$> l !! i = fst <$> l' !! i) by (by rewrite <- !list_lookup_fmap, Heq).
  destruct (l !! i) as [e|] eqn:E, (l' !! i) as [e'|] eqn:E'; try done. simpl in Hi.
  injection Hi as Hi. f_equal. apply list_elem_of_lookup_2 in E, E'. apply Hl; [done| |done].
  apply Hin; [done|]. rewrite <- Hi. by apply list_elem_of_fmap_2.
Qed.

Lemma evict_spec l : exists n, evictOldest l = drop n l /\ n = length l - ACTIVE_SEQUENCE_CACHE_MAX_ENTRIES.
Proof.
  induction l as [|e l (n & IH & Hn)]; [by exists 0|]. cbn [evictOldest].
  destruct (Nat.ltb_spec ACTIVE_SEQUENCE_CACHE_MAX_ENTRIES (length (e :: l))) as [H|H].
  - exists (S n). split; [done|]. unfold ACTIVE_SEQUENCE_CACHE_MAX_ENTRIES in *. simpl length in *. lia.
  - exists 0. split; [done|]. lia.
Qed.

Section call.
Context (scope : jstr) (next : list TurnSequencePart) (cache : SequenceCache).
Let out := retainUnchangedSequenceParts scope next cache.

Lemma retain_entries :
  entries out.1
  = drop (length (mdel scope (entries cache)) + 1 - ACTIVE_SEQUENCE_CACHE_MAX_ENTRIES)
      (mdel scope (entries cache)) ++ [(scope, out.2)].
Proof.
  subst out. unfold retainUnchangedSequenceParts. cbn [fst snd entries].
  rewrite mset_new by apply mget_mdel_eq.
  match goal with |- evictOldest ?l = _ => destruct (evict_spec l) as (n & -> & ->) end.
  rewrite length_app, drop_app_le; [done|]. simpl. unfold ACTIVE_SEQUENCE_CACHE_MAX_ENTRIES. lia.
Qed.

Lemma mdel_mget_ne k m : k <> scope -> mget k (mdel scope m) = mget (V:=PartArray) k m.
Proof. intros. by apply mget_mdel_ne. Qed.

Lemma retain_fetch : cache_ok cache -> mget scope (entries out.1) = Some out.2.
Proof.
  intros (Hwf & _ & _). rewrite retain_entries. set (d := drop _ _).
  assert (mget scope d = None) as Hd.
  { apply mget_None. intros Hin.
    assert (scope ∈ mkeys (mdel scope (entries cache))) as [? _]%mdel_keys; [|done].
    subst d. unfold mkeys in *. rewrite fmap_drop in Hin.
    rewrite <- (take_drop (length (mdel scope (entries cache)) + 1
      - ACTIVE_SEQUENCE_CACHE_MAX_ENTRIES) (mdel scope (entries cache)).*1). set_solver. }
  clearbody d. induction d as [|[k v] d IH]; simpl in *; [by rewrite bool_decide_true|].
  case_bool_decide; [done|]. by apply IH.
Qed.

Lemma retain_content : cache_ok cache -> (arr_parts out.2).*2 = next.
Proof.
  intros (_ & _ & Hok). subst out. unfold retainUnchangedSequenceParts. cbn [snd].
  set (previous := mget scope (entries cache)).
  set (created := imap _ next).
  assert (Hfresh : (retainPart previous <$> created).*2 = next).
  { rewrite <- list_fmap_compose. transitivity (created.*2); [|apply created_content].
    apply list_fmap_ext. intros i e _. simpl. apply retainPart_content. }
  destruct previous as [a|] eqn:E; [|exact Hfresh]. case_bool_decide as Hr; [|exact Hfresh].
  rewrite <- Hfresh. f_equal. specialize (Hok scope a E) as [Hlt Hfun].
  apply refs_determine; [done| |done].
  intros e (e0 & -> & (i & Hi & He)%created_spec)%list_elem_of_fmap Hin.
  destruct (retainPart_origin (Some a) e0) as [H0|(a' & [= <-] & Hin')]; [|done].
  rewrite H0, He in Hin. apply list_elem_of_fmap in Hin as (e1 & He1 & Hin).
  specialize (Hlt e1 Hin). lia.
Qed.

Lemma retain_value_ok : cache_ok cache -> array_ok (nextRef out.1) out.2.
Proof.
  intros (_ & _ & Hok). subst out. unfold retainUnchangedSequenceParts. cbn [fst snd nextRef].
  pose proof (retained_ok cache next (mget scope (entries cache))
                (fun a Ha => Hok scope a Ha)) as Hnew.
  destruct (mget scope (entries cache)) as [a|] eqn:E; [|exact Hnew].
  case_bool_decide; [|exact Hnew]. destruct (Hok scope a E) as [Hlt Hfun].
  split; [|done]. intros e He. specialize (Hlt e He). lia.
Qed.

Lemma retain_ok : cache_ok cache -> cache_ok out.1.
Proof.
  intros Hok. pose proof Hok as (Hwf & Hlen & Harr).
  pose proof (mdel_wf scope _ Hwf) as Hwf'. split_and!.
  - unfold mwf, mkeys in *. rewrite retain_entries, fmap_app, fmap_drop.
    rewrite <- (take_drop (length (mdel scope (entries cache)) + 1 - ACTIVE_SEQUENCE_CACHE_MAX_ENTRIES)
                  (mdel scope (entries cache)).*1) in Hwf'.
    apply NoDup_app in Hwf' as (_ & _ & Hnd). apply NoDup_app. split_and!; [done| |apply NoDup_singleton].
    intros k Hk Hin%list_elem_of_singleton. simpl in Hin. subst k.
    assert (scope ∈ mkeys (mdel scope (entries cache))) as [[] _]%mdel_keys; [|done].
    unfold mkeys. rewrite <- (take_drop (length (mdel scope (entries cache)) + 1
      - ACTIVE_SEQUENCE_CACHE_MAX_ENTRIES)). set_solver.
  - rewrite retain_entries, length_app, length_drop. simpl.
    unfold ACTIVE_SEQUENCE_CACHE_MAX_ENTRIES. lia.
  - intros k a Ha%mget_elem. rewrite retain_entries in Ha.
    apply elem_of_app in Ha as [Ha|[= -> ->]%list_elem_of_singleton]; [|by apply retain_value_ok].
    assert ((k, a) ∈ mdel scope (entries cache)) as Hin%(elem_mget _ _ _ Hwf').
    { rewrite <- (take_drop (length (mdel scope (entries cache)) + 1
        - ACTIVE_SEQUENCE_CACHE_MAX_ENTRIES)). set_solver. }
    rewrite mget_mdel in Hin. case_bool_decide; [done|]. apply Harr in Hin as [Hlt Hfun].
    split; [|done]. intros e He. specialize (Hlt e He). subst out.
    unfold retainUnchangedSequenceParts. cbn [fst nextRef]. lia.
Qed.
End call.

(** A part whose key the previous array holds with the same content is that part. *)
Lemma retain_part_kept scope next cache a e :
  mget scope (entries cache) = Some a -> NoDup (partKey <$> (arr_parts a).*2) ->
  e ∈ arr_parts a -> e.2 ∈ next ->
  e ∈ arr_parts (retainUnchangedSequenceParts scope next cache).2.
Proof.
  intros Ha Hnd He Hin. unfold retainUnchangedSequenceParts. cbn [snd]. rewrite Ha.
  case_bool_decide; [done|]. simpl. apply list_elem_of_lookup in Hin as [i Hi].
  apply list_elem_of_fmap. exists (nextRef cache + i, e.2). split.
  - unfold retainPart, candidateOf. simpl.
    assert (filter (fun e0 => partKey e0.2 = partKey e.2) (arr_parts a) = [e]) as ->.
    { revert Hnd He. clear. induction (arr_parts a) as [|x l IH]; [set_solver|]. simpl.
      intros [Hx Hnd]%NoDup_cons [->|He]%elem_of_cons.
      - rewrite filter_cons_True by done. f_equal.
        destruct (filter _ l) as [|y k] eqn:E; [done|]. exfalso. apply Hx.
        assert (y ∈ y :: k) as Hy by set_solver. rewrite <- E in Hy.
        apply list_elem_of_filter in Hy as [Hk Hy]. rewrite <- Hk.
        by apply list_elem_of_fmap_2, list_elem_of_fmap_2.
      - rewrite filter_cons_False; [by apply IH|]. intros Hk. apply Hx. rewrite Hk.
        by apply list_elem_of_fmap_2, list_elem_of_fmap_2. }
    simpl. by rewrite sameSequencePart_refl.
  - apply created_spec. exists i. done.
Qed.

Lemma retain_same scope next cache a :
  mget scope (entries cache) = Some a -> (arr_parts a).*2 = next -> NoDup (partKey <$> next) ->
  (retainUnchangedSequenceParts scope next cache).2 = a.
Proof.
  intros Ha Hc Hnd. unfold retainUnchangedSequenceParts. cbn [snd]. rewrite Ha.
  rewrite bool_decide_true; [done|]. rewrite <- list_fmap_compose. apply list_eq. intros i.
  rewrite !list_lookup_fmap, list_lookup_imap. rewrite <- Hc, list_lookup_fmap.
  destruct (arr_parts a !! i) as [e|] eqn:E; [|done]. simpl. f_equal.
  unfold retainPart, candidateOf. simpl.
  assert (last (filter (fun e0 => partKey e0.2 = partKey e.2) (arr_parts a)) = Some e) as ->;
    [|simpl; by rewrite sameSequencePart_refl].
  destruct (last _) as [e'|] eqn:El.
  - apply last_Some_elem_of, list_elem_of_filter in El as [Hk Hin]. f_equal.
    apply list_elem_of_lookup in Hin as [j Hj]. rewrite <- Hc in Hnd.
    assert (j = i); [|congruence].
    apply (NoDup_lookup _ _ _ (partKey e.2) Hnd); rewrite !list_lookup_fmap.
    + rewrite Hj. simpl. by rewrite Hk.
    + by rewrite E.
  - apply last_None in El. apply list_elem_of_lookup_2 in E. exfalso.
    assert (e ∈ filter (fun e0 => partKey e0.2 = partKey e.2) (arr_parts a)) as Hin
      by (by apply list_elem_of_filter). rewrite El in Hin. by apply elem_of_nil in Hin.
Qed.

Record sequenceCall :=
  { call_live : list (nat * nat); call_collapsed : list nat; call_scope : jstr }.

Definition runCall (heap : nat -> RenderBlock) (cache : SequenceCache) (c : sequenceCall)
    : SequenceCache :=
  (activeTurnSequence heap (call_live c) (call_collapsed c) (call_scope c) cache).1.

Definition emptyCache : SequenceCache := {| entries := []; nextRef := 0 |}.

Lemma runs_ok heap calls : cache_ok (foldl (runCall heap) emptyCache calls).
Proof.
  induction calls as [|c calls IH] using rev_ind.
  - split_and!; [constructor|unfold ACTIVE_SEQUENCE_CACHE_MAX_ENTRIES; simpl; lia|done].
  - rewrite foldl_app. simpl. by apply retain_ok.
Qed.

(** After any calls, the array returned for a scope holds exactly the parts the
    uncached computation yields; the cache holds at most 64 scopes, this one
    among them.  Where keys are distinct an unchanged sequence is the very array
    returned before, and in a changed one every unchanged part is the part
    object returned before. *)
Theorem sequence_cached heap calls c :
  let cache := foldl (runCall heap) emptyCache calls in
  let next := activeParts heap (call_live c) (call_collapsed c) (call_scope c) in
  let '(cache', value) :=
    activeTurnSequence heap (call_live c) (call_collapsed c) (call_scope c) cache in
  (arr_parts value).*2 = next
  /\ length (entries cache') <= ACTIVE_SEQUENCE_CACHE_MAX_ENTRIES
  /\ mget (call_scope c) (entries cache') = Some value
  /\ (forall previous,
        mget (call_scope c) (entries cache) = Some previous ->
        NoDup (partKey <$> (arr_parts previous).*2) ->
        ((arr_parts previous).*2 = next -> value = previous)
        /\ forall e, e ∈ arr_parts previous -> e.2 ∈ next -> e ∈ arr_parts value).
Proof.
  intros cache next. pose proof (runs_ok heap calls) as Hok. fold cache in Hok.
  unfold activeTurnSequence. fold next.
  rewrite (surjective_pairing (retainUnchangedSequenceParts _ _ _)). cbv beta iota.
  split_and!; [by apply retain_content|apply (retain_ok _ _ _ Hok)|by apply retain_fetch|].
  intros previous Hp Hnd. split.
  - intros Heq. apply (retain_same _ _ _ _ Hp Heq). by rewrite <- Heq.
  - intros e He Hin. by eapply retain_part_kept.
Qed.

(** ** The completed turn *)

(** An agent message with text that is marked as the final answer. *)
Definition isAnswer (heap : nat -> RenderBlock) (block : nat) : bool :=
  speaksUp heap block && bool_decide (phaseOf heap block = Some (js "final_answer")).

Lemma finalScan_spec heap (l : list nat) acc :
  finalScan heap (reverse (imap pair l)) acc
  = match last (indexesOf (fun e => isAnswer heap e.2) l) with
    | Some i => Some i
    | None => match acc with
              | Some i => Some i
              | None => last (indexesOf (fun e => speaksUp heap e.2) l)
              end
    end.
Proof.
  revert acc. induction l as [|b l IH] using rev_ind; intros acc; [by destruct acc|].
  rewrite imap_app, !indexesOf_snoc. simpl. rewrite Nat.add_0_r, reverse_app. simpl.
  rewrite !IH. destruct (isAnswer heap b) eqn:Ea; unfold isAnswer in Ea; destruct (speaksUp heap b);
    try done; simpl in Ea; rewrite ?Ea, ?app_nil_r, ?last_snoc; simpl; try done.
  destruct (last (indexesOf (fun e => isAnswer heap e.2) l)); [done|]. by destruct acc.
Qed.

(** The final answer of a finished turn is the last agent message with text
    that is marked as the final answer, and without one the last with text; the
    history is everything else but user messages, in order. *)
Theorem completed_content heap blocks :
  let content := filter (fun b => negb (isKind heap "userMessage" b)) blocks in
  let answers := indexesOf (fun e => isAnswer heap e.2) content in
  let speaking := indexesOf (fun e => speaksUp heap e.2) content in
  match last (if bool_decide (answers = []) then speaking else answers) with
  | Some i =>
      finalAnswer (completedTurnContent heap blocks) = content !! i
      /\ history (completedTurnContent heap blocks) = delete i content
  | None =>
      finalAnswer (completedTurnContent heap blocks) = None
      /\ history (completedTurnContent heap blocks) = content
  end.
Proof.
  intros content answers speaking. unfold completedTurnContent. fold content.
  rewrite finalScan_spec. fold answers speaking. cbn [finalAnswer history].
  assert (Hi : match last answers with Some i => Some i | None => last speaking end
               = last (if bool_decide (answers = []) then speaking else answers)).
  { case_bool_decide as Ha; [by rewrite Ha|].
    destruct (last answers) eqn:E; [done|]. by apply last_None in E. }
  rewrite Hi. clear Hi. generalize (last (if bool_decide (answers = []) then speaking else answers)).
  intros [i|].
  - split; [done|]. apply cut_position.
  - split; [done|]. transitivity ((imap pair content).*2); [|apply imap_pair_snd]. f_equal.
    apply (filter_all (fun e : nat * nat => bool_decide (None <> Some e.1))).
    intros e _. by apply bool_decide_eq_true.
Qed.

(** ** A turn, evaluated *)

Definition demo_block (key k b : string) (phase : json) : RenderBlock :=
  {| block_key := js key; kind := js k; title := []; body := Some (js b); status := None;
     durationMs := None; tone := Neutral; collapsible := false; raw := JObj [("phase", phase)];
     content := None |}.

Definition demo_heap (i : nat) : RenderBlock :=
  nth i [demo_block "u" "userMessage" "go" JNull; demo_block "c" "commandExecution" "" JNull;
         demo_block "a" "agentMessage" "one" (JStr (js "final_answer"));
         demo_block "d" "fileChange" "" JNull; demo_block "e" "agentMessage" "two" JNull]
    (demo_block "z" "sleep" "" JNull).

Example demo_chronological :
  chronologicalTurnSequence demo_heap [0; 1; 2; 3; 4]
  = [ActivityPart [1] true (js "activity:c"); AgentPart 2 (js "agent:a");
     ActivityPart [3] true (js "activity:d"); AgentPart 4 (js "agent:e")].
Proof. vm_compute. reflexivity. Qed.

Example demo_completed :
  completedTurnContent demo_heap [0; 1; 2; 3; 4]
  = {| finalAnswer := Some 2; history := [1; 3; 4] |}.
Proof. vm_compute. reflexivity. Qed.

(** The second call returns the first call's array, a third keeps its parts. *)
Example demo_retained :
  let call live := activeTurnSequence demo_heap live [] (js "t") in
  let '(c1, v1) := call [(0, 0); (1, 1); (2, 2)] emptyCache in
  let '(c2, v2) := call [(0, 0); (1, 1); (2, 2)] c1 in
  let '(c3, v3) := call [(0, 0); (1, 1); (2, 2); (3, 3)] c2 in
  v2 = v1 /\ (arr_parts v3).*1 = (arr_parts v1).*1 ++ [8] /\ arr_ref v3 <> arr_ref v1.
Proof. vm_compute. split_and!; [reflexivity|reflexivity|discriminate]. Qed.
