(* ===== verification/Delivery.v ===== *)
(** * Pending deliveries and the queue

    Models apps/android/src/data/thread-delivery-state.ts, queue-event.ts,
    queued-input.ts, command-receipt-evidence.ts and the pending entries of
    thread-detail-projection.ts: the delivery states of an authored message,
    how observations of them merge, and the plans that edit the queue. *)
From Stdlib Require Import Sorted.
From S2P Require Import Prelude JsMap Json ThreadItems ThreadEvents.

(** ** Delivery states *)

Inductive PendingDeliveryState :=
| Queued | Sending | CompanionAccepted | AppServerAccepted | Uncertain | Failed
| Accepted | Delivered.

#[export] Instance PendingDeliveryState_eq_dec : EqDecision PendingDeliveryState.
Proof. solve_decision. Defined.

Definition normalizePendingDeliveryState (state : PendingDeliveryState) : PendingDeliveryState :=
  match state with Accepted | Delivered => CompanionAccepted | s => s end.

(** States of the native ledger. *)
Inductive NativeState :=
| NativeQueued | NativeSending | NativeAccepted | NativeDelivered | NativeUncertain | NativeFailed.

Definition pendingDeliveryStateFromNative (state : NativeState) : PendingDeliveryState :=
  match state with
  | NativeAccepted | NativeDelivered => CompanionAccepted
  | NativeQueued => Queued
  | NativeSending => Sending
  | NativeUncertain => Uncertain
  | NativeFailed => Failed
  end.

Inductive HostState := HostQueued | HostUncertain | HostFailed | HostDelivered.

Definition pendingDeliveryStateFromCompanion (state : HostState) : PendingDeliveryState :=
  match state with
  | HostQueued => CompanionAccepted
  | HostUncertain => Uncertain
  | HostFailed => Failed
  | HostDelivered => AppServerAccepted
  end.

Definition deliveryProgressRank (state : PendingDeliveryState) : Z :=
  match normalizePendingDeliveryState state with
  | Queued => 0 | Sending => 1 | CompanionAccepted => 2 | Uncertain => 3 | Failed => 4
  | _ => 5
  end.

(** ** Entries *)

Inductive AttachmentKind := ImageFile | AudioFile | OtherFile.

Record RemoteFileAttachment :=
  { att_id : jstr; att_kind : AttachmentKind; att_name : jstr; att_path : jstr; att_rootId : jstr }.

Record CommandReceipt :=
  { rc_commandId : jstr; rc_itemId : jstr; rc_threadId : jstr; rc_turnId : jstr }.

Inductive DeliveryMethod := TurnStart | TurnSteer.
Inductive Presentation := AsDelivery | AsQueue.

#[export] Instance Presentation_eq_dec : EqDecision Presentation.
Proof. solve_decision. Defined.
#[export] Instance DeliveryMethod_eq_dec : EqDecision DeliveryMethod.
Proof. solve_decision. Defined.
#[export] Instance AttachmentKind_eq_dec : EqDecision AttachmentKind.
Proof. solve_decision. Defined.
#[export] Instance RemoteFileAttachment_eq_dec : EqDecision RemoteFileAttachment.
Proof. solve_decision. Defined.

Record PendingTimelineEntry :=
  { attachments : list RemoteFileAttachment; attempts : Z; commandId : jstr; createdAt : Z;
    lastError : option jstr; method : DeliveryMethod; order : Z; presentation : Presentation;
    entry_text : jstr; updatedAt : Z; workspaceRequestId : option (option jstr);
    confirmation : option CommandReceipt; state : PendingDeliveryState }.

Definition withState (s : PendingDeliveryState) (e : PendingTimelineEntry) : PendingTimelineEntry :=
  {| attachments := attachments e; attempts := attempts e; commandId := commandId e;
     createdAt := createdAt e; lastError := lastError e; method := method e; order := order e;
     presentation := presentation e; entry_text := entry_text e; updatedAt := updatedAt e;
     workspaceRequestId := workspaceRequestId e; confirmation := confirmation e; state := s |}.

Definition withAttachments (l : list RemoteFileAttachment) (e : PendingTimelineEntry)
    : PendingTimelineEntry :=
  {| attachments := l; attempts := attempts e; commandId := commandId e;
     createdAt := createdAt e; lastError := lastError e; method := method e; order := order e;
     presentation := presentation e; entry_text := entry_text e; updatedAt := updatedAt e;
     workspaceRequestId := workspaceRequestId e; confirmation := confirmation e; state := state e |}.

(** [{ ...entry, order, updatedAt }] and the fields an edit replaces. *)
Definition withOrder (o now : Z) (e : PendingTimelineEntry) : PendingTimelineEntry :=
  {| attachments := attachments e; attempts := attempts e; commandId := commandId e;
     createdAt := createdAt e; lastError := lastError e; method := method e; order := o;
     presentation := presentation e; entry_text := entry_text e; updatedAt := now;
     workspaceRequestId := workspaceRequestId e; confirmation := confirmation e; state := state e |}.

Definition withEdit (text : jstr) (l : list RemoteFileAttachment) (now : Z)
    (e : PendingTimelineEntry) : PendingTimelineEntry :=
  {| attachments := l; attempts := attempts e; commandId := commandId e;
     createdAt := createdAt e; lastError := None; method := method e; order := order e;
     presentation := presentation e; entry_text := text; updatedAt := now;
     workspaceRequestId := workspaceRequestId e; confirmation := confirmation e; state := state e |}.

Definition mergePendingAttachments (previous incoming : PendingTimelineEntry)
    : PendingTimelineEntry :=
  match attachments incoming, attachments previous with
  | [], _ :: _ => withAttachments (attachments previous) incoming
  | _, _ => incoming
  end.

Definition isRetry (previousState incomingState : PendingDeliveryState) : bool :=
  bool_decide (previousState = Failed \/ previousState = Uncertain)
  && bool_decide (incomingState = Queued \/ incomingState = Sending
                  \/ incomingState = CompanionAccepted).

Definition mergePendingTimelineEntry (previous incoming : PendingTimelineEntry)
    : PendingTimelineEntry :=
  match confirmation previous, confirmation incoming with
  | Some _, _ => previous
  | None, Some _ => mergePendingAttachments previous incoming
  | None, None =>
      let previousState := normalizePendingDeliveryState (state previous) in
      let incomingState := normalizePendingDeliveryState (state incoming) in
      if bool_decide (previousState = AppServerAccepted) then withState previousState previous
      else if bool_decide (incomingState = AppServerAccepted)
      then mergePendingAttachments previous (withState incomingState incoming)
      else
        let retryStarted := isRetry previousState incomingState in
        let previousRank := deliveryProgressRank previousState in
        let incomingRank := deliveryProgressRank incomingState in
        if negb retryStarted && (incomingRank <? previousRank) then withState previousState previous
        else
          let normalized := withState incomingState incoming in
          if negb retryStarted && (incomingRank =? previousRank)
             && (updatedAt incoming <? updatedAt previous)
          then withState previousState previous
          else mergePendingAttachments previous normalized
  end.

(** ** Plans over the queue

    A row of the timeline, as the plans use it: its id, whether it is a
    pending row, and its entry. *)
Record PendingRow := { row_id : jstr; row_isPending : bool; row_pending : option PendingTimelineEntry }.

Record PendingTimelineMutation :=
  { beforeCommandId : option (option jstr); deletes : list jstr; upserts : list PendingRow }.

(** [row.kind === "pending" && row.pending?.presentation === "queue"]. *)
Definition queuedEntry (row : PendingRow) : option PendingTimelineEntry :=
  entry ← row_pending row;
  if row_isPending row && bool_decide (presentation entry = AsQueue) then Some entry else None.

Definition withPending (entry : PendingTimelineEntry) (row : PendingRow) : PendingRow :=
  {| row_id := row_id row; row_isPending := row_isPending row; row_pending := Some entry |}.

Definition planQueuedEditMutation (row : option PendingRow) (text : jstr)
    (l : list RemoteFileAttachment) (now : Z) : option PendingTimelineMutation :=
  row ← row;
  entry ← queuedEntry row;
  Some {| beforeCommandId := None; deletes := [];
          upserts := [withPending (withEdit text l now entry) row] |}.

Definition planQueuedRemovalMutation (row : option PendingRow) : option PendingTimelineMutation :=
  row ← row;
  _ ← queuedEntry row;
  Some {| beforeCommandId := None; deletes := [row_id row]; upserts := [] |}.

(** The queued rows, by order and then by creation. *)
Definition queueBefore (left right : PendingRow * PendingTimelineEntry) : bool :=
  (order left.2 <? order right.2)
  || ((order left.2 =? order right.2) && (createdAt left.2 <=? createdAt right.2)).

Definition queueRows (candidates : list PendingRow) : list (PendingRow * PendingTimelineEntry) :=
  sortBy queueBefore (omap (fun row => (fun e => (row, e)) <$> queuedEntry row) candidates).

Inductive Direction := Up | Down.

(** [rows[index + direction]]: nothing before the first or after the last. *)
Definition neighborIndex (index : nat) (direction : Direction) : option nat :=
  match direction with
  | Down => Some (S index)
  | Up => match index with O => None | S i => Some i end
  end.

Definition planQueuedMoveMutation (candidates : list PendingRow) (command : jstr)
    (direction : Direction) (now : Z) : option PendingTimelineMutation :=
  let rows := queueRows candidates in
  index ← findIndex (fun r => bool_decide (commandId r.2 = command)) rows;
  current ← rows !! index;
  at_ ← neighborIndex index direction;
  neighbor ← rows !! at_;
  let reordered := <[at_ := current]> (<[index := neighbor]> rows) in
  Some {| beforeCommandId := Some ((fun r => commandId r.2) <$> (reordered !! S at_));
          deletes := [];
          upserts := [withPending (withOrder (order neighbor.2) now current.2) current.1;
                      withPending (withOrder (order current.2) now neighbor.2) neighbor.1] |}.

(** ** Evidence *)

Definition nonEmptyString (v : option json) : option jstr :=
  s ← asString v; if bool_decide (s = []) then None else Some s.

Definition itemReceipts (threadId : jstr) (turnId : option json) (value : json)
    : list CommandReceipt :=
  match asObject (Some value) with
  | Some item =>
      match (if bool_decide (threadId = []) then None else nonEmptyString turnId),
            (if isStr (oget "type" item) "userMessage" then nonEmptyString (oget "id" item) else None),
            nonEmptyString (oget "clientId" item) with
      | Some turnId, Some itemId, Some clientId =>
          [{| rc_commandId := clientId; rc_itemId := itemId; rc_threadId := threadId;
              rc_turnId := turnId |}]
      | _, _, _ => []
      end
  | None => []
  end.

Definition commandReceiptsFromTurn (threadId : jstr) (value : option json) : list CommandReceipt :=
  match asObject value with
  | Some turn =>
      match asArray (oget "items" turn) with
      | Some items => items ≫= itemReceipts threadId (oget "id" turn)
      | None => []
      end
  | None => []
  end.

Definition commandReceiptsFromOperation (threadId : jstr) (operation : jobj) : list CommandReceipt :=
  if kindIs operation "itemUpsert" then
    from_option (itemReceipts threadId (oget "turnId" operation)) [] (oget "item" operation)
  else if kindIs operation "turnStarted" || kindIs operation "turnCompleted" then
    commandReceiptsFromTurn threadId (oget "turn" operation)
  else [].

Definition isClientUserMessage (value : json) : bool :=
  match asObject (Some value) with
  | Some item =>
      isStr (oget "type" item) "userMessage" && bool_decide (is_Some (nonEmptyString (oget "clientId" item)))
  | None => false
  end.

Definition operationConfirmsDeliveredCommand (operation : jobj) : bool :=
  if kindIs operation "itemUpsert" then from_option isClientUserMessage false (oget "item" operation)
  else if negb (kindIs operation "turnStarted") && negb (kindIs operation "turnCompleted") then false
  else
    match turn ← asObject (oget "turn" operation); asArray (oget "items" turn) with
    | Some items => existsb isClientUserMessage items
    | None => false
    end.

(** ** Queued input *)

Record QueuedInput := { qi_attachments : list RemoteFileAttachment; qi_text : jstr }.

Definition kindName (kind : AttachmentKind) : string :=
  match kind with ImageFile => "image" | AudioFile => "audio" | OtherFile => "file" end.

Definition readKind (v : option json) : option AttachmentKind :=
  if isStr v "image" then Some ImageFile
  else if isStr v "audio" then Some AudioFile
  else if isStr v "file" then Some OtherFile else None.

Definition attachmentId (rootId path : jstr) : jstr := rootId ++ [0%N] ++ path.

Definition readAttachment (item : jobj) : option RemoteFileAttachment :=
  if negb (isStr (oget "type" item) "remoteFile") then None
  else
    rootId ← asString (oget "rootId" item);
    path ← asString (oget "path" item);
    name ← asString (oget "name" item);
    kind ← readKind (oget "kind" item);
    Some {| att_id := attachmentId rootId path; att_kind := kind; att_name := name; att_path := path;
            att_rootId := rootId |}.

Definition readInput (st : QueuedInput) (raw : json) : QueuedInput :=
  match asObject (Some raw) with
  | Some item =>
      match (if isStr (oget "type" item) "text" && bool_decide (qi_text st = [])
             then asString (oget "text" item) else None) with
      | Some text => {| qi_attachments := qi_attachments st; qi_text := text |}
      | None =>
          match readAttachment item with
          | Some a => {| qi_attachments := qi_attachments st ++ [a]; qi_text := qi_text st |}
          | None => st
          end
      end
  | None => st
  end.

Definition parseQueuedInput (params : jobj) : QueuedInput :=
  foldl readInput {| qi_attachments := []; qi_text := [] |} (default [] (asArray (oget "input" params))).

Definition attachmentPayload (a : RemoteFileAttachment) : json :=
  JObj [("kind", JStr (js (kindName (att_kind a)))); ("name", JStr (att_name a));
        ("path", JStr (att_path a)); ("rootId", JStr (att_rootId a)); ("type", JStr (js "remoteFile"))].

Definition queuedInputPayload (text : jstr) (l : list RemoteFileAttachment) : list json :=
  (if bool_decide (text = []) then []
   else [JObj [("text", JStr text); ("text_elements", JArr []); ("type", JStr (js "text"))]])
  ++ (attachmentPayload <$> l).

(** ** The host's queue *)

Record HostQueuedPrompt :=
  { hq_commandId : jstr; hq_createdAt : Z; hq_lastError : option jstr; hq_order : Z;
    hq_params : jobj; hq_presentation : Presentation; hq_remoteThreadId : jstr;
    hq_state : HostState; hq_updatedAt : Z; hq_workspaceRequestId : option jstr }.

Definition readPresentation (v : option json) : option Presentation :=
  match v with
  | None => Some AsQueue
  | Some _ => if isStr v "delivery" then Some AsDelivery
              else if isStr v "queue" then Some AsQueue else None
  end.

Definition readHostState (v : option json) : option HostState :=
  if isStr v "queued" then Some HostQueued
  else if isStr v "uncertain" then Some HostUncertain
  else if isStr v "failed" then Some HostFailed
  else if isStr v "delivered" then Some HostDelivered else None.

(** An optional string; [undefined] is refused where the field is required. *)
Definition readNullableString (required : bool) (v : option json) : option (option jstr) :=
  match v with
  | None => if required then None else Some None
  | Some JNull => Some None
  | Some (JStr s) => Some (Some s)
  | Some _ => None
  end.

Definition readHostCommand (entry : json) : option HostQueuedPrompt :=
  command ← asObject (Some entry);
  params ← asObject (oget "params" command);
  commandId ← asString (oget "commandId" command);
  remoteThreadId ← asString (oget "remoteThreadId" command);
  order ← asSafeInt (oget "order" command);
  createdAt ← asSafeInt (oget "createdAt" command);
  updatedAt ← match oget "updatedAt" command with None => Some createdAt | v => asSafeInt v end;
  presentation ← readPresentation (oget "presentation" command);
  workspaceRequestId ← readNullableString false (oget "workspaceRequestId" command);
  state ← readHostState (oget "state" command);
  lastError ← readNullableString true (oget "lastError" command);
  Some {| hq_commandId := commandId; hq_createdAt := createdAt; hq_lastError := lastError;
          hq_order := order; hq_params := params; hq_presentation := presentation;
          hq_remoteThreadId := remoteThreadId; hq_state := state; hq_updatedAt := updatedAt;
          hq_workspaceRequestId := workspaceRequestId |}.

Definition parseHostQueueSnapshot (value : option json) : option (list HostQueuedPrompt) :=
  entries ← asArray value; mapM readHostCommand entries.

Definition hasAppServerAcceptedPendingDelivery (commands : list HostQueuedPrompt)
    (isPending : jstr -> bool) : bool :=
  existsb (fun c => match hq_state c with HostDelivered => isPending (hq_commandId c) | _ => false end)
    commands.

(** A command of the native ledger, as the query below reads it. *)
Record NativeCommandDelivery :=
  { nd_connectionId : jstr; nd_threadId : jstr; nd_method : jstr; nd_state : NativeState;
    nd_commandId : jstr }.

Definition hasUnresolvedDeliveredCommand (deliveries : list NativeCommandDelivery)
    (connectionId threadId : jstr) (isPending : jstr -> bool) : bool :=
  existsb (fun d => bool_decide (nd_connectionId d = connectionId)
                    && bool_decide (nd_threadId d = threadId)
                    && (bool_decide (nd_method d = js "turn/start")
                        || bool_decide (nd_method d = js "turn/steer"))
                    && match nd_state d with NativeDelivered => isPending (nd_commandId d) | _ => false end)
    deliveries.

(** ** Merging observations *)

Definition entry_ok (e : PendingTimelineEntry) : Prop :=
  is_Some (confirmation e) -> state e = AppServerAccepted.

(** The server is known to have the message. *)
Definition settled (e : PendingTimelineEntry) : Prop :=
  normalizePendingDeliveryState (state e) = AppServerAccepted.

Lemma settled_confirmed e : entry_ok e -> is_Some (confirmation e) -> settled e.
Proof. intros H Hc. unfold settled. by rewrite (H Hc). Qed.

Lemma mergeAttachments_fields p i :
  state (mergePendingAttachments p i) = state i
  /\ confirmation (mergePendingAttachments p i) = confirmation i
  /\ updatedAt (mergePendingAttachments p i) = updatedAt i
  /\ attachments (mergePendingAttachments p i)
     = (if bool_decide (attachments i = []) then attachments p else attachments i).
Proof.
  unfold mergePendingAttachments. destruct (attachments i) eqn:Ei, (attachments p) eqn:Ep; simpl;
    by rewrite ?Ei.
Qed.

Lemma normalize_idem s :
  normalizePendingDeliveryState (normalizePendingDeliveryState s) = normalizePendingDeliveryState s.
Proof. by destruct s. Qed.

(** The cases of a merge: the previous entry is kept with its state normalised,
    or the incoming one replaces it and takes over missing attachments. *)
Inductive mergeCase (p i : PendingTimelineEntry) : PendingTimelineEntry -> Prop :=
| Kept :
    confirmation p = None \/ state p = AppServerAccepted ->
    (confirmation p = None -> confirmation i = None) ->
    (confirmation p = None -> settled i -> settled p) ->
    mergeCase p i (withState (normalizePendingDeliveryState (state p)) p)
| Replaced s :
    confirmation p = None ->
    (confirmation i = None -> s = normalizePendingDeliveryState (state i)) ->
    (is_Some (confirmation i) -> s = state i) ->
    (settled p -> is_Some (confirmation i)) ->
    (confirmation i = None ->
       settled i
       \/ isRetry (normalizePendingDeliveryState (state p)) (normalizePendingDeliveryState (state i)) = true
       \/ deliveryProgressRank (state p) <= deliveryProgressRank (state i)) ->
    mergeCase p i (mergePendingAttachments p (withState s i)).

Lemma withState_same e : withState (state e) e = e.
Proof. by destruct e. Qed.

Lemma rank_normalize s : deliveryProgressRank (normalizePendingDeliveryState s) = deliveryProgressRank s.
Proof. by destruct s. Qed.

Lemma merge_cases p i :
  entry_ok p -> entry_ok i -> mergeCase p i (mergePendingTimelineEntry p i).
Proof.
  intros Hp Hi. unfold mergePendingTimelineEntry.
  destruct (confirmation p) as [c|] eqn:Ec.
  { specialize (Hp ltac:(rewrite Ec; eauto)).
    assert (HK : mergeCase p i (withState (normalizePendingDeliveryState (state p)) p))
      by (constructor; [by right|congruence|congruence]).
    rewrite Hp in HK. simpl in HK. by rewrite <- Hp, withState_same in HK. }
  destruct (confirmation i) as [c|] eqn:Ei.
  { rewrite <- (withState_same i) at 2. apply Replaced; try done; congruence. }
  rewrite !rank_normalize. case_bool_decide as Ha.
  { constructor; [by left|done|done]. }
  assert (HR : settled i
       \/ isRetry (normalizePendingDeliveryState (state p)) (normalizePendingDeliveryState (state i)) = true
       \/ deliveryProgressRank (state p) <= deliveryProgressRank (state i) ->
     mergeCase p i (mergePendingAttachments p (withState (normalizePendingDeliveryState (state i)) i))).
  { intros Hcase. apply Replaced; [done|done|intros [? ?]; congruence|intros Hs; by destruct (Ha Hs)|done]. }
  case_bool_decide as Hb; [apply HR; by left|].
  destruct (isRetry _ _) eqn:Hr; simpl; [apply HR; by right; left|].
  destruct (_ <? _) eqn:Hlt; [constructor; [by left|done|done]|].
  bool_prop. destruct (_ =? _) eqn:Heq; simpl; [|apply HR; right; right; lia].
  destruct (updatedAt i <? updatedAt p); [constructor; [by left|done|done]|].
  apply HR. right. right. lia.
Qed.

Lemma merge_ok p i : entry_ok p -> entry_ok i -> entry_ok (mergePendingTimelineEntry p i).
Proof.
  intros Hp Hi. destruct (merge_cases p i Hp Hi) as [|s Hc Hs Hs' _ _]; unfold entry_ok; simpl.
  - intros H'. by rewrite (Hp H').
  - destruct (mergeAttachments_fields p (withState s i)) as (-> & -> & _). simpl.
    intros H'. by rewrite (Hs' H'), (Hi H').
Qed.

Lemma merge_settled p i :
  entry_ok p -> entry_ok i -> settled p \/ settled i -> settled (mergePendingTimelineEntry p i).
Proof.
  intros Hp Hi Hset. destruct (merge_cases p i Hp Hi) as [Hk Hn Hq|s Hc Hs Hs' Hr _]; unfold settled; simpl.
  - rewrite normalize_idem. destruct Hset as [?|Hset]; [done|].
    destruct (confirmation p) eqn:E; [|by apply Hq]. destruct Hk as [?|Hk]; [done|]. by rewrite Hk.
  - destruct (mergeAttachments_fields p (withState s i)) as (-> & _). simpl.
    destruct (confirmation i) as [c|] eqn:E.
    + rewrite (Hs' ltac:(eauto)). by rewrite (Hi ltac:(rewrite E; eauto)).
    + rewrite (Hs eq_refl), normalize_idem. destruct Hset as [Hset|?]; [|done].
      by destruct (Hr Hset).
Qed.

(** The first confirmation wins. *)
Definition firstConfirmation (l : list PendingTimelineEntry) : option CommandReceipt :=
  head (omap confirmation l).

Lemma merge_confirmation p i :
  entry_ok p -> entry_ok i ->
  confirmation (mergePendingTimelineEntry p i) = firstConfirmation [p; i].
Proof.
  intros Hp Hi. unfold firstConfirmation. simpl.
  destruct (merge_cases p i Hp Hi) as [Hk Hn Hq|s Hc _ _ _ _]; simpl.
  - destruct (confirmation p) eqn:E; [done|]. by rewrite Hn.
  - destruct (mergeAttachments_fields p (withState s i)) as (_ & -> & _). simpl.
    rewrite Hc. by destruct (confirmation i).
Qed.

Lemma merge_attachments p i :
  entry_ok p -> entry_ok i -> attachments p <> [] ->
  attachments (mergePendingTimelineEntry p i) <> [].
Proof.
  intros Hp Hi Ha. destruct (merge_cases p i Hp Hi) as [|s _ _ _ _ _]; [done|].
  destruct (mergeAttachments_fields p (withState s i)) as (_ & _ & _ & ->). simpl.
  by case_bool_decide.
Qed.

(** Whether an unconfirmed entry is kept against an unconfirmed observation. *)
Definition keeps (p i : PendingTimelineEntry) : bool :=
  let previousState := normalizePendingDeliveryState (state p) in
  let incomingState := normalizePendingDeliveryState (state i) in
  bool_decide (previousState = AppServerAccepted)
  || (negb (bool_decide (incomingState = AppServerAccepted)) && negb (isRetry previousState incomingState)
      && ((deliveryProgressRank incomingState <? deliveryProgressRank previousState)
          || ((deliveryProgressRank incomingState =? deliveryProgressRank previousState)
              && (updatedAt i <? updatedAt p)))).

Lemma merge_unconfirmed p i :
  confirmation p = None -> confirmation i = None ->
  mergePendingTimelineEntry p i
  = if keeps p i then withState (normalizePendingDeliveryState (state p)) p
    else mergePendingAttachments p (withState (normalizePendingDeliveryState (state i)) i).
Proof.
  intros Hp Hi. unfold mergePendingTimelineEntry, keeps. rewrite Hp, Hi.
  case_bool_decide; simpl; [done|]. case_bool_decide; simpl; [done|].
  destruct (isRetry _ _); simpl; [done|]. destruct (_ <? _); simpl; [done|].
  by destruct ((_ =? _) && _).
Qed.

Lemma withState_idem s s' e : withState s (withState s' e) = withState s e.
Proof. done. Qed.

Lemma mergeAttachments_again p i :
  mergePendingAttachments (mergePendingAttachments p i) i = mergePendingAttachments p i.
Proof.
  unfold mergePendingAttachments. destruct i as [[] ? ? ? ? ? ? ? ? ? ? ? ?]; simpl; [|done].
  by destruct (attachments p) eqn:E.
Qed.

(** An observation seen again changes nothing. *)
Lemma merge_again p i :
  entry_ok p ->
  mergePendingTimelineEntry (mergePendingTimelineEntry p i) i = mergePendingTimelineEntry p i.
Proof.
  intros Hp. destruct (confirmation p) as [cp|] eqn:Ep.
  { unfold mergePendingTimelineEntry. rewrite Ep. by rewrite Ep. }
  destruct (confirmation i) as [ci|] eqn:Ei.
  { unfold mergePendingTimelineEntry at 2 3. rewrite Ep, Ei. unfold mergePendingTimelineEntry.
    destruct (mergeAttachments_fields p i) as (_ & -> & _). by rewrite Ei. }
  rewrite (merge_unconfirmed p i Ep Ei). destruct (keeps p i) eqn:Hk.
  - rewrite merge_unconfirmed by done. unfold keeps in *. simpl. rewrite normalize_idem.
    simpl in Hk. rewrite Hk. done.
  - set (s := normalizePendingDeliveryState (state i)).
    destruct (mergeAttachments_fields p (withState s i)) as (Hs & Hc & Hu & _). simpl in Hs, Hc, Hu.
    rewrite merge_unconfirmed by congruence. unfold keeps. fold s. rewrite Hs, Hu. unfold s at 1 2 3 4 5 6 7 8.
    rewrite !normalize_idem. fold s. rewrite !Z.ltb_irrefl, andb_false_r. simpl.
    rewrite andb_false_r, orb_false_r. case_bool_decide.
    + unfold s at 1. rewrite normalize_idem. fold s. rewrite <- Hs at 1. apply withState_same.
    + replace (withState s i) with (withState s (withState s i)) by done. apply mergeAttachments_again.
Qed.

(** A sequence of observations never takes an accepted message back, keeps the
    first receipt and the attachments; a single one lowers the progress of a
    message only by starting a new attempt at a failed or uncertain one, and
    seeing it again changes nothing. *)
Theorem deliveries_never_regress p observations :
  entry_ok p -> Forall entry_ok observations ->
  let r := foldl mergePendingTimelineEntry p observations in
  entry_ok r
  /\ (settled p \/ Exists settled observations -> settled r)
  /\ confirmation r = firstConfirmation (p :: observations)
  /\ (attachments p <> [] -> attachments r <> [])
  /\ (forall i, entry_ok i ->
        let m := mergePendingTimelineEntry r i in
        (deliveryProgressRank (state m) < deliveryProgressRank (state r) ->
           isRetry (normalizePendingDeliveryState (state r)) (normalizePendingDeliveryState (state i)) = true)
        /\ mergePendingTimelineEntry m i = m).
Proof.
  intros Hp Hobs r.
  assert (Hr : entry_ok r /\ (settled p \/ Exists settled observations -> settled r)
               /\ confirmation r = firstConfirmation (p :: observations)
               /\ (attachments p <> [] -> attachments r <> [])).
  { subst r. induction observations as [|o obs IH] using rev_ind.
    - split_and!; [done|by intros [?|?%Exists_nil]|by unfold firstConfirmation; simpl; destruct (confirmation p)|done].
    - apply Forall_app in Hobs as [Hobs [Ho _]%Forall_cons]. destruct (IH Hobs) as (H1 & H2 & H3 & H4).
      rewrite foldl_app. simpl. split_and!.
      + by apply merge_ok.
      + rewrite Exists_app, Exists_cons, Exists_nil. intros Hs. apply merge_settled; [done|done|]. tauto.
      + rewrite merge_confirmation by done. unfold firstConfirmation in *. simpl. rewrite H3. simpl.
        destruct (confirmation p) as [c|] eqn:Ec; simpl; rewrite ?omap_app; [done|].
        change (list_omap _ _ confirmation obs) with (omap confirmation obs).
        destruct (omap confirmation obs); simpl; by destruct (confirmation o).
      + intros Ha. apply merge_attachments; auto. }
  destruct Hr as (H1 & H2 & H3 & H4). split_and!; [done..|]. intros i Hi. split; [|by apply merge_again].
  destruct (merge_cases r i H1 Hi) as [|s Hc Hs Hs' Hset Hcase]; simpl.
  - rewrite rank_normalize. lia.
  - destruct (mergeAttachments_fields r (withState s i)) as (-> & _). simpl.
    destruct (confirmation i) as [c|] eqn:Ei.
    + rewrite (Hs' ltac:(eauto)), (Hi ltac:(rewrite Ei; eauto)). intros Hlt. exfalso. revert Hlt.
      unfold deliveryProgressRank. destruct (normalizePendingDeliveryState (state r)); simpl; lia.
    + rewrite (Hs eq_refl), rank_normalize. intros Hlt. destruct (Hcase eq_refl) as [Hsi|[?|?]]; [|done|lia].
      exfalso. revert Hlt. unfold settled in Hsi. unfold deliveryProgressRank. rewrite Hsi.
      destruct (normalizePendingDeliveryState (state r)); lia.
Qed.

(** ** Moving a queued message *)

Abbreviation queued := (PendingRow * PendingTimelineEntry)%type.

Lemma queueBefore_total x y : queueBefore x y = true \/ queueBefore y x = true.
Proof.
  unfold queueBefore. destruct (Z.ltb_spec (order x.2) (order y.2)); [by left|].
  destruct (Z.ltb_spec (order y.2) (order x.2)); [by right|].
  replace (order y.2) with (order x.2) by lia. rewrite Z.eqb_refl. simpl.
  destruct (Z.leb_spec (createdAt x.2) (createdAt y.2)); [by left|right]. apply Z.leb_le. lia.
Qed.

Lemma queueBefore_order x y : queueBefore x y = true -> order x.2 <= order y.2.
Proof. unfold queueBefore. intros H. apply orb_true_iff in H as [H|H]; bool_prop; lia. Qed.

Lemma queueBefore_trans x y z : queueBefore x y = true -> queueBefore y z = true -> queueBefore x z = true.
Proof.
  unfold queueBefore. intros H1 H2. apply orb_true_iff.
  apply orb_true_iff in H1 as [H1|H1], H2 as [H2|H2]; bool_prop; try (left; apply Z.ltb_lt; lia).
  right. apply andb_true_iff. split; [apply Z.eqb_eq|apply Z.leb_le]; lia.
Qed.

(** Lists in strictly increasing order are determined by their elements. *)
Definition increasing (l : list queued) : Prop := StronglySorted (fun x y => order x.2 < order y.2) l.

Lemma ordered_increasing l :
  ordered queueBefore l -> NoDup ((fun r => order r.2) <$> l) -> increasing l.
Proof.
  induction l as [|x l IH]; [constructor|]. intros [Hx Hl]%ordered_cons [Hn Hnd]%NoDup_cons.
  constructor; [by apply IH|]. rewrite Forall_forall in Hx |- *. intros y Hy.
  specialize (Hx y Hy). apply queueBefore_order in Hx.
  assert (order x.2 <> order y.2); [|lia].
  intros Heq. apply Hn. rewrite Heq. by apply (list_elem_of_fmap_2 (fun r : queued => order r.2)).
Qed.

Lemma increasing_keys l l' :
  increasing l -> (fun r : queued => order r.2) <$> l = (fun r => order r.2) <$> l' -> increasing l'.
Proof.
  intros H. revert l'. induction H as [|x l H IH Hx]; intros [|y l'] Heq; simplify_eq/=; [constructor|].
  constructor; [by apply IH|]. rewrite Forall_forall in Hx |- *. intros z Hz.
  assert (order z.2 ∈ (fun r : queued => order r.2) <$> l) as (w & Hw & Hin)%list_elem_of_fmap.
  { match goal with H : _ <$> l = _ <$> l' |- _ => rewrite H end.
    by apply (list_elem_of_fmap_2 (fun r : queued => order r.2)). }
  specialize (Hx w Hin). lia.
Qed.

Lemma increasing_unique l1 l2 : increasing l1 -> increasing l2 -> l1 ≡ₚ l2 -> l1 = l2.
Proof.
  intros H1. revert l2. induction H1 as [|x l1 H1 IH Hx]; intros l2 H2 Hp.
  - by apply Permutation_nil_l in Hp.
  - destruct H2 as [|y l2 H2 Hy]; [by apply Permutation_nil_r in Hp|].
    rewrite Forall_forall in Hx, Hy. assert (x = y) as <-.
    { assert (Hxin : x ∈ y :: l2) by (rewrite <- Hp; set_solver).
      assert (Hyin : y ∈ x :: l1) by (rewrite Hp; set_solver).
      apply elem_of_cons in Hxin as [->|Hxin]; [done|].
      apply elem_of_cons in Hyin as [->|Hyin]; [done|].
      specialize (Hx y Hyin). specialize (Hy x Hxin). lia. }
    f_equal. apply IH; [done|]. by apply (inj (cons x)) in Hp.
Qed.

Lemma increasing_NoDup l : increasing l -> NoDup ((fun q : queued => order q.2) <$> l).
Proof.
  induction 1 as [|x l Hl IH Hx]; simpl; [constructor|]. constructor; [|done].
  intros (y & Hy & Hin)%list_elem_of_fmap. rewrite Forall_forall in Hx. specialize (Hx y Hin). lia.
Qed.

(** The rows after the upserts of a mutation. *)
Definition applyUpserts (ups rows : list PendingRow) : list PendingRow :=
  (fun row => default row (find (fun u => bool_decide (row_id u = row_id row)) ups)) <$> rows.

Definition toQueued (row : PendingRow) : option queued := (fun e => (row, e)) <$> queuedEntry row.

Lemma toQueued_Some row q :
  toQueued row = Some q <->
  q.1 = row /\ row_isPending row = true /\ row_pending row = Some q.2 /\ presentation q.2 = AsQueue.
Proof.
  unfold toQueued, queuedEntry. destruct (row_pending row) as [e|]; simpl; [|naive_solver].
  destruct (row_isPending row); simpl; [|naive_solver].
  case_bool_decide; simpl; destruct q; naive_solver.
Qed.

(** The effect of exchanging the orders of two queued rows. *)
Definition exchanged (now : Z) (a b q : queued) : queued :=
  if bool_decide (row_id q.1 = row_id a.1)
  then (withPending (withOrder (order b.2) now a.2) a.1, withOrder (order b.2) now a.2)
  else if bool_decide (row_id q.1 = row_id b.1)
  then (withPending (withOrder (order a.2) now b.2) b.1, withOrder (order a.2) now b.2)
  else q.

Definition exchangeUpserts (now : Z) (a b : queued) : list PendingRow :=
  [(exchanged now a b a).1; (exchanged now a b b).1].

Lemma exchange_rows now a b candidates :
  row_id a.1 <> row_id b.1 ->
  NoDup (row_id <$> candidates) -> toQueued a.1 = Some a -> toQueued b.1 = Some b ->
  a.1 ∈ candidates -> b.1 ∈ candidates ->
  omap toQueued (applyUpserts [withPending (withOrder (order b.2) now a.2) a.1;
                               withPending (withOrder (order a.2) now b.2) b.1] candidates)
  = exchanged now a b <$> omap toQueued candidates.
Proof.
  intros Hab Hnd Ha Hb Hina Hinb.
  assert (Hsame : forall r, r ∈ candidates -> forall q : queued, q.1 ∈ candidates ->
                  row_id r = row_id q.1 -> r = q.1).
  { intros r Hr q Hq Heq. apply list_elem_of_lookup in Hr as [i Hi], Hq as [j Hj].
    assert (i = j); [|congruence].
    apply (NoDup_lookup _ i j (row_id r) Hnd); rewrite list_lookup_fmap; [by rewrite Hi|by rewrite Hj, Heq]. }
  clear Hnd. unfold applyUpserts. rename candidates into l.
  assert (Hl : forall r, r ∈ l -> r ∈ l) by done. revert Hl. generalize l at 1 3 4. intros k Hk.
  induction k as [|row k IH]; [done|]. simpl.
  specialize (IH ltac:(intros; apply Hk; set_solver)).
  assert (Hrow : row ∈ l) by (apply Hk; set_solver).
  destruct (toQueued row) as [q|] eqn:Eq.
  - apply toQueued_Some in Eq as Hq. destruct Hq as (Hq1 & Hq2 & Hq3 & Hq4). simpl.
    unfold exchanged at 1. rewrite Hq1.
    assert (Hup : forall (x : queued) o, toQueued x.1 = Some x ->
              toQueued (withPending (withOrder o now x.2) x.1)
              = Some (withPending (withOrder o now x.2) x.1, withOrder o now x.2)).
    { intros x o (_ & H2 & H3 & H4)%toQueued_Some. by apply toQueued_Some. }
    destruct (decide (row_id row = row_id a.1)) as [Hra|Hra].
    + rewrite (bool_decide_true (row_id a.1 = row_id row)), (bool_decide_true (row_id row = row_id a.1)) by done.
      simpl. rewrite (Hup a) by done. f_equal. exact IH.
    + rewrite (bool_decide_false (row_id a.1 = row_id row)), (bool_decide_false (row_id row = row_id a.1)) by congruence.
      destruct (decide (row_id row = row_id b.1)) as [Hrb|Hrb].
      * rewrite (bool_decide_true (row_id b.1 = row_id row)), (bool_decide_true (row_id row = row_id b.1)) by done.
        simpl. rewrite (Hup b) by done. f_equal. exact IH.
      * rewrite (bool_decide_false (row_id b.1 = row_id row)), (bool_decide_false (row_id row = row_id b.1)) by congruence.
        simpl. rewrite Eq. f_equal. exact IH.
  - assert (row_id row <> row_id a.1) as Hra.
    { intros H. apply (Hsame row Hrow a Hina) in H. congruence. }
    assert (row_id row <> row_id b.1) as Hrb.
    { intros H. apply (Hsame row Hrow b Hinb) in H. congruence. }
    rewrite (bool_decide_false (row_id a.1 = row_id row)), (bool_decide_false (row_id b.1 = row_id row)) by congruence.
    simpl. rewrite Eq. exact IH.
Qed.

Lemma queueRows_elem candidates q :
  q ∈ queueRows candidates -> q.1 ∈ candidates /\ toQueued q.1 = Some q.
Proof.
  unfold queueRows. rewrite sortBy_perm. intros (row & Hr & Hq)%list_elem_of_omap.
  pose proof Hq as (-> & _)%toQueued_Some. done.
Qed.

Definition commandsOf (l : list queued) : list jstr := (fun q => commandId q.2) <$> l.

(** Moving a queued message past its neighbour exchanges exactly these two in
    the queue, whatever the direction, provided the orders are distinct: the
    plan exists, applying its rows sorts to the exchanged queue, and the anchor
    it names is the message now following the moved one. *)
Theorem queue_move_exchanges candidates pre a b post direction now :
  NoDup (row_id <$> candidates) ->
  queueRows candidates = pre ++ a :: b :: post ->
  NoDup ((fun q : queued => order q.2) <$> queueRows candidates) ->
  NoDup (commandsOf (queueRows candidates)) ->
  exists m,
    planQueuedMoveMutation candidates
      (commandId (match direction with Down => a | Up => b end).2) direction now = Some m
    /\ commandsOf (queueRows (applyUpserts (upserts m) candidates)) = commandsOf (pre ++ b :: a :: post)
    /\ deletes m = []
    /\ beforeCommandId m = Some (match direction with
                                 | Down => (fun q => commandId q.2) <$> head post
                                 | Up => Some (commandId a.2)
                                 end).
Proof.
  intros Hids Hrows Hord Hcmd.
  assert (Hin : forall q, q ∈ pre ++ a :: b :: post -> q.1 ∈ candidates /\ toQueued q.1 = Some q).
  { intros q Hq. apply queueRows_elem. by rewrite Hrows. }
  destruct (Hin a ltac:(set_solver)) as [Hina Hqa]. destruct (Hin b ltac:(set_solver)) as [Hinb Hqb].
  assert (Hinc : increasing (pre ++ a :: b :: post)).
  { rewrite <- Hrows. apply ordered_increasing; [|done].
    apply sortBy_ordered; [apply queueBefore_total|apply queueBefore_trans]. }
  assert (Hself : forall q q', q ∈ pre ++ a :: b :: post -> q' ∈ pre ++ a :: b :: post ->
                  row_id q.1 = row_id q'.1 -> q = q').
  { intros q q' [H1 H2]%Hin [H3 H4]%Hin Heq. apply list_elem_of_lookup in H1 as [i Hi], H3 as [j Hj].
    assert (i = j) as <-.
    { apply (NoDup_lookup _ i j (row_id q.1) Hids); rewrite list_lookup_fmap;
        [by rewrite Hi|by rewrite Hj, Heq]. }
    congruence. }
  assert (Hndq : NoDup (pre ++ a :: b :: post)).
  { rewrite Hrows in Hord. by apply NoDup_fmap_1 in Hord. }
  pose proof Hndq as (_ & Hpre & [Ha Hb]%NoDup_cons)%NoDup_app. apply NoDup_cons in Hb as [Hb _].
  assert (Hne : a <> b) by (intros ->; set_solver).
  assert (Hab : row_id a.1 <> row_id b.1) by (intros H; apply Hne, Hself; [set_solver..|done]).
  set (g := exchanged now a b).
  assert (Hg : forall q, q ∈ pre \/ q ∈ post -> g q = q).
  { intros q Hq. unfold g, exchanged.
    rewrite (bool_decide_false (row_id q.1 = row_id a.1)), (bool_decide_false (row_id q.1 = row_id b.1)); [done|..].
    - intros H. assert (q = b) as -> by (apply Hself; [set_solver..|done]).
      destruct Hq as [Hq|Hq]; [apply (Hpre b Hq)|]; set_solver.
    - intros H. assert (q = a) as -> by (apply Hself; [set_solver..|done]).
      destruct Hq as [Hq|Hq]; [apply (Hpre a Hq)|]; set_solver. }
  assert (Hga : order (g a).2 = order b.2 /\ commandId (g a).2 = commandId a.2)
    by (unfold g, exchanged; by rewrite bool_decide_true).
  assert (Hgb : order (g b).2 = order a.2 /\ commandId (g b).2 = commandId b.2)
    by (unfold g, exchanged; rewrite bool_decide_false by congruence; by rewrite bool_decide_true).
  assert (Hgp : g <$> pre = pre) by (rewrite <- (list_fmap_id pre) at 2; apply list_fmap_ext;
    intros i q Hq%list_elem_of_lookup_2; apply Hg; by left).
  assert (Hgq : g <$> post = post) by (rewrite <- (list_fmap_id post) at 2; apply list_fmap_ext;
    intros i q Hq%list_elem_of_lookup_2; apply Hg; by right).
  set (a' := withPending (withOrder (order b.2) now a.2) a.1).
  set (b' := withPending (withOrder (order a.2) now b.2) b.1).
  assert (Hafter : commandsOf (queueRows (applyUpserts [a'; b'] candidates))
                   = commandsOf (pre ++ b :: a :: post)).
  { assert (Hq : queueRows (applyUpserts [a'; b'] candidates) ≡ₚ pre ++ g b :: g a :: post).
    { unfold queueRows. rewrite sortBy_perm.
      change (omap _ (applyUpserts [a'; b'] candidates)) with (omap toQueued (applyUpserts [a'; b'] candidates)).
      unfold a', b'. rewrite (exchange_rows now a b) by done. fold g.
      rewrite <- (sortBy_perm queueBefore (omap toQueued candidates)).
      change (sortBy queueBefore (omap toQueued candidates)) with (queueRows candidates).
      rewrite Hrows, fmap_app, !fmap_cons, Hgp, Hgq. by rewrite (Permutation_swap (g a)). }
    assert (HT : increasing (pre ++ g b :: g a :: post)).
    { apply (increasing_keys _ _ Hinc). rewrite !fmap_app. simpl.
      by rewrite (proj1 Hga), (proj1 Hgb). }
    assert (Heq : queueRows (applyUpserts [a'; b'] candidates) = pre ++ g b :: g a :: post).
    { apply increasing_unique; [|exact HT|exact Hq]. apply ordered_increasing.
      - apply sortBy_ordered; [apply queueBefore_total|apply queueBefore_trans].
      - rewrite Hq. apply increasing_NoDup, HT. }
    rewrite Heq. unfold commandsOf. rewrite !fmap_app. simpl. by rewrite (proj2 Hga), (proj2 Hgb). }
  assert (Hswap : applyUpserts [b'; a'] candidates = applyUpserts [a'; b'] candidates).
  { unfold applyUpserts. apply list_fmap_ext. intros i row _. simpl.
    destruct (decide (row_id b.1 = row_id row)) as [Hr|Hr].
    - rewrite (bool_decide_true (row_id b.1 = row_id row)),
        (bool_decide_false (row_id a.1 = row_id row)) by congruence. done.
    - by rewrite (bool_decide_false (row_id b.1 = row_id row)) by done. }
  rewrite Hrows in Hcmd. unfold commandsOf in Hcmd. rewrite fmap_app in Hcmd. simpl in Hcmd.
  apply NoDup_app in Hcmd as (_ & Hcp & [Hca Hcb]%NoDup_cons).
  assert (Hfp : forall c, c ∈ (fun q : queued => commandId q.2) <$> a :: b :: post ->
                Forall (fun r : queued => bool_decide (commandId r.2 = c) = false) pre).
  { intros c Hc. apply Forall_forall. intros r Hr. apply bool_decide_eq_false. intros <-.
    apply (Hcp (commandId r.2)); [|done].
    by apply (list_elem_of_fmap_2 (fun q : queued => commandId q.2)). }
  assert (Hat : (pre ++ a :: b :: post) !! length pre = Some a) by (by apply list_lookup_middle).
  assert (Hat' : (pre ++ a :: b :: post) !! S (length pre) = Some b).
  { rewrite lookup_app_r by lia. by replace (S (length pre) - length pre)%nat with 1%nat by lia. }
  assert (Hfa : findIndex (fun r : queued => bool_decide (commandId r.2 = commandId a.2))
                  (pre ++ a :: b :: post) = Some (length pre)).
  { apply findIndex_app_stop; [apply Hfp; set_solver|by apply bool_decide_eq_true]. }
  assert (Hfb : findIndex (fun r : queued => bool_decide (commandId r.2 = commandId b.2))
                  (pre ++ a :: b :: post) = Some (S (length pre))).
  { replace (pre ++ a :: b :: post) with ((pre ++ [a]) ++ b :: post) by (by rewrite <- (assoc_L (++))).
    rewrite findIndex_app_stop; [|..|by apply bool_decide_eq_true].
    - rewrite length_app. simpl. f_equal. lia.
    - apply Forall_app. split; [apply Hfp; set_solver|]. apply Forall_cons. split; [|done].
      apply bool_decide_eq_false. set_solver. }
  assert (Hlen : (S (length pre) < length (pre ++ a :: b :: post))%nat) by (rewrite length_app; simpl; lia).
  unfold planQueuedMoveMutation. rewrite Hrows. destruct direction.
  - rewrite Hfb. simpl. rewrite Hat'. simpl. rewrite Hat. simpl.
    eexists. split; [done|]. cbn [upserts deletes beforeCommandId]. fold a' b'. rewrite Hswap.
    split; [done|]. split; [done|]. f_equal.
    rewrite list_lookup_insert_ne by lia. by rewrite list_lookup_insert_eq.
  - rewrite Hfa. simpl. rewrite Hat. simpl. rewrite Hat'. simpl.
    eexists. split; [done|]. cbn [upserts deletes beforeCommandId]. fold a' b'.
    split; [done|]. split; [done|]. f_equal.
    rewrite !list_lookup_insert_ne by lia. rewrite lookup_app_r by lia.
    replace (S (S (length pre)) - length pre)%nat with 2%nat by lia. by destruct post.
Qed.

(** ** Round trips of the queue's wire forms *)

Lemma readKind_name k : readKind (Some (JStr (js (kindName k)))) = Some k.
Proof. by destruct k. Qed.

(** An attachment as a reader knows it: the id is not written, and is made again
    from the place of the file. *)
Definition identified (a : RemoteFileAttachment) : RemoteFileAttachment :=
  {| att_id := attachmentId (att_rootId a) (att_path a); att_kind := att_kind a;
     att_name := att_name a; att_path := att_path a; att_rootId := att_rootId a |}.

Lemma identified_id a :
  identified a = a <-> att_id a = attachmentId (att_rootId a) (att_path a).
Proof.
  destruct a as [id kind name path root]. unfold identified. simpl.
  split; [by intros [= <-]|by intros <-].
Qed.

Lemma readAttachment_payload a o :
  attachmentPayload a = JObj o -> readAttachment o = Some (identified a).
Proof.
  intros [= <-]. unfold readAttachment.
  change (oget "kind" _) with (Some (JStr (js (kindName (att_kind a))))).
  by rewrite readKind_name.
Qed.

Lemma readInput_attachments st l :
  foldl readInput st (attachmentPayload <$> l)
  = {| qi_attachments := qi_attachments st ++ (identified <$> l); qi_text := qi_text st |}.
Proof.
  revert st. induction l as [|a l IH]; intros st; simpl.
  - rewrite app_nil_r. by destruct st.
  - rewrite IH. unfold readInput at 1 2. simpl asObject. cbv iota.
    rewrite (readAttachment_payload a _ eq_refl). simpl. by rewrite <- (assoc_L (++)).
Qed.

(** C37. Whatever was written as queue input, the queue editor reads back the same
    text and the same attachments in the same order, with their names, kinds, roots
    and paths; their ids are not written, so each is the one made of root and path,
    and the input is read back unchanged exactly when the ids were of that form. *)
Theorem queued_input_roundtrip text l :
  let read := parseQueuedInput [("input", JArr (queuedInputPayload text l))] in
  read = {| qi_attachments := identified <$> l; qi_text := text |}
  /\ (read = {| qi_attachments := l; qi_text := text |} <->
      Forall (fun a => att_id a = attachmentId (att_rootId a) (att_path a)) l).
Proof.
  intros read.
  assert (Hread : read = {| qi_attachments := identified <$> l; qi_text := text |}).
  { unfold read, parseQueuedInput. simpl default. unfold queuedInputPayload.
    rewrite foldl_app, readInput_attachments. by case_bool_decide; simplify_eq/=. }
  split; [done|]. rewrite Hread. split.
  - intros Hl. injection Hl as Hl. clear read Hread. induction l as [|a l IH]; [done|].
    rewrite fmap_cons in Hl. apply (inj2 cons) in Hl as [Ha Hl].
    apply Forall_cons. split; [by apply identified_id|by apply IH].
  - intros Hl. f_equal. clear read Hread. induction Hl as [|a l Ha _ IH]; [done|].
    by rewrite fmap_cons, IH, (proj2 (identified_id a) Ha).
Qed.

(** The host's own encoding of a queued command. *)
Definition hostCommandJson (c : HostQueuedPrompt) : json :=
  JObj [("commandId", JStr (hq_commandId c)); ("createdAt", JNum (NInt (hq_createdAt c)));
        ("lastError", jopt (hq_lastError c)); ("order", JNum (NInt (hq_order c)));
        ("params", JObj (hq_params c));
        ("presentation", JStr (js (match hq_presentation c with AsDelivery => "delivery" | AsQueue => "queue" end)));
        ("remoteThreadId", JStr (hq_remoteThreadId c));
        ("state", JStr (js (match hq_state c with HostQueued => "queued" | HostUncertain => "uncertain"
                                               | HostFailed => "failed" | HostDelivered => "delivered" end)));
        ("updatedAt", JNum (NInt (hq_updatedAt c)));
        ("workspaceRequestId", jopt (hq_workspaceRequestId c))].

Definition host_ok (c : HostQueuedPrompt) : Prop :=
  safe (hq_createdAt c) /\ safe (hq_order c) /\ safe (hq_updatedAt c).

Lemma readHostCommand_json c : host_ok c -> readHostCommand (hostCommandJson c) = Some c.
Proof.
  intros (H1 & H2 & H3). destruct c as [id ca le o ps pr rt st ua ws]. simpl in *.
  pose proof (asSafeInt_int _ H1) as E1. pose proof (asSafeInt_int _ H2) as E2.
  pose proof (asSafeInt_int _ H3) as E3. unfold asSafeInt in E1, E2, E3.
  unfold readHostCommand, hostCommandJson, asSafeInt. simpl.
  destruct (Z.abs ca <=? max_safe_integer); [|done]. destruct (Z.abs o <=? max_safe_integer); [|done].
  destruct (Z.abs ua <=? max_safe_integer); [|done].
  destruct pr, st, le, ws; reflexivity.
Qed.

Lemma readHostCommand_ok v c : readHostCommand v = Some c -> host_ok c.
Proof.
  unfold readHostCommand. destruct v as [| | | | |command]; try done. simpl.
  intros H. repeat (apply bind_Some in H as (? & ? & H)). simplify_eq. unfold host_ok. simpl.
  split_and!; try (by eapply asSafeInt_safe).
  apply (asSafeInt_safe (match oget "updatedAt" command with
                         | None => Some (JNum (NInt x3)) | v => v end)).
  pose proof (asSafeInt_int _ (asSafeInt_safe _ _ H4)) as Hx.
  destruct (oget "updatedAt" command); [done|congruence].
Qed.

Lemma mapM_all {A B} (f : A -> option B) l k :
  mapM f l = Some k <-> Forall2 (fun x y => f x = Some y) l k.
Proof. apply mapM_Some. Qed.

(** A queue snapshot is read whole or refused: the commands are those of its
    entries in order with integers in range, one unreadable entry refuses all
    of them, and the host's encoding reads back as the commands it wrote. *)
Theorem queue_snapshot_sound entries :
  (forall commands, parseHostQueueSnapshot (Some (JArr entries)) = Some commands ->
     Forall2 (fun e c => readHostCommand e = Some c) entries commands /\ Forall host_ok commands)
  /\ (forall e, e ∈ entries -> readHostCommand e = None ->
       parseHostQueueSnapshot (Some (JArr entries)) = None)
  /\ (forall commands, Forall host_ok commands ->
       parseHostQueueSnapshot (Some (JArr (hostCommandJson <$> commands))) = Some commands).
Proof.
  unfold parseHostQueueSnapshot. simpl. split_and!.
  - intros commands H%mapM_all. split; [done|].
    induction H as [|e c es cs He _ IH]; constructor; [by eapply readHostCommand_ok|done].
  - intros e He Hn. destruct (mapM readHostCommand entries) as [cs|] eqn:E; [|done].
    apply mapM_all in E. apply list_elem_of_lookup in He as [i Hi].
    destruct (Forall2_lookup_l _ _ _ _ _ E Hi) as (c & _ & Hc). congruence.
  - intros commands H. apply mapM_all. induction H as [|c cs Hc _ IH]; simpl; constructor; [|done].
    by apply readHostCommand_json.
Qed.

(** ** Evidence of delivery *)

Lemma itemReceipts_user threadId turnId item r :
  r ∈ itemReceipts threadId turnId item -> isClientUserMessage item = true.
Proof.
  unfold itemReceipts, isClientUserMessage. destruct (asObject (Some item)) as [o|]; [|by intros ?%elem_of_nil].
  destruct (if bool_decide (threadId = []) then _ else _); [|by intros ?%elem_of_nil].
  destruct (isStr (oget "type" o) "userMessage"); simpl; [|by intros ?%elem_of_nil].
  destruct (nonEmptyString (oget "id" o)); [|by intros ?%elem_of_nil].
  destruct (nonEmptyString (oget "clientId" o)); [|by intros ?%elem_of_nil]. done.
Qed.

(** A receipt names the client id of a user message of the operation, carries
    no empty identity, and is never read from an operation the cheaper test
    does not take for evidence. *)
Theorem receipts_are_evidence threadId operation r :
  r ∈ commandReceiptsFromOperation threadId operation ->
  operationConfirmsDeliveredCommand operation = true
  /\ rc_threadId r = threadId /\ threadId <> [] /\ rc_commandId r <> [] /\ rc_itemId r <> []
  /\ rc_turnId r <> []
  /\ exists item o, asObject (Some item) = Some o /\ isClientUserMessage item = true
       /\ oget "clientId" o = Some (JStr (rc_commandId r)) /\ oget "id" o = Some (JStr (rc_itemId r)).
Proof.
  assert (Hitem : forall turnId item, r ∈ itemReceipts threadId turnId item ->
    rc_threadId r = threadId /\ threadId <> [] /\ rc_commandId r <> [] /\ rc_itemId r <> []
    /\ rc_turnId r <> []
    /\ exists item o, asObject (Some item) = Some o /\ isClientUserMessage item = true
         /\ oget "clientId" o = Some (JStr (rc_commandId r)) /\ oget "id" o = Some (JStr (rc_itemId r))).
  { intros turnId item Hr. pose proof (itemReceipts_user _ _ _ _ Hr) as Hu.
    assert (Hne : forall v s, nonEmptyString v = Some s -> v = Some (JStr s) /\ s <> []).
    { intros v s Hs. unfold nonEmptyString in Hs. apply bind_Some in Hs as (s' & Hs' & Hs).
      apply asString_Some in Hs'. case_bool_decide; simplify_eq. done. }
    unfold itemReceipts in Hr. destruct (asObject (Some item)) as [o|] eqn:Eo; [|by apply elem_of_nil in Hr].
    case_bool_decide; [by apply elem_of_nil in Hr|].
    destruct (nonEmptyString turnId) as [t|] eqn:Et; [|by apply elem_of_nil in Hr].
    destruct (isStr (oget "type" o) "userMessage"); [|by apply elem_of_nil in Hr].
    destruct (nonEmptyString (oget "id" o)) as [i|] eqn:Ei; [|by apply elem_of_nil in Hr].
    destruct (nonEmptyString (oget "clientId" o)) as [c|] eqn:Ec; [|by apply elem_of_nil in Hr].
    apply list_elem_of_singleton in Hr as ->. simpl.
    apply Hne in Et as [_ ?], Ei as [? ?], Ec as [? ?]. split_and!; [done..|]. by exists item, o. }
  unfold commandReceiptsFromOperation, operationConfirmsDeliveredCommand.
  destruct (kindIs operation "itemUpsert").
  - destruct (oget "item" operation) as [item|]; simpl; [|by intros ?%elem_of_nil].
    intros Hr. split; [by eapply itemReceipts_user|by eapply Hitem].
  - destruct (kindIs operation "turnStarted" || kindIs operation "turnCompleted") eqn:Hk;
      [|by intros ?%elem_of_nil].
    rewrite <- negb_orb, Hk. simpl. unfold commandReceiptsFromTurn.
    destruct (asObject (oget "turn" operation)) as [turn|]; simpl; [|by intros ?%elem_of_nil].
    destruct (asArray (oget "items" turn)) as [items|]; [|by intros ?%elem_of_nil].
    intros (item & Hr & Hin)%list_elem_of_bind. split; [|by eapply Hitem].
    apply existsb_elem. exists item. split; [done|]. by eapply itemReceipts_user.
Qed.

(** ** Witnesses *)

Definition demo_entry (id : string) (o : Z) (s : PendingDeliveryState) : PendingTimelineEntry :=
  {| attachments := []; attempts := 0; commandId := js id; createdAt := 0; lastError := None;
     method := TurnStart; order := o; presentation := AsQueue; entry_text := js id; updatedAt := 0;
     workspaceRequestId := None; confirmation := None; state := s |}.

Definition demo_queue : list PendingRow :=
  [{| row_id := js "r1"; row_isPending := true; row_pending := Some (demo_entry "b" 20 Queued) |};
   {| row_id := js "r2"; row_isPending := true; row_pending := Some (demo_entry "a" 10 Queued) |};
   {| row_id := js "r3"; row_isPending := true; row_pending := Some (demo_entry "c" 30 Queued) |}].

Lemma deliveries_never_regress_witness :
  Forall entry_ok [demo_entry "a" 1 AppServerAccepted; demo_entry "a" 1 Failed]
  /\ settled (foldl mergePendingTimelineEntry (demo_entry "a" 1 Sending)
                [demo_entry "a" 1 AppServerAccepted; demo_entry "a" 1 Failed]).
Proof.
  assert (H : Forall entry_ok [demo_entry "a" 1 AppServerAccepted; demo_entry "a" 1 Failed])
    by (repeat constructor; intros [? [=]]).
  split; [exact H|].
  destruct (deliveries_never_regress (demo_entry "a" 1 Sending)
              [demo_entry "a" 1 AppServerAccepted; demo_entry "a" 1 Failed]) as (_ & Hs & _).
  - intros [? [=]].
  - exact H.
  - apply Hs. right. by left.
Defined.

Lemma queue_move_exchanges_witness :
  exists m, planQueuedMoveMutation demo_queue (js "b") Up 5 = Some m
    /\ commandsOf (queueRows (applyUpserts (upserts m) demo_queue)) = [js "b"; js "a"; js "c"].
Proof.
  destruct (queueRows demo_queue) as [|a [|b post]] eqn:E; [vm_compute in E; discriminate..|].
  destruct (queue_move_exchanges demo_queue [] a b post Up 5) as (m & Hm & Hc & _).
  - apply (bool_decide_unpack _). vm_compute. exact I.
  - exact E.
  - apply (bool_decide_unpack _). vm_compute. exact I.
  - apply (bool_decide_unpack _). vm_compute. exact I.
  - vm_compute in E. injection E as <- <- <-. exists m. split; [exact Hm|]. rewrite Hc. reflexivity.
Defined.

Definition demo_file (id : jstr) : RemoteFileAttachment :=
  {| att_id := id; att_kind := AudioFile; att_name := js "n"; att_path := js "p"; att_rootId := js "r" |}.

(** An attachment whose id the editor chose comes back under the id of its place. *)
Lemma queued_input_roundtrip_witness :
  parseQueuedInput [("input", JArr (queuedInputPayload (js "hi") [demo_file (js "file")]))]
  = {| qi_attachments := [demo_file (attachmentId (js "r") (js "p"))]; qi_text := js "hi" |}
  /\ parseQueuedInput [("input", JArr (queuedInputPayload (js "hi")
                                        [demo_file (attachmentId (js "r") (js "p"))]))]
     = {| qi_attachments := [demo_file (attachmentId (js "r") (js "p"))]; qi_text := js "hi" |}.
Proof.
  split.
  - exact (proj1 (queued_input_roundtrip (js "hi") [demo_file (js "file")])).
  - apply (proj2 (proj2 (queued_input_roundtrip (js "hi")
                           [demo_file (attachmentId (js "r") (js "p"))]))).
    by repeat constructor.
Defined.

Lemma queue_snapshot_sound_witness :
  parseHostQueueSnapshot (Some (JArr [JObj []])) = None.
Proof.
  apply (proj1 (proj2 (queue_snapshot_sound [JObj []])) (JObj [])); [set_solver|reflexivity].
Defined.

Definition demo_operation : jobj :=
  [("kind", JStr (js "itemUpsert")); ("turnId", JStr (js "u"));
   ("item", JObj [("type", JStr (js "userMessage")); ("id", JStr (js "i")); ("clientId", JStr (js "c"))])].

Lemma receipts_are_evidence_witness :
  operationConfirmsDeliveredCommand demo_operation = true.
Proof.
  apply (receipts_are_evidence (js "t") demo_operation
           {| rc_commandId := js "c"; rc_itemId := js "i"; rc_threadId := js "t"; rc_turnId := js "u" |}).
  vm_compute. left.
Defined.
