(* ===== verification/ProjectionGate.v ===== *)
(** * Ordered projection and acknowledgement

    Models apps/android/src/native/ordered-projection-gate.ts and
    ordered-projection-acknowledger.ts, and
    apps/android/src/data/serial-task-queue.ts.  A class of the source is a
    record of state; each await cuts a method in two handlers, and the promise
    it waits for settles as an event.  What the loops did with each work is
    kept in a trace. *)
From S2P Require Import Prelude.

(** What became of a work: it was fulfilled, it failed, or it was dropped
    without being started. *)
Inductive Fate := Fulfilled | Rejected | Dropped.

#[export] Instance Fate_eq_dec : EqDecision Fate.
Proof. solve_decision. Defined.

(** ** The gate

    [ProjectionWork]: what the gate asks of a work.  [apply] is what the owner
    of the gate does when the work is launched; [mergeWith] absent is [None]. *)
Class ProjectionWork (W : Type) :=
  { recovery : W -> bool;
    mergeWith : W -> W -> option W }.

Section gate.
Context {W C : Type} `{ProjectionWork W}.

(** [current] is the work whose [apply()] is awaited, with the call; the flag
    [#running] is set exactly while there is one. *)
Record OrderedProjectionGate :=
  { queue : list W; current : option (W * C); blocked : bool;
    idleWaiters : list nat; resumed : list nat; trace : list (W * Fate) }.

Definition emptyGate : OrderedProjectionGate :=
  {| queue := []; current := None; blocked := false; idleWaiters := []; resumed := []; trace := [] |}.

(** The queue after [enqueue]: the last work not yet started absorbs the new
    one, or the new one is appended. *)
Definition pushWork (work : W) (q : list W) : list W :=
  match last q with
  | Some pending =>
      match mergeWith pending work with
      | Some merged => take (length q - 1) q ++ [merged]
      | None => q ++ [work]
      end
  | None => q ++ [work]
  end.

(** The loop up to its next await: the works it drops, the one it starts and
    the rest. *)
Fixpoint shiftWork (isBlocked : bool) (q : list W) : list W * option W * list W :=
  match q with
  | [] => ([], None, [])
  | work :: q =>
      if isBlocked && negb (recovery work) then
        let '(dropped, started, rest) := shiftWork isBlocked q in (work :: dropped, started, rest)
      else ([], Some work, q)
  end.

(** [#drain] from its start, or from after an iteration; [launch] calls
    [apply]. With nothing left the idle waiters are resumed. *)
Definition drain (launch : W -> C) (g : OrderedProjectionGate) : OrderedProjectionGate :=
  let '(dropped, started, rest) := shiftWork (blocked g) (queue g) in
  {| queue := rest; current := (fun work => (work, launch work)) <$> started; blocked := blocked g;
     idleWaiters := match started with Some _ => idleWaiters g | None => [] end;
     resumed := match started with Some _ => resumed g | None => resumed g ++ idleWaiters g end;
     trace := trace g ++ ((fun work => (work, Dropped)) <$> dropped) |}.

Definition enqueue (launch : W -> C) (work : W) (g : OrderedProjectionGate) : OrderedProjectionGate :=
  let g := {| queue := pushWork work (queue g); current := current g; blocked := blocked g;
              idleWaiters := idleWaiters g; resumed := resumed g; trace := trace g |} in
  match current g with Some _ => g | None => drain launch g end.

(** The awaited [apply()] settles: fulfilled, with [acknowledge()] called and
    returned, or not. *)
Definition applySettles (launch : W -> C) (ok : bool) (g : OrderedProjectionGate)
    : OrderedProjectionGate :=
  match current g with
  | None => g
  | Some (work, _) =>
      drain launch
        {| queue := queue g; current := None;
           blocked := if ok then (if recovery work then false else blocked g) else true;
           idleWaiters := idleWaiters g; resumed := resumed g;
           trace := trace g ++ [(work, if ok then Fulfilled else Rejected)] |}
  end.

(** [settled()] of caller [n]. *)
Definition settled (n : nat) (g : OrderedProjectionGate) : OrderedProjectionGate :=
  match current g, queue g with
  | None, [] =>
      {| queue := queue g; current := current g; blocked := blocked g;
         idleWaiters := idleWaiters g; resumed := resumed g ++ [n]; trace := trace g |}
  | _, _ =>
      {| queue := queue g; current := current g; blocked := blocked g;
         idleWaiters := idleWaiters g ++ [n]; resumed := resumed g; trace := trace g |}
  end.

Inductive GateEvent := Enqueue (work : W) | ApplySettles (ok : bool) | Settled (n : nat).

Definition gateStep (launch : W -> C) (g : OrderedProjectionGate) (e : GateEvent)
    : OrderedProjectionGate :=
  match e with
  | Enqueue work => enqueue launch work g
  | ApplySettles ok => applySettles launch ok g
  | Settled n => settled n g
  end.

End gate.

Arguments OrderedProjectionGate : clear implicits.
Arguments GateEvent : clear implicits.

(** ** The acknowledger

    The promise chain [#tail] is the list of works whose turn has not ended;
    [recoveryOf] is their [recovery] field. *)
Section acknowledger.
Context {A : Type} (recoveryOf : A -> bool).

Record OrderedProjectionAcknowledger :=
  { tail : list A; ackBlocked : bool; ackTrace : list (A * Fate) }.

Definition emptyAcknowledger : OrderedProjectionAcknowledger :=
  {| tail := []; ackBlocked := false; ackTrace := [] |}.

Definition enqueueAck (work : A) (s : OrderedProjectionAcknowledger)
    : OrderedProjectionAcknowledger :=
  {| tail := tail s ++ [work]; ackBlocked := ackBlocked s; ackTrace := ackTrace s |}.

(** The turn of the first work, up to its end: skipped, or its checkpoint
    settled ([ok] and [acknowledge()] returned, or not). *)
Definition ackTurn (ok : bool) (s : OrderedProjectionAcknowledger)
    : OrderedProjectionAcknowledger :=
  match tail s with
  | [] => s
  | work :: rest =>
      if ackBlocked s && negb (recoveryOf work) then
        {| tail := rest; ackBlocked := ackBlocked s; ackTrace := ackTrace s ++ [(work, Dropped)] |}
      else
        {| tail := rest;
           ackBlocked := if ok then (if recoveryOf work then false else ackBlocked s) else true;
           ackTrace := ackTrace s ++ [(work, if ok then Fulfilled else Rejected)] |}
  end.

End acknowledger.

Arguments OrderedProjectionAcknowledger : clear implicits.

(** ** The serial task queue

    [pendingTasks] are the accepted tasks not yet settled, the first one
    running; a [close()] waits until [accepted] tasks have settled. *)
Section tasks.
Context {T : Type}.

Record SerialTaskQueue :=
  { closed : bool; pendingTasks : list T; settledTasks : list (T * bool);
    refused : list T; closers : list (nat * nat) }.

Definition runTask (task : T) (s : SerialTaskQueue) : SerialTaskQueue :=
  if closed s then
    {| closed := closed s; pendingTasks := pendingTasks s; settledTasks := settledTasks s;
       refused := refused s ++ [task]; closers := closers s |}
  else
    {| closed := closed s; pendingTasks := pendingTasks s ++ [task]; settledTasks := settledTasks s;
       refused := refused s; closers := closers s |}.

Definition taskSettles (ok : bool) (s : SerialTaskQueue) : SerialTaskQueue :=
  match pendingTasks s with
  | [] => s
  | task :: rest =>
      {| closed := closed s; pendingTasks := rest; settledTasks := settledTasks s ++ [(task, ok)];
         refused := refused s; closers := closers s |}
  end.

Definition closeQueue (n : nat) (s : SerialTaskQueue) : SerialTaskQueue :=
  {| closed := true; pendingTasks := pendingTasks s; settledTasks := settledTasks s;
     refused := refused s;
     closers := closers s ++ [(n, (length (settledTasks s) + length (pendingTasks s))%nat)] |}.

(** The callers whose [close()] has resolved. *)
Definition closeResolved (s : SerialTaskQueue) : list nat :=
  omap (fun c => if (c.2 <=? length (settledTasks s))%nat then Some c.1 else None) (closers s).

Inductive TaskEvent := RunTask (task : T) | TaskSettles (ok : bool) | CloseQueue (n : nat).

Definition taskStep (s : SerialTaskQueue) (e : TaskEvent) : SerialTaskQueue :=
  match e with
  | RunTask task => runTask task s
  | TaskSettles ok => taskSettles ok s
  | CloseQueue n => closeQueue n s
  end.

Definition emptyTasks : SerialTaskQueue :=
  {| closed := false; pendingTasks := []; settledTasks := []; refused := []; closers := [] |}.

End tasks.

Arguments SerialTaskQueue : clear implicits.
Arguments TaskEvent : clear implicits.

(** ** What fails closed

    The contract both loops implement, on the log of fates alone. *)
Section contract.
Context {A : Type} (recoveryOf : A -> bool).

(** Whether the loop is blocked after a log: since the last failure no
    recovery was fulfilled. *)
Definition blockedStep (b : bool) (e : A * Fate) : bool :=
  match e.2 with
  | Fulfilled => if recoveryOf e.1 then false else b
  | Rejected => true
  | Dropped => b
  end.

Definition blockedAfter (log : list (A * Fate)) : bool := foldl blockedStep false log.

(** A work is dropped exactly when the loop is blocked and it is no recovery. *)
Definition failClosed (log : list (A * Fate)) : Prop :=
  forall before e after, log = before ++ e :: after ->
    (e.2 = Dropped <-> blockedAfter before = true /\ recoveryOf e.1 = false).

Lemma blockedAfter_snoc log e : blockedAfter (log ++ [e]) = blockedStep (blockedAfter log) e.
Proof. unfold blockedAfter. by rewrite foldl_app. Qed.

Lemma failClosed_nil : failClosed [].
Proof. intros [|? before] e after [=]. Qed.

Lemma failClosed_snoc log e :
  failClosed log ->
  (e.2 = Dropped <-> blockedAfter log = true /\ recoveryOf e.1 = false) ->
  failClosed (log ++ [e]).
Proof.
  intros Hlog He before e' after Heq.
  destruct after as [|a after _] using rev_ind.
  - apply app_inj_tail in Heq as [<- <-]. done.
  - rewrite app_comm_cons, (assoc_L (++)) in Heq. apply app_inj_tail in Heq as [Heq _].
    by apply (Hlog _ _ _ Heq).
Qed.

Lemma failClosed_app l1 l2 : failClosed (l1 ++ l2) -> failClosed l1.
Proof.
  intros Hl before e after ->. apply (Hl before e (after ++ l2)).
  by rewrite <- (assoc_L (++)).
Qed.

(** An open loop has fulfilled everything since it began, or since a recovery
    it fulfilled. *)
Definition unbroken (log : list (A * Fate)) : Prop :=
  exists before since, log = before ++ since
    /\ Forall (fun e => e.2 = Fulfilled) since
    /\ (before = [] \/ exists r rest, since = (r, Fulfilled) :: rest /\ recoveryOf r = true).

Lemma open_unbroken log : failClosed log -> blockedAfter log = false -> unbroken log.
Proof.
  induction log as [|[w f] log IH] using rev_ind; intros Hc Hb.
  - exists [], []. split_and!; [done|constructor|by left].
  - rewrite blockedAfter_snoc in Hb. unfold blockedStep in Hb. simpl in Hb.
    pose proof (Hc log (w, f) [] eq_refl) as He. apply failClosed_app in Hc.
    assert (Hsnoc : blockedAfter log = false -> f = Fulfilled -> unbroken (log ++ [(w, f)])).
    { intros Hopen ->. destruct (IH Hc Hopen) as (before & since & -> & Hs & Hr).
      exists before, (since ++ [(w, Fulfilled)]). split_and!.
      - by rewrite (assoc_L (++)).
      - apply Forall_app. split; [done|]. by repeat constructor.
      - destruct Hr as [->|(r & rest & -> & Hr)]; [by left|right]. by eexists _, _. }
    destruct f.
    + destruct (recoveryOf w) eqn:Hw; [|by apply Hsnoc].
      exists log, [(w, Fulfilled)]. split_and!; [done|by repeat constructor|right; eauto].
    + done.
    + destruct (proj1 He eq_refl) as [? _]. congruence.
Qed.

End contract.

(** ** The gate implements the contract *)
Section gate_laws.
Context {W C : Type} `{ProjectionWork W} (launch : W -> C).
Abbreviation gate := (OrderedProjectionGate W C).

(** Why a work was started: nothing blocked it. *)
Definition startable (b : bool) (c : option (W * C)) : Prop :=
  forall w call, c = Some (w, call) -> b = false \/ recovery w = true.

Record gate_ok (g : gate) : Prop :=
  { go_closed : failClosed recovery (trace g);
    go_blocked : blocked g = blockedAfter recovery (trace g);
    go_started : startable (blocked g) (current g);
    go_idle : current g = None -> queue g = [] /\ idleWaiters g = [] }.

Definition dropAll (ws : list W) : list (W * Fate) := (fun w => (w, Dropped)) <$> ws.

Lemma dropAll_fst ws : (dropAll ws).*1 = ws.
Proof. induction ws as [|w ws IH]; simpl; [done|]. f_equal. exact IH. Qed.

Lemma blockedAfter_drop log ws : blockedAfter recovery (log ++ dropAll ws) = blockedAfter recovery log.
Proof.
  unfold blockedAfter. rewrite foldl_app. generalize (foldl (blockedStep recovery) false log).
  induction ws as [|w ws IH]; intros b; simpl; [done|]. apply IH.
Qed.

Lemma failClosed_drop log ws :
  failClosed recovery log -> blockedAfter recovery log = true ->
  Forall (fun w => recovery w = false) ws -> failClosed recovery (log ++ dropAll ws).
Proof.
  intros Hl Hb. revert log Hl Hb. induction ws as [|w ws IH]; intros log Hl Hb Hws; simpl.
  - by rewrite app_nil_r.
  - apply Forall_cons in Hws as [Hw Hws].
    change (log ++ (w, Dropped) :: dropAll ws) with (log ++ [(w, Dropped)] ++ dropAll ws).
    rewrite (assoc_L (++)). apply IH; [|by rewrite blockedAfter_snoc|done].
    by apply failClosed_snoc.
Qed.

(** What the loop takes from the queue: a run of live works while blocked, then
    a work it may start, or everything. *)
Lemma shiftWork_spec b q dropped started rest :
  shiftWork b q = (dropped, started, rest) ->
  q = dropped ++ option_list started ++ rest
  /\ Forall (fun w => recovery w = false) dropped
  /\ (dropped <> [] -> b = true)
  /\ (started = None -> rest = [])
  /\ (forall w, started = Some w -> b = false \/ recovery w = true).
Proof.
  revert dropped started rest. induction q as [|w q IH]; intros dropped started rest; simpl.
  { intros [= <- <- <-]. by repeat split. }
  destruct (b && negb (recovery w)) eqn:Hw.
  - destruct (shiftWork b q) as [[d s] r] eqn:E. intros [= <- <- <-].
    destruct (IH _ _ _ eq_refl) as (-> & Hd & _ & Hn & Hs). bool_prop. split_and!; try done.
    by constructor.
  - intros [= <- <- <-]. split_and!; try done. intros ? [= ->].
    apply andb_false_iff in Hw as [->|Hw]; [by left|right]. by apply negb_false_iff.
Qed.

Lemma drain_ok g :
  failClosed recovery (trace g) -> blocked g = blockedAfter recovery (trace g) ->
  gate_ok (drain launch g).
Proof.
  intros Hc Hb. unfold drain. destruct (shiftWork _ _) as [[d s] r] eqn:E.
  apply shiftWork_spec in E as (_ & Hd & Hbd & Hn & Hs).
  split; simpl.
  - destruct d as [|w d]; simpl; [by rewrite app_nil_r|].
    apply (failClosed_drop _ (w :: d)); [done| |done]. rewrite <- Hb. by apply Hbd.
  - change (fmap (fun w => (w, Dropped)) d) with (dropAll d). by rewrite blockedAfter_drop.
  - intros w call Hw. apply fmap_Some in Hw as (w' & Hw' & [= -> ->]). by apply Hs.
  - intros Hnone%fmap_None. subst s. split; [by apply Hn|done].
Qed.

Lemma enqueue_ok w g : gate_ok g -> gate_ok (enqueue launch w g).
Proof.
  intros [Hc Hb Hs Hi]. unfold enqueue. destruct (current g) eqn:E; [|by apply drain_ok].
  by constructor; simpl; rewrite ?E.
Qed.

Lemma applySettles_ok ok g : gate_ok g -> gate_ok (applySettles launch ok g).
Proof.
  intros Hg. unfold applySettles. destruct (current g) as [[w call]|] eqn:E; [|done].
  destruct Hg as [Hc Hb Hs Hi]. rewrite E in Hs. apply drain_ok; simpl.
  - apply failClosed_snoc; [done|]. simpl. split; [by destruct ok|].
    intros [Hblocked Hw]. exfalso. destruct (Hs w call eq_refl); congruence.
  - rewrite blockedAfter_snoc. unfold blockedStep. simpl. rewrite <- Hb. by destruct ok.
Qed.

Lemma settled_ok n g : gate_ok g -> gate_ok (settled n g).
Proof.
  intros [Hc Hb Hs Hi]. unfold settled.
  destruct (current g) eqn:E, (queue g) eqn:Q; constructor; simpl; try done;
    intros; destruct Hi; congruence.
Qed.

Lemma gateStep_ok e g : gate_ok g -> gate_ok (gateStep launch g e).
Proof.
  destruct e; simpl; auto using enqueue_ok, applySettles_ok, settled_ok.
Qed.

Lemma emptyGate_ok : gate_ok emptyGate.
Proof. constructor; simpl; try done. apply failClosed_nil. Qed.

(** Everything enqueued is in the trace, running, or queued, in order; [parts]
    is what a work carries. *)
Section content.
Context {X : Type} (parts : W -> list X).
Hypothesis merge_parts : forall older newer merged,
  mergeWith older newer = Some merged -> parts merged = parts older ++ parts newer.

Definition content (g : gate) : list X :=
  ((trace g).*1 ≫= parts) ++ (option_list (fst <$> current g) ≫= parts) ++ (queue g ≫= parts).

Lemma pushWork_parts w q : pushWork w q ≫= parts = (q ≫= parts) ++ parts w.
Proof.
  unfold pushWork. destruct q as [|p q _] using rev_ind; simpl; [by rewrite app_nil_r|].
  rewrite last_snoc. destruct (mergeWith p w) eqn:E.
  - rewrite length_app. simpl. replace (length q + 1 - 1)%nat with (length q) by lia.
    rewrite take_app_length, !bind_app. simpl. rewrite !app_nil_r, (merge_parts _ _ _ E).
    by rewrite (assoc_L (++)).
  - rewrite !bind_app. simpl. by rewrite !app_nil_r.
Qed.

Lemma drain_content g : current g = None -> content (drain launch g) = content g.
Proof.
  intros Hg. unfold content, drain. rewrite Hg. destruct (shiftWork _ _) as [[d s] r] eqn:E.
  apply shiftWork_spec in E as (-> & _). simpl.
  change (fmap (fun w => (w, Dropped)) d) with (dropAll d).
  rewrite fmap_app, dropAll_fst, !bind_app, <- !(assoc_L (++)). do 2 f_equal. by destruct s.
Qed.

Lemma enqueue_content w g : content (enqueue launch w g) = content g ++ parts w.
Proof.
  unfold enqueue. cbv zeta. cbn [current].
  destruct (current g) eqn:E; [|rewrite drain_content by done];
    unfold content; simpl; rewrite ?E, pushWork_parts; simpl; by rewrite !(assoc_L (++)).
Qed.

Lemma applySettles_content ok g : content (applySettles launch ok g) = content g.
Proof.
  unfold applySettles. destruct (current g) as [[w call]|] eqn:E; [|done].
  rewrite drain_content by done. unfold content. rewrite E. simpl.
  rewrite fmap_app, bind_app. simpl. by rewrite !app_nil_r, (assoc_L (++)).
Qed.

Lemma settled_content n g : content (settled n g) = content g.
Proof. unfold settled. by destruct (current g) eqn:E, (queue g) eqn:Q; unfold content; simpl; rewrite E, ?Q. Qed.

End content.

(** Idle waiters are resumed in the order they came. *)
Definition awaited (g : gate) : list nat := resumed g ++ idleWaiters g.

Lemma drain_awaited g : awaited (drain launch g) = awaited g.
Proof.
  unfold awaited, drain. destruct (shiftWork _ _) as [[d s] r]. destruct s; simpl; [done|].
  by rewrite app_nil_r.
Qed.

Lemma gateStep_awaited e g :
  gate_ok g -> awaited (gateStep launch g e) = awaited g ++ (if e is Settled n then [n] else []).
Proof.
  intros Hg. destruct e as [w|ok|n]; simpl.
  - unfold enqueue. cbv zeta. cbn [current]. destruct (current g); [|rewrite drain_awaited]; unfold awaited; simpl; by rewrite app_nil_r.
  - unfold applySettles. destruct (current g) as [[w call]|]; [rewrite drain_awaited|];
      unfold awaited; simpl; by rewrite app_nil_r.
  - unfold settled, awaited. pose proof (go_idle g Hg) as Hi.
    destruct (current g) eqn:E; simpl; [by rewrite (assoc_L (++))|].
    destruct Hi as [-> ->]; [done|]. simpl. by rewrite !app_nil_r.
Qed.

(** The works left to settle before the gate is idle. *)
Definition left (g : gate) : nat :=
  (length (queue g) + match current g with Some _ => 1 | None => 0 end)%nat.

Lemma drain_left g : current g = None -> (left (drain launch g) <= length (queue g))%nat.
Proof.
  intros Hg. unfold left, drain. destruct (shiftWork _ _) as [[d s] r] eqn:E.
  apply shiftWork_spec in E as (-> & _). simpl. rewrite !length_app. destruct s; simpl; lia.
Qed.

Lemma applySettles_left ok g : (left (applySettles launch ok g) <= left g - 1)%nat \/ current g = None.
Proof.
  unfold applySettles. destruct (current g) as [[w call]|] eqn:E; [left|by right].
  etrans; [by apply drain_left|]. unfold left. rewrite E. simpl. lia.
Qed.

Lemma settles_idle oks g :
  gate_ok g -> (left g <= length oks)%nat ->
  current (foldl (fun g ok => applySettles launch ok g) g oks) = None.
Proof.
  revert g. induction oks as [|ok oks IH]; intros g Hg Hl; simpl in *.
  - unfold left in Hl. destruct (current g); [lia|done].
  - apply IH; [by apply applySettles_ok|].
    destruct (applySettles_left ok g) as [?|Hn]; [lia|].
    unfold applySettles. rewrite Hn. unfold left. rewrite Hn.
    destruct (go_idle g Hg Hn) as [-> _]. simpl. lia.
Qed.

End gate_laws.

(** C27. Over any interleaving of new works, settlements and callers of [settled]:
    what was enqueued is processed once and in order; a live work after a failure
    is dropped until a recovery is fulfilled, and nothing else is; callers are
    resumed in order, all of them when the gate is idle; and the gate becomes idle
    once the works it holds have settled. *)
Theorem gate_fails_closed {W C X} `{ProjectionWork W} (launch : W -> C) (parts : W -> list X)
    (events : list (GateEvent W)) :
  (forall older newer merged,
     mergeWith older newer = Some merged -> parts merged = parts older ++ parts newer) ->
  let g := foldl (gateStep launch) emptyGate events in
  failClosed recovery (trace g)
  /\ content parts g = (omap (fun e => if e is Enqueue w then Some w else None) events ≫= parts)
  /\ resumed g ++ idleWaiters g = omap (fun e => if e is Settled n then Some n else None) events
  /\ (current g = None -> queue g = [] /\ idleWaiters g = [])
  /\ (forall oks, (left g <= length oks)%nat ->
        current (foldl (fun g ok => applySettles launch ok g) g oks) = None).
Proof.
  intros Hm g. subst g.
  set (run := foldl (gateStep launch) emptyGate).
  assert (Hrun : gate_ok (run events)
    /\ content parts (run events) = (omap (fun e => if e is Enqueue w then Some w else None) events ≫= parts)
    /\ awaited (run events) = omap (fun e => if e is Settled n then Some n else None) events).
  { unfold run. induction events as [|e events IH] using rev_ind; [split_and!; [apply emptyGate_ok|done..]|].
    rewrite foldl_app. simpl. destruct IH as (Hok & Hc & Ha). split_and!.
    - by apply gateStep_ok.
    - rewrite omap_app, bind_app, <- Hc. destruct e; simpl.
      + rewrite enqueue_content by done. by rewrite app_nil_r.
      + by rewrite applySettles_content, app_nil_r.
      + by rewrite settled_content, app_nil_r.
    - rewrite gateStep_awaited by done. rewrite omap_app, <- Ha. by destruct e. }
  destruct Hrun as (Hok & Hc & Ha). split_and!; try done.
  - by apply go_closed.
  - by apply go_idle.
  - intros oks Hl. by apply settles_idle.
Qed.

(** ** The acknowledger implements the contract *)
Section acknowledger_laws.
Context {A : Type} (recoveryOf : A -> bool).

Record ack_ok (s : OrderedProjectionAcknowledger A) : Prop :=
  { ao_closed : failClosed recoveryOf (ackTrace s);
    ao_blocked : ackBlocked s = blockedAfter recoveryOf (ackTrace s) }.

Lemma ackTurn_ok ok s : ack_ok s -> ack_ok (ackTurn recoveryOf ok s).
Proof.
  intros [Hc Hb]. unfold ackTurn. destruct (tail s) as [|w rest]; [done|].
  destruct (ackBlocked s && negb (recoveryOf w)) eqn:E; constructor; simpl.
  - apply failClosed_snoc; [done|]. bool_prop. rewrite <- Hb. by split.
  - by rewrite blockedAfter_snoc, <- Hb.
  - apply failClosed_snoc; [done|]. simpl. split; [by destruct ok|]. rewrite <- Hb. intros [H1 H2].
    rewrite H1, H2 in E. done.
  - rewrite blockedAfter_snoc. unfold blockedStep. simpl. rewrite <- Hb. by destruct ok.
Qed.

Lemma enqueueAck_ok w s : ack_ok s -> ack_ok (enqueueAck w s).
Proof. by intros [??]. Qed.

(** What was handed over: the works that had their turn, then those waiting. *)
Definition handed (s : OrderedProjectionAcknowledger A) : list A := (ackTrace s).*1 ++ tail s.

Lemma ackTurn_handed ok s : handed (ackTurn recoveryOf ok s) = handed s.
Proof.
  unfold handed, ackTurn. destruct (tail s) as [|w rest] eqn:E; [by rewrite E|].
  destruct (_ && _); simpl; rewrite fmap_app; simpl; by rewrite <- (assoc_L (++)).
Qed.

Lemma enqueueAck_handed w s : handed (enqueueAck w s) = handed s ++ [w].
Proof. unfold handed. simpl. by rewrite (assoc_L (++)). Qed.

End acknowledger_laws.

(** ** The serial task queue *)

(** Tasks settle in the order they were accepted whatever their outcomes, tasks
    after [close] are refused, and a [close()] has resolved once every task
    accepted before it has settled. *)
Lemma tasks_serial {T} (events : list (TaskEvent T)) :
  let s := foldl taskStep emptyTasks events in
  (settledTasks s).*1 ++ pendingTasks s ++ refused s
    ≡ₚ omap (fun e => if e is RunTask t then Some t else None) events
  /\ (closed s = false -> refused s = [] /\ closers s = [] /\
        (settledTasks s).*1 ++ pendingTasks s
        = omap (fun e => if e is RunTask t then Some t else None) events)
  /\ Forall (fun c => c.2 <= length (settledTasks s) + length (pendingTasks s))%nat (closers s)
  /\ (pendingTasks s = [] -> closeResolved s = (closers s).*1).
Proof.
  intros s.
  assert (Hs : (settledTasks s).*1 ++ pendingTasks s ++ refused s
                 ≡ₚ omap (fun e => if e is RunTask t then Some t else None) events
    /\ (closed s = false -> refused s = [] /\ closers s = [] /\
          (settledTasks s).*1 ++ pendingTasks s
          = omap (fun e => if e is RunTask t then Some t else None) events)
    /\ Forall (fun c => c.2 <= length (settledTasks s) + length (pendingTasks s))%nat (closers s)).
  { subst s. induction events as [|e events IH] using rev_ind; [by split_and!|].
    rewrite foldl_app, omap_app. simpl. set (s := foldl taskStep emptyTasks events) in *.
    destruct IH as (Hp & Hc & Hl). destruct e as [t|ok|n]; simpl.
    - unfold runTask. destruct (closed s) eqn:E; simpl; split_and!; try done.
      + rewrite <- Hp. by rewrite !(assoc_L (++)).
      + rewrite <- Hp. rewrite <- !(assoc_L (++)). do 2 f_equiv. apply Permutation_app_comm.
      + intros _. destruct (Hc eq_refl) as (? & ? & <-). by rewrite (assoc_L (++)).
      + eapply Forall_impl; [exact Hl|]. intros c. rewrite length_app. simpl. lia.
    - unfold taskSettles. rewrite app_nil_r. destruct (pendingTasks s) as [|t rest] eqn:E; [rewrite ?E; by split_and!|].
      simpl. rewrite fmap_app. simpl. rewrite <- !(assoc_L (++)). simpl. split_and!; [done..|].
      eapply Forall_impl; [exact Hl|]. intros c. rewrite length_app. simpl. lia.
    - rewrite app_nil_r. split_and!; [done..|]. apply Forall_app. split; [done|]. by repeat constructor. }
  destruct Hs as (Hp & Hc & Hl). split_and!; try done. intros Hn. unfold closeResolved.
  rewrite Hn in Hl. simpl in Hl. clear -Hl. induction Hl as [|c cs Hc _ IH]; simpl; [done|].
  rewrite (proj2 (Nat.leb_le _ _)) by lia. f_equal. exact IH.
Qed.

(** ** A witness: works that are numbers, live below 100, merging below 10 *)
Record demoWork := { d_values : list nat; d_recovery : bool }.

#[local] Instance demo_work : ProjectionWork demoWork :=
  {| recovery := d_recovery;
     mergeWith := fun a b => if d_recovery a || d_recovery b then None
                             else Some {| d_values := d_values a ++ d_values b; d_recovery := false |} |}.

Definition demo_live n : demoWork := {| d_values := [n]; d_recovery := false |}.
Definition demo_checkpoint n : demoWork := {| d_values := [n]; d_recovery := true |}.

Definition demo_events : list (GateEvent demoWork) :=
  [Enqueue (demo_live 1); Enqueue (demo_live 2); Enqueue (demo_live 3); ApplySettles false;
   Enqueue (demo_checkpoint 4); Enqueue (demo_live 5); ApplySettles true; Settled 7].

Lemma gate_fails_closed_witness :
  failClosed recovery (trace (foldl (gateStep (fun _ => tt)) emptyGate demo_events))
  /\ trace (foldl (gateStep (fun _ => tt)) emptyGate demo_events)
     = [(demo_live 1, Rejected); ({| d_values := [2; 3]%nat; d_recovery := false |}, Dropped);
        (demo_checkpoint 4, Fulfilled)].
Proof.
  split; [|reflexivity].
  apply (gate_fails_closed (fun _ => tt) d_values demo_events).
  intros [a ra] [b rb] m. simpl. destruct (ra || rb); [done|]. by intros [= <-].
Defined.
