(* ===== verification/EngineSession.v ===== *)
(** * The projection side of a native engine session

    Models the class NativeEngineSession of
    apps/android/src/native/native-engine.native.ts as far as it projects what
    the native runtime committed: the events it receives, the drain of the
    committed journal, the works it hands to the projection gate and the
    acknowledger, and the recovery it schedules after a failure.  It also models
    apps/android/src/data/live-event-priority.ts.  The bridge is present; the
    projection, the bridge and the timers answer through events; [parse] is
    [JSON.parse], [None] where it throws. *)
From Stdlib Require Import Sorted.
From S2P Require Import Prelude JsMap Json ProjectionGate.

Record SyncEvent := { se_cursor : Z; se_payload : jobj }.

(** ** Priority of live events *)

Definition IMMEDIATE_EVENT_METHODS : list jstr :=
  js <$> ["turn/started"; "turn/completed"; "item/started"; "item/completed"; "thread/status/changed";
          "thread/tokenUsage/updated"; "serverRequest/resolved"; "item/commandExecution/requestApproval";
          "item/fileChange/requestApproval"; "item/tool/requestUserInput";
          "item/permissions/requestApproval"; "mcpServer/elicitation/request"; "thread/realtime/error";
          "thread/realtime/closed"; "companion/thread/progress"; "companion/thread/invalidated"]%string.

Definition shouldFlushLiveEventsImmediately (events : list SyncEvent) : bool :=
  existsb (fun event => match asString (oget "method" (se_payload event)) with
                        | Some m => bool_decide (m ∈ IMMEDIATE_EVENT_METHODS)
                        | None => false
                        end) events.

(** ** Works

    The works the session enqueues: a batch of events, a snapshot, a range of
    cursors without frames, and a failure to be reported in order. *)
Definition MAX_COALESCED_LIVE_EVENTS : nat := 1024.

Inductive Work :=
| EventWork (events : list SyncEvent) (flushBoundary : bool) (projectionCursor : Z) (recovery : bool)
| SnapshotWork (threads : list json) (cursor : Z)
| SkippedWork (projectionCursor : Z) (recovery : bool)
| FailureWork (recovery : bool).

Definition workRecovery (work : Work) : bool :=
  match work with
  | EventWork _ _ _ recovery | SkippedWork _ recovery | FailureWork recovery => recovery
  | SnapshotWork _ _ => true
  end.

Definition workCursor (work : Work) : option Z :=
  match work with
  | EventWork _ _ cursor _ | SnapshotWork _ cursor | SkippedWork cursor _ => Some cursor
  | FailureWork _ => None
  end.

Definition mergeEventWork (work newer : Work) : option Work :=
  match work, newer with
  | EventWork events flush cursor recovery, EventWork events' flush' cursor' recovery' =>
      if recovery || flush || recovery' then None
      else if (MAX_COALESCED_LIVE_EVENTS <? length events + length events')%nat then None
      else Some (EventWork (events ++ events') flush' cursor' recovery)
  | _, _ => None
  end.

#[export] Instance session_work : ProjectionWork Work :=
  { recovery := workRecovery; mergeWith := mergeEventWork }.

Definition eventProjectionWork (events : list SyncEvent) (projectionCursor : Z) (recovery : bool) : Work :=
  EventWork events (shouldFlushLiveEventsImmediately events) projectionCursor recovery.

(** The works whose [apply] calls the projection. *)
Definition callsProjection (work : Work) : bool :=
  match work with EventWork _ _ _ _ | SnapshotWork _ _ => true | _ => false end.

(** Whether [apply()] is fulfilled: [called] tells that the session was not
    stopped when it started, [ok] what the projection answered. *)
Definition applyOutcome (work : Work) (called ok : bool) : bool :=
  match work with
  | FailureWork _ => false
  | SkippedWork _ _ => true
  | _ => if called then ok else true
  end.

(** What [acknowledge] hands to the acknowledger; [checkpoint] tells that the
    promise is the projection's and not one resolved from the start. *)
Record ProjectionAcknowledgement := { ack_work : Work; checkpoint : bool }.

Definition ackRecovery (a : ProjectionAcknowledgement) : bool := workRecovery (ack_work a).

Definition acknowledgement (work : Work) (called : bool) : ProjectionAcknowledgement :=
  {| ack_work := work; checkpoint := match work with EventWork _ _ _ _ => called | _ => false end |}.

(** ** The session *)

(** What the session asks of the bridge. *)
Inductive Effect :=
| AcknowledgeProjection (cursor : Z)
| ReadCommittedFrames (afterCursor : option Z)
| AttachSocket.

(** The journal drain: not running, awaiting a page for a requested head, or
    ended with its settlement not yet observed. *)
Inductive Drain := NoDrain | Reading (requestedHead : Z) | Ended (ok : bool).

Record Session :=
  { stopped : bool;
    gate : OrderedProjectionGate Work bool;
    acknowledger : OrderedProjectionAcknowledger ProjectionAcknowledgement;
    readCursor : option Z; headCursor : option Z; recoveryRequested : bool; journalDrain : Drain;
    recoveryTimer : option Z; recoveryAttempt : Z; attaching : nat;
    effects : list Effect }.

Definition newSession : Session :=
  {| stopped := false; gate := emptyGate; acknowledger := emptyAcknowledger; readCursor := None;
     headCursor := None; recoveryRequested := false; journalDrain := NoDrain; recoveryTimer := None;
     recoveryAttempt := 0; attaching := 0; effects := [] |}.

(** Assignments. *)
Definition withGate g s :=
  {| stopped := stopped s; gate := g; acknowledger := acknowledger s; readCursor := readCursor s;
     headCursor := headCursor s; recoveryRequested := recoveryRequested s;
     journalDrain := journalDrain s; recoveryTimer := recoveryTimer s;
     recoveryAttempt := recoveryAttempt s; attaching := attaching s; effects := effects s |}.
Definition withAcknowledger a s :=
  {| stopped := stopped s; gate := gate s; acknowledger := a; readCursor := readCursor s;
     headCursor := headCursor s; recoveryRequested := recoveryRequested s;
     journalDrain := journalDrain s; recoveryTimer := recoveryTimer s;
     recoveryAttempt := recoveryAttempt s; attaching := attaching s; effects := effects s |}.
Definition withReadCursor c s :=
  {| stopped := stopped s; gate := gate s; acknowledger := acknowledger s; readCursor := c;
     headCursor := headCursor s; recoveryRequested := recoveryRequested s;
     journalDrain := journalDrain s; recoveryTimer := recoveryTimer s;
     recoveryAttempt := recoveryAttempt s; attaching := attaching s; effects := effects s |}.
Definition withHeadCursor c s :=
  {| stopped := stopped s; gate := gate s; acknowledger := acknowledger s; readCursor := readCursor s;
     headCursor := c; recoveryRequested := recoveryRequested s;
     journalDrain := journalDrain s; recoveryTimer := recoveryTimer s;
     recoveryAttempt := recoveryAttempt s; attaching := attaching s; effects := effects s |}.
Definition withRecoveryRequested b s :=
  {| stopped := stopped s; gate := gate s; acknowledger := acknowledger s; readCursor := readCursor s;
     headCursor := headCursor s; recoveryRequested := b;
     journalDrain := journalDrain s; recoveryTimer := recoveryTimer s;
     recoveryAttempt := recoveryAttempt s; attaching := attaching s; effects := effects s |}.
Definition withDrain d s :=
  {| stopped := stopped s; gate := gate s; acknowledger := acknowledger s; readCursor := readCursor s;
     headCursor := headCursor s; recoveryRequested := recoveryRequested s;
     journalDrain := d; recoveryTimer := recoveryTimer s;
     recoveryAttempt := recoveryAttempt s; attaching := attaching s; effects := effects s |}.
Definition withTimer t n s :=
  {| stopped := stopped s; gate := gate s; acknowledger := acknowledger s; readCursor := readCursor s;
     headCursor := headCursor s; recoveryRequested := recoveryRequested s;
     journalDrain := journalDrain s; recoveryTimer := t;
     recoveryAttempt := n; attaching := attaching s; effects := effects s |}.
Definition withAttaching n s :=
  {| stopped := stopped s; gate := gate s; acknowledger := acknowledger s; readCursor := readCursor s;
     headCursor := headCursor s; recoveryRequested := recoveryRequested s;
     journalDrain := journalDrain s; recoveryTimer := recoveryTimer s;
     recoveryAttempt := recoveryAttempt s; attaching := n; effects := effects s |}.
Definition emit e s :=
  {| stopped := stopped s; gate := gate s; acknowledger := acknowledger s; readCursor := readCursor s;
     headCursor := headCursor s; recoveryRequested := recoveryRequested s;
     journalDrain := journalDrain s; recoveryTimer := recoveryTimer s;
     recoveryAttempt := recoveryAttempt s; attaching := attaching s; effects := effects s ++ [e] |}.

(** [stop()]. *)
Definition stop (s : Session) : Session :=
  {| stopped := true; gate := gate s; acknowledger := acknowledger s; readCursor := None;
     headCursor := None; recoveryRequested := recoveryRequested s;
     journalDrain := journalDrain s; recoveryTimer := None;
     recoveryAttempt := recoveryAttempt s; attaching := attaching s; effects := effects s |}.

(** *** Recovery *)

Definition recoveryDelay (attempt : Z) : Z := Z.min 30000 (500 * 2 ^ Z.min attempt 6).

Definition scheduleProjectionRecovery (s : Session) : Session :=
  match recoveryTimer s with
  | Some _ => s
  | None =>
      if stopped s then s
      else withTimer (Some (recoveryDelay (recoveryAttempt s))) (recoveryAttempt s + 1) s
  end.

Definition recoveryTimerFires (s : Session) : Session :=
  match recoveryTimer s with
  | None => s
  | Some _ =>
      let s := withTimer None (recoveryAttempt s) s in
      if stopped s then s else withAttaching (S (attaching s)) (emit AttachSocket s)
  end.

Definition attachSettles (ok : bool) (s : Session) : Session :=
  match attaching s with
  | O => s
  | S n => let s := withAttaching n s in if ok then s else scheduleProjectionRecovery s
  end.

Definition handleProjectionFailure (s : Session) : Session :=
  scheduleProjectionRecovery (withReadCursor None s).

Definition projectionRecovered (s : Session) : Session := withTimer None 0 s.

(** *** Works in the gate *)

Definition launch (s : Session) (work : Work) : bool := callsProjection work && negb (stopped s).

Definition enqueueWork (work : Work) (s : Session) : Session :=
  withGate (enqueue (launch s) work (gate s)) s.

Definition enqueueSyncEvents (events : list SyncEvent) (projectionCursor : Z) (recovery : bool)
    (s : Session) : Session :=
  enqueueWork (eventProjectionWork events projectionCursor recovery) s.

Definition enqueueSkippedRange (projectionCursor : Z) (recovery : bool) (s : Session) : Session :=
  enqueueWork (SkippedWork projectionCursor recovery) s.

Definition enqueueProjectionFailure (recovery : bool) (s : Session) : Session :=
  enqueueWork (FailureWork recovery) s.

(** The running [apply()] settles; [ok] is the answer of the projection. *)
Definition projectionSettles (ok : bool) (s : Session) : Session :=
  match current (gate s) with
  | None => s
  | Some (work, called) =>
      let fulfilled := applyOutcome work called ok in
      let s :=
        if fulfilled then
          let s := if called && callsProjection work && workRecovery work
                   then projectionRecovered s else s in
          withAcknowledger (enqueueAck (acknowledgement work called) (acknowledger s)) s
        else handleProjectionFailure s in
      withGate (applySettles (launch s) fulfilled (gate s)) s
  end.

(** The turn of the acknowledger; [ok] is how a projection's checkpoint
    settles. *)
Definition acknowledgerTurn (ok : bool) (s : Session) : Session :=
  match tail (acknowledger s) with
  | [] => s
  | a :: _ =>
      let ok := if checkpoint a then ok else true in
      let skipped := ackBlocked (acknowledger s) && negb (ackRecovery a) in
      let s' := withAcknowledger (ackTurn ackRecovery ok (acknowledger s)) s in
      if skipped then s'
      else if ok then
        match workCursor (ack_work a) with
        | Some cursor => if stopped s then s' else emit (AcknowledgeProjection cursor) s'
        | None => s'
        end
      else handleProjectionFailure s'
  end.

(** *** The committed journal *)

(** The head of the loop: the next page is asked for, or the drain ends. *)
Definition drainLoop (s : Session) : Session :=
  if stopped s then withDrain (Ended true) s
  else
    match headCursor s with
    | None => withDrain (Ended true) s
    | Some requestedHead => withDrain (Reading requestedHead) (emit (ReadCommittedFrames (readCursor s)) s)
    end.

Definition requestJournalDrain (head : Z) (recovery : bool) (s : Session) : Session :=
  if (match readCursor s with Some c => head <=? c | None => false end) then s
  else
    let s := withHeadCursor (Some (Z.max (default head (headCursor s)) head)) s in
    let s := withRecoveryRequested (recoveryRequested s || recovery) s in
    match journalDrain s with
    | NoDrain => drainLoop s
    | _ => s
    end.

Section journal.
Variable parse : jstr -> option json.

(** One stored frame after [previousCursor]; [None] where the source throws. *)
Definition readFrame (previousCursor : option Z) (stored : json) : option SyncEvent :=
  o ← asObject (Some stored);
  cursor ← asSafeInt (oget "cursor" o);
  raw ← asString (oget "payload" o);
  value ← parse raw;
  envelope ← asObject (Some value);
  payload ← asObject (oget "payload" envelope);
  if negb (match previousCursor with Some p => cursor <=? p | None => false end)
     && isStr (oget "type" envelope) "event" && isInt (oget "cursor" envelope) cursor
  then Some {| se_cursor := cursor; se_payload := payload |} else None.

Fixpoint readFrames (previousCursor : option Z) (frames : list json) : option (list SyncEvent) :=
  match frames with
  | [] => Some []
  | stored :: frames =>
      event ← readFrame previousCursor stored;
      events ← readFrames (Some (se_cursor event)) frames;
      Some (event :: events)
  end.

(** A cursor of the page that is present and not a safe integer is refused. *)
Definition pageCursor (v : option json) : option (option Z) :=
  match v with None => Some None | Some _ => Some <$> asSafeInt v end.

Definition below (c : option Z) : Z := default (-1) c.

(** A page without frames: a moved head closes the skipped range. *)
Definition emptyPage (requestedHead : Z) (pageHead : option Z) (s : Session) : Session :=
  let s :=
    match pageHead with
    | Some head =>
        if below (readCursor s) <? head then
          withRecoveryRequested false
            (enqueueSkippedRange head (recoveryRequested s) (withReadCursor (Some head) s))
        else s
    | None => s
    end in
  if requestedHead <=? below (readCursor s) then
    withDrain (Ended true)
      (if bool_decide (headCursor s = Some requestedHead) then withHeadCursor None s else s)
  else withDrain (Ended false) s.

(** A page with frames. *)
Definition framesPage (requestedHead : Z) (frames : list json) (s : Session) : Session :=
  match readFrames (readCursor s) frames with
  | None => withDrain (Ended false) s
  | Some events =>
      match last events with
      | None => withDrain (Ended false) s
      | Some latest =>
          let projectionCursor := se_cursor latest in
          let recovery := recoveryRequested s in
          let s := withRecoveryRequested false (withReadCursor (Some projectionCursor) s) in
          let s := enqueueSyncEvents events projectionCursor recovery s in
          if (requestedHead <=? projectionCursor) && bool_decide (headCursor s = Some requestedHead)
          then withDrain (Ended true) (withHeadCursor None s)
          else drainLoop s
      end
  end.

(** The awaited page arrives ([None]: the bridge rejected); the answer is for
    the cursor that was read when it was asked for. *)
Definition pageArrives (page : option json) (s : Session) : Session :=
  match journalDrain s with
  | Reading requestedHead =>
      match
        o ← asObject page;
        frames ← asArray (oget "frames" o);
        base ← pageCursor (oget "baseCursor" o);
        head ← pageCursor (oget "headCursor" o);
        Some (frames, base, head)
      with
      | None => withDrain (Ended false) s
      | Some (frames, base, head) =>
          let s := match readCursor s, base with
                   | None, Some b => withReadCursor (Some b) s
                   | _, _ => s
                   end in
          let s := match head with
                   | Some h => withHeadCursor (Some (Z.max (default h (headCursor s)) h)) s
                   | None => s
                   end in
          match frames with
          | [] => emptyPage requestedHead head s
          | _ => framesPage requestedHead frames s
          end
      end
  | _ => s
  end.

(** The settlement of the drain: [.catch] and [.finally]. *)
Definition drainSettles (s : Session) : Session :=
  match journalDrain s with
  | Ended ok =>
      let s := if ok then s
               else enqueueProjectionFailure true (withReadCursor None (withHeadCursor None s)) in
      let s := withDrain NoDrain s in
      match headCursor s with
      | Some head =>
          if negb (stopped s) && (below (readCursor s) <? head)
          then requestJournalDrain head (recoveryRequested s) s else s
      | None => s
      end
  | _ => s
  end.

(** *** Received events *)

Inductive EventType := SnapshotEvent | PendingRequests | Events | CheckpointEvents | JournalAdvanced
| OtherEvent.

Record NativeEngineEvent :=
  { contractVersion : Z; data : jstr; projectionCursor : option json; ev_type : EventType }.

Definition readSnapshot (event : NativeEngineEvent) : option (list json * Z) :=
  cursor ← asSafeInt (projectionCursor event);
  snapshot ← parse (data event);
  o ← asObject (Some snapshot);
  snapshotCursor ← asSafeInt (oget "cursor" o);
  threads ← asArray (oget "threads" o);
  if cursor =? snapshotCursor then Some (threads, snapshotCursor) else None.

Definition readEventFrame (rawFrame : json) : option SyncEvent :=
  envelope ← asObject (Some rawFrame);
  frame ← asObject (oget "frame" envelope);
  payload ← asObject (oget "payload" frame);
  cursor ← asSafeInt (oget "cursor" frame);
  if isStr (oget "type" frame) "event" then Some {| se_cursor := cursor; se_payload := payload |} else None.

Definition readEventBatch (event : NativeEngineEvent) : option (list SyncEvent * Z) :=
  cursor ← asSafeInt (projectionCursor event);
  value ← parse (data event);
  frames ← asArray (Some value);
  events ← mapM readEventFrame frames;
  latest ← last events;
  if cursor =? se_cursor latest then Some (events, cursor) else None.

(** The signal of an advanced journal: the head, and whether it asks for a
    recovery. Reading a field of [null] throws. *)
Definition readJournalSignal (event : NativeEngineEvent) : option (Z * bool) :=
  cursor ← asSafeInt (projectionCursor event);
  signal ← parse (data event);
  match signal with
  | JNull => None
  | JObj o => Some (cursor, match oget "recovery" o with Some (JBool b) => b | _ => false end)
  | _ => Some (cursor, false)
  end.

Definition receive (event : NativeEngineEvent) (s : Session) : Session :=
  if stopped s then s
  else if negb ((contractVersion event =? 1) || (contractVersion event =? 2)) then s
  else
    match ev_type event with
    | OtherEvent => s
    | PendingRequests =>
        match parse (data event) with
        | Some (JArr _) => s
        | _ => handleProjectionFailure s
        end
    | JournalAdvanced =>
        match readJournalSignal event with
        | Some (head, recovery) => requestJournalDrain head recovery s
        | None => enqueueProjectionFailure true s
        end
    | SnapshotEvent =>
        match readSnapshot event with
        | Some (threads, cursor) =>
            enqueueWork (SnapshotWork threads cursor) (withReadCursor (Some cursor) s)
        | None => enqueueProjectionFailure false s
        end
    | Events =>
        match readEventBatch event with
        | Some (events, cursor) => enqueueSyncEvents events cursor false s
        | None => enqueueProjectionFailure false s
        end
    | CheckpointEvents =>
        match readEventBatch event with
        | Some (events, cursor) => enqueueSyncEvents events cursor true s
        | None => enqueueProjectionFailure true s
        end
    end.

(** ** Interleaving *)

Inductive SessionEvent :=
| Receive (event : NativeEngineEvent)
| ProjectionSettles (ok : bool)
| AcknowledgerTurn (ok : bool)
| PageArrives (page : option json)
| DrainSettles
| RecoveryTimerFires
| AttachSettles (ok : bool)
| Stop.

Definition sessionStep (s : Session) (e : SessionEvent) : Session :=
  match e with
  | Receive event => receive event s
  | ProjectionSettles ok => projectionSettles ok s
  | AcknowledgerTurn ok => acknowledgerTurn ok s
  | PageArrives page => pageArrives page s
  | DrainSettles => drainSettles s
  | RecoveryTimerFires => recoveryTimerFires s
  | AttachSettles ok => attachSettles ok s
  | Stop => stop s
  end.

Definition runSession (events : list SessionEvent) : Session :=
  foldl sessionStep newSession events.

End journal.

(** ** What the gate and the acknowledger hold together *)

Definition fulfilledOf {A} (log : list (A * Fate)) : list A :=
  omap (fun e => match e.2 with Fulfilled => Some e.1 | _ => None end) log.

(** The cursors acknowledged to the bridge, and those the acknowledger's trace
    calls for. *)
Definition acknowledgedCursors (l : list Effect) : list Z :=
  omap (fun e => match e with AcknowledgeProjection c => Some c | _ => None end) l.

Definition cursorsOf (log : list (ProjectionAcknowledgement * Fate)) : list Z :=
  omap (fun a => workCursor (ack_work a)) (fulfilledOf log).

Definition session_ok (s : Session) : Prop :=
  gate_ok (gate s) /\ ack_ok ackRecovery (acknowledger s)
  /\ fulfilledOf (trace (gate s)) = ack_work <$> handed (acknowledger s)
  /\ (stopped s = false -> acknowledgedCursors (effects s) = cursorsOf (ackTrace (acknowledger s))).

Lemma fulfilledOf_app {A} (l k : list (A * Fate)) : fulfilledOf (l ++ k) = fulfilledOf l ++ fulfilledOf k.
Proof. apply omap_app. Qed.

Lemma fulfilledOf_all {A} (l : list (A * Fate)) :
  Forall (fun e => e.2 = Fulfilled) l -> fulfilledOf l = l.*1.
Proof.
  induction 1 as [|[w f] l Hf _ IH]; simpl in *; [done|]. subst f. simpl. f_equal. exact IH.
Qed.

Lemma fulfilledOf_split {A} (log : list (A * Fate)) pre w post :
  fulfilledOf log = pre ++ w :: post ->
  exists l1 l2, log = l1 ++ (w, Fulfilled) :: l2 /\ fulfilledOf l1 = pre.
Proof.
  revert pre. induction log as [|[v f] log IH]; intros pre; simpl; [by destruct pre|].
  assert (Hskip : f <> Fulfilled -> fulfilledOf log = pre ++ w :: post ->
    exists l1 l2, (v, f) :: log = l1 ++ (w, Fulfilled) :: l2 /\ fulfilledOf l1 = pre).
  { intros Hf (l1 & l2 & -> & <-)%IH. exists ((v, f) :: l1), l2. by destruct f. }
  destruct f; [|by apply Hskip|by apply Hskip].
  destruct pre as [|p pre]; intros [= -> Heq].
  - by exists [], log.
  - destruct (IH pre Heq) as (l1 & l2 & -> & <-). by exists ((p, Fulfilled) :: l1), l2.
Qed.

Lemma fulfilledOf_drain {C} (f : Work -> C) g :
  fulfilledOf (trace (drain f g)) = fulfilledOf (trace g).
Proof.
  unfold drain. destruct (shiftWork _ _) as [[d st] r]. simpl. rewrite fulfilledOf_app.
  assert (Hd : fulfilledOf ((fun work => (work, Dropped)) <$> d) = [])
    by (clear; induction d; simpl; auto).
  by rewrite Hd, app_nil_r.
Qed.

Lemma fulfilledOf_enqueue (f : Work -> bool) w g :
  fulfilledOf (trace (enqueue f w g)) = fulfilledOf (trace g).
Proof.
  unfold enqueue. cbv zeta. cbn [current]. destruct (current g); [done|]. by rewrite fulfilledOf_drain.
Qed.

Lemma enqueueWork_ok w s : session_ok s -> session_ok (enqueueWork w s).
Proof.
  intros (Hg & Ha & Hf & Hc). split_and!; simpl; try done; [by apply enqueue_ok|].
  by rewrite fulfilledOf_enqueue.
Qed.

Lemma schedule_ok s : session_ok s -> session_ok (scheduleProjectionRecovery s).
Proof. intros Hs. unfold scheduleProjectionRecovery. by destruct (recoveryTimer s), (stopped s). Qed.

Lemma failure_ok s : session_ok s -> session_ok (handleProjectionFailure s).
Proof. intros Hs. by apply schedule_ok. Qed.

Lemma drainLoop_ok s : session_ok s -> session_ok (drainLoop s).
Proof.
  intros Hs. unfold drainLoop. destruct (stopped s) eqn:E; [exact Hs|].
  destruct (headCursor s); [|exact Hs]. destruct Hs as (Hg & Ha & Hf & Hc). split_and!; try done. simpl.
  intros Hs. unfold acknowledgedCursors. rewrite omap_app. simpl. rewrite app_nil_r. by apply Hc.
Qed.

Lemma requestJournalDrain_ok h r s : session_ok s -> session_ok (requestJournalDrain h r s).
Proof.
  intros Hs. unfold requestJournalDrain.
  destruct (match readCursor s with Some c => h <=? c | None => false end); [done|]. cbv zeta.
  set (s' := withRecoveryRequested _ _). assert (session_ok s') by exact Hs.
  destruct (journalDrain s'); [by apply drainLoop_ok|done|done].
Qed.

Lemma scheduled_same s :
  gate (scheduleProjectionRecovery s) = gate s
  /\ acknowledger (scheduleProjectionRecovery s) = acknowledger s
  /\ stopped (scheduleProjectionRecovery s) = stopped s
  /\ effects (scheduleProjectionRecovery s) = effects s.
Proof.
  unfold scheduleProjectionRecovery. destruct (recoveryTimer s); [done|].
  by destruct (stopped s) eqn:E; split_and!; simpl; rewrite ?E.
Qed.

Lemma projectionSettles_ok ok s : session_ok s -> session_ok (projectionSettles ok s).
Proof.
  intros (Hg & Ha & Hf & Hc). unfold projectionSettles.
  destruct (current (gate s)) as [[w called]|] eqn:E; [|by split_and!].
  set (f := applyOutcome w called ok). set (s1 := if f then _ else _).
  assert (gate s1 = gate s /\ stopped s1 = stopped s /\ effects s1 = effects s
          /\ acknowledger s1 = if f then enqueueAck (acknowledgement w called) (acknowledger s)
                               else acknowledger s) as (E1 & E2 & E3 & E4).
  { subst s1. destruct f; [by destruct (called && callsProjection w && workRecovery w)|].
    unfold handleProjectionFailure. by destruct (scheduled_same (withReadCursor None s)) as (-> & -> & -> & ->). }
  assert (Ht : fulfilledOf (trace (applySettles (launch s1) f (gate s)))
               = fulfilledOf (trace (gate s)) ++ (if f then [w] else [])).
  { unfold applySettles. rewrite E, fulfilledOf_drain. simpl. rewrite fulfilledOf_app. by destruct f. }
  unfold session_ok. cbn [withGate gate acknowledger stopped effects]. rewrite E1, E2, E3, E4, Ht. split_and!.
  - by apply applySettles_ok.
  - destruct f; [by apply enqueueAck_ok|done].
  - rewrite Hf. destruct f; [|by rewrite app_nil_r]. by rewrite enqueueAck_handed, fmap_app.
  - intros Hs. rewrite (Hc Hs). by destruct f.
Qed.

Lemma acknowledgerTurn_ok ok s : session_ok s -> session_ok (acknowledgerTurn ok s).
Proof.
  intros (Hg & Ha & Hf & Hc). unfold acknowledgerTurn.
  destruct (tail (acknowledger s)) as [|a rest] eqn:E; [by split_and!|].
  set (ok' := if checkpoint a then ok else true).
  set (s' := withAcknowledger _ s).
  assert (Hb : gate_ok (gate s') /\ ack_ok ackRecovery (acknowledger s')
               /\ fulfilledOf (trace (gate s')) = ack_work <$> handed (acknowledger s')).
  { subst s'. simpl. split_and!; [done|by apply ackTurn_ok|]. by rewrite ackTurn_handed. }
  assert (Hcur : cursorsOf (ackTrace (acknowledger s')) = cursorsOf (ackTrace (acknowledger s))
     ++ (if ackBlocked (acknowledger s) && negb (ackRecovery a) then []
         else if ok' then option_list (workCursor (ack_work a)) else [])).
  { subst s'. unfold withAcknowledger, ackTurn. cbn [acknowledger]. rewrite E. unfold cursorsOf.
    destruct (_ && _); simpl; rewrite fulfilledOf_app, omap_app; [done|].
    destruct ok'; simpl; [|done]. by destruct (workCursor (ack_work a)). }
  destruct Hb as (H1 & H2 & H3).
  destruct (ackBlocked (acknowledger s) && negb (ackRecovery a)).
  { split_and!; try done. intros Hs. rewrite Hcur, app_nil_r. by apply Hc. }
  destruct ok'.
  - destruct (workCursor (ack_work a)) as [c|]; cbn [option_list] in Hcur.
    + destruct (stopped s) eqn:Hs.
      * split_and!; try done. simpl. by rewrite Hs.
      * split_and!; try done. intros _. cbn [emit effects acknowledger]. rewrite Hcur. unfold acknowledgedCursors.
        rewrite omap_app. f_equal. by apply Hc.
    + split_and!; try done. intros Hs. rewrite Hcur, app_nil_r. by apply Hc.
  - apply failure_ok. split_and!; try done. intros Hs. rewrite Hcur, app_nil_r. by apply Hc.
Qed.

Section reachable.
Variable parse : jstr -> option json.

Lemma pageArrives_ok page s : session_ok s -> session_ok (pageArrives parse page s).
Proof.
  intros Hs. unfold pageArrives. destruct (journalDrain s) as [|h|]; [done| |done].
  set (read := o ← asObject page; _). destruct read as [[[frames base] head]|]; [|exact Hs]. cbv zeta.
  set (s1 := match readCursor s, base with None, Some b => _ | _, _ => _ end).
  assert (H1 : session_ok s1) by (subst s1; by destruct (readCursor s), base).
  set (s2 := match head with Some hd => _ | None => s1 end).
  assert (H2 : session_ok s2) by (subst s2; by destruct head).
  clearbody s2. destruct frames as [|fr frames].
  - unfold emptyPage. set (s3 := match head with Some hd => _ | None => s2 end).
    assert (H3 : session_ok s3).
    { subst s3. destruct head as [hd|]; [|done]. destruct (_ <? hd); [|done].
      by apply (enqueueWork_ok _ (withReadCursor (Some hd) s2)). }
    clearbody s3. destruct (h <=? below (readCursor s3)); [|exact H3].
    by case_bool_decide.
  - unfold framesPage. destruct (readFrames parse _ _) as [events|]; [|exact H2].
    destruct (last events) as [latest|]; [|exact H2]. cbv zeta.
    set (s3 := enqueueSyncEvents _ _ _ _).
    assert (H3 : session_ok s3) by (by apply enqueueWork_ok).
    clearbody s3. destruct (_ && _); [exact H3|by apply drainLoop_ok].
Qed.

Lemma drainSettles_ok s : session_ok s -> session_ok (drainSettles s).
Proof.
  intros Hs. unfold drainSettles. destruct (journalDrain s) as [|h|ok]; [done..|]. cbv zeta.
  set (s1 := withDrain _ _). assert (H1 : session_ok s1).
  { subst s1. destruct ok; [exact Hs|]. by apply (enqueueWork_ok _ (withReadCursor None (withHeadCursor None s))). }
  clearbody s1. destruct (headCursor s1); [|done]. destruct (_ && _); [|done].
  by apply requestJournalDrain_ok.
Qed.

Lemma receive_ok e s : session_ok s -> session_ok (receive parse e s).
Proof.
  intros Hs. unfold receive. destruct (stopped s); [done|]. destruct (negb _); [done|].
  destruct (ev_type e).
  - destruct (readSnapshot parse e) as [[threads c]|]; by apply enqueueWork_ok.
  - destruct (parse (data e)) as [[]|]; try done; by apply failure_ok.
  - destruct (readEventBatch parse e) as [[]|]; by apply enqueueWork_ok.
  - destruct (readEventBatch parse e) as [[]|]; by apply enqueueWork_ok.
  - destruct (readJournalSignal parse e) as [[]|]; [by apply requestJournalDrain_ok|by apply enqueueWork_ok].
  - done.
Qed.

Lemma sessionStep_ok e s : session_ok s -> session_ok (sessionStep parse s e).
Proof.
  destruct e as [ev|ok|ok|page| | |ok|]; simpl; intros Hs.
  - by apply receive_ok.
  - by apply projectionSettles_ok.
  - by apply acknowledgerTurn_ok.
  - by apply pageArrives_ok.
  - by apply drainSettles_ok.
  - unfold recoveryTimerFires. destruct (recoveryTimer s); [|done]. cbv zeta.
    destruct (stopped (withTimer _ _ s)) eqn:E; [exact Hs|].
    destruct Hs as (Hg & Ha & Hf & Hc). split_and!; try done. simpl. intros H. unfold acknowledgedCursors.
    rewrite omap_app. simpl. rewrite app_nil_r. by apply Hc.
  - unfold attachSettles. destruct (attaching s); [done|]. destruct ok; [exact Hs|]. by apply schedule_ok.
  - destruct Hs as (Hg & Ha & Hf & Hc). by split_and!.
Qed.

Lemma runSession_ok events : session_ok (runSession parse events).
Proof.
  unfold runSession. induction events as [|e events IH] using rev_ind.
  - split_and!; simpl; try done; [apply emptyGate_ok|]. constructor; simpl; [apply failClosed_nil|done].
  - rewrite foldl_app. simpl. by apply sessionStep_ok.
Qed.

(** C23. Whatever the interleaving, a live work is acknowledged only when every work
    taken up since the session began, or since an acknowledged or later
    recovery, was projected and its checkpoint reached the disk; none of them
    failed or was dropped. While the session runs, the cursors told to the native
    journal are those of the acknowledged works, in order. *)
Theorem acknowledged_is_durable events earlier a later :
  let s := runSession parse events in
  ackTrace (acknowledger s) = earlier ++ (a, Fulfilled) :: later ->
  ackRecovery a = false ->
  (exists before since rest acks sinceAcks,
     trace (gate s) = before ++ since ++ (ack_work a, Fulfilled) :: rest
     /\ earlier = acks ++ sinceAcks
     /\ Forall (fun e => e.2 = Fulfilled) sinceAcks
     /\ since = (fun e => (ack_work e.1, Fulfilled)) <$> sinceAcks
     /\ (before = [] \/ exists r more, since = (r, Fulfilled) :: more /\ workRecovery r = true))
  /\ (stopped s = false ->
        acknowledgedCursors (effects s) = cursorsOf (ackTrace (acknowledger s))).
Proof.
  intros s Hack Hlive. pose proof (runSession_ok events) as Hok. fold s in Hok. clearbody s.
  destruct Hok as (Hg & Ha & Hf & Hc). split; [|done].
  (* the work in the trace of the gate *)
  unfold handed in Hf. rewrite Hack in Hf. rewrite !fmap_app in Hf. simpl in Hf.
  rewrite <- !(assoc_L (++)) in Hf. simpl in Hf.
  apply fulfilledOf_split in Hf as (taken & rest & Htrace & Htaken).
  (* both loops were open *)
  pose proof (go_closed _ Hg) as Hgc. rewrite Htrace in Hgc.
  pose proof (ao_closed _ _ Ha) as Hac. rewrite Hack in Hac.
  assert (Hopen : forall {A} (rec : A -> bool) l1 e l2, failClosed rec (l1 ++ e :: l2) ->
            e.2 = Fulfilled -> rec e.1 = false -> unbroken rec l1).
  { clear. intros A rec l1 e l2 Hcl He Hr. apply open_unbroken; [by apply failClosed_app in Hcl|].
    destruct (blockedAfter rec l1) eqn:E; [|done].
    pose proof (proj2 (Hcl l1 e l2 eq_refl) (conj E Hr)). congruence. }
  destruct (Hopen _ _ _ _ _ Hgc eq_refl Hlive) as (before & since & -> & Hsince & Hstart).
  destruct (Hopen _ _ _ _ _ Hac eq_refl Hlive) as (acks & sinceAcks & -> & Hacks & Hstart').
  rewrite <- (assoc_L (++)) in Htrace. clear Hgc Hac Hopen Hc Ha Hg.
  rewrite fulfilledOf_app, (fulfilledOf_all _ Hsince), !fmap_app in Htaken.
  assert (Hpair : forall l k, Forall (fun e : Work * Fate => e.2 = Fulfilled) l ->
            l.*1 = ack_work <$> k.*1 -> l = (fun e : ProjectionAcknowledgement * Fate => (ack_work e.1, Fulfilled)) <$> k).
  { clear. intros l. induction l as [|[w f] l IH]; intros [|[b f'] k] Hl; simpl; try done.
    apply Forall_cons in Hl as [Hf Hl]. simpl in Hf. subst f. intros [= -> Heq]. f_equal. by apply IH. }
  destruct (decide (length since <= length sinceAcks)%nat) as [Hle|Hgt].
  - (* the run of the gate is the shorter one *)
    rewrite <- (take_drop (length sinceAcks - length since) sinceAcks) in Htaken, Hacks.
    apply Forall_app in Hacks as [_ Hacks]. rewrite !fmap_app, (assoc_L (++)) in Htaken.
    apply app_inj_2 in Htaken as [_ Heq]; [|rewrite !length_fmap, length_drop; lia].
    eexists before, since, rest, _, (drop (length sinceAcks - length since) sinceAcks).
    split_and!; [done| |done|by apply Hpair|done].
    by rewrite <- (assoc_L (++)), take_drop.
  - (* the run of the acknowledger is the shorter one *)
    rewrite <- (take_drop (length since - length sinceAcks) since) in Htaken, Hsince, Htrace.
    apply Forall_app in Hsince as [_ Hsince]. rewrite !fmap_app, (assoc_L (++)) in Htaken.
    apply app_inj_2 in Htaken as [Hpre Heq]; [|rewrite !length_fmap, length_drop; lia].
    apply Hpair in Heq; [|done].
    destruct Hstart' as [->|(r & more & -> & Hr)].
    + exfalso. apply (f_equal length) in Hpre.
      rewrite length_app, length_fmap, length_take in Hpre. simpl in Hpre. lia.
    + eexists _, _, rest, acks, _. rewrite <- (assoc_L (++)) in Htrace. rewrite (assoc_L (++)) in Htrace.
      split_and!; [exact Htrace|done|done|exact Heq|]. right. rewrite Heq. simpl. by eexists _, _.
Qed.

End reachable.

(** ** Reading the journal *)
Section journal_laws.
Variable parse : jstr -> option json.

Lemma readFrame_above p stored e : readFrame parse (Some p) stored = Some e -> p < se_cursor e.
Proof.
  unfold readFrame. intros H. repeat (apply bind_Some in H as (? & ? & H)).
  destruct (negb _ && _ && _) eqn:E in H; [|done]. bool_prop. by simplify_eq.
Qed.

(** The events of a page have strictly increasing cursors above the one read. *)
Lemma readFrames_increasing p frames events :
  readFrames parse (Some p) frames = Some events ->
  StronglySorted (fun a b => se_cursor a < se_cursor b) events
  /\ Forall (fun e => p < se_cursor e) events.
Proof.
  revert p events. induction frames as [|stored frames IH]; intros p events; simpl.
  - intros [= <-]. split; constructor.
  - intros (e & He & (es & Hes & [= <-])%bind_Some)%bind_Some.
    apply readFrame_above in He. apply IH in Hes as [Hs Hf]. split.
    + by constructor.
    + constructor; [done|]. eapply Forall_impl; [exact Hf|]. simpl. lia.
Qed.

Lemma last_above p frames events latest :
  readFrames parse (Some p) frames = Some events -> last events = Some latest -> p < se_cursor latest.
Proof.
  intros [_ Hf]%readFrames_increasing Hl. apply last_Some_elem_of in Hl.
  by apply (proj1 (Forall_forall _ _) Hf).
Qed.

Lemma drainLoop_read s : readCursor (drainLoop s) = readCursor s.
Proof. unfold drainLoop. by destruct (stopped s), (headCursor s). Qed.

Lemma enqueueWork_read w s : readCursor (enqueueWork w s) = readCursor s.
Proof. done. Qed.

(** A page either fails the drain, or moves the cursor forward: never back, and
    strictly when another page is asked for, so the drain cannot spin. *)
Theorem page_advances s page requestedHead c :
  journalDrain s = Reading requestedHead -> readCursor s = Some c ->
  journalDrain (pageArrives parse page s) = Ended false
  \/ exists c', readCursor (pageArrives parse page s) = Some c' /\ c <= c'
       /\ (journalDrain (pageArrives parse page s) = Ended true
           \/ c < c' /\ exists h, journalDrain (pageArrives parse page s) = Reading h
                                  /\ last (effects (pageArrives parse page s)) = Some (ReadCommittedFrames (Some c'))).
Proof.
  intros Hd Hr. unfold pageArrives. rewrite Hd.
  set (read := o ← asObject page; _). destruct read as [[[frames base] head]|]; [|by left]. cbv zeta.
  rewrite Hr. set (s2 := match head with Some h => _ | None => s end).
  assert (H2 : readCursor s2 = Some c) by (subst s2; by destruct head).
  clearbody s2. destruct frames as [|fr frames].
  - unfold emptyPage. set (s3 := match head with Some h => _ | None => s2 end).
    assert (H3 : exists c', readCursor s3 = Some c' /\ c <= c').
    { subst s3. destruct head as [hd|]; [|exists c; by split]. rewrite H2. simpl.
      destruct (c <? hd) eqn:E; [|exists c; by split]. exists hd. split; [done|]. bool_prop. lia. }
    clearbody s3. destruct H3 as (c' & H3 & Hle). destruct (_ <=? below (readCursor s3)); [|by left].
    right. exists c'. case_bool_decide; simpl; auto.
  - unfold framesPage. rewrite H2. destruct (readFrames parse _ _) as [events|] eqn:Ef; [|by left].
    destruct (last events) as [latest|] eqn:El; [|by left]. cbv zeta.
    pose proof (last_above _ _ _ _ Ef El) as Hlt. right. exists (se_cursor latest).
    set (s3 := enqueueSyncEvents _ _ _ _).
    assert (H3 : readCursor s3 = Some (se_cursor latest)) by done. clearbody s3.
    destruct (_ && _); [simpl; split_and!; [done|lia|by left]|].
    rewrite drainLoop_read. split_and!; [done|lia|]. unfold drainLoop.
    destruct (stopped s3); [by left|]. destruct (headCursor s3) as [h|]; [|by left]. right.
    split; [done|]. exists h. simpl. split; [done|]. by rewrite last_snoc, H3.
Qed.

(** ** A recovery that is not asked for again *)

Definition journalSignal (e : NativeEngineEvent) (head : Z) (recovery : bool) : Prop :=
  ev_type e = JournalAdvanced /\ (contractVersion e = 1 \/ contractVersion e = 2)
  /\ readJournalSignal parse e = Some (head, recovery).

Lemma receive_signal e head recovery s :
  stopped s = false -> journalSignal e head recovery ->
  receive parse e s = requestJournalDrain head recovery s.
Proof.
  intros Hs (Ht & Hv & Hr). unfold receive. rewrite Hs, Ht, Hr.
  by destruct Hv as [-> | ->].
Qed.

(** The gate is blocked and idle, nothing is being read, and no recovery is
    pending or due. *)
Record stalled (s : Session) : Prop :=
  { st_running : stopped s = false; st_blocked : blocked (gate s) = true;
    st_idle : current (gate s) = None; st_queue : queue (gate s) = [];
    st_drain : journalDrain s = NoDrain; st_head : headCursor s = None;
    st_requested : recoveryRequested s = false;
    st_timer : recoveryTimer s = None; st_attaching : attaching s = O }.

Lemma enqueue_blocked (f : Work -> bool) w g :
  blocked g = true -> current g = None -> queue g = [] -> workRecovery w = false ->
  enqueue f w g = {| queue := []; current := None; blocked := true; idleWaiters := [];
                     resumed := resumed g ++ idleWaiters g; trace := trace g ++ [(w, Dropped)] |}.
Proof.
  intros Hb Hc Hq Hw. unfold enqueue. cbv zeta. cbn [current]. rewrite Hc. unfold drain. cbn [queue blocked].
  unfold pushWork. rewrite Hq, Hb. simpl. by rewrite Hw.
Qed.

(** In a stalled session a recovery signal whose head was already read changes
    nothing; and a live advance, read in full, has its events dropped by the gate
    and leaves the session stalled with the head read. *)
Theorem stalled_forever s c :
  stalled s -> readCursor s = Some c ->
  (forall e head, journalSignal e head true -> head <= c -> receive parse e s = s)
  /\ (forall e page o frames events latest,
        asObject page = Some o -> asArray (oget "frames" o) = Some frames ->
        oget "baseCursor" o = None -> oget "headCursor" o = None ->
        readFrames parse (Some c) frames = Some events -> last events = Some latest ->
        journalSignal e (se_cursor latest) false ->
        let s' := foldl (sessionStep parse) s [Receive e; PageArrives page; DrainSettles] in
        stalled s' /\ readCursor s' = Some (se_cursor latest)
        /\ trace (gate s') = trace (gate s)
             ++ [(eventProjectionWork events (se_cursor latest) false, Dropped)]
        /\ acknowledger s' = acknowledger s).
Proof.
  intros Hst Hr. split.
  - intros e head He Hle. rewrite (receive_signal e head true s (st_running s Hst) He).
    unfold requestJournalDrain. rewrite Hr. by rewrite (proj2 (Z.leb_le _ _) Hle).
  - intros e page o frames events latest Ho Hf Hbase Hhead Hev Hl He s'.
    pose proof (last_above _ _ _ _ Hev Hl) as Hlt. destruct Hst as [H1 H2 H3 H4 H5 H6 H7 H8 H9].
    assert (Hs1 : receive parse e s
                  = withDrain (Reading (se_cursor latest))
                      (emit (ReadCommittedFrames (Some c)) (withRecoveryRequested false
                         (withHeadCursor (Some (se_cursor latest)) s)))).
    { rewrite (receive_signal _ _ _ _ H1 He). unfold requestJournalDrain. rewrite Hr.
      rewrite (proj2 (Z.leb_gt _ _) Hlt). cbv zeta. rewrite H6. cbn [default]. rewrite Z.max_id.
      cbn [withRecoveryRequested withHeadCursor recoveryRequested journalDrain]. rewrite H7, H5. cbn [orb].
      unfold drainLoop. cbn [withRecoveryRequested withHeadCursor stopped headCursor readCursor].
      by rewrite H1, Hr. }
    subst s'. simpl. rewrite Hs1.
    set (s1 := withDrain _ _).
    assert (Hs2 : pageArrives parse page s1
      = withDrain (Ended true) (withHeadCursor None (enqueueSyncEvents events (se_cursor latest) false
          (withRecoveryRequested false (withReadCursor (Some (se_cursor latest)) s1))))).
    { unfold pageArrives. subst s1. cbn [withDrain journalDrain]. rewrite Ho. cbn [mbind option_bind].
      rewrite Hf, Hbase, Hhead. cbn [mbind option_bind pageCursor].
      cbn [withDrain withRecoveryRequested withHeadCursor emit readCursor]. rewrite Hr.
      destruct frames as [|fr frames]; [simplify_eq/=|].
      unfold framesPage. cbn [withDrain withRecoveryRequested withHeadCursor emit readCursor]. rewrite Hr, Hev, Hl.
      cbv zeta. cbn [withDrain withRecoveryRequested withHeadCursor emit recoveryRequested].
      rewrite (proj2 (Z.leb_le _ _)) by lia. unfold enqueueSyncEvents at 1, enqueueWork.
      cbn [withGate withRecoveryRequested withReadCursor withDrain withHeadCursor emit headCursor].
      by rewrite bool_decide_eq_true_2. }
    rewrite Hs2. subst s1. clear Hs1 Hs2. unfold drainSettles, enqueueSyncEvents, enqueueWork.
    cbn [withGate withRecoveryRequested withReadCursor withDrain withHeadCursor emit gate journalDrain headCursor].
    rewrite enqueue_blocked by done.
    split_and!; [|done..]. by constructor.
Qed.

End journal_laws.

(** ** Executions *)
Section demo.

Definition demo_int (z : Z) : json := JNum (NInt z).

Definition demo_envelope (c : Z) : json :=
  JObj [("type", JStr (js "event")); ("cursor", demo_int c); ("payload", JObj [])].

(** A parser of the few texts the executions use. *)
Definition demo_parse (s : jstr) : option json :=
  if bool_decide (s = js "live") then Some (JObj [("recovery", JBool false)])
  else if bool_decide (s = js "recover") then Some (JObj [("recovery", JBool true)])
  else if bool_decide (s = js "12") then Some (demo_envelope 12)
  else if bool_decide (s = js "13") then Some (demo_envelope 13)
  else if bool_decide (s = js "14") then Some (demo_envelope 14)
  else None.

Definition demo_journal (head : Z) (text : string) : NativeEngineEvent :=
  {| contractVersion := 1; data := js text; projectionCursor := Some (demo_int head);
     ev_type := JournalAdvanced |}.

Definition demo_frame (c : Z) (text : string) : json :=
  JObj [("cursor", demo_int c); ("payload", JStr (js text))].

Definition demo_page (base : Z) (frames : list json) (head : Z) : option json :=
  Some (JObj [("baseCursor", demo_int base); ("frames", JArr frames); ("headCursor", demo_int head)]).

(** The batch of cursor 12 fails; before the recovery timer fires the journal
    advances to 13 and its events are dropped; the recovery signal of the
    reattached runtime names the same head. *)
Definition demo_stall : list SessionEvent :=
  [Receive (demo_journal 12 "live"); PageArrives (demo_page 11 [demo_frame 12 "12"] 12); DrainSettles;
   ProjectionSettles false;
   Receive (demo_journal 13 "live");
   PageArrives (demo_page 11 [demo_frame 12 "12"; demo_frame 13 "13"] 13); DrainSettles;
   RecoveryTimerFires; Receive (demo_journal 13 "recover"); AttachSettles true].

Lemma demo_stalled : stalled (runSession demo_parse demo_stall).
Proof. by constructor. Qed.

Lemma demo_stall_read : readCursor (runSession demo_parse demo_stall) = Some 13.
Proof. reflexivity. Qed.

Lemma stalled_forever_witness :
  receive demo_parse (demo_journal 13 "recover") (runSession demo_parse demo_stall)
    = runSession demo_parse demo_stall
  /\ stalled (foldl (sessionStep demo_parse) (runSession demo_parse demo_stall)
       [Receive (demo_journal 14 "live"); PageArrives (Some (JObj [("frames", JArr [demo_frame 14 "14"])]));
        DrainSettles]).
Proof.
  destruct (stalled_forever demo_parse (runSession demo_parse demo_stall) 13) as [H1 H2];
    [apply demo_stalled|reflexivity|]. split.
  - apply (H1 _ 13); [|lia]. split_and!; [done|by left|reflexivity].
  - eapply (proj1 (H2 (demo_journal 14 "live") (Some (JObj [("frames", JArr [demo_frame 14 "14"])]))
                     _ _ _ _ eq_refl eq_refl eq_refl eq_refl eq_refl eq_refl _)).
    Unshelve. split_and!; [done|by left|reflexivity].
Defined.

(** A page asked for after cursor 12 arrives when the batch of 12 has failed and
    a recovery was requested: it is applied as the recovery, and cursor 13 is
    acknowledged although the events of 12 were never projected. *)
Definition demo_stale : list SessionEvent :=
  [Receive (demo_journal 12 "live"); PageArrives (demo_page 11 [demo_frame 12 "12"] 12); DrainSettles;
   Receive (demo_journal 13 "live"); ProjectionSettles false;
   Receive (demo_journal 13 "recover");
   PageArrives (demo_page 12 [demo_frame 13 "13"] 13); DrainSettles;
   ProjectionSettles true; AcknowledgerTurn true].

Lemma stale_page_acknowledged :
  let s := runSession demo_parse demo_stale in
  acknowledgedCursors (effects s) = [13]
  /\ fulfilledOf (trace (gate s)) = [EventWork [{| se_cursor := 13; se_payload := [] |}] false 13 true].
Proof. by split. Qed.

(** Two batches projected and acknowledged. *)
Definition demo_good : list SessionEvent :=
  [Receive (demo_journal 12 "live"); PageArrives (demo_page 11 [demo_frame 12 "12"] 12); DrainSettles;
   ProjectionSettles true; Receive (demo_journal 13 "live");
   PageArrives (demo_page 12 [demo_frame 13 "13"] 13); DrainSettles; ProjectionSettles true;
   AcknowledgerTurn true; AcknowledgerTurn true].

Definition demo_ack (c : Z) : ProjectionAcknowledgement :=
  {| ack_work := EventWork [{| se_cursor := c; se_payload := [] |}] false c false; checkpoint := true |}.

Lemma acknowledged_is_durable_witness :
  acknowledgedCursors (effects (runSession demo_parse demo_good)) = [12; 13].
Proof.
  etransitivity;
    [apply (acknowledged_is_durable demo_parse demo_good [(demo_ack 12, Fulfilled)] (demo_ack 13) []);
     reflexivity|reflexivity].
Defined.

Definition demo_reading : Session :=
  runSession demo_parse (take 4 demo_good ++ [Receive (demo_journal 13 "live")]).

Lemma page_advances_witness :
  journalDrain (pageArrives demo_parse (demo_page 12 [demo_frame 13 "13"] 13) demo_reading) = Ended false
  \/ exists c',
    readCursor (pageArrives demo_parse (demo_page 12 [demo_frame 13 "13"] 13) demo_reading) = Some c'
    /\ 12 <= c'.
Proof.
  assert (Hd : journalDrain demo_reading = Reading 13) by (vm_compute; reflexivity).
  assert (Hr : readCursor demo_reading = Some 12) by (vm_compute; reflexivity).
  pose proof (page_advances demo_parse demo_reading (demo_page 12 [demo_frame 13 "13"] 13) 13 12 Hd Hr) as H.
  clear Hd Hr. destruct H as [H|(c' & H & Hle & _)]; [left; exact H|right; exists c'; exact (conj H Hle)].
Defined.

End demo.
