(* ===== verification/AppServer.v ===== *)
(** * The App Server client

    Models packages/app-server-client/src: stdio-client.ts (a JSON-RPC client of
    a child process), json-rpc.ts and read-only-client.ts.  The process, its
    pipes and the timers answer through events: a line of its output, its exit
    or error, a drained pipe, a timeout.  [parse] is [JSON.parse], [None] where it
    throws.  A request is named by its id; the promise it waits for and the
    promise its caller holds settle separately. *)
From S2P Require Import Prelude JsMap Json.

(** ** Frames *)

(** [Buffer.byteLength(s)]: the bytes of the UTF-8 encoding; a lone surrogate is
    encoded as the replacement character. *)
Fixpoint byteLength (s : jstr) : Z :=
  match s with
  | [] => 0
  | c :: s' =>
      if (c <? 128)%N then 1 + byteLength s'
      else if (c <? 2048)%N then 2 + byteLength s'
      else if isHigh c then
        match s' with
        | d :: s'' => if isLow d then 4 + byteLength s'' else 3 + byteLength s'
        | [] => 3
        end
      else 3 + byteLength s'
  end.

Definition STDERR_TAIL_BYTES : nat := 16 * 1024.
Definition DEFAULT_MAX_FRAME_BYTES : Z := 64 * 1024 * 1024.

Record JsonRpcError := { rpc_code : option json; rpc_message : option json; rpc_data : option json }.

(** What a promise settles with. *)
Inductive Outcome :=
| Resolved (result : json)
| RpcRejected (error : JsonRpcError)
| TimedOut | Exited | SpawnFailed | ClientClosed | NotRunning
| FrameTooLong | PipeFailed | OversizedOutput | InvalidJson.

Definition isRejection (o : Outcome) : bool := match o with Resolved _ => false | _ => true end.

Inductive AppServerEvent := RequestEvent (message : json) | NotificationEvent (message : json).

(** [close()]: not called, waiting for the process after its input ended, waiting
    after the kill signal, or finished. *)
Inductive Closing := NotClosing | Ending | Killing | Closed.

(** [pending] holds the ids of [#pending] in insertion order; [writing] the
    requests whose frame waits for the pipe to drain; [answers] the settled
    response promises, [calls] the settled promises of the callers, [unhandled]
    the responses rejected while no caller was attached, [lost] the requests
    taken from [#pending] without being settled. *)
Record Client :=
  { started : bool; closed : bool; exited : bool; closing : Closing; nextId : Z;
    pending : list Z; writing : list Z; answers : list (Z * Outcome); calls : list (Z * Outcome);
    unhandled : list Z; lost : list Z; written : list json; delivered : list AppServerEvent;
    refusedCalls : nat; stderrTail : jstr }.

Definition newClient : Client :=
  {| started := false; closed := false; exited := false; closing := NotClosing; nextId := 1;
     pending := []; writing := []; answers := []; calls := []; unhandled := []; lost := [];
     written := []; delivered := []; refusedCalls := 0; stderrTail := [] |}.

Definition isRunning (c : Client) : bool := started c && negb (closed c).

Definition withLife (s cl e : bool) (k : Closing) (c : Client) : Client :=
  {| started := s; closed := cl; exited := e; closing := k; nextId := nextId c;
     pending := pending c; writing := writing c; answers := answers c; calls := calls c;
     unhandled := unhandled c; lost := lost c; written := written c; delivered := delivered c;
     refusedCalls := refusedCalls c; stderrTail := stderrTail c |}.

Definition withRequests (n : Z) (p w : list Z) (an ca : list (Z * Outcome)) (un lo : list Z)
    (c : Client) : Client :=
  {| started := started c; closed := closed c; exited := exited c; closing := closing c; nextId := n;
     pending := p; writing := w; answers := an; calls := ca; unhandled := un; lost := lo;
     written := written c; delivered := delivered c; refusedCalls := refusedCalls c;
     stderrTail := stderrTail c |}.

Definition withLogs (w : list json) (d : list AppServerEvent) (r : nat) (t : jstr) (c : Client) : Client :=
  {| started := started c; closed := closed c; exited := exited c; closing := closing c;
     nextId := nextId c; pending := pending c; writing := writing c; answers := answers c;
     calls := calls c; unhandled := unhandled c; lost := lost c;
     written := w; delivered := d; refusedCalls := r; stderrTail := t |}.

(** The response promise of [id] settles: a caller past its write sees it; one
    still writing will when it gets there; without a caller a rejection is
    unhandled. *)
Definition settleResponse (id : Z) (o : Outcome) (c : Client) : Client :=
  let attached := negb (bool_decide (id ∈ (calls c).*1)) && negb (bool_decide (id ∈ writing c)) in
  withRequests (nextId c) (filter (fun i => i <> id) (pending c)) (writing c)
    (answers c ++ [(id, o)])
    (if attached then calls c ++ [(id, o)] else calls c)
    (if negb attached && isRejection o then unhandled c ++ [id] else unhandled c) (lost c) c.

(** [#failAll]. *)
Definition failAll (o : Outcome) (c : Client) : Client :=
  foldl (fun c id => settleResponse id o c) c (pending c).

(** ** Operations *)

(** [start()]; [None] where it throws. *)
Definition start (c : Client) : option Client :=
  if started c then None else Some (withLife true false (exited c) (closing c) c).

Definition message (fields : list (string * json)) (params : option json) : json :=
  JObj (fields ++ match params with Some p => [("params", p)] | None => [] end).

Definition frameOf (m : json) : jstr := stringify m ++ [10%N].

Section client.
Variable maxFrameBytes : Z.
Variable parse : jstr -> option json.

(** [request(method, params)]; [flushed] tells whether the pipe took the frame
    at once. *)
Definition request (method : jstr) (params : option json) (flushed : bool) (c : Client) : Client :=
  if negb (isRunning c) then
    withLogs (written c) (delivered c) (S (refusedCalls c)) (stderrTail c) c
  else
    let id := nextId c in
    let m := message [("id", JNum (NInt id)); ("method", JStr method)] params in
    if maxFrameBytes <? byteLength (frameOf m) then
      withRequests (id + 1) (pending c ++ [id]) (writing c) (answers c)
        (calls c ++ [(id, FrameTooLong)]) (unhandled c) (lost c) c
    else
      withLogs (written c ++ [m]) (delivered c) (refusedCalls c) (stderrTail c)
        (withRequests (id + 1) (pending c ++ [id]) (if flushed then writing c else writing c ++ [id])
           (answers c) (calls c) (unhandled c) (lost c) c).

(** The pipe drained: the request goes on to its response, which may have
    settled in the meantime. *)
Definition drained (id : Z) (c : Client) : Client :=
  if bool_decide (id ∈ writing c) then
    withRequests (nextId c) (pending c) (filter (fun i => i <> id) (writing c)) (answers c)
      (match list_find (fun e => e.1 = id) (answers c) with
       | Some (_, (_, o)) => calls c ++ [(id, o)]
       | None => calls c
       end) (unhandled c) (lost c) c
  else c.

(** The wait for the pipe fails with the pipe's error. *)
Definition pipeFails (id : Z) (c : Client) : Client :=
  if bool_decide (id ∈ writing c) then
    withRequests (nextId c) (pending c) (filter (fun i => i <> id) (writing c)) (answers c)
      (calls c ++ [(id, PipeFailed)]) (unhandled c) (lost c) c
  else c.

(** [notify], [respond] and [respondError] write a frame or are refused. *)
Definition notify (m : json) (c : Client) : Client :=
  if negb (isRunning c) || (maxFrameBytes <? byteLength (frameOf m)) then
    withLogs (written c) (delivered c) (S (refusedCalls c)) (stderrTail c) c
  else withLogs (written c ++ [m]) (delivered c) (refusedCalls c) (stderrTail c) c.

Definition respond (id result : json) : Client -> Client :=
  notify (JObj [("id", id); ("result", result)]).
Definition respondError (id error : json) : Client -> Client :=
  notify (JObj [("id", id); ("error", error)]).

(** The timer of a pending request. *)
Definition timeout (id : Z) (c : Client) : Client :=
  if bool_decide (id ∈ pending c) then settleResponse id TimedOut c else c.

(** [close()] up to its first await. *)
Definition close (c : Client) : Client :=
  if negb (started c) || closed c then c
  else withLife (started c) true (exited c) Ending c.

(** A wait of [close()] ends, by the exit of the process or by its timer. *)
Definition closeWaitEnds (c : Client) : Client :=
  match closing c with
  | Ending =>
      if exited c then failAll ClientClosed (withLife (started c) (closed c) (exited c) Closed c)
      else withLife (started c) (closed c) (exited c) Killing c
  | Killing => failAll ClientClosed (withLife (started c) (closed c) (exited c) Closed c)
  | _ => c
  end.

Definition childExits (c : Client) : Client :=
  if negb (started c) || exited c then c
  else failAll Exited (withLife (started c) true true (closing c) c).

Definition childErrors (c : Client) : Client := if started c then failAll SpawnFailed c else c.

(** [(tail + chunk).slice(-STDERR_TAIL_BYTES)]. *)
Definition stderrData (chunk : jstr) (c : Client) : Client :=
  withLogs (written c) (delivered c) (refusedCalls c)
    (slice_last STDERR_TAIL_BYTES (stderrTail c ++ chunk)) c.

(** *** Lines of the output *)

Definition hasField (k : string) (o : jobj) : bool := bool_decide (is_Some (oget k o)).

(** The pending request a message answers: ids are compared as map keys. *)
Definition answered (o : jobj) (c : Client) : option Z :=
  match oget "id" o with
  | Some (JNum (NInt id)) => if bool_decide (id ∈ pending c) then Some id else None
  | _ => None
  end.

(** [new AppServerRpcError(error)]; [None] where reading a field of [null]
    throws. *)
Definition rpcError (error : json) : option JsonRpcError :=
  match error with
  | JNull => None
  | JObj e => Some {| rpc_code := oget "code" e; rpc_message := oget "message" e; rpc_data := oget "data" e |}
  | _ => Some {| rpc_code := None; rpc_message := None; rpc_data := None |}
  end.

(** [#handleLine]; the flag tells that it threw, out of the listener. *)
Definition handleLine (line : jstr) (c : Client) : Client * bool :=
  if maxFrameBytes <? byteLength line then (close (failAll OversizedOutput c), false)
  else
    match parse line with
    | None => (close (failAll InvalidJson c), false)
    | Some (JObj o) =>
        if hasField "id" o && (hasField "result" o || hasField "error" o) then
          match answered o c with
          | None => (c, false)
          | Some id =>
              match oget "error" o with
              | None => (settleResponse id (Resolved (default JNull (oget "result" o))) c, false)
              | Some error =>
                  match rpcError error with
                  | Some e => (settleResponse id (RpcRejected e) c, false)
                  | None =>
                      (withRequests (nextId c) (filter (fun i => i <> id) (pending c)) (writing c)
                         (answers c) (calls c) (unhandled c) (lost c ++ [id]) c, true)
                  end
              end
          end
        else
          (withLogs (written c)
             (delivered c ++ [(if hasField "id" o then RequestEvent else NotificationEvent) (JObj o)])
             (refusedCalls c) (stderrTail c) c, false)
    | Some (JArr l) =>
        (withLogs (written c) (delivered c ++ [NotificationEvent (JArr l)]) (refusedCalls c)
           (stderrTail c) c, false)
    | Some _ => (c, true)
    end.

(** ** Interleaving *)

Inductive ClientEvent :=
| Request (method : jstr) (params : option json) (flushed : bool)
| Notify (m : json) | Drained (id : Z) | PipeFails (id : Z) | Timeout (id : Z) | Line (line : jstr)
| ChildExits | ChildErrors | StderrData (chunk : jstr) | Close | CloseWaitEnds.

Definition clientStep (c : Client) (e : ClientEvent) : Client :=
  match e with
  | Request method params flushed => request method params flushed c
  | Notify m => notify m c
  | Drained id => drained id c
  | PipeFails id => pipeFails id c
  | Timeout id => timeout id c
  | Line line => (handleLine line c).1
  | ChildExits => childExits c
  | ChildErrors => childErrors c
  | StderrData chunk => stderrData chunk c
  | Close => close c
  | CloseWaitEnds => closeWaitEnds c
  end.

Definition runClient (events : list ClientEvent) : Client :=
  foldl clientStep (default newClient (start newClient)) events.

End client.

(** ** The read-only client *)

Definition READ_ONLY_METHODS : list jstr :=
  js <$> ["initialize"; "thread/list"; "thread/read"; "thread/turns/list"]%string.

(** [#request]: [None] where it denies the method. *)
Definition readOnlyRequest (maxFrameBytes : Z) (method : jstr) (params : option json)
    (flushed : bool) (c : Client) : option Client :=
  if bool_decide (method ∈ READ_ONLY_METHODS) then Some (request maxFrameBytes method params flushed c)
  else None.

Record ThreadListResponse := { page_data : list json; nextCursor : option jstr }.

Record ThreadListParams := { tl_cursor : option jstr; tl_limit : Z }.

(** The loop of [listThreads]: the pages the server answers in turn, the threads
    so far and the parameters sent. [None] while an answer is awaited. *)
Fixpoint listLoop (maxThreads : nat) (threads : list json) (cursor : option jstr)
    (sent : list ThreadListParams) (pages : list ThreadListResponse)
    : option (list json) * list ThreadListParams :=
  let params := {| tl_cursor := cursor;
                   tl_limit := Z.min 100 (Z.of_nat maxThreads - Z.of_nat (length threads)) |} in
  match pages with
  | [] => (None, sent ++ [params])
  | page :: pages =>
      let threads := threads ++ page_data page in
      match nextCursor page with
      | Some next =>
          if (length threads <? maxThreads)%nat
          then listLoop maxThreads threads (Some next) (sent ++ [params]) pages
          else (Some (take maxThreads threads), sent ++ [params])
      | None => (Some (take maxThreads threads), sent ++ [params])
      end
  end.

Definition listThreads (maxThreads : nat) (pages : list ThreadListResponse) :=
  listLoop maxThreads [] None [] pages.

(** ** Every request is accounted for *)

Definition issued (c : Client) : list Z := (answers c).*1 ++ lost c ++ pending c.

Record client_ok (c : Client) : Prop :=
  { co_next : 1 <= nextId c;
    co_issued : issued c ≡ₚ seqZ 1 (nextId c - 1);
    co_writing : NoDup (writing c ++ (calls c).*1);
    co_known : Forall (fun id => 1 <= id < nextId c) (writing c ++ (calls c).*1);
    co_seen : Forall (fun e => e.1 ∈ writing c ++ (calls c).*1) (answers c);
    co_calls : Forall (fun e => e ∈ answers c \/ e.2 = FrameTooLong \/ e.2 = PipeFailed) (calls c);
    co_unhandled : Forall (fun id => exists o, (id, o) ∈ answers c /\ isRejection o = true) (unhandled c);
    co_closed : exited c = true \/ closing c <> NotClosing -> closed c = true;
    co_drained : exited c = true \/ closing c = Closed -> pending c = [] }.

Lemma filter_out_notin (id : Z) (l : list Z) : id ∉ l -> filter (fun i => i <> id) l = l.
Proof.
  intros H. induction l as [|x l IH]; [done|]. rewrite filter_cons_True; [|set_solver].
  by rewrite IH by set_solver.
Qed.

Lemma filter_out_perm (id : Z) (l : list Z) : NoDup l -> id ∈ l -> l ≡ₚ id :: filter (fun i => i <> id) l.
Proof.
  induction 1 as [|x l Hx Hl IH]; [by intros ?%elem_of_nil|].
  intros [<-|H]%elem_of_cons.
  - rewrite filter_cons_False by auto. by rewrite filter_out_notin.
  - rewrite filter_cons_True by set_solver. rewrite (IH H) at 1. apply Permutation_swap.
Qed.

Lemma client_issued_nodup c : client_ok c -> NoDup (issued c).
Proof. intros Hc. rewrite (co_issued c Hc). apply NoDup_seqZ. Qed.

Lemma issued_bound c id : client_ok c -> id ∈ issued c -> 1 <= id < nextId c.
Proof. intros Hc H. rewrite (co_issued c Hc) in H. apply elem_of_seqZ in H. lia. Qed.

Lemma pending_nodup c : client_ok c -> NoDup (pending c).
Proof. intros Hc%client_issued_nodup. unfold issued in Hc. by apply NoDup_app in Hc as (_ & _ & (_ & _ & ?)%NoDup_app). Qed.

(** Settling a pending request keeps the account. *)
Lemma settleResponse_ok id o c :
  client_ok c -> id ∈ pending c -> client_ok (settleResponse id o c).
Proof.
  intros Hc Hid. pose proof (pending_nodup c Hc) as Hnd. pose proof (client_issued_nodup c Hc) as Hni.
  pose proof (issued_bound c id Hc) as Hb.
  assert (Hin : id ∈ issued c) by (unfold issued; set_solver).
  specialize (Hb Hin).
  destruct Hc as [H1 H2 H3 H4 H5 H6 H7 H8 H9]. unfold settleResponse.
  set (attached := negb (bool_decide (id ∈ (calls c).*1)) && negb (bool_decide (id ∈ writing c))).
  assert (Hat : attached = false -> id ∈ writing c ++ (calls c).*1).
  { subst attached. intros E. apply elem_of_app. repeat case_bool_decide; simpl in E; try done; auto. }
  assert (Hat' : attached = true -> id ∉ writing c ++ (calls c).*1).
  { subst attached. intros E. bool_prop. set_solver. }
  clearbody attached.
  constructor; simpl; try done.
  - unfold issued. simpl. rewrite fmap_app. simpl. rewrite <- H2. unfold issued.
    rewrite (filter_out_perm id (pending c) Hnd Hid) at 2. rewrite <- !(assoc_L (++)). simpl.
    apply Permutation_app_head. by rewrite Permutation_middle.
  - destruct attached; [|done]. rewrite fmap_app, (assoc_L (++)). simpl.
    apply NoDup_app. split_and!; [done| |apply NoDup_singleton].
    intros x Hx ->%list_elem_of_singleton. by apply Hat'.
  - destruct attached; [|done]. rewrite fmap_app, (assoc_L (++)). apply Forall_app. split; [done|].
    by (simpl; constructor; [|constructor]).
  - apply Forall_app. split.
    + eapply Forall_impl; [exact H5|]. simpl. intros e He. destruct attached; [|done].
      rewrite fmap_app. set_solver.
    + constructor; [|constructor]. simpl. destruct attached; [|by apply Hat]. rewrite fmap_app. set_solver.
  - destruct attached; [apply Forall_app; split|].
    + eapply Forall_impl; [exact H6|]. set_solver.
    + constructor; [|constructor]. left. set_solver.
    + eapply Forall_impl; [exact H6|]. set_solver.
  - assert (Hu : Forall (fun i => exists o', (i, o') ∈ answers c ++ [(id, o)] /\ isRejection o' = true) (unhandled c)).
    { eapply Forall_impl; [exact H7|]. intros i (o' & ? & ?). exists o'. set_solver. }
    destruct (negb attached && isRejection o) eqn:E; [|done]. apply Forall_app. split; [done|].
    bool_prop. constructor; [|constructor]. exists o. set_solver.
  - intros Hx. rewrite (H9 Hx) in Hid. set_solver.
Qed.

Lemma settleResponse_pending id o c :
  pending (settleResponse id o c) = filter (fun i => i <> id) (pending c).
Proof. done. Qed.

Lemma settleResponse_life id o c :
  started (settleResponse id o c) = started c /\ closed (settleResponse id o c) = closed c
  /\ exited (settleResponse id o c) = exited c /\ closing (settleResponse id o c) = closing c.
Proof. done. Qed.

Lemma failAll_ok o c : client_ok c -> client_ok (failAll o c) /\ pending (failAll o c) = []
  /\ started (failAll o c) = started c /\ closed (failAll o c) = closed c
  /\ exited (failAll o c) = exited c /\ closing (failAll o c) = closing c.
Proof.
  unfold failAll. intros Hc. remember (pending c) as l eqn:El.
  revert c Hc El. induction l as [|id l IH]; intros c Hc El; simpl; [by split_and!|].
  assert (Hnd := pending_nodup c Hc). rewrite <- El in Hnd. apply NoDup_cons in Hnd as [Hx _].
  destruct (settleResponse_life id o c) as (<- & <- & <- & <-).
  apply IH.
  - apply settleResponse_ok; [done|]. rewrite <- El. set_solver.
  - rewrite settleResponse_pending, <- El. rewrite filter_cons_False by auto. by rewrite filter_out_notin.
Qed.

(** The account only reads the requests; the life of the client counts for the
    last clause. *)
Lemma withLife_ok s cl e k c :
  client_ok c -> (e = true \/ k <> NotClosing -> cl = true) ->
  (e = true \/ k = Closed -> pending c = []) -> client_ok (withLife s cl e k c).
Proof. by intros [] ??. Qed.

Lemma failAll_life o s cl e k c : failAll o (withLife s cl e k c) = withLife s cl e k (failAll o c).
Proof.
  unfold failAll. change (pending (withLife s cl e k c)) with (pending c).
  generalize (pending c). intros l. revert c. induction l as [|id l IH]; intros c; simpl; [done|].
  by rewrite <- (IH (settleResponse id o c)).
Qed.

Lemma withLogs_ok w d r t c : client_ok c -> client_ok (withLogs w d r t c).
Proof. by intros []. Qed.

Section client_laws.
Variable maxFrameBytes : Z.
Variable parse : jstr -> option json.

(** A new request: its id is fresh. *)
Lemma request_ok method params flushed c : client_ok c -> client_ok (request maxFrameBytes method params flushed c).
Proof.
  intros Hc. unfold request. destruct (negb (isRunning c)) eqn:Hr; [by apply withLogs_ok|]. cbv zeta.
  assert (Hfresh : nextId c ∉ writing c ++ (calls c).*1).
  { intros H. apply (proj1 (Forall_forall _ _) (co_known c Hc)) in H. lia. }
  assert (Hissued : forall p q, p ≡ₚ (seqZ 1 (nextId c - 1)) -> q ≡ₚ p ++ [nextId c] ->
            q ≡ₚ seqZ 1 (nextId c + 1 - 1)).
  { intros p q Hp ->. rewrite Hp. replace (nextId c + 1 - 1) with (nextId c - 1 + 1) by lia.
    pose proof (co_next c Hc). rewrite seqZ_app by lia.
    replace (1 + (nextId c - 1)) with (nextId c) by lia. by rewrite (seqZ_cons (nextId c)). }
  assert (Hrun : closed c = false) by (unfold isRunning in Hr; by destruct (started c), (closed c)).
  destruct Hc as [H1 H2 H3 H4 H5 H6 H7 H8 H9].
  assert (Hlife : ~ (exited c = true \/ closing c = Closed)).
  { intros [H|H]; enough (closed c = true) by congruence; apply H8; [by left|right; congruence]. }
  assert (Hperm : (answers c).*1 ++ lost c ++ pending c ++ [nextId c] ≡ₚ issued c ++ [nextId c])
    by (unfold issued; by rewrite <- !(assoc_L (++))).
  destruct (maxFrameBytes <? _); [|apply withLogs_ok]; constructor; simpl; try done; try lia.
  - by eapply Hissued.
  - rewrite fmap_app, (assoc_L (++)). simpl. apply NoDup_app. split_and!; [done| |apply NoDup_singleton].
    by intros x Hx ->%list_elem_of_singleton.
  - rewrite fmap_app, (assoc_L (++)). apply Forall_app. split; [|simpl; constructor; [lia|constructor]].
    eapply Forall_impl; [exact H4|]. simpl. lia.
  - eapply Forall_impl; [exact H5|]. simpl. intros e He. rewrite fmap_app. set_solver.
  - apply Forall_app. split; [done|]. constructor; [|constructor]. by right; left.
  - by eapply Hissued.
  - destruct flushed; [done|]. rewrite (Permutation_app_comm (writing c)), <- (assoc_L (++)). simpl.
    apply NoDup_cons. split; [done|done].
  - destruct flushed; [eapply Forall_impl; [exact H4|]; simpl; lia|].
    rewrite (Permutation_app_comm (writing c)), <- (assoc_L (++)). constructor; [lia|].
    eapply Forall_impl; [exact H4|]. simpl. lia.
  - destruct flushed; [done|]. eapply Forall_impl; [exact H5|]. set_solver.
Qed.

(** A writing request leaves the pipe and its caller settles or goes on. *)
Lemma leave_writing_ok id ca c :
  client_ok c -> id ∈ writing c ->
  (ca = calls c /\ (forall o, (id, o) ∉ answers c)
   \/ exists o, ca = calls c ++ [(id, o)] /\ ((id, o) ∈ answers c \/ o = FrameTooLong \/ o = PipeFailed)) ->
  client_ok (withRequests (nextId c) (pending c) (filter (fun i => i <> id) (writing c)) (answers c) ca
               (unhandled c) (lost c) c).
Proof.
  intros [H1 H2 H3 H4 H5 H6 H7 H8 H9] Hid Hca.
  assert (Hnw : NoDup (writing c)) by (by apply NoDup_app in H3 as [? _]).
  pose proof (filter_out_perm id _ Hnw Hid) as Hp.
  rewrite Hp in H3, H4. simpl in H3, H4. apply NoDup_cons in H3 as [Hx H3]. apply Forall_cons in H4 as [Hb H4].
  assert (Hseen : forall x, x ∈ writing c ++ (calls c).*1 -> x = id \/ x ∈ filter (fun i => i <> id) (writing c) ++ (calls c).*1).
  { intros x [Hw|Hw]%elem_of_app; [|right; apply elem_of_app; by right].
    rewrite Hp in Hw. apply elem_of_cons in Hw as [->|Hw]; [by left|].
    right. apply elem_of_app. by left. }
  destruct Hca as [[-> Hno]|(o & -> & Ho)]; constructor; simpl; try done.
  - rewrite Forall_forall in H5 |- *. intros e He. destruct (Hseen e.1) as [Heq|?]; [by apply H5| |done].
    exfalso. apply (Hno e.2). rewrite <- Heq. by destruct e.
  - rewrite fmap_app, (assoc_L (++)). simpl. apply NoDup_app. split_and!; [done| |apply NoDup_singleton].
    by intros x Hy ->%list_elem_of_singleton.
  - rewrite fmap_app, (assoc_L (++)). apply Forall_app. split; [done|by (simpl; constructor; [|constructor])].
  - rewrite Forall_forall in H5 |- *. intros e He. rewrite fmap_app. simpl. rewrite (assoc_L (++)), elem_of_app. destruct (Hseen e.1) as [->|?]; [by apply H5|right; by left|by left].
  - apply Forall_app. split; [done|]. by (simpl; constructor; [|constructor]).
Qed.

Lemma client_close_ok c : client_ok c -> client_ok (close c).
Proof.
  intros Hc. unfold close. destruct (negb (started c) || closed c) eqn:E; [done|]. apply withLife_ok; [done|..].
  - done.
  - intros [H|[=]]. apply (co_drained c Hc). by left.
Qed.

Lemma handleLine_ok line c : client_ok c -> client_ok (handleLine maxFrameBytes parse line c).1.
Proof.
  intros Hc. unfold handleLine. destruct (maxFrameBytes <? _); [simpl; by apply client_close_ok, failAll_ok|].
  destruct (parse line) as [[| | | |l|o]|]; simpl; try done; try by apply withLogs_ok.
  2: by apply client_close_ok, failAll_ok.
  destruct (_ && _); [|by apply withLogs_ok].
  destruct (answered o c) as [id|] eqn:Ea; [|done].
  assert (Hid : id ∈ pending c).
  { unfold answered in Ea. destruct (oget "id" o) as [[| |[z|]| | |]|]; try done.
    case_bool_decide; [|done]. by injection Ea as <-. }
  destruct (oget "error" o) as [e|]; [|by apply settleResponse_ok].
  destruct (rpcError e); [by apply settleResponse_ok|]. simpl.
  pose proof (pending_nodup c Hc) as Hnd. destruct Hc as [H1 H2 H3 H4 H5 H6 H7 H8 H9].
  constructor; simpl; try done.
  - unfold issued. simpl. rewrite <- H2. unfold issued. rewrite <- (assoc_L (++)). simpl.
    rewrite (filter_out_perm id (pending c) Hnd Hid) at 2. done.
  - intros Hx. rewrite (H9 Hx) in Hid. set_solver.
Qed.

Lemma clientStep_ok e c : client_ok c -> client_ok (clientStep maxFrameBytes parse c e).
Proof.
  intros Hc. destruct e as [m p f|m|id|id|id|line| | |chunk| |]; simpl.
  - by apply request_ok.
  - unfold notify. by destruct (_ || _); apply withLogs_ok.
  - unfold drained. case_bool_decide as Hw; [|done]. apply leave_writing_ok; [done..|].
    destruct (list_find _ (answers c)) as [[i [id' o]]|] eqn:E; [right|left].
    + apply list_find_Some in E as (Hi & Hid & _). simpl in Hid. subst id'. exists o. split; [done|].
      left. by eapply list_elem_of_lookup_2.
    + split; [done|]. intros o Ho. apply list_find_None in E. apply (proj1 (Forall_forall _ _) E _ Ho). done.
  - unfold pipeFails. case_bool_decide as Hw; [|done]. apply leave_writing_ok; [done..|]. right. eauto.
  - unfold timeout. case_bool_decide; [|done]. by apply settleResponse_ok.
  - by apply handleLine_ok.
  - unfold childExits. destruct (negb (started c) || exited c) eqn:E; [done|].
    rewrite failAll_life. destruct (failAll_ok Exited c Hc) as (Hok & Hp & _).
    apply withLife_ok; [done|done|]. by intros _.
  - unfold childErrors. destruct (started c); [by apply failAll_ok|done].
  - by apply withLogs_ok.
  - by apply client_close_ok.
  - unfold closeWaitEnds.
    assert (Hfin : closing c <> NotClosing ->
      client_ok (failAll ClientClosed (withLife (started c) (closed c) (exited c) Closed c))).
    { intros Hcl. rewrite failAll_life. destruct (failAll_ok ClientClosed c Hc) as (Hok & Hp & _).
      apply withLife_ok; [done| |by intros _]. intros _. apply (co_closed c Hc). by right. }
    destruct (closing c) eqn:E; [done| |by apply Hfin|done].
    destruct (exited c) eqn:Ex; [by apply Hfin|]. apply withLife_ok; [done|..].
    + intros _. apply (co_closed c Hc). right. congruence.
    + by intros [|].
Qed.

End client_laws.

Lemma newClient_ok : client_ok (default newClient (start newClient)).
Proof. constructor; simpl; try done; try lia; try constructor; by intros [|]. Qed.

Lemma runClient_ok maxFrameBytes parse events : client_ok (runClient maxFrameBytes parse events).
Proof.
  unfold runClient. induction events as [|e events IH] using rev_ind; [apply newClient_ok|].
  rewrite foldl_app. simpl. by apply clientStep_ok.
Qed.

Lemma fst_unique {A} (l : list (Z * A)) id a b : NoDup l.*1 -> (id, a) ∈ l -> (id, b) ∈ l -> a = b.
Proof.
  intros Hn [i Hi]%list_elem_of_lookup [j Hj]%list_elem_of_lookup.
  assert (i = j) as ->; [|congruence].
  apply (proj1 (NoDup_alt _) Hn i j id); rewrite list_lookup_fmap; [by rewrite Hi|by rewrite Hj].
Qed.

(** C35. Over any interleaving of requests, lines, timeouts, drains, exits and closing,
    every request issued is in exactly one place: answered once, lost to a line
    that threw, or still pending. A caller hears at most once, and hears what its
    response settled with unless its frame was refused or its pipe failed. Once
    the process exited or [close()] ended nothing is pending and nothing can be
    requested again. *)
Theorem requests_accounted maxFrameBytes parse events :
  let c := runClient maxFrameBytes parse events in
  (answers c).*1 ++ lost c ++ pending c ≡ₚ seqZ 1 (nextId c - 1)
  /\ NoDup (calls c).*1
  /\ (forall id o, (id, o) ∈ answers c ->
        id ∈ writing c
        \/ exists o', (id, o') ∈ calls c /\ (o' = o \/ o' = FrameTooLong \/ o' = PipeFailed))
  /\ (exited c = true \/ closing c = Closed ->
        pending c = [] /\ forall method params flushed,
          nextId (request maxFrameBytes method params flushed c) = nextId c).
Proof.
  intros c. pose proof (runClient_ok maxFrameBytes parse events) as Hc. fold c in Hc. clearbody c.
  pose proof (client_issued_nodup c Hc) as Hn. unfold issued in Hn. apply NoDup_app in Hn as (Hn & _ & _).
  destruct Hc as [H1 H2 H3 H4 H5 H6 H7 H8 H9]. split_and!.
  - exact H2.
  - by apply NoDup_app in H3 as (_ & _ & ?).
  - intros id o Ho. pose proof (proj1 (Forall_forall _ _) H5 _ Ho) as Hs. simpl in Hs.
    apply elem_of_app in Hs as [?|Hs]; [by left|right].
    apply list_elem_of_fmap in Hs as ([id' o'] & Heq & Hin). simpl in Heq. subst id'. exists o'. split; [done|].
    destruct (proj1 (Forall_forall _ _) H6 _ Hin) as [Ha|?]; [left|by right].
    by apply (fst_unique _ _ _ _ Hn Ha).
  - intros Hx. split; [by apply H9|]. intros method params flushed. unfold request.
    assert (Hcl : closed c = true) by (apply H8; destruct Hx as [?|Hx]; [by left|right; congruence]).
    unfold isRunning. rewrite Hcl. by destruct (started c).
Qed.

(** ** What goes wrong *)

(** A request whose frame is refused keeps its place and its timer: its caller
    was told, and the timeout rejects a promise nobody holds. *)
Lemma oversized_request_orphaned maxFrameBytes method params flushed c :
  client_ok c -> isRunning c = true ->
  maxFrameBytes < byteLength (frameOf (message [("id", JNum (NInt (nextId c))); ("method", JStr method)] params)) ->
  let c' := request maxFrameBytes method params flushed c in
  (nextId c, FrameTooLong) ∈ calls c' /\ nextId c ∈ pending c' /\ nextId c ∈ unhandled (timeout (nextId c) c').
Proof.
  intros Hc Hr Hb%Z.ltb_lt c'. subst c'. unfold request. rewrite Hr. cbv zeta. cbn [negb]. rewrite Hb. simpl.
  split_and!; [set_solver..|]. unfold timeout. simpl. rewrite bool_decide_eq_true_2 by set_solver.
  unfold settleResponse. simpl. rewrite (bool_decide_eq_true_2 (nextId c ∈ (calls c ++ _).*1)).
  - simpl. set_solver.
  - rewrite fmap_app. set_solver.
Qed.

(** An answer whose [error] is [null] throws out of the line listener after the
    request and its timer were removed: it never settles. *)
Lemma null_error_loses maxFrameBytes parse line c id :
  byteLength line <= maxFrameBytes ->
  parse line = Some (JObj [("id", JNum (NInt id)); ("error", JNull)]) -> id ∈ pending c ->
  (handleLine maxFrameBytes parse line c).2 = true
  /\ id ∈ lost (handleLine maxFrameBytes parse line c).1
  /\ answers (handleLine maxFrameBytes parse line c).1 = answers c.
Proof.
  intros Hb Hp Hid. unfold handleLine. rewrite (proj2 (Z.ltb_ge _ _)) by lia. rewrite Hp.
  unfold answered. simpl. rewrite bool_decide_eq_true_2 by done. simpl. split_and!; [done|set_solver|done].
Qed.

(** A line that is a JSON number, string or literal throws as well. *)
Lemma primitive_line_throws maxFrameBytes parse line c v :
  byteLength line <= maxFrameBytes -> parse line = Some v ->
  (forall o, v <> JObj o) -> (forall l, v <> JArr l) ->
  handleLine maxFrameBytes parse line c = (c, true).
Proof.
  intros Hb Hp Ho Hl. unfold handleLine. rewrite (proj2 (Z.ltb_ge _ _)) by lia. rewrite Hp.
  destruct v; try done; [by destruct (Hl l)|by destruct (Ho o)].
Qed.

(** ** Listing threads *)

(** Whether the loop goes on after a page, given the threads before it. *)
Definition goesOn (maxThreads before : nat) (page : ThreadListResponse) : bool :=
  bool_decide (is_Some (nextCursor page)) && (before + length (page_data page) <? maxThreads)%nat.

(** The pages the loop takes. *)
Fixpoint pagesTaken (maxThreads before : nat) (pages : list ThreadListResponse) : list ThreadListResponse :=
  match pages with
  | [] => []
  | page :: pages =>
      page :: (if goesOn maxThreads before page
               then pagesTaken maxThreads (before + length (page_data page)) pages else [])
  end.

Definition threadsOf (pages : list ThreadListResponse) : list json := pages ≫= page_data.

Lemma listLoop_spec maxThreads threads cursor sent pages :
  let used := pagesTaken maxThreads (length threads) pages in
  let '(result, sent') := listLoop maxThreads threads cursor sent pages in
  (result = None <-> used = pages /\ Forall (fun page => is_Some (nextCursor page)) pages
                     /\ (length (threads ++ threadsOf pages) < maxThreads \/ pages = [])%nat)
  /\ (forall ts, result = Some ts -> ts = take maxThreads (threads ++ threadsOf used))
  /\ tl_cursor <$> sent' = (tl_cursor <$> sent) ++ cursor ::
       (if result is None then nextCursor <$> used
        else nextCursor <$> take (length used - 1) used)
  /\ ((length threads < maxThreads)%nat -> Forall (fun p => 1 <= tl_limit p <= 100) sent ->
      Forall (fun p => 1 <= tl_limit p <= 100) sent').
Proof.
  revert threads cursor sent. induction pages as [|page pages IH]; intros threads cursor sent; simpl.
  { split_and!; [split; [intros _; split_and!; [done|constructor|by right]|done]|done| |].
    - by rewrite fmap_app.
    - intros Hlt Hs. apply Forall_app. split; [done|]. constructor; [simpl; lia|constructor]. }
  set (params := {| tl_cursor := cursor; tl_limit := _ |}).
  assert (Hlim : (length threads < maxThreads)%nat -> Forall (fun p => 1 <= tl_limit p <= 100) sent ->
                 Forall (fun p => 1 <= tl_limit p <= 100) (sent ++ [params])).
  { intros Hlt Hs. apply Forall_app. split; [done|]. constructor; [simpl; lia|constructor]. }
  assert (Hstop : goesOn maxThreads (length threads) page = false ->
    let used := page :: (if goesOn maxThreads (length threads) page
                         then pagesTaken maxThreads (length threads + length (page_data page)) pages else []) in
    (Some (take maxThreads (threads ++ page_data page)) = None <->
       used = page :: pages /\ Forall (fun page => is_Some (nextCursor page)) (page :: pages)
       /\ (length (threads ++ threadsOf (page :: pages)) < maxThreads \/ page :: pages = [])%nat)
    /\ (forall ts, Some (take maxThreads (threads ++ page_data page)) = Some ts ->
          ts = take maxThreads (threads ++ threadsOf used))
    /\ tl_cursor <$> (sent ++ [params]) = (tl_cursor <$> sent) ++ cursor :: (nextCursor <$> take (length used - 1) used)
    /\ ((length threads < maxThreads)%nat -> Forall (fun p => 1 <= tl_limit p <= 100) sent ->
        Forall (fun p => 1 <= tl_limit p <= 100) (sent ++ [params]))).
  { intros Hg. rewrite Hg. simpl. split_and!.
    - split; [done|]. intros (Hu & Hn & [Hl|[=]]). exfalso. injection Hu as <-.
      apply Forall_cons in Hn as [Hn _]. unfold goesOn in Hg. rewrite bool_decide_eq_true_2 in Hg by done.
      simpl in Hg. bool_prop. rewrite length_app in Hl. unfold threadsOf in Hl. simpl in Hl. rewrite app_nil_r in Hl. lia.
    - unfold threadsOf. simpl. rewrite app_nil_r. by intros ts [= <-].
    - by rewrite fmap_app.
    - done. }
  assert (Hlen : (length threads + length (page_data page))%nat = length (threads ++ page_data page))
    by (by rewrite length_app).
  destruct (nextCursor page) as [next|] eqn:En.
  - destruct (length (threads ++ page_data page) <? maxThreads)%nat eqn:El.
    + assert (Hg : goesOn maxThreads (length threads) page = true).
      { unfold goesOn. rewrite En, Hlen, El. by rewrite bool_decide_eq_true_2. }
      rewrite Hg, Hlen. specialize (IH (threads ++ page_data page) (Some next) (sent ++ [params])).
      destruct (listLoop _ _ _ _ pages) as [result sent'] eqn:E. destruct IH as (I1 & I2 & I3 & I4).
      assert (Hthr : forall l, (threads ++ page_data page) ++ threadsOf l = threads ++ threadsOf (page :: l))
        by (intros l; unfold threadsOf; simpl; by rewrite <- (assoc_L (++))).
      split_and!.
      * rewrite I1, Hthr. rewrite Forall_cons. split.
        -- intros (-> & Hn & [Hl| ->]); split_and!; try done; [by left|].
           left. unfold threadsOf. simpl. rewrite app_nil_r. by apply Nat.ltb_lt.
        -- intros ([= Hu] & [_ Hn] & [Hl|[=]]). split_and!; [done|done|by left].
      * intros ts Hts. by rewrite (I2 ts Hts), Hthr.
      * rewrite I3, fmap_app, <- (assoc_L (++)). simpl. do 2 f_equal.
        destruct result; [|done].
        destruct (pagesTaken _ _ pages) as [|p ps] eqn:Ep; [|simpl; rewrite ?Nat.sub_0_r, ?En; done].
        exfalso. by destruct pages.
      * intros Hlt Hs. apply I4; [by apply Nat.ltb_lt|]. by apply Hlim.
    + apply Hstop. unfold goesOn. rewrite Hlen, El. apply andb_false_r.
  - apply Hstop. unfold goesOn. rewrite En. by rewrite bool_decide_eq_false_2 by (by intros [? [=]]).
Qed.

(** [listThreads] returns the first threads of the pages up to the first without
    a cursor or the one that fills the list, in order; every request continues
    from the cursor of the page before it and asks for 1 to 100 threads; and it
    is still waiting exactly when every page so far had a cursor and the list is
    not full. *)
Theorem list_threads_exact maxThreads pages :
  (0 < maxThreads)%nat ->
  let used := pagesTaken maxThreads 0 pages in
  let '(result, sent) := listThreads maxThreads pages in
  (forall ts, result = Some ts -> ts = take maxThreads (threadsOf used))
  /\ (result = None <-> used = pages /\ Forall (fun page => is_Some (nextCursor page)) pages
                        /\ (length (threadsOf pages) < maxThreads)%nat)
  /\ (exists rest, None :: (nextCursor <$> used) = (tl_cursor <$> sent) ++ rest)
  /\ Forall (fun p => 1 <= tl_limit p <= 100) sent.
Proof.
  intros Hm used. subst used. unfold listThreads.
  pose proof (listLoop_spec maxThreads [] None [] pages) as H. simpl in H.
  destruct (listLoop maxThreads [] None [] pages) as [result sent]. destruct H as (H1 & H2 & H3 & H4).
  split_and!.
  - done.
  - rewrite H1. split; intros (? & ? & H); split_and!; try done; [|by left].
    destruct H as [H|H]; [done|]. by subst pages.
  - rewrite H3. destruct result; [|exists []; by rewrite app_nil_r].
    set (used := pagesTaken maxThreads 0 pages). exists (nextCursor <$> drop (length used - 1) used).
    simpl. f_equal. change (list_fmap _ _ ?f ?x) with (f <$> x).
    by rewrite <- fmap_app, take_drop.
  - by apply H4.
Qed.

(** ** Executions *)

Definition demo_answer : jstr := js "answer".
Definition demo_parse_answer (line : jstr) : option json :=
  if bool_decide (line = demo_answer)
  then Some (JObj [("id", JNum (NInt 1)); ("result", JStr (js "ok"))]) else None.

(** Two requests; the first is answered, the second times out, a late line finds
    nobody. *)
Example demo_requests :
  let c := runClient 1000 demo_parse_answer
             [Request (js "a") None true; Request (js "b") None false; Line demo_answer; Timeout 2;
              Drained 2; Line demo_answer] in
  calls c = [(1, Resolved (JStr (js "ok"))); (2, TimedOut)] /\ pending c = [] /\ unhandled c = [2].
Proof. vm_compute. by split_and!. Qed.

Lemma list_threads_exact_witness :
  (listThreads 3 [{| page_data := [JNull; JNull]; nextCursor := Some (js "x") |};
                  {| page_data := [JBool true; JNull]; nextCursor := Some (js "y") |}]).1
  = Some [JNull; JNull; JBool true].
Proof.
  pose proof (list_threads_exact 3
    [{| page_data := [JNull; JNull]; nextCursor := Some (js "x") |};
     {| page_data := [JBool true; JNull]; nextCursor := Some (js "y") |}] ltac:(lia)) as [H _].
  exact (f_equal Some (H _ eq_refl)).
Defined.
