(* ===== verification/ThreadHead.v ===== *)
(** * The head of a thread

    Models thread-current-usage.ts and thread-current-outcome.ts of
    apps/android/src/data: the usage and the outcome of the current turn, which a
    thread row keeps apart from the pages of its history.  A turn is the wire
    object; a start time that is no integer is read as absent.  The failure
    notice drawn from the outcome is presentation and not modelled. *)
From S2P Require Import Prelude JsMap Json ThreadItems ThreadEvents.

Definition turnId (turn : json) : jstr := strField "id" turn.

Definition startedAt (turn : json) : option Z :=
  match field "startedAt" turn with Some (JNum (NInt z)) => Some z | _ => None end.

(** ** Usage *)

Record ThreadCurrentUsage := { cu_startedAt : option Z; cu_turnId : jstr; cu_usage : json }.

(** What a turn says of its usage. *)
Definition turnUsage (turn : json) : option ThreadCurrentUsage :=
  usage ← (projectedTurnMetadata turn ≫= field "usage");
  Some {| cu_startedAt := startedAt turn; cu_turnId := turnId turn; cu_usage := usage |}.

Fixpoint lastUsage (reversed : list json) : option ThreadCurrentUsage :=
  match reversed with
  | [] => None
  | turn :: reversed =>
      match turnUsage turn with
      | Some u => Some u
      | None => lastUsage reversed
      end
  end.

Definition latestThreadUsage (turns : list json) : option ThreadCurrentUsage := lastUsage (reverse turns).

(** Of the same turn, or of one known to have started later. *)
Definition supersedes (nextStart previousStart : option Z) : bool :=
  match nextStart, previousStart with
  | Some n, Some p => p <? n
  | _, _ => false
  end.

Definition advanceThreadUsage (previous : option ThreadCurrentUsage) (turns : list json)
    : option ThreadCurrentUsage :=
  match latestThreadUsage turns with
  | None => previous
  | Some next =>
      match previous with
      | None => Some next
      | Some p =>
          if bool_decide (cu_turnId next = cu_turnId p) then Some next
          else if supersedes (cu_startedAt next) (cu_startedAt p) then Some next else Some p
      end
  end.

(** ** Outcome *)

(** [co_message] is the message of a failed turn. *)
Record ThreadCurrentOutcome :=
  { co_startedAt : option Z; co_turnId : jstr; co_status : jstr; co_message : option jstr }.

Definition turnOutcome (turn : json) : ThreadCurrentOutcome :=
  {| co_startedAt := startedAt turn; co_turnId := turnId turn; co_status := strField "status" turn;
     co_message :=
       if isStr (field "status" turn) "failed"
       then Some (match (field "error" turn ≫= field "message") with
                  | Some (JStr (c :: m)) => c :: m
                  | _ => js "The server could not complete this response."
                  end)
       else None |}.

Definition latestThreadOutcome (turns : list json) : option ThreadCurrentOutcome :=
  turnOutcome <$> last turns.

Definition advanceThreadOutcome (previous : option ThreadCurrentOutcome) (turns : list json)
    (startedTurnId : option jstr) : option ThreadCurrentOutcome :=
  match startedTurnId ≫= (fun id => snd <$> list_find (fun turn => turnId turn = id) turns) with
  | Some started => Some (turnOutcome started)
  | None =>
      match latestThreadOutcome turns with
      | None => previous
      | Some next =>
          match previous with
          | None => Some next
          | Some p =>
              if bool_decide (co_turnId next = co_turnId p) then Some next
              else if supersedes (co_startedAt next) (co_startedAt p) then Some next else Some p
          end
      end
  end.

(** ** The text [JSON.stringify] gives to the two, by which rows are compared *)

Definition startJson (start : option Z) : json :=
  match start with Some z => JNum (NInt z) | None => JNull end.

Definition usageJson (u : ThreadCurrentUsage) : json :=
  JObj [("startedAt", startJson (cu_startedAt u)); ("turnId", JStr (cu_turnId u)); ("usage", cu_usage u)].

Definition outcomeJson (o : ThreadCurrentOutcome) : json :=
  JObj ((match co_message o with Some m => [("message", JStr m)] | None => [] end)
        ++ [("startedAt", startJson (co_startedAt o)); ("status", JStr (co_status o));
            ("turnId", JStr (co_turnId o))]).

(** ** The head never goes back *)

(** The start times of the heads kept over any sequence of repairs without an
    announced turn: once known they only grow while the turn changes. *)
Definition notBefore (previousTurn nextTurn : jstr) (previousStart nextStart : option Z) : Prop :=
  nextTurn = previousTurn
  \/ exists p n, previousStart = Some p /\ nextStart = Some n /\ p < n.

Lemma supersedes_spec n p :
  supersedes n p = true <-> exists p' n', p = Some p' /\ n = Some n' /\ p' < n'.
Proof.
  unfold supersedes. destruct n as [n|], p as [p|]; split; try done; try (intros (? & ? & ? & ? & ?); done).
  - intros H%Z.ltb_lt. by exists p, n.
  - intros (? & ? & [= ->] & [= ->] & H). by apply Z.ltb_lt.
Qed.

Lemma usage_never_regresses previous turns next :
  advanceThreadUsage (Some previous) turns = Some next ->
  notBefore (cu_turnId previous) (cu_turnId next) (cu_startedAt previous) (cu_startedAt next).
Proof.
  unfold advanceThreadUsage. destruct (latestThreadUsage turns) as [u|]; [|intros [= ->]; by left].
  case_bool_decide as E; [intros [= ->]; by left|].
  destruct (supersedes _ _) eqn:S; intros [= ->]; [right; by apply supersedes_spec|by left].
Qed.

Lemma outcome_never_regresses previous turns next :
  advanceThreadOutcome (Some previous) turns None = Some next ->
  notBefore (co_turnId previous) (co_turnId next) (co_startedAt previous) (co_startedAt next).
Proof.
  unfold advanceThreadOutcome. cbn [mbind option_bind].
  destruct (latestThreadOutcome turns) as [u|]; [|intros [= ->]; by left].
  case_bool_decide as E; [intros [= ->]; by left|].
  destruct (supersedes _ _) eqn:S; intros [= ->]; [right; by apply supersedes_spec|by left].
Qed.
