(* ===== verification/ThreadRows.v ===== *)
(** * The stored rows of a thread

    Models apps/android/src/data/thread-detail-projection.ts (but for the queue
    plans, which are in Delivery.v), thread-partitions.ts and turn-artifacts.ts:
    the place of a turn in the history, what may overwrite a stored row, and how
    rows are put together to a thread.  A turn is the wire object. *)
From S2P Require Import Prelude Indexes JsMap Json ThreadItems Readers ThreadEvents ThreadHead RenderWindow Delivery.

(** ** Rows *)

Inductive RowKind := ThreadRow | TurnRow | TurnMetaRow | ActivityRow | PendingKind.

#[export] Instance RowKind_eq_dec : EqDecision RowKind.
Proof. solve_decision. Defined.

Record ThreadDetailRow :=
  { r_id : jstr; r_kind : RowKind; r_connectionId : jstr; r_remoteThreadId : jstr;
    r_remoteTurnId : option jstr; r_ordinal : Z; r_historyEpoch : Z; r_sealed : bool;
    r_sessionId : option jstr; r_thread : option json; r_turn : option json;
    r_turnMetadata : option json; r_activityItems : option (list json);
    r_pending : option PendingTimelineEntry; r_lastOpenedAt : Z;
    (* of a thread row; a field that may be missing is an [option] more *)
    r_historyCursor : option (option jstr); r_historyHadTurns : option bool;
    r_historyCoverageMinOrdinal : option (option Z); r_historyCoverageMaxOrdinal : option (option Z);
    r_projectionCursor : option Z; r_historySourceWitness : option jstr;
    r_currentUsage : option (option ThreadCurrentUsage);
    r_currentOutcome : option (option ThreadCurrentOutcome) }.

Definition isKindRow (k : RowKind) (row : ThreadDetailRow) : bool := bool_decide (r_kind row = k).

(** ** Ordinals *)

(** The turn rows with a turn id, in row order. *)
Definition turnOrdinals (p : ThreadDetailRow -> bool) (rows : list ThreadDetailRow) : list (jstr * Z) :=
  omap (fun row => if isKindRow TurnRow row && p row
                   then (fun id => (id, r_ordinal row)) <$> r_remoteTurnId row else None) rows.

(** The first incoming turn with a place, and where it puts the first one. *)
Fixpoint anchor (known : list (jstr * Z)) (index : Z) (ids : list jstr) : option Z :=
  match ids with
  | [] => None
  | id :: ids =>
      match mget id known with
      | Some ordinal => Some (ordinal - index)
      | None => anchor known (index + 1) ids
      end
  end.

(** [turnIds.map((turnId, index) => [turnId, base + index])]. *)
Fixpoint numbered (base : Z) (ids : list jstr) : list (jstr * Z) :=
  match ids with
  | [] => []
  | id :: ids => (id, base) :: numbered (base + 1) ids
  end.

Definition projectAuthoritativeTurnOrdinals (existingRows : list ThreadDetailRow)
    (incomingTurnIds : list jstr) : list (jstr * Z) :=
  let existing := turnOrdinals (fun _ => true) existingRows in
  let maxOrdinal := foldl (fun m e => Z.max m e.2) (-1) existing in
  let baseOrdinal := default (maxOrdinal + 1) (anchor (mfrom existing) 0 incomingTurnIds) in
  mfrom (numbered baseOrdinal incomingTurnIds).

Definition currentHistoryTurns (existingRows : list ThreadDetailRow) (currentEpoch : Z)
    : list (jstr * Z) :=
  turnOrdinals (fun row => r_historyEpoch row =? currentEpoch) existingRows.

Definition rowsEpoch (existingRows : list ThreadDetailRow) : Z :=
  match list_find (fun row => r_kind row = ThreadRow) existingRows with
  | Some (_, row) => r_historyEpoch row
  | None => 0
  end.

Definition swap {A B} (e : A * B) : B * A := (e.2, e.1).

Definition authoritativeHistoryConflicts (incomingTurnIds : list jstr) (baseOrdinal : Z)
    (ordinalsByTurnId : list (jstr * Z)) (turnIdByOrdinal : list (Z * jstr)) : bool :=
  existsb (fun e =>
             match mget e.1 ordinalsByTurnId with Some o => negb (o =? e.2) | None => false end
             || match mget e.2 turnIdByOrdinal with Some id => negb (bool_decide (id = e.1)) | None => false end)
    (numbered baseOrdinal incomingTurnIds).

Definition projectAuthoritativeHistoryEpoch (existingRows : list ThreadDetailRow)
    (incomingTurnIds : list jstr) : Z :=
  let currentEpoch := rowsEpoch existingRows in
  let currentTurns := currentHistoryTurns existingRows currentEpoch in
  match currentTurns, incomingTurnIds with
  | [], _ | _, [] => currentEpoch
  | _, _ =>
      let ordinalsByTurnId := mfrom currentTurns in
      let turnIdByOrdinal := mfrom (swap <$> currentTurns) in
      match anchor ordinalsByTurnId 0 incomingTurnIds with
      | None => currentEpoch + 1
      | Some baseOrdinal =>
          if authoritativeHistoryConflicts incomingTurnIds baseOrdinal ordinalsByTurnId turnIdByOrdinal
          then currentEpoch + 1 else currentEpoch
      end
  end.

(** [existing ?? nextOrdinal++] over the incoming turns. *)
Fixpoint prepended (current : list (jstr * Z)) (nextOrdinal : Z) (ids : list jstr) : list (jstr * Z) :=
  match ids with
  | [] => []
  | id :: ids =>
      match mget id current with
      | Some ordinal => (id, ordinal) :: prepended current nextOrdinal ids
      | None => (id, nextOrdinal) :: prepended current (nextOrdinal + 1) ids
      end
  end.

Definition minOrdinal (values : list Z) : Z :=
  match values with [] => 0 | v :: values => foldl Z.min v values end.

Definition projectPrependedTurnOrdinals (existingRows : list ThreadDetailRow) (historyEpoch : Z)
    (incomingTurnIds : list jstr) : list (jstr * Z) :=
  let currentOrdinals := mfrom (currentHistoryTurns existingRows historyEpoch) in
  let additions := filter (fun id => mget id currentOrdinals = None) incomingTurnIds in
  let nextOrdinal := minOrdinal (mvals currentOrdinals) - Z.of_nat (length additions) in
  mfrom (prepended currentOrdinals nextOrdinal incomingTurnIds).

Definition reusableTurnOrdinal (row : option ThreadDetailRow) (historyEpoch : Z) : option Z :=
  row ← row;
  if isKindRow TurnRow row && (r_historyEpoch row =? historyEpoch) then Some (r_ordinal row) else None.

(** ** Pending rows over stored ones *)

Record PendingTimelineOverlay :=
  { o_connectionId : jstr; o_key : jstr; o_row : option ThreadDetailRow; o_threadId : jstr }.

Definition applyOverlay (connectionId threadId : jstr) (rows : list (jstr * option ThreadDetailRow))
    (overlay : PendingTimelineOverlay) : list (jstr * option ThreadDetailRow) :=
  if negb (bool_decide (o_connectionId overlay = connectionId))
     || negb (bool_decide (o_threadId overlay = threadId)) then rows
  else
    match mget (o_key overlay) rows with
    | Some (Some row) =>
        if isKindRow TurnRow row then rows else mset (o_key overlay) (o_row overlay) rows
    | _ => mset (o_key overlay) (o_row overlay) rows
    end.

Definition mergePendingTimelineOverlays (persistedRows : list ThreadDetailRow)
    (overlays : list PendingTimelineOverlay) (connectionId threadId : jstr) : list ThreadDetailRow :=
  omap id (mvals (foldl (applyOverlay connectionId threadId)
                    (mfrom ((fun row => (r_id row, Some row)) <$> persistedRows)) overlays)).

(** ** Row ids *)

Definition NUL : jstr := [0%N].

Definition pendingTimelineRowId (connectionId threadId commandId : jstr) : jstr :=
  connectionId ++ NUL ++ threadId ++ NUL ++ js "turnClient" ++ NUL ++ commandId.

Definition authoritativeTimelineRowId (connectionId threadId : jstr) (turn : json) : jstr :=
  match list_find (fun item => isType "userMessage" item = true) (turnItems turn) with
  | Some (_, user) =>
      match nonEmptyString (field "clientId" user) with
      | Some clientId => pendingTimelineRowId connectionId threadId clientId
      | None => connectionId ++ NUL ++ threadId ++ NUL ++ js "turn" ++ NUL ++ turnId turn
      end
  | None => connectionId ++ NUL ++ threadId ++ NUL ++ js "turn" ++ NUL ++ turnId turn
  end.

(** ** A turn without its items *)

Definition normalizeConversationTurn (turn : json) (resident : option json) : json :=
  if negb (isStr (field "itemsView" turn) "notLoaded")
     && bool_decide (is_Some (asArray (field "items" turn))) then turn
  else
    match resident with
    | Some r =>
        match asArray (field "items" r) with
        | Some items => copyField "itemsView" (field "itemsView" r) (setField "items" (JArr items) turn)
        | None => setField "itemsView" (JStr (js "notLoaded")) (setField "items" (JArr []) turn)
        end
    | None => setField "itemsView" (JStr (js "notLoaded")) (setField "items" (JArr []) turn)
    end.

(** ** What may overwrite a row *)

Definition shouldWriteThreadDetailRow (previous : option ThreadDetailRow) (next : ThreadDetailRow) : bool :=
  match r_kind next with
  | TurnRow => match previous with Some p => negb (r_sealed p) | None => true end
  | ActivityRow => bool_decide (previous = None)
  | _ => true
  end.

Definition shouldApplyLiveThreadRow := shouldWriteThreadDetailRow.

Definition sealedTurn (row : ThreadDetailRow) : bool := isKindRow TurnRow row && r_sealed row.

Definition reconcileAuthoritativeThreadDetailRow (previous : option ThreadDetailRow)
    (next : ThreadDetailRow) : ThreadDetailRow :=
  match previous with
  | Some p => if sealedTurn p && isKindRow TurnRow next && (r_historyEpoch p =? r_historyEpoch next)
              then p else next
  | None => next
  end.

Definition shouldWriteAuthoritativeThreadDetailRow (previous : option ThreadDetailRow)
    (next : ThreadDetailRow) : bool :=
  match previous with
  | Some p => if sealedTurn p && isKindRow TurnRow next
              then negb (r_historyEpoch p =? r_historyEpoch next)
              else shouldWriteThreadDetailRow previous next
  | None => shouldWriteThreadDetailRow previous next
  end.

(** [JSON.stringify] of [null] or of the items. *)
Definition activityText (row : ThreadDetailRow) : jstr :=
  stringify (match r_activityItems row with Some items => JArr items | None => JNull end).

Definition shouldWriteHydratedActivityRow (previous : option ThreadDetailRow) (next : ThreadDetailRow) : bool :=
  if negb (isKindRow ActivityRow next) then false
  else
    match previous with
    | Some p => if isKindRow ActivityRow p then negb (bool_decide (activityText p = activityText next)) else true
    | None => true
    end.

(** ** Partitions *)

(** The client id of a turn: that of its first user message. *)
Definition turnClientId (turn : json) : option jstr :=
  match list_find (fun item => isType "userMessage" item = true) (turnItems turn) with
  | Some (_, user) => nonEmptyString (field "clientId" user)
  | None => None
  end.

(** One iteration of [deduplicateThreadTurns]: the result so far and the place
    of each client id in it. *)
Definition dedupStep (st : list json * list (jstr * nat)) (turn : json) : list json * list (jstr * nat) :=
  let '(result, indexByClientId) := st in
  match turnClientId turn with
  | None => (result ++ [turn], indexByClientId)
  | Some clientId =>
      match mget clientId indexByClientId with
      | None => (result ++ [turn], mset clientId (length result) indexByClientId)
      | Some previousIndex =>
          match result !! previousIndex with
          | None => st
          | Some previous =>
              if turnInProgress previous && negb (turnInProgress turn)
              then (<[previousIndex := turn]> result, indexByClientId) else st
          end
      end
  end.

Definition deduplicateThreadTurns (turns : list json) : list json := (foldl dedupStep ([], []) turns).1.

Definition compareProtocolTurnOrder (left right : json) : Z :=
  match startedAt left, startedAt right with
  | Some l, Some r => l - r
  | _, _ => 0
  end.

Definition partitionBefore (left right : json * nat) : bool :=
  let protocolOrder := compareProtocolTurnOrder left.1 right.1 in
  if protocolOrder =? 0 then (left.2 <=? right.2)%nat else protocolOrder <? 0.

Definition mergeThreadPartitions (sealed live : list json) : list json :=
  let liveIds := turnId <$> live in
  let partitioned := filter (fun turn => turnId turn ∉ liveIds) sealed ++ live in
  deduplicateThreadTurns (fst <$> sortBy partitionBefore (imap (fun i turn => (turn, i)) partitioned)).

Definition mergeProjectedThreadPartitions {T} (projectedId : T -> jstr) (orderedTurns : list json)
    (sealed live : list T) : list T :=
  let values := mfrom ((fun v => (projectedId v, v)) <$> sealed ++ live) in
  omap (fun turn => mget (turnId turn) values) orderedTurns.

(** ** Materialisation *)

Section materialize.
(** Whether two items are one object, and the collation of ids. *)
Variable sameObject : json -> json -> bool.
Variable localeCompare : jstr -> jstr -> Z.

Definition compareTurnRows (left right : ThreadDetailRow) : Z :=
  let byOrdinal :=
    let ordinalOrder := r_ordinal left - r_ordinal right in
    if ordinalOrder =? 0 then localeCompare (r_id left) (r_id right) else ordinalOrder in
  match r_turn left ≫= startedAt, r_turn right ≫= startedAt with
  | Some l, Some r => if l =? r then byOrdinal else l - r
  | _, _ => byOrdinal
  end.

Definition mergeSummaryWithActivity (summary activity : list json) : list json :=
  if forallb (fun item => existsb (fun candidate => sameObject candidate item) activity) summary
  then activity else reconcileTurnItems activity summary.

Definition materializeTurn (source : json) (activity : option (list json)) (metadata : option json) : json :=
  let base :=
    match activity with
    | None => source
    | Some items => setField "itemsView" (JStr (js "full"))
                      (setField "items" (JArr (mergeSummaryWithActivity (turnItems source) items)) source)
    end in
  match metadata with
  | None => base
  | Some m => setField "codewide" m base
  end.

(** The last row, metadata and activity of each turn id. *)
Definition turnRows (rows : list ThreadDetailRow) : list (jstr * ThreadDetailRow) :=
  mfrom (omap (fun row => if isKindRow TurnRow row then (fun id => (id, row)) <$> r_remoteTurnId row
                          else None) rows).
Definition metadataRows (rows : list ThreadDetailRow) : list (jstr * json) :=
  mfrom (omap (fun row => if isKindRow TurnMetaRow row
                          then id ← r_remoteTurnId row; m ← r_turnMetadata row; Some (id, m)
                          else None) rows).
Definition activityRows (rows : list ThreadDetailRow) : list (jstr * list json) :=
  mfrom (omap (fun row => if isKindRow ActivityRow row
                          then id ← r_remoteTurnId row; items ← r_activityItems row; Some (id, items)
                          else None) rows).

Definition materializeRow (rows : list ThreadDetailRow) (row : ThreadDetailRow) : option json :=
  turn ← r_turn row;
  id ← r_remoteTurnId row;
  Some (materializeTurn turn (mget id (activityRows rows)) (mget id (metadataRows rows))).

Definition sortRows (rows : list ThreadDetailRow) : list ThreadDetailRow :=
  sortBy (fun a b => compareTurnRows a b <=? 0) rows.

Definition materializeThreadTurns (rows : list ThreadDetailRow) : list json :=
  deduplicateThreadTurns (omap (materializeRow rows) (sortRows (mvals (turnRows rows)))).

Record ThreadDetailSnapshot := { ds_connectionId : jstr; ds_fresh : bool; ds_thread : json }.

Definition ofThread (connectionId threadId : jstr) (row : ThreadDetailRow) : bool :=
  bool_decide (r_connectionId row = connectionId) && bool_decide (r_remoteThreadId row = threadId).

Definition materializeThreadDetail (rows : list ThreadDetailRow) (connectionId threadId : jstr)
    (currentSessionId : jstr) : option ThreadDetailSnapshot :=
  match list_find (fun row => (ofThread connectionId threadId row && isKindRow ThreadRow row) = true) rows with
  | None => None
  | Some (_, meta) =>
      thread ← r_thread meta;
      let mine := filter (fun row => (ofThread connectionId threadId row
                    && (isKindRow ThreadRow row || isKindRow PendingKind row
                        || (r_historyEpoch row =? r_historyEpoch meta))) = true) rows in
      Some {| ds_connectionId := connectionId;
              ds_fresh := bool_decide (r_sessionId meta = Some currentSessionId);
              ds_thread := setTurns (materializeThreadTurns mine) thread |}
  end.

Definition materializeThreadDetails (rows : list ThreadDetailRow) (currentSessionId : jstr)
    : list ThreadDetailSnapshot :=
  omap (fun row => materializeThreadDetail rows (r_connectionId row) (r_remoteThreadId row) currentSessionId)
    (filter (fun row => isKindRow ThreadRow row = true) rows).

Definition pendingBefore (left right : PendingTimelineEntry) : bool :=
  if negb (order left =? order right) then order left <? order right
  else if negb (createdAt left =? createdAt right) then createdAt left <? createdAt right
  else localeCompare (commandId left) (commandId right) <=? 0.

Definition materializePendingTimeline (rows : list ThreadDetailRow) : list PendingTimelineEntry :=
  sortBy pendingBefore
    (omap (fun row => if isKindRow PendingKind row then r_pending row else None) rows).

End materialize.

(** ** Cleanup of delivered prompts *)

Definition canonicalRows (rows : list ThreadDetailRow) : list jstr :=
  rows ≫= fun row =>
    match (if isKindRow TurnRow row then r_turn row else None) with
    | Some turn =>
        omap (fun item => if isType "userMessage" item
                          then pendingTimelineRowId (r_connectionId row) (r_remoteThreadId row)
                                 <$> nonEmptyString (field "clientId" item)
                          else None) (turnItems turn)
    | None => []
    end.

Definition planPendingDeliveryProjectionCleanup (rows : list ThreadDetailRow)
    (activeCommandIds : list jstr) : list jstr :=
  omap (fun row =>
          entry ← r_pending row;
          if isKindRow PendingKind row && bool_decide (presentation entry = AsDelivery)
             && negb (bool_decide (commandId entry ∈ activeCommandIds))
             && bool_decide (pendingTimelineRowId (r_connectionId row) (r_remoteThreadId row)
                               (commandId entry) ∈ canonicalRows rows)
          then Some (r_id row) else None) rows.

(** ** An authoritative thread over a mutable head *)

Definition startedBefore (left right : json) : bool :=
  default 0 (startedAt left) <=? default 0 (startedAt right).

Definition reconcileAuthoritativeThread (incoming : json) (currentMutableHead : option json)
    (preserveConcurrentHead : bool) : json :=
  match (if preserveConcurrentHead then currentMutableHead else None) with
  | None => incoming
  | Some head =>
      let incomingTurns := arrField "turns" incoming in
      let headTurns := arrField "turns" head in
      let replaced :=
        (fun turn => match list_find (fun candidate => turnId candidate = turnId turn) headTurns with
                     | Some (_, previous) => previous
                     | None => turn
                     end) <$> incomingTurns in
      let added := filter (fun turn => turnId turn ∉ (turnId <$> incomingTurns)) headTurns in
      setTurns (sortBy startedBefore (replaced ++ added)) incoming
  end.

(** ** Artifacts *)

Inductive ArtifactReference :=
| SavedPath (path : jstr)
| AssetReference (byteLength : Z) (contentType id : jstr)
| UriReference (uri : jstr).

#[export] Instance ArtifactReference_eq_dec : EqDecision ArtifactReference.
Proof. solve_decision. Defined.

Definition absolutePath (value : option json) : option jstr :=
  s ← asString value;
  if startsWith (js "/") s && (length s <=? 4096)%nat && negb (bool_decide (0%N ∈ s)) then Some s else None.

Definition privateImageAssetProjection (value : option json) : option ArtifactReference :=
  asset ← asObject value;
  id ← asString (oget "id" asset);
  byteLength ← asSafeInt (oget "byteLength" asset);
  contentType ← asString (oget "contentType" asset);
  if isInt (oget "version" asset) 1 && (length id =? 64)%nat && forallb CommandOutput.isHexLower id
     && (0 <? byteLength) && startsWith (js "image/") contentType
  then Some (AssetReference byteLength contentType id) else None.

Definition artifactReference (value : option json) : option ArtifactReference :=
  o ← asObject value;
  match absolutePath (oget "savedPath" o) with
  | Some path => Some (SavedPath path)
  | None =>
      match privateImageAssetProjection (oget "codewideAsset" o) with
      | Some asset => Some asset
      | None =>
          match absolutePath (oget "uri" o) with
          | Some uri => Some (UriReference uri)
          | None =>
              uri ← asString (oget "uri" o);
              if startsWith (js "sandbox:") uri
              then UriReference <$> absolutePath (Some (JStr (slice_from 8 uri))) else None
          end
      end
  end.

Definition artifactKey (r : ArtifactReference) : jstr :=
  match r with
  | SavedPath path => js "path:" ++ path
  | UriReference uri => js "uri:" ++ uri
  | AssetReference _ _ id => js "content:" ++ id
  end.

(** [append]: the references so far, distinct by key. *)
Definition appendArtifact (references : list ArtifactReference) (value : option json) : list ArtifactReference :=
  match artifactReference value with
  | None => references
  | Some r => if bool_decide (artifactKey r ∈ (artifactKey <$> references)) then references
              else references ++ [r]
  end.

(** The values a part of a tool's content offers. *)
Definition partValues (part : json) : list (option json) :=
  match asObject (Some part) with
  | None => []
  | Some p =>
      match oget "codewideAsset" p with
      | Some asset => [Some (JObj [("codewideAsset", asset)])]
      | None => []
      end
      ++ (if isStr (oget "type" p) "resource_link"
          then [Some (JObj (match oget "uri" p with Some uri => [("uri", uri)] | None => [] end))] else [])
  end.

Definition itemValues (value : json) : list (option json) :=
  match asObject (Some value) with
  | None => []
  | Some item =>
      (if isStr (oget "type" item) "imageGeneration" then [Some value] else [])
      ++ (if isStr (oget "type" item) "dynamicToolCall" || isStr (oget "type" item) "mcpToolCall"
          then [oget "content" item; oget "contentItems" item; oget "output" item;
                asObject (oget "result" item) ≫= oget "content"]
               ≫= fun content => default [] (asArray content) ≫= partValues
          else [])
  end.

Definition compactTurnArtifactReferences (turn : json) : list ArtifactReference :=
  match asObject (Some turn) with
  | None => []
  | Some o =>
      let retained := Some <$> default [] (asObject (oget "codewide" o) ≫= fun c => asArray (oget "artifacts" c)) in
      let items := default [] (asArray (oget "items" o)) in
      foldl appendArtifact [] (retained ++ (items ≫= itemValues))
  end.

Definition artifactJson (r : ArtifactReference) : json :=
  match r with
  | SavedPath path => JObj [("savedPath", JStr path)]
  | UriReference uri => JObj [("uri", JStr uri)]
  | AssetReference byteLength contentType id =>
      JObj [("codewideAsset", JObj [("version", JNum (NInt 1)); ("byteLength", JNum (NInt byteLength));
                                    ("contentType", JStr contentType); ("id", JStr id)])]
  end.

(** ** Compaction of a completed turn *)

(** The latest agent message with text, and the latest marked final. *)
Definition finalAgents (items : list json) : option nat * option nat :=
  foldl (fun st e =>
           if negb (isType "agentMessage" e.2) || blankText e.2 then st
           else (Some e.1, if isStr (field "phase" e.2) "final_answer" then Some e.1 else st.2))
    (None, None) (imap pair items).

Definition finalAgentIndex (items : list json) : option nat :=
  let '(latest, explicit) := finalAgents items in
  match explicit with Some i => Some i | None => latest end.

Definition retainsItem (final : option nat) (e : nat * json) : bool :=
  isType "userMessage" e.2 || isType "contextCompaction" e.2
  || bool_decide (Some e.1 = final) || isTaskNotificationItem e.2.

Definition compactCompletedTurnForStorage (turn : json) : json :=
  if turnInProgress turn || negb (isStr (field "itemsView" turn) "full") then turn
  else
    let items := turnItems turn in
    let retained := filter (fun e => retainsItem (finalAgentIndex items) e = true) (imap pair items) in
    if (length retained =? length items)%nat then turn
    else
      let metadata := default (JObj []) (projectedTurnMetadata turn) in
      let artifacts := compactTurnArtifactReferences turn in
      let codewide := match artifacts with
                      | [] => metadata
                      | _ => setField "artifacts" (JArr (artifactJson <$> artifacts)) metadata
                      end in
      setField "itemsView" (JStr (js "summary"))
        (setField "items" (JArr (snd <$> retained)) (setField "codewide" codewide turn)).

(** ** Places *)

Lemma numbered_keys base ids : (numbered base ids).*1 = ids.
Proof. revert base. induction ids as [|id ids IH]; intros base; simpl; [done|]. by rewrite IH. Qed.

Lemma elem_of_numbered base ids id o :
  (id, o) ∈ numbered base ids <-> exists i, ids !! i = Some id /\ o = base + Z.of_nat i.
Proof.
  revert base. induction ids as [|x ids IH]; intros base; simpl.
  - split; [by intros ?%elem_of_nil|]. by intros (? & ? & _).
  - rewrite elem_of_cons, IH. split.
    + intros [[= -> ->]|(i & Hi & ->)]; [exists O; split; [done|lia]|]. exists (S i). split; [done|lia].
    + intros ([|i] & Hi & ->); simpl in Hi; [left; simplify_eq; f_equal; lia|]. right. exists i. split; [done|lia].
Qed.

Lemma anchor_spec known k ids :
  match anchor known k ids with
  | Some b => exists j id o, ids !! j = Some id /\ mget id known = Some o /\ b = o - (k + Z.of_nat j)
                /\ forall i id', (i < j)%nat -> ids !! i = Some id' -> mget id' known = None
  | None => Forall (fun id => mget id known = None) ids
  end.
Proof.
  revert k. induction ids as [|id ids IH]; intros k; simpl; [constructor|].
  destruct (mget id known) as [o|] eqn:E.
  - exists O, id, o. split_and!; [done..|lia|]. intros i ? ?. lia.
  - specialize (IH (k + 1)). destruct (anchor known (k + 1) ids).
    + destruct IH as (j & id' & o & Hj & Ho & -> & Hlt). exists (S j), id', o. split_and!; [done..|lia|].
      intros [|i] x Hi Hx; simpl in Hx; [by simplify_eq|]. apply (Hlt i); [lia|done].
    + by constructor.
Qed.

Lemma max_above (l : list (jstr * Z)) m e : e ∈ l -> e.2 <= foldl (fun m e => Z.max m e.2) m l.
Proof.
  assert (Hm : forall l m, m <= foldl (fun m (e : jstr * Z) => Z.max m e.2) m l).
  { clear. intros l. induction l as [|e l IH]; intros m; simpl; [lia|]. specialize (IH (Z.max m e.2)). lia. }
  revert m. induction l as [|x l IH]; intros m; [by intros ?%elem_of_nil|]. simpl.
  intros [->|H]%elem_of_cons; [|by apply IH]. specialize (Hm l (Z.max m x.2)). lia.
Qed.

Lemma turnOrdinals_filter p e rows :
  (forall row, p row = (r_historyEpoch row =? e)) ->
  turnOrdinals (fun _ => true) (filter (fun row => r_historyEpoch row = e) rows) = turnOrdinals p rows.
Proof.
  intros Hp. unfold turnOrdinals. induction rows as [|row rows IH]; [done|].
  destruct (decide (r_historyEpoch row = e)) as [He|He].
  - rewrite filter_cons_True by done. simpl. rewrite Hp, (proj2 (Z.eqb_eq _ _) He), andb_true_r.
    destruct (isKindRow TurnRow row); [destruct (r_remoteTurnId row)|]; simpl; [f_equal|..]; exact IH.
  - rewrite filter_cons_False by done. simpl. rewrite Hp, (proj2 (Z.eqb_neq _ _) He), andb_false_r. exact IH.
Qed.

Lemma existsb_false_iff {A} (p : A -> bool) l : existsb p l = false <-> forall x, x ∈ l -> p x = false.
Proof.
  split.
  - intros H x Hx. destruct (p x) eqn:E; [|done]. by rewrite (proj2 (existsb_elem p l)) in H by eauto.
  - intros H. destruct (existsb p l) eqn:E; [|done]. apply existsb_elem in E as (x & Hx & Hp).
    by rewrite H in Hp.
Qed.

Lemma swap_fst {A B} (l : list (A * B)) : (swap <$> l).*1 = l.*2.
Proof. rewrite <- list_fmap_compose. by apply list_fmap_ext. Qed.

(** The place of the first incoming turn, from those of the epoch. *)
Definition anchoredBase (known : list (jstr * Z)) (ids : list jstr) : Z :=
  default (foldl (fun m e => Z.max m e.2) (-1) known + 1) (anchor known 0 ids).

Lemma ordinals_numbered rows ids :
  NoDup ids -> NoDup (currentHistoryTurns rows (rowsEpoch rows)).*1 ->
  projectAuthoritativeTurnOrdinals (filter (fun row => r_historyEpoch row = rowsEpoch rows) rows) ids
  = numbered (anchoredBase (currentHistoryTurns rows (rowsEpoch rows)) ids) ids.
Proof.
  intros Hids Hk. unfold projectAuthoritativeTurnOrdinals, anchoredBase.
  rewrite (turnOrdinals_filter (fun row => r_historyEpoch row =? rowsEpoch rows)) by done.
  fold (currentHistoryTurns rows (rowsEpoch rows)).
  rewrite (mfrom_distinct (currentHistoryTurns _ _)) by done. by rewrite mfrom_distinct by (by rewrite numbered_keys).
Qed.

Lemma mget_numbered base ids id o :
  NoDup ids -> mget id (numbered base ids) = Some o <-> exists i, ids !! i = Some id /\ o = base + Z.of_nat i.
Proof.
  intros Hids. rewrite <- elem_of_numbered. split; [by apply mget_elem|].
  apply elem_mget. unfold mwf, mkeys. by rewrite numbered_keys.
Qed.

Lemma epoch_cases rows ids :
  NoDup (currentHistoryTurns rows (rowsEpoch rows)).*1 -> NoDup (currentHistoryTurns rows (rowsEpoch rows)).*2 ->
  let known := currentHistoryTurns rows (rowsEpoch rows) in
  projectAuthoritativeHistoryEpoch rows ids =
  match known, ids with
  | [], _ | _, [] => rowsEpoch rows
  | _, _ => match anchor known 0 ids with
            | None => rowsEpoch rows + 1
            | Some b => if authoritativeHistoryConflicts ids b known (swap <$> known)
                        then rowsEpoch rows + 1 else rowsEpoch rows
            end
  end.
Proof.
  intros Hk Ho known. unfold projectAuthoritativeHistoryEpoch. fold known. rewrite (mfrom_distinct known) by done.
  by rewrite (mfrom_distinct (swap <$> known)) by (by rewrite swap_fst).
Qed.

Lemma anchored_from known ids : Forall (fun id => id ∉ known.*1) ids -> anchor known 0 ids = None.
Proof.
  intros Hnone. pose proof (anchor_spec known 0 ids) as Ha.
  destruct (anchor known 0 ids) as [b|] eqn:E; [|done].
  destruct Ha as (j & id & o & Hj & Hget & _). exfalso.
  apply (proj1 (Forall_forall _ _) Hnone id); [by eapply list_elem_of_lookup_2|].
  apply mget_elem in Hget. apply list_elem_of_fmap. by exists (id, o).
Qed.

(** Nothing of the page contradicts the places of the epoch. *)
Definition compatible (known places : list (jstr * Z)) : Prop :=
  forall id o, (id, o) ∈ known ->
    (forall o', mget id places = Some o' -> o' = o) /\ (forall id', mget id' places = Some o -> id' = id).

Lemma no_conflict known b ids :
  NoDup known.*1 -> NoDup known.*2 ->
  authoritativeHistoryConflicts ids b known (swap <$> known) = false -> compatible known (numbered b ids).
Proof.
  intros Hk Ho Hconf id o Hin. pose proof (proj1 (existsb_false_iff _ _) Hconf) as Hno.
  split; intros x Hx; apply mget_elem in Hx; specialize (Hno _ Hx); simpl in Hno; apply orb_false_iff in Hno as [N1 N2].
  - rewrite (elem_mget id o known) in N1 by done. by apply negb_false_iff, Z.eqb_eq in N1.
  - rewrite (elem_mget o id (swap <$> known)) in N2.
    + by apply negb_false_iff, bool_decide_eq_true in N2.
    + unfold mwf, mkeys. by rewrite swap_fst.
    + apply list_elem_of_fmap. by exists (id, o).
Qed.

Lemma unanchored known ids :
  NoDup known.*1 -> NoDup ids -> anchor known 0 ids = None ->
  compatible known (numbered (anchoredBase known ids) ids).
Proof.
  intros Hk Hids Hn id o Hin. unfold anchoredBase. pose proof (anchor_spec known 0 ids) as Ha.
  rewrite Hn in *. simpl. pose proof (max_above known (-1) (id, o) Hin) as Hmax. simpl in Hmax. split.
  - intros o' (i & Hi & ->)%mget_numbered; [|done]. exfalso. apply (proj1 (Forall_lookup _ _) Ha) in Hi.
    by rewrite (elem_mget id o known) in Hi.
  - intros id' (i & Hi & ->)%mget_numbered; [lia|done].
Qed.

(** An authoritative page is laid over the turns of the current epoch. When the
    page shares no turn with them, or contradicts their places, a new epoch
    begins; otherwise every turn of the epoch keeps its place, and the places of
    the page are consecutive, in page order, and taken by no other turn. *)
Theorem epoch_keeps_places rows ids :
  NoDup ids ->
  NoDup (currentHistoryTurns rows (rowsEpoch rows)).*1 ->
  NoDup (currentHistoryTurns rows (rowsEpoch rows)).*2 ->
  let known := currentHistoryTurns rows (rowsEpoch rows) in
  let currentRows := filter (fun row => r_historyEpoch row = rowsEpoch rows) rows in
  let places := projectAuthoritativeTurnOrdinals currentRows ids in
  let epoch := projectAuthoritativeHistoryEpoch rows ids in
  (epoch = rowsEpoch rows \/ epoch = rowsEpoch rows + 1)
  /\ (known <> [] -> ids <> [] -> Forall (fun id => id ∉ known.*1) ids -> epoch = rowsEpoch rows + 1)
  /\ (exists base, forall id o, mget id places = Some o <-> exists i, ids !! i = Some id /\ o = base + Z.of_nat i)
  /\ (epoch = rowsEpoch rows -> forall id o, (id, o) ∈ known ->
        (forall o', mget id places = Some o' -> o' = o)
        /\ (forall id', mget id' places = Some o -> id' = id)).
Proof.
  intros Hids Hk Ho known currentRows places epoch.
  assert (Hplaces : places = numbered (anchoredBase known ids) ids) by exact (ordinals_numbered rows ids Hids Hk).
  pose proof (epoch_cases rows ids Hk Ho) as Hepoch. cbv zeta in Hepoch. fold known epoch in Hepoch.
  rewrite Hplaces. split_and!.
  - rewrite Hepoch. destruct known, ids; auto. destruct (anchor _ 0 _); [|by right].
    destruct (authoritativeHistoryConflicts _ _ _ _); auto.
  - intros Hk0 Hi0 Hnone. rewrite Hepoch, (anchored_from known ids Hnone). by destruct known, ids.
  - exists (anchoredBase known ids). intros id o. by apply mget_numbered.
  - intros He id o Hin. rewrite Hepoch in He.
    destruct (anchor known 0 ids) as [b|] eqn:Ha; [|by apply (unanchored known ids Hk Hids Ha)].
    assert (Hb : anchoredBase known ids = b) by (unfold anchoredBase; by rewrite Ha). rewrite Hb.
    apply (no_conflict known b ids Hk Ho); [|done]. clear -He Hin Ha.
    destruct known as [|k0 known0]; [by apply elem_of_nil in Hin|]. destruct ids as [|i0 ids0]; [done|].
    destruct (authoritativeHistoryConflicts _ _ _ _); [lia|done].
Qed.

(** ** Older pages *)

Lemma prepended_keys current n ids : (prepended current n ids).*1 = ids.
Proof. revert n. induction ids as [|id ids IH]; intros n; simpl; [done|]. destruct (mget id current); simpl; by rewrite IH. Qed.

Lemma elem_of_prepended current n ids id o :
  (id, o) ∈ prepended current n ids ->
  mget id current = Some o
  \/ exists i, filter (fun id => mget id current = None) ids !! i = Some id /\ o = n + Z.of_nat i.
Proof.
  revert n. induction ids as [|x ids IH]; intros n; simpl; [by intros ?%elem_of_nil|].
  destruct (mget x current) as [p|] eqn:E; rewrite elem_of_cons; intros [[= -> ->]|H].
  - by left.
  - rewrite filter_cons_False by congruence. by apply IH.
  - right. rewrite filter_cons_True by done. exists O. split; [done|lia].
  - apply IH in H as [?|(i & Hi & ->)]; [by left|right]. rewrite filter_cons_True by done.
    exists (S i). split; [done|lia].
Qed.

Lemma min_below l z : z ∈ l -> minOrdinal l <= z.
Proof.
  assert (Hm : forall l m, foldl Z.min m l <= m /\ forall z, z ∈ l -> foldl Z.min m l <= z).
  { clear. intros l. induction l as [|x l IH]; intros m; simpl; [split; [lia|by intros ? ?%elem_of_nil]|].
    destruct (IH (Z.min m x)) as [H1 H2]. split; [lia|]. intros z [->|Hz]%elem_of_cons; [lia|by apply H2]. }
  destruct l as [|x l]; [by intros ?%elem_of_nil|]. simpl. destruct (Hm l x) as [H1 H2].
  intros [->|Hz]%elem_of_cons; [done|by apply H2].
Qed.

(** An older page is put directly before the epoch: a turn it already has keeps
    its place, and the others take consecutive places in page order, ending one
    below the smallest place of the epoch. *)
Theorem prepended_places rows epoch ids :
  NoDup ids -> NoDup (currentHistoryTurns rows epoch).*1 ->
  let known := currentHistoryTurns rows epoch in
  let places := projectPrependedTurnOrdinals rows epoch ids in
  let additions := filter (fun id => id ∉ known.*1) ids in
  (mkeys places = ids)
  /\ (forall id o, (id, o) ∈ known -> id ∈ ids -> mget id places = Some o)
  /\ (forall i id, additions !! i = Some id ->
        mget id places = Some (minOrdinal known.*2 - Z.of_nat (length additions) + Z.of_nat i))
  /\ (forall i id o, additions !! i = Some id -> o ∈ known.*2 ->
        minOrdinal known.*2 - Z.of_nat (length additions) + Z.of_nat i < o).
Proof.
  intros Hids Hk known places additions.
  assert (Hadd : filter (fun id => mget id known = None) ids = additions).
  { subst additions. apply list_filter_iff. intros id. apply mget_None. }
  assert (Hplaces : places = prepended known (minOrdinal known.*2 - Z.of_nat (length additions)) ids).
  { subst places. unfold projectPrependedTurnOrdinals. fold known. rewrite (mfrom_distinct known) by done.
    rewrite Hadd. unfold mvals. apply mfrom_distinct. by rewrite prepended_keys. }
  assert (Hkeys : mkeys places = ids) by (rewrite Hplaces; apply prepended_keys).
  assert (Hhas : forall id, id ∈ ids -> exists o, (id, o) ∈ places).
  { intros id Hid. rewrite <- Hkeys in Hid. apply list_elem_of_fmap in Hid as ([? o] & -> & ?). eauto. }
  assert (Hwf : mwf places) by (unfold mwf; by rewrite Hkeys).
  split_and!; [done| | |].
  - intros id o Hin Hid. destruct (Hhas id Hid) as (o' & Ho'). pose proof Ho' as Hg. rewrite Hplaces in Ho'.
    apply elem_of_prepended in Ho' as [Ho'|(i & Hi & _)].
    + rewrite (elem_mget id o known) in Ho' by done. simplify_eq. by apply elem_mget.
    + exfalso. apply list_elem_of_lookup_2, list_elem_of_filter in Hi as [Hi _].
      by rewrite (elem_mget id o known) in Hi.
  - intros i id Hi.
    assert (Hid : id ∈ ids) by (apply list_elem_of_lookup_2, list_elem_of_filter in Hi as [_ ?]; done).
    destruct (Hhas id Hid) as (o & Ho). apply elem_mget in Ho as Hg; [|done]. rewrite Hg. f_equal.
    rewrite Hplaces in Ho. apply elem_of_prepended in Ho as [Ho|(j & Hj & ->)].
    + exfalso. rewrite <- Hadd in Hi. apply list_elem_of_lookup_2, list_elem_of_filter in Hi as [Hi _]. congruence.
    + rewrite Hadd in Hj. do 2 f_equal. assert (NoDup additions) as Hn by (by apply NoDup_filter).
      by apply (proj1 (NoDup_alt _) Hn j i id).
  - intros i id o Hi Ho. apply min_below in Ho. apply lookup_lt_Some in Hi. lia.
Qed.

(** ** Retries of one command

    The reference definition: the turns in order, a command's turns at the place
    of the first of them ([inl] its client id), the others at their own. *)
Definition slotStep (slots : list (jstr + json)) (turn : json) : list (jstr + json) :=
  match turnClientId turn with
  | None => slots ++ [inr turn]
  | Some c => if bool_decide (inl c ∈ slots) then slots else slots ++ [inl c]
  end.

Definition slotsOf (turns : list json) : list (jstr + json) := foldl slotStep [] turns.

Definition groupOf (turns : list json) (c : jstr) : list json :=
  filter (fun turn => turnClientId turn = Some c) turns.

(** A command is shown by its first finished turn, or by its first one. *)
Definition shownOf (turns : list json) (c : jstr) : json :=
  match list_find (fun turn => turnInProgress turn = false) (groupOf turns c) with
  | Some (_, turn) => turn
  | None => default JNull (head (groupOf turns c))
  end.

Definition showSlot (turns : list json) (slot : jstr + json) : json :=
  match slot with inl c => shownOf turns c | inr turn => turn end.

Lemma slotsOf_snoc turns turn : slotsOf (turns ++ [turn]) = slotStep (slotsOf turns) turn.
Proof. unfold slotsOf. by rewrite foldl_app. Qed.

Lemma elem_of_slots turns slot :
  slot ∈ slotsOf turns <->
  match slot with
  | inl c => exists turn, turn ∈ turns /\ turnClientId turn = Some c
  | inr turn => turn ∈ turns /\ turnClientId turn = None
  end.
Proof.
  induction turns as [|turn turns IH] using rev_ind.
  { destruct slot; split; try by intros ?%elem_of_nil.
    - by intros (? & ?%elem_of_nil & _).
    - by intros [?%elem_of_nil _]. }
  rewrite slotsOf_snoc. unfold slotStep. destruct (turnClientId turn) as [c|] eqn:E.
  - case_bool_decide as Hin.
    + rewrite IH. destruct slot as [c'|t].
      * split; [intros (t & ? & ?); exists t; set_solver|].
        intros (t & [?| ->%list_elem_of_singleton]%elem_of_app & Ht); [by eauto|].
        rewrite E in Ht. simplify_eq. by apply IH in Hin.
      * split; [set_solver|]. intros [[?| ->%list_elem_of_singleton]%elem_of_app Ht]; [done|congruence].
    + rewrite elem_of_app, IH, list_elem_of_singleton. destruct slot as [c'|t].
      * split; [intros [(t & ? & ?)|[= ->]]; [exists t|exists turn]; set_solver|].
        intros (t & [?| ->%list_elem_of_singleton]%elem_of_app & Ht); [by eauto|]. right. congruence.
      * split; [intros [?|[=]]; set_solver|]. intros [[?| ->%list_elem_of_singleton]%elem_of_app Ht]; [by left|congruence].
  - rewrite elem_of_app, IH, list_elem_of_singleton. destruct slot as [c'|t].
    + split; [intros [(t & ? & ?)|[=]]; exists t; set_solver|].
      intros (t & [?| ->%list_elem_of_singleton]%elem_of_app & Ht); [by eauto|congruence].
    + split; [intros [?|[= ->]]; set_solver|]. intros [[?| ->%list_elem_of_singleton]%elem_of_app Ht]; auto.
Qed.

Lemma slots_nodup turns : NoDup turns -> NoDup (slotsOf turns).
Proof.
  induction turns as [|turn turns IH] using rev_ind; [constructor|].
  intros (Hn & Hx & _)%NoDup_app. rewrite slotsOf_snoc. unfold slotStep.
  assert (Hsnoc : forall s, s ∉ slotsOf turns -> NoDup (slotsOf turns ++ [s])).
  { intros s Hs. apply NoDup_app. split_and!; [by apply IH| |apply NoDup_singleton].
    by intros ? ? ->%list_elem_of_singleton. }
  destruct (turnClientId turn) as [c|] eqn:E; [case_bool_decide; [by apply IH|by apply Hsnoc]|].
  apply Hsnoc. rewrite elem_of_slots. intros [Hin _]. by apply (Hx _ Hin), list_elem_of_singleton.
Qed.

Lemma groupOf_snoc turns turn c :
  groupOf (turns ++ [turn]) c
  = groupOf turns c ++ (if bool_decide (turnClientId turn = Some c) then [turn] else []).
Proof.
  unfold groupOf. rewrite filter_app. f_equal. case_bool_decide.
  - by rewrite filter_cons_True.
  - by rewrite filter_cons_False.
Qed.

Lemma shownOf_other turns turn c :
  turnClientId turn <> Some c -> shownOf (turns ++ [turn]) c = shownOf turns c.
Proof. intros H. unfold shownOf. by rewrite groupOf_snoc, bool_decide_eq_false_2, app_nil_r. Qed.

Lemma shownOf_new turns turn c :
  turnClientId turn = Some c -> groupOf turns c = [] -> shownOf (turns ++ [turn]) c = turn.
Proof.
  intros H Hg. unfold shownOf. rewrite groupOf_snoc, Hg, bool_decide_eq_true_2 by done. simpl.
  by case_decide.
Qed.

Lemma shownOf_again turns turn c :
  turnClientId turn = Some c -> groupOf turns c <> [] ->
  shownOf (turns ++ [turn]) c
  = if turnInProgress (shownOf turns c) && negb (turnInProgress turn) then turn else shownOf turns c.
Proof.
  intros H Hg. unfold shownOf. rewrite groupOf_snoc, bool_decide_eq_true_2 by done.
  destruct (list_find (fun t => turnInProgress t = false) (groupOf turns c)) as [[i t]|] eqn:E.
  - rewrite (list_find_app_l _ _ [turn] _ _ E). apply list_find_Some in E as (_ & Ht & _). by rewrite Ht.
  - rewrite (list_find_app_r _ _ _ E). apply list_find_None in E. destruct (groupOf turns c) as [|t g]; [done|].
    apply Forall_cons in E as [Ht _]. simpl. destruct (turnInProgress t); [|done]. simpl.
    case_decide as Hd; simpl; [by rewrite Hd|]. by destruct (turnInProgress turn).
Qed.

Lemma groupOf_seen turns c : inl c ∈ slotsOf turns <-> groupOf turns c <> [].
Proof.
  rewrite elem_of_slots. unfold groupOf. split.
  - intros (t & Hin & Ht) Hn.
    assert (Hf : t ∈ filter (fun t => turnClientId t = Some c) turns) by (by apply list_elem_of_filter).
    rewrite Hn in Hf. by apply elem_of_nil in Hf.
  - intros Hn. destruct (filter _ turns) as [|t g] eqn:E; [done|]. exists t.
    assert (Hin : t ∈ filter (fun t => turnClientId t = Some c) turns) by (rewrite E; left).
    apply list_elem_of_filter in Hin as [? ?]. by split.
Qed.

(** The state of the loop after a list of turns. *)
Lemma dedup_state turns :
  let st := foldl dedupStep ([], []) turns in
  st.1 = showSlot turns <$> slotsOf turns
  /\ forall c k, mget c st.2 = Some k <-> slotsOf turns !! k = Some (inl c).
Proof.
  induction turns as [|turn turns IH] using rev_ind; [by split|].
  rewrite foldl_app, slotsOf_snoc. simpl. destruct (foldl dedupStep ([], []) turns) as [result index].
  destruct IH as [Hr Hi]. simpl in Hr, Hi. unfold dedupStep, slotStep.
  assert (Hlen : length result = length (slotsOf turns)) by (rewrite Hr; apply length_fmap).
  destruct (turnClientId turn) as [c|] eqn:E.
  - assert (Hsame : forall slot, slot <> inl c -> showSlot (turns ++ [turn]) slot = showSlot turns slot).
    { intros [c'|t] Hs; simpl; [|done]. apply shownOf_other. congruence. }
    destruct (mget c index) as [k|] eqn:Ek.
    + apply Hi in Ek as Hk. assert (Hseen : inl c ∈ slotsOf turns) by (by eapply list_elem_of_lookup_2).
      rewrite bool_decide_eq_true_2 by done.
      assert (Hprev : result !! k = Some (shownOf turns c)) by (by rewrite Hr, list_lookup_fmap, Hk).
      rewrite Hprev. pose proof (shownOf_again turns turn c E (proj1 (groupOf_seen turns c) Hseen)) as Hagain.
      assert (Hunique : forall i, slotsOf turns !! i = Some (inl c) -> i = k).
      { intros i H%Hi. congruence. }
      split; [|by destruct (_ && _)].
      apply list_eq. intros i. rewrite list_lookup_fmap.
      assert (Hat : (showSlot (turns ++ [turn]) <$> slotsOf turns !! i)
                    = if decide (i = k) then Some (shownOf (turns ++ [turn]) c) else result !! i).
      { case_decide as Hik; [subst i; by rewrite Hk|]. rewrite Hr, list_lookup_fmap.
        destruct (slotsOf turns !! i) as [slot|] eqn:Es; simpl; [|done]. f_equal. apply Hsame.
        intros ->. by apply Hik, Hunique. }
      rewrite Hat, Hagain. destruct (_ && _); simpl; case_decide as Hik; subst; try done.
      * apply list_lookup_insert_eq. by eapply lookup_lt_Some.
      * by apply list_lookup_insert_ne.
    + assert (Hnew : inl c ∉ slotsOf turns).
      { intros [k Hk]%list_elem_of_lookup. apply Hi in Hk. congruence. }
      rewrite bool_decide_eq_false_2 by done. simpl.
      assert (Hg : groupOf turns c = []).
      { destruct (groupOf turns c) eqn:Eg; [done|]. exfalso. apply Hnew, groupOf_seen. by rewrite Eg. }
      split.
      * rewrite fmap_app. simpl. rewrite (shownOf_new _ _ _ E Hg). f_equal. rewrite Hr.
        apply list_fmap_ext. intros i slot Hs. symmetry. apply Hsame. intros ->.
        by apply Hnew, (list_elem_of_lookup_2 _ i).
      * intros c' k. rewrite mget_mset. case_bool_decide as Hc; [subst c'|].
        -- split; [intros [= <-]; by rewrite list_lookup_middle|].
           intros [Hk|[Hk Hk']]%lookup_app_Some; [exfalso; by apply Hnew, (list_elem_of_lookup_2 _ k)|].
           f_equal. rewrite Hlen. apply lookup_lt_Some in Hk'. simpl in Hk'. lia.
        -- rewrite Hi. rewrite lookup_app_Some. split; [by left|].
           intros [?|[_ Hk]]; [done|]. destruct (k - _)%nat; simplify_eq/=.
  - assert (Hsame : forall slot, showSlot (turns ++ [turn]) slot = showSlot turns slot).
    { intros [c'|t]; simpl; [|done]. apply shownOf_other. congruence. }
    split.
    + simpl. rewrite fmap_app. simpl. f_equal. rewrite Hr. apply list_fmap_ext. intros i slot _. by rewrite Hsame.
    + intros c k. simpl. rewrite Hi, lookup_app_Some. split; [by left|].
      intros [?|[_ Hk]]; [done|]. destruct (k - _)%nat; simplify_eq/=.
Qed.

Lemma dedup_reference turns : deduplicateThreadTurns turns = showSlot turns <$> slotsOf turns.
Proof. apply (dedup_state turns). Qed.

Lemma shownOf_elem turns c :
  groupOf turns c <> [] -> shownOf turns c ∈ turns /\ turnClientId (shownOf turns c) = Some c.
Proof.
  intros Hg. assert (Hin : shownOf turns c ∈ groupOf turns c).
  { unfold shownOf. destruct (list_find _ _) as [[i t]|] eqn:E.
    - apply list_find_Some in E as (Hi & _). by eapply list_elem_of_lookup_2.
    - destruct (groupOf turns c); [done|]. left. }
  apply list_elem_of_filter in Hin as [? ?]. by split.
Qed.

Lemma showSlot_elem turns slot :
  slot ∈ slotsOf turns ->
  showSlot turns slot ∈ turns
  /\ turnClientId (showSlot turns slot) = match slot with inl c => Some c | inr _ => None end.
Proof.
  intros Hs. destruct slot as [c|t]; simpl.
  - apply groupOf_seen in Hs. by apply shownOf_elem.
  - by apply elem_of_slots in Hs.
Qed.

(** Different slots show turns with different ids. *)
Lemma dedup_ids turns : NoDup (turnId <$> turns) -> NoDup (turnId <$> deduplicateThreadTurns turns).
Proof.
  intros Hn. rewrite dedup_reference, <- list_fmap_compose. pose proof (NoDup_fmap_1 _ _ Hn) as Hnd.
  apply NoDup_fmap_2_strong; [|by apply slots_nodup]. simpl.
  intros s1 s2 H1 H2 Heq. destruct (showSlot_elem _ _ H1) as [Hin1 Hc1], (showSlot_elem _ _ H2) as [Hin2 Hc2].
  assert (Hsame : showSlot turns s1 = showSlot turns s2).
  { apply list_elem_of_lookup in Hin1 as [i Hi], Hin2 as [j Hj].
    assert (i = j) as ->; [|congruence].
    apply (proj1 (NoDup_alt _) Hn i j (turnId (showSlot turns s1))); rewrite list_lookup_fmap.
    - by rewrite Hi.
    - by rewrite Hj, Heq. }
  rewrite Hsame in Hc1. rewrite Hc1 in Hc2. destruct s1, s2; simplify_eq; try done. by simpl in Hsame; subst.
Qed.

Lemma dedup_clients turns : NoDup turns -> NoDup (omap turnClientId (deduplicateThreadTurns turns)).
Proof.
  intros Hn. rewrite dedup_reference. pose proof (slots_nodup turns Hn) as Hs.
  assert (Hall : forall slot, slot ∈ slotsOf turns ->
    turnClientId (showSlot turns slot) = match slot with inl c => Some c | inr _ => None end)
    by (intros slot Hin; by apply showSlot_elem).
  induction Hs as [|slot slots Hx Hs IH]; simpl; [constructor|].
  pose proof (Hall slot ltac:(left)) as Hc. rewrite Hc.
  assert (Hrest : NoDup (omap turnClientId (showSlot turns <$> slots))) by (apply IH; intros; apply Hall; by right).
  destruct slot as [c|t]; [|done]. constructor; [|done].
  intros (t & Ht & Htc)%list_elem_of_omap. apply list_elem_of_fmap in Ht as (slot & -> & Hin).
  rewrite (Hall slot) in Htc by (by right). destruct slot; simplify_eq. done.
Qed.

(** Whatever a turn of the list, it is shown itself or another turn of its
    command is, and that one is finished if the turn is. *)
Lemma dedup_covers turns turn :
  turn ∈ turns ->
  turn ∈ deduplicateThreadTurns turns
  \/ exists c t, turnClientId turn = Some c /\ turnClientId t = Some c /\ t ∈ deduplicateThreadTurns turns
       /\ (turnInProgress turn = false -> turnInProgress t = false).
Proof.
  intros Hin. rewrite dedup_reference. destruct (turnClientId turn) as [c|] eqn:E.
  - right. exists c, (shownOf turns c).
    assert (Hs : inl c ∈ slotsOf turns) by (apply elem_of_slots; by exists turn).
    pose proof (showSlot_elem turns _ Hs) as [_ Hc]. split_and!; [done|done| |].
    + apply list_elem_of_fmap. by exists (inl c).
    + intros Hfin. unfold shownOf. destruct (list_find _ _) as [[i t]|] eqn:Ef.
      * by apply list_find_Some in Ef as (_ & ? & _).
      * exfalso. apply list_find_None in Ef. apply (proj1 (Forall_forall _ _) Ef turn); [|done].
        by apply list_elem_of_filter.
  - left. apply list_elem_of_fmap. exists (inr turn). split; [done|]. apply elem_of_slots. by split.
Qed.

(** ** Partitions *)

Definition pool (sealed live : list json) : list json :=
  filter (fun turn => turnId turn ∉ (turnId <$> live)) sealed ++ live.

Lemma pool_ids sealed live :
  NoDup (turnId <$> sealed) -> NoDup (turnId <$> live) -> NoDup (turnId <$> pool sealed live).
Proof.
  intros Hs Hl. unfold pool. rewrite fmap_app. apply NoDup_app. split_and!; [| |done].
  - apply (sublist_NoDup _ (turnId <$> sealed)); [done|]. by apply fmap_sublist, sublist_filter.
  - intros id (turn & -> & [Hn _]%list_elem_of_filter)%list_elem_of_fmap. done.
Qed.

Lemma partition_perm sealed live :
  fst <$> sortBy partitionBefore (imap (fun i turn => (turn, i)) (pool sealed live)) ≡ₚ pool sealed live.
Proof.
  rewrite sortBy_perm. apply reflexive_eq. rewrite fmap_imap. apply list_eq. intros i.
  rewrite list_lookup_imap. by destruct (pool sealed live !! i).
Qed.

(** Rejoining the sealed and the live turns shows no turn and no command twice;
    a live turn replaces its sealed copy; and every turn is shown itself, or its
    command is, by a finished turn if it is finished. *)
Theorem partitions_merged sealed live :
  NoDup (turnId <$> sealed) -> NoDup (turnId <$> live) ->
  let merged := mergeThreadPartitions sealed live in
  NoDup (turnId <$> merged)
  /\ NoDup (omap turnClientId merged)
  /\ (forall turn, turn ∈ merged ->
        turn ∈ live \/ turn ∈ sealed /\ turnId turn ∉ (turnId <$> live))
  /\ (forall turn, turn ∈ live \/ turn ∈ sealed /\ turnId turn ∉ (turnId <$> live) ->
        turn ∈ merged
        \/ exists c t, turnClientId turn = Some c /\ turnClientId t = Some c /\ t ∈ merged
             /\ (turnInProgress turn = false -> turnInProgress t = false)).
Proof.
  intros Hs Hl merged. subst merged. unfold mergeThreadPartitions. fold (pool sealed live).
  pose proof (partition_perm sealed live) as Hp. set (sorted := fst <$> _) in *. clearbody sorted.
  assert (Hn : NoDup (turnId <$> sorted)) by (rewrite Hp; by apply pool_ids).
  assert (Hpool : forall turn, turn ∈ sorted <->
            turn ∈ live \/ turn ∈ sealed /\ turnId turn ∉ (turnId <$> live)).
  { intros turn. rewrite Hp. unfold pool. rewrite elem_of_app, list_elem_of_filter. tauto. }
  split_and!.
  - by apply dedup_ids.
  - apply dedup_clients. by eapply NoDup_fmap_1.
  - intros turn Hin. apply Hpool. rewrite dedup_reference in Hin.
    apply list_elem_of_fmap in Hin as (slot & -> & Hslot). by apply showSlot_elem.
  - intros turn Hin%Hpool. by apply dedup_covers.
Qed.

(** ** Artifacts survive compaction *)

Lemma absolutePath_Some v s :
  absolutePath v = Some s -> absolutePath (Some (JStr s)) = Some s.
Proof.
  unfold absolutePath. intros (s' & _ & H)%bind_Some. simpl.
  destruct (_ && _) eqn:E in H; [|done]. injection H as ->. by rewrite E.
Qed.

(** Decides the comparisons of literal keys. *)
Ltac js_keys :=
  repeat match goal with
  | |- context [bool_decide (@eq string ?a ?b)] =>
      let r := eval vm_compute in (bool_decide (@eq string a b)) in
      change (bool_decide (@eq string a b)) with r; cbv iota
  end.

Lemma artifactReference_asset v :
  artifactReference (Some (JObj [("codewideAsset", v)])) = privateImageAssetProjection (Some v).
Proof.
  unfold artifactReference. cbn -[privateImageAssetProjection absolutePath]. js_keys.
  by destruct (privateImageAssetProjection (Some v)).
Qed.

Lemma privateImageAsset_again v r :
  privateImageAssetProjection v = Some r -> artifactReference (Some (artifactJson r)) = Some r.
Proof.
  unfold privateImageAssetProjection. intros H. repeat (apply bind_Some in H as (? & ? & H)).
  destruct (_ && _) eqn:E in H; [|done]. injection H as <-.
  repeat match goal with Hx : _ && _ = true |- _ => apply andb_true_iff in Hx as [Hx ?] end.
  assert (Hb : asSafeInt (Some (JNum (NInt x1))) = Some x1) by (apply asSafeInt_int; by eapply asSafeInt_safe).
  unfold artifactJson. rewrite artifactReference_asset. unfold privateImageAssetProjection.
  cbn -[asSafeInt startsWith forallb isInt length js]. js_keys. rewrite Hb.
  cbn -[asSafeInt startsWith forallb isInt length js]. unfold isInt.
  rewrite bool_decide_eq_true_2 by done.
  by repeat match goal with Hx : _ = true |- _ => rewrite Hx; clear Hx end.
Qed.

(** A reference read once is read back from what is stored of it. *)
Lemma artifactReference_again v r :
  artifactReference v = Some r -> artifactReference (Some (artifactJson r)) = Some r.
Proof.
  unfold artifactReference at 1. intros (o & _ & H)%bind_Some.
  destruct (absolutePath (oget "savedPath" o)) as [p|] eqn:Ep.
  { injection H as <-. unfold artifactReference. cbn -[absolutePath]. js_keys.
    by rewrite (absolutePath_Some _ _ Ep). }
  destruct (privateImageAssetProjection (oget "codewideAsset" o)) as [a|] eqn:Ea.
  { injection H as <-. by eapply privateImageAsset_again. }
  assert (Huri : forall u, absolutePath (Some (JStr u)) = Some u ->
            artifactReference (Some (artifactJson (UriReference u))) = Some (UriReference u)).
  { intros u Hu. unfold artifactReference. cbn -[absolutePath]. js_keys. by rewrite Hu. }
  destruct (absolutePath (oget "uri" o)) as [u|] eqn:Eu.
  { injection H as <-. apply Huri. by apply (absolutePath_Some _ _ Eu). }
  apply bind_Some in H as (s & _ & H). destruct (startsWith _ s); [|done].
  apply fmap_Some in H as (u & Hu & ->). apply Huri. by apply (absolutePath_Some _ _ Hu).
Qed.

(** The references a list of values yields. *)
Definition artifactsOf (values : list (option json)) : list ArtifactReference :=
  foldl appendArtifact [] values.

Lemma artifactsOf_wf values :
  NoDup (artifactKey <$> artifactsOf values)
  /\ Forall (fun r => artifactReference (Some (artifactJson r)) = Some r) (artifactsOf values).
Proof.
  unfold artifactsOf. induction values as [|v values [IH1 IH2]] using rev_ind; [split; constructor|].
  rewrite foldl_app. simpl. unfold appendArtifact at 1 3. destruct (artifactReference v) as [r|] eqn:E; [|done].
  case_bool_decide as Hin; [done|]. split.
  - rewrite fmap_app. apply NoDup_app. split_and!; [done| |apply NoDup_singleton].
    by intros k Hk ->%list_elem_of_singleton.
  - apply Forall_app. split; [done|]. constructor; [|constructor]. by eapply artifactReference_again.
Qed.

Lemma artifactsOf_nil values : artifactsOf values = [] <-> Forall (fun v => artifactReference v = None) values.
Proof.
  unfold artifactsOf. split.
  - induction values as [|v values IH] using rev_ind; [constructor|]. rewrite foldl_app. simpl.
    unfold appendArtifact at 1. destruct (artifactReference v) as [r|] eqn:E.
    + case_bool_decide as Hin; [|by intros [_ [=]]%app_nil].
      intros Hn. rewrite Hn in Hin. by apply elem_of_nil in Hin.
    + intros Hn. apply Forall_app. split; [by apply IH|]. by constructor.
  - induction 1 as [|v values Hv _ IH]; simpl; [done|]. unfold appendArtifact at 2. by rewrite Hv.
Qed.

(** What was stored is read back in full. *)
Lemma artifactsOf_stored refs :
  NoDup (artifactKey <$> refs) ->
  Forall (fun r => artifactReference (Some (artifactJson r)) = Some r) refs ->
  artifactsOf (Some <$> (artifactJson <$> refs)) = refs.
Proof.
  unfold artifactsOf. induction refs as [|r refs IH] using rev_ind; [done|]. rewrite !fmap_app, foldl_app.
  intros (Hn & Hx & _)%NoDup_app [Hf Hr]%Forall_app. apply Forall_cons in Hr as [Hr _].
  rewrite IH by done. simpl. unfold appendArtifact. rewrite Hr.
  rewrite bool_decide_eq_false_2; [done|]. intros Hin. by apply (Hx _ Hin), list_elem_of_singleton.
Qed.

Lemma isType_oget t o : isType t (JObj o) = isStr (oget "type" o) t.
Proof. done. Qed.

(** Retained items offer no artifact of their own. *)
Definition bodiless (item : json) : Prop :=
  isType "userMessage" item = true \/ isType "contextCompaction" item = true
  \/ isType "agentMessage" item = true \/ isTaskNotificationItem item = true.

Lemma itemValues_bodiless item : bodiless item -> itemValues item = [].
Proof.
  intros H. unfold itemValues. destruct item as [| | | | |o]; try done. simpl asObject. cbv iota.
  unfold bodiless, isTaskNotificationItem in H. rewrite !isType_oget in H.
  assert (Hne : forall t, (t = "userMessage" \/ t = "contextCompaction" \/ t = "agentMessage"
                          \/ t = "codewideTaskNotification")%string -> isStr (oget "type" o) t = true ->
     isStr (oget "type" o) "imageGeneration" = false /\ isStr (oget "type" o) "dynamicToolCall" = false
     /\ isStr (oget "type" o) "mcpToolCall" = false).
  { intros t Ht Hs. unfold isStr in *. apply bool_decide_eq_true in Hs. rewrite Hs.
    by destruct Ht as [->|[->|[->| ->]]]. }
  assert (isStr (oget "type" o) "imageGeneration" = false /\ isStr (oget "type" o) "dynamicToolCall" = false
     /\ isStr (oget "type" o) "mcpToolCall" = false) as (-> & -> & ->); [|done].
  destruct H as [H|[H|[H|H]]]; (eapply Hne; [|exact H]); auto.
Qed.

(** ** The final answer *)

Definition speaks (item : json) : bool := isType "agentMessage" item && negb (blankText item).
Definition isFinal (item : json) : bool := isStr (field "phase" item) "final_answer".

(** The position found is that of an agent message with text, of the last marked
    final when there is one, and is found when there is any. *)
Lemma finalAgents_spec items :
  let '(latest, explicit) := finalAgents items in
  (forall i, latest = Some i -> exists item, items !! i = Some item /\ speaks item = true)
  /\ (forall i, explicit = Some i -> exists item, items !! i = Some item /\ speaks item = true /\ isFinal item = true)
  /\ (latest = None -> Forall (fun item => speaks item = false) items)
  /\ (explicit = None -> Forall (fun item => (speaks item && isFinal item) = false) items).
Proof.
  unfold finalAgents. induction items as [|item items IH] using rev_ind; [by split_and!|].
  rewrite imap_app, foldl_app. simpl. destruct (foldl _ (None, None) (imap pair items)) as [latest explicit].
  destruct IH as (I1 & I2 & I3 & I4). rewrite Nat.add_0_r. simpl.
  assert (Hold : forall i (Q : json -> Prop), (exists x, items !! i = Some x /\ Q x) ->
                   exists x, (items ++ [item]) !! i = Some x /\ Q x).
  { intros i Q (x & Hx & HQ). exists x. split; [|done]. by apply lookup_app_l_Some. }
  assert (Hnew : (items ++ [item]) !! length items = Some item) by (by apply list_lookup_middle).
  fold (speaks item). assert (Hsp : speaks item = negb (negb (isType "agentMessage" item) || blankText item))
    by (unfold speaks; by destruct (isType _ _), (blankText item)).
  destruct (negb (isType "agentMessage" item) || blankText item) eqn:E; simpl in Hsp.
  - split_and!; try (intros i Hi; apply Hold; eauto).
    + intros Hn. apply Forall_app. split; [auto|]. by constructor.
    + intros Hn. apply Forall_app. split; [auto|]. constructor; [by rewrite Hsp|constructor].
  - fold (isFinal item). split_and!.
    + intros i [= <-]. eauto.
    + intros i. destruct (isFinal item) eqn:Ef; [intros [= <-]; eauto|]. intros Hi. apply Hold. eauto.
    + done.
    + destruct (isFinal item) eqn:Ef; [done|]. intros Hn. apply Forall_app. split; [auto|].
      constructor; [by rewrite Ef, andb_false_r|constructor].
Qed.

Lemma finalAgentIndex_speaks items i :
  finalAgentIndex items = Some i -> exists item, items !! i = Some item /\ speaks item = true.
Proof.
  unfold finalAgentIndex. pose proof (finalAgents_spec items) as H. destruct (finalAgents items) as [l e].
  destruct H as (H1 & H2 & _). destruct e as [j|]; [|apply H1].
  intros [= <-]. destruct (H2 j eq_refl) as (x & ? & ? & _). eauto.
Qed.

Definition retainedItems (items : list json) : list json :=
  snd <$> filter (fun e => retainsItem (finalAgentIndex items) e = true) (imap pair items).

Lemma elem_of_retained items item :
  item ∈ retainedItems items <->
  exists i, items !! i = Some item /\ retainsItem (finalAgentIndex items) (i, item) = true.
Proof.
  unfold retainedItems. rewrite list_elem_of_fmap. split.
  - intros ([i x] & -> & [Hr Hin]%list_elem_of_filter). exists i. simpl. by apply elem_of_indexed in Hin.
  - intros (i & Hi & Hr). exists (i, item). split; [done|]. apply list_elem_of_filter. split; [done|].
    by apply elem_of_indexed.
Qed.

Lemma retained_bodiless items item : item ∈ retainedItems items -> bodiless item.
Proof.
  intros (i & Hi & Hr)%elem_of_retained. unfold retainsItem in Hr. simpl in Hr. unfold bodiless.
  apply orb_true_iff in Hr as [Hr|Hr]; [|auto]. apply orb_true_iff in Hr as [Hr|Hr].
  - apply orb_true_iff in Hr as [Hr|Hr]; auto.
  - apply bool_decide_eq_true in Hr. symmetry in Hr. apply finalAgentIndex_speaks in Hr as (x & Hx & Hs).
    rewrite Hi in Hx. injection Hx as <-. unfold speaks in Hs. apply andb_true_iff in Hs as [Hs _]. auto.
Qed.

(** ** Compaction *)

(** The fields a compaction writes, on a turn that is an object. *)
Definition compacted (o : jobj) (codewide : json) (items : list json) : jobj :=
  oset "itemsView" (JStr (js "summary")) (oset "items" (JArr items) (oset "codewide" codewide o)).

Lemma compacted_get o cw items :
  oget "itemsView" (compacted o cw items) = Some (JStr (js "summary"))
  /\ oget "items" (compacted o cw items) = Some (JArr items)
  /\ oget "codewide" (compacted o cw items) = Some cw
  /\ oget "status" (compacted o cw items) = oget "status" o.
Proof.
  unfold compacted, oget, oset. split_and!.
  - apply mget_mset_eq.
  - rewrite mget_mset_ne by done. apply mget_mset_eq.
  - rewrite !mget_mset_ne by done. apply mget_mset_eq.
  - by rewrite !mget_mset_ne by done.
Qed.

Lemma bind_nothing {A B} (f : A -> list B) l : Forall (fun x => f x = []) l -> l ≫= f = [].
Proof. induction 1 as [|x l Hx _ IH]; simpl; [done|]. by rewrite Hx. Qed.

(** The artifacts of an item-by-item turn, and where they are read from. *)
Lemma artifacts_eq o :
  compactTurnArtifactReferences (JObj o)
  = artifactsOf ((Some <$> default [] (asObject (oget "codewide" o) ≫= fun c => asArray (oget "artifacts" c)))
                 ++ (default [] (asArray (oget "items" o)) ≫= itemValues)).
Proof. reflexivity. Qed.

(** The metadata written with a compacted turn. *)
Definition compactedMetadata (turn : json) : json :=
  let metadata := default (JObj []) (projectedTurnMetadata turn) in
  match compactTurnArtifactReferences turn with
  | [] => metadata
  | refs => setField "artifacts" (JArr (artifactJson <$> refs)) metadata
  end.

(** A turn is stored as it is, or compacted. *)
Lemma compaction_cases turn :
  compactCompletedTurnForStorage turn = turn
  \/ exists o, turn = JObj o
       /\ compactCompletedTurnForStorage turn = JObj (compacted o (compactedMetadata turn) (retainedItems (turnItems turn))).
Proof.
  unfold compactCompletedTurnForStorage.
  destruct (turnInProgress turn || negb (isStr (field "itemsView" turn) "full")) eqn:Eg; [by left|].
  destruct turn as [| | | | |o]; try (by bool_prop).
  destruct (length _ =? length _)%nat; [by left|right]. exists o. split; [done|].
  unfold compactedMetadata. by destruct (compactTurnArtifactReferences (JObj o)).
Qed.

Lemma compacted_items o cw items : turnItems (JObj (compacted o cw items)) = items.
Proof.
  destruct (compacted_get o cw items) as (_ & G2 & _). unfold turnItems, arrField, field. simpl. by rewrite G2.
Qed.

Lemma compacted_again o cw items :
  compactCompletedTurnForStorage (JObj (compacted o cw items)) = JObj (compacted o cw items).
Proof.
  destruct (compacted_get o cw items) as (G1 & _). unfold compactCompletedTurnForStorage at 1.
  unfold field. simpl asObject. cbn [mbind option_bind].
  rewrite G1. change (isStr (Some (JStr (js "summary"))) "full") with false. simpl. by rewrite orb_true_r.
Qed.

Lemma metadata_artifacts o :
  artifactsOf (Some <$> default [] (asObject (Some (compactedMetadata (JObj o))) ≫= fun c => asArray (oget "artifacts" c)))
  = compactTurnArtifactReferences (JObj o).
Proof.
  pose proof (artifacts_eq o) as Hrefs. unfold compactedMetadata.
  destruct (compactTurnArtifactReferences (JObj o)) as [|r refs] eqn:Er.
  - symmetry in Hrefs. apply artifactsOf_nil in Hrefs. apply Forall_app in Hrefs as [Hrefs _].
    apply artifactsOf_nil. unfold projectedTurnMetadata, field. simpl asObject. cbn [mbind option_bind].
    destruct (asObject (oget "codewide" o)) as [c|]; [exact Hrefs|constructor].
  - assert (exists m, default (JObj []) (projectedTurnMetadata (JObj o)) = JObj m) as [m ->].
    { unfold projectedTurnMetadata. destruct (asObject _) as [m|]; by eexists. }
    simpl asObject. cbn [mbind option_bind]. unfold oget, oset. rewrite mget_mset_eq. cbn [asArray default].
    edestruct artifactsOf_wf as [W1 W2]. rewrite <- Hrefs in W1, W2. exact (artifactsOf_stored _ W1 W2).
Qed.

Lemma compacted_artifacts o items :
  compactTurnArtifactReferences (JObj (compacted o (compactedMetadata (JObj o)) (retainedItems items)))
  = compactTurnArtifactReferences (JObj o).
Proof.
  destruct (compacted_get o (compactedMetadata (JObj o)) (retainedItems items)) as (_ & G2 & G3 & _).
  rewrite artifacts_eq, G2, G3.
  change (default [] (asArray (Some (JArr (retainedItems items))))) with (retainedItems items).
  rewrite (bind_nothing itemValues (retainedItems items)).
  2: { apply Forall_forall. intros x Hx. apply itemValues_bodiless. by eapply retained_bodiless. }
  rewrite app_nil_r. apply metadata_artifacts.
Qed.

Lemma retained_sublist items : retainedItems items `sublist_of` items.
Proof.
  unfold retainedItems. transitivity ((imap pair items).*2); [apply fmap_sublist, sublist_filter|].
  apply reflexive_eq. rewrite fmap_imap. apply list_eq. intros i. rewrite list_lookup_imap. by destruct (items !! i).
Qed.

Lemma retained_kinds items item :
  item ∈ items -> isType "userMessage" item || isType "contextCompaction" item || isTaskNotificationItem item = true ->
  item ∈ retainedItems items.
Proof.
  intros [i Hi]%list_elem_of_lookup Hk. apply elem_of_retained. exists i. split; [done|].
  unfold retainsItem. simpl.
  destruct (isType "userMessage" item), (isType "contextCompaction" item), (isTaskNotificationItem item);
    try done; by rewrite ?orb_true_r.
Qed.

Lemma retained_speaks items item :
  item ∈ items -> speaks item = true ->
  exists kept, kept ∈ retainedItems items /\ speaks kept = true /\ (isFinal item = true -> isFinal kept = true).
Proof.
  intros Hin Hs. pose proof (finalAgents_spec items) as Hf.
  assert (Hret : forall i x, finalAgentIndex items = Some i -> items !! i = Some x -> x ∈ retainedItems items).
  { intros i x Hfi Hx. apply elem_of_retained. exists i. split; [done|]. unfold retainsItem. rewrite Hfi. simpl.
    rewrite (bool_decide_eq_true_2 (Some i = Some i)) by done. by rewrite orb_true_r. }
  unfold finalAgentIndex in Hret. destruct (finalAgents items) as [latest explicit].
  destruct Hf as (F1 & F2 & F3 & F4). destruct explicit as [j|]; [|destruct latest as [j|]].
  - destruct (F2 j eq_refl) as (x & Hx & Hsx & Hfx). exists x. split_and!; [by apply (Hret j)|done|done].
  - destruct (F1 j eq_refl) as (x & Hx & Hsx). exists x. split_and!; [by apply (Hret j)|done|].
    intros Hfin. pose proof (proj1 (Forall_forall _ _) (F4 eq_refl) item Hin) as H. simpl in H. by rewrite Hs, Hfin in H.
  - pose proof (proj1 (Forall_forall _ _) (F3 eq_refl) item Hin) as H. simpl in H. congruence.
Qed.

(** C12. Storing a completed turn in its compact form twice is storing it once; its
    artifacts are those of the full turn; and what is left of its items are, in
    order, the user messages, compactions and task reports and one agent message
    with text: one marked final when there is one. *)
Theorem compaction_keeps turn :
  compactCompletedTurnForStorage (compactCompletedTurnForStorage turn) = compactCompletedTurnForStorage turn
  /\ compactTurnArtifactReferences (compactCompletedTurnForStorage turn) = compactTurnArtifactReferences turn
  /\ turnItems (compactCompletedTurnForStorage turn) `sublist_of` turnItems turn
  /\ (forall item, item ∈ turnItems turn ->
        isType "userMessage" item || isType "contextCompaction" item || isTaskNotificationItem item = true ->
        item ∈ turnItems (compactCompletedTurnForStorage turn))
  /\ (forall item, item ∈ turnItems turn -> speaks item = true ->
        exists kept, kept ∈ turnItems (compactCompletedTurnForStorage turn) /\ speaks kept = true
          /\ (isFinal item = true -> isFinal kept = true)).
Proof.
  destruct (compaction_cases turn) as [E|(o & -> & E)]; rewrite !E.
  - split_and!; [done..|]. intros item Hin Hs. by exists item.
  - rewrite compacted_items. split_and!.
    + apply compacted_again.
    + apply compacted_artifacts.
    + apply retained_sublist.
    + apply retained_kinds.
    + apply retained_speaks.
Qed.

(** ** Executions *)

(** A turn row with nothing but its place and content. *)
Definition demo_turn_row (id turn : string) (ordinal : Z) (content : option json) : ThreadDetailRow :=
  {| r_id := js id; r_kind := TurnRow; r_connectionId := js "c"; r_remoteThreadId := js "t";
     r_remoteTurnId := Some (js turn); r_ordinal := ordinal; r_historyEpoch := 0; r_sealed := true;
     r_sessionId := None; r_thread := None; r_turn := content; r_turnMetadata := None;
     r_activityItems := None; r_pending := None; r_lastOpenedAt := 0; r_historyCursor := None;
     r_historyHadTurns := None; r_historyCoverageMinOrdinal := None; r_historyCoverageMaxOrdinal := None;
     r_projectionCursor := None; r_historySourceWitness := None; r_currentUsage := None;
     r_currentOutcome := None |}.

Definition demo_row (id turn : string) (ordinal : Z) : ThreadDetailRow := demo_turn_row id turn ordinal None.

Definition demo_rows : list ThreadDetailRow := [demo_row "1" "a" 4; demo_row "2" "b" 5].

Lemma epoch_keeps_places_witness :
  mget (js "b") (projectAuthoritativeTurnOrdinals
    (filter (fun row => r_historyEpoch row = rowsEpoch demo_rows) demo_rows) [js "b"; js "c"]) = Some 5.
Proof.
  assert (H1 : NoDup [js "b"; js "c"]) by (apply (bool_decide_unpack _); vm_compute; exact I).
  assert (H2 : NoDup (currentHistoryTurns demo_rows (rowsEpoch demo_rows)).*1)
    by (apply (bool_decide_unpack _); vm_compute; exact I).
  assert (H3 : NoDup (currentHistoryTurns demo_rows (rowsEpoch demo_rows)).*2)
    by (apply (bool_decide_unpack _); vm_compute; exact I).
  destruct (epoch_keeps_places demo_rows [js "b"; js "c"] H1 H2 H3) as (_ & _ & (base & Hb) & Hkeep).
  destruct (Hkeep eq_refl (js "b") 5) as [Hsame _]; [vm_compute; right; left|].
  destruct (mget (js "b") _) as [o|] eqn:E.
  - f_equal. by apply Hsame.
  - exfalso. destruct (Hb (js "b") base) as [_ Hget]. rewrite Hget in E; [done|]. exists O. split; [done|lia].
Defined.

Lemma prepended_places_witness :
  mget (js "x") (projectPrependedTurnOrdinals demo_rows 0 [js "x"; js "y"; js "a"]) = Some 2.
Proof.
  assert (H1 : NoDup [js "x"; js "y"; js "a"]) by (apply (bool_decide_unpack _); vm_compute; exact I).
  assert (H2 : NoDup (currentHistoryTurns demo_rows 0).*1) by (apply (bool_decide_unpack _); vm_compute; exact I).
  destruct (prepended_places demo_rows 0 [js "x"; js "y"; js "a"] H1 H2) as (_ & _ & Hadd & _).
  exact (Hadd O (js "x") eq_refl).
Defined.

Definition demo_turn (id client status : string) : json :=
  JObj [("id", JStr (js id)); ("status", JStr (js status));
        ("items", JArr [JObj [("type", JStr (js "userMessage")); ("clientId", JStr (js client))]])].

Lemma partitions_merged_witness :
  NoDup (turnId <$> mergeThreadPartitions [demo_turn "1" "k" "inProgress"; demo_turn "2" "k" "completed"]
                      [demo_turn "3" "l" "inProgress"])
  /\ mergeThreadPartitions [demo_turn "1" "k" "inProgress"; demo_turn "2" "k" "completed"]
       [demo_turn "3" "l" "inProgress"]
     = [demo_turn "2" "k" "completed"; demo_turn "3" "l" "inProgress"].
Proof.
  split; [|vm_compute; reflexivity].
  apply partitions_merged; apply (bool_decide_unpack _); vm_compute; exact I.
Defined.

(** Rows without a start time make the order of rows inconsistent: each of these
    comes before the next, in a circle. *)
Definition demo_started (id : string) (ordinal : Z) (started : option Z) : ThreadDetailRow :=
  demo_turn_row id id ordinal (Some (JObj [("startedAt", startJson started)])).

Lemma row_order_circular localeCompare :
  let a := demo_started "a" 3 (Some 1) in
  let b := demo_started "b" 1 (Some 2) in
  let c := demo_started "c" 2 None in
  compareTurnRows localeCompare a b < 0 /\ compareTurnRows localeCompare b c < 0
  /\ compareTurnRows localeCompare c a < 0.
Proof. by split_and!. Qed.

(** A question the agent asked after its answer is taken for the final message:
    the answer is dropped, and the window of the compact turn shows none. *)
Definition demo_asked : json :=
  JObj [("id", JStr (js "t")); ("status", JStr (js "completed")); ("itemsView", JStr (js "full"));
        ("items", JArr [JObj [("id", JStr (js "i")); ("type", JStr (js "agentMessage")); ("text", JStr (js "answer"))];
                        JObj [("id", JStr (js "j")); ("type", JStr (js "agentMessage")); ("text", JStr (js "question"));
                              ("delivery", JStr (js "async")); ("questions", JArr [JNull])]])].

Lemma compaction_keeps_question :
  latestAgentIndex (selectTurnRenderWindow demo_asked 16) = Some 0%nat
  /\ latestAgentIndex (selectTurnRenderWindow (compactCompletedTurnForStorage demo_asked) 16) = None.
Proof. vm_compute. by split. Qed.
