(* ===== verification/DetailSource.v ===== *)
(** * The resident rows and their indexes

    Models the class ThreadDetailSource of
    apps/android/src/data/thread-detail-database.native.ts: the rows of the open
    threads, with the indexes that spare every read a scan.  Each index is a map
    of buckets; a bucket is a [Set] or a [Map], and the class [Bucket] states
    what the indexes ask of either. *)
From S2P Require Import Prelude JsMap Json JsonText Delivery ThreadRows.

(** ** Keys *)

Definition threadRowPrefix (connectionId threadId : jstr) : jstr :=
  connectionId ++ NUL ++ threadId ++ NUL.
Definition threadMetaKey (connectionId threadId : jstr) : jstr :=
  threadRowPrefix connectionId threadId ++ js "thread".
Definition turnMetaKey (connectionId threadId turnId : jstr) : jstr :=
  threadRowPrefix connectionId threadId ++ js "turnMeta" ++ NUL ++ turnId.
Definition activityKey (connectionId threadId turnId : jstr) : jstr :=
  threadRowPrefix connectionId threadId ++ js "activity" ++ NUL ++ turnId.
Definition threadScope (connectionId threadId : jstr) : jstr := connectionId ++ NUL ++ threadId.
Definition threadEpochScope (connectionId threadId : jstr) (historyEpoch : Z) : jstr :=
  threadScope connectionId threadId ++ NUL ++ printZ historyEpoch.
Definition pendingCommandScope (connectionId commandId : jstr) : jstr :=
  connectionId ++ NUL ++ commandId.

(** ** Buckets *)

Class Bucket (B V : Type) :=
  { bempty : B; bget : jstr -> B -> option V; bput : jstr -> V -> B -> B;
    bdrop : jstr -> B -> B; bnone : B -> bool }.

Class BucketLaws (B V : Type) `{Bucket B V} :=
  { bget_empty : forall k, bget k bempty = None;
    bget_put : forall k k' v b, bget k (bput k' v b) = if bool_decide (k' = k) then Some v else bget k b;
    bget_drop : forall k k' b, bget k (bdrop k' b) = if bool_decide (k' = k) then None else bget k b;
    bnone_true : forall k b, bnone b = true -> bget k b = None }.

#[export] Instance setBucket : Bucket (list jstr) unit :=
  {| bempty := []; bget := fun k s => if shas k s then Some tt else None;
     bput := fun k _ s => sadd k s; bdrop := sdel; bnone := fun s => bool_decide (s = []) |}.

#[export] Instance mapBucket (V : Type) : Bucket (list (jstr * V)) V :=
  {| bempty := []; bget := mget; bput := mset; bdrop := mdel;
     bnone := fun m => match m with [] => true | _ => false end |}.

(** [const b = index.get(scope) ?? new Set(); b.add(k); index.set(scope, b)]. *)
Definition putIn {B V} `{Bucket B V} (scope k : jstr) (v : V) (index : list (jstr * B)) : list (jstr * B) :=
  mset scope (bput k v (default bempty (mget scope index))) index.

(** [b?.delete(k); if (b?.size === 0) index.delete(scope)]. *)
Definition dropFrom {B V} `{Bucket B V} (scope k : jstr) (index : list (jstr * B)) : list (jstr * B) :=
  match mget scope index with
  | None => index
  | Some b => if bnone (bdrop k b) then mdel scope index else mset scope (bdrop k b) index
  end.

Definition look {B V} `{Bucket B V} (at_ : jstr * jstr) (index : list (jstr * B)) : option V :=
  b ← mget at_.1 index; bget at_.2 b.

Arguments putIn : simpl never.
Arguments dropFrom : simpl never.
Arguments look : simpl never.

(** ** The source *)

Module Source.

Record OrdinalBounds := { b_dirty : bool; b_max : Z; b_min : Z }.

Record ThreadDetailSource :=
  { rows : list (jstr * ThreadDetailRow);
    rowKeysByThread : list (jstr * list jstr);
    threadMetaKeysByConnection : list (jstr * list jstr);
    mutableTurnIdsByThreadEpoch : list (jstr * list jstr);
    turnOrdinalsByThreadEpoch : list (jstr * list (jstr * Z));
    turnRowKeysByRemoteId : list (jstr * list (jstr * jstr));
    pendingRowKeysByCommandId : list (jstr * jstr);
    ordinalBoundsByThreadEpoch : list (jstr * OrdinalBounds) }.

Definition emptySource : ThreadDetailSource := Build_ThreadDetailSource [] [] [] [] [] [] [] [].

Definition rowScope (row : ThreadDetailRow) : jstr := threadScope (r_connectionId row) (r_remoteThreadId row).
Definition rowEpochScope (row : ThreadDetailRow) : jstr :=
  threadEpochScope (r_connectionId row) (r_remoteThreadId row) (r_historyEpoch row).

(** The entry of a pending row, and the turn of a turn row. *)
Definition pendingEntry (row : ThreadDetailRow) : option PendingTimelineEntry :=
  if isKindRow PendingKind row then r_pending row else None.
Definition turnOf (row : ThreadDetailRow) : option jstr :=
  if isKindRow TurnRow row then r_remoteTurnId row else None.

Definition boundsWith (ordinal : Z) (bounds : option OrdinalBounds) : OrdinalBounds :=
  match bounds with
  | None => {| b_dirty := false; b_max := ordinal; b_min := ordinal |}
  | Some b => if b_dirty b then b
              else {| b_dirty := false; b_max := Z.max (b_max b) ordinal; b_min := Z.min (b_min b) ordinal |}
  end.

Definition boundsWithout (ordinal : Z) (b : OrdinalBounds) : OrdinalBounds :=
  {| b_dirty := b_dirty b || (ordinal =? b_min b) || (ordinal =? b_max b); b_max := b_max b; b_min := b_min b |}.

(** The mutable turns of an epoch after a turn row is attached. *)
Definition noteMutable (row : ThreadDetailRow) (turnId : jstr) (index : list (jstr * list jstr))
    : list (jstr * list jstr) :=
  let mutable := default [] (mget (rowEpochScope row) index) in
  let mutable := if r_sealed row then sdel turnId mutable else sadd turnId mutable in
  if bool_decide (mutable = []) then mdel (rowEpochScope row) index
  else mset (rowEpochScope row) mutable index.

(** Each index takes its part of a row; a pending row with an entry stops after
    the command index, a row of no turn before the turn indexes. *)
Definition attach (row : ThreadDetailRow) (s : ThreadDetailSource) : ThreadDetailSource :=
  {| rows := rows s;
     rowKeysByThread := putIn (rowScope row) (r_id row) tt (rowKeysByThread s);
     threadMetaKeysByConnection :=
       if isKindRow ThreadRow row then putIn (r_connectionId row) (r_id row) tt (threadMetaKeysByConnection s)
       else threadMetaKeysByConnection s;
     pendingRowKeysByCommandId :=
       match pendingEntry row with
       | Some entry => mset (pendingCommandScope (r_connectionId row) (commandId entry)) (r_id row)
                         (pendingRowKeysByCommandId s)
       | None => pendingRowKeysByCommandId s
       end;
     turnRowKeysByRemoteId :=
       match turnOf row with
       | Some turnId => putIn (rowScope row) turnId (r_id row) (turnRowKeysByRemoteId s)
       | None => turnRowKeysByRemoteId s
       end;
     turnOrdinalsByThreadEpoch :=
       match turnOf row with
       | Some turnId => putIn (rowEpochScope row) turnId (r_ordinal row) (turnOrdinalsByThreadEpoch s)
       | None => turnOrdinalsByThreadEpoch s
       end;
     ordinalBoundsByThreadEpoch :=
       match turnOf row with
       | Some _ => mset (rowEpochScope row)
                     (boundsWith (r_ordinal row) (mget (rowEpochScope row) (ordinalBoundsByThreadEpoch s)))
                     (ordinalBoundsByThreadEpoch s)
       | None => ordinalBoundsByThreadEpoch s
       end;
     mutableTurnIdsByThreadEpoch :=
       match turnOf row with
       | Some turnId => noteMutable row turnId (mutableTurnIdsByThreadEpoch s)
       | None => mutableTurnIdsByThreadEpoch s
       end |}.

Definition detach (row : ThreadDetailRow) (s : ThreadDetailSource) : ThreadDetailSource :=
  {| rows := rows s;
     rowKeysByThread := dropFrom (rowScope row) (r_id row) (rowKeysByThread s);
     threadMetaKeysByConnection :=
       if isKindRow ThreadRow row then dropFrom (r_connectionId row) (r_id row) (threadMetaKeysByConnection s)
       else threadMetaKeysByConnection s;
     pendingRowKeysByCommandId :=
       match pendingEntry row with
       | Some entry =>
           let commandScope := pendingCommandScope (r_connectionId row) (commandId entry) in
           if bool_decide (mget commandScope (pendingRowKeysByCommandId s) = Some (r_id row))
           then mdel commandScope (pendingRowKeysByCommandId s) else pendingRowKeysByCommandId s
       | None => pendingRowKeysByCommandId s
       end;
     turnRowKeysByRemoteId :=
       match turnOf row with
       | Some turnId => dropFrom (rowScope row) turnId (turnRowKeysByRemoteId s)
       | None => turnRowKeysByRemoteId s
       end;
     turnOrdinalsByThreadEpoch :=
       match turnOf row with
       | Some turnId => dropFrom (rowEpochScope row) turnId (turnOrdinalsByThreadEpoch s)
       | None => turnOrdinalsByThreadEpoch s
       end;
     ordinalBoundsByThreadEpoch :=
       match turnOf row, mget (rowEpochScope row) (ordinalBoundsByThreadEpoch s) with
       | Some _, Some b => mset (rowEpochScope row) (boundsWithout (r_ordinal row) b) (ordinalBoundsByThreadEpoch s)
       | _, _ => ordinalBoundsByThreadEpoch s
       end;
     mutableTurnIdsByThreadEpoch :=
       match turnOf row with
       | Some turnId => dropFrom (rowEpochScope row) turnId (mutableTurnIdsByThreadEpoch s)
       | None => mutableTurnIdsByThreadEpoch s
       end |}.

Definition withRows (r : list (jstr * ThreadDetailRow)) (s : ThreadDetailSource) : ThreadDetailSource :=
  {| rows := r; rowKeysByThread := rowKeysByThread s;
     threadMetaKeysByConnection := threadMetaKeysByConnection s;
     mutableTurnIdsByThreadEpoch := mutableTurnIdsByThreadEpoch s;
     turnOrdinalsByThreadEpoch := turnOrdinalsByThreadEpoch s;
     turnRowKeysByRemoteId := turnRowKeysByRemoteId s;
     pendingRowKeysByCommandId := pendingRowKeysByCommandId s;
     ordinalBoundsByThreadEpoch := ordinalBoundsByThreadEpoch s |}.

Definition get (key : jstr) (s : ThreadDetailSource) : option ThreadDetailRow := mget key (rows s).

Definition detachPrevious (key : jstr) (s : ThreadDetailSource) : ThreadDetailSource :=
  match get key s with Some previous => detach previous s | None => s end.

Definition set (key : jstr) (row : ThreadDetailRow) (s : ThreadDetailSource) : ThreadDetailSource :=
  let s := detachPrevious key s in
  attach row (withRows (mset key row (rows s)) s).

Definition delete (key : jstr) (s : ThreadDetailSource) : ThreadDetailSource :=
  match get key s with
  | None => s
  | Some previous => let s := detach previous s in withRows (mdel key (rows s)) s
  end.

Definition clear (s : ThreadDetailSource) : ThreadDetailSource := emptySource.

(** ** Reads *)

Definition rowsForThread (connectionId threadId : jstr) (s : ThreadDetailSource) : list ThreadDetailRow :=
  omap (fun key => get key s) (default [] (mget (threadScope connectionId threadId) (rowKeysByThread s))).

Definition threadMetaRow (connectionId threadId : jstr) (s : ThreadDetailSource) : option ThreadDetailRow :=
  meta ← get (threadMetaKey connectionId threadId) s;
  if isKindRow ThreadRow meta then Some meta else None.

Definition historyEpoch (connectionId threadId : jstr) (s : ThreadDetailSource) : Z :=
  match threadMetaRow connectionId threadId s with Some meta => r_historyEpoch meta | None => 0 end.

Definition historyCursor (connectionId threadId : jstr) (s : ThreadDetailSource) : option (option jstr) :=
  threadMetaRow connectionId threadId s ≫= r_historyCursor.

Definition threadMetaRows (connectionId : jstr) (s : ThreadDetailSource) : list ThreadDetailRow :=
  omap (fun key => get key s) (default [] (mget connectionId (threadMetaKeysByConnection s))).

Definition turnRowKey (connectionId threadId turnId : jstr) (s : ThreadDetailSource) : option jstr :=
  look (threadScope connectionId threadId, turnId) (turnRowKeysByRemoteId s).

Definition pendingRow (connectionId commandId : jstr) (s : ThreadDetailSource) : option ThreadDetailRow :=
  key ← mget (pendingCommandScope connectionId commandId) (pendingRowKeysByCommandId s); get key s.

(** The turns a batch of operations addresses. *)
Definition addressed (operation : json) : list jstr :=
  option_list (asString (field "turnId" operation))
  ++ option_list (field "turn" operation ≫= fun turn => asString (field "id" turn)).

Definition selectedTurns (connectionId threadId : jstr) (operations : list json) (s : ThreadDetailSource)
    : list jstr :=
  let scope := threadEpochScope connectionId threadId (historyEpoch connectionId threadId s) in
  foldl (fun selected id => sadd id selected) (default [] (mget scope (mutableTurnIdsByThreadEpoch s)))
    (operations ≫= addressed).

Definition inEpoch (historyEpoch : Z) (row : ThreadDetailRow) : bool :=
  isKindRow ThreadRow row || isKindRow PendingKind row || (r_historyEpoch row =? historyEpoch).

Definition liveRows (connectionId threadId : jstr) (operations : list json) (s : ThreadDetailSource)
    : list ThreadDetailRow :=
  let epoch := historyEpoch connectionId threadId s in
  option_list (get (threadMetaKey connectionId threadId) s)
  ++ (selectedTurns connectionId threadId operations s ≫= fun turnId =>
        omap (fun key => row ← key ≫= (fun key => get key s); if inEpoch epoch row then Some row else None)
          [turnRowKey connectionId threadId turnId s;
           Some (turnMetaKey connectionId threadId turnId);
           Some (activityKey connectionId threadId turnId)]).

(** The cached bounds of an epoch, or those recomputed and cached. *)
Definition boundsOf (ordinals : list Z) : OrdinalBounds :=
  match ordinals with
  | [] => {| b_dirty := false; b_max := 0; b_min := 0 |}
  | o :: os => {| b_dirty := false; b_max := foldl Z.max o os; b_min := foldl Z.min o os |}
  end.

Definition withBounds (b : list (jstr * OrdinalBounds)) (s : ThreadDetailSource) : ThreadDetailSource :=
  {| rows := rows s; rowKeysByThread := rowKeysByThread s;
     threadMetaKeysByConnection := threadMetaKeysByConnection s;
     mutableTurnIdsByThreadEpoch := mutableTurnIdsByThreadEpoch s;
     turnOrdinalsByThreadEpoch := turnOrdinalsByThreadEpoch s;
     turnRowKeysByRemoteId := turnRowKeysByRemoteId s;
     pendingRowKeysByCommandId := pendingRowKeysByCommandId s;
     ordinalBoundsByThreadEpoch := b |}.

(** The result is the maximum and the minimum. *)
Definition ordinalBounds (connectionId threadId : jstr) (historyEpoch : Z) (s : ThreadDetailSource)
    : option (Z * Z) * ThreadDetailSource :=
  let scope := threadEpochScope connectionId threadId historyEpoch in
  match mget scope (turnOrdinalsByThreadEpoch s) with
  | None | Some [] => (None, s)
  | Some ordinals =>
      let recomputed := boundsOf (mvals ordinals) in
      match mget scope (ordinalBoundsByThreadEpoch s) with
      | Some b =>
          if b_dirty b
          then (Some (b_max recomputed, b_min recomputed),
                withBounds (mset scope recomputed (ordinalBoundsByThreadEpoch s)) s)
          else (Some (b_max b, b_min b), s)
      | None => (Some (b_max recomputed, b_min recomputed),
                 withBounds (mset scope recomputed (ordinalBoundsByThreadEpoch s)) s)
      end
  end.

(** ** Loading and releasing a thread *)

Definition deleteRows (keys : list jstr) (s : ThreadDetailSource) : ThreadDetailSource :=
  foldl (fun s key => delete key s) s keys.

Definition setRows (rows : list ThreadDetailRow) (s : ThreadDetailSource) : ThreadDetailSource :=
  foldl (fun s row => set (r_id row) row s) s rows.

Definition replaceThreadLoaded (connectionId threadId : jstr) (loaded : list ThreadDetailRow)
    (s : ThreadDetailSource) : ThreadDetailSource :=
  setRows loaded
    (deleteRows (filter (fun id => id ∉ (r_id <$> loaded)) (r_id <$> rowsForThread connectionId threadId s)) s).

Definition removeThreadLoaded (connectionId threadId : jstr) (s : ThreadDetailSource) : ThreadDetailSource :=
  deleteRows (r_id <$> rowsForThread connectionId threadId s) s.

Definition ofConnection (connectionId : jstr) (row : ThreadDetailRow) : Prop := r_connectionId row = connectionId.

#[export] Instance ofConnection_dec connectionId row : Decision (ofConnection connectionId row).
Proof. unfold ofConnection. apply _. Defined.

Definition removeConnectionLoaded (connectionId : jstr) (s : ThreadDetailSource)
    : list ThreadDetailRow * ThreadDetailSource :=
  let removed := filter (ofConnection connectionId) (mvals (rows s)) in
  (removed, deleteRows (r_id <$> removed) s).

End Source.
Import Source.

(** ** Buckets and indexes obey the laws *)

#[export] Instance setBucket_laws : BucketLaws (list jstr) unit.
Proof.
  split; simpl.
  - done.
  - intros k k' [] b. unfold shas. rewrite (bool_decide_ext _ _ (elem_of_sadd k' k b)).
    repeat case_bool_decide; naive_solver.
  - intros k k' b. unfold shas. rewrite (bool_decide_ext _ _ (elem_of_sdel k' k b)).
    repeat case_bool_decide; naive_solver.
  - intros k b ->%bool_decide_eq_true. done.
Qed.

#[export] Instance mapBucket_laws V : BucketLaws (list (jstr * V)) V.
Proof.
  split; simpl.
  - done.
  - intros. apply mget_mset.
  - intros. apply mget_mdel.
  - by intros k [|? ?].
Qed.

Section index.
Context {B V : Type} `{BucketLaws B V}.
Implicit Types (index : list (jstr * B)) (p : jstr * jstr).

Lemma look_put scope k v index p :
  look p (putIn scope k v index) = if bool_decide ((scope, k) = p) then Some v else look p index.
Proof.
  destruct p as [scope' k']. unfold look, putIn. simpl. rewrite mget_mset.
  destruct (decide (scope = scope')) as [->|Hs].
  - rewrite bool_decide_true by done. simpl. rewrite bget_put.
    destruct (decide (k = k')) as [->|Hk].
    + by rewrite !bool_decide_true.
    + rewrite !bool_decide_false by congruence. destruct (mget scope' index); simpl; [done|]. apply bget_empty.
  - by rewrite !bool_decide_false by congruence.
Qed.

Lemma look_drop scope k index p :
  look p (dropFrom scope k index) = if bool_decide ((scope, k) = p) then None else look p index.
Proof.
  destruct p as [scope' k']. unfold look, dropFrom. simpl.
  destruct (mget scope index) as [b|] eqn:E.
  - assert (Hb : forall scope', scope = scope' ->
      (b' ← (if bnone (bdrop k b) then None else Some (bdrop k b)); bget k' b')
      = if bool_decide ((scope, k) = (scope', k')) then None else b' ← mget scope' index; bget k' b').
    { intros ? <-. rewrite E. simpl. destruct (bnone (bdrop k b)) eqn:N; simpl.
      - apply (bnone_true k') in N. rewrite bget_drop in N.
        destruct (decide (k = k')) as [->|]; [by rewrite bool_decide_true|].
        rewrite bool_decide_false in N by done. by rewrite bool_decide_false by congruence.
      - rewrite bget_drop. destruct (decide (k = k')) as [->|]; [by rewrite !bool_decide_true|].
        by rewrite !bool_decide_false by congruence. }
    destruct (decide (scope = scope')) as [->|Hs].
    + rewrite <- Hb by done. destruct (bnone (bdrop k b)); [rewrite mget_mdel|rewrite mget_mset];
        by rewrite bool_decide_true.
    + rewrite (bool_decide_false (_ = (scope', k'))) by congruence.
      destruct (bnone (bdrop k b)); [rewrite mget_mdel|rewrite mget_mset]; by rewrite bool_decide_false.
  - case_bool_decide as Hp; [|done]. injection Hp as <- <-. by rewrite E.
Qed.

End index.

Lemma look_noteMutable row turnId index p :
  look p (noteMutable row turnId index)
  = if bool_decide ((rowEpochScope row, turnId) = p) then (if r_sealed row then None else Some tt)
    else look p index.
Proof.
  transitivity (look p (if r_sealed row then dropFrom (rowEpochScope row) turnId index
                        else putIn (rowEpochScope row) turnId tt index)).
  - unfold noteMutable. destruct (r_sealed row).
    + unfold dropFrom. destruct (mget (rowEpochScope row) index) as [b|] eqn:E; simpl; [done|].
      rewrite (mdel_absent (rowEpochScope row)) by (by apply mget_None). done.
    + unfold putIn. simpl. rewrite bool_decide_false; [done|].
      intros Hnil. apply (f_equal (fun l => bool_decide (turnId ∈ l))) in Hnil.
      rewrite (bool_decide_true (_ ∈ sadd _ _)) in Hnil by (apply elem_of_sadd; by left). done.
  - destruct (r_sealed row); [apply look_drop|apply look_put].
Qed.

(** ** An index is exact for the rows *)

Definition rowIn (row : ThreadDetailRow) (m : list (jstr * ThreadDetailRow)) : Prop :=
  exists key, mget key m = Some row.

Section exact.
Context {P V : Type} `{EqDecision P}.
(** Where a row is filed, and under what. *)
Variable file : ThreadDetailRow -> option (P * V).
Implicit Types (lookup : P -> option V) (m : list (jstr * ThreadDetailRow)).

Definition exact lookup m : Prop :=
  forall p v, lookup p = Some v <-> exists row, rowIn row m /\ file row = Some (p, v).

(** No two rows are filed at one place. *)
Definition owned m : Prop :=
  forall key key' row row' p v v', mget key m = Some row -> mget key' m = Some row' ->
    file row = Some (p, v) -> file row' = Some (p, v') -> key = key'.

Lemma rowIn_proper m m' row : meq m m' -> rowIn row m <-> rowIn row m'.
Proof. intros H. unfold rowIn. by setoid_rewrite H. Qed.

Lemma exact_proper lookup lookup' m m' :
  (forall p, lookup p = lookup' p) -> meq m m' -> exact lookup m -> exact lookup' m'.
Proof.
  intros Hl Hm He p v. rewrite <- Hl, (He p v). by setoid_rewrite (rowIn_proper m m' _ Hm).
Qed.

Lemma exact_detach lookup lookup' m key row :
  exact lookup m -> owned m -> mget key m = Some row ->
  (forall p, lookup' p = match file row with
                         | Some (q, _) => if bool_decide (q = p) then None else lookup p
                         | None => lookup p
                         end) ->
  exact lookup' (mdel key m).
Proof.
  intros He Ho Hrow Hl p v. rewrite Hl.
  assert (Hin : forall row', rowIn row' (mdel key m) /\ file row' = Some (p, v)
            <-> (rowIn row' m /\ file row' = Some (p, v)) /\ forall w, file row <> Some (p, w)).
  { intros row'. split.
    - intros [(k & Hk) Hf]. rewrite mget_mdel in Hk. case_bool_decide; [done|].
      split; [split; [by exists k|done]|]. intros w Hw. by apply (Ho key k row row' p w v) in Hrow.
    - intros [[(k & Hk) Hf] Hne]. split; [|done]. exists k. rewrite mget_mdel.
      case_bool_decide; [|done]. subst. rewrite Hrow in Hk. injection Hk as ->. by apply Hne in Hf. }
  setoid_rewrite Hin. destruct (file row) as [[q w]|] eqn:E.
  - case_bool_decide as Hq.
    + subst. split; [done|]. intros (row' & _ & Hne). by destruct (Hne w).
    + rewrite (He p v). split; intros (row' & H); exists row'; [split; [done|congruence]|by destruct H].
  - rewrite (He p v). split; intros (row' & H); exists row'; [split; [done|congruence]|by destruct H].
Qed.

Lemma exact_attach lookup lookup' m key row :
  exact lookup m -> mget key m = None -> owned (mset key row m) ->
  (forall p, lookup' p = match file row with
                         | Some (q, v) => if bool_decide (q = p) then Some v else lookup p
                         | None => lookup p
                         end) ->
  exact lookup' (mset key row m).
Proof.
  intros He Hnone Ho Hl p v. rewrite Hl.
  assert (Hin : forall row', rowIn row' (mset key row m) <-> row' = row \/ rowIn row' m).
  { intros row'. split.
    - intros (k & Hk). rewrite mget_mset in Hk. case_bool_decide; [left; congruence|right; by exists k].
    - intros [->|(k & Hk)]; [exists key; apply mget_mset_eq|]. exists k. rewrite mget_mset.
      case_bool_decide; [congruence|done]. }
  setoid_rewrite Hin. destruct (file row) as [[q w]|] eqn:E.
  - case_bool_decide as Hq.
    + subst. split; [intros [= ->]; exists row; auto|]. intros (row' & [->|Hr] & Hf); [congruence|].
      destruct Hr as (k & Hk). assert (key = k) as <-; [|congruence].
      apply (Ho key k row row' p w v); [apply mget_mset_eq| |done..].
      rewrite mget_mset. case_bool_decide; congruence.
    + rewrite (He p v). split.
      * intros (row' & ? & ?). exists row'. auto.
      * intros (row' & [->|Hr] & Hf); [congruence|]. by exists row'.
  - rewrite (He p v). split.
    + intros (row' & ? & ?). exists row'. auto.
    + intros (row' & [->|Hr] & Hf); [congruence|]. by exists row'.
Qed.

(** Two rows are never filed at one place when a part of the place tells their keys. *)
Lemma exact_absent lookup m key row p v :
  exact lookup m -> mget key m = None -> owned (mset key row m) -> file row = Some (p, v) -> lookup p = None.
Proof.
  intros He Hnone Ho Hf. destruct (lookup p) as [w|] eqn:E; [|done].
  apply He in E as (row' & (k & Hk) & Hf'). exfalso.
  assert (key = k) as <-; [|congruence].
  apply (Ho key k row row' p v w); [apply mget_mset_eq| |done..].
  rewrite mget_mset. case_bool_decide; congruence.
Qed.

End exact.

(** ** Rows that can be told apart *)

(** The ids the keys are joined of hold no separator. *)
Definition separable (id : jstr) : Prop := 0%N ∉ id.

(** What follows the thread in the key of a row: the key of its kind. *)
Definition suffixOf (row : ThreadDetailRow) (suffix : jstr) : Prop :=
  match r_kind row, r_remoteTurnId row with
  | ThreadRow, _ => suffix = js "thread"
  | TurnMetaRow, Some turnId => suffix = js "turnMeta" ++ NUL ++ turnId
  | ActivityRow, Some turnId => suffix = js "activity" ++ NUL ++ turnId
  | TurnMetaRow, None | ActivityRow, None => False
  | TurnRow, _ => exists id, suffix = js "turn" ++ NUL ++ id \/ suffix = js "turnClient" ++ NUL ++ id
  | PendingKind, _ => exists id, suffix = js "turnClient" ++ NUL ++ id
  end.

Definition wellKeyed (row : ThreadDetailRow) : Prop :=
  separable (r_connectionId row) /\ separable (r_remoteThreadId row)
  /\ exists suffix, r_id row = threadRowPrefix (r_connectionId row) (r_remoteThreadId row) ++ suffix
                    /\ suffixOf row suffix.

Definition sameThread (a b : ThreadDetailRow) : Prop :=
  r_connectionId a = r_connectionId b /\ r_remoteThreadId a = r_remoteThreadId b.

(** One row a key, one turn row a turn and one pending row a command. *)
Record wfRows (m : list (jstr * ThreadDetailRow)) : Prop :=
  { wf_keyed : forall key row, mget key m = Some row -> key = r_id row /\ wellKeyed row;
    wf_turn : forall key key' row row' turnId, mget key m = Some row -> mget key' m = Some row' ->
      turnOf row = Some turnId -> turnOf row' = Some turnId -> sameThread row row' -> key = key';
    wf_pending : forall key key' row row' e e', mget key m = Some row -> mget key' m = Some row' ->
      pendingEntry row = Some e -> pendingEntry row' = Some e' -> commandId e = commandId e' ->
      r_connectionId row = r_connectionId row' -> key = key' }.

Lemma nul_inj (a b x y : jstr) : separable a -> separable b -> a ++ NUL ++ x = b ++ NUL ++ y -> a = b /\ x = y.
Proof.
  unfold separable, NUL. revert b. induction a as [|u a IH]; intros [|w b] Ha Hb; simpl.
  - by intros [= ->].
  - intros [= <- _]. exfalso. apply Hb. by left.
  - intros [= -> _]. exfalso. apply Ha. by left.
  - intros [= <- H]. apply IH in H as [-> ->]; [done|set_solver..].
Qed.

Lemma threadScope_inj c t c' t' :
  separable c -> separable c' -> threadScope c t = threadScope c' t' -> c = c' /\ t = t'.
Proof. apply nul_inj. Qed.

Lemma printZ_inj x y : printZ x = printZ y -> x = y.
Proof. unfold printZ. intros H%js_inj. by apply (inj pretty.pretty) in H. Qed.

Lemma threadEpochScope_inj c t e c' t' e' :
  separable c -> separable c' -> separable t -> separable t' ->
  threadEpochScope c t e = threadEpochScope c' t' e' -> c = c' /\ t = t' /\ e = e'.
Proof.
  unfold threadEpochScope, threadScope. intros Hc Hc' Ht Ht' H. rewrite <- !app_assoc in H.
  apply nul_inj in H as [-> H]; [|done..]. apply nul_inj in H as [-> H%printZ_inj]; auto.
Qed.

(** ** Where each index files a row *)

Definition fileThread (row : ThreadDetailRow) := Some ((rowScope row, r_id row), tt).
Definition fileMeta (row : ThreadDetailRow) :=
  if isKindRow ThreadRow row then Some ((r_connectionId row, r_id row), tt) else None.
Definition filePending (row : ThreadDetailRow) :=
  entry ← pendingEntry row; Some (pendingCommandScope (r_connectionId row) (commandId entry), r_id row).
Definition fileTurn (row : ThreadDetailRow) :=
  turnId ← turnOf row; Some ((rowScope row, turnId), r_id row).
Definition fileOrdinal (row : ThreadDetailRow) :=
  turnId ← turnOf row; Some ((rowEpochScope row, turnId), r_ordinal row).
Definition fileMutable (row : ThreadDetailRow) :=
  turnId ← turnOf row; if r_sealed row then None else Some ((rowEpochScope row, turnId), tt).

Lemma fileMutable_turn row p v : fileMutable row = Some (p, v) -> fileOrdinal row = Some (p, r_ordinal row).
Proof.
  unfold fileMutable, fileOrdinal. destruct (turnOf row); simpl; [|done].
  destruct (r_sealed row); [done|]. by intros [= ->].
Qed.

(** The bounds of an epoch are right unless they are marked dirty. *)
Definition boundsRight (bounds : option OrdinalBounds) (ordinal : jstr -> option Z) : Prop :=
  match bounds with
  | None => forall id, ordinal id = None
  | Some b => b_dirty b = true
      \/ ((exists id, ordinal id = Some (b_max b)) /\ (exists id, ordinal id = Some (b_min b))
          /\ forall id o, ordinal id = Some o -> b_min b <= o <= b_max b)
  end.

Definition boundsExact (s : ThreadDetailSource) : Prop :=
  forall scope, boundsRight (mget scope (ordinalBoundsByThreadEpoch s))
                  (fun id => look (scope, id) (turnOrdinalsByThreadEpoch s)).

Record tracked (s : ThreadDetailSource) : Prop :=
  { tr_rows : wfRows (rows s);
    tr_thread : exact fileThread (fun p => look p (rowKeysByThread s)) (rows s);
    tr_meta : exact fileMeta (fun p => look p (threadMetaKeysByConnection s)) (rows s);
    tr_pending : exact filePending (fun p => mget p (pendingRowKeysByCommandId s)) (rows s);
    tr_turn : exact fileTurn (fun p => look p (turnRowKeysByRemoteId s)) (rows s);
    tr_ordinal : exact fileOrdinal (fun p => look p (turnOrdinalsByThreadEpoch s)) (rows s);
    tr_mutable : exact fileMutable (fun p => look p (mutableTurnIdsByThreadEpoch s)) (rows s);
    tr_bounds : boundsExact s;
    tr_nodup : forall scope ks, mget scope (rowKeysByThread s) = Some ks -> NoDup ks;
    tr_nodup_meta : forall scope ks, mget scope (threadMetaKeysByConnection s) = Some ks -> NoDup ks;
    tr_ordinals_wf : forall scope b, mget scope (turnOrdinalsByThreadEpoch s) = Some b -> mwf b }.

Section owners.
Variable m : list (jstr * ThreadDetailRow).
Hypothesis Hm : wfRows m.

Lemma row_plain key row : mget key m = Some row -> separable (r_connectionId row) /\ separable (r_remoteThreadId row).
Proof. intros H. destruct (wf_keyed m Hm key row H) as [_ (? & ? & _)]. done. Qed.

Lemma owned_thread : owned fileThread m.
Proof.
  intros k k' row row' p v v' H H' [= <- _] [= _ E].
  destruct (wf_keyed m Hm _ _ H) as [-> _], (wf_keyed m Hm _ _ H') as [-> _]. congruence.
Qed.

Lemma owned_meta : owned fileMeta m.
Proof.
  intros k k' row row' p v v' H H'. unfold fileMeta.
  destruct (isKindRow ThreadRow row), (isKindRow ThreadRow row'); try done. intros [= <- _] [= _ E].
  destruct (wf_keyed m Hm _ _ H) as [-> _], (wf_keyed m Hm _ _ H') as [-> _]. congruence.
Qed.

Lemma owned_pending : owned filePending m.
Proof.
  intros k k' row row' p v v' H H'. unfold filePending.
  destruct (pendingEntry row) as [e|] eqn:E, (pendingEntry row') as [e'|] eqn:E'; try done.
  intros [= <- _] [= Es _]. apply nul_inj in Es as [Ec Ee]; [|by eapply row_plain..].
  by apply (wf_pending m Hm k k' row row' e e').
Qed.

Lemma owned_turn : owned fileTurn m.
Proof.
  intros k k' row row' p v v' H H'. unfold fileTurn.
  destruct (turnOf row) as [e|] eqn:E, (turnOf row') as [e'|] eqn:E'; try done.
  intros [= <- _] [= Es -> _]. apply threadScope_inj in Es; [|by eapply row_plain..].
  apply (wf_turn m Hm k k' row row' e); try done. by destruct Es; split.
Qed.

Lemma owned_ordinal : owned fileOrdinal m.
Proof.
  intros k k' row row' p v v' H H'. unfold fileOrdinal.
  destruct (turnOf row) as [e|] eqn:E, (turnOf row') as [e'|] eqn:E'; try done.
  intros [= <- _] [= Es -> _]. apply threadEpochScope_inj in Es as (? & ? & ?); [|by eapply row_plain..].
  by apply (wf_turn m Hm k k' row row' e).
Qed.

Lemma owned_mutable : owned fileMutable m.
Proof.
  intros k k' row row' p v v' H H' F%fileMutable_turn F'%fileMutable_turn.
  by apply (owned_ordinal k k' row row' p (r_ordinal row) (r_ordinal row')).
Qed.

End owners.

#[export] Hint Resolve owned_thread owned_meta owned_pending owned_turn owned_ordinal owned_mutable : codewide.

Lemma wfRows_proper m m' : meq m m' -> wfRows m -> wfRows m'.
Proof.
  intros E [H1 H2 H3]. split.
  - intros k row. rewrite <- E. apply H1.
  - intros k k' row row' t. rewrite <- !E. apply H2.
  - intros k k' row row' e e'. rewrite <- !E. apply H3.
Qed.

Lemma wfRows_mdel key m : wfRows m -> wfRows (mdel key m).
Proof.
  assert (Hsub : forall k row, mget k (mdel key m) = Some row -> mget k m = Some row).
  { intros k row. rewrite mget_mdel. by case_bool_decide. }
  intros [H1 H2 H3]. split; eauto.
Qed.

Lemma wf_write m row :
  wfRows m -> wellKeyed row -> pendingEntry row = None ->
  (forall T key row', turnOf row = Some T -> mget key m = Some row' -> turnOf row' = Some T ->
     sameThread row row' -> key = r_id row) ->
  wfRows (mset (r_id row) row m).
Proof.
  intros [H1 H2 H3] Hk Hp Ht. split.
  - intros key row'. rewrite mget_mset. case_bool_decide; [intros [= <-]; subst; done|apply H1].
  - intros key key' a b T. rewrite !mget_mset. repeat case_bool_decide; subst.
    + done.
    + intros [= <-] Hb Ha Hb' Hs. symmetry. by eapply Ht.
    + intros Ha [= <-] Ha' Hb [Hs1 Hs2]. eapply Ht; eauto. by split.
    + apply H2.
  - intros key key' a b e e'. rewrite !mget_mset. repeat case_bool_decide; subst.
    + done.
    + intros [= <-]. congruence.
    + intros ? [= <-]. congruence.
    + apply H3.
Qed.

(** ** Every operation keeps the indexes exact *)

Lemma meq_reinsert (key : jstr) (row : ThreadDetailRow) m : meq (mset key row (mdel key m)) (mset key row m).
Proof. intros k. rewrite !mget_mset, mget_mdel. by case_bool_decide. Qed.

Lemma tracked_rows s m m' : meq m m' -> tracked (withRows m s) -> tracked (withRows m' s).
Proof.
  intros E []. split; simpl in *; try done; [by eapply wfRows_proper|..];
    (eapply exact_proper; [|exact E|eassumption]; done).
Qed.

Lemma nodup_drop (index : list (jstr * list jstr)) scope k :
  (forall scope ks, mget scope index = Some ks -> NoDup ks) ->
  forall scope' ks, mget scope' (dropFrom scope k index) = Some ks -> NoDup ks.
Proof.
  intros H scope' ks. unfold dropFrom. destruct (mget scope index) as [b|] eqn:E; [|apply H]. simpl.
  case_bool_decide; [rewrite mget_mdel|rewrite mget_mset]; case_bool_decide; try apply H; [done|].
  intros [= <-]. apply sdel_nodup. by apply (H scope).
Qed.

Lemma nodup_put (index : list (jstr * list jstr)) scope k :
  (forall scope ks, mget scope index = Some ks -> NoDup ks) ->
  forall scope' ks, mget scope' (putIn scope k tt index) = Some ks -> NoDup ks.
Proof.
  intros H scope' ks. unfold putIn. rewrite mget_mset. case_bool_decide; [|apply H]. simpl.
  intros [= <-]. apply sadd_nodup. destruct (mget scope index) eqn:E; simpl; [by apply (H scope)|constructor].
Qed.

Lemma wf_drop (index : list (jstr * list (jstr * Z))) scope k :
  (forall scope b, mget scope index = Some b -> mwf b) ->
  forall scope' b, mget scope' (dropFrom scope k index) = Some b -> mwf b.
Proof.
  intros H scope' b. unfold dropFrom. destruct (mget scope index) as [b0|] eqn:E; [|apply H].
  destruct (bnone _); [rewrite mget_mdel|rewrite mget_mset]; case_bool_decide; try apply H; [done|].
  intros [= <-]. apply mdel_wf. by apply (H scope).
Qed.

Lemma wf_put (index : list (jstr * list (jstr * Z))) scope k v :
  (forall scope b, mget scope index = Some b -> mwf b) ->
  forall scope' b, mget scope' (putIn scope k v index) = Some b -> mwf b.
Proof.
  intros H scope' b. unfold putIn. rewrite mget_mset. case_bool_decide; [|apply H].
  intros [= <-]. apply mset_wf. destruct (mget scope index) eqn:E; simpl; [by apply (H scope)|constructor].
Qed.

Lemma boundsRight_ext b ordinal ordinal' :
  (forall id, ordinal id = ordinal' id) -> boundsRight b ordinal -> boundsRight b ordinal'.
Proof. intros E. unfold boundsRight. by destruct b; setoid_rewrite E. Qed.

Lemma boundsRight_drop b ordinal T o :
  ordinal T = Some o -> boundsRight b ordinal ->
  boundsRight (boundsWithout o <$> b) (fun id => if bool_decide (T = id) then None else ordinal id).
Proof.
  intros HT. destruct b as [b|]; simpl; [|intros Hb; by rewrite Hb in HT].
  intros [->|((i1 & H1) & (i2 & H2) & H3)]; [by left|].
  destruct (b_dirty b || (o =? b_min b) || (o =? b_max b)) eqn:E; [by left|right].
  apply orb_false_iff in E as [[_ E1]%orb_false_iff E2]. apply Z.eqb_neq in E1, E2.
  split_and!.
  - exists i1. case_bool_decide; [congruence|done].
  - exists i2. case_bool_decide; [congruence|done].
  - intros i o'. case_bool_decide; [done|apply H3].
Qed.

Lemma boundsRight_put b ordinal T o :
  ordinal T = None -> boundsRight b ordinal ->
  boundsRight (Some (boundsWith o b)) (fun id => if bool_decide (T = id) then Some o else ordinal id).
Proof.
  intros HT. destruct b as [b|]; simpl.
  - destruct (b_dirty b) eqn:Ed; [by left|]. intros [?|((i1 & H1) & (i2 & H2) & H3)]; [congruence|].
    right. simpl.
    assert (Hkeep : forall i o', ordinal i = Some o' -> (if bool_decide (T = i) then Some o else ordinal i) = Some o').
    { intros i o' Hi. case_bool_decide; [congruence|done]. }
    split_and!.
    + destruct (Z.max_spec (b_max b) o) as [[_ ->]|[_ ->]]; [exists T; by rewrite bool_decide_true|eauto].
    + destruct (Z.min_spec (b_min b) o) as [[_ ->]|[_ ->]]; [eauto|exists T; by rewrite bool_decide_true].
    + intros i o'. case_bool_decide; [intros [= <-]; lia|]. intros Hi%H3. lia.
  - intros Hb. right. simpl. split_and!; [exists T; by rewrite bool_decide_true..|].
    intros i o'. case_bool_decide; [intros [= <-]; lia|]. by rewrite Hb.
Qed.

Lemma pair_decide (a a' i i' : jstr) :
  bool_decide ((a, i) = (a', i')) = bool_decide (a = a') && bool_decide (i = i').
Proof. repeat case_bool_decide; naive_solver. Qed.

Lemma bounds_detach s row :
  boundsExact s -> (forall turnId, turnOf row = Some turnId ->
    look (rowEpochScope row, turnId) (turnOrdinalsByThreadEpoch s) = Some (r_ordinal row)) ->
  boundsExact (detach row s).
Proof.
  intros Hb Hrow scope. simpl. destruct (turnOf row) as [T|] eqn:ET; [|apply Hb].
  specialize (Hrow T eq_refl).
  eapply boundsRight_ext; [intros id; symmetry; rewrite look_drop, pair_decide; reflexivity|].
  destruct (decide (rowEpochScope row = scope)) as [<-|Hs].
  - rewrite bool_decide_true by done. cbn [andb].
    pose proof (boundsRight_drop _ _ T (r_ordinal row) Hrow (Hb (rowEpochScope row))) as H.
    destruct (mget (rowEpochScope row) (ordinalBoundsByThreadEpoch s)) as [b|] eqn:E; [by rewrite mget_mset_eq|].
    by rewrite E.
  - rewrite bool_decide_false by done. cbn [andb]. specialize (Hb scope).
    destruct (mget (rowEpochScope row) (ordinalBoundsByThreadEpoch s)); [by rewrite mget_mset_ne|done].
Qed.

Lemma bounds_attach s row :
  boundsExact s -> (forall turnId, turnOf row = Some turnId ->
    look (rowEpochScope row, turnId) (turnOrdinalsByThreadEpoch s) = None) ->
  boundsExact (attach row s).
Proof.
  intros Hb Hrow scope. simpl. destruct (turnOf row) as [T|] eqn:ET; [|apply Hb].
  specialize (Hrow T eq_refl).
  eapply boundsRight_ext; [intros id; symmetry; rewrite look_put, pair_decide; reflexivity|].
  destruct (decide (rowEpochScope row = scope)) as [<-|Hs].
  - rewrite mget_mset_eq, bool_decide_true by done. by apply boundsRight_put.
  - rewrite mget_mset_ne, bool_decide_false by done. apply Hb.
Qed.

(** The index functions of [detach] remove what the row files, those of [attach] add it. *)
Ltac exact_step H1 :=
  eapply H1; [eassumption|try eassumption; auto with codewide..|];
  intros ?; unfold fileThread, fileMeta, filePending, fileTurn, fileOrdinal, fileMutable; simpl.

Lemma tracked_detach s key row :
  tracked s -> get key s = Some row -> tracked (withRows (mdel key (rows s)) (detach row s)).
Proof.
  intros [Hw H1 H2 H3 H4 H5 H6 H7 H8 H9 H10] Hrow. unfold get in Hrow.
  assert (Hord : forall T, turnOf row = Some T ->
    look (rowEpochScope row, T) (turnOrdinalsByThreadEpoch s) = Some (r_ordinal row)).
  { intros T HT. apply H5. exists row. split; [by exists key|]. unfold fileOrdinal. by rewrite HT. }
  split; simpl.
  - by apply wfRows_mdel.
  - exact_step (@exact_detach (jstr * jstr) unit). apply look_drop.
  - exact_step (@exact_detach (jstr * jstr) unit). destruct (isKindRow ThreadRow row); [apply look_drop|done].
  - exact_step (@exact_detach jstr jstr). destruct (pendingEntry row) as [e|] eqn:E; simpl; [|done].
    rewrite bool_decide_true; [apply mget_mdel|]. apply H3. exists row. split; [by exists key|].
    unfold filePending. by rewrite E.
  - exact_step (@exact_detach (jstr * jstr) jstr). destruct (turnOf row); [apply look_drop|done].
  - exact_step (@exact_detach (jstr * jstr) Z). destruct (turnOf row); [apply look_drop|done].
  - exact_step (@exact_detach (jstr * jstr) unit). destruct (turnOf row) as [T|] eqn:E; simpl; [|done].
    destruct (r_sealed row) eqn:Es; [|apply look_drop]. rewrite look_drop. case_bool_decide as Ep; [|done].
    subst p. symmetry. destruct (look _ (mutableTurnIdsByThreadEpoch s)) as [v|] eqn:El; [|done].
    apply H6 in El as (row' & (k & Hk) & Hf). pose proof (fileMutable_turn _ _ _ Hf) as Hf'.
    assert (k = key) as ->.
    { apply (owned_ordinal _ Hw k key row' row (rowEpochScope row, T) (r_ordinal row') (r_ordinal row)); try done.
      unfold fileOrdinal. by rewrite E. }
    rewrite Hrow in Hk. injection Hk as <-. unfold fileMutable in Hf. rewrite E in Hf. simpl in Hf.
    by rewrite Es in Hf.
  - by apply bounds_detach.
  - by apply nodup_drop.
  - destruct (isKindRow ThreadRow row); [by apply nodup_drop|done].
  - destruct (turnOf row); [by apply wf_drop|done].
Qed.

Lemma tracked_attach s key row :
  tracked s -> get key s = None -> wfRows (mset key row (rows s)) ->
  tracked (withRows (mset key row (rows s)) (attach row s)).
Proof.
  intros [Hw H1 H2 H3 H4 H5 H6 H7 H8 H9 H10] Hnone Hw'. unfold get in Hnone. split; simpl.
  - done.
  - exact_step (@exact_attach (jstr * jstr) unit). apply look_put.
  - exact_step (@exact_attach (jstr * jstr) unit). destruct (isKindRow ThreadRow row); [apply look_put|done].
  - exact_step (@exact_attach jstr jstr). destruct (pendingEntry row); [apply mget_mset|done].
  - exact_step (@exact_attach (jstr * jstr) jstr). destruct (turnOf row); [apply look_put|done].
  - exact_step (@exact_attach (jstr * jstr) Z). destruct (turnOf row); [apply look_put|done].
  - exact_step (@exact_attach (jstr * jstr) unit). destruct (turnOf row) as [T|] eqn:E; simpl; [|done].
    rewrite look_noteMutable. destruct (r_sealed row) eqn:Es; [|done]. case_bool_decide as Ep; [|done].
    subst p. symmetry. destruct (look _ (mutableTurnIdsByThreadEpoch s)) as [v|] eqn:El; [|done].
    apply H6 in El as (row' & Hk & Hf%fileMutable_turn).
    assert (look (rowEpochScope row, T) (turnOrdinalsByThreadEpoch s) = None) as Hn.
    { apply (exact_absent fileOrdinal (fun p => look p (turnOrdinalsByThreadEpoch s)) (rows s) key row _ (r_ordinal row));
        auto with codewide. unfold fileOrdinal. by rewrite E. }
    assert (look (rowEpochScope row, T) (turnOrdinalsByThreadEpoch s) = Some (r_ordinal row')) by (apply H5; eauto).
    congruence.
  - apply bounds_attach; [done|]. intros T HT.
    apply (exact_absent fileOrdinal (fun p => look p (turnOrdinalsByThreadEpoch s)) (rows s) key row _ (r_ordinal row));
      auto with codewide. unfold fileOrdinal. by rewrite HT.
  - by apply nodup_put.
  - destruct (isKindRow ThreadRow row); [by apply nodup_put|done].
  - destruct (turnOf row); [by apply wf_put|done].
Qed.

Lemma tracked_empty : tracked emptySource.
Proof.
  split; simpl; try done;
    try (intros p v; split; [done|]; intros (row & (key & Hk) & _); done).
Qed.

Lemma tracked_delete key s : tracked s -> tracked (delete key s).
Proof.
  intros Hs. unfold delete. destruct (get key s) as [row|] eqn:E; [|done].
  exact (tracked_detach s key row Hs E).
Qed.

Lemma tracked_set key row s : tracked s -> wfRows (mset key row (rows s)) -> tracked (set key row s).
Proof.
  intros Hs Hw. unfold set, detachPrevious.
  set (s1 := match get key s with Some previous => detach previous s | None => s end).
  assert (Hr : rows s1 = rows s) by (subst s1; by destruct (get key s)).
  assert (H1 : tracked (withRows (mdel key (rows s1)) s1)).
  { rewrite Hr. subst s1. destruct (get key s) as [previous|] eqn:E; [by apply tracked_detach|].
    rewrite mdel_absent by (by apply mget_None). by destruct s. }
  pose proof (tracked_attach (withRows (mdel key (rows s1)) s1) key row H1) as H2. simpl in H2.
  rewrite Hr in *. apply (tracked_rows (attach row s1) _ _ (meq_reinsert key row (rows s))).
  apply H2; [unfold get; simpl; apply mget_mdel_eq|].
  by eapply wfRows_proper; [symmetry; apply meq_reinsert|].
Qed.

(** The largest and the smallest of some ordinals. *)
Lemma boundsOf_spec os o : o ∈ os -> b_dirty (boundsOf os) = false
  /\ b_max (boundsOf os) ∈ os /\ b_min (boundsOf os) ∈ os /\ b_min (boundsOf os) <= o <= b_max (boundsOf os).
Proof.
  destruct os as [|x os]; [by intros ?%elem_of_nil|]. intros Ho. split; [done|]. simpl.
  assert (Hmax : forall os x, foldl Z.max x os ∈ x :: os /\ forall o, o ∈ x :: os -> o <= foldl Z.max x os).
  { clear. intros os. induction os as [|y os IH]; intros x; simpl.
    - split; [by left|]. intros o ->%list_elem_of_singleton. done.
    - destruct (IH (Z.max x y)) as [H1 H2]. split.
      + apply elem_of_cons in H1 as [E|H1]; [|by right; right].
        destruct (Z.max_spec x y) as [[_ M]|[_ M]]; rewrite E, M; [right|]; by left.
      + intros o [->|[->|Ho]%elem_of_cons]%elem_of_cons;
          [specialize (H2 (Z.max x y)); etransitivity; [|apply H2; by left]; lia..|].
        apply H2. by right. }
  assert (Hmin : forall os x, foldl Z.min x os ∈ x :: os /\ forall o, o ∈ x :: os -> foldl Z.min x os <= o).
  { clear. intros os. induction os as [|y os IH]; intros x; simpl.
    - split; [by left|]. intros o ->%list_elem_of_singleton. done.
    - destruct (IH (Z.min x y)) as [H1 H2]. split.
      + apply elem_of_cons in H1 as [E|H1]; [|by right; right].
        destruct (Z.min_spec x y) as [[_ M]|[_ M]]; rewrite E, M; [|right]; by left.
      + intros o [->|[->|Ho]%elem_of_cons]%elem_of_cons;
          [specialize (H2 (Z.min x y)); etransitivity; [apply H2; by left|]; lia..|].
        apply H2. by right. }
  destruct (Hmax os x) as [? H1], (Hmin os x) as [? H2]. auto.
Qed.

Lemma elem_mvals_look scope (index : list (jstr * list (jstr * Z))) b o :
  mget scope index = Some b -> (exists id, look (scope, id) index = Some o) -> o ∈ mvals b.
Proof.
  intros E [id Hid]. unfold look in Hid. simpl in Hid. rewrite E in Hid. simpl in Hid.
  apply mget_elem in Hid. apply list_elem_of_fmap. by exists (id, o).
Qed.

Lemma look_mvals s scope b o :
  tracked s -> mget scope (turnOrdinalsByThreadEpoch s) = Some b -> o ∈ mvals b ->
  exists id, look (scope, id) (turnOrdinalsByThreadEpoch s) = Some o.
Proof.
  intros Hw E ([id o'] & -> & Hin)%list_elem_of_fmap. exists id. unfold look. simpl. rewrite E. simpl.
  apply elem_mget; [|done]. by eapply tr_ordinals_wf.
Qed.

(** The bounds read are those of the turns of the epoch; reading them only
    refreshes the cache. *)
Lemma ordinalBounds_spec c t e s :
  tracked s ->
  let ordinal id := look (threadEpochScope c t e, id) (turnOrdinalsByThreadEpoch s) in
  tracked (ordinalBounds c t e s).2 /\ rows (ordinalBounds c t e s).2 = rows s
  /\ match (ordinalBounds c t e s).1 with
     | None => forall id, ordinal id = None
     | Some (mx, mn) => (exists id, ordinal id = Some mx) /\ (exists id, ordinal id = Some mn)
                        /\ forall id o, ordinal id = Some o -> mn <= o <= mx
     end.
Proof.
  intros Hs ordinal. unfold ordinalBounds. set (scope := threadEpochScope c t e) in *.
  destruct (mget scope (turnOrdinalsByThreadEpoch s)) as [[|[id0 o0] b]|] eqn:E;
    [split_and!; [done..|]; intros id; subst ordinal; unfold look; simpl; by rewrite E| |
     split_and!; [done..|]; intros id; subst ordinal; unfold look; simpl; by rewrite E].
  set (ord := (id0, o0) :: b) in *.
  assert (Hre : let r := boundsOf (mvals ord) in
    (exists id, ordinal id = Some (b_max r)) /\ (exists id, ordinal id = Some (b_min r))
    /\ forall id o, ordinal id = Some o -> b_min r <= o <= b_max r).
  { destruct (boundsOf_spec (mvals ord) o0) as (_ & Hmx & Hmn & _); [by left|]. split_and!.
    - by eapply look_mvals.
    - by eapply look_mvals.
    - intros id o Ho. apply (boundsOf_spec (mvals ord)). by eapply elem_mvals_look; eauto. }
  assert (Hnew : tracked (withBounds (mset scope (boundsOf (mvals ord)) (ordinalBoundsByThreadEpoch s)) s)).
  { destruct Hs as [Hw H1 H2 H3 H4 H5 H6 H7 H8 H9 H10]. split; try done. intros scope'. simpl. rewrite mget_mset.
    case_bool_decide; [subst scope'|apply H7]. by right. }
  pose proof (tr_bounds s Hs scope) as Hb.
  destruct (mget scope (ordinalBoundsByThreadEpoch s)) as [b0|]; [|by split_and!].
  destruct (b_dirty b0) eqn:Ed; [by split_and!|]. destruct Hb as [?|Hb]; [congruence|]. by split_and!.
Qed.

(** ** Any sequence of operations *)

Inductive SourceOp :=
| OpSet (key : jstr) (row : ThreadDetailRow)
| OpDelete (key : jstr)
| OpClear
| OpBounds (connectionId threadId : jstr) (epoch : Z)
| OpReplace (connectionId threadId : jstr) (loaded : list ThreadDetailRow)
| OpRemoveThread (connectionId threadId : jstr)
| OpRemoveConnection (connectionId : jstr).

Definition runOp (s : ThreadDetailSource) (o : SourceOp) : ThreadDetailSource :=
  match o with
  | OpSet key row => set key row s
  | OpDelete key => delete key s
  | OpClear => clear s
  | OpBounds c t e => (ordinalBounds c t e s).2
  | OpReplace c t loaded => replaceThreadLoaded c t loaded s
  | OpRemoveThread c t => removeThreadLoaded c t s
  | OpRemoveConnection c => (removeConnectionLoaded c s).2
  end.

(** Every row that is set can be told apart from the rows there. *)
Fixpoint admissibleRows (loaded : list ThreadDetailRow) (s : ThreadDetailSource) : Prop :=
  match loaded with
  | [] => True
  | row :: loaded => wfRows (mset (r_id row) row (rows s)) /\ admissibleRows loaded (set (r_id row) row s)
  end.

Definition admissible (o : SourceOp) (s : ThreadDetailSource) : Prop :=
  match o with
  | OpSet key row => wfRows (mset key row (rows s))
  | OpReplace c t loaded =>
      admissibleRows loaded
        (deleteRows (filter (fun id => id ∉ (r_id <$> loaded)) (r_id <$> rowsForThread c t s)) s)
  | _ => True
  end.

Fixpoint admissibleOps (ops : list SourceOp) (s : ThreadDetailSource) : Prop :=
  match ops with
  | [] => True
  | o :: ops => admissible o s /\ admissibleOps ops (runOp s o)
  end.

Lemma tracked_deleteRows keys s : tracked s -> tracked (deleteRows keys s).
Proof. revert s. induction keys as [|k keys IH]; intros s Hs; [done|]. simpl. by apply IH, tracked_delete. Qed.

Lemma tracked_setRows loaded s : tracked s -> admissibleRows loaded s -> tracked (setRows loaded s).
Proof.
  revert s. induction loaded as [|row l IH]; intros s Hs; [done|]. simpl. intros [Hw Hl].
  by apply IH; [apply tracked_set|].
Qed.

Lemma tracked_op o s : tracked s -> admissible o s -> tracked (runOp s o).
Proof.
  intros Hs. destruct o; simpl.
  - by apply tracked_set.
  - intros _. by apply tracked_delete.
  - intros _. apply tracked_empty.
  - intros _. by apply ordinalBounds_spec.
  - intros Ha. apply tracked_setRows; [by apply tracked_deleteRows|done].
  - intros _. by apply tracked_deleteRows.
  - intros _. by apply tracked_deleteRows.
Qed.

Lemma tracked_ops ops s : tracked s -> admissibleOps ops s -> tracked (foldl runOp s ops).
Proof.
  revert s. induction ops as [|o ops IH]; intros s Hs; [done|]. simpl. intros [Ha Hr].
  by apply IH; [apply tracked_op|].
Qed.

(** ** Reads against a scan *)

Definition stored (row : ThreadDetailRow) (s : ThreadDetailSource) : Prop := get (r_id row) s = Some row.

Lemma rowIn_stored row s : tracked s -> rowIn row (rows s) <-> stored row s.
Proof.
  intros Hs. split; [|by eexists]. intros (key & Hk).
  destruct (wf_keyed _ (tr_rows s Hs) key row Hk) as [-> _]. done.
Qed.

Section reads.
Variables (s : ThreadDetailSource) (c t : jstr).
Hypotheses (Hs : tracked s) (Hc : separable c) (Ht : separable t).

Definition inThread (row : ThreadDetailRow) : Prop :=
  stored row s /\ r_connectionId row = c /\ r_remoteThreadId row = t.

Lemma stored_plain row : stored row s -> separable (r_connectionId row) /\ separable (r_remoteThreadId row).
Proof. intros H. by apply (row_plain _ (tr_rows s Hs) (r_id row)). Qed.

Lemma look_set p (index : list (jstr * list jstr)) :
  p.2 ∈ default [] (mget p.1 index) <-> look p index = Some tt.
Proof.
  unfold look. destruct (mget p.1 index) as [ks|]; simpl; [|split; [by intros ?%elem_of_nil|done]].
  unfold shas. case_bool_decide; naive_solver.
Qed.

Lemma stored_thread row : stored row s -> rowScope row = threadScope c t -> r_connectionId row = c /\ r_remoteThreadId row = t.
Proof. intros Hr H. apply threadScope_inj in H; [done| |done]. by apply stored_plain. Qed.

Lemma rowsForThread_spec row : row ∈ rowsForThread c t s <-> inThread row.
Proof.
  unfold rowsForThread, inThread. rewrite list_elem_of_omap. split.
  - intros (key & Hin & Hget). apply (look_set (threadScope c t, key)), (tr_thread s Hs) in Hin as (row' & Hr & [= E <-]).
    apply rowIn_stored in Hr; [|done]. unfold stored in Hr. rewrite Hget in Hr. injection Hr as <-.
    assert (Hst : stored row s) by done. split; [done|]. by apply stored_thread.
  - intros (Hst & <- & <-). exists (r_id row). split; [|done].
    apply (look_set (rowScope row, r_id row)), (tr_thread s Hs). exists row. split; [|done]. by apply rowIn_stored.
Qed.

Lemma omap_get_ids ks : NoDup ks -> NoDup (r_id <$> omap (fun key => get key s) ks).
Proof.
  assert (Hid : forall key row, get key s = Some row -> key = r_id row).
  { intros key row H. apply (wf_keyed _ (tr_rows s Hs) key row H). }
  induction ks as [|k ks IH]; simpl; [constructor|]. intros [Hni Hnd]%NoDup_cons.
  destruct (get k s) as [row|] eqn:E; [|auto]. simpl. constructor; [|auto].
  rewrite <- (Hid k row E). intros (row' & -> & Hin)%list_elem_of_fmap.
  apply list_elem_of_omap in Hin as (key & Hkey & Hg). apply Hid in Hg as ->. done.
Qed.

Lemma rowsForThread_nodup : NoDup (r_id <$> rowsForThread c t s).
Proof.
  apply omap_get_ids. destruct (mget (threadScope c t) (rowKeysByThread s)) eqn:E; [|constructor].
  by eapply tr_nodup.
Qed.

Lemma threadMetaRows_spec row :
  row ∈ threadMetaRows c s <-> stored row s /\ r_kind row = ThreadRow /\ r_connectionId row = c.
Proof.
  unfold threadMetaRows. rewrite list_elem_of_omap. split.
  - intros (key & Hin & Hget). apply (look_set (c, key)), (tr_meta s Hs) in Hin as (row' & Hr & Hf).
    unfold fileMeta in Hf. destruct (isKindRow ThreadRow row') eqn:K; [|done]. injection Hf as E <-.
    apply rowIn_stored in Hr; [|done]. unfold stored in Hr. rewrite Hget in Hr. injection Hr as <-.
    apply bool_decide_eq_true in K. done.
  - intros (Hst & Hk & <-). exists (r_id row). split; [|done].
    apply (look_set (r_connectionId row, r_id row)), (tr_meta s Hs). exists row. split; [by apply rowIn_stored|].
    unfold fileMeta, isKindRow. by rewrite bool_decide_true.
Qed.

Lemma turnRowKey_spec T key :
  turnRowKey c t T s = Some key <-> exists row, inThread row /\ turnOf row = Some T /\ r_id row = key.
Proof.
  unfold turnRowKey. rewrite (tr_turn s Hs (threadScope c t, T) key). unfold fileTurn. split.
  - intros (row & Hr%rowIn_stored & Hf); [|done]. destruct (turnOf row) eqn:E; [|done].
    injection Hf as Es -> <-. exists row. split; [split; [done|by apply stored_thread]|done].
  - intros (row & (Hst & <- & <-) & HT & <-). exists row. split; [by apply rowIn_stored|]. by rewrite HT.
Qed.

Lemma pendingRow_spec cmd row :
  pendingRow c cmd s = Some row
  <-> stored row s /\ r_connectionId row = c /\ exists e, pendingEntry row = Some e /\ commandId e = cmd.
Proof.
  unfold pendingRow. split.
  - destruct (mget _ _) as [key|] eqn:E; [|done]. simpl. intros Hg.
    apply (tr_pending s Hs) in E as (row' & Hr%rowIn_stored & Hf); [|done]. unfold filePending in Hf.
    destruct (pendingEntry row') as [e|] eqn:Ee; [|done]. injection Hf as Es <-.
    unfold stored in Hr. rewrite Hg in Hr. injection Hr as <-.
    apply nul_inj in Es as [-> <-]; [eauto|by apply stored_plain|done].
  - intros (Hst & <- & e & He & <-).
    assert (mget (pendingCommandScope (r_connectionId row) (commandId e)) (pendingRowKeysByCommandId s)
            = Some (r_id row)) as ->; [|done].
    apply (tr_pending s Hs). exists row. split; [by apply rowIn_stored|]. unfold filePending. by rewrite He.
Qed.

(** The turn rows of an epoch of the thread. *)
Definition turnAt (e : Z) (row : ThreadDetailRow) : Prop :=
  inThread row /\ is_Some (turnOf row) /\ r_historyEpoch row = e.

Lemma ordinal_spec e o :
  (exists id, look (threadEpochScope c t e, id) (turnOrdinalsByThreadEpoch s) = Some o)
  <-> exists row, turnAt e row /\ r_ordinal row = o.
Proof.
  split.
  - intros (id & H). apply (tr_ordinal s Hs) in H as (row & Hr%rowIn_stored & Hf); [|done].
    unfold fileOrdinal in Hf. destruct (turnOf row) as [T|] eqn:E; [|done]. injection Hf as Es <- <-.
    destruct (stored_plain row Hr). apply threadEpochScope_inj in Es as (? & ? & ?); [|done..].
    exists row. unfold turnAt, inThread. rewrite E. by split_and!; eauto.
  - intros (row & ((Hst & <- & <-) & [T HT] & <-) & <-). exists T. apply (tr_ordinal s Hs).
    exists row. split; [by apply rowIn_stored|]. unfold fileOrdinal. by rewrite HT.
Qed.

Lemma ordinalBounds_rows e :
  match (ordinalBounds c t e s).1 with
  | None => forall row, ~ turnAt e row
  | Some (mx, mn) => (exists row, turnAt e row /\ r_ordinal row = mx) /\ (exists row, turnAt e row /\ r_ordinal row = mn)
                     /\ forall row, turnAt e row -> mn <= r_ordinal row <= mx
  end.
Proof.
  destruct (ordinalBounds_spec c t e s Hs) as (_ & _ & H). destruct (ordinalBounds c t e s).1 as [[mx mn]|].
  - destruct H as (H1%ordinal_spec & H2%ordinal_spec & H3). split_and!; [done..|]. intros row Hr.
    destruct (proj2 (ordinal_spec e (r_ordinal row))) as [id Hid]; [by exists row|]. by eapply H3.
  - intros row Hr. destruct (proj2 (ordinal_spec e (r_ordinal row))) as [id Hid]; [by exists row|].
    by rewrite H in Hid.
Qed.

End reads.

(** ** The live slice *)

Lemma threadRowPrefix_inj c t c' t' x y :
  separable c -> separable c' -> separable t -> separable t' ->
  threadRowPrefix c t ++ x = threadRowPrefix c' t' ++ y -> c = c' /\ t = t' /\ x = y.
Proof.
  unfold threadRowPrefix. intros Hc Hc' Ht Ht' H. rewrite <- !app_assoc in H.
  apply nul_inj in H as [-> H]; [|done..]. by apply nul_inj in H as [-> ->].
Qed.

Section live.
Variables (s : ThreadDetailSource) (c t : jstr).
Hypotheses (Hs : tracked s) (Hc : separable c) (Ht : separable t).

(** A key of the thread leads to a row of the thread, of the kind of the key. *)
Lemma get_suffix suffix row :
  get (threadRowPrefix c t ++ suffix) s = Some row -> inThread s c t row /\ suffixOf row suffix.
Proof.
  intros Hg. destruct (wf_keyed _ (tr_rows s Hs) _ _ Hg) as [Hk (H1 & H2 & suffix' & E & Hsuf)].
  rewrite E in Hk. apply threadRowPrefix_inj in Hk as (Ec & Et & <-); [|done..].
  split; [|done]. split; [|done]. unfold stored. by rewrite E, <- Ec, <- Et.
Qed.

Lemma inThread_get row suffix : inThread s c t row -> suffixOf row suffix ->
  (forall suffix', suffixOf row suffix' -> suffix' = suffix) -> get (threadRowPrefix c t ++ suffix) s = Some row.
Proof.
  intros (Hst & <- & <-) _ Hu. destruct (wf_keyed _ (tr_rows s Hs) _ _ Hst) as [_ (_ & _ & suffix' & E & Hsuf)].
  rewrite <- (Hu suffix' Hsuf), <- E. done.
Qed.

Lemma get_meta row : get (threadMetaKey c t) s = Some row <-> inThread s c t row /\ r_kind row = ThreadRow.
Proof.
  unfold threadMetaKey. split.
  - intros [Hin Hsuf]%get_suffix. split; [done|]. unfold suffixOf in Hsuf.
    destruct (r_kind row); [done| | | |]; [destruct Hsuf as [? [?|?]]| | |destruct Hsuf as [? ?]];
      try destruct (r_remoteTurnId row); done.
  - intros [Hin Hk]. apply inThread_get; [done| |]; unfold suffixOf; rewrite Hk; done.
Qed.

Lemma get_turnMeta T row :
  get (turnMetaKey c t T) s = Some row
  <-> inThread s c t row /\ r_kind row = TurnMetaRow /\ r_remoteTurnId row = Some T.
Proof.
  unfold turnMetaKey. split.
  - intros [Hin Hsuf]%get_suffix. split; [done|]. unfold suffixOf in Hsuf.
    destruct (r_kind row); [done|destruct Hsuf as [? [?|?]]; done| | |destruct Hsuf; done];
      destruct (r_remoteTurnId row); try done. injection Hsuf as ->. done.
  - intros (Hin & Hk & HT). apply inThread_get; [done| |]; unfold suffixOf; rewrite Hk, HT; done.
Qed.

Lemma get_activity T row :
  get (activityKey c t T) s = Some row
  <-> inThread s c t row /\ r_kind row = ActivityRow /\ r_remoteTurnId row = Some T.
Proof.
  unfold activityKey. split.
  - intros [Hin Hsuf]%get_suffix. split; [done|]. unfold suffixOf in Hsuf.
    destruct (r_kind row); [done|destruct Hsuf as [? [?|?]]; done| | |destruct Hsuf; done];
      destruct (r_remoteTurnId row); try done. injection Hsuf as ->. done.
  - intros (Hin & Hk & HT). apply inThread_get; [done| |]; unfold suffixOf; rewrite Hk, HT; done.
Qed.

Lemma get_turn T row :
  (turnRowKey c t T s ≫= fun key => get key s) = Some row <-> inThread s c t row /\ turnOf row = Some T.
Proof.
  split.
  - intros (key & Hkey & Hg)%bind_Some. apply turnRowKey_spec in Hkey as (row' & Hin & HT & <-); [|done..].
    destruct Hin as (Hst & ? & ?). unfold stored in Hst. rewrite Hg in Hst. injection Hst as ->.
    unfold inThread, stored. done.
  - intros [Hin HT]. apply bind_Some. exists (r_id row). split; [|by destruct Hin].
    apply turnRowKey_spec; [done..|]. by exists row.
Qed.

Lemma epoch_meta :
  historyEpoch c t s = default 0 (r_historyEpoch <$> get (threadMetaKey c t) s).
Proof.
  unfold historyEpoch, threadMetaRow. destruct (get (threadMetaKey c t) s) as [row|] eqn:E; [|done]. simpl.
  apply get_meta in E as [_ E]. unfold isKindRow. by rewrite bool_decide_true.
Qed.

Lemma elem_of_selected (ids selected : list jstr) T :
  T ∈ foldl (fun selected id => sadd id selected) selected ids <-> T ∈ selected \/ T ∈ ids.
Proof.
  revert selected. induction ids as [|id ids IH]; intros selected; simpl; [set_solver|].
  rewrite IH, elem_of_sadd. set_solver.
Qed.

(** A turn the slice is about: an unfinished one, or one an operation addresses. *)
Definition liveTurn (operations : list json) (T : jstr) : Prop :=
  T ∈ (operations ≫= addressed)
  \/ exists row, turnAt s c t (historyEpoch c t s) row /\ turnOf row = Some T /\ r_sealed row = false.

Lemma selectedTurns_spec operations T : T ∈ selectedTurns c t operations s <-> liveTurn operations T.
Proof.
  unfold selectedTurns, liveTurn. rewrite elem_of_selected.
  cut (T ∈ default [] (mget (threadEpochScope c t (historyEpoch c t s)) (mutableTurnIdsByThreadEpoch s))
       <-> exists row, turnAt s c t (historyEpoch c t s) row /\ turnOf row = Some T /\ r_sealed row = false);
    [tauto|].
  rewrite (look_set (threadEpochScope c t (historyEpoch c t s), T)), (tr_mutable s Hs _ tt). split.
  - intros (row & Hr%rowIn_stored & Hf); [|done]. pose proof (fileMutable_turn _ _ _ Hf) as Ho.
    unfold fileMutable in Hf. unfold fileOrdinal in Ho. destruct (turnOf row) as [T'|] eqn:E; [|done]. simpl in *.
    destruct (r_sealed row) eqn:Es; [done|]. injection Ho as Ex ->. destruct (stored_plain s Hs row Hr).
    apply threadEpochScope_inj in Ex as (? & ? & ?); [|done..]. exists row. unfold turnAt, inThread.
    rewrite E. by split_and!; eauto.
  - intros (row & ((Hst & Ec & Et) & _ & He) & HT & Hsl). exists row. split; [by apply rowIn_stored|].
    unfold fileMutable, rowEpochScope. rewrite HT. simpl. by rewrite Hsl, Ec, Et, He.
Qed.

(** The rows of a turn, whatever their kind. *)
Definition turnFamily (row : ThreadDetailRow) : option jstr :=
  match r_kind row with
  | TurnRow | TurnMetaRow | ActivityRow => r_remoteTurnId row
  | _ => None
  end.

Lemma liveRows_spec operations row :
  row ∈ liveRows c t operations s <->
  inThread s c t row
  /\ (r_kind row = ThreadRow
      \/ exists T, turnFamily row = Some T /\ r_historyEpoch row = historyEpoch c t s /\ liveTurn operations T).
Proof.
  unfold liveRows. rewrite elem_of_app. rewrite list_elem_of_bind. setoid_rewrite selectedTurns_spec.
  assert (Hfam : forall T, row ∈ omap (fun key => row ← key ≫= (fun key => get key s);
              if inEpoch (historyEpoch c t s) row then Some row else None)
            [turnRowKey c t T s; Some (turnMetaKey c t T); Some (activityKey c t T)]
          <-> inThread s c t row /\ turnFamily row = Some T /\ r_historyEpoch row = historyEpoch c t s).
  { intros T. rewrite list_elem_of_omap.
    assert (Hkind : forall k, (k ≫= fun key => get key s) = Some row -> turnFamily row = Some T ->
      (row ← k ≫= (fun key => get key s); if inEpoch (historyEpoch c t s) row then Some row else None) = Some row
      <-> r_historyEpoch row = historyEpoch c t s).
    { intros k Hk Hf. rewrite Hk. simpl. unfold inEpoch, isKindRow. unfold turnFamily in Hf.
      destruct (r_kind row); simpl; try done; destruct (Z.eqb_spec (r_historyEpoch row) (historyEpoch c t s)); done. }
    assert (Hsome : forall k, (row ← k ≫= (fun key => get key s);
        if inEpoch (historyEpoch c t s) row then Some row else None) = Some row -> (k ≫= fun key => get key s) = Some row).
    { intros k Hk. destruct (k ≫= fun key => get key s); [|done]. simpl in Hk. by destruct (inEpoch _ _). }
    split.
    - intros (k & Hin & Hk). pose proof (Hsome k Hk) as Hg.
      assert (Hfam : inThread s c t row /\ turnFamily row = Some T).
      { rewrite !elem_of_cons in Hin. destruct Hin as [->|[->|[->|Hin]]]; [| | |by apply elem_of_nil in Hin].
        - apply get_turn in Hg as [? HT]. split; [done|]. unfold turnOf, isKindRow, turnFamily in *.
          destruct (r_kind row); done.
        - simpl in Hg. apply get_turnMeta in Hg as (? & E & ?). unfold turnFamily. by rewrite E.
        - simpl in Hg. apply get_activity in Hg as (? & E & ?). unfold turnFamily. by rewrite E. }
      destruct Hfam as [Hth Hf]. split_and!; [done..|]. by apply (Hkind k).
    - intros (Hth & Hf & He). unfold turnFamily in Hf.
      assert (exists k, k ∈ [turnRowKey c t T s; Some (turnMetaKey c t T); Some (activityKey c t T)]
                /\ (k ≫= fun key => get key s) = Some row) as (k & Hin & Hg).
      { destruct (r_kind row) eqn:K; try done.
        - exists (turnRowKey c t T s). split; [by left|]. apply get_turn. split; [done|].
          unfold turnOf, isKindRow. by rewrite bool_decide_true.
        - exists (Some (turnMetaKey c t T)). split; [by right; left|]. by apply get_turnMeta.
        - exists (Some (activityKey c t T)). split; [by right; right; left|]. by apply get_activity. }
      exists k. split; [done|]. by apply (Hkind k). }
  setoid_rewrite Hfam.
  assert (row ∈ option_list (get (threadMetaKey c t) s) <-> inThread s c t row /\ r_kind row = ThreadRow) as ->.
  { rewrite <- get_meta. destruct (get (threadMetaKey c t) s) as [m|]; simpl;
      [rewrite list_elem_of_singleton; naive_solver|split; [by intros ?%elem_of_nil|done]]. }
  split.
  - intros [[? ?]|(T & (? & ? & ?) & ?)]; [auto|]. split; [done|]. right. eauto.
  - intros [Hin [Hk|(T & ? & ? & ?)]]; [by left|]. right. exists T. auto.
Qed.

End live.

(** C5. After any sequence of admissible operations every read of the indexes
    answers as a scan of the rows would: the rows of a thread (each once), the
    thread rows of a connection, the row of a turn, the pending row of a command,
    and the bounds of the ordinals of an epoch. *)
Theorem source_reads ops c t :
  admissibleOps ops emptySource -> separable c -> separable t ->
  let s := foldl runOp emptySource ops in
  (forall row, row ∈ rowsForThread c t s <-> inThread s c t row)
  /\ NoDup (r_id <$> rowsForThread c t s)
  /\ (forall row, row ∈ threadMetaRows c s <-> stored row s /\ r_kind row = ThreadRow /\ r_connectionId row = c)
  /\ (forall T key, turnRowKey c t T s = Some key
        <-> exists row, inThread s c t row /\ turnOf row = Some T /\ r_id row = key)
  /\ (forall cmd row, pendingRow c cmd s = Some row
        <-> stored row s /\ r_connectionId row = c /\ exists e, pendingEntry row = Some e /\ commandId e = cmd)
  /\ (forall e, match (ordinalBounds c t e s).1 with
                | None => forall row, ~ turnAt s c t e row
                | Some (mx, mn) =>
                    (exists row, turnAt s c t e row /\ r_ordinal row = mx)
                    /\ (exists row, turnAt s c t e row /\ r_ordinal row = mn)
                    /\ forall row, turnAt s c t e row -> mn <= r_ordinal row <= mx
                end).
Proof.
  intros Hops Hc Ht s. assert (Hs : tracked s) by (apply tracked_ops; [apply tracked_empty|done]).
  split_and!.
  - intros row. by apply rowsForThread_spec.
  - by apply rowsForThread_nodup.
  - intros row. by apply threadMetaRows_spec.
  - intros T key. by apply turnRowKey_spec.
  - intros cmd row. by apply pendingRow_spec.
  - intros e. by apply ordinalBounds_rows.
Qed.

(** The slice of rows a live batch is reduced over is exactly the thread row
    and, for every turn of the current epoch that is unfinished or that the batch
    addresses, its content, its metadata and its activity. *)
Theorem live_slice ops c t operations :
  admissibleOps ops emptySource -> separable c -> separable t ->
  let s := foldl runOp emptySource ops in
  forall row, row ∈ liveRows c t operations s <->
    inThread s c t row
    /\ (r_kind row = ThreadRow
        \/ exists T, turnFamily row = Some T /\ r_historyEpoch row = historyEpoch c t s
                     /\ (T ∈ (operations ≫= addressed)
                         \/ exists row', turnAt s c t (historyEpoch c t s) row' /\ turnOf row' = Some T
                                        /\ r_sealed row' = false)).
Proof. intros Hops Hc Ht s row. apply liveRows_spec; [|done..]. by apply tracked_ops; [apply tracked_empty|]. Qed.

(** ** Executions *)

Definition demo_unfinished : ThreadDetailRow :=
  {| r_id := threadRowPrefix (js "c") (js "t") ++ js "turn" ++ NUL ++ js "T"; r_kind := TurnRow;
     r_connectionId := js "c"; r_remoteThreadId := js "t"; r_remoteTurnId := Some (js "T"); r_ordinal := 4;
     r_historyEpoch := 0; r_sealed := false; r_sessionId := None; r_thread := None; r_turn := None;
     r_turnMetadata := None; r_activityItems := None; r_pending := None; r_lastOpenedAt := 0;
     r_historyCursor := None; r_historyHadTurns := None; r_historyCoverageMinOrdinal := None;
     r_historyCoverageMaxOrdinal := None; r_projectionCursor := None; r_historySourceWitness := None;
     r_currentUsage := None; r_currentOutcome := None |}.

Definition demo_ops : list SourceOp := [OpSet (r_id demo_unfinished) demo_unfinished; OpBounds (js "c") (js "t") 0].

Lemma demo_admissible : admissibleOps demo_ops emptySource /\ separable (js "c") /\ separable (js "t").
Proof.
  assert (Hc : separable (js "c") /\ separable (js "t")) by (split; apply (bool_decide_unpack _); vm_compute; exact I).
  split; [|exact Hc]. split; [|by split]. apply wf_write; [apply tracked_empty| |done|by intros T key row _].
  destruct Hc. split_and!; [done..|]. exists (js "turn" ++ NUL ++ js "T"). split; [done|]. exists (js "T"). by left.
Qed.

Lemma source_reads_witness :
  let s := foldl runOp emptySource demo_ops in
  turnRowKey (js "c") (js "t") (js "T") s = Some (r_id demo_unfinished)
  /\ (ordinalBounds (js "c") (js "t") 0 s).1 = Some (4, 4).
Proof.
  cbv zeta. destruct demo_admissible as (Ha & Hc & Ht).
  destruct (source_reads demo_ops (js "c") (js "t") Ha Hc Ht) as (_ & _ & _ & Hkey & _).
  split; [|vm_compute; reflexivity]. apply Hkey. exists demo_unfinished.
  split_and!; [split_and!; [vm_compute; reflexivity|reflexivity..]|reflexivity..].
Defined.

Lemma live_slice_witness :
  liveRows (js "c") (js "t") [] (foldl runOp emptySource demo_ops) = [demo_unfinished]
  /\ demo_unfinished ∈ liveRows (js "c") (js "t") [] (foldl runOp emptySource demo_ops).
Proof.
  split; [vm_compute; reflexivity|]. destruct demo_admissible as (Ha & Hc & Ht).
  apply (live_slice demo_ops (js "c") (js "t") [] Ha Hc Ht).
  split; [split_and!; [vm_compute; reflexivity|reflexivity..]|]. right. exists (js "T").
  split_and!; [reflexivity|vm_compute; reflexivity|]. right. exists demo_unfinished.
  split_and!; [|reflexivity..]. split_and!; [split_and!; [vm_compute; reflexivity|reflexivity..]|by eexists|vm_compute; reflexivity].
Defined.
