(* ===== verification/DetailCommit.v ===== *)
(** * Writes of a thread's rows

    Models the write side of
    apps/android/src/data/thread-detail-database.native.ts: the rows made of a
    turn, the transaction over the resident rows and the staged changes,
    commitThreadTurn, commitThreadProjection and persistPendingMutation.

    A transaction runs without yielding, so it is a function of the resident
    rows, the staged changes and the pending overlays; what throws is [None], and
    whether the commit of the staged changes throws is an argument.  Publication
    of the changes to the screen and telemetry are not modelled. *)
From S2P Require Import Prelude JsMap Json ThreadItems ThreadEvents RenderWindow Delivery ThreadHead ThreadRows DetailSource.

(** ** Rows *)

Definition baseRow (id : jstr) (kind : RowKind) (connectionId threadId : jstr) (turnId : option jstr)
    (historyEpoch ordinal : Z) (sessionId : option jstr) (lastOpenedAt : Z) : ThreadDetailRow :=
  {| r_id := id; r_kind := kind; r_connectionId := connectionId; r_remoteThreadId := threadId;
     r_remoteTurnId := turnId; r_ordinal := ordinal; r_historyEpoch := historyEpoch; r_sealed := false;
     r_sessionId := sessionId; r_thread := None; r_turn := None; r_turnMetadata := None;
     r_activityItems := None; r_pending := None; r_lastOpenedAt := lastOpenedAt; r_historyCursor := None;
     r_historyHadTurns := None; r_historyCoverageMinOrdinal := None; r_historyCoverageMaxOrdinal := None;
     r_projectionCursor := None; r_historySourceWitness := None; r_currentUsage := None;
     r_currentOutcome := None |}.

(** [{ ...row, sealed, turn, turnMetadata, activityItems, pending }]. *)
Definition withContent (sealed : bool) (turn metadata : option json) (activity : option (list json))
    (pending : option PendingTimelineEntry) (row : ThreadDetailRow) : ThreadDetailRow :=
  {| r_id := r_id row; r_kind := r_kind row; r_connectionId := r_connectionId row;
     r_remoteThreadId := r_remoteThreadId row; r_remoteTurnId := r_remoteTurnId row;
     r_ordinal := r_ordinal row; r_historyEpoch := r_historyEpoch row; r_sealed := sealed;
     r_sessionId := r_sessionId row; r_thread := r_thread row; r_turn := turn;
     r_turnMetadata := metadata; r_activityItems := activity; r_pending := pending;
     r_lastOpenedAt := r_lastOpenedAt row; r_historyCursor := r_historyCursor row;
     r_historyHadTurns := r_historyHadTurns row;
     r_historyCoverageMinOrdinal := r_historyCoverageMinOrdinal row;
     r_historyCoverageMaxOrdinal := r_historyCoverageMaxOrdinal row;
     r_projectionCursor := r_projectionCursor row; r_historySourceWitness := r_historySourceWitness row;
     r_currentUsage := r_currentUsage row; r_currentOutcome := r_currentOutcome row |}.

(** [{ ...row, historyEpoch, ordinal }]. *)
Definition withPlace (historyEpoch ordinal : Z) (row : ThreadDetailRow) : ThreadDetailRow :=
  {| r_id := r_id row; r_kind := r_kind row; r_connectionId := r_connectionId row;
     r_remoteThreadId := r_remoteThreadId row; r_remoteTurnId := r_remoteTurnId row;
     r_ordinal := ordinal; r_historyEpoch := historyEpoch; r_sealed := r_sealed row;
     r_sessionId := r_sessionId row; r_thread := r_thread row; r_turn := r_turn row;
     r_turnMetadata := r_turnMetadata row; r_activityItems := r_activityItems row; r_pending := r_pending row;
     r_lastOpenedAt := r_lastOpenedAt row; r_historyCursor := r_historyCursor row;
     r_historyHadTurns := r_historyHadTurns row;
     r_historyCoverageMinOrdinal := r_historyCoverageMinOrdinal row;
     r_historyCoverageMaxOrdinal := r_historyCoverageMaxOrdinal row;
     r_projectionCursor := r_projectionCursor row; r_historySourceWitness := r_historySourceWitness row;
     r_currentUsage := r_currentUsage row; r_currentOutcome := r_currentOutcome row |}.

(** [{ ...row, historyCursor }]. *)
Definition withCursor (cursor : option jstr) (row : ThreadDetailRow) : ThreadDetailRow :=
  {| r_id := r_id row; r_kind := r_kind row; r_connectionId := r_connectionId row;
     r_remoteThreadId := r_remoteThreadId row; r_remoteTurnId := r_remoteTurnId row;
     r_ordinal := r_ordinal row; r_historyEpoch := r_historyEpoch row; r_sealed := r_sealed row;
     r_sessionId := r_sessionId row; r_thread := r_thread row; r_turn := r_turn row;
     r_turnMetadata := r_turnMetadata row; r_activityItems := r_activityItems row; r_pending := r_pending row;
     r_lastOpenedAt := r_lastOpenedAt row; r_historyCursor := Some cursor;
     r_historyHadTurns := r_historyHadTurns row;
     r_historyCoverageMinOrdinal := r_historyCoverageMinOrdinal row;
     r_historyCoverageMaxOrdinal := r_historyCoverageMaxOrdinal row;
     r_projectionCursor := r_projectionCursor row; r_historySourceWitness := r_historySourceWitness row;
     r_currentUsage := r_currentUsage row; r_currentOutcome := r_currentOutcome row |}.

Definition stripThreadTurns (thread : json) : json := setField "turns" (JArr []) thread.
Definition stripTurnMetadata (turn : json) : json := delField "codewide" turn.

(** What a thread row records of its history. *)
Record ThreadFacts :=
  { tf_historyCursor : option (option jstr); tf_historyHadTurns : option bool;
    tf_min : option (option Z); tf_max : option (option Z); tf_projectionCursor : option Z;
    tf_sourceWitness : option jstr; tf_usage : option ThreadCurrentUsage;
    tf_outcome : option ThreadCurrentOutcome }.

Definition threadRow (connectionId : jstr) (thread : json) (sessionId : option jstr) (lastOpenedAt : Z)
    (historyEpoch : Z) (facts : ThreadFacts) : ThreadDetailRow :=
  let id := turnId thread in
  {| r_id := threadMetaKey connectionId id; r_kind := ThreadRow; r_connectionId := connectionId;
     r_remoteThreadId := id; r_remoteTurnId := None; r_ordinal := -1; r_historyEpoch := historyEpoch;
     r_sealed := false; r_sessionId := sessionId; r_thread := Some (stripThreadTurns thread); r_turn := None;
     r_turnMetadata := None; r_activityItems := None; r_pending := None; r_lastOpenedAt := lastOpenedAt;
     r_historyCursor := tf_historyCursor facts; r_historyHadTurns := tf_historyHadTurns facts;
     r_historyCoverageMinOrdinal := tf_min facts; r_historyCoverageMaxOrdinal := tf_max facts;
     r_projectionCursor := tf_projectionCursor facts; r_historySourceWitness := tf_sourceWitness facts;
     r_currentUsage := Some (tf_usage facts); r_currentOutcome := Some (tf_outcome facts) |}.

Inductive Authority := Live | Authoritative.

#[export] Instance Authority_eq_dec : EqDecision Authority.
Proof. solve_decision. Defined.

Definition turnStorageKey := authoritativeTimelineRowId.

Definition turnRow (connectionId threadId : jstr) (turn : json) (ordinal historyEpoch : Z)
    (completionProof : Authority) : ThreadDetailRow :=
  withContent (bool_decide (completionProof = Authoritative) && negb (turnInProgress turn))
    (Some (stripTurnMetadata turn)) None None None
    (baseRow (turnStorageKey connectionId threadId turn) TurnRow connectionId threadId (Some (turnId turn))
       historyEpoch ordinal None 0).

Definition turnMetaRow (connectionId threadId turnId : jstr) (metadata : json) (ordinal : Z) (sealed : bool)
    (historyEpoch : Z) : ThreadDetailRow :=
  withContent sealed None (Some metadata) None None
    (baseRow (turnMetaKey connectionId threadId turnId) TurnMetaRow connectionId threadId (Some turnId)
       historyEpoch ordinal None 0).

Definition activityRow (connectionId threadId turnId : jstr) (ordinal : Z) (items : list json)
    (historyEpoch : Z) : ThreadDetailRow :=
  withContent true None None (Some items) None
    (baseRow (activityKey connectionId threadId turnId) ActivityRow connectionId threadId (Some turnId)
       historyEpoch ordinal None 0).

Definition pendingRow (connectionId threadId : jstr) (entry : PendingTimelineEntry) (historyEpoch : Z)
    : ThreadDetailRow :=
  withContent false None None None (Some entry)
    (baseRow (pendingTimelineRowId connectionId threadId (commandId entry)) PendingKind connectionId threadId
       None historyEpoch (order entry) None 0).

(** ** When two rows are the same *)

(** Attachments are compared as text; their fields are strings, so that is equality. *)
Definition samePendingTimelineEntry (left right : PendingTimelineEntry) : bool :=
  bool_decide (commandId left = commandId right) && bool_decide (method left = method right)
  && bool_decide (presentation left = presentation right)
  && bool_decide (workspaceRequestId left = workspaceRequestId right)
  && bool_decide (entry_text left = entry_text right) && bool_decide (attachments left = attachments right)
  && bool_decide (state left = state right)
  && bool_decide ((rc_turnId <$> confirmation left) = (rc_turnId <$> confirmation right))
  && bool_decide ((rc_itemId <$> confirmation left) = (rc_itemId <$> confirmation right))
  && (attempts left =? attempts right) && bool_decide (lastError left = lastError right)
  && (createdAt left =? createdAt right) && (updatedAt left =? updatedAt right)
  && (order left =? order right).

Definition jsonText (v : option json) : jstr := stringify (default JNull v).

(** [JSON.stringify] of a value that may be missing, or [null]. *)
Definition optionalText {A} (toJson : A -> json) (v : option (option A)) : option jstr :=
  (fun v => stringify (match v with Some a => toJson a | None => JNull end)) <$> v.

Inductive ChangeType := Insert | Update.
Inductive Change :=
| Upsert (type_ : ChangeType) (value : ThreadDetailRow)
| Remove (key : jstr).

Record Tx :=
  { tx_source : Source.ThreadDetailSource; tx_previous : list (jstr * option ThreadDetailRow);
    tx_staged : list Change; tx_overlays : list (jstr * PendingTimelineOverlay) }.

(** What a transaction does before it ends. *)
Definition M (A : Type) : Type := Tx -> A * Tx.

Definition changeKey (change : Change) : jstr :=
  match change with Upsert _ row => r_id row | Remove key => key end.

(** [writes.write]: the row a key had at first is remembered. *)
Definition controlsWrite (change : Change) (tx : Tx) : Tx :=
  let key := changeKey change in
  {| tx_source := tx_source tx;
     tx_previous := if mhas key (tx_previous tx) then tx_previous tx
                    else mset key (Source.get key (tx_source tx)) (tx_previous tx);
     tx_staged := tx_staged tx ++ [change]; tx_overlays := tx_overlays tx |}.

Definition onSource (f : Source.ThreadDetailSource -> Source.ThreadDetailSource) (tx : Tx) : Tx :=
  {| tx_source := f (tx_source tx); tx_previous := tx_previous tx; tx_staged := tx_staged tx;
     tx_overlays := tx_overlays tx |}.

Definition dropOverlay (key : jstr) (tx : Tx) : Tx :=
  {| tx_source := tx_source tx; tx_previous := tx_previous tx; tx_staged := tx_staged tx;
     tx_overlays := mdel key (tx_overlays tx) |}.

Definition deleteRow (key : jstr) : M bool := fun tx =>
  match Source.get key (tx_source tx) with
  | None => (false, tx)
  | Some _ => (true, onSource (Source.delete key) (controlsWrite (Remove key) tx))
  end.

Section writes.
(** Whether two values are one object. *)
Variables (sameObject : json -> json -> bool) (sameItems : list json -> list json -> bool).

Definition sameReference {A} (same : A -> A -> bool) (a b : option A) : bool :=
  match a, b with
  | Some a, Some b => same a b
  | None, None => true
  | _, _ => false
  end.

Definition sameThreadDetailRow (previous next : ThreadDetailRow) : bool :=
  bool_decide (r_kind previous = r_kind next) && bool_decide (r_id previous = r_id next)
  && (r_historyEpoch previous =? r_historyEpoch next)
  && bool_decide (r_historyCursor previous = r_historyCursor next)
  && bool_decide (r_historyHadTurns previous = r_historyHadTurns next)
  && bool_decide (r_historyCoverageMinOrdinal previous = r_historyCoverageMinOrdinal next)
  && bool_decide (r_historyCoverageMaxOrdinal previous = r_historyCoverageMaxOrdinal next)
  && (r_ordinal previous =? r_ordinal next) && bool_decide (r_sessionId previous = r_sessionId next)
  && (r_lastOpenedAt previous =? r_lastOpenedAt next) && Bool.eqb (r_sealed previous) (r_sealed next)
  && match r_kind next with
     | TurnRow => sameReference sameObject (r_turn previous) (r_turn next)
     | PendingKind => match r_pending previous, r_pending next with
                      | Some p, Some n => samePendingTimelineEntry p n
                      | _, _ => false
                      end
     | ActivityRow => sameReference sameItems (r_activityItems previous) (r_activityItems next)
     | TurnMetaRow => bool_decide (jsonText (r_turnMetadata previous) = jsonText (r_turnMetadata next))
     | ThreadRow =>
         bool_decide (jsonText (r_thread previous) = jsonText (r_thread next))
         && bool_decide (optionalText usageJson (r_currentUsage previous) = optionalText usageJson (r_currentUsage next))
         && bool_decide (optionalText outcomeJson (r_currentOutcome previous)
                         = optionalText outcomeJson (r_currentOutcome next))
     end.

Definition writeRow (key : jstr) (row : ThreadDetailRow) : M bool := fun tx =>
  match Source.get key (tx_source tx) with
  | Some previous =>
      if sameThreadDetailRow previous row then (false, tx)
      else (true, onSource (Source.set key row) (controlsWrite (Upsert Update row) tx))
  | None => (true, onSource (Source.set key row) (controlsWrite (Upsert Insert row) tx))
  end.

Definition writeOwnedRow (key : jstr) (row : ThreadDetailRow) : M bool := fun tx =>
  writeRow key row (if isKindRow TurnRow row then dropOverlay key tx else tx).

(** [if (...) { mutationCount += 1; }], and such statements one after the other. *)
Definition counted (m : M bool) : M nat := fun tx => let '(b, tx) := m tx in ((if b then 1 else 0)%nat, tx).
Definition when (c : bool) (m : M nat) : M nat := fun tx => if c then m tx else (0%nat, tx).
Fixpoint total (ms : list (M nat)) : M nat := fun tx =>
  match ms with
  | [] => (0%nat, tx)
  | m :: ms => let '(n, tx) := m tx in let '(k, tx) := total ms tx in ((n + k)%nat, tx)
  end.

(** ** One turn *)

(** [normalizeConversationTurn] returns the turn it was given. *)
Definition completeEnvelope (turn : json) : bool :=
  negb (isStr (field "itemsView" turn) "notLoaded") && bool_decide (is_Some (asArray (field "items" turn))).

Definition firstRow (p : ThreadDetailRow -> bool) (rows : list ThreadDetailRow) : option ThreadDetailRow :=
  snd <$> list_find (fun row => p row = true) rows.

Definition isTurnOf (id : jstr) (row : ThreadDetailRow) : bool :=
  isKindRow TurnRow row && bool_decide (r_remoteTurnId row = Some id).

Record TurnCommit :=
  { tc_authority : Authority; tc_connectionId : jstr; tc_facts : list ThreadDetailRow;
    tc_historyEpoch : Z; tc_ordinal : Z; tc_threadId : jstr; tc_turn : json }.

(** The key of the row the turn has now, resident or in the facts. *)
Definition previousKey (input : TurnCommit) (s : Source.ThreadDetailSource) : option jstr :=
  let id := turnId (tc_turn input) in
  match Source.turnRowKey (tc_connectionId input) (tc_threadId input) id s with
  | Some key => Some key
  | None => r_id <$> firstRow (isTurnOf id) (tc_facts input)
  end.

Definition previousByTurnId (input : TurnCommit) (s : Source.ThreadDetailSource) : option ThreadDetailRow :=
  key ← previousKey input s;
  match Source.get key s with
  | Some row => Some row
  | None => firstRow (isTurnOf (turnId (tc_turn input))) (tc_facts input)
  end.

Record TurnPlan :=
  { tp_previousKey : option jstr; tp_previous : option ThreadDetailRow; tp_sourceTurn : json;
    tp_turn : json; tp_kept : bool; tp_content : ThreadDetailRow }.

Definition sealsTurn (input : TurnCommit) : bool :=
  bool_decide (tc_authority input = Authoritative) && completeEnvelope (tc_turn input).

Definition incomingRow (input : TurnCommit) (turn : json) : ThreadDetailRow :=
  turnRow (tc_connectionId input) (tc_threadId input) turn (tc_ordinal input) (tc_historyEpoch input)
    (if sealsTurn input then Authoritative else Live).

Definition contentRow (input : TurnCommit) (previous : option ThreadDetailRow) (incoming : ThreadDetailRow)
    : ThreadDetailRow :=
  match tc_authority input with
  | Authoritative => reconcileAuthoritativeThreadDetailRow previous incoming
  | Live => incoming
  end.

(** The content is the previous row itself. *)
Definition keepsPrevious (input : TurnCommit) (previous : option ThreadDetailRow) : bool :=
  match tc_authority input, previous with
  | Authoritative, Some p => sealedTurn p && (r_historyEpoch p =? tc_historyEpoch input)
  | _, _ => false
  end.

Definition planTurn (input : TurnCommit) (s : Source.ThreadDetailSource) : TurnPlan :=
  let previousRow := previousByTurnId input s in
  let residentTurn := row ← previousRow; if isKindRow TurnRow row then r_turn row else None in
  let sourceTurn := normalizeConversationTurn (tc_turn input) residentTurn in
  let turn := if sealsTurn input then compactCompletedTurnForStorage sourceTurn else sourceTurn in
  let previous :=
    match previousKey input s with
    | None => Source.get (turnStorageKey (tc_connectionId input) (tc_threadId input) turn) s
    | Some _ => previousRow
    end in
  {| tp_previousKey := previousKey input s; tp_previous := previous; tp_sourceTurn := sourceTurn;
     tp_turn := turn; tp_kept := keepsPrevious input previous;
     tp_content := contentRow input previous (incomingRow input turn) |}.

Definition shouldWriteContent (input : TurnCommit) (plan : TurnPlan) : bool :=
  match tc_authority input with
  | Authoritative => shouldWriteAuthoritativeThreadDetailRow (tp_previous plan) (tp_content plan)
  | Live => shouldWriteThreadDetailRow (tp_previous plan) (tp_content plan)
  end.

(** The fullest items known of a turn that is stored as a summary. *)
Definition fullActivitySource (plan : TurnPlan) : option json :=
  if isStr (field "itemsView" (tp_sourceTurn plan)) "full" then Some (tp_sourceTurn plan)
  else
    row ← tp_previous plan;
    turn ← (if isKindRow TurnRow row then r_turn row else None);
    if isStr (field "itemsView" turn) "full" then Some turn else None.

Definition residentOrFact (key : jstr) (facts : list ThreadDetailRow) (s : Source.ThreadDetailSource)
    : option ThreadDetailRow :=
  match Source.get key s with
  | Some row => Some row
  | None => firstRow (fun row => bool_decide (r_id row = key)) facts
  end.

(** A turn stored under another key leaves that key. *)
Definition leavePrevious (plan : TurnPlan) : M nat := fun tx =>
  match tp_previousKey plan with
  | Some key =>
      when (negb (bool_decide (key = r_id (tp_content plan))) && negb (tp_kept plan)) (counted (deleteRow key)) tx
  | None => (0%nat, tx)
  end.

Definition writeContent (input : TurnCommit) (plan : TurnPlan) : M nat :=
  when (shouldWriteContent input plan) (counted (writeOwnedRow (r_id (tp_content plan)) (tp_content plan))).

Definition writeMetadata (input : TurnCommit) (plan : TurnPlan) : M nat := fun tx =>
  match (if tp_kept plan then None else projectedTurnMetadata (tp_turn plan)) with
  | None => (0%nat, tx)
  | Some metadata =>
      let row := turnMetaRow (tc_connectionId input) (tc_threadId input) (turnId (tp_turn plan)) metadata
                   (r_ordinal (tp_content plan)) (r_sealed (tp_content plan)) (tc_historyEpoch input) in
      counted (writeOwnedRow (r_id row) row) tx
  end.

Definition overlayKey (input : TurnCommit) (plan : TurnPlan) : jstr :=
  activityKey (tc_connectionId input) (tc_threadId input) (turnId (tp_turn plan)).

Definition writeActivity (input : TurnCommit) (plan : TurnPlan) : M nat := fun tx =>
  match fullActivitySource plan with
  | Some full =>
      let row := activityRow (tc_connectionId input) (tc_threadId input) (turnId (tp_turn plan))
                   (r_ordinal (tp_content plan)) (turnItems full) (tc_historyEpoch input) in
      when (r_sealed (tp_content plan) && isStr (field "itemsView" (tp_turn plan)) "summary"
            && shouldWriteThreadDetailRow
                 (residentOrFact (overlayKey input plan) (tc_facts input) (tx_source tx)) row)
        (counted (writeOwnedRow (overlayKey input plan) row)) tx
  | None => (0%nat, tx)
  end.

(** Activity follows the place of its turn. *)
Definition moveActivity (input : TurnCommit) (plan : TurnPlan) : M nat := fun tx =>
  match residentOrFact (overlayKey input plan) (tc_facts input) (tx_source tx) with
  | Some overlay =>
      when (negb (r_historyEpoch overlay =? tc_historyEpoch input)
            || negb (r_ordinal overlay =? r_ordinal (tp_content plan)))
        (counted (writeOwnedRow (overlayKey input plan)
           (withPlace (tc_historyEpoch input) (r_ordinal (tp_content plan)) overlay))) tx
  | None => (0%nat, tx)
  end.

Definition commitThreadTurn (input : TurnCommit) : M nat := fun tx =>
  let plan := planTurn input (tx_source tx) in
  total [leavePrevious plan; writeContent input plan; writeMetadata input plan;
         writeActivity input plan; moveActivity input plan] tx.

(** ** A projection of a thread *)

Record Projection :=
  { pj_authority : Authority; pj_connectionId : jstr; pj_durable : bool; pj_facts : list ThreadDetailRow;
    pj_historyCursor : option (option jstr); pj_historyEpoch : Z;
    pj_mutableRepositions : list ThreadDetailRow; pj_ordinals : list (jstr * Z);
    pj_pruneMissingMutable : bool; pj_replaceExisting : bool; pj_threadId : jstr;
    pj_threadMeta : option ThreadDetailRow; pj_turns : list json }.

Definition threadRows (input : Projection) (tx : Tx) : list ThreadDetailRow :=
  Source.rowsForThread (pj_connectionId input) (pj_threadId input) (tx_source tx).

Definition replaceExisting (input : Projection) : M nat := fun tx =>
  if pj_replaceExisting input
  then total ((fun row => counted (deleteRow (r_id row)))
                <$> filter (fun row => isKindRow PendingKind row = false) (threadRows input tx)) tx
  else (0%nat, tx).

Definition writeThreadMeta (input : Projection) : M nat := fun tx =>
  match pj_threadMeta input, pj_historyCursor input with
  | Some meta, _ => counted (writeOwnedRow (r_id meta) meta) tx
  | None, Some cursor =>
      let metaKey := threadMetaKey (pj_connectionId input) (pj_threadId input) in
      match Source.get metaKey (tx_source tx) with
      | Some meta =>
          when (isKindRow ThreadRow meta && negb (bool_decide (r_historyCursor meta = Some cursor)))
            (counted (writeOwnedRow metaKey (withCursor cursor meta))) tx
      | None => (0%nat, tx)
      end
  | None, None => (0%nat, tx)
  end.

(** The unfinished turns an authoritative result does not have. *)
Definition missingTurn (input : Projection) (row : ThreadDetailRow) : option jstr :=
  id ← r_remoteTurnId row;
  if isKindRow TurnRow row && negb (r_sealed row) && negb (bool_decide (id ∈ (turnId <$> pj_turns input)))
  then Some id else None.

Definition pruneRow (input : Projection) (row : ThreadDetailRow) : M nat := fun tx =>
  match missingTurn input row with
  | Some id =>
      total [counted (deleteRow (r_id row));
             counted (deleteRow (turnMetaKey (pj_connectionId input) (pj_threadId input) id));
             counted (deleteRow (activityKey (pj_connectionId input) (pj_threadId input) id))] tx
  | None => (0%nat, tx)
  end.

Definition pruneMissingMutable (input : Projection) : M nat := fun tx =>
  if pj_pruneMissingMutable input then total (pruneRow input <$> threadRows input tx) tx else (0%nat, tx).

Definition turnInput (input : Projection) (turn : json) (ordinal : Z) : TurnCommit :=
  {| tc_authority := pj_authority input; tc_connectionId := pj_connectionId input;
     tc_facts := pj_facts input; tc_historyEpoch := pj_historyEpoch input; tc_ordinal := ordinal;
     tc_threadId := pj_threadId input; tc_turn := turn |}.

(** A turn without an ordinal throws. *)
Fixpoint commitTurns (input : Projection) (turns : list json) : M (option nat) := fun tx =>
  match turns with
  | [] => (Some O, tx)
  | turn :: turns =>
      match mget (turnId turn) (pj_ordinals input) with
      | None => (None, tx)
      | Some ordinal =>
          let '(n, tx) := commitThreadTurn (turnInput input turn ordinal) tx in
          let '(k, tx) := commitTurns input turns tx in ((fun k => (n + k)%nat) <$> k, tx)
      end
  end.

Definition projectionChanges (input : Projection) : M nat :=
  total [replaceExisting input; writeThreadMeta input;
         total ((fun row => counted (writeOwnedRow (r_id row) row)) <$> pj_mutableRepositions input);
         pruneMissingMutable input].

(** The body of the transaction: whether it is durable, and its mutations. *)
Definition projectThread (input : Projection) : M (option (bool * nat)) := fun tx =>
  let '(n, tx) := projectionChanges input tx in
  let '(k, tx) := commitTurns input (pj_turns input) tx in
  ((fun k => ((0 <? n + k)%nat && pj_durable input, (n + k)%nat)) <$> k, tx).

(** ** The transaction *)

Record TxResult (A : Type) :=
  { tr_value : option A; tr_source : Source.ThreadDetailSource; tr_overlays : list (jstr * PendingTimelineOverlay);
    tr_committed : option (bool * list Change) }.

Definition beginTx (s : Source.ThreadDetailSource) (overlays : list (jstr * PendingTimelineOverlay)) : Tx :=
  {| tx_source := s; tx_previous := []; tx_staged := []; tx_overlays := overlays |}.

Definition restoreRow (s : Source.ThreadDetailSource) (e : jstr * option ThreadDetailRow) : Source.ThreadDetailSource :=
  match e.2 with
  | None => Source.delete e.1 s
  | Some previous => Source.set e.1 previous s
  end.

Definition rollback (tx : Tx) : Source.ThreadDetailSource := foldl restoreRow (tx_source tx) (tx_previous tx).

(** [runWriteTransaction]: what fails leaves the rows and the overlays as they
    were; [commitThrows] is whether committing the staged changes throws. *)
Definition runWriteTransaction {A} (commitThrows : bool) (mutate : M (option (bool * A)))
    (s : Source.ThreadDetailSource) (overlays : list (jstr * PendingTimelineOverlay)) : TxResult A :=
  match mutate (beginTx s overlays) with
  | (Some (durable, value), tx) =>
      if commitThrows
      then {| tr_value := None; tr_source := rollback tx; tr_overlays := overlays; tr_committed := None |}
      else {| tr_value := Some value; tr_source := tx_source tx; tr_overlays := tx_overlays tx;
              tr_committed := Some (durable, tx_staged tx) |}
  | (None, tx) =>
      {| tr_value := None; tr_source := rollback tx; tr_overlays := overlays; tr_committed := None |}
  end.

Definition commitThreadProjection (commitThrows : bool) (input : Projection) :=
  runWriteTransaction commitThrows (projectThread input).

Definition deleteThreadRows (commitThrows : bool) (connectionId threadId : jstr) (s : Source.ThreadDetailSource)
    (overlays : list (jstr * PendingTimelineOverlay)) : TxResult unit :=
  runWriteTransaction commitThrows
    (fun tx =>
       let '(n, tx) := total ((fun row => counted (deleteRow (r_id row)))
                                <$> Source.rowsForThread connectionId threadId (tx_source tx)) tx in
       (Some ((0 <? n)%nat, tt), tx)) s overlays.

(** ** Pending rows *)

(** A confirmed prompt leaves only when the turn it became shows its message. *)
Definition stillUnshown (previous : ThreadDetailRow) (s : Source.ThreadDetailSource) : bool :=
  match r_pending previous ≫= confirmation with
  | Some receipt =>
      let canonical := key ← Source.turnRowKey (r_connectionId previous) (r_remoteThreadId previous)
                               (rc_turnId receipt) s;
                       row ← Source.get key s; r_turn row in
      negb (match canonical with
            | Some turn => existsb (fun item => isType "userMessage" item
                                      && bool_decide (field "clientId" item = Some (JStr (rc_commandId receipt))))
                             (turnItems turn)
            | None => false
            end)
  | None => false
  end.

Definition deletePending (key : jstr) : M nat := fun tx =>
  match Source.get key (tx_source tx) with
  | Some previous =>
      if isKindRow TurnRow previous then (0%nat, dropOverlay key tx)
      else if isKindRow PendingKind previous then
        if stillUnshown previous (tx_source tx) then (0%nat, tx)
        else let '(n, tx) := counted (deleteRow key) tx in (n, dropOverlay key tx)
      else if mhas key (tx_overlays tx)
      then (1%nat, dropOverlay key (controlsWrite (Remove key) tx)) else (0%nat, dropOverlay key tx)
  | None =>
      if mhas key (tx_overlays tx)
      then (1%nat, dropOverlay key (controlsWrite (Remove key) tx)) else (0%nat, dropOverlay key tx)
  end.

Definition withPendingEntry (entry : PendingTimelineEntry) (row : ThreadDetailRow) : ThreadDetailRow :=
  withContent (r_sealed row) (r_turn row) (r_turnMetadata row) (r_activityItems row) (Some entry) row.

Definition mergedPending (row : ThreadDetailRow) (entry : PendingTimelineEntry)
    (previous : option ThreadDetailRow) : ThreadDetailRow :=
  match previous with
  | Some p =>
      match Source.pendingEntry p with
      | Some e => withPendingEntry (mergePendingTimelineEntry e entry) row
      | None => row
      end
  | None => row
  end.

Definition upsertPending (row : ThreadDetailRow) : M nat := fun tx =>
  match Source.pendingEntry row with
  | None => (0%nat, tx)
  | Some entry =>
      let previous := Source.get (r_id row) (tx_source tx) in
      if match previous with Some p => isKindRow TurnRow p | None => false end then (0%nat, tx)
      else
        let next := mergedPending row entry previous in
        let '(written, tx) := writeOwnedRow (r_id next) next tx in
        if written then (1%nat, tx)
        else if mhas (r_id next) (tx_overlays tx) then (1%nat, controlsWrite (Upsert Update next) tx)
        else (0%nat, tx)
  end.

Definition persistPendingMutation (commitThrows durable : bool) (deletes : list jstr)
    (upserts : list ThreadDetailRow) :=
  runWriteTransaction commitThrows
    (fun tx =>
       let '(n, tx) := total ((deletePending <$> deletes) ++ (upsertPending <$> upserts)) tx in
       (Some (durable && (0 <? n)%nat, tt), tx)).

End writes.
