(* ===== verification/CommitLaws.v ===== *)
(** * What a write of a thread guarantees

    Theorems about DetailCommit.v: a transaction is all or nothing and stages
    exactly what it changed, the indexes stay exact, a sealed turn keeps its
    facts, and a row the server owns is out of reach of pending mutations. *)
From S2P Require Import Prelude JsMap Json ThreadItems ThreadEvents RenderWindow Delivery ThreadHead ThreadRows.
From S2P Require Import DetailSource DetailCommit.
Import Source.

(** ** Sequences of mutations *)

Lemma rows_set key row s : rows (set key row s) = mset key row (rows s).
Proof. unfold set, detachPrevious. by destruct (get key s). Qed.

Lemma rows_delete key s : rows (delete key s) = mdel key (rows s).
Proof.
  unfold delete, get. destruct (mget key (rows s)) eqn:E; [done|].
  symmetry. apply mdel_absent. by apply mget_None.
Qed.

(** One goal for each step of a [total]. *)
Ltac each_step := repeat (apply Forall_cons_2); [..|apply Forall_nil_2].

Section within.
(** What [n] mutations may do from one state to another. *)
Variable R : nat -> Tx -> Tx -> Prop.
Hypothesis R_refl : forall tx, R 0 tx tx.
Hypothesis R_trans : forall n k a b c, R n a b -> R k b c -> R (n + k) a c.

Definition within (m : M nat) : Prop := forall tx, R (m tx).1 tx (m tx).2.

Lemma within_none : within (fun tx => (0%nat, tx)).
Proof. intros tx. apply R_refl. Qed.

Lemma within_when c m : within m -> within (when c m).
Proof. intros H tx. unfold when. destruct c; [apply H|apply R_refl]. Qed.

Lemma within_total ms : Forall within ms -> within (total ms).
Proof.
  induction 1 as [|m ms Hm _ IH]; intros tx; simpl; [apply R_refl|].
  specialize (Hm tx). destruct (m tx) as [n tx']. specialize (IH tx'). destruct (total ms tx') as [k tx''].
  by eapply R_trans.
Qed.

Lemma within_total_map {A} (f : A -> M nat) l : (forall x, x ∈ l -> within (f x)) -> within (total (f <$> l)).
Proof.
  intros H. apply within_total, Forall_forall. intros m (x & -> & Hx)%list_elem_of_fmap. by apply H.
Qed.

End within.

(** ** All or nothing *)

Definition applyChange (m : list (jstr * ThreadDetailRow)) (change : Change) : list (jstr * ThreadDetailRow) :=
  match change with
  | Upsert _ row => mset (r_id row) row m
  | Remove key => mdel key m
  end.

(** Rows under their own key. *)
Definition keyed (m : list (jstr * ThreadDetailRow)) : Prop := forall key row, mget key m = Some row -> r_id row = key.

(** The rows remembered are those of the start, the rows forgotten unchanged. *)
Record consistent (start : list (jstr * ThreadDetailRow)) (tx : Tx) : Prop :=
  { cs_wf : mwf (tx_previous tx);
    cs_recorded : forall key, match mget key (tx_previous tx) with
                              | Some previous => previous = mget key start
                              | None => mget key (rows (tx_source tx)) = mget key start
                              end;
    cs_keyed : keyed (rows (tx_source tx)) }.

Definition mirrors (start : list (jstr * ThreadDetailRow)) (tx : Tx) : Prop :=
  meq (foldl applyChange start (tx_staged tx)) (rows (tx_source tx)).

(** One mutation stages one change, and the staged changes are those of the rows. *)
Definition lawful (n : nat) (a b : Tx) : Prop :=
  forall start, consistent start a ->
    consistent start b /\ length (tx_staged b) = (length (tx_staged a) + n)%nat /\ (mirrors start a -> mirrors start b).

(** As much as holds when a change is staged for rows that are not resident. *)
Definition recorded (n : nat) (a b : Tx) : Prop := forall start, consistent start a -> consistent start b.

Lemma lawful_refl tx : lawful 0 tx tx.
Proof. intros start H. split_and!; [done|lia|done]. Qed.

Lemma lawful_trans n k a b c : lawful n a b -> lawful k b c -> lawful (n + k) a c.
Proof.
  intros H1 H2 start H. destruct (H1 start H) as (Hb & L1 & M1), (H2 start Hb) as (Hc & L2 & M2).
  split_and!; [done|lia|auto].
Qed.

Lemma recorded_refl tx : recorded 0 tx tx.
Proof. by intros start. Qed.

Lemma recorded_trans n k a b c : recorded n a b -> recorded k b c -> recorded (n + k) a c.
Proof. intros H1 H2 start H. auto. Qed.

#[export] Hint Resolve lawful_refl lawful_trans recorded_refl recorded_trans : codewide.

Lemma lawful_recorded n a b : lawful n a b -> recorded n a b.
Proof. intros H start Hc. by apply (H start). Qed.

Lemma controlsWrite_recorded start change tx :
  consistent start tx ->
  mwf (tx_previous (controlsWrite change tx))
  /\ forall key, match mget key (tx_previous (controlsWrite change tx)) with
                 | Some previous => previous = mget key start
                 | None => key <> changeKey change /\ mget key (rows (tx_source tx)) = mget key start
                 end.
Proof.
  intros [H1 H2 H3]. simpl. unfold mhas. case_bool_decide as Hhas.
  - split; [done|]. intros key. specialize (H2 key). destruct (mget key (tx_previous tx)) eqn:E; [done|].
    split; [|done]. intros ->. by destruct Hhas as [? ?]; congruence.
  - split; [by apply mset_wf|]. intros key. rewrite mget_mset. case_bool_decide as Ek.
    + subst. specialize (H2 (changeKey change)).
      destruct (mget (changeKey change) (tx_previous tx)) eqn:E; [by destruct Hhas; eauto|done].
    + specialize (H2 key). destruct (mget key (tx_previous tx)); [done|]. by split.
Qed.

(** A change of the rows at one key, staged as such. *)
Lemma lawful_change change f tx :
  (forall s, rows (f s) = applyChange (rows s) change) ->
  lawful 1 tx (onSource f (controlsWrite change tx)).
Proof.
  intros Hf start Hc. destruct (controlsWrite_recorded start change tx Hc) as [Hw Hr].
  assert (Hget : forall key, key <> changeKey change ->
            mget key (rows (f (tx_source tx))) = mget key (rows (tx_source tx))).
  { intros key Hk. rewrite Hf. destruct change; simpl in *; [by rewrite mget_mset_ne|by rewrite mget_mdel_ne]. }
  split_and!.
  - split; [done| |].
    + intros key. specialize (Hr key). simpl in *. destruct (mget key _); [done|].
      destruct Hr as [Hk <-]. by apply Hget.
    + intros key row. simpl. rewrite Hf. destruct change; simpl; [rewrite mget_mset|rewrite mget_mdel];
        case_bool_decide; try done; [congruence|apply Hc..].
  - simpl. rewrite length_app. simpl. lia.
  - unfold mirrors. simpl. rewrite foldl_app. simpl. intros Hm. rewrite Hf.
    destruct change; simpl; by rewrite Hm.
Qed.

Lemma within_delete key : within lawful (counted (deleteRow key)).
Proof.
  intros tx. unfold counted, deleteRow. destruct (get key (tx_source tx)); simpl; [|apply lawful_refl].
  apply (lawful_change (Remove key)). apply rows_delete.
Qed.

(** Overlays are not part of what is staged. *)
Lemma lawful_overlay n a key b : lawful n (dropOverlay key a) b -> lawful n a b.
Proof. intros H start [H1 H2 H3]. apply (H start). by split. Qed.

Lemma lawful_overlay_after n a key b : lawful n a b -> lawful n a (dropOverlay key b).
Proof. intros H start Hc. destruct (H start Hc) as ([H1 H2 H3] & ? & ?). split_and!; [by split|done..]. Qed.

Section laws.
Variables (sameObject : json -> json -> bool) (sameItems : list json -> list json -> bool).
Abbreviation writeRow := (DetailCommit.writeRow sameObject sameItems).
Abbreviation writeOwnedRow := (DetailCommit.writeOwnedRow sameObject sameItems).

Lemma within_writeRow key row : r_id row = key -> within lawful (counted (writeRow key row)).
Proof.
  intros <- tx. unfold counted, DetailCommit.writeRow.
  destruct (get (r_id row) (tx_source tx)) as [p|]; [destruct (sameThreadDetailRow _ _ p row)|]; simpl;
    [apply lawful_refl|apply (lawful_change (Upsert Update row)), rows_set|apply (lawful_change (Upsert Insert row)), rows_set].
Qed.

Lemma within_write key row : r_id row = key -> within lawful (counted (writeOwnedRow key row)).
Proof.
  intros Hk tx. unfold counted, DetailCommit.writeOwnedRow. destruct (isKindRow TurnRow row);
    [|exact (within_writeRow key row Hk tx)].
  eapply lawful_overlay. exact (within_writeRow key row Hk (dropOverlay key tx)).
Qed.

Lemma firstRow_some p l row : firstRow p l = Some row -> p row = true /\ row ∈ l.
Proof.
  unfold firstRow. destruct (list_find _ l) as [[i x]|] eqn:E; simpl; [|done]. intros [= <-].
  apply list_find_Some in E as (Hl & Hp & _). split; [done|]. by eapply list_elem_of_lookup_2.
Qed.

Lemma residentOrFact_id start key facts tx row :
  consistent start tx -> residentOrFact key facts (tx_source tx) = Some row -> r_id row = key.
Proof.
  intros Hc. unfold residentOrFact. destruct (get key (tx_source tx)) as [r|] eqn:E.
  - intros [= <-]. by apply (cs_keyed _ _ Hc).
  - intros [H _]%firstRow_some. by apply bool_decide_eq_true in H.
Qed.

Lemma within_turn input : within lawful (commitThreadTurn sameObject sameItems input).
Proof.
  intros tx. unfold commitThreadTurn. set (plan := planTurn input (tx_source tx)).
  apply (within_total lawful lawful_refl lawful_trans). each_step.
  - intros tx'. unfold leavePrevious. destruct (tp_previousKey plan); [|apply lawful_refl].
    apply (within_when lawful lawful_refl), within_delete.
  - apply (within_when lawful lawful_refl), within_write. done.
  - intros tx'. unfold writeMetadata. destruct (if tp_kept plan then None else _); [|apply lawful_refl].
    by apply within_write.
  - intros tx'. unfold writeActivity. destruct (fullActivitySource plan); [|apply lawful_refl].
    by apply (within_when lawful lawful_refl), within_write.
  - intros tx'. unfold moveActivity. destruct (residentOrFact _ _ _) as [overlay|] eqn:E; [|apply lawful_refl].
    intros start Hc. pose proof (residentOrFact_id start _ _ _ _ Hc E) as Hid.
    apply (within_when lawful lawful_refl); [by apply within_write|done].
Qed.

Lemma within_changes input : within lawful (projectionChanges sameObject sameItems input).
Proof.
  apply (within_total lawful lawful_refl lawful_trans). each_step.
  - intros tx. unfold replaceExisting. destruct (pj_replaceExisting input); [|apply lawful_refl].
    apply (within_total_map lawful lawful_refl lawful_trans). intros row _. apply within_delete.
  - intros tx. unfold writeThreadMeta. destruct (pj_threadMeta input) as [meta|]; [by apply within_write|].
    destruct (pj_historyCursor input) as [cursor|]; [|apply lawful_refl].
    destruct (get _ (tx_source tx)) as [meta|] eqn:E; [|apply lawful_refl].
    intros start Hc. pose proof (cs_keyed _ _ Hc _ _ E) as Hid.
    apply (within_when lawful lawful_refl); [by apply within_write|done].
  - apply (within_total_map lawful lawful_refl lawful_trans). intros row _. by apply within_write.
  - intros tx. unfold pruneMissingMutable. destruct (pj_pruneMissingMutable input); [|apply lawful_refl].
    apply (within_total_map lawful lawful_refl lawful_trans). intros row _ tx'. unfold pruneRow.
    destruct (missingTurn input row); [|apply lawful_refl].
    apply (within_total lawful lawful_refl lawful_trans). each_step; apply within_delete.
Qed.

Lemma lawful_commitTurns input turns tx :
  match commitTurns sameObject sameItems input turns tx with
  | (Some n, tx') => lawful n tx tx'
  | (None, tx') => recorded 0 tx tx' /\ exists turn, turn ∈ turns /\ mget (turnId turn) (pj_ordinals input) = None
  end.
Proof.
  revert tx. induction turns as [|turn turns IH]; intros tx; simpl; [apply lawful_refl|].
  destruct (mget (turnId turn) (pj_ordinals input)) as [o|] eqn:E;
    [|split; [apply recorded_refl|exists turn; split; [by left|done]]].
  pose proof (within_turn (turnInput input turn o) tx) as H1.
  destruct (commitThreadTurn _ _ _ tx) as [n tx1]. specialize (IH tx1).
  destruct (commitTurns _ _ input turns tx1) as [[k|] tx2]; simpl in *; [by eapply lawful_trans|].
  destruct IH as (H2 & t & Ht & Hn). split; [|exists t; split; [by right|done]].
  apply lawful_recorded in H1. intros start Hc. auto.
Qed.

Lemma commitTurns_none input turns tx :
  (commitTurns sameObject sameItems input turns tx).1 = None
  <-> exists turn, turn ∈ turns /\ mget (turnId turn) (pj_ordinals input) = None.
Proof.
  split.
  - pose proof (lawful_commitTurns input turns tx) as H.
    destruct (commitTurns _ _ input turns tx) as [[n|] tx']; [done|]. intros _. by destruct H.
  - revert tx. induction turns as [|t turns IH]; intros tx (turn & Hin & Hn); [by apply elem_of_nil in Hin|].
    simpl. destruct (mget (turnId t) _) as [o|] eqn:E; [|done].
    apply elem_of_cons in Hin as [->|Hin]; [congruence|].
    destruct (commitThreadTurn _ _ _ tx) as [n tx1]. specialize (IH tx1 (ex_intro _ turn (conj Hin Hn))).
    destruct (commitTurns _ _ input turns tx1) as [r tx2]. simpl in *. by rewrite IH.
Qed.

(** Rolling back puts every remembered row back. *)
Lemma restore_rows prev s key :
  mwf prev ->
  mget key (rows (foldl restoreRow s prev)) = match mget key prev with Some o => o | None => mget key (rows s) end.
Proof.
  revert s. induction prev as [|[k o] prev IH]; intros s; [done|]. unfold mwf. rewrite mkeys_cons.
  intros [Hni Hnd]%NoDup_cons. simpl. rewrite IH by done. case_bool_decide as Ek.
  - subst k. rewrite (proj2 (mget_None key prev) Hni). unfold restoreRow. simpl.
    destruct o; [rewrite rows_set; apply mget_mset_eq|rewrite rows_delete; apply mget_mdel_eq].
  - destruct (mget key prev); [done|]. unfold restoreRow. simpl.
    destruct o; [rewrite rows_set; by apply mget_mset_ne|rewrite rows_delete; by apply mget_mdel_ne].
Qed.

Lemma rollback_rows start tx : consistent start tx -> meq (rows (rollback tx)) start.
Proof.
  intros [H1 H2 H3] key. unfold rollback. rewrite restore_rows by done.
  specialize (H2 key). by destruct (mget key (tx_previous tx)).
Qed.

Lemma consistent_begin s overlays : keyed (rows s) -> consistent (rows s) (beginTx s overlays).
Proof. intros Hk. split; [constructor|done|done]. Qed.

(** C6. A projection of a thread is all or nothing.  When the staged changes cannot
    be committed, or a turn has no ordinal, every resident row and overlay is as
    before.  Otherwise the changes staged for the durable store are exactly those
    of the resident rows, the mutations reported are their number, and the commit
    is durable just when there are some. *)
Theorem commit_atomic commitThrows input s overlays :
  keyed (rows s) ->
  let r := commitThreadProjection sameObject sameItems commitThrows input s overlays in
  (tr_committed _ r = None <->
     commitThrows = true \/ exists turn, turn ∈ pj_turns input /\ mget (turnId turn) (pj_ordinals input) = None)
  /\ match tr_committed _ r with
     | None => tr_value _ r = None /\ tr_overlays _ r = overlays /\ meq (rows (tr_source _ r)) (rows s)
     | Some (durable, staged) =>
         tr_value _ r = Some (length staged)
         /\ durable = (0 <? length staged)%nat && pj_durable input
         /\ meq (foldl applyChange (rows s) staged) (rows (tr_source _ r))
     end.
Proof.
  intros Hk r. subst r. unfold commitThreadProjection, runWriteTransaction, projectThread.
  pose proof (within_changes input (beginTx s overlays)) as H1.
  destruct (projectionChanges _ _ input (beginTx s overlays)) as [n tx1]. simpl in H1.
  pose proof (lawful_commitTurns input (pj_turns input) tx1) as H2.
  pose proof (commitTurns_none input (pj_turns input) tx1) as H3.
  destruct (commitTurns _ _ input (pj_turns input) tx1) as [[k|] tx2]; simpl in *.
  - destruct (lawful_trans _ _ _ _ _ H1 H2 (rows s) (consistent_begin s overlays Hk)) as (Hc & Hlen & Hm).
    simpl in Hlen. specialize (Hm (fun key => eq_refl)).
    destruct commitThrows; simpl.
    + split; [split; [by left|done]|]. split_and!; [done..|]. by apply rollback_rows.
    + rewrite Hlen. split; [|done]. split; [done|]. intros [?|Hx]; [done|]. by apply H3 in Hx.
  - split; [split; [intros _; right; by apply H3|done]|]. split_and!; [done..|]. apply rollback_rows.
    apply H2, (lawful_recorded n _ _ H1), consistent_begin, Hk.
Qed.


(** ** The indexes stay exact *)

Lemma tracked_write key row tx :
  tracked (tx_source tx) -> wfRows (mset key row (rows (tx_source tx))) ->
  tracked (tx_source (counted (writeOwnedRow key row) tx).2).
Proof.
  intros Ht Hw. unfold counted, DetailCommit.writeOwnedRow, DetailCommit.writeRow.
  destruct (isKindRow TurnRow row); simpl;
    (destruct (get key (tx_source tx)) as [p|]; [destruct (sameThreadDetailRow _ _ p row)|]; simpl;
       [done|by apply tracked_set..]).
Qed.

Lemma tracked_remove key tx : tracked (tx_source tx) -> tracked (tx_source (counted (deleteRow key) tx).2).
Proof.
  intros Ht. unfold counted, deleteRow. destruct (get key (tx_source tx)); simpl; [by apply tracked_delete|done].
Qed.

Definition keepsIndex (n : nat) (a b : Tx) : Prop := tracked (tx_source a) -> tracked (tx_source b).

Lemma keepsIndex_refl tx : keepsIndex 0 tx tx.
Proof. by intros ?. Qed.
Lemma keepsIndex_trans n k a b c : keepsIndex n a b -> keepsIndex k b c -> keepsIndex (n + k) a c.
Proof. intros H1 H2 H. auto. Qed.

(** A row of no turn and no command only has to be under its key. *)
Lemma tracked_write_plain key row tx :
  r_id row = key -> wellKeyed row -> turnOf row = None -> pendingEntry row = None ->
  tracked (tx_source tx) -> tracked (tx_source (counted (writeOwnedRow key row) tx).2).
Proof.
  intros <- Hk Ht Hp Hs. apply tracked_write; [done|]. apply wf_write; [apply Hs|done..|congruence].
Qed.

Lemma suffix_activity row T :
  suffixOf row (js "activity" ++ NUL ++ T) -> r_kind row = ActivityRow /\ r_remoteTurnId row = Some T.
Proof.
  unfold suffixOf. destruct (r_kind row); [done|intros [? [?|?]]; done| | |intros [? ?]; done];
    destruct (r_remoteTurnId row); try done. intros [= ->]. done.
Qed.

Lemma suffixOf_place row suffix e o : suffixOf (withPlace e o row) suffix = suffixOf row suffix.
Proof. done. Qed.

Lemma wellKeyed_place row e o : wellKeyed row -> wellKeyed (withPlace e o row).
Proof. done. Qed.

Lemma turnStorageKey_suffix c t turn :
  exists suffix, turnStorageKey c t turn = threadRowPrefix c t ++ suffix
    /\ exists id, suffix = js "turn" ++ NUL ++ id \/ suffix = js "turnClient" ++ NUL ++ id.
Proof.
  unfold turnStorageKey, authoritativeTimelineRowId, pendingTimelineRowId, threadRowPrefix.
  destruct (list_find _ (turnItems turn)) as [[? user]|];
    [destruct (nonEmptyString (field "clientId" user)) as [id|]|].
  - exists (js "turnClient" ++ NUL ++ id). split; [by rewrite <- !app_assoc|]. exists id. by right.
  - exists (js "turn" ++ NUL ++ turnId turn). split; [by rewrite <- !app_assoc|]. exists (turnId turn). by left.
  - exists (js "turn" ++ NUL ++ turnId turn). split; [by rewrite <- !app_assoc|]. exists (turnId turn). by left.
Qed.

Lemma turnRow_wellKeyed c t turn o e proof :
  separable c -> separable t -> wellKeyed (turnRow c t turn o e proof).
Proof.
  intros Hc Ht. split_and!; [done..|]. destruct (turnStorageKey_suffix c t turn) as (suffix & E & Hs).
  exists suffix. by split.
Qed.

Lemma field_set_id k x v : k <> "id" -> field "id" (setField k x v) = field "id" v.
Proof. intros Hk. destruct v; try done. unfold field, setField, oget, oset. by rewrite mget_mset_ne. Qed.

Lemma turnId_set k x v : k <> "id" -> turnId (setField k x v) = turnId v.
Proof. intros Hk. unfold turnId, strField. by rewrite field_set_id. Qed.

Lemma copyField_id k x v : k <> "id" -> turnId (copyField k x v) = turnId v.
Proof.
  intros Hk. unfold copyField. destruct x; [by apply turnId_set|]. unfold turnId, strField. f_equal. f_equal.
  destruct v; try done. unfold field, delField, oget, odel. by rewrite mget_mdel_ne.
Qed.

Lemma normalize_turnId turn resident : turnId (normalizeConversationTurn turn resident) = turnId turn.
Proof.
  unfold normalizeConversationTurn. case_match; [done|]. destruct resident as [r|];
    [destruct (asArray (field "items" r))|]; rewrite ?copyField_id, ?turnId_set by done; done.
Qed.

Lemma compact_turnId turn : turnId (compactCompletedTurnForStorage turn) = turnId turn.
Proof.
  unfold compactCompletedTurnForStorage. case_match; [done|]. case_match; [done|].
  by rewrite !turnId_set by done.
Qed.

Lemma plan_turnId input s : turnId (tp_turn (planTurn input s)) = turnId (tc_turn input).
Proof.
  unfold planTurn. simpl. case_match; rewrite ?compact_turnId; apply normalize_turnId.
Qed.

(** Either the previous row is the content, and nothing is written for it, or the
    content is the row of the turn itself. *)
Lemma plan_cases input s :
  let plan := planTurn input s in
  (tp_kept plan = true /\ tp_previous plan = Some (tp_content plan) /\ shouldWriteContent input plan = false)
  \/ (tp_kept plan = false /\ tp_content plan = incomingRow input (tp_turn plan)).
Proof.
  intros plan. unfold shouldWriteContent.
  change (tp_kept plan) with (keepsPrevious input (tp_previous plan)).
  change (tp_content plan) with (contentRow input (tp_previous plan) (incomingRow input (tp_turn plan))).
  unfold keepsPrevious, contentRow. generalize (tp_previous plan) as previous, (tp_turn plan) as turn.
  intros [p|] turn; destruct (tc_authority input); try (by right). simpl.
  destruct (sealedTurn p) eqn:E; simpl; [|by right].
  destruct (Z.eqb_spec (r_historyEpoch p) (tc_historyEpoch input)) as [He|]; [left|by right].
  split_and!; [done..|]. apply andb_true_iff in E as [E _]. rewrite E. simpl. by rewrite Z.eqb_refl.
Qed.

Lemma previousKey_resident input s row :
  tracked s -> separable (tc_connectionId input) -> separable (tc_threadId input) ->
  inThread s (tc_connectionId input) (tc_threadId input) row -> turnOf row = Some (turnId (tc_turn input)) ->
  previousKey input s = Some (r_id row) /\ previousByTurnId input s = Some row.
Proof.
  intros Hs Hc Ht Hin HT. unfold previousByTurnId, previousKey.
  assert (turnRowKey (tc_connectionId input) (tc_threadId input) (turnId (tc_turn input)) s = Some (r_id row)) as ->
    by (apply turnRowKey_spec; eauto). simpl. destruct Hin as (Hst & _). by rewrite Hst.
Qed.

(** After the turn has left its previous key no other row is the turn's. *)
Lemma left_alone input tx :
  let plan := planTurn input (tx_source tx) in
  tracked (tx_source tx) -> separable (tc_connectionId input) -> separable (tc_threadId input) ->
  tp_kept plan = false ->
  forall key row, get key (tx_source (leavePrevious plan tx).2) = Some row ->
    turnOf row = Some (turnId (tc_turn input)) ->
    r_connectionId row = tc_connectionId input -> r_remoteThreadId row = tc_threadId input ->
    key = r_id (tp_content plan).
Proof.
  intros plan Hs Hc Ht Hk key row Hg HT Ec Et. unfold leavePrevious in Hg.
  change (tp_previousKey plan) with (previousKey input (tx_source tx)) in Hg.
  assert (Hres : forall row, get key (tx_source tx) = Some row -> turnOf row = Some (turnId (tc_turn input)) ->
    r_connectionId row = tc_connectionId input -> r_remoteThreadId row = tc_threadId input ->
    previousKey input (tx_source tx) = Some key).
  { intros row' Hg' HT' Ec' Et'. destruct (wf_keyed _ (tr_rows _ Hs) _ _ Hg') as [-> _].
    by eapply previousKey_resident; eauto. }
  destruct (previousKey input (tx_source tx)) as [key0|] eqn:E.
  - rewrite Hk, andb_true_r in Hg. unfold when in Hg. case_bool_decide as Ek; simpl in Hg.
    + subst key0. by injection (Hres row Hg HT Ec Et).
    + unfold counted, deleteRow in Hg. destruct (get key0 (tx_source tx)) as [r|] eqn:E0; simpl in Hg.
      * unfold get in Hg. rewrite rows_delete, mget_mdel in Hg. case_bool_decide; [done|].
        by injection (Hres row Hg HT Ec Et).
      * injection (Hres row Hg HT Ec Et) as ->. unfold get in *. congruence.
  - by specialize (Hres row Hg HT Ec Et).
Qed.

Lemma wellKeyed_meta c t T m o b e : separable c -> separable t -> wellKeyed (turnMetaRow c t T m o b e).
Proof. intros Hc Ht. split_and!; [done..|]. by eexists. Qed.

Lemma wellKeyed_activity c t T o items e : separable c -> separable t -> wellKeyed (activityRow c t T o items e).
Proof. intros Hc Ht. split_and!; [done..|]. by eexists. Qed.

(** What is at the key of a turn's activity is its activity. *)
Lemma activity_of c t T row :
  separable c -> separable t -> wellKeyed row -> r_id row = activityKey c t T -> r_kind row = ActivityRow.
Proof.
  intros Hc Ht (H1 & H2 & suffix & E & Hsuf) Hid. rewrite E in Hid. unfold activityKey in Hid.
  apply threadRowPrefix_inj in Hid as (_ & _ & ->); [|done..]. by apply suffix_activity in Hsuf as [? _].
Qed.

Definition factsKeyed (facts : list ThreadDetailRow) : Prop := Forall wellKeyed facts.

Lemma total_snd m ms tx : (total (m :: ms) tx).2 = (total ms (m tx).2).2.
Proof. simpl. destruct (m tx) as [n tx']. simpl. by destruct (total ms tx'). Qed.

Section turn.
Variable input : TurnCommit.
Hypotheses (Hc : separable (tc_connectionId input)) (Ht : separable (tc_threadId input))
  (Hf : factsKeyed (tc_facts input)).

Lemma keeps_leave plan : within keepsIndex (leavePrevious plan).
Proof.
  intros tx Hs. unfold leavePrevious. destruct (tp_previousKey plan); [|done].
  unfold when. destruct (_ && _); [by apply tracked_remove|done].
Qed.

Lemma keeps_content tx :
  let plan := planTurn input (tx_source tx) in
  tracked (tx_source tx) ->
  tracked (tx_source (writeContent sameObject sameItems input plan (leavePrevious plan tx).2).2).
Proof.
  intros plan Hs. pose proof (left_alone input tx Hs Hc Ht) as Halone. fold plan in Halone.
  pose proof (keeps_leave plan tx Hs) as Hs1. unfold writeContent, when.
  destruct (plan_cases input (tx_source tx)) as [(_ & _ & K)|[K Ec]]; fold plan in K; [by rewrite K|].
  fold plan in Ec. destruct (shouldWriteContent input plan); [|done]. apply tracked_write; [done|].
  rewrite Ec. apply wf_write; [apply Hs1|by apply turnRow_wellKeyed|done|].
  intros T key row' HT Hg HT' [S1 S2]. rewrite <- Ec. apply (Halone K key row'); [done| |done..].
  rewrite HT', <- HT. unfold turnOf, isKindRow. simpl. f_equal. apply plan_turnId.
Qed.

Lemma keeps_metadata plan : within keepsIndex (writeMetadata sameObject sameItems input plan).
Proof.
  intros tx Hs. unfold writeMetadata. destruct (if tp_kept plan then None else _); [|done].
  apply tracked_write_plain; [done|by apply wellKeyed_meta|done..].
Qed.

Lemma keeps_activity plan : within keepsIndex (writeActivity sameObject sameItems input plan).
Proof.
  intros tx Hs. unfold writeActivity. destruct (fullActivitySource plan); [|done].
  unfold when. destruct (_ && _); [|done]. apply tracked_write_plain; [done|by apply wellKeyed_activity|done..].
Qed.

Lemma keeps_move plan : within keepsIndex (moveActivity sameObject sameItems input plan).
Proof.
  intros tx Hs. unfold moveActivity. destruct (residentOrFact _ _ _) as [overlay|] eqn:E; [|done].
  unfold when. destruct (_ || _); [|done].
  assert (Hw : wellKeyed overlay /\ r_id overlay = overlayKey input plan).
  { unfold residentOrFact in E. destruct (get _ (tx_source tx)) as [r|] eqn:Eg.
    - injection E as <-. destruct (wf_keyed _ (tr_rows _ Hs) _ _ Eg) as [<- ?]. done.
    - apply firstRow_some in E as [Hid%bool_decide_eq_true Hin]. split; [|done].
      by apply (proj1 (Forall_forall _ _) Hf). }
  destruct Hw as [Hw Hid]. pose proof (activity_of _ _ _ _ Hc Ht Hw Hid) as Hkind.
  apply tracked_write_plain; [done|by apply wellKeyed_place| | |done];
    unfold turnOf, pendingEntry, isKindRow; simpl; by rewrite Hkind.
Qed.

Lemma keeps_turn : within keepsIndex (commitThreadTurn sameObject sameItems input).
Proof.
  intros tx Hs. unfold commitThreadTurn. rewrite !total_snd. cbn [total snd].
  by apply keeps_move, keeps_activity, keeps_metadata, keeps_content.
Qed.

(** C8. A sealed turn of the epoch keeps its facts: an authoritative commit of the
    turn leaves every row as it is, its content, its metadata and its place
    included, but for the activity laid over it. *)
Theorem sealed_turn_kept row tx key :
  tracked (tx_source tx) -> tc_authority input = Authoritative ->
  inThread (tx_source tx) (tc_connectionId input) (tc_threadId input) row ->
  turnOf row = Some (turnId (tc_turn input)) -> r_sealed row = true -> r_historyEpoch row = tc_historyEpoch input ->
  key <> activityKey (tc_connectionId input) (tc_threadId input) (turnId (tc_turn input)) ->
  get key (tx_source (commitThreadTurn sameObject sameItems input tx).2) = get key (tx_source tx).
Proof.
  intros Hs Ha Hin HT Hsealed He Hkey. unfold commitThreadTurn. set (plan := planTurn input (tx_source tx)).
  destruct (previousKey_resident input (tx_source tx) row Hs Hc Ht Hin HT) as [Ek Ep].
  assert (Hprev : tp_previous plan = Some row) by (unfold plan, planTurn; cbn [tp_previous]; by rewrite Ek, Ep).
  assert (Hk : tp_kept plan = true).
  { change (tp_kept plan) with (keepsPrevious input (tp_previous plan)). rewrite Hprev. unfold keepsPrevious.
    rewrite Ha. unfold sealedTurn. unfold turnOf in HT. destruct (isKindRow TurnRow row); [|done].
    by rewrite Hsealed, He, Z.eqb_refl. }
  assert (Hother : forall k row' tx', k <> key ->
    get key (tx_source (counted (writeOwnedRow k row') tx').2) = get key (tx_source tx')).
  { intros k row' tx' Hne. unfold counted, DetailCommit.writeOwnedRow, DetailCommit.writeRow.
    destruct (isKindRow TurnRow row'); simpl;
      (destruct (get k (tx_source tx')) as [p|]; [destruct (sameThreadDetailRow _ _ p row')|]; simpl;
         [done|unfold get; rewrite rows_set; apply mget_mset_ne; congruence..]). }
  assert (Hov : overlayKey input plan <> key).
  { unfold overlayKey. unfold plan. rewrite plan_turnId. congruence. }
  rewrite !total_snd. cbn [total snd]. unfold moveActivity.
  set (tx4 := (writeActivity _ _ input plan _).2).
  assert (H4 : get key (tx_source tx4) = get key (tx_source tx)).
  { subst tx4. unfold writeActivity at 1. set (tx3 := (writeMetadata _ _ input plan _).2).
    assert (H3 : get key (tx_source tx3) = get key (tx_source tx)).
    { subst tx3. unfold writeMetadata at 1. rewrite Hk. simpl.
      destruct (plan_cases input (tx_source tx)) as [(_ & _ & Hno)|[K _]]; [fold plan in Hno|fold plan in K; congruence].
      unfold writeContent. rewrite Hno. unfold when at 1, leavePrevious. cbn [snd].
      destruct (tp_previousKey plan); [|done]. unfold when. by rewrite Hk, andb_comm. }
    destruct (fullActivitySource plan); [|done]. unfold when. destruct (_ && _); [|done]. by rewrite Hother. }
  destruct (residentOrFact _ _ _); [|done]. unfold when. destruct (_ || _); [|done]. by rewrite Hother.
Qed.

End turn.

Section projection.
Variable input : Projection.
Hypotheses (Hc : separable (pj_connectionId input)) (Ht : separable (pj_threadId input))
  (Hf : factsKeyed (pj_facts input)).

(** The rows put before the turns: the thread row, and the rows moved, which are
    rows there already or of turns that have none. *)
Definition fits (m : list (jstr * ThreadDetailRow)) (row : ThreadDetailRow) : Prop :=
  forall T key row', turnOf row = Some T -> mget key m = Some row' -> turnOf row' = Some T ->
    sameThread row row' -> key = r_id row.

Definition movable (row : ThreadDetailRow) : Prop := wellKeyed row /\ pendingEntry row = None.

Record wfProjection (m : list (jstr * ThreadDetailRow)) : Prop :=
  { wp_meta : forall meta, pj_threadMeta input = Some meta -> wellKeyed meta /\ r_kind meta = ThreadRow;
    wp_moved : forall row, row ∈ pj_mutableRepositions input -> movable row /\ fits m row;
    wp_apart : forall row row' T, row ∈ pj_mutableRepositions input -> row' ∈ pj_mutableRepositions input ->
      turnOf row = Some T -> turnOf row' = Some T -> sameThread row row' -> r_id row = r_id row' }.

Definition keepsFit (n : nat) (a b : Tx) : Prop :=
  tracked (tx_source a) /\ wfProjection (rows (tx_source a)) -> tracked (tx_source b) /\ wfProjection (rows (tx_source b)).

Lemma keepsFit_refl tx : keepsFit 0 tx tx.
Proof. by intros ?. Qed.
Lemma keepsFit_trans n k a b c : keepsFit n a b -> keepsFit k b c -> keepsFit (n + k) a c.
Proof. intros H1 H2 H. auto. Qed.

Lemma fit_remove key : within keepsFit (counted (deleteRow key)).
Proof.
  intros tx [Hs [H1 H2 H3]]. split; [by apply tracked_remove|]. split; [done| |done].
  intros row Hrow. destruct (H2 row Hrow) as [Hm Hfit]. split; [done|]. intros T key' row' HT Hg.
  apply (Hfit T key' row' HT). revert Hg. unfold counted, deleteRow.
  destruct (get key (tx_source tx)); simpl; [|done]. rewrite rows_delete, mget_mdel. by case_bool_decide.
Qed.

Lemma write_rows key row tx k r :
  get k (tx_source (counted (writeOwnedRow key row) tx).2) = Some r ->
  get k (tx_source tx) = Some r \/ (k = key /\ r = row).
Proof.
  unfold counted, DetailCommit.writeOwnedRow, DetailCommit.writeRow.
  destruct (isKindRow TurnRow row); simpl;
    (destruct (get key (tx_source tx)) as [p|]; [destruct (sameThreadDetailRow _ _ p row)|]; simpl;
       [by left|unfold get; rewrite rows_set, mget_mset; case_bool_decide; [intros [= <-]; by right|by left]..]).
Qed.

Lemma fit_write row tx :
  tracked (tx_source (counted (writeOwnedRow (r_id row) row) tx).2) ->
  (turnOf row = None \/ row ∈ pj_mutableRepositions input) -> wfProjection (rows (tx_source tx)) ->
  wfProjection (rows (tx_source (counted (writeOwnedRow (r_id row) row) tx).2)).
Proof.
  intros Hs Hrow [H1 H2 H3]. split; [done| |done].
  intros rep Hrep. destruct (H2 rep Hrep) as [Hm Hfit]. split; [done|]. intros T key row' HT Hg HT' Hsame.
  apply write_rows in Hg as [Hg|[-> ->]]; [by apply (Hfit T key row')|].
  destruct Hrow as [Hn|Hin]; [congruence|]. symmetry. by eapply H3.
Qed.

Lemma keeps_changes : within keepsFit (projectionChanges sameObject sameItems input).
Proof.
  apply (within_total keepsFit keepsFit_refl keepsFit_trans). each_step.
  - intros tx. unfold replaceExisting. destruct (pj_replaceExisting input); [|apply keepsFit_refl].
    apply (within_total_map keepsFit keepsFit_refl keepsFit_trans). intros row _. apply fit_remove.
  - intros tx. unfold writeThreadMeta. destruct (pj_threadMeta input) as [meta|] eqn:E.
    + intros [Hs Hw]. destruct (wp_meta _ Hw meta E) as [Hm Hkind].
      assert (Hnone : turnOf meta = None /\ pendingEntry meta = None)
        by (unfold turnOf, pendingEntry, isKindRow; by rewrite Hkind).
      assert (Hs' : tracked (tx_source (counted (writeOwnedRow (r_id meta) meta) tx).2))
        by (apply tracked_write_plain; [done|done|apply Hnone|apply Hnone|done]).
      split; [done|]. apply fit_write; [done|left; apply Hnone|done].
    + destruct (pj_historyCursor input) as [cursor|]; [|apply keepsFit_refl].
      destruct (get _ (tx_source tx)) as [meta|] eqn:Eg; [|apply keepsFit_refl].
      unfold when. destruct (isKindRow ThreadRow meta) eqn:Ek; simpl; [|apply keepsFit_refl].
      destruct (negb _); [|apply keepsFit_refl]. intros [Hs Hw].
      destruct (wf_keyed _ (tr_rows _ Hs) _ _ Eg) as [Hid Hm]. apply bool_decide_eq_true in Ek.
      set (meta' := withCursor cursor meta) in *.
      assert (Hnone : turnOf meta' = None /\ pendingEntry meta' = None)
        by (unfold turnOf, pendingEntry, isKindRow; simpl; by rewrite Ek).
      assert (Hs' : tracked (tx_source (counted (writeOwnedRow (r_id meta') meta') tx).2))
        by (apply tracked_write_plain; [done|exact Hm|apply Hnone|apply Hnone|done]).
      rewrite Hid. split; [done|]. apply (fit_write meta'); [done|left; apply Hnone|done].
  - apply (within_total_map keepsFit keepsFit_refl keepsFit_trans). intros row Hrow tx [Hs Hw].
    destruct (wp_moved _ Hw row Hrow) as [[Hm Hp] Hfit].
    assert (Hs' : tracked (tx_source (counted (writeOwnedRow (r_id row) row) tx).2)).
    { apply tracked_write; [done|]. apply wf_write; [apply Hs|done..]. }
    split; [done|]. apply fit_write; [done|by right|done].
  - intros tx. unfold pruneMissingMutable. destruct (pj_pruneMissingMutable input); [|apply keepsFit_refl].
    apply (within_total_map keepsFit keepsFit_refl keepsFit_trans). intros row _ tx'. unfold pruneRow.
    destruct (missingTurn input row); [|apply keepsFit_refl].
    apply (within_total keepsFit keepsFit_refl keepsFit_trans). each_step; apply fit_remove.
Qed.

Lemma keeps_commitTurns turns tx :
  tracked (tx_source tx) -> tracked (tx_source (commitTurns sameObject sameItems input turns tx).2).
Proof.
  revert tx. induction turns as [|turn turns IH]; intros tx Hs; simpl; [done|].
  destruct (mget (turnId turn) (pj_ordinals input)) as [o|]; [|done].
  pose proof (keeps_turn (turnInput input turn o) Hc Ht Hf tx Hs) as H1.
  destruct (commitThreadTurn _ _ _ tx) as [n tx1]. specialize (IH tx1 H1).
  by destruct (commitTurns _ _ input turns tx1).
Qed.

End projection.

(** A projection that commits leaves every index of the resident rows exact,
    whatever key a turn had before and gets now. *)
Lemma commit_keeps_index commitThrows input s overlays :
  tracked s -> separable (pj_connectionId input) -> separable (pj_threadId input) ->
  factsKeyed (pj_facts input) -> wfProjection input (rows s) ->
  let r := commitThreadProjection sameObject sameItems commitThrows input s overlays in
  tr_committed _ r <> None -> tracked (tr_source _ r).
Proof.
  intros Hs Hc Ht Hf Hw r Hcommit. subst r. revert Hcommit.
  unfold commitThreadProjection, runWriteTransaction, projectThread.
  destruct (keeps_changes input (beginTx s overlays) (conj Hs Hw)) as [Hs1 _].
  destruct (projectionChanges _ _ input (beginTx s overlays)) as [n tx1]. simpl in Hs1.
  pose proof (keeps_commitTurns input Hc Ht Hf (pj_turns input) tx1 Hs1) as H2.
  destruct (commitTurns _ _ input (pj_turns input) tx1) as [[k|] tx2]; simpl in *; [|done].
  by destruct commitThrows.
Qed.

End laws.

(** ** Executions *)

Definition demo_same (a b : json) : bool := bool_decide (a = b).
Definition demo_same_items (a b : list json) : bool := bool_decide (a = b).
Definition demo_c : jstr := js "c".
Definition demo_t : jstr := js "t".

Definition demo_facts : ThreadFacts :=
  {| tf_historyCursor := Some None; tf_historyHadTurns := Some true; tf_min := Some (Some 0);
     tf_max := Some (Some 0); tf_projectionCursor := Some 1; tf_sourceWitness := None; tf_usage := None;
     tf_outcome := None |}.
Definition demo_thread : ThreadDetailRow :=
  threadRow demo_c (JObj [("id", JStr demo_t)]) None 0 0 demo_facts.

(** A turn before and after its message has the id of the command that sent it. *)
Definition demo_turn (status : string) (message : list (string * json)) : json :=
  JObj [("id", JStr (js "T")); ("status", JStr (js status)); ("itemsView", JStr (js "full"));
        ("items", JArr [JObj (("type", JStr (js "userMessage")) :: message)])].
Definition demo_anonymous (status : string) : json := demo_turn status [].
Definition demo_named (status : string) : json := demo_turn status [("clientId", JStr (js "k"))].

Definition demo_stored (proof : Authority) (turn : json) : ThreadDetailSource :=
  setRows [demo_thread; turnRow demo_c demo_t turn 0 0 proof] emptySource.
Definition demo_source (proof : Authority) (status : string) : ThreadDetailSource :=
  demo_stored proof (demo_anonymous status).

Definition demo_projection (authority : Authority) (turn : json) : Projection :=
  {| pj_authority := authority; pj_connectionId := demo_c; pj_durable := true; pj_facts := [];
     pj_historyCursor := None; pj_historyEpoch := 0; pj_mutableRepositions := [];
     pj_ordinals := [(js "T", 0)]; pj_pruneMissingMutable := false; pj_replaceExisting := false;
     pj_threadId := demo_t; pj_threadMeta := None; pj_turns := [turn] |}.

Definition demo_commit (commitThrows : bool) (authority : Authority) (turn : json) (s : ThreadDetailSource) :=
  commitThreadProjection demo_same demo_same_items commitThrows (demo_projection authority turn) s [].

(** When the commit of a turn that got a new key is rolled back, its old row is
    back, but no index finds it: putting the old row back files the turn anew, and
    removing the new row unfiles it without looking whose entry it is. *)
Lemma rollback_loses_turn :
  let before := demo_source Live "inProgress" in
  let after := tr_source _ (demo_commit true Live (demo_named "inProgress") before) in
  turnRowKey demo_c demo_t (js "T") before <> None
  /\ meq (rows after) (rows before)
  /\ turnRowKey demo_c demo_t (js "T") after = None
  /\ liveRows demo_c demo_t [] after = [demo_thread].
Proof.
  cbv zeta. split_and!; [by vm_compute| |vm_compute; reflexivity|vm_compute; reflexivity].
  assert (E : rows (tr_source _ (demo_commit true Live (demo_named "inProgress") (demo_source Live "inProgress")))
              = rows (demo_source Live "inProgress")) by (vm_compute; reflexivity).
  intros key. by rewrite E.
Qed.

(** A live batch that gives the message of a sealed turn its client id removes the
    stored turn: the row under the old key is deleted, and the row under the new
    key is not written because the old one was sealed. *)
Lemma live_rekey_drops_sealed :
  let before := demo_source Authoritative "completed" in
  let r := demo_commit false Live (demo_named "completed") before in
  tr_value _ r = Some 1%nat
  /\ (exists row, get (turnStorageKey demo_c demo_t (demo_anonymous "completed")) before = Some row /\ r_sealed row = true)
  /\ rowsForThread demo_c demo_t (tr_source _ r) = [demo_thread].
Proof.
  cbv zeta. split_and!; [vm_compute; reflexivity|eexists; vm_compute; split; reflexivity|vm_compute; reflexivity].
Qed.

(** A thread row that differs only in the checkpoints of its source is not written. *)
Definition demo_checkpoint : ThreadDetailRow :=
  threadRow demo_c (JObj [("id", JStr demo_t)]) None 0 0
    {| tf_historyCursor := Some None; tf_historyHadTurns := Some true; tf_min := Some (Some 0);
       tf_max := Some (Some 0); tf_projectionCursor := Some 2; tf_sourceWitness := Some (js "w"); tf_usage := None;
       tf_outcome := None |}.

Lemma checkpoint_not_stored :
  let tx := beginTx (demo_source Live "inProgress") [] in
  (writeRow demo_same demo_same_items (r_id demo_checkpoint) demo_checkpoint tx) = (false, tx)
  /\ r_historySourceWitness demo_checkpoint = Some (js "w")
  /\ (get (r_id demo_checkpoint) (tx_source tx) ≫= r_historySourceWitness) = None.
Proof. by vm_compute. Qed.

(** ** Witnesses *)

Lemma demo_separable : separable demo_c /\ separable demo_t.
Proof. split; apply (bool_decide_unpack _); vm_compute; exact I. Qed.

Lemma demo_tracked proof turn : tracked (demo_stored proof turn).
Proof.
  destruct demo_separable as [Hc Ht]. apply tracked_setRows; [apply tracked_empty|].
  assert (H1 : wfRows (mset (r_id demo_thread) demo_thread [])).
  { apply wf_write; [apply tracked_empty|split_and!; [exact Hc|exact Ht|by eexists]|done|]. intros T key row HT. discriminate HT. }
  split; [exact H1|]. split; [|done]. rewrite rows_set.
  apply wf_write; [exact H1|by apply turnRow_wellKeyed|done|].
  intros T key row _ Hg HT _. rewrite mget_mset in Hg. case_bool_decide; [|done]. injection Hg as <-. discriminate HT.
Qed.

Lemma demo_keyed proof turn : keyed (rows (demo_stored proof turn)).
Proof. intros key row Hg. symmetry. by apply (wf_keyed _ (tr_rows _ (demo_tracked proof turn))). Qed.

Lemma commit_atomic_witness :
  let s := demo_source Live "inProgress" in
  keyed (rows s)
  /\ meq (rows (tr_source _ (demo_commit true Live (demo_named "inProgress") s))) (rows s)
  /\ tr_value _ (demo_commit false Live (demo_named "inProgress") s) = Some 2%nat.
Proof.
  cbv zeta. pose proof (demo_keyed Live (demo_anonymous "inProgress")) as Hk.
  split; [exact Hk|]. split; [|vm_compute; reflexivity].
  destruct (commit_atomic demo_same demo_same_items true (demo_projection Live (demo_named "inProgress"))
              (demo_source Live "inProgress") [] Hk) as [Hfail Hrows].
  unfold demo_commit. destruct (tr_committed _ _) eqn:E; [|apply Hrows]. destruct Hfail as [_ Hfail].
  discriminate Hfail. by left.
Defined.

Lemma demo_wfProjection authority turn m : wfProjection (demo_projection authority turn) m.
Proof. split; [done|by intros row ?%elem_of_nil|by intros row row' T ?%elem_of_nil]. Qed.

Lemma sealed_turn_kept_witness :
  let s := demo_source Authoritative "completed" in
  let input := turnInput (demo_projection Authoritative (demo_named "completed")) (demo_named "completed") 3 in
  get (turnStorageKey demo_c demo_t (demo_anonymous "completed"))
    (tx_source (commitThreadTurn demo_same demo_same_items input (beginTx s [])).2)
  = Some (turnRow demo_c demo_t (demo_anonymous "completed") 0 0 Authoritative).
Proof.
  cbv zeta. destruct demo_separable as [Hc Ht].
  rewrite (sealed_turn_kept demo_same demo_same_items
    (turnInput (demo_projection Authoritative (demo_named "completed")) (demo_named "completed") 3) Hc Ht
    (turnRow demo_c demo_t (demo_anonymous "completed") 0 0 Authoritative)
    (beginTx (demo_source Authoritative "completed") []) (turnStorageKey demo_c demo_t (demo_anonymous "completed")));
    [vm_compute; reflexivity|apply demo_tracked|reflexivity| |reflexivity..|by vm_compute].
  split_and!; [vm_compute; reflexivity|reflexivity..].
Defined.
