(* ===== verification/PendingLaws.v ===== *)
(** * What pending mutations cannot do

    Theorems about persistPendingMutation of DetailCommit.v: rows of turns belong
    to the server, and a confirmed prompt stays until its message is shown. *)
From S2P Require Import Prelude JsMap Json ThreadItems ThreadEvents RenderWindow Delivery ThreadHead ThreadRows.
From S2P Require Import DetailSource DetailCommit CommitLaws.
Import Source.

Section pending.
Variables (sameObject : json -> json -> bool) (sameItems : list json -> list json -> bool).
Abbreviation writeOwnedRow := (DetailCommit.writeOwnedRow sameObject sameItems).

(** Rows under the keys of their kinds, and turns found at turn rows. *)
Record inOrder (s : ThreadDetailSource) : Prop :=
  { io_keyed : forall key row, get key s = Some row -> key = r_id row /\ wellKeyed row;
    io_found : forall c t T key, turnRowKey c t T s = Some key ->
      exists row, get key s = Some row /\ isKindRow TurnRow row = true }.

(** A confirmed prompt whose message no turn shows. *)
Definition unshown (key : jstr) (entry : PendingTimelineEntry) (s : ThreadDetailSource) : Prop :=
  exists row, get key s = Some row /\ pendingEntry row = Some entry /\ is_Some (confirmation entry)
              /\ stillUnshown row s = true.

Record untouched (a b : ThreadDetailSource) : Prop :=
  { un_order : inOrder b;
    un_turns : forall key row, isKindRow TurnRow row = true -> get key a = Some row <-> get key b = Some row;
    un_keys : turnRowKeysByRemoteId b = turnRowKeysByRemoteId a;
    un_confirmed : forall key entry, unshown key entry a -> unshown key entry b }.

Definition spares (n : nat) (a b : Tx) : Prop :=
  inOrder (tx_source a) -> untouched (tx_source a) (tx_source b).

Lemma untouched_refl s : inOrder s -> untouched s s.
Proof. by split. Qed.

Lemma untouched_trans a b c : untouched a b -> untouched b c -> untouched a c.
Proof.
  intros [O1 T1 K1 C1] [O2 T2 K2 C2]. split; [done| |congruence|auto].
  intros key row Hr. rewrite T1 by done. by apply T2.
Qed.

Lemma spares_refl tx : spares 0 tx tx.
Proof. intros H. by apply untouched_refl. Qed.

Lemma spares_trans n k a b c : spares n a b -> spares k b c -> spares (n + k) a c.
Proof.
  intros H1 H2 H. specialize (H1 H). eapply untouched_trans; [exact H1|]. apply H2, (un_order _ _ H1).
Qed.

Lemma canonical_same a b c t T :
  inOrder a -> (forall key row, isKindRow TurnRow row = true -> get key a = Some row <-> get key b = Some row) ->
  turnRowKeysByRemoteId b = turnRowKeysByRemoteId a ->
  (key ← turnRowKey c t T b; row ← get key b; r_turn row) = (key ← turnRowKey c t T a; row ← get key a; r_turn row).
Proof.
  intros Ha HT HK. unfold turnRowKey. rewrite HK. fold (turnRowKey c t T a).
  destruct (turnRowKey c t T a) as [key|] eqn:E; simpl; [|done].
  destruct (io_found a Ha c t T key E) as (row & Hg & Hk). rewrite Hg. by rewrite (proj1 (HT key row Hk) Hg).
Qed.

Lemma stillUnshown_same a b row row' :
  inOrder a -> (forall key row, isKindRow TurnRow row = true -> get key a = Some row <-> get key b = Some row) ->
  turnRowKeysByRemoteId b = turnRowKeysByRemoteId a ->
  sameThread row row' -> r_pending row = r_pending row' -> stillUnshown row' b = stillUnshown row a.
Proof.
  intros Ha HT HK [Ec Et] Ep. unfold stillUnshown. rewrite <- Ep.
  destruct (r_pending row ≫= confirmation) as [receipt|]; [|done]. rewrite <- Ec, <- Et.
  pose proof (canonical_same a b (r_connectionId row) (r_remoteThreadId row) (rc_turnId receipt) Ha HT HK) as E.
  by rewrite E.
Qed.

(** The rows at all keys but one of no turn are as before, and the turn index too. *)
Lemma untouched_at a b key :
  inOrder a -> inOrder b ->
  (forall k, k <> key -> get k b = get k a) ->
  (forall row, get key a = Some row -> isKindRow TurnRow row = false) ->
  (forall row, get key b = Some row -> isKindRow TurnRow row = false) ->
  turnRowKeysByRemoteId b = turnRowKeysByRemoteId a ->
  (forall row entry, get key a = Some row -> pendingEntry row = Some entry -> stillUnshown row a = true ->
     is_Some (confirmation entry) ->
     exists row', get key b = Some row' /\ pendingEntry row' = Some entry /\ sameThread row row') ->
  untouched a b.
Proof.
  intros Ha Hb Hother Hka Hkb HK Hpend.
  assert (HT : forall k row, isKindRow TurnRow row = true -> get k a = Some row <-> get k b = Some row).
  { intros k row Hr. destruct (decide (k = key)) as [->|Hne]; [|by rewrite Hother].
    split; intros Hg; [rewrite (Hka row Hg) in Hr|rewrite (Hkb row Hg) in Hr]; done. }
  split; [done|done|done|].
  intros k entry (row & Hg & He & Hconf & Hun).
  assert (Hp : forall r, pendingEntry r = Some entry -> r_pending r = Some entry).
  { intros r. unfold pendingEntry. by destruct (isKindRow PendingKind r). }
  destruct (decide (k = key)) as [->|Hne].
  - destruct (Hpend row entry Hg He Hun Hconf) as (row' & Hg' & He' & Hsame). exists row'. split_and!; [done..|].
    rewrite <- Hun. apply stillUnshown_same; [done..|]. by rewrite (Hp row), (Hp row').
  - exists row. rewrite Hother by done. split_and!; [done..|]. rewrite <- Hun. by apply stillUnshown_same.
Qed.

Lemma pending_not_turn row : isKindRow PendingKind row = true -> isKindRow TurnRow row = false.
Proof. unfold isKindRow. intros H%bool_decide_eq_true. apply bool_decide_eq_false. by rewrite H. Qed.

Lemma turnOf_none row : isKindRow TurnRow row = false -> turnOf row = None.
Proof. unfold turnOf. by intros ->. Qed.

Lemma inOrder_set key row s :
  inOrder s -> r_id row = key -> wellKeyed row -> isKindRow TurnRow row = false ->
  (forall previous, get key s = Some previous -> isKindRow TurnRow previous = false) ->
  turnRowKeysByRemoteId (set key row s) = turnRowKeysByRemoteId s /\ inOrder (set key row s).
Proof.
  intros Hs <- Hw Hrow Hprev.
  assert (HK : turnRowKeysByRemoteId (set (r_id row) row s) = turnRowKeysByRemoteId s).
  { unfold set, detachPrevious. simpl. rewrite (turnOf_none row Hrow).
    destruct (get (r_id row) s) as [p|] eqn:E; [|done]. simpl. by rewrite (turnOf_none p (Hprev p eq_refl)). }
  split; [done|]. unfold get. split.
  - intros k r. unfold get. rewrite rows_set, mget_mset. case_bool_decide; [intros [= <-]; by subst|apply Hs].
  - intros c t T k Hk. unfold turnRowKey in Hk. rewrite HK in Hk.
    destruct (io_found s Hs c t T k Hk) as (r & Hg & Hr). exists r. split; [|done].
    unfold get. rewrite rows_set, mget_mset. case_bool_decide; [|done]. subst k. by rewrite (Hprev r Hg) in Hr.
Qed.

Lemma inOrder_delete key s :
  inOrder s -> (forall previous, get key s = Some previous -> isKindRow TurnRow previous = false) ->
  turnRowKeysByRemoteId (delete key s) = turnRowKeysByRemoteId s /\ inOrder (delete key s).
Proof.
  intros Hs Hprev.
  assert (HK : turnRowKeysByRemoteId (delete key s) = turnRowKeysByRemoteId s).
  { unfold delete. destruct (get key s) as [p|] eqn:E; [|done]. simpl. by rewrite (turnOf_none p (Hprev p eq_refl)). }
  split; [done|]. split.
  - intros k r. unfold get. rewrite rows_delete, mget_mdel. case_bool_decide; [done|apply Hs].
  - intros c t T k Hk. unfold turnRowKey in Hk. rewrite HK in Hk.
    destruct (io_found s Hs c t T k Hk) as (r & Hg & Hr). exists r. split; [|done].
    unfold get. rewrite rows_delete, mget_mdel. case_bool_decide; [|done]. subst k. by rewrite (Hprev r Hg) in Hr.
Qed.

Lemma spares_source n a b : tx_source b = tx_source a -> spares n a b.
Proof. intros E H. rewrite E. by apply untouched_refl. Qed.

Lemma spares_delete key : within spares (deletePending key).
Proof.
  intros tx. unfold deletePending. destruct (get key (tx_source tx)) as [previous|] eqn:E.
  - destruct (isKindRow TurnRow previous) eqn:K1; [by apply spares_source|].
    destruct (isKindRow PendingKind previous) eqn:K2; [|by destruct (mhas key _); apply spares_source].
    destruct (stillUnshown previous (tx_source tx)) eqn:U; [by apply spares_source|].
    unfold counted, deleteRow. rewrite E. cbn [fst snd]. intros Hs. cbn [tx_source dropOverlay onSource controlsWrite].
    destruct (inOrder_delete key (tx_source tx) Hs) as [HK Ho]; [intros p Hp; congruence|].
    assert (Hgone : get key (delete key (tx_source tx)) = None) by (unfold get; rewrite rows_delete; apply mget_mdel_eq).
    apply (untouched_at _ _ key); [done|done| | | |done|].
    + intros k Hk. unfold get. rewrite rows_delete. by apply mget_mdel_ne.
    + intros r Hr. congruence.
    + intros r Hr. congruence.
    + intros r e Hr He Hu _. congruence.
  - destruct (mhas key _); by apply spares_source.
Qed.

Lemma pendingEntry_with e row : isKindRow PendingKind row = true -> pendingEntry (withPendingEntry e row) = Some e.
Proof. unfold pendingEntry, isKindRow. intros H. simpl. by rewrite H. Qed.

Lemma mergedPending_spec row entry previous :
  isKindRow PendingKind row = true -> pendingEntry row = Some entry ->
  let next := mergedPending row entry previous in
  r_id next = r_id row /\ isKindRow PendingKind next = true /\ (wellKeyed row -> wellKeyed next) /\ sameThread row next
  /\ forall p e, previous = Some p -> pendingEntry p = Some e -> is_Some (confirmation e) -> pendingEntry next = Some e.
Proof.
  intros Hk He next. subst next. unfold mergedPending. destruct previous as [p|]; [|by split_and!].
  destruct (pendingEntry p) as [e|] eqn:E.
  - split_and!; [done..|]. intros p' e' [= <-] E' Hc. rewrite E in E'. injection E' as ->.
    rewrite pendingEntry_with by done. unfold mergePendingTimelineEntry. by destruct (confirmation e') eqn:C; [|destruct Hc].
  - split_and!; [done..|]. intros p' e' [= <-]. congruence.
Qed.

Lemma spares_write next key tx :
  r_id next = key -> wellKeyed next -> isKindRow PendingKind next = true ->
  (forall p, get key (tx_source tx) = Some p -> isKindRow TurnRow p = false /\ sameThread p next) ->
  (forall p e, get key (tx_source tx) = Some p -> pendingEntry p = Some e -> is_Some (confirmation e) ->
     pendingEntry next = Some e) ->
  spares 0 tx (writeOwnedRow key next tx).2.
Proof.
  intros Hid Hw Hk Hprev Hconf Hs. unfold DetailCommit.writeOwnedRow, DetailCommit.writeRow.
  pose proof (pending_not_turn next Hk) as Hnt. rewrite Hnt.
  assert (Hset : untouched (tx_source tx) (set key next (tx_source tx))).
  { destruct (inOrder_set key next (tx_source tx) Hs Hid Hw Hnt) as [HK Ho]; [intros p Hp; by apply Hprev|].
    assert (Hnow : get key (set key next (tx_source tx)) = Some next) by (unfold get; rewrite rows_set; apply mget_mset_eq).
    apply (untouched_at _ _ key); [done|done| | | |done|].
    - intros k Hne. unfold get. rewrite rows_set. by apply mget_mset_ne.
    - intros r Hr. by apply Hprev.
    - intros r Hr. congruence.
    - intros r e Hr He _ Hc. exists next. split_and!; [done|by eapply Hconf|by apply Hprev]. }
  destruct (get key (tx_source tx)) as [p|]; [destruct (sameThreadDetailRow _ _ p next)|]; simpl;
    [by apply untouched_refl|done..].
Qed.

Lemma wellKeyed_thread a b : wellKeyed a -> wellKeyed b -> r_id a = r_id b -> sameThread a b.
Proof.
  intros (A1 & A2 & x & Ea & _) (B1 & B2 & y & Eb & _) E. rewrite Ea, Eb in E.
  apply threadRowPrefix_inj in E as (? & ? & _); [by split|done..].
Qed.

Lemma spares_upsert row : wellKeyed row -> within spares (upsertPending sameObject sameItems row).
Proof.
  intros Hw tx. unfold upsertPending. destruct (pendingEntry row) as [entry|] eqn:He; [|apply spares_refl].
  assert (Hk : isKindRow PendingKind row = true) by (unfold pendingEntry in He; by destruct (isKindRow PendingKind row)).
  destruct (match get (r_id row) (tx_source tx) with Some p => isKindRow TurnRow p | None => false end) eqn:Hturn;
    [apply spares_refl|].
  set (next := mergedPending row entry (get (r_id row) (tx_source tx))).
  destruct (mergedPending_spec row entry (get (r_id row) (tx_source tx)) Hk He) as (Hid & Hkn & Hwn & Hthread & Hconf).
  fold next in Hid, Hkn, Hwn, Hthread, Hconf.
  assert (Hwrite : spares 0 tx (writeOwnedRow (r_id next) next tx).2).
  { intros Hs. apply spares_write; [done|auto|done| | |done].
    - intros p Hp. rewrite Hid in Hp. rewrite Hp in Hturn. split; [done|].
      destruct (io_keyed _ Hs _ _ Hp) as [Hpid Hpw]. apply wellKeyed_thread; [done|auto|]. congruence.
    - intros p e Hp. rewrite Hid in Hp. rewrite Hp in Hconf. by apply (Hconf p e). }
  destruct (writeOwnedRow (r_id next) next tx) as [written tx']. simpl in Hwrite.
  destruct written; [exact Hwrite|]. destruct (mhas (r_id next) (tx_overlays tx')); exact Hwrite.
Qed.

(** ** Rolling back a pending mutation *)

Lemma recorded_raw n change tx : recorded n tx (controlsWrite change tx).
Proof.
  intros start Hc. destruct (controlsWrite_recorded start change tx Hc) as [Hw Hr]. split; [done| |apply Hc].
  intros key. specialize (Hr key). destruct (mget key _); [done|]. apply Hr.
Qed.

Lemma recorded_overlay n key a b : recorded n a b -> recorded n a (dropOverlay key b).
Proof. intros H start Hc. destruct (H start Hc) as [H1 H2 H3]. by split. Qed.

Lemma recorded_delete key : within recorded (deletePending key).
Proof.
  intros tx. unfold deletePending.
  assert (Hraw : recorded 1 tx (dropOverlay key (controlsWrite (Remove key) tx))) by apply recorded_overlay, recorded_raw.
  assert (Hdrop : recorded 0 tx (dropOverlay key tx)) by apply recorded_overlay, recorded_refl.
  destruct (get key (tx_source tx)) as [previous|]; [|destruct (mhas key _); assumption].
  destruct (isKindRow TurnRow previous); [assumption|].
  destruct (isKindRow PendingKind previous); [|destruct (mhas key _); assumption].
  destruct (stillUnshown previous _); [apply recorded_refl|].
  pose proof (lawful_recorded _ _ _ (within_delete key tx)) as H.
  destruct (counted (deleteRow key) tx) as [n tx']. by apply recorded_overlay.
Qed.

Lemma recorded_upsert row : within recorded (upsertPending sameObject sameItems row).
Proof.
  intros tx. unfold upsertPending. destruct (pendingEntry row) as [entry|]; [|apply recorded_refl].
  destruct (match get _ _ with Some p => isKindRow TurnRow p | None => false end); [apply recorded_refl|].
  set (next := mergedPending row entry _).
  pose proof (lawful_recorded _ _ _ (within_write sameObject sameItems (r_id next) next eq_refl tx)) as H.
  unfold counted in H. destruct (writeOwnedRow (r_id next) next tx) as [written tx']. simpl in H.
  destruct written; [exact H|]. destruct (mhas _ _); [|exact H]. intros start Hc. exact (recorded_raw 0 _ tx' start (H start Hc)).
Qed.

(** C9. A pending mutation never writes or removes the row of a turn: once the
    server owns a row it stays as it is, and so does where its turn is found.  A
    prompt the server confirmed stays, with its confirmation, as long as the turn
    it became does not show its message. *)
Theorem server_owns_rows commitThrows durable deletes upserts s overlays :
  tracked s -> Forall wellKeyed upserts ->
  let r := persistPendingMutation sameObject sameItems commitThrows durable deletes upserts s overlays in
  (forall key row, isKindRow TurnRow row = true -> get key (tr_source _ r) = Some row <-> get key s = Some row)
  /\ (forall key row entry, get key s = Some row -> pendingEntry row = Some entry -> is_Some (confirmation entry) ->
        stillUnshown row s = true ->
        exists row', get key (tr_source _ r) = Some row' /\ pendingEntry row' = Some entry).
Proof.
  intros Hs Hup r.
  assert (Ho : inOrder s).
  { split; [apply Hs|]. intros c t T key Hkey. apply (tr_turn s Hs (threadScope c t, T) key) in Hkey as (row & Hr & Hf).
    apply rowIn_stored in Hr; [|done]. unfold fileTurn, turnOf in Hf. destruct (isKindRow TurnRow row) eqn:E; [|done].
    simpl in Hf. destruct (r_remoteTurnId row); [|done]. injection Hf as _ _ <-. by exists row. }
  assert (Hall : within spares (total ((deletePending <$> deletes) ++ (upsertPending sameObject sameItems <$> upserts)))).
  { apply (within_total spares spares_refl spares_trans). apply Forall_app. split.
    - apply Forall_fmap, Forall_forall. intros key _. apply spares_delete.
    - apply Forall_fmap. eapply Forall_impl; [exact Hup|]. intros row. apply spares_upsert. }
  assert (Hrec : within recorded (total ((deletePending <$> deletes) ++ (upsertPending sameObject sameItems <$> upserts)))).
  { apply (within_total recorded recorded_refl recorded_trans). apply Forall_app. split.
    - apply Forall_fmap, Forall_forall. intros key _. apply recorded_delete.
    - apply Forall_fmap, Forall_forall. intros row _. apply recorded_upsert. }
  assert (Hend : untouched s (tr_source _ r) \/ meq (rows (tr_source _ r)) (rows s)).
  { subst r. unfold persistPendingMutation, runWriteTransaction.
    specialize (Hall (beginTx s overlays) Ho). specialize (Hrec (beginTx s overlays) (rows s)).
    destruct (total _ (beginTx s overlays)) as [n tx]. destruct commitThrows; [right|by left].
    apply rollback_rows, Hrec, consistent_begin. intros key row Hg. by destruct (io_keyed _ Ho key row Hg). }
  destruct Hend as [[_ HT _ HC]|Hm].
  - split; [intros key row Hr; symmetry; by apply HT|]. intros key row entry Hg He Hc Hu.
    destruct (HC key entry) as (row' & ? & ? & _); [by exists row|]. by exists row'.
  - unfold get. split; [intros key row _; by rewrite (Hm key)|]. intros key row entry Hg He _ _.
    exists row. by rewrite (Hm key).
Qed.

End pending.

(** ** Executions *)

(** A prompt the user still edits over the key of a turn the server has. *)
Definition demo_late : ThreadDetailRow :=
  DetailCommit.pendingRow demo_c demo_t
    {| attachments := []; attempts := 0; commandId := js "k"; createdAt := 0; lastError := None;
       method := TurnStart; order := 0; presentation := AsDelivery; entry_text := js "hi"; updatedAt := 0;
       workspaceRequestId := None; confirmation := None; state := Queued |} 0.

Lemma server_owns_rows_witness :
  let s := demo_stored Live (demo_named "inProgress") in
  let r := persistPendingMutation demo_same demo_same_items false true [r_id demo_late] [demo_late] s [] in
  isKindRow TurnRow <$> get (r_id demo_late) s = Some true
  /\ get (r_id demo_late) (tr_source _ r) = get (r_id demo_late) s.
Proof.
  cbv zeta. split; [vm_compute; reflexivity|]. destruct demo_separable as [Hc Ht].
  assert (Hw : wellKeyed demo_late) by (split_and!; [exact Hc|exact Ht|by eexists; split; [|eexists]]).
  destruct (server_owns_rows demo_same demo_same_items false true [r_id demo_late] [demo_late]
              (demo_stored Live (demo_named "inProgress")) []
              (demo_tracked Live (demo_named "inProgress")) (Forall_cons_2 _ _ _ Hw (Forall_nil_2 _))) as [Hturn _].
  destruct (get (r_id demo_late) (demo_stored Live (demo_named "inProgress"))) as [row|] eqn:E;
    [apply Hturn; [|exact E]|]; vm_compute in E; [injection E as <-; reflexivity|discriminate E].
Defined.
