(* ===== verification/DetailCoverage.v ===== *)
(** * The part of a history that is known

    Models the pure functions of
    apps/android/src/data/thread-detail-database.native.ts over the rows of a
    window: which interval of ordinals is proven contiguous, when a window can be
    drawn from it, how a range grows and is trimmed; and resident-thread-window.ts
    and the limits of thread-pagination.ts.  An ordinal interval is a pair of
    bounds that may be missing ([None]) or known to be empty ([Some None]). *)
From S2P Require Import Prelude JsMap Json ThreadEvents RenderWindow Delivery ThreadHead ThreadRows DetailSource.

Definition THREAD_AUTHORITATIVE_TAIL_PAGE_SIZE : Z := 6.
Definition THREAD_HISTORY_PAGE_SIZE : Z := 5.
Definition THREAD_RESIDENT_TURN_LIMIT : Z := THREAD_HISTORY_PAGE_SIZE * 3.
Definition OPTIMISTIC_RECONCILIATION_STALL_MS : Z := 30000.

Definition threadResumePageLimit (cachedTurnCount : Z) : Z :=
  if THREAD_RESIDENT_TURN_LIMIT <=? cachedTurnCount then THREAD_AUTHORITATIVE_TAIL_PAGE_SIZE
  else THREAD_RESIDENT_TURN_LIMIT.

Definition threadHistoryContainsBeginning (atEarliestKnownTurn : bool) (olderCursor : option (option jstr)) : bool :=
  atEarliestKnownTurn && bool_decide (olderCursor = Some None).

(** ** Proven intervals *)

Record HistoryCoverage := { hc_max : option (option Z); hc_min : option (option Z) }.

Inductive PublishMode := ModeAuthoritative | ModeReset | ModeLive | ModeAppend | ModeTail.

#[export] Instance PublishMode_eq_dec : EqDecision PublishMode.
Proof. solve_decision. Defined.

Definition mergeHistoryFacts (facts resident : list ThreadDetailRow) : list ThreadDetailRow :=
  mvals (foldl (fun m row => mset (r_id row) row m) (mfrom ((fun row => (r_id row, row)) <$> facts)) resident).

Inductive PageDirection := Older | Newer.

Definition pageStep (direction : PageDirection) : Z := match direction with Older => -1 | Newer => 1 end.

Fixpoint contiguousFrom (expected step : Z) (ordered : list ThreadDetailRow) : list ThreadDetailRow :=
  match ordered with
  | [] => []
  | row :: ordered =>
      if r_ordinal row =? expected then row :: contiguousFrom (expected + step) step ordered else []
  end.

Definition contiguousHistoryPage (rows : list ThreadDetailRow) (boundary : Z) (direction : PageDirection)
    : list ThreadDetailRow :=
  let step := pageStep direction in
  contiguousFrom (boundary + step) step
    (sortBy (fun left right => step * (r_ordinal left - r_ordinal right) <=? 0) rows).

Definition metadataCoverage (metadata : option ThreadDetailRow) : HistoryCoverage :=
  match metadata with
  | Some m => if isKindRow ThreadRow m
              then {| hc_max := r_historyCoverageMaxOrdinal m; hc_min := r_historyCoverageMinOrdinal m |}
              else {| hc_max := None; hc_min := None |}
  | None => {| hc_max := None; hc_min := None |}
  end.

Definition turnOrdinalCoverage (turns : list json) (ordinals : list (jstr * Z)) : HistoryCoverage :=
  match omap (fun turn => mget (turnId turn) ordinals) turns with
  | [] => {| hc_max := Some None; hc_min := Some None |}
  | v :: values => {| hc_max := Some (Some (foldl Z.max v values)); hc_min := Some (Some (foldl Z.min v values)) |}
  end.

Definition mergeAdjacentCoverage (previous incoming : HistoryCoverage) : HistoryCoverage :=
  match hc_min incoming, hc_max incoming with
  | Some (Some imin), Some (Some imax) =>
      match hc_min previous, hc_max previous with
      | Some (Some pmin), Some (Some pmax) =>
          if (imin <=? pmax + 1) && (pmin - 1 <=? imax)
          then {| hc_max := Some (Some (Z.max pmax imax)); hc_min := Some (Some (Z.min pmin imin)) |}
          else incoming
      | _, _ => incoming
      end
  | _, _ => previous
  end.

(** [incoming.min === null || incoming.max === null]. *)
Definition provenEmpty (c : HistoryCoverage) : bool :=
  bool_decide (hc_min c = Some None) || bool_decide (hc_max c = Some None).

Definition projectAuthoritativeCoverage (previousMeta : option ThreadDetailRow)
    (existingRows : list ThreadDetailRow) (previousHistoryEpoch historyEpoch : Z) (turns : list json)
    (ordinals : list (jstr * Z)) (mode : PublishMode) (historyHadTurns : option bool) : HistoryCoverage :=
  let previous := metadataCoverage previousMeta in
  let incoming := turnOrdinalCoverage turns ordinals in
  match mode with
  | ModeLive => previous
  | ModeReset | ModeTail => incoming
  | ModeAuthoritative | ModeAppend =>
      if provenEmpty incoming then
        if bool_decide (mode = ModeAuthoritative) && bool_decide (historyHadTurns = Some false)
        then {| hc_max := Some None; hc_min := Some None |} else previous
      else
        let hasResidentHistory :=
          existsb (fun row => isKindRow TurnRow row && (r_historyEpoch row =? previousHistoryEpoch)) existingRows in
        if negb (historyEpoch =? previousHistoryEpoch) || negb hasResidentHistory then incoming
        else mergeAdjacentCoverage previous incoming
  end.

Definition extendAuthoritativeCoverage (metadata : option ThreadDetailRow) (turns : list json)
    (ordinals : list (jstr * Z)) : HistoryCoverage :=
  mergeAdjacentCoverage (metadataCoverage metadata) (turnOrdinalCoverage turns ordinals).

(** ** Windows *)

Inductive CoverageReason :=
| CompleteWindow | MetadataMissing | MutableHead | TailUninitialized | CoverageUnproven | AnchorMissing
| HistoryEvicted.

#[export] Instance CoverageReason_eq_dec : EqDecision CoverageReason.
Proof. solve_decision. Defined.

(** [complete] is whether the reason is that. *)
Definition completeWindow (reason : CoverageReason) : bool := bool_decide (reason = CompleteWindow).

Record ThreadWindow :=
  { w_turnRows : list ThreadDetailRow; w_detailRows : list ThreadDetailRow; w_liveRows : list ThreadDetailRow;
    w_earliestSealedOrdinal : option Z; w_historyEpoch : Z; w_latestSealedOrdinal : option Z }.

Definition isThread (row : ThreadDetailRow) : bool := isKindRow ThreadRow row.
Definition isPending (row : ThreadDetailRow) : bool := isKindRow PendingKind row.
Definition isTurn (row : ThreadDetailRow) : bool := isKindRow TurnRow row.

Definition findRow (p : ThreadDetailRow -> bool) (rows : list ThreadDetailRow) : option ThreadDetailRow :=
  snd <$> list_find (fun row => p row = true) rows.

(** Every ordinal from the first to the last. *)
Definition holdsEvery (first last : Z) (ordinals : list Z) : bool :=
  forallb (fun ordinal => bool_decide (ordinal ∈ ordinals)) (seqZ first (last - first + 1)).

Definition keep (p : ThreadDetailRow -> bool) (rows : list ThreadDetailRow) : list ThreadDetailRow :=
  filter (fun row => p row = true) rows.

Definition windowTurns (turnRows liveRows : list ThreadDetailRow) : list ThreadDetailRow :=
  keep (fun row => isTurn row && bool_decide (is_Some (r_turn row))) (turnRows ++ liveRows).

Definition threadWindowCoverage (anchorTurnId : option jstr) (turnRows liveRows : list ThreadDetailRow)
    : CoverageReason :=
  match findRow isThread liveRows with
  | None => MetadataMissing
  | Some metadata =>
      if existsb (fun row => isTurn row && negb (r_sealed row)) liveRows then MutableHead
      else
        match r_historyCursor metadata, r_historyCoverageMinOrdinal metadata, r_historyCoverageMaxOrdinal metadata with
        | None, _, _ => TailUninitialized
        | Some cursor, Some coverageMin, Some coverageMax =>
            let turns := windowTurns turnRows liveRows in
            let anchor := id ← anchorTurnId; findRow (fun row => bool_decide (r_remoteTurnId row = Some id)) turns in
            if bool_decide (is_Some anchorTurnId) && bool_decide (anchor = None) then AnchorMissing
            else
              match coverageMin, coverageMax with
              | Some coverageMin, Some coverageMax =>
                  let expectedMax :=
                    match anchor with
                    | None => coverageMax
                    | Some row => Z.min coverageMax (r_ordinal row + THREAD_HISTORY_PAGE_SIZE)
                    end in
                  let expectedMin := Z.max coverageMin (expectedMax - THREAD_RESIDENT_TURN_LIMIT + 1) in
                  let residentOrdinals := r_ordinal <$> keep (fun row => isTurn row && r_sealed row) turnRows in
                  if holdsEvery expectedMin expectedMax residentOrdinals then CompleteWindow else HistoryEvicted
              | None, None =>
                  if bool_decide (turns = []) && bool_decide (r_historyHadTurns metadata = Some false)
                     && bool_decide (cursor = None)
                  then CompleteWindow else HistoryEvicted
              | _, _ => HistoryEvicted
              end
        | Some _, _, _ => CoverageUnproven
        end
  end.

Definition resolvedWindowHasTimelineRows (turnRows liveRows : list ThreadDetailRow) : bool :=
  negb (bool_decide (turnRows = [])) || existsb (fun row => isTurn row || isPending row) liveRows.

(** The anchor of a request: [Some None] for none asked, [None] for one not there. *)
Definition residentAnchor (anchorTurnId : option jstr) (currentRows : list ThreadDetailRow)
    : option (option ThreadDetailRow) :=
  match anchorTurnId with
  | None => Some None
  | Some id => Some <$> findRow (fun row => isTurn row && bool_decide (r_remoteTurnId row = Some id)) currentRows
  end.

Definition sealedPart (first last : Z) (sealed : list ThreadDetailRow) : list ThreadDetailRow :=
  keep (fun row => (first <=? r_ordinal row) && (r_ordinal row <=? last)) sealed.

Definition newestFirst (left right : ThreadDetailRow) : bool := r_ordinal right - r_ordinal left <=? 0.

(** The previous window's sealed bounds count when it shows the same history. *)
Definition residentThreadWindow (anchorTurnId : option jstr) (rows : list ThreadDetailRow)
    (previousEpoch : Z) (previousEarliest previousLatest : option Z) : option ThreadWindow :=
  meta ← findRow isThread rows;
  cursor ← r_historyCursor meta;
  minimum ← r_historyCoverageMinOrdinal meta;
  maximum ← r_historyCoverageMaxOrdinal meta;
  let currentRows := keep (fun row => isPending row || (r_historyEpoch row =? r_historyEpoch meta)) rows in
  let sealed := keep (fun row => isTurn row && r_sealed row) currentRows in
  anchor ← residentAnchor anchorTurnId currentRows;
  let sameHistory := previousEpoch =? r_historyEpoch meta in
  let window turnRows earliest latest :=
    let ordinals := r_ordinal <$> keep (fun row => bool_decide (is_Some (r_turn row))) turnRows in
    {| w_turnRows := sortBy newestFirst turnRows;
       w_detailRows := keep (fun row => r_sealed row && (isKindRow TurnMetaRow row || isKindRow ActivityRow row)
                                        && bool_decide (r_ordinal row ∈ ordinals)) currentRows;
       w_liveRows := keep (fun row => negb (r_sealed row)) currentRows;
       w_earliestSealedOrdinal := earliest; w_historyEpoch := r_historyEpoch meta;
       w_latestSealedOrdinal := latest |} in
  match minimum, maximum with
  | Some minimum, Some maximum =>
      let end_ :=
        match anchor with
        | Some row => if r_sealed row then Z.min maximum (r_ordinal row + THREAD_HISTORY_PAGE_SIZE) else maximum
        | None => maximum
        end in
      let start := Z.max minimum (end_ - THREAD_RESIDENT_TURN_LIMIT + 1) in
      let turnRows := sealedPart start end_ sealed in
      let ordinals := r_ordinal <$> keep (fun row => bool_decide (is_Some (r_turn row))) turnRows in
      if holdsEvery start end_ ordinals
      then Some (window turnRows
                   (Some (Z.min (default minimum (if sameHistory then previousEarliest else None)) minimum))
                   (Some (Z.max (default maximum (if sameHistory then previousLatest else None)) maximum)))
      else None
  | None, None =>
      if bool_decide (sealed = []) && bool_decide (cursor = None)
         && bool_decide (r_historyHadTurns meta = Some false)
      then Some (window [] None None) else None
  | _, _ => None
  end.

(** ** Ranges *)

Definition rowsById (rows : list ThreadDetailRow) : list (jstr * ThreadDetailRow) :=
  mfrom ((fun row => (r_id row, row)) <$> rows).

Definition composeInitialRangeRows (residentRows loadedRows : list ThreadDetailRow) (historyEpoch : Z)
    : list ThreadDetailRow :=
  mvals (mfrom ((fun row => (r_id row, row)) <$>
    (keep (fun row => isPending row || isThread row || (r_historyEpoch row =? historyEpoch)) loadedRows
     ++ keep (fun row => isPending row || isThread row
                         || (negb (r_sealed row) && (r_historyEpoch row =? historyEpoch))) residentRows))).

Definition composeExpandedRangeRows (residentRows loadedRows : list ThreadDetailRow) (historyEpoch : Z)
    : list ThreadDetailRow :=
  keep (fun row => isPending row || isThread row || (r_historyEpoch row =? historyEpoch))
    (mvals (rowsById (residentRows ++ loadedRows))).

Definition minimumNullable (left right : option Z) : option Z :=
  match left, right with
  | None, _ => right
  | _, None => left
  | Some l, Some r => Some (Z.min l r)
  end.

Section collate.
Variable localeCompare : jstr -> jstr -> Z.

Definition oldestFirst (left right : ThreadDetailRow) : bool :=
  let ordinalOrder := r_ordinal left - r_ordinal right in
  (if ordinalOrder =? 0 then localeCompare (r_id left) (r_id right) else ordinalOrder) <=? 0.

(** [turns.slice(0, limit)] and [turns.slice(-limit)]; [slice(-0)] is everything. *)
Definition nearest (direction : PageDirection) (limit : nat) (turns : list ThreadDetailRow) : list ThreadDetailRow :=
  match direction, limit with
  | Older, _ => take limit turns
  | Newer, O => turns
  | Newer, _ => drop (length turns - limit)%nat turns
  end.

Definition trimExpandedRangeRows (residentRows : list ThreadDetailRow) (historyEpoch : Z)
    (direction : PageDirection) (residentTurnLimit : nat) : list ThreadDetailRow :=
  let combined := mvals (rowsById residentRows) in
  let turns := sortBy oldestFirst
    (keep (fun row => isTurn row && r_sealed row && (r_historyEpoch row =? historyEpoch)) combined) in
  let selectedTurns := nearest direction residentTurnLimit turns in
  keep (fun row =>
          if isThread row || isPending row || negb (r_sealed row)
          then isPending row || isThread row || (r_historyEpoch row =? historyEpoch)
          else if negb (r_historyEpoch row =? historyEpoch) then false
          else if isTurn row then bool_decide (r_id row ∈ (r_id <$> selectedTurns))
          else bool_decide (r_ordinal row ∈ (r_ordinal <$> selectedTurns))) combined.

Definition newestRows (left right : ThreadDetailRow) : bool :=
  let ordinalOrder := r_ordinal right - r_ordinal left in
  (if ordinalOrder =? 0 then localeCompare (r_id right) (r_id left) else ordinalOrder) <=? 0.

Record RangeMembership :=
  { rm_detailRowIds : list jstr; rm_liveRowIds : list jstr; rm_turnRowIds : list jstr }.

Definition rangeMembership (rows : list ThreadDetailRow) (historyEpoch : Z) : RangeMembership :=
  let ids p := r_id <$> sortBy newestRows (keep p rows) in
  {| rm_detailRowIds := ids (fun row => r_sealed row && (r_historyEpoch row =? historyEpoch)
                                        && (isKindRow TurnMetaRow row || isKindRow ActivityRow row));
     rm_liveRowIds := ids (fun row => negb (r_sealed row) && (isPending row || (r_historyEpoch row =? historyEpoch)));
     rm_turnRowIds := ids (fun row => isTurn row && r_sealed row && (r_historyEpoch row =? historyEpoch)) |}.

End collate.

(** ** Deliveries that do not settle *)

Record StallReport :=
  { sr_inactive : nat; sr_oldestAgeMs : Z; sr_pending : nat; sr_stalled : list jstr }.

Definition stallStep (activeCommandIds : list jstr) (now : Z) (st : StallReport) (row : ThreadDetailRow) : StallReport :=
  match (if isPending row then r_pending row else None) with
  | Some pending =>
      if bool_decide (presentation pending = AsDelivery) then
        let st := {| sr_inactive := sr_inactive st; sr_oldestAgeMs := sr_oldestAgeMs st;
                     sr_pending := S (sr_pending st); sr_stalled := sr_stalled st |} in
        if bool_decide (is_Some (confirmation pending)) || bool_decide (commandId pending ∈ activeCommandIds) then st
        else
          let ageMs := Z.max 0 (now - Z.max (createdAt pending) (updatedAt pending)) in
          {| sr_inactive := S (sr_inactive st); sr_oldestAgeMs := Z.max (sr_oldestAgeMs st) ageMs;
             sr_pending := sr_pending st;
             sr_stalled := if OPTIMISTIC_RECONCILIATION_STALL_MS <=? ageMs
                           then sr_stalled st ++ [commandId pending] else sr_stalled st |}
      else st
  | None => st
  end.

Definition pendingDeliveryReconciliationDiagnostics (rows : list ThreadDetailRow) (activeCommandIds : list jstr)
    (now : Z) : StallReport :=
  foldl (stallStep activeCommandIds now) {| sr_inactive := 0; sr_oldestAgeMs := 0; sr_pending := 0; sr_stalled := [] |}
    rows.

(** ** What an interval claims *)

Definition covers (c : HistoryCoverage) (o : Z) : Prop :=
  exists mn mx, hc_min c = Some (Some mn) /\ hc_max c = Some (Some mx) /\ mn <= o <= mx.

Definition proper (c : HistoryCoverage) : Prop :=
  forall mn mx, hc_min c = Some (Some mn) -> hc_max c = Some (Some mx) -> mn <= mx.

(** The page and the interval meet or overlap. *)
Definition adjacentTo (c : HistoryCoverage) (first last : Z) : Prop :=
  exists mn mx, hc_min c = Some (Some mn) /\ hc_max c = Some (Some mx) /\ first <= mx + 1 /\ mn - 1 <= last.

Lemma foldl_max_numbered base n :
  foldl Z.max base (seqZ (base + 1) (Z.of_nat n)) = base + Z.of_nat n
  /\ foldl Z.min base (seqZ (base + 1) (Z.of_nat n)) = base.
Proof.
  assert (H : forall n b m, b <= m -> foldl Z.max m (seqZ (m + 1) (Z.of_nat n)) = m + Z.of_nat n
            /\ foldl Z.min b (seqZ (m + 1) (Z.of_nat n)) = b).
  { clear. intros n. induction n as [|n IH]; intros b m Hb; [simpl; split; [lia|done]|].
    rewrite seqZ_cons by lia. cbn [foldl]. replace (Z.max m (m + 1)) with (m + 1) by lia.
    replace (Z.min b (m + 1)) with b by lia. replace (Z.pred (Z.of_nat (S n))) with (Z.of_nat n) by lia.
    replace (Z.succ (m + 1)) with (m + 1 + 1) by lia. destruct (IH b (m + 1)) as [H1 H2]; [lia|].
    split; [rewrite H1; lia|done]. }
  apply H. lia.
Qed.

Lemma numbered_seq base ids : (numbered base ids).*2 = seqZ base (Z.of_nat (length ids)).
Proof.
  revert base. induction ids as [|id ids IH]; intros base; [done|]. cbn [numbered length].
  rewrite fmap_cons, IH, (seqZ_cons base) by lia. f_equal. f_equal; lia.
Qed.

Lemma page_values base turns pre page :
  turns = pre ++ page -> NoDup (turnId <$> turns) ->
  omap (fun turn => mget (turnId turn) (numbered base (turnId <$> turns))) page
  = seqZ (base + Z.of_nat (length pre)) (Z.of_nat (length page)).
Proof.
  revert pre. induction page as [|turn page IH]; intros pre E Hn; [done|].
  cbn [omap list_omap length]. rewrite seqZ_cons by lia.
  assert (mget (turnId turn) (numbered base (turnId <$> turns)) = Some (base + Z.of_nat (length pre))) as ->.
  { apply mget_numbered; [done|]. exists (length pre). split; [|done].
    rewrite list_lookup_fmap, E, list_lookup_middle; done. }
  f_equal. rewrite (IH (pre ++ [turn])); [|by rewrite E, <- app_assoc|done].
  f_equal; [rewrite length_app; simpl; lia|lia].
Qed.

(** The ordinals of a page numbered from [base]. *)
Lemma page_coverage base turns :
  NoDup (turnId <$> turns) ->
  turnOrdinalCoverage turns (mfrom (numbered base (turnId <$> turns))) =
  match turns with
  | [] => {| hc_max := Some None; hc_min := Some None |}
  | _ => {| hc_max := Some (Some (base + Z.of_nat (length turns) - 1)); hc_min := Some (Some base) |}
  end.
Proof.
  intros Hn.
  assert (Hv : omap (fun turn => mget (turnId turn) (mfrom (numbered base (turnId <$> turns)))) turns
               = seqZ base (Z.of_nat (length turns))).
  { rewrite mfrom_distinct by (by rewrite numbered_keys). rewrite (page_values base turns [] turns) by done.
    f_equal. simpl. lia. }
  unfold turnOrdinalCoverage. rewrite Hv. destruct turns as [|t turns]; [done|].
  simpl length. rewrite seqZ_cons by lia. replace (Z.pred (Z.of_nat (S (length turns)))) with (Z.of_nat (length turns)) by lia.
  replace (Z.succ base) with (base + 1) by lia.
  destruct (foldl_max_numbered base (length turns)) as [-> ->]. do 3 f_equal. lia.
Qed.

(** C11. A page with consecutive places extends the proven interval by exactly its
    turns: what is covered afterwards is what the page holds and, when the two
    meet or overlap, what was covered before; an interval it does not touch is
    given up rather than claiming what lies between. *)
Theorem coverage_without_gaps metadata base turns o :
  NoDup (turnId <$> turns) -> proper (metadataCoverage metadata) ->
  let page := base <= o < base + Z.of_nat (length turns) in
  covers (extendAuthoritativeCoverage metadata turns (mfrom (numbered base (turnId <$> turns)))) o
  <-> page \/ (covers (metadataCoverage metadata) o
               /\ (turns = [] \/ adjacentTo (metadataCoverage metadata) base (base + Z.of_nat (length turns) - 1))).
Proof.
  intros Hn Hp page. unfold extendAuthoritativeCoverage. rewrite page_coverage by done.
  destruct turns as [|turn turns].
  { unfold mergeAdjacentCoverage, page. simpl. split; [by auto|]. intros [[H1 H2]|[? _]]; [exfalso|done].
    rewrite Z.add_0_r in H2. lia. }
  set (n := Z.of_nat (length (turn :: turns))) in *. assert (Hpos : 0 < n) by (subst n; simpl; lia).
  subst page. unfold mergeAdjacentCoverage. cbn [hc_min hc_max].
  destruct (metadataCoverage metadata) as [mx mn] eqn:Em. simpl.
  assert (Hpage : covers {| hc_max := Some (Some (base + n - 1)); hc_min := Some (Some base) |} o <-> base <= o < base + n).
  { unfold covers. simpl. split; [intros (a & b & [= <-] & [= <-] & ?); lia|]. intros ?. exists base, (base + n - 1). split_and!; [done..|lia|lia]. }
  assert (Hnone : (forall a b, mn = Some (Some a) -> mx = Some (Some b) -> False) ->
    covers {| hc_max := Some (Some (base + n - 1)); hc_min := Some (Some base) |} o
    <-> base <= o < base + n \/ covers {| hc_max := mx; hc_min := mn |} o
          /\ (turn :: turns = [] \/ adjacentTo {| hc_max := mx; hc_min := mn |} base (base + n - 1))).
  { intros Hno. rewrite Hpage. split; [by left|]. intros [?|[(a & b & Ha & Hb & _) _]]; [done|]. by destruct (Hno a b). }
  destruct mn as [[pmin|]|]; [|apply Hnone; by intros ? ? [=]..].
  destruct mx as [[pmax|]|]; [|apply Hnone; by intros ? ? ? [=]..].
  specialize (Hp pmin pmax eq_refl eq_refl).
  destruct ((base <=? pmax + 1) && (pmin - 1 <=? base + n - 1)) eqn:E.
  - apply andb_true_iff in E as [E1%Z.leb_le E2%Z.leb_le]. unfold covers, adjacentTo. simpl. split.
    + intros (a & b & [= <-] & [= <-] & ?). destruct (decide (base <= o < base + n)); [by left|right].
      split; [exists pmin, pmax; split_and!; [done..|lia|lia]|right; exists pmin, pmax; split_and!; [done..|lia]].
    + intros [?|[(a & b & [= <-] & [= <-] & ?) _]];
        exists (Z.min pmin base), (Z.max pmax (base + n - 1)); split_and!; (done || lia).
  - rewrite Hpage. split; [by left|]. intros [?|[_ [?|(a & b & [= <-] & [= <-] & ? & ?)]]]; [done..|].
    exfalso. apply andb_false_iff in E as [E%Z.leb_gt|E%Z.leb_gt]; lia.
Qed.

(** ** A window that is called complete *)

Lemma elem_keep p rows row : row ∈ keep p rows <-> p row = true /\ row ∈ rows.
Proof. unfold keep. by rewrite list_elem_of_filter. Qed.

Lemma findRow_some p rows row : findRow p rows = Some row -> p row = true /\ row ∈ rows.
Proof.
  unfold findRow. destruct (list_find _ rows) as [[i r]|] eqn:E; simpl; [|done]. intros [= <-].
  apply list_find_Some in E as (Hl & Hp & _). split; [done|]. by eapply list_elem_of_lookup_2.
Qed.

Lemma findRow_none p rows row : findRow p rows = None -> row ∈ rows -> p row = false.
Proof.
  unfold findRow. destruct (list_find _ rows) as [[i r]|] eqn:E; [done|]. intros _ Hin.
  apply list_find_None in E. apply (proj1 (Forall_forall _ _) E) in Hin. by destruct (p row).
Qed.

Lemma holdsEvery_spec first last ordinals :
  holdsEvery first last ordinals = true <-> forall o, first <= o <= last -> o ∈ ordinals.
Proof.
  unfold holdsEvery. rewrite forallb_forall. split.
  - intros H o Ho. apply (bool_decide_eq_true (o ∈ ordinals)), H. apply list_elem_of_In, elem_of_seqZ. lia.
  - intros H o Ho%list_elem_of_In%elem_of_seqZ. apply bool_decide_eq_true, H. lia.
Qed.

Lemma existsb_none {A} (p : A -> bool) l x : existsb p l = false -> x ∈ l -> p x = false.
Proof.
  intros H Hx. destruct (p x) eqn:E; [|done]. exfalso. rewrite <- not_true_iff_false in H. apply H, existsb_exists.
  exists x. split; [by apply list_elem_of_In|done].
Qed.

(** The last ordinal a complete window has to show. *)
Definition lastShown (coverageMax : Z) (anchor : option ThreadDetailRow) : Z :=
  match anchor with
  | None => coverageMax
  | Some row => Z.min coverageMax (r_ordinal row + THREAD_HISTORY_PAGE_SIZE)
  end.

(** The row a window is opened at: none, or a turn of the window with the id. *)
Definition anchoredAt (anchorTurnId : option jstr) (window : list ThreadDetailRow)
    (anchor : option ThreadDetailRow) : Prop :=
  match anchorTurnId with
  | None => anchor = None
  | Some id => exists row, anchor = Some row /\ row ∈ window /\ r_remoteTurnId row = Some id
  end.

(** C10. A window called complete can be drawn without asking the server: nothing in
    it is still being written, the turn it was opened at is there, and either the
    server proved the history empty, or every one of the last fifteen ordinals of
    the proven interval is held by a sealed turn; for a window opened at a turn,
    the last fifteen of the part that ends a page after that turn's ordinal. *)
Theorem complete_window_holds anchorTurnId turnRows liveRows :
  threadWindowCoverage anchorTurnId turnRows liveRows = CompleteWindow ->
  exists metadata cursor,
    metadata ∈ liveRows /\ r_kind metadata = ThreadRow /\ r_historyCursor metadata = Some cursor
    /\ (forall row, row ∈ liveRows -> isTurn row = true -> r_sealed row = true)
    /\ (forall id, anchorTurnId = Some id -> exists row, row ∈ turnRows ++ liveRows /\ Source.turnOf row = Some id)
    /\ ((r_historyCoverageMinOrdinal metadata = Some None /\ r_historyCoverageMaxOrdinal metadata = Some None
          /\ cursor = None /\ r_historyHadTurns metadata = Some false /\ windowTurns turnRows liveRows = [])
        \/ exists mn mx anchor,
             r_historyCoverageMinOrdinal metadata = Some (Some mn)
             /\ r_historyCoverageMaxOrdinal metadata = Some (Some mx)
             /\ anchoredAt anchorTurnId (windowTurns turnRows liveRows) anchor
             /\ forall o, Z.max mn (lastShown mx anchor - THREAD_RESIDENT_TURN_LIMIT + 1) <= o <= lastShown mx anchor ->
                  exists row, row ∈ turnRows /\ isTurn row = true /\ r_sealed row = true /\ r_ordinal row = o).
Proof.
  unfold threadWindowCoverage. destruct (findRow isThread liveRows) as [metadata|] eqn:Em; [|done].
  apply findRow_some in Em as [Hkind Hmeta]. apply bool_decide_eq_true in Hkind.
  destruct (existsb _ liveRows) eqn:Ex; [done|].
  destruct (r_historyCursor metadata) as [cursor|] eqn:Ec; [|done].
  destruct (r_historyCoverageMinOrdinal metadata) as [mn|] eqn:Emn; [|done].
  destruct (r_historyCoverageMaxOrdinal metadata) as [mx|] eqn:Emx; [|done].
  set (turns := windowTurns turnRows liveRows).
  set (anchor := id ← anchorTurnId; findRow (fun row => bool_decide (r_remoteTurnId row = Some id)) turns).
  destruct (bool_decide (is_Some anchorTurnId) && bool_decide (anchor = None)) eqn:Ea; [done|].
  intros Hcomplete. exists metadata, cursor. split_and!; [done..| | |].
  - intros row Hin Ht. pose proof (existsb_none _ _ row Ex Hin) as H. simpl in H. rewrite Ht in H. simpl in H.
    by destruct (r_sealed row).
  - intros id ->. subst anchor. simpl in Ea. destruct (findRow _ turns) as [row|] eqn:Ef; [|done].
    apply findRow_some in Ef as [Hid%bool_decide_eq_true Hin]. unfold turns, windowTurns in Hin.
    apply elem_keep in Hin as [[Ht _]%andb_true_iff Hin]. exists row. split; [done|].
    unfold Source.turnOf. unfold isTurn in Ht. by rewrite Ht.
  - destruct mn as [mn|], mx as [mx|]; [right| | |left].
    + exists mn, mx, anchor. split_and!; [done..| |].
      * subst anchor. destruct anchorTurnId as [id|]; [|done]. simpl in Ea |- *.
        destruct (findRow _ turns) as [row|] eqn:Ef; [|done].
        apply findRow_some in Ef as [Hid%bool_decide_eq_true Hin]. by exists row.
      * destruct (holdsEvery _ _ _) eqn:Eh; [|done]. intros o Ho.
        apply (proj1 (holdsEvery_spec _ _ _) Eh) in Ho. apply list_elem_of_fmap in Ho as (row & -> & Hin).
        apply elem_keep in Hin as [[Ht Hs]%andb_true_iff Hin]. by exists row.
    + done.
    + done.
    + destruct (bool_decide (turns = []) && _ && _) eqn:E; [|done].
      apply andb_true_iff in E as [[E1%bool_decide_eq_true E2%bool_decide_eq_true]%andb_true_iff E3%bool_decide_eq_true].
      by split_and!.
Qed.

(** ** Trimming a range *)

Section trim.
Variable localeCompare : jstr -> jstr -> Z.
(** The collation is a total preorder. *)
Hypothesis collate_total : forall a b, localeCompare a b <= 0 \/ localeCompare b a <= 0.
Hypothesis collate_trans : forall a b c, localeCompare a b <= 0 -> localeCompare b c <= 0 -> localeCompare a c <= 0.

Abbreviation before := (oldestFirst localeCompare).

Lemma oldestFirst_spec a b :
  before a b = true <-> r_ordinal a < r_ordinal b \/ (r_ordinal a = r_ordinal b /\ localeCompare (r_id a) (r_id b) <= 0).
Proof.
  unfold oldestFirst. rewrite Z.leb_le. destruct (Z.eqb_spec (r_ordinal a - r_ordinal b) 0); lia.
Qed.

Lemma oldestFirst_total a b : before a b = true \/ before b a = true.
Proof. rewrite !oldestFirst_spec. destruct (collate_total (r_id a) (r_id b)); lia. Qed.

Lemma oldestFirst_trans a b c : before a b = true -> before b c = true -> before a c = true.
Proof.
  rewrite !oldestFirst_spec. intros [?|[? ?]] [?|[? ?]]; [lia..|]. right. split; [lia|]. by eapply collate_trans.
Qed.

Lemma split_ordered (l a b : list ThreadDetailRow) x y :
  l = a ++ b -> ordered before l -> x ∈ a -> y ∈ b -> r_ordinal x <= r_ordinal y.
Proof.
  intros -> Ho [i Hi]%list_elem_of_lookup_1 [j Hj]%list_elem_of_lookup_1.
  assert (H : before x y = true).
  { apply (Ho i (length a + j)%nat); [apply lookup_lt_Some in Hi; lia|by apply lookup_app_l_Some|].
    rewrite lookup_app_r by lia. by replace (length a + j - length a)%nat with j by lia. }
  apply oldestFirst_spec in H. lia.
Qed.

(** The turns kept and those given up. *)
Lemma nearest_split direction limit l :
  (0 < limit)%nat ->
  exists others, nearest direction limit l ++ others ≡ₚ l /\ length (nearest direction limit l) = Nat.min limit (length l)
    /\ (ordered before l -> forall x y, x ∈ nearest direction limit l -> y ∈ others ->
          match direction with Older => r_ordinal x <= r_ordinal y | Newer => r_ordinal y <= r_ordinal x end).
Proof.
  intros Hl. destruct direction; simpl.
  - exists (drop limit l). split_and!; [by rewrite take_drop|apply length_take|].
    intros Ho x y Hx Hy. by apply (split_ordered l (take limit l) (drop limit l)); [rewrite take_drop|..].
  - destruct limit as [|limit]; [lia|]. set (n := (length l - S limit)%nat).
    exists (take n l). split_and!.
    + by rewrite Permutation_app_comm, take_drop.
    + rewrite length_drop. subst n. lia.
    + intros Ho x y Hx Hy. by apply (split_ordered l (take n l) (drop n l)); [rewrite take_drop|..].
Qed.

Definition sealedTurnOf (historyEpoch : Z) (row : ThreadDetailRow) : bool :=
  isTurn row && r_sealed row && (r_historyEpoch row =? historyEpoch).

Lemma rowsById_distinct rows : NoDup (r_id <$> rows) -> mvals (rowsById rows) = rows.
Proof.
  intros Hn. unfold rowsById, mvals. rewrite mfrom_distinct.
  - rewrite <- list_fmap_compose. induction rows; simpl; f_equal. apply IHrows. by apply NoDup_cons in Hn as [_ ?].
  - by rewrite <- list_fmap_compose.
Qed.

(** Trimming a range after a gesture keeps as many sealed turns as the limit
    allows, those of the end the gesture went to, and gives up the far end; every
    pending, unfinished and thread row stays, and the metadata and activity of a
    place exactly when a turn of that place does.  No row is added. *)
Theorem trim_keeps_near_end rows historyEpoch direction limit :
  NoDup (r_id <$> rows) -> (0 < limit)%nat ->
  let trimmed := trimExpandedRangeRows localeCompare rows historyEpoch direction limit in
  let mine := sealedTurnOf historyEpoch in
  (forall row, row ∈ trimmed -> row ∈ rows)
  /\ (forall row, row ∈ rows -> isThread row = true \/ isPending row = true
        \/ (r_sealed row = false /\ r_historyEpoch row = historyEpoch) -> row ∈ trimmed)
  /\ length (keep mine trimmed) = Nat.min limit (length (keep mine rows))
  /\ (forall kept given, kept ∈ keep mine trimmed -> given ∈ keep mine rows -> given ∉ trimmed ->
        match direction with
        | Older => r_ordinal kept <= r_ordinal given
        | Newer => r_ordinal given <= r_ordinal kept
        end)
  /\ (forall row, row ∈ rows -> isThread row = false -> isPending row = false -> isTurn row = false ->
        r_sealed row = true -> r_historyEpoch row = historyEpoch ->
        row ∈ trimmed <-> exists turn, turn ∈ keep mine trimmed /\ r_ordinal turn = r_ordinal row).
Proof.
  intros Hn Hl trimmed mine. subst trimmed. unfold trimExpandedRangeRows. rewrite rowsById_distinct by done.
  set (turns := sortBy before (keep _ rows)). set (selected := nearest direction limit turns).
  set (keeps := fun row : ThreadDetailRow => if isThread row || isPending row || negb (r_sealed row) then _ else _).
  destruct (nearest_split direction limit turns Hl) as (others & Hperm & Hlen & Hside). fold selected in Hperm, Hlen, Hside.
  specialize (Hside (sortBy_ordered before oldestFirst_total oldestFirst_trans _)).
  assert (Hturns : forall row, row ∈ turns <-> mine row = true /\ row ∈ rows).
  { intros row. subst turns. by rewrite sortBy_perm, elem_keep. }
  assert (Hsel : forall row, row ∈ selected -> mine row = true /\ row ∈ rows).
  { intros row Hrow. apply Hturns. rewrite <- Hperm, elem_of_app. by left. }
  assert (Hmine : forall row, mine row = true -> row ∈ rows -> keeps row = true <-> row ∈ selected).
  { intros row Hm Hin. unfold keeps. unfold mine, sealedTurnOf in Hm.
    apply andb_true_iff in Hm as [[Ht Hs]%andb_true_iff He]. rewrite Hs, He.
    pose proof Ht as Hk. apply bool_decide_eq_true in Hk. unfold isThread, isPending, isKindRow at 1 2. rewrite Hk. simpl.
    rewrite Ht, bool_decide_eq_true, list_elem_of_fmap. split; [|intros ?; by exists row].
    intros (row' & Hid & Hs'). pose proof (proj2 (Hsel _ Hs')). by rewrite (same_image r_id rows row row'). }
  assert (Hkept : forall row, row ∈ keep mine (keep keeps rows) <-> row ∈ selected).
  { intros row. rewrite !elem_keep. split; [intros (Hm & Hk & Hin); by apply Hmine|].
    intros Hs. destruct (Hsel row Hs) as [Hm Hin]. split_and!; [done|by apply Hmine|done]. }
  assert (Hnrows : NoDup rows) by (by eapply NoDup_fmap_1).
  split_and!.
  - intros row Hrow. by apply elem_keep in Hrow as [_ ?].
  - intros row Hin Hrow. apply elem_keep. split; [|done]. unfold keeps.
    destruct Hrow as [-> |[-> |[-> ->]]]; rewrite ?orb_true_r; simpl; rewrite ?orb_true_r, ?Z.eqb_refl, ?orb_true_r; done.
  - transitivity (length selected).
    + apply Permutation_length, NoDup_Permutation; [by apply NoDup_filter, NoDup_filter| |done].
      apply (NoDup_app selected others). rewrite Hperm. subst turns. rewrite sortBy_perm. by apply NoDup_filter.
    + rewrite Hlen. subst turns. by rewrite sortBy_perm.
  - intros kept given Hk Hg Hno. apply Hkept in Hk. apply elem_keep in Hg as [Hm Hin].
    apply Hside; [done|]. assert (Hg : given ∈ selected ++ others) by (rewrite Hperm; by apply Hturns).
    apply elem_of_app in Hg as [Hg|Hg]; [|done]. exfalso. apply Hno, elem_keep. split; [by apply Hmine|done].
  - intros row Hin H1 H2 H3 H4 H5. rewrite elem_keep.
    assert (keeps row = bool_decide (r_ordinal row ∈ (r_ordinal <$> selected))) as ->
      by (unfold keeps; by rewrite H1, H2, H3, H4, H5, Z.eqb_refl).
    rewrite bool_decide_eq_true, list_elem_of_fmap. setoid_rewrite Hkept.
    split; [intros [(turn & E & Hs) _]; by exists turn|]. intros (turn & Hs & E). split; [by exists turn|done].
Qed.

End trim.

(** ** Pages and resident windows *)

(** A contiguous page goes step by step from the boundary. *)
Lemma contiguous_page rows boundary direction i row :
  contiguousHistoryPage rows boundary direction !! i = Some row ->
  r_ordinal row = boundary + pageStep direction * (Z.of_nat i + 1) /\ row ∈ rows.
Proof.
  unfold contiguousHistoryPage. set (step := pageStep direction). set (l := sortBy _ rows). intros H.
  assert (Hin : row ∈ l -> row ∈ rows) by (subst l; by rewrite sortBy_perm).
  cut (forall expected, contiguousFrom expected step l !! i = Some row ->
         r_ordinal row = expected + step * Z.of_nat i /\ row ∈ l).
  { intros Hc. destruct (Hc _ H) as [-> ?]. split; [lia|auto]. }
  clear H Hin. revert i. induction l as [|r l IH]; intros i expected; simpl; [done|].
  destruct (Z.eqb_spec (r_ordinal r) expected) as [He|]; [|done]. destruct i as [|i]; simpl.
  - intros [= ->]. split; [lia|by left].
  - intros [-> ?]%IH. split; [lia|by right].
Qed.

Lemma findRow_keep p q rows row : findRow p rows = Some row -> q row = true -> findRow p (keep q rows) = Some row.
Proof.
  unfold findRow, keep. intros H Hq. induction rows as [|r rows IH]; [done|]. cbn [list_find] in H.
  destruct (decide (p r = true)) as [Hp|Hp].
  - simpl in H. injection H as ->. rewrite filter_cons_True by done. cbn [list_find]. by case_decide.
  - assert (H' : snd <$> list_find (fun row => p row = true) rows = Some row)
      by (by destruct (list_find _ rows) as [[i x]|]).
    specialize (IH H'). destruct (decide (q r = true)); [|by rewrite filter_cons_False].
    rewrite filter_cons_True by done. cbn [list_find]. case_decide; [done|].
    by destruct (list_find _ (filter _ rows)) as [[i x]|].
Qed.

Lemma windowTurns_sealed turnRows liveRows row :
  existsb (fun row => isTurn row && negb (r_sealed row)) liveRows = false ->
  (forall row, row ∈ liveRows -> r_sealed row = false) -> row ∈ windowTurns turnRows liveRows -> row ∈ turnRows.
Proof.
  intros Hx Hl [[Ht _]%andb_true_iff [?|Hin]%elem_of_app]%elem_keep; [done|].
  pose proof (existsb_none _ _ row Hx Hin) as H. simpl in H. by rewrite Ht, (Hl row Hin) in H.
Qed.

(** The rows already loaded are reused for a request only when they are proven to
    hold the range: the coverage check then finds the window complete, or waits
    for the server because of a turn still being written or of the anchor. *)
Lemma resident_window_proven anchorTurnId rows previousEpoch earliest latest w :
  residentThreadWindow anchorTurnId rows previousEpoch earliest latest = Some w ->
  (forall a b id, a ∈ rows -> b ∈ rows -> Source.turnOf a = Some id -> Source.turnOf b = Some id -> a = b) ->
  (forall row, row ∈ rows -> isThread row = true -> r_sealed row = false) ->
  threadWindowCoverage anchorTurnId (w_turnRows w) (w_liveRows w) ∈ [CompleteWindow; MutableHead; AnchorMissing].
Proof.
  intros Hw Huniq Hthread. unfold residentThreadWindow in Hw.
  destruct (findRow isThread rows) as [meta|] eqn:Em; [|done]. cbn [mbind option_bind] in Hw.
  destruct (r_historyCursor meta) as [cursor|] eqn:Ec; [|done]. cbn [mbind option_bind] in Hw.
  destruct (r_historyCoverageMinOrdinal meta) as [mn|] eqn:Emn; [|done]. cbn [mbind option_bind] in Hw.
  destruct (r_historyCoverageMaxOrdinal meta) as [mx|] eqn:Emx; [|done]. cbn [mbind option_bind] in Hw.
  set (currentRows := keep (fun row => isPending row || (r_historyEpoch row =? r_historyEpoch meta)) rows) in *.
  set (sealed := keep (fun row => isTurn row && r_sealed row) currentRows) in *.
  set (live := keep (fun row => negb (r_sealed row)) currentRows) in *.
  destruct (residentAnchor anchorTurnId currentRows) as [anchor|] eqn:Ea; [|done]. cbn [mbind option_bind] in Hw.
  destruct (findRow_some _ _ _ Em) as [Hm Hmin].
  assert (Hfind : findRow isThread live = Some meta).
  { apply findRow_keep; [apply findRow_keep; [done|by rewrite Z.eqb_refl, orb_true_r]|by rewrite (Hthread meta)]. }
  assert (Hlive : w_liveRows w = live).
  { destruct mn, mx; try done; [destruct (holdsEvery _ _ _); [|done]|destruct (_ && _ && _); [|done]];
      by injection Hw as <-. }
  assert (Hunsealed : forall row, row ∈ live -> r_sealed row = false)
    by (intros row [Hs%negb_true_iff _]%elem_keep; done).
  rewrite Hlive. unfold threadWindowCoverage. rewrite Hfind.
  destruct (existsb _ live) eqn:Ex; [right; left|]. rewrite Ec, Emn, Emx.
  set (anchor' := id ← anchorTurnId; _).
  destruct (bool_decide (is_Some anchorTurnId) && bool_decide (anchor' = None)) eqn:Eb; [right; right; left|].
  destruct mn as [mn|], mx as [mx|]; try done.
  - destruct (holdsEvery _ _ _) eqn:Eh; [|done]. injection Hw as <-. cbn [w_turnRows] in *.
    set (end_ := match anchor with Some row => _ | None => _ end) in *.
    set (start := Z.max mn (end_ - THREAD_RESIDENT_TURN_LIMIT + 1)) in *.
    assert (Hend : match anchor' with Some row => Z.min mx (r_ordinal row + THREAD_HISTORY_PAGE_SIZE) | None => mx end
                   = end_).
    { subst anchor'. unfold residentAnchor in Ea. destruct anchorTurnId as [id|]; simpl in Eb |- *; [|by injection Ea as <-].
      destruct (findRow (fun row => isTurn row && _) currentRows) as [a|] eqn:Efa; [|done]. injection Ea as <-.
      destruct (findRow _ (windowTurns _ _)) as [a'|] eqn:Efa'; [|done].
      apply findRow_some in Efa as [[Hta Hia%bool_decide_eq_true]%andb_true_iff Ha].
      apply findRow_some in Efa' as [Hia'%bool_decide_eq_true Ha'].
      pose proof Ha' as [[Hta' _]%andb_true_iff _]%elem_keep. apply windowTurns_sealed in Ha'; [|done..].
      rewrite sortBy_perm in Ha'. apply elem_keep in Ha' as [_ [[_ Hsa']%andb_true_iff Ha']%elem_keep].
      apply elem_keep in Ha as [_ Ha]. apply elem_keep in Ha' as [_ Ha'].
      assert (a' = a) as -> by (apply (Huniq a' a id); [done..|unfold Source.turnOf; unfold isTurn in Hta'; by rewrite Hta'|
        unfold Source.turnOf; unfold isTurn in Hta; by rewrite Hta]).
      subst end_. by rewrite Hsa'. }
    rewrite Hend. fold start.
    assert (Hholds : holdsEvery start end_ (r_ordinal <$> keep (fun row => isTurn row && r_sealed row)
              (sortBy newestFirst (sealedPart start end_ sealed))) = true).
    { apply holdsEvery_spec. intros o Ho. apply (proj1 (holdsEvery_spec _ _ _) Eh) in Ho.
      apply list_elem_of_fmap in Ho as (row & -> & [_ Hrow]%elem_keep). apply list_elem_of_fmap. exists row.
      split; [done|]. apply elem_keep. rewrite sortBy_perm. split; [|done].
      apply elem_keep in Hrow as [_ Hrow]. by apply elem_keep in Hrow as [? _]. }
    rewrite Hholds. left.
  - destruct (_ && _ && _) eqn:E; [|done]. injection Hw as <-. cbn [w_turnRows] in *.
    apply andb_true_iff in E as [[_ E2%bool_decide_eq_true]%andb_true_iff E3%bool_decide_eq_true].
    assert (Hnil : windowTurns [] live = []).
    { destruct (windowTurns [] live) as [|r l] eqn:El; [done|]. exfalso.
      assert (Hr : r ∈ windowTurns [] live) by (rewrite El; left).
      by apply windowTurns_sealed, elem_of_nil in Hr. }
    cbn [sortBy]. rewrite Hnil, E2, E3. left.
Qed.

(** ** Executions *)

(** A thread row that claims the given interval, and turn rows at some ordinals. *)
Definition demo_meta (mn mx : Z) : ThreadDetailRow :=
  {| r_id := js "meta"; r_kind := ThreadRow; r_connectionId := js "c"; r_remoteThreadId := js "t";
     r_remoteTurnId := None; r_ordinal := -1; r_historyEpoch := 0; r_sealed := false; r_sessionId := None;
     r_thread := Some (JObj [("id", JStr (js "t"))]); r_turn := None; r_turnMetadata := None;
     r_activityItems := None; r_pending := None; r_lastOpenedAt := 0; r_historyCursor := Some (Some (js "older"));
     r_historyHadTurns := Some true; r_historyCoverageMinOrdinal := Some (Some mn);
     r_historyCoverageMaxOrdinal := Some (Some mx); r_projectionCursor := None; r_historySourceWitness := None;
     r_currentUsage := None; r_currentOutcome := None |}.

Definition demo_at (id : string) (ordinal : Z) : ThreadDetailRow :=
  demo_turn_row id id ordinal (Some (JObj [("id", JStr (js id))])).
Definition demo_page : list json := [JObj [("id", JStr (js "a"))]; JObj [("id", JStr (js "b"))]].

(** A page that does not touch what is known replaces it. *)
Lemma coverage_without_gaps_witness :
  let meta := Some (demo_meta 0 4) in
  covers (extendAuthoritativeCoverage meta demo_page (mfrom (numbered 5 (turnId <$> demo_page)))) 2
  /\ ~ covers (extendAuthoritativeCoverage meta demo_page (mfrom (numbered 7 (turnId <$> demo_page)))) 2.
Proof.
  cbv zeta.
  assert (Hn : NoDup (turnId <$> demo_page)) by (apply (bool_decide_unpack _); vm_compute; exact I).
  assert (Hp : proper (metadataCoverage (Some (demo_meta 0 4)))) by (by intros mn mx [= <-] [= <-]).
  assert (Hin : covers (metadataCoverage (Some (demo_meta 0 4))) 2) by (exists 0, 4; split_and!; [done..|lia|lia]).
  split.
  - apply (coverage_without_gaps (Some (demo_meta 0 4)) 5 demo_page 2 Hn Hp). right. split; [exact Hin|]. right.
    exists 0, 4. split_and!; [done..|lia|simpl; lia].
  - intros [H|[_ [H|(mn & mx & [= <-] & [= <-] & H & _)]]]%(coverage_without_gaps (Some (demo_meta 0 4)) 7 demo_page 2 Hn Hp);
      [simpl in H; lia|discriminate H|lia].
Defined.

(** A window opened at its second turn. *)
Lemma complete_window_holds_witness :
  let turnRows := [demo_at "b" 1; demo_at "a" 0] in
  threadWindowCoverage (Some (js "b")) turnRows [demo_meta 0 1] = CompleteWindow
  /\ exists row, row ∈ turnRows /\ r_ordinal row = 0.
Proof.
  cbv zeta.
  assert (Hc : threadWindowCoverage (Some (js "b")) [demo_at "b" 1; demo_at "a" 0] [demo_meta 0 1]
               = CompleteWindow) by (vm_compute; reflexivity).
  split; [exact Hc|].
  destruct (complete_window_holds (Some (js "b")) [demo_at "b" 1; demo_at "a" 0] [demo_meta 0 1] Hc)
    as (metadata & cursor & Hin & _ & _ & _ & _ & Hcases).
  apply list_elem_of_singleton in Hin as ->.
  destruct Hcases as [(H & _)|(mn & mx & anchor & Hmn & Hmx & (row & -> & Ha & Hid) & Hall)];
    [discriminate H|].
  injection Hmn as <-. injection Hmx as <-.
  assert (Hone : r_ordinal row = 1).
  { change (windowTurns _ _) with [demo_at "b" 1; demo_at "a" 0] in Ha.
    apply elem_of_cons in Ha as [->|Ha]; [reflexivity|].
    apply list_elem_of_singleton in Ha as ->. discriminate Hid. }
  destruct (Hall 0) as (found & Hrow & _ & _ & Ho).
  { unfold lastShown, THREAD_RESIDENT_TURN_LIMIT, THREAD_HISTORY_PAGE_SIZE. rewrite Hone. lia. }
  by exists found.
Defined.

Lemma trim_keeps_near_end_witness :
  let rows := [demo_meta 0 2; demo_at "a" 0; demo_at "b" 1; demo_at "c" 2] in
  let trimmed := trimExpandedRangeRows (fun _ _ => 0) rows 0 Newer 2 in
  r_ordinal <$> keep isTurn trimmed = [1; 2] /\ length (keep (sealedTurnOf 0) trimmed) = 2%nat.
Proof.
  cbv zeta. split; [vm_compute; reflexivity|].
  assert (Hn : NoDup (r_id <$> [demo_meta 0 2; demo_at "a" 0; demo_at "b" 1; demo_at "c" 2]))
    by (apply (bool_decide_unpack _); vm_compute; exact I).
  destruct (trim_keeps_near_end (fun _ _ => 0) (fun _ _ => or_introl (Z.le_refl 0)) (fun _ _ _ _ _ => Z.le_refl 0)
              [demo_meta 0 2; demo_at "a" 0; demo_at "b" 1; demo_at "c" 2] 0 Newer 2 Hn) as (_ & _ & Hlen & _); [lia|].
  rewrite Hlen. vm_compute. reflexivity.
Defined.
