(* ===== verification/DetailPages.v ===== *)
(** * Pages of a thread's history

    Models what apps/android/src/data/thread-detail-database.native.ts decides
    before it writes: publishThread, publishLiveSlice, prependTurns,
    persistAnchoredPage and the thread rows of applySnapshot.  Each decision is a
    function of the rows at hand (the resident rows and the durable facts read for
    the page) to a [Projection], which DetailCommit.v writes.  Whether the request
    is still current is an argument; the revision counters that invalidate reads
    under way are not modelled. *)
From S2P Require Import Prelude JsMap Json ThreadItems ThreadEvents RenderWindow Delivery ThreadHead ThreadRows.
From S2P Require Import DetailSource DetailCommit DetailCoverage.

Definition threadTurns (thread : json) : list json := arrField "turns" thread.

(** [isCurrent?.field] of a row that may be missing. *)
Definition metaField {A} (get : ThreadDetailRow -> option A) (meta : option ThreadDetailRow) : option A := meta ≫= get.

Definition inCurrentEpoch (epoch : Z) (row : ThreadDetailRow) : bool :=
  isThread row || isPending row || (r_historyEpoch row =? epoch).

Section plans.
Variables (sameObject : json -> json -> bool) (localeCompare : jstr -> jstr -> Z).

Record PublishInput :=
  { pi_connectionId : jstr; pi_incoming : json; pi_mode : PublishMode; pi_openedAt : Z;
    pi_preserveConcurrentHead : bool; pi_historyCursor : option (option jstr);
    pi_projectionCursor : option Z; pi_sourceWitness : option jstr; pi_sessionId : jstr }.

(** The finished turns of the thread that comes in. *)
Definition historyTurns (thread : json) : list json := filter (fun turn => turnInProgress turn = false) (threadTurns thread).

Definition sealedIds (rows : list ThreadDetailRow) : list (option jstr) :=
  r_remoteTurnId <$> sortBy (fun left right => r_ordinal left - r_ordinal right <=? 0)
    (keep (fun row => isTurn row && r_sealed row && bool_decide (is_Some (r_remoteTurnId row))) rows).

Definition publishedEpoch (input : PublishInput) (existingRows currentRows : list ThreadDetailRow) : Z :=
  let current := rowsEpoch existingRows in
  let previousMeta := findRow isThread existingRows in
  let ids := turnId <$> historyTurns (pi_incoming input) in
  match pi_mode input with
  | ModeTail =>
      if bool_decide (metaField r_historyCursor previousMeta = pi_historyCursor input)
         && bool_decide (sealedIds currentRows = Some <$> ids)
      then current else current + 1
  | ModeReset => if bool_decide (is_Some previousMeta) then current + 1
                 else projectAuthoritativeHistoryEpoch existingRows ids
  | ModeAuthoritative => projectAuthoritativeHistoryEpoch existingRows ids
  | ModeLive | ModeAppend => current
  end.

Definition publishedCursor (input : PublishInput) (disconnected : bool) (previousMeta : option ThreadDetailRow)
    : option (option jstr) :=
  match pi_mode input with
  | ModeReset | ModeTail => pi_historyCursor input
  | _ => if disconnected then pi_historyCursor input
         else match metaField r_historyCursor previousMeta with
              | None => pi_historyCursor input
              | Some cursor => Some cursor
              end
  end.

(** [typeof suppliedHistoryCursor === "string"]. *)
Definition cursorGiven (cursor : option (option jstr)) : bool :=
  match cursor with Some (Some _) => true | _ => false end.

Definition publishedHadTurns (input : PublishInput) (existingRows : list ThreadDetailRow)
    (previousMeta : option ThreadDetailRow) : option bool :=
  let incoming := negb (bool_decide (historyTurns (pi_incoming input) = [])) in
  match pi_mode input with
  | ModeReset => Some (incoming || cursorGiven (pi_historyCursor input))
  | _ =>
      if bool_decide (metaField r_historyHadTurns previousMeta = Some true) || incoming
         || existsb isTurn existingRows || cursorGiven (pi_historyCursor input)
      then Some true
      else if bool_decide (pi_mode input = ModeAuthoritative) && bool_decide (is_Some (pi_historyCursor input))
      then Some false else metaField r_historyHadTurns previousMeta
  end.

(** The unfinished turns of the thread as it is, when they are to be kept. *)
Definition concurrentHead (input : PublishInput) (current : option json) (currentRows : list ThreadDetailRow)
    : option json :=
  if pi_preserveConcurrentHead input then
    let mutableTurnIds :=
      omap r_remoteTurnId (keep (fun row => isTurn row && negb (r_sealed row)) currentRows) in
    (fun thread => setTurns (filter (fun turn => turnId turn ∈ mutableTurnIds) (threadTurns thread)) thread) <$> current
  else None.

Definition publishedThread (input : PublishInput) (currentRows : list ThreadDetailRow) : json :=
  let snapshot := materializeThreadDetail sameObject localeCompare currentRows (pi_connectionId input)
                    (turnId (pi_incoming input)) (pi_sessionId input) in
  let current := ds_thread <$> snapshot in
  let fresh := match snapshot with Some s => ds_fresh s | None => false end in
  let authoritative := if bool_decide (pi_mode input = ModeAuthoritative) && fresh
                       then preserveProjectedTurnMetadata (pi_incoming input) current else pi_incoming input in
  reconcileAuthoritativeThread authoritative (concurrentHead input current currentRows)
    (pi_preserveConcurrentHead input).

(** The head of the thread: a page of older history does not replace it. *)
Definition publishedUsage (mode : PublishMode) (previous : option ThreadCurrentUsage) (turns : list json)
    : option ThreadCurrentUsage :=
  match mode with
  | ModeAppend => previous
  | ModeLive => advanceThreadUsage previous turns
  | ModeReset => latestThreadUsage turns
  | _ => match latestThreadUsage turns with Some usage => Some usage | None => previous end
  end.

Definition publishedOutcome (mode : PublishMode) (previous : option ThreadCurrentOutcome) (turns : list json)
    : option ThreadCurrentOutcome :=
  match mode with
  | ModeAppend => previous
  | ModeLive => advanceThreadOutcome previous turns None
  | ModeReset => latestThreadOutcome turns
  | _ => match latestThreadOutcome turns with Some outcome => Some outcome | None => previous end
  end.

(** [previousMeta?.currentUsage ?? null]. *)
Definition previousUsage (meta : option ThreadDetailRow) : option ThreadCurrentUsage :=
  mjoin (metaField r_currentUsage meta).
Definition previousOutcome (meta : option ThreadDetailRow) : option ThreadCurrentOutcome :=
  mjoin (metaField r_currentOutcome meta).

Definition firstSome {A} (a b : option A) : option A := match a with Some _ => a | None => b end.

(** [publishThread] up to its commit; [facts] are the durable rows it read. *)
Definition planPublish (input : PublishInput) (facts resident : list ThreadDetailRow) : Projection :=
  let existingRows := mergeHistoryFacts facts resident in
  let currentEpoch := rowsEpoch existingRows in
  let currentRows := keep (inCurrentEpoch currentEpoch) existingRows in
  let previousMeta := findRow isThread existingRows in
  let epoch := publishedEpoch input existingRows currentRows in
  let disconnected := negb (epoch =? currentEpoch) in
  let hadTurns := publishedHadTurns input existingRows previousMeta in
  let thread := publishedThread input currentRows in
  let ordinalRows := if bool_decide (pi_mode input = ModeReset) || disconnected then [] else currentRows in
  let ordinals := projectAuthoritativeTurnOrdinals ordinalRows (turnId <$> threadTurns thread) in
  let coverage := projectAuthoritativeCoverage previousMeta existingRows currentEpoch epoch
                    (historyTurns (pi_incoming input)) ordinals (pi_mode input) hadTurns in
  {| pj_authority := if bool_decide (pi_mode input = ModeLive) then Live else Authoritative;
     pj_connectionId := pi_connectionId input; pj_durable := true; pj_facts := facts;
     pj_historyCursor := None; pj_historyEpoch := epoch; pj_mutableRepositions := []; pj_ordinals := ordinals;
     pj_pruneMissingMutable := bool_decide (pi_mode input = ModeAuthoritative);
     pj_replaceExisting := bool_decide (pi_mode input = ModeReset); pj_threadId := turnId thread;
     pj_threadMeta := Some
       (threadRow (pi_connectionId input) thread (Some (pi_sessionId input)) (pi_openedAt input) epoch
          {| tf_historyCursor := publishedCursor input disconnected previousMeta; tf_historyHadTurns := hadTurns;
             tf_min := hc_min coverage; tf_max := hc_max coverage;
             tf_projectionCursor := firstSome (pi_projectionCursor input) (metaField r_projectionCursor previousMeta);
             tf_sourceWitness := firstSome (pi_sourceWitness input) (metaField r_historySourceWitness previousMeta);
             tf_usage := publishedUsage (pi_mode input) (previousUsage previousMeta) (threadTurns thread);
             tf_outcome := publishedOutcome (pi_mode input) (previousOutcome previousMeta) (threadTurns thread) |});
     pj_turns := threadTurns thread |}.

End plans.

(** ** The live slice *)

(** [reusable ?? nextOrdinal++] over the turns; a row known under the turn or under
    the key the turn gets keeps its place. *)
Fixpoint liveOrdinals (connectionId threadId : jstr) (epoch nextOrdinal : Z) (turns : list json)
    (s : Source.ThreadDetailSource) : list (jstr * Z) :=
  match turns with
  | [] => []
  | turn :: turns =>
      let previous := key ← Source.turnRowKey connectionId threadId (turnId turn) s; Source.get key s in
      let currentByKey := Source.get (turnStorageKey connectionId threadId turn) s in
      match firstSome (reusableTurnOrdinal previous epoch) (reusableTurnOrdinal currentByKey epoch) with
      | Some ordinal => (turnId turn, ordinal) :: liveOrdinals connectionId threadId epoch nextOrdinal turns s
      | None => (turnId turn, nextOrdinal) :: liveOrdinals connectionId threadId epoch (nextOrdinal + 1) turns s
      end
  end.

(** [?? -1] of a maximum that may be missing. *)
Definition knownMaximum (row : ThreadDetailRow) : Z := default (-1) (mjoin (r_historyCoverageMaxOrdinal row)).

(** [publishLiveSlice]: nothing unless the thread row is resident. *)
Definition planLiveSlice (connectionId : jstr) (thread : json) (startedTurnId : option jstr)
    (s : Source.ThreadDetailSource) : option Projection :=
  meta ← Source.threadMetaRow connectionId (turnId thread) s;
  let epoch := r_historyEpoch meta in
  let bounds := (Source.ordinalBounds connectionId (turnId thread) epoch s).1 in
  let nextOrdinal := Z.max (default (-1) (fst <$> bounds)) (knownMaximum meta) + 1 in
  let turns := threadTurns thread in
  Some {| pj_authority := Live; pj_connectionId := connectionId; pj_durable := true; pj_facts := [];
          pj_historyCursor := None; pj_historyEpoch := epoch; pj_mutableRepositions := [];
          pj_ordinals := mfrom (liveOrdinals connectionId (turnId thread) epoch nextOrdinal turns s);
          pj_pruneMissingMutable := false; pj_replaceExisting := false; pj_threadId := turnId thread;
          pj_threadMeta := Some
            (threadRow connectionId thread (r_sessionId meta) (r_lastOpenedAt meta) epoch
               {| tf_historyCursor := r_historyCursor meta;
                  tf_historyHadTurns := Some (bool_decide (r_historyHadTurns meta = Some true)
                    || negb (bool_decide (turns = []))
                    || existsb isTurn (Source.rowsForThread connectionId (turnId thread) s));
                  tf_min := r_historyCoverageMinOrdinal meta; tf_max := r_historyCoverageMaxOrdinal meta;
                  tf_projectionCursor := r_projectionCursor meta;
                  tf_sourceWitness := r_historySourceWitness meta;
                  tf_usage := advanceThreadUsage (mjoin (r_currentUsage meta)) turns;
                  tf_outcome := advanceThreadOutcome (mjoin (r_currentOutcome meta)) turns startedTurnId |});
          pj_turns := turns |}.

(** ** Older pages of one cursor chain *)

(** The thread row after a page, with nothing but its history changed. *)
Definition pagedThreadRow (connectionId : jstr) (metadata : ThreadDetailRow) (thread : json) (epoch : Z)
    (cursor : option (option jstr)) (hadTurns : bool) (coverage : HistoryCoverage) (witness : option jstr)
    : ThreadDetailRow :=
  threadRow connectionId thread (r_sessionId metadata) (r_lastOpenedAt metadata) epoch
    {| tf_historyCursor := cursor; tf_historyHadTurns := Some hadTurns; tf_min := hc_min coverage;
       tf_max := hc_max coverage; tf_projectionCursor := r_projectionCursor metadata;
       tf_sourceWitness := witness; tf_usage := mjoin (r_currentUsage metadata);
       tf_outcome := mjoin (r_currentOutcome metadata) |}.

Definition planPrepend (connectionId threadId : jstr) (historyEpoch : Z) (turns : list json)
    (nextCursor : option jstr) (facts : list ThreadDetailRow) (s : Source.ThreadDetailSource) : Projection :=
  let existing := mergeHistoryFacts facts (Source.rowsForThread connectionId threadId s) in
  let ordinals := projectPrependedTurnOrdinals existing historyEpoch (turnId <$> turns) in
  let metadata := Source.get (threadMetaKey connectionId threadId) s in
  let coverage := extendAuthoritativeCoverage metadata turns ordinals in
  {| pj_authority := Authoritative; pj_connectionId := connectionId; pj_durable := true; pj_facts := facts;
     pj_historyCursor := match metadata with
                         | Some m => if isThread m then None else Some nextCursor
                         | None => Some nextCursor
                         end;
     pj_historyEpoch := historyEpoch; pj_mutableRepositions := []; pj_ordinals := ordinals;
     pj_pruneMissingMutable := false; pj_replaceExisting := false; pj_threadId := threadId;
     pj_threadMeta := m ← metadata; thread ← (if isThread m then r_thread m else None);
       Some (pagedThreadRow connectionId m thread historyEpoch (Some nextCursor)
               (bool_decide (r_historyHadTurns m = Some true) || negb (bool_decide (turns = []))) coverage
               (r_historySourceWitness m));
     pj_turns := turns |}.

(** ** Pages read from an anchor *)

Inductive AnchorDirection := ToNewer | ToOlder (hasMore : bool).

Record AnchoredPage :=
  { ap_anchorTurnId : jstr; ap_connectionId : jstr; ap_direction : AnchorDirection; ap_historyEpoch : Z;
    ap_requestedSourceWitness : option jstr; ap_sourceWitness : jstr; ap_threadId : jstr; ap_turns : list json }.

Inductive AnchoredOutcome := PageRejected | PageUnchanged | PageCommit (projection : Projection).

Definition sealedIn (epoch : Z) (row : ThreadDetailRow) : bool :=
  isTurn row && r_sealed row && (r_historyEpoch row =? epoch).

Definition pageBase (input : AnchoredPage) (anchor : ThreadDetailRow) : Z :=
  match ap_direction input with
  | ToNewer => r_ordinal anchor + 1
  | ToOlder _ => r_ordinal anchor - Z.of_nat (length (ap_turns input))
  end.

(** A sealed turn and the page agree on who is at the places of both. *)
Definition agrees (ordinals : list (jstr * Z)) (idsByOrdinal : list (Z * jstr)) (row : ThreadDetailRow) : bool :=
  match r_remoteTurnId row with
  | None => true
  | Some id =>
      match mget id ordinals with Some ordinal => ordinal =? r_ordinal row | None => true end
      && match mget (r_ordinal row) idsByOrdinal with Some expected => bool_decide (expected = id) | None => true end
  end.

Definition maximumOrdinal (p : ThreadDetailRow -> bool) (facts : list ThreadDetailRow) (first : Z) : Z :=
  foldl (fun maximum row => if p row then Z.max maximum (r_ordinal row) else maximum) first facts.

(** An unfinished turn whose place the sealed history now reaches. *)
Definition displaced (epoch sealedMaximum : Z) (ordinals : list (jstr * Z)) (row : ThreadDetailRow) : option jstr :=
  id ← r_remoteTurnId row;
  if isTurn row && negb (r_sealed row) && (r_historyEpoch row =? epoch)
     && match r_turn row with Some turn => turnInProgress turn | None => false end
     && negb (mhas id ordinals) && (r_ordinal row <=? sealedMaximum)
  then Some id else None.

(** Each displaced turn moves, with its metadata and activity, to the next place. *)
Fixpoint repositions (epoch : Z) (facts : list ThreadDetailRow) (nextOrdinal : Z) (ids : list jstr)
    : list ThreadDetailRow :=
  match ids with
  | [] => []
  | id :: ids =>
      (withPlace epoch nextOrdinal <$>
         keep (fun family => bool_decide (r_remoteTurnId family = Some id) && (r_historyEpoch family =? epoch)) facts)
      ++ repositions epoch facts (nextOrdinal + 1) ids
  end.

(** [persistAnchoredPage] once the durable facts and, for an older page, the
    earliest known ordinal are read. *)
Definition planAnchoredPage (current : bool) (input : AnchoredPage) (durable resident : list ThreadDetailRow)
    (minimum : option Z) : AnchoredOutcome :=
  let facts := mergeHistoryFacts durable resident in
  let epoch := ap_historyEpoch input in
  let turns := ap_turns input in
  match findRow isThread facts,
        findRow (fun row => sealedIn epoch row && bool_decide (r_remoteTurnId row = Some (ap_anchorTurnId input))) facts with
  | Some metadata, Some anchor =>
      match r_thread metadata with
      | None => PageRejected
      | Some thread =>
          let base := pageBase input anchor in
          let places := numbered base (turnId <$> turns) in
          let ordinals := mfrom places in
          let idsByOrdinal := mfrom (swap <$> places) in
          let cursor :=
            match ap_direction input with
            | ToOlder false =>
                match minimum with
                | Some m => if base <=? m then Some None else r_historyCursor metadata
                | None => Some None
                end
            | _ => r_historyCursor metadata
            end in
          if negb current || negb (r_historyEpoch metadata =? epoch)
             || (bool_decide (ap_requestedSourceWitness input = None)
                 && bool_decide (is_Some (r_historySourceWitness metadata)))
             || negb (forallb (agrees ordinals idsByOrdinal) (keep (sealedIn epoch) facts))
          then PageRejected
          else if bool_decide (turns = []) && bool_decide (cursor = r_historyCursor metadata)
                  && bool_decide (Some (ap_sourceWitness input) = r_historySourceWitness metadata)
          then PageUnchanged
          else
            let coverage := extendAuthoritativeCoverage (Some metadata) turns ordinals in
            let sealedMaximum := maximumOrdinal (sealedIn epoch) facts
              (Z.max (base + Z.of_nat (length turns) - 1) (knownMaximum metadata)) in
            let nextOrdinal := maximumOrdinal (fun row => isTurn row && (r_historyEpoch row =? epoch)) facts
              sealedMaximum + 1 in
            PageCommit
              {| pj_authority := Authoritative; pj_connectionId := ap_connectionId input; pj_durable := true;
                 pj_facts := facts; pj_historyCursor := None; pj_historyEpoch := epoch;
                 pj_mutableRepositions :=
                   repositions epoch facts nextOrdinal (omap (displaced epoch sealedMaximum ordinals) facts);
                 pj_ordinals := ordinals; pj_pruneMissingMutable := false; pj_replaceExisting := false;
                 pj_threadId := ap_threadId input;
                 pj_threadMeta := Some (pagedThreadRow (ap_connectionId input) metadata thread epoch cursor true
                                          coverage (Some (ap_sourceWitness input)));
                 pj_turns := turns |}
      end
  | _, _ => PageRejected
  end.

(** ** A list snapshot *)

Definition mergeThreadPresentationMetadata (detail snapshot : json) : json :=
  foldl (fun thread k => copyField k (field k snapshot) thread) detail
    ["agentNickname"; "agentRole"; "cwd"; "name"; "parentThreadId"; "preview"; "recencyAt"; "updatedAt"].

(** The thread row after a list snapshot of the thread, if it has one. *)
Definition snapshotThreadRow (connectionId : jstr) (snapshot : json) (s : Source.ThreadDetailSource)
    (row : ThreadDetailRow) : option ThreadDetailRow :=
  thread ← r_thread row;
  Some (threadRow connectionId (mergeThreadPresentationMetadata thread snapshot) (r_sessionId row)
          (r_lastOpenedAt row) (r_historyEpoch row)
          {| tf_historyCursor := r_historyCursor row;
             tf_historyHadTurns :=
               if bool_decide (r_historyHadTurns row = Some true)
                  || existsb isTurn (Source.rowsForThread connectionId (r_remoteThreadId row) s)
               then Some true else r_historyHadTurns row;
             tf_min := r_historyCoverageMinOrdinal row; tf_max := r_historyCoverageMaxOrdinal row;
             tf_projectionCursor := r_projectionCursor row; tf_sourceWitness := r_historySourceWitness row;
             tf_usage := mjoin (r_currentUsage row); tf_outcome := mjoin (r_currentOutcome row) |}).

Definition projectionOperationClosesStartedShell (kind : jstr) : bool :=
  bool_decide (kind = js "turnCompleted" \/ kind = js "threadDeleted").

(** What of a batch a snapshot has not covered: the events after its cursor. *)
Definition projectionPatchesAfterSnapshot (connectionId : jstr) (s : Source.ThreadDetailSource)
    (events : list (Z * (jstr * json))) : list (jstr * json) :=
  omap (fun event =>
          match Source.threadMetaRow connectionId event.2.1 s ≫= r_projectionCursor with
          | Some cursor => if event.1 <=? cursor then None else Some event.2
          | None => Some event.2
          end) events.

(** ** Every plan places its turns *)

Definition placed (p : Projection) : Prop :=
  forall turn, turn ∈ pj_turns p -> is_Some (mget (turnId turn) (pj_ordinals p)).

Lemma placed_by {V} (es : list (jstr * V)) turns turn :
  es.*1 = turnId <$> turns -> turn ∈ turns -> is_Some (mget (turnId turn) (mfrom es)).
Proof. intros E Hin. apply mget_mfrom_has. rewrite E. by apply list_elem_of_fmap_2. Qed.

Lemma liveOrdinals_keys c t e n turns s : (liveOrdinals c t e n turns s).*1 = turnId <$> turns.
Proof.
  revert n. induction turns as [|turn turns IH]; intros n; [done|]. cbn [liveOrdinals].
  destruct (firstSome _ _); cbn [fmap list_fmap]; by rewrite IH.
Qed.

Lemma publish_placed sameObject localeCompare input facts resident :
  placed (planPublish sameObject localeCompare input facts resident).
Proof.
  intros turn Hin. unfold planPublish in *. cbn [pj_turns pj_ordinals] in *.
  unfold projectAuthoritativeTurnOrdinals. by eapply placed_by; [apply numbered_keys|].
Qed.

Lemma live_placed c thread started s p : planLiveSlice c thread started s = Some p -> placed p.
Proof.
  unfold planLiveSlice. destruct (Source.threadMetaRow _ _ _) as [meta|]; [|done]. cbn [mbind option_bind].
  intros [= <-] turn Hin. cbn [pj_turns pj_ordinals] in *.
  by eapply placed_by; [apply liveOrdinals_keys|].
Qed.

Lemma prepend_placed c t e turns next facts s : placed (planPrepend c t e turns next facts s).
Proof.
  intros turn Hin. unfold planPrepend in *. cbn [pj_turns pj_ordinals] in *.
  unfold projectPrependedTurnOrdinals. by eapply placed_by; [apply prepended_keys|].
Qed.

(** ** A page read from an anchor *)

(** What a page that is committed was checked against. *)
Record pageChecked (input : AnchoredPage) (facts : list ThreadDetailRow) (p : Projection) : Prop :=
  { pc_anchor : exists anchor metadata, anchor ∈ facts /\ sealedIn (ap_historyEpoch input) anchor = true
      /\ r_remoteTurnId anchor = Some (ap_anchorTurnId input)
      /\ findRow isThread facts = Some metadata /\ r_historyEpoch metadata = ap_historyEpoch input
      /\ pj_ordinals p = mfrom (numbered (pageBase input anchor) (turnId <$> ap_turns input))
      /\ (forall row, row ∈ facts -> sealedIn (ap_historyEpoch input) row = true ->
            agrees (pj_ordinals p) (mfrom (swap <$> numbered (pageBase input anchor) (turnId <$> ap_turns input))) row = true)
      /\ exists sealedMaximum nextOrdinal,
           sealedMaximum = maximumOrdinal (sealedIn (ap_historyEpoch input)) facts
             (Z.max (pageBase input anchor + Z.of_nat (length (ap_turns input)) - 1) (knownMaximum metadata))
           /\ nextOrdinal = maximumOrdinal (fun row => isTurn row && (r_historyEpoch row =? ap_historyEpoch input)) facts
                              sealedMaximum + 1
           /\ pj_mutableRepositions p = repositions (ap_historyEpoch input) facts nextOrdinal
                (omap (displaced (ap_historyEpoch input) sealedMaximum (pj_ordinals p)) facts);
    pc_turns : pj_turns p = ap_turns input }.

Lemma page_checked current input durable resident minimum p :
  planAnchoredPage current input durable resident minimum = PageCommit p ->
  pageChecked input (mergeHistoryFacts durable resident) p.
Proof.
  unfold planAnchoredPage. set (facts := mergeHistoryFacts durable resident).
  destruct (findRow isThread facts) as [metadata|] eqn:Em; [|done].
  destruct (findRow (fun row => sealedIn _ row && _) facts) as [anchor|] eqn:Ea; [|done].
  destruct (r_thread metadata) as [thread|]; [|done].
  destruct (negb current || _ || _ || _) eqn:Ec; [done|]. destruct (_ && _ && _); [done|]. intros [= <-].
  apply findRow_some in Ea as [[Hs Hid%bool_decide_eq_true]%andb_true_iff Hin].
  apply orb_false_iff in Ec as [[[_ Hepoch%negb_false_iff%Z.eqb_eq]%orb_false_iff _]%orb_false_iff Hagree%negb_false_iff].
  split; [|done]. exists anchor, metadata. split_and!; [done..| |by eexists _, _].
  intros row Hrow Hsealed. apply forallb_forall with (x := row) in Hagree; [done|].
  apply list_elem_of_In, elem_keep. by split.
Qed.

Lemma maximumOrdinal_bounds p facts first :
  first <= maximumOrdinal p facts first
  /\ forall row, row ∈ facts -> p row = true -> r_ordinal row <= maximumOrdinal p facts first.
Proof.
  unfold maximumOrdinal. revert first. induction facts as [|r facts IH]; intros first; simpl.
  - split; [lia|]. by intros row ?%elem_of_nil.
  - destruct (IH (if p r then Z.max first (r_ordinal r) else first)) as [H1 H2].
    split; [destruct (p r); lia|]. intros row [->|Hin]%elem_of_cons Hp; [|by apply H2]. rewrite Hp in *. lia.
Qed.

Lemma elem_repositions epoch facts next ids row :
  row ∈ repositions epoch facts next ids <->
  exists i id family, ids !! i = Some id /\ family ∈ facts /\ r_remoteTurnId family = Some id
    /\ r_historyEpoch family = epoch /\ row = withPlace epoch (next + Z.of_nat i) family.
Proof.
  revert next. induction ids as [|id ids IH]; intros next; cbn [repositions].
  - split; [by intros ?%elem_of_nil|]. by intros (i & ? & ? & ? & _).
  - rewrite elem_of_app, IH, list_elem_of_fmap. split.
    + intros [(family & -> & [[Hid%bool_decide_eq_true He%Z.eqb_eq]%andb_true_iff Hin]%elem_keep)
             |(i & id' & family & Hi & Hin & Hid & He & ->)].
      * exists O, id, family. rewrite Z.add_0_r. by split_and!.
      * exists (S i), id', family. split_and!; [done..|]. f_equal. lia.
    + intros ([|i] & id' & family & Hi & Hin & Hid & He & ->); simpl in Hi.
      * left. injection Hi as ->. exists family. rewrite Z.add_0_r. split; [done|]. apply elem_keep. split; [|done].
        rewrite He, Z.eqb_refl, andb_true_r. by apply bool_decide_eq_true.
      * right. exists i, id', family. split_and!; [done..|]. f_equal. lia.
Qed.

(** A page read from an anchor is written only where it fits the sealed history:
    its turns take consecutive places next to the anchor, in page order; a sealed
    turn that is also in the page keeps its place, and no other turn takes the
    place of a sealed one; and a turn still being written whose place the sealed
    history reaches moves, with its metadata and activity, behind everything that
    is known, no two turns to one place. *)
Theorem anchored_page_places current input durable resident minimum p :
  planAnchoredPage current input durable resident minimum = PageCommit p ->
  NoDup (turnId <$> ap_turns input) ->
  let facts := mergeHistoryFacts durable resident in
  let epoch := ap_historyEpoch input in
  exists anchor, anchor ∈ facts /\ r_remoteTurnId anchor = Some (ap_anchorTurnId input)
  /\ (forall id o, mget id (pj_ordinals p) = Some o <->
        exists i, (turnId <$> ap_turns input) !! i = Some id
             /\ o = match ap_direction input with
                    | ToNewer => r_ordinal anchor + 1 + Z.of_nat i
                    | ToOlder _ => r_ordinal anchor - Z.of_nat (length (ap_turns input)) + Z.of_nat i
                    end)
  /\ (forall row id, row ∈ facts -> sealedIn epoch row = true -> r_remoteTurnId row = Some id ->
        (forall o, mget id (pj_ordinals p) = Some o -> o = r_ordinal row)
        /\ forall other, mget other (pj_ordinals p) = Some (r_ordinal row) -> other = id)
  /\ (forall moved, moved ∈ pj_mutableRepositions p ->
        (exists family, family ∈ facts /\ r_historyEpoch family = epoch /\ moved = withPlace epoch (r_ordinal moved) family)
        /\ (forall row, row ∈ facts -> isTurn row = true -> r_historyEpoch row = epoch -> r_ordinal row < r_ordinal moved)
        /\ (forall id o, mget id (pj_ordinals p) = Some o -> o < r_ordinal moved))
  /\ (forall a b, a ∈ pj_mutableRepositions p -> b ∈ pj_mutableRepositions p ->
        r_ordinal a = r_ordinal b -> r_remoteTurnId a = r_remoteTurnId b).
Proof.
  intros [(anchor & metadata & Ha & Hs & Hid & Hm & He & Ho & Hag & mx & next & Hmx & Hnext & Hrep) _]%page_checked Hn facts epoch.
  set (base := pageBase input anchor) in *.
  assert (Hplace : forall id o, mget id (pj_ordinals p) = Some o <->
            exists i, (turnId <$> ap_turns input) !! i = Some id /\ o = base + Z.of_nat i).
  { intros id o. rewrite Ho, mfrom_distinct by (by rewrite numbered_keys). by apply mget_numbered. }
  assert (Hlt : forall id o, mget id (pj_ordinals p) = Some o -> o <= base + Z.of_nat (length (ap_turns input)) - 1).
  { intros id o (i & Hi & ->)%Hplace. apply lookup_lt_Some in Hi. rewrite length_fmap in Hi. lia. }
  destruct (maximumOrdinal_bounds (sealedIn epoch) facts
              (Z.max (base + Z.of_nat (length (ap_turns input)) - 1) (knownMaximum metadata))) as [B1 _].
  destruct (maximumOrdinal_bounds (fun row => isTurn row && (r_historyEpoch row =? epoch)) facts mx) as [B2 B3].
  fold facts epoch in Hmx, Hnext, Hrep. rewrite <- Hmx in B1.
  exists anchor. split_and!; [done|done| | | |].
  - intros id o. rewrite Hplace. unfold base, pageBase. destruct (ap_direction input); done.
  - intros row id Hrow Hsealed Hrid. specialize (Hag row Hrow Hsealed). unfold agrees in Hag. rewrite Hrid in Hag.
    apply andb_true_iff in Hag as [H1 H2]. split.
    + intros o Ho'. rewrite Ho' in H1. by apply Z.eqb_eq.
    + intros other Hother. apply Hplace in Hother as (i & Hi & E).
      assert (Hback : mget (r_ordinal row) (mfrom (swap <$> numbered base (turnId <$> ap_turns input))) = Some other).
      { apply mget_distinct.
        - rewrite swap_fst. rewrite numbered_seq. apply NoDup_seqZ.
        - apply list_elem_of_fmap. exists (other, r_ordinal row). split; [done|]. apply elem_of_numbered. by exists i. }
      rewrite Hback in H2. by apply bool_decide_eq_true in H2.
  - intros moved Hmoved. rewrite Hrep in Hmoved.
    apply elem_repositions in Hmoved as (i & id & family & Hi & Hf & Hfid & Hfe & ->). split_and!.
    + by exists family.
    + intros row Hrow Ht Hre. specialize (B3 row Hrow). simpl in B3 |- *. rewrite Ht, Hre, Z.eqb_refl in B3.
      specialize (B3 eq_refl). lia.
    + intros id' o Ho'. apply Hlt in Ho'. simpl. lia.
  - intros a b Hma Hmb. rewrite Hrep in Hma, Hmb.
    apply elem_repositions in Hma as (i & id & fa & Hi & _ & Hfa & _ & ->).
    apply elem_repositions in Hmb as (j & id' & fb & Hj & _ & Hfb & _ & ->). simpl. intros E.
    assert (i = j) by lia. subst j. rewrite Hfa, Hfb. congruence.
Qed.

(** ** An execution *)

(** A turn still being written sits where an older cursor chain reaches: it moves. *)
Definition demo_mutable : ThreadDetailRow :=
  withContent false (Some (JObj [("id", JStr (js "m")); ("status", JStr (js "inProgress"))])) None None None
    (demo_turn_row "m" "m" 2 None).

Definition demo_anchored : AnchoredPage :=
  {| ap_anchorTurnId := js "z"; ap_connectionId := js "c"; ap_direction := ToNewer; ap_historyEpoch := 0;
     ap_requestedSourceWitness := None; ap_sourceWitness := js "w"; ap_threadId := js "t"; ap_turns := demo_page |}.

Definition demo_outcome : AnchoredOutcome :=
  planAnchoredPage true demo_anchored [demo_meta 0 0; demo_at "z" 0; demo_mutable] [] None.

Lemma anchored_page_places_witness :
  exists p, demo_outcome = PageCommit p /\ mget (js "a") (pj_ordinals p) = Some 1
    /\ (r_ordinal <$> pj_mutableRepositions p) = [3].
Proof.
  destruct demo_outcome as [| |p] eqn:E; [discriminate E|discriminate E|]. exists p. split; [reflexivity|].
  assert (Hn : NoDup (turnId <$> ap_turns demo_anchored)) by (apply (bool_decide_unpack _); vm_compute; exact I).
  destruct (anchored_page_places true demo_anchored [demo_meta 0 0; demo_at "z" 0; demo_mutable] [] None p E Hn)
    as (anchor & Hin & Hid & Hplaces & _).
  assert (Hanchor : r_ordinal anchor = 0).
  { assert (Em : mergeHistoryFacts [demo_meta 0 0; demo_at "z" 0; demo_mutable] []
                 = [demo_meta 0 0; demo_at "z" 0; demo_mutable]) by (vm_compute; reflexivity).
    rewrite Em, !elem_of_cons in Hin. destruct Hin as [->|[->|[->|Hin]]]; [discriminate Hid|reflexivity|discriminate Hid|].
    by apply elem_of_nil in Hin. }
  split.
  - apply Hplaces. exists O. split; [vm_compute; reflexivity|]. simpl. by rewrite Hanchor.
  - unfold demo_outcome in E. vm_compute in E. injection E as <-. vm_compute. reflexivity.
Defined.
