(* ===== verification/PageLaws.v ===== *)
(** * Pages and the index

    Composes DetailPages.v, which decides what a page of history becomes, with
    DetailCommit.v, which writes it over the resident rows of DetailSource.v. *)
From S2P Require Import Prelude JsMap Json ThreadItems ThreadEvents RenderWindow Delivery ThreadHead ThreadRows.
From S2P Require Import DetailSource DetailCommit CommitLaws DetailCoverage DetailPages.
Import Source.

(** The rows of one thread, as far as what is read back from the store goes. *)
Record rowsOf (c t : jstr) (facts : list ThreadDetailRow) : Prop :=
  { ro_keyed : Forall wellKeyed facts;
    ro_thread : forall row, row ∈ facts -> r_connectionId row = c /\ r_remoteThreadId row = t;
    ro_named : forall row thread, row ∈ facts -> isThread row = true -> r_thread row = Some thread -> turnId thread = t;
    ro_pending : forall row, row ∈ facts -> pendingEntry row <> None -> r_remoteTurnId row = None;
    ro_one : forall a b T, a ∈ facts -> b ∈ facts -> turnOf a = Some T -> turnOf b = Some T -> r_id a = r_id b }.

Lemma setTurns_id turns thread : turnId (setTurns turns thread) = turnId thread.
Proof. unfold setTurns. by apply turnId_set. Qed.

Lemma reconciled_id incoming head keep_ : turnId (reconcileAuthoritativeThread incoming head keep_) = turnId incoming.
Proof.
  unfold reconcileAuthoritativeThread. destruct (if keep_ then head else None); [apply setTurns_id|done].
Qed.

Lemma preserved_id incoming cached : turnId (preserveProjectedTurnMetadata incoming cached) = turnId incoming.
Proof.
  unfold preserveProjectedTurnMetadata. destruct cached as [cached|]; [|done].
  set (base := match asObject _ with Some _ => _ | None => _ end).
  assert (Hbase : turnId base = turnId incoming) by (subst base; case_match; [by apply turnId_set|done]).
  case_match; [done|]. by rewrite setTurns_id.
Qed.

Lemma published_id so lc input rows : turnId (publishedThread so lc input rows) = turnId (pi_incoming input).
Proof.
  unfold publishedThread. rewrite reconciled_id. case_match; [apply preserved_id|done].
Qed.

Lemma threadRow_wellKeyed c thread session opened e facts :
  separable c -> separable (turnId thread) -> wellKeyed (threadRow c thread session opened e facts).
Proof. intros Hc Ht. split_and!; [done..|]. by eexists. Qed.

Lemma plain_projection p m :
  pj_mutableRepositions p = [] ->
  (forall meta, pj_threadMeta p = Some meta -> wellKeyed meta /\ r_kind meta = ThreadRow) -> wfProjection p m.
Proof. intros E H. split; [done|..]; rewrite E; [by intros row ?%elem_of_nil|by intros row row' T ?%elem_of_nil]. Qed.

Lemma foldl_mset_other (l : list ThreadDetailRow) m k :
  k ∉ (r_id <$> l) -> mget k (foldl (fun m row => mset (r_id row) row m) m l) = mget k m.
Proof.
  revert m. induction l as [|r l IH]; intros m; simpl; [done|]. intros [Hne Hni]%not_elem_of_cons.
  rewrite IH by done. by apply mget_mset_ne.
Qed.

Lemma resident_in_facts facts resident row :
  NoDup (r_id <$> resident) -> row ∈ resident -> row ∈ mergeHistoryFacts facts resident.
Proof.
  intros Hn Hin. unfold mergeHistoryFacts.
  set (m0 := mfrom ((fun row => (r_id row, row)) <$> facts)). clearbody m0.
  cut (mget (r_id row) (foldl (fun m row => mset (r_id row) row m) m0 resident) = Some row).
  { intros H%mget_elem. apply list_elem_of_fmap. by exists (r_id row, row). }
  revert m0. induction resident as [|r resident IH]; intros m0; [by apply elem_of_nil in Hin|].
  rewrite fmap_cons in Hn. apply NoDup_cons in Hn as [Hni Hn]. simpl.
  apply elem_of_cons in Hin as [->|Hin]; [|by apply IH].
  rewrite foldl_mset_other by done. apply mget_mset_eq.
Qed.

Section index.
Variables (sameObject : json -> json -> bool) (sameItems : list json -> list json -> bool)
  (localeCompare : jstr -> jstr -> Z).

(** The projections the database makes from its rows and the durable facts. *)
Inductive planned (s : ThreadDetailSource) : Projection -> Prop :=
| planned_publish input facts :
    separable (pi_connectionId input) -> separable (turnId (pi_incoming input)) -> factsKeyed facts ->
    planned s (planPublish sameObject localeCompare input facts
                 (rowsForThread (pi_connectionId input) (turnId (pi_incoming input)) s))
| planned_live c thread started p :
    separable c -> separable (turnId thread) -> planLiveSlice c thread started s = Some p -> planned s p
| planned_prepend c t e turns next facts :
    separable c -> separable t -> factsKeyed facts ->
    (forall m thread, get (threadMetaKey c t) s = Some m -> r_thread m = Some thread -> turnId thread = t) ->
    planned s (planPrepend c t e turns next facts s)
| planned_anchored current input durable minimum p :
    separable (ap_connectionId input) -> separable (ap_threadId input) ->
    let resident := rowsForThread (ap_connectionId input) (ap_threadId input) s in
    rowsOf (ap_connectionId input) (ap_threadId input) (mergeHistoryFacts durable resident) ->
    planAnchoredPage current input durable resident minimum = PageCommit p -> planned s p.

Lemma anchored_shape current input durable resident minimum p :
  planAnchoredPage current input durable resident minimum = PageCommit p ->
  let facts := mergeHistoryFacts durable resident in
  pj_connectionId p = ap_connectionId input /\ pj_threadId p = ap_threadId input /\ pj_facts p = facts
  /\ exists metadata thread cursor coverage witness,
       findRow isThread facts = Some metadata /\ r_thread metadata = Some thread
       /\ pj_threadMeta p = Some (pagedThreadRow (ap_connectionId input) metadata thread (ap_historyEpoch input)
                                    cursor true coverage witness).
Proof.
  unfold planAnchoredPage. destruct (findRow isThread _) as [metadata|] eqn:Em; [|done].
  destruct (findRow (fun row => sealedIn _ row && _) _) as [anchor|]; [|done].
  destruct (r_thread metadata) as [thread|] eqn:Et; [|done].
  destruct (negb current || _ || _ || _); [done|]. destruct (_ && _ && _); [done|]. intros [= <-].
  split_and!; [done..|]. by eexists _, _, _, _, _.
Qed.

Lemma anchored_wf s current input durable minimum p :
  tracked s -> separable (ap_connectionId input) -> separable (ap_threadId input) ->
  let resident := rowsForThread (ap_connectionId input) (ap_threadId input) s in
  rowsOf (ap_connectionId input) (ap_threadId input) (mergeHistoryFacts durable resident) ->
  planAnchoredPage current input durable resident minimum = PageCommit p -> wfProjection p (rows s).
Proof.
  intros Hs Hc Ht resident Hro Hp. pose proof (anchored_shape _ _ _ _ _ _ Hp) as Hshape. cbv zeta in Hshape.
  apply page_checked in Hp. destruct Hp as [(anchor & metadata & _ & _ & _ & _ & _ & _ & _ & mx & next & _ & _ & Hrep) _].
  set (facts := mergeHistoryFacts durable resident) in *.
  assert (Hmoved : forall row, row ∈ pj_mutableRepositions p -> exists family o,
            family ∈ facts /\ is_Some (r_remoteTurnId family) /\ row = withPlace (ap_historyEpoch input) o family).
  { intros row Hrow. rewrite Hrep in Hrow. apply elem_repositions in Hrow as (i & id & family & _ & Hf & Hid & _ & ->).
    exists family. eexists. split_and!; [done|by rewrite Hid|done]. }
  split.
  - intros meta Hmeta. destruct Hshape as (_ & _ & _ & m & thread & cursor & coverage & witness & Hm & Hth & E).
    rewrite E in Hmeta. injection Hmeta as <-. split; [|done]. apply threadRow_wellKeyed; [done|].
    apply findRow_some in Hm as [Hk Hin]. by rewrite (ro_named _ _ _ Hro m thread).
  - intros row (family & o & Hf & Hturn & ->)%Hmoved. split.
    + split; [apply wellKeyed_place, (proj1 (Forall_forall _ _) (ro_keyed _ _ _ Hro)), Hf|].
      change (pendingEntry family = None). destruct (pendingEntry family) eqn:E; [|done].
      pose proof (ro_pending _ _ _ Hro family Hf) as Hn. rewrite E in Hn. destruct Hturn as [? Hturn].
      by rewrite Hn in Hturn.
    + intros T key row' HT Hg HT' [S1 S2]. destruct (ro_thread _ _ _ Hro family Hf) as [Ec Et].
      destruct (wf_keyed _ (tr_rows _ Hs) _ _ Hg) as [-> _]. symmetry.
      apply (ro_one _ _ _ Hro family row' T); [done| |done..].
      apply resident_in_facts; [by apply rowsForThread_nodup|]. apply rowsForThread_spec; [done..|].
      split_and!; [exact Hg|by rewrite <- S1|by rewrite <- S2].
  - intros a b T (fa & oa & Ha & _ & ->)%Hmoved (fb & ob & Hb & _ & ->)%Hmoved HTa HTb _.
    by apply (ro_one _ _ _ Hro fa fb T).
Qed.

(** A plan of the database can be committed, and its conditions on the rows hold. *)
Lemma planned_ready s p :
  tracked s -> planned s p ->
  placed p /\ separable (pj_connectionId p) /\ separable (pj_threadId p) /\ factsKeyed (pj_facts p)
  /\ wfProjection p (rows s).
Proof.
  intros Hs Hp. destruct Hp as [input facts Hc Ht Hf|c t started p Hc Ht Hp|c t e turns next facts Hc Ht Hf Hn
                               |current input durable minimum p Hc Ht resident Hro Hp].
  - pose proof (published_id sameObject localeCompare input) as Hid.
    split_and!; [apply publish_placed|done| |done|].
    + unfold planPublish. cbn [pj_threadId]. by rewrite Hid.
    + apply plain_projection; [done|]. unfold planPublish. cbn [pj_threadMeta]. intros meta [= <-]. split; [|done].
      apply threadRow_wellKeyed; [done|]. by rewrite Hid.
  - pose proof (live_placed _ _ _ _ _ Hp) as Hplaced. unfold planLiveSlice in Hp.
    destruct (threadMetaRow _ _ _) as [meta|]; [|done]. cbn [mbind option_bind] in Hp. injection Hp as <-.
    split_and!; [done..|constructor|]. apply plain_projection; [done|]. intros m [= <-]. split; [|done].
    by apply threadRow_wellKeyed.
  - split_and!; [apply prepend_placed|done..|]. apply plain_projection; [done|].
    unfold planPrepend. cbn [pj_threadMeta]. intros meta Hmeta.
    destruct (get (threadMetaKey c t) s) as [m|] eqn:Eg; [|done]. cbn [mbind option_bind] in Hmeta.
    destruct (isThread m); [|done]. destruct (r_thread m) as [thread|] eqn:Et; [|done]. injection Hmeta as <-.
    split; [|done]. apply threadRow_wellKeyed; [done|]. by rewrite (Hn m thread).
  - destruct (anchored_shape _ _ _ _ _ _ Hp) as (Ec & Et & Ef & _).
    split_and!.
    + pose proof (page_checked _ _ _ _ _ _ Hp) as [(anchor & metadata & _ & _ & _ & _ & _ & Ho & _) Hturns].
      intros turn Hin. rewrite Ho. rewrite Hturns in Hin. by eapply placed_by; [apply numbered_keys|].
    + by rewrite Ec.
    + by rewrite Et.
    + rewrite Ef. apply Hro.
    + by eapply anchored_wf.
Qed.

(** C7. Every transaction the database plans for a thread (an authoritative or a
    live thread, an older page or a page from an anchor) can be committed: every
    turn it carries has its ordinal, so it fails only with the durable store; and
    after the commit every index of the resident rows is exact for the rows it
    left.  Which of the planned rows the commit declines to write is not claimed
    here: see [live_rekey_drops_sealed] and [checkpoint_not_stored]. *)
Theorem plans_keep_index s p overlays :
  tracked s -> planned s p ->
  let r := commitThreadProjection sameObject sameItems false p s overlays in
  is_Some (tr_committed _ r) /\ tracked (tr_source _ r).
Proof.
  intros Hs Hp r. destruct (planned_ready s p Hs Hp) as (Hplaced & Hc & Ht & Hf & Hw).
  assert (Hcommit : tr_committed _ r <> None).
  { subst r. unfold commitThreadProjection, runWriteTransaction, projectThread.
    destruct (projectionChanges _ _ p (beginTx s overlays)) as [n tx1].
    pose proof (commitTurns_none sameObject sameItems p (pj_turns p) tx1) as H.
    destruct (commitTurns _ _ p (pj_turns p) tx1) as [[k|] tx2]; [done|]. cbn [fst] in H.
    destruct (proj1 H eq_refl) as (turn & Hin & Hnone). destruct (Hplaced turn Hin). congruence. }
  split; [by apply not_eq_None_Some|]. by apply commit_keeps_index.
Qed.

End index.

(** ** An execution *)

Definition demo_publish : PublishInput :=
  {| pi_connectionId := demo_c;
     pi_incoming := JObj [("id", JStr demo_t); ("turns", JArr [demo_named "inProgress"])];
     pi_mode := ModeAuthoritative; pi_openedAt := 1; pi_preserveConcurrentHead := false;
     pi_historyCursor := Some None; pi_projectionCursor := Some 7; pi_sourceWitness := None;
     pi_sessionId := js "s" |}.

Definition demo_plan (s : ThreadDetailSource) : Projection :=
  planPublish demo_same (fun _ _ => 0) demo_publish [] (rowsForThread demo_c demo_t s).

Lemma plans_keep_index_witness :
  let s := demo_source Live "inProgress" in
  let r := commitThreadProjection demo_same demo_same_items false (demo_plan s) s [] in
  tr_value _ r = Some 3%nat /\ tracked (tr_source _ r)
  /\ turnRowKey demo_c demo_t (js "T") (tr_source _ r) = Some (turnStorageKey demo_c demo_t (demo_named "inProgress")).
Proof.
  cbv zeta. split; [vm_compute; reflexivity|]. split; [|vm_compute; reflexivity].
  destruct demo_separable as [Hc Ht].
  apply (plans_keep_index demo_same demo_same_items (fun _ _ => 0)); [apply demo_tracked|].
  apply (planned_publish demo_same (fun _ _ => 0) (demo_source Live "inProgress") demo_publish []);
    [exact Hc|exact Ht|constructor].
Defined.
