(* ===== verification/Ranking.v ===== *)
(** * Ranked lists

    Lists kept in the order of a comparator that ranks elements with different
    keys apart: the binary search that finds a place in one, and what inserting
    and replacing elements does to its first [n].  Shared by the views of the
    thread list. *)
From S2P Require Import Prelude.

Local Open Scope nat_scope.

(** A comparator as [Array.prototype.sort] takes it, strict on distinct keys. *)
Class Ranking {A K : Type} (compare : A -> A -> Z) (key : A -> K) : Prop :=
  { rank_sign : forall a b, (compare a b < 0 <-> 0 < compare b a)%Z;
    rank_trans : forall a b c, (compare a b <= 0 -> compare b c <= 0 -> compare a c <= 0)%Z;
    rank_key : forall a b, compare a b = 0%Z -> key a = key b }.

(** [while (low < high)] of a binary search for the first element that is not
    in front of [value]. *)
Fixpoint searchLower {A} (compare : A -> A -> Z) (rows : list A) (value : A) (fuel low high : nat) : nat :=
  match fuel with
  | O => low
  | S fuel =>
      if low <? high then
        let middle := (low + high) / 2 in
        match rows !! middle with
        | Some row =>
            if (compare row value <? 0)%Z then searchLower compare rows value fuel (middle + 1) high
            else searchLower compare rows value fuel low middle
        | None => searchLower compare rows value fuel low middle
        end
      else low
  end.

Section ranking.
Context {A K : Type} (compare : A -> A -> Z) (key : A -> K) `{!Ranking compare key}.

Definition notAfter (a b : A) : bool := (compare a b <=? 0)%Z.

Abbreviation ranked := (ordered notAfter).

Lemma notAfter_spec a b : notAfter a b = true <-> (compare a b <= 0)%Z.
Proof. apply Z.leb_le. Qed.

Lemma notAfter_total a b : notAfter a b = true \/ notAfter b a = true.
Proof. rewrite !notAfter_spec. pose proof (rank_sign a b). pose proof (rank_sign b a). lia. Qed.

Lemma notAfter_trans a b c : notAfter a b = true -> notAfter b c = true -> notAfter a c = true.
Proof. rewrite !notAfter_spec. apply rank_trans. Qed.

(** Not after is not strictly after. *)
Lemma notAfter_false a b : notAfter a b = false <-> (compare b a < 0)%Z.
Proof. unfold notAfter. rewrite Z.leb_gt. pose proof (rank_sign b a). lia. Qed.

Lemma insert_ranked x l : ranked l -> ranked (insertBy notAfter x l).
Proof. apply insertBy_ordered; [apply notAfter_total|apply notAfter_trans]. Qed.

Lemma sort_ranked l : ranked (sortBy notAfter l).
Proof. apply sortBy_ordered; [apply notAfter_total|apply notAfter_trans]. Qed.

(** Two ranked lists of the same elements with distinct keys are the same. *)
Lemma ranked_unique l1 l2 : ranked l1 -> ranked l2 -> l1 ≡ₚ l2 -> NoDup (key <$> l1) -> l1 = l2.
Proof.
  revert l2. induction l1 as [|x l1 IH]; intros [|y l2] H1 H2 Hp Hn.
  - done.
  - by apply Permutation_nil_l in Hp.
  - by apply Permutation_nil_r in Hp.
  - apply ordered_cons in H1 as [Hx H1], H2 as [Hy H2].
    assert (x = y) as <-.
    { assert (Hin : x ∈ y :: l2) by (rewrite <- Hp; left).
      assert (Hin' : y ∈ x :: l1) by (rewrite Hp; left).
      apply elem_of_cons in Hin as [->|Hin]; [done|]. apply elem_of_cons in Hin' as [->|Hin']; [done|].
      pose proof (proj1 (Forall_forall _ _) Hx y Hin') as Hxy%notAfter_spec.
      pose proof (proj1 (Forall_forall _ _) Hy x Hin) as Hyx%notAfter_spec.
      exfalso. apply NoDup_cons in Hn as [Hn _]. apply Hn.
      assert (key x = key y) as ->.
      { apply rank_key. pose proof (rank_sign x y). pose proof (rank_sign y x). lia. }
      exact (list_elem_of_fmap_2 key l1 y Hin'). }
    f_equal. apply NoDup_cons in Hn as [_ Hn]. apply IH; [done..| |done].
    by apply (Permutation_cons_inv (a := x)).
Qed.

(** ** The binary search *)

Lemma ranked_front l i j x y v :
  ranked l -> i <= j -> l !! i = Some x -> l !! j = Some y -> (compare y v < 0)%Z -> (compare x v < 0)%Z.
Proof.
  intros Ho Hij Hi Hj Hv. destruct (decide (i = j)) as [->|]; [by simplify_eq|].
  assert (Hxy : notAfter x y = true) by (apply (Ho i j); [lia|done..]).
  apply notAfter_false. apply notAfter_false in Hv.
  destruct (notAfter v x) eqn:E; [|done]. by rewrite (notAfter_trans v x y) in Hv.
Qed.

(** Everything before [low] is in front of the value, nothing from [high] on. *)
Lemma searchLower_bounds rows value fuel low high :
  ranked rows -> low <= high <= length rows -> high - low <= fuel ->
  (forall i x, i < low -> rows !! i = Some x -> (compare x value < 0)%Z) ->
  (forall i x, high <= i -> rows !! i = Some x -> notAfter value x = true) ->
  let r := searchLower compare rows value fuel low high in
  r <= length rows
  /\ (forall i x, i < r -> rows !! i = Some x -> (compare x value < 0)%Z)
  /\ (forall i x, r <= i -> rows !! i = Some x -> notAfter value x = true).
Proof.
  intros Ho. revert low high. induction fuel as [|fuel IH]; intros low high Hb Hf Hlow Hhigh; cbn [searchLower].
  - replace low with high in * by lia. split_and!; [lia|done..].
  - destruct (Nat.ltb_spec low high) as [Hlt|]; [|replace low with high in * by lia; split_and!; [lia|done..]].
    assert (Hm : low <= (low + high) / 2 < high)
      by (split; [apply Nat.div_le_lower_bound|apply Nat.Div0.div_lt_upper_bound]; lia).
    set (middle := (low + high) / 2) in *.
    destruct (lookup_lt_is_Some_2 rows middle ltac:(lia)) as [row Hrow]. rewrite Hrow.
    destruct (Z.ltb_spec (compare row value) 0) as [Hc|Hc].
    + apply IH; [lia|lia| |done]. intros i x Hi Hx.
      apply (ranked_front rows i middle x row); [done|lia|done..].
    + apply IH; [lia|lia|done|]. intros i x Hi Hx. apply notAfter_spec.
      apply Z.le_ngt. intros Hxv%rank_sign.
      pose proof (ranked_front rows middle i row x value Ho Hi Hrow Hx Hxv). lia.
Qed.

(** Inserting at a position with such bounds is inserting by rank. *)
Lemma insert_at_rank rows value r :
  (forall i x, i < r -> rows !! i = Some x -> (compare x value < 0)%Z) ->
  (forall i x, r <= i -> rows !! i = Some x -> notAfter value x = true) ->
  r <= length rows ->
  take r rows ++ value :: drop r rows = insertBy notAfter value rows.
Proof.
  revert r. induction rows as [|x rows IH]; intros [|r] Hlow Hhigh Hr; simpl in *; try done; try lia.
  - by rewrite (Hhigh 0 x).
  - rewrite (proj2 (notAfter_false value x)) by (apply (Hlow 0); [lia|done]).
    f_equal. apply IH; [|..|lia].
    + intros i y Hi. apply (Hlow (S i)). lia.
    + intros i y Hi. apply (Hhigh (S i)). lia.
Qed.

Lemma searchLower_insert rows value :
  ranked rows ->
  let r := searchLower compare rows value (length rows) 0 (length rows) in
  take r rows ++ value :: drop r rows = insertBy notAfter value rows.
Proof.
  intros Ho r.
  destruct (searchLower_bounds rows value (length rows) 0 (length rows) Ho) as (Hr & Hlow & Hhigh);
    [lia|lia|intros; lia|intros i x Hi Hx; apply lookup_lt_Some in Hx; lia|].
  by apply insert_at_rank.
Qed.

(** ** How many elements are in front *)

Definition inFront (v x : A) : Prop := (compare x v < 0)%Z.
#[local] Instance inFront_dec v x : Decision (inFront v x) := Z_lt_dec _ _.
Definition front (v : A) (l : list A) : nat := length (filter (inFront v) l).

Lemma front_perm v l1 l2 : l1 ≡ₚ l2 -> front v l1 = front v l2.
Proof. intros H. unfold front. by rewrite H. Qed.

Lemma front_cons v x l : front v (x :: l) = (if decide (inFront v x) then 1 else 0) + front v l.
Proof. unfold front. rewrite filter_cons. by destruct (decide (inFront v x)). Qed.

Lemma front_insert v x l : front v (insertBy notAfter x l) = front v (x :: l).
Proof. apply front_perm, insertBy_perm. Qed.

Lemma front_nothing v l : Forall (fun y => notAfter v y = true) l -> front v l = 0.
Proof.
  induction 1 as [|y l Hy _ IH]; [done|]. rewrite front_cons, IH.
  destruct (decide _) as [Hf|]; [|done]. unfold inFront in Hf. apply notAfter_false in Hf. congruence.
Qed.

(** The place found by the search is the number of elements in front. *)
Lemma searchLower_front rows value :
  ranked rows -> searchLower compare rows value (length rows) 0 (length rows) = front value rows.
Proof.
  intros Ho.
  destruct (searchLower_bounds rows value (length rows) 0 (length rows) Ho) as (Hr & Hlow & Hhigh);
    [lia|lia|intros; lia|intros i x Hi Hx; apply lookup_lt_Some in Hx; lia|].
  set (r := searchLower _ _ _ _ _ _) in *. clearbody r.
  clear Ho. revert rows Hr Hlow Hhigh. induction r as [|r IH]; intros [|x rows] Hr Hlow Hhigh; simpl in Hr; try done; try lia.
  - symmetry. apply front_nothing. apply Forall_lookup. intros i y Hy. apply (Hhigh i); [lia|done].
  - rewrite front_cons. rewrite decide_True by (apply (Hlow 0); [lia|done]). simpl. f_equal. apply IH; [lia|..].
    + intros i y Hi. apply (Hlow (S i)). lia.
    + intros i y Hi. apply (Hhigh (S i)). lia.
Qed.

(** An element that has [n] elements in front is not among the first [n]. *)
Lemma take_insert n v l : ranked l -> n <= front v l -> take n (insertBy notAfter v l) = take n l.
Proof.
  revert n. induction l as [|x l IH]; intros n Ho Hn; [unfold front in Hn; simpl in Hn; by replace n with 0 by lia|].
  pose proof Ho as [Hx Hl]%ordered_cons. simpl. destruct (notAfter v x) eqn:E.
  - rewrite front_nothing in Hn; [by replace n with 0 by lia|]. constructor; [done|].
    eapply Forall_impl; [exact Hx|]. intros y. by apply notAfter_trans.
  - destruct n as [|n]; [done|]. simpl. f_equal. apply IH; [done|].
    rewrite front_cons in Hn. destruct (decide _); lia.
Qed.

(** The first [n] of a ranked list and of more elements, each with [n] of the
    list in front. *)
Lemma take_sort n l e :
  ranked l -> Forall (fun x => n <= front x l) e -> take n (sortBy notAfter (e ++ l)) = take n (sortBy notAfter l).
Proof.
  intros Ho. induction e as [|x e IH]; [done|]. intros [Hx He]%Forall_cons. simpl.
  rewrite take_insert; [by apply IH|apply sort_ranked|].
  transitivity (front x l); [done|]. rewrite (front_perm x (sortBy notAfter (e ++ l)) (e ++ l)) by apply sortBy_perm.
  unfold front. rewrite filter_app, length_app. lia.
Qed.

Lemma sort_same l : ranked l -> NoDup (key <$> l) -> sortBy notAfter l = l.
Proof.
  intros Ho Hn. apply ranked_unique; [apply sort_ranked|done|apply sortBy_perm|].
  by rewrite sortBy_perm.
Qed.
End ranking.
