(* ===== verification/SummaryTypes.v ===== *)
(** * Thread summaries: the stored row and what is read into it

    Models, in apps/android/src/data, thread-summary-types.ts (the row and its
    normalisation), threadAgent.ts (the agent of a thread), threadPinState.ts,
    questionLifecycle.ts and thread-cache.ts (the preview of a
    thread).  A wire thread is a JSON value; the fields a row
    copies without reading them stay JSON. *)
From S2P Require Import Prelude JsMap Json SafeText ThreadItems Readers EventIndex ThreadEvents.

Local Open Scope nat_scope.

(** ** The agent of a thread *)

Record ThreadAgent :=
  { capabilities : list jstr; primary : bool; provider : option jstr; providerName : jstr }.

#[export] Instance ThreadAgent_eq_dec : EqDecision ThreadAgent.
Proof. solve_decision. Defined.

Definition MAX_PROVIDER_ID_CHARACTERS : nat := 64.
Definition MAX_CAPABILITY_CHARACTERS : nat := 128.
Definition MAX_CAPABILITIES : nat := 256.
Definition MAX_PROVIDER_NAME_CHARACTERS : nat := 64.

Definition parseAgentProviderId (value : option json) : option jstr :=
  s ← asString value;
  if (length s =? 0) || (MAX_PROVIDER_ID_CHARACTERS <? length s) || negb (bool_decide (trim s = s))
  then None else Some s.

Definition isCapabilityName (s : jstr) : bool :=
  (0 <? length s) && (length s <=? MAX_CAPABILITY_CHARACTERS).

Definition declaresSupport (value : json) : bool :=
  match value with JBool b => b | JStr s => negb (bool_decide (s = [])) | _ => false end.

Definition boundedNames (names : list jstr) : option (list jstr) :=
  if MAX_CAPABILITIES <? length names then None else Some names.

Definition supportedCapabilityNames (value : option json) : option (list jstr) :=
  match value with
  | Some (JArr l) =>
      boundedNames (omap (fun v => s ← asString (Some v); if isCapabilityName s then Some s else None) l)
  | Some (JObj record) =>
      boundedNames (omap (fun e => if isCapabilityName (js e.1) && declaresSupport e.2
                                   then Some (js e.1) else None) record)
  | _ => None
  end.

Definition providerDisplayName (value : option json) : option jstr :=
  s ← asString value;
  if negb (bool_decide (trim s = [])) && (length s <=? MAX_PROVIDER_NAME_CHARACTERS)
  then Some (trim s) else None.

Definition isPrimary (descriptor : option jobj) : bool :=
  negb (bool_decide (descriptor ≫= oget "primary" = Some (JBool false))).

Definition declaredThreadAgent (descriptor : option jobj) : option ThreadAgent :=
  d ← descriptor;
  provider ← parseAgentProviderId (oget "provider" d);
  capabilities ← supportedCapabilityNames (oget "capabilities" d);
  Some {| capabilities := capabilities; primary := isPrimary descriptor; provider := Some provider;
          providerName := default provider (providerDisplayName (oget "providerName" d)) |}.

Definition malformedThreadAgent (descriptor : option jobj) : ThreadAgent :=
  let provider := parseAgentProviderId (descriptor ≫= oget "provider") in
  {| capabilities := []; primary := isPrimary descriptor; provider := provider;
     providerName :=
       default (default (js "Agent") provider)
         (providerDisplayName (descriptor ≫= oget "providerName")) |}.

Definition readThreadAgent (thread : json) : option ThreadAgent :=
  let raw := field "codewideAgent" thread in
  if nullish raw then None
  else
    let descriptor := asObject raw in
    Some (default (malformedThreadAgent descriptor) (declaredThreadAgent descriptor)).

(** A stored agent as the object it is. *)
Definition agentJson (agent : option ThreadAgent) : json :=
  match agent with
  | None => JNull
  | Some a =>
      JObj [("capabilities", JArr (JStr <$> capabilities a)); ("primary", JBool (primary a));
            ("provider", jopt (provider a)); ("providerName", JStr (providerName a))]
  end.

Definition normalizeStoredThreadAgent (value : option ThreadAgent) : option ThreadAgent :=
  readThreadAgent (JObj [("codewideAgent", agentJson value)]).

(** ** Pins *)

Record ThreadPinState := { pin_cursor : Z; pin_pinned : bool }.

Definition validPinCursor (z : Z) : bool := ((0 <=? z) && (z <=? max_safe_integer))%Z.

Definition threadPinFromSnapshot (thread : json) : ThreadPinState :=
  let pin := optField "threadPin" (field "codewide" thread) in
  match isInt (optField "version" pin) 1, asBool (optField "pinned" pin), asSafeNat (optField "cursor" pin) with
  | true, Some pinned, Some cursor => {| pin_cursor := cursor; pin_pinned := pinned |}
  | _, _, _ => {| pin_cursor := 0; pin_pinned := false |}
  end.

(** ** Questions *)

Definition nonBlank (value : option json) : bool :=
  match asString value with Some s => negb (bool_decide (trim s = [])) | None => false end.

Definition validQuestion (question : json) : bool :=
  nonBlank (field "title" question)
  && (nullish (field "options" question)
      || match asArray (field "options" question) with
         | Some options => forallb (fun option => nonBlank (Some option)) options
         | None => false
         end).

Definition hasAsyncQuestions (item : json) : bool :=
  isType "agentMessage" item && isStr (field "delivery" item) "async"
  && match asArray (field "questions" item) with
     | Some questions => (0 <? length questions) && forallb validQuestion questions
     | None => false
     end.

Definition isFinalQuestionTurnMessage (item : json) : bool :=
  isType "agentMessage" item && isStr (field "phase" item) "final_answer"
  && negb (isStr (field "delivery" item) "async").

Definition closesAsyncQuestions (item : json) : bool :=
  isType "userMessage" item || isFinalQuestionTurnMessage item.

(** The questions a turn leaves open, as (item, turn id). *)
Definition turnQuestions (turn : json) : list (json * jstr) :=
  if negb (isStr (field "status" turn) "inProgress") then []
  else
    match asArray (field "items" turn) with
    | None => []
    | Some items =>
        if existsb isFinalQuestionTurnMessage items then []
        else
          foldl (fun pending item =>
                   if closesAsyncQuestions item then []
                   else if hasAsyncQuestions item then pending ++ [(item, strField "id" turn)]
                   else pending) [] items
    end.

Definition currentAsyncQuestions (turns : list json) : list (json * jstr) :=
  foldl (fun _ turn => turnQuestions turn) [] turns.

(** ** Previews *)

Definition isLineTerminator (c : N) : bool := bool_decide (c ∈ [10; 13; 8232; 8233]%N).

(** [(...)] after a closing bracket: the text after it. *)
Definition linkTarget (s : jstr) : option jstr :=
  match s with
  | 93%N :: 40%N :: r =>
      match dropWhile (fun c => negb (c =? 41)%N) r with _ :: r => Some r | [] => None end
  | _ => None
  end.

Definition isNotBracket (c : N) : bool := negb (c =? 93)%N.

(** An image [![text](target)] (the first expression), replaced by its text. *)
Definition imageMatch (previous : option N) (s : jstr) : option (jstr * nat) :=
  match s with
  | 33%N :: 91%N :: r =>
      rest ← linkTarget (dropWhile isNotBracket r);
      let alt := takeWhile isNotBracket r in
      Some (if bool_decide (trim alt = []) then js "Photo" else alt, length s - length rest)
  | _ => None
  end.

(** A link [[text](target)] (the second), replaced by its text, which is not
    empty. *)
Definition linkMatch (previous : option N) (s : jstr) : option (jstr * nat) :=
  match s with
  | 91%N :: r =>
      match takeWhile isNotBracket r with
      | [] => None
      | text =>
          rest ← linkTarget (dropWhile isNotBracket r);
          Some (text, length s - length rest)
      end
  | _ => None
  end.

(** White space after a mark, which must be there. *)
Definition spaced (s : jstr) : option jstr :=
  match takeWhile isSpace s with [] => None | _ => Some (dropWhile isSpace s) end.

Definition isDigit (c : N) : bool := ((48 <=? c) && (c <=? 57))%N.
Definition isHash (c : N) : bool := (c =? 35)%N.

(** The mark that begins a line: a heading, a quotation, a bullet or a number. *)
Definition lineMark (s : jstr) : option jstr :=
  match s with
  | [] => None
  | c :: r =>
      if isHash c then
        if length (takeWhile isHash s) <=? 6 then spaced (dropWhile isHash s) else None
      else if (c =? 62)%N then Some (dropWhile isSpace r)
      else if isOneOf "-+*" c then spaced r
      else if isDigit c then
        match dropWhile isDigit s with
        | d :: r => if isOneOf ".)" d then spaced r else None
        | [] => None
        end
      else None
  end.

(** [/^\s{0,3}(?:#{1,6}\s+|>\s*|[-+*]\s+|\d+[.)]\s+)/gmu]. *)
Definition lineMarkMatch (previous : option N) (s : jstr) : option (jstr * nat) :=
  if match previous with None => true | Some c => isLineTerminator c end then
    let indent := length (takeWhile isSpace (take 3 s)) in
    rest ← lineMark (drop indent s);
    Some ([], length s - length rest)
  else None.

(** [/```[^\n]*\n?|```/gu] to a space. *)
Definition fenceMatch (previous : option N) (s : jstr) : option (jstr * nat) :=
  match s with
  | 96%N :: 96%N :: 96%N :: r =>
      let rest := dropWhile (fun c => negb (c =? 10)%N) r in
      Some (js " ", length s - length (drop 1 rest))
  | _ => None
  end.

(** [/[*_~`]+/gu] to nothing. *)
Definition emphasisMatch (previous : option N) (s : jstr) : option (jstr * nat) :=
  match takeWhile (isOneOf "*_~`") s with [] => None | run => Some ([], length run) end.

(** [/<[^>]+>/gu] to a space. *)
Definition tagMatch (previous : option N) (s : jstr) : option (jstr * nat) :=
  match s with
  | 60%N :: r =>
      let inside c := negb (c =? 62)%N in
      match takeWhile inside r, dropWhile inside r with
      | _ :: _, _ :: rest => Some (js " ", length s - length rest)
      | _, _ => None
      end
  | _ => None
  end.

Definition plainThreadPreview (value : jstr) : jstr :=
  let s := replaceAll imageMatch value in
  let s := replaceAll linkMatch s in
  let s := replaceAll lineMarkMatch s in
  let s := replaceAll fenceMatch s in
  let s := replaceAll emphasisMatch s in
  let s := replaceAll tagMatch s in
  take 500 (trim (replaceAll spacesMatch s)).

(** The first result of [f] from the end of the array. *)
Definition fromEnd {A B} (f : A -> option B) (l : list A) : option B := head (omap f (reverse l)).

(** The compacted text, unless it is empty. *)
Definition shownText (text : jstr) : option jstr :=
  match plainThreadPreview text with [] => None | shown => Some shown end.

Definition partTypes (types : list string) (content : list json) : bool :=
  existsb (fun part => existsb (fun t => isType t part) types) content.

Definition userPreview (item : json) : option jstr :=
  let content := arrField "content" item in
  let authored := join (js " ") (strField "text" <$> filter (fun part => isType "text" part = true) content) in
  match shownText authored with
  | Some text => Some text
  | None =>
      if partTypes ["image"; "localImage"] content then Some (js "Photo")
      else if partTypes ["audio"; "localAudio"] content then Some (js "Audio")
      else if partTypes ["skill"] content then Some (js "Skill")
      else None
  end.

Definition itemPreview (inProgress : bool) (item : json) : option jstr :=
  if isType "agentMessage" item then
    if inProgress && isStr (field "phase" item) "final_answer" then None
    else shownText (strField "text" item)
  else if isType "userMessage" item then userPreview item
  else None.

Definition answerPreview (item : json) : option jstr :=
  if isType "agentMessage" item && isStr (field "phase" item) "final_answer"
  then shownText (strField "text" item) else None.

Definition turnPreview (turn : json) : option jstr :=
  let items := itemsOf turn in
  let inProgress := isStr (field "status" turn) "inProgress" in
  match (if inProgress then None else fromEnd answerPreview items) with
  | Some text => Some text
  | None => fromEnd (itemPreview inProgress) items
  end.

Definition latestThreadMessagePreview (thread : json) : option jstr :=
  fromEnd turnPreview (turnsOf thread).

Definition MAX_CACHED_THREAD_TURNS : nat := 6.
Definition MAX_CACHED_THREAD_JSON_CHARS : Z := 750000.

Definition textLength (s : jstr) : Z := Z.of_nat (length s).

(** The newest turns whose texts fit; the argument is the recent turns, newest
    first. *)
Fixpoint cachedTurns (emptyChars selectedChars : Z) (selected recent : list json) : list json :=
  match recent with
  | [] => selected
  | turn :: recent =>
      let turnChars := textLength (stringify turn) in
      let commaChars := (if bool_decide (selected = []) then 0 else 1)%Z in
      if (MAX_CACHED_THREAD_JSON_CHARS <? emptyChars + selectedChars + commaChars + turnChars)%Z
      then selected
      else cachedTurns emptyChars (selectedChars + commaChars + turnChars)%Z (turn :: selected) recent
  end.

Definition serializeThreadForCache (thread : json) : jstr :=
  let emptyRaw := stringify (setTurns [] thread) in
  if (MAX_CACHED_THREAD_JSON_CHARS <? textLength emptyRaw)%Z then emptyRaw
  else
    match cachedTurns (textLength emptyRaw) 0 [] (reverse (slice_last MAX_CACHED_THREAD_TURNS (turnsOf thread))) with
    | [] => emptyRaw
    | selected => stringify (setTurns selected thread)
    end.

(** ** The stored row *)

Inductive ActiveFlag := WaitingOnApproval | WaitingOnUserInput.
Inductive ThreadStatus := ActiveStatus (activeFlags : list ActiveFlag) | Idle | NotLoaded | SystemError.

#[export] Instance ActiveFlag_eq_dec : EqDecision ActiveFlag.
Proof. solve_decision. Defined.
#[export] Instance ThreadStatus_eq_dec : EqDecision ThreadStatus.
Proof. solve_decision. Defined.

Definition isActiveThreadStatus (value : json) : option ActiveFlag :=
  if isStr (Some value) "waitingOnApproval" then Some WaitingOnApproval
  else if isStr (Some value) "waitingOnUserInput" then Some WaitingOnUserInput
  else None.

Definition normalizeThreadStatus (value : option json) : ThreadStatus :=
  match asObject value with
  | None => NotLoaded
  | Some status =>
      if isStr (oget "type" status) "active" then
        ActiveStatus (omap isActiveThreadStatus (default [] (asArray (oget "activeFlags" status))))
      else if isStr (oget "type" status) "idle" then Idle
      else if isStr (oget "type" status) "systemError" then SystemError
      else NotLoaded
  end.

Definition isActive (status : ThreadStatus) : bool :=
  match status with ActiveStatus _ => true | _ => false end.

(** [left.type === right.type]. *)
Definition sameType (left right : ThreadStatus) : bool :=
  match left, right with
  | ActiveStatus _, ActiveStatus _ | Idle, Idle | NotLoaded, NotLoaded | SystemError, SystemError => true
  | _, _ => false
  end.

Record QuestionOpportunity := { q_itemIds : list jstr; q_turnId : jstr }.

#[export] Instance QuestionOpportunity_eq_dec : EqDecision QuestionOpportunity.
Proof. solve_decision. Defined.

(** A field that may be absent and may be [null]: [None] and [Some None]. *)
Abbreviation nullable A := (option (option A)).

(** Times are whole seconds.  [s_agentNickname], [s_agentRole] and [s_name] are
    copied from the wire. *)
Record StoredThreadSummary :=
  { s_activeSubagents : option bool; s_agentNickname : option json; s_agentRole : option json;
    s_archived : bool; s_closedQuestionTurnId : nullable jstr; s_codewideAgent : option ThreadAgent;
    s_connectionId : jstr; s_cwd : jstr; s_deleteCommandId : option jstr;
    s_firstUnreadAgentTurnId : option jstr; s_gitOriginUrl : option jstr;
    s_lastSeenCursor : Z; s_latestActivityCursor : Z; s_name : option json;
    s_parentThreadId : option jstr; s_pendingQuestion : nullable QuestionOpportunity;
    s_pendingRequestCount : Z; s_pinCursor : option Z; s_pinned : bool; s_preview : jstr;
    s_projectionCursor : option Z; s_provisionalThread : option json; s_recencyAt : option Z;
    s_remoteThreadId : jstr; s_skippedQuestions : nullable QuestionOpportunity;
    s_status : ThreadStatus; s_submittedQuestions : nullable QuestionOpportunity;
    s_unread : Z; s_updatedAt : Z }.

#[export] Instance StoredThreadSummary_eq_dec : EqDecision StoredThreadSummary.
Proof. solve_decision. Defined.

(** A number field of a wire thread, in whole seconds. *)
Definition wholeSeconds (value : option json) : option Z :=
  match value with Some (JNum (NInt z)) => Some z | _ => None end.

Definition threadSummaryProjectionCursor (row : StoredThreadSummary) : Z :=
  match s_projectionCursor row with
  | Some cursor => if validPinCursor cursor then cursor else s_latestActivityCursor row
  | None => s_latestActivityCursor row
  end.

(** A stored row at the boundary of the model; the values its type allows of
    [parentThreadId], [recencyAt], [deleteCommandId] and [status] are kept. *)
Definition normalizeStoredThreadSummary (row : StoredThreadSummary) : StoredThreadSummary :=
  let pinValid := match s_pinCursor row with Some z => validPinCursor z | None => false end in
  {| s_activeSubagents := s_activeSubagents row; s_agentNickname := s_agentNickname row;
     s_agentRole := s_agentRole row; s_archived := s_archived row;
     s_closedQuestionTurnId := s_closedQuestionTurnId row;
     s_codewideAgent := normalizeStoredThreadAgent (s_codewideAgent row);
     s_connectionId := s_connectionId row; s_cwd := s_cwd row;
     s_deleteCommandId := s_deleteCommandId row;
     s_firstUnreadAgentTurnId :=
       match s_firstUnreadAgentTurnId row with Some [] => None | id => id end;
     s_gitOriginUrl := s_gitOriginUrl row; s_lastSeenCursor := s_lastSeenCursor row;
     s_latestActivityCursor := s_latestActivityCursor row; s_name := s_name row;
     s_parentThreadId := s_parentThreadId row; s_pendingQuestion := s_pendingQuestion row;
     s_pendingRequestCount := s_pendingRequestCount row;
     s_pinCursor := if pinValid then s_pinCursor row else Some 0%Z;
     s_pinned := pinValid && s_pinned row; s_preview := s_preview row;
     s_projectionCursor := Some (threadSummaryProjectionCursor row);
     s_provisionalThread := s_provisionalThread row; s_recencyAt := s_recencyAt row;
     s_remoteThreadId := s_remoteThreadId row; s_skippedQuestions := s_skippedQuestions row;
     s_status := s_status row; s_submittedQuestions := s_submittedQuestions row;
     s_unread := s_unread row; s_updatedAt := s_updatedAt row |}.
