(* ===== verification/SummaryProjection.v ===== *)
(** * Thread summaries: who writes which field

    Models, in apps/android/src/data, the server rows of threadListRow.ts
    ([serverRowSummary]), thread-summary-projection.ts (snapshots and journal
    events) and questionAnswerProjection.ts.  The fields of a row have one owner
    each: the device fields are gathered in [DeviceFields]. *)
From S2P Require Import Prelude JsMap Json JsonText ThreadItems Readers EventIndex ThreadEvents CursorSync.
From S2P Require Import ListStream SummaryTypes.

Local Open Scope Z_scope.

(** ** The fields of the device *)

Record DeviceFields :=
  { d_activeSubagents : option bool; d_closedQuestionTurnId : nullable jstr;
    d_deleteCommandId : option jstr; d_firstUnreadAgentTurnId : option jstr;
    d_lastSeenCursor : Z; d_latestActivityCursor : Z; d_pendingQuestion : nullable QuestionOpportunity;
    d_pendingRequestCount : Z; d_projectionCursor : option Z;
    d_skippedQuestions : nullable QuestionOpportunity;
    d_submittedQuestions : nullable QuestionOpportunity; d_unread : Z }.

Definition deviceOf (row : StoredThreadSummary) : DeviceFields :=
  {| d_activeSubagents := s_activeSubagents row; d_closedQuestionTurnId := s_closedQuestionTurnId row;
     d_deleteCommandId := s_deleteCommandId row; d_firstUnreadAgentTurnId := s_firstUnreadAgentTurnId row;
     d_lastSeenCursor := s_lastSeenCursor row; d_latestActivityCursor := s_latestActivityCursor row;
     d_pendingQuestion := s_pendingQuestion row; d_pendingRequestCount := s_pendingRequestCount row;
     d_projectionCursor := s_projectionCursor row; d_skippedQuestions := s_skippedQuestions row;
     d_submittedQuestions := s_submittedQuestions row; d_unread := s_unread row |}.

(** [{ ...row, ...device }]. *)
Definition withDevice (d : DeviceFields) (row : StoredThreadSummary) : StoredThreadSummary :=
  {| s_activeSubagents := d_activeSubagents d; s_agentNickname := s_agentNickname row;
     s_agentRole := s_agentRole row; s_archived := s_archived row;
     s_closedQuestionTurnId := d_closedQuestionTurnId d; s_codewideAgent := s_codewideAgent row;
     s_connectionId := s_connectionId row; s_cwd := s_cwd row;
     s_deleteCommandId := d_deleteCommandId d; s_firstUnreadAgentTurnId := d_firstUnreadAgentTurnId d;
     s_gitOriginUrl := s_gitOriginUrl row; s_lastSeenCursor := d_lastSeenCursor d;
     s_latestActivityCursor := d_latestActivityCursor d; s_name := s_name row;
     s_parentThreadId := s_parentThreadId row; s_pendingQuestion := d_pendingQuestion d;
     s_pendingRequestCount := d_pendingRequestCount d; s_pinCursor := s_pinCursor row;
     s_pinned := s_pinned row; s_preview := s_preview row; s_projectionCursor := d_projectionCursor d;
     s_provisionalThread := s_provisionalThread row; s_recencyAt := s_recencyAt row;
     s_remoteThreadId := s_remoteThreadId row; s_skippedQuestions := d_skippedQuestions d;
     s_status := s_status row; s_submittedQuestions := d_submittedQuestions d;
     s_unread := d_unread d; s_updatedAt := s_updatedAt row |}.

(** [{ ...device, field }]. *)
Definition withPending (q : nullable QuestionOpportunity) (d : DeviceFields) : DeviceFields :=
  {| d_activeSubagents := d_activeSubagents d; d_closedQuestionTurnId := d_closedQuestionTurnId d;
     d_deleteCommandId := d_deleteCommandId d; d_firstUnreadAgentTurnId := d_firstUnreadAgentTurnId d;
     d_lastSeenCursor := d_lastSeenCursor d; d_latestActivityCursor := d_latestActivityCursor d;
     d_pendingQuestion := q; d_pendingRequestCount := d_pendingRequestCount d;
     d_projectionCursor := d_projectionCursor d; d_skippedQuestions := d_skippedQuestions d;
     d_submittedQuestions := d_submittedQuestions d; d_unread := d_unread d |}.

Definition withClosed (turnId : nullable jstr) (d : DeviceFields) : DeviceFields :=
  {| d_activeSubagents := d_activeSubagents d; d_closedQuestionTurnId := turnId;
     d_deleteCommandId := d_deleteCommandId d; d_firstUnreadAgentTurnId := d_firstUnreadAgentTurnId d;
     d_lastSeenCursor := d_lastSeenCursor d; d_latestActivityCursor := d_latestActivityCursor d;
     d_pendingQuestion := d_pendingQuestion d; d_pendingRequestCount := d_pendingRequestCount d;
     d_projectionCursor := d_projectionCursor d; d_skippedQuestions := d_skippedQuestions d;
     d_submittedQuestions := d_submittedQuestions d; d_unread := d_unread d |}.

Definition withActivity (cursor unread : Z) (firstUnread : option jstr) (d : DeviceFields) : DeviceFields :=
  {| d_activeSubagents := d_activeSubagents d; d_closedQuestionTurnId := d_closedQuestionTurnId d;
     d_deleteCommandId := d_deleteCommandId d; d_firstUnreadAgentTurnId := firstUnread;
     d_lastSeenCursor := d_lastSeenCursor d; d_latestActivityCursor := cursor;
     d_pendingQuestion := d_pendingQuestion d; d_pendingRequestCount := d_pendingRequestCount d;
     d_projectionCursor := d_projectionCursor d; d_skippedQuestions := d_skippedQuestions d;
     d_submittedQuestions := d_submittedQuestions d; d_unread := unread |}.

Definition withProjection (cursor : Z) (d : DeviceFields) : DeviceFields :=
  {| d_activeSubagents := d_activeSubagents d; d_closedQuestionTurnId := d_closedQuestionTurnId d;
     d_deleteCommandId := d_deleteCommandId d; d_firstUnreadAgentTurnId := d_firstUnreadAgentTurnId d;
     d_lastSeenCursor := d_lastSeenCursor d; d_latestActivityCursor := d_latestActivityCursor d;
     d_pendingQuestion := d_pendingQuestion d; d_pendingRequestCount := d_pendingRequestCount d;
     d_projectionCursor := Some cursor; d_skippedQuestions := d_skippedQuestions d;
     d_submittedQuestions := d_submittedQuestions d; d_unread := d_unread d |}.

(** ** Server rows *)

Definition NEW_ROW_DEVICE_FIELDS : DeviceFields :=
  {| d_activeSubagents := None; d_closedQuestionTurnId := Some None; d_deleteCommandId := None;
     d_firstUnreadAgentTurnId := None; d_lastSeenCursor := 0; d_latestActivityCursor := 0;
     d_pendingQuestion := Some None; d_pendingRequestCount := 0; d_projectionCursor := Some 0;
     d_skippedQuestions := Some None; d_submittedQuestions := Some None; d_unread := 0 |}.

(** [value ?? null]. *)
Definition orNull {A} (value : nullable A) : nullable A := Some (mjoin value).

Definition deviceFields (previous : option StoredThreadSummary) : DeviceFields :=
  match previous with
  | None => NEW_ROW_DEVICE_FIELDS
  | Some previous =>
      {| d_activeSubagents := s_activeSubagents previous;
         d_closedQuestionTurnId := orNull (s_closedQuestionTurnId previous);
         d_deleteCommandId := s_deleteCommandId previous;
         d_firstUnreadAgentTurnId := s_firstUnreadAgentTurnId previous;
         d_lastSeenCursor := s_lastSeenCursor previous;
         d_latestActivityCursor := s_latestActivityCursor previous;
         d_pendingQuestion := orNull (s_pendingQuestion previous);
         d_pendingRequestCount := s_pendingRequestCount previous;
         d_projectionCursor := Some (threadSummaryProjectionCursor previous);
         d_skippedQuestions := orNull (s_skippedQuestions previous);
         d_submittedQuestions := orNull (s_submittedQuestions previous);
         d_unread := s_unread previous |}
  end.

(** [thread.updatedAt]. *)
Definition updatedSeconds (thread : json) : Z := default 0 (wholeSeconds (field "updatedAt" thread)).

Definition retainedShell (previous : option StoredThreadSummary) (row : ThreadListRow) : option json :=
  shell ← previous ≫= s_provisionalThread;
  if isThread shell && (updatedSeconds (row_thread row) <=? updatedSeconds shell)
  then Some shell else None.

Definition pinCursorOf (previous : option StoredThreadSummary) : Z :=
  default 0 (previous ≫= s_pinCursor).

(** The cursor and the state of the pin. *)
Definition serverPin (thread : json) (previous : option StoredThreadSummary) : Z * bool :=
  let pin := threadPinFromSnapshot thread in
  match previous with
  | Some p =>
      if pin_cursor pin <? pinCursorOf previous then (pinCursorOf previous, s_pinned p)
      else (pin_cursor pin, pin_pinned pin)
  | None => (pin_cursor pin, pin_pinned pin)
  end.

Definition originUrl (thread : json) : option jstr := asString (optField "originUrl" (field "gitInfo" thread)).

(** [a ?? b]. *)
Definition nullishOr {A} (a b : option A) : option A := match a with Some _ => a | None => b end.

(** The provider and the repository. *)
Definition retainedDescriptors (thread : json) (previous : option StoredThreadSummary)
    : option ThreadAgent * option jstr :=
  (nullishOr (readThreadAgent thread) (previous ≫= s_codewideAgent),
   nullishOr (originUrl thread) (previous ≫= s_gitOriginUrl)).

Definition serverRowSummary (connectionId : jstr) (row : ThreadListRow)
    (previous : option StoredThreadSummary) : StoredThreadSummary :=
  let thread := row_thread row in
  let device := deviceFields previous in
  {| s_activeSubagents := d_activeSubagents device; s_agentNickname := field "agentNickname" thread;
     s_agentRole := field "agentRole" thread; s_archived := row_archived (meta row);
     s_closedQuestionTurnId := d_closedQuestionTurnId device;
     s_codewideAgent := (retainedDescriptors thread previous).1;
     s_connectionId := connectionId; s_cwd := strField "cwd" thread;
     s_deleteCommandId := d_deleteCommandId device;
     s_firstUnreadAgentTurnId := d_firstUnreadAgentTurnId device;
     s_gitOriginUrl := (retainedDescriptors thread previous).2;
     s_lastSeenCursor := d_lastSeenCursor device;
     s_latestActivityCursor := d_latestActivityCursor device; s_name := field "name" thread;
     s_parentThreadId := asString (field "parentThreadId" thread);
     s_pendingQuestion := d_pendingQuestion device;
     s_pendingRequestCount := d_pendingRequestCount device;
     s_pinCursor := Some (serverPin thread previous).1; s_pinned := (serverPin thread previous).2;
     s_preview := plainThreadPreview (strField "preview" thread);
     s_projectionCursor := d_projectionCursor device;
     s_provisionalThread := retainedShell previous row;
     s_recencyAt := wholeSeconds (field "recencyAt" thread);
     s_remoteThreadId := strField "id" thread;
     s_skippedQuestions := d_skippedQuestions device;
     s_status := normalizeThreadStatus (field "status" thread);
     s_submittedQuestions := d_submittedQuestions device; s_unread := d_unread device;
     s_updatedAt := updatedSeconds thread |}.

(** ** Snapshots *)

Definition NUL : jstr := [0%N].

Definition threadSummaryKey (connectionId threadId : jstr) : jstr := connectionId ++ NUL ++ threadId.

Definition questionTurnClosed (turn : option json) : bool :=
  match turn with
  | None => false
  | Some turn =>
      negb (isStr (field "status" turn) "inProgress") || existsb isFinalQuestionTurnMessage (itemsOf turn)
  end.

Definition questionOpportunity (turns : list json) : option QuestionOpportunity :=
  let questions := currentAsyncQuestions turns in
  latest ← last questions;
  Some {| q_itemIds := (fun question => strField "id" question.1) <$> questions; q_turnId := latest.2 |}.

Definition selectPreview (snapshotPreview : option jstr) (listedPreview : jstr)
    (previousPreview : option jstr) : jstr :=
  match snapshotPreview, listedPreview with
  | Some ((_ :: _) as preview), _ => preview
  | _, _ :: _ => listedPreview
  | _, [] => default [] previousPreview
  end.

(** The last turn when it closes its questions, else what was closed before. *)
Definition closedTurnOf (turns : list json) (previous : option StoredThreadSummary) : option jstr :=
  let before := mjoin (previous ≫= s_closedQuestionTurnId) in
  if questionTurnClosed (last turns)
  then nullishOr (turn ← last turns; asString (field "id" turn)) before
  else before.

Definition snapshotQuestion (thread : json) (previous : option StoredThreadSummary)
    : option QuestionOpportunity :=
  match turnsOf thread with
  | [] =>
      match previous with
      | Some p =>
          if isStr (optField "type" (field "status" thread)) "active" && (updatedSeconds thread =? s_updatedAt p)
          then mjoin (s_pendingQuestion p) else None
      | None => None
      end
  | turns => questionOpportunity turns
  end.

Definition projectThreadSummarySnapshot (connectionId : jstr) (thread : json) (archived : bool)
    (previous : option StoredThreadSummary) : StoredThreadSummary :=
  let snapshotPreview := match turnsOf thread with
                         | [] => Some [] | _ => latestThreadMessagePreview thread end in
  let pin := threadPinFromSnapshot thread in
  {| s_activeSubagents := previous ≫= s_activeSubagents; s_agentNickname := field "agentNickname" thread;
     s_agentRole := field "agentRole" thread; s_archived := archived;
     s_closedQuestionTurnId := Some (closedTurnOf (turnsOf thread) previous);
     s_codewideAgent := nullishOr (readThreadAgent thread) (previous ≫= s_codewideAgent);
     s_connectionId := connectionId; s_cwd := strField "cwd" thread;
     s_deleteCommandId := previous ≫= s_deleteCommandId;
     s_firstUnreadAgentTurnId := previous ≫= s_firstUnreadAgentTurnId;
     s_gitOriginUrl := nullishOr (originUrl thread) (previous ≫= s_gitOriginUrl);
     s_lastSeenCursor := default 0 (s_lastSeenCursor <$> previous);
     s_latestActivityCursor := default 0 (s_latestActivityCursor <$> previous);
     s_name := field "name" thread;
     s_parentThreadId := asString (field "parentThreadId" thread);
     s_pendingQuestion := Some (snapshotQuestion thread previous);
     s_pendingRequestCount := default 0 (s_pendingRequestCount <$> previous);
     s_pinCursor := Some (Z.max (pinCursorOf previous) (pin_cursor pin));
     s_pinned := if pin_cursor pin <? pinCursorOf previous
                 then default false (s_pinned <$> previous) else pin_pinned pin;
     s_preview := selectPreview snapshotPreview (plainThreadPreview (strField "preview" thread))
                    (s_preview <$> previous);
     s_projectionCursor := Some (default 0 (threadSummaryProjectionCursor <$> previous));
     s_provisionalThread := None;
     s_recencyAt := wholeSeconds (field "recencyAt" thread);
     s_remoteThreadId := strField "id" thread;
     s_skippedQuestions := Some (mjoin (previous ≫= s_skippedQuestions));
     s_status := normalizeThreadStatus (field "status" thread);
     s_submittedQuestions := Some (mjoin (previous ≫= s_submittedQuestions));
     s_unread := default 0 (s_unread <$> previous);
     s_updatedAt := updatedSeconds thread |}.

Definition retainThreadSummaryMissingFromSnapshot (summary : StoredThreadSummary) : bool :=
  (s_pinned summary && (0 <? default 0 (s_pinCursor summary)))
  || match s_provisionalThread summary with Some shell => isThread shell | None => false end
  || bool_decide (is_Some (s_parentThreadId summary)).

(** The fields a thread read with its turns proves. *)
Definition threadSummaryTurnAttention (thread : json) (previous : StoredThreadSummary)
    : StoredThreadSummary :=
  match last (turnsOf thread) with
  | None =>
      withDevice (withPending (orNull (s_pendingQuestion previous))
        (withClosed (orNull (s_closedQuestionTurnId previous)) (deviceOf previous))) previous
  | Some latest =>
      withDevice (withPending (Some (questionOpportunity (turnsOf thread)))
        (withClosed (if questionTurnClosed (Some latest) then Some (Some (strField "id" latest))
                     else orNull (s_closedQuestionTurnId previous)) (deviceOf previous))) previous
  end.

(** ** Journal events *)

Record ThreadSummaryMutation := { m_key : jstr; m_value : option StoredThreadSummary }.

Definition INTEREST_TOPIC_PATCHES : list string :=
  ["itemTextDelta"; "reasoningDelta"; "reasoningPart"; "turnPlan"; "turnDiff"; "fileChanges";
   "mcpProgress"; "tokenUsage"; "threadProgress"; "itemUpsert"].

Definition isTopicOnlySummaryPatch (operation : jobj) : bool :=
  negb (kindIs operation "itemUpsert") && existsb (kindIs operation) INTEREST_TOPIC_PATCHES.

Definition DEVICE_SUMMARY_PATCHES : list string := ["turnStarted"; "turnCompleted"; "itemUpsert"].

(** [operation.item] and [object(operation.turn)?.id]. *)
Definition itemOf (operation : jobj) : json := default JNull (oget "item" operation).
Definition turnIdOf (operation : jobj) : option json := optField "id" (turnOf operation).

(** [object(operation.summary)?.activity === true]. *)
Definition summaryFlag (name : string) (operation : jobj) : bool :=
  isTrue (summary ← asObject (oget "summary" operation); oget name summary).

Definition threadSummaryEventAffectsDevice (payload : jobj) : bool :=
  match threadProjectionPatchFromEvent payload with
  | None => false
  | Some patch =>
      negb (isTopicOnlySummaryPatch (operation patch))
      && (existsb (kindIs (operation patch)) DEVICE_SUMMARY_PATCHES
          || summaryFlag "activity" (operation patch))
  end.

Definition isClosedTurnStart (operation : jobj) (summary : StoredThreadSummary) : bool :=
  kindIs operation "turnStarted"
  && match asString (turnIdOf operation) with
     | Some turnId => bool_decide (mjoin (s_closedQuestionTurnId summary) = Some turnId)
     | None => false
     end.

Definition cursorApplied (previous : option StoredThreadSummary) (cursor : Z) : bool :=
  match previous with
  | Some p => (0 <? cursor) && (cursor <=? threadSummaryProjectionCursor p)
  | None => false
  end.

(** [{ ...row, provisionalThread: thread }]. *)
Definition withShell (thread : json) (row : StoredThreadSummary) : StoredThreadSummary :=
  {| s_activeSubagents := s_activeSubagents row; s_agentNickname := s_agentNickname row;
     s_agentRole := s_agentRole row; s_archived := s_archived row;
     s_closedQuestionTurnId := s_closedQuestionTurnId row; s_codewideAgent := s_codewideAgent row;
     s_connectionId := s_connectionId row; s_cwd := s_cwd row;
     s_deleteCommandId := s_deleteCommandId row;
     s_firstUnreadAgentTurnId := s_firstUnreadAgentTurnId row;
     s_gitOriginUrl := s_gitOriginUrl row; s_lastSeenCursor := s_lastSeenCursor row;
     s_latestActivityCursor := s_latestActivityCursor row; s_name := s_name row;
     s_parentThreadId := s_parentThreadId row; s_pendingQuestion := s_pendingQuestion row;
     s_pendingRequestCount := s_pendingRequestCount row; s_pinCursor := s_pinCursor row;
     s_pinned := s_pinned row; s_preview := s_preview row;
     s_projectionCursor := s_projectionCursor row; s_provisionalThread := Some thread;
     s_recencyAt := s_recencyAt row; s_remoteThreadId := s_remoteThreadId row;
     s_skippedQuestions := s_skippedQuestions row; s_status := s_status row;
     s_submittedQuestions := s_submittedQuestions row; s_unread := s_unread row;
     s_updatedAt := s_updatedAt row |}.

Definition projectStartedThread (connectionId : jstr) (thread : json)
    (previous : option StoredThreadSummary) : option ThreadSummaryMutation :=
  let key := threadSummaryKey connectionId (strField "id" thread) in
  match previous with
  | None =>
      Some {| m_key := key;
              m_value := Some (withShell thread (projectThreadSummarySnapshot connectionId thread false None)) |}
  | Some p =>
      if match s_provisionalThread p with Some shell => isThread shell | None => false end
         || (updatedSeconds thread <? s_updatedAt p)
      then None else Some {| m_key := key; m_value := Some (withShell thread p) |}
  end.

Definition retiresPendingQuestion (d : DeviceFields) (operation : jobj) : bool :=
  kindIs operation "turnStarted"
  || (kindIs operation "itemUpsert" && closesAsyncQuestions (itemOf operation))
  || (kindIs operation "turnCompleted"
      && bool_decide (turnIdOf operation = JStr ∘ q_turnId <$> mjoin (d_pendingQuestion d))).

Definition isAsyncQuestionItem (operation : jobj) : bool :=
  kindIs operation "itemUpsert" && hasAsyncQuestions (itemOf operation).

(** [None] when nothing is recorded. *)
Definition recordAsyncQuestion (d : DeviceFields) (operation : jobj) : option DeviceFields :=
  turnId ← asString (oget "turnId" operation);
  itemId ← asString (field "id" (itemOf operation));
  if negb (isAsyncQuestionItem operation) || bool_decide (mjoin (d_closedQuestionTurnId d) = Some turnId)
  then None
  else
    let currentIds := match mjoin (d_pendingQuestion d) with
                      | Some q => if bool_decide (q_turnId q = turnId) then q_itemIds q else []
                      | None => []
                      end in
    Some (withPending (Some (Some {| q_itemIds := sadd itemId currentIds; q_turnId := turnId |})) d).

Definition closeQuestionTurn (d : DeviceFields) (operation : jobj) : DeviceFields :=
  let d := match kindIs operation "turnCompleted", asString (turnIdOf operation) with
           | true, Some completedId => withClosed (Some (Some completedId)) d
           | _, _ => d
           end in
  match kindIs operation "itemUpsert" && isFinalQuestionTurnMessage (itemOf operation),
        asString (oget "turnId" operation) with
  | true, Some turnId => withClosed (Some (Some turnId)) d
  | _, _ => d
  end.

(** The fields, and whether the pending question is another value than it was:
    a retired one is [null], a recorded one a new object. *)
Definition applyQuestionAttention (d : DeviceFields) (operation : jobj) : DeviceFields * bool :=
  let '(asked, replaced) :=
    if retiresPendingQuestion d operation
    then (withPending (Some None) d, negb (bool_decide (d_pendingQuestion d = Some None)))
    else match recordAsyncQuestion d operation with Some d => (d, true) | None => (d, false) end in
  (closeQuestionTurn asked operation, replaced).

Definition applyFinalAgentResponse (d : DeviceFields) (operation : jobj) : DeviceFields :=
  let unread := if (0 <? d_unread d) || (d_lastSeenCursor d <? d_latestActivityCursor d) then 1 else 0 in
  withActivity (d_latestActivityCursor d) unread
    (if (0 <? d_unread d) || negb (0 <? unread) then d_firstUnreadAgentTurnId d
     else match asString (turnIdOf operation) with
          | Some ((_ :: _) as completedTurnId) => Some completedTurnId
          | _ => d_firstUnreadAgentTurnId d
          end) d.

(** The fields after a patch; [None] when nothing changes. *)
Definition devicePatch (operation : jobj) (d : DeviceFields) (cursor : Z) : option DeviceFields :=
  let '(next, replaced) := applyQuestionAttention d operation in
  let attentionChanged :=
    replaced || negb (bool_decide (d_closedQuestionTurnId next = d_closedQuestionTurnId d)) in
  if negb (summaryFlag "activity" operation) then (if attentionChanged then Some next else None)
  else
    let next := withActivity (Z.max (d_latestActivityCursor next) cursor) (d_unread next)
                  (d_firstUnreadAgentTurnId next) next in
    Some (if summaryFlag "finalAgentResponse" operation then applyFinalAgentResponse next operation else next).

Definition projectDevicePatch (operation : jobj) (previous : StoredThreadSummary) (cursor : Z) (key : jstr)
    : option ThreadSummaryMutation :=
  next ← devicePatch operation (deviceOf previous) cursor;
  Some {| m_key := key; m_value := Some (withDevice next previous) |}.

Definition projectThreadSummaryPatch (connectionId : jstr) (patch : ThreadProjectionPatchV1)
    (previousFor : jstr -> option StoredThreadSummary) (cursor : Z) : option ThreadSummaryMutation :=
  let op := operation patch in
  if kindIs op "threadStarted" then
    match oget "thread" op with
    | Some thread =>
        if isThread thread
        then projectStartedThread connectionId thread (previousFor (strField "id" thread)) else None
    | None => None
    end
  else
    let key := threadSummaryKey connectionId (patch_threadId patch) in
    if kindIs op "threadDeleted" then Some {| m_key := key; m_value := None |}
    else
      previous ← previousFor (patch_threadId patch);
      if isClosedTurnStart op previous then None else projectDevicePatch op previous cursor key.

(** The row with its projection cursor moved to [cursor] if that is newer. *)
Definition projectedAt (cursor : Z) (row : StoredThreadSummary) : StoredThreadSummary :=
  withDevice (withProjection (Z.max (threadSummaryProjectionCursor row) cursor) (deviceOf row)) row.

Definition projectThreadSummaryEvent (connectionId : jstr) (payload : jobj)
    (previousFor : jstr -> option StoredThreadSummary) (cursor : Z) : option ThreadSummaryMutation :=
  patch ← threadProjectionPatchFromEvent payload;
  if isTopicOnlySummaryPatch (operation patch) || cursorApplied (previousFor (patch_threadId patch)) cursor
  then None
  else
    mutation ← projectThreadSummaryPatch connectionId patch previousFor cursor;
    Some {| m_key := m_key mutation; m_value := projectedAt cursor <$> m_value mutation |}.

(** ** Answers to questions *)

(** What the code reads of a native delivery. *)
Record AnswerDelivery :=
  { ad_commandId : jstr; ad_connectionId : jstr; ad_failed : bool; ad_method : jstr;
    ad_threadId : option jstr }.

Definition isQuestionAnswerDelivery (delivery : AnswerDelivery) : bool :=
  (bool_decide (ad_method delivery = js "turn/start") || bool_decide (ad_method delivery = js "turn/steer"))
  && bool_decide (is_Some (ad_threadId delivery))
  && startsWith (js "question-answer-") (ad_commandId delivery).

Definition questionIdsForTurn (opportunity : nullable QuestionOpportunity) (turnId : jstr) : list jstr :=
  match mjoin opportunity with
  | Some q => if bool_decide (q_turnId q = turnId) then q_itemIds q else []
  | None => []
  end.

Definition questionDeliveryMatchesRow (row : StoredThreadSummary) (delivery : AnswerDelivery) : bool :=
  bool_decide (s_connectionId row = ad_connectionId delivery)
  && bool_decide (Some (s_remoteThreadId row) = ad_threadId delivery).

Definition withSubmitted (q : QuestionOpportunity) (d : DeviceFields) : DeviceFields :=
  {| d_activeSubagents := d_activeSubagents d; d_closedQuestionTurnId := d_closedQuestionTurnId d;
     d_deleteCommandId := d_deleteCommandId d; d_firstUnreadAgentTurnId := d_firstUnreadAgentTurnId d;
     d_lastSeenCursor := d_lastSeenCursor d; d_latestActivityCursor := d_latestActivityCursor d;
     d_pendingQuestion := d_pendingQuestion d; d_pendingRequestCount := d_pendingRequestCount d;
     d_projectionCursor := d_projectionCursor d; d_skippedQuestions := d_skippedQuestions d;
     d_submittedQuestions := Some (Some q); d_unread := d_unread d |}.

Definition hasUnansweredAsyncQuestion (thread : StoredThreadSummary) : bool :=
  match mjoin (s_pendingQuestion thread) with
  | None => false
  | Some pending =>
      let skipped := questionIdsForTurn (s_skippedQuestions thread) (q_turnId pending) in
      let submitted := questionIdsForTurn (s_submittedQuestions thread) (q_turnId pending) in
      existsb (fun id => negb (shas id skipped) && negb (shas id submitted)) (q_itemIds pending)
  end.

Section answers.
(** The hash of the text, in hexadecimal; third-party code. *)
Variable digest : jstr -> jstr.

Definition questionCommandId (threadId itemId : jstr) : jstr :=
  js "question-answer-" ++ digest (stringify (JArr [JStr threadId; JStr itemId])).

Definition projectQuestionAnswerDelivery (row : StoredThreadSummary) (delivery : AnswerDelivery)
    : StoredThreadSummary :=
  match mjoin (s_pendingQuestion row) with
  | None => row
  | Some pending =>
      if negb (questionDeliveryMatchesRow row delivery) then row
      else
        match list_find (fun id => questionCommandId (s_remoteThreadId row) id = ad_commandId delivery)
                (q_itemIds pending) with
        | None => row
        | Some (_, itemId) =>
            let submitted := questionIdsForTurn (s_submittedQuestions row) (q_turnId pending) in
            if negb (Bool.eqb (shas itemId submitted) (ad_failed delivery)) then row
            else
              withDevice (withSubmitted
                {| q_itemIds := if ad_failed delivery then sdel itemId submitted else submitted ++ [itemId];
                   q_turnId := q_turnId pending |} (deviceOf row)) row
        end
  end.
End answers.

(** ** One owner per field *)

Lemma deviceOf_with d row : deviceOf (withDevice d row) = d.
Proof. by destruct d. Qed.

Lemma with_deviceOf row : withDevice (deviceOf row) row = row.
Proof. by destruct row. Qed.

Lemma with_with d e row : withDevice d (withDevice e row) = withDevice d row.
Proof. done. Qed.

(** A row written by this code: no field is absent and its cursor is valid. *)
Record settled (row : StoredThreadSummary) : Prop :=
  { st_closed : is_Some (s_closedQuestionTurnId row); st_pending : is_Some (s_pendingQuestion row);
    st_skipped : is_Some (s_skippedQuestions row); st_submitted : is_Some (s_submittedQuestions row);
    st_cursor : exists c, s_projectionCursor row = Some c /\ validPinCursor c = true }.

Lemma orNull_some {A} (v : nullable A) : is_Some v -> orNull v = v.
Proof. by intros [x ->]. Qed.

Lemma settled_cursor row : settled row -> s_projectionCursor row = Some (threadSummaryProjectionCursor row).
Proof.
  intros [_ _ _ _ (c & Hc & Hv)]. unfold threadSummaryProjectionCursor. by rewrite Hc, Hv.
Qed.

Lemma settled_device row : settled row -> deviceFields (Some row) = deviceOf row.
Proof.
  intros H. pose proof H as [Hc Hp Hs Hu _]. unfold deviceFields, deviceOf.
  by rewrite !orNull_some, settled_cursor.
Qed.

(** A server row writes no field of the device. *)
Lemma server_keeps_device c row previous :
  deviceOf (serverRowSummary c row previous) = deviceFields previous.
Proof. by destruct previous. Qed.

Lemma server_settled c row previous :
  (forall p, previous = Some p -> settled p) -> settled (serverRowSummary c row previous).
Proof.
  intros H. destruct previous as [p|]; simpl.
  - specialize (H p eq_refl). split; simpl; try by eexists.
    eexists. split; [done|]. destruct H as [_ _ _ _ (x & Hx & Hv)].
    unfold threadSummaryProjectionCursor. by rewrite Hx, Hv.
  - split; try by eexists.
Qed.

(** The fields of the server do not depend on those of the device. *)
Lemma server_with_device c row d p :
  serverRowSummary c row (Some (withDevice d p))
  = withDevice (deviceFields (Some (withDevice d p))) (serverRowSummary c row (Some p)).
Proof. done. Qed.

(** ** A journal event on the fields of the device *)

(** A patch of a thread that neither starts nor deletes it. *)
Definition ordinary (threadId : jstr) (payload : jobj) : Prop :=
  match threadProjectionPatchFromEvent payload with
  | Some patch => patch_threadId patch = threadId
      /\ kindIs (operation patch) "threadStarted" = false
      /\ kindIs (operation patch) "threadDeleted" = false
  | None => True
  end.

Record JournalEvent := { ev_payload : jobj; ev_cursor : Z }.

(** The row after the event was projected onto it. *)
Definition applyEvent (connectionId : jstr) (row : StoredThreadSummary) (event : JournalEvent)
    : StoredThreadSummary :=
  match projectThreadSummaryEvent connectionId (ev_payload event) (fun _ => Some row) (ev_cursor event) with
  | Some {| m_value := Some next |} => next
  | _ => row
  end.

(** The same on the fields of the device, with the projection cursor they had. *)
Definition deviceEvent (d : DeviceFields) (projected : Z) (event : JournalEvent) : option DeviceFields :=
  patch ← threadProjectionPatchFromEvent (ev_payload event);
  let op := operation patch in
  if isTopicOnlySummaryPatch op
     || ((0 <? ev_cursor event) && (ev_cursor event <=? projected))
     || (kindIs op "turnStarted"
         && match asString (turnIdOf op) with
            | Some turnId => bool_decide (mjoin (d_closedQuestionTurnId d) = Some turnId)
            | None => false
            end)
  then None else devicePatch op d (ev_cursor event).

Lemma applyEvent_device c t row event :
  ordinary t (ev_payload event) ->
  applyEvent c row event
  = match deviceEvent (deviceOf row) (threadSummaryProjectionCursor row) event with
    | Some d => projectedAt (ev_cursor event) (withDevice d row)
    | None => row
    end.
Proof.
  unfold ordinary, applyEvent, projectThreadSummaryEvent, deviceEvent.
  destruct (threadProjectionPatchFromEvent (ev_payload event)) as [patch|]; [|done].
  cbn [mbind option_bind]. intros (<- & Hs & Hd).
  destruct (isTopicOnlySummaryPatch (operation patch)); [done|]. cbn [orb].
  unfold cursorApplied. destruct (_ && _); [done|]. cbn [orb].
  unfold projectThreadSummaryPatch, isClosedTurnStart. rewrite Hs, Hd. cbn [mbind option_bind].
  destruct (_ && _); [done|]. unfold projectDevicePatch.
  by destruct (devicePatch _ _ _).
Qed.

(** What an event does to the fields that may be absent. *)
Record present (d : DeviceFields) : Prop :=
  { pr_closed : is_Some (d_closedQuestionTurnId d); pr_pending : is_Some (d_pendingQuestion d);
    pr_skipped : is_Some (d_skippedQuestions d); pr_submitted : is_Some (d_submittedQuestions d) }.

Lemma present_pending q d : present d -> present (withPending (Some q) d).
Proof. intros [? ? ? ?]. by split. Qed.

Lemma present_closed q d : present d -> present (withClosed (Some q) d).
Proof. intros [? ? ? ?]. by split. Qed.

Lemma present_activity c u f d : present d -> present (withActivity c u f d).
Proof. intros [? ? ? ?]. by split. Qed.

#[local] Hint Resolve present_pending present_closed present_activity : codewide.

Lemma present_close d op : present d -> present (closeQuestionTurn d op).
Proof. intros H. unfold closeQuestionTurn. repeat case_match; eauto with codewide. Qed.

Lemma recordAsyncQuestion_shape d op e :
  recordAsyncQuestion d op = Some e -> exists q, e = withPending (Some (Some q)) d.
Proof.
  unfold recordAsyncQuestion. destruct (asString (oget "turnId" op)); [|done]. cbn [mbind option_bind].
  destruct (asString (field "id" (itemOf op))); [|done]. cbn [mbind option_bind].
  destruct (_ || _); [done|]. intros [= <-]. by eexists.
Qed.

(** The question is replaced or kept, then the turn may be closed. *)
Lemma attention_shape d op :
  exists d', (applyQuestionAttention d op).1 = closeQuestionTurn d' op
             /\ (d' = d \/ exists q, d' = withPending (Some q) d).
Proof.
  unfold applyQuestionAttention. destruct (retiresPendingQuestion d op); [by eauto|].
  destruct (recordAsyncQuestion d op) as [e|] eqn:He; [|by eauto].
  apply recordAsyncQuestion_shape in He as [q ->]. eauto.
Qed.

Lemma present_attention d op : present d -> present (applyQuestionAttention d op).1.
Proof.
  intros H. destruct (attention_shape d op) as (d' & -> & [->|[q ->]]); apply present_close; eauto with codewide.
Qed.

Lemma present_patch op d cursor e : devicePatch op d cursor = Some e -> present d -> present e.
Proof.
  unfold devicePatch. intros He Hd. pose proof (present_attention d op Hd) as Ha.
  destruct (applyQuestionAttention d op) as [next replaced]. cbn [fst] in Ha.
  destruct (negb (summaryFlag "activity" op)).
  - destruct (replaced || _); [|done]. by injection He as <-.
  - injection He as <-. unfold applyFinalAgentResponse. destruct (summaryFlag _ _); eauto with codewide.
Qed.

Lemma deviceEvent_present d projected event e :
  deviceEvent d projected event = Some e -> present d -> present e.
Proof.
  unfold deviceEvent. destruct (threadProjectionPatchFromEvent _); [|done]. cbn [mbind option_bind].
  destruct (_ || _); [done|]. apply present_patch.
Qed.

Definition journalCursor (event : JournalEvent) : Prop := validPinCursor (ev_cursor event) = true.

Lemma valid_max a b : validPinCursor a = true -> validPinCursor b = true -> validPinCursor (Z.max a b) = true.
Proof. unfold validPinCursor. intros. bool_prop. apply andb_true_iff. rewrite !Z.leb_le. lia. Qed.

Lemma tpc_projected c row : validPinCursor c = true -> validPinCursor (threadSummaryProjectionCursor row) = true ->
  threadSummaryProjectionCursor (projectedAt c row) = Z.max (threadSummaryProjectionCursor row) c.
Proof. intros Hc Hr. unfold projectedAt at 1, threadSummaryProjectionCursor at 1. simpl. by rewrite valid_max. Qed.

Lemma settled_valid row : settled row -> validPinCursor (threadSummaryProjectionCursor row) = true.
Proof. intros [_ _ _ _ (c & Hc & Hv)]. unfold threadSummaryProjectionCursor. by rewrite Hc, Hv. Qed.

Lemma close_projection d op : d_projectionCursor (closeQuestionTurn d op) = d_projectionCursor d.
Proof. unfold closeQuestionTurn. by repeat case_match. Qed.

Lemma attention_projection d op : d_projectionCursor (applyQuestionAttention d op).1 = d_projectionCursor d.
Proof. destruct (attention_shape d op) as (d' & -> & [->|[q ->]]); by rewrite close_projection. Qed.

Lemma devicePatch_projection op d cursor e :
  devicePatch op d cursor = Some e -> d_projectionCursor e = d_projectionCursor d.
Proof.
  pose proof (attention_projection d op) as Ha. unfold devicePatch.
  destruct (applyQuestionAttention d op) as [next replaced]. cbn [fst] in Ha. intros He.
  destruct (negb (summaryFlag "activity" op)).
  - destruct (replaced || _); [|done]. by injection He as <-.
  - injection He as <-. unfold applyFinalAgentResponse. by destruct (summaryFlag _ _).
Qed.

Lemma deviceEvent_projection d projected event e :
  deviceEvent d projected event = Some e -> d_projectionCursor e = d_projectionCursor d.
Proof.
  unfold deviceEvent. destruct (threadProjectionPatchFromEvent _); [|done]. cbn [mbind option_bind].
  destruct (_ || _); [done|]. apply devicePatch_projection.
Qed.

(** The projection cursor is a field of the device. *)
Lemma tpc_with d r1 r2 :
  threadSummaryProjectionCursor (withDevice d r1) = threadSummaryProjectionCursor (withDevice d r2).
Proof. done. Qed.

Lemma tpc_device r1 r2 : deviceOf r1 = deviceOf r2 ->
  threadSummaryProjectionCursor r1 = threadSummaryProjectionCursor r2.
Proof. intros H. rewrite <- (with_deviceOf r1), <- (with_deviceOf r2), H. apply tpc_with. Qed.

Lemma settled_present row : settled row -> present (deviceOf row).
Proof. intros [? ? ? ? _]. by split. Qed.

Lemma settled_event c t row event :
  ordinary t (ev_payload event) -> journalCursor event -> settled row -> settled (applyEvent c row event).
Proof.
  intros Ho Hj Hs. rewrite (applyEvent_device c t) by done.
  destruct (deviceEvent _ _ _) as [d|] eqn:Hd; [|done].
  pose proof (deviceEvent_present _ _ _ _ Hd (settled_present row Hs)) as [? ? ? ?].
  assert (Hv : validPinCursor (threadSummaryProjectionCursor (withDevice d row)) = true).
  { apply deviceEvent_projection in Hd. destruct Hs as [_ _ _ _ (x & Hx & Hv)].
    unfold threadSummaryProjectionCursor. simpl. rewrite Hd. simpl. by rewrite Hx, Hv. }
  split; [done..|]. eexists. split; [done|]. by apply valid_max.
Qed.

(** A server row and a journal event write different fields, so their order does
    not matter. *)
Lemma server_event_commute c t row event p :
  ordinary t (ev_payload event) -> journalCursor event -> settled p ->
  applyEvent c (serverRowSummary c row (Some p)) event
  = serverRowSummary c row (Some (applyEvent c p event)).
Proof.
  intros Ho Hj Hs. pose proof (settled_event c t p event Ho Hj Hs) as Hs'.
  rewrite !(applyEvent_device c t) in * by done.
  assert (Hdev : deviceOf (serverRowSummary c row (Some p)) = deviceOf p)
    by (rewrite server_keeps_device; by apply settled_device).
  rewrite Hdev, (tpc_device _ p) by done.
  destruct (deviceEvent _ _ _) as [d|]; [|done].
  unfold projectedAt in *. rewrite server_with_device, settled_device by done.
  rewrite !deviceOf_with, !with_with. by rewrite (tpc_with d _ p).
Qed.

(** An event the overlay need not hold changes no row. *)
Lemma unaffected c t row event :
  ordinary t (ev_payload event) -> threadSummaryEventAffectsDevice (ev_payload event) = false ->
  applyEvent c row event = row.
Proof.
  intros Ho Ha. rewrite (applyEvent_device c t) by done. unfold deviceEvent.
  unfold threadSummaryEventAffectsDevice in Ha.
  destruct (threadProjectionPatchFromEvent (ev_payload event)) as [patch|]; [|done].
  cbn [mbind option_bind]. destruct (isTopicOnlySummaryPatch _); [done|]. cbn [negb andb orb] in *.
  apply orb_false_iff in Ha as [Hk Hf]. unfold DEVICE_SUMMARY_PATCHES in Hk. cbn [existsb] in Hk.
  apply orb_false_iff in Hk as [H1 Hk]. apply orb_false_iff in Hk as [H2 Hk].
  apply orb_false_iff in Hk as [H3 _].
  destruct (_ || _); [done|].
  assert (Hrec : recordAsyncQuestion (deviceOf row) (operation patch) = None).
  { unfold recordAsyncQuestion, isAsyncQuestionItem. rewrite H3.
    destruct (asString (oget "turnId" _)); [|done]. cbn [mbind option_bind].
    by destruct (asString (field "id" _)). }
  assert (Hret : retiresPendingQuestion (deviceOf row) (operation patch) = false)
    by (unfold retiresPendingQuestion; by rewrite H1, H2, H3).
  unfold devicePatch, applyQuestionAttention. rewrite Hret, Hrec.
  unfold closeQuestionTurn. rewrite H2, H3, Hf. cbn [negb andb orb]. by rewrite bool_decide_true.
Qed.
