(* ===== verification/SummaryTree.v ===== *)
(** * Sub-agents of a thread

    Models, in apps/android/src/data, thread-summary-descendants.ts and
    threadSummarySubagentActivity.ts: the rows below a root by their parents,
    and the activity of sub-agents kept on the root. *)
From S2P Require Import Prelude JsMap Json ThreadItems EventIndex ThreadEvents SummaryTypes SummaryProjection.

Local Open Scope nat_scope.

Abbreviation Row := StoredThreadSummary.

(** ** Descendants *)

(** The rows by their parent. *)
Definition childrenIndex (rows : list Row) : list (jstr * list Row) :=
  foldl (fun children row =>
           match s_parentThreadId row with
           | None => children
           | Some parent => mset parent (default [] (mget parent children) ++ [row]) children
           end) [] rows.

(** The children of one parent that were not visited: the ids visited, the rows
    found and the ids to go through. *)
Definition visitChildren (st : list jstr * list Row * list jstr) (row : Row)
    : list jstr * list Row * list jstr :=
  let '(visited, result, pending) := st in
  if shas (s_remoteThreadId row) visited then st
  else (sadd (s_remoteThreadId row) visited, result ++ [row], pending ++ [s_remoteThreadId row]).

Fixpoint descend (children : list (jstr * list Row)) (fuel : nat) (visited : list jstr)
    (result : list Row) (pending : list jstr) : list Row :=
  match fuel, pending with
  | O, _ | _, [] => result
  | S fuel, parent :: pending =>
      let '(visited, result, pending) :=
        foldl visitChildren (visited, result, pending) (default [] (mget parent children)) in
      descend children fuel visited result pending
  end.

(** Every id goes through the list once: the root and one id per row are enough. *)
Definition threadSummaryDescendants (rows : list Row) (rootThreadId : jstr) : list Row :=
  descend (childrenIndex rows) (S (length rows)) [rootThreadId] [] [rootThreadId].

Definition threadSummaryDescendantKeys (rows : list Row) (rootThreadId : jstr) : list jstr :=
  foldl (fun keys row => sadd (threadSummaryKey (s_connectionId row) (s_remoteThreadId row)) keys) []
    (threadSummaryDescendants rows rootThreadId).

(** ** Activity of sub-agents *)

Definition withActive (active : bool) (row : Row) : Row :=
  let d := deviceOf row in
  withDevice
    {| d_activeSubagents := Some active; d_closedQuestionTurnId := d_closedQuestionTurnId d;
       d_deleteCommandId := d_deleteCommandId d; d_firstUnreadAgentTurnId := d_firstUnreadAgentTurnId d;
       d_lastSeenCursor := d_lastSeenCursor d; d_latestActivityCursor := d_latestActivityCursor d;
       d_pendingQuestion := d_pendingQuestion d; d_pendingRequestCount := d_pendingRequestCount d;
       d_projectionCursor := d_projectionCursor d; d_skippedQuestions := d_skippedQuestions d;
       d_submittedQuestions := d_submittedQuestions d; d_unread := d_unread d |} row.

(** The root with its activity; [None] when it has it already. *)
Definition withActiveSubagents (root : Row) (rows : list Row) : option Row :=
  let active := existsb (fun row => isActive (s_status row)) (threadSummaryDescendants rows (s_remoteThreadId root)) in
  if Bool.eqb (default false (s_activeSubagents root)) active then None else Some (withActive active root).

(** The loop of [rootOf]; every step visits another id. *)
Fixpoint climb (byId : list (jstr * Row)) (fuel : nat) (visited : list jstr) (current : Row) : Row :=
  match fuel with
  | O => current
  | S fuel =>
      match s_parentThreadId current ≫= fun parent => mget parent byId with
      | Some parent =>
          if shas (s_remoteThreadId parent) visited then current
          else climb byId fuel (sadd (s_remoteThreadId parent) visited) parent
      | None => current
      end
  end.

Definition rootOf (row : Row) (byId : list (jstr * Row)) : Row :=
  climb byId (length byId) [s_remoteThreadId row] row.

Definition rootsWithChangedSubagentActivity (changedChildren rows : list Row) : list Row :=
  let byId := mfrom ((fun row => (s_remoteThreadId row, row)) <$> rows) in
  let roots :=
    foldl (fun roots child =>
             let root := rootOf child byId in
             if bool_decide (s_parentThreadId root = None) && negb (bool_decide (root = child))
             then mset (s_remoteThreadId root) root roots else roots) [] changedChildren in
  omap (fun root => withActiveSubagents root rows) (mvals roots).

(** ** What a parent reports of its sub-agents *)

Definition ACTIVE_AGENT_STATES : list string := ["pendingInit"; "running"].
Definition ENDED_AGENT_STATES : list string := ["completed"; "errored"; "interrupted"; "shutdown"].

Definition reportedState (state : json) : option bool :=
  match field "status" state with
  | Some (JStr _) as status =>
      if existsb (isStr status) ACTIVE_AGENT_STATES then Some true
      else if existsb (isStr status) ENDED_AGENT_STATES then Some false
      else None
  | _ => None
  end.

(** The states an item event reports, by thread id. *)
Definition reportedSubagentStates (payload : jobj) : list (jstr * bool) :=
  let item := optField "item" (JObj <$> asObject (oget "params" payload)) in
  match item with
  | Some (JObj o) =>
      if isStr (oget "type" o) "collabAgentToolCall" then
        match asObject (oget "agentsStates" o) with
        | Some states => omap (fun e => (fun active => (js e.1, active)) <$> reportedState e.2) states
        | None => []
        end
      else []
  | _ => []
  end.

(** The latest state of each sub-agent, from parents of a provider that is not
    the primary one. *)
Definition reportedSubagentStatesOfBatch (payloads : list (option jstr * jobj)) (parentOf : jstr -> option Row)
    : list (jstr * bool) :=
  foldl (fun reported e =>
           match (e.1 ≫= parentOf) ≫= s_codewideAgent with
           | Some agent =>
               if primary agent then reported
               else foldl (fun reported state => mset state.1 state.2 reported) reported
                      (reportedSubagentStates e.2)
           | None => reported
           end) [] payloads.

Definition withStatus (status : ThreadStatus) (row : Row) : Row :=
  {| s_activeSubagents := s_activeSubagents row; s_agentNickname := s_agentNickname row;
     s_agentRole := s_agentRole row; s_archived := s_archived row;
     s_closedQuestionTurnId := s_closedQuestionTurnId row; s_codewideAgent := s_codewideAgent row;
     s_connectionId := s_connectionId row; s_cwd := s_cwd row;
     s_deleteCommandId := s_deleteCommandId row;
     s_firstUnreadAgentTurnId := s_firstUnreadAgentTurnId row;
     s_gitOriginUrl := s_gitOriginUrl row; s_lastSeenCursor := s_lastSeenCursor row;
     s_latestActivityCursor := s_latestActivityCursor row; s_name := s_name row;
     s_parentThreadId := s_parentThreadId row; s_pendingQuestion := s_pendingQuestion row;
     s_pendingRequestCount := s_pendingRequestCount row; s_pinCursor := s_pinCursor row;
     s_pinned := s_pinned row; s_preview := s_preview row;
     s_projectionCursor := s_projectionCursor row; s_provisionalThread := s_provisionalThread row;
     s_recencyAt := s_recencyAt row; s_remoteThreadId := s_remoteThreadId row;
     s_skippedQuestions := s_skippedQuestions row; s_status := status;
     s_submittedQuestions := s_submittedQuestions row; s_unread := s_unread row;
     s_updatedAt := s_updatedAt row |}.

(** [None] when the child has the status already. *)
Definition withReportedStatus (child : Row) (active : bool) : option Row :=
  let status := if active then ActiveStatus [] else Idle in
  if sameType (s_status child) status then None else Some (withStatus status child).

(** ** What the traversal finds *)

(** [row] is below [root]: its parent is, or is the root. *)
Inductive below (rows : list Row) (root : jstr) : Row -> Prop :=
| below_child row : row ∈ rows -> s_parentThreadId row = Some root -> below rows root row
| below_step row parent : below rows root parent -> row ∈ rows ->
    s_parentThreadId row = Some (s_remoteThreadId parent) -> below rows root row.

Section descendants.
Variable (rows : list Row) (root : jstr).
Hypothesis ids_distinct : NoDup (s_remoteThreadId <$> rows).

Definition childOf (parent : jstr) (row : Row) : bool := bool_decide (s_parentThreadId row = Some parent).

Lemma childrenIndex_spec parent row :
  row ∈ default [] (mget parent (childrenIndex rows)) <-> row ∈ rows /\ s_parentThreadId row = Some parent.
Proof.
  unfold childrenIndex. clear ids_distinct. induction rows as [|x l IH] using rev_ind.
  - simpl. split; [by intros ?%elem_of_nil|by intros [?%elem_of_nil _]].
  - rewrite foldl_app. cbn [foldl]. rewrite elem_of_app, list_elem_of_singleton.
    destruct (s_parentThreadId x) as [q|] eqn:Hq; [|rewrite IH; naive_solver].
    rewrite mget_mset. case_bool_decide as Hp; [subst q|rewrite IH; naive_solver].
    cbn [default from_option id]. rewrite elem_of_app, list_elem_of_singleton, IH. naive_solver.
Qed.

(** What was visited, found and left to go through. *)
Record searching (visited : list jstr) (result : list Row) (pending : list jstr) : Prop :=
  { se_visited : forall id, id ∈ visited <-> id = root \/ id ∈ s_remoteThreadId <$> result;
    se_pending : forall id, id ∈ pending -> id ∈ visited;
    se_result : forall row, row ∈ result -> below rows root row /\ s_remoteThreadId row <> root;
    se_nodup : NoDup (s_remoteThreadId <$> result) }.

(** The children of the ids that were gone through. *)
Definition closedUnder (visited pending : list jstr) : Prop :=
  forall row parent, row ∈ rows -> s_parentThreadId row = Some parent -> parent ∈ visited ->
    parent ∉ pending -> s_remoteThreadId row ∈ visited.

Definition unseen (visited : list jstr) : nat :=
  length (filter (fun row => s_remoteThreadId row ∉ visited) rows).

Lemma below_rows row : below rows root row -> row ∈ rows.
Proof. by inversion 1. Qed.

Lemma unseen_add row visited :
  row ∈ rows -> s_remoteThreadId row ∉ visited -> S (unseen (sadd (s_remoteThreadId row) visited)) <= unseen visited.
Proof.
  intros Hin Hv. unfold unseen. clear ids_distinct. revert Hin. generalize rows. intros l.
  assert (Hle : forall l, length (filter (fun r : Row => s_remoteThreadId r ∉ sadd (s_remoteThreadId row) visited) l)
                          <= length (filter (fun r : Row => s_remoteThreadId r ∉ visited) l)).
  { intros l'. induction l' as [|x l' IH]; [done|]. rewrite !filter_cons. do 2 case_decide; simpl; try lia.
    exfalso. naive_solver (rewrite ?elem_of_sadd in *; naive_solver). }
  induction l as [|x l IH]; [by intros ?%elem_of_nil|]. rewrite elem_of_cons. intros [<-|Hin].
  - rewrite filter_cons_False by (rewrite elem_of_sadd; naive_solver). rewrite filter_cons_True by done.
    simpl. specialize (Hle l). lia.
  - specialize (IH Hin). rewrite !filter_cons. do 2 case_decide; simpl; try lia.
    exfalso. naive_solver (rewrite ?elem_of_sadd in *; naive_solver).
Qed.

(** Going through the children of a visited id. *)
Lemma visit_all parent cs visited result pending :
  (forall row, row ∈ cs -> row ∈ rows /\ s_parentThreadId row = Some parent) ->
  parent ∈ visited -> searching visited result pending ->
  let '(visited', result', pending') := foldl visitChildren (visited, result, pending) cs in
  searching visited' result' pending'
  /\ (forall id, id ∈ visited -> id ∈ visited')
  /\ (forall row, row ∈ cs -> s_remoteThreadId row ∈ visited')
  /\ (forall id, id ∈ visited' -> id ∈ visited \/ id ∈ pending')
  /\ (forall id, id ∈ pending -> id ∈ pending')
  /\ length pending' + unseen visited' <= length pending + unseen visited.
Proof.
  revert visited result pending. induction cs as [|row cs IH]; intros visited result pending Hcs Hp Hs.
  - cbn [foldl]. split_and!; [done|done|by intros ? ?%elem_of_nil|by left|done|lia].
  - cbn [foldl]. destruct (Hcs row ltac:(left)) as [Hin Hpar].
    assert (Hcs' : forall row, row ∈ cs -> row ∈ rows /\ s_parentThreadId row = Some parent)
      by (intros; apply Hcs; by right).
    unfold visitChildren at 2. unfold shas. case_bool_decide as Hv.
    + specialize (IH visited result pending Hcs' Hp Hs).
      destruct (foldl visitChildren (visited, result, pending) cs) as [[v r] q].
      destruct IH as (H1 & H2 & H3 & H4 & H5 & H6). split_and!; [done..| |done|done|done].
      intros row' [->|Hr]%elem_of_cons; auto.
    + destruct Hs as [Hsv Hsp Hsr Hsn].
      assert (Hs' : searching (sadd (s_remoteThreadId row) visited) (result ++ [row]) (pending ++ [s_remoteThreadId row])).
      { split.
        - intros id. rewrite elem_of_sadd, Hsv, fmap_app, elem_of_app. cbn [fmap list_fmap].
          rewrite list_elem_of_singleton. naive_solver.
        - intros id [Hid| ->%list_elem_of_singleton]%elem_of_app; rewrite elem_of_sadd; auto.
        - intros r [Hr| ->%list_elem_of_singleton]%elem_of_app; [by apply Hsr|].
          split; [|intros Heq; apply Hv; rewrite Heq; apply Hsv; by left].
          apply Hsv in Hp as [->|(par & -> & Hpr)%list_elem_of_fmap]; [by apply below_child|].
          apply (below_step rows root row par); [by apply Hsr|done..].
        - rewrite fmap_app. cbn [fmap list_fmap]. apply NoDup_app. split_and!; [done| |apply NoDup_singleton].
          intros id Hid ->%list_elem_of_singleton. apply Hv, Hsv. by right. }
      specialize (IH _ _ _ Hcs' ltac:(rewrite elem_of_sadd; by right) Hs').
      destruct (foldl visitChildren _ cs) as [[v r] q]. destruct IH as (H1 & H2 & H3 & H4 & H5 & H6). split_and!.
      * done.
      * intros id Hid. apply H2. rewrite elem_of_sadd. by right.
      * intros row' [->|Hr]%elem_of_cons; [apply H2; rewrite elem_of_sadd; by left|by apply H3].
      * intros id [Hid|Hid]%H4; [|by right]. apply elem_of_sadd in Hid as [->|Hid]; [|by left].
        right. apply H5, elem_of_app. right. by apply list_elem_of_singleton.
      * intros id Hid. apply H5, elem_of_app. by left.
      * rewrite length_app in H6. simpl in H6. pose proof (unseen_add row visited Hin Hv). lia.
Qed.

Lemma descend_spec fuel visited result pending :
  searching visited result pending -> closedUnder visited pending ->
  length pending + unseen visited <= fuel ->
  exists seen, searching seen (descend (childrenIndex rows) fuel visited result pending) []
    /\ closedUnder seen [] /\ (forall id, id ∈ visited -> id ∈ seen).
Proof.
  revert visited result pending. induction fuel as [|fuel IH]; intros visited result [|parent pending] Hs Hc Hf;
    cbn [descend]; try (simpl in Hf; lia); [by exists visited..|].
  assert (Hparent : parent ∈ visited) by (apply (se_pending _ _ _ Hs); left).
  assert (Hs' : searching visited result pending).
  { destruct Hs as [H1 H2 H3 H4]. split; [done| |done..]. intros id Hid. apply H2. by right. }
  pose proof (visit_all parent (default [] (mget parent (childrenIndex rows))) visited result pending
                (fun row => proj1 (childrenIndex_spec parent row)) Hparent Hs') as Hv.
  destruct (foldl visitChildren _ _) as [[v r] q]. destruct Hv as (H1 & H2 & H3 & H4 & H5 & H6).
  destruct (IH v r q H1) as (seen & Hseen & Hclosed & Hsub).
  - intros row p Hin Hp Hpv Hpq. destruct (H4 p Hpv) as [Hpv'|]; [|done].
    destruct (decide (p = parent)) as [->|Hne]; [apply H3; by apply childrenIndex_spec|].
    apply H2, (Hc row p); [done..|]. intros [->|Hq]%elem_of_cons; [done|]. by apply Hpq, H5.
  - simpl in Hf. lia.
  - exists seen. split_and!; [done..|]. intros id Hid. by apply Hsub, H2.
Qed.

Lemma descendants_found :
  NoDup (s_remoteThreadId <$> threadSummaryDescendants rows root)
  /\ forall row, row ∈ threadSummaryDescendants rows root <-> below rows root row /\ s_remoteThreadId row <> root.
Proof.
  destruct (descend_spec (S (length rows)) [root] [] [root]) as (seen & [Hv _ Hr Hn] & Hc & Hsub).
  - split; [intros id; simpl; rewrite list_elem_of_singleton; split; [by left|by intros [?|?%elem_of_nil]]
           |done|by intros row ?%elem_of_nil|constructor].
  - intros row parent _ _ ->%list_elem_of_singleton Hp. exfalso. apply Hp. left.
  - simpl. apply le_n_S. unfold unseen. apply length_filter.
  - split; [done|]. intros row. split; [by apply Hr|]. intros [Hb Hne].
    assert (Hseen : s_remoteThreadId row ∈ seen).
    { clear Hne. induction Hb as [row Hin Hp|row par Hb IH Hin Hp].
      - apply (Hc row root); [done..| |by intros ?%elem_of_nil]. apply Hsub. left.
      - by apply (Hc row (s_remoteThreadId par)); [..|intros ?%elem_of_nil]. }
    apply Hv in Hseen as [?|(row' & Heq & Hin)%list_elem_of_fmap]; [done|].
    rewrite (same_image s_remoteThreadId rows row row'); [done|done|by apply below_rows| |done].
    apply below_rows. by apply Hr.
Qed.
End descendants.

(** The traversal of sub-agents terminates on any parents, cycles included, and
    finds each row below the root once and nothing else; a root is marked as having
    active sub-agents exactly when one of those rows is active. *)
Theorem descendants_exact rows root :
  NoDup (s_remoteThreadId <$> rows) ->
  let found := threadSummaryDescendants rows (s_remoteThreadId root) in
  NoDup (s_remoteThreadId <$> found)
  /\ (forall row, row ∈ found <->
        below rows (s_remoteThreadId root) row /\ s_remoteThreadId row <> s_remoteThreadId root)
  /\ (s_activeSubagents (default root (withActiveSubagents root rows)) = Some true <->
        exists row, row ∈ found /\ isActive (s_status row) = true).
Proof.
  intros Hn found. destruct (descendants_found rows (s_remoteThreadId root) Hn) as [Hd Hf].
  split_and!; [done|done|]. rewrite <- existsb_elem. unfold withActiveSubagents. fold found.
  destruct (existsb _ found); destruct (s_activeSubagents root) as [[]|] eqn:E; simpl; rewrite ?E; naive_solver.
Qed.

Definition demo_agent (id : string) (parent : option jstr) (status : string) : Row :=
  projectThreadSummarySnapshot (js "c")
    (JObj ([("id", JStr (js id)); ("cwd", JStr (js "/")); ("preview", JStr []); ("turns", JArr []);
            ("status", JObj [("type", JStr (js status))]); ("updatedAt", JNum (NInt 1))]
           ++ match parent with Some p => [("parentThreadId", JStr p)] | None => [] end)) false None.

(** A root, its child, and two agents that are each other's parents. *)
Definition demo_tree : list Row :=
  [demo_agent "root" None "idle"; demo_agent "a" (Some (js "b")) "active"; demo_agent "child" (Some (js "root")) "idle";
   demo_agent "b" (Some (js "a")) "idle"; demo_agent "grandchild" (Some (js "child")) "active"].

Lemma descendants_exact_witness :
  (s_remoteThreadId <$> threadSummaryDescendants demo_tree (js "root")) = [js "child"; js "grandchild"]
  /\ s_activeSubagents (default (demo_agent "root" None "idle") (withActiveSubagents (demo_agent "root" None "idle") demo_tree))
     = Some true.
Proof.
  split; [vm_compute; reflexivity|].
  apply (proj2 (descendants_exact demo_tree (demo_agent "root" None "idle")
                  ltac:(apply (bool_decide_unpack _); vm_compute; reflexivity))).
  exists (demo_agent "grandchild" (Some (js "child")) "active").
  split; [apply (bool_decide_unpack _)|]; vm_compute; reflexivity.
Defined.
