(* ===== verification/SummaryView.v ===== *)
(** * The views of the thread list

    Models apps/android/src/data/thread-summary-view.ts with
    thread-summary-view-types.ts: the partitions of a view, built from rows and
    updated from changes.  Rows are compared by their contents, so
    [replaceEqualDeep], which returns something deeply equal to its second
    argument, is its second argument; an array that is returned untouched is
    told apart from a copy. *)
From S2P Require Import Prelude JsMap Json Ranking SummaryTypes SummaryProjection.

Local Open Scope nat_scope.

Inductive Partition := ArchivedPart | PinnedPart | RecentPart | SelectedPart | SubagentsPart.

#[export] Instance Partition_eq_dec : EqDecision Partition.
Proof. solve_decision. Defined.

Record ThreadSummaryViewRequest :=
  { vr_archivedLimit : nat; vr_connectionId : option jstr; vr_projectCwd : option jstr;
    vr_recentLimit : nat; vr_selectedConnectionId : option jstr; vr_selectedThreadId : option jstr;
    vr_subagentConnectionId : option jstr; vr_subagentLimit : nat; vr_viewId : option jstr }.

(** The ordered partitions, published together. *)
Record LoadedThreadSummaryView :=
  { v_archived : list StoredThreadSummary; v_pinned : list StoredThreadSummary;
    v_recent : list StoredThreadSummary; v_selected : list StoredThreadSummary;
    v_subagents : list StoredThreadSummary }.

Definition part (view : LoadedThreadSummaryView) (p : Partition) : list StoredThreadSummary :=
  match p with
  | ArchivedPart => v_archived view | PinnedPart => v_pinned view | RecentPart => v_recent view
  | SelectedPart => v_selected view | SubagentsPart => v_subagents view
  end.

Inductive SummaryChange := SummaryPut (isInsert : bool) (value : StoredThreadSummary) | SummaryDelete (key : jstr).

Definition rowKey (row : StoredThreadSummary) : jstr :=
  threadSummaryKey (s_connectionId row) (s_remoteThreadId row).

Definition summaryChangeKey (change : SummaryChange) : jstr :=
  match change with SummaryPut _ value => rowKey value | SummaryDelete key => key end.

Definition includesRow (p : Partition) (row : StoredThreadSummary) (request : ThreadSummaryViewRequest) : bool :=
  match p with
  | SelectedPart =>
      bool_decide (Some (s_connectionId row) = vr_selectedConnectionId request)
      && bool_decide (Some (s_remoteThreadId row) = vr_selectedThreadId request)
  | SubagentsPart =>
      bool_decide (Some (s_connectionId row) = vr_subagentConnectionId request)
      && bool_decide (s_parentThreadId row <> None) && bool_decide (s_deleteCommandId row = None)
  | _ =>
      if bool_decide (s_parentThreadId row <> None) || bool_decide (s_deleteCommandId row <> None)
         || match vr_connectionId request with
            | Some c => negb (bool_decide (s_connectionId row = c)) | None => false end
         || match vr_projectCwd request with
            | Some cwd => negb (bool_decide (s_cwd row = cwd)) | None => false end
      then false
      else
        match p with
        | PinnedPart => negb (s_archived row) && s_pinned row
        | RecentPart => negb (s_archived row) && negb (s_pinned row)
        | _ => s_archived row
        end
  end.

(** [None] is [Infinity]. *)
Definition limitFor (p : Partition) (request : ThreadSummaryViewRequest) : option nat :=
  match p with
  | PinnedPart => None
  | RecentPart => Some (vr_recentLimit request)
  | ArchivedPart => Some (vr_archivedLimit request)
  | SelectedPart => Some (if bool_decide (vr_selectedThreadId request = None) then 0 else 1)
  | SubagentsPart => Some (vr_subagentLimit request)
  end.

(** [result.length = limit] when it is longer. *)
Definition truncate {A} (limit : option nat) (l : list A) : list A :=
  match limit with Some n => take n l | None => l end.

(** [limit <= n]. *)
Definition reaches (limit : option nat) (n : nat) : bool :=
  match limit with Some l => l <=? n | None => false end.

Definition recencyTime (row : StoredThreadSummary) : Z := default (s_updatedAt row) (s_recencyAt row).

Section views.
(** [String.prototype.localeCompare]. *)
Variable localeCompare : jstr -> jstr -> Z.

Definition pinRank (row : StoredThreadSummary) : Z := if s_pinned row then 1%Z else 0%Z.

Definition compareIn (p : Partition) (left right : StoredThreadSummary) : Z :=
  let pinnedOrder := (if bool_decide (p = ArchivedPart) then pinRank right - pinRank left else 0)%Z in
  if negb (pinnedOrder =? 0)%Z then pinnedOrder
  else
    let recencyOrder := (recencyTime right - recencyTime left)%Z in
    if negb (recencyOrder =? 0)%Z then recencyOrder
    else localeCompare (rowKey left) (rowKey right).

Definition projectPartition (rows : list StoredThreadSummary) (p : Partition)
    (request : ThreadSummaryViewRequest) : list StoredThreadSummary :=
  let result := filter (fun row => includesRow p row request = true) rows in
  truncate (limitFor p request)
    (if bool_decide (p = SelectedPart) then result else sortBy (notAfter (compareIn p)) result).

Definition projectThreadSummaryView (rows : list StoredThreadSummary) (request : ThreadSummaryViewRequest)
    : LoadedThreadSummaryView :=
  let project p := projectPartition rows p request in
  {| v_archived := project ArchivedPart; v_pinned := project PinnedPart; v_recent := project RecentPart;
     v_selected := project SelectedPart; v_subagents := project SubagentsPart |}.

Definition insertionIndex (rows : list StoredThreadSummary) (value : StoredThreadSummary) (p : Partition) : nat :=
  searchLower (compareIn p) rows value (length rows) 0 (length rows).

(** Whether something left the partition or sank in it, and the copy of the
    partition once one was made. *)
Abbreviation PartitionState := (bool * option (list StoredThreadSummary))%type.

(** [result.splice(destination, 0, value)] where [value] belongs; [single] when
    there is one change only. *)
Definition insertRow (p : Partition) (limit : option nat) (single removed : bool)
    (previous : list StoredThreadSummary) (result : option (list StoredThreadSummary))
    (value : StoredThreadSummary) : PartitionState :=
  let rows := default previous result in
  let destination := insertionIndex rows value p in
  if reaches limit destination && single then (removed, result)
  else (removed, Some (take destination rows ++ value :: drop destination rows)).

(** Whether [value] fits where the row at [index] was. *)
Definition fitsAt (p : Partition) (rows : list StoredThreadSummary) (index : nat) (value : StoredThreadSummary) : bool :=
  match index with
  | O => true
  | S i => match rows !! i with Some before => (compareIn p before value <=? 0)%Z | None => true end
  end
  && match rows !! S index with Some after => (compareIn p value after <=? 0)%Z | None => true end.

Definition updateStep (p : Partition) (request : ThreadSummaryViewRequest) (single : bool)
    (previous : list StoredThreadSummary) (st : PartitionState) (change : SummaryChange) : PartitionState :=
  let limit := limitFor p request in
  let '(removed, result) := st in
  let rows := default previous result in
  let index := findIndex (fun row => bool_decide (rowKey row = summaryChangeKey change)) rows in
  match change, index with
  | SummaryPut _ value, index =>
      if includesRow p value request then
        match index with
        | None => insertRow p limit single removed previous result value
        | Some i =>
            match rows !! i with
            | None => insertRow p limit single removed previous result value
            | Some old =>
                if bool_decide (value = old) then st
                else
                  let removed := removed || (compareIn p old value <? 0)%Z in
                  if fitsAt p rows i value then (removed, Some (<[i := value]> rows))
                  else insertRow p limit single removed previous (Some (delete i rows)) value
            end
        end
      else match index with None => st | Some i => (true, Some (delete i rows)) end
  | SummaryDelete _, None => st
  | SummaryDelete _, Some i => (true, Some (delete i rows))
  end.

(** Whether something left, and the partition after the changes; [None] when
    the array is the one it was. *)
Definition updatePartition (previous : list StoredThreadSummary) (changes : list SummaryChange)
    (p : Partition) (request : ThreadSummaryViewRequest) : PartitionState :=
  let limit := limitFor p request in
  if bool_decide (limit = Some 0) && bool_decide (previous = []) then (false, None)
  else
    let '(removed, result) :=
      foldl (updateStep p request (length changes =? 1) previous) (false, None) changes in
    (removed, truncate limit <$> result).

(** The rows a view holds, by key. *)
Definition residentRows (view : LoadedThreadSummaryView) : list (jstr * StoredThreadSummary) :=
  mfrom ((fun row => (rowKey row, row)) <$>
           v_pinned view ++ v_recent view ++ v_archived view ++ v_selected view ++ v_subagents view).

Definition applyChange (residents : list (jstr * StoredThreadSummary)) (change : SummaryChange)
    : list (jstr * StoredThreadSummary) :=
  match change with
  | SummaryPut _ value => mset (rowKey value) value residents
  | SummaryDelete key => mdel key residents
  end.

Definition reprojectThreadSummaryChanges (previous : LoadedThreadSummaryView) (changes : list SummaryChange)
    (request : ThreadSummaryViewRequest) : LoadedThreadSummaryView :=
  projectThreadSummaryView (mvals (foldl applyChange (residentRows previous) changes)) request.

Definition updateThreadSummaryView (previous : LoadedThreadSummaryView) (changes : list SummaryChange)
    (request : ThreadSummaryViewRequest) : LoadedThreadSummaryView :=
  let update p := updatePartition (part previous p) changes p request in
  if existsb (fun p => (update p).1) [PinnedPart; RecentPart; ArchivedPart; SelectedPart; SubagentsPart]
  then reprojectThreadSummaryChanges previous changes request
  else
    let rows p := default (part previous p) (update p).2 in
    {| v_archived := rows ArchivedPart; v_pinned := rows PinnedPart; v_recent := rows RecentPart;
       v_selected := rows SelectedPart; v_subagents := rows SubagentsPart |}.
End views.

(** ** Updating is projecting again *)

(** What [localeCompare] gives on the keys of rows: an order that ranks distinct
    keys apart. *)
Class LocaleOrder (localeCompare : jstr -> jstr -> Z) : Prop :=
  { locale_sign : forall a b, (localeCompare a b < 0 <-> 0 < localeCompare b a)%Z;
    locale_trans : forall a b c,
      (localeCompare a b <= 0 -> localeCompare b c <= 0 -> localeCompare a c <= 0)%Z;
    locale_key : forall a b, localeCompare a b = 0%Z -> a = b }.

Section incremental.
Variable localeCompare : jstr -> jstr -> Z.
Context `{!LocaleOrder localeCompare}.

Abbreviation comparing := (compareIn localeCompare).
Abbreviation projecting := (projectPartition localeCompare).
Abbreviation ranked p := (ordered (notAfter (comparing p))).

Definition pinOrder (p : Partition) (left right : StoredThreadSummary) : Z :=
  (if bool_decide (p = ArchivedPart) then pinRank right - pinRank left else 0)%Z.

Lemma compareIn_cases p a b :
  (pinOrder p a b <> 0 /\ comparing p a b = pinOrder p a b
   \/ pinOrder p a b = 0 /\ recencyTime b - recencyTime a <> 0 /\ comparing p a b = recencyTime b - recencyTime a
   \/ pinOrder p a b = 0 /\ recencyTime b - recencyTime a = 0
      /\ comparing p a b = localeCompare (rowKey a) (rowKey b))%Z.
Proof.
  unfold compareIn. fold (pinOrder p a b).
  destruct (Z.eqb_spec (pinOrder p a b) 0) as [H1|H1]; simpl; [|by left].
  destruct (Z.eqb_spec (recencyTime b - recencyTime a) 0) as [H2|H2]; simpl; [|right; by left].
  right. by right.
Qed.

#[export] Instance compareIn_ranking p : Ranking (comparing p) rowKey.
Proof.
  assert (Hp : forall a b, pinOrder p b a = (- pinOrder p a b)%Z)
    by (intros a b; unfold pinOrder; destruct (bool_decide _); lia).
  assert (Ht : forall a b c, pinOrder p a c = (pinOrder p a b + pinOrder p b c)%Z)
    by (intros a b c; unfold pinOrder; destruct (bool_decide _); lia).
  split.
  - intros a b. pose proof (Hp a b). pose proof (locale_sign (rowKey a) (rowKey b)).
    pose proof (compareIn_cases p a b). pose proof (compareIn_cases p b a). lia.
  - intros a b c. pose proof (Ht a b c). pose proof (locale_trans (rowKey a) (rowKey b) (rowKey c)).
    pose proof (compareIn_cases p a b). pose proof (compareIn_cases p b c). pose proof (compareIn_cases p a c). lia.
  - intros a b H. apply locale_key. pose proof (compareIn_cases p a b). lia.
Qed.

(** *** Rows by key *)

Definition keyed (m : list (jstr * StoredThreadSummary)) : Prop :=
  mwf m /\ forall k row, (k, row) ∈ m -> k = rowKey row.

Definition without (k : jstr) (rows : list StoredThreadSummary) : list StoredThreadSummary :=
  filter (fun row => rowKey row <> k) rows.

Lemma keyed_rest k row m : keyed ((k, row) :: m) -> keyed m /\ k = rowKey row /\ k ∉ mkeys m.
Proof.
  intros [Hw Hk]. unfold mwf in Hw. rewrite mkeys_cons in Hw. apply NoDup_cons in Hw as [Hn Hw].
  split_and!; [split; [done|]|apply Hk; left|done]. intros k' row' Hin. apply Hk. by right.
Qed.

Lemma keyed_set k row m : keyed m -> k = rowKey row -> keyed (mset k row m).
Proof.
  intros [Hw Hk] ->. split; [by apply mset_wf|]. intros k' row' [[= -> ->]|Hin]%elem_mset; [done|by apply Hk].
Qed.

Lemma keyed_del k m : keyed m -> keyed (mdel k m).
Proof.
  intros [Hw Hk]. split; [by apply mdel_wf|]. intros k' row' Hin. apply Hk.
  apply mget_elem. apply (elem_mget _ _ _ (mdel_wf _ _ Hw)) in Hin. rewrite mget_mdel in Hin.
  by case_bool_decide.
Qed.

Lemma keyed_mem m row : keyed m -> row ∈ mvals m <-> mget (rowKey row) m = Some row.
Proof.
  intros [Hw Hk]. split.
  - intros [[k row'] [Heq Hin]]%list_elem_of_fmap. simpl in Heq. subst row'.
    rewrite <- (Hk _ _ Hin). by apply elem_mget.
  - intros Hin%mget_elem. by apply (list_elem_of_fmap_2 snd m (rowKey row, row)).
Qed.

Lemma vals_nodup m : keyed m -> NoDup (rowKey <$> mvals m).
Proof.
  intros [Hw Hk]. unfold mvals. rewrite <- list_fmap_compose.
  replace ((rowKey ∘ snd) <$> m) with (mkeys m); [done|]. unfold mkeys.
  apply list_fmap_ext. intros i [k row] Hi. apply (Hk k row). by eapply list_elem_of_lookup_2.
Qed.

Lemma without_del k m : keyed m -> mvals (mdel k m) ≡ₚ without k (mvals m).
Proof.
  intros Hm. apply NoDup_Permutation.
  - eapply NoDup_fmap_1, vals_nodup, keyed_del, Hm.
  - apply NoDup_filter. by eapply NoDup_fmap_1, vals_nodup.
  - intros row. unfold without. rewrite list_elem_of_filter, !keyed_mem, mget_mdel by (done || by apply keyed_del).
    case_bool_decide; naive_solver.
Qed.

Lemma without_set value m : keyed m -> mvals (mset (rowKey value) value m) ≡ₚ value :: without (rowKey value) (mvals m).
Proof.
  intros Hm. apply NoDup_Permutation.
  - by eapply NoDup_fmap_1, vals_nodup, keyed_set.
  - apply NoDup_cons. split; [unfold without; rewrite list_elem_of_filter; naive_solver|].
    apply NoDup_filter. by eapply NoDup_fmap_1, vals_nodup.
  - intros row. unfold without.
    rewrite elem_of_cons, list_elem_of_filter, !keyed_mem, mget_mset by (done || by apply keyed_set).
    case_bool_decide; naive_solver.
Qed.

(** *** One partition *)

Section partition.
Variable (p : Partition) (request : ThreadSummaryViewRequest).

Abbreviation limit := (limitFor p request).
Abbreviation front := (front (comparing p)).
Abbreviation insert := (insertBy (notAfter (comparing p))).

(** The rows of the partition among [rows]. *)
Definition mine (rows : list StoredThreadSummary) : list StoredThreadSummary :=
  filter (fun row => includesRow p row request = true) rows.

(** The list holds the rows of the partition, but for some with as many rows in
    front of them as the partition may show. *)
Definition shows (residents rows : list StoredThreadSummary) : Prop :=
  NoDup (rowKey <$> residents) /\ ranked p rows /\
  exists others, mine residents ≡ₚ rows ++ others
    /\ Forall (fun x => reaches limit (front x rows) = true) others.

Lemma reaches_le n m : reaches limit n = true -> n <= m -> reaches limit m = true.
Proof. unfold reaches. destruct limit as [l|]; [|done]. rewrite !Nat.leb_le. lia. Qed.

(** The element is in front of what the other is in front of. *)
Lemma front_mono v x l : (comparing p v x <= 0)%Z -> front v l <= front x l.
Proof.
  intros Hv. unfold Ranking.front. induction l as [|y l IH]; [done|]. rewrite !filter_cons.
  destruct (decide (inFront (comparing p) v y)) as [Hy|Hy]; destruct (decide (inFront (comparing p) x y)) as [Hx|Hx]; simpl; try lia.
  exfalso. apply Hx. unfold inFront in *. apply (notAfter_false (comparing p) rowKey) in Hy.
  apply (notAfter_false (comparing p) rowKey). destruct (notAfter (comparing p) x y) eqn:E; [|done].
  rewrite <- Hy. symmetry. apply (notAfter_trans (comparing p) rowKey v x y); [by apply notAfter_spec|done].
Qed.

Lemma mine_without k rows : mine (without k rows) = without k (mine rows).
Proof.
  unfold mine, without. rewrite !list_filter_filter. apply list_filter_iff. naive_solver.
Qed.

Lemma without_absent k rows : k ∉ rowKey <$> rows -> without k rows = rows.
Proof.
  induction rows as [|row rows IH]; [done|]. cbn [fmap list_fmap]. rewrite elem_of_cons. intros Hk.
  unfold without. rewrite filter_cons_True by (intros <-; apply Hk; by left).
  f_equal. apply IH. intros H. apply Hk. by right.
Qed.

Lemma without_app k l1 l2 : without k (l1 ++ l2) = without k l1 ++ without k l2.
Proof. apply filter_app. Qed.

Lemma without_head row rows : NoDup (rowKey <$> row :: rows) -> without (rowKey row) (row :: rows) = rows.
Proof.
  cbn [fmap list_fmap]. intros [Hn _]%NoDup_cons. unfold without.
  rewrite filter_cons_False by naive_solver. by apply without_absent.
Qed.

#[local] Instance without_proper k : Proper ((≡ₚ) ==> (≡ₚ)) (without k).
Proof. intros l1 l2 H. unfold without. by rewrite H. Qed.

Lemma mine_nodup residents : NoDup (rowKey <$> residents) -> NoDup (rowKey <$> mine residents).
Proof. intros H. eapply sublist_NoDup; [exact H|]. apply fmap_sublist, sublist_filter. Qed.

(** Residents after a change. *)
Definition changed (residents : list StoredThreadSummary) (change : SummaryChange)
    (residents' : list StoredThreadSummary) : Prop :=
  match change with
  | SummaryPut _ value => residents' ≡ₚ value :: without (rowKey value) residents
  | SummaryDelete key => residents' ≡ₚ without key residents
  end.

Lemma without_nodup k rows : NoDup (rowKey <$> rows) -> NoDup (rowKey <$> without k rows).
Proof. intros H. eapply sublist_NoDup; [exact H|]. apply fmap_sublist, sublist_filter. Qed.

Lemma changed_nodup residents change residents' :
  NoDup (rowKey <$> residents) -> changed residents change residents' -> NoDup (rowKey <$> residents').
Proof.
  intros Hn. destruct change as [isInsert value|key]; simpl; intros ->; [|by apply without_nodup].
  cbn [fmap list_fmap]. apply NoDup_cons. split; [|by apply without_nodup].
  intros (row & Hk & Hin)%list_elem_of_fmap. unfold without in Hin. apply list_elem_of_filter in Hin. naive_solver.
Qed.

(** The rows of the partition after a change. *)
Lemma mine_changed residents change residents' :
  changed residents change residents' ->
  mine residents' ≡ₚ
    match change with
    | SummaryPut _ value =>
        if includesRow p value request then value :: without (rowKey value) (mine residents)
        else without (rowKey value) (mine residents)
    | SummaryDelete key => without key (mine residents)
    end.
Proof.
  destruct change as [isInsert value|key]; simpl; intros H; unfold mine at 1; rewrite H, <- ?mine_without; [|done].
  rewrite filter_cons. unfold mine. destruct (includesRow p value request); by case_decide.
Qed.

Lemma insertRow_shows single removed previous result value base others residents :
  default previous result = base -> ranked p base -> NoDup (rowKey <$> residents) ->
  mine residents ≡ₚ value :: base ++ others ->
  Forall (fun x => reaches limit (front x (value :: base)) = true) others ->
  shows residents (default previous (insertRow localeCompare p limit single removed previous result value).2).
Proof.
  intros Hb Ho Hn Hm Hf. unfold insertRow. rewrite Hb. unfold insertionIndex.
  destruct (reaches limit (searchLower (comparing p) base value (length base) 0 (length base)) && single) eqn:E; simpl.
  - rewrite Hb. apply andb_true_iff in E as [E _]. rewrite (searchLower_front (comparing p) rowKey) in E by done.
    split_and!; [done..|]. exists (value :: others). split; [by rewrite Hm, Permutation_middle|].
    constructor; [done|]. eapply Forall_impl; [exact Hf|]. intros x Hx. cbn beta in *.
    rewrite front_cons in Hx. destruct (decide (inFront (comparing p) x value)) as [Hv|]; [|done].
    eapply reaches_le; [exact E|]. apply front_mono. unfold inFront in Hv. lia.
  - rewrite (searchLower_insert (comparing p) rowKey) by done.
    split_and!; [done|by apply (insert_ranked (comparing p) rowKey)|]. exists others. rewrite (insertBy_perm _ value base). split; [done|].
    eapply Forall_impl; [exact Hf|]. intros x. cbn beta. by rewrite front_insert.
Qed.

Lemma shows_perm residents rows l : shows residents rows -> mine residents ≡ₚ l ->
  exists others, l ≡ₚ rows ++ others /\ Forall (fun x => reaches limit (front x rows) = true) others.
Proof. intros (_ & _ & others & Hm & Hf) Hl. exists others. by rewrite <- Hl. Qed.

(** A change of a row the list does not hold takes at most one of the others
    away. *)
Lemma shows_absent residents rows k :
  shows residents rows -> k ∉ rowKey <$> rows ->
  exists others, without k (mine residents) ≡ₚ rows ++ others
    /\ Forall (fun x => reaches limit (front x rows) = true) others.
Proof.
  intros (Hn & Ho & others & Hm & Hf) Hk. exists (without k others).
  split; [by rewrite Hm, without_app, (without_absent k rows)|]. apply Forall_forall. intros x [_ Hx]%list_elem_of_filter. by apply (proj1 (Forall_forall _ _) Hf).
Qed.

(** A row the list holds, and the rest. *)
Lemma shows_held residents rows i old :
  shows residents rows -> rows !! i = Some old ->
  exists others, without (rowKey old) (mine residents) ≡ₚ delete i rows ++ others
    /\ Forall (fun x => reaches limit (front x (old :: delete i rows)) = true) others.
Proof.
  intros (Hn & Ho & others & Hm & Hf) Hi. pose proof (delete_Permutation rows i old Hi) as Hp.
  assert (Hall : mine residents ≡ₚ old :: delete i rows ++ others) by (by rewrite Hm, Hp at 1).
  exists others. split.
  - rewrite Hall. rewrite without_head; [done|]. rewrite <- Hall. by apply mine_nodup.
  - eapply Forall_impl; [exact Hf|]. intros x. cbn beta. by rewrite <- (front_perm _ x _ _ Hp).
Qed.

Lemma ranked_delete rows i : ranked p rows -> ranked p (delete i rows).
Proof.
  intros Ho a b x y Hab Ha Hb.
  destruct (decide (a < i)) as [Ha'|Ha']; [rewrite list_lookup_delete_lt in Ha by done|rewrite list_lookup_delete_ge in Ha by lia];
    (destruct (decide (b < i)) as [Hb'|Hb']; [rewrite list_lookup_delete_lt in Hb by done|rewrite list_lookup_delete_ge in Hb by lia]);
    (eapply (Ho _ _ x y); [|exact Ha|exact Hb]; lia).
Qed.

(** Neighbours in order keep the list in order. *)
Lemma fitsAt_ranked rows i old value :
  ranked p rows -> rows !! i = Some old -> fitsAt localeCompare p rows i value = true -> ranked p (<[i := value]> rows).
Proof.
  intros Ho Hi [Hl Hr]%andb_true_iff a b x y Hab Ha Hb.
  pose proof (notAfter_trans (comparing p) rowKey) as Ht. pose proof (lookup_lt_Some _ _ _ Hi) as Hlt.
  destruct (decide (a = i)) as [->|Hai]; [rewrite list_lookup_insert_eq in Ha by done|rewrite list_lookup_insert_ne in Ha by done];
    (destruct (decide (b = i)) as [->|Hbi]; [rewrite list_lookup_insert_eq in Hb by done|rewrite list_lookup_insert_ne in Hb by done]);
    simplify_eq.
  - lia.
  - destruct (rows !! S i) as [after|] eqn:E.
    + destruct (decide (b = S i)) as [->|]; [simplify_eq; exact Hr|].
      apply (Ht x after y); [exact Hr|]. by apply (Ho (S i) b); [lia|..].
    + apply lookup_ge_None in E. apply lookup_lt_Some in Hb. lia.
  - destruct i as [|i]; [lia|]. destruct (rows !! i) as [before|] eqn:E.
    + destruct (decide (a = i)) as [->|]; [simplify_eq; exact Hl|].
      apply (Ht x before y); [|exact Hl]. by apply (Ho a i); [lia|..].
    + apply lookup_ge_None in E. apply lookup_lt_Some in Ha. lia.
  - by apply (Ho a b).
Qed.

Lemma replace_perm (rows : list StoredThreadSummary) i old value :
  rows !! i = Some old -> <[i := value]> rows ≡ₚ value :: delete i rows.
Proof.
  revert i. induction rows as [|row rows IH]; intros [|i] Hi; simplify_eq/=; [done|].
  rewrite (IH i Hi). apply Permutation_swap.
Qed.

Lemma front_raised x old value l : (comparing p value old <= 0)%Z -> front x (old :: l) <= front x (value :: l).
Proof.
  intros Hv. rewrite !front_cons. destruct (decide (inFront _ x old)) as [Hx|]; [|lia].
  rewrite decide_True; [done|]. unfold inFront in *.
  apply (notAfter_false (comparing p) rowKey) in Hx. apply (notAfter_false (comparing p) rowKey).
  destruct (notAfter (comparing p) x value) eqn:E; [|done]. rewrite <- Hx. symmetry.
  apply (notAfter_trans (comparing p) rowKey x value old); [done|]. by apply notAfter_spec.
Qed.

(** A value placed among the rest of the list. *)
Lemma shows_placed residents rows i old value :
  shows residents rows -> rows !! i = Some old -> rowKey value = rowKey old ->
  fitsAt localeCompare p rows i value = true -> NoDup (rowKey <$> value :: delete i rows) ->
  <[i := value]> rows = insert value (delete i rows).
Proof.
  intros (_ & Ho & _) Hi Hk Hfit Hn.
  apply (ranked_unique (comparing p) rowKey).
  - by apply (fitsAt_ranked rows i old).
  - by apply (insert_ranked (comparing p) rowKey), ranked_delete.
  - by rewrite (replace_perm rows i old), insertBy_perm.
  - by rewrite (replace_perm rows i old).
Qed.

Lemma find_row rows k :
  match findIndex (fun row => bool_decide (rowKey row = k)) rows with
  | Some i => exists old, rows !! i = Some old /\ rowKey old = k
  | None => k ∉ rowKey <$> rows
  end.
Proof.
  destruct (findIndex _ rows) as [i|] eqn:E.
  - apply findIndex_Some in E as (old & Hi & Hk & _). exists old. by case_bool_decide.
  - apply findIndex_None in E. intros (row & -> & Hin)%list_elem_of_fmap.
    pose proof (proj1 (Forall_forall _ _) E row Hin) as H. cbn beta in H. by case_bool_decide.
Qed.

(** A change of a row of the partition, with what else the residents hold. *)
Lemma put_shows isInsert value single previous result residents residents' :
  includesRow p value request = true ->
  shows residents (default previous result) ->
  changed residents (SummaryPut isInsert value) residents' ->
  let st' := updateStep localeCompare p request single previous (false, result) (SummaryPut isInsert value) in
  st'.1 = false -> shows residents' (default previous st'.2).
Proof.
  intros Hinc Hs Hc. cbn zeta. unfold updateStep. rewrite Hinc. cbn [summaryChangeKey].
  set (rows := default previous result) in *.
  pose proof (changed_nodup _ _ _ (proj1 Hs) Hc) as Hn'.
  pose proof (mine_changed _ _ _ Hc) as Hm'. cbv beta iota in Hm'. rewrite Hinc in Hm'.
  pose proof (find_row rows (rowKey value)) as Hf.
  destruct (findIndex _ rows) as [i|].
  - destruct Hf as (old & Hi & Hk). rewrite Hi.
    destruct (shows_held residents rows i old Hs Hi) as (others & Hw & Hall). rewrite Hk in Hw.
    assert (Hm : mine residents' ≡ₚ value :: delete i rows ++ others) by (by rewrite Hm', Hw).
    case_bool_decide as Hv.
    + subst old. intros _. destruct Hs as (Hn & Ho & _). split_and!; [done..|]. exists others.
      split; [rewrite Hm, app_comm_cons; apply Permutation_app_tail; symmetry; by apply delete_Permutation|].
      eapply Forall_impl; [exact Hall|]. intros x. cbn beta.
      by rewrite <- (front_perm _ x _ _ (delete_Permutation rows i value Hi)).
    + cbn [orb]. intros Hlow.
      assert (Hraise : (comparing p value old <= 0)%Z).
      { assert (Hb : (compareIn localeCompare p old value <? 0)%Z = false)
          by (destruct (fitsAt _ _ _ _ _); [done|unfold insertRow in Hlow; by destruct (_ && _)]).
        apply Z.ltb_ge in Hb. pose proof (rank_sign (compare := comparing p) value old). 
        pose proof (rank_sign (compare := comparing p) old value). lia. }
      assert (Hothers : Forall (fun x => reaches limit (front x (value :: delete i rows)) = true) others).
      { eapply Forall_impl; [exact Hall|]. intros x Hx. cbn beta in *. eapply reaches_le; [exact Hx|].
        by apply front_raised. }
      assert (Hnd : NoDup (rowKey <$> value :: delete i rows)).
      { pose proof (mine_nodup _ Hn') as Hk'. rewrite Hm in Hk'.
        change (NoDup (rowKey <$> (value :: delete i rows) ++ others)) in Hk'.
        rewrite fmap_app in Hk'. by apply NoDup_app in Hk' as [? _]. }
      destruct (fitsAt localeCompare p rows i value) eqn:Hfit.
      * simpl. rewrite (shows_placed residents rows i old value) by done.
        split_and!; [done|apply (insert_ranked (comparing p) rowKey), ranked_delete; apply Hs|].
        exists others. rewrite (insertBy_perm _ value (delete i rows)). split; [done|].
        eapply Forall_impl; [exact Hothers|]. intros x. cbn beta. by rewrite front_insert.
      * apply (insertRow_shows _ _ _ _ _ (delete i rows) others); [done|apply ranked_delete, Hs|done..].
  - intros _. destruct (shows_absent residents rows _ Hs Hf) as (others & Hw & Hall).
    apply (insertRow_shows _ _ _ _ _ rows others); [done|apply Hs|done|by rewrite Hm', Hw|].
    eapply Forall_impl; [exact Hall|]. intros x Hx. cbn beta in *. eapply reaches_le; [exact Hx|].
    rewrite front_cons. lia.
Qed.

(** As long as nothing leaves the partition or sinks in it, the list shows the
    residents. *)
Lemma shows_step single previous st change residents residents' :
  st.1 = false -> shows residents (default previous st.2) -> changed residents change residents' ->
  let st' := updateStep localeCompare p request single previous st change in
  st'.1 = false -> shows residents' (default previous st'.2).
Proof.
  destruct st as [removed result]. cbn [fst snd]. intros -> Hs Hc.
  assert (Hleft : forall k, k = summaryChangeKey change ->
            mine residents' ≡ₚ without k (mine residents) -> k ∉ rowKey <$> default previous result ->
            shows residents' (default previous result)).
  { intros k -> Hm Hk. destruct (shows_absent residents _ _ Hs Hk) as (others & Hw & Hall).
    split_and!; [by eapply changed_nodup, Hc; apply Hs|apply Hs|]. exists others. by rewrite Hm, Hw. }
  pose proof (mine_changed _ _ _ Hc) as Hm.
  pose proof (find_row (default previous result) (summaryChangeKey change)) as Hf.
  destruct change as [isInsert value|key]; cbn [summaryChangeKey] in *; cbv beta iota in Hm.
  - destruct (includesRow p value request) eqn:Hinc; [by apply (put_shows isInsert value single previous result residents)|].
    cbn zeta. unfold updateStep. rewrite Hinc. cbn [summaryChangeKey].
    destruct (findIndex _ _); [done|]. intros _. by apply (Hleft (rowKey value)).
  - cbn zeta. unfold updateStep. cbn [summaryChangeKey]. destruct (findIndex _ _); [done|]. intros _. by apply (Hleft key).
Qed.

Lemma removed_stays single previous st change :
  st.1 = true -> (updateStep localeCompare p request single previous st change).1 = true.
Proof.
  destruct st as [removed result]. cbn [fst]. intros ->. unfold updateStep, insertRow. js_case.
Qed.

Lemma removed_stays_all single previous changes st :
  st.1 = true -> (foldl (updateStep localeCompare p request single previous) st changes).1 = true.
Proof. revert st. induction changes as [|change changes IH]; [done|]. intros st H. by apply IH, removed_stays. Qed.

Lemma applyChange_keyed m change : keyed m -> keyed (applyChange m change).
Proof. destruct change; simpl; [intros; by apply keyed_set|apply keyed_del]. Qed.

Lemma applyChange_changed m change : keyed m -> changed (mvals m) change (mvals (applyChange m change)).
Proof. destruct change; simpl; [apply without_set|apply without_del]. Qed.

Lemma applyChanges_keyed changes m : keyed m -> keyed (foldl applyChange m changes).
Proof. revert m. induction changes as [|change changes IH]; [done|]. intros m H. by apply IH, applyChange_keyed. Qed.

Lemma shows_fold single previous changes st m :
  st.1 = false -> keyed m -> shows (mvals m) (default previous st.2) ->
  let st' := foldl (updateStep localeCompare p request single previous) st changes in
  st'.1 = false -> shows (mvals (foldl applyChange m changes)) (default previous st'.2).
Proof.
  cbn zeta. revert st m. induction changes as [|change changes IH]; [done|]. cbn [foldl]. intros st m Hst Hm Hs Hend.
  set (st1 := updateStep localeCompare p request single previous st change) in *.
  assert (Hst1 : st1.1 = false).
  { destruct (st1.1) eqn:E; [|done]. by rewrite removed_stays_all in Hend. }
  apply (IH st1); [done|by apply applyChange_keyed| |done].
  apply (shows_step single previous st change (mvals m)); [done..|by apply applyChange_changed|done].
Qed.

(** At most one row is the selected one. *)
Lemma selected_single residents :
  p = SelectedPart -> NoDup (rowKey <$> residents) -> sortBy (notAfter (comparing p)) (mine residents) = mine residents.
Proof.
  intros Hp Hn. pose proof (mine_nodup _ Hn) as Hk.
  destruct (mine residents) as [|x [|y l]] eqn:E; [done..|]. exfalso.
  assert (Hin : forall z, z ∈ x :: y :: l -> includesRow p z request = true).
  { intros z Hz. rewrite <- E in Hz. by apply list_elem_of_filter in Hz as [? _]. }
  assert (Hx := Hin x ltac:(left)). assert (Hy := Hin y ltac:(right; left)).
  rewrite Hp in Hx, Hy. simpl in Hx, Hy. bool_prop.
  apply NoDup_cons in Hk as [Hk _]. apply Hk. replace (rowKey x) with (rowKey y); [left|].
  unfold rowKey. f_equal; congruence.
Qed.

(** What a partition shows is the projection of the residents. *)
Lemma shows_project residents rows : shows residents rows -> projecting residents p request = truncate limit rows.
Proof.
  intros (Hn & Ho & others & Hm & Hf). unfold projectPartition. fold (mine residents).
  assert (Hsort : (if bool_decide (p = SelectedPart) then mine residents
                   else sortBy (notAfter (comparing p)) (mine residents))
                  = sortBy (notAfter (comparing p)) (mine residents)).
  { case_bool_decide; [|done]. by rewrite selected_single. }
  rewrite Hsort. clear Hsort.
  assert (Hkeys : NoDup (rowKey <$> others ++ rows)).
  { rewrite (Permutation_app_comm others rows), <- Hm. by apply mine_nodup. }
  assert (sortBy (notAfter (comparing p)) (mine residents) = sortBy (notAfter (comparing p)) (others ++ rows)) as ->.
  { apply (ranked_unique (comparing p) rowKey); [by apply (sort_ranked (comparing p) rowKey)..| |].
    - rewrite !sortBy_perm, Hm. apply Permutation_app_comm.
    - rewrite sortBy_perm. by apply mine_nodup. }
  rewrite fmap_app in Hkeys. apply NoDup_app in Hkeys as (_ & _ & Hkeys).
  unfold truncate, reaches in *. destruct limit as [n|].
  - rewrite (take_sort (comparing p) rowKey n rows others); [by rewrite (sort_same (comparing p) rowKey)|done|].
    eapply Forall_impl; [exact Hf|]. intros x. cbn beta. apply Nat.leb_le.
  - destruct others as [|x others]; [|by apply Forall_cons in Hf as [? _]]. by apply (sort_same (comparing p) rowKey).
Qed.

(** The update of a partition that lost nothing. *)
Lemma updatePartition_shows previous changes m :
  keyed m -> shows (mvals m) previous -> previous = truncate limit previous ->
  let st := updatePartition localeCompare previous changes p request in
  st.1 = false -> default previous st.2 = projecting (mvals (foldl applyChange m changes)) p request.
Proof.
  intros Hm Hs Ht. cbn zeta. unfold updatePartition.
  destruct (bool_decide (limit = Some 0) && bool_decide (previous = [])) eqn:E.
  - apply andb_true_iff in E as [E1%bool_decide_eq_true E2%bool_decide_eq_true]. intros _.
    unfold projectPartition. by rewrite E1, E2.
  - pose proof (shows_fold (length changes =? 1) previous changes (false, None) m eq_refl Hm Hs) as Hfold.
    cbn zeta in Hfold. destruct (foldl _ _ _) as [removed result]. cbn [fst snd] in *. intros ->.
    rewrite (shows_project _ _ (Hfold eq_refl)). by destruct result.
Qed.

(** The rows of a partition in order, cut at the limit. *)
Definition inOrder (rows : list StoredThreadSummary) : list StoredThreadSummary :=
  sortBy (notAfter (comparing p)) (mine rows).

Lemma projecting_order rows :
  NoDup (rowKey <$> rows) -> projecting rows p request = truncate limit (inOrder rows).
Proof.
  intros Hn. unfold projectPartition, inOrder. fold (mine rows). case_bool_decide; [|done].
  by rewrite selected_single.
Qed.

Lemma elem_inOrder rows row : row ∈ inOrder rows <-> row ∈ rows /\ includesRow p row request = true.
Proof. unfold inOrder. rewrite sortBy_perm. unfold mine. rewrite list_elem_of_filter. naive_solver. Qed.

(** The rows of a ranked list, in front of those after it. *)
Lemma front_of_prefix (l1 l2 : list StoredThreadSummary) x :
  ranked p (l1 ++ l2) -> NoDup (rowKey <$> l1 ++ l2) -> x ∈ l2 -> front x l1 = length l1.
Proof.
  intros Ho Hn [j Hj]%list_elem_of_lookup_1. unfold Ranking.front. f_equal.
  assert (Hall : forall y, y ∈ l1 -> inFront (comparing p) x y).
  { intros y [i Hi]%list_elem_of_lookup_1. unfold inFront.
    assert (Hle : notAfter (comparing p) y x = true).
    { apply (Ho i (length l1 + j)); [apply lookup_lt_Some in Hi; lia|by apply lookup_app_l_Some|].
      rewrite lookup_app_r by lia. by replace (length l1 + j - length l1) with j by lia. }
    apply notAfter_spec in Hle. apply Z.le_neq. split; [done|]. intros Heq%(rank_key (compare := comparing p) (key := rowKey)).
    rewrite fmap_app in Hn. apply NoDup_app in Hn as (_ & Hn & _).
    apply (Hn (rowKey y)); [by apply list_elem_of_fmap_2, list_elem_of_lookup_2 with i|].
    rewrite Heq. by apply list_elem_of_fmap_2, list_elem_of_lookup_2 with j. }
  clear -Hall. induction l1 as [|y l1 IH]; [done|]. rewrite filter_cons_True by (apply Hall; left).
  f_equal. apply IH. intros z Hz. apply Hall. by right.
Qed.

(** A published partition shows the residents of its view, whatever they are as
    long as they come from the rows the view was built from. *)
Lemma shows_projection rows residents :
  NoDup (rowKey <$> rows) -> NoDup (rowKey <$> residents) ->
  (forall row, row ∈ residents -> row ∈ rows) ->
  (forall row, row ∈ projecting rows p request -> row ∈ residents) ->
  shows residents (projecting rows p request).
Proof.
  intros Hn Hr Hsub Hsup. rewrite projecting_order in * by done.
  set (l := inOrder rows) in *.
  assert (Hl : ranked p l) by apply (sort_ranked (comparing p) rowKey).
  assert (Hkl : NoDup (rowKey <$> l)) by (unfold l, inOrder; rewrite sortBy_perm; by apply mine_nodup).
  set (shown := truncate limit l) in *.
  assert (Hcut : exists hidden, l = shown ++ hidden /\ (hidden <> [] -> reaches limit (length shown) = true)).
  { unfold shown, truncate, reaches. destruct limit as [n|]; [|exists []; by rewrite app_nil_r].
    exists (drop n l). split; [by rewrite take_drop|]. intros Hd. apply Nat.leb_le. rewrite length_take.
    destruct (decide (n <= length l)); [lia|]. by rewrite drop_ge in Hd by lia. }
  destruct Hcut as (hidden & Hcut & Hreach).
  assert (Hks : NoDup (rowKey <$> shown ++ hidden)) by (by rewrite <- Hcut).
  split_and!; [done| |].
  - rewrite Hcut in Hl. intros i j x y Hij Hi Hj. by apply (Hl i j); [..|apply lookup_app_l_Some|apply lookup_app_l_Some].
  - exists (filter (fun row => row ∉ shown) (mine residents)). split.
    + apply NoDup_Permutation.
      * eapply NoDup_fmap_1, mine_nodup, Hr.
      * apply NoDup_app. split_and!.
        -- rewrite fmap_app in Hks. apply NoDup_app in Hks as [Hks _]. by eapply NoDup_fmap_1.
        -- intros x Hx. rewrite list_elem_of_filter. naive_solver.
        -- apply NoDup_filter. eapply NoDup_fmap_1, mine_nodup, Hr.
      * intros x. rewrite elem_of_app, list_elem_of_filter. unfold mine. rewrite list_elem_of_filter.
        split; [intros Hx; destruct (decide (x ∈ shown)); naive_solver|]. intros [Hx|[_ Hx]]; [|done].
        split; [|by apply Hsup].
        assert (Hxl : x ∈ l) by (rewrite Hcut; apply elem_of_app; by left).
        by apply elem_inOrder in Hxl as [_ ?].
    + apply Forall_forall. intros x [Hx [Hinc Hin]%list_elem_of_filter]%list_elem_of_filter.
      assert (Hh : x ∈ hidden).
      { assert (Hxl : x ∈ l) by (apply elem_inOrder; auto). rewrite Hcut in Hxl.
        by apply elem_of_app in Hxl as [?|?]. }
      rewrite (front_of_prefix shown hidden x); [|by rewrite <- Hcut|done|done].
      apply Hreach. by intros ->; apply elem_of_nil in Hh.
Qed.
End partition.

(** *** Views *)

Definition byKey (rows : list StoredThreadSummary) : list (jstr * StoredThreadSummary) :=
  mfrom ((fun row => (rowKey row, row)) <$> rows).

Lemma byKey_keyed rows : keyed (byKey rows).
Proof.
  split; [apply mfrom_wf|]. intros k row Hin. apply (elem_mget _ _ _ (mfrom_wf _)), mget_mfrom_elem in Hin.
  by apply list_elem_of_fmap in Hin as (row' & [= -> ->] & _).
Qed.

Lemma byKey_mem rows row : row ∈ mvals (byKey rows) -> row ∈ rows.
Proof.
  rewrite (keyed_mem _ _ (byKey_keyed rows)). intros Hin%mget_mfrom_elem.
  by apply list_elem_of_fmap in Hin as (row' & [= _ ->] & ?).
Qed.

Lemma byKey_vals rows : NoDup (rowKey <$> rows) -> mvals (byKey rows) = rows.
Proof.
  intros Hn. unfold byKey, mvals. rewrite mfrom_distinct.
  - rewrite <- list_fmap_compose. apply list_fmap_id.
  - by rewrite <- list_fmap_compose.
Qed.

(** A row with the key of a kept one is there. *)
Lemma byKey_has rows row :
  row ∈ rows -> exists row', row' ∈ mvals (byKey rows) /\ rowKey row' = rowKey row.
Proof.
  intros Hin. assert (Hs : is_Some (mget (rowKey row) (byKey rows))).
  { apply mget_mfrom_has. rewrite <- list_fmap_compose. by apply (list_elem_of_fmap_2 rowKey). }
  destruct Hs as [row' Hr]. assert (Hk : rowKey row = rowKey row') by (apply (byKey_keyed rows), mget_elem, Hr).
  exists row'. split; [|done]. rewrite (keyed_mem _ _ (byKey_keyed rows)). by rewrite <- Hk.
Qed.

Variable request : ThreadSummaryViewRequest.

Lemma part_project rows p : part (projectThreadSummaryView localeCompare rows request) p = projecting rows p request.
Proof. by destruct p. Qed.

Lemma projecting_mem rows p row : row ∈ projecting rows p request -> row ∈ rows.
Proof.
  unfold projectPartition. intros Hin.
  assert (Hin' : row ∈ (if bool_decide (p = SelectedPart) then mine p request rows
                        else sortBy (notAfter (comparing p)) (mine p request rows))).
  { unfold truncate in Hin. destruct (limitFor p request); [|done]; apply elem_of_take in Hin as (i & Hi & _); by eapply list_elem_of_lookup_2. }
  case_bool_decide; [|rewrite sortBy_perm in Hin']; by apply list_elem_of_filter in Hin' as [_ ?].
Qed.

(** The rows of a view are those of its partitions, each once. *)
Lemma residents_of rows :
  NoDup (rowKey <$> rows) ->
  let view := projectThreadSummaryView localeCompare rows request in
  (forall row, row ∈ mvals (residentRows view) -> row ∈ rows)
  /\ forall p row, row ∈ part view p -> row ∈ mvals (residentRows view).
Proof.
  intros Hn view. set (all := v_pinned view ++ v_recent view ++ v_archived view ++ v_selected view ++ v_subagents view).
  change (residentRows view) with (byKey all).
  assert (Hall : forall row, row ∈ all <-> exists p, row ∈ part view p).
  { intros row. unfold all. rewrite !elem_of_app. split.
    - intros [?|[?|[?|[?|?]]]]; [by exists PinnedPart|by exists RecentPart|by exists ArchivedPart|by exists SelectedPart|by exists SubagentsPart].
    - intros [[] ?]; simpl in *; auto 10. }
  assert (Hsub : forall row, row ∈ all -> row ∈ rows).
  { intros row [p Hp]%Hall. unfold view in Hp. rewrite part_project in Hp. by apply projecting_mem in Hp. }
  split; [intros row Hin%byKey_mem; by apply Hsub|]. intros p row Hp.
  assert (Hin : row ∈ all) by (apply Hall; by exists p).
  destruct (byKey_has all row Hin) as (row' & Hin' & Hk).
  assert (row' = row) as <-; [|done]. apply (same_image rowKey rows); [done|by apply Hsub, byKey_mem|by apply Hsub|done].
Qed.

(** Whether something left a partition of the view or sank in it. *)
Definition loses (previous : LoadedThreadSummaryView) (changes : list SummaryChange) : bool :=
  existsb (fun p => (updatePartition localeCompare (part previous p) changes p request).1)
    [PinnedPart; RecentPart; ArchivedPart; SelectedPart; SubagentsPart].

Lemma loses_none previous changes p :
  loses previous changes = false -> (updatePartition localeCompare (part previous p) changes p request).1 = false.
Proof. unfold loses. cbn [existsb]. intros H. bool_prop. by destruct p. Qed.

Lemma update_keeps rows changes m :
  NoDup (rowKey <$> rows) ->
  let previous := projectThreadSummaryView localeCompare rows request in
  keyed m -> (forall row, row ∈ mvals m -> row ∈ rows) ->
  (forall p row, row ∈ part previous p -> row ∈ mvals m) ->
  loses previous changes = false ->
  updateThreadSummaryView localeCompare previous changes request
  = projectThreadSummaryView localeCompare (mvals (foldl applyChange m changes)) request.
Proof.
  intros Hn previous Hm Hin Hout Hnone.
  assert (Hp : forall p, default (part previous p) (updatePartition localeCompare (part previous p) changes p request).2
                         = projecting (mvals (foldl applyChange m changes)) p request).
  { intros p. apply updatePartition_shows; [done| | |by apply loses_none].
    - unfold previous. rewrite part_project.
      apply shows_projection; [done|by apply vals_nodup|done|]. intros row Hrow. apply (Hout p).
      unfold previous. by rewrite part_project.
    - unfold previous. rewrite part_project. unfold projectPartition, truncate.
      destruct (limitFor p request); [by rewrite take_take, Nat.min_id|done]. }
  unfold updateThreadSummaryView. fold (loses previous changes). rewrite Hnone.
  rewrite !Hp. unfold projectThreadSummaryView. done.
Qed.

(** C20. A view kept up to date change by change is the view projected again: the
    update gives what reprojecting all rows of the view with the changes gives,
    and as long as no row leaves a partition or sinks in one, it gives the view
    of everything stored, rows the view does not hold included. *)
Theorem incremental_view rows changes :
  NoDup (rowKey <$> rows) ->
  let previous := projectThreadSummaryView localeCompare rows request in
  let view := updateThreadSummaryView localeCompare previous changes request in
  view = reprojectThreadSummaryChanges localeCompare previous changes request
  /\ (loses previous changes = false ->
      view = projectThreadSummaryView localeCompare (mvals (foldl applyChange (byKey rows) changes)) request).
Proof.
  intros Hn previous view. destruct (residents_of rows Hn) as [Hsub Hsup]. split.
  - destruct (loses previous changes) eqn:E.
    + unfold view, updateThreadSummaryView. fold (loses previous changes). by rewrite E.
    + apply (update_keeps rows); [done|apply byKey_keyed|done..].
  - intros Hnone. apply (update_keeps rows); [done|apply byKey_keyed|apply byKey_mem| |done].
    intros p row Hrow. rewrite byKey_vals by done. apply projecting_mem with p. by rewrite <- part_project.
Qed.
End incremental.

(** ** An execution *)

(** The order of code units. *)
Fixpoint unitOrder (a b : jstr) : Z :=
  match a, b with
  | [], [] => 0
  | [], _ => -1
  | _, [] => 1
  | x :: a, y :: b => if (x <? y)%N then -1 else if (y <? x)%N then 1 else unitOrder a b
  end.

Lemma unitOrder_sign a b : unitOrder b a = (- unitOrder a b)%Z.
Proof.
  revert b. induction a as [|x a IH]; intros [|y b]; try done. simpl.
  destruct (N.ltb_spec x y), (N.ltb_spec y x); [lia|done|done|apply IH].
Qed.

#[export] Instance unitOrder_locale : LocaleOrder unitOrder.
Proof.
  split.
  - intros a b. rewrite (unitOrder_sign a b). lia.
  - induction a as [|x a IH]; intros [|y b] [|z c]; simpl; try lia.
    destruct (N.ltb_spec x y), (N.ltb_spec y x), (N.ltb_spec y z), (N.ltb_spec z y), (N.ltb_spec x z),
      (N.ltb_spec z x); try lia. apply IH.
  - induction a as [|x a IH]; intros [|y b]; simpl; try done.
    destruct (N.ltb_spec x y), (N.ltb_spec y x); try done. intros Hab%IH. f_equal; [lia|done].
Qed.

Definition demo_summary (id : string) (recency : Z) : StoredThreadSummary :=
  withDevice NEW_ROW_DEVICE_FIELDS
    (projectThreadSummarySnapshot (js "c")
       (JObj [("id", JStr (js id)); ("cwd", JStr (js "/")); ("preview", JStr []); ("turns", JArr []);
              ("status", JObj [("type", JStr (js "idle"))]); ("updatedAt", JNum (NInt recency));
              ("recencyAt", JNum (NInt recency))]) false None).

Definition demo_request : ThreadSummaryViewRequest :=
  {| vr_archivedLimit := 0; vr_connectionId := None; vr_projectCwd := None; vr_recentLimit := 2;
     vr_selectedConnectionId := None; vr_selectedThreadId := None; vr_subagentConnectionId := None;
     vr_subagentLimit := 0; vr_viewId := None |}.

Definition demo_rows : list StoredThreadSummary := [demo_summary "a" 3; demo_summary "b" 2; demo_summary "c" 1].

Definition shownIds (view : LoadedThreadSummaryView) : list jstr := s_remoteThreadId <$> v_recent view.

Lemma incremental_view_witness :
  let previous := projectThreadSummaryView unitOrder demo_rows demo_request in
  let changes := [SummaryPut false (demo_summary "c" 5)] in
  shownIds previous = [js "a"; js "b"]
  /\ shownIds (updateThreadSummaryView unitOrder previous changes demo_request) = [js "c"; js "a"]
  /\ updateThreadSummaryView unitOrder previous changes demo_request
     = reprojectThreadSummaryChanges unitOrder previous changes demo_request
  /\ updateThreadSummaryView unitOrder previous changes demo_request
     = projectThreadSummaryView unitOrder (mvals (foldl applyChange (byKey demo_rows) changes)) demo_request.
Proof.
  cbv zeta. split; [vm_compute; reflexivity|]. split; [vm_compute; reflexivity|].
  assert (Hn : NoDup (rowKey <$> demo_rows)) by (apply (bool_decide_unpack _); vm_compute; reflexivity).
  destruct (incremental_view unitOrder demo_request demo_rows [SummaryPut false (demo_summary "c" 5)] Hn) as [H1 H2].
  split; [exact H1|]. apply H2. vm_compute. reflexivity.
Defined.
