(* ===== verification/SummaryRows.v ===== *)
(** * The database of thread summaries: server rows and journal events

    Models, in apps/android/src/data, thread-summary-database.native.ts (state,
    held events, journal batches), threadSummaryServerRows.ts (frames, pages and
    snapshots) and thread-catalog-read.ts.  Writes run one at a time; each is a
    function of the database.  What the race owner held when a queued write
    began to read is an argument, since frames of the socket move it on.  The
    order the store gives keys of equal recency is a parameter. *)
From S2P Require Import Prelude JsMap Json ThreadItems EventIndex ThreadEvents ListStream SummaryTypes.
From S2P Require Import SummaryProjection SummaryTree SummaryView.

Local Open Scope nat_scope.

(** ** Events held for threads without a row *)

Definition MAX_OVERLAY_THREADS : nat := 256.
Definition MAX_OVERLAY_EVENTS_PER_THREAD : nat := 64.

Abbreviation Held := (list (jstr * list JournalEvent)).
Abbreviation PendingDeviceOverlay := (list (jstr * Held)).

(** The oldest key of a map dropped. *)
Definition dropOldest {V} (m : list (jstr * V)) : list (jstr * V) :=
  match m with [] => [] | (oldest, _) :: _ => mdel oldest m end.

(** The events of a thread with one more, the oldest shifted out. *)
Definition pushed (event : JournalEvent) (events : list JournalEvent) : list JournalEvent :=
  let events := events ++ [event] in
  if MAX_OVERLAY_EVENTS_PER_THREAD <? length events then drop 1 events else events.

Definition holdThread (threadId : jstr) (event : JournalEvent) (threads : Held) : Held :=
  match mget threadId threads with
  | Some events => mset threadId (pushed event events) threads
  | None =>
      mset threadId (pushed event [])
        (if MAX_OVERLAY_THREADS <=? length threads then dropOldest threads else threads)
  end.

Definition hold (connectionId threadId : jstr) (event : JournalEvent) (overlay : PendingDeviceOverlay)
    : PendingDeviceOverlay :=
  mset connectionId (holdThread threadId event (default [] (mget connectionId overlay))) overlay.

Definition heldEvents (connectionId threadId : jstr) (overlay : PendingDeviceOverlay) : list JournalEvent :=
  default [] (mget connectionId overlay ≫= mget threadId).

Definition discard (connectionId threadId : jstr) (overlay : PendingDeviceOverlay) : PendingDeviceOverlay :=
  match mget connectionId overlay with
  | Some threads => mset connectionId (mdel threadId threads) overlay
  | None => overlay
  end.

Definition replayInto (connectionId : jstr) (row : Row) (overlay : PendingDeviceOverlay)
    : Row * PendingDeviceOverlay :=
  (foldl (applyEvent connectionId) row (heldEvents connectionId (s_remoteThreadId row) overlay),
   discard connectionId (s_remoteThreadId row) overlay).

Definition forgetHeld (connectionId : jstr) (overlay : PendingDeviceOverlay) : PendingDeviceOverlay :=
  mdel connectionId overlay.

(** ** Reads of the catalogue *)

Record CatalogRead := { cr_connection : jstr; cr_active : bool; cr_changed : list jstr }.

Definition beginRead (connectionId : jstr) (reads : list CatalogRead) : list CatalogRead :=
  reads ++ [{| cr_connection := connectionId; cr_active := true; cr_changed := [] |}].

Definition releaseRead (read : nat) (reads : list CatalogRead) : list CatalogRead :=
  alter (fun r => {| cr_connection := cr_connection r; cr_active := false; cr_changed := cr_changed r |}) read reads.

Definition readsChanged (connectionId threadId : jstr) (reads : list CatalogRead) : list CatalogRead :=
  (fun r => if cr_active r && bool_decide (cr_connection r = connectionId)
            then {| cr_connection := cr_connection r; cr_active := true; cr_changed := sadd threadId (cr_changed r) |}
            else r) <$> reads.

(** ** The database *)

(** What the observers of server rows are told. *)
Inductive ServerRowsNotice :=
| MergeRows (connectionId : jstr) (removedThreadIds : list jstr) (rows : list ThreadListRow)
| ReplaceRows (connectionId : jstr) (retainedThreadIds : list jstr) (rows : list ThreadListRow).

Record SummaryDatabase :=
  { db_disposed : bool; db_notices : list ServerRowsNotice; db_overlay : PendingDeviceOverlay;
    db_published : list (list SummaryChange * bool); db_race : list (jstr * SessionState);
    db_reads : list CatalogRead; db_rows : list (jstr * Row) }.

Definition withRace (race : list (jstr * SessionState)) (overlay : PendingDeviceOverlay) (db : SummaryDatabase)
    : SummaryDatabase :=
  {| db_disposed := db_disposed db; db_notices := db_notices db; db_overlay := overlay;
     db_published := db_published db; db_race := race; db_reads := db_reads db; db_rows := db_rows db |}.

Definition notify (notice : ServerRowsNotice) (db : SummaryDatabase) : SummaryDatabase :=
  {| db_disposed := db_disposed db; db_notices := db_notices db ++ [notice]; db_overlay := db_overlay db;
     db_published := db_published db; db_race := db_race db; db_reads := db_reads db; db_rows := db_rows db |}.

(** A stored row is normalised when it is written and when it is read. *)
Definition loadRow (connectionId threadId : jstr) (db : SummaryDatabase) : option Row :=
  normalizeStoredThreadSummary <$> mget (threadSummaryKey connectionId threadId) (db_rows db).

Definition loadRows (connectionId : jstr) (threadIds : list jstr) (db : SummaryDatabase) : list Row :=
  omap (fun threadId => loadRow connectionId threadId db) threadIds.

Definition loadAll (db : SummaryDatabase) : list Row := normalizeStoredThreadSummary <$> mvals (db_rows db).

Definition loadConnectionRows (connectionId : jstr) (db : SummaryDatabase) : list Row :=
  filter (fun row => s_connectionId row = connectionId) (loadAll db).

(** [key.indexOf("\u0000")]. *)
Definition keyParts (key : jstr) : jstr * jstr :=
  match findIndex (fun c => (c =? 0)%N) key with
  | Some separator => (take separator key, drop (separator + 1) key)
  | None => (removelast key, key)
  end.

Definition noteRead (reads : list CatalogRead) (change : SummaryChange) : list CatalogRead :=
  match change with
  | SummaryDelete key => readsChanged (keyParts key).1 (keyParts key).2 reads
  | SummaryPut _ value => readsChanged (s_connectionId value) (s_remoteThreadId value) reads
  end.

(** One transaction of the store, published. *)
Definition commitChanges (changes : list SummaryChange) (refill : bool) (db : SummaryDatabase) : SummaryDatabase :=
  {| db_disposed := db_disposed db; db_notices := db_notices db; db_overlay := db_overlay db;
     db_published := db_published db ++ [(changes, refill)]; db_race := db_race db;
     db_reads := foldl noteRead (db_reads db) changes;
     db_rows := foldl applyChange (db_rows db) changes |}.

(** ** What counts as a change *)

Definition sameQuestionOpportunity (left right : nullable QuestionOpportunity) : bool := bool_decide (left = right).

Definition sameThreadSummary (left right : Row) : bool :=
  bool_decide (s_connectionId left = s_connectionId right)
  && bool_decide (s_remoteThreadId left = s_remoteThreadId right)
  && bool_decide (s_parentThreadId left = s_parentThreadId right)
  && bool_decide (s_agentNickname left = s_agentNickname right)
  && bool_decide (s_agentRole left = s_agentRole right) && bool_decide (s_name left = s_name right)
  && bool_decide (s_preview left = s_preview right) && bool_decide (s_cwd left = s_cwd right)
  && bool_decide (s_gitOriginUrl left = s_gitOriginUrl right)
  && bool_decide (s_codewideAgent left = s_codewideAgent right)
  && (s_updatedAt left =? s_updatedAt right)%Z && bool_decide (s_recencyAt left = s_recencyAt right)
  && sameType (s_status left) (s_status right)
  && Bool.eqb (default false (s_activeSubagents left)) (default false (s_activeSubagents right))
  && Bool.eqb (s_pinned left) (s_pinned right) && bool_decide (s_pinCursor left = s_pinCursor right)
  && Bool.eqb (s_archived left) (s_archived right)
  && (s_pendingRequestCount left =? s_pendingRequestCount right)%Z
  && bool_decide (s_closedQuestionTurnId left = s_closedQuestionTurnId right)
  && sameQuestionOpportunity (s_pendingQuestion left) (s_pendingQuestion right)
  && sameQuestionOpportunity (s_skippedQuestions left) (s_skippedQuestions right)
  && sameQuestionOpportunity (s_submittedQuestions left) (s_submittedQuestions right)
  && match s_status left, s_status right with
     | ActiveStatus flags, ActiveStatus flags' => bool_decide (flags = flags')
     | _, _ => true
     end
  && bool_decide (s_projectionCursor left = s_projectionCursor right)
  && (s_latestActivityCursor left =? s_latestActivityCursor right)%Z
  && (s_lastSeenCursor left =? s_lastSeenCursor right)%Z
  && bool_decide (s_firstUnreadAgentTurnId left = s_firstUnreadAgentTurnId right)
  && (s_unread left =? s_unread right)%Z
  && bool_decide (s_provisionalThread left = s_provisionalThread right)
  && bool_decide (s_deleteCommandId left = s_deleteCommandId right).

Definition summaryViewMembershipChanged (left right : Row) : bool :=
  negb (bool_decide (s_connectionId left = s_connectionId right)) || negb (bool_decide (s_cwd left = s_cwd right))
  || negb (bool_decide (s_parentThreadId left = s_parentThreadId right))
  || negb (Bool.eqb (s_pinned left) (s_pinned right)) || negb (Bool.eqb (s_archived left) (s_archived right))
  || negb (bool_decide (s_deleteCommandId left = s_deleteCommandId right)).

(** ** Batches *)

Record RowBatch :=
  { b_admitted : list ThreadListRow; b_changed : list (jstr * option Row); b_current : list (jstr * Row) }.

Definition emptyBatch (rows : list Row) : RowBatch :=
  {| b_admitted := []; b_changed := []; b_current := byKey rows |}.

Definition withChanged (changed : list (jstr * option Row)) (batch : RowBatch) : RowBatch :=
  {| b_admitted := b_admitted batch; b_changed := changed; b_current := b_current batch |}.

Definition stageChange (key : jstr) (row : option Row) (batch : RowBatch) : RowBatch :=
  withChanged (mset key row (b_changed batch)) batch.

Definition admitStaged (row : ThreadListRow) (batch : RowBatch) : RowBatch :=
  {| b_admitted := b_admitted batch ++ [row]; b_changed := b_changed batch; b_current := b_current batch |}.

Definition batchChanges (batch : RowBatch) : list SummaryChange :=
  omap (fun e : jstr * option Row =>
          let previous := mget e.1 (b_current batch) in
          match e.2, previous with
          | None, Some _ => Some (SummaryDelete e.1)
          | None, None => None
          | Some row, Some p => if sameThreadSummary p row then None else Some (SummaryPut false row)
          | Some row, None => Some (SummaryPut true row)
          end) (b_changed batch).

Definition membershipChanged (batch : RowBatch) (changes : list SummaryChange) : bool :=
  existsb (fun change =>
             match change with
             | SummaryPut false value =>
                 summaryViewMembershipChanged (default value (mget (rowKey value) (b_current batch))) value
             | _ => true
             end) changes.

Definition removedThreadIds (connectionId : jstr) (batch : RowBatch) : list jstr :=
  omap (fun e : jstr * option Row =>
          match e.2 with None => Some (drop (length (threadSummaryKey connectionId [])) e.1) | Some _ => None end)
    (b_changed batch).

(** Child rows whose status type changes. *)
Definition changedChildren (batch : RowBatch) : list Row :=
  omap (fun e : jstr * option Row =>
          row ← e.2;
          if bool_decide (s_parentThreadId row <> None)
             && negb match mget e.1 (b_current batch) with
                     | Some p => sameType (s_status p) (s_status row) | None => false end
          then Some row else None) (b_changed batch).

(** The rows of the connection with the staged changes. *)
Definition stagedRows (rows : list Row) (changed : list (jstr * option Row)) : list Row :=
  mvals (foldl (fun m (e : jstr * option Row) =>
                  match e.2 with Some row => mset e.1 row m | None => mdel e.1 m end) (byKey rows) changed).

Definition applySubagentActivity (connectionId : jstr) (db : SummaryDatabase) (batch : RowBatch) : RowBatch :=
  match changedChildren batch with
  | [] => batch
  | children =>
      foldl (fun batch root => stageChange (rowKey root) (Some root) batch) batch
        (rootsWithChangedSubagentActivity children
           (stagedRows (loadConnectionRows connectionId db) (b_changed batch)))
  end.

(** The batch written and published; [extraChanges] come first. *)
Definition commitBatch (connectionId : jstr) (batch : RowBatch) (extraChanges : list SummaryChange)
    (db : SummaryDatabase) : SummaryDatabase :=
  let batch := applySubagentActivity connectionId db batch in
  let changes := extraChanges ++ batchChanges batch in
  if bool_decide (changes = []) then db
  else commitChanges changes (negb (bool_decide (extraChanges = [])) || membershipChanged batch changes) db.

(** ** Server rows *)

(** One row admitted under the race rule and its merged summary staged; [None]
    when the companion sent an invalid membership. *)
Definition stageRow (connectionId : jstr) (row : ThreadListRow) (batch : RowBatch) (db : SummaryDatabase)
    : option RowBatch * SummaryDatabase :=
  let threadId := row_threadId row in
  let key := threadSummaryKey connectionId threadId in
  let '(race, admitted) := admitRow connectionId threadId (row_cursor (meta row)) (db_race db) in
  let overlay := db_overlay db in
  if negb admitted then (Some batch, withRace race overlay db)
  else
    match isCatalogExcluded (row_thread row) with
    | None => (None, withRace race overlay db)
    | Some true => (Some (stageChange key None batch), withRace race (discard connectionId threadId overlay) db)
    | Some false =>
        let previous := mget key (b_current batch) in
        let merged := serverRowSummary connectionId row previous in
        let '(summary, overlay) :=
          match previous with
          | None => replayInto connectionId merged overlay
          | Some _ => (merged, overlay)
          end in
        (Some (stageChange key (Some summary) (admitStaged row batch)), withRace race overlay db)
    end.

Fixpoint stageRows (connectionId : jstr) (rows : list ThreadListRow) (batch : RowBatch) (db : SummaryDatabase)
    : option RowBatch * SummaryDatabase :=
  match rows with
  | [] => (Some batch, db)
  | row :: rest =>
      match stageRow connectionId row batch db with
      | (Some batch, db) => stageRows connectionId rest batch db
      | (None, db) => (None, db)
      end
  end.

Definition stageTombstone (connectionId : jstr) (staged : RowBatch * SummaryDatabase) (tombstone : RowTombstone)
    : RowBatch * SummaryDatabase :=
  let '(batch, db) := staged in
  let threadId := tomb_threadId tombstone in
  let '(race, admitted) := admitTombstone connectionId threadId (tomb_cursor tombstone) (db_race db) in
  if admitted
  then (stageChange (threadSummaryKey connectionId threadId) None batch,
        withRace race (discard connectionId threadId (db_overlay db)) db)
  else (batch, withRace race (db_overlay db) db).

(** One pushed frame.  [race] is what the race owner held when the write began. *)
Definition applyServerRows (connectionId : jstr) (generation : Z) (frame : ThreadListRowsFrame)
    (race : list (jstr * SessionState)) (db : SummaryDatabase) : SummaryDatabase :=
  if db_disposed db || negb (isCurrent connectionId (Some generation) race) then db
  else
    let threadIds := (row_threadId <$> rows frame) ++ (tomb_threadId <$> removed frame) in
    let batch := emptyBatch (loadRows connectionId threadIds db) in
    let '(batch, db) := foldl (stageTombstone connectionId) (batch, db) (removed frame) in
    match stageRows connectionId (rows frame) batch db with
    | (None, db) => db
    | (Some batch, db) =>
        notify (MergeRows connectionId (removedThreadIds connectionId batch) (b_admitted batch))
          (commitBatch connectionId batch [] db)
    end.

(** ** Pages of the catalogue *)

Definition THREAD_CATALOG_PAGE_SIZE : nat := 36.

Definition catalogHeadEvictable (row : Row) : bool :=
  negb (isActive (s_status row)) && (s_pendingRequestCount row =? 0)%Z.

(** What a window asks of its first page. *)
Record HeadRequest :=
  { hr_archived : bool; hr_connectionId : jstr; hr_prefixIds : list jstr; hr_projectCwd : option jstr;
    hr_changed : list jstr }.

Definition headViewRequest (request : HeadRequest) : ThreadSummaryViewRequest :=
  let count := Nat.max THREAD_CATALOG_PAGE_SIZE (length (hr_prefixIds request)) in
  {| vr_archivedLimit := if hr_archived request then count else 0;
     vr_connectionId := Some (hr_connectionId request); vr_projectCwd := hr_projectCwd request;
     vr_recentLimit := if hr_archived request then 0 else count; vr_selectedConnectionId := None;
     vr_selectedThreadId := None; vr_subagentConnectionId := None; vr_subagentLimit := 0; vr_viewId := None |}.

Definition evictableFromHead (row : Row) (prefixIds changed : list jstr) : bool :=
  negb (shas (s_remoteThreadId row) prefixIds) && negb (s_pinned row) && (s_unread row =? 0)%Z
  && bool_decide (s_deleteCommandId row = None) && catalogHeadEvictable row
  && negb (shas (s_remoteThreadId row) changed).

Section pages.
(** The order the store gives the keys of rows. *)
Variable keyOrder : jstr -> jstr -> Z.

Definition staleHeadEvictions (request : HeadRequest) (db : SummaryDatabase) : list jstr :=
  let window := projectThreadSummaryView keyOrder (loadAll db) (headViewRequest request) in
  omap (fun row =>
          if evictableFromHead row (hr_prefixIds request) (hr_changed request)
          then Some (threadSummaryKey (hr_connectionId request) (s_remoteThreadId row)) else None)
    (if hr_archived request then v_archived window else v_recent window).

(** The rows of one page; [generation] is null when it was read without a
    stream. *)
Record ThreadCatalogPageRows := { page_generation : option Z; page_rows : list ThreadListRow }.

Definition applyCatalogPage (request : HeadRequest) (page : ThreadCatalogPageRows) (replaceHead : bool)
    (race : list (jstr * SessionState)) (db : SummaryDatabase) : SummaryDatabase :=
  let connectionId := hr_connectionId request in
  if db_disposed db || negb (isCurrent connectionId (page_generation page) race) then db
  else
    let evictions := if replaceHead then staleHeadEvictions request db else [] in
    let batch := emptyBatch (loadRows connectionId (row_threadId <$> page_rows page) db) in
    match stageRows connectionId (page_rows page) batch db with
    | (None, db) => db
    | (Some batch, db) =>
        let extraChanges :=
          SummaryDelete <$> filter (fun key => mhas key (b_changed batch) = false) evictions in
        notify (MergeRows connectionId (removedThreadIds connectionId batch) (b_admitted batch))
          (commitBatch connectionId batch extraChanges db)
    end.
End pages.

(** ** Snapshots *)

(** The rows a snapshot omits, removed unless they live outside it or a newer
    push kept them; the second list is of those kept. *)
Definition stageSnapshotRemovals (connectionId : jstr) (cursor : Z) (listed : list jstr)
    (race : list (jstr * SessionState)) (retained : list jstr) (batch : RowBatch) : list jstr * RowBatch :=
  foldl (fun (st : list jstr * RowBatch) (e : jstr * Row) =>
           let threadId := s_remoteThreadId e.2 in
           if shas threadId listed || retainThreadSummaryMissingFromSnapshot e.2 then st
           else if newerThan connectionId threadId cursor race then (sadd threadId st.1, st.2)
           else (st.1, stageChange e.1 None st.2)) (retained, batch) (b_current batch).

(** The rows a snapshot lists, and the ids of those it did not change. *)
Fixpoint stageSnapshotRows (connectionId : jstr) (rows : list ThreadListRow) (retained : list jstr)
    (batch : RowBatch) (db : SummaryDatabase) : option (list jstr * RowBatch) * SummaryDatabase :=
  match rows with
  | [] => (Some (retained, batch), db)
  | row :: rest =>
      match stageRow connectionId row batch db with
      | (None, db) => (None, db)
      | (Some batch, db) =>
          let threadId := row_threadId row in
          let retained :=
            if mhas (threadSummaryKey connectionId threadId) (b_changed batch) then retained
            else sadd threadId retained in
          stageSnapshotRows connectionId rest retained batch db
      end
  end.

Definition applySnapshot (connectionId : jstr) (threads : list json) (cursor : Z) (db : SummaryDatabase)
    : SummaryDatabase :=
  match parseThreadListRows threads with
  | ParseError _ => db
  | ParseOk rows =>
      if db_disposed db then db
      else
        let batch := emptyBatch (loadConnectionRows connectionId db) in
        match stageSnapshotRows connectionId rows [] batch db with
        | (None, db) => db
        | (Some (retained, batch), db) =>
            let '(retained, batch) :=
              stageSnapshotRemovals connectionId cursor (row_threadId <$> rows) (db_race db) retained batch in
            notify (ReplaceRows connectionId retained (b_admitted batch))
              (commitBatch connectionId batch [] db)
        end
  end.

(** ** Journal events *)

(** What the batch holds of a row: staged, else stored. *)
Definition stagedRow (connectionId threadId : jstr) (changed : list (jstr * option Row))
    (current : list (jstr * Row)) : option Row :=
  let key := threadSummaryKey connectionId threadId in
  match mget key changed with Some row => row | None => mget key current end.

(** An event without effect on a stored row waits for the row if it would
    change it. *)
Definition holdIfUnknown (connectionId : jstr) (event : JournalEvent) (changed : list (jstr * option Row))
    (current : list (jstr * Row)) (overlay : PendingDeviceOverlay) : PendingDeviceOverlay :=
  match threadIdFromEvent (ev_payload event) with
  | Some threadId =>
      let key := threadSummaryKey connectionId threadId in
      if negb (mhas key changed) && negb (mhas key current)
         && threadSummaryEventAffectsDevice (ev_payload event)
      then hold connectionId threadId event overlay else overlay
  | None => overlay
  end.

(** The changes of the events; [None] when one has an invalid membership. *)
Fixpoint stageEvents (connectionId : jstr) (current : list (jstr * Row)) (events : list JournalEvent)
    (changed : list (jstr * option Row)) (overlay : PendingDeviceOverlay)
    : option (list (jstr * option Row)) * PendingDeviceOverlay :=
  match events with
  | [] => (Some changed, overlay)
  | event :: rest =>
      let threadId := threadIdFromEvent (ev_payload event) in
      let excluded :=
        match threadId with Some _ => isCatalogExcluded (JObj (ev_payload event)) | None => Some false end in
      match excluded, threadId with
      | None, _ => (None, overlay)
      | Some true, Some threadId =>
          stageEvents connectionId current rest
            (mset (threadSummaryKey connectionId threadId) None changed) overlay
      | Some _, _ =>
          match projectThreadSummaryEvent connectionId (ev_payload event)
                  (fun threadId => stagedRow connectionId threadId changed current) (ev_cursor event) with
          | Some mutation =>
              stageEvents connectionId current rest (mset (m_key mutation) (m_value mutation) changed) overlay
          | None =>
              stageEvents connectionId current rest changed
                (holdIfUnknown connectionId event changed current overlay)
          end
      end
  end.

(** The status of sub-agents as their parents report it. *)
Definition applyReportedSubagentStates (connectionId : jstr) (events : list JournalEvent) (db : SummaryDatabase)
    (batch : RowBatch) : RowBatch :=
  let rowOf threadId :=
    let key := threadSummaryKey connectionId threadId in
    nullishOr (mjoin (mget key (b_changed batch))) (mget key (b_current batch)) in
  let reported :=
    reportedSubagentStatesOfBatch
      ((fun event => (threadIdFromEvent (ev_payload event), ev_payload event)) <$> events) rowOf in
  foldl (fun batch child =>
           let key := rowKey child in
           match mget key (b_changed batch) with
           | Some None => batch
           | pending =>
               let current := if mhas key (b_current batch) then b_current batch
                              else mset key child (b_current batch) in
               let batch := {| b_admitted := b_admitted batch; b_changed := b_changed batch;
                               b_current := current |} in
               match withReportedStatus (default child (mjoin pending))
                       (default false (mget (s_remoteThreadId child) reported)) with
               | Some next => stageChange key (Some next) batch
               | None => batch
               end
           end) batch (loadRows connectionId reported.*1 db).

Definition eventChanges (batch : RowBatch) : list SummaryChange :=
  (fun e : jstr * option Row =>
     match e.2 with
     | None => SummaryDelete e.1
     | Some row => SummaryPut (negb (mhas e.1 (b_current batch))) row
     end) <$> b_changed batch.

Definition eventsMoveMembership (batch : RowBatch) : bool :=
  existsb (fun e : jstr * option Row =>
             match e.2, mget e.1 (b_current batch) with
             | None, _ => true
             | Some row, Some previous => summaryViewMembershipChanged previous row
             | Some _, None => false
             end) (b_changed batch).

(** The ids of the threads, without repetitions. *)
Definition eventThreads (events : list JournalEvent) : list jstr :=
  foldl (fun ids event => match threadIdFromEvent (ev_payload event) with
                          | Some threadId => sadd threadId ids | None => ids end) [] events.

Definition applyEventBatch (connectionId : jstr) (events : list JournalEvent) (db : SummaryDatabase)
    : SummaryDatabase :=
  if db_disposed db || bool_decide (events = []) then db
  else
    let current := byKey (loadRows connectionId (eventThreads events) db) in
    let '(staged, overlay) := stageEvents connectionId current events [] (db_overlay db) in
    let db := withRace (db_race db) overlay db in
    match staged with
    | None => db
    | Some changed =>
        let batch :=
          applyReportedSubagentStates connectionId events db
            {| b_admitted := []; b_changed := changed; b_current := current |} in
        if bool_decide (b_changed batch = []) then db
        else
          let batch := applySubagentActivity connectionId db batch in
          commitChanges (eventChanges batch) (eventsMoveMembership batch) db
    end.
