(* ===== verification/SummaryOrder.v ===== *)
(** * Server rows and journal events in whatever order

    The row of a thread is written by two streams: the rows the companion lists
    and the events of its journal.  [kept] rows are those the store gives back as
    they were written; [arrivals_commute] is proved by following one thread
    through [applyServerRows] and [applyEventBatch] of SummaryRows.v. *)
From stdpp Require Import sorting.
From S2P Require Import Prelude JsMap Json ThreadItems EventIndex ThreadEvents CursorSync ListStream SummaryTypes.
From S2P Require Import SummaryProjection SummaryTree SummaryView SummaryRows.
Local Open Scope nat_scope.

(** ** Agents read back as they were stored *)

(** Names of capabilities, as read. *)
Definition bounded (names : list jstr) : Prop :=
  Forall (fun s => isCapabilityName s = true) names /\ length names <= MAX_CAPABILITIES.

Lemma boundedNames_Some names l : boundedNames names = Some l -> l = names /\ length names <= MAX_CAPABILITIES.
Proof. unfold boundedNames. destruct (_ <? _) eqn:E; [done|]. intros [= ->]. apply Nat.ltb_ge in E. done. Qed.

Lemma supported_bounded value names : supportedCapabilityNames value = Some names -> bounded names.
Proof.
  unfold supportedCapabilityNames.
  destruct value as [[| | | |l|o]|]; try done; intros [-> Hl]%boundedNames_Some; split; try done;
    apply Forall_forall; intros s (x & Hx & Hs)%list_elem_of_omap.
  - destruct (asString (Some x)); [|done]. simpl in Hs. destruct (isCapabilityName _) eqn:E; [|done].
    by injection Hs as <-.
  - destruct (isCapabilityName (js x.1)) eqn:E; [|done]. simpl in Hs. destruct (declaresSupport _); [|done].
    by injection Hs as <-.
Qed.

Lemma supported_stable names :
  bounded names -> supportedCapabilityNames (Some (JArr (JStr <$> names))) = Some names.
Proof.
  intros [Hn Hl]. unfold supportedCapabilityNames.
  assert (H : omap (fun v => s ← asString (Some v); if isCapabilityName s then Some s else None) (JStr <$> names)
              = names).
  { clear Hl. induction Hn as [|s l Hs _ IH]; [done|]. cbn [fmap list_fmap omap list_omap]. simpl.
    rewrite Hs. f_equal. exact IH. }
  rewrite H. unfold boundedNames. by rewrite (proj2 (Nat.ltb_ge _ _)).
Qed.

Lemma parseProvider_Some value p : parseAgentProviderId value = Some p -> value = Some (JStr p) /\
  providerDisplayName (Some (JStr p)) = Some p.
Proof.
  unfold parseAgentProviderId. destruct value as [[| | |s| |]|]; try done. simpl.
  destruct (length s =? 0) eqn:H0; [done|]. destruct (_ <? _) eqn:Hl; [done|]. case_bool_decide as Ht; [|done].
  simpl. intros [= <-]. split; [done|]. unfold providerDisplayName. simpl. rewrite Ht.
  rewrite bool_decide_false; [|intros ->; done]. apply Nat.ltb_ge in Hl.
  by rewrite (proj2 (Nat.leb_le _ _)).
Qed.

Lemma displayName_stable value n : providerDisplayName value = Some n -> providerDisplayName (Some (JStr n)) = Some n.
Proof.
  unfold providerDisplayName. destruct (asString value) as [s|]; [|done]. cbn [mbind option_bind].
  destruct (negb _ && _) eqn:E; [|done]. intros [= <-]. simpl.
  apply andb_true_iff in E as [Hn Hl]. apply Nat.leb_le in Hl. rewrite trim_idem, Hn.
  rewrite (proj2 (Nat.leb_le _ _)); [done|]. pose proof (trim_length s). lia.
Qed.


Lemma default_displayName value p n :
  providerDisplayName (Some (JStr p)) = Some p -> n = default p (providerDisplayName value) ->
  providerDisplayName (Some (JStr n)) = Some n.
Proof. intros Hp ->. destruct (providerDisplayName value) eqn:E; [|done]. by eapply displayName_stable. Qed.

(** A stored agent reads back as itself. *)
Lemma agent_stored a : bounded (capabilities a) ->
  providerDisplayName (Some (JStr (providerName a))) = Some (providerName a) ->
  match provider a with
  | Some p => parseAgentProviderId (Some (JStr p)) = Some p
  | None => capabilities a = []
  end ->
  normalizeStoredThreadAgent (Some a) = Some a.
Proof.
  destruct a as [caps prim prov name]. cbn [capabilities provider providerName]. intros Hc Hn Hp.
  unfold normalizeStoredThreadAgent, readThreadAgent, agentJson. cbn [capabilities primary provider providerName].
  set (o := [("capabilities", JArr (JStr <$> caps)); ("primary", JBool prim); ("provider", jopt prov);
             ("providerName", JStr name)]).
  change (field "codewideAgent" _) with (Some (JObj o)). cbn [nullish asObject].
  assert (H1 : oget "capabilities" o = Some (JArr (JStr <$> caps))) by done.
  assert (H2 : oget "primary" o = Some (JBool prim)) by done.
  assert (H3 : oget "provider" o = Some (jopt prov)) by done.
  assert (H4 : oget "providerName" o = Some (JStr name)) by done.
  clearbody o.
  assert (Hprim : isPrimary (Some o) = prim).
  { unfold isPrimary. simpl. rewrite H2. by destruct prim. }
  unfold declaredThreadAgent, malformedThreadAgent. rewrite Hprim. cbn [mbind option_bind].
  rewrite H1, H3, H4, supported_stable by done.
  destruct prov as [p|]; cbn [jopt]; [by rewrite Hp; cbn [mbind option_bind default]; rewrite Hn|].
  cbn [mbind option_bind default]. by rewrite Hn, Hp.
Qed.

(** What was read as an agent reads back as itself once stored. *)
Lemma agent_stable thread : normalizeStoredThreadAgent (readThreadAgent thread) = readThreadAgent thread.
Proof.
  unfold readThreadAgent. destruct (nullish (field "codewideAgent" thread)); [done|].
  generalize (asObject (field "codewideAgent" thread)) as d. clear thread. intros d.
  destruct (declaredThreadAgent d) as [a|] eqn:Ha; cbn [default].
  - unfold declaredThreadAgent in Ha. destruct d as [d|]; [|done]. cbn [mbind option_bind] in Ha.
    destruct (parseAgentProviderId _) as [p|] eqn:Hp; [|done]. cbn [mbind option_bind] in Ha.
    destruct (supportedCapabilityNames _) as [caps|] eqn:Hc; [|done]. injection Ha as <-.
    pose proof Hp as [He Hd]%parseProvider_Some. apply agent_stored; cbn [capabilities provider providerName].
    + by eapply supported_bounded.
    + by eapply default_displayName.
    + by rewrite He in Hp.
  - unfold malformedThreadAgent. destruct (parseAgentProviderId _) as [p|] eqn:Hp; apply agent_stored;
      cbn [capabilities provider providerName default]; try (split; [done|unfold MAX_CAPABILITIES; simpl; lia]); try done.
    + pose proof Hp as [_ Hd]%parseProvider_Some. by eapply default_displayName.
    + pose proof Hp as [He _]%parseProvider_Some. by rewrite He in Hp.
    + by eapply (default_displayName _ (js "Agent")).
Qed.

(** ** Rows the store gives back as they were written *)

Record kept (row : StoredThreadSummary) : Prop :=
  { kp_settled : settled row;
    kp_agent : normalizeStoredThreadAgent (s_codewideAgent row) = s_codewideAgent row;
    kp_unread : s_firstUnreadAgentTurnId row <> Some [];
    kp_pin : exists z, s_pinCursor row = Some z /\ validPinCursor z = true }.

Lemma kept_normal row : kept row -> normalizeStoredThreadSummary row = row.
Proof.
  intros [Hs Ha Hu (z & Hz & Hv)]. pose proof (settled_cursor row Hs) as Hp.
  unfold normalizeStoredThreadSummary. rewrite Hz, Hv, Ha, <- Hp. cbn [andb].
  destruct row; cbn in *. f_equal; [|done]. repeat case_match; congruence.
Qed.

Lemma server_kept c row previous : (forall p, previous = Some p -> kept p) -> kept (serverRowSummary c row previous).
Proof.
  intros H. split.
  - apply server_settled. intros p Hp. apply (H p Hp).
  - cbn. unfold nullishOr. destruct (readThreadAgent (row_thread row)) as [a|] eqn:E; [rewrite <- E; apply agent_stable|].
    destruct previous as [p|]; [|done]. apply (H p eq_refl).
  - destruct previous as [p|]; [|done]. apply (H p eq_refl).
  - eexists. split; [done|]. unfold serverPin. cbn.
    assert (Hpin : validPinCursor (pin_cursor (threadPinFromSnapshot (row_thread row))) = true).
    { unfold threadPinFromSnapshot. repeat case_match; try done. simpl. unfold asSafeNat in *. by repeat case_match; simplify_eq. }
    destruct previous as [p|]; [|done]. case_match; [|done]. cbn.
    destruct (kp_pin p (H p eq_refl)) as (z & Hz & Hv). unfold pinCursorOf. cbn. by rewrite Hz.
Qed.

Lemma recordAsyncQuestion_unread d op e : recordAsyncQuestion d op = Some e ->
  d_firstUnreadAgentTurnId e = d_firstUnreadAgentTurnId d.
Proof. by intros [q ->]%recordAsyncQuestion_shape. Qed.

Lemma attention_unread d op :
  d_firstUnreadAgentTurnId (applyQuestionAttention d op).1 = d_firstUnreadAgentTurnId d.
Proof.
  destruct (attention_shape d op) as (d' & -> & Hd). unfold closeQuestionTurn.
  destruct Hd as [->|[q ->]]; by repeat case_match.
Qed.

Lemma devicePatch_unread op d cursor e :
  devicePatch op d cursor = Some e -> d_firstUnreadAgentTurnId d <> Some [] -> d_firstUnreadAgentTurnId e <> Some [].
Proof.
  pose proof (attention_unread d op) as Ha. unfold devicePatch.
  destruct (applyQuestionAttention d op) as [next replaced]. cbn [fst] in Ha. intros He Hd.
  destruct (negb (summaryFlag "activity" op)).
  - destruct (replaced || _); [|done]. injection He as <-. by rewrite Ha.
  - injection He as <-. rewrite <- Ha in Hd. unfold applyFinalAgentResponse.
    destruct (summaryFlag "finalAgentResponse" op); [|exact Hd]. cbn [withActivity d_firstUnreadAgentTurnId].
    repeat case_match; simpl in *; congruence.
Qed.

Lemma kept_event c t row event :
  ordinary t (ev_payload event) -> journalCursor event -> kept row -> kept (applyEvent c row event).
Proof.
  intros Ho Hj [Hs Ha Hu Hp]. split; [by eapply settled_event|..]; rewrite (applyEvent_device c t) by done;
    destruct (deviceEvent _ _ _) as [d|] eqn:Hd; try done.
  unfold deviceEvent in Hd. destruct (threadProjectionPatchFromEvent _); [|done]. cbn [mbind option_bind] in Hd.
  destruct (_ || _); [done|]. by apply devicePatch_unread in Hd.
Qed.

(** ** One thread, its rows and its events *)

Section arrivals.
Variable (c t : jstr) (generation : Z).
Abbreviation key := (threadSummaryKey c t).

(** A row of the thread: listed, and of a root. *)
Record rootRow (row : ThreadListRow) : Prop :=
  { rr_id : row_threadId row = t; rr_thread : strField "id" (row_thread row) = t;
    rr_root : asString (field "parentThreadId" (row_thread row)) = None;
    rr_listed : isCatalogExcluded (row_thread row) = Some false }.

(** An event of the thread that neither starts, deletes nor unlists it, and
    reports no sub-agents. *)
Record ownEvent (event : JournalEvent) : Prop :=
  { oe_id : threadIdFromEvent (ev_payload event) = Some t; oe_ordinary : ordinary t (ev_payload event);
    oe_listed : isCatalogExcluded (JObj (ev_payload event)) = Some false;
    oe_cursor : journalCursor event; oe_silent : reportedSubagentStates (ev_payload event) = [] }.

Inductive Arrival := RowArrives (row : ThreadListRow) | EventsArrive (events : list JournalEvent).

Definition arrive (db : SummaryDatabase) (a : Arrival) : SummaryDatabase :=
  match a with
  | RowArrives row => applyServerRows c generation {| rows := [row]; removed := [] |} (db_race db) db
  | EventsArrive events => applyEventBatch c events db
  end.

Definition arrivedRows (arrivals : list Arrival) : list ThreadListRow :=
  omap (fun a => match a with RowArrives row => Some row | EventsArrive _ => None end) arrivals.

Definition arrivedEvents (arrivals : list Arrival) : list JournalEvent :=
  arrivals ≫= fun a => match a with EventsArrive events => events | RowArrives _ => [] end.

(** The server rows in their order, then the events in theirs. *)
Definition mergedRow (listed : list ThreadListRow) (events : list JournalEvent) : option Row :=
  match listed with
  | [] => None
  | row :: rest =>
      Some (foldl (applyEvent c)
              (foldl (fun previous row => serverRowSummary c row (Some previous)) (serverRowSummary c row None) rest)
              events)
  end.

Lemma own_kept event row : ownEvent event -> kept row -> kept (applyEvent c row event).
Proof. intros [? ? ? ? ?]. by eapply kept_event. Qed.

Lemma own_kept_all events row : Forall ownEvent events -> kept row -> kept (foldl (applyEvent c) row events).
Proof. intros H. revert row. induction H; [done|]. intros. simpl. eauto using own_kept. Qed.

(** The identity of a row. *)
Definition mine (row : Row) : Prop :=
  s_connectionId row = c /\ s_remoteThreadId row = t /\ s_parentThreadId row = None.

Lemma mine_key row : mine row -> rowKey row = key.
Proof. intros (Hc & Ht & _). unfold rowKey. by rewrite Hc, Ht. Qed.

Lemma mine_event row event : ownEvent event -> mine row -> mine (applyEvent c row event).
Proof.
  intros [_ Ho _ _ _] H. rewrite (applyEvent_device c t) by done. by destruct (deviceEvent _ _ _).
Qed.

Lemma mine_events row events : Forall ownEvent events -> mine row -> mine (foldl (applyEvent c) row events).
Proof. intros H. revert row. induction H; [done|]. intros. simpl. eauto using mine_event. Qed.

Lemma mine_server row previous : rootRow row -> mine (serverRowSummary c row previous).
Proof. by intros []. Qed.

Lemma server_events_commute row events p :
  Forall ownEvent events -> kept p ->
  serverRowSummary c row (Some (foldl (applyEvent c) p events))
  = foldl (applyEvent c) (serverRowSummary c row (Some p)) events.
Proof.
  intros H. revert p. induction H as [|event events He _ IH]; [done|]. intros p Hp. simpl.
  rewrite IH by eauto using own_kept. destruct He as [_ Ho _ Hj _].
  by rewrite (server_event_commute c t) by (done || apply Hp).
Qed.

(** Events the overlay need not hold change nothing. *)
Lemma held_suffice events row :
  Forall ownEvent events ->
  foldl (applyEvent c) row (filter (fun e => threadSummaryEventAffectsDevice (ev_payload e) = true) events)
  = foldl (applyEvent c) row events.
Proof.
  intros H. revert row. induction H as [|event events He _ IH]; [done|]. intros row.
  rewrite filter_cons. case_decide as Ha; simpl; [apply IH|].
  rewrite (unaffected c t row event); [apply IH|apply He|by apply not_true_is_false].
Qed.

(** The projection of one of these events asks for the row of the thread only,
    and never removes it. *)
Lemma own_project_shape event previousFor :
  ownEvent event ->
  projectThreadSummaryEvent c (ev_payload event) previousFor (ev_cursor event)
  = (row ← previousFor t;
     projectThreadSummaryEvent c (ev_payload event) (fun _ => Some row) (ev_cursor event)) /\
  forall mutation row,
    projectThreadSummaryEvent c (ev_payload event) (fun _ => Some row) (ev_cursor event) = Some mutation ->
    m_key mutation = key /\ is_Some (m_value mutation).
Proof.
  intros [Hid Ho _ _ _]. unfold projectThreadSummaryEvent, threadIdFromEvent in *. unfold ordinary in Ho.
  destruct (threadProjectionPatchFromEvent (ev_payload event)) as [patch|]; [|done].
  destruct Ho as (Ht & Hs & Hd). cbn [mbind option_bind].
  unfold projectThreadSummaryPatch. rewrite Hs, Hd, Ht. split.
  - destruct (previousFor t); [done|]. by destruct (_ || _).
  - intros mutation row. destruct (_ || _); [done|]. cbn [mbind option_bind].
    destruct (isClosedTurnStart _ _); [done|]. unfold projectDevicePatch.
    destruct (devicePatch _ _ _); [|done]. cbn [mbind option_bind]. by intros [= <-].
Qed.

Lemma own_project event previousFor :
  ownEvent event ->
  match projectThreadSummaryEvent c (ev_payload event) previousFor (ev_cursor event) with
  | Some mutation => exists row, previousFor t = Some row /\ m_key mutation = key
                                /\ m_value mutation = Some (applyEvent c row event)
  | None => forall row, previousFor t = Some row -> applyEvent c row event = row
  end.
Proof.
  intros He. pose proof (own_project_shape event previousFor He) as [-> Hshape]. unfold applyEvent.
  destruct (previousFor t) as [row|]; [|done]. cbn [mbind option_bind]. specialize (Hshape) with (row := row).
  destruct (projectThreadSummaryEvent _ _ _ _) as [mutation|] eqn:E; [|by intros ? [= <-]; rewrite E].
  destruct (Hshape mutation eq_refl) as [Hk [next Hv]]. exists row. rewrite E.
  destruct mutation as [k v]. cbn in *. subst. done.
Qed.

(** *** Stored rows *)

Lemma loadRow_eq db : loadRow c t db = normalizeStoredThreadSummary <$> mget key (db_rows db).
Proof. done. Qed.

Lemma load_one db : loadRows c [t] db = option_list (loadRow c t db).
Proof. unfold loadRows. simpl. by destruct (loadRow c t db). Qed.

Lemma byKey_one row : mine row -> byKey [row] = [(key, row)].
Proof. intros H. unfold byKey. simpl. by rewrite (mine_key row H). Qed.

(** *** One row *)

(** [sameThreadSummary] compares everything but the flag of the sub-agents,
    which a row without them may lack. *)
Lemma same_summary left right :
  sameThreadSummary left right = true -> s_activeSubagents left = s_activeSubagents right -> left = right.
Proof.
  unfold sameThreadSummary, sameQuestionOpportunity. intros H Ha. repeat rewrite andb_true_iff in H.
  destruct_and!. destruct left, right; cbn in *.
  repeat match goal with
         | H : bool_decide _ = true |- _ => apply bool_decide_eq_true in H
         | H : Bool.eqb _ _ = true |- _ => apply eqb_prop in H
         | H : (_ =? _)%Z = true |- _ => apply Z.eqb_eq in H
         end.
  assert (s_status = s_status0) by (destruct s_status, s_status0; cbn in *; try done;
    repeat match goal with H : bool_decide _ = true |- _ => apply bool_decide_eq_true in H end; congruence).
  subst. done.
Qed.

(** *** Events before the row *)

Abbreviation affects := (fun e => threadSummaryEventAffectsDevice (ev_payload e) = true).

Lemma held_hold event overlay : heldEvents c t (hold c t event overlay) = pushed event (heldEvents c t overlay).
Proof.
  unfold heldEvents, hold. rewrite mget_mset_eq. cbn [mbind option_bind]. unfold holdThread.
  destruct (mget c overlay) as [threads|]; cbn [mbind option_bind]; [|simpl; by rewrite bool_decide_true].
  change (default [] (Some threads)) with threads.
  destruct (mget t threads) as [events|]; by rewrite mget_mset_eq.
Qed.

(** The newest events a thread without a row can hold. *)
Definition newestHeld (events : list JournalEvent) : list JournalEvent :=
  slice_last MAX_OVERLAY_EVENTS_PER_THREAD events.

Lemma newest_all events : length events <= MAX_OVERLAY_EVENTS_PER_THREAD -> newestHeld events = events.
Proof. intros H. unfold newestHeld, slice_last. by replace (length events - MAX_OVERLAY_EVENTS_PER_THREAD) with 0 by lia. Qed.

Lemma newest_length events : length (newestHeld events) <= MAX_OVERLAY_EVENTS_PER_THREAD.
Proof. unfold newestHeld, slice_last. rewrite length_drop. lia. Qed.

Lemma pushed_newest event events :
  length events <= MAX_OVERLAY_EVENTS_PER_THREAD -> pushed event events = newestHeld (events ++ [event]).
Proof.
  intros H. unfold pushed. destruct (Nat.ltb_spec MAX_OVERLAY_EVENTS_PER_THREAD (length (events ++ [event]))) as [Hlt|Hge].
  - unfold newestHeld, slice_last. rewrite length_app in *. cbn [length] in *.
    replace (length events + 1 - MAX_OVERLAY_EVENTS_PER_THREAD) with 1 by lia.
    by destruct (events ++ [event]).
  - by rewrite newest_all.
Qed.

Lemma newest_app earlier later : newestHeld (newestHeld earlier ++ later) = newestHeld (earlier ++ later).
Proof.
  unfold newestHeld, slice_last. rewrite !length_app, length_drop.
  set (n := MAX_OVERLAY_EVENTS_PER_THREAD). clearbody n.
  rewrite <- (drop_app_le earlier later) by lia. rewrite drop_drop. f_equal. lia.
Qed.

Lemma stage_unknown events overlay :
  Forall ownEvent events -> length (heldEvents c t overlay) <= MAX_OVERLAY_EVENTS_PER_THREAD ->
  exists overlay', stageEvents c [] events [] overlay = (Some [], overlay') /\
    heldEvents c t overlay' = newestHeld (heldEvents c t overlay ++ filter affects events).
Proof.
  intros H. revert overlay. induction H as [|event events He _ IH]; intros overlay Hroom.
  { exists overlay. by rewrite app_nil_r, newest_all. }
  cbn [stageEvents] in *. rewrite (oe_id event He), (oe_listed event He).
  pose proof (own_project event (fun threadId => stagedRow c threadId [] []) He) as Hp.
  destruct (projectThreadSummaryEvent _ _ _ _) as [mutation|]; [by destruct Hp as (? & [=] & _)|clear Hp].
  unfold holdIfUnknown. rewrite (oe_id event He), filter_cons.
  unfold mhas. cbn [mget]. rewrite !bool_decide_false by (by intros [? [=]]). cbn [negb andb].
  destruct (threadSummaryEventAffectsDevice (ev_payload event)) eqn:Ha.
  - rewrite decide_True by done.
    destruct (IH (hold c t event overlay)) as (overlay' & -> & Hh).
    { rewrite held_hold, pushed_newest by done. apply newest_length. }
    exists overlay'. split; [done|]. rewrite Hh, held_hold, pushed_newest by done. by rewrite newest_app, <- app_assoc.
  - rewrite decide_False by done. by apply IH.
Qed.

(** *** Events of a stored row *)

Definition tracked (p : Row) (changed : list (jstr * option Row)) (row : Row) : Prop :=
  (changed = [] /\ row = p) \/ changed = [(key, Some row)].

Lemma stage_known p events changed row overlay :
  Forall ownEvent events -> tracked p changed row ->
  exists changed', stageEvents c [(key, p)] events changed overlay = (Some changed', overlay) /\
    tracked p changed' (foldl (applyEvent c) row events).
Proof.
  intros H. revert changed row. induction H as [|event events He _ IH]; intros changed row Ht; [by eexists|].
  cbn [stageEvents foldl]. rewrite (oe_id event He), (oe_listed event He).
  assert (Hrow : stagedRow c t changed [(key, p)] = Some row).
  { unfold stagedRow. destruct Ht as [[-> ->]| ->]; simpl; by rewrite bool_decide_true by done. }
  pose proof (own_project event (fun threadId => stagedRow c threadId changed [(key, p)]) He) as Hp.
  destruct (projectThreadSummaryEvent _ _ _ _) as [mutation|].
  - destruct Hp as (row' & Hrow' & -> & ->). rewrite Hrow in Hrow'. injection Hrow' as <-. apply IH. right.
    destruct Ht as [[-> ->]| ->]; [done|]. simpl. by rewrite bool_decide_true by done.
  - rewrite (Hp row Hrow). unfold holdIfUnknown. rewrite (oe_id event He).
    assert (mhas key [(key, p)] = true) as ->.
    { unfold mhas. cbn [mget]. rewrite (bool_decide_true (key = key)) by done. by apply bool_decide_true. }
    rewrite andb_false_r. by apply IH.
Qed.

Lemma silent events rowOf : Forall ownEvent events ->
  reportedSubagentStatesOfBatch ((fun event => (threadIdFromEvent (ev_payload event), ev_payload event)) <$> events)
    rowOf = [].
Proof.
  intros H. unfold reportedSubagentStatesOfBatch. induction H as [|event events He _ IH]; [done|].
  cbn [fmap list_fmap foldl fst snd]. rewrite (oe_silent event He). cbn [foldl]. by repeat case_match.
Qed.

Lemma threads_of events ids : Forall ownEvent events -> ids = [] \/ ids = [t] ->
  foldl (fun ids event => match threadIdFromEvent (ev_payload event) with
                          | Some threadId => sadd threadId ids | None => ids end) ids events
  = match events with [] => ids | _ => [t] end.
Proof.
  intros H. revert ids. induction H as [|event events He _ IH]; intros ids Hids; [done|].
  cbn [foldl]. rewrite (oe_id event He).
  assert (sadd t ids = [t]) as ->.
  { destruct Hids as [-> | ->]; [done|]. unfold sadd, shas. by rewrite bool_decide_true by set_solver. }
  rewrite IH by auto. by destruct events.
Qed.

(** *** The database after each arrival

    [events]: those projected onto the row, and before the first row those held
    for it. *)

Definition lastCursor (listed : list ThreadListRow) : option Z := row_cursor ∘ meta <$> last listed.

Record arrived (listed : list ThreadListRow) (events : list JournalEvent) (db : SummaryDatabase) : Prop :=
  { ar_alive : db_disposed db = false;
    ar_current : raceGeneration c (db_race db) = Some generation;
    ar_cursor : mget t (cursors (sessionOf c (db_race db))) = lastCursor listed;
    ar_standing : mget t (tombstones (sessionOf c (db_race db))) = None;
    ar_row : mget key (db_rows db) = mergedRow listed events;
    ar_held : heldEvents c t (db_overlay db) = match listed with [] => events | _ => [] end }.

Definition arriving (listed : list ThreadListRow) (earlier later : list JournalEvent) : list JournalEvent :=
  match listed with [] => newestHeld (earlier ++ filter affects later) | _ => earlier ++ later end.

Lemma merged_kept listed events row :
  Forall ownEvent events -> mergedRow listed events = Some row -> kept row.
Proof.
  intros He. destruct listed as [|first rest]; [done|]. intros [= <-]. apply own_kept_all; [done|].
  assert (H : kept (serverRowSummary c first None)) by by apply server_kept.
  revert H. generalize (serverRowSummary c first None). induction rest as [|row rest IH]; [done|].
  intros p Hp. apply IH, server_kept. by intros ? [= <-].
Qed.

Lemma merged_mine listed events row :
  Forall rootRow listed -> Forall ownEvent events -> mergedRow listed events = Some row -> mine row.
Proof.
  intros Hl He. destruct listed as [|first rest]; [done|]. intros [= <-]. apply mine_events; [done|].
  apply Forall_cons in Hl as [Hf Hr].
  pose proof (mine_server first None Hf) as H. revert H. generalize (serverRowSummary c first None).
  induction Hr as [|row rest Hrow _ IH]; [done|]. intros p _. by apply IH, mine_server.
Qed.

Lemma arrived_load listed events db :
  Forall ownEvent events -> arrived listed events db -> loadRow c t db = mergedRow listed events.
Proof.
  intros He H. rewrite loadRow_eq, (ar_row _ _ _ H). destruct (mergedRow listed events) as [row|] eqn:E; [|done].
  cbn. f_equal. apply kept_normal. by eapply merged_kept.
Qed.

Lemma merged_events listed earlier later :
  mergedRow listed (earlier ++ later) = (fun row => foldl (applyEvent c) row later) <$> mergedRow listed earlier.
Proof. destruct listed; [done|]. cbn. by rewrite foldl_app. Qed.

Lemma root_no_children changed current row :
  changed = [] \/ changed = [(key, Some row)] -> mine row ->
  changedChildren {| b_admitted := []; b_changed := changed; b_current := current |} = [].
Proof.
  intros [-> | ->] (_ & _ & Hp); [done|]. unfold changedChildren. simpl. by rewrite Hp.
Qed.

Lemma arrive_events listed earlier later db :
  Forall rootRow listed -> Forall ownEvent earlier -> Forall ownEvent later ->
  (listed = [] -> length earlier <= MAX_OVERLAY_EVENTS_PER_THREAD) ->
  arrived listed earlier db -> arrived listed (arriving listed earlier later) (arrive db (EventsArrive later)).
Proof.
  intros Hl He Hn Hroom H. pose proof (arrived_load _ _ _ He H) as Hload. destruct H as [Ha Hg Hc Hs Hr Hh].
  unfold arrive, applyEventBatch. rewrite Ha. cbn [orb]. case_bool_decide as Hnil.
  { subst later. unfold arriving. rewrite filter_nil, app_nil_r.
    assert ((match listed with [] => newestHeld earlier | _ => earlier end) = earlier) as ->; [|done].
    destruct listed; [|done]. by apply newest_all, Hroom. }
  assert (Hids : eventThreads later = [t]).
  { unfold eventThreads. rewrite threads_of by auto. by destruct later. }
  rewrite Hids, load_one, Hload. unfold applyReportedSubagentStates.
  destruct (mergedRow listed earlier) as [p|] eqn:Hp.
  - change (option_list (Some p)) with [p]. pose proof (merged_mine _ _ _ Hl He Hp) as Hpm.
    replace (arriving listed earlier later) with (earlier ++ later) by (by destruct listed).
    rewrite (byKey_one p Hpm).
    destruct (stage_known p later [] p (db_overlay db)) as (changed & -> & Ht); [done|by left|].
    cbn [b_changed b_current]. rewrite silent by done. cbn [fmap list_fmap loadRows omap list_omap foldl].
    assert (Hmine : mine (foldl (applyEvent c) p later)).
    { by apply mine_events. }
    destruct Ht as [[-> Hsame] | ->].
    + rewrite bool_decide_true by done. split; try done; cbn.
      * by rewrite merged_events, Hr, Hp; cbn; rewrite Hsame.
      * by destruct listed; [|exact Hh].
    + rewrite bool_decide_false by done. unfold applySubagentActivity.
      rewrite (root_no_children _ _ (foldl (applyEvent c) p later)) by auto.
      split; try done; cbn [commitChanges db_rows eventChanges b_changed fmap list_fmap foldl snd applyChange].
      * rewrite (mine_key _ Hmine), mget_mset_eq, merged_events, Hp. done.
      * by destruct listed; [|exact Hh].
  - destruct listed; [|done]. change (byKey (option_list None)) with (@nil (jstr * Row)).
    destruct (stage_unknown later (db_overlay db)) as (overlay & -> & Hheld); [done| |].
    { rewrite Hh. by apply Hroom. }
    cbn [b_changed b_current]. rewrite silent by done. cbn [fmap list_fmap loadRows omap list_omap foldl].
    rewrite bool_decide_true by done. split; try done. cbn [withRace db_overlay].
    by rewrite Hheld, Hh.
Qed.

Lemma admit_next row db :
  raceGeneration c (db_race db) = Some generation ->
  mget t (tombstones (sessionOf c (db_race db))) = None ->
  (forall entry, mget t (cursors (sessionOf c (db_race db))) = Some entry -> (entry <= row_cursor (meta row))%Z) ->
  exists race, admitRow c t (row_cursor (meta row)) (db_race db) = (race, true)
    /\ raceGeneration c race = Some generation
    /\ mget t (cursors (sessionOf c race)) = Some (row_cursor (meta row))
    /\ mget t (tombstones (sessionOf c race)) = None.
Proof.
  intros Hg Ht Hc. unfold admitRow, admitRowS, raceGeneration, sessionOf in *. rewrite Ht.
  destruct (mget c (db_race db)) as [session|]; [|done]. cbn [mbind option_bind] in Hg.
  change (default (emptySession None) (Some session)) with session in *.
  destruct (mget t (cursors session)) as [entry|] eqn:E.
  - rewrite (proj2 (Z.ltb_ge _ _)) by by apply Hc. eexists. split; [done|].
    rewrite !mget_mset_eq. cbn. by rewrite mget_mset_eq.
  - eexists. split; [done|]. rewrite !mget_mset_eq. cbn. by rewrite mget_mset_eq.
Qed.

(** The staged summary of a row. *)
Lemma stage_row row previous db :
  rootRow row ->
  raceGeneration c (db_race db) = Some generation ->
  mget t (tombstones (sessionOf c (db_race db))) = None ->
  (forall entry, mget t (cursors (sessionOf c (db_race db))) = Some entry -> (entry <= row_cursor (meta row))%Z) ->
  (forall p, previous = Some p -> mine p) ->
  exists race overlay,
    stageRow c row (emptyBatch (option_list previous)) db
    = (Some {| b_admitted := [row];
               b_changed := [(key, Some (match previous with
                                         | None => foldl (applyEvent c) (serverRowSummary c row None)
                                                     (heldEvents c t (db_overlay db))
                                         | Some _ => serverRowSummary c row previous
                                         end))];
               b_current := (fun p => (key, p)) <$> option_list previous |}, withRace race overlay db)
    /\ raceGeneration c race = Some generation
    /\ mget t (cursors (sessionOf c race)) = Some (row_cursor (meta row))
    /\ mget t (tombstones (sessionOf c race)) = None
    /\ heldEvents c t overlay = match previous with None => [] | Some _ => heldEvents c t (db_overlay db) end.
Proof.
  intros Hr Hg Ht Hc Hp. destruct (admit_next row db Hg Ht Hc) as (race & Hadmit & Hrest).
  exists race. unfold stageRow. rewrite (rr_id row Hr), Hadmit, (rr_listed row Hr). cbn [negb].
  destruct previous as [p|].
  - change (option_list (Some p)) with [p]. unfold emptyBatch. rewrite (byKey_one p (Hp p eq_refl)).
    cbn [b_current]. assert (mget key [(key, p)] = Some p) as -> by (cbn [mget]; by rewrite (bool_decide_true (key = key))).
    exists (db_overlay db). by destruct Hrest as (? & ? & ?).
  - exists (discard c t (db_overlay db)). change (emptyBatch (option_list None)) with (emptyBatch []).
    unfold replayInto. cbn [s_remoteThreadId serverRowSummary]. rewrite (rr_thread row Hr).
    split; [done|]. destruct Hrest as (? & ? & ?). repeat split; [done..|].
    unfold heldEvents, discard. destruct (mget c (db_overlay db)) as [threads|] eqn:E; [|by rewrite E].
    rewrite mget_mset_eq. cbn [mbind option_bind]. by rewrite mget_mdel_eq.
Qed.

Lemma merged_rows listed row events :
  rootRow row -> Forall ownEvent events ->
  mergedRow (listed ++ [row]) events
  = Some match mergedRow listed events with
         | None => foldl (applyEvent c) (serverRowSummary c row None) events
         | Some p => serverRowSummary c row (Some p)
         end.
Proof.
  intros Hr He. destruct listed as [|first rest]; [done|]. cbn [mergedRow app]. rewrite foldl_app. cbn [foldl].
  f_equal. symmetry. apply server_events_commute; [done|].
  by apply (merged_kept (first :: rest) []).
Qed.

(** Writing the one staged row. *)
Lemma commit_one previous row admitted db :
  mine row -> (forall p, previous = Some p -> s_activeSubagents p = s_activeSubagents row) ->
  mget key (db_rows db) = previous ->
  let db' := commitBatch c {| b_admitted := admitted; b_changed := [(key, Some row)];
                              b_current := (fun p => (key, p)) <$> option_list previous |} [] db in
  mget key (db_rows db') = Some row /\ db_disposed db' = db_disposed db /\ db_race db' = db_race db
  /\ db_overlay db' = db_overlay db.
Proof.
  intros Hm Hsame Hprev. unfold commitBatch, applySubagentActivity.
  assert (changedChildren {| b_admitted := admitted; b_changed := [(key, Some row)];
            b_current := (fun p => (key, p)) <$> option_list previous |} = []) as ->.
  { destruct Hm as (_ & _ & Hp). unfold changedChildren. simpl. by rewrite Hp. }
  unfold batchChanges. cbn [b_changed b_current]. destruct previous as [p|].
  - change (_ <$> option_list (Some p)) with [(key, p)].
    assert (Hget : mget key [(key, p)] = Some p) by (cbn [mget]; by rewrite (bool_decide_true (key = key))).
    cbn [omap list_omap fst snd]. rewrite Hget. cbn [app].
    destruct (sameThreadSummary p row) eqn:E.
    + apply same_summary in E as <-; [|by apply Hsame]. by rewrite bool_decide_true.
    + rewrite bool_decide_false by done. cbn [commitChanges db_rows foldl applyChange].
      by rewrite (mine_key row Hm), mget_mset_eq.
  - cbn [app omap list_omap fst snd]. change (mget key (_ <$> option_list None)) with (@None Row).
    rewrite bool_decide_false by done. cbn [commitChanges db_rows foldl applyChange].
    by rewrite (mine_key row Hm), mget_mset_eq.
Qed.

Lemma arrive_row listed row events db :
  Forall rootRow listed -> rootRow row -> Forall ownEvent events ->
  (forall entry, lastCursor listed = Some entry -> (entry <= row_cursor (meta row))%Z) ->
  arrived listed events db -> arrived (listed ++ [row]) events (arrive db (RowArrives row)).
Proof.
  intros Hl Hrow He Hsort H. pose proof (arrived_load _ _ _ He H) as Hload. destruct H as [Ha Hg Hc Hs Hr Hh].
  unfold arrive, applyServerRows. rewrite Ha. unfold isCurrent. rewrite Hg, bool_decide_true by done.
  cbn [negb orb rows removed fmap list_fmap app foldl]. rewrite (rr_id row Hrow), load_one, Hload.
  destruct (stage_row row (mergedRow listed events) db Hrow Hg Hs) as (race & overlay & Hstage & Hrg & Hrc & Hrt & Hro).
  { intros entry. rewrite Hc. apply Hsort. }
  { intros p. by apply merged_mine. }
  cbn [stageRows]. rewrite Hstage. cbn [b_admitted].
  set (value := match mergedRow listed events with Some _ => _ | None => _ end).
  assert (Hvalue : mergedRow (listed ++ [row]) events = Some value).
  { rewrite merged_rows by done. unfold value. destruct (mergedRow listed events) as [p|] eqn:Hp; [done|].
    destruct listed; [|done]. by rewrite Hh. }
  assert (Hm : mine value).
  { apply (merged_mine (listed ++ [row]) events); [by apply Forall_app; split; [|apply Forall_singleton]|done|done]. }
  destruct (commit_one (mergedRow listed events) value [row] (withRace race overlay db)) as (Hw & Hd & Hrace & Hov);
    [done| |done|].
  { intros p Hp. unfold value. by rewrite Hp. }
  split; cbn [notify db_disposed db_race db_rows db_overlay].
  - by rewrite Hd.
  - by rewrite Hrace.
  - rewrite Hrace. unfold lastCursor. by rewrite last_snoc.
  - by rewrite Hrace.
  - by rewrite Hw, Hvalue.
  - rewrite Hov. cbn [withRace db_overlay]. rewrite Hro. rewrite Hh.
    destruct listed; [done|]. by destruct (mergedRow _ _).
Qed.

Lemma own_filter events : Forall ownEvent events -> Forall ownEvent (filter affects events).
Proof. rewrite !Forall_forall. intros H e [_ He]%list_elem_of_filter. by apply H. Qed.

(** What waits for the first row. *)
Fixpoint waiting (arrivals : list Arrival) : list JournalEvent :=
  match arrivals with
  | EventsArrive events :: rest => events ++ waiting rest
  | _ => []
  end.

Definition welcome (a : Arrival) : Prop :=
  match a with RowArrives row => rootRow row | EventsArrive events => Forall ownEvent events end.

(** The events that come after it. *)
Fixpoint afterRow (arrivals : list Arrival) : list JournalEvent :=
  match arrivals with
  | EventsArrive _ :: rest => afterRow rest
  | RowArrives _ :: rest => arrivedEvents rest
  | [] => []
  end.

Definition projected (listed : list ThreadListRow) (events : list JournalEvent) (arrivals : list Arrival)
    : list JournalEvent :=
  match listed with
  | [] => newestHeld (events ++ filter affects (waiting arrivals)) ++ afterRow arrivals
  | _ => events ++ arrivedEvents arrivals
  end.

Lemma arrived_waiting arrivals : arrivedEvents arrivals = waiting arrivals ++ afterRow arrivals.
Proof.
  induction arrivals as [|[row|events] arrivals IH]; [done|done|]. cbn [waiting afterRow].
  rewrite <- app_assoc. by rewrite <- IH.
Qed.

Lemma arrive_all arrivals listed events db :
  Forall rootRow listed -> Forall ownEvent events -> Forall welcome arrivals ->
  StronglySorted Z.le (row_cursor ∘ meta <$> listed ++ arrivedRows arrivals) ->
  (listed = [] -> length events <= MAX_OVERLAY_EVENTS_PER_THREAD) ->
  arrived listed events db ->
  arrived (listed ++ arrivedRows arrivals) (projected listed events arrivals) (foldl arrive db arrivals).
Proof.
  revert listed events db. induction arrivals as [|a arrivals IH]; intros listed events db Hl He Hw Hsort Hroom H.
  { rewrite !app_nil_r. unfold projected. cbn [waiting afterRow]. rewrite filter_nil, !app_nil_r.
    destruct listed; [by rewrite newest_all by by apply Hroom|done]. }
  apply Forall_cons in Hw as [Ha Hw]. cbn [foldl]. destruct a as [row|later].
  - change (arrivedRows (RowArrives row :: arrivals)) with ([row] ++ arrivedRows arrivals) in *.
    assert (Hp : projected listed events (RowArrives row :: arrivals) = projected (listed ++ [row]) events arrivals).
    { unfold projected. destruct listed; cbn [app waiting afterRow]; [|done].
      rewrite filter_nil, app_nil_r. by rewrite newest_all by by apply Hroom. }
    rewrite Hp, (assoc app) in *. apply IH; try done.
    + by apply Forall_app; split; [|apply Forall_singleton].
    + by destruct listed.
    + apply arrive_row; try done. intros entry Hlast. unfold lastCursor in Hlast.
      apply fmap_Some in Hlast as (previous & [front Hfront]%last_Some & ->).
      rewrite <- (assoc app), fmap_app in Hsort. subst listed.
      apply (StronglySorted_app_1_elem_of _ _ _ _ _ Hsort); [|by left].
      rewrite fmap_app. set_solver.
  - change (arrivedRows (EventsArrive later :: arrivals)) with (arrivedRows arrivals) in *.
    assert (Hp : projected listed events (EventsArrive later :: arrivals)
                 = projected listed (arriving listed events later) arrivals).
    { unfold projected, arriving. destruct listed; cbn [waiting afterRow].
      - by rewrite filter_app, newest_app, <- app_assoc.
      - by rewrite <- app_assoc. }
    rewrite Hp. apply IH; try done.
    + unfold arriving. destruct listed; [|by apply Forall_app]. unfold newestHeld, slice_last.
      apply Forall_drop, Forall_app. split; [done|]. by apply own_filter.
    + intros ->. apply newest_length.
    + by apply arrive_events.
Qed.

(** Nothing of the thread is stored, held or recorded. *)
Record unseen (db : SummaryDatabase) : Prop :=
  { un_alive : db_disposed db = false;
    un_current : raceGeneration c (db_race db) = Some generation;
    un_cursor : mget t (cursors (sessionOf c (db_race db))) = None;
    un_standing : mget t (tombstones (sessionOf c (db_race db))) = None;
    un_row : loadRow c t db = None;
    un_held : heldEvents c t (db_overlay db) = [] }.

Lemma unseen_arrived db : unseen db -> arrived [] [] db.
Proof.
  intros [Ha Hg Hc Hs Hr Hh]. split; try done. rewrite loadRow_eq in Hr. by apply fmap_None in Hr.
Qed.

(** C16. In whatever order the server rows of a thread and its journal events reach
    the database, the stored row is the one the rows give in their order, with
    the events projected onto it in theirs: a row never undoes what an event
    wrote, and of the events that come before the first row the newest
    sixty-four that can change it wait for it (all of them, when no more came).
    The thread is a root the catalogue lists; its rows come in the order of their
    cursors; its events neither start, delete nor unlist it and report no
    sub-agents. *)
Theorem arrivals_commute arrivals db :
  unseen db -> Forall welcome arrivals ->
  StronglySorted Z.le (row_cursor ∘ meta <$> arrivedRows arrivals) ->
  loadRow c t (foldl arrive db arrivals)
  = mergedRow (arrivedRows arrivals) (newestHeld (filter affects (waiting arrivals)) ++ afterRow arrivals)
  /\ (length (waiting arrivals) <= MAX_OVERLAY_EVENTS_PER_THREAD ->
      loadRow c t (foldl arrive db arrivals) = mergedRow (arrivedRows arrivals) (arrivedEvents arrivals)).
Proof.
  intros H Hw Hsort.
  assert (He : Forall ownEvent (arrivedEvents arrivals)).
  { clear Hsort. induction Hw as [|[row|events] arrivals Ha _ IH]; [done..|]. by apply Forall_app. }
  rewrite arrived_waiting in He. apply Forall_app in He as [Hwait Hafter].
  assert (Hload : loadRow c t (foldl arrive db arrivals)
    = mergedRow (arrivedRows arrivals) (newestHeld (filter affects (waiting arrivals)) ++ afterRow arrivals)).
  { apply arrived_load.
    - apply Forall_app. split; [|done]. unfold newestHeld, slice_last. apply Forall_drop. by apply own_filter.
    - apply (arrive_all arrivals [] []); try done; [intros _; apply Nat.le_0_l|by apply unseen_arrived]. }
  split; [done|]. intros Hroom. rewrite Hload, arrived_waiting. pose proof (length_filter affects (waiting arrivals)).
  rewrite newest_all by lia. destruct (arrivedRows arrivals) as [|row rest]; [done|]. cbn [mergedRow].
  by rewrite !foldl_app, held_suffice.
Qed.
End arrivals.

(** *** A thread whose events come first *)

Definition demo_listed (cursor : Z) (preview : string) : ThreadListRow :=
  {| meta := {| row_archived := false; row_cursor := cursor; row_liveActivity := None |};
     row_thread := JObj [("id", JStr (js "t")); ("preview", JStr (js preview)); ("updatedAt", JNum (NInt 5))];
     row_threadId := js "t" |}.

(** A turn ends with an answer. *)
Definition demo_answer (turnId : string) (cursor : Z) : JournalEvent :=
  {| ev_payload :=
       [("codewideThreadPatch",
          JObj [("version", JNum (NInt 1)); ("threadId", JStr (js "t"));
                ("operation",
                  JObj [("kind", JStr (js "turnCompleted")); ("turn", JObj [("id", JStr (js turnId))]);
                        ("summary", JObj [("activity", JBool true); ("finalAgentResponse", JBool true)])])])];
     ev_cursor := cursor |}.

Definition demo_database : SummaryDatabase :=
  {| db_disposed := false; db_notices := []; db_overlay := []; db_published := [];
     db_race := [(js "c", emptySession (Some 1%Z))]; db_reads := []; db_rows := [] |}.

Lemma demo_own turnId cursor : validPinCursor cursor = true -> ownEvent (js "t") (demo_answer turnId cursor).
Proof. intros H. split; try done; by vm_compute. Qed.

Lemma arrivals_commute_witness :
  let arrivals := [EventsArrive [demo_answer "one" 3]; RowArrives (demo_listed 7 "first");
                   EventsArrive [demo_answer "two" 9]; RowArrives (demo_listed 8 "second")] in
  let row := loadRow (js "c") (js "t") (foldl (arrive (js "c") 1) demo_database arrivals) in
  row = mergedRow (js "c") [demo_listed 7 "first"; demo_listed 8 "second"] [demo_answer "one" 3; demo_answer "two" 9]
  /\ (fun r => (s_preview r, s_firstUnreadAgentTurnId r, s_latestActivityCursor r)) <$> row
     = Some (js "second", Some (js "one"), 9%Z).
Proof.
  split; [|vm_compute; reflexivity].
  apply (arrivals_commute (js "c") (js "t") 1).
  - by split.
  - repeat (apply Forall_cons; split); try apply Forall_nil; try done;
      try (apply Forall_singleton; by apply demo_own); by split.
  - repeat constructor; vm_compute; intros [=].
  - vm_compute. lia.
Defined.
