(* ===== verification/SummaryOps.v ===== *)
(** * The other writes of the summary database

    Models the rest of apps/android/src/data/thread-summary-database.native.ts:
    deletions and their deliveries, read state, answers, archived state and
    names, pins, catalogue snapshots and bounded reads.  Every operation is one
    entry of the write queue; where the code reads before it queues the write,
    the database it read is an argument. *)
From S2P Require Import Prelude JsMap Json ThreadItems EventIndex ThreadEvents ListStream SummaryTypes.
From S2P Require Import SummaryProjection SummaryTree SummaryView SummaryRows.

Local Open Scope Z_scope.

(** ** Fields written one at a time *)

Definition withDeleteCommand (commandId : option jstr) (row : Row) : Row :=
  let d := deviceOf row in
  withDevice {| d_activeSubagents := d_activeSubagents d; d_closedQuestionTurnId := d_closedQuestionTurnId d;
                d_deleteCommandId := commandId; d_firstUnreadAgentTurnId := d_firstUnreadAgentTurnId d;
                d_lastSeenCursor := d_lastSeenCursor d; d_latestActivityCursor := d_latestActivityCursor d;
                d_pendingQuestion := d_pendingQuestion d; d_pendingRequestCount := d_pendingRequestCount d;
                d_projectionCursor := d_projectionCursor d; d_skippedQuestions := d_skippedQuestions d;
                d_submittedQuestions := d_submittedQuestions d; d_unread := d_unread d |} row.

Definition withReadState (firstUnread : option jstr) (lastSeen unread : Z) (row : Row) : Row :=
  let d := deviceOf row in
  withDevice {| d_activeSubagents := d_activeSubagents d; d_closedQuestionTurnId := d_closedQuestionTurnId d;
                d_deleteCommandId := d_deleteCommandId d; d_firstUnreadAgentTurnId := firstUnread;
                d_lastSeenCursor := lastSeen; d_latestActivityCursor := d_latestActivityCursor d;
                d_pendingQuestion := d_pendingQuestion d; d_pendingRequestCount := d_pendingRequestCount d;
                d_projectionCursor := d_projectionCursor d; d_skippedQuestions := d_skippedQuestions d;
                d_submittedQuestions := d_submittedQuestions d; d_unread := unread |} row.

Definition withSkipped (q : QuestionOpportunity) (row : Row) : Row :=
  let d := deviceOf row in
  withDevice {| d_activeSubagents := d_activeSubagents d; d_closedQuestionTurnId := d_closedQuestionTurnId d;
                d_deleteCommandId := d_deleteCommandId d; d_firstUnreadAgentTurnId := d_firstUnreadAgentTurnId d;
                d_lastSeenCursor := d_lastSeenCursor d; d_latestActivityCursor := d_latestActivityCursor d;
                d_pendingQuestion := d_pendingQuestion d; d_pendingRequestCount := d_pendingRequestCount d;
                d_projectionCursor := d_projectionCursor d; d_skippedQuestions := Some (Some q);
                d_submittedQuestions := d_submittedQuestions d; d_unread := d_unread d |} row.

(** [{ ...row, archived, name, pinCursor, pinned, status, recencyAt }]. *)
Definition withListed (archived : bool) (name : option json) (pinCursor : option Z) (pinned : bool)
    (status : ThreadStatus) (recencyAt : option Z) (row : Row) : Row :=
  {| s_activeSubagents := s_activeSubagents row; s_agentNickname := s_agentNickname row;
     s_agentRole := s_agentRole row; s_archived := archived;
     s_closedQuestionTurnId := s_closedQuestionTurnId row; s_codewideAgent := s_codewideAgent row;
     s_connectionId := s_connectionId row; s_cwd := s_cwd row;
     s_deleteCommandId := s_deleteCommandId row;
     s_firstUnreadAgentTurnId := s_firstUnreadAgentTurnId row;
     s_gitOriginUrl := s_gitOriginUrl row; s_lastSeenCursor := s_lastSeenCursor row;
     s_latestActivityCursor := s_latestActivityCursor row; s_name := name;
     s_parentThreadId := s_parentThreadId row; s_pendingQuestion := s_pendingQuestion row;
     s_pendingRequestCount := s_pendingRequestCount row; s_pinCursor := pinCursor; s_pinned := pinned;
     s_preview := s_preview row; s_projectionCursor := s_projectionCursor row;
     s_provisionalThread := s_provisionalThread row; s_recencyAt := recencyAt;
     s_remoteThreadId := s_remoteThreadId row; s_skippedQuestions := s_skippedQuestions row;
     s_status := status; s_submittedQuestions := s_submittedQuestions row;
     s_unread := s_unread row; s_updatedAt := s_updatedAt row |}.

Definition withArchived (archived : bool) (row : Row) : Row :=
  withListed archived (s_name row) (s_pinCursor row) (s_pinned row) (s_status row) (s_recencyAt row) row.

Definition withName (name : jstr) (row : Row) : Row :=
  withListed (s_archived row) (Some (JStr name)) (s_pinCursor row) (s_pinned row) (s_status row) (s_recencyAt row) row.

Definition withPin (cursor : Z) (pinned : bool) (row : Row) : Row :=
  withListed (s_archived row) (s_name row) (Some cursor) pinned (s_status row) (s_recencyAt row) row.

(** ** One row *)

Definition rewrite (connectionId threadId : jstr) (next : option Row -> option Row) (db : SummaryDatabase)
    : SummaryDatabase :=
  if db_disposed db then db
  else
    let previous := loadRow connectionId threadId db in
    match next previous with
    | None => db
    | Some row =>
        let normalized := normalizeStoredThreadSummary row in
        match previous with
        | None => commitChanges [SummaryPut true normalized] false db
        | Some p => commitChanges [SummaryPut false normalized] (summaryViewMembershipChanged p normalized) db
        end
    end.

Definition clearDeleteCommand (connectionId threadId commandId : jstr) : SummaryDatabase -> SummaryDatabase :=
  rewrite connectionId threadId (fun previous =>
    row ← previous;
    if bool_decide (s_deleteCommandId row = Some commandId) then Some (withDeleteCommand None row) else None).

Definition readStateAgentBoundary (row : Row) (unread : bool) : option jstr :=
  if unread then s_firstUnreadAgentTurnId row else None.

Definition readStateSummary (row : Row) (unread : bool) : Row :=
  withReadState (readStateAgentBoundary row unread)
    (if unread then s_lastSeenCursor row else s_latestActivityCursor row) (if unread then 1 else 0) row.

Definition setReadState (connectionId threadId : jstr) (unread : bool) (db : SummaryDatabase) : SummaryDatabase :=
  if db_disposed db then db
  else
    match loadRow connectionId threadId db with
    | None => db
    | Some row =>
        if (if unread then 0 <? s_unread row
            else (s_unread row =? 0) && (s_lastSeenCursor row =? s_latestActivityCursor row))
        then db
        else
          let next := readStateSummary row unread in
          commitChanges [SummaryPut false next] (summaryViewMembershipChanged row next) db
    end.

Definition markRead (connectionId threadId : jstr) := setReadState connectionId threadId false.
Definition markUnread (connectionId threadId : jstr) := setReadState connectionId threadId true.

Definition remove (key : jstr) (db : SummaryDatabase) : SummaryDatabase :=
  if db_disposed db then db else commitChanges [SummaryDelete key] true db.

Definition beginDelete (connectionId threadId commandId : jstr) : SummaryDatabase -> SummaryDatabase :=
  rewrite connectionId threadId (fun previous : option Row => withDeleteCommand (Some commandId) <$> previous).

Definition rollbackDelete (connectionId threadId commandId : jstr) : SummaryDatabase -> SummaryDatabase :=
  clearDeleteCommand connectionId threadId commandId.

Definition updateArchived (connectionId threadId : jstr) (archived : bool) : SummaryDatabase -> SummaryDatabase :=
  rewrite connectionId threadId (fun previous => withArchived archived <$> previous).

(** What follows an answer of the rename handler. *)
Definition updateName (connectionId threadId name : jstr) : SummaryDatabase -> SummaryDatabase :=
  rewrite connectionId threadId (fun previous => withName name <$> previous).

(** The event [insertStartedThread] makes of a thread. *)
Definition startedPayload (thread : json) : jobj :=
  [("codewideThreadPatch" : string,
     JObj [("operation", JObj [("kind", JStr (js "threadStarted")); ("thread", thread)]);
           ("threadId", JStr (strField "id" thread)); ("version", JNum (NInt 1))]);
   ("method", JStr (js "thread/started")); ("params", JObj [("thread", thread)])].

Definition insertStartedThread (connectionId : jstr) (thread : json) (db : SummaryDatabase)
    : option SummaryDatabase :=
  let threadId := strField "id" thread in
  match isCatalogExcluded thread with
  | None => None
  | Some true => Some (remove (threadSummaryKey connectionId threadId) db)
  | Some false =>
      Some (rewrite connectionId threadId (fun previous =>
              mutation ← projectThreadSummaryEvent connectionId (startedPayload thread) (fun _ => previous) 0;
              m_value mutation) db)
  end.

(** [None] when the thread is unavailable. *)
Definition skipQuestion (connectionId threadId turnId itemId : jstr) (db : SummaryDatabase)
    : option SummaryDatabase :=
  if db_disposed db then None
  else
    row ← loadRow connectionId threadId db;
    let previousIds := questionIdsForTurn (s_skippedQuestions row) turnId in
    if shas itemId previousIds then Some db
    else Some (commitChanges
                 [SummaryPut false (withSkipped {| q_itemIds := previousIds ++ [itemId]; q_turnId := turnId |} row)]
                 false db).

(** ** Deliveries of commands *)

(** What the code reads of a native delivery. *)
Record CommandDelivery := { cd_answer : AnswerDelivery; cd_delivered : bool }.

(** [read] is the database when the row was looked up, before the write was
    queued. *)
Definition applyDeleteDelivery (delivery : CommandDelivery) (read db : SummaryDatabase) : SummaryDatabase :=
  let answer := cd_answer delivery in
  match ad_threadId answer with
  | Some threadId =>
      if negb (bool_decide (ad_method answer = js "thread/delete")) then db
      else
        let connectionId := ad_connectionId answer in
        match loadRow connectionId threadId read with
        | Some row =>
            if negb (bool_decide (s_deleteCommandId row = Some (ad_commandId answer))) then db
            else if ad_failed answer then clearDeleteCommand connectionId threadId (ad_commandId answer) db
            else if cd_delivered delivery then remove (threadSummaryKey connectionId threadId) db
            else db
        | None => db
        end
  | None => db
  end.

Section deliveries.
(** The hash of the text, in hexadecimal; third-party code. *)
Variable digest : jstr -> jstr.

Definition applyQuestionDelivery (delivery : CommandDelivery) (db : SummaryDatabase) : SummaryDatabase :=
  let answer := cd_answer delivery in
  match ad_threadId answer with
  | Some threadId =>
      if negb (isQuestionAnswerDelivery answer) || db_disposed db then db
      else
        match loadRow (ad_connectionId answer) threadId db with
        | None => db
        | Some row =>
            let next := projectQuestionAnswerDelivery digest row answer in
            if bool_decide (next = row) then db else commitChanges [SummaryPut false next] false db
        end
  | None => db
  end.

Definition applyCommandDelivery (delivery : CommandDelivery) (read db : SummaryDatabase) : SummaryDatabase :=
  applyQuestionDelivery delivery (applyDeleteDelivery delivery read db).

(** The deliveries by connection and command; the last one of a command wins. *)
Definition deliveriesById (deliveries : list CommandDelivery) : list (jstr * CommandDelivery) :=
  foldl (fun m delivery =>
           mset (threadSummaryKey (ad_connectionId (cd_answer delivery)) (ad_commandId (cd_answer delivery)))
             delivery m) [] deliveries.

Definition reconcileDelete (byId : list (jstr * CommandDelivery)) (db : SummaryDatabase) (row : Row)
    : SummaryDatabase :=
  match s_deleteCommandId row with
  | None => db
  | Some commandId =>
      let clear := clearDeleteCommand (s_connectionId row) (s_remoteThreadId row) commandId in
      match mget (threadSummaryKey (s_connectionId row) commandId) byId with
      | None => clear db
      | Some delivery =>
          if ad_failed (cd_answer delivery) then clear db
          else if cd_delivered delivery then applyDeleteDelivery delivery db db
          else db
      end
  end.

Definition reconcileCommands (deliveries : list CommandDelivery) (db : SummaryDatabase) : SummaryDatabase :=
  foldl (fun db delivery => applyQuestionDelivery delivery db)
    (foldl (reconcileDelete (deliveriesById deliveries)) db (loadAll db)) deliveries.
End deliveries.

(** ** Several rows *)

Definition removeRows (connectionId : jstr) (rows : list Row) (db : SummaryDatabase) : SummaryDatabase :=
  if bool_decide (rows = []) then db
  else commitChanges ((fun row => SummaryDelete (threadSummaryKey connectionId (s_remoteThreadId row))) <$> rows) true db.

Definition deleteConnection (connectionId : jstr) (db : SummaryDatabase) : SummaryDatabase :=
  let db := withRace (db_race db) (forgetHeld connectionId (db_overlay db)) db in
  removeRows connectionId (loadConnectionRows connectionId db) db.

Definition removeCatalogEntries (connectionId : jstr) (threadIds : list jstr) (db : SummaryDatabase) : SummaryDatabase :=
  if db_disposed db then db else removeRows connectionId (loadRows connectionId threadIds db) db.

Definition loadProjectUnread (connectionId projectCwd : jstr) (db : SummaryDatabase) : list Row :=
  filter (fun row => s_cwd row = projectCwd /\ s_deleteCommandId row = None /\ 0 < s_unread row)
    (loadConnectionRows connectionId db).

Definition markProjectRead (connectionId projectCwd : jstr) (db : SummaryDatabase) : SummaryDatabase :=
  if db_disposed db then db
  else
    match loadProjectUnread connectionId projectCwd db with
    | [] => db
    | rows =>
        commitChanges
          ((fun row => SummaryPut false (withReadState None (s_latestActivityCursor row) 0 row)) <$> rows) false db
    end.

(** The rows a snapshot of pins changes. *)
Definition pinChanges (cursor : Z) (threadIds : list jstr) (rows : list Row) : list SummaryChange :=
  omap (fun row =>
          let value := withPin cursor (shas (s_remoteThreadId row) threadIds) row in
          if (cursor <? default 0 (s_pinCursor row)) || sameThreadSummary row value then None
          else Some (SummaryPut false value)) rows.

Definition applyPinSnapshot (connectionId : jstr) (cursor : Z) (threadIds : list jstr) (db : SummaryDatabase)
    : SummaryDatabase :=
  if db_disposed db then db
  else
    let changes := pinChanges cursor threadIds (loadConnectionRows connectionId db) in
    commitChanges changes (negb (bool_decide (changes = []))) db.

Definition refreshActiveSubagents (connectionId rootThreadId : jstr) (db : SummaryDatabase) : SummaryDatabase :=
  if db_disposed db then db
  else
    let rows := loadConnectionRows connectionId db in
    match list_find (fun row => s_remoteThreadId row = rootThreadId) rows with
    | None => db
    | Some (_, root) =>
        match withActiveSubagents root rows with
        | None => db
        | Some next => commitChanges [SummaryPut false next] false db
        end
    end.

(** ** Snapshots of the catalogue *)

Record SnapshotThread := { st_archived : bool; st_thread : json }.

Definition snapshotId (snapshot : SnapshotThread) : jstr := strField "id" (st_thread snapshot).

Definition retainLiveCatalogState (page previous : Row) : Row :=
  let status := if bool_decide (s_status page = NotLoaded) && isActive (s_status previous)
                then s_status previous else s_status page in
  let recencyAt :=
    match s_recencyAt previous, s_recencyAt page with
    | Some before, Some listed => Some (Z.max listed before)
    | Some before, None => Some before
    | None, listed => listed
    end in
  withListed (s_archived page) (s_name page) (s_pinCursor page) (s_pinned page) status recencyAt page.

(** Whether the row has seen something newer than the read. *)
Definition newerThanRead (throughCursor : option Z) (row : Row) : bool :=
  match throughCursor with Some through => through <? threadSummaryProjectionCursor row | None => false end.

(** The rows of the snapshot by key, and the keys it removes; [None] when a
    membership is invalid. *)
Fixpoint snapshotRows (connectionId : jstr) (retainLiveState : bool) (throughCursor : option Z)
    (current : list (jstr * Row)) (snapshots : list SnapshotThread) (next : list (jstr * Row))
    (excludedKeys : list jstr) : option (list (jstr * Row) * list jstr) :=
  match snapshots with
  | [] => Some (next, excludedKeys)
  | snapshot :: rest =>
      let key := threadSummaryKey connectionId (snapshotId snapshot) in
      let previous := mget key current in
      let continue := snapshotRows connectionId retainLiveState throughCursor current rest in
      let projected :=
        projectThreadSummarySnapshot connectionId (st_thread snapshot) (st_archived snapshot) previous in
      let project row := continue (mset key (projectedAt (default 0 throughCursor) row) next) excludedKeys in
      match previous, isCatalogExcluded (st_thread snapshot) with
      | Some p, excluded =>
          if newerThanRead throughCursor p then continue (mset key p next) excludedKeys
          else
            match excluded with
            | None => None
            | Some true => continue next (sadd key excludedKeys)
            | Some false => project (if retainLiveState then retainLiveCatalogState projected p else projected)
            end
      | None, None => None
      | None, Some true => continue next (sadd key excludedKeys)
      | None, Some false => project projected
      end
  end.

(** The changes of a write: removed keys first, then the rows by key. *)
Definition rowChanges (current : list (jstr * Row)) (removed : list jstr) (changed : list (jstr * Row))
    : list SummaryChange :=
  (SummaryDelete <$> removed)
  ++ ((fun e : jstr * Row => SummaryPut (negb (mhas e.1 current)) e.2) <$> changed).

Definition differs (current : list (jstr * Row)) (e : jstr * Row) : bool :=
  match mget e.1 current with Some previous => negb (sameThreadSummary previous e.2) | None => true end.

Definition movesMembership (current : list (jstr * Row)) (changed : list (jstr * Row)) : bool :=
  existsb (fun e : jstr * Row =>
             match mget e.1 current with
             | Some previous => summaryViewMembershipChanged previous e.2
             | None => false
             end) changed.

Definition writeRows (current : list (jstr * Row)) (removed : list jstr) (changed : list (jstr * Row))
    (db : SummaryDatabase) : SummaryDatabase :=
  if bool_decide (removed = []) && bool_decide (changed = []) then db
  else commitChanges (rowChanges current removed changed)
         (negb (bool_decide (removed = [])) || movesMembership current changed) db.

Definition replaceSnapshotRows (connectionId : jstr) (snapshots : list SnapshotThread)
    (missingScope : list Row -> list jstr) (retainLiveState : bool) (throughCursor : option Z)
    (db : SummaryDatabase) : option SummaryDatabase :=
  if db_disposed db then Some db
  else
    let currentRows := loadConnectionRows connectionId db in
    let current := byKey currentRows in
    match snapshotRows connectionId retainLiveState throughCursor current snapshots [] [] with
    | None => None
    | Some (next, excludedKeys) =>
        let removable := missingScope currentRows ++ excludedKeys in
        let removed :=
          omap (fun e : jstr * Row =>
                  if negb (mhas e.1 next) && shas e.1 removable && negb (newerThanRead throughCursor e.2)
                  then Some e.1 else None) current in
        Some (writeRows current removed (filter (fun e => differs current e = true) next) db)
    end.

Definition replaceCatalog (connectionId : jstr) (snapshots : list SnapshotThread) : SummaryDatabase -> option SummaryDatabase :=
  replaceSnapshotRows connectionId snapshots
    (fun current => rowKey <$> filter (fun row => retainThreadSummaryMissingFromSnapshot row = false) current)
    false None.

(** The snapshots of children, then the flag of the root. *)
Definition replaceSubagentCatalog (connectionId rootThreadId : jstr) (snapshots : list SnapshotThread)
    (db : SummaryDatabase) : option SummaryDatabase :=
  refreshActiveSubagents connectionId rootThreadId <$>
    replaceSnapshotRows connectionId
      (filter (fun s => field "parentThreadId" (st_thread s) <> Some JNull) snapshots)
      (fun current => threadSummaryDescendantKeys current rootThreadId) true None db.

(** ** Bounded reads of threads *)

Fixpoint mergedRows (connectionId : jstr) (throughCursor : option Z) (current : list (jstr * Row))
    (snapshots : list SnapshotThread) (changed : list (jstr * Row)) (removed : list jstr)
    : option (list (jstr * Row) * list jstr) :=
  match snapshots with
  | [] => Some (changed, removed)
  | snapshot :: rest =>
      let key := threadSummaryKey connectionId (snapshotId snapshot) in
      let continue := mergedRows connectionId throughCursor current rest in
      match isCatalogExcluded (st_thread snapshot) with
      | None => None
      | Some true => continue changed (sadd key removed)
      | Some false =>
          let write row :=
            let row := projectedAt (default 0 throughCursor) row in
            if differs current (key, row) then continue (mset key row changed) removed
            else continue changed removed in
          match mget key current with
          | Some p =>
              if newerThanRead throughCursor p then continue changed removed
              else write (threadSummaryTurnAttention (st_thread snapshot) p)
          | None =>
              write (projectThreadSummarySnapshot connectionId (st_thread snapshot) (st_archived snapshot) None)
          end
      end
  end.

Definition mergeSnapshots (connectionId : jstr) (snapshots : list SnapshotThread) (throughCursor : option Z)
    (db : SummaryDatabase) : option SummaryDatabase :=
  if db_disposed db then Some db
  else
    let current := byKey (loadRows connectionId (snapshotId <$> snapshots) db) in
    match mergedRows connectionId throughCursor current snapshots [] [] with
    | None => None
    | Some (changed, removed) => Some (writeRows current removed changed db)
    end.
