(* ===== verification/SummaryLaws.v ===== *)
(** * What every write of the summary database keeps

    [perform] is one entry of the write queue; [reached] databases are those a
    sequence of writes leads to from an empty store. *)
From S2P Require Import Prelude JsMap Json ThreadItems EventIndex ThreadEvents CursorSync ListStream SummaryTypes.
From S2P Require Import SummaryProjection SummaryTree SummaryView SummaryRows SummaryOps.

Local Open Scope Z_scope.

(** ** The marks of reading *)

(** Nothing was seen that did not happen, a thread is read or unread, and only
    an unread one remembers where its unread part begins. *)
Record agreeing (seen latest unread : Z) (firstUnread : option jstr) : Prop :=
  { ag_seen : seen <= latest; ag_unread : unread = 0 \/ unread = 1;
    ag_first : unread = 0 -> firstUnread = None }.

Definition marked (row : Row) : Prop :=
  agreeing (s_lastSeenCursor row) (s_latestActivityCursor row) (s_unread row) (s_firstUnreadAgentTurnId row).

Definition markedDevice (d : DeviceFields) : Prop :=
  agreeing (d_lastSeenCursor d) (d_latestActivityCursor d) (d_unread d) (d_firstUnreadAgentTurnId d).

Lemma agreeing_new : agreeing 0 0 0 None.
Proof. split; auto; lia. Qed.

Lemma marked_device row d : markedDevice d -> marked (withDevice d row).
Proof. done. Qed.

Lemma marked_normal row : marked row -> marked (normalizeStoredThreadSummary row).
Proof. intros [? ? H]. split; try done. simpl. intros Hu. by rewrite (H Hu). Qed.

Lemma marked_server c row previous :
  (forall p, previous = Some p -> marked p) -> marked (serverRowSummary c row previous).
Proof. intros H. destruct previous as [p|]; [exact (H p eq_refl)|exact agreeing_new]. Qed.

Lemma marked_snapshot c thread archived previous :
  (forall p, previous = Some p -> marked p) -> marked (projectThreadSummarySnapshot c thread archived previous).
Proof. intros H. destruct previous as [p|]; [exact (H p eq_refl)|exact agreeing_new]. Qed.

Lemma marked_attention d op : markedDevice d -> markedDevice (applyQuestionAttention d op).1.
Proof.
  intros H. destruct (attention_shape d op) as (d' & -> & Hd). unfold closeQuestionTurn.
  assert (H' : markedDevice d') by by destruct Hd as [-> | [q ->]]. by repeat case_match.
Qed.

Lemma marked_final d op : markedDevice d -> markedDevice (applyFinalAgentResponse d op).
Proof.
  intros [Hs Hu Hf]. unfold applyFinalAgentResponse. split; cbn [withActivity d_lastSeenCursor d_latestActivityCursor
    d_unread d_firstUnreadAgentTurnId]; [done|case_match; auto|].
  destruct Hu as [Hu|Hu]; rewrite Hu; [|done]. cbn [Z.ltb Z.compare orb].
  destruct (d_lastSeenCursor d <? d_latestActivityCursor d); [done|]. cbn. by rewrite Hf.
Qed.

Lemma marked_patch op d cursor e : devicePatch op d cursor = Some e -> markedDevice d -> markedDevice e.
Proof.
  unfold devicePatch. intros He Hd. pose proof (marked_attention d op Hd) as Ha.
  destruct (applyQuestionAttention d op) as [next replaced]. cbn [fst] in Ha.
  destruct (negb (summaryFlag "activity" op)).
  - destruct (replaced || _); [|done]. by injection He as <-.
  - injection He as <-. destruct Ha as [Hs Hu Hf].
    assert (markedDevice (withActivity (Z.max (d_latestActivityCursor next) cursor) (d_unread next)
              (d_firstUnreadAgentTurnId next) next)) by (split; simpl; [lia|done..]).
    destruct (summaryFlag _ _); [by apply marked_final|done].
Qed.

Lemma marked_event c payload previousFor cursor mutation row :
  (forall t p, previousFor t = Some p -> marked p) ->
  projectThreadSummaryEvent c payload previousFor cursor = Some mutation -> m_value mutation = Some row ->
  marked row.
Proof.
  intros Hp. unfold projectThreadSummaryEvent. destruct (threadProjectionPatchFromEvent payload) as [patch|]; [|done].
  cbn [mbind option_bind]. destruct (_ || _); [done|].
  assert (H : forall m next, projectThreadSummaryPatch c patch previousFor cursor = Some m ->
    m_value m = Some next -> marked next).
  { unfold projectThreadSummaryPatch, projectStartedThread, projectDevicePatch. intros m next.
    destruct (kindIs (operation patch) "threadStarted").
    - destruct (oget "thread" _) as [thread|]; [|done]. destruct (isThread thread); [|done].
      destruct (previousFor _) as [p|] eqn:E.
      + destruct (_ || _); [done|]. intros [= <-] [= <-]. exact (Hp _ _ E).
      + intros [= <-] [= <-]. exact agreeing_new.
    - destruct (kindIs _ _); [by intros [= <-]|]. destruct (previousFor _) as [p|] eqn:E; [|done].
      cbn [mbind option_bind]. destruct (isClosedTurnStart _ _); [done|].
      destruct (devicePatch _ _ _) as [d|] eqn:Hd; [|done]. intros [= <-] [= <-].
      exact (marked_patch _ _ _ _ Hd (Hp _ _ E)). }
  destruct (projectThreadSummaryPatch _ _ _ _) as [m|]; [|done]. cbn [mbind option_bind]. intros [= <-]. cbn.
  destruct (m_value m) as [next|] eqn:E; [|done]. intros [= <-]. exact (H m next eq_refl E).
Qed.

Lemma marked_applyEvent c event row : marked row -> marked (applyEvent c row event).
Proof.
  intros H. unfold applyEvent. destruct (projectThreadSummaryEvent _ _ _ _) as [[k [next|]]|] eqn:E; try done.
  eapply marked_event; [|exact E|done]. by intros ? p [= <-].
Qed.

(** ** Databases *)

Record sound (db : SummaryDatabase) : Prop :=
  { so_keyed : keyed (db_rows db); so_marked : forall row, row ∈ mvals (db_rows db) -> marked row }.

Definition soundChange (change : SummaryChange) : Prop :=
  match change with SummaryPut _ value => marked value | SummaryDelete _ => True end.

Lemma sound_rows db rows : sound db -> db_rows db = rows -> keyed rows /\ forall row, row ∈ mvals rows -> marked row.
Proof. by intros [] <-. Qed.

Lemma commit_sound changes refill db :
  Forall soundChange changes -> sound db -> sound (commitChanges changes refill db).
Proof.
  intros Hc [Hk Hm].
  enough (keyed (foldl applyChange (db_rows db) changes)
          /\ forall row, row ∈ mvals (foldl applyChange (db_rows db) changes) -> marked row) as [] by by split.
  revert Hk Hm. generalize (db_rows db). induction Hc as [|change changes H _ IH]; [done|]. intros rows Hk Hm.
  cbn [foldl]. destruct change as [isInsert value|key]; cbn [applyChange]; apply IH.
  - by apply keyed_set.
  - intros row (k & [[= _ ->]|Hin]%elem_mset)%elem_mvals; [done|]. apply Hm. by eapply in_mvals.
  - by apply keyed_del.
  - intros row (k & Hin)%elem_mvals. apply Hm, (in_mvals k). by apply (elem_mdel key).
Qed.

Lemma race_sound race overlay db : sound (withRace race overlay db) <-> sound db.
Proof. split; intros []; by split. Qed.

Lemma notify_sound notice db : sound (notify notice db) <-> sound db.
Proof. split; intros []; by split. Qed.

Lemma loadRow_marked c t db row : sound db -> loadRow c t db = Some row -> marked row.
Proof.
  unfold loadRow. intros [Hk Hm] (stored & H & ->)%fmap_Some. apply marked_normal, Hm. apply mget_elem in H. by eapply in_mvals.
Qed.

Lemma loadAll_marked db row : sound db -> row ∈ loadAll db -> marked row.
Proof. intros [Hk Hm] (stored & -> & H)%list_elem_of_fmap. by apply marked_normal, Hm. Qed.

Lemma loadRows_marked c ids db row : sound db -> row ∈ loadRows c ids db -> marked row.
Proof. intros H (t & _ & Hr)%list_elem_of_omap. by eapply loadRow_marked. Qed.

Lemma loadConnectionRows_marked c db row : sound db -> row ∈ loadConnectionRows c db -> marked row.
Proof. intros H [_ Hr]%list_elem_of_filter. by eapply loadAll_marked. Qed.

Lemma byKey_marked rows k row :
  (forall row, row ∈ rows -> marked row) -> mget k (byKey rows) = Some row -> marked row.
Proof.
  intros H Hr%mget_elem. apply H, byKey_mem. by eapply in_mvals.
Qed.

(** ** Batches *)

Record soundBatch (batch : RowBatch) : Prop :=
  { sb_changed : forall k row, (k, Some row) ∈ b_changed batch -> marked row;
    sb_current : forall k row, mget k (b_current batch) = Some row -> marked row }.

Lemma stage_sound key row batch :
  (forall value, row = Some value -> marked value) -> soundBatch batch -> soundBatch (stageChange key row batch).
Proof.
  intros Hr [Hc Hb]. split; [|done]. intros k value [[= _ Hv]|H]%elem_mset; [by apply Hr|by eapply Hc].
Qed.

Lemma emptyBatch_sound rows : (forall row, row ∈ rows -> marked row) -> soundBatch (emptyBatch rows).
Proof. intros H. split; [by intros k row ?%not_elem_of_nil|]. intros k row. by apply byKey_marked. Qed.

Lemma marked_events c events row : marked row -> marked (foldl (applyEvent c) row events).
Proof. revert row. induction events as [|e events IH]; [done|]. intros row H. by apply IH, marked_applyEvent. Qed.

Lemma stageRow_sound c row batch db :
  soundBatch batch -> sound db ->
  sound (stageRow c row batch db).2 /\ forall batch', (stageRow c row batch db).1 = Some batch' -> soundBatch batch'.
Proof.
  intros Hb Hd. unfold stageRow. destruct (admitRow c (row_threadId row) _ _) as [race []]; cbn [negb].
  2: { split; [by apply race_sound|]. by intros ? [= <-]. }
  destruct (isCatalogExcluded (row_thread row)) as [[]|].
  - split; [by apply race_sound|]. intros ? [= <-]. by apply stage_sound.
  - destruct (mget (threadSummaryKey c (row_threadId row)) (b_current batch)) as [p|] eqn:E.
    + split; [by apply race_sound|]. intros ? [= <-]. apply stage_sound; [|by destruct Hb].
      intros ? [= <-]. apply marked_server. intros ? [= <-]. by eapply sb_current.
    + split; [by apply race_sound|]. intros ? [= <-]. apply stage_sound; [|by destruct Hb].
      intros ? [= <-]. by apply marked_events, marked_server.
  - split; [by apply race_sound|done].
Qed.

Lemma stageRows_sound c rows batch db :
  soundBatch batch -> sound db ->
  sound (stageRows c rows batch db).2 /\ forall batch', (stageRows c rows batch db).1 = Some batch' -> soundBatch batch'.
Proof.
  revert batch db. induction rows as [|row rows IH]; intros batch db Hb Hd.
  { split; [done|]. by intros ? [= <-]. }
  cbn [stageRows]. pose proof (stageRow_sound c row batch db Hb Hd) as [Hd' Hb'].
  destruct (stageRow c row batch db) as [[batch'|] db']; [|by split]. apply IH; auto.
Qed.

Lemma withActiveSubagents_marked root rows next :
  withActiveSubagents root rows = Some next -> exists active, next = withActive active root.
Proof. unfold withActiveSubagents. destruct (Bool.eqb _ _); [done|]. intros [= <-]. by eexists. Qed.

Lemma climb_marked byId fuel visited row :
  (forall k p, mget k byId = Some p -> marked p) -> marked row -> marked (climb byId fuel visited row).
Proof.
  intros H. revert visited row. induction fuel as [|fuel IH]; [done|]. intros visited row Hr. cbn [climb].
  destruct (s_parentThreadId row) as [parent|]; [|done]. cbn [mbind option_bind].
  destruct (mget parent byId) as [p|] eqn:E; [|done]. case_match; [done|]. apply IH. by eapply H.
Qed.

Lemma roots_marked children rows root :
  (forall row, row ∈ children -> marked row) -> (forall row, row ∈ rows -> marked row) ->
  root ∈ rootsWithChangedSubagentActivity children rows -> marked root.
Proof.
  intros Hc Hr. unfold rootsWithChangedSubagentActivity.
  set (byId := mfrom _). intros (before & Hin & Hroot)%list_elem_of_omap.
  assert (marked before).
  { assert (Hid : forall k p, mget k byId = Some p -> marked p).
    { intros k p (row & [= _ ->] & Hrow)%mget_mfrom_elem%list_elem_of_fmap. by apply Hr. }
    assert (Hacc : forall row, row ∈ mvals (@nil (jstr * Row)) -> marked row) by (intros row ?; set_solver).
    revert Hacc Hin. clear Hroot. generalize (@nil (jstr * Row)) as roots.
    induction children as [|child children IH]; [intros roots Hacc Hin; by apply Hacc|].
    intros roots Hacc. cbn [foldl]. apply IH; [intros; apply Hc; by right|].
    destruct (_ && _); [|done]. intros row (k & [[= _ ->]|Hin]%elem_mset)%elem_mvals.
    - apply climb_marked; [done|]. apply Hc. by left.
    - apply Hacc. by eapply in_mvals. }
  by apply withActiveSubagents_marked in Hroot as [active ->].
Qed.

Lemma stagedRows_marked rows changed row :
  (forall row, row ∈ rows -> marked row) -> (forall k row, (k, Some row) ∈ changed -> marked row) ->
  row ∈ stagedRows rows changed -> marked row.
Proof.
  intros Hr. unfold stagedRows.
  assert (Hacc : forall row, row ∈ mvals (byKey rows) -> marked row).
  { intros r (k & Hin)%elem_mvals. apply (byKey_marked rows k); [done|]. by apply elem_mget; [apply byKey_keyed|]. }
  revert Hacc. generalize (byKey rows) as m. induction changed as [|[k v] changed IH]; intros m Hacc Hc Hin.
  { by apply Hacc. }
  cbn [foldl fst snd] in Hin. revert Hin. apply IH; [|intros; eapply Hc; by right].
  intros r. destruct v as [value|].
  - intros (k' & [[= _ ->]|Hin]%elem_mset)%elem_mvals; [eapply Hc; by left|]. apply Hacc. by eapply in_mvals.
  - intros (k' & Hin%elem_mdel)%elem_mvals. apply Hacc. by eapply in_mvals.
Qed.

Lemma activity_sound c db batch : sound db -> soundBatch batch -> soundBatch (applySubagentActivity c db batch).
Proof.
  intros Hd Hb. unfold applySubagentActivity. destruct (changedChildren batch) as [|child children] eqn:Hch; [done|].
  assert (Hroots : forall root, root ∈ rootsWithChangedSubagentActivity (child :: children)
    (stagedRows (loadConnectionRows c db) (b_changed batch)) -> marked root).
  { intros root. apply roots_marked.
    - rewrite <- Hch. unfold changedChildren. intros row ([k v] & Hin & Hv)%list_elem_of_omap.
      destruct v as [value|]; [|done]. cbn [mbind option_bind snd] in Hv. case_match; [|done].
      injection Hv as <-. by eapply sb_changed.
    - intros row. apply stagedRows_marked; [intros r; by apply loadConnectionRows_marked|apply Hb]. }
  revert Hroots. generalize (rootsWithChangedSubagentActivity (child :: children)
    (stagedRows (loadConnectionRows c db) (b_changed batch))) as roots.
  intros roots. clear Hch. revert batch Hb. induction roots as [|root roots IH]; [done|]. intros batch Hb Hr. cbn [foldl].
  apply IH; [apply stage_sound; [|done]; intros ? [= <-]; apply Hr; by left|]. intros. apply Hr. by right.
Qed.

Lemma batchChanges_sound batch : soundBatch batch -> Forall soundChange (batchChanges batch).
Proof.
  intros [Hc _]. apply Forall_forall. intros change ([k v] & Hin & Hv)%list_elem_of_omap. cbn [fst snd] in Hv.
  destruct v as [value|]; repeat case_match; try done; injection Hv as <-; [by eapply Hc..|done].
Qed.

Lemma commitBatch_sound c batch keys db :
  soundBatch batch -> sound db -> sound (commitBatch c batch (SummaryDelete <$> keys) db).
Proof.
  intros Hb Hd. unfold commitBatch. case_bool_decide; [done|]. apply commit_sound; [|done].
  apply Forall_app. split; [|by apply batchChanges_sound, activity_sound].
  apply Forall_forall. by intros ? (k & -> & _)%list_elem_of_fmap.
Qed.

(** ** The writes of server rows *)

Lemma tombstones_sound c tombs batch db :
  soundBatch batch -> sound db ->
  let st := foldl (stageTombstone c) (batch, db) tombs in soundBatch st.1 /\ sound st.2.
Proof.
  revert batch db. induction tombs as [|tomb tombs IH]; intros batch db Hb Hd; [done|]. cbn [foldl].
  assert (H : soundBatch (stageTombstone c (batch, db) tomb).1 /\ sound (stageTombstone c (batch, db) tomb).2).
  { unfold stageTombstone. destruct (admitTombstone c _ _ _) as [race []]; (split; [|by apply race_sound]).
    - by apply stage_sound.
    - done. }
  destruct (stageTombstone c (batch, db) tomb) as [batch' db'], H. by apply IH.
Qed.

Lemma serverRows_sound c g frame race db : sound db -> sound (applyServerRows c g frame race db).
Proof.
  intros Hd. unfold applyServerRows. case_match; [done|].
  set (ids := (row_threadId <$> rows frame) ++ _).
  pose proof (tombstones_sound c (removed frame) (emptyBatch (loadRows c ids db)) db) as Ht.
  destruct (foldl (stageTombstone c) _ _) as [batch db'].
  destruct Ht as [Hb Hd']; [apply emptyBatch_sound; intros row; by apply loadRows_marked|done|]. cbn [fst snd] in *.
  destruct (stageRows_sound c (rows frame) batch db' Hb Hd') as [Hs Hs'].
  destruct (stageRows c (rows frame) batch db') as [[batch'|] db'']; [|done].
  apply notify_sound, (commitBatch_sound c batch' []); auto.
Qed.

Lemma catalogPage_sound order request page replaceHead race db :
  sound db -> sound (applyCatalogPage order request page replaceHead race db).
Proof.
  intros Hd. unfold applyCatalogPage. case_match; [done|].
  destruct (stageRows_sound (hr_connectionId request) (page_rows page)
    (emptyBatch (loadRows (hr_connectionId request) (row_threadId <$> page_rows page) db)) db) as [Hs Hs'].
  { apply emptyBatch_sound. intros row. by apply loadRows_marked. }
  { done. }
  destruct (stageRows _ _ _ _) as [[batch'|] db'']; [|done]. apply notify_sound, commitBatch_sound; auto.
Qed.

Lemma snapshotRemovals_sound c cursor listed race retained batch :
  soundBatch batch -> soundBatch (stageSnapshotRemovals c cursor listed race retained batch).2.
Proof.
  unfold stageSnapshotRemovals. generalize (b_current batch) as es. intros es. revert retained batch.
  induction es as [|e es IH]; [done|]. intros retained batch Hb. cbn [foldl fst snd].
  destruct (_ || _); [by apply IH|]. destruct (newerThan _ _ _ _); apply IH; [done|]. by apply stage_sound.
Qed.

Lemma stageSnapshotRows_sound c rows retained batch db :
  soundBatch batch -> sound db ->
  sound (stageSnapshotRows c rows retained batch db).2 /\
  forall st, (stageSnapshotRows c rows retained batch db).1 = Some st -> soundBatch st.2.
Proof.
  revert retained batch db. induction rows as [|row rows IH]; intros retained batch db Hb Hd.
  { split; [done|]. by intros ? [= <-]. }
  cbn [stageSnapshotRows]. pose proof (stageRow_sound c row batch db Hb Hd) as [Hd' Hb'].
  destruct (stageRow c row batch db) as [[batch'|] db']; [|by split]. apply IH; auto.
Qed.

Lemma snapshot_sound c threads cursor db : sound db -> sound (applySnapshot c threads cursor db).
Proof.
  intros Hd. unfold applySnapshot. destruct (parseThreadListRows threads) as [rows|]; [|done]. case_match; [done|].
  destruct (stageSnapshotRows_sound c rows [] (emptyBatch (loadConnectionRows c db)) db) as [Hs Hs'].
  { apply emptyBatch_sound. intros row. by apply loadConnectionRows_marked. }
  { done. }
  destruct (stageSnapshotRows _ _ _ _ _) as [[[retained batch]|] db']; [|done]. cbn [fst snd] in *.
  pose proof (snapshotRemovals_sound c cursor (row_threadId <$> rows) (db_race db') retained batch (Hs' _ eq_refl)) as Hb.
  destruct (stageSnapshotRemovals _ _ _ _ _ _) as [retained' batch'].
  apply notify_sound, (commitBatch_sound c batch' []); auto.
Qed.

(** ** Journal events *)

Lemma stagedRow_marked c t changed current row :
  (forall k row, (k, Some row) ∈ changed -> marked row) -> (forall k row, mget k current = Some row -> marked row) ->
  stagedRow c t changed current = Some row -> marked row.
Proof.
  intros Hc Hb. unfold stagedRow. destruct (mget _ changed) as [value|] eqn:E; [|by apply Hb].
  intros ->. apply mget_elem in E. by eapply Hc.
Qed.

Lemma stageEvents_sound c current events changed overlay changed' :
  (forall k row, (k, Some row) ∈ changed -> marked row) -> (forall k row, mget k current = Some row -> marked row) ->
  (stageEvents c current events changed overlay).1 = Some changed' ->
  forall k row, (k, Some row) ∈ changed' -> marked row.
Proof.
  intros Hc Hb. revert changed overlay Hc. induction events as [|event events IH]; intros changed overlay Hc.
  { by intros [= <-]. }
  cbn [stageEvents].
  assert (Hdrop : forall key, (forall k row, (k, Some row) ∈ mset key None changed -> marked row)).
  { intros key k row [[=]|Hin]%elem_mset. by eapply Hc. }
  assert (Hproject : forall overlay, (match projectThreadSummaryEvent c (ev_payload event)
      (fun threadId => stagedRow c threadId changed current) (ev_cursor event) with
    | Some mutation => stageEvents c current events (mset (m_key mutation) (m_value mutation) changed) overlay
    | None => stageEvents c current events changed (holdIfUnknown c event changed current overlay)
    end).1 = Some changed' -> forall k row, (k, Some row) ∈ changed' -> marked row).
  { intros o. destruct (projectThreadSummaryEvent _ _ _ _) as [mutation|] eqn:E; [|by apply IH].
    apply IH. intros k row [[= _ Hv]|Hin]%elem_mset; [|by eapply Hc].
    eapply marked_event; [|exact E|done]. intros t p. by apply stagedRow_marked. }
  destruct (threadIdFromEvent (ev_payload event)) as [t|]; [|apply Hproject].
  destruct (isCatalogExcluded _) as [[]|]; [apply IH, Hdrop|apply Hproject|done].
Qed.

Lemma withReported_marked row active next : withReportedStatus row active = Some next -> marked row -> marked next.
Proof. unfold withReportedStatus. case_match; [done|]. by intros [= <-]. Qed.

Lemma reported_sound c events db batch :
  sound db -> soundBatch batch -> soundBatch (applyReportedSubagentStates c events db batch).
Proof.
  intros Hd. unfold applyReportedSubagentStates.
  set (reported := reportedSubagentStatesOfBatch _ _). clearbody reported.
  assert (Hrows : forall child, child ∈ loadRows c reported.*1 db -> marked child) by (intros; by eapply loadRows_marked).
  revert Hrows. generalize (loadRows c reported.*1 db) as children. intros children.
  revert batch. induction children as [|child children IH]; [done|]. intros batch Hc Hb. cbn [foldl].
  apply IH; [intros; apply Hc; by right|]. specialize (Hc child ltac:(by left)).
  destruct Hb as [Hch Hcu].
  assert (Hcurrent : forall k row, mget k (if mhas (rowKey child) (b_current batch) then b_current batch
                                        else mset (rowKey child) child (b_current batch)) = Some row -> marked row).
  { intros k row. case_match; [by apply Hcu|]. rewrite mget_mset. case_bool_decide; [by intros [= <-]|apply Hcu]. }
  destruct (mget (rowKey child) (b_changed batch)) as [[pending|]|] eqn:E; [|done|];
    destruct (withReportedStatus _ _) as [next|] eqn:Hn; try (by split).
  - apply stage_sound; [|by split]. intros ? [= <-]. eapply withReported_marked; [exact Hn|].
    apply mget_elem in E. by eapply Hch.
  - apply stage_sound; [|by split]. intros ? [= <-]. by eapply withReported_marked.
Qed.

Lemma events_sound c events db : sound db -> sound (applyEventBatch c events db).
Proof.
  intros Hd. unfold applyEventBatch. case_match; [done|].
  set (current := byKey _).
  assert (Hcurrent : forall k row, mget k current = Some row -> marked row).
  { intros k row. apply byKey_marked. intros r. by apply loadRows_marked. }
  pose proof (stageEvents_sound c current events [] (db_overlay db)) as Hst.
  destruct (stageEvents c current events [] (db_overlay db)) as [[changed|] overlay]; [|by apply race_sound].
  assert (Hb : soundBatch (applyReportedSubagentStates c events (withRace (db_race db) overlay db)
                 {| b_admitted := []; b_changed := changed; b_current := current |})).
  { apply reported_sound; [by apply race_sound|]. split; [|done]. cbn [b_changed].
    apply Hst; [by intros ? ? ?%not_elem_of_nil|done|done]. }
  destruct (bool_decide (b_changed _ = [])); [by apply race_sound|]. apply commit_sound; [|by apply race_sound].
  assert (Hb' := activity_sound c (withRace (db_race db) overlay db) _ (proj2 (race_sound _ _ _) Hd) Hb).
  apply Forall_forall. intros change ([k v] & -> & Hin)%list_elem_of_fmap. cbn [fst snd].
  destruct v; [|done]. by eapply sb_changed.
Qed.

(** ** The other writes *)

Lemma put_sound isInsert value refill db : marked value -> sound db -> sound (commitChanges [SummaryPut isInsert value] refill db).
Proof. intros Hv. apply commit_sound. by apply Forall_singleton. Qed.

Lemma rewrite_sound c t next db :
  (forall previous row, (forall p, previous = Some p -> marked p) -> next previous = Some row -> marked row) ->
  sound db -> sound (rewrite c t next db).
Proof.
  intros Hn Hd. unfold rewrite. case_match; [done|]. destruct (next (loadRow c t db)) as [row|] eqn:E; [|done].
  assert (marked (normalizeStoredThreadSummary row)).
  { eapply marked_normal, Hn, E. intros p. by apply loadRow_marked. }
  destruct (loadRow c t db); by apply put_sound.
Qed.

Lemma rewrite_some_sound c t (f : Row -> Row) db :
  (forall row, marked row -> marked (f row)) -> sound db -> sound (rewrite c t (fun previous => f <$> previous) db).
Proof.
  intros Hf. apply rewrite_sound. intros previous row Hp (p & -> & ->)%fmap_Some. by apply Hf, Hp.
Qed.

Lemma clear_sound c t commandId db : sound db -> sound (clearDeleteCommand c t commandId db).
Proof.
  apply rewrite_sound. intros previous row Hp. destruct previous as [p|]; [|done]. cbn [mbind option_bind].
  case_bool_decide; [|done]. intros [= <-]. exact (Hp p eq_refl).
Qed.

Lemma marked_read row unread : marked row -> marked (readStateSummary row unread).
Proof. intros [Hs Hu Hf]. unfold readStateSummary. destruct unread; split; cbn; auto; done || lia. Qed.

Lemma readState_sound c t unread db : sound db -> sound (setReadState c t unread db).
Proof.
  intros Hd. unfold setReadState. case_match; [done|]. destruct (loadRow c t db) as [row|] eqn:E; [|done].
  case_match; [done|]. apply put_sound; [|done]. apply marked_read. by eapply loadRow_marked.
Qed.

Lemma delete_sound keys refill db : sound db -> sound (commitChanges (SummaryDelete <$> keys) refill db).
Proof. apply commit_sound, Forall_forall. by intros ? (k & -> & _)%list_elem_of_fmap. Qed.

Lemma remove_sound key db : sound db -> sound (remove key db).
Proof. intros. unfold remove. case_match; [done|]. by apply (delete_sound [key]). Qed.

Lemma removeRows_sound c rows db : sound db -> sound (removeRows c rows db).
Proof.
  intros. unfold removeRows. case_match; [done|].
  replace ((fun row => SummaryDelete (threadSummaryKey c (s_remoteThreadId row))) <$> rows)
    with (SummaryDelete <$> ((fun row => threadSummaryKey c (s_remoteThreadId row)) <$> rows))
    by (by rewrite <- list_fmap_compose).
  by apply delete_sound.
Qed.

Lemma deleteDelivery_sound delivery read db : sound db -> sound (applyDeleteDelivery delivery read db).
Proof.
  intros. unfold applyDeleteDelivery. repeat case_match; try done; [by apply clear_sound|by apply remove_sound].
Qed.

Lemma marked_answer digest row answer : marked row -> marked (projectQuestionAnswerDelivery digest row answer).
Proof. intros. unfold projectQuestionAnswerDelivery. by repeat case_match. Qed.

Lemma questionDelivery_sound digest delivery db : sound db -> sound (applyQuestionDelivery digest delivery db).
Proof.
  intros Hd. unfold applyQuestionDelivery. destruct (ad_threadId _) as [t|]; [|done]. destruct (_ || _); [done|].
  destruct (loadRow _ t db) as [row|] eqn:E; [|done]. destruct (bool_decide _); [done|]. apply put_sound; [|done].
  apply marked_answer. by eapply loadRow_marked.
Qed.

Lemma fold_sound {A} (f : SummaryDatabase -> A -> SummaryDatabase) l db :
  (forall db x, sound db -> sound (f db x)) -> sound db -> sound (foldl f db l).
Proof. intros Hf. revert db. induction l; [done|]. intros db Hd. cbn [foldl]. auto. Qed.

Lemma reconcile_sound digest deliveries db : sound db -> sound (reconcileCommands digest deliveries db).
Proof.
  intros Hd. unfold reconcileCommands. apply fold_sound; [intros; by apply questionDelivery_sound|].
  apply fold_sound; [|done]. clear Hd db. intros db row Hd. unfold reconcileDelete.
  repeat case_match; try done; first [by apply clear_sound|by apply deleteDelivery_sound].
Qed.

Lemma projectRead_sound c cwd db : sound db -> sound (markProjectRead c cwd db).
Proof.
  intros Hd. unfold markProjectRead. case_match; [done|].
  assert (H' : Forall soundChange ((fun row => SummaryPut false (withReadState None (s_latestActivityCursor row) 0 row))
                 <$> loadProjectUnread c cwd db)).
  { apply Forall_forall. intros ? (row & -> & _)%list_elem_of_fmap. split; cbn; auto. lia. }
  destruct (loadProjectUnread c cwd db); [done|]. by apply commit_sound.
Qed.

Lemma pins_sound c cursor ids db : sound db -> sound (applyPinSnapshot c cursor ids db).
Proof.
  intros Hd. unfold applyPinSnapshot. case_match; [done|]. apply commit_sound; [|done]. unfold pinChanges.
  apply Forall_forall. intros change (row & Hrow & Hc)%list_elem_of_omap. case_match; [done|].
  injection Hc as <-. exact (loadConnectionRows_marked c db row Hd Hrow).
Qed.

Lemma refresh_sound c root db : sound db -> sound (refreshActiveSubagents c root db).
Proof.
  intros Hd. unfold refreshActiveSubagents. case_match; [done|]. destruct (list_find _ _) as [[i row]|] eqn:E; [|done].
  apply list_find_Some in E as (Hi & _ & _). destruct (withActiveSubagents _ _) as [next|] eqn:Hw; [|done].
  apply withActiveSubagents_marked in Hw as [active ->].
  apply put_sound; [|done]. exact (loadConnectionRows_marked c db row Hd (list_elem_of_lookup_2 _ _ _ Hi)).
Qed.

(** *** Snapshots *)

Lemma writeRows_sound current removed changed db :
  (forall k row, (k, row) ∈ changed -> marked row) -> sound db -> sound (writeRows current removed changed db).
Proof.
  intros Hc Hd. unfold writeRows. case_match; [done|]. apply commit_sound; [|done]. apply Forall_app. split.
  - apply Forall_forall. by intros ? (k & -> & _)%list_elem_of_fmap.
  - apply Forall_forall. intros ? ([k row] & -> & Hin)%list_elem_of_fmap. by eapply Hc.
Qed.

Lemma snapshotRows_marked c live through current snapshots next keys next' keys' :
  (forall k row, mget k current = Some row -> marked row) -> (forall k row, (k, row) ∈ next -> marked row) ->
  snapshotRows c live through current snapshots next keys = Some (next', keys') ->
  forall k row, (k, row) ∈ next' -> marked row.
Proof.
  intros Hc. revert next keys. induction snapshots as [|snapshot snapshots IH]; intros next keys Hn.
  { by intros [= <- <-]. }
  cbn [snapshotRows]. set (key := threadSummaryKey c (snapshotId snapshot)).
  assert (Hset : forall row, marked row -> forall k r, (k, r) ∈ mset key row next -> marked r).
  { intros row Hr k r [[= _ ->]|Hin]%elem_mset; [done|]. by eapply Hn. }
  assert (Hsnap : marked (projectThreadSummarySnapshot c (st_thread snapshot) (st_archived snapshot) (mget key current))).
  { apply marked_snapshot. intros p. apply Hc. }
  destruct (mget key current) as [p|] eqn:E.
  - destruct (newerThanRead through p); [apply IH, Hset; by eapply Hc|].
    destruct (isCatalogExcluded _) as [[]|]; [by apply IH|apply IH, Hset|done]. by destruct live.
  - destruct (isCatalogExcluded _) as [[]|]; [by apply IH|by apply IH, Hset|done].
Qed.

Lemma replace_sound c snapshots missing live through db db' :
  sound db -> replaceSnapshotRows c snapshots missing live through db = Some db' -> sound db'.
Proof.
  intros Hd. unfold replaceSnapshotRows. case_match; [by intros [= <-]|].
  destruct (snapshotRows _ _ _ _ _ _ _) as [[next keys]|] eqn:E; [|done]. intros [= <-].
  apply writeRows_sound; [|done]. intros k row [_ Hin]%list_elem_of_filter. revert Hin.
  eapply snapshotRows_marked; [|by intros ? ? ?%not_elem_of_nil|exact E].
  intros k' r. apply byKey_marked. intros r'. by apply loadConnectionRows_marked.
Qed.

Lemma marked_turnAttention thread row : marked row -> marked (threadSummaryTurnAttention thread row).
Proof. unfold threadSummaryTurnAttention. by destruct (last (turnsOf thread)). Qed.

Lemma mergedRows_marked c through current snapshots changed removed changed' removed' :
  (forall k row, mget k current = Some row -> marked row) -> (forall k row, (k, row) ∈ changed -> marked row) ->
  mergedRows c through current snapshots changed removed = Some (changed', removed') ->
  forall k row, (k, row) ∈ changed' -> marked row.
Proof.
  intros Hc. revert changed removed. induction snapshots as [|snapshot snapshots IH]; intros changed removed Hn.
  { by intros [= <- <-]. }
  cbn [mergedRows]. set (key := threadSummaryKey c (snapshotId snapshot)).
  assert (Hset : forall row, marked row -> forall k r, (k, r) ∈ mset key row changed -> marked r).
  { intros row Hr k r [[= _ ->]|Hin]%elem_mset; [done|]. by eapply Hn. }
  destruct (isCatalogExcluded _) as [[]|]; [by apply IH| |done].
  destruct (mget key current) as [p|] eqn:E.
  - destruct (newerThanRead through p); [by apply IH|]. case_match; [|by apply IH].
    apply IH, Hset. apply marked_turnAttention. by eapply Hc.
  - case_match; [|by apply IH]. apply IH, Hset. by apply marked_snapshot.
Qed.

Lemma merge_sound c snapshots through db db' :
  sound db -> mergeSnapshots c snapshots through db = Some db' -> sound db'.
Proof.
  intros Hd. unfold mergeSnapshots. case_match; [by intros [= <-]|].
  destruct (mergedRows _ _ _ _ _ _) as [[changed removed]|] eqn:E; [|done]. intros [= <-].
  apply writeRows_sound; [|done].
  eapply mergedRows_marked; [|by intros ? ? ?%not_elem_of_nil|exact E].
  intros k' r. apply byKey_marked. intros r'. by apply loadRows_marked.
Qed.

(** ** Every write *)

Inductive Write :=
| ServerRowsWrite (connectionId : jstr) (generation : Z) (frame : ThreadListRowsFrame) (race : Sessions)
| CatalogPageWrite (request : HeadRequest) (page : ThreadCatalogPageRows) (replaceHead : bool) (race : Sessions)
| SnapshotWrite (connectionId : jstr) (threads : list json) (cursor : Z)
| EventsWrite (connectionId : jstr) (events : list JournalEvent)
| ReadStateWrite (connectionId threadId : jstr) (unread : bool)
| BeginDeleteWrite (connectionId threadId commandId : jstr)
| RollbackDeleteWrite (connectionId threadId commandId : jstr)
| ArchivedWrite (connectionId threadId : jstr) (archived : bool)
| NameWrite (connectionId threadId name : jstr)
| StartedWrite (connectionId : jstr) (thread : json)
| SkipWrite (connectionId threadId turnId itemId : jstr)
| DeliveryWrite (delivery : CommandDelivery) (read : SummaryDatabase)
| ReconcileWrite (deliveries : list CommandDelivery)
| ConnectionWrite (connectionId : jstr)
| EntriesWrite (connectionId : jstr) (threadIds : list jstr)
| ProjectReadWrite (connectionId projectCwd : jstr)
| PinsWrite (connectionId : jstr) (cursor : Z) (threadIds : list jstr)
| CatalogWrite (connectionId : jstr) (snapshots : list SnapshotThread)
| SubagentCatalogWrite (connectionId rootThreadId : jstr) (snapshots : list SnapshotThread)
| MergeWrite (connectionId : jstr) (snapshots : list SnapshotThread) (throughCursor : option Z)
| RaceMoves (race : Sessions).

Section writes.
Variables (keyOrder : jstr -> jstr -> Z) (digest : jstr -> jstr).

Definition perform (db : SummaryDatabase) (write : Write) : SummaryDatabase :=
  match write with
  | ServerRowsWrite c generation frame race => applyServerRows c generation frame race db
  | CatalogPageWrite request page replaceHead race => applyCatalogPage keyOrder request page replaceHead race db
  | SnapshotWrite c threads cursor => applySnapshot c threads cursor db
  | EventsWrite c events => applyEventBatch c events db
  | ReadStateWrite c t unread => setReadState c t unread db
  | BeginDeleteWrite c t commandId => beginDelete c t commandId db
  | RollbackDeleteWrite c t commandId => rollbackDelete c t commandId db
  | ArchivedWrite c t archived => updateArchived c t archived db
  | NameWrite c t name => updateName c t name db
  | StartedWrite c thread => default db (insertStartedThread c thread db)
  | SkipWrite c t turnId itemId => default db (skipQuestion c t turnId itemId db)
  | DeliveryWrite delivery read => applyCommandDelivery digest delivery read db
  | ReconcileWrite deliveries => reconcileCommands digest deliveries db
  | ConnectionWrite c => deleteConnection c db
  | EntriesWrite c threadIds => removeCatalogEntries c threadIds db
  | ProjectReadWrite c projectCwd => markProjectRead c projectCwd db
  | PinsWrite c cursor threadIds => applyPinSnapshot c cursor threadIds db
  | CatalogWrite c snapshots => default db (replaceCatalog c snapshots db)
  | SubagentCatalogWrite c root snapshots => default db (replaceSubagentCatalog c root snapshots db)
  | MergeWrite c snapshots throughCursor => default db (mergeSnapshots c snapshots throughCursor db)
  | RaceMoves race => withRace race (db_overlay db) db
  end.

Definition emptyDatabase : SummaryDatabase :=
  {| db_disposed := false; db_notices := []; db_overlay := []; db_published := []; db_race := [];
     db_reads := []; db_rows := [] |}.

Lemma skip_sound c t turnId itemId db db' : sound db -> skipQuestion c t turnId itemId db = Some db' -> sound db'.
Proof.
  intros Hd. unfold skipQuestion. case_match; [done|]. destruct (loadRow c t db) as [row|] eqn:E; [|done].
  cbn [mbind option_bind]. destruct (shas _ _); intros [= <-]; [done|]. apply put_sound; [|done].
  exact (loadRow_marked c t db row Hd E).
Qed.

Lemma started_sound c thread db db' : sound db -> insertStartedThread c thread db = Some db' -> sound db'.
Proof.
  intros Hd. unfold insertStartedThread. destruct (isCatalogExcluded thread) as [[]|]; [| |done]; intros [= <-].
  - by apply remove_sound.
  - apply rewrite_sound; [|done]. intros previous row Hp.
    destruct (projectThreadSummaryEvent _ _ _ _) as [mutation|] eqn:E; [|done]. cbn [mbind option_bind].
    intros Hv. eapply marked_event; [|exact E|exact Hv]. intros t0 p. apply Hp.
Qed.

Lemma subagents_sound c root snapshots db db' :
  sound db -> replaceSubagentCatalog c root snapshots db = Some db' -> sound db'.
Proof.
  intros Hd (stored & Hs & ->)%fmap_Some. apply refresh_sound. by eapply replace_sound.
Qed.

Lemma default_sound db (result : option SummaryDatabase) :
  sound db -> (forall db', result = Some db' -> sound db') -> sound (default db result).
Proof. intros Hd H. destruct result as [db'|]; [by apply H|done]. Qed.

Lemma perform_sound db write : sound db -> sound (perform db write).
Proof.
  intros Hd. destruct write; cbn [perform].
  - by apply serverRows_sound.
  - by apply catalogPage_sound.
  - by apply snapshot_sound.
  - by apply events_sound.
  - by apply readState_sound.
  - by apply rewrite_some_sound.
  - by apply clear_sound.
  - by apply rewrite_some_sound.
  - by apply rewrite_some_sound.
  - apply default_sound; [done|]. intros. by eapply started_sound.
  - apply default_sound; [done|]. intros. by eapply skip_sound.
  - by apply questionDelivery_sound, deleteDelivery_sound.
  - by apply reconcile_sound.
  - by apply removeRows_sound, race_sound.
  - unfold removeCatalogEntries. case_match; [done|]. by apply removeRows_sound.
  - by apply projectRead_sound.
  - by apply pins_sound.
  - apply default_sound; [done|]. intros. by eapply replace_sound.
  - apply default_sound; [done|]. intros. by eapply subagents_sound.
  - apply default_sound; [done|]. intros. by eapply merge_sound.
  - by apply race_sound.
Qed.

(** C18. Whatever writes reached the database, every row is filed under its own
    key, has seen no more than happened in its thread, is read or unread, and
    remembers where its unread part begins only while it is unread. *)
Theorem rows_stay_sound writes key row :
  mget key (db_rows (foldl perform emptyDatabase writes)) = Some row ->
  key = rowKey row /\ s_lastSeenCursor row <= s_latestActivityCursor row
  /\ (s_unread row = 0 \/ s_unread row = 1) /\ (s_unread row = 0 -> s_firstUnreadAgentTurnId row = None).
Proof.
  intros Hrow%mget_elem.
  assert (Hd : sound emptyDatabase).
  { split; [split; [apply NoDup_nil_2|intros k r H]|intros r H]; cbn in H; by apply elem_of_nil in H. }
  destruct (fold_sound perform writes emptyDatabase perform_sound Hd) as [[Hwf Hk] Hm].
  destruct (Hm row (in_mvals _ _ _ Hrow)) as [Hs Hu Hf]. by specialize (Hk _ _ Hrow).
Qed.
End writes.

(** ** An unread thread *)

Lemma rows_stay_sound_witness :
  let answer := [("codewideThreadPatch",
     JObj [("version", JNum (NInt 1)); ("threadId", JStr (js "t"));
           ("operation",
             JObj [("kind", JStr (js "turnCompleted")); ("turn", JObj [("id", JStr (js "one"))]);
                   ("summary", JObj [("activity", JBool true); ("finalAgentResponse", JBool true)])])])] in
  let thread := JObj [("id", JStr (js "t")); ("updatedAt", JNum (NInt 5))] in
  let writes := [MergeWrite (js "c") [{| st_archived := false; st_thread := thread |}] (Some 2);
                 EventsWrite (js "c") [{| ev_payload := answer; ev_cursor := 4 |}]] in
  exists row, mget (threadSummaryKey (js "c") (js "t"))
                (db_rows (foldl (perform (fun _ _ => 0) id) emptyDatabase writes)) = Some row
    /\ s_firstUnreadAgentTurnId row = Some (js "one") /\ rowKey row = threadSummaryKey (js "c") (js "t")
    /\ s_lastSeenCursor row <= s_latestActivityCursor row.
Proof.
  intros answer thread writes. eexists. split; [vm_compute; reflexivity|]. split; [reflexivity|].
  edestruct (rows_stay_sound (fun _ _ => 0) id writes (threadSummaryKey (js "c") (js "t"))) as (Hkey & Hseen & _);
    [vm_compute; reflexivity|]. split; [symmetry; exact Hkey|exact Hseen].
Defined.
