(* ===== verification/SummaryPages.v ===== *)
(** * What a page of the catalogue may remove

    The first page of a window replaces its cached head: [page_evicts_stale]
    gives every condition under which a stored row disappears that the page
    does not list. *)
From S2P Require Import Prelude JsMap Json ThreadItems EventIndex ThreadEvents CursorSync ListStream SummaryTypes.
From S2P Require Import SummaryProjection SummaryTree SummaryView SummaryRows SummaryOrder SummaryOps SummaryLaws.

Local Open Scope nat_scope.

Lemma key_inj c t u : threadSummaryKey c t = threadSummaryKey c u -> t = u.
Proof. unfold threadSummaryKey. by intros H%app_inv_head%app_inv_head. Qed.

(** ** What staging deletes *)

Definition deletes (batch : RowBatch) (keys : list jstr) : Prop :=
  forall k, (k, None) ∈ b_changed batch -> k ∈ keys.

Lemma stage_deletes key row batch keys :
  deletes batch keys -> (row = None -> key ∈ keys) -> deletes (stageChange key row batch) keys.
Proof. intros Hb Hr k [[= -> Hv]|Hin]%elem_mset; [by apply Hr|by apply Hb]. Qed.

Lemma stageRow_deletes c row batch db keys batch' :
  deletes batch keys -> threadSummaryKey c (row_threadId row) ∈ keys ->
  (stageRow c row batch db).1 = Some batch' -> deletes batch' keys.
Proof.
  intros Hb Hk. unfold stageRow. destruct (admitRow c _ _ _) as [race []]; cbn [negb]; [|by intros [= <-]].
  destruct (isCatalogExcluded _) as [[]|]; [intros [= <-]; by apply stage_deletes| |done].
  destruct (mget _ (b_current batch)); intros [= <-]; by apply stage_deletes.
Qed.

Lemma stageRows_deletes c rows batch db keys batch' :
  deletes batch keys -> (forall row, row ∈ rows -> threadSummaryKey c (row_threadId row) ∈ keys) ->
  (stageRows c rows batch db).1 = Some batch' -> deletes batch' keys.
Proof.
  revert batch db. induction rows as [|row rows IH]; intros batch db Hb Hk; [by intros [= <-]|]. cbn [stageRows].
  pose proof (fun b => stageRow_deletes c row batch db keys b Hb (Hk row ltac:(by left))) as Hrow.
  destruct (stageRow c row batch db) as [[b|] db']; [|done]. apply IH; [by apply Hrow|]. intros. apply Hk. by right.
Qed.

Lemma activity_deletes c db batch keys : deletes batch keys -> deletes (applySubagentActivity c db batch) keys.
Proof.
  intros Hb. unfold applySubagentActivity. destruct (changedChildren batch) as [|child children]; [done|].
  generalize (rootsWithChangedSubagentActivity (child :: children) (stagedRows (loadConnectionRows c db) (b_changed batch))).
  intros roots. revert batch Hb. induction roots as [|root roots IH]; [done|]. intros batch Hb. cbn [foldl].
  apply IH. by apply stage_deletes.
Qed.

Lemma applyChanges_keep key changes rows :
  SummaryDelete key ∉ changes -> is_Some (mget key rows) -> is_Some (mget key (foldl applyChange rows changes)).
Proof.
  revert rows. induction changes as [|change changes IH]; [done|]. intros rows [Hne Hk]%not_elem_of_cons Hr.
  cbn [foldl]. apply IH; [done|]. destruct change as [isInsert value|k]; cbn [applyChange].
  - rewrite mget_mset. by case_bool_decide.
  - rewrite mget_mdel. case_bool_decide; [|done]. congruence.
Qed.

(** A row the transaction does not name as deleted stays. *)
Lemma commitBatch_keeps c batch extra db key keys :
  deletes batch keys -> key ∉ keys -> key ∉ extra ->
  is_Some (mget key (db_rows db)) -> is_Some (mget key (db_rows (commitBatch c batch (SummaryDelete <$> extra) db))).
Proof.
  intros Hb Hk He Hr. unfold commitBatch. case_bool_decide; [done|]. apply applyChanges_keep; [|done].
  intros [Hin|Hin]%elem_of_app.
  - by apply list_elem_of_fmap in Hin as (k & [= <-] & Hin).
  - apply list_elem_of_omap in Hin as ([k v] & Hin & Hv). cbn [fst snd] in Hv. apply Hk.
    destruct v; repeat case_match; simplify_eq. by apply (activity_deletes c db batch keys Hb).
Qed.

(** ** What the first page evicts *)

Lemma shown_included order rows p request row :
  row ∈ projectPartition order rows p request -> row ∈ rows /\ includesRow p row request = true.
Proof.
  unfold projectPartition. intros Hin.
  assert (Hr : row ∈ filter (fun row => includesRow p row request = true) rows).
  { destruct (limitFor p request) as [n|]; cbn [truncate] in Hin;
      [apply elem_of_take in Hin as (i & Hin & _); apply list_elem_of_lookup_2 in Hin|];
      (case_bool_decide; [done|]; by rewrite sortBy_perm in Hin). }
  apply list_elem_of_filter in Hr as [? ?]. done.
Qed.

Lemma eviction_row order request db key :
  keyed (db_rows db) -> key ∈ staleHeadEvictions order request db ->
  exists row, loadRow (hr_connectionId request) (s_remoteThreadId row) db = Some row
    /\ key = threadSummaryKey (hr_connectionId request) (s_remoteThreadId row)
    /\ evictableFromHead row (hr_prefixIds request) (hr_changed request) = true.
Proof.
  intros Hk (row & Hin & Hev)%list_elem_of_omap.
  destruct (evictableFromHead row _ _) eqn:E; [|done]. injection Hev as <-. exists row. split; [|done].
  assert (H : row ∈ loadAll db /\ s_connectionId row = hr_connectionId request).
  { destruct (hr_archived request); apply shown_included in Hin as [Hrow Hinc]; (split; [done|]); revert Hinc;
      cbn; case_bool_decide; try done; cbn; repeat case_bool_decide; done. }
  destruct H as [(stored & -> & Hs)%list_elem_of_fmap Hc]. cbn in Hc. apply (keyed_mem _ _ Hk) in Hs.
  unfold loadRow. rewrite <- Hc. unfold rowKey in Hs. cbn. by rewrite Hs.
Qed.

Lemma stageRows_rows c rows batch db : db_rows (stageRows c rows batch db).2 = db_rows db.
Proof.
  revert batch db. induction rows as [|row rows IH]; [done|]. intros batch db. cbn [stageRows].
  assert (H : db_rows (stageRow c row batch db).2 = db_rows db).
  { unfold stageRow. destruct (admitRow c _ _ _) as [race []]; cbn [negb]; [|done].
    destruct (isCatalogExcluded _) as [[]|]; [done| |done]. by destruct (mget _ (b_current batch)). }
  destruct (stageRow c row batch db) as [[b|] db']; [|done]. by rewrite IH.
Qed.

Lemma evictable_row row prefixIds changed : evictableFromHead row prefixIds changed = true ->
  s_pinned row = false /\ s_unread row = 0%Z /\ s_deleteCommandId row = None /\ isActive (s_status row) = false
  /\ s_pendingRequestCount row = 0%Z /\ (s_remoteThreadId row ∉ prefixIds) /\ (s_remoteThreadId row ∉ changed).
Proof.
  unfold evictableFromHead, catalogHeadEvictable, shas. intros H. repeat rewrite andb_true_iff in H. destruct_and!.
  repeat match goal with
         | H : negb _ = true |- _ => apply negb_true_iff in H
         | H : bool_decide _ = true |- _ => apply bool_decide_eq_true in H
         | H : bool_decide _ = false |- _ => apply bool_decide_eq_false in H
         | H : (_ =? _)%Z = true |- _ => apply Z.eqb_eq in H
         end. done.
Qed.

(** A page of the catalogue may make a stored thread disappear that it does
    not list, but only while it replaces the head of a window and only a thread
    that is read, not pinned, not being deleted, without a running turn or an
    open request, outside the window's ids and unchanged since the read began. *)
Theorem page_evicts_stale order request page replaceHead race db threadId row :
  let connectionId := hr_connectionId request in
  keyed (db_rows db) -> loadRow connectionId threadId db = Some row ->
  threadId ∉ row_threadId <$> page_rows page ->
  loadRow connectionId threadId (applyCatalogPage order request page replaceHead race db) = None ->
  replaceHead = true /\ s_pinned row = false /\ s_unread row = 0%Z /\ s_deleteCommandId row = None
  /\ isActive (s_status row) = false /\ s_pendingRequestCount row = 0%Z
  /\ (threadId ∉ hr_prefixIds request) /\ (threadId ∉ hr_changed request).
Proof.
  intros c Hk Hrow Hnot. unfold applyCatalogPage. fold c. destruct (_ || _); [by rewrite Hrow|].
  set (keys := (fun r => threadSummaryKey c (row_threadId r)) <$> page_rows page).
  pose proof (stageRows_deletes c (page_rows page) (emptyBatch (loadRows c (row_threadId <$> page_rows page) db)) db keys)
    as Hdel.
  pose proof (stageRows_rows c (page_rows page) (emptyBatch (loadRows c (row_threadId <$> page_rows page) db)) db) as Hsame.
  destruct (stageRows _ _ _ _) as [[batch|] db']; cbn [fst snd] in *.
  2: { unfold loadRow in *. rewrite Hsame, Hrow. by intros [=]. }
  assert (Hd : deletes batch keys).
  { apply Hdel; [by intros k ?%not_elem_of_nil| |done]. intros r Hr. apply list_elem_of_fmap. by exists r. }
  set (evictions := if replaceHead then staleHeadEvictions order request db else []).
  set (extra := filter _ evictions). intros Hgone.
  assert (Hin : threadSummaryKey c threadId ∈ extra).
  { destruct (decide (threadSummaryKey c threadId ∈ extra)) as [|Hout]; [done|]. exfalso.
    assert (Hstored : is_Some (mget (threadSummaryKey c threadId) (db_rows db'))).
    { rewrite Hsame. unfold loadRow in Hrow. apply fmap_Some in Hrow as (? & -> & _). by eexists. }
    apply (commitBatch_keeps c batch extra db' _ keys Hd) in Hstored as [stored Hstored]; [| |done].
    - unfold loadRow in Hgone. cbn [notify db_rows] in Hgone. by rewrite Hstored in Hgone.
    - intros (r & Heq%key_inj & Hr)%list_elem_of_fmap. apply Hnot, list_elem_of_fmap. by exists r. }
  apply list_elem_of_filter in Hin as [_ Hin]. unfold evictions in Hin. destruct replaceHead; [|set_solver].
  apply eviction_row in Hin as (row' & Hrow' & Heq%key_inj & Hev); [|done]. fold c in Hrow'.
  rewrite <- Heq, Hrow in Hrow'. injection Hrow' as <-. split; [done|]. rewrite Heq. by apply evictable_row.
Qed.

(** ** A page that replaces the head *)

Definition demo_page : ThreadListRow :=
  {| meta := {| row_archived := false; row_cursor := 9; row_liveActivity := None |};
     row_thread := JObj [("id", JStr (js "new")); ("preview", JStr (js "later")); ("updatedAt", JNum (NInt 8))];
     row_threadId := js "new" |}.

Definition demo_stale : SummaryDatabase :=
  arrive (js "c") 1 demo_database (RowArrives (demo_listed 3 "earlier")).

Lemma page_evicts_stale_witness :
  let request := {| hr_archived := false; hr_connectionId := js "c"; hr_prefixIds := [js "new"];
                    hr_projectCwd := None; hr_changed := [] |} in
  let page := {| page_generation := Some 1%Z; page_rows := [demo_page] |} in
  let after := applyCatalogPage (fun _ _ => 0%Z) request page true (db_race demo_stale) demo_stale in
  loadRow (js "c") (js "t") after = None /\ (s_preview <$> loadRow (js "c") (js "new") after) = Some (js "later")
  /\ exists row, loadRow (js "c") (js "t") demo_stale = Some row /\ s_unread row = 0%Z /\ s_pinned row = false.
Proof.
  intros request page after. split; [vm_compute; reflexivity|]. split; [vm_compute; reflexivity|].
  eexists. split; [vm_compute; reflexivity|].
  edestruct (page_evicts_stale (fun _ _ => 0%Z) request page true (db_race demo_stale) demo_stale (js "t"))
    as (_ & Hp & Hu & _); [|vm_compute; reflexivity| |vm_compute; reflexivity|split; [exact Hu|exact Hp]].
  - split; [apply (bool_decide_unpack _); vm_compute; reflexivity|].
    intros k row Hin. apply list_elem_of_singleton in Hin. injection Hin as -> ->. reflexivity.
  - apply (bool_decide_unpack _). vm_compute. reflexivity.
Defined.

(** ** Two losses *)

(** A bounded read that seeds the row keeps the events waiting for it from being
    replayed: the answer at cursor 3, newer than the read, leaves no mark. *)
Theorem seeded_row_loses_events :
  let waiting := foldl (arrive (js "c") 1) demo_database [EventsArrive [demo_answer "one" 3]] in
  let thread := JObj [("id", JStr (js "t")); ("preview", JStr (js "first")); ("updatedAt", JNum (NInt 5))] in
  let read := default waiting
    (mergeSnapshots (js "c") [{| st_archived := false; st_thread := thread |}] (Some 2%Z) waiting) in
  let listed db := arrive (js "c") 1 db (RowArrives (demo_listed 7 "first")) in
  (s_unread <$> loadRow (js "c") (js "t") (listed waiting)) = Some 1%Z
  /\ (s_unread <$> loadRow (js "c") (js "t") (listed read)) = Some 0%Z
  /\ length (heldEvents (js "c") (js "t") (db_overlay (listed read))) = 1.
Proof. vm_compute. repeat split. Qed.

Definition demo_child : ThreadListRow :=
  {| meta := {| row_archived := false; row_cursor := 4; row_liveActivity := None |};
     row_thread := JObj [("id", JStr (js "child")); ("parentThreadId", JStr (js "t"));
                         ("preview", JStr []); ("updatedAt", JNum (NInt 5));
                         ("status", JObj [("type", JStr (js "active"))])];
     row_threadId := js "child" |}.

(** A running sub-agent that is removed leaves its root marked as having one. *)
Theorem removed_child_leaves_root_active :
  let db := arrive (js "c") 1 demo_stale (RowArrives demo_child) in
  let frame := {| rows := []; removed := [{| tomb_cursor := 5; tomb_threadId := js "child" |}] |} in
  let after := applyServerRows (js "c") 1 frame (db_race db) db in
  (s_activeSubagents <$> loadRow (js "c") (js "t") db) = Some (Some true)
  /\ loadRow (js "c") (js "child") after = None
  /\ (s_activeSubagents <$> loadRow (js "c") (js "t") after) = Some (Some true)
  /\ threadSummaryDescendants (loadConnectionRows (js "c") after) (js "t") = [].
Proof. vm_compute. repeat split. Qed.
