(* ===== verification/SummaryModel.v ===== *)
(** * The resident views of the thread list

    Models apps/android/src/data/thread-summary-model.ts: the snapshot of every
    view, the requests and generations it is read under, the resources that
    suspend their readers and retry in the background, and the changes kept
    until a read that may have missed them is committed.  Module [Reading] puts
    the model beside the store it is read from (thread-summary-database.native.ts,
    [loadView] and [publishModelChanges]): writes, publications, reads and timers
    in any order.

    A promise or a timer is an entry that a later event settles; its identity and
    that of a resource record is a number drawn from [m_next].  A snapshot holds
    its rows by value, so [replaceEqualDeep] is its second argument and a changed
    array is one that differs. *)
From S2P Require Import Prelude JsMap Json Ranking SummaryTypes SummaryProjection SummaryView.

Local Open Scope nat_scope.

#[export] Instance LoadedThreadSummaryView_eq_dec : EqDecision LoadedThreadSummaryView.
Proof. solve_decision. Defined.

Inductive ViewPhase := ViewIdle | ViewLoading | ViewReady | ViewError.

#[export] Instance ViewPhase_eq_dec : EqDecision ViewPhase.
Proof. solve_decision. Defined.

Record ThreadSummaryViewSnapshot :=
  { sn_content : LoadedThreadSummaryView; sn_error : option jstr; sn_phase : ViewPhase;
    sn_requestKey : option jstr; sn_revision : nat }.

Record ThreadSummaryResourceRecord :=
  { rs_id : nat; rs_generation : nat; rs_hasReadySnapshot : bool; rs_initialFailed : bool;
    rs_loadingRevision : option jstr; rs_pendingChanges : list SummaryChange;
    rs_ready : option nat; rs_requestRevision : jstr; rs_retryAttempt : nat; rs_retryTimer : option nat }.

(** What a load has captured: a promise ([ld_id]) with the request, the
    generation and whether its reader is suspended on it. *)
Record SummaryLoad :=
  { ld_id : nat; ld_request : ThreadSummaryViewRequest; ld_generation : nat; ld_initial : bool }.

(** A retry that waits: its handle and what its callback has captured. *)
Record RetryTimer :=
  { tm_id : nat; tm_record : nat; tm_request : ThreadSummaryViewRequest; tm_delay : N }.

Record ThreadSummaryModel :=
  { m_views : list (jstr * ThreadSummaryViewSnapshot); m_requests : list (jstr * ThreadSummaryViewRequest);
    m_generations : list (jstr * nat); m_retainCounts : list (jstr * nat);
    m_resources : list (jstr * ThreadSummaryResourceRecord);
    m_refreshChanges : list (jstr * (list SummaryChange * nat));
    m_timers : list RetryTimer; m_next : nat; m_closed : bool }.

Definition createThreadSummaryModel : ThreadSummaryModel :=
  {| m_views := []; m_requests := []; m_generations := []; m_retainCounts := []; m_resources := [];
     m_refreshChanges := []; m_timers := []; m_next := 0; m_closed := false |}.

Definition emptyView : LoadedThreadSummaryView :=
  {| v_archived := []; v_pinned := []; v_recent := []; v_selected := []; v_subagents := [] |}.

Definition emptyThreadSummaryView : ThreadSummaryViewSnapshot :=
  {| sn_content := emptyView; sn_error := None; sn_phase := ViewIdle; sn_requestKey := None; sn_revision := 0 |}.

Definition threadSummaryViewKey (request : ThreadSummaryViewRequest) : jstr :=
  default (js "default") (vr_viewId request) ++ NUL ++ default (js "*") (vr_connectionId request).

Definition threadSummaryViewRequestKey (request : ThreadSummaryViewRequest) : jstr :=
  join NUL
    [default (js "default") (vr_viewId request); default (js "*") (vr_connectionId request);
     default [] (vr_projectCwd request); printZ (Z.of_nat (vr_recentLimit request));
     printZ (Z.of_nat (vr_archivedLimit request)); default [] (vr_selectedConnectionId request);
     default [] (vr_selectedThreadId request); default [] (vr_subagentConnectionId request);
     printZ (Z.of_nat (vr_subagentLimit request))].

Definition hasSummaryRows (view : LoadedThreadSummaryView) : bool :=
  0 <? length (v_pinned view) + length (v_recent view) + length (v_archived view)
       + length (v_selected view) + length (v_subagents view).

Definition summaryRows (view : LoadedThreadSummaryView) : list StoredThreadSummary := mvals (residentRows view).

Definition summaryViewSatisfiesSelection (view : LoadedThreadSummaryView) (request : ThreadSummaryViewRequest) : bool :=
  match vr_selectedConnectionId request, vr_selectedThreadId request with
  | Some c, Some t =>
      existsb (fun row => bool_decide (s_connectionId row = c) && bool_decide (s_remoteThreadId row = t))
        (summaryRows view)
  | _, _ => true
  end.

Definition summaryViewSatisfiesVisiblePartition (previous : option ThreadSummaryViewRequest)
    (next : ThreadSummaryViewRequest) : bool :=
  let none limit := match previous with Some request => limit request =? 0 | None => true end in
  negb ((0 <? vr_recentLimit next) && none vr_recentLimit
        || (0 <? vr_archivedLimit next) && none vr_archivedLimit).

(** ** Setters *)

Definition setViews (views : list (jstr * ThreadSummaryViewSnapshot)) (m : ThreadSummaryModel) : ThreadSummaryModel :=
  {| m_views := views; m_requests := m_requests m; m_generations := m_generations m;
     m_retainCounts := m_retainCounts m; m_resources := m_resources m;
     m_refreshChanges := m_refreshChanges m; m_timers := m_timers m; m_next := m_next m; m_closed := m_closed m |}.

Definition setResources (resources : list (jstr * ThreadSummaryResourceRecord)) (m : ThreadSummaryModel) : ThreadSummaryModel :=
  {| m_views := m_views m; m_requests := m_requests m; m_generations := m_generations m;
     m_retainCounts := m_retainCounts m; m_resources := resources;
     m_refreshChanges := m_refreshChanges m; m_timers := m_timers m; m_next := m_next m; m_closed := m_closed m |}.

Definition setRefreshChanges (changes : list (jstr * (list SummaryChange * nat))) (m : ThreadSummaryModel) : ThreadSummaryModel :=
  {| m_views := m_views m; m_requests := m_requests m; m_generations := m_generations m;
     m_retainCounts := m_retainCounts m; m_resources := m_resources m;
     m_refreshChanges := changes; m_timers := m_timers m; m_next := m_next m; m_closed := m_closed m |}.

Definition setRetainCounts (counts : list (jstr * nat)) (m : ThreadSummaryModel) : ThreadSummaryModel :=
  {| m_views := m_views m; m_requests := m_requests m; m_generations := m_generations m;
     m_retainCounts := counts; m_resources := m_resources m;
     m_refreshChanges := m_refreshChanges m; m_timers := m_timers m; m_next := m_next m; m_closed := m_closed m |}.

Definition setTimers (timers : list RetryTimer) (m : ThreadSummaryModel) : ThreadSummaryModel :=
  {| m_views := m_views m; m_requests := m_requests m; m_generations := m_generations m;
     m_retainCounts := m_retainCounts m; m_resources := m_resources m;
     m_refreshChanges := m_refreshChanges m; m_timers := timers; m_next := m_next m; m_closed := m_closed m |}.

(** A number nothing else has. *)
Definition fresh (m : ThreadSummaryModel) : ThreadSummaryModel :=
  {| m_views := m_views m; m_requests := m_requests m; m_generations := m_generations m;
     m_retainCounts := m_retainCounts m; m_resources := m_resources m;
     m_refreshChanges := m_refreshChanges m; m_timers := m_timers m; m_next := S (m_next m); m_closed := m_closed m |}.

(** [generations.set(key, generation)] and [requests.set(key, request)]. *)
Definition requestAs (key : jstr) (generation : nat) (request : ThreadSummaryViewRequest)
    (m : ThreadSummaryModel) : ThreadSummaryModel :=
  {| m_views := m_views m; m_requests := mset key request (m_requests m);
     m_generations := mset key generation (m_generations m);
     m_retainCounts := m_retainCounts m; m_resources := m_resources m;
     m_refreshChanges := m_refreshChanges m; m_timers := m_timers m; m_next := m_next m; m_closed := m_closed m |}.

(** ** Operations *)

Definition generationOf (key : jstr) (m : ThreadSummaryModel) : nat := default 0 (mget key (m_generations m)).

Definition activeRequests (m : ThreadSummaryModel) : list ThreadSummaryViewRequest := mvals (m_requests m).

(** The snapshot [view$] gives: a new view is empty. *)
Definition snapshotAt (key : jstr) (m : ThreadSummaryModel) : ThreadSummaryViewSnapshot :=
  default emptyThreadSummaryView (mget key (m_views m)).

Definition setSnapshot (key : jstr) (snapshot : ThreadSummaryViewSnapshot) (m : ThreadSummaryModel) : ThreadSummaryModel :=
  setViews (mset key snapshot (m_views m)) m.

(** [view$(request)], which creates the view it does not find. *)
Definition openView (key : jstr) (m : ThreadSummaryModel) : ThreadSummaryModel :=
  setSnapshot key (snapshotAt key m) m.

Definition setRecord (key : jstr) (record : ThreadSummaryResourceRecord) (m : ThreadSummaryModel) : ThreadSummaryModel :=
  setResources (mset key record (m_resources m)) m.

Definition clearTimeout (handle : option nat) (m : ThreadSummaryModel) : ThreadSummaryModel :=
  match handle with
  | None => m
  | Some handle => setTimers (filter (fun t => tm_id t <> handle) (m_timers m)) m
  end.

Definition evict (key : jstr) (m : ThreadSummaryModel) : ThreadSummaryModel :=
  let m := clearTimeout (mget key (m_resources m) ≫= rs_retryTimer) m in
  {| m_views := mdel key (m_views m); m_requests := mdel key (m_requests m);
     m_generations := mdel key (m_generations m); m_retainCounts := mdel key (m_retainCounts m);
     m_resources := mdel key (m_resources m); m_refreshChanges := mdel key (m_refreshChanges m);
     m_timers := m_timers m; m_next := m_next m; m_closed := m_closed m |}.

Definition beginRecord (requestRevision : jstr) (generation retryAttempt : nat)
    (record : ThreadSummaryResourceRecord) : ThreadSummaryResourceRecord :=
  {| rs_id := rs_id record; rs_generation := generation; rs_hasReadySnapshot := rs_hasReadySnapshot record;
     rs_initialFailed := false; rs_loadingRevision := Some requestRevision;
     rs_pendingChanges := rs_pendingChanges record; rs_ready := rs_ready record;
     rs_requestRevision := requestRevision; rs_retryAttempt := retryAttempt; rs_retryTimer := None |}.

(** The part of [beginResourceLoad] that runs at once, with the load it starts. *)
Definition beginResourceLoad (request : ThreadSummaryViewRequest) (initial : bool) (retryAttempt : nat)
    (m : ThreadSummaryModel) : ThreadSummaryModel * SummaryLoad :=
  let key := threadSummaryViewKey request in
  let requestRevision := threadSummaryViewRequestKey request in
  let generation := S (generationOf key m) in
  let load := {| ld_id := m_next m; ld_request := request; ld_generation := generation; ld_initial := initial |} in
  let m := fresh (requestAs key generation request m) in
  let m :=
    match mget key (m_resources m) with
    | None => m
    | Some record =>
        setRecord key (beginRecord requestRevision generation retryAttempt record)
          (clearTimeout (rs_retryTimer record) m)
    end in
  (m, load).

Definition ready (content : LoadedThreadSummaryView) (requestKey : jstr)
    (previous : ThreadSummaryViewSnapshot) : ThreadSummaryViewSnapshot :=
  {| sn_content := content; sn_error := None; sn_phase := ViewReady; sn_requestKey := Some requestKey;
     sn_revision := sn_revision previous + (if bool_decide (content = sn_content previous) then 0 else 1) |}.

(** The record a load still owns. *)
Definition ownedRecord (load : SummaryLoad) (m : ThreadSummaryModel) : option ThreadSummaryResourceRecord :=
  let requestRevision := threadSummaryViewRequestKey (ld_request load) in
  if m_closed m then None
  else
    current ← mget (threadSummaryViewKey (ld_request load)) (m_resources m);
    if bool_decide (rs_generation current = ld_generation load)
       && bool_decide (rs_requestRevision current = requestRevision)
    then Some current else None.

(** A snapshot after a failure; the rows it has stay. *)
Definition failed (cause : option jstr) (previous : ThreadSummaryViewSnapshot) : ThreadSummaryViewSnapshot :=
  {| sn_content := sn_content previous; sn_error := Some (default (js "Could not load chats") cause);
     sn_phase := if hasSummaryRows (sn_content previous) then ViewReady else ViewError;
     sn_requestKey := sn_requestKey previous; sn_revision := sn_revision previous |}.

(** [Math.min(250 * 2 ** attempt, 5000)]. *)
Definition retryDelay (attempt : nat) : N := N.min (250 * 2 ^ N.of_nat attempt) 5000.

Definition failedRecord (initial : bool) (timer : option nat)
    (record : ThreadSummaryResourceRecord) : ThreadSummaryResourceRecord :=
  {| rs_id := rs_id record; rs_generation := rs_generation record; rs_hasReadySnapshot := rs_hasReadySnapshot record;
     rs_initialFailed := initial; rs_loadingRevision := None;
     rs_pendingChanges := rs_pendingChanges record; rs_ready := rs_ready record;
     rs_requestRevision := rs_requestRevision record; rs_retryAttempt := rs_retryAttempt record;
     rs_retryTimer := match timer with Some _ => timer | None => rs_retryTimer record end |}.

(** The load rejects with [cause], the message of an [Error]. *)
Definition rejectLoad (load : SummaryLoad) (cause : option jstr) (m : ThreadSummaryModel) : ThreadSummaryModel :=
  let key := threadSummaryViewKey (ld_request load) in
  match ownedRecord load m with
  | None => m
  | Some current =>
      let m := setSnapshot key (failed cause (snapshotAt key m)) m in
      if ld_initial load then setRecord key (failedRecord true None current) m
      else
        let timer := {| tm_id := m_next m; tm_record := rs_id current; tm_request := ld_request load;
                        tm_delay := retryDelay (rs_retryAttempt current) |} in
        fresh (setTimers (m_timers m ++ [timer])
                 (setRecord key (failedRecord false (Some (m_next m)) current) m))
  end.

(** The callback of a retry. *)
Definition fireTimer (timer : RetryTimer) (m : ThreadSummaryModel) : ThreadSummaryModel * option SummaryLoad :=
  let m := setTimers (filter (fun t => tm_id t <> tm_id timer) (m_timers m)) m in
  match mget (threadSummaryViewKey (tm_request timer)) (m_resources m) with
  | Some latest =>
      if m_closed m || negb (bool_decide (rs_id latest = tm_record timer))
         || negb (bool_decide (rs_requestRevision latest = threadSummaryViewRequestKey (tm_request timer)))
         || negb (bool_decide (rs_loadingRevision latest = None))
      then (m, None)
      else
        let '(m, load) := beginResourceLoad (tm_request timer) false (S (rs_retryAttempt latest)) m in
        (m, Some load)
  | None => (m, None)
  end.

Definition closeViews (m : ThreadSummaryModel) : ThreadSummaryModel :=
  let handles := omap (fun e => rs_retryTimer e.2) (m_resources m) in
  {| m_views := []; m_requests := []; m_generations := []; m_retainCounts := []; m_resources := [];
     m_refreshChanges := []; m_timers := filter (fun t => tm_id t ∉ handles) (m_timers m);
     m_next := m_next m; m_closed := true |}.

Definition loadedRecord (record : ThreadSummaryResourceRecord) : ThreadSummaryResourceRecord :=
  {| rs_id := rs_id record; rs_generation := rs_generation record; rs_hasReadySnapshot := true;
     rs_initialFailed := rs_initialFailed record; rs_loadingRevision := None; rs_pendingChanges := [];
     rs_ready := rs_ready record; rs_requestRevision := rs_requestRevision record;
     rs_retryAttempt := 0; rs_retryTimer := rs_retryTimer record |}.

Definition newRecord (id : nat) (requestRevision : jstr) : ThreadSummaryResourceRecord :=
  {| rs_id := id; rs_generation := 0; rs_hasReadySnapshot := false; rs_initialFailed := false;
     rs_loadingRevision := Some requestRevision; rs_pendingChanges := []; rs_ready := None;
     rs_requestRevision := requestRevision; rs_retryAttempt := 0; rs_retryTimer := None |}.

(** [record.ready$ = observablePromise(load)]. *)
Definition awaitLoad (key : jstr) (load : SummaryLoad) (m : ThreadSummaryModel) : ThreadSummaryModel :=
  match mget key (m_resources m) with
  | None => m
  | Some record =>
      setRecord key
        {| rs_id := rs_id record; rs_generation := rs_generation record;
           rs_hasReadySnapshot := rs_hasReadySnapshot record; rs_initialFailed := rs_initialFailed record;
           rs_loadingRevision := rs_loadingRevision record; rs_pendingChanges := rs_pendingChanges record;
           rs_ready := Some (ld_id load); rs_requestRevision := rs_requestRevision record;
           rs_retryAttempt := rs_retryAttempt record; rs_retryTimer := rs_retryTimer record |} m
  end.

Definition startAwaited (request : ThreadSummaryViewRequest) (m : ThreadSummaryModel)
    : ThreadSummaryModel * option SummaryLoad :=
  let '(m, load) := beginResourceLoad request true 0 m in
  (awaitLoad (threadSummaryViewKey request) load m, Some load).

(** Whether a reader has to wait for the rows of [request]. *)
Definition blocksNavigation (record : ThreadSummaryResourceRecord) (request : ThreadSummaryViewRequest)
    (m : ThreadSummaryModel) : bool :=
  let key := threadSummaryViewKey request in
  negb (rs_hasReadySnapshot record)
  || negb (summaryViewSatisfiesVisiblePartition (mget key (m_requests m)) request)
  || negb (summaryViewSatisfiesSelection (sn_content (snapshotAt key m)) request).

(** [resource]: the model and the load it started, if any; [None] where it
    throws, the model being closed.  What it returns is the promise [rs_ready] of
    the record and the view. *)
Definition resource (request : ThreadSummaryViewRequest) (m : ThreadSummaryModel)
    : option (ThreadSummaryModel * option SummaryLoad) :=
  let key := threadSummaryViewKey request in
  let requestRevision := threadSummaryViewRequestKey request in
  if m_closed m then None
  else
    let '(m, load) :=
      match mget key (m_resources m) with
      | None => startAwaited request (setRecord key (newRecord (m_next m) requestRevision) (fresh m))
      | Some record =>
          if rs_initialFailed record && bool_decide (rs_loadingRevision record = None)
          then startAwaited request m
          else if negb (bool_decide (rs_requestRevision record = requestRevision))
                  && negb (bool_decide (rs_loadingRevision record = Some requestRevision))
          then
            if blocksNavigation record request m
            then startAwaited request m
            else
              let '(m, load) := beginResourceLoad request false 0 m in
              (m, Some load)
          else (m, None)
      end in
    Some (openView key m, load).

Definition retainView (key : jstr) (m : ThreadSummaryModel) : ThreadSummaryModel :=
  if m_closed m then m
  else setRetainCounts (mset key (S (default 0 (mget key (m_retainCounts m)))) (m_retainCounts m)) m.

(** The first call of what [retainView] returned. *)
Definition releaseView (key : jstr) (m : ThreadSummaryModel) : ThreadSummaryModel :=
  match default 1 (mget key (m_retainCounts m)) - 1 with
  | O => evict key m
  | next => setRetainCounts (mset key next (m_retainCounts m)) m
  end.

(** [startView]: the model and the generation; [None] where it throws. *)
Definition startView (request : ThreadSummaryViewRequest) (m : ThreadSummaryModel)
    : option (ThreadSummaryModel * nat) :=
  if m_closed m then None
  else
    let key := threadSummaryViewKey request in
    let generation := S (generationOf key m) in
    let m := requestAs key generation request m in
    let m := setRefreshChanges (mset key ([], generation) (m_refreshChanges m)) m in
    let previous := snapshotAt key m in
    Some (setSnapshot key
            {| sn_content := sn_content previous; sn_error := None;
               sn_phase := if hasSummaryRows (sn_content previous) then ViewReady else ViewLoading;
               sn_requestKey := Some (default key (sn_requestKey previous));
               sn_revision := sn_revision previous |} m, generation).

(** [generations.get(key) === generation] in a model that is open. *)
Definition ownsGeneration (request : ThreadSummaryViewRequest) (generation : nat) (m : ThreadSummaryModel) : bool :=
  negb (m_closed m) && bool_decide (mget (threadSummaryViewKey request) (m_generations m) = Some generation).

Definition failView (request : ThreadSummaryViewRequest) (generation : nat) (cause : option jstr)
    (m : ThreadSummaryModel) : ThreadSummaryModel :=
  let key := threadSummaryViewKey request in
  if ownsGeneration request generation m then
    let m := setRefreshChanges (mdel key (m_refreshChanges m)) m in
    setSnapshot key (failed cause (snapshotAt key m)) m
  else m.

Section model.
Variable localeCompare : jstr -> jstr -> Z.

Abbreviation reproject := (reprojectThreadSummaryChanges localeCompare).

(** The load resolves with [loaded]. *)
Definition resolveLoad (load : SummaryLoad) (loaded : LoadedThreadSummaryView)
    (m : ThreadSummaryModel) : ThreadSummaryModel :=
  let request := ld_request load in
  let key := threadSummaryViewKey request in
  match ownedRecord load m with
  | None => m
  | Some current =>
      let content := reproject loaded (rs_pendingChanges current) request in
      let m := setRecord key (loadedRecord current) m in
      setSnapshot key (ready content (threadSummaryViewRequestKey request) (snapshotAt key m)) m
  end.

(** [commitView]: the model and whether the view was committed. *)
Definition commitView (request : ThreadSummaryViewRequest) (generation : nat)
    (loaded : LoadedThreadSummaryView) (m : ThreadSummaryModel) : ThreadSummaryModel * bool :=
  let key := threadSummaryViewKey request in
  if ownsGeneration request generation m then
    let inFlight := mget key (m_refreshChanges m) in
    let m := setRefreshChanges (mdel key (m_refreshChanges m)) m in
    let content :=
      match inFlight with
      | Some (changes, started) =>
          if started =? generation then reproject loaded changes request else loaded
      | None => loaded
      end in
    (setSnapshot key (ready content (threadSummaryViewRequestKey request) (snapshotAt key m)) m, true)
  else (m, false).

(** [publish] for one view.  Whether the content is a new one: an array that
    [updateThreadSummaryView] copied counts as new. *)
Definition publishedContent (resource : option ThreadSummaryResourceRecord) (request : ThreadSummaryViewRequest)
    (changes : list SummaryChange) (previous : ThreadSummaryViewSnapshot) : LoadedThreadSummaryView * bool :=
  let content := sn_content previous in
  if bool_decide (is_Some (resource ≫= rs_loadingRevision))
     || negb (bool_decide (sn_requestKey previous = Some (threadSummaryViewRequestKey request)))
  then
    let next := reproject content changes request in
    (next, negb (bool_decide (next = content)))
  else
    let next := updateThreadSummaryView localeCompare content changes request in
    let update p := updatePartition localeCompare (part content p) changes p request in
    let partitions := [PinnedPart; RecentPart; ArchivedPart; SelectedPart; SubagentsPart] in
    (next, if existsb (fun p => (update p).1) partitions then negb (bool_decide (next = content))
           else existsb (fun p => bool_decide (is_Some (update p).2)) partitions).

Definition collect (changes : list SummaryChange) (record : ThreadSummaryResourceRecord) : ThreadSummaryResourceRecord :=
  {| rs_id := rs_id record; rs_generation := rs_generation record;
     rs_hasReadySnapshot := rs_hasReadySnapshot record; rs_initialFailed := rs_initialFailed record;
     rs_loadingRevision := rs_loadingRevision record;
     rs_pendingChanges := rs_pendingChanges record ++ changes; rs_ready := rs_ready record;
     rs_requestRevision := rs_requestRevision record; rs_retryAttempt := rs_retryAttempt record;
     rs_retryTimer := rs_retryTimer record |}.

(** A load in flight collects the changes. *)
Definition collectPending (changes : list SummaryChange) (key : jstr) (m : ThreadSummaryModel) : ThreadSummaryModel :=
  match mget key (m_resources m) with
  | Some record =>
      if bool_decide (rs_loadingRevision record = None) then m else setRecord key (collect changes record) m
  | None => m
  end.

(** So does a refresh; one that another request overtook is forgotten. *)
Definition collectRefresh (changes : list SummaryChange) (key : jstr) (m : ThreadSummaryModel) : ThreadSummaryModel :=
  let forgotten := setRefreshChanges (mdel key (m_refreshChanges m)) m in
  match mget key (m_refreshChanges m) with
  | Some (collected, generation) =>
      if bool_decide (mget key (m_generations m) = Some generation)
      then setRefreshChanges (mset key (collected ++ changes, generation) (m_refreshChanges m)) m
      else forgotten
  | None => forgotten
  end.

Definition showChanges (changes : list SummaryChange) (request : ThreadSummaryViewRequest) (key : jstr)
    (m : ThreadSummaryModel) : ThreadSummaryModel :=
  let previous := snapshotAt key m in
  let '(content, isNew) := publishedContent (mget key (m_resources m)) request changes previous in
  if isNew then
    setSnapshot key
      {| sn_content := content; sn_error := sn_error previous; sn_phase := sn_phase previous;
         sn_requestKey := sn_requestKey previous; sn_revision := S (sn_revision previous) |} m
  else m.

Definition publishView (changes : list SummaryChange) (m : ThreadSummaryModel) (key : jstr) : ThreadSummaryModel :=
  match mget key (m_requests m) with
  | None => m
  | Some request => showChanges changes request key (collectRefresh changes key (collectPending changes key m))
  end.

Definition publishChanges (changes : list SummaryChange) (m : ThreadSummaryModel) : ThreadSummaryModel :=
  if m_closed m || bool_decide (changes = []) then m
  else foldl (publishView changes) m (mkeys (m_views m)).
End model.

(** ** Beside the store

    Rows are written and then published in the order they were written; SQLite
    answers a read with rows stored at that moment, and the answer reaches the
    model later. *)
Module Reading.

Inductive ReadKind := ForResource (load : SummaryLoad) | ForRefresh (request : ThreadSummaryViewRequest) (generation : nat).

Record SummaryRead := { rd_kind : ReadKind; rd_answer : option LoadedThreadSummaryView }.

Definition rd_request (read : SummaryRead) : ThreadSummaryViewRequest :=
  match rd_kind read with ForResource load => ld_request load | ForRefresh request _ => request end.

Definition rd_generation (read : SummaryRead) : nat :=
  match rd_kind read with ForResource load => ld_generation load | ForRefresh _ generation => generation end.

Definition rd_key (read : SummaryRead) : jstr := threadSummaryViewKey (rd_request read).

(** The model, the rows stored, the changes written and not yet published, the
    reads in flight and the views retained. *)
Record ThreadList :=
  { tl_model : ThreadSummaryModel; tl_store : list (jstr * StoredThreadSummary);
    tl_unpublished : list SummaryChange; tl_reads : list SummaryRead; tl_retained : list jstr }.

Definition emptyList : ThreadList :=
  {| tl_model := createThreadSummaryModel; tl_store := []; tl_unpublished := []; tl_reads := []; tl_retained := [] |}.

Inductive ListEvent :=
| RowWritten (change : SummaryChange)
| ChangesPublished (n : nat)
| ResourceUsed (request : ThreadSummaryViewRequest)
| ViewRefreshed (request : ThreadSummaryViewRequest)
| ReadAnswered (i : nat) (loaded : LoadedThreadSummaryView)
| ReadReturned (i : nat)
| ReadFailed (i : nat) (cause : option jstr)
| TimerFired (i : nat)
| ViewRetained (key : jstr)
| ViewReleased (i : nat)
| ListClosed.

Definition withModel (m : ThreadSummaryModel) (s : ThreadList) : ThreadList :=
  {| tl_model := m; tl_store := tl_store s; tl_unpublished := tl_unpublished s; tl_reads := tl_reads s;
     tl_retained := tl_retained s |}.

Definition withReads (reads : list SummaryRead) (s : ThreadList) : ThreadList :=
  {| tl_model := tl_model s; tl_store := tl_store s; tl_unpublished := tl_unpublished s; tl_reads := reads;
     tl_retained := tl_retained s |}.

(** The model after an operation that may have started a load. *)
Definition starting (result : ThreadSummaryModel * option SummaryLoad) (s : ThreadList) : ThreadList :=
  withReads (tl_reads s ++ match result.2 with
                           | Some load => [{| rd_kind := ForResource load; rd_answer := None |}]
                           | None => []
                           end) (withModel result.1 s).

Section steps.
Variable localeCompare : jstr -> jstr -> Z.

Definition settle (read : SummaryRead) (m : ThreadSummaryModel) : ThreadSummaryModel :=
  match rd_answer read, rd_kind read with
  | Some loaded, ForResource load => resolveLoad localeCompare load loaded m
  | Some loaded, ForRefresh request generation => (commitView localeCompare request generation loaded m).1
  | None, _ => m
  end.

Definition reject (read : SummaryRead) (cause : option jstr) (m : ThreadSummaryModel) : ThreadSummaryModel :=
  match rd_kind read with
  | ForResource load => rejectLoad load cause m
  | ForRefresh request generation => failView request generation cause m
  end.

Definition listStep (s : ThreadList) (e : ListEvent) : ThreadList :=
  match e with
  | RowWritten change =>
      {| tl_model := tl_model s; tl_store := applyChange (tl_store s) change;
         tl_unpublished := tl_unpublished s ++ [change]; tl_reads := tl_reads s; tl_retained := tl_retained s |}
  | ChangesPublished n =>
      {| tl_model := publishChanges localeCompare (take n (tl_unpublished s)) (tl_model s);
         tl_store := tl_store s; tl_unpublished := drop n (tl_unpublished s); tl_reads := tl_reads s;
         tl_retained := tl_retained s |}
  | ResourceUsed request =>
      match resource request (tl_model s) with Some result => starting result s | None => s end
  | ViewRefreshed request =>
      match startView request (tl_model s) with
      | Some (m, generation) =>
          withReads (tl_reads s ++ [{| rd_kind := ForRefresh request generation; rd_answer := None |}]) (withModel m s)
      | None => s
      end
  | ReadAnswered i loaded =>
      match tl_reads s !! i with
      | Some {| rd_kind := kind; rd_answer := None |} =>
          withReads (<[i := {| rd_kind := kind; rd_answer := Some loaded |}]> (tl_reads s)) s
      | _ => s
      end
  | ReadReturned i =>
      match tl_reads s !! i with
      | Some read =>
          if bool_decide (rd_answer read = None) then s
          else withReads (delete i (tl_reads s)) (withModel (settle read (tl_model s)) s)
      | None => s
      end
  | ReadFailed i cause =>
      match tl_reads s !! i with
      | Some read => withReads (delete i (tl_reads s)) (withModel (reject read cause (tl_model s)) s)
      | None => s
      end
  | TimerFired i =>
      match m_timers (tl_model s) !! i with
      | Some timer => starting (fireTimer timer (tl_model s)) s
      | None => s
      end
  | ViewRetained key =>
      let s' := withModel (retainView key (tl_model s)) s in
      if m_closed (tl_model s) then s'
      else {| tl_model := tl_model s'; tl_store := tl_store s'; tl_unpublished := tl_unpublished s';
              tl_reads := tl_reads s'; tl_retained := tl_retained s' ++ [key] |}
  | ViewReleased i =>
      match tl_retained s !! i with
      | Some key =>
          {| tl_model := releaseView key (tl_model s); tl_store := tl_store s; tl_unpublished := tl_unpublished s;
             tl_reads := tl_reads s; tl_retained := delete i (tl_retained s) |}
      | None => s
      end
  | ListClosed => withModel (closeViews (tl_model s)) s
  end.

Definition runList (s : ThreadList) (events : list ListEvent) : ThreadList := foldl listStep s events.
End steps.

(** ** The orders the model is correct for *)

Definition viewRows (view : LoadedThreadSummaryView) : list StoredThreadSummary :=
  v_pinned view ++ v_recent view ++ v_archived view ++ v_selected view ++ v_subagents view.

Definition allowed (s : ThreadList) (e : ListEvent) : bool :=
  match e with
  | ReadAnswered _ loaded =>
      (* what SQLite answers is stored *)
      forallb (fun row => bool_decide (mget (rowKey row) (tl_store s) = Some row)) (viewRows loaded)
  | ChangesPublished n =>
      (* no record waits for its retry with changes a failed load had collected *)
      bool_decide (take n (tl_unpublished s) = [])
      || forallb (fun e => bool_decide (is_Some (rs_loadingRevision e.2)) || bool_decide (rs_pendingChanges e.2 = []))
           (m_resources (tl_model s))
  | ViewReleased i =>
      (* a view is not evicted while it is read *)
      match tl_retained s !! i with
      | Some key =>
          (1 <? default 1 (mget key (m_retainCounts (tl_model s))))
          || forallb (fun read => negb (bool_decide (rd_key read = key))) (tl_reads s)
      | None => true
      end
  | _ => true
  end.

Fixpoint orderly (localeCompare : jstr -> jstr -> Z) (s : ThreadList) (events : list ListEvent) : bool :=
  match events with
  | [] => true
  | e :: events => allowed s e && orderly localeCompare (listStep localeCompare s e) events
  end.

End Reading.
