(* ===== verification/SummaryFresh.v ===== *)
(** * The views of the thread list show stored rows

    Laws of [SummaryModel]: what a view holds after changes, what the changes
    kept for a read are good for, and the theorems over every order of writes,
    publications, reads and timers. *)
From S2P Require Import Prelude JsMap Json Ranking SummaryTypes SummaryProjection SummaryView SummaryModel.
Import Reading.

Local Open Scope nat_scope.

(** ** Changes *)

Definition changedBy (changes : list SummaryChange) (k : jstr) : Prop := k ∈ summaryChangeKey <$> changes.

#[export] Instance changedBy_dec changes k : Decision (changedBy changes k).
Proof. unfold changedBy. apply _. Defined.

(** The row a sequence of changes leaves under a key. *)
Definition outcome (changes : list SummaryChange) (k : jstr) : option StoredThreadSummary :=
  mget k (foldl applyChange [] changes).

Lemma changedBy_app A B k : changedBy (A ++ B) k <-> changedBy A k \/ changedBy B k.
Proof. unfold changedBy. rewrite fmap_app. apply elem_of_app. Qed.

Lemma changedBy_snoc A c k : changedBy (A ++ [c]) k <-> changedBy A k \/ k = summaryChangeKey c.
Proof. rewrite changedBy_app. unfold changedBy. simpl. by rewrite list_elem_of_singleton. Qed.

Lemma mget_change k m c :
  mget k (applyChange m c)
  = if bool_decide (summaryChangeKey c = k)
    then match c with SummaryPut _ value => Some value | SummaryDelete _ => None end
    else mget k m.
Proof. destruct c as [b value|key]; simpl; [apply mget_mset|apply mget_mdel]. Qed.

Lemma mget_changes changes m k :
  mget k (foldl applyChange m changes) = if decide (changedBy changes k) then outcome changes k else mget k m.
Proof.
  unfold outcome. induction changes as [|c changes IH] using rev_ind; [done|].
  rewrite !foldl_app. simpl. rewrite !mget_change. pose proof (changedBy_snoc changes c k) as Hs.
  case_bool_decide as Hk; [by rewrite decide_True by naive_solver|].
  rewrite IH. destruct (decide (changedBy changes k)); [by rewrite decide_True by tauto|].
  rewrite decide_False; [done|]. intros [?|?]%Hs; congruence.
Qed.

Lemma outcome_app A B k : outcome (A ++ B) k = if decide (changedBy B k) then outcome B k else outcome A k.
Proof. unfold outcome at 1. rewrite foldl_app, mget_changes. done. Qed.

Lemma outcome_key changes k row : outcome changes k = Some row -> k = rowKey row.
Proof.
  unfold outcome. induction changes as [|c changes IH] using rev_ind; [done|].
  rewrite foldl_app. simpl. rewrite mget_change. case_bool_decide as Hk; [|apply IH].
  destruct c; [|done]. simpl in Hk. by intros [= <-].
Qed.

Lemma outcome_changed changes k row : outcome changes k = Some row -> changedBy changes k.
Proof.
  unfold outcome. induction changes as [|c changes IH] using rev_ind; [done|].
  rewrite foldl_app. simpl. rewrite mget_change, changedBy_snoc. case_bool_decide; [by right|]. left. auto.
Qed.

Lemma keyed_change m c : keyed m -> keyed (applyChange m c).
Proof. destruct c; simpl; intros; [by apply keyed_set|by apply keyed_del]. Qed.

Lemma keyed_changes changes m : keyed m -> keyed (foldl applyChange m changes).
Proof. revert m. induction changes as [|c changes IH]; intros m Hm; [done|]. by apply IH, keyed_change. Qed.

(** ** Rows that are stored, or about to be replaced *)

(** The store has what the changes leave. *)
Definition tracks (changes : list SummaryChange) (store : list (jstr * StoredThreadSummary)) : Prop :=
  forall k, changedBy changes k -> mget k store = outcome changes k.

(** The row is the stored one, unless changes still to come replace it. *)
Definition stored (changes : list SummaryChange) (store : list (jstr * StoredThreadSummary))
    (row : StoredThreadSummary) : Prop :=
  changedBy changes (rowKey row) \/ mget (rowKey row) store = Some row.

Lemma tracks_nil store : tracks [] store.
Proof. by intros k ?%elem_of_nil. Qed.

Lemma tracks_suffix A B store : tracks (A ++ B) store -> tracks B store.
Proof.
  intros H k Hk. rewrite (H k) by (apply changedBy_app; by right). by rewrite outcome_app, decide_True.
Qed.

Lemma tracks_write changes c store : tracks changes store -> tracks (changes ++ [c]) (applyChange store c).
Proof.
  intros H k Hk. unfold outcome. rewrite foldl_app. simpl. rewrite !mget_change. case_bool_decide; [done|].
  apply changedBy_snoc in Hk as [Hk|Hk]; [by apply H|congruence].
Qed.

Lemma stored_write changes c store row :
  stored changes store row -> stored (changes ++ [c]) (applyChange store c) row.
Proof.
  unfold stored. rewrite changedBy_snoc, mget_change. intros [H|H]; [by auto|].
  case_bool_decide; [by auto|by right].
Qed.

(** A row left by changes the store reflects. *)
Lemma stored_outcome A B store row :
  tracks (A ++ B) store -> outcome A (rowKey row) = Some row -> stored B store row.
Proof.
  intros Ht Ho. destruct (decide (changedBy B (rowKey row))) as [Hb|Hb]; [by left|]. right.
  rewrite (Ht (rowKey row)), outcome_app, decide_False by (done || (apply changedBy_app; left; by eapply outcome_changed)).
  done.
Qed.

Lemma stored_rest A B store row : stored (A ++ B) store row -> ~ changedBy A (rowKey row) -> stored B store row.
Proof. unfold stored. rewrite changedBy_app. tauto. Qed.

(** ** What a view holds after changes *)

Section views.
Variable localeCompare : jstr -> jstr -> Z.

(** No key twice in a partition. *)
Definition distinct (view : LoadedThreadSummaryView) : Prop := forall p, NoDup (rowKey <$> part view p).

(** The rows come from the changes, or from [base] where the changes leave
    them. *)
Definition derived (changes : list SummaryChange) (base rows : list StoredThreadSummary) : Prop :=
  forall row, row ∈ rows ->
    outcome changes (rowKey row) = Some row \/ ~ changedBy changes (rowKey row) /\ row ∈ base.

Lemma elem_viewRows view row : row ∈ viewRows view <-> exists p, row ∈ part view p.
Proof.
  unfold viewRows. rewrite !elem_of_app. split.
  - intros [?|[?|[?|[?|?]]]]; [by exists PinnedPart|by exists RecentPart|by exists ArchivedPart|by exists SelectedPart|by exists SubagentsPart].
  - intros [[] ?]; simpl in *; auto 10.
Qed.

Lemma projected_mem rows request p row : row ∈ projectPartition localeCompare rows p request -> row ∈ rows.
Proof.
  unfold projectPartition. intros Hin.
  assert (Hin' : row ∈ filter (fun row => includesRow p row request = true) rows).
  { assert (H : forall l, row ∈ truncate (limitFor p request) l -> row ∈ l).
    { intros l. unfold truncate. destruct (limitFor p request); [|done].
      intros (i & Hi & _)%elem_of_take. by eapply list_elem_of_lookup_2. }
    apply H in Hin. case_bool_decide; [done|]. by rewrite sortBy_perm in Hin. }
  by apply list_elem_of_filter in Hin' as [_ ?].
Qed.

Lemma projected_distinct rows request : NoDup (rowKey <$> rows) -> distinct (projectThreadSummaryView localeCompare rows request).
Proof.
  intros Hn p. replace (part _ p) with (projectPartition localeCompare rows p request) by (by destruct p).
  unfold projectPartition.
  assert (Hf : NoDup (rowKey <$> filter (fun row => includesRow p row request = true) rows)).
  { eapply sublist_NoDup; [exact Hn|]. apply fmap_sublist, sublist_filter. }
  assert (Ht : forall l, NoDup (rowKey <$> l) -> NoDup (rowKey <$> truncate (limitFor p request) l)).
  { intros l Hl. unfold truncate. destruct (limitFor p request); [|done].
    eapply sublist_NoDup; [exact Hl|]. apply fmap_sublist, sublist_take. }
  apply Ht. case_bool_decide; [done|]. by rewrite sortBy_perm.
Qed.

Lemma residents_keyed view : keyed (residentRows view).
Proof. apply byKey_keyed. Qed.

Lemma reproject_distinct previous changes request :
  distinct (reprojectThreadSummaryChanges localeCompare previous changes request).
Proof. apply projected_distinct, vals_nodup, keyed_changes, residents_keyed. Qed.

Lemma reproject_derived previous changes request :
  derived changes (viewRows previous) (viewRows (reprojectThreadSummaryChanges localeCompare previous changes request)).
Proof.
  intros row [p Hp]%elem_viewRows. unfold reprojectThreadSummaryChanges in Hp.
  assert (Hin : row ∈ mvals (foldl applyChange (residentRows previous) changes)).
  { destruct p; simpl in Hp; by apply projected_mem in Hp. }
  rewrite keyed_mem in Hin by apply keyed_changes, residents_keyed. rewrite mget_changes in Hin.
  destruct (decide (changedBy changes (rowKey row))); [by left|]. right. split; [done|].
  apply byKey_mem, keyed_mem; [apply byKey_keyed|exact Hin].
Qed.

(** What one change of a partition may leave: rows of other keys, and the row it
    puts. *)
Definition replaced (c : SummaryChange) (rows rows' : list StoredThreadSummary) : Prop :=
  NoDup (rowKey <$> rows') /\
  forall row, row ∈ rows' ->
    row ∈ without (summaryChangeKey c) rows \/ match c with SummaryPut _ value => row = value | SummaryDelete _ => False end.

Lemma replaced_without c rows : NoDup (rowKey <$> rows) -> replaced c rows (without (summaryChangeKey c) rows).
Proof. intros Hn. split; [by apply without_nodup|]. auto. Qed.

Lemma replaced_put isInsert value rows rows' :
  NoDup (rowKey <$> rows) -> rows' ≡ₚ value :: without (rowKey value) rows ->
  replaced (SummaryPut isInsert value) rows rows'.
Proof.
  intros Hn Hp. split.
  - rewrite Hp. cbn [fmap list_fmap]. apply NoDup_cons. split; [|by apply without_nodup].
    intros (row & Hk & [Hne _]%list_elem_of_filter)%list_elem_of_fmap. congruence.
  - intros row. rewrite Hp, elem_of_cons. simpl. tauto.
Qed.

(** The row a key is found at is the only one of that key. *)
Lemma found_only k rows i :
  NoDup (rowKey <$> rows) -> findIndex (fun row => bool_decide (rowKey row = k)) rows = Some i ->
  delete i rows = without k rows /\ exists old, rows !! i = Some old /\ rowKey old = k.
Proof.
  intros Hn (old & Hi & Hk%bool_decide_eq_true & _)%findIndex_Some. split; [|by exists old].
  revert i Hi. induction rows as [|row rows IH]; intros [|i] Hi; [done..| |]; simpl in *.
  - injection Hi as ->. subst k. by rewrite without_head.
  - apply NoDup_cons in Hn as [Hr Hn]. unfold without. rewrite filter_cons_True.
    + f_equal. by apply IH.
    + intros Heq. apply Hr. rewrite Heq, <- Hk. by apply list_elem_of_fmap_2, list_elem_of_lookup_2 with i.
Qed.

Lemma not_found k rows :
  findIndex (fun row => bool_decide (rowKey row = k)) rows = None -> without k rows = rows.
Proof.
  intros Hf%findIndex_None. apply without_absent. intros (row & -> & Hin)%list_elem_of_fmap.
  apply (proj1 (Forall_forall _ _) Hf) in Hin. by apply bool_decide_eq_false in Hin.
Qed.

Lemma insertRow_replaced p limit single removed previous result value isInsert rows :
  NoDup (rowKey <$> rows) -> default previous result = without (rowKey value) rows ->
  replaced (SummaryPut isInsert value) rows
    (default previous (insertRow localeCompare p limit single removed previous result value).2).
Proof.
  intros Hn Hw. unfold insertRow. rewrite Hw. case_match; simpl.
  - rewrite Hw. by apply (replaced_without (SummaryPut isInsert value)).
  - apply replaced_put; [done|]. rewrite <- Permutation_middle. by rewrite take_drop.
Qed.

Lemma insert_delete (l : list StoredThreadSummary) i old x :
  l !! i = Some old -> <[i := x]> l ≡ₚ x :: delete i l.
Proof.
  revert i. induction l as [|y l IH]; intros [|i]; simpl; try done.
  intros Hi. rewrite (IH i Hi). apply Permutation_swap.
Qed.

Lemma updateStep_replaced p request single previous st c :
  NoDup (rowKey <$> default previous st.2) ->
  replaced c (default previous st.2) (default previous (updateStep localeCompare p request single previous st c).2).
Proof.
  destruct st as [removed result]. cbn [snd]. intros Hn. unfold updateStep.
  set (rows := default previous result) in *.
  destruct (findIndex _ rows) as [i|] eqn:Ef.
  - destruct (found_only _ _ _ Hn Ef) as (Hd & old & Hi & Hk).
    destruct c as [isInsert value|key]; [|cbn [snd default]; rewrite Hd; by apply replaced_without].
    cbn [summaryChangeKey] in Hd, Hk. destruct (includesRow p value request).
    + rewrite Hi. case_bool_decide as Hv.
      * cbn [snd]. fold rows. subst old. apply replaced_put; [done|]. rewrite <- Hd. by apply delete_Permutation.
      * destruct (fitsAt _ _ _ _ _).
        -- cbn [snd default]. apply replaced_put; [done|]. rewrite <- Hd. by eapply insert_delete.
        -- apply insertRow_replaced; [done|]. exact Hd.
    + cbn [snd]. change (default previous (Some (delete i rows))) with (delete i rows). rewrite Hd.
      by apply (replaced_without (SummaryPut isInsert value)).
  - apply not_found in Ef.
    assert (Hs : replaced c rows rows) by (rewrite <- Ef at 2; by apply replaced_without).
    destruct c as [isInsert value|key]; [|exact Hs].
    destruct (includesRow p value request); [|exact Hs].
    apply insertRow_replaced; [done|]. by symmetry.
Qed.

Lemma replaced_derived changes c base rows rows' :
  derived changes base rows -> replaced c rows rows' -> derived (changes ++ [c]) base rows'.
Proof.
  intros Hd [_ Hr] row Hin. rewrite outcome_app, changedBy_snoc. unfold outcome at 1, changedBy at 1. simpl.
  destruct (Hr row Hin) as [[Hne Hin']%list_elem_of_filter|Hput].
  - rewrite decide_False by (by intros ?%list_elem_of_singleton).
    destruct (Hd row Hin') as [?|[? ?]]; [by left|]. right. split; [|done]. intros [?|?]; done.
  - left. destruct c as [isInsert value|]; [|done]. subst row. simpl.
    rewrite decide_True by (by apply list_elem_of_singleton). by rewrite bool_decide_true.
Qed.

Lemma updatePartition_derived previous changes p request :
  NoDup (rowKey <$> previous) ->
  let rows := default previous (updatePartition localeCompare previous changes p request).2 in
  NoDup (rowKey <$> rows) /\ derived changes previous rows.
Proof.
  intros Hn. cbn zeta. unfold updatePartition. case_match eqn:E.
  - apply andb_true_iff in E as [_ E%bool_decide_eq_true]. subst. simpl. split; [done|]. by intros row ?%elem_of_nil.
  - clear E. set (single := length changes =? 1).
    assert (H : forall done st, NoDup (rowKey <$> default previous st.2) -> derived done previous (default previous st.2) ->
      forall l, let st' := foldl (updateStep localeCompare p request single previous) st l in
      NoDup (rowKey <$> default previous st'.2) /\ derived (done ++ l) previous (default previous st'.2)).
    { intros finished st H1 H2 l. revert finished st H1 H2. induction l as [|c l IH]; intros finished st H1 H2; [by rewrite app_nil_r|].
      pose proof (updateStep_replaced p request single previous st c H1) as Hr.
      specialize (IH (finished ++ [c]) (updateStep localeCompare p request single previous st c)).
      rewrite <- app_assoc in IH. apply IH; [apply Hr|by eapply replaced_derived]. }
    destruct (H [] (false, None) Hn) with (l := changes) as [H1 H2].
    { intros row Hr. right. split; [by intros ?%elem_of_nil|done]. }
    simpl in *. destruct (foldl _ _ changes) as [removed result]. destruct result as [rows|]; simpl in *; [|done].
    unfold truncate. destruct (limitFor p request) as [n|]; [|done]. split.
    + eapply sublist_NoDup; [exact H1|]. apply fmap_sublist, sublist_take.
    + intros row (i & Hi & _)%elem_of_take. apply H2. by eapply list_elem_of_lookup_2.
Qed.

Lemma update_derived previous changes request :
  distinct previous ->
  let next := updateThreadSummaryView localeCompare previous changes request in
  distinct next /\ derived changes (viewRows previous) (viewRows next).
Proof.
  intros Hd. cbn zeta. unfold updateThreadSummaryView. case_match.
  - split; [apply reproject_distinct|apply reproject_derived].
  - split.
    + intros p. destruct (updatePartition_derived (part previous p) changes p request (Hd p)) as [Hn _].
      by destruct p.
    + intros row [p Hp]%elem_viewRows.
      assert (Hu := updatePartition_derived (part previous p) changes p request (Hd p)). cbn zeta in Hu.
      destruct Hu as [_ Hu]. specialize (Hu row). destruct Hu as [?|[? ?]]; [by destruct p|by left|].
      right. split; [done|]. apply elem_viewRows. by exists p.
Qed.

(** Rows derived from stored ones are stored. *)
Lemma derived_stored changes later store base rows :
  tracks (changes ++ later) store -> (forall row, row ∈ base -> stored (changes ++ later) store row) ->
  derived changes base rows -> forall row, row ∈ rows -> stored later store row.
Proof.
  intros Ht Hb Hd row Hin. destruct (Hd row Hin) as [Ho|[Hn Hr]]; [by eapply stored_outcome|].
  eapply stored_rest; [by apply Hb|done].
Qed.
End views.

(** ** The invariant, key by key *)

Section coherence.
Variable localeCompare : jstr -> jstr -> Z.

(** A read that may still be committed has the changes it may have missed. *)
Definition readOk (U : list SummaryChange) (store : list (jstr * StoredThreadSummary)) (m : ThreadSummaryModel)
    (read : SummaryRead) : Prop :=
  let answered changes :=
    forall view, rd_answer read = Some view -> forall row, row ∈ viewRows view -> stored (changes ++ U) store row in
  match rd_kind read with
  | ForResource load =>
      forall record, mget (rd_key read) (m_resources m) = Some record -> rs_generation record = ld_generation load ->
        rs_loadingRevision record <> None /\ answered (rs_pendingChanges record)
  | ForRefresh _ generation =>
      mget (rd_key read) (m_generations m) = Some generation ->
      exists changes, mget (rd_key read) (m_refreshChanges m) = Some (changes, generation) /\ answered changes
  end.

Record coherentAt (U : list SummaryChange) (store : list (jstr * StoredThreadSummary)) (reads : list SummaryRead)
    (m : ThreadSummaryModel) (k : jstr) : Prop :=
  { ca_view : forall snapshot, mget k (m_views m) = Some snapshot ->
      distinct (sn_content snapshot) /\ forall row, row ∈ viewRows (sn_content snapshot) -> stored U store row;
    ca_pending : forall record, mget k (m_resources m) = Some record ->
      tracks (rs_pendingChanges record ++ U) store /\ rs_generation record <= generationOf k m;
    ca_collected : forall changes generation, mget k (m_refreshChanges m) = Some (changes, generation) ->
      generation <= generationOf k m /\ (mget k (m_generations m) = Some generation -> tracks (changes ++ U) store);
    ca_requested : is_Some (mget k (m_views m)) \/ is_Some (mget k (m_generations m)) -> is_Some (mget k (m_requests m));
    ca_reads : forall read, read ∈ reads -> rd_key read = k ->
      (m_closed m = false -> rd_generation read <= generationOf k m) /\ readOk U store m read }.

(** What is read for a key is shown. *)
Definition seenAt (m : ThreadSummaryModel) (k : jstr) : Prop :=
  is_Some (mget k (m_resources m)) \/ is_Some (mget k (m_refreshChanges m)) -> is_Some (mget k (m_views m)).

(** The models have the same entries under the key. *)
Definition sameAt (k : jstr) (m m' : ThreadSummaryModel) : Prop :=
  m_closed m' = m_closed m /\ mget k (m_views m') = mget k (m_views m)
  /\ mget k (m_requests m') = mget k (m_requests m) /\ mget k (m_generations m') = mget k (m_generations m)
  /\ mget k (m_resources m') = mget k (m_resources m)
  /\ mget k (m_refreshChanges m') = mget k (m_refreshChanges m).

Lemma sameAt_refl k m : sameAt k m m.
Proof. done. Qed.

Lemma sameAt_trans k m1 m2 m3 : sameAt k m1 m2 -> sameAt k m2 m3 -> sameAt k m1 m3.
Proof. unfold sameAt. naive_solver congruence. Qed.

Lemma coherent_frame U store reads m m' k :
  sameAt k m m' -> coherentAt U store reads m k -> coherentAt U store reads m' k.
Proof.
  intros (Hc & Hv & Hq & Hg & Hr & Hf) [H1 H2 H3 H4 H5].
  assert (Hgen : generationOf k m' = generationOf k m) by (unfold generationOf; by rewrite Hg).
  split; rewrite ?Hv, ?Hq, ?Hg, ?Hr, ?Hf, ?Hgen, ?Hc; try done.
  intros read Hin Hk. destruct (H5 read Hin Hk) as [H6 H7]. split; [done|].
  unfold readOk in *. destruct (rd_kind read); subst k; by rewrite ?Hg, ?Hr, ?Hf.
Qed.

Lemma seen_frame m m' k : sameAt k m m' -> seenAt m k -> seenAt m' k.
Proof. intros (Hc & Hv & Hq & Hg & Hr & Hf). unfold seenAt. by rewrite Hv, Hr, Hf. Qed.

Lemma coherent_reads U store reads reads' m k :
  (forall read, read ∈ reads' -> read ∈ reads) -> coherentAt U store reads m k -> coherentAt U store reads' m k.
Proof. intros Hs [H1 H2 H3 H4 H5]. split; try done. intros read Hin. by apply H5, Hs. Qed.

Lemma coherent_write U store reads m k c :
  coherentAt U store reads m k -> coherentAt (U ++ [c]) (applyChange store c) reads m k.
Proof.
  intros [H1 H2 H3 H4 H5]. split; try done.
  - intros sn Hs. destruct (H1 sn Hs) as [Hd Hr]. split; [done|]. intros row Hin. by apply stored_write, Hr.
  - intros record Hr. destruct (H2 record Hr). split; [|done]. rewrite app_assoc. by apply tracks_write.
  - intros changes g Hf. destruct (H3 changes g Hf) as [Hle Ht]. split; [done|]. intros Hg.
    rewrite app_assoc. by apply tracks_write, Ht.
  - intros read Hin Hk. destruct (H5 read Hin Hk) as [Hl Ho]. split; [done|]. unfold readOk in *.
    destruct (rd_kind read).
    + intros record Hr Hg. destruct (Ho record Hr Hg) as [? Hs]. split; [done|].
      intros view Hv row Hrow. rewrite app_assoc. apply stored_write. by eapply Hs.
    + intros Hg. destruct (Ho Hg) as (changes & Hf & Hs). exists changes. split; [done|].
      intros view Hv row Hrow. rewrite app_assoc. apply stored_write. by eapply Hs.
Qed.

(** Nothing is at stake under a key without a view. *)
Lemma coherent_unviewed U U' store reads m k :
  mget k (m_views m) = None -> seenAt m k -> coherentAt U store reads m k -> coherentAt U' store reads m k.
Proof.
  intros Hv Hs [H1 H2 H3 H4 H5]. unfold seenAt in Hs. rewrite Hv in Hs.
  assert (Hr : mget k (m_resources m) = None) by (apply eq_None_not_Some; intros H; destruct Hs as [? [=]]; by left).
  assert (Hf : mget k (m_refreshChanges m) = None) by (apply eq_None_not_Some; intros H; destruct Hs as [? [=]]; by right).
  split; rewrite ?Hv, ?Hr, ?Hf; try done; [by rewrite Hv in H4|].
  intros read Hin Hk. destruct (H5 read Hin Hk) as [Hl Ho]. split; [done|]. unfold readOk in *. subst k.
  destruct (rd_kind read); [by rewrite Hr|]. intros Hg. destruct (Ho Hg) as (? & ? & _). congruence.
Qed.

(** *** Publishing *)

Abbreviation publishing := (publishView localeCompare).

Definition collectedRecord (changes : list SummaryChange) (record : ThreadSummaryResourceRecord) : ThreadSummaryResourceRecord :=
  if bool_decide (rs_loadingRevision record = None) then record else collect changes record.

Lemma collectPending_same changes k k' m : k <> k' -> sameAt k m (collectPending changes k' m).
Proof.
  intros Hk. unfold collectPending. case_match; [|done]. case_bool_decide; [done|].
  split_and!; try done. cbn. by rewrite mget_mset_ne.
Qed.

Lemma collectRefresh_same changes k k' m : k <> k' -> sameAt k m (collectRefresh changes k' m).
Proof.
  intros Hk. unfold collectRefresh.
  repeat case_match; split_and!; try done; cbn; by rewrite ?mget_mset_ne, ?mget_mdel_ne.
Qed.

Lemma setSnapshot_same k k' sn m : k <> k' -> sameAt k m (setSnapshot k' sn m).
Proof. intros Hk. split_and!; try done. cbn. by rewrite mget_mset_ne. Qed.

Lemma setRecord_same k k' record m : k <> k' -> sameAt k m (setRecord k' record m).
Proof. intros Hk. split_and!; try done. cbn. by rewrite mget_mset_ne. Qed.

Lemma publishView_same changes k k' m : k <> k' -> sameAt k m (publishing changes m k').
Proof.
  intros Hk. unfold publishView. case_match; [|done].
  eapply sameAt_trans; [by apply collectPending_same|]. eapply sameAt_trans; [by apply collectRefresh_same|].
  unfold showChanges. destruct (publishedContent _ _ _ _ _) as [content []]; [by apply setSnapshot_same|done].
Qed.

Lemma collectPending_entries changes k m :
  let m' := collectPending changes k m in
  mget k (m_resources m') = collectedRecord changes <$> mget k (m_resources m)
  /\ m_views m' = m_views m /\ m_requests m' = m_requests m /\ m_generations m' = m_generations m
  /\ m_refreshChanges m' = m_refreshChanges m /\ m_closed m' = m_closed m.
Proof.
  cbn zeta. unfold collectPending, collectedRecord. destruct (mget k (m_resources m)) as [record|] eqn:E.
  - case_bool_decide as Hl; cbn; rewrite ?mget_mset_eq, ?E; cbn; [by rewrite bool_decide_true|by rewrite bool_decide_false].
  - by rewrite E.
Qed.

Lemma collectRefresh_entries changes k m :
  let m' := collectRefresh changes k m in
  mget k (m_refreshChanges m')
  = (e ← mget k (m_refreshChanges m);
     if bool_decide (mget k (m_generations m) = Some e.2) then Some (e.1 ++ changes, e.2) else None)
  /\ m_views m' = m_views m /\ m_requests m' = m_requests m /\ m_generations m' = m_generations m
  /\ m_resources m' = m_resources m /\ m_closed m' = m_closed m.
Proof.
  cbn zeta. unfold collectRefresh. destruct (mget k (m_refreshChanges m)) as [[collected generation]|] eqn:E.
  - cbn. case_bool_decide as Hg; cbn; by rewrite ?mget_mset_eq, ?mget_mdel_eq.
  - cbn. by rewrite mget_mdel_eq.
Qed.

Lemma showChanges_entries changes request k m :
  let m' := showChanges localeCompare changes request k m in
  let next := publishedContent localeCompare (mget k (m_resources m)) request changes (snapshotAt k m) in
  sn_content (snapshotAt k m') = (if next.2 then next.1 else sn_content (snapshotAt k m))
  /\ m_resources m' = m_resources m /\ m_requests m' = m_requests m /\ m_generations m' = m_generations m
  /\ m_refreshChanges m' = m_refreshChanges m /\ m_closed m' = m_closed m.
Proof.
  cbn zeta. unfold showChanges. destruct (publishedContent _ _ _ _ _) as [content []]; [|done].
  split_and!; try done. unfold snapshotAt at 1. cbn. by rewrite mget_mset_eq.
Qed.

(** What a view shows after changes were published to it. *)
Lemma published_shows changes later store resource request previous :
  tracks (changes ++ later) store ->
  distinct (sn_content previous) -> (forall row, row ∈ viewRows (sn_content previous) -> stored (changes ++ later) store row) ->
  let next := publishedContent localeCompare resource request changes previous in
  let content := if next.2 then next.1 else sn_content previous in
  distinct content /\ forall row, row ∈ viewRows content -> stored later store row.
Proof.
  intros Ht Hd Hs.
  assert (H : forall next isNew, distinct next ->
    derived changes (viewRows (sn_content previous)) (viewRows next) ->
    (isNew = false -> next = sn_content previous) ->
    let content := if isNew : bool then next else sn_content previous in
    distinct content /\ forall row, row ∈ viewRows content -> stored later store row).
  { intros next isNew Hn Hder Hsame. assert (Hc : (if isNew then next else sn_content previous) = next).
    { destruct isNew; [done|]. symmetry. by apply Hsame. }
    cbn zeta. rewrite Hc. split; [done|]. by eapply derived_stored. }
  cbn zeta. unfold publishedContent. destruct (bool_decide (is_Some _) || _); cbn [fst snd].
  - apply H; [apply reproject_distinct|apply reproject_derived|].
    intros Hb%negb_false_iff. by apply bool_decide_eq_true in Hb.
  - destruct (update_derived localeCompare (sn_content previous) changes request Hd) as [Hn Hder].
    apply H; [done|done|]. unfold updateThreadSummaryView.
    destruct (existsb (fun p => (updatePartition localeCompare (part (sn_content previous) p) changes p request).1) _);
      [intros Hb%negb_false_iff; by apply bool_decide_eq_true in Hb|].
    clear. intros Hb.
    assert (Hp : forall p, (updatePartition localeCompare (part (sn_content previous) p) changes p request).2 = None).
    { intros p. cbn [existsb] in Hb. bool_prop.
      destruct p; apply eq_None_not_Some; assumption. }
    rewrite !Hp. simpl. by destruct (sn_content previous).
Qed.

(** A record that does not load has nothing collected. *)
Definition idleClean (m : ThreadSummaryModel) (k : jstr) : Prop :=
  forall record, mget k (m_resources m) = Some record ->
    rs_loadingRevision record <> None \/ rs_pendingChanges record = [].

Lemma collected_tracks changes later store record :
  (rs_loadingRevision record <> None \/ rs_pendingChanges record = []) ->
  tracks (changes ++ later) store -> tracks (rs_pendingChanges record ++ changes ++ later) store ->
  tracks (rs_pendingChanges (collectedRecord changes record) ++ later) store.
Proof.
  intros Hi Ht Hp. unfold collectedRecord. case_bool_decide as Hl; cbn; [|by rewrite <- app_assoc].
  destruct Hi as [Hi|Hi]; [done|]. rewrite Hi. by apply tracks_suffix in Ht.
Qed.

Lemma publishView_at changes later store reads m k :
  tracks (changes ++ later) store -> idleClean m k -> is_Some (mget k (m_views m)) ->
  coherentAt (changes ++ later) store reads m k -> coherentAt later store reads (publishing changes m k) k.
Proof.
  intros Ht Hi Hv [H1 H2 H3 H4 H5].
  destruct (H4 (or_introl Hv)) as [request Hq]. unfold publishView. rewrite Hq.
  destruct (collectPending_entries changes k m) as (Hr1 & Hv1 & Hq1 & Hg1 & Hf1 & Hc1).
  set (m1 := collectPending changes k m) in *.
  destruct (collectRefresh_entries changes k m1) as (Hf2 & Hv2 & Hq2 & Hg2 & Hr2 & Hc2).
  set (m2 := collectRefresh changes k m1) in *.
  destruct (showChanges_entries changes request k m2) as (Hs3 & Hr3 & Hq3 & Hg3 & Hf3 & Hc3).
  set (m3 := showChanges localeCompare changes request k m2) in *.
  assert (Hr : mget k (m_resources m3) = collectedRecord changes <$> mget k (m_resources m)) by congruence.
  assert (Hg : m_generations m3 = m_generations m) by congruence.
  assert (Hgen : generationOf k m3 = generationOf k m) by (unfold generationOf; by rewrite Hg).
  assert (Hf : mget k (m_refreshChanges m3)
    = (e ← mget k (m_refreshChanges m);
       if bool_decide (mget k (m_generations m) = Some e.2) then Some (e.1 ++ changes, e.2) else None)) by (by rewrite Hf3, Hf2, Hf1, Hg1).
  clear Hr1 Hf2 Hr2 Hr3 Hf3.
  assert (Hsn : snapshotAt k m2 = snapshotAt k m) by (unfold snapshotAt; congruence).
  split.
  - intros sn Hsn3. replace sn with (snapshotAt k m3) by (unfold snapshotAt; by rewrite Hsn3). rewrite Hs3, Hsn.
    destruct Hv as [previous Hp]. destruct (H1 previous Hp) as [Hd Hst].
    replace (snapshotAt k m) with previous by (unfold snapshotAt; by rewrite Hp). by apply published_shows.
  - intros record. rewrite Hr, Hgen. intros (record0 & Hrec & ->)%fmap_Some. destruct (H2 record0 Hrec) as [Hp Hle].
    split; [by apply collected_tracks; [by apply Hi|..]|]. unfold collectedRecord. by case_bool_decide.
  - intros collected generation. rewrite Hf, Hg. intros ([c g] & Hc & Hcg)%bind_Some. cbn in Hcg.
    case_bool_decide; [|done]. injection Hcg as <- <-. rewrite Hgen, <- app_assoc. by apply (H3 c g).
  - intros _. rewrite Hq3, Hq2, Hq1, Hq. by eexists.
  - intros read Hin Hk. destruct (H5 read Hin Hk) as [Hle Ho]. rewrite Hgen, Hc3, Hc2, Hc1. split; [done|].
    unfold readOk in *. rewrite Hk, Hg, Hr, Hf in *. destruct (rd_kind read) as [load|req generation].
    + intros record (record0 & Hrec & ->)%fmap_Some Hrg.
      destruct (Ho record0 Hrec) as [Hl Hst]; [unfold collectedRecord in Hrg; by case_bool_decide|].
      unfold collectedRecord. rewrite bool_decide_false by done. cbn. split; [done|]. by rewrite <- app_assoc.
    + intros Hgeneration. destruct (Ho Hgeneration) as (c & Hc & Hst). exists (c ++ changes). rewrite Hc. cbn.
      rewrite bool_decide_true by done. split; [done|]. by rewrite <- app_assoc.
Qed.

Lemma publishView_closed changes m k : m_closed (publishing changes m k) = m_closed m.
Proof.
  unfold publishView. case_match; [|done].
  destruct (showChanges_entries changes t k (collectRefresh changes k (collectPending changes k m))) as (_ & _ & _ & _ & _ & ->).
  destruct (collectRefresh_entries changes k (collectPending changes k m)) as (_ & _ & _ & _ & _ & ->).
  by destruct (collectPending_entries changes k m) as (_ & _ & _ & _ & _ & ->).
Qed.

(** Every view of the model, one after the other. *)
Lemma publish_fold changes later store reads keys m :
  tracks (changes ++ later) store -> NoDup keys -> (forall k, idleClean m k) ->
  (forall k, k ∈ keys -> is_Some (mget k (m_views m))) ->
  (forall k, coherentAt (if decide (k ∈ keys) then changes ++ later else later) store reads m k) ->
  forall k, coherentAt later store reads (foldl (publishing changes) m keys) k.
Proof.
  intros Ht. revert m. induction keys as [|k0 keys IH]; intros m Hn Hi Hv Hm.
  - intros k. specialize (Hm k). by rewrite decide_False in Hm by apply not_elem_of_nil.
  - apply NoDup_cons in Hn as [Hk0 Hn]. apply IH; [done|..].
    + intros k record. destruct (decide (k = k0)) as [->|Hk].
      * unfold publishView. destruct (mget k0 (m_requests m)) as [request|]; [|apply Hi].
        destruct (showChanges_entries changes request k0 (collectRefresh changes k0 (collectPending changes k0 m))) as (_ & -> & _).
        destruct (collectRefresh_entries changes k0 (collectPending changes k0 m)) as (_ & _ & _ & _ & -> & _).
        rewrite (proj1 (collectPending_entries _ _ _)). intros (record0 & Hrec & ->)%fmap_Some.
        unfold collectedRecord. case_bool_decide as Hl; cbn; [|by left].
        by destruct (Hi k0 record0 Hrec); [left|right].
      * destruct (publishView_same changes k k0 m Hk) as (_ & _ & _ & _ & Hr & _). rewrite Hr. apply Hi.
    + intros k Hk. assert (k <> k0) by (by intros ->).
      destruct (publishView_same changes k k0 m) as (_ & Hvk & _); [done|]. rewrite Hvk. apply Hv. by right.
    + intros k. destruct (decide (k = k0)) as [->|Hk].
      * rewrite decide_False by done. specialize (Hm k0). rewrite decide_True in Hm by left.
        apply publishView_at; [done|apply Hi|apply Hv; left|done].
      * eapply coherent_frame; [by apply publishView_same|]. specialize (Hm k).
        destruct (decide (k ∈ keys)) as [Hin|Hin]; [by rewrite decide_True in Hm by (by right)|].
        rewrite decide_False in Hm; [done|]. by intros [?|?]%elem_of_cons.
Qed.

(** *** A read ends *)

(** The reads that are left, once one of them ended. *)
Definition remaining (read : SummaryRead) (reads rest : list SummaryRead) : Prop :=
  read ∈ reads /\
  forall other, other ∈ rest ->
    other ∈ reads /\ (rd_key other = rd_key read -> rd_generation other <> rd_generation read).

Lemma ownedRecord_Some load m record :
  ownedRecord load m = Some record ->
  m_closed m = false /\ mget (threadSummaryViewKey (ld_request load)) (m_resources m) = Some record
  /\ rs_generation record = ld_generation load.
Proof.
  unfold ownedRecord. destruct (m_closed m); [done|]. intros (current & Hr & Hc)%bind_Some. case_match eqn:E; [|done].
  bool_prop. by simplify_eq.
Qed.

Lemma snapshot_view U store reads m k :
  coherentAt U store reads m k ->
  distinct (sn_content (snapshotAt k m)) /\ forall row, row ∈ viewRows (sn_content (snapshotAt k m)) -> stored U store row.
Proof.
  intros [H1 _ _ _ _]. unfold snapshotAt. destruct (mget k (m_views m)) as [sn|]; [by apply H1|].
  split; [intros []; apply NoDup_nil_2|]. by intros row ?%elem_of_nil.
Qed.

(** The record of the key and its view change, and no read of the record is
    left. *)
Lemma settled_at U store reads rest m k read record snapshot :
  remaining read reads rest -> rd_key read = k -> rs_generation record = rd_generation read ->
  rs_generation record <= generationOf k m ->
  tracks (rs_pendingChanges record ++ U) store -> is_Some (mget k (m_requests m)) ->
  distinct (sn_content snapshot) -> (forall row, row ∈ viewRows (sn_content snapshot) -> stored U store row) ->
  coherentAt U store reads m k ->
  coherentAt U store rest (setSnapshot k snapshot (setRecord k record m)) k.
Proof.
  intros [Hin Hrest] Hk Hg Hle Ht Hq Hd Hs [H1 H2 H3 H4 H5]. split.
  - intros sn. cbn. rewrite mget_mset_eq. by intros [= <-].
  - intros r. cbn. rewrite mget_mset_eq. by intros [= <-].
  - exact H3.
  - intros _. exact Hq.
  - intros other Ho Hok. destruct (Hrest other Ho) as [Hor Hne]. destruct (H5 other Hor Hok) as [Hl Hrd].
    split; [exact Hl|]. unfold readOk in *. rewrite Hok in *. destruct (rd_kind other) as [load|req g] eqn:E; [|exact Hrd].
    intros r. cbn. rewrite mget_mset_eq. intros [= <-] Hgen. destruct Hne; [congruence|].
    unfold rd_generation at 1. rewrite E. congruence.
Qed.

Lemma resolveLoad_at U store reads rest m load loaded read :
  read = {| rd_kind := ForResource load; rd_answer := Some loaded |} ->
  remaining read reads rest -> tracks U store -> seenAt m (rd_key read) -> coherentAt U store reads m (rd_key read) ->
  coherentAt U store rest (resolveLoad localeCompare load loaded m) (rd_key read).
Proof.
  intros -> Hrem HU Hseen Hm. change (rd_key _) with (threadSummaryViewKey (ld_request load)) in Hseen, Hm |- *. pose proof Hm as [H1 H2 H3 H4 H5]. unfold resolveLoad.
  destruct (ownedRecord load m) as [current|] eqn:Eo.
  2:{ eapply coherent_reads; [|exact Hm]. intros other Ho. by apply Hrem in Ho as [? _]. }
  apply ownedRecord_Some in Eo as (Hc & Hr & Hg). destruct (H2 current Hr) as [Ht Hle].
  apply (settled_at _ _ reads _ _ _ _ (loadedRecord current) _ Hrem); try done.
  - apply H4. left. apply Hseen. left. by rewrite Hr.
  - apply reproject_distinct.
  - eapply (derived_stored (rs_pendingChanges current)); [done| |apply reproject_derived].
    destruct (H5 _ (proj1 Hrem) eq_refl) as [_ Ho]. destruct (Ho current Hr Hg) as [_ Ha].
    intros row. by apply Ha.
Qed.

Lemma rejectLoad_at U store reads rest m load cause read :
  rd_kind read = ForResource load ->
  remaining read reads rest -> seenAt m (rd_key read) -> coherentAt U store reads m (rd_key read) ->
  coherentAt U store rest (rejectLoad load cause m) (rd_key read).
Proof.
  intros Hkind Hrem Hseen Hm. pose proof Hm as [H1 H2 H3 H4 H5].
  assert (Hk : rd_key read = threadSummaryViewKey (ld_request load)) by (unfold rd_key, rd_request; by rewrite Hkind).
  assert (Hrg : rd_generation read = ld_generation load) by (unfold rd_generation; by rewrite Hkind).
  unfold rejectLoad. rewrite <- Hk. destruct (ownedRecord load m) as [current|] eqn:Eo.
  2:{ eapply coherent_reads; [|exact Hm]. intros other Ho. by apply Hrem in Ho as [? _]. }
  apply ownedRecord_Some in Eo as (Hc & Hr & Hg). rewrite <- Hk in Hr. destruct (H2 current Hr) as [Ht Hle].
  destruct (snapshot_view _ _ _ _ _ Hm) as [Hd Hs].
  assert (Hq : is_Some (mget (rd_key read) (m_requests m))).
  { apply H4. left. apply Hseen. left. by rewrite Hr. }
  assert (Hset : forall initial timer,
    coherentAt U store rest (setSnapshot (rd_key read) (failed cause (snapshotAt (rd_key read) m))
      (setRecord (rd_key read) (failedRecord initial timer current) m)) (rd_key read)).
  { intros initial timer. apply (settled_at _ _ reads _ _ _ _ _ _ Hrem); try done. by rewrite Hrg. }
  destruct (ld_initial load); [apply Hset|]. eapply coherent_frame; [|apply Hset]. done.
Qed.

(** The changes of a refresh are forgotten and its view changes. *)
Lemma refreshed_at U store reads rest m k read snapshot :
  remaining read reads rest -> rd_key read = k -> mget k (m_generations m) = Some (rd_generation read) ->
  distinct (sn_content snapshot) -> (forall row, row ∈ viewRows (sn_content snapshot) -> stored U store row) ->
  coherentAt U store reads m k ->
  coherentAt U store rest (setSnapshot k snapshot (setRefreshChanges (mdel k (m_refreshChanges m)) m)) k.
Proof.
  intros [Hin Hrest] Hk Hg Hd Hs [H1 H2 H3 H4 H5]. split.
  - intros sn. cbn. rewrite mget_mset_eq. by intros [= <-].
  - exact H2.
  - intros changes g. cbn. by rewrite mget_mdel_eq.
  - intros _. cbn. apply H4. right. by rewrite Hg.
  - intros other Ho Hok. destruct (Hrest other Ho) as [Hor Hne]. destruct (H5 other Hor Hok) as [Hl Hrd].
    split; [exact Hl|]. unfold readOk in *. rewrite Hok in *. destruct (rd_kind other) as [load|req g] eqn:E; [exact Hrd|].
    intros Hgen. cbn in Hgen. destruct Hne; [congruence|]. unfold rd_generation at 1. rewrite E. congruence.
Qed.

Lemma ownsGeneration_true request generation m :
  ownsGeneration request generation m = true ->
  m_closed m = false /\ mget (threadSummaryViewKey request) (m_generations m) = Some generation.
Proof. unfold ownsGeneration. intros H. by bool_prop. Qed.

Lemma commitView_at U store reads rest m request generation loaded read :
  read = {| rd_kind := ForRefresh request generation; rd_answer := Some loaded |} ->
  remaining read reads rest -> coherentAt U store reads m (rd_key read) ->
  coherentAt U store rest (commitView localeCompare request generation loaded m).1 (rd_key read).
Proof.
  intros -> Hrem Hm. change (rd_key _) with (threadSummaryViewKey request) in Hm |- *.
  pose proof Hm as [H1 H2 H3 H4 H5]. unfold commitView.
  destruct (ownsGeneration request generation m) eqn:Ec.
  2:{ eapply coherent_reads; [|exact Hm]. intros other Ho. by apply Hrem in Ho as [? _]. }
  apply ownsGeneration_true in Ec as [Hc Hg]. pose proof (proj1 Hrem) as Hin.
  destruct (H5 _ Hin eq_refl) as [_ Ho]. destruct (Ho Hg) as (changes & Hf & Ha).
  change (rd_key _) with (threadSummaryViewKey request) in Hf. rewrite Hf. cbn [fst]. rewrite Nat.eqb_refl.
  apply (refreshed_at _ _ reads _ _ _ _ _ Hrem); try done.
  - apply reproject_distinct.
  - eapply (derived_stored changes); [by apply (H3 changes generation)| |apply reproject_derived].
    intros row. by apply Ha.
Qed.

Lemma failView_at U store reads rest m request generation cause read :
  rd_kind read = ForRefresh request generation ->
  remaining read reads rest -> coherentAt U store reads m (rd_key read) ->
  coherentAt U store rest (failView request generation cause m) (rd_key read).
Proof.
  intros Hkind Hrem Hm.
  assert (Hk : rd_key read = threadSummaryViewKey request) by (unfold rd_key, rd_request; by rewrite Hkind).
  assert (Hrg : rd_generation read = generation) by (unfold rd_generation; by rewrite Hkind).
  unfold failView. rewrite <- Hk. destruct (ownsGeneration request generation m) eqn:Ec.
  2:{ eapply coherent_reads; [|exact Hm]. intros other Ho. by apply Hrem in Ho as [? _]. }
  apply ownsGeneration_true in Ec as [Hc Hg]. destruct (snapshot_view _ _ _ _ _ Hm) as [Hd Hs].
  apply (refreshed_at _ _ reads _ _ _ _ _ Hrem); try done. by rewrite Hk, Hrg.
Qed.

(** *** A read begins *)

Definition withRead (read : SummaryRead) (reads : list SummaryRead) : list SummaryRead := reads ++ [read].

Lemma begin_entries request initial attempt m :
  let k := threadSummaryViewKey request in
  let m' := (beginResourceLoad request initial attempt m).1 in
  m_views m' = m_views m /\ m_closed m' = m_closed m /\ m_refreshChanges m' = m_refreshChanges m
  /\ m_requests m' = mset k request (m_requests m) /\ m_generations m' = mset k (S (generationOf k m)) (m_generations m)
  /\ mget k (m_resources m')
     = beginRecord (threadSummaryViewRequestKey request) (S (generationOf k m)) attempt <$> mget k (m_resources m).
Proof.
  cbn zeta. unfold beginResourceLoad. cbn [fst fresh requestAs m_resources].
  destruct (mget _ (m_resources m)) as [record|] eqn:E; [|split_and!; try done; cbn; by rewrite E].
  split_and!; try (by destruct (rs_retryTimer record)). cbn. by rewrite mget_mset_eq.
Qed.

Lemma clearTimeout_same k handle m : sameAt k m (clearTimeout handle m).
Proof. by destruct handle. Qed.

Lemma begin_same k request initial attempt m :
  k <> threadSummaryViewKey request -> sameAt k m (beginResourceLoad request initial attempt m).1.
Proof.
  intros Hk. unfold beginResourceLoad. cbn [fst].
  assert (Hr : sameAt k m (fresh (requestAs (threadSummaryViewKey request)
                (S (generationOf (threadSummaryViewKey request) m)) request m))).
  { split_and!; try done; cbn; by rewrite mget_mset_ne. }
  case_match; [|exact Hr]. eapply sameAt_trans; [exact Hr|].
  eapply sameAt_trans; [apply clearTimeout_same|by apply setRecord_same].
Qed.

(** What a load needs of the key it begins at. *)
Record loadable (U : list SummaryChange) (store : list (jstr * StoredThreadSummary)) (reads : list SummaryRead)
    (m : ThreadSummaryModel) (k : jstr) : Prop :=
  { lo_view : forall snapshot, mget k (m_views m) = Some snapshot ->
      distinct (sn_content snapshot) /\ forall row, row ∈ viewRows (sn_content snapshot) -> stored U store row;
    lo_pending : forall record, mget k (m_resources m) = Some record -> tracks (rs_pendingChanges record ++ U) store;
    lo_collected : forall changes generation, mget k (m_refreshChanges m) = Some (changes, generation) ->
      generation <= generationOf k m;
    lo_reads : forall read, read ∈ reads -> rd_key read = k -> rd_generation read <= generationOf k m }.

Lemma coherent_loadable U store reads m k :
  m_closed m = false -> coherentAt U store reads m k -> loadable U store reads m k.
Proof.
  intros Hc [H1 H2 H3 H4 H5]. split; [done|..].
  - intros record Hr. by apply H2.
  - intros changes g Hf. by eapply H3.
  - intros read Hin Hk. by apply (H5 read Hin Hk).
Qed.

Lemma begin_at U store reads request initial attempt m :
  let k := threadSummaryViewKey request in
  let '(m', load) := beginResourceLoad request initial attempt m in
  loadable U store reads m k ->
  coherentAt U store (withRead {| rd_kind := ForResource load; rd_answer := None |} reads) m' k.
Proof.
  cbn zeta. destruct (begin_entries request initial attempt m) as (Hv & Hc & Hf & Hq & Hg & Hr).
  set (k := threadSummaryViewKey request) in *.
  assert (Hload : (beginResourceLoad request initial attempt m).2
    = {| ld_id := m_next m; ld_request := request; ld_generation := S (generationOf k m); ld_initial := initial |}) by done.
  destruct (beginResourceLoad request initial attempt m) as [m' load]. cbn [fst snd] in *. subst load.
  intros [H1 H2 H3 H4]. assert (Hgen : generationOf k m' = S (generationOf k m)) by (unfold generationOf; by rewrite Hg, mget_mset_eq).
  split.
  - intros sn. rewrite Hv. apply H1.
  - intros record. rewrite Hr, Hgen. intros (record0 & Hrec & ->)%fmap_Some. cbn. split; [by apply H2|lia].
  - intros changes g. rewrite Hf, Hg, mget_mset_eq, Hgen. intros Hch. pose proof (H3 changes g Hch). split; [lia|].
    intros [= Hg']. lia.
  - intros _. rewrite Hq, mget_mset_eq. by eexists.
  - intros read [Hin| ->%list_elem_of_singleton]%elem_of_app Hk; rewrite Hgen.
    + pose proof (H4 read Hin Hk). split; [lia|]. unfold readOk. rewrite Hk. unfold rd_generation in *.
      destruct (rd_kind read).
      * intros record. rewrite Hr. intros (record0 & Hrec & ->)%fmap_Some. cbn. lia.
      * rewrite Hg, mget_mset_eq. intros [= Heq]. lia.
    + split; [done|]. unfold readOk. cbn. change (rd_key _) with k. intros record. rewrite Hr.
      intros (record0 & Hrec & ->)%fmap_Some _. cbn. done.
Qed.

(** A record changed in what the invariant does not mention. *)
Lemma setRecord_at U store reads m k record record' :
  mget k (m_resources m) = Some record -> rs_generation record' = rs_generation record ->
  rs_pendingChanges record' = rs_pendingChanges record -> rs_loadingRevision record' = rs_loadingRevision record ->
  coherentAt U store reads m k -> coherentAt U store reads (setRecord k record' m) k.
Proof.
  intros Hr Hg Hp Hl [H1 H2 H3 H4 H5]. split; try done.
  - intros r. cbn. rewrite mget_mset_eq. intros [= <-]. rewrite Hp, Hg. by apply H2.
  - intros read Hin Hk. destruct (H5 read Hin Hk) as [Hle Ho]. split; [done|]. unfold readOk in *. rewrite Hk in *.
    destruct (rd_kind read); [|done]. intros r. cbn. rewrite mget_mset_eq. intros [= <-]. rewrite Hp, Hg, Hl. by apply Ho.
Qed.

Lemma awaitLoad_at U store reads m k load :
  coherentAt U store reads m k -> coherentAt U store reads (awaitLoad k load m) k.
Proof. intros Hm. unfold awaitLoad. case_match eqn:E; [by eapply setRecord_at|done]. Qed.

Lemma awaitLoad_same k k' load m : k <> k' -> sameAt k m (awaitLoad k' load m).
Proof. intros Hk. unfold awaitLoad. case_match; [by apply setRecord_same|done]. Qed.

Lemma openView_at U store reads m k :
  is_Some (mget k (m_requests m)) -> coherentAt U store reads m k ->
  coherentAt U store reads (openView k m) k /\ seenAt (openView k m) k.
Proof.
  intros Hq Hm. destruct (snapshot_view _ _ _ _ _ Hm) as [Hd Hs]. destruct Hm as [H1 H2 H3 H4 H5]. split.
  - split; try done. intros sn. cbn. rewrite mget_mset_eq. by intros [= <-].
  - intros _. cbn. rewrite mget_mset_eq. by eexists.
Qed.

Lemma openView_same k k' m : k <> k' -> sameAt k m (openView k' m).
Proof. apply setSnapshot_same. Qed.

(** The reads of a list after an operation that may have started one. *)
Definition startedReads (load : option SummaryLoad) (reads : list SummaryRead) : list SummaryRead :=
  match load with
  | Some load => withRead {| rd_kind := ForResource load; rd_answer := None |} reads
  | None => reads
  end.

(** An operation on one key that may start a load. *)
Definition starts (U : list SummaryChange) (store : list (jstr * StoredThreadSummary)) (reads : list SummaryRead)
    (k : jstr) (m : ThreadSummaryModel) (result : ThreadSummaryModel * option SummaryLoad) : Prop :=
  coherentAt U store (startedReads result.2 reads) result.1 k
  /\ is_Some (mget k (m_requests result.1))
  /\ (forall k', k' <> k -> sameAt k' m result.1)
  /\ m_closed result.1 = m_closed m
  /\ (forall load, result.2 = Some load ->
        threadSummaryViewKey (ld_request load) = k /\ ld_generation load = S (generationOf k m))
  /\ m_views result.1 = m_views m.

Lemma begin_starts U store reads request initial attempt m m0 :
  let k := threadSummaryViewKey request in
  loadable U store reads m k -> (forall k', k' <> k -> sameAt k' m0 m) -> m_closed m = m_closed m0 ->
  generationOf k m = generationOf k m0 -> m_views m = m_views m0 ->
  let '(m', load) := beginResourceLoad request initial attempt m in
  starts U store reads k m0 (m', Some load).
Proof.
  cbn zeta. intros Hl Hs Hc Hg Hv. pose proof (begin_at U store reads request initial attempt m) as Hb.
  destruct (begin_entries request initial attempt m) as (Hv' & Hc' & Hf' & Hq' & Hg' & Hr').
  pose proof (fun k Hk => begin_same k request initial attempt m Hk) as Hs'.
  assert (Hload : (beginResourceLoad request initial attempt m).2
    = {| ld_id := m_next m; ld_request := request;
         ld_generation := S (generationOf (threadSummaryViewKey request) m); ld_initial := initial |}) by done.
  destruct (beginResourceLoad request initial attempt m) as [m' load]. cbn [fst snd] in *. split_and!.
  - by apply Hb.
  - cbn. rewrite Hq', mget_mset_eq. by eexists.
  - intros k' Hk. eapply sameAt_trans; [by apply Hs|by apply Hs'].
  - cbn. congruence.
  - intros load' [= <-]. subst load. cbn. by rewrite Hg.
  - cbn. congruence.
Qed.

Lemma awaited_starts U store reads request m m0 :
  let k := threadSummaryViewKey request in
  loadable U store reads m k -> (forall k', k' <> k -> sameAt k' m0 m) -> m_closed m = m_closed m0 ->
  generationOf k m = generationOf k m0 -> m_views m = m_views m0 ->
  starts U store reads k m0 (startAwaited request m).
Proof.
  cbn zeta. intros Hl Hs Hc Hg Hv. pose proof (begin_starts U store reads request true 0 m m0 Hl Hs Hc Hg Hv) as Hb.
  unfold startAwaited. destruct (beginResourceLoad request true 0 m) as [m' load].
  destruct Hb as (H1 & H2 & H3 & H4 & H5 & H6). split_and!; cbn [fst snd] in *.
  - by apply awaitLoad_at.
  - unfold awaitLoad. by case_match.
  - intros k' Hk. eapply sameAt_trans; [by apply H3|by apply awaitLoad_same].
  - unfold awaitLoad. by case_match.
  - exact H5.
  - unfold awaitLoad. by case_match.
Qed.

(** A promise of rows, with or without a load. *)
Lemma resource_starts U store reads request m m' load :
  let k := threadSummaryViewKey request in
  tracks U store -> coherentAt U store reads m k -> seenAt m k -> resource request m = Some (m', load) ->
  coherentAt U store (startedReads load reads) m' k /\ seenAt m' k
  /\ (forall k', k' <> k -> sameAt k' m m') /\ m_closed m = false /\ m_closed m' = false
  /\ (forall load', load = Some load' ->
        threadSummaryViewKey (ld_request load') = k /\ ld_generation load' = S (generationOf k m))
  /\ m_views m' = mset k (snapshotAt k m) (m_views m).
Proof.
  cbn zeta. intros HU Hm Hseen. unfold resource. set (k := threadSummaryViewKey request) in *.
  destruct (m_closed m) eqn:Hc; [done|].
  assert (Hl := coherent_loadable _ _ _ _ _ Hc Hm).
  match goal with |- context [match ?e with (x, y) => Some (openView k x, y) end] => set (result := e) end.
  assert (Hres : starts U store reads k m result).
  { subst result. destruct (mget k (m_resources m)) as [record|] eqn:Er.
    - assert (Hq : is_Some (mget k (m_requests m))).
      { apply (ca_requested _ _ _ _ _ Hm). left. apply Hseen. left. by rewrite Er. }
      repeat case_match; simplify_eq; try by apply awaited_starts.
      + pose proof (begin_starts U store reads request false 0 m m Hl) as Hb. cbn zeta in Hb. unfold k in *.
        destruct (beginResourceLoad request false 0 m) as [m1 load1]. simplify_eq. by apply Hb.
      + split_and!; by try done.
    - apply awaited_starts; try done.
      + destruct Hl as [H1 H2 H3 H4]. split; try done. intros r. cbn. fold k. rewrite mget_mset_eq.
        by intros [= <-].
      + intros k' Hk. eapply sameAt_trans; [|by apply setRecord_same]. done. }
  destruct result as [m1 load1]. intros [= <- <-]. destruct Hres as (H1 & H2 & H3 & H4 & H5 & H6). cbn [fst snd] in *.
  destruct (openView_at _ _ _ _ _ H2 H1) as [H7 H8]. split_and!; try done.
  - intros k' Hk. eapply sameAt_trans; [by apply H3|by apply openView_same].
  - cbn. by rewrite H4.
  - cbn. rewrite H6. unfold snapshotAt. by rewrite H6.
Qed.

Lemma fireTimer_starts U store reads timer m :
  let k := threadSummaryViewKey (tm_request timer) in
  coherentAt U store reads m k -> seenAt m k ->
  fireTimer timer m = (setTimers (filter (fun t => tm_id t <> tm_id timer) (m_timers m)) m, None)
  \/ m_closed m = false /\ is_Some (mget k (m_resources m)) /\ starts U store reads k m (fireTimer timer m).
Proof.
  cbn zeta. intros Hm Hseen. unfold fireTimer. set (k := threadSummaryViewKey (tm_request timer)) in *.
  set (m0 := setTimers _ m). change (m_resources m0) with (m_resources m).
  destruct (mget k (m_resources m)) as [latest|] eqn:Er; [|by left].
  destruct (m_closed m0 || _ || _ || _) eqn:Eb; [by left|]. right. bool_prop.
  change (m_closed m = false) in H. split; [done|]. split; [by eexists|].
  assert (Hl : loadable U store reads m0 k) by (apply coherent_loadable; [done|by apply (coherent_frame _ _ _ m)]).
  pose proof (begin_starts U store reads (tm_request timer) false (S (rs_retryAttempt latest)) m0 m Hl) as Hb.
  cbn zeta in Hb. unfold k in *. destruct (beginResourceLoad _ _ _ m0) as [m1 load]. by apply Hb.
Qed.

Lemma startView_at U store reads request m m' generation :
  let k := threadSummaryViewKey request in
  tracks U store -> coherentAt U store reads m k -> startView request m = Some (m', generation) ->
  coherentAt U store (withRead {| rd_kind := ForRefresh request generation; rd_answer := None |} reads) m' k
  /\ seenAt m' k /\ (forall k', k' <> k -> sameAt k' m m') /\ m_closed m = false /\ m_closed m' = false
  /\ generation = S (generationOf k m)
  /\ exists snapshot, m_views m' = mset k snapshot (m_views m).
Proof.
  cbn zeta. intros HU Hm. unfold startView. set (k := threadSummaryViewKey request) in *.
  destruct (m_closed m) eqn:Hc; [done|]. intros [= <- <-].
  destruct (snapshot_view _ _ _ _ _ Hm) as [Hd Hs]. destruct Hm as [H1 H2 H3 H4 H5].
  split_and!; try done; [|..|by eexists].
  - split.
    + intros sn. cbn. rewrite mget_mset_eq. by intros [= <-].
    + intros record Hr. destruct (H2 record Hr). split; [done|]. unfold generationOf at 1. cbn.
      rewrite mget_mset_eq. cbn. lia.
    + intros changes g. unfold generationOf at 1. cbn. rewrite !mget_mset_eq. cbn. by intros [= <- <-].
    + intros _. cbn. rewrite mget_mset_eq. by eexists.
    + intros read [Hin| ->%list_elem_of_singleton]%elem_of_app Hk; unfold generationOf at 1; cbn; rewrite mget_mset_eq; cbn.
      * destruct (H5 read Hin Hk) as [Hle Ho]. specialize (Hle Hc). split; [lia|]. unfold readOk in *. rewrite Hk in *.
        unfold rd_generation in Hle. destruct (rd_kind read); [exact Ho|]. cbn. rewrite mget_mset_eq. intros [= Heq].
        exfalso. lia.
      * split; [done|]. intros _. cbn. change (rd_key _) with k. rewrite mget_mset_eq. by exists [].
  - intros _. cbn. rewrite mget_mset_eq. by eexists.
  - intros k' Hk. split_and!; try done; cbn; by rewrite mget_mset_ne.
Qed.

Lemma evict_entries k m :
  let m' := evict k m in
  m_views m' = mdel k (m_views m) /\ m_requests m' = mdel k (m_requests m)
  /\ m_generations m' = mdel k (m_generations m) /\ m_resources m' = mdel k (m_resources m)
  /\ m_refreshChanges m' = mdel k (m_refreshChanges m) /\ m_closed m' = m_closed m.
Proof. cbn zeta. unfold evict. by destruct (mget k (m_resources m) ≫= rs_retryTimer). Qed.

Lemma evict_same k k' m : k <> k' -> sameAt k m (evict k' m).
Proof.
  intros Hk. destruct (evict_entries k' m) as (Hv & Hq & Hg & Hr & Hf & Hc). unfold sameAt.
  rewrite Hv, Hq, Hg, Hr, Hf, Hc. by rewrite !mget_mdel_ne.
Qed.

Lemma evict_at U store reads m k :
  (forall read, read ∈ reads -> rd_key read <> k) -> coherentAt U store reads (evict k m) k /\ seenAt (evict k m) k.
Proof.
  intros Hk. destruct (evict_entries k m) as (Hv & Hq & Hg & Hr & Hf & Hc).
  split; [split|]; rewrite ?Hv, ?Hq, ?Hg, ?Hr, ?Hf, ?mget_mdel_eq; try done.
  - by intros [[? [=]]|[? [=]]].
  - intros read Hin Heq. by destruct (Hk read Hin).
  - unfold seenAt. rewrite Hr, Hf, !mget_mdel_eq. by intros [[? [=]]|[? [=]]].
Qed.

(** A closed model has nothing to be wrong about. *)
Definition emptied (m : ThreadSummaryModel) : Prop :=
  m_views m = [] /\ m_requests m = [] /\ m_generations m = [] /\ m_resources m = [] /\ m_refreshChanges m = [].

Lemma emptied_at U store reads m k : m_closed m = true -> emptied m -> coherentAt U store reads m k /\ seenAt m k.
Proof.
  intros Hc (Hv & Hq & Hg & Hr & Hf). split; [split|]; rewrite ?Hv, ?Hq, ?Hg, ?Hr, ?Hf, ?Hc; try done.
  - by intros [[? [=]]|[? [=]]].
  - intros read _ Hk. split; [done|]. unfold readOk. rewrite Hr, Hf, Hg. by destruct (rd_kind read).
  - unfold seenAt. rewrite Hr, Hf. by intros [[? [=]]|[? [=]]].
Qed.

(** ** The invariant of a list *)

Definition readId (read : SummaryRead) : jstr * nat := (rd_key read, rd_generation read).

Record coherent (s : ThreadList) : Prop :=
  { co_keyed : keyed (tl_store s);
    co_tracks : tracks (tl_unpublished s) (tl_store s);
    co_views : mwf (m_views (tl_model s));
    co_reads : NoDup (readId <$> tl_reads s);
    co_closed : m_closed (tl_model s) = true -> emptied (tl_model s);
    co_at : forall k, coherentAt (tl_unpublished s) (tl_store s) (tl_reads s) (tl_model s) k /\ seenAt (tl_model s) k }.

(** A step at one key: the others are as they were. *)
Lemma coherent_at_key s m reads k :
  coherent s -> mwf (m_views m) -> NoDup (readId <$> reads) ->
  (m_closed (tl_model s) = true -> emptied m) -> (forall k', k' <> k -> sameAt k' (tl_model s) m) ->
  m_closed m = m_closed (tl_model s) ->
  coherentAt (tl_unpublished s) (tl_store s) reads m k -> seenAt m k ->
  (forall read, read ∈ reads -> rd_key read <> k -> read ∈ tl_reads s) ->
  coherent (withReads reads (withModel m s)).
Proof.
  intros [H1 H2 H3 H4 H5 H6] Hv Hn Hc Hs Hcl Hk Hseen Hsub. split; cbn; try done; [by rewrite Hcl|].
  intros k'. destruct (decide (k' = k)) as [->|Hne]; [done|]. destruct (H6 k') as [Hat Hsn].
  split; [|by eapply seen_frame; [apply Hs|]]. eapply coherent_frame; [by apply Hs|].
  destruct Hat as [A1 A2 A3 A4 A5]. split; try done. intros read Hin Hkey. apply A5; [|done]. apply Hsub; congruence.
Qed.

(** Nothing happens but that a read ends. *)
Lemma coherent_fewer s reads :
  coherent s -> NoDup (readId <$> reads) -> (forall read, read ∈ reads -> read ∈ tl_reads s) ->
  coherent (withReads reads s).
Proof.
  intros [H1 H2 H3 H4 H5 H6] Hn Hsub. split; cbn; try done. intros k. destruct (H6 k) as [Hat Hsn].
  split; [|done]. by eapply coherent_reads.
Qed.

Lemma delete_remaining s i read :
  coherent s -> tl_reads s !! i = Some read ->
  NoDup (readId <$> delete i (tl_reads s)) /\ remaining read (tl_reads s) (delete i (tl_reads s)).
Proof.
  intros [_ _ _ Hn _ _] Hi. pose proof (delete_Permutation _ _ _ Hi) as Hp.
  rewrite Hp in Hn. cbn [fmap list_fmap] in Hn. apply NoDup_cons in Hn as [Hnot Hn].
  split; [done|]. split; [by eapply list_elem_of_lookup_2|]. intros other Ho. split.
  - rewrite Hp. by right.
  - intros Hk Hg. apply Hnot. replace (readId read) with (readId other) by (unfold readId; congruence).
    by apply list_elem_of_fmap_2.
Qed.

Lemma withRead_distinct s kind :
  coherent s -> m_closed (tl_model s) = false ->
  let read := {| rd_kind := kind; rd_answer := None |} in
  rd_generation read = S (generationOf (rd_key read) (tl_model s)) ->
  NoDup (readId <$> withRead read (tl_reads s)).
Proof.
  intros [_ _ _ Hn _ Hat] Hc read Hg. unfold withRead. rewrite fmap_app. apply NoDup_app. split_and!; [done| |apply NoDup_singleton].
  intros x (other & -> & Ho)%list_elem_of_fmap Hx%list_elem_of_singleton. injection Hx as Hk Hgen.
  destruct (ca_reads _ _ _ _ _ (proj1 (Hat (rd_key read))) other Ho Hk) as [Hle _]. specialize (Hle Hc). lia.
Qed.

Abbreviation step := (listStep localeCompare).

Lemma written_coherent s c : coherent s -> coherent (step s (RowWritten c)).
Proof.
  intros [H1 H2 H3 H4 H5 H6]. split; cbn; try done; [by apply keyed_change|by apply tracks_write|].
  intros k. destruct (H6 k). split; [by apply coherent_write|done].
Qed.

Lemma take_drop_coherent s n k :
  coherent s ->
  coherentAt (take n (tl_unpublished s) ++ drop n (tl_unpublished s)) (tl_store s) (tl_reads s) (tl_model s) k.
Proof. intros Hs. rewrite take_drop. apply Hs. Qed.

Lemma published_keys changes m keys :
  (forall k, k ∈ keys -> is_Some (mget k (m_views m))) -> mwf (m_views m) ->
  let m' := foldl (publishing changes) m keys in
  mwf (m_views m') /\ m_closed m' = m_closed m
  /\ forall k, (is_Some (mget k (m_views m)) -> is_Some (mget k (m_views m'))) /\ (seenAt m k -> seenAt m' k).
Proof.
  revert m. induction keys as [|k0 keys IH]; intros m Hv Hw; [done|].
  assert (Hstep : mwf (m_views (publishing changes m k0))
    /\ forall k, is_Some (mget k (m_views m)) -> is_Some (mget k (m_views (publishing changes m k0)))).
  { unfold publishView. destruct (mget k0 (m_requests m)) as [request|]; [|done].
    destruct (collectPending_entries changes k0 m) as (_ & Hv1 & _).
    destruct (collectRefresh_entries changes k0 (collectPending changes k0 m)) as (_ & Hv2 & _).
    unfold showChanges. destruct (publishedContent _ _ _ _ _) as [content []]; [|by rewrite Hv2, Hv1].
    cbn. rewrite Hv2, Hv1. split; [by apply mset_wf|]. intros k Hk. rewrite mget_mset. by case_bool_decide. }
  destruct Hstep as [Hw' Hsome]. cbn.
  destruct (IH (publishing changes m k0)) as (Hw'' & Hc & Hk).
  - intros k Hin. apply Hsome, Hv. by right.
  - done.
  - split_and!; [done|by rewrite Hc, publishView_closed|]. intros k. destruct (Hk k) as [Hk1 Hk2]. split; [auto|].
    intros Hseen. apply Hk2. intros Hrf. destruct (decide (k = k0)) as [->|Hne]; [apply Hsome, Hv; left|].
    destruct (publishView_same changes k k0 m Hne) as (_ & Hvk & _ & _ & Hr & Hf). rewrite Hvk. apply Hseen.
    by rewrite <- Hr, <- Hf.
Qed.

Lemma published_coherent s n :
  coherent s -> allowed s (ChangesPublished n) = true -> coherent (step s (ChangesPublished n)).
Proof.
  intros Hs Hallow. pose proof Hs as [H1 H2 H3 H4 H5 H6]. cbn. unfold publishChanges.
  set (X := take n (tl_unpublished s)) in *. set (D := drop n (tl_unpublished s)).
  assert (HXD : tl_unpublished s = X ++ D) by (symmetry; apply take_drop).
  assert (HD : tracks D (tl_store s)) by (rewrite HXD in H2; by apply tracks_suffix in H2).
  destruct (m_closed (tl_model s)) eqn:Hc; cbn [orb].
  { split; cbn; try done; [by rewrite Hc|]. intros k. by apply emptied_at; [|apply H5]. }
  case_bool_decide as HX.
  { split; cbn; try done; [by rewrite Hc|]. intros k. destruct (H6 k) as [Hat Hsn]. by rewrite HXD, HX in Hat. }
  unfold allowed in Hallow. fold X in Hallow. rewrite (bool_decide_false _ HX) in Hallow. cbn [orb] in Hallow.
  assert (Hi : forall k, idleClean (tl_model s) k).
  { intros k record Hr%mget_elem%list_elem_of_In. rewrite forallb_forall in Hallow. specialize (Hallow _ Hr). cbn in Hallow.
    apply orb_true_iff in Hallow as [Ha%bool_decide_eq_true|Ha%bool_decide_eq_true]; [left; by destruct Ha as [? ->]|by right]. }
  assert (Hv : forall k, k ∈ mkeys (m_views (tl_model s)) -> is_Some (mget k (m_views (tl_model s)))).
  { intros k. apply mget_is_Some. }
  destruct (published_keys X (tl_model s) (mkeys (m_views (tl_model s))) Hv H3) as (Hw & Hcl & Hk).
  split; cbn; try done; [by rewrite Hcl, Hc|].
  intros k. split; [|by apply Hk, H6].
  apply (publish_fold X D); [by rewrite <- HXD|done|done|done|]. intros k'. destruct (H6 k') as [Hat Hsn].
  rewrite HXD in Hat. case_decide as Hin; [done|]. eapply coherent_unviewed; [|done|exact Hat].
  apply eq_None_not_Some. intros ?%mget_is_Some. done.
Qed.

Lemma openView_wf k m : mwf (m_views m) -> mwf (m_views (openView k m)).
Proof. apply mset_wf. Qed.

Lemma reads_at reads read k : rd_key read = k -> forall other, other ∈ withRead read reads -> rd_key other <> k -> other ∈ reads.
Proof. intros Hk other [Ho| ->%list_elem_of_singleton]%elem_of_app Hne; [done|congruence]. Qed.

Lemma starting_reads result s : tl_reads (starting result s) = startedReads result.2 (tl_reads s).
Proof. unfold starting, startedReads. cbn. by destruct result.2; cbn; rewrite ?app_nil_r. Qed.

Lemma starting_eq result s : starting result s = withReads (startedReads result.2 (tl_reads s)) (withModel result.1 s).
Proof. rewrite <- starting_reads. done. Qed.

Lemma started_coherent s k m load :
  coherent s -> m_closed (tl_model s) = false -> m_closed m = false -> mwf (m_views m) ->
  coherentAt (tl_unpublished s) (tl_store s) (startedReads load (tl_reads s)) m k -> seenAt m k ->
  (forall k', k' <> k -> sameAt k' (tl_model s) m) ->
  (forall load', load = Some load' ->
     threadSummaryViewKey (ld_request load') = k /\ ld_generation load' = S (generationOf k (tl_model s))) ->
  coherent (starting (m, load) s).
Proof.
  intros Hs Hc Hc' Hw Hat Hseen Hsame Hload. rewrite starting_eq. cbn [fst snd].
  apply (coherent_at_key s m _ k); try done; [|by rewrite Hc|by rewrite Hc|].
  - destruct load as [load|]; [|by apply Hs]. destruct (Hload load eq_refl) as [Hk Hg].
    apply withRead_distinct; [done|done|]. cbn. by rewrite <- Hk in Hg.
  - destruct load as [load|]; [|done]. destruct (Hload load eq_refl) as [Hk Hg]. by apply reads_at.
Qed.

Lemma used_coherent s request : coherent s -> coherent (step s (ResourceUsed request)).
Proof.
  intros Hs. cbn. destruct (resource request (tl_model s)) as [[m load]|] eqn:E; [|done].
  destruct (co_at s Hs (threadSummaryViewKey request)) as [Hat Hseen].
  destruct (resource_starts _ _ _ _ _ _ _ (co_tracks s Hs) Hat Hseen E) as (H1 & H2 & H3 & H4 & H5 & H6 & H7).
  eapply started_coherent; try done. rewrite H7. apply mset_wf, Hs.
Qed.

Lemma fired_coherent s i : coherent s -> coherent (step s (TimerFired i)).
Proof.
  intros Hs. cbn. destruct (m_timers (tl_model s) !! i) as [timer|]; [|done].
  destruct (co_at s Hs (threadSummaryViewKey (tm_request timer))) as [Hat Hseen].
  destruct (fireTimer_starts _ _ _ timer _ Hat Hseen) as [E|(Hc & Hr & Hst)].
  - rewrite E, starting_eq. cbn [fst snd startedReads].
    apply (coherent_at_key s _ _ (threadSummaryViewKey (tm_request timer))); try done; try apply Hs.
    by apply (coherent_frame _ _ _ (tl_model s)).
  - destruct (fireTimer timer (tl_model s)) as [m load]. destruct Hst as (H1 & H2 & H3 & H4 & H5 & H6). cbn [fst snd] in *.
    eapply started_coherent; try done; [congruence|rewrite H6; apply Hs|].
    intros _. rewrite H6. apply Hseen. by left.
Qed.

Lemma viewRefreshed_coherent s request : coherent s -> coherent (step s (ViewRefreshed request)).
Proof.
  intros Hs. cbn. destruct (startView request (tl_model s)) as [[m generation]|] eqn:E; [|done].
  destruct (co_at s Hs (threadSummaryViewKey request)) as [Hat Hseen].
  destruct (startView_at _ _ _ _ _ _ _ (co_tracks s Hs) Hat E) as (H1 & H2 & H3 & H4 & H5 & H6 & sn & H7).
  apply (coherent_at_key s m _ (threadSummaryViewKey request)); try done.
  - rewrite H7. apply mset_wf, Hs.
  - by apply withRead_distinct.
  - by rewrite H4.
  - by rewrite H4.
  - by apply reads_at.
Qed.

Lemma answered_coherent s i loaded :
  coherent s -> allowed s (ReadAnswered i loaded) = true -> coherent (step s (ReadAnswered i loaded)).
Proof.
  intros Hs Hallow. cbn. destruct (tl_reads s !! i) as [[kind [answer|]]|] eqn:Ei; try done.
  set (read := {| rd_kind := kind; rd_answer := Some loaded |}).
  pose proof Hs as [H1 H2 H3 H4 H5 H6]. split; cbn; try done.
  - replace (readId <$> _) with (readId <$> tl_reads s); [done|]. rewrite list_fmap_insert.
    symmetry. apply list_insert_id. by rewrite list_lookup_fmap, Ei.
  - intros k. destruct (H6 k) as [Hat Hsn]. split; [|done]. pose proof Hat as [A1 A2 A3 A4 A5]. split; try done.
    intros other [j Hj]%list_elem_of_lookup_1 Hk. rewrite list_lookup_insert in Hj. case_decide as Hij.
    2:{ apply A5; [by eapply list_elem_of_lookup_2|done]. }
    injection Hj as <-. destruct Hij as [<- _].
    destruct (A5 _ (list_elem_of_lookup_2 _ _ _ Ei) Hk) as [Hle Ho]. split; [exact Hle|].
    assert (Hstored : forall changes row, row ∈ viewRows loaded -> stored (changes ++ tl_unpublished s) (tl_store s) row).
    { intros changes row Hrow. right. cbn in Hallow. rewrite forallb_forall in Hallow.
      apply list_elem_of_In, Hallow in Hrow. by apply bool_decide_eq_true in Hrow. }
    unfold readOk in *. cbn in *. destruct kind as [load|req g].
    + intros record Hr Hg. destruct (Ho record Hr Hg) as [Hl _]. split; [done|]. intros view [= <-] row. apply Hstored.
    + intros Hg. destruct (Ho Hg) as (changes & Hf & _). exists changes. split; [done|]. intros view [= <-] row. apply Hstored.
Qed.

(** A read ended, and the model is another under its key only. *)
Lemma ended_coherent s i read m :
  coherent s -> tl_reads s !! i = Some read -> mwf (m_views m) -> m_closed m = m_closed (tl_model s) ->
  (m_closed (tl_model s) = true -> m = tl_model s) ->
  (forall k', k' <> rd_key read -> sameAt k' (tl_model s) m) ->
  coherentAt (tl_unpublished s) (tl_store s) (delete i (tl_reads s)) m (rd_key read) -> seenAt m (rd_key read) ->
  coherent (withReads (delete i (tl_reads s)) (withModel m s)).
Proof.
  intros Hs Hi Hw Hc Hcl Hsame Hat Hseen. destruct (delete_remaining s i read Hs Hi) as [Hn [_ Hrem]].
  apply (coherent_at_key s m _ (rd_key read)); try done.
  - intros H. rewrite (Hcl H). by apply Hs.
  - intros other Ho _. by apply Hrem.
Qed.

(** What the end of a read leaves alone. *)
Definition localTo (k : jstr) (m m' : ThreadSummaryModel) : Prop :=
  (m' = m \/ m_closed m = false /\ is_Some (mget k (m_views m'))) /\ m_closed m' = m_closed m
  /\ (mwf (m_views m) -> mwf (m_views m')) /\ forall k', k' <> k -> sameAt k' m m'.

Lemma localTo_refl k m : localTo k m m.
Proof. split_and!; [by left|done..]. Qed.

Lemma localTo_set k sn m0 m :
  m_closed m = false -> m_views m0 = m_views m -> m_closed m0 = m_closed m -> (forall k', k' <> k -> sameAt k' m m0) ->
  localTo k m (setSnapshot k sn m0).
Proof.
  intros Hc Hv Hc0 Hs. split_and!; try done.
  - right. split; [done|]. cbn. rewrite mget_mset_eq. by eexists.
  - cbn. rewrite Hv. by apply mset_wf.
  - intros k' Hk. eapply sameAt_trans; [by apply Hs|by apply setSnapshot_same].
Qed.

Lemma resolveLoad_local load loaded m :
  localTo (threadSummaryViewKey (ld_request load)) m (resolveLoad localeCompare load loaded m).
Proof.
  unfold resolveLoad. destruct (ownedRecord load m) as [current|] eqn:E; [|apply localTo_refl].
  apply ownedRecord_Some in E as (Hc & _). apply localTo_set; try done. intros k' Hk. by apply setRecord_same.
Qed.

Lemma rejectLoad_local load cause m :
  localTo (threadSummaryViewKey (ld_request load)) m (rejectLoad load cause m).
Proof.
  unfold rejectLoad. destruct (ownedRecord load m) as [current|] eqn:E; [|apply localTo_refl].
  apply ownedRecord_Some in E as (Hc & _).
  set (sn := failed cause _). set (k := threadSummaryViewKey _).
  destruct (ld_initial load).
  - refine (localTo_set k sn (setRecord k _ m) m Hc eq_refl eq_refl _). intros k' Hk. by apply setRecord_same.
  - refine (localTo_set k sn (fresh (setTimers (m_timers m ++ [_]) (setRecord k _ m))) m Hc eq_refl eq_refl _).
    intros k' Hk. by apply (setRecord_same _ _ (failedRecord false (Some (m_next m)) current) m Hk).
Qed.

Lemma commitView_local request generation loaded m :
  localTo (threadSummaryViewKey request) m (commitView localeCompare request generation loaded m).1.
Proof.
  unfold commitView. destruct (ownsGeneration request generation m) eqn:E; [|apply localTo_refl].
  apply ownsGeneration_true in E as [Hc _]. cbn [fst]. apply localTo_set; try done.
  intros k' Hk. split_and!; try done; cbn; by rewrite mget_mdel_ne.
Qed.

Lemma failView_local request generation cause m :
  localTo (threadSummaryViewKey request) m (failView request generation cause m).
Proof.
  unfold failView. destruct (ownsGeneration request generation m) eqn:E; [|apply localTo_refl].
  apply ownsGeneration_true in E as [Hc _]. apply localTo_set; try done.
  intros k' Hk. split_and!; try done; cbn; by rewrite mget_mdel_ne.
Qed.

Lemma local_coherent s i read m :
  coherent s -> tl_reads s !! i = Some read -> localTo (rd_key read) (tl_model s) m ->
  coherentAt (tl_unpublished s) (tl_store s) (delete i (tl_reads s)) m (rd_key read) ->
  coherent (withReads (delete i (tl_reads s)) (withModel m s)).
Proof.
  intros Hs Hi (H1 & H2 & H3 & H4) Hat. apply (ended_coherent s i read); try done; [by apply H3, Hs|..].
  - intros Hc. destruct H1 as [?|[? _]]; [done|congruence].
  - destruct H1 as [->|[_ Hv]]; [apply Hs|]. by intros _.
Qed.

Lemma returned_coherent s i : coherent s -> coherent (step s (ReadReturned i)).
Proof.
  intros Hs. cbn. destruct (tl_reads s !! i) as [[kind answer]|] eqn:Ei; [|done]. cbn [rd_answer].
  destruct answer as [loaded|]; [|by rewrite bool_decide_true]. rewrite bool_decide_false by done.
  destruct (delete_remaining s i _ Hs Ei) as [_ Hrem]. unfold settle. cbn [rd_answer rd_kind].
  pose proof (co_tracks s Hs) as Ht. destruct kind as [load|request generation];
    (apply (local_coherent s i _ _ Hs Ei); [|]).
  - apply resolveLoad_local.
  - eapply resolveLoad_at; [done|done|done|apply Hs..].
  - apply commitView_local.
  - eapply commitView_at; [done|done|apply Hs].
Qed.

Lemma failed_coherent s i cause : coherent s -> coherent (step s (ReadFailed i cause)).
Proof.
  intros Hs. cbn. destruct (tl_reads s !! i) as [[kind answer]|] eqn:Ei; [|done].
  destruct (delete_remaining s i _ Hs Ei) as [_ Hrem]. unfold reject. cbn [rd_kind].
  destruct kind as [load|request generation]; (apply (local_coherent s i _ _ Hs Ei); [|]).
  - apply rejectLoad_local.
  - eapply rejectLoad_at; [done|done|apply Hs..].
  - apply failView_local.
  - eapply failView_at; [done|done|apply Hs].
Qed.

Lemma sameButRetained s m retained :
  coherent s -> (forall k, sameAt k (tl_model s) m) -> m_views m = m_views (tl_model s) ->
  (emptied (tl_model s) -> emptied m) -> m_closed m = m_closed (tl_model s) ->
  coherent {| tl_model := m; tl_store := tl_store s; tl_unpublished := tl_unpublished s; tl_reads := tl_reads s;
              tl_retained := retained |}.
Proof.
  intros [H1 H2 H3 H4 H5 H6] Hsame Hv He Hc. split; cbn; try done; [by rewrite Hv|rewrite Hc; auto|].
  intros k. destruct (H6 k). split; [by eapply coherent_frame|by eapply seen_frame].
Qed.

Lemma retained_coherent s key : coherent s -> coherent (step s (ViewRetained key)).
Proof.
  intros Hs. cbn. unfold retainView. destruct (m_closed (tl_model s)) eqn:Hc; by apply sameButRetained.
Qed.

Lemma evicted_coherent s key retained :
  coherent s -> (forall read, read ∈ tl_reads s -> rd_key read <> key) ->
  coherent {| tl_model := evict key (tl_model s); tl_store := tl_store s; tl_unpublished := tl_unpublished s;
              tl_reads := tl_reads s; tl_retained := retained |}.
Proof.
  intros [H1 H2 H3 H4 H5 H6] Hk.
  destruct (evict_entries key (tl_model s)) as (Hv & Hq & Hg & Hr & Hf & Hcl).
  split; cbn [tl_model tl_store tl_unpublished tl_reads]; try done.
  - rewrite Hv. by apply mdel_wf.
  - rewrite Hcl. intros Hc. destruct (H5 Hc) as (E1 & E2 & E3 & E4 & E5). unfold emptied.
    by rewrite Hv, Hq, Hg, Hr, Hf, E1, E2, E3, E4, E5.
  - intros k. destruct (decide (k = key)) as [->|Hne]; [by apply evict_at|]. destruct (H6 k).
    split; [by eapply coherent_frame; [apply evict_same|]|by eapply seen_frame; [apply evict_same|]].
Qed.

Lemma released_coherent s i :
  coherent s -> allowed s (ViewReleased i) = true -> coherent (step s (ViewReleased i)).
Proof.
  intros Hs Hallow. unfold listStep, allowed in *. destruct (tl_retained s !! i) as [key|]; [|done].
  unfold releaseView in *. set (count := default 1 (mget key (m_retainCounts (tl_model s)))) in *.
  destruct (1 <? count) eqn:E; bool_prop.
  - destruct (count - 1) as [|next] eqn:En; [lia|]. by apply sameButRetained.
  - destruct (count - 1) as [|next] eqn:En; [|lia]. apply evicted_coherent; [done|]. cbn [orb] in Hallow.
    rewrite forallb_forall in Hallow. intros read Hin%list_elem_of_In%Hallow.
    by apply negb_true_iff, bool_decide_eq_false in Hin.
Qed.

Lemma closed_coherent s : coherent s -> coherent (step s ListClosed).
Proof.
  intros [H1 H2 H3 H4 H5 H6]. split; cbn; try done; [apply NoDup_nil_2|]. intros k. by apply emptied_at.
Qed.

Lemma step_coherent s e : coherent s -> allowed s e = true -> coherent (step s e).
Proof.
  intros Hs Ha. destruct e.
  - by apply written_coherent.
  - by apply published_coherent.
  - by apply used_coherent.
  - by apply viewRefreshed_coherent.
  - by apply answered_coherent.
  - by apply returned_coherent.
  - by apply failed_coherent.
  - by apply fired_coherent.
  - by apply retained_coherent.
  - by apply released_coherent.
  - by apply closed_coherent.
Qed.

Lemma emptyList_coherent : coherent emptyList.
Proof.
  split; cbn; try done; [split; [apply NoDup_nil_2|by intros k row ?%elem_of_nil]|apply NoDup_nil_2|apply NoDup_nil_2|].
  intros k. split; [split|]; cbn; try done; [by intros [[? [=]]|[? [=]]]|by intros read ?%elem_of_nil|].
  by intros [[? [=]]|[? [=]]].
Qed.
End coherence.

(** ** Theorems *)

Lemma run_coherent localeCompare s events :
  coherent s -> orderly localeCompare s events = true -> coherent (runList localeCompare s events).
Proof.
  revert s. induction events as [|e events IH]; intros s Hs; [done|]. cbn. intros [Ha Ho]%andb_true_iff.
  by apply IH; [apply step_coherent|].
Qed.

(** C17. In every run of writes, publications, resources, refreshes, failures,
    retries and releases that is orderly, every row a view shows is the row
    stored under its key, unless a change of it is written and not yet
    published; and no partition shows a key twice.  An orderly run publishes no
    changes while a record waits for its retry with changes a failed load had
    collected, evicts no view that is being read, and its database answers reads
    with stored rows.  The two orders left out do show stale rows:
    [retry_replays_stale] and [evicted_load_commits]. *)
Theorem shown_rows_stored localeCompare events k snapshot p :
  orderly localeCompare emptyList events = true ->
  let s := runList localeCompare emptyList events in
  mget k (m_views (tl_model s)) = Some snapshot ->
  NoDup (rowKey <$> part (sn_content snapshot) p)
  /\ forall row, row ∈ part (sn_content snapshot) p ->
       mget (rowKey row) (tl_store s) = Some row \/ rowKey row ∈ summaryChangeKey <$> tl_unpublished s.
Proof.
  intros Ho s Hv. destruct (run_coherent localeCompare emptyList events emptyList_coherent Ho) as [_ _ _ _ _ Hat].
  destruct (ca_view _ _ _ _ _ (proj1 (Hat k)) snapshot Hv) as [Hd Hs]. split; [apply Hd|].
  intros row Hrow. destruct (Hs row) as [?|?]; [apply elem_viewRows; by exists p|by right|by left].
Qed.

(** *** Executions *)

Definition demo_wide : ThreadSummaryViewRequest :=
  {| vr_archivedLimit := 0; vr_connectionId := None; vr_projectCwd := None; vr_recentLimit := 5;
     vr_selectedConnectionId := None; vr_selectedThreadId := None; vr_subagentConnectionId := None;
     vr_subagentLimit := 0; vr_viewId := None |}.

Definition demo_written (id : string) (recency : Z) : ListEvent := RowWritten (SummaryPut true (demo_summary id recency)).

(** SQLite answers the read at [i] from the rows given. *)
Definition demo_answered (i : nat) (rows : list StoredThreadSummary) (request : ThreadSummaryViewRequest) : ListEvent :=
  ReadAnswered i (projectThreadSummaryView unitOrder rows request).

Definition demo_key : jstr := threadSummaryViewKey demo_request.

Definition demo_shown (s : ThreadList) : list (jstr * Z) :=
  (fun row => (s_remoteThreadId row, recencyTime row)) <$> v_recent (sn_content (snapshotAt demo_key (tl_model s))).

Definition demo_rowTimes (s : ThreadList) : list (jstr * Z) :=
  (fun row => (s_remoteThreadId row, recencyTime row)) <$> mvals (tl_store s).

(** Rows move while they are read; the wider read fails and its retry waits. *)
Definition demo_orderly : list ListEvent :=
  [demo_written "a" 1; demo_written "b" 2; ChangesPublished 2; ResourceUsed demo_request;
   demo_answered 0 [demo_summary "a" 1; demo_summary "b" 2] demo_request;
   demo_written "a" 3; ChangesPublished 1; ReadReturned 0;
   ResourceUsed demo_wide; ReadFailed 0 None; TimerFired 0; demo_written "b" 4; ChangesPublished 1;
   demo_answered 0 [demo_summary "a" 3; demo_summary "b" 4] demo_wide; demo_written "a" 5; ReadReturned 0].

Lemma shown_rows_stored_witness :
  let s := runList unitOrder emptyList demo_orderly in
  orderly unitOrder emptyList demo_orderly = true
  /\ demo_shown s = [(js "b", 4%Z); (js "a", 3%Z)]
  /\ NoDup (rowKey <$> part (sn_content (snapshotAt demo_key (tl_model s))) RecentPart)
  /\ forall row, row ∈ part (sn_content (snapshotAt demo_key (tl_model s))) RecentPart ->
       mget (rowKey row) (tl_store s) = Some row \/ rowKey row ∈ summaryChangeKey <$> tl_unpublished s.
Proof.
  cbv zeta. assert (Ho : orderly unitOrder emptyList demo_orderly = true) by (vm_compute; reflexivity).
  split; [exact Ho|]. split; [vm_compute; reflexivity|].
  apply (shown_rows_stored unitOrder demo_orderly demo_key _ RecentPart Ho).
  vm_compute. reflexivity.
Defined.

(** A failed load keeps the changes it had collected: its retry replays them over
    rows that are newer. *)
Definition demo_retried : list ListEvent :=
  [demo_written "a" 1; ChangesPublished 1; ResourceUsed demo_request;
   demo_answered 0 [demo_summary "a" 1] demo_request; ReadReturned 0;
   ResourceUsed demo_wide; demo_written "a" 5; ChangesPublished 1; ReadFailed 0 None;
   demo_written "a" 7; ChangesPublished 1; TimerFired 0;
   demo_answered 0 [demo_summary "a" 7] demo_wide; ReadReturned 0].

Theorem retry_replays_stale :
  let s := runList unitOrder emptyList demo_retried in
  demo_rowTimes s = [(js "a", 7%Z)] /\ demo_shown s = [(js "a", 5%Z)]
  /\ tl_unpublished s = [] /\ tl_reads s = [] /\ m_timers (tl_model s) = []
  /\ sn_phase (snapshotAt demo_key (tl_model s)) = ViewReady.
Proof. vm_compute. done. Qed.

(** Generations start again once a view is evicted: the load of the view before
    is taken for the load of the view after it, and the changes collected for
    the latter are spent. *)
Definition demo_evicted : list ListEvent :=
  [demo_written "a" 1; ChangesPublished 1; ResourceUsed demo_request; ViewRetained demo_key;
   demo_answered 0 [demo_summary "a" 1] demo_request; ViewReleased 0;
   ResourceUsed demo_request; demo_answered 1 [demo_summary "a" 1] demo_request; ReadReturned 0;
   demo_written "a" 7; ChangesPublished 1; ReadReturned 0].

Theorem evicted_load_commits :
  let s := runList unitOrder emptyList demo_evicted in
  demo_rowTimes s = [(js "a", 7%Z)] /\ demo_shown s = [(js "a", 1%Z)]
  /\ tl_unpublished s = [] /\ tl_reads s = []
  /\ sn_phase (snapshotAt demo_key (tl_model s)) = ViewReady.
Proof. vm_compute. done. Qed.
