(* ===== verification/ProjectUnread.v ===== *)
(** * The projects with something unread

    Models apps/android/src/data/project-unread-model.ts: the projects that have
    an unread thread, over the whole persisted catalogue.  [Hydration] puts the
    model beside the store: rows are written, then published, and the read that
    hydrates the model is answered at some moment and settled at another. *)
From S2P Require Import Prelude JsMap Json Ranking SummaryTypes SummaryProjection SummaryView SummaryOps SummaryModel SummaryFresh.

Local Open Scope nat_scope.

Definition projectScopeKey (connectionId cwd : jstr) : jstr := connectionId ++ NUL ++ cwd.

(** [pu_load]: whether a load was started and did not fail. *)
Record ProjectUnreadModel :=
  { pu_projects : list jstr; pu_threads : list (jstr * jstr);
    pu_pending : option (list (jstr * SummaryChange)); pu_load : bool; pu_closed : bool }.

Definition newProjectUnread : ProjectUnreadModel :=
  {| pu_projects := []; pu_threads := []; pu_pending := Some []; pu_load := false; pu_closed := false |}.

Definition countsUnread (row : StoredThreadSummary) : bool :=
  (0 <? s_unread row)%Z && negb (s_archived row) && bool_decide (s_parentThreadId row = None)
  && bool_decide (s_deleteCommandId row = None).

Definition scopeOf (row : StoredThreadSummary) : jstr := projectScopeKey (s_connectionId row) (s_cwd row).

(** [threads.delete(key)]. *)
Definition forgetThread (key : jstr) (threads : list (jstr * jstr)) : list (jstr * jstr) * bool :=
  (mdel key threads, mhas key threads).

(** [#apply]: the threads, and whether they changed. *)
Definition applyUnread (change : SummaryChange) (threads : list (jstr * jstr)) : list (jstr * jstr) * bool :=
  match change with
  | SummaryDelete key => forgetThread key threads
  | SummaryPut _ row =>
      let key := rowKey row in
      if countsUnread row then
        let project := scopeOf row in
        if bool_decide (mget key threads = Some project) then (threads, false)
        else (mset key project threads, true)
      else forgetThread key threads
  end.

(** [[...new Set(threads.values())].sort()]. *)
Definition projectsOf (threads : list (jstr * jstr)) : list jstr :=
  sortBy (notAfter unitOrder) (foldl (fun s project => sadd project s) [] (mvals threads)).

Definition withThreads (threads : list (jstr * jstr)) (p : ProjectUnreadModel) : ProjectUnreadModel :=
  {| pu_projects := pu_projects p; pu_threads := threads; pu_pending := pu_pending p; pu_load := pu_load p;
     pu_closed := pu_closed p |}.

(** [#publish]: an observable that holds equal projects is not set again. *)
Definition publishProjects (p : ProjectUnreadModel) : ProjectUnreadModel :=
  {| pu_projects := projectsOf (pu_threads p); pu_threads := pu_threads p; pu_pending := pu_pending p;
     pu_load := pu_load p; pu_closed := pu_closed p |}.

(** The part of [resource] that runs at once; whether it called the loader. *)
Definition startHydration (p : ProjectUnreadModel) : ProjectUnreadModel * bool :=
  if pu_load p then (p, false)
  else ({| pu_projects := pu_projects p; pu_threads := pu_threads p; pu_pending := pu_pending p; pu_load := true;
           pu_closed := pu_closed p |}, true).

Definition hydrate (rows : list StoredThreadSummary) (p : ProjectUnreadModel) : ProjectUnreadModel :=
  if pu_closed p then p
  else
    let apply threads change := (applyUnread change threads).1 in
    let threads := foldl apply (pu_threads p) (SummaryPut true <$> rows) in
    let threads := foldl apply threads (mvals (default [] (pu_pending p))) in
    publishProjects
      {| pu_projects := pu_projects p; pu_threads := threads; pu_pending := None; pu_load := pu_load p;
         pu_closed := pu_closed p |}.

Definition hydrationFailed (p : ProjectUnreadModel) : ProjectUnreadModel :=
  {| pu_projects := pu_projects p; pu_threads := pu_threads p; pu_pending := pu_pending p; pu_load := false;
     pu_closed := pu_closed p |}.

(** One change of [publish]; the flag says whether the threads changed. *)
Definition publishUnreadStep (st : ProjectUnreadModel * bool) (change : SummaryChange) : ProjectUnreadModel * bool :=
  let '(p, changed) := st in
  let '(threads, applied) := applyUnread change (pu_threads p) in
  ({| pu_projects := pu_projects p; pu_threads := threads;
      pu_pending := mset (summaryChangeKey change) change <$> pu_pending p; pu_load := pu_load p;
      pu_closed := pu_closed p |}, applied || changed).

Definition publishUnread (changes : list SummaryChange) (p : ProjectUnreadModel) : ProjectUnreadModel :=
  if pu_closed p then p
  else
    let '(p, changed) := foldl publishUnreadStep (p, false) changes in
    if changed then publishProjects p else p.

Definition closeUnread (p : ProjectUnreadModel) : ProjectUnreadModel :=
  {| pu_projects := pu_projects p; pu_threads := []; pu_pending := (fun _ => []) <$> pu_pending p;
     pu_load := pu_load p; pu_closed := true |}.

(** The query of [loadUnread]. *)
Definition loadUnread (store : list (jstr * StoredThreadSummary)) : list StoredThreadSummary :=
  filter (fun row => countsUnread row = true) (mvals store).

(** ** Beside the store *)
Module Hydration.

(** [h_read]: the load in flight, and the rows it was answered. *)
Record Catalogue :=
  { h_model : ProjectUnreadModel; h_store : list (jstr * StoredThreadSummary); h_unpublished : list SummaryChange;
    h_read : option (option (list StoredThreadSummary)) }.

Definition emptyCatalogue : Catalogue :=
  {| h_model := newProjectUnread; h_store := []; h_unpublished := []; h_read := None |}.

Inductive UnreadEvent :=
| UnreadWritten (change : SummaryChange) | UnreadPublished (n : nat) | UnreadDemanded
| UnreadAnswered | UnreadReturned | UnreadFailed | UnreadClosed.

Definition withUnread (p : ProjectUnreadModel) (read : option (option (list StoredThreadSummary))) (s : Catalogue) : Catalogue :=
  {| h_model := p; h_store := h_store s; h_unpublished := h_unpublished s; h_read := read |}.

Definition unreadStep (s : Catalogue) (e : UnreadEvent) : Catalogue :=
  match e with
  | UnreadWritten change =>
      {| h_model := h_model s; h_store := applyChange (h_store s) change;
         h_unpublished := h_unpublished s ++ [change]; h_read := h_read s |}
  | UnreadPublished n =>
      {| h_model := publishUnread (take n (h_unpublished s)) (h_model s); h_store := h_store s;
         h_unpublished := drop n (h_unpublished s); h_read := h_read s |}
  | UnreadDemanded =>
      let '(p, started) := startHydration (h_model s) in
      withUnread p (if started : bool then Some None else h_read s) s
  | UnreadAnswered =>
      match h_read s with Some None => withUnread (h_model s) (Some (Some (loadUnread (h_store s)))) s | _ => s end
  | UnreadReturned =>
      match h_read s with Some (Some rows) => withUnread (hydrate rows (h_model s)) None s | _ => s end
  | UnreadFailed =>
      match h_read s with Some _ => withUnread (hydrationFailed (h_model s)) None s | None => s end
  | UnreadClosed => withUnread (closeUnread (h_model s)) (h_read s) s
  end.

Definition runUnread (events : list UnreadEvent) : Catalogue := foldl unreadStep emptyCatalogue events.

End Hydration.
Import Hydration.

(** ** Laws *)

(** The project a row counts for. *)
Definition countedFor (row : option StoredThreadSummary) : option jstr :=
  row ← row; if countsUnread row then Some (scopeOf row) else None.

Definition rowAfter (change : SummaryChange) : option StoredThreadSummary :=
  match change with SummaryPut _ row => Some row | SummaryDelete _ => None end.

Lemma mget_applyUnread change threads k :
  mget k (applyUnread change threads).1
  = if bool_decide (summaryChangeKey change = k) then countedFor (rowAfter change) else mget k threads.
Proof.
  destruct change as [b row|key]; cbn; [|apply mget_mdel]. destruct (countsUnread row); cbn; [|apply mget_mdel].
  case_bool_decide as Hm; cbn; [|apply mget_mset]. by case_bool_decide; subst.
Qed.

Lemma applyUnread_same change threads : (applyUnread change threads).2 = false -> (applyUnread change threads).1 = threads.
Proof.
  assert (Hf : forall key, (forgetThread key threads).2 = false -> (forgetThread key threads).1 = threads).
  { intros key. cbn. unfold mhas. intros H%bool_decide_eq_false. apply mdel_absent. by rewrite mget_is_Some in H. }
  destruct change as [b row|key]; cbn; [|apply Hf]. destruct (countsUnread row); [|apply Hf]. by case_bool_decide.
Qed.

Lemma mget_applied changes threads k :
  mget k (foldl (fun threads change => (applyUnread change threads).1) threads changes)
  = if decide (changedBy changes k) then countedFor (outcome changes k) else mget k threads.
Proof.
  unfold outcome. induction changes as [|c changes IH] using rev_ind; [done|].
  rewrite !foldl_app. simpl. rewrite mget_applyUnread, mget_change. pose proof (changedBy_snoc changes c k) as Hs.
  case_bool_decide as Hk; [rewrite decide_True by naive_solver; by destruct c|].
  rewrite IH. destruct (decide (changedBy changes k)); [by rewrite decide_True by tauto|].
  rewrite decide_False; [done|]. intros [?|?]%Hs; congruence.
Qed.

Lemma publish_unread_steps changes p changed :
  let '(p', changed') := foldl publishUnreadStep (p, changed) changes in
  pu_threads p' = foldl (fun threads change => (applyUnread change threads).1) (pu_threads p) changes
  /\ pu_pending p' = (fun pending => foldl (fun m c => mset (summaryChangeKey c) c m) pending changes) <$> pu_pending p
  /\ pu_projects p' = pu_projects p /\ pu_load p' = pu_load p /\ pu_closed p' = pu_closed p
  /\ (changed' = false -> changed = false /\ pu_threads p' = pu_threads p).
Proof.
  revert p changed. induction changes as [|c changes IH]; intros p changed; cbn [foldl].
  - split_and!; try done. by destruct (pu_pending p).
  - unfold publishUnreadStep at 2. destruct (applyUnread c (pu_threads p)) as [threads applied] eqn:E.
    match goal with |- context [foldl publishUnreadStep (?q, ?b) changes] => specialize (IH q b) end.
    destruct (foldl publishUnreadStep _ changes) as [p' changed']. cbn [pu_threads pu_pending pu_projects pu_load pu_closed] in IH.
    destruct IH as (H1 & H2 & H3 & H4 & H5 & H6). split_and!; try done.
    + by rewrite H2; destruct (pu_pending p).
    + intros Hc. destruct (H6 Hc) as [Hor Ht]. apply orb_false_iff in Hor as [-> ->]. split; [done|]. rewrite Ht.
      pose proof (applyUnread_same c (pu_threads p)) as Hs. rewrite E in Hs. by apply Hs.
Qed.

(** The last change of every key. *)
Lemma mget_pending pending changes k :
  mget k (foldl (fun m c => mset (summaryChangeKey c) c m) pending changes)
  = if decide (changedBy changes k) then last (filter (fun c => summaryChangeKey c = k) changes) else mget k pending.
Proof.
  induction changes as [|c changes IH] using rev_ind; [done|].
  rewrite foldl_app. simpl. rewrite mget_mset. pose proof (changedBy_snoc changes c k) as Hs. rewrite filter_app.
  case_bool_decide as Hk.
  - rewrite decide_True by naive_solver. rewrite (filter_cons_True _ c []), filter_nil by done. by rewrite last_snoc.
  - rewrite (filter_cons_False _ c []), filter_nil by done. rewrite app_nil_r, IH.
    destruct (decide (changedBy changes k)); [by rewrite decide_True by tauto|].
    rewrite decide_False; [done|]. intros [?|?]%Hs; congruence.
Qed.

Lemma outcome_last changes k :
  changedBy changes k ->
  exists c, last (filter (fun c => summaryChangeKey c = k) changes) = Some c /\ summaryChangeKey c = k
    /\ outcome changes k = rowAfter c.
Proof.
  unfold outcome. induction changes as [|c changes IH] using rev_ind; [by intros ?%elem_of_nil|].
  rewrite changedBy_snoc, foldl_app, filter_app. simpl. rewrite mget_change. intros Hk.
  case_bool_decide as Hc.
  - exists c. rewrite (filter_cons_True _ c []), filter_nil by done. rewrite last_snoc. split_and!; [done..|by destruct c].
  - rewrite (filter_cons_False _ c []), filter_nil by done. rewrite app_nil_r. apply IH. destruct Hk; congruence.
Qed.

#[export] Instance unitOrder_ranking : Ranking unitOrder id.
Proof.
  split; [apply locale_sign|apply locale_trans|]. intros a b H. by apply locale_key.
Qed.

Lemma elem_sadds (l s : list jstr) x : x ∈ foldl (fun s y => sadd y s) s l <-> x ∈ s \/ x ∈ l.
Proof.
  revert s. induction l as [|y l IH]; intros s; cbn [foldl]; [|rewrite IH, elem_of_sadd]; set_solver.
Qed.

Lemma sadds_nodup (l s : list jstr) : NoDup s -> NoDup (foldl (fun s y => sadd y s) s l).
Proof. revert s. induction l as [|y l IH]; intros s Hs; cbn [foldl]; [done|]. by apply IH, sadd_nodup. Qed.

Lemma elem_projectsOf threads project : project ∈ projectsOf threads <-> project ∈ mvals threads.
Proof. unfold projectsOf. rewrite sortBy_perm, elem_sadds. set_solver. Qed.

Lemma projectsOf_sorted threads : NoDup (projectsOf threads) /\ ordered (notAfter unitOrder) (projectsOf threads).
Proof.
  unfold projectsOf. split; [rewrite sortBy_perm; apply sadds_nodup, NoDup_nil_2|].
  apply (sort_ranked unitOrder id).
Qed.

Lemma applied_wf changes threads :
  mwf threads -> mwf (foldl (fun threads change => (applyUnread change threads).1) threads changes).
Proof.
  revert threads. induction changes as [|c changes IH]; intros threads Hw; cbn [foldl]; [done|]. apply IH.
  destruct c as [b row|key]; cbn; [|by apply mdel_wf]. destruct (countsUnread row); [|by apply mdel_wf].
  case_bool_decide; [done|by apply mset_wf].
Qed.

(** ** The invariant *)

(** What the rows of a read say of a key. *)
Definition readFor (rows : list StoredThreadSummary) (k : jstr) : option jstr :=
  if decide (changedBy (SummaryPut true <$> rows) k) then countedFor (outcome (SummaryPut true <$> rows) k) else None.

(** A change kept until the rows are read is the last of its key. *)
Definition pendingOk (U : list SummaryChange) (store : list (jstr * StoredThreadSummary))
    (pending : list (jstr * SummaryChange)) : Prop :=
  mwf pending /\
  forall k c, mget k pending = Some c -> summaryChangeKey c = k /\ (~ changedBy U k -> mget k store = rowAfter c).

Record unreadOk (s : Catalogue) : Prop :=
  { un_keyed : keyed (h_store s);
    un_tracks : tracks (h_unpublished s) (h_store s);
    un_projects : pu_projects (h_model s) = projectsOf (pu_threads (h_model s));
    un_threads : mwf (pu_threads (h_model s));
    un_hydrated : pu_pending (h_model s) = None ->
      pu_load (h_model s) = true /\ h_read s = None
      /\ forall k, ~ changedBy (h_unpublished s) k -> mget k (pu_threads (h_model s)) = countedFor (mget k (h_store s));
    un_load : h_read s <> None -> pu_load (h_model s) = true;
    un_pending : forall pending, pu_pending (h_model s) = Some pending ->
      pendingOk (h_unpublished s) (h_store s) pending
      /\ forall k, mget k pending = None ->
           mget k (pu_threads (h_model s)) = None
           /\ forall rows, h_read s = Some (Some rows) -> ~ changedBy (h_unpublished s) k ->
                readFor rows k = countedFor (mget k (h_store s)) }.

Lemma unread_written s c : unreadOk s -> unreadOk (unreadStep s (UnreadWritten c)).
Proof.
  intros [H1 H2 H3 H4 H5 HL H6].
  assert (Hk : forall k, ~ changedBy (h_unpublished s ++ [c]) k ->
    ~ changedBy (h_unpublished s) k /\ mget k (applyChange (h_store s) c) = mget k (h_store s)).
  { intros k. rewrite changedBy_snoc, mget_change. intros Hn. split; [tauto|]. rewrite bool_decide_false; [done|].
    intros <-. tauto. }
  split; cbn; try done; [by apply keyed_change|by apply tracks_write|..].
  - intros Hp. destruct (H5 Hp) as (Hl & Hr & Ht). split_and!; try done. intros k [Hn ->]%Hk. by apply Ht.
  - intros pending Hp. destruct (H6 pending Hp) as [[Hw Hc] Hn]. split; [split; [done|]|].
    + intros k c' Hc'. destruct (Hc k c' Hc') as [Hkey Hs]. split; [done|]. intros [Hn' ->]%Hk. by apply Hs.
    + intros k Hnone. destruct (Hn k Hnone) as [Ht Hr]. split; [done|]. intros rows Hrows [Hn' ->]%Hk. by apply Hr.
Qed.

Lemma publishUnread_spec changes p :
  pu_closed p = false -> pu_projects p = projectsOf (pu_threads p) ->
  let p' := publishUnread changes p in
  pu_threads p' = foldl (fun threads change => (applyUnread change threads).1) (pu_threads p) changes
  /\ pu_pending p' = (fun pending => foldl (fun m c => mset (summaryChangeKey c) c m) pending changes) <$> pu_pending p
  /\ pu_load p' = pu_load p /\ pu_closed p' = false /\ pu_projects p' = projectsOf (pu_threads p').
Proof.
  intros Hc Hp. cbn zeta. unfold publishUnread. rewrite Hc.
  pose proof (publish_unread_steps changes p false) as Hs. destruct (foldl publishUnreadStep (p, false) changes) as [p' changed].
  destruct Hs as (H1 & H2 & H3 & H4 & H5 & H6). destruct changed; cbn.
  - split_and!; try done. congruence.
  - destruct (H6 eq_refl) as [_ Ht]. split_and!; try done; congruence.
Qed.

Lemma pending_wf changes (pending : list (jstr * SummaryChange)) :
  mwf pending -> mwf (foldl (fun m c => mset (summaryChangeKey c) c m) pending changes).
Proof. revert pending. induction changes as [|c changes IH]; intros pending Hw; cbn [foldl]; [done|]. by apply IH, mset_wf. Qed.

Lemma unread_published s n :
  pu_closed (h_model s) = false -> unreadOk s -> unreadOk (unreadStep s (UnreadPublished n)).
Proof.
  intros Hcl [H1 H2 H3 H4 H5 HL H6]. cbn [unreadStep].
  set (X := take n (h_unpublished s)). set (D := drop n (h_unpublished s)).
  assert (HXD : h_unpublished s = X ++ D) by (symmetry; apply take_drop). rewrite HXD in *.
  assert (HX : forall k, changedBy X k -> ~ changedBy D k -> mget k (h_store s) = outcome X k).
  { intros k Hx Hd. rewrite (H2 k), outcome_app, decide_False by (done || (apply changedBy_app; by left)). done. }
  assert (Hnot : forall k, ~ changedBy X k -> ~ changedBy D k -> ~ changedBy (X ++ D) k) by (intros k; rewrite changedBy_app; tauto).
  destruct (publishUnread_spec X (h_model s) Hcl H3) as (Ht & Hp & Hl & Hc & Hpr).
  split; cbn [h_model h_store h_unpublished h_read]; try done.
  - by apply tracks_suffix in H2.
  - rewrite Ht. by apply applied_wf.
  - rewrite Hp. intros Hnone%fmap_None. destruct (H5 Hnone) as (Hl' & Hr & Hk). split_and!; [congruence|done|].
    intros k Hd. rewrite Ht, mget_applied. destruct (decide (changedBy X k)) as [Hx|Hx]; [by rewrite (HX k)|].
    apply Hk. by apply Hnot.
  - rewrite Hl. exact HL.
  - intros pending. rewrite Hp. intros (pending0 & Hpend & ->)%fmap_Some. destruct (H6 pending0 Hpend) as [[Hw Hc'] Hn].
    split; [split; [by apply pending_wf|]|].
    + intros k c. rewrite mget_pending. destruct (decide (changedBy X k)) as [Hx|Hx].
      * destruct (outcome_last X k Hx) as (c0 & -> & Hkey & Ho). intros [= <-]. split; [done|]. intros Hd.
        by rewrite (HX k).
      * intros Hget. destruct (Hc' k c Hget) as [Hkey Hs]. split; [done|]. intros Hd. apply Hs. by apply Hnot.
    + intros k. rewrite mget_pending. destruct (decide (changedBy X k)) as [Hx|Hx].
      * by destruct (outcome_last X k Hx) as (c0 & -> & _).
      * intros Hget. destruct (Hn k Hget) as [Hth Hr]. rewrite Ht, mget_applied, decide_False by done.
        split; [done|]. intros rows Hrows Hd. apply Hr; [done|]. by apply Hnot.
Qed.

(** SQLite answers with the rows that count. *)
Lemma readFor_unread store k : keyed store -> readFor (loadUnread store) k = countedFor (mget k store).
Proof.
  intros Hk. unfold readFor. destruct (decide _) as [Hin|Hin].
  - f_equal. destruct (outcome_last _ k Hin) as (c & Hc & Hkey & ->).
    assert (Hmem : c ∈ SummaryPut true <$> loadUnread store).
    { apply last_Some_elem_of in Hc. by apply list_elem_of_filter in Hc as [_ ?]. }
    apply list_elem_of_fmap in Hmem as (row & -> & [_ Hrow]%list_elem_of_filter). cbn in *. subst k.
    symmetry. by apply keyed_mem.
  - symmetry. unfold countedFor. destruct (mget k store) as [row|] eqn:Er; [|done]. cbn.
    destruct (countsUnread row) eqn:Eu; [|done]. destruct Hin. unfold changedBy. rewrite <- list_fmap_compose.
    assert (Hkey : k = rowKey row) by (apply Hk, mget_elem, Er). subst k.
    apply (list_elem_of_fmap_2 (summaryChangeKey ∘ SummaryPut true)). apply list_elem_of_filter. split; [done|].
    by apply keyed_mem.
Qed.

Lemma unread_returned s rows :
  pu_closed (h_model s) = false -> unreadOk s -> h_read s = Some (Some rows) ->
  unreadOk (withUnread (hydrate rows (h_model s)) None s) .
Proof.
  intros Hcl [H1 H2 H3 H4 H5 HL H6] Hr. unfold hydrate. rewrite Hcl.
  destruct (pu_pending (h_model s)) as [pending|] eqn:Ep; [|by destruct (H5 eq_refl) as (_ & ? & _); congruence].
  destruct (H6 pending eq_refl) as [[Hw Hc] Hn]. split; cbn; try done.
  - by apply applied_wf, applied_wf.
  - intros _. split_and!; [|done|].
    + apply HL. by rewrite Hr.
    + intros k Hk. rewrite mget_applied. destruct (decide _) as [Hin|Hin].
      * destruct (outcome_last _ k Hin) as (c & Hlast & Hkey & ->).
        apply last_Some_elem_of, list_elem_of_filter in Hlast as [_ Hmem]. apply elem_mvals in Hmem as [k' Hmem].
        apply (elem_mget _ _ _ Hw) in Hmem. destruct (Hc k' c Hmem) as [Hkey' Hs]. assert (k' = k) as -> by congruence.
        by rewrite Hs.
      * assert (Hnone : mget k pending = None).
        { destruct (mget k pending) as [c|] eqn:Eg; [|done]. destruct Hin. destruct (Hc k c Eg) as [<- _].
          apply (list_elem_of_fmap_2 summaryChangeKey). eapply in_mvals. by apply mget_elem. }
        destruct (Hn k Hnone) as [Ht Hrows]. rewrite mget_applied, Ht. exact (Hrows rows Hr Hk).
Qed.

(** A closed model stays closed and claims nothing. *)
Definition unreadSound (s : Catalogue) : Prop := pu_closed (h_model s) = true \/ unreadOk s.

Lemma unread_closed s e : pu_closed (h_model s) = true -> pu_closed (h_model (unreadStep s e)) = true.
Proof.
  intros Hc. destruct e; cbn; try done.
  - unfold publishUnread. by rewrite Hc.
  - unfold startHydration. by destruct (pu_load (h_model s)).
  - by destruct (h_read s) as [[]|].
  - destruct (h_read s) as [[]|]; cbn; try done. unfold hydrate. by rewrite Hc.
  - by destruct (h_read s).
Qed.

Lemma unread_step s e : unreadSound s -> unreadSound (unreadStep s e).
Proof.
  intros [Hc|Hs]; [left; by apply unread_closed|].
  destruct (pu_closed (h_model s)) eqn:Hc; [left; by apply unread_closed|].
  pose proof Hs as [H1 H2 H3 H4 H5 HL H6]. destruct e.
  - right. by apply unread_written.
  - right. by apply unread_published.
  - right. cbn. unfold startHydration. destruct (pu_load (h_model s)) eqn:El; [by destruct s|].
    split; cbn; try done.
    + intros Hp. destruct (H5 Hp) as (? & _). congruence.
    + intros pending Hp. destruct (H6 pending Hp) as [Ho Hn]. split; [done|]. intros k Hk. split; [by apply Hn|done].
  - right. cbn. destruct (h_read s) as [[rows|]|] eqn:Er; [done| |done]. split; cbn; try done.
    + intros Hp. destruct (H5 Hp) as (_ & ? & _). congruence.
    + intros _. by apply HL.
    + intros pending Hp. destruct (H6 pending Hp) as [Ho Hn]. split; [done|]. intros k Hk. split; [by apply Hn|].
      intros rows [= <-] _. by apply readFor_unread.
  - right. cbn. destruct (h_read s) as [[rows|]|] eqn:Er; [|done..]. by apply unread_returned.
  - right. cbn. destruct (h_read s) as [read|] eqn:Er; [|done]. split; cbn; try done.
    + intros Hp. destruct (H5 Hp) as (_ & ? & _). congruence.
    + intros pending Hp. destruct (H6 pending Hp) as [Ho Hn]. split; [done|]. intros k Hk. split; [by apply Hn|done].
  - by left.
Qed.

Lemma unread_run events : unreadSound (runUnread events).
Proof.
  induction events as [|e events IH] using rev_ind.
  - right. split; cbn; try done; [split; [apply NoDup_nil_2|by intros k row ?%elem_of_nil]|apply NoDup_nil_2|].
    intros pending [= <-]. split; [split; [apply NoDup_nil_2|done]|done].
  - unfold runUnread in *. rewrite foldl_app. by apply unread_step.
Qed.

(** C19. However writes, publications, the hydrating read and its failures interleave:
    once hydrated, and until it is closed, the model says of every thread what
    its stored row says, unless a change of it is still to be published; and
    once everything is published the projects it shows are, in order and each
    once, those of the unread root threads that are stored. *)
Theorem unread_exact events project :
  let s := runUnread events in
  pu_closed (h_model s) = false -> pu_pending (h_model s) = None ->
  (forall k, k ∉ summaryChangeKey <$> h_unpublished s ->
     mget k (pu_threads (h_model s)) = countedFor (mget k (h_store s)))
  /\ NoDup (pu_projects (h_model s)) /\ ordered (notAfter unitOrder) (pu_projects (h_model s))
  /\ (h_unpublished s = [] ->
      project ∈ pu_projects (h_model s)
      <-> exists row, row ∈ mvals (h_store s) /\ countsUnread row = true /\ scopeOf row = project).
Proof.
  intros s Hc Hp. destruct (unread_run events) as [?|[H1 H2 H3 H4 H5 HL H6]]; [unfold s in *; congruence|].
  destruct (H5 Hp) as (_ & _ & Hk). fold s in H1, H2, H3, H4, Hk. rewrite H3.
  split_and!; [exact Hk|apply projectsOf_sorted..|]. intros Hu. rewrite elem_projectsOf, elem_mvals.
  rewrite Hu in Hk. split.
  - intros [k Hin%(elem_mget _ _ _ H4)]. rewrite (Hk k) in Hin by apply not_elem_of_nil.
    unfold countedFor in Hin. apply bind_Some in Hin as (row & Hr & Hrow). destruct (countsUnread row) eqn:Ec; [|done].
    injection Hrow as <-. exists row. split_and!; try done. by eapply in_mvals, mget_elem.
  - intros (row & Hin & Hcount & <-). exists (rowKey row). apply mget_elem.
    rewrite (Hk (rowKey row)) by apply not_elem_of_nil. rewrite (proj1 (keyed_mem _ row H1) Hin). cbn. by rewrite Hcount.
Qed.

Definition demo_unread (id : string) (unread : Z) : StoredThreadSummary :=
  withReadState None 0 unread (demo_summary id 1).

Definition demo_hydration : list UnreadEvent :=
  [UnreadWritten (SummaryPut true (demo_unread "a" 1)); UnreadPublished 1; UnreadDemanded; UnreadFailed;
   UnreadWritten (SummaryPut true (demo_unread "b" 2)); UnreadDemanded; UnreadAnswered;
   UnreadWritten (SummaryPut false (demo_unread "a" 0)); UnreadPublished 2; UnreadReturned].

Lemma unread_exact_witness :
  let s := runUnread demo_hydration in
  pu_projects (h_model s) = [projectScopeKey (js "c") (js "/")]
  /\ (projectScopeKey (js "c") (js "/") ∈ pu_projects (h_model s)
      <-> exists row, row ∈ mvals (h_store s) /\ countsUnread row = true
            /\ scopeOf row = projectScopeKey (js "c") (js "/")).
Proof.
  cbv zeta. split; [vm_compute; reflexivity|].
  apply (unread_exact demo_hydration (projectScopeKey (js "c") (js "/"))); vm_compute; reflexivity.
Defined.
