(* ===== verification/ChatRange.v ===== *)
(** * The range of a conversation that is resident

    Models apps/android/src/data/thread-load-status.ts and the pure part of
    thread-chat-model.ts: the snapshot of a chat window, the signature of its
    layout, and the range of sealed turns a window keeps when its rows are read
    again.  A row is compared by its contents. *)
From S2P Require Import Prelude JsMap Json Ranking ThreadItems Readers ThreadEvents ThreadHead Delivery ThreadRows DetailCoverage.
From S2P Require Import SummaryTypes SummaryProjection SummaryView.

(** ** The status of a load *)

Inductive ThreadLoadStatus :=
| LoadIdle | InitialLoading | LoadReady | BackgroundUpdating | LoadingHistory | BackgroundRetrying | InitialError.

#[export] Instance ThreadLoadStatus_eq_dec : EqDecision ThreadLoadStatus.
Proof. solve_decision. Defined.

Definition threadLoadBlocksPresentation (status : ThreadLoadStatus) : bool :=
  match status with LoadIdle | InitialLoading => true | _ => false end.

Definition threadLoadHasResidentSnapshot (status : ThreadLoadStatus) : bool :=
  match status with LoadReady | BackgroundUpdating | LoadingHistory | BackgroundRetrying => true | _ => false end.

Definition threadLoadIsHistoryLoading (status : ThreadLoadStatus) : bool := bool_decide (status = LoadingHistory).

Definition includesStatus (status : ThreadLoadStatus) (statuses : list ThreadLoadStatus) : bool :=
  bool_decide (status ∈ statuses).

Definition mergeThreadLoadStatuses (statuses : list ThreadLoadStatus) : ThreadLoadStatus :=
  if existsb threadLoadHasResidentSnapshot statuses then
    if includesStatus LoadingHistory statuses then LoadingHistory
    else if includesStatus BackgroundRetrying statuses || includesStatus InitialError statuses then BackgroundRetrying
    else if includesStatus BackgroundUpdating statuses || includesStatus InitialLoading statuses
            || includesStatus LoadIdle statuses
    then BackgroundUpdating
    else LoadReady
  else if includesStatus InitialError statuses then InitialError
  else if includesStatus InitialLoading statuses then InitialLoading
  else LoadIdle.

(** ** Windows *)

Record ThreadChatWindowRequest :=
  { cr_anchorTurnId : option jstr; cr_connectionId : jstr; cr_threadId : jstr }.

Record ThreadChatWindowSnapshot :=
  { cw_backendRefreshing : bool; cw_detailRowIds : list jstr; cw_earliestSealedOrdinal : option Z;
    cw_error : option jstr; cw_historyEpoch : Z; cw_latestSealedOrdinal : option Z; cw_layoutRevision : Z;
    cw_liveRowIds : list jstr; cw_requestKey : option jstr; cw_residentTurnLimit : Z; cw_revision : Z;
    cw_scope : jstr; cw_status : ThreadLoadStatus; cw_turnRowIds : list jstr }.

(** What a read gives of a window, and its rows. *)
Record LoadedThreadChatWindow :=
  { lw_rows : list ThreadDetailRow; lw_detailRowIds : list jstr; lw_earliestSealedOrdinal : option Z;
    lw_historyEpoch : Z; lw_latestSealedOrdinal : option Z; lw_liveRowIds : list jstr;
    lw_requestKey : option jstr; lw_residentTurnLimit : Z; lw_scope : jstr; lw_turnRowIds : list jstr }.

Definition threadChatScope (connectionId threadId : jstr) : jstr := connectionId ++ SummaryProjection.NUL ++ threadId.

Definition threadChatRequestKey (request : ThreadChatWindowRequest) : jstr :=
  join SummaryProjection.NUL [cr_connectionId request; cr_threadId request; default [] (cr_anchorTurnId request)].

Definition emptyWindow (scope : jstr) : ThreadChatWindowSnapshot :=
  {| cw_backendRefreshing := false; cw_detailRowIds := []; cw_earliestSealedOrdinal := None; cw_error := None;
     cw_historyEpoch := 0; cw_latestSealedOrdinal := None; cw_layoutRevision := 0; cw_liveRowIds := [];
     cw_requestKey := None; cw_residentTurnLimit := THREAD_RESIDENT_TURN_LIMIT; cw_revision := 0;
     cw_scope := scope; cw_status := LoadIdle; cw_turnRowIds := [] |}.

Definition maximumNullable (left right : option Z) : option Z :=
  match left, right with None, _ => right | _, None => left | Some l, Some r => Some (Z.max l r) end.

Definition minimumNullable (left right : option Z) : option Z :=
  match left, right with None, _ => right | _, None => left | Some l, Some r => Some (Z.min l r) end.

(** *** The signature of a layout *)

Definition kindText (kind : RowKind) : jstr :=
  match kind with
  | ThreadRow => js "thread" | TurnRow => js "turn" | TurnMetaRow => js "turnMeta" | ActivityRow => js "activity"
  | PendingKind => js "pending"
  end.

Definition presentationText (presentation : Presentation) : jstr :=
  match presentation with AsDelivery => js "delivery" | AsQueue => js "queue" end.

(** [JSON.stringify(value?.status ?? null)]. *)
Definition statusText (value : option json) : jstr :=
  match value ≫= field "status" with Some status => stringify status | None => stringify JNull end.

Definition stateText (state : PendingDeliveryState) : jstr :=
  js (match state with
      | Queued => "queued" | Sending => "sending" | CompanionAccepted => "companionAccepted"
      | AppServerAccepted => "appServerAccepted" | Uncertain => "uncertain" | Failed => "failed"
      | Accepted => "accepted" | Delivered => "delivered"
      end).

Definition lifecycleText (row : ThreadDetailRow) : jstr :=
  match r_kind row with
  | ThreadRow => statusText (r_thread row)
  | TurnRow => statusText (r_turn row)
  | PendingKind =>
      match r_pending row with
      | Some entry => presentationText (presentation entry) ++ js ":" ++ stateText (state entry)
      | None => js ":"
      end
  | _ => []
  end.

Definition unitText (n : N) : jstr := [n].

Definition rowSignature (row : ThreadDetailRow) : jstr :=
  join (unitText 1)
    [r_id row; kindText (r_kind row); printZ (r_historyEpoch row); printZ (r_ordinal row);
     js (if r_sealed row then "1" else "0"); lifecycleText row].

(** The ids of a window, and what the signature takes of it. *)
Record WindowRange :=
  { wr_historyEpoch : Z; wr_latestSealedOrdinal : option Z; wr_earliestSealedOrdinal : option Z;
    wr_residentTurnLimit : Z; wr_turnRowIds : list jstr; wr_detailRowIds : list jstr; wr_liveRowIds : list jstr }.

Definition rangeRowIds (range : WindowRange) : list jstr :=
  wr_turnRowIds range ++ wr_detailRowIds range ++ wr_liveRowIds range.

Definition ordinalText (ordinal : option Z) : jstr := match ordinal with Some z => printZ z | None => [] end.

Definition threadLayoutSignature (rows : list ThreadDetailRow) (range : WindowRange) : jstr :=
  let resident := filter (fun row => r_id row ∈ rangeRowIds range) rows in
  join (unitText 3)
    [printZ (wr_historyEpoch range); ordinalText (wr_latestSealedOrdinal range);
     ordinalText (wr_earliestSealedOrdinal range); printZ (wr_residentTurnLimit range);
     join (unitText 2) (sortBy (notAfter unitOrder) (rowSignature <$> resident))].

(** ** The resident range *)

Section range.
(** [String.prototype.localeCompare]. *)
Variable localeCompare : jstr -> jstr -> Z.

Definition sealedTurn (row : ThreadDetailRow) : bool := isKindRow TurnRow row && r_sealed row.

(** Newest first. *)
Definition newestFirst (left right : ThreadDetailRow) : Z :=
  let ordinalOrder := r_ordinal right - r_ordinal left in
  if negb (ordinalOrder =? 0) then ordinalOrder else localeCompare (r_id right) (r_id left).

Definition allSealedTurns (epochRows : list ThreadDetailRow) : list ThreadDetailRow :=
  sortBy (notAfter newestFirst) (filter (fun row => sealedTurn row = true) epochRows).

Definition maximumOrdinal (rows : list ThreadDetailRow) : option Z :=
  foldl (fun maximum row => Some (match maximum with None => r_ordinal row | Some m => Z.max m (r_ordinal row) end))
    None rows.

(** One turn of the loop of [advanceResidentTail], which runs from the oldest. *)
Definition advanceStep (previousLiveIds : list jstr) (maximum : option Z) (turn : ThreadDetailRow) : option Z :=
  match maximum with
  | None => if bool_decide (r_id turn ∈ previousLiveIds) then Some (r_ordinal turn) else None
  | Some m => if r_ordinal turn =? m + 1 then Some (r_ordinal turn) else maximum
  end.

Definition advancedMaximum (sealedTurns : list ThreadDetailRow) (previousLiveIds : list jstr)
    (residentMaximum : option Z) : option Z :=
  foldl (advanceStep previousLiveIds) residentMaximum (reverse sealedTurns).

(** Whether a turn belongs to the range that was advanced to [maximum]. *)
Definition inAdvancedRange (residentIds previousLiveIds : list jstr) (residentMaximum maximum : option Z)
    (turn : ThreadDetailRow) : bool :=
  bool_decide (r_id turn ∈ residentIds)
  || match maximum with
     | None => false
     | Some m =>
         (r_ordinal turn <=? m)
         && match residentMaximum with
            | None => bool_decide (r_id turn ∈ previousLiveIds)
            | Some r => r <? r_ordinal turn
            end
     end.

(** The loop that collects the turns stops once [capacity] are found; a negative
    or absent capacity does not occur. *)
Fixpoint collectTurns (capacity : nat) (admits : ThreadDetailRow -> bool) (turns : list ThreadDetailRow)
    : list ThreadDetailRow :=
  match capacity, turns with
  | O, _ => []
  | _, [] => []
  | S room, turn :: turns =>
      if admits turn then turn :: collectTurns room admits turns else collectTurns capacity admits turns
  end.

Definition advanceResidentTail (sealedTurns : list ThreadDetailRow) (residentIds : list jstr) (residentCount : nat)
    (previousLiveIds : list jstr) (residentMaximum : option Z) (turnLimit : nat) : list ThreadDetailRow :=
  let maximum := advancedMaximum sealedTurns previousLiveIds residentMaximum in
  collectTurns (Nat.max turnLimit residentCount)
    (inAdvancedRange residentIds previousLiveIds residentMaximum maximum) sealedTurns.

Definition projectedEpoch (rows : list ThreadDetailRow) (window : ThreadChatWindowSnapshot) : Z :=
  match head (filter (fun row => isKindRow ThreadRow row = true) rows) with
  | Some row => r_historyEpoch row
  | None => cw_historyEpoch window
  end.

Definition residentTurns (window : ThreadChatWindowSnapshot) (sealedTurns : list ThreadDetailRow) : list ThreadDetailRow :=
  filter (fun row => r_id row ∈ cw_turnRowIds window) sealedTurns.

(** Whether the window shows the newest sealed turn it has known. *)
Definition rangeIncludesLatest (window : ThreadChatWindowSnapshot) (sealedTurns : list ThreadDetailRow) : bool :=
  let residentMaximum := maximumOrdinal (residentTurns window sealedTurns) in
  match cw_latestSealedOrdinal window with
  | None => true
  | Some latest =>
      match residentMaximum with
      | Some m => latest <=? m
      | None => existsb (fun row => bool_decide (r_id row ∈ cw_liveRowIds window)) sealedTurns
      end
  end.

Definition visibleTurns (rows : list ThreadDetailRow) (window : ThreadChatWindowSnapshot) (turnLimit : nat)
    : list ThreadDetailRow :=
  let epoch := projectedEpoch rows window in
  let sealedTurns := allSealedTurns (filter (fun row => r_historyEpoch row = epoch) rows) in
  let currentTurns := residentTurns window sealedTurns in
  let residentMaximum := maximumOrdinal currentTurns in
  if negb (epoch =? cw_historyEpoch window)
     || bool_decide (residentMaximum = None) && bool_decide (cw_latestSealedOrdinal window = None)
  then take turnLimit sealedTurns
  else if rangeIncludesLatest window sealedTurns
  then advanceResidentTail sealedTurns (cw_turnRowIds window) (length currentTurns) (cw_liveRowIds window)
         residentMaximum turnLimit
  else currentTurns.

Definition minimumOrdinal (rows : list ThreadDetailRow) : option Z :=
  foldl (fun minimum row => Some (match minimum with None => r_ordinal row | Some m => Z.min m (r_ordinal row) end))
    None rows.

(** Metadata and activity beside the turns shown. *)
Definition detailOf (minOrdinal maxOrdinal : option Z) (row : ThreadDetailRow) : bool :=
  match minOrdinal, maxOrdinal with
  | Some mn, Some mx =>
      r_sealed row && (isKindRow TurnMetaRow row || isKindRow ActivityRow row)
      && (mn <=? r_ordinal row) && (r_ordinal row <=? mx)
  | _, _ => false
  end.

Definition projectResidentRows (rows : list ThreadDetailRow) (window : ThreadChatWindowSnapshot) (turnLimit : Z)
    : WindowRange :=
  let epoch := projectedEpoch rows window in
  let epochRows := filter (fun row => r_historyEpoch row = epoch) rows in
  let sealedTurns := allSealedTurns epochRows in
  let visible := visibleTurns rows window (Z.to_nat turnLimit) in
  let newest := r_ordinal <$> head sealedTurns in
  let oldest := r_ordinal <$> last sealedTurns in
  let changed := negb (epoch =? cw_historyEpoch window) in
  {| wr_historyEpoch := epoch;
     wr_latestSealedOrdinal := if changed then newest else maximumNullable (cw_latestSealedOrdinal window) newest;
     wr_earliestSealedOrdinal := if changed then oldest else minimumNullable (cw_earliestSealedOrdinal window) oldest;
     wr_residentTurnLimit := turnLimit;
     wr_turnRowIds := r_id <$> visible;
     wr_detailRowIds :=
       r_id <$> filter (fun row => detailOf (minimumOrdinal visible) (maximumOrdinal visible) row = true) epochRows;
     wr_liveRowIds :=
       r_id <$> filter (fun row => r_sealed row = false /\ (r_kind row = PendingKind \/ r_historyEpoch row = epoch)) rows |}.
End range.

(** ** The range only rolls forward *)

Section rolling.
Variable localeCompare : jstr -> jstr -> Z.
Context `{!LocaleOrder localeCompare}.

#[export] Instance newestFirst_ranking : Ranking (newestFirst localeCompare) r_id.
Proof.
  assert (H : forall a b,
    (r_ordinal b - r_ordinal a <> 0 /\ newestFirst localeCompare a b = r_ordinal b - r_ordinal a
     \/ r_ordinal b - r_ordinal a = 0 /\ newestFirst localeCompare a b = localeCompare (r_id b) (r_id a))).
  { intros a b. unfold newestFirst. destruct (Z.eqb_spec (r_ordinal b - r_ordinal a) 0); simpl; auto. }
  split.
  - intros a b. pose proof (H a b). pose proof (H b a). pose proof (locale_sign (r_id a) (r_id b)).
    pose proof (locale_sign (r_id b) (r_id a)). lia.
  - intros a b c. pose proof (H a b). pose proof (H b c). pose proof (H a c).
    pose proof (locale_trans (r_id c) (r_id b) (r_id a)). lia.
  - intros a b Hab. pose proof (H a b). symmetry. apply locale_key. lia.
Qed.

Abbreviation sorted turns := (ordered (notAfter (newestFirst localeCompare)) turns).

Lemma sorted_ordinals turns i j a b :
  sorted turns -> (i < j)%nat -> turns !! i = Some a -> turns !! j = Some b -> r_ordinal b <= r_ordinal a.
Proof.
  intros Hs Hij Ha Hb. pose proof (Hs i j a b Hij Ha Hb) as Hle. apply notAfter_spec in Hle. unfold newestFirst in Hle.
  destruct (Z.eqb_spec (r_ordinal b - r_ordinal a) 0); simpl in Hle; lia.
Qed.

Lemma collectTurns_take capacity admits turns :
  collectTurns capacity admits turns = take capacity (filter (fun turn => admits turn = true) turns).
Proof.
  revert capacity. induction turns as [|turn turns IH]; intros [|capacity]; try done. cbn [collectTurns].
  rewrite filter_cons. destruct (admits turn); case_decide; try done; simpl; by rewrite <- IH.
Qed.

(** Where the turns contiguous with [m] end. *)
Definition contiguousEnd (m : Z) (turns : list ThreadDetailRow) (e : Z) : Prop :=
  m <= e /\ (forall o, m < o <= e -> exists turn, turn ∈ turns /\ r_ordinal turn = o)
  /\ forall turn, turn ∈ turns -> r_ordinal turn <> e + 1.

(** From the oldest on, the maximum advances over the contiguous turns. *)
Lemma advance_contiguous live m older turns :
  (forall i j a b, (i < j)%nat -> (older ++ turns) !! i = Some a -> (older ++ turns) !! j = Some b ->
     r_ordinal a <= r_ordinal b) ->
  forall e, (m <= e /\ (forall o, m < o <= e -> exists turn, turn ∈ older /\ r_ordinal turn = o)
             /\ forall turn, turn ∈ older -> r_ordinal turn <> e + 1) ->
  exists e', foldl (advanceStep live) (Some e) turns = Some e' /\ contiguousEnd m (older ++ turns) e'.
Proof.
  revert older. induction turns as [|turn turns IH]; intros older Hs e (H1 & H2 & H3).
  - exists e. rewrite app_nil_r. done.
  - cbn [foldl advanceStep]. rewrite (cons_middle turn older turns), app_assoc in Hs |- *.
    destruct (Z.eqb_spec (r_ordinal turn) (e + 1)) as [Ht|Ht].
    + apply IH; [done|]. rewrite Ht. split_and!; [lia|..].
      * intros o Ho. destruct (decide (o = e + 1)) as [->|]; [by exists turn; set_solver|].
        destruct (H2 o) as (t & ? & ?); [lia|]. exists t. set_solver.
      * intros t [Hin| ->%list_elem_of_singleton]%elem_of_app; [|lia].
        apply list_elem_of_lookup_1 in Hin as [i Hi]. pose proof (lookup_lt_Some _ _ _ Hi) as Hlt.
        assert (r_ordinal t <= r_ordinal turn); [|lia].
        apply (Hs i (length older)); [lia|rewrite <- app_assoc; by apply lookup_app_l_Some|].
        rewrite <- app_assoc, lookup_app_r, Nat.sub_diag by lia. done.
    + apply IH; [done|]. split_and!; [done| |].
      * intros o Ho. destruct (H2 o Ho) as (t & ? & ?). exists t. set_solver.
      * intros t [Hin| ->%list_elem_of_singleton]%elem_of_app; [by apply H3|done].
Qed.

Lemma reverse_ascending turns i j a b :
  sorted turns -> (i < j)%nat -> reverse turns !! i = Some a -> reverse turns !! j = Some b -> r_ordinal a <= r_ordinal b.
Proof.
  intros Hs Hij Ha Hb. pose proof (lookup_lt_Some _ _ _ Ha) as Hi. pose proof (lookup_lt_Some _ _ _ Hb) as Hj.
  rewrite length_reverse in Hi, Hj. rewrite reverse_lookup in Ha, Hb by done.
  apply (sorted_ordinals turns (length turns - S j) (length turns - S i)); [done|lia|done..].
Qed.

Lemma advancedMaximum_end sealed live m :
  sorted sealed -> exists e, advancedMaximum sealed live (Some m) = Some e /\ contiguousEnd m sealed e.
Proof.
  intros Hs. unfold advancedMaximum. destruct (advance_contiguous live m [] (reverse sealed)) with (e := m) as (e & He & H1 & H2 & H3).
  - intros i j a b Hij Ha Hb. by eapply reverse_ascending.
  - split_and!; [lia|lia|by intros ? ?%elem_of_nil].
  - exists e. split; [done|]. simpl in *. split_and!; [done| |].
    + intros o Ho. destruct (H2 o Ho) as (turn & Hin & ?). exists turn. by rewrite elem_of_reverse in Hin.
    + intros turn Hin. apply H3. by rewrite elem_of_reverse.
Qed.

Lemma sealed_sorted rows : sorted (allSealedTurns localeCompare rows).
Proof. apply (sort_ranked (newestFirst localeCompare) r_id). Qed.

Lemma sorted_sublist l1 l2 : l1 `sublist_of` l2 -> sorted l2 -> sorted l1.
Proof.
  induction 1 as [|x l1 l2 Hs IH|x l1 l2 Hs IH]; [done| |].
  - rewrite !ordered_cons. intros [Hx Hl]. split; [|by apply IH].
    apply Forall_forall. intros y Hy. rewrite Forall_forall in Hx. apply Hx. by eapply elem_of_sublist.
  - rewrite ordered_cons. intros [_ Hl]. by apply IH.
Qed.

Lemma maximumOrdinal_None rows : maximumOrdinal rows = None -> rows = [].
Proof.
  destruct rows as [|row rows]; [done|]. unfold maximumOrdinal. cbn [foldl]. generalize (r_ordinal row).
  intros z H. exfalso. revert z H. induction rows as [|row' rows IH]; intros z; [done|apply IH].
Qed.

(** The sealed turns of the epoch the window is in. *)
Definition windowTurns (rows : list ThreadDetailRow) (window : ThreadChatWindowSnapshot) : list ThreadDetailRow :=
  allSealedTurns localeCompare (filter (fun row => r_historyEpoch row = cw_historyEpoch window) rows).

(** The turns a range admits that ends at [e]. *)
Definition rolledTo (window : ThreadChatWindowSnapshot) (m e : Z) (turn : ThreadDetailRow) : Prop :=
  r_id turn ∈ cw_turnRowIds window \/ m < r_ordinal turn <= e.

#[local] Instance rolledTo_dec window m e turn : Decision (rolledTo window m e turn).
Proof. unfold rolledTo. apply _. Defined.

(** C14. While its epoch lasts, the range of a window rolls forward and does nothing
    else.  With the newest sealed turn in view it shows, newest first, the turns
    it showed and those contiguous with the newest of them, up to its capacity;
    otherwise it shows the turns it showed, and never a row of the cache behind
    a gap.  A window that showed none takes only turns that were live in it. *)
Theorem resident_range_rolls rows window limit :
  let sealed := windowTurns rows window in
  let current := residentTurns window sealed in
  let shown := visibleTurns localeCompare rows window limit in
  projectedEpoch rows window = cw_historyEpoch window ->
  maximumOrdinal current <> None \/ cw_latestSealedOrdinal window <> None ->
  (length shown <= Nat.max limit (length current))%nat /\ ordered (notAfter (newestFirst localeCompare)) shown
  /\ match maximumOrdinal current with
     | Some m =>
         if rangeIncludesLatest window sealed
         then exists e, contiguousEnd m sealed e
                /\ shown = take (Nat.max limit (length current)) (filter (rolledTo window m e) sealed)
         else shown = current
     | None => forall turn, turn ∈ shown -> turn ∈ sealed /\ r_id turn ∈ cw_liveRowIds window
     end.
Proof.
  intros sealed current shown Hepoch Hknown.
  assert (Hs : sorted sealed) by apply sealed_sorted.
  assert (Hshown : shown = if rangeIncludesLatest window sealed
    then advanceResidentTail sealed (cw_turnRowIds window) (length current) (cw_liveRowIds window) (maximumOrdinal current) limit
    else current).
  { unfold shown, visibleTurns. rewrite Hepoch, Z.eqb_refl. cbn [negb orb]. fold (windowTurns rows window). fold sealed. fold current.
    destruct (bool_decide (maximumOrdinal current = None) && bool_decide (cw_latestSealedOrdinal window = None)) eqn:E; [|done].
    bool_prop. by destruct Hknown. }
  assert (Hsub : shown `sublist_of` sealed).
  { rewrite Hshown. destruct (rangeIncludesLatest window sealed); [|apply sublist_filter].
    unfold advanceResidentTail. rewrite collectTurns_take. etrans; [apply sublist_take|apply sublist_filter]. }
  split_and!.
  - rewrite Hshown. destruct (rangeIncludesLatest window sealed); [|lia].
    unfold advanceResidentTail. rewrite collectTurns_take, length_take. lia.
  - by eapply sorted_sublist.
  - rewrite Hshown. unfold advanceResidentTail. rewrite collectTurns_take.
    destruct (maximumOrdinal current) as [m|] eqn:Em.
    + destruct (rangeIncludesLatest window sealed); [|done].
      destruct (advancedMaximum_end sealed (cw_liveRowIds window) m Hs) as (e & -> & He). exists e. split; [done|].
      f_equal. apply list_filter_iff. intros turn. unfold inAdvancedRange, rolledTo.
      rewrite orb_true_iff, andb_true_iff, bool_decide_eq_true, Z.leb_le, Z.ltb_lt. tauto.
    + assert (Hnone : current = []) by (by apply maximumOrdinal_None).
      intros turn Hin. destruct (rangeIncludesLatest window sealed); [|by rewrite Hnone in Hin; apply elem_of_nil in Hin].
      assert (Hin' : turn ∈ filter (fun turn => inAdvancedRange (cw_turnRowIds window) (cw_liveRowIds window) None
        (advancedMaximum sealed (cw_liveRowIds window) None) turn = true) sealed).
      { apply elem_of_take in Hin as (i & Hi & _). by eapply list_elem_of_lookup_2. }
      apply list_elem_of_filter in Hin' as [Hr Hse]. split; [done|]. unfold inAdvancedRange in Hr.
      apply orb_true_iff in Hr as [Hr%bool_decide_eq_true|Hr].
      * assert (Hc : turn ∈ current) by (apply list_elem_of_filter; done). by rewrite Hnone in Hc; apply elem_of_nil in Hc.
      * destruct (advancedMaximum _ _ _); [|done]. bool_prop. done.
Qed.
End rolling.

(** ** An execution *)

Definition demo_row (kind : RowKind) (id : string) (ordinal : Z) (sealed : bool) : ThreadDetailRow :=
  {| r_id := js id; r_kind := kind; r_connectionId := js "c"; r_remoteThreadId := js "t"; r_remoteTurnId := Some (js id);
     r_ordinal := ordinal; r_historyEpoch := 0; r_sealed := sealed; r_sessionId := None; r_thread := None;
     r_turn := None; r_turnMetadata := None; r_activityItems := None; r_pending := None; r_lastOpenedAt := 0;
     r_historyCursor := None; r_historyHadTurns := None; r_historyCoverageMinOrdinal := None;
     r_historyCoverageMaxOrdinal := None; r_projectionCursor := None; r_historySourceWitness := None;
     r_currentUsage := None; r_currentOutcome := None |}.

Definition demo_turn (id : string) (ordinal : Z) : ThreadDetailRow := demo_row TurnRow id ordinal true.

(** The window shows turns 4 and 5; turn 6 completed, and 9 is an island of the
    cache. *)
Definition demo_window : ThreadChatWindowSnapshot :=
  {| cw_backendRefreshing := false; cw_detailRowIds := []; cw_earliestSealedOrdinal := Some 1; cw_error := None;
     cw_historyEpoch := 0; cw_latestSealedOrdinal := Some 5; cw_layoutRevision := 0; cw_liveRowIds := [js "f"];
     cw_requestKey := None; cw_residentTurnLimit := 2; cw_revision := 0; cw_scope := []; cw_status := LoadReady;
     cw_turnRowIds := [js "e"; js "d"] |}.

Definition demo_turns : list ThreadDetailRow :=
  [demo_turn "c" 3; demo_turn "i" 9; demo_turn "f" 6; demo_turn "d" 4; demo_turn "e" 5].

Lemma resident_range_rolls_witness :
  let shown := visibleTurns unitOrder demo_turns demo_window 2 in
  r_id <$> shown = [js "f"; js "e"]
  /\ (length shown <= 2)%nat
  /\ exists e, contiguousEnd 5 (windowTurns unitOrder demo_turns demo_window) e
       /\ shown = take 2 (filter (rolledTo demo_window 5 e) (windowTurns unitOrder demo_turns demo_window)).
Proof.
  cbv zeta. split; [vm_compute; reflexivity|].
  assert (Hknown : maximumOrdinal (residentTurns demo_window (windowTurns unitOrder demo_turns demo_window)) <> None
                   \/ cw_latestSealedOrdinal demo_window <> None) by (right; discriminate).
  destruct (resident_range_rolls unitOrder demo_turns demo_window 2 eq_refl Hknown) as (H1 & _ & H3).
  split; [exact H1|exact H3].
Defined.
