(* ===== verification/ChatModel.v ===== *)
(** * The resident conversations

    Models createThreadChatModel of apps/android/src/data/thread-chat-model.ts:
    the rows that are resident, the windows over them and their eviction, the
    resources that read them with their retries, and which threads want live
    content.  The state is in four parts, as the operations use it: [ChatRows],
    [ChatInterest], [ChatWindows] and [ChatLoads].

    Windows and resource records are objects that closures hold on to after
    their entries are gone: [cw_nodes] and [cl_records] are the heap of each, and
    the maps hold addresses.  A promise, a timer or a microtask is an entry that
    a later event runs; [ready$] is third-party, so what waits for it may run
    whenever.  The hooks of the options are always given; what they are called
    with is logged. *)
From S2P Require Import Prelude JsMap Json Ranking ThreadItems Readers ThreadEvents ThreadHead Delivery ThreadRows DetailCoverage.
From S2P Require Import SummaryTypes SummaryProjection SummaryView ChatRange.

Local Open Scope nat_scope.

#[export] Instance CommandReceipt_eq_dec : EqDecision CommandReceipt.
Proof. solve_decision. Defined.
#[export] Instance PendingTimelineEntry_eq_dec : EqDecision PendingTimelineEntry.
Proof. solve_decision. Defined.
#[export] Instance ThreadCurrentUsage_eq_dec : EqDecision ThreadCurrentUsage.
Proof. solve_decision. Defined.
#[export] Instance ThreadCurrentOutcome_eq_dec : EqDecision ThreadCurrentOutcome.
Proof. solve_decision. Defined.
#[export] Instance ThreadDetailRow_eq_dec : EqDecision ThreadDetailRow.
Proof. solve_decision. Defined.

(** ** Rows *)

(** [rowNodes], the rows that changed since their thread was projected, the
    number of rows that are not null, and the number last reported. *)
Record ChatRows :=
  { rowNodes : list (jstr * option ThreadDetailRow); changedRowIdsByScope : list (jstr * list jstr);
    residentRowCount : Z; reportedRowCount : Z }.

Definition noRows : ChatRows :=
  {| rowNodes := []; changedRowIdsByScope := []; residentRowCount := 0; reportedRowCount := -1 |}.

Definition withNode (id : jstr) (value : option ThreadDetailRow) (count : Z) (r : ChatRows) : ChatRows :=
  {| rowNodes := mset id value (rowNodes r); changedRowIdsByScope := changedRowIdsByScope r;
     residentRowCount := count; reportedRowCount := reportedRowCount r |}.

Definition withChangedIds (changed : list (jstr * list jstr)) (r : ChatRows) : ChatRows :=
  {| rowNodes := rowNodes r; changedRowIdsByScope := changed; residentRowCount := residentRowCount r;
     reportedRowCount := reportedRowCount r |}.

Definition reportResidentRowCount (r : ChatRows) : ChatRows :=
  {| rowNodes := rowNodes r; changedRowIdsByScope := changedRowIdsByScope r; residentRowCount := residentRowCount r;
     reportedRowCount := residentRowCount r |}.

(** [row$(id).peek()] *)
Definition rowAt (id : jstr) (r : ChatRows) : option ThreadDetailRow := default None (mget id (rowNodes r)).

(** [row$(id)], which creates the node it does not find. *)
Definition openRow (id : jstr) (r : ChatRows) : ChatRows := withNode id (rowAt id r) (residentRowCount r) r.

Definition installRow (st : ChatRows * bool) (row : ThreadDetailRow) : ChatRows * bool :=
  let '(r, changed) := st in
  match rowAt (r_id row) r with
  | None => (withNode (r_id row) (Some row) (residentRowCount r + 1) r, true)
  | Some previous =>
      if bool_decide (previous = row) then (r, changed)
      else (withNode (r_id row) (Some row) (residentRowCount r) r, true)
  end.

Definition installRows (rows : list ThreadDetailRow) (r : ChatRows) : ChatRows * bool :=
  let '(r, changed) := foldl installRow (r, false) rows in (reportResidentRowCount r, changed).

Definition recordChangedRow (row : ThreadDetailRow) (r : ChatRows) : ChatRows :=
  let scope := threadChatScope (r_connectionId row) (r_remoteThreadId row) in
  let ids := default [] (mget scope (changedRowIdsByScope r)) in
  withChangedIds (mset scope (sadd (r_id row) ids) (changedRowIdsByScope r)) r.

Inductive ChatRowChange := RowPut (isInsert : bool) (value : ThreadDetailRow) | RowDelete (key : jstr).

Definition publishRow (r : ChatRows) (change : ChatRowChange) : ChatRows :=
  match change with
  | RowDelete key =>
      match rowAt key r with
      | None => openRow key r
      | Some previous => withNode key None (residentRowCount r - 1) (recordChangedRow previous r)
      end
  | RowPut _ row =>
      match rowAt (r_id row) r with
      | None => withNode (r_id row) (Some row) (residentRowCount r + 1) (recordChangedRow row r)
      | Some previous =>
          if bool_decide (previous = row) then r
          else withNode (r_id row) (Some row) (residentRowCount r) (recordChangedRow row r)
      end
  end.

Definition publishRows (changes : list ChatRowChange) (r : ChatRows) : ChatRows :=
  reportResidentRowCount (foldl publishRow r changes).

(** [readRows]: the rows, and the nodes it opened. *)
Definition readRows (rowIds : list jstr) (r : ChatRows) : ChatRows * list ThreadDetailRow :=
  (foldl (fun r id => openRow id r) r rowIds, omap (fun id => rowAt id r) rowIds).

Definition isResident (value : option ThreadDetailRow) : bool := bool_decide (is_Some value).

(** The number of nodes that hold a row. *)
Definition countRows (nodes : list (jstr * option ThreadDetailRow)) : Z :=
  Z.of_nat (length (filter (fun e => is_Some e.2) nodes)).

(** The nodes that are referenced stay. *)
Definition pruneRows (retainedRowIds : list jstr) (r : ChatRows) : ChatRows :=
  let dropped := filter (fun e => e.1 ∉ retainedRowIds) (rowNodes r) in
  reportResidentRowCount
    {| rowNodes := filter (fun e => e.1 ∈ retainedRowIds) (rowNodes r);
       changedRowIdsByScope := changedRowIdsByScope r;
       residentRowCount := residentRowCount r - countRows dropped; reportedRowCount := reportedRowCount r |}.

(** ** Interest *)

(** A connection and a thread. *)
Abbreviation ThreadIdentity := (jstr * jstr)%type.

(** [interestLog]: the calls of [onInterestChange]. *)
Record ChatInterest :=
  { retainCounts : list (jstr * nat); interestScopes : list (jstr * ThreadIdentity);
    residentResourceScope : option jstr; dormantResidentScope : option jstr; interestLog : list (jstr * bool) }.

Definition noInterest : ChatInterest :=
  {| retainCounts := []; interestScopes := []; residentResourceScope := None; dormantResidentScope := None;
     interestLog := [] |}.

Definition retained (scope : jstr) (i : ChatInterest) : nat := default 0 (mget scope (retainCounts i)).

Definition withCounts (counts : list (jstr * nat)) (i : ChatInterest) : ChatInterest :=
  {| retainCounts := counts; interestScopes := interestScopes i; residentResourceScope := residentResourceScope i;
     dormantResidentScope := dormantResidentScope i; interestLog := interestLog i |}.

Definition withResident (resident dormant : option jstr) (i : ChatInterest) : ChatInterest :=
  {| retainCounts := retainCounts i; interestScopes := interestScopes i; residentResourceScope := resident;
     dormantResidentScope := dormant; interestLog := interestLog i |}.

Definition withInterest (scopes : list (jstr * ThreadIdentity)) (scope : jstr) (interested : bool)
    (i : ChatInterest) : ChatInterest :=
  {| retainCounts := retainCounts i; interestScopes := scopes; residentResourceScope := residentResourceScope i;
     dormantResidentScope := dormantResidentScope i; interestLog := interestLog i ++ [(scope, interested)] |}.

Definition isInterested (closed : bool) (scope : jstr) (i : ChatInterest) : bool :=
  if closed then false
  else (0 <? retained scope i)
       || bool_decide (residentResourceScope i = Some scope) && negb (bool_decide (dormantResidentScope i = Some scope)).

Definition markLeftResident (closed : bool) (scope : jstr) (i : ChatInterest) : ChatInterest :=
  if closed || negb (bool_decide (residentResourceScope i = Some scope)) || (0 <? retained scope i) then i
  else withResident (residentResourceScope i) (Some scope) i.

Definition reconcileInterest (closed : bool) (scope : jstr) (identity : ThreadIdentity) (i : ChatInterest) : ChatInterest :=
  let interested := isInterested closed scope i in
  if Bool.eqb interested (mhas scope (interestScopes i)) then i
  else if interested then withInterest (mset scope identity (interestScopes i)) scope true i
  else withInterest (mdel scope (interestScopes i)) scope false i.

Definition reconcileInterestScope (closed : bool) (scope : jstr) (i : ChatInterest) : ChatInterest :=
  match mget scope (interestScopes i) with
  | Some identity => reconcileInterest closed scope identity i
  | None => i
  end.

(** [retainWindow] of an open model. *)
Definition retainScope (identity : ThreadIdentity) (i : ChatInterest) : ChatInterest :=
  let scope := threadChatScope identity.1 identity.2 in
  let i := if bool_decide (dormantResidentScope i = Some scope) then withResident (residentResourceScope i) None i else i in
  let i := withCounts (mset scope (S (retained scope i)) (retainCounts i)) i in
  reconcileInterest false scope identity i.

(** The release of a window: the counts, and whether the last owner left. *)
Definition releaseScope (scope : jstr) (i : ChatInterest) : ChatInterest * bool :=
  match default 1 (mget scope (retainCounts i)) - 1 with
  | O => (withCounts (mdel scope (retainCounts i)) i, true)
  | next => (withCounts (mset scope next (retainCounts i)) i, false)
  end.

(** What [resource] does to the interest. *)
Definition claimResident (identity : ThreadIdentity) (i : ChatInterest) : ChatInterest :=
  let scope := threadChatScope identity.1 identity.2 in
  reconcileInterest false scope identity (withResident (Some scope) None i).

Definition forgetInterestOf (connectionId : jstr) (i : ChatInterest) : ChatInterest :=
  foldl (fun i e => if bool_decide (e.2.1 = connectionId)
                    then withInterest (mdel e.1 (interestScopes i)) e.1 false i else i) i (interestScopes i).

(** ** Windows *)

(** [wn_evicted]: the calls of [onEvictWindow]. *)
Record ChatWindows :=
  { wn_nodes : list ThreadChatWindowSnapshot; windowNodes : list (jstr * nat);
    windowIdentities : list (jstr * ThreadIdentity); activeRequests : list (jstr * ThreadChatWindowRequest);
    wn_generations : list (jstr * nat); windowLayoutSignatures : list (jstr * jstr);
    backendRefreshCounts : list (jstr * nat); wn_evicted : list ThreadIdentity }.

Definition noWindows : ChatWindows :=
  {| wn_nodes := []; windowNodes := []; windowIdentities := []; activeRequests := []; wn_generations := [];
     windowLayoutSignatures := []; backendRefreshCounts := []; wn_evicted := [] |}.

Definition withNodes (nodes : list ThreadChatWindowSnapshot) (windows : list (jstr * nat))
    (identities : list (jstr * ThreadIdentity)) (w : ChatWindows) : ChatWindows :=
  {| wn_nodes := nodes; windowNodes := windows; windowIdentities := identities; activeRequests := activeRequests w;
     wn_generations := wn_generations w; windowLayoutSignatures := windowLayoutSignatures w;
     backendRefreshCounts := backendRefreshCounts w; wn_evicted := wn_evicted w |}.

Definition withRequest (scope : jstr) (request : ThreadChatWindowRequest) (generation : nat) (w : ChatWindows) : ChatWindows :=
  {| wn_nodes := wn_nodes w; windowNodes := windowNodes w; windowIdentities := windowIdentities w;
     activeRequests := mset scope request (activeRequests w); wn_generations := mset scope generation (wn_generations w);
     windowLayoutSignatures := windowLayoutSignatures w; backendRefreshCounts := backendRefreshCounts w;
     wn_evicted := wn_evicted w |}.

Definition withSignature (scope signature : jstr) (w : ChatWindows) : ChatWindows :=
  {| wn_nodes := wn_nodes w; windowNodes := windowNodes w; windowIdentities := windowIdentities w;
     activeRequests := activeRequests w; wn_generations := wn_generations w;
     windowLayoutSignatures := mset scope signature (windowLayoutSignatures w);
     backendRefreshCounts := backendRefreshCounts w; wn_evicted := wn_evicted w |}.

Definition withRefreshCounts (counts : list (jstr * nat)) (w : ChatWindows) : ChatWindows :=
  {| wn_nodes := wn_nodes w; windowNodes := windowNodes w; windowIdentities := windowIdentities w;
     activeRequests := activeRequests w; wn_generations := wn_generations w;
     windowLayoutSignatures := windowLayoutSignatures w; backendRefreshCounts := counts; wn_evicted := wn_evicted w |}.

(** [window$]: the address of the window, which is created when there is none. *)
Definition windowAt (identity : ThreadIdentity) (w : ChatWindows) : ChatWindows * nat :=
  let scope := threadChatScope identity.1 identity.2 in
  match mget scope (windowNodes w) with
  | Some address => (w, address)
  | None =>
      let address := length (wn_nodes w) in
      (withNodes (wn_nodes w ++ [emptyWindow scope]) (mset scope address (windowNodes w))
         (mset scope identity (windowIdentities w)) w, address)
  end.

(** [node.peek()] and [node.set(snapshot)]. *)
Definition peekWindow (address : nat) (w : ChatWindows) : ThreadChatWindowSnapshot :=
  default (emptyWindow []) (wn_nodes w !! address).

Definition setWindow (address : nat) (snapshot : ThreadChatWindowSnapshot) (w : ChatWindows) : ChatWindows :=
  withNodes (<[address := snapshot]> (wn_nodes w)) (windowNodes w) (windowIdentities w) w.

(** The windows without one of them. *)
Definition forgetWindow (scope : jstr) (w : ChatWindows) : ChatWindows :=
  {| wn_nodes := wn_nodes w; windowNodes := mdel scope (windowNodes w);
     windowIdentities := mdel scope (windowIdentities w); activeRequests := mdel scope (activeRequests w);
     wn_generations := mdel scope (wn_generations w);
     windowLayoutSignatures := mdel scope (windowLayoutSignatures w);
     backendRefreshCounts := backendRefreshCounts w;
     wn_evicted := wn_evicted w ++ match mget scope (windowIdentities w) with Some identity => [identity] | None => [] end |}.

Definition snapshotRowIds (snapshot : ThreadChatWindowSnapshot) : list jstr :=
  cw_turnRowIds snapshot ++ cw_detailRowIds snapshot ++ cw_liveRowIds snapshot.

(** The rows the windows refer to. *)
Definition referencedRowIds (w : ChatWindows) : list jstr :=
  flat_map (fun address => snapshotRowIds (peekWindow address w)) (mvals (windowNodes w)).

(** The window becomes the one used last. *)
Definition promoteWindow (scope : jstr) (w : ChatWindows) : ChatWindows :=
  match mget scope (windowNodes w) with
  | Some address =>
      withNodes (wn_nodes w) (mset scope address (mdel scope (windowNodes w))) (windowIdentities w) w
  | None => w
  end.

(** ** Loads *)

Record ThreadChatResourceRecord :=
  { rr_committedToken : nat; rr_hasReadySnapshot : bool; rr_loadingKey : option jstr; rr_reactivationReady : bool;
    rr_reactivationTimer : option nat; rr_ready : option nat; rr_request : ThreadChatWindowRequest;
    rr_requestKey : option jstr; rr_retainedOnce : bool; rr_retryAttempt : nat; rr_retryTimer : option nat;
    rr_token : nat }.

(** What a load has captured: its promise, request, token and record (if there
    was one), and whether its readers wait for it. *)
Record ChatLoad :=
  { cl_id : nat; cl_request : ThreadChatWindowRequest; cl_token : nat; cl_record : option nat; cl_initial : bool }.

Inductive ChatTimer :=
| RetryTimer (handle : nat) (request : ThreadChatWindowRequest) (record : nat) (delay : N)
| ReactivationTimer (handle : nat) (scope : jstr) (record : nat).

Definition timerHandle (timer : ChatTimer) : nat :=
  match timer with RetryTimer handle _ _ _ | ReactivationTimer handle _ _ => handle end.

Record ChatLoads :=
  { cl_records : list ThreadChatResourceRecord; resources : list (jstr * nat); cl_loads : list ChatLoad;
    cl_timers : list ChatTimer; cl_next : nat }.

Definition noLoads : ChatLoads :=
  {| cl_records := []; resources := []; cl_loads := []; cl_timers := []; cl_next := 0 |}.

Definition withRecords (records : list ThreadChatResourceRecord) (owners : list (jstr * nat)) (l : ChatLoads) : ChatLoads :=
  {| cl_records := records; resources := owners; cl_loads := cl_loads l; cl_timers := cl_timers l; cl_next := cl_next l |}.

Definition withLoads (loads : list ChatLoad) (timers : list ChatTimer) (next : nat) (l : ChatLoads) : ChatLoads :=
  {| cl_records := cl_records l; resources := resources l; cl_loads := loads; cl_timers := timers; cl_next := next |}.

Definition setRecordAt (address : nat) (record : ThreadChatResourceRecord) (l : ChatLoads) : ChatLoads :=
  withRecords (<[address := record]> (cl_records l)) (resources l) l.

(** The record of a scope, with its address. *)
Definition recordOf (scope : jstr) (l : ChatLoads) : option (nat * ThreadChatResourceRecord) :=
  address ← mget scope (resources l); record ← cl_records l !! address; Some (address, record).

(** [clearTimer]. *)
Definition clearTimer (timer : option nat) (l : ChatLoads) : ChatLoads :=
  match timer with
  | None => l
  | Some handle => withLoads (cl_loads l) (filter (fun t => timerHandle t <> handle) (cl_timers l)) (cl_next l) l
  end.

Definition clearResourceTimers (record : option ThreadChatResourceRecord) (l : ChatLoads) : ChatLoads :=
  match record with
  | None => l
  | Some record => clearTimer (rr_reactivationTimer record) (clearTimer (rr_retryTimer record) l)
  end.

Definition forgetResource (scope : jstr) (l : ChatLoads) : ChatLoads :=
  let l := clearResourceTimers (snd <$> recordOf scope l) l in
  withRecords (cl_records l) (mdel scope (resources l)) l.

Definition begunRecord (requestKey : jstr) (token retryAttempt : nat) (r : ThreadChatResourceRecord) : ThreadChatResourceRecord :=
  {| rr_committedToken := rr_committedToken r; rr_hasReadySnapshot := rr_hasReadySnapshot r;
     rr_loadingKey := Some requestKey; rr_reactivationReady := rr_reactivationReady r;
     rr_reactivationTimer := rr_reactivationTimer r; rr_ready := rr_ready r; rr_request := rr_request r;
     rr_requestKey := Some requestKey; rr_retainedOnce := rr_retainedOnce r; rr_retryAttempt := retryAttempt;
     rr_retryTimer := None; rr_token := token |}.

Definition requestScope (request : ThreadChatWindowRequest) : jstr :=
  threadChatScope (cr_connectionId request) (cr_threadId request).

(** The part of [beginResourceLoad] that runs at once. *)
Definition beginChatLoad (request : ThreadChatWindowRequest) (initial : bool) (retryAttempt : nat) (l : ChatLoads)
    : ChatLoads * ChatLoad :=
  let scope := requestScope request in
  let requestKey := threadChatRequestKey request in
  let token := S (default 0 (rr_token ∘ snd <$> recordOf scope l)) in
  let load := {| cl_id := cl_next l; cl_request := request; cl_token := token; cl_record := fst <$> recordOf scope l;
                 cl_initial := initial |} in
  let l :=
    match recordOf scope l with
    | None => l
    | Some (address, record) =>
        setRecordAt address (begunRecord requestKey token retryAttempt record) (clearTimer (rr_retryTimer record) l)
    end in
  (withLoads (cl_loads l ++ [load]) (cl_timers l) (S (cl_next l)) l, load).

(** The record a load still owns. *)
Definition ownedBy (closed : bool) (load : ChatLoad) (l : ChatLoads) : option (nat * ThreadChatResourceRecord) :=
  if closed then None
  else
    current ← recordOf (requestScope (cl_request load)) l;
    if bool_decide (cl_record load = Some current.1) && bool_decide (rr_token current.2 = cl_token load)
       && bool_decide (rr_requestKey current.2 = Some (threadChatRequestKey (cl_request load)))
    then Some current else None.

Definition finishedRecord (r : ThreadChatResourceRecord) : ThreadChatResourceRecord :=
  let committed := rr_committedToken r =? rr_token r in
  {| rr_committedToken := rr_committedToken r; rr_hasReadySnapshot := rr_hasReadySnapshot r; rr_loadingKey := None;
     rr_reactivationReady := rr_reactivationReady r; rr_reactivationTimer := rr_reactivationTimer r;
     rr_ready := rr_ready r; rr_request := rr_request r;
     rr_requestKey := if committed then rr_requestKey r else None; rr_retainedOnce := rr_retainedOnce r;
     rr_retryAttempt := if committed then 0 else rr_retryAttempt r; rr_retryTimer := rr_retryTimer r;
     rr_token := rr_token r |}.

(** The loader resolved: [true] when its window was committed. *)
Definition resolveChatLoad (closed : bool) (load : ChatLoad) (l : ChatLoads) : ChatLoads * bool :=
  match ownedBy closed load l with
  | None => (l, false)
  | Some (address, record) =>
      (setRecordAt address (finishedRecord record) l, rr_committedToken record =? cl_token load)
  end.

Definition failedChatRecord (timer : option nat) (r : ThreadChatResourceRecord) : ThreadChatResourceRecord :=
  {| rr_committedToken := rr_committedToken r; rr_hasReadySnapshot := rr_hasReadySnapshot r; rr_loadingKey := None;
     rr_reactivationReady := rr_reactivationReady r; rr_reactivationTimer := rr_reactivationTimer r;
     rr_ready := rr_ready r; rr_request := rr_request r; rr_requestKey := rr_requestKey r;
     rr_retainedOnce := rr_retainedOnce r; rr_retryAttempt := rr_retryAttempt r;
     rr_retryTimer := match timer with Some _ => timer | None => rr_retryTimer r end; rr_token := rr_token r |}.

(** [Math.min(250 * 2 ** attempt, 5000)]. *)
Definition chatRetryDelay (attempt : nat) : N := N.min (250 * 2 ^ N.of_nat attempt) 5000.

Definition rejectChatLoad (closed : bool) (load : ChatLoad) (l : ChatLoads) : ChatLoads :=
  match ownedBy closed load l with
  | None => l
  | Some (address, record) =>
      if cl_initial load then setRecordAt address (failedChatRecord None record) l
      else
        let timer := RetryTimer (cl_next l) (cl_request load) address (chatRetryDelay (rr_retryAttempt record)) in
        withLoads (cl_loads l) (cl_timers l ++ [timer]) (S (cl_next l))
          (setRecordAt address (failedChatRecord (Some (cl_next l)) record) l)
  end.

(** The callback of a retry. *)
Definition fireRetry (closed : bool) (request : ThreadChatWindowRequest) (address : nat) (l : ChatLoads) : ChatLoads :=
  match recordOf (requestScope request) l with
  | Some (latest, record) =>
      if closed || negb (latest =? address)
         || negb (bool_decide (rr_requestKey record = Some (threadChatRequestKey request)))
         || negb (bool_decide (rr_loadingKey record = None))
      then l
      else (beginChatLoad request false (S (rr_retryAttempt record)) l).1
  | None => l
  end.

Definition newChatRecord (request : ThreadChatWindowRequest) : ThreadChatResourceRecord :=
  {| rr_committedToken := 0; rr_hasReadySnapshot := false; rr_loadingKey := Some (threadChatRequestKey request);
     rr_reactivationReady := false; rr_reactivationTimer := None; rr_ready := None; rr_request := request;
     rr_requestKey := Some (threadChatRequestKey request); rr_retainedOnce := false; rr_retryAttempt := 0;
     rr_retryTimer := None; rr_token := 0 |}.

(** [record.request = request], and the promise its readers wait for. *)
Definition awaiting (request : ThreadChatWindowRequest) (ready : option nat) (r : ThreadChatResourceRecord) : ThreadChatResourceRecord :=
  {| rr_committedToken := rr_committedToken r; rr_hasReadySnapshot := rr_hasReadySnapshot r;
     rr_loadingKey := rr_loadingKey r; rr_reactivationReady := rr_reactivationReady r;
     rr_reactivationTimer := rr_reactivationTimer r; rr_ready := ready; rr_request := request;
     rr_requestKey := rr_requestKey r; rr_retainedOnce := rr_retainedOnce r; rr_retryAttempt := rr_retryAttempt r;
     rr_retryTimer := rr_retryTimer r; rr_token := rr_token r |}.

(** [beginResourceLoad(request, loader, true)] as the promise of the record. *)
Definition loadAwaited (request : ThreadChatWindowRequest) (address : nat) (l : ChatLoads) : ChatLoads :=
  let '(l, load) := beginChatLoad request true 0 l in
  match cl_records l !! address with
  | Some record => setRecordAt address (awaiting request (Some (cl_id load)) record) l
  | None => l
  end.

(** What [resource] does to the loads. *)
Definition resourceLoads (request : ThreadChatWindowRequest) (l : ChatLoads) : ChatLoads :=
  let requestKey := threadChatRequestKey request in
  match recordOf (requestScope request) l with
  | None =>
      let address := length (cl_records l) in
      loadAwaited request address
        (withRecords (cl_records l ++ [newChatRecord request]) (mset (requestScope request) address (resources l)) l)
  | Some (address, record) =>
      let l := setRecordAt address (awaiting request (rr_ready record) record) l in
      if negb (bool_decide (rr_requestKey record = Some requestKey))
         && negb (bool_decide (rr_loadingKey record = Some requestKey))
      then
        if rr_hasReadySnapshot record then (beginChatLoad request false 0 l).1
        else loadAwaited request address l
      else l
  end.

(** [commitWindow] marks the resident snapshot. *)
Definition markCommitted (request : ThreadChatWindowRequest) (l : ChatLoads) : ChatLoads :=
  match recordOf (requestScope request) l with
  | Some (address, r) =>
      if bool_decide (rr_requestKey r = Some (threadChatRequestKey request)) then
        setRecordAt address
          {| rr_committedToken := rr_token r; rr_hasReadySnapshot := true; rr_loadingKey := rr_loadingKey r;
             rr_reactivationReady := rr_reactivationReady r; rr_reactivationTimer := rr_reactivationTimer r;
             rr_ready := rr_ready r; rr_request := rr_request r; rr_requestKey := rr_requestKey r;
             rr_retainedOnce := rr_retainedOnce r; rr_retryAttempt := rr_retryAttempt r;
             rr_retryTimer := rr_retryTimer r; rr_token := rr_token r |} l
      else l
  | None => l
  end.

Definition reactivated (retainedOnce ready : bool) (timer : option nat) (r : ThreadChatResourceRecord) : ThreadChatResourceRecord :=
  {| rr_committedToken := rr_committedToken r; rr_hasReadySnapshot := rr_hasReadySnapshot r;
     rr_loadingKey := rr_loadingKey r; rr_reactivationReady := ready; rr_reactivationTimer := timer;
     rr_ready := rr_ready r; rr_request := rr_request r; rr_requestKey := rr_requestKey r;
     rr_retainedOnce := retainedOnce; rr_retryAttempt := rr_retryAttempt r; rr_retryTimer := rr_retryTimer r;
     rr_token := rr_token r |}.

(** [retain] of a resource, but for the window it retains: a window that was left
    for a while is read again. *)
Definition retainRecord (address : nat) (l : ChatLoads) : ChatLoads :=
  match cl_records l !! address with
  | None => l
  | Some holder =>
      let shouldReactivate := rr_retainedOnce holder && rr_reactivationReady holder in
      let l := setRecordAt address (reactivated true false None holder) (clearTimer (rr_reactivationTimer holder) l) in
      if shouldReactivate && bool_decide (rr_loadingKey holder = None)
      then (beginChatLoad (rr_request holder) false 0 l).1 else l
  end.

(** The end of a retain of a resource: a timer, once no owner is left. *)
Definition releaseRecord (address : nat) (owners : nat) (l : ChatLoads) : ChatLoads :=
  match cl_records l !! address with
  | None => l
  | Some holder =>
      if owners =? 0 then
        withLoads (cl_loads l) (cl_timers l ++ [ReactivationTimer (cl_next l) (requestScope (rr_request holder)) address])
          (S (cl_next l))
          (setRecordAt address (reactivated (rr_retainedOnce holder) (rr_reactivationReady holder) (Some (cl_next l)) holder) l)
      else l
  end.

Definition fireReactivation (scope : jstr) (address owners : nat) (l : ChatLoads) : ChatLoads :=
  match cl_records l !! address with
  | None => l
  | Some holder =>
      let isCurrent := bool_decide (mget scope (resources l) = Some address) && (owners =? 0) in
      setRecordAt address (reactivated (rr_retainedOnce holder) (rr_reactivationReady holder || isCurrent) None holder) l
  end.

(** ** The model *)

Inductive ChatTask := EvictReleased (scope : jstr) | ReconcileFormer (scope : jstr).

Record ThreadChatModel :=
  { ch_rows : ChatRows; ch_interest : ChatInterest; ch_windows : ChatWindows; ch_loads : ChatLoads;
    ch_tasks : list ChatTask; ch_closed : bool }.

Definition createThreadChatModel : ThreadChatModel :=
  {| ch_rows := noRows; ch_interest := noInterest; ch_windows := noWindows; ch_loads := noLoads; ch_tasks := [];
     ch_closed := false |}.

Definition withRows (r : ChatRows) (c : ThreadChatModel) : ThreadChatModel :=
  {| ch_rows := r; ch_interest := ch_interest c; ch_windows := ch_windows c; ch_loads := ch_loads c;
     ch_tasks := ch_tasks c; ch_closed := ch_closed c |}.

Definition withChatInterest (i : ChatInterest) (c : ThreadChatModel) : ThreadChatModel :=
  {| ch_rows := ch_rows c; ch_interest := i; ch_windows := ch_windows c; ch_loads := ch_loads c;
     ch_tasks := ch_tasks c; ch_closed := ch_closed c |}.

Definition withWindows (w : ChatWindows) (c : ThreadChatModel) : ThreadChatModel :=
  {| ch_rows := ch_rows c; ch_interest := ch_interest c; ch_windows := w; ch_loads := ch_loads c;
     ch_tasks := ch_tasks c; ch_closed := ch_closed c |}.

Definition withChatLoads (l : ChatLoads) (c : ThreadChatModel) : ThreadChatModel :=
  {| ch_rows := ch_rows c; ch_interest := ch_interest c; ch_windows := ch_windows c; ch_loads := l;
     ch_tasks := ch_tasks c; ch_closed := ch_closed c |}.

Definition withTask (task : ChatTask) (c : ThreadChatModel) : ThreadChatModel :=
  {| ch_rows := ch_rows c; ch_interest := ch_interest c; ch_windows := ch_windows c; ch_loads := ch_loads c;
     ch_tasks := ch_tasks c ++ [task]; ch_closed := ch_closed c |}.

Definition pruneUnreferencedRows (c : ThreadChatModel) : ThreadChatModel :=
  withRows (pruneRows (referencedRowIds (ch_windows c)) (ch_rows c)) c.

Definition evictWindow (scope : jstr) (c : ThreadChatModel) : ThreadChatModel :=
  let i := ch_interest c in
  withChatLoads (forgetResource scope (ch_loads c))
    (withWindows (forgetWindow scope (ch_windows c))
       (withChatInterest (withCounts (mdel scope (retainCounts i)) i)
          (withRows (withChangedIds (mdel scope (changedRowIdsByScope (ch_rows c))) (ch_rows c)) c))).

Definition INACTIVE_WINDOW_LIMIT : nat := 3.

Definition inactiveWindow (protectedScope : option jstr) (i : ChatInterest) (scope : jstr) : bool :=
  negb (bool_decide (protectedScope = Some scope)) && negb (bool_decide (residentResourceScope i = Some scope))
  && (retained scope i =? 0).

(** One window of the loop that evicts: the number of inactive ones that are
    left goes down to the limit. *)
Definition evictInactive (protectedScope : option jstr) (st : ThreadChatModel * nat) (scope : jstr) : ThreadChatModel * nat :=
  let '(c, inactiveCount) := st in
  if inactiveCount <=? INACTIVE_WINDOW_LIMIT then st
  else if inactiveWindow protectedScope (ch_interest c) scope then (evictWindow scope c, inactiveCount - 1)
  else st.

Definition evictUnretainedWindows (protectedScope : option jstr) (c : ThreadChatModel) : ThreadChatModel :=
  let scopes := mkeys (windowNodes (ch_windows c)) in
  let inactiveCount := length (filter (fun scope => inactiveWindow protectedScope (ch_interest c) scope = true) scopes) in
  pruneUnreferencedRows (foldl (evictInactive protectedScope) (c, inactiveCount) scopes).1.

Definition evictReleasedWindow (scope : jstr) (c : ThreadChatModel) : ThreadChatModel :=
  let i := reconcileInterestScope (ch_closed c) scope (markLeftResident (ch_closed c) scope (ch_interest c)) in
  let c := withChatInterest i c in
  if ch_closed c || bool_decide (residentResourceScope i = Some scope) || (0 <? retained scope i) then c
  else evictUnretainedWindows (residentResourceScope i) (evictWindow scope c).

Definition runTask (task : ChatTask) (c : ThreadChatModel) : ThreadChatModel :=
  match task with
  | EvictReleased scope => evictReleasedWindow scope c
  | ReconcileFormer scope => withChatInterest (reconcileInterestScope (ch_closed c) scope (ch_interest c)) c
  end.

(** [retainWindow], and whether there is something to release. *)
Definition retainWindow (identity : ThreadIdentity) (c : ThreadChatModel) : ThreadChatModel * bool :=
  if ch_closed c then (c, false) else (withChatInterest (retainScope identity (ch_interest c)) c, true).

(** The first call of what [retainWindow] returned. *)
Definition releaseWindow (scope : jstr) (c : ThreadChatModel) : ThreadChatModel :=
  let '(i, last) := releaseScope scope (ch_interest c) in
  let c := withChatInterest i c in
  if last : bool then withTask (EvictReleased scope) c else c.

Definition loadedRange (loaded : LoadedThreadChatWindow) : WindowRange :=
  {| wr_historyEpoch := lw_historyEpoch loaded; wr_latestSealedOrdinal := lw_latestSealedOrdinal loaded;
     wr_earliestSealedOrdinal := lw_earliestSealedOrdinal loaded; wr_residentTurnLimit := lw_residentTurnLimit loaded;
     wr_turnRowIds := lw_turnRowIds loaded; wr_detailRowIds := lw_detailRowIds loaded;
     wr_liveRowIds := lw_liveRowIds loaded |}.

(** The snapshot of a loaded window over the previous one. *)
Definition committedSnapshot (loaded : LoadedThreadChatWindow) (layoutChanged rowsChanged : bool)
    (previous : ThreadChatWindowSnapshot) : ThreadChatWindowSnapshot :=
  {| cw_backendRefreshing := cw_backendRefreshing previous; cw_detailRowIds := lw_detailRowIds loaded;
     cw_earliestSealedOrdinal := lw_earliestSealedOrdinal loaded; cw_error := None;
     cw_historyEpoch := lw_historyEpoch loaded; cw_latestSealedOrdinal := lw_latestSealedOrdinal loaded;
     cw_layoutRevision := (cw_layoutRevision previous + (if layoutChanged then 1 else 0))%Z;
     cw_liveRowIds := lw_liveRowIds loaded; cw_requestKey := lw_requestKey loaded;
     cw_residentTurnLimit := lw_residentTurnLimit loaded;
     cw_revision := (cw_revision previous + (if rowsChanged then 1 else 0))%Z; cw_scope := lw_scope loaded;
     cw_status := LoadReady; cw_turnRowIds := lw_turnRowIds loaded |}.

(** The rows and the window at [address] take what was loaded. *)
Definition installLoaded (scope : jstr) (address : nat) (loaded : LoadedThreadChatWindow) (c : ThreadChatModel) : ThreadChatModel :=
  let '(r, rowsChanged) := installRows (lw_rows loaded) (ch_rows c) in
  let w := ch_windows c in
  let signature := threadLayoutSignature (lw_rows loaded) (loadedRange loaded) in
  let layoutChanged := negb (bool_decide (mget scope (windowLayoutSignatures w) = Some signature)) in
  let snapshot := committedSnapshot loaded layoutChanged rowsChanged (peekWindow address w) in
  withWindows (withSignature scope signature (setWindow address snapshot w)) (withRows r c).

(** [commitWindow], and whether the window was committed. *)
Definition commitWindow (request : ThreadChatWindowRequest) (generation : nat) (loaded : LoadedThreadChatWindow)
    (c : ThreadChatModel) : ThreadChatModel * bool :=
  let scope := requestScope request in
  let w := ch_windows c in
  if ch_closed c || negb (bool_decide (mget scope (wn_generations w) = Some generation))
     || negb (bool_decide (threadChatRequestKey <$> mget scope (activeRequests w) = Some (threadChatRequestKey request)))
  then (c, false)
  else
    let '(w, address) := windowAt (cr_connectionId request, cr_threadId request) w in
    let c := installLoaded scope address loaded (withWindows w c) in
    (withChatLoads (markCommitted request (ch_loads c)) c, true).

(** [commitRange], and whether the range was committed.  Installing rows changes
    no window, so the snapshot is still the expected one. *)
Definition commitRange (identity : ThreadIdentity) (historyEpoch layoutRevision : Z) (loaded : LoadedThreadChatWindow)
    (c : ThreadChatModel) : ThreadChatModel * bool :=
  let scope := threadChatScope identity.1 identity.2 in
  match mget scope (windowNodes (ch_windows c)) with
  | None => (c, false)
  | Some address =>
      let before := peekWindow address (ch_windows c) in
      if ch_closed c || negb (cw_historyEpoch before =? historyEpoch)%Z || negb (cw_layoutRevision before =? layoutRevision)%Z
      then (c, false)
      else (pruneUnreferencedRows (installLoaded scope address loaded c), true)
  end.

(** The status and error of a window. *)
Definition withStatus (error : option jstr) (status : ThreadLoadStatus) (s : ThreadChatWindowSnapshot) : ThreadChatWindowSnapshot :=
  {| cw_backendRefreshing := cw_backendRefreshing s; cw_detailRowIds := cw_detailRowIds s;
     cw_earliestSealedOrdinal := cw_earliestSealedOrdinal s; cw_error := error; cw_historyEpoch := cw_historyEpoch s;
     cw_latestSealedOrdinal := cw_latestSealedOrdinal s; cw_layoutRevision := cw_layoutRevision s;
     cw_liveRowIds := cw_liveRowIds s; cw_requestKey := cw_requestKey s;
     cw_residentTurnLimit := cw_residentTurnLimit s; cw_revision := cw_revision s; cw_scope := cw_scope s;
     cw_status := status; cw_turnRowIds := cw_turnRowIds s |}.

Definition withRefreshing (refreshing : bool) (s : ThreadChatWindowSnapshot) : ThreadChatWindowSnapshot :=
  {| cw_backendRefreshing := refreshing; cw_detailRowIds := cw_detailRowIds s;
     cw_earliestSealedOrdinal := cw_earliestSealedOrdinal s; cw_error := cw_error s; cw_historyEpoch := cw_historyEpoch s;
     cw_latestSealedOrdinal := cw_latestSealedOrdinal s; cw_layoutRevision := cw_layoutRevision s;
     cw_liveRowIds := cw_liveRowIds s; cw_requestKey := cw_requestKey s;
     cw_residentTurnLimit := cw_residentTurnLimit s; cw_revision := cw_revision s; cw_scope := cw_scope s;
     cw_status := cw_status s; cw_turnRowIds := cw_turnRowIds s |}.

Definition failWindow (request : ThreadChatWindowRequest) (generation : nat) (cause : option jstr)
    (c : ThreadChatModel) : ThreadChatModel :=
  if ch_closed c || negb (bool_decide (mget (requestScope request) (wn_generations (ch_windows c)) = Some generation))
  then c
  else
    let '(w, address) := windowAt (cr_connectionId request, cr_threadId request) (ch_windows c) in
    let previous := peekWindow address w in
    let status := if threadLoadHasResidentSnapshot (cw_status previous) then BackgroundRetrying else InitialError in
    withWindows (setWindow address (withStatus (Some (default (js "Could not load messages") cause)) status previous) w) c.

Definition confirmBackendRefresh (identity : ThreadIdentity) (c : ThreadChatModel) : ThreadChatModel :=
  if ch_closed c then c
  else
    let '(w, address) := windowAt identity (ch_windows c) in
    let previous := peekWindow address w in
    let status := if bool_decide (cw_status previous = BackgroundRetrying) || bool_decide (cw_status previous = InitialError)
                  then LoadReady else cw_status previous in
    withWindows (if bool_decide (cw_error previous = None) then w else setWindow address (withStatus None status previous) w) c.

(** [beginBackendRefresh]: the address of the window its end will clear. *)
Definition beginBackendRefresh (identity : ThreadIdentity) (c : ThreadChatModel) : ThreadChatModel * option nat :=
  if ch_closed c then (c, None)
  else
    let scope := threadChatScope identity.1 identity.2 in
    let counts := backendRefreshCounts (ch_windows c) in
    let w := withRefreshCounts (mset scope (S (default 0 (mget scope counts))) counts) (ch_windows c) in
    let '(w, address) := windowAt identity w in
    (withWindows (setWindow address (withRefreshing true (peekWindow address w)) w) c, Some address).

(** The first call of what [beginBackendRefresh] returned. *)
Definition endBackendRefresh (scope : jstr) (address : nat) (c : ThreadChatModel) : ThreadChatModel :=
  let w := ch_windows c in
  let counts := backendRefreshCounts w in
  match default 1 (mget scope counts) - 1 with
  | O =>
      let w := withRefreshCounts (mdel scope counts) w in
      withWindows (if ch_closed c then w else setWindow address (withRefreshing false (peekWindow address w)) w) c
  | remaining => withWindows (withRefreshCounts (mset scope remaining counts) w) c
  end.

Definition publishChatChanges (changes : list ChatRowChange) (c : ThreadChatModel) : ThreadChatModel :=
  if ch_closed c || bool_decide (changes = []) then c else withRows (publishRows changes (ch_rows c)) c.

Definition startWindow (request : ThreadChatWindowRequest) (c : ThreadChatModel) : option (ThreadChatModel * nat) :=
  if ch_closed c then None
  else
    let scope := requestScope request in
    let generation := S (default 0 (mget scope (wn_generations (ch_windows c)))) in
    let '(w, address) := windowAt (cr_connectionId request, cr_threadId request) (withRequest scope request generation (ch_windows c)) in
    let c := evictUnretainedWindows (Some scope) (withWindows w c) in
    let w := ch_windows c in
    let previous := peekWindow address w in
    let requestKey := threadChatRequestKey request in
    let hasResidentSnapshot :=
      match recordOf scope (ch_loads c) with Some (_, record) => rr_hasReadySnapshot record | None => false end
      || threadLoadHasResidentSnapshot (cw_status previous) in
    let refreshing := 0 <? default 0 (mget scope (backendRefreshCounts w)) in
    let status := if hasResidentSnapshot
                  then if bool_decide (cw_requestKey previous = Some requestKey) then BackgroundUpdating else LoadingHistory
                  else InitialLoading in
    let limit := if (cw_residentTurnLimit previous =? 0)%Z then THREAD_RESIDENT_TURN_LIMIT else cw_residentTurnLimit previous in
    let snapshot :=
      {| cw_backendRefreshing := refreshing; cw_detailRowIds := cw_detailRowIds previous;
         cw_earliestSealedOrdinal := cw_earliestSealedOrdinal previous; cw_error := None;
         cw_historyEpoch := cw_historyEpoch previous; cw_latestSealedOrdinal := cw_latestSealedOrdinal previous;
         cw_layoutRevision := cw_layoutRevision previous; cw_liveRowIds := cw_liveRowIds previous;
         cw_requestKey := Some requestKey; cw_residentTurnLimit := limit; cw_revision := cw_revision previous;
         cw_scope := cw_scope previous; cw_status := status; cw_turnRowIds := cw_turnRowIds previous |} in
    Some (withWindows (setWindow address snapshot w) c, generation).

(** [resource]; [None] where it throws.  What it returns are the promise of the
    record, its retain and the window. *)
Definition resource (request : ThreadChatWindowRequest) (c : ThreadChatModel) : option ThreadChatModel :=
  if ch_closed c then None
  else
    let scope := requestScope request in
    let identity := (cr_connectionId request, cr_threadId request) in
    let former := residentResourceScope (ch_interest c) in
    let w := if bool_decide (former = Some scope) then ch_windows c else promoteWindow scope (ch_windows c) in
    let c := withChatInterest (claimResident identity (ch_interest c)) (withWindows w c) in
    let c := match former with
             | Some scope' => if bool_decide (scope' = scope) then c else withTask (ReconcileFormer scope') c
             | None => c
             end in
    let c := withChatLoads (resourceLoads request (ch_loads c)) c in
    Some (withWindows (windowAt identity (ch_windows c)).1 c).

Definition closeChat (c : ThreadChatModel) : ThreadChatModel :=
  let i := withResident None None (ch_interest c) in
  let i := foldl (fun i scope => reconcileInterestScope true scope i) i (mkeys (interestScopes i)) in
  let l := foldl (fun l e => clearResourceTimers (cl_records l !! e.2) l) (ch_loads c) (resources (ch_loads c)) in
  {| ch_rows := reportResidentRowCount
       {| rowNodes := []; changedRowIdsByScope := []; residentRowCount := 0;
          reportedRowCount := reportedRowCount (ch_rows c) |};
     ch_interest := withCounts [] i;
     ch_windows := {| wn_nodes := wn_nodes (ch_windows c); windowNodes := []; windowIdentities := [];
                      activeRequests := []; wn_generations := []; windowLayoutSignatures := [];
                      backendRefreshCounts := []; wn_evicted := wn_evicted (ch_windows c) |};
     ch_loads := withRecords (cl_records l) [] l; ch_tasks := ch_tasks c; ch_closed := true |}.

Definition forgetConnection (connectionId : jstr) (c : ThreadChatModel) : ThreadChatModel :=
  let scopes := omap (fun e => if bool_decide (e.2.1 = connectionId) then Some e.1 else None) (windowIdentities (ch_windows c)) in
  let c := foldl (fun c scope => evictWindow scope c) c scopes in
  let i := ch_interest c in
  let i := match residentResourceScope i with
           | Some scope => if startsWith (connectionId ++ SummaryProjection.NUL) scope then withResident None None i else i
           | None => i
           end in
  pruneUnreferencedRows (withChatInterest (forgetInterestOf connectionId i) c).

Section refresh.
(** [String.prototype.localeCompare]. *)
Variable localeCompare : jstr -> jstr -> Z.

Definition refreshThread (identity : ThreadIdentity) (rows : list ThreadDetailRow) (c : ThreadChatModel) : ThreadChatModel :=
  let scope := threadChatScope identity.1 identity.2 in
  let publishedChanges := mget scope (changedRowIdsByScope (ch_rows c)) in
  let c := withRows (withChangedIds (mdel scope (changedRowIdsByScope (ch_rows c))) (ch_rows c)) c in
  let w := ch_windows c in
  match mget scope (activeRequests w), mget scope (windowNodes w) with
  | Some _, Some address =>
      let previous := peekWindow address w in
      let next := projectResidentRows localeCompare rows previous (cw_residentTurnLimit previous) in
      let signature := threadLayoutSignature rows next in
      let layoutChanged := negb (bool_decide (mget scope (windowLayoutSignatures w) = Some signature)) in
      let residentRowIds := snapshotRowIds previous ++ rangeRowIds next in
      let published := existsb (fun id => bool_decide (id ∈ residentRowIds)) (default [] publishedChanges) in
      let '(r, rowsChanged) := installRows (filter (fun row => r_id row ∈ residentRowIds) rows) (ch_rows c) in
      let snapshot :=
        {| cw_backendRefreshing := cw_backendRefreshing previous; cw_detailRowIds := wr_detailRowIds next;
           cw_earliestSealedOrdinal := wr_earliestSealedOrdinal next; cw_error := cw_error previous;
           cw_historyEpoch := wr_historyEpoch next; cw_latestSealedOrdinal := wr_latestSealedOrdinal next;
           cw_layoutRevision := (cw_layoutRevision previous + (if layoutChanged then 1 else 0))%Z;
           cw_liveRowIds := wr_liveRowIds next; cw_requestKey := cw_requestKey previous;
           cw_residentTurnLimit := cw_residentTurnLimit previous;
           cw_revision := (cw_revision previous + (if published || rowsChanged then 1 else 0))%Z;
           cw_scope := cw_scope previous;
           cw_status := if bool_decide (cw_status previous = InitialLoading) then LoadReady else cw_status previous;
           cw_turnRowIds := wr_turnRowIds next |} in
      withWindows (withSignature scope signature (setWindow address snapshot w)) (withRows r c)
  | _, _ => c
  end.
End refresh.

(** ** The model and its callers

    The callers hold what the model returned to them: releases of windows and of
    resources, ends of refreshes. *)
Module ChatRuns.

(** [sy_windowReleases]: scopes; [sy_recordReleases]: the record, its scope and
    whether the model was open; [sy_refreshEnds]: scopes and addresses. *)
Record ChatSystem :=
  { sy_chat : ThreadChatModel; sy_windowReleases : list jstr; sy_recordReleases : list (nat * jstr * bool);
    sy_refreshEnds : list (jstr * nat) }.

Definition newSystem : ChatSystem :=
  {| sy_chat := createThreadChatModel; sy_windowReleases := []; sy_recordReleases := []; sy_refreshEnds := [] |}.

Definition withChat (c : ThreadChatModel) (s : ChatSystem) : ChatSystem :=
  {| sy_chat := c; sy_windowReleases := sy_windowReleases s; sy_recordReleases := sy_recordReleases s;
     sy_refreshEnds := sy_refreshEnds s |}.

Inductive ChatEvent :=
| ResourceUsed (request : ThreadChatWindowRequest)
| ResourceRetained (address : nat) | ResourceReleased (i : nat)
| WindowRetained (identity : ThreadIdentity) | WindowReleased (i : nat)
| WindowStarted (request : ThreadChatWindowRequest)
| WindowCommitted (request : ThreadChatWindowRequest) (generation : nat) (loaded : LoadedThreadChatWindow)
| WindowFailed (request : ThreadChatWindowRequest) (generation : nat) (cause : option jstr)
| RangeCommitted (identity : ThreadIdentity) (historyEpoch layoutRevision : Z) (loaded : LoadedThreadChatWindow)
| RowsPublished (changes : list ChatRowChange) | RowsRead (rowIds : list jstr)
| ThreadRefreshed (identity : ThreadIdentity) (rows : list ThreadDetailRow)
| RefreshBegun (identity : ThreadIdentity) | RefreshEnded (i : nat) | RefreshConfirmed (identity : ThreadIdentity)
| LoadResolved (i : nat) | LoadRejected (i : nat) | TimerFired (i : nat) | TaskRun (i : nat)
| ConnectionForgotten (connectionId : jstr) | ChatClosed.

Definition withoutLoad (i : nat) (l : ChatLoads) : ChatLoads := withLoads (delete i (cl_loads l)) (cl_timers l) (cl_next l) l.

Definition withoutTimer (i : nat) (l : ChatLoads) : ChatLoads := withLoads (cl_loads l) (delete i (cl_timers l)) (cl_next l) l.

Definition withoutTask (i : nat) (c : ThreadChatModel) : ThreadChatModel :=
  {| ch_rows := ch_rows c; ch_interest := ch_interest c; ch_windows := ch_windows c; ch_loads := ch_loads c;
     ch_tasks := delete i (ch_tasks c); ch_closed := ch_closed c |}.

Section runs.
Variable localeCompare : jstr -> jstr -> Z.

Definition chatStep (s : ChatSystem) (e : ChatEvent) : ChatSystem :=
  let c := sy_chat s in
  match e with
  | ResourceUsed request => withChat (default c (resource request c)) s
  | ResourceRetained address =>
      match cl_records (ch_loads c) !! address with
      | None => s
      | Some holder =>
          let request := rr_request holder in
          let '(c, open) := retainWindow (cr_connectionId request, cr_threadId request) c in
          {| sy_chat := withChatLoads (retainRecord address (ch_loads c)) c; sy_windowReleases := sy_windowReleases s;
             sy_recordReleases := sy_recordReleases s ++ [(address, requestScope request, open)];
             sy_refreshEnds := sy_refreshEnds s |}
      end
  | ResourceReleased i =>
      match sy_recordReleases s !! i with
      | None => s
      | Some (address, scope, open) =>
          let c := if open : bool then releaseWindow scope c else c in
          {| sy_chat := withChatLoads (releaseRecord address (retained scope (ch_interest c)) (ch_loads c)) c;
             sy_windowReleases := sy_windowReleases s; sy_recordReleases := delete i (sy_recordReleases s);
             sy_refreshEnds := sy_refreshEnds s |}
      end
  | WindowRetained identity =>
      let '(c, open) := retainWindow identity c in
      {| sy_chat := c;
         sy_windowReleases := sy_windowReleases s ++ (if open : bool then [threadChatScope identity.1 identity.2] else []);
         sy_recordReleases := sy_recordReleases s; sy_refreshEnds := sy_refreshEnds s |}
  | WindowReleased i =>
      match sy_windowReleases s !! i with
      | None => s
      | Some scope =>
          {| sy_chat := releaseWindow scope c; sy_windowReleases := delete i (sy_windowReleases s);
             sy_recordReleases := sy_recordReleases s; sy_refreshEnds := sy_refreshEnds s |}
      end
  | WindowStarted request => withChat (default c (fst <$> startWindow request c)) s
  | WindowCommitted request generation loaded => withChat (commitWindow request generation loaded c).1 s
  | WindowFailed request generation cause => withChat (failWindow request generation cause c) s
  | RangeCommitted identity historyEpoch layoutRevision loaded =>
      withChat (commitRange identity historyEpoch layoutRevision loaded c).1 s
  | RowsPublished changes => withChat (publishChatChanges changes c) s
  | RowsRead rowIds => withChat (withRows (readRows rowIds (ch_rows c)).1 c) s
  | ThreadRefreshed identity rows => withChat (refreshThread localeCompare identity rows c) s
  | RefreshBegun identity =>
      let '(c, address) := beginBackendRefresh identity c in
      {| sy_chat := c; sy_windowReleases := sy_windowReleases s; sy_recordReleases := sy_recordReleases s;
         sy_refreshEnds := sy_refreshEnds s ++ match address with
                                               | Some address => [(threadChatScope identity.1 identity.2, address)]
                                               | None => []
                                               end |}
  | RefreshEnded i =>
      match sy_refreshEnds s !! i with
      | None => s
      | Some (scope, address) =>
          {| sy_chat := endBackendRefresh scope address c; sy_windowReleases := sy_windowReleases s;
             sy_recordReleases := sy_recordReleases s; sy_refreshEnds := delete i (sy_refreshEnds s) |}
      end
  | RefreshConfirmed identity => withChat (confirmBackendRefresh identity c) s
  | LoadResolved i =>
      match cl_loads (ch_loads c) !! i with
      | None => s
      | Some load => withChat (withChatLoads (withoutLoad i (resolveChatLoad (ch_closed c) load (ch_loads c)).1) c) s
      end
  | LoadRejected i =>
      match cl_loads (ch_loads c) !! i with
      | None => s
      | Some load => withChat (withChatLoads (withoutLoad i (rejectChatLoad (ch_closed c) load (ch_loads c))) c) s
      end
  | TimerFired i =>
      match cl_timers (ch_loads c) !! i with
      | None => s
      | Some timer =>
          let l := withoutTimer i (ch_loads c) in
          withChat (withChatLoads
            (match timer with
             | RetryTimer _ request address _ => fireRetry (ch_closed c) request address l
             | ReactivationTimer _ scope address => fireReactivation scope address (retained scope (ch_interest c)) l
             end) c) s
      end
  | TaskRun i =>
      match ch_tasks c !! i with
      | None => s
      | Some task => withChat (runTask task (withoutTask i c)) s
      end
  | ConnectionForgotten connectionId => withChat (forgetConnection connectionId c) s
  | ChatClosed => withChat (closeChat c) s
  end.

Definition runChat (events : list ChatEvent) : ChatSystem := foldl chatStep newSystem events.

(** The retains that were not released. *)
Definition heldScopes (s : ChatSystem) : list jstr :=
  sy_windowReleases s ++ omap (fun e => if (e.2 : bool) then Some e.1.2 else None) (sy_recordReleases s).

(** A connection is forgotten when nothing of it is retained, and when no other
    id continues its id with the separator. *)
Definition forgettable (s : ChatSystem) (e : ChatEvent) : bool :=
  match e with
  | ConnectionForgotten connectionId =>
      let prefix := connectionId ++ SummaryProjection.NUL in
      forallb (fun scope => negb (startsWith prefix scope)) (heldScopes s)
      && forallb (fun e => negb (startsWith prefix e.1) || bool_decide (e.2.1 = connectionId))
           (interestScopes (ch_interest (sy_chat s)))
  | _ => true
  end.

Fixpoint orderlyChat (s : ChatSystem) (events : list ChatEvent) : bool :=
  match events with
  | [] => true
  | e :: events => forgettable s e && orderlyChat (chatStep s e) events
  end.
End runs.

End ChatRuns.
