(* ===== verification/ChatLaws.v ===== *)
(** * Laws of the resident conversations

    What [ChatModel] keeps over every run: the number of resident rows is
    counted, the windows nobody holds stay within their budget, and the threads
    that want live content are those that are held or shown. *)
From S2P Require Import Prelude JsMap Json Ranking ThreadItems Readers ThreadEvents ThreadHead Delivery ThreadRows DetailCoverage.
From S2P Require Import SummaryTypes SummaryProjection SummaryView ChatRange ChatModel.
Import ChatRuns.

Local Open Scope nat_scope.

(** ** Counting rows *)

Definition counted (r : ChatRows) : Prop := residentRowCount r = countRows (rowNodes r).

(** The number reported is the number there is; none is reported before there is
    one. *)
Definition reported (r : ChatRows) : Prop :=
  reportedRowCount r = residentRowCount r \/ reportedRowCount r = (-1)%Z /\ residentRowCount r = 0%Z.

Definition residentZ (value : option ThreadDetailRow) : Z := if isResident value then 1%Z else 0%Z.

Lemma countRows_cons id value nodes : countRows ((id, value) :: nodes) = (residentZ value + countRows nodes)%Z.
Proof.
  unfold countRows. rewrite filter_cons. unfold residentZ, isResident. cbn [snd].
  destruct (decide (is_Some value)); case_bool_decide; try done; cbn [length]; lia.
Qed.

Lemma countRows_mset id value nodes :
  countRows (mset id value nodes) = (countRows nodes - residentZ (default None (mget id nodes)) + residentZ value)%Z.
Proof.
  induction nodes as [|[id' value'] nodes IH]; cbn [mset mget].
  - rewrite countRows_cons. cbn. lia.
  - destruct (decide (id' = id)) as [->|Hne].
    + rewrite !(bool_decide_true (id = id)) by done. rewrite !countRows_cons. change (default None (Some value')) with value'. lia.
    + rewrite !(bool_decide_false (id' = id)) by done. rewrite !countRows_cons, IH. lia.
Qed.

Lemma countRows_split (P : jstr -> Prop) `{!forall id, Decision (P id)} nodes :
  countRows nodes = (countRows (filter (fun e => P e.1) nodes) + countRows (filter (fun e => ~ P e.1) nodes))%Z.
Proof.
  induction nodes as [|[id value] nodes IH]; [done|]. rewrite countRows_cons, IH.
  rewrite !filter_cons. cbn [fst]. destruct (decide (P id)).
  - rewrite decide_False by tauto. rewrite countRows_cons. lia.
  - rewrite decide_True by done. rewrite countRows_cons. lia.
Qed.

Lemma counted_node id value count r :
  count = (residentRowCount r - residentZ (rowAt id r) + residentZ value)%Z ->
  counted r -> counted (withNode id value count r).
Proof. unfold counted, rowAt. cbn. intros -> ->. rewrite countRows_mset. lia. Qed.

Lemma counted_open id r : counted r -> counted (openRow id r).
Proof. apply counted_node. lia. Qed.

Lemma counted_record row r : counted r -> counted (recordChangedRow row r).
Proof. done. Qed.

Lemma counted_publish r change : counted r -> counted (publishRow r change).
Proof.
  intros Hr. destruct change as [isInsert row|key]; cbn.
  - destruct (rowAt (r_id row) r) as [previous|] eqn:E; [case_bool_decide; [done|]|]; apply counted_node; try done;
      change (rowAt (r_id row) (recordChangedRow row r)) with (rowAt (r_id row) r); rewrite E; cbn; lia.
  - destruct (rowAt key r) as [previous|] eqn:E; [|by apply counted_open]. apply counted_node; [|done].
    change (rowAt key (recordChangedRow previous r)) with (rowAt key r). rewrite E. cbn. lia.
Qed.

Lemma counted_install st row : counted st.1 -> counted (installRow st row).1.
Proof.
  destruct st as [r changed]. cbn. intros Hr. destruct (rowAt (r_id row) r) as [previous|] eqn:E.
  - case_bool_decide; [done|]. apply counted_node; [|done]. rewrite E. cbn. lia.
  - apply counted_node; [|done]. rewrite E. cbn. lia.
Qed.

Definition rowsOk (r : ChatRows) : Prop := counted r /\ reported r.

Lemma reported_now r : reported (reportResidentRowCount r).
Proof. by left. Qed.

Lemma rowsOk_report r : counted r -> rowsOk (reportResidentRowCount r).
Proof. intros H. split; [exact H|apply reported_now]. Qed.

Lemma rowsOk_publish changes r : counted r -> rowsOk (publishRows changes r).
Proof.
  intros Hr. apply rowsOk_report. revert r Hr. induction changes as [|change changes IH]; intros r Hr; [done|].
  by apply IH, counted_publish.
Qed.

Lemma rowsOk_install rows r : counted r -> rowsOk (installRows rows r).1.
Proof.
  intros Hr. unfold installRows.
  assert (H : forall st, counted st.1 -> counted (foldl installRow st rows).1).
  { clear. induction rows as [|row rows IH]; intros st Hst; [done|]. by apply IH, counted_install. }
  specialize (H (r, false) Hr). destruct (foldl installRow (r, false) rows) as [r' changed]. by apply rowsOk_report.
Qed.

Lemma rowsOk_read rowIds r : rowsOk r -> rowsOk (readRows rowIds r).1.
Proof.
  cbn. revert r. induction rowIds as [|id rowIds IH]; intros r [Hc Hr]; [done|]. apply IH.
  split; [by apply counted_open|exact Hr].
Qed.

Lemma rowsOk_prune retained r : counted r -> rowsOk (pruneRows retained r).
Proof.
  intros Hr. apply rowsOk_report. unfold counted in *. cbn. rewrite Hr.
  rewrite (countRows_split (fun id => id ∈ retained) (rowNodes r)). lia.
Qed.

Lemma rowsOk_changedIds changed r : rowsOk r -> rowsOk (withChangedIds changed r).
Proof. done. Qed.

Lemma rowsOk_evict scope c : rowsOk (ch_rows c) -> rowsOk (ch_rows (evictWindow scope c)).
Proof. apply rowsOk_changedIds. Qed.

Lemma rowsOk_evictAll (scopes : list jstr) c :
  rowsOk (ch_rows c) -> rowsOk (ch_rows (foldl (fun c scope => evictWindow scope c) c scopes)).
Proof. revert c. induction scopes as [|scope scopes IH]; intros c Hc; [done|]. by apply IH, rowsOk_evict. Qed.

Lemma rowsOk_unretained protectedScope c : rowsOk (ch_rows c) -> rowsOk (ch_rows (evictUnretainedWindows protectedScope c)).
Proof.
  intros Hc. unfold evictUnretainedWindows, pruneUnreferencedRows. apply rowsOk_prune.
  assert (H : forall (scopes : list jstr) st, rowsOk (ch_rows st.1) -> rowsOk (ch_rows (foldl (evictInactive protectedScope) st scopes).1)).
  { clear. induction scopes as [|scope scopes IH]; intros [c n] Hst; [done|]. apply IH. unfold evictInactive.
    destruct (n <=? INACTIVE_WINDOW_LIMIT); [done|]. by destruct (inactiveWindow _ _ _); [apply rowsOk_evict|]. }
  by apply H.
Qed.

Lemma rowsOk_installLoaded scope address loaded c :
  rowsOk (ch_rows c) -> rowsOk (ch_rows (installLoaded scope address loaded c)).
Proof.
  intros [Hc _]. pose proof (rowsOk_install (lw_rows loaded) (ch_rows c) Hc) as H. unfold installLoaded.
  by destruct (installRows (lw_rows loaded) (ch_rows c)).
Qed.

Lemma rowsOk_refresh localeCompare identity rows c :
  rowsOk (ch_rows c) -> rowsOk (ch_rows (refreshThread localeCompare identity rows c)).
Proof.
  intros Hc. unfold refreshThread. cbn [ch_windows withRows ch_rows].
  destruct (mget _ (activeRequests (ch_windows c))); [|done].
  destruct (mget _ (windowNodes (ch_windows c))); [|done].
  match goal with |- context [installRows ?rs ?r0] => pose proof (rowsOk_install rs r0) as H; destruct (installRows rs r0) end.
  apply H, Hc.
Qed.

Lemma rowsOk_task task c : rowsOk (ch_rows c) -> rowsOk (ch_rows (runTask task c)).
Proof.
  intros Hc. destruct task; cbn; [|done]. unfold evictReleasedWindow. cbn.
  destruct (ch_closed c || _ || _); [done|]. by apply rowsOk_unretained, rowsOk_evict.
Qed.

Lemma rowsOk_step localeCompare s e :
  rowsOk (ch_rows (sy_chat s)) -> rowsOk (ch_rows (sy_chat (chatStep localeCompare s e))).
Proof.
  intros Hs. destruct e; cbn [chatStep]; cbn.
  - unfold resource. destruct (ch_closed (sy_chat s)); [done|].
    by destruct (residentResourceScope _); [case_bool_decide|].
  - destruct (cl_records _ !! _); [|done]. unfold retainWindow. by destruct (ch_closed (sy_chat s)).
  - destruct (sy_recordReleases s !! i) as [[[address scope] []]|]; [|done..]. cbn. unfold releaseWindow.
    by destruct (releaseScope _ _) as [? []].
  - unfold retainWindow. by destruct (ch_closed (sy_chat s)).
  - destruct (sy_windowReleases s !! i); [|done]. cbn. unfold releaseWindow. by destruct (releaseScope _ _) as [? []].
  - unfold startWindow. destruct (ch_closed (sy_chat s)); [done|]. destruct (windowAt _ _) as [w address]. cbn.
    by apply rowsOk_unretained.
  - unfold commitWindow. destruct (_ || _); [done|]. destruct (windowAt _ _) as [w address]. cbn.
    by apply rowsOk_installLoaded.
  - unfold failWindow. destruct (_ || _); [done|]. by destruct (windowAt _ _) as [w address].
  - unfold commitRange. destruct (mget _ _); [|done]. destruct (_ || _); [done|]. cbn.
    apply rowsOk_prune. by apply rowsOk_installLoaded.
  - unfold publishChatChanges. destruct (_ || _); [done|]. by apply rowsOk_publish, Hs.
  - by apply rowsOk_read.
  - by apply rowsOk_refresh.
  - unfold beginBackendRefresh. destruct (ch_closed (sy_chat s)); [done|]. by destruct (windowAt _ _).
  - destruct (sy_refreshEnds s !! i) as [[scope address]|]; [|done]. cbn. unfold endBackendRefresh. by case_match.
  - unfold confirmBackendRefresh. destruct (ch_closed (sy_chat s)); [done|]. by destruct (windowAt _ _).
  - by destruct (cl_loads _ !! i).
  - by destruct (cl_loads _ !! i).
  - by destruct (cl_timers _ !! i).
  - destruct (ch_tasks (sy_chat s) !! i); [|done]. by apply rowsOk_task.
  - apply rowsOk_prune. cbn. by apply rowsOk_evictAll.
  - by apply rowsOk_report.
Qed.

(** Whatever windows are opened, read, committed, evicted and forgotten, and
    whatever rows are published and dropped in between: the number of resident
    rows the model keeps is the number of rows it holds, and the number it has
    reported, unless it never held a row. *)
Theorem resident_rows_counted localeCompare events :
  let r := ch_rows (sy_chat (runChat localeCompare events)) in
  residentRowCount r = countRows (rowNodes r)
  /\ (reportedRowCount r = residentRowCount r \/ reportedRowCount r = (-1)%Z /\ residentRowCount r = 0%Z).
Proof.
  change (rowsOk (ch_rows (sy_chat (runChat localeCompare events)))).
  induction events as [|e events IH] using rev_ind; [split; [done|by right]|].
  unfold runChat. rewrite foldl_app. by apply rowsOk_step.
Qed.

(** ** The budget of windows *)

Definition windowKeys (c : ThreadChatModel) : list jstr := mkeys (windowNodes (ch_windows c)).

Lemma mkeys_mdel {V} (k : jstr) (m : list (jstr * V)) : mkeys (mdel k m) = filter (fun k' => k' <> k) (mkeys m).
Proof.
  induction m as [|[k' v] m IH]; [done|]. cbn [mdel]. rewrite mkeys_cons, filter_cons.
  case_bool_decide as Hk; cbn [fst snd].
  - rewrite decide_False; [done|]. by intros ?.
  - by rewrite decide_True, mkeys_cons, IH.
Qed.

Lemma filter_whole {A} (P : A -> Prop) {HP : forall x, Decision (P x)} (l : list A) : (forall x, x ∈ l -> P x) -> filter P l = l.
Proof.
  induction l as [|x l IH]; intros Hall; [done|]. rewrite filter_cons_True by (apply Hall; left).
  f_equal. apply IH. intros y Hy. apply Hall. by right.
Qed.

Section budget.
Variable protectedScope : option jstr.

Abbreviation inactive c := (fun scope => inactiveWindow protectedScope (ch_interest c) scope = true).

Lemma retained_evict scope c k : retained scope (ch_interest c) = 0 ->
  retained k (ch_interest (evictWindow scope c)) = retained k (ch_interest c).
Proof. intros H. unfold retained in *. cbn. rewrite mget_mdel. case_bool_decide; [by subst|done]. Qed.

Lemma inactive_evict scope c k : inactiveWindow protectedScope (ch_interest c) scope = true ->
  inactiveWindow protectedScope (ch_interest (evictWindow scope c)) k = inactiveWindow protectedScope (ch_interest c) k.
Proof.
  intros H. unfold inactiveWindow in H |- *. bool_prop. rewrite retained_evict by done. done.
Qed.

(** The loop: the inactive windows used longest ago go, until the limit is met. *)
Lemma evict_loop pre scopes c n :
  windowKeys c = pre ++ scopes -> NoDup (pre ++ scopes) ->
  n = length (filter (inactive c) (pre ++ scopes)) ->
  (INACTIVE_WINDOW_LIMIT < n -> filter (inactive c) pre = []) ->
  let c' := (foldl (evictInactive protectedScope) (c, n) scopes).1 in
  filter (inactive c) (windowKeys c') = drop (n - INACTIVE_WINDOW_LIMIT) (filter (inactive c) (pre ++ scopes))
  /\ filter (fun scope => ~ inactive c scope) (windowKeys c') = filter (fun scope => ~ inactive c scope) (pre ++ scopes).
Proof.
  revert pre c n. induction scopes as [|scope scopes IH]; intros pre c n Hk Hn Hlen Hpre; cbn [foldl fst].
  - rewrite Hk. split; [|done]. destruct (decide (INACTIVE_WINDOW_LIMIT < n)) as [Hlt|Hle].
    + rewrite app_nil_r in *. rewrite Hpre in Hlen |- * by done. cbn in Hlen. lia.
    + by replace (n - INACTIVE_WINDOW_LIMIT) with 0 by lia.
  - unfold evictInactive at 2 4. destruct (Nat.leb_spec n INACTIVE_WINDOW_LIMIT) as [Hle|Hlt].
    { rewrite (cons_middle scope pre scopes), app_assoc in *. apply IH; try done. lia. }
    specialize (Hpre Hlt). destruct (inactiveWindow protectedScope (ch_interest c) scope) eqn:E.
    + assert (Hkeys : windowKeys (evictWindow scope c) = pre ++ scopes).
      { change (windowKeys (evictWindow scope c)) with (mkeys (mdel scope (windowNodes (ch_windows c)))).
        rewrite mkeys_mdel. fold (windowKeys c). rewrite Hk.
        apply NoDup_app in Hn as (_ & Hdis & [Hs _]%NoDup_cons). rewrite filter_app, filter_cons_False by auto.
        rewrite !filter_whole; [done|..]; intros x Hx; [by intros ->|intros ->; by apply (Hdis scope Hx); left]. }
      assert (Hcount : length (filter (inactive c) (pre ++ scopes)) = n - 1).
      { rewrite Hlen, !filter_app, !length_app, (filter_cons_True _ scope) by done. cbn. lia. }
      assert (Hiff : forall l, filter (inactive (evictWindow scope c)) l = filter (inactive c) l)
        by (intros l; apply list_filter_iff; intros x; by rewrite inactive_evict).
      assert (Hiff' : forall l, filter (fun x => ~ inactive (evictWindow scope c) x) l = filter (fun x => ~ inactive c x) l)
        by (intros l; apply list_filter_iff; intros x; by rewrite inactive_evict).
      destruct (IH pre (evictWindow scope c) (n - 1)) as [H1 H2].
      * done.
      * apply NoDup_app in Hn as (Hp & Hdis & [_ Hn]%NoDup_cons). apply NoDup_app. split_and!; try done.
        intros x Hx Hx'. apply (Hdis x Hx). by right.
      * by rewrite Hiff.
      * intros _. by rewrite Hiff.
      * rewrite !Hiff in H1. rewrite !Hiff' in H2. split.
        -- rewrite H1, !filter_app, Hpre, (filter_cons_True _ scope) by done. cbn [app].
           replace (n - INACTIVE_WINDOW_LIMIT) with (S (n - 1 - INACTIVE_WINDOW_LIMIT)) by lia. done.
        -- rewrite H2, !filter_app, (filter_cons_False _ scope); [done|]. intros Hf. by apply Hf.
    + rewrite (cons_middle scope pre scopes), app_assoc in *. apply IH; try done. intros _.
      rewrite filter_app, Hpre, (filter_cons_False _ scope), filter_nil; [done|]. by rewrite E.
Qed.

Lemma unretained_budget c :
  NoDup (windowKeys c) ->
  let keys := windowKeys c in let keys' := windowKeys (evictUnretainedWindows protectedScope c) in
  filter (inactive c) keys' = drop (length (filter (inactive c) keys) - INACTIVE_WINDOW_LIMIT) (filter (inactive c) keys)
  /\ filter (fun scope => ~ inactive c scope) keys' = filter (fun scope => ~ inactive c scope) keys.
Proof. intros Hn. by apply (evict_loop [] (windowKeys c) c). Qed.
End budget.

(** *** Windows have one entry per key *)

Definition windowsWf (c : ThreadChatModel) : Prop := mwf (windowNodes (ch_windows c)).

Lemma windowAt_wf identity w : mwf (windowNodes w) -> mwf (windowNodes (windowAt identity w).1).
Proof. intros H. unfold windowAt. destruct (mget _ _); [done|]. by apply mset_wf. Qed.

Lemma evictAll_wf (scopes : list jstr) c : windowsWf c -> windowsWf (foldl (fun c scope => evictWindow scope c) c scopes).
Proof. revert c. induction scopes as [|scope scopes IH]; intros c Hc; [done|]. apply IH. by apply mdel_wf. Qed.

Lemma unretained_wf protectedScope c : windowsWf c -> windowsWf (evictUnretainedWindows protectedScope c).
Proof.
  intros Hc. assert (H : forall (scopes : list jstr) st, windowsWf st.1 -> windowsWf (foldl (evictInactive protectedScope) st scopes).1).
  { clear. induction scopes as [|scope scopes IH]; intros [c n] Hst; [done|]. apply IH. unfold evictInactive.
    destruct (n <=? INACTIVE_WINDOW_LIMIT); [done|]. destruct (inactiveWindow _ _ _); [|done]. by apply mdel_wf. }
  by apply H.
Qed.

Lemma installLoaded_wf scope address loaded c : windowsWf c -> windowsWf (installLoaded scope address loaded c).
Proof. intros Hc. unfold installLoaded. by destruct (installRows _ _). Qed.

Lemma wf_step localeCompare s e : windowsWf (sy_chat s) -> windowsWf (sy_chat (chatStep localeCompare s e)).
Proof.
  intros Hs. destruct e; cbn [chatStep]; cbn.
  - unfold resource. destruct (ch_closed (sy_chat s)); [done|]. unfold windowsWf. cbn -[windowAt]. apply windowAt_wf.
    assert (Hp : mwf (windowNodes (promoteWindow (requestScope request) (ch_windows (sy_chat s))))).
    { unfold promoteWindow. destruct (mget _ _); [|done]. by apply mset_wf, mdel_wf. }
    by destruct (residentResourceScope _); repeat case_bool_decide.
  - destruct (cl_records _ !! _); [|done]. unfold retainWindow. by destruct (ch_closed (sy_chat s)).
  - destruct (sy_recordReleases s !! i) as [[[address scope] []]|]; [|done..]. cbn. unfold releaseWindow.
    by destruct (releaseScope _ _) as [? []].
  - unfold retainWindow. by destruct (ch_closed (sy_chat s)).
  - destruct (sy_windowReleases s !! i); [|done]. cbn. unfold releaseWindow. by destruct (releaseScope _ _) as [? []].
  - unfold startWindow. destruct (ch_closed (sy_chat s)); [done|].
    pose proof (windowAt_wf (cr_connectionId request, cr_threadId request)
      (withRequest (requestScope request) request
         (S (default 0 (mget (requestScope request) (wn_generations (ch_windows (sy_chat s)))))) (ch_windows (sy_chat s))) Hs) as Hw.
    destruct (windowAt _ _) as [w address]. cbn in *. apply (unretained_wf _ (withWindows w (sy_chat s)) Hw).
  - unfold commitWindow. destruct (_ || _); [done|].
    pose proof (windowAt_wf (cr_connectionId request, cr_threadId request) (ch_windows (sy_chat s)) Hs) as Hw.
    destruct (windowAt _ _) as [w address]. cbn in *.
    by apply (installLoaded_wf _ _ _ (withWindows w (sy_chat s))).
  - unfold failWindow. destruct (_ || _); [done|].
    pose proof (windowAt_wf (cr_connectionId request, cr_threadId request) (ch_windows (sy_chat s)) Hs) as Hw.
    by destruct (windowAt _ _) as [w address].
  - unfold commitRange. destruct (mget _ _); [|done]. destruct (_ || _); [done|]. cbn. by apply installLoaded_wf.
  - unfold publishChatChanges. by destruct (_ || _).
  - done.
  - unfold refreshThread. cbn. repeat (destruct (mget _ _); [|done]). by destruct (installRows _ _).
  - unfold beginBackendRefresh. destruct (ch_closed (sy_chat s)); [done|].
    match goal with |- context [windowAt ?i ?w0] => pose proof (windowAt_wf i w0 Hs) as Hw; by destruct (windowAt i w0) end.
  - destruct (sy_refreshEnds s !! i) as [[scope address]|]; [|done]. cbn. unfold endBackendRefresh.
    case_match; [|done]. by destruct (ch_closed (sy_chat s)).
  - unfold confirmBackendRefresh. destruct (ch_closed (sy_chat s)); [done|].
    match goal with |- context [windowAt ?i ?w0] => pose proof (windowAt_wf i w0 Hs) as Hw; destruct (windowAt i w0) end.
    cbn in *. by case_bool_decide.
  - by destruct (cl_loads _ !! i).
  - by destruct (cl_loads _ !! i).
  - by destruct (cl_timers _ !! i).
  - destruct (ch_tasks (sy_chat s) !! i) as [[scope|scope]|]; [|done..]. cbn. unfold evictReleasedWindow. cbn.
    destruct (ch_closed _ || _ || _); [done|]. apply unretained_wf. by apply mdel_wf.
  - by apply evictAll_wf.
  - apply NoDup_nil_2.
Qed.

Lemma wf_run localeCompare events : windowsWf (sy_chat (runChat localeCompare events)).
Proof.
  induction events as [|e events IH] using rev_ind; [apply NoDup_nil_2|].
  unfold runChat. rewrite foldl_app. by apply wf_step.
Qed.

Lemma windowAt_keys identity w :
  mkeys (windowNodes (windowAt identity w).1)
  = sadd (threadChatScope identity.1 identity.2) (mkeys (windowNodes w)).
Proof.
  unfold windowAt, sadd, shas. destruct (mget _ (windowNodes w)) as [address|] eqn:E.
  - rewrite bool_decide_true; [done|]. apply mget_is_Some. by rewrite E.
  - cbn [fst withNodes windowNodes]. rewrite mkeys_mset. assert (Hn : threadChatScope identity.1 identity.2 ∉ mkeys (windowNodes w)) by (by apply mget_None).
    by rewrite !bool_decide_false.
Qed.

(** *** The order of the map is the order of use

    A window is used when the route moves to it or when it is created; being
    started again, committed or refreshed is no use.  [uses] is the log of a run,
    and [byLastUse] the windows of a log, the one used last at the end. *)
Definition created (before after : list jstr) : option jstr :=
  head (filter (fun scope => scope ∉ before) after).

Definition usedWindow (s s' : ChatSystem) (e : ChatEvent) : option jstr :=
  let c := sy_chat s in
  match e with
  | ResourceUsed request =>
      if ch_closed c || bool_decide (residentResourceScope (ch_interest c) = Some (requestScope request))
      then created (windowKeys c) (windowKeys (sy_chat s'))
      else Some (requestScope request)
  | _ => created (windowKeys c) (windowKeys (sy_chat s'))
  end.

Definition logUse localeCompare (st : ChatSystem * list jstr) (e : ChatEvent) : ChatSystem * list jstr :=
  let s' := chatStep localeCompare st.1 e in (s', st.2 ++ option_list (usedWindow st.1 s' e)).

Definition uses localeCompare (events : list ChatEvent) : list jstr :=
  (foldl (logUse localeCompare) (newSystem, []) events).2.

Definition touchLast (order : list jstr) (scope : jstr) : list jstr :=
  filter (fun other => other <> scope) order ++ [scope].

Definition byLastUse (log : list jstr) : list jstr := foldl touchLast [] log.

Lemma sublist_kept {A} (P : A -> Prop) {HP : forall x, Decision (P x)} (l : list A) : filter P l `sublist_of` l.
Proof.
  induction l as [|x l IH]; [done|]. rewrite filter_cons. case_decide; [by constructor|by apply sublist_cons].
Qed.

Lemma sublist_kept_mono {A} (P : A -> Prop) {HP : forall x, Decision (P x)} (l k : list A) :
  l `sublist_of` k -> filter P l `sublist_of` filter P k.
Proof.
  intros Hs. induction Hs as [|x l k _ IH|x l k _ IH]; [done| |]; rewrite ?filter_cons.
  - case_decide; [by constructor|done].
  - case_decide; [by apply sublist_cons|done].
Qed.

(** At most one window appears, at the end. *)
Definition grows (keys keys' : list jstr) : Prop := exists scope, keys' `sublist_of` sadd scope keys.

Lemma grows_sublist keys keys' : keys' `sublist_of` keys -> grows keys keys'.
Proof.
  intros Hs. exists []. unfold sadd. case_match; [done|]. etrans; [exact Hs|]. by apply sublist_inserts_r.
Qed.

Lemma created_last keys keys' order :
  grows keys keys' -> keys `sublist_of` order ->
  keys' `sublist_of` foldl touchLast order (option_list (created keys keys')).
Proof.
  intros [scope Hg] Ho. unfold created.
  assert (Hnew : filter (fun k => k ∉ keys) keys' `sublist_of` filter (fun k => k ∉ keys) (sadd scope keys))
    by by apply sublist_kept_mono.
  assert (Hold : filter (fun k => k ∈ keys) keys' `sublist_of` keys).
  { etrans; [by apply sublist_kept_mono|]. unfold sadd, shas. case_bool_decide as Hin; [apply sublist_kept|].
    rewrite filter_app, filter_cons_False, filter_nil, app_nil_r by done. apply sublist_kept. }
  destruct (filter (fun k => k ∉ keys) keys') as [|k rest] eqn:E; cbn [head option_list foldl].
  - etrans; [|exact Ho]. rewrite filter_whole in Hold; [done|]. intros x Hx.
    destruct (decide (x ∈ keys)) as [|Hn]; [done|]. exfalso.
    assert (Hf : x ∈ filter (fun k => k ∉ keys) keys') by (by apply list_elem_of_filter). rewrite E in Hf. by apply elem_of_nil in Hf.
  - assert (Hk : (k ∉ keys) /\ k ∈ keys') by
      (apply (list_elem_of_filter (fun k => k ∉ keys)); rewrite E; by apply list_elem_of_here).
    destruct Hk as [Hk Hin]. pose proof (elem_of_sublist _ _ _ Hin Hg) as Hs.
    unfold sadd, shas in Hs, Hg. destruct (bool_decide (scope ∈ keys)) eqn:Eb; [done|].
    apply elem_of_app in Hs as [?| ->%list_elem_of_singleton]; [done|]. etrans; [exact Hg|]. unfold touchLast.
    apply sublist_app; [|done]. rewrite <- (filter_whole (fun other => other <> scope) keys); [by apply sublist_kept_mono|].
    by intros x Hx ->.
Qed.

Lemma keys_evict scope c : windowKeys (evictWindow scope c) `sublist_of` windowKeys c.
Proof.
  change (windowKeys (evictWindow scope c)) with (mkeys (mdel scope (windowNodes (ch_windows c)))).
  rewrite mkeys_mdel. apply sublist_kept.
Qed.

Lemma keys_unretained protectedScope c : windowKeys (evictUnretainedWindows protectedScope c) `sublist_of` windowKeys c.
Proof.
  assert (H : forall (scopes : list jstr) st, windowKeys (foldl (evictInactive protectedScope) st scopes).1 `sublist_of` windowKeys st.1).
  { induction scopes as [|scope scopes IH]; intros [c' n]; [done|]. cbn [foldl]. etrans; [apply IH|]. unfold evictInactive.
    destruct (n <=? INACTIVE_WINDOW_LIMIT); [done|]. destruct (inactiveWindow _ _ _); [|done]. apply keys_evict. }
  apply H.
Qed.

Lemma keys_evictAll (scopes : list jstr) c :
  windowKeys (foldl (fun c scope => evictWindow scope c) c scopes) `sublist_of` windowKeys c.
Proof. revert c. induction scopes as [|scope scopes IH]; intros c; [done|]. etrans; [apply IH|]. apply keys_evict. Qed.

Lemma keys_installLoaded scope address loaded c : windowKeys (installLoaded scope address loaded c) = windowKeys c.
Proof. unfold installLoaded. by destruct (installRows _ _). Qed.

Lemma grows_windowAt identity w keys : mkeys (windowNodes w) = keys -> grows keys (mkeys (windowNodes (windowAt identity w).1)).
Proof. intros <-. eexists. by rewrite windowAt_keys. Qed.

(** Every event but the move of the route leaves the windows in their order. *)
Lemma grows_step localeCompare s e :
  match e with ResourceUsed _ => False | _ => True end ->
  grows (windowKeys (sy_chat s)) (windowKeys (sy_chat (chatStep localeCompare s e))).
Proof.
  intros He. assert (Hsame : grows (windowKeys (sy_chat s)) (windowKeys (sy_chat s))) by by apply grows_sublist.
  destruct e; cbn [chatStep]; cbn; try done.
  - destruct (cl_records _ !! _); [|done]. unfold retainWindow. by destruct (ch_closed (sy_chat s)).
  - destruct (sy_recordReleases s !! i) as [[[address scope] []]|]; [|done..]. cbn. unfold releaseWindow.
    by destruct (releaseScope _ _) as [? []].
  - unfold retainWindow. by destruct (ch_closed (sy_chat s)).
  - destruct (sy_windowReleases s !! i); [|done]. cbn. unfold releaseWindow. by destruct (releaseScope _ _) as [? []].
  - unfold startWindow. destruct (ch_closed (sy_chat s)); [done|].
    pose proof (windowAt_keys (cr_connectionId request, cr_threadId request)
      (withRequest (requestScope request) request
         (S (default 0 (mget (requestScope request) (wn_generations (ch_windows (sy_chat s)))))) (ch_windows (sy_chat s)))) as Hw.
    destruct (windowAt _ _) as [w address]. cbn in Hw |- *. eexists.
    etrans; [apply (keys_unretained _ (withWindows w (sy_chat s)))|]. unfold windowKeys. cbn. by rewrite Hw.
  - unfold commitWindow. destruct (_ || _); [done|].
    pose proof (grows_windowAt (cr_connectionId request, cr_threadId request) (ch_windows (sy_chat s)) _ eq_refl) as Hw.
    destruct (windowAt _ _) as [w address]. cbn in *.
    change (grows (windowKeys (sy_chat s))
      (windowKeys (installLoaded (requestScope request) address loaded (withWindows w (sy_chat s))))).
    by rewrite keys_installLoaded.
  - unfold failWindow. destruct (_ || _); [done|].
    pose proof (grows_windowAt (cr_connectionId request, cr_threadId request) (ch_windows (sy_chat s)) _ eq_refl) as Hw.
    by destruct (windowAt _ _) as [w address].
  - unfold commitRange. destruct (mget _ _); [|done]. destruct (_ || _); [done|]. cbn.
    match goal with |- grows _ (windowKeys (pruneUnreferencedRows ?c)) => change (grows (windowKeys (sy_chat s)) (windowKeys c)) end.
    by rewrite keys_installLoaded.
  - unfold publishChatChanges. by destruct (_ || _).
  - unfold refreshThread. cbn. repeat (destruct (mget _ _); [|done]). by destruct (installRows _ _).
  - unfold beginBackendRefresh. destruct (ch_closed (sy_chat s)); [done|].
    match goal with |- context [windowAt ?i ?w0] => pose proof (grows_windowAt i w0 _ eq_refl) as Hw; by destruct (windowAt i w0) end.
  - destruct (sy_refreshEnds s !! i) as [[scope address]|]; [|done]. cbn. unfold endBackendRefresh.
    case_match; [|done]. by destruct (ch_closed (sy_chat s)).
  - unfold confirmBackendRefresh. destruct (ch_closed (sy_chat s)); [done|].
    match goal with |- context [windowAt ?i ?w0] => pose proof (grows_windowAt i w0 _ eq_refl) as Hw; destruct (windowAt i w0) end.
    cbn in *. by case_bool_decide.
  - by destruct (cl_loads _ !! i).
  - by destruct (cl_loads _ !! i).
  - by destruct (cl_timers _ !! i).
  - destruct (ch_tasks (sy_chat s) !! i) as [[scope|scope]|]; [|done..]. cbn. unfold evictReleasedWindow. cbn.
    destruct (ch_closed _ || _ || _); [done|]. apply grows_sublist. etrans; [apply keys_unretained|].
    match goal with |- windowKeys (evictWindow ?k ?c) `sublist_of` _ => exact (keys_evict k c) end.
  - unfold forgetConnection. set (scopes := omap _ _).
    apply grows_sublist. exact (keys_evictAll scopes (sy_chat s)).
  - apply grows_sublist, sublist_nil_l.
Qed.

(** The route moves to a window: it goes to the end. *)
Lemma keys_resource request c c' :
  resource request c = Some c' -> residentResourceScope (ch_interest c) <> Some (requestScope request) ->
  windowKeys c' = touchLast (windowKeys c) (requestScope request).
Proof.
  unfold resource. destruct (ch_closed c); [done|]. intros [= <-] Hne. rewrite bool_decide_false by done.
  set (w := promoteWindow _ _). transitivity (sadd (requestScope request) (mkeys (windowNodes w))).
  { unfold windowKeys. cbn [withWindows ch_windows]. rewrite windowAt_keys. by repeat case_match. }
  subst w. unfold promoteWindow, touchLast, windowKeys.
  destruct (mget (requestScope request) (windowNodes (ch_windows c))) as [address|] eqn:E.
  - cbn [withNodes windowNodes]. rewrite mkeys_mset, mkeys_mdel.
    assert (Hn : requestScope request ∉ filter (fun k' => k' <> requestScope request) (mkeys (windowNodes (ch_windows c))))
      by (by intros [? _]%list_elem_of_filter).
    rewrite bool_decide_false by done. unfold sadd, shas. rewrite bool_decide_true; [done|].
    apply elem_of_app. right. by apply list_elem_of_singleton.
  - apply mget_None in E. unfold sadd, shas. rewrite bool_decide_false by done.
    rewrite filter_whole; [done|]. by intros x Hx ->.
Qed.

Lemma resource_same request c c' :
  resource request c = Some c' -> residentResourceScope (ch_interest c) = Some (requestScope request) ->
  grows (windowKeys c) (windowKeys c').
Proof.
  unfold resource. destruct (ch_closed c); [done|]. intros [= <-] Heq. rewrite bool_decide_true by done.
  rewrite Heq, bool_decide_true by done. eexists. unfold windowKeys. cbn [withWindows ch_windows]. by rewrite windowAt_keys.
Qed.

Lemma keys_by_use localeCompare s e order :
  windowKeys (sy_chat s) `sublist_of` order ->
  windowKeys (sy_chat (chatStep localeCompare s e))
    `sublist_of` foldl touchLast order (option_list (usedWindow s (chatStep localeCompare s e) e)).
Proof.
  intros Ho. destruct e as [request| | | | | | | | | | | | | | | | | | | |].
  2-21: by apply created_last, Ho; apply grows_step.
  cbn [usedWindow]. cbn [chatStep]. cbn [withChat sy_chat].
  destruct (resource request (sy_chat s)) as [c'|] eqn:E; cbn [default from_option].
  - destruct (ch_closed (sy_chat s)) eqn:Ec; [unfold resource in E; by rewrite Ec in E|]. cbn [orb].
    case_bool_decide as Hr; [by apply created_last, Ho; eapply resource_same|].
    change (windowKeys c' `sublist_of` foldl touchLast order [requestScope request]).
    rewrite (keys_resource _ _ _ E Hr). cbn [foldl]. unfold touchLast.
    apply sublist_app; [by apply sublist_kept_mono|done].
  - unfold resource in E. destruct (ch_closed (sy_chat s)) eqn:Ec; [|done]. cbn [orb].
    apply created_last, Ho. by apply grows_sublist.
Qed.

Lemma log_run localeCompare events s log :
  (foldl (logUse localeCompare) (s, log) events).1 = foldl (chatStep localeCompare) s events.
Proof. revert s log. induction events as [|e events IH]; intros s log; [done|]. cbn [foldl]. apply IH. Qed.

Lemma uses_snoc localeCompare events e :
  uses localeCompare (events ++ [e])
  = uses localeCompare events
    ++ option_list (usedWindow (runChat localeCompare events) (runChat localeCompare (events ++ [e])) e).
Proof.
  unfold uses, runChat. rewrite !foldl_app. cbn [foldl]. unfold logUse at 1. by rewrite log_run.
Qed.

Lemma windows_by_use localeCompare events :
  windowKeys (sy_chat (runChat localeCompare events)) `sublist_of` byLastUse (uses localeCompare events).
Proof.
  induction events as [|e events IH] using rev_ind; [done|].
  rewrite uses_snoc. unfold byLastUse. rewrite foldl_app. fold (byLastUse (uses localeCompare events)).
  unfold runChat at 1 3. rewrite !foldl_app. cbn [foldl]. fold (runChat localeCompare events). by apply keys_by_use.
Qed.

Lemma referenced_set address snapshot w :
  snapshotRowIds snapshot = snapshotRowIds (peekWindow address w) ->
  referencedRowIds (setWindow address snapshot w) = referencedRowIds w.
Proof.
  intros Hs. unfold referencedRowIds. cbn [setWindow withNodes windowNodes]. apply flat_map_ext. intros a.
  unfold peekWindow, setWindow in *. cbn [withNodes wn_nodes]. rewrite list_lookup_insert.
  case_decide as Ha; [destruct Ha as [<- _]; exact Hs|done].
Qed.

Lemma touchLast_nodup order scope : NoDup order -> NoDup (touchLast order scope).
Proof.
  intros Hn. unfold touchLast. apply NoDup_app. split_and!; [by apply NoDup_filter| |apply NoDup_singleton].
  by intros x [Hx _]%list_elem_of_filter ->%list_elem_of_singleton.
Qed.

Lemma byLastUse_nodup log : NoDup (byLastUse log).
Proof.
  induction log as [|scope log IH] using rev_ind; [apply NoDup_nil_2|].
  unfold byLastUse. rewrite foldl_app. by apply touchLast_nodup.
Qed.

(** The windows once one is opened, in the order of use. *)
Lemma opened_by_use keys kept scope order :
  keys `sublist_of` order -> kept `sublist_of` sadd scope keys -> scope ∈ kept ->
  sadd scope keys `sublist_of` foldl touchLast order (option_list (created keys kept)).
Proof.
  intros Ho Hk Hin. unfold created. assert (Hf : filter (fun k => k ∉ keys) kept
    `sublist_of` filter (fun k => k ∉ keys) (sadd scope keys)) by by apply sublist_kept_mono.
  assert (Hold : filter (fun k => k ∉ keys) keys = []).
  { destruct (filter _ keys) as [|x l] eqn:E; [done|]. exfalso.
    assert (Hx : x ∈ filter (fun k => k ∉ keys) keys) by (rewrite E; by apply list_elem_of_here).
    by apply list_elem_of_filter in Hx as [? ?]. }
  unfold sadd, shas in Hf |- *. case_bool_decide as Hs.
  - rewrite Hold in Hf. apply sublist_nil_r in Hf as ->. done.
  - rewrite filter_app, Hold, filter_cons_True, filter_nil in Hf by done.
    assert (Hm : scope ∈ filter (fun k => k ∉ keys) kept) by by apply list_elem_of_filter.
    destruct (filter (fun k => k ∉ keys) kept) as [|k rest]; [by apply elem_of_nil in Hm|].
    pose proof (elem_of_sublist _ _ _ (list_elem_of_here k rest) Hf) as Hx.
    apply list_elem_of_singleton in Hx as ->. cbn [head option_list foldl]. unfold touchLast.
    apply sublist_app; [|done]. rewrite <- (filter_whole (fun other => other <> scope) keys);
      [by apply sublist_kept_mono|]. by intros x Hx' ->.
Qed.

(** C15. Opening a window keeps the budget: of the windows that are not held, not the
    current route and not the one opened, the three used last stay and the
    others go, the one used longest ago first; no other window goes; and no row
    stays that no window refers to.  The order of use is that of the run's log,
    where a window is used when the route moves to it and when it is created. *)
Theorem windows_within_budget localeCompare events request c' generation :
  let c := sy_chat (runChat localeCompare events) in
  startWindow request c = Some (c', generation) ->
  let opened := sadd (requestScope request) (mkeys (windowNodes (ch_windows c))) in
  let kept := mkeys (windowNodes (ch_windows c')) in
  let inactive scope := inactiveWindow (Some (requestScope request)) (ch_interest c) scope = true in
  let order := byLastUse (uses localeCompare (events ++ [WindowStarted request])) in
  NoDup order /\ opened `sublist_of` order
  /\ filter inactive kept = drop (length (filter inactive opened) - INACTIVE_WINDOW_LIMIT) (filter inactive opened)
  /\ (length (filter inactive kept) <= INACTIVE_WINDOW_LIMIT)%nat
  /\ filter (fun scope => ~ inactive scope) kept = filter (fun scope => ~ inactive scope) opened
  /\ forall id value, (id, value) ∈ rowNodes (ch_rows c') -> id ∈ referencedRowIds (ch_windows c').
Proof.
  intros c Hstart opened kept inactive order. pose proof (wf_run localeCompare events) as Hwf. fold c in Hwf.
  split; [apply byLastUse_nodup|].
  assert (Horder : kept `sublist_of` opened /\ requestScope request ∈ kept -> opened `sublist_of` order).
  { intros [Hk Hin]. subst order. rewrite uses_snoc. unfold byLastUse. rewrite foldl_app.
    fold (byLastUse (uses localeCompare events)).
    assert (Hc' : sy_chat (runChat localeCompare (events ++ [WindowStarted request])) = c').
    { unfold runChat. rewrite foldl_app. cbn [foldl chatStep]. fold (runChat localeCompare events). fold c.
      cbn [withChat sy_chat]. by rewrite Hstart. }
    cbn [usedWindow]. rewrite Hc'. by apply opened_by_use; [apply windows_by_use|..]. }
  unfold startWindow in Hstart. destruct (ch_closed c); [done|].
  set (w0 := withRequest _ _ _ (ch_windows c)) in Hstart.
  pose proof (windowAt_keys (cr_connectionId request, cr_threadId request) w0) as Hkeys.
  pose proof (windowAt_wf (cr_connectionId request, cr_threadId request) w0 Hwf) as Hw.
  destruct (windowAt _ w0) as [w address]. cbn [fst snd] in Hkeys, Hw.
  pose proof (unretained_budget (Some (requestScope request)) (withWindows w c)) as Hb. cbn [fst] in Hb.
  specialize (Hb Hw). cbn zeta in Hb. unfold windowKeys at 2 3 5 in Hb. cbn [withWindows ch_windows ch_interest] in Hb.
  rewrite Hkeys in Hb. fold (requestScope request) in Hb.
  set (c1 := evictUnretainedWindows (Some (requestScope request)) (withWindows w c)) in *.
  injection Hstart as <- <-. cbn [withWindows ch_windows ch_rows] in *.
  assert (Hkept : kept = windowKeys c1) by done. destruct Hb as [Hb1 Hb2]. split_and!.
  - apply Horder. split.
    + rewrite Hkept. etrans; [apply (keys_unretained _ (withWindows w c))|]. unfold windowKeys. cbn [withWindows ch_windows].
      by rewrite Hkeys.
    + assert (Hf : requestScope request ∈ filter (fun scope => ~ inactive scope) kept).
      { rewrite Hkept. change (requestScope request ∈ filter (fun scope => inactiveWindow (Some (requestScope request))
          (ch_interest c) scope <> true) (windowKeys c1)).
        rewrite Hb2. apply list_elem_of_filter. split; [|apply elem_of_sadd; by left].
        unfold inactiveWindow. by rewrite bool_decide_true. }
      by apply list_elem_of_filter in Hf as [_ ?].
  - rewrite Hkept. exact Hb1.
  - rewrite Hkept. unfold inactive. rewrite Hb1, length_drop. unfold INACTIVE_WINDOW_LIMIT. lia.
  - rewrite Hkept. exact Hb2.
  - intros id value Hin. rewrite referenced_set by done. unfold c1, evictUnretainedWindows, pruneUnreferencedRows in Hin |- *.
    cbn [withRows ch_rows ch_windows pruneRows reportResidentRowCount rowNodes] in Hin |- *.
    by apply list_elem_of_filter in Hin as [? _].
Qed.

(** Six windows, none of which is held.  The route went back to the first and on
    to the fourth, so the second goes although the first is older. *)
Definition demo_window_request (thread : string) : ThreadChatWindowRequest :=
  {| cr_anchorTurnId := None; cr_connectionId := js "phone"; cr_threadId := js thread |}.

Definition demo_route : list ChatEvent :=
  (WindowStarted ∘ demo_window_request <$> ["a"; "b"; "c"; "d"]%string)
  ++ [ResourceUsed (demo_window_request "a"); WindowStarted (demo_window_request "e");
      ResourceUsed (demo_window_request "d")].

Lemma windows_within_budget_witness :
  let c := sy_chat (runChat unitOrder demo_route) in
  exists c' generation, startWindow (demo_window_request "f") c = Some (c', generation)
    /\ mkeys (windowNodes (ch_windows c')) = requestScope ∘ demo_window_request <$> ["c"; "a"; "e"; "d"; "f"]%string
    /\ (length (filter (fun scope => inactiveWindow (Some (requestScope (demo_window_request "f"))) (ch_interest c) scope = true)
                  (mkeys (windowNodes (ch_windows c')))) <= INACTIVE_WINDOW_LIMIT)%nat.
Proof.
  intros c. assert (Hs : is_Some (startWindow (demo_window_request "f") c)) by (vm_compute; eexists; reflexivity).
  destruct Hs as [[c' generation] Hs]. exists c', generation. split; [exact Hs|]. split.
  - assert (Hk : mkeys ∘ windowNodes ∘ ch_windows ∘ fst <$> startWindow (demo_window_request "f") c
                 = Some (requestScope ∘ demo_window_request <$> ["c"; "a"; "e"; "d"; "f"]%string)) by (vm_compute; reflexivity).
    rewrite Hs in Hk. injection Hk as Hk. exact Hk.
  - exact (proj1 (proj2 (proj2 (proj2 (windows_within_budget unitOrder _ (demo_window_request "f") c' generation Hs))))).
Defined.
