(* ===== verification/ChatInterestLaws.v ===== *)
(** * Which conversations want live content

    The interest of [ChatModel]: what the owner of the subscriptions is told, and
    that it agrees, once nothing is pending, with who holds or shows a thread. *)
From S2P Require Import Prelude JsMap Json Ranking ThreadItems Readers ThreadEvents ThreadHead Delivery ThreadRows DetailCoverage.
From S2P Require Import SummaryTypes SummaryProjection SummaryView ChatRange ChatModel ChatLaws.
Import ChatRuns.

Local Open Scope nat_scope.

(** ** What is told of a thread *)

(** The calls of the hook for one thread. *)
Definition toldOf (scope : jstr) (log : list (jstr * bool)) : list bool := snd <$> filter (fun e => e.1 = scope) log.

(** Each call reverses the one before; the first is [next]. *)
Fixpoint alternating (next : bool) (told : list bool) : Prop :=
  match told with [] => True | b :: told => b = next /\ alternating (negb next) told end.

Lemma alternating_snoc next told :
  alternating next told -> alternating next (told ++ [xorb next (Nat.odd (length told))]).
Proof.
  revert next. induction told as [|b told IH]; intros next; cbn [alternating app length].
  - intros _. by destruct next.
  - intros [-> H]. split; [done|]. specialize (IH (negb next) H).
    replace (xorb next (Nat.odd (S (length told)))) with (xorb (negb next) (Nat.odd (length told))); [done|].
    rewrite Nat.odd_succ, <- Nat.negb_odd. destruct (Nat.odd (length told)); by destruct next.
Qed.

Lemma mhas_mset {V} (k k' : jstr) (v : V) m : mhas k (mset k' v m) = bool_decide (k' = k) || mhas k m.
Proof.
  unfold mhas. rewrite mget_mset. by destruct (bool_decide (k' = k)).
Qed.

Lemma mhas_mdel {V} (k k' : jstr) (m : list (jstr * V)) : mhas k (mdel k' m) = negb (bool_decide (k' = k)) && mhas k m.
Proof.
  unfold mhas. rewrite mget_mdel. by destruct (bool_decide (k' = k)).
Qed.

(** The record of interest, and what was told. *)
Record interestLogOk (i : ChatInterest) : Prop :=
  { il_wf : mwf (interestScopes i);
    il_ids : forall scope identity, (scope, identity) ∈ interestScopes i -> scope = threadChatScope identity.1 identity.2;
    il_log : forall scope, alternating true (toldOf scope (interestLog i))
      /\ mhas scope (interestScopes i) = Nat.odd (length (toldOf scope (interestLog i))) }.

Lemma toldOf_snoc scope scope' b log :
  toldOf scope (log ++ [(scope', b)]) = toldOf scope log ++ (if bool_decide (scope' = scope) then [b] else []).
Proof.
  unfold toldOf. rewrite filter_app, fmap_app. f_equal. case_bool_decide as H.
  - by rewrite filter_cons_True, filter_nil.
  - by rewrite filter_cons_False, filter_nil.
Qed.

(** A change of interest is told once. *)
Lemma told_change scopes scope b i :
  interestLogOk i -> mwf scopes ->
  (forall k identity, (k, identity) ∈ scopes -> k = threadChatScope identity.1 identity.2) ->
  mhas scope (interestScopes i) = negb b ->
  (forall k, mhas k scopes = if bool_decide (scope = k) then b else mhas k (interestScopes i)) ->
  interestLogOk (withInterest scopes scope b i).
Proof.
  intros [Hwf Hids Hlog] Hw Hi Hb Hs. split; cbn [withInterest interestLog interestScopes]; [done|done|]. intros k. rewrite toldOf_snoc, Hs.
  destruct (Hlog k) as [Ha Hm]. case_bool_decide as Hk; [|by rewrite app_nil_r]. subst k. rewrite Hm in Hb.
  split.
  - pose proof (alternating_snoc true _ Ha) as H. rewrite Hb in H. by destruct b.
  - rewrite length_app, Nat.odd_add, Hb. by destruct b.
Qed.

Lemma reconcile_spec closed scope identity i :
  interestLogOk i -> scope = threadChatScope identity.1 identity.2 ->
  let i' := reconcileInterest closed scope identity i in
  interestLogOk i' /\ retainCounts i' = retainCounts i /\ residentResourceScope i' = residentResourceScope i
  /\ dormantResidentScope i' = dormantResidentScope i
  /\ forall k, mhas k (interestScopes i') = if bool_decide (scope = k) then isInterested closed scope i else mhas k (interestScopes i).
Proof.
  intros Hi Hid. cbn zeta. unfold reconcileInterest.
  destruct (isInterested closed scope i) eqn:E, (mhas scope (interestScopes i)) eqn:Em; cbn [Bool.eqb].
  - split_and!; try done. intros k. case_bool_decide; by subst.
  - assert (Hs : forall k, mhas k (mset scope identity (interestScopes i)) = if bool_decide (scope = k) then true else mhas k (interestScopes i))
      by (intros k; rewrite mhas_mset; by case_bool_decide).
    split_and!; try done. apply told_change; try done.
    + apply mset_wf, Hi.
    + intros k id [[= -> ->]|Hin]%elem_mset; [done|by apply Hi].
  - assert (Hs : forall k, mhas k (mdel scope (interestScopes i)) = if bool_decide (scope = k) then false else mhas k (interestScopes i))
      by (intros k; rewrite mhas_mdel; by case_bool_decide).
    split_and!; try done. apply told_change; try done.
    + apply mdel_wf, Hi.
    + intros k id Hin%elem_mdel. by apply Hi.
  - split_and!; try done. intros k. case_bool_decide; by subst.
Qed.

Lemma reconcileScope_spec closed scope i :
  interestLogOk i ->
  let i' := reconcileInterestScope closed scope i in
  interestLogOk i' /\ retainCounts i' = retainCounts i /\ residentResourceScope i' = residentResourceScope i
  /\ dormantResidentScope i' = dormantResidentScope i
  /\ forall k, mhas k (interestScopes i')
     = if bool_decide (scope = k) then mhas k (interestScopes i) && isInterested closed k i else mhas k (interestScopes i).
Proof.
  intros Hi. cbn zeta. unfold reconcileInterestScope. destruct (mget scope (interestScopes i)) as [identity|] eqn:E.
  - assert (Hid : scope = threadChatScope identity.1 identity.2) by (apply Hi, mget_elem, E).
    destruct (reconcile_spec closed scope identity i Hi Hid) as (H1 & H2 & H3 & H4 & H5). split_and!; try done.
    intros k. rewrite H5. case_bool_decide as Hk; [|done]. subst k. unfold mhas at 1. rewrite E. by rewrite bool_decide_true.
  - split_and!; try done. intros k. case_bool_decide as Hk; [|done]. subst k. unfold mhas. rewrite E.
    rewrite bool_decide_false; [done|]. by intros [? [=]].
Qed.

(** Interest depends on these parts only. *)
Lemma isInterested_ext closed k i i' :
  retained k i' = retained k i -> residentResourceScope i' = residentResourceScope i ->
  dormantResidentScope i' = dormantResidentScope i -> isInterested closed k i' = isInterested closed k i.
Proof. unfold isInterested. by intros -> -> ->. Qed.

Lemma retained_ext k i i' : retainCounts i' = retainCounts i -> retained k i' = retained k i.
Proof. unfold retained. by intros ->. Qed.

(** ** The invariant *)

Definition heldCount (k : jstr) (held : list jstr) : nat := length (filter (fun scope => scope = k) held).

Definition pendingFor (k : jstr) (tasks : list ChatTask) : Prop := EvictReleased k ∈ tasks \/ ReconcileFormer k ∈ tasks.

Record interestAt (closed : bool) (held : list jstr) (tasks : list ChatTask) (i : ChatInterest) : Prop :=
  { ia_log : interestLogOk i;
    ia_held : closed = false -> forall k, retained k i = heldCount k held;
    ia_gain : forall k, isInterested closed k i = true -> mhas k (interestScopes i) = true;
    ia_loss : forall k, mhas k (interestScopes i) = true -> isInterested closed k i = true \/ pendingFor k tasks;
    ia_closed : closed = true -> interestScopes i = [] }.

(** Equal but for the layout of the counts. *)
Record sameInterest (i i' : ChatInterest) : Prop :=
  { si_counts : forall k, retained k i' = retained k i;
    si_scopes : interestScopes i' = interestScopes i;
    si_resident : residentResourceScope i' = residentResourceScope i;
    si_dormant : dormantResidentScope i' = dormantResidentScope i;
    si_log : interestLog i' = interestLog i }.

Lemma sameInterest_refl i : sameInterest i i.
Proof. done. Qed.

Lemma sameInterest_trans i1 i2 i3 : sameInterest i1 i2 -> sameInterest i2 i3 -> sameInterest i1 i3.
Proof. intros [H1 H2 H3 H4 H5] [G1 G2 G3 G4 G5]. split; congruence. Qed.

Lemma interestAt_same closed held tasks i i' : sameInterest i i' -> interestAt closed held tasks i -> interestAt closed held tasks i'.
Proof.
  intros [H1 H2 H3 H4 H5] [[L1 L2 L3] G1 G2 G3 G4].
  assert (Hi : forall k, isInterested closed k i' = isInterested closed k i) by (intros k; by apply isInterested_ext).
  split; rewrite ?H2; try done.
  - split; by rewrite ?H2, ?H5.
  - intros Hc k. by rewrite H1, G1.
  - intros k. rewrite Hi. apply G2.
  - intros k. rewrite Hi. apply G3.
Qed.

(** More tasks, and other owners of the same scopes. *)
Lemma interestAt_tasks closed held held' tasks tasks' i :
  (forall k, heldCount k held' = heldCount k held) -> (forall task, task ∈ tasks -> task ∈ tasks') ->
  interestAt closed held tasks i -> interestAt closed held' tasks' i.
Proof.
  intros Hh Ht [G0 G1 G2 G3 G4]. split; try done.
  - intros Hc k. by rewrite Hh, G1.
  - intros k Hk. destruct (G3 k Hk) as [?|[?|?]]; [by left|right; left; auto|right; right; auto].
Qed.

(** A reconciliation after which nothing is pending for the scope. *)
Lemma interestAt_reconciled closed held tasks i i' scope :
  interestLogOk i' -> (closed = false -> forall k, retained k i' = heldCount k held) ->
  (forall k, k <> scope -> isInterested closed k i' = true -> isInterested closed k i = true) ->
  (forall k, k <> scope -> isInterested closed k i = true -> isInterested closed k i' = true \/ pendingFor k tasks) ->
  (forall k, mhas k (interestScopes i') = if bool_decide (scope = k) then isInterested closed k i' else mhas k (interestScopes i)) ->
  (closed = true -> interestScopes i' = []) ->
  (forall k, isInterested closed k i = true -> mhas k (interestScopes i) = true) ->
  (forall k, k <> scope -> mhas k (interestScopes i) = true -> isInterested closed k i = true \/ pendingFor k tasks) ->
  interestAt closed held tasks i'.
Proof.
  intros H1 H2 H3 H4 H5 H6 H7 H8. split; try done.
  - intros k Hk. rewrite H5. case_bool_decide; [done|]. by apply H7, H3.
  - intros k. rewrite H5. case_bool_decide as Hk; [by left|]. intros Hm.
    destruct (H8 k) as [Hi|?]; [done..| |by right]. by apply H4.
Qed.

(** *** Owners *)

Lemma heldCount_app k held held' : heldCount k (held ++ held') = heldCount k held + heldCount k held'.
Proof. unfold heldCount. by rewrite filter_app, length_app. Qed.

Lemma heldCount_one k scope : heldCount k [scope] = if bool_decide (scope = k) then 1 else 0.
Proof. unfold heldCount. rewrite filter_cons. case_bool_decide; by case_decide. Qed.

Lemma heldCount_perm k held held' : held ≡ₚ held' -> heldCount k held = heldCount k held'.
Proof. intros H. unfold heldCount. by rewrite H. Qed.

Lemma heldCount_zero k held : heldCount k held = 0 <-> k ∉ held.
Proof.
  unfold heldCount. rewrite length_zero_iff_nil. split.
  - intros H Hin. apply (not_elem_of_nil k). rewrite <- H. by apply list_elem_of_filter.
  - intros Hn. apply filter_nil_iff || (apply elem_of_nil_inv; intros x [-> Hx]%list_elem_of_filter; by apply Hn).
Qed.

(** ** The operations *)

Lemma interestAt_closed held tasks i : interestLogOk i -> interestScopes i = [] -> interestAt true held tasks i.
Proof. intros Hl He. split; try done. intros k. unfold mhas. by rewrite He. Qed.

Lemma retained_counts_mset k scope n i :
  retained k (withCounts (mset scope n (retainCounts i)) i) = if bool_decide (scope = k) then n else retained k i.
Proof. unfold retained. cbn. rewrite mget_mset. by case_bool_decide. Qed.

Lemma retained_counts_mdel k scope i :
  retained k (withCounts (mdel scope (retainCounts i)) i) = if bool_decide (scope = k) then 0 else retained k i.
Proof. unfold retained. cbn. rewrite mget_mdel. by case_bool_decide. Qed.

Lemma interested_retained closed k i : closed = false -> 0 < retained k i -> isInterested closed k i = true.
Proof. intros -> H. unfold isInterested. by rewrite (proj2 (Nat.ltb_lt _ _) H). Qed.

(** A thread that is shown or held once more. *)
Lemma retainScope_ok held tasks identity i :
  interestAt false held tasks i ->
  interestAt false (held ++ [threadChatScope identity.1 identity.2]) tasks (retainScope identity i).
Proof.
  intros [H0 H1 H2 H3 H4]. unfold retainScope. set (scope := threadChatScope identity.1 identity.2).
  set (i1 := if bool_decide (dormantResidentScope i = Some scope) then withResident (residentResourceScope i) None i else i).
  assert (Hi1 : retainCounts i1 = retainCounts i /\ interestScopes i1 = interestScopes i /\ interestLog i1 = interestLog i
      /\ residentResourceScope i1 = residentResourceScope i
      /\ forall k, k <> scope -> dormantResidentScope i1 = Some k <-> dormantResidentScope i = Some k).
  { unfold i1. case_bool_decide as Hd; split_and!; try done. cbn. intros k Hk. rewrite Hd. split; [done|]. congruence. }
  destruct Hi1 as (E1 & E2 & E3 & E4 & E5).
  set (i2 := withCounts _ i1).
  assert (Hr : forall k, retained k i2 = if bool_decide (scope = k) then S (retained k i) else retained k i).
  { intros k. unfold i2. rewrite retained_counts_mset. unfold retained. rewrite E1. case_bool_decide; by subst. }
  assert (Hl2 : interestLogOk i2).
  { destruct H0 as [L1 L2 L3]. split; cbn; by rewrite ?E2, ?E3. }
  destruct (reconcile_spec false scope identity i2 Hl2 eq_refl) as (R1 & R2 & R3 & R4 & R5).
  set (i3 := reconcileInterest false scope identity i2) in *.
  assert (Hint : forall k, isInterested false k i3 = isInterested false k i2)
    by (intros k; apply isInterested_ext; [by apply retained_ext|done..]).
  assert (Hother : forall k, k <> scope -> isInterested false k i2 = isInterested false k i).
  { intros k Hk. unfold isInterested. rewrite Hr, (bool_decide_false (scope = k)) by congruence.
    change (residentResourceScope i2) with (residentResourceScope i1). rewrite E4.
    change (dormantResidentScope i2) with (dormantResidentScope i1).
    by rewrite (bool_decide_ext _ _ (E5 k Hk)). }
  apply (interestAt_reconciled false (held ++ [scope]) tasks i i3 scope); try done.
  - intros _ k. rewrite (retained_ext k i2 i3 R2), Hr, heldCount_app, heldCount_one, H1 by done. case_bool_decide; lia.
  - intros k Hk. by rewrite Hint, Hother.
  - intros k Hk. rewrite Hint, Hother by done. by left.
  - intros k. rewrite R5, Hint. case_bool_decide; [by subst|]. change (interestScopes i2) with (interestScopes i1). by rewrite E2.
  - intros k _. apply H3.
Qed.

(** A thread that is shown, and the one that was. *)
Lemma claim_ok held tasks identity i :
  interestAt false held tasks i ->
  let scope := threadChatScope identity.1 identity.2 in
  interestAt false held
    (tasks ++ match residentResourceScope i with
              | Some former => if bool_decide (former = scope) then [] else [ReconcileFormer former]
              | None => []
              end) (claimResident identity i).
Proof.
  intros [H0 H1 H2 H3 H4] scope. unfold claimResident. fold scope.
  set (i2 := withResident (Some scope) None i).
  assert (Hl2 : interestLogOk i2) by (by destruct H0).
  destruct (reconcile_spec false scope identity i2 Hl2 eq_refl) as (R1 & R2 & R3 & R4 & R5).
  set (i3 := reconcileInterest false scope identity i2) in *.
  assert (Hint : forall k, isInterested false k i3 = isInterested false k i2)
    by (intros k; apply isInterested_ext; [by apply retained_ext|done..]).
  assert (Hnew : forall k, k <> scope -> isInterested false k i2 = (0 <? retained k i)).
  { intros k Hk. unfold isInterested. cbn [i2 withResident residentResourceScope].
    rewrite (bool_decide_false (Some scope = Some k)) by congruence. cbn [andb]. by rewrite orb_false_r. }
  match goal with |- interestAt _ _ ?tasks' _ => apply (interestAt_reconciled false held tasks' i i3 scope) end; try done.
  - intros _ k. rewrite (retained_ext k i2 i3 R2). by apply H1.
  - intros k Hk. rewrite Hint, Hnew by done. intros Hr. by apply interested_retained, Nat.ltb_lt.
  - intros k Hk. rewrite Hint, Hnew by done. unfold isInterested. destruct (0 <? retained k i); [by left|].
    cbn [orb]. intros [Hres _]%andb_prop. bool_prop. right. rewrite Hres.
    rewrite bool_decide_false by done. right. apply elem_of_app. right. by apply list_elem_of_singleton.
  - intros k. rewrite R5, Hint. case_bool_decide; by subst.
  - intros k Hk Hm. destruct (H3 k Hm) as [?|[?|?]]; [by left|right; left|right; right]; apply elem_of_app; by left.
Qed.

(** A release. *)
Lemma release_ok held tasks scope i :
  interestAt false (held ++ [scope]) tasks i ->
  interestAt false held (tasks ++ if (releaseScope scope i).2 then [EvictReleased scope] else []) (releaseScope scope i).1.
Proof.
  intros [H0 H1 H2 H3 H4]. specialize (H1 eq_refl).
  pose proof (H1 scope) as Hs. rewrite heldCount_app, heldCount_one, bool_decide_true in Hs by done.
  assert (Hget : default 1 (mget scope (retainCounts i)) = retained scope i).
  { unfold retained in *. destruct (mget scope (retainCounts i)); [done|]. cbn in Hs. lia. }
  set (last := (releaseScope scope i).2). set (i' := (releaseScope scope i).1).
  assert (Hr : forall k, retained k i' = heldCount k held).
  { intros k. unfold i', releaseScope. rewrite Hget. specialize (H1 k). rewrite heldCount_app, heldCount_one in H1.
    destruct (retained scope i - 1) as [|n] eqn:E; cbn [fst]; [rewrite retained_counts_mdel|rewrite retained_counts_mset];
      case_bool_decide; subst; lia. }
  assert (Hlast : last = (retained scope i' =? 0)).
  { unfold last, i', releaseScope. rewrite Hget. destruct (retained scope i - 1) as [|n]; cbn [fst snd];
      [rewrite retained_counts_mdel|rewrite retained_counts_mset]; by rewrite bool_decide_true. }
  assert (He : interestScopes i' = interestScopes i /\ interestLog i' = interestLog i
      /\ residentResourceScope i' = residentResourceScope i /\ dormantResidentScope i' = dormantResidentScope i)
    by (unfold i', releaseScope; by case_match).
  destruct He as (E1 & E2 & E3 & E4).
  assert (Hother : forall k, k <> scope -> isInterested false k i' = isInterested false k i).
  { intros k Hk. apply isInterested_ext; [|done..]. rewrite Hr, H1, heldCount_app, heldCount_one, bool_decide_false by congruence. lia. }
  split.
  - destruct H0 as [L1 L2 L3]. split; by rewrite ?E1, ?E2.
  - intros _. exact Hr.
  - intros k Hk. rewrite E1. apply H2. destruct (decide (k = scope)) as [->|Hne]; [|by rewrite <- Hother].
    apply interested_retained; [done|lia].
  - intros k. rewrite E1. intros Hm. destruct (decide (k = scope)) as [->|Hne].
    + destruct (Nat.eqb_spec (retained scope i') 0) as [E|E].
      * right. left. rewrite Hlast. apply elem_of_app. right. by apply list_elem_of_singleton.
      * left. apply interested_retained; [done|lia].
    + rewrite Hother by done. destruct (H3 k Hm) as [?|[?|?]]; [by left|right; left|right; right]; apply elem_of_app; by left.
  - done.
Qed.

(** A task that has run leaves nothing to do for its scope. *)
Lemma settle_ok closed held tasks tasks' scope i i1 :
  interestAt closed held tasks i ->
  (forall k, k <> scope -> pendingFor k tasks -> pendingFor k tasks') ->
  retainCounts i1 = retainCounts i -> interestScopes i1 = interestScopes i -> interestLog i1 = interestLog i ->
  (forall k, isInterested closed k i1 = true -> isInterested closed k i = true) ->
  (forall k, k <> scope -> isInterested closed k i1 = isInterested closed k i) ->
  interestAt closed held tasks' (reconcileInterestScope closed scope i1).
Proof.
  intros [H0 H1 H2 H3 H4] Ht E1 E2 E3 Hsub Hother.
  assert (Hl : interestLogOk i1) by (destruct H0 as [L1 L2 L3]; split; by rewrite ?E2, ?E3).
  destruct (reconcileScope_spec closed scope i1 Hl) as (R1 & R2 & R3 & R4 & R5).
  set (i2 := reconcileInterestScope closed scope i1) in *.
  assert (Hint : forall k, isInterested closed k i2 = isInterested closed k i1)
    by (intros k; apply isInterested_ext; [by apply retained_ext|done..]).
  split; try done.
  - intros Hc k. rewrite (retained_ext k i i2) by congruence. by apply H1.
  - intros k. rewrite Hint. intros Hk. rewrite R5, E2, Hk, (H2 k) by auto. by case_bool_decide.
  - intros k. rewrite R5, E2, Hint. case_bool_decide as Hk; [by intros [_ ?]%andb_prop; left|].
    intros Hm. rewrite Hother by congruence. destruct (H3 k Hm) as [?|?]; [by left|right]. apply Ht; congruence.
  - intros Hc. apply elem_of_nil_inv. intros [k id] Hin.
    assert (Hm : mhas k (interestScopes i2) = true) by (by apply bool_decide_true, mget_is_Some, list_elem_of_fmap; exists (k, id)).
    rewrite R5, E2, (H4 Hc) in Hm. by case_bool_decide.
Qed.

Lemma markLeft_parts closed scope i :
  let i1 := markLeftResident closed scope i in
  retainCounts i1 = retainCounts i /\ interestScopes i1 = interestScopes i /\ interestLog i1 = interestLog i
  /\ (forall k, isInterested closed k i1 = true -> isInterested closed k i = true)
  /\ (forall k, k <> scope -> isInterested closed k i1 = isInterested closed k i).
Proof.
  cbn zeta. unfold markLeftResident.
  destruct (closed || negb (bool_decide (residentResourceScope i = Some scope)) || (0 <? retained scope i)) eqn:E;
    [done|]. apply orb_false_iff in E as [[-> Hres]%orb_false_iff Hret]. bool_prop. split_and!; try done.
  - intros k. unfold isInterested. change (retained k (withResident _ _ i)) with (retained k i).
    cbn [withResident residentResourceScope dormantResidentScope].
    destruct (0 <? retained k i); [done|]. cbn [orb]. intros [Hk Hdor]%andb_prop. bool_prop. congruence.
  - intros k Hk. unfold isInterested. change (retained k (withResident _ _ i)) with (retained k i).
    cbn [withResident residentResourceScope dormantResidentScope]. f_equal.
    rewrite Hres. by rewrite (bool_decide_false (Some scope = Some k)) by congruence.
Qed.

(** *** Evictions *)

Lemma evictWindow_same scope c : retained scope (ch_interest c) = 0 -> sameInterest (ch_interest c) (ch_interest (evictWindow scope c)).
Proof. intros H. split; try done. intros k. by apply retained_evict. Qed.

Lemma evictInactive_same protectedScope scopes st :
  sameInterest (ch_interest st.1) (ch_interest (foldl (evictInactive protectedScope) st scopes).1).
Proof.
  revert st. induction scopes as [|scope scopes IH]; intros st; [done|]. cbn [foldl].
  eapply sameInterest_trans; [|apply IH]. destruct st as [c n]. unfold evictInactive.
  destruct (n <=? INACTIVE_WINDOW_LIMIT); [done|]. destruct (inactiveWindow _ _ _) eqn:E; [|done].
  apply evictWindow_same. unfold inactiveWindow in E. by bool_prop.
Qed.

Lemma unretained_same protectedScope c :
  sameInterest (ch_interest c) (ch_interest (evictUnretainedWindows protectedScope c)).
Proof. apply (evictInactive_same protectedScope _ (c, _)). Qed.

Lemma evictReleased_ok held tasks scope c :
  interestAt (ch_closed c) held (EvictReleased scope :: tasks) (ch_interest c) ->
  interestAt (ch_closed c) held tasks (ch_interest (evictReleasedWindow scope c)).
Proof.
  intros H. destruct (markLeft_parts (ch_closed c) scope (ch_interest c)) as (E1 & E2 & E3 & E4 & E5).
  unfold evictReleasedWindow. set (i1 := markLeftResident _ _ _) in *.
  assert (Hr : interestAt (ch_closed c) held tasks (reconcileInterestScope (ch_closed c) scope i1)).
  { apply (settle_ok _ held (EvictReleased scope :: tasks) tasks scope (ch_interest c)); try done.
    intros k Hk [[[=]|?]%elem_of_cons|[[=]|?]%elem_of_cons]; [done|by left|by right]. }
  set (i2 := reconcileInterestScope _ _ _) in *. set (c1 := withChatInterest i2 c).
  destruct (ch_closed c1 || bool_decide (residentResourceScope i2 = Some scope) || (0 <? retained scope i2)) eqn:E; [done|].
  apply orb_false_iff in E as [_ E]. bool_prop. eapply interestAt_same; [|exact Hr].
  eapply sameInterest_trans; [|apply unretained_same]. apply (evictWindow_same scope c1). apply Nat.le_0_r. exact E.
Qed.

(** *** A connection is forgotten *)

Abbreviation ofConnection connectionId := (fun e : jstr * ThreadIdentity => bool_decide (e.2.1 = connectionId)).

Definition namedIn (connectionId k : jstr) (scopes : list (jstr * ThreadIdentity)) : bool :=
  existsb (fun e => bool_decide (e.1 = k) && bool_decide (e.2.1 = connectionId)) scopes.

Lemma forgetInterest_loop connectionId l i :
  interestLogOk i -> NoDup (mkeys l) -> (forall e, e ∈ l -> mhas e.1 (interestScopes i) = true) ->
  let i' := foldl (fun i e => if ofConnection connectionId e
                             then withInterest (mdel e.1 (interestScopes i)) e.1 false i else i) i l in
  interestLogOk i' /\ retainCounts i' = retainCounts i /\ residentResourceScope i' = residentResourceScope i
  /\ dormantResidentScope i' = dormantResidentScope i
  /\ forall k, mhas k (interestScopes i') = mhas k (interestScopes i) && negb (namedIn connectionId k l).
Proof.
  revert i. induction l as [|e l IH]; intros i Hi Hn Hl; cbn [foldl].
  - split_and!; try done. intros k. cbn. by rewrite andb_true_r.
  - change (NoDup (e.1 :: mkeys l)) in Hn. apply NoDup_cons in Hn as [He Hn].
    destruct (bool_decide (e.2.1 = connectionId)) eqn:E.
    + set (i1 := withInterest _ _ _ i).
      assert (Hs : forall k, mhas k (interestScopes i1) = if bool_decide (e.1 = k) then false else mhas k (interestScopes i))
        by (intros k; unfold i1; cbn [withInterest interestScopes]; rewrite mhas_mdel; by destruct (bool_decide (e.1 = k))).
      assert (H1 : interestLogOk i1).
      { apply told_change; try done; [apply mdel_wf, Hi|intros k id Hin%elem_mdel; by apply Hi|].
        rewrite Hl by left. done. }
      destruct (IH i1 H1 Hn) as (R1 & R2 & R3 & R4 & R5).
      { intros e' He'. rewrite Hs, bool_decide_false; [apply Hl; by right|].
        intros Heq. apply He. rewrite Heq. apply list_elem_of_fmap. by exists e'. }
      split_and!; try done. intros k. rewrite R5, Hs. cbn [namedIn existsb]. rewrite E, andb_true_r.
      by destruct (bool_decide (e.1 = k)); [rewrite andb_false_r|].
    + destruct (IH i Hi Hn) as (R1 & R2 & R3 & R4 & R5); [intros e' He'; apply Hl; by right|].
      split_and!; try done. intros k. rewrite R5. cbn [namedIn existsb]. by rewrite E, andb_false_r.
Qed.

Lemma namedIn_identity connectionId k i :
  interestLogOk i -> namedIn connectionId k (interestScopes i) = true -> startsWith (connectionId ++ SummaryProjection.NUL) k = true.
Proof.
  intros Hi ([k' id] & Hin%list_elem_of_In & H)%existsb_exists. cbn [fst snd] in H. apply andb_prop in H as [H1 H2]. bool_prop.
  subst. apply startsWith_spec. rewrite (il_ids i Hi _ _ Hin). unfold threadChatScope. rewrite app_assoc. by eexists.
Qed.

Lemma evictAll_same scopes c :
  (forall scope, scope ∈ scopes -> retained scope (ch_interest c) = 0) ->
  sameInterest (ch_interest c) (ch_interest (foldl (fun c scope => evictWindow scope c) c scopes)).
Proof.
  revert c. induction scopes as [|scope scopes IH]; intros c Hs; [done|]. cbn [foldl].
  assert (H0 : retained scope (ch_interest c) = 0) by (apply Hs; by left).
  eapply sameInterest_trans; [by apply evictWindow_same|]. apply IH. intros k Hk. rewrite retained_evict by done. apply Hs. by right.
Qed.

Lemma evictAll_scopes scopes c :
  let c' := foldl (fun c scope => evictWindow scope c) c scopes in
  interestScopes (ch_interest c') = interestScopes (ch_interest c) /\ interestLog (ch_interest c') = interestLog (ch_interest c)
  /\ ch_closed c' = ch_closed c /\ ch_tasks c' = ch_tasks c.
Proof. revert c. induction scopes as [|scope scopes IH]; intros c; [done|]. apply (IH (evictWindow scope c)). Qed.

(** The interest of a connection that nothing holds. *)
Lemma forgetInterest_ok held tasks connectionId i :
  interestAt false held tasks i ->
  let prefix := connectionId ++ SummaryProjection.NUL in
  (forall k, k ∈ held -> startsWith prefix k = false) ->
  (forall e, e ∈ interestScopes i -> startsWith prefix e.1 = true -> e.2.1 = connectionId) ->
  interestAt false held tasks
    (forgetInterestOf connectionId
       match residentResourceScope i with
       | Some scope => if startsWith prefix scope then withResident None None i else i
       | None => i
       end).
Proof.
  intros [H0 H1 H2 H3 H4] prefix Hheld Hnames. specialize (H1 eq_refl).
  set (i1 := match residentResourceScope i with Some _ => _ | None => _ end).
  assert (E : retainCounts i1 = retainCounts i /\ interestScopes i1 = interestScopes i /\ interestLog i1 = interestLog i).
  { unfold i1. destruct (residentResourceScope i) as [scope|]; [|done]. by destruct (startsWith prefix scope). }
  destruct E as (E1 & E2 & E3).
  assert (Hl : interestLogOk i1) by (destruct H0 as [L1 L2 L3]; split; by rewrite ?E2, ?E3).
  destruct (forgetInterest_loop connectionId (interestScopes i1) i1 Hl) as (R1 & R2 & R3 & R4 & R5).
  { apply Hl. }
  { intros e He. apply bool_decide_true, mget_is_Some, list_elem_of_fmap. by exists e. }
  fold (forgetInterestOf connectionId i1) in *. set (i2 := forgetInterestOf connectionId i1) in *.
  assert (Hint : forall k, isInterested false k i2 = isInterested false k i1)
    by (intros k; apply isInterested_ext; [by apply retained_ext|done..]).
  assert (Hres : forall k, isInterested false k i1 = isInterested false k i && negb (startsWith prefix k)).
  { intros k. destruct (startsWith prefix k) eqn:Ep; cbn [negb].
    - rewrite andb_false_r. unfold isInterested. rewrite (retained_ext k i i1 E1), H1.
      rewrite (proj2 (heldCount_zero k held)) by (intros Hk%Hheld; congruence). cbn.
      unfold i1. destruct (residentResourceScope i) as [scope|] eqn:Er; [|by rewrite Er].
      destruct (startsWith prefix scope) eqn:Es; [done|]. rewrite Er, bool_decide_false; [done|]. intros [= ->]. congruence.
    - rewrite andb_true_r. unfold i1. destruct (residentResourceScope i) as [scope|] eqn:Er; [|done].
      destruct (startsWith prefix scope) eqn:Es; [|done]. unfold isInterested.
      change (retained k (withResident None None i)) with (retained k i). cbn [withResident residentResourceScope].
      rewrite Er, (bool_decide_false (Some scope = Some k)); [done|]. intros [= ->]. congruence. }
  split; try done.
  - intros _ k. rewrite (retained_ext k i i2) by congruence. apply H1.
  - intros k. rewrite Hint, Hres. intros [Hk Hp]%andb_prop. rewrite R5, E2, (H2 k Hk). cbn [andb].
    destruct (namedIn connectionId k (interestScopes i)) eqn:En; [|done].
    apply (namedIn_identity connectionId k i H0) in En. change (startsWith prefix k = true) in En. by rewrite En in Hp.
  - intros k. rewrite R5, E2, Hint, Hres. intros [Hm Hn]%andb_prop.
    destruct (H3 k Hm) as [Hk|?]; [|by right]. left. rewrite Hk. cbn [andb].
    destruct (startsWith prefix k) eqn:Ep; [|done]. apply bool_decide_eq_true, mget_is_Some, list_elem_of_fmap in Hm as (e & -> & He).
    assert (Hy : namedIn connectionId e.1 (interestScopes i) = true); [|by rewrite Hy in Hn].
    apply existsb_exists. exists e. split; [by apply list_elem_of_In|]. by rewrite !bool_decide_true by auto.
Qed.

(** ** Every step *)

Definition identitiesOk (w : ChatWindows) : Prop :=
  forall scope identity, (scope, identity) ∈ windowIdentities w -> scope = threadChatScope identity.1 identity.2.

Lemma windowAt_ids identity w : identitiesOk w -> identitiesOk (windowAt identity w).1.
Proof.
  intros H. unfold windowAt. destruct (mget _ _); [done|]. intros scope id. cbn [fst withNodes windowIdentities].
  by intros [[= -> ->]|Hin]%elem_mset; [|apply H].
Qed.

Lemma evict_ids scope c : identitiesOk (ch_windows c) -> identitiesOk (ch_windows (evictWindow scope c)).
Proof. intros H k id Hin%elem_mdel. by apply H. Qed.

Lemma evictAll_ids (scopes : list jstr) c :
  identitiesOk (ch_windows c) -> identitiesOk (ch_windows (foldl (fun c scope => evictWindow scope c) c scopes)).
Proof. revert c. induction scopes as [|scope scopes IH]; intros c Hc; [done|]. apply IH. by apply evict_ids. Qed.

Lemma unretained_ids protectedScope c :
  identitiesOk (ch_windows c) -> identitiesOk (ch_windows (evictUnretainedWindows protectedScope c)).
Proof.
  intros Hc. assert (H : forall (scopes : list jstr) st, identitiesOk (ch_windows st.1) ->
    identitiesOk (ch_windows (foldl (evictInactive protectedScope) st scopes).1)).
  { clear. induction scopes as [|scope scopes IH]; intros [c n] Hst; [done|]. apply IH. unfold evictInactive.
    destruct (n <=? INACTIVE_WINDOW_LIMIT); [done|]. destruct (inactiveWindow _ _ _); [|done]. by apply evict_ids. }
  by apply H.
Qed.

(** What the windows of an operation that opens at most one are. *)
Ltac opensWindow H := match goal with |- context [windowAt ?i ?w0] =>
  let Hw := fresh in assert (Hw : identitiesOk (windowAt i w0).1) by (by apply windowAt_ids); destruct (windowAt i w0) end.

Lemma ids_step localeCompare s e :
  identitiesOk (ch_windows (sy_chat s)) -> identitiesOk (ch_windows (sy_chat (chatStep localeCompare s e))).
Proof.
  intros Hs. destruct e; cbn [chatStep]; cbn.
  - unfold resource. destruct (ch_closed (sy_chat s)); [done|]. cbn -[windowAt]. apply windowAt_ids.
    assert (Hp : identitiesOk (promoteWindow (requestScope request) (ch_windows (sy_chat s))))
      by (unfold promoteWindow; by destruct (mget _ _)).
    destruct (residentResourceScope _); repeat case_bool_decide; done.
  - destruct (cl_records _ !! _); [|done]. unfold retainWindow. by destruct (ch_closed (sy_chat s)).
  - destruct (sy_recordReleases s !! i) as [[[address scope] []]|]; [|done..]. cbn. unfold releaseWindow.
    by destruct (releaseScope _ _) as [? []].
  - unfold retainWindow. by destruct (ch_closed (sy_chat s)).
  - destruct (sy_windowReleases s !! i); [|done]. cbn. unfold releaseWindow. by destruct (releaseScope _ _) as [? []].
  - unfold startWindow. destruct (ch_closed (sy_chat s)); [done|]. opensWindow Hs. cbn in *.
    by apply (unretained_ids _ (withWindows _ (sy_chat s))).
  - unfold commitWindow. destruct (_ || _); [done|]. opensWindow Hs. unfold installLoaded. by destruct (installRows _ _).
  - unfold failWindow. destruct (_ || _); [done|]. opensWindow Hs. done.
  - unfold commitRange. destruct (mget _ _); [|done]. destruct (_ || _); [done|]. cbn. unfold installLoaded.
    by destruct (installRows _ _).
  - unfold publishChatChanges. by destruct (_ || _).
  - done.
  - unfold refreshThread. cbn. repeat (destruct (mget _ _); [|done]). by destruct (installRows _ _).
  - unfold beginBackendRefresh. destruct (ch_closed (sy_chat s)); [done|]. opensWindow Hs. done.
  - destruct (sy_refreshEnds s !! i) as [[scope address]|]; [|done]. cbn. unfold endBackendRefresh.
    case_match; [|done]. by destruct (ch_closed (sy_chat s)).
  - unfold confirmBackendRefresh. destruct (ch_closed (sy_chat s)); [done|]. opensWindow Hs. cbn in *. by case_bool_decide.
  - by destruct (cl_loads _ !! i).
  - by destruct (cl_loads _ !! i).
  - by destruct (cl_timers _ !! i).
  - destruct (ch_tasks (sy_chat s) !! i) as [[scope|scope]|]; [|done..]. cbn. unfold evictReleasedWindow. cbn.
    destruct (ch_closed _ || _ || _); [done|]. apply unretained_ids. by apply evict_ids.
  - by apply evictAll_ids.
  - intros k id Hin. by apply not_elem_of_nil in Hin.
Qed.

(** An operation that has nothing to do with interest. *)
Definition quiet (c c' : ThreadChatModel) : Prop :=
  ch_closed c' = ch_closed c /\ ch_tasks c' = ch_tasks c /\ sameInterest (ch_interest c) (ch_interest c').

Lemma unretained_quiet protectedScope c : quiet c (evictUnretainedWindows protectedScope c).
Proof.
  assert (H : forall scopes st, quiet st.1 (foldl (evictInactive protectedScope) st scopes).1); [|apply (H _ (c, _))].
  induction scopes as [|scope scopes IH]; intros [c1 n]; [done|]. cbn [foldl].
  destruct (IH (evictInactive protectedScope (c1, n) scope)) as (H1 & H2 & _). split_and!.
  - rewrite H1. unfold evictInactive. by destruct (n <=? _), (inactiveWindow protectedScope (ch_interest c1) scope).
  - rewrite H2. unfold evictInactive. by destruct (n <=? _), (inactiveWindow protectedScope (ch_interest c1) scope).
  - apply (evictInactive_same protectedScope (scope :: scopes) (c1, n)).
Qed.

Definition touchesInterest (e : ChatEvent) : bool :=
  match e with
  | ResourceUsed _ | ResourceRetained _ | ResourceReleased _ | WindowRetained _ | WindowReleased _ | TaskRun _
  | ConnectionForgotten _ | ChatClosed => true
  | _ => false
  end.

Lemma quiet_step localeCompare s e : touchesInterest e = false ->
  quiet (sy_chat s) (sy_chat (chatStep localeCompare s e))
  /\ heldScopes (chatStep localeCompare s e) = heldScopes s.
Proof.
  intros He. destruct e; try done; cbn [chatStep]; cbn.
  - unfold startWindow. destruct (ch_closed (sy_chat s)); [done|]. destruct (windowAt _ _) as [w address]. split; [|done].
    apply (unretained_quiet _ (withWindows w (sy_chat s))).
  - unfold commitWindow. destruct (_ || _); [done|]. destruct (windowAt _ _). unfold installLoaded. by destruct (installRows _ _).
  - unfold failWindow. destruct (_ || _); [done|]. by destruct (windowAt _ _).
  - unfold commitRange. destruct (mget _ _); [|done]. destruct (_ || _); [done|]. cbn. unfold installLoaded.
    by destruct (installRows _ _).
  - unfold publishChatChanges. by destruct (_ || _).
  - unfold refreshThread. cbn. repeat (destruct (mget _ _); [|done]). by destruct (installRows _ _).
  - unfold beginBackendRefresh. destruct (ch_closed (sy_chat s)); [done|]. by destruct (windowAt _ _).
  - destruct (sy_refreshEnds s !! i) as [[scope address]|]; [|done]. cbn. unfold endBackendRefresh. by case_match.
  - unfold confirmBackendRefresh. destruct (ch_closed (sy_chat s)); [done|]. by destruct (windowAt _ _).
  - by destruct (cl_loads _ !! i).
  - by destruct (cl_loads _ !! i).
  - by destruct (cl_timers _ !! i).
Qed.

Abbreviation interestOf s := (interestAt (ch_closed (sy_chat s)) (heldScopes s) (ch_tasks (sy_chat s)) (ch_interest (sy_chat s))).

Lemma interestOf_quiet s s' :
  quiet (sy_chat s) (sy_chat s') -> heldScopes s' = heldScopes s -> interestOf s -> interestOf s'.
Proof. intros (H1 & H2 & H3) H4 H. rewrite H1, H2, H4. by eapply interestAt_same. Qed.

(** A release moves one owner to the end first. *)
Lemma release_held closed held held' tasks scope i :
  held ≡ₚ scope :: held' -> interestAt closed held tasks i ->
  interestAt closed held' (tasks ++ if (releaseScope scope i).2 then [EvictReleased scope] else []) (releaseScope scope i).1.
Proof.
  intros Hp H. destruct closed.
  - destruct H as [[L1 L2 L3] _ _ _ H4]. specialize (H4 eq_refl).
    apply interestAt_closed; unfold releaseScope; by destruct (default 1 _ - 1).
  - apply release_ok. eapply interestAt_tasks; [|done|exact H]. intros k. apply heldCount_perm. rewrite Hp.
    symmetry. apply Permutation_cons_append.
Qed.

Lemma releaseWindow_parts scope c :
  ch_closed (releaseWindow scope c) = ch_closed c
  /\ ch_tasks (releaseWindow scope c) = ch_tasks c ++ (if (releaseScope scope (ch_interest c)).2 then [EvictReleased scope] else [])
  /\ ch_interest (releaseWindow scope c) = (releaseScope scope (ch_interest c)).1.
Proof. unfold releaseWindow. destruct (releaseScope _ _) as [i []]; cbn; by rewrite ?app_nil_r. Qed.

Lemma retainWindow_ok held tasks identity c :
  interestAt (ch_closed c) held tasks (ch_interest c) ->
  let '(c', open) := retainWindow identity c in
  ch_closed c' = ch_closed c /\ ch_tasks c' = ch_tasks c /\ open = negb (ch_closed c)
  /\ interestAt (ch_closed c) (held ++ if open then [threadChatScope identity.1 identity.2] else []) tasks (ch_interest c').
Proof.
  intros H. unfold retainWindow. destruct (ch_closed c) eqn:E.
  - by rewrite app_nil_r.
  - split_and!; try done. by apply retainScope_ok.
Qed.

Abbreviation recordOwner := (fun e : nat * jstr * bool => if (e.2 : bool) then Some e.1.2 else None).

Lemma record_released s i address scope open :
  sy_recordReleases s !! i = Some (address, scope, open) ->
  heldScopes s ≡ₚ (if open : bool then [scope] else []) ++ sy_windowReleases s ++ omap recordOwner (delete i (sy_recordReleases s)).
Proof.
  intros H%delete_Permutation. unfold heldScopes. set (others := delete i _) in *. rewrite H. cbn [omap list_omap fst snd].
  destruct open; [|done]. cbn [app]. symmetry. apply Permutation_middle.
Qed.

Lemma forget_ok localeCompare s connectionId :
  forgettable s (ConnectionForgotten connectionId) = true ->
  identitiesOk (ch_windows (sy_chat s)) -> interestOf s ->
  interestOf (chatStep localeCompare s (ConnectionForgotten connectionId)).
Proof.
  intros [Hheld Hnames]%andb_prop Hids H. set (prefix := connectionId ++ SummaryProjection.NUL) in *.
  rewrite forallb_forall in Hheld, Hnames. set (s' := chatStep _ s _).
  change (heldScopes s') with (heldScopes s).
  set (scopes := omap (fun e => if bool_decide (e.2.1 = connectionId) then Some e.1 else None) (windowIdentities (ch_windows (sy_chat s)))).
  set (c1 := foldl (fun c scope => evictWindow scope c) (sy_chat s) scopes).
  destruct (evictAll_scopes scopes (sy_chat s)) as (E1 & E2 & E3 & E4). fold c1 in E1, E2, E3, E4.
  change (ch_closed (sy_chat s')) with (ch_closed c1). change (ch_tasks (sy_chat s')) with (ch_tasks c1).
  set (i1 := match residentResourceScope (ch_interest c1) with
             | Some scope => if startsWith prefix scope then withResident None None (ch_interest c1) else ch_interest c1
             | None => ch_interest c1
             end).
  change (ch_interest (sy_chat s')) with (forgetInterestOf connectionId i1). rewrite E3, E4.
  destruct (ch_closed (sy_chat s)) eqn:Ec.
  - destruct H as [[L1 L2 L3] _ _ _ H4]. specialize (H4 eq_refl).
    assert (Ei : interestScopes i1 = [] /\ interestLog i1 = interestLog (ch_interest (sy_chat s))).
    { unfold i1. destruct (residentResourceScope _) as [scope|]; [destruct (startsWith prefix scope)|]; cbn; by rewrite E1. }
    destruct Ei as [Ei1 Ei2]. unfold forgetInterestOf. rewrite Ei1. cbn [foldl].
    apply interestAt_closed; [|done]. split; rewrite ?Ei1, ?Ei2; [by apply NoDup_nil_2|by intros ?? ?%not_elem_of_nil|].
    by rewrite H4 in L3.
  - apply forgetInterest_ok.
    + eapply interestAt_same; [|exact H]. apply evictAll_same. intros k (e & He & Hk)%list_elem_of_omap.
      destruct (bool_decide (e.2.1 = connectionId)) eqn:Eb; [|done]. injection Hk as <-. bool_prop.
      rewrite (ia_held _ _ _ _ H eq_refl). apply heldCount_zero. intros Hin%list_elem_of_In%Hheld%negb_true_iff.
      assert (Hs : e.1 = threadChatScope e.2.1 e.2.2) by (apply Hids; by destruct e).
      assert (Hy : startsWith prefix e.1 = true); [|congruence].
      apply startsWith_spec. rewrite Hs. unfold threadChatScope, prefix. rewrite Eb, app_assoc. by eexists.
    + intros k Hk%list_elem_of_In%Hheld. by apply negb_true_iff.
    + rewrite E1. intros e He%list_elem_of_In%Hnames Hp. fold prefix in Hp, He. rewrite Hp in He. by apply bool_decide_eq_true in He.
Qed.

Lemma closeChat_ok localeCompare s : interestOf s -> interestOf (chatStep localeCompare s ChatClosed).
Proof.
  intros [H0 _ _ _ _]. set (i0 := withResident None None (ch_interest (sy_chat s))).
  assert (Hl : interestLogOk i0) by (by destruct H0).
  set (close := fun i scope => reconcileInterestScope true scope i).
  assert (H : forall keys i, interestLogOk i -> let i' := foldl close i keys in
    interestLogOk i' /\ forall k, mhas k (interestScopes i') = mhas k (interestScopes i) && negb (bool_decide (k ∈ keys))).
  { induction keys as [|key keys IH]; intros i Hi.
    - split; [done|]. intros k. cbn. by rewrite andb_true_r.
    - destruct (reconcileScope_spec true key i Hi) as (R1 & _ & _ & _ & R5). destruct (IH (close i key) R1) as [I1 I2].
      split; [done|]. intros k. cbn [foldl]. rewrite I2. unfold close at 1. rewrite R5. cbn [isInterested]. rewrite andb_false_r.
      destruct (decide (key = k)) as [->|Hne].
      + rewrite (bool_decide_true (k = k)), (bool_decide_true (k ∈ k :: keys)) by (done || by left). cbn. by rewrite andb_false_r.
      + rewrite (bool_decide_false (key = k)) by done. do 2 f_equal. apply bool_decide_ext. rewrite elem_of_cons.
        split; [by right|]. by intros [->|?]. }
  destruct (H (mkeys (interestScopes i0)) i0 Hl) as [I1 I2].
  change (ch_closed (sy_chat (chatStep localeCompare s ChatClosed))) with true.
  set (i' := foldl close i0 (mkeys (interestScopes i0))) in *.
  change (ch_interest (sy_chat (chatStep localeCompare s ChatClosed))) with (withCounts [] i').
  apply interestAt_closed; [by destruct I1|]. cbn [withCounts interestScopes].
  apply elem_of_nil_inv. intros [k id] Hin.
  assert (Hm : mhas k (interestScopes i') = true) by (by apply bool_decide_true, mget_is_Some, list_elem_of_fmap; exists (k, id)).
  rewrite I2 in Hm. apply andb_prop in Hm as [Hm Hn]. apply bool_decide_eq_true, mget_is_Some in Hm.
  by rewrite bool_decide_true in Hn.
Qed.

Lemma task_ok s i task :
  ch_tasks (sy_chat s) !! i = Some task -> interestOf s ->
  interestAt (ch_closed (sy_chat s)) (heldScopes s) (delete i (ch_tasks (sy_chat s)))
    (ch_interest (runTask task (withoutTask i (sy_chat s)))).
Proof.
  intros Hp%delete_Permutation H. set (others := delete i (ch_tasks (sy_chat s))) in *.
  assert (H' : interestAt (ch_closed (sy_chat s)) (heldScopes s) (task :: others) (ch_interest (sy_chat s))).
  { eapply interestAt_tasks; [done| |exact H]. intros task'. by rewrite Hp. }
  destruct task as [scope|scope].
  - by apply (evictReleased_ok (heldScopes s) others scope (withoutTask i (sy_chat s))).
  - apply (settle_ok _ (heldScopes s) (ReconcileFormer scope :: others) others scope (ch_interest (sy_chat s))); try done.
    intros k Hk [[[=]|?]%elem_of_cons|[[=]|?]%elem_of_cons]; [by left|done|by right].
Qed.

Lemma retain_step localeCompare s e : interestOf s ->
  match e with ResourceUsed _ | ResourceRetained _ | WindowRetained _ => interestOf (chatStep localeCompare s e) | _ => True end.
Proof.
  intros H. destruct e; try done; cbn [chatStep].
  - unfold resource. destruct (ch_closed (sy_chat s)) eqn:Ec; [cbn; by rewrite Ec|].
    pose proof (claim_ok _ _ (cr_connectionId request, cr_threadId request) _ H) as Hc.
    change (threadChatScope _ _) with (requestScope request) in Hc.
    unfold heldScopes in *. cbn [default from_option withChat sy_chat sy_windowReleases sy_recordReleases]. unfold id.
    destruct (residentResourceScope (ch_interest (sy_chat s))) as [former|] eqn:Er; rewrite ?Er in *.
    + destruct (bool_decide (former = requestScope request)) eqn:Eb; cbn; rewrite ?Ec, ?Eb in *;
        by rewrite ?app_nil_r in *.
    + cbn. rewrite Ec. by rewrite app_nil_r in Hc.
  - destruct (cl_records (ch_loads (sy_chat s)) !! address) as [holder|]; [|done].
    pose proof (retainWindow_ok _ _ (cr_connectionId (rr_request holder), cr_threadId (rr_request holder)) _ H) as Hr.
    destruct (retainWindow _ _) as [c' open]. destruct Hr as (R1 & R2 & -> & R4). cbn. rewrite R1, R2.
    unfold heldScopes in *. cbn [sy_windowReleases sy_recordReleases]. rewrite omap_app, app_assoc. by destruct (ch_closed (sy_chat s)).
  - pose proof (retainWindow_ok _ _ identity _ H) as Hr.
    destruct (retainWindow _ _) as [c' open]. destruct Hr as (R1 & R2 & -> & R4). cbn. rewrite R1, R2.
    eapply interestAt_tasks; [|done|exact R4]. intros k. apply heldCount_perm. unfold heldScopes.
    cbn [sy_windowReleases sy_recordReleases]. rewrite <- !app_assoc. apply Permutation_app_head, Permutation_app_comm.
Qed.

Lemma release_step localeCompare s e : interestOf s ->
  match e with ResourceReleased _ | WindowReleased _ => interestOf (chatStep localeCompare s e) | _ => True end.
Proof.
  intros H. destruct e; try done; cbn [chatStep].
  - destruct (sy_recordReleases s !! i) as [[[address scope] open]|] eqn:Er; [|done].
    pose proof (record_released s i address scope open Er) as Hp. destruct open.
    + destruct (releaseWindow_parts scope (sy_chat s)) as (R1 & R2 & R3). cbn. rewrite R1, R2, R3.
      by eapply release_held.
    + cbn. eapply interestAt_tasks; [|done|exact H]. intros k. symmetry. by apply heldCount_perm.
  - destruct (sy_windowReleases s !! i) as [scope|] eqn:Er; [|done].
    destruct (releaseWindow_parts scope (sy_chat s)) as (R1 & R2 & R3). cbn. rewrite R1, R2, R3.
    eapply release_held; [|exact H]. unfold heldScopes. apply delete_Permutation in Er.
    set (others := delete i (sy_windowReleases s)) in *. by rewrite Er.
Qed.

Lemma interest_step localeCompare s e : forgettable s e = true ->
  identitiesOk (ch_windows (sy_chat s)) -> interestOf s -> interestOf (chatStep localeCompare s e).
Proof.
  intros Hf Hids H. destruct (touchesInterest e) eqn:E.
  - destruct e; try done.
    + exact (retain_step localeCompare s (ResourceUsed request) H).
    + exact (retain_step localeCompare s (ResourceRetained address) H).
    + exact (release_step localeCompare s (ResourceReleased i) H).
    + exact (retain_step localeCompare s (WindowRetained identity) H).
    + exact (release_step localeCompare s (WindowReleased i) H).
    + cbn [chatStep]. destruct (ch_tasks (sy_chat s) !! i) as [task|] eqn:Et; [|done].
      pose proof (task_ok s i task Et H) as Ht. cbn [withChat sy_chat].
      assert (Hq : ch_closed (runTask task (withoutTask i (sy_chat s))) = ch_closed (sy_chat s)
                   /\ ch_tasks (runTask task (withoutTask i (sy_chat s))) = delete i (ch_tasks (sy_chat s))).
      { destruct task as [scope|scope]; [|done]. cbn [runTask]. unfold evictReleasedWindow.
        match goal with |- context [if ?b then _ else _] => destruct b end; [done|].
        match goal with |- context [evictUnretainedWindows ?p ?c] => by destruct (unretained_quiet p c) as (-> & -> & _) end. }
      destruct Hq as [-> ->]. exact Ht.
    + by apply forget_ok.
    + by apply closeChat_ok.
  - destruct (quiet_step localeCompare s e E) as [Hq Hh]. by eapply interestOf_quiet.
Qed.

Lemma interest_run localeCompare events s :
  orderlyChat localeCompare s events = true -> identitiesOk (ch_windows (sy_chat s)) -> interestOf s ->
  interestOf (foldl (chatStep localeCompare) s events).
Proof.
  revert s. induction events as [|e events IH]; intros s Ho Hids H; [done|].
  cbn [orderlyChat] in Ho. apply andb_prop in Ho as [Hf Ho]. cbn [foldl]. apply IH; [done|by apply ids_step|by apply interest_step].
Qed.

Lemma new_identities : identitiesOk (ch_windows (sy_chat newSystem)).
Proof. by intros ?? ?%not_elem_of_nil. Qed.

Lemma new_interest : interestOf newSystem.
Proof. split; try done. split; [apply NoDup_nil_2|by intros ?? ?%not_elem_of_nil|done]. Qed.

(** C13. Whatever resources and windows are used, held, released and evicted, when
    a connection is only forgotten once nothing of it is held: the owner of the
    subscriptions is told of each thread in turns that it is wanted and that it
    is not, the last of which the model remembers; a thread that is held, or
    shown and not left, is always among the wanted; and once no eviction and no
    reconciliation is pending, only these are.  A closed model wants none. *)
Theorem interest_settles localeCompare events :
  orderlyChat localeCompare newSystem events = true ->
  let s := runChat localeCompare events in
  let c := sy_chat s in
  let i := ch_interest c in
  (forall scope, alternating true (toldOf scope (interestLog i))
     /\ mhas scope (interestScopes i) = Nat.odd (length (toldOf scope (interestLog i))))
  /\ (ch_closed c = false -> forall scope,
      let wanted := scope ∈ heldScopes s \/ residentResourceScope i = Some scope /\ dormantResidentScope i <> Some scope in
      (wanted -> mhas scope (interestScopes i) = true)
      /\ (ch_tasks c = [] -> mhas scope (interestScopes i) = true -> wanted))
  /\ (ch_closed c = true -> interestScopes i = []).
Proof.
  intros Ho s c i.
  assert (H : interestOf s) by exact (interest_run localeCompare events newSystem Ho new_identities new_interest).
  split_and!; [apply H| |apply H]. intros Hc scope wanted. fold c in H. rewrite Hc in H.
  assert (Hw : wanted <-> isInterested false scope i = true).
  { unfold isInterested. rewrite (ia_held _ _ _ _ H eq_refl), orb_true_iff, Nat.ltb_lt, andb_true_iff, negb_true_iff,
      bool_decide_eq_true, bool_decide_eq_false. pose proof (heldCount_zero scope (heldScopes s)) as Hz. unfold wanted.
    assert (Hh : scope ∈ heldScopes s <-> 0 < heldCount scope (heldScopes s)); [|by rewrite Hh].
    split; [|intros Hlt; apply dec_stable; rewrite <- Hz; lia].
    intros Hin. apply Nat.neq_0_lt_0. rewrite Hz. by intros ?. }
  rewrite Hw. split.
  - apply (ia_gain _ _ _ _ H).
  - intros Ht Hm. destruct (ia_loss _ _ _ _ H scope Hm) as [?|[Hp|Hp]]; [done|..]; fold c in Hp; rewrite Ht in Hp; by apply not_elem_of_nil in Hp.
Qed.

(** ** Two runs *)

Definition demo_request (thread : string) : ThreadChatWindowRequest :=
  {| cr_anchorTurnId := None; cr_connectionId := js "phone"; cr_threadId := js thread |}.

Definition demo_thread (thread : string) : ThreadIdentity := (js "phone", js thread).

(** Two threads are shown in turn, the second is held as well, and both are
    released; then all that is pending runs. *)
Definition demo_visit : list ChatEvent :=
  [ResourceUsed (demo_request "a"); ResourceRetained 0; ResourceUsed (demo_request "b"); TaskRun 0;
   WindowRetained (demo_thread "b"); ResourceReleased 0; TaskRun 0; WindowReleased 0; TaskRun 0].

Lemma interest_settles_witness :
  let s := runChat unitOrder demo_visit in
  let i := ch_interest (sy_chat s) in
  interestLog i = [(requestScope (demo_request "a"), true); (requestScope (demo_request "b"), true);
                   (requestScope (demo_request "a"), false); (requestScope (demo_request "b"), false)]
  /\ ch_tasks (sy_chat s) = []
  /\ forall scope, mhas scope (interestScopes i) = Nat.odd (length (toldOf scope (interestLog i))).
Proof.
  cbv zeta. split; [vm_compute; reflexivity|]. split; [vm_compute; reflexivity|].
  assert (Ho : orderlyChat unitOrder newSystem demo_visit = true) by (vm_compute; reflexivity).
  intros scope. exact (proj2 (proj1 (interest_settles unitOrder demo_visit Ho) scope)).
Defined.

(** A refresh outlives its window: the windows opened meanwhile evict it, it is
    opened again, and the end of the refresh clears the window that is gone.  The
    new one says that it is refreshing although nothing refreshes it. *)
Definition demo_refresh : list ChatEvent :=
  RefreshBegun (demo_thread "a")
  :: (WindowStarted ∘ demo_request <$> ["b"; "c"; "d"; "e"; "a"]%string) ++ [RefreshEnded 0].

Lemma evicted_refresh_never_ends :
  let w := ch_windows (sy_chat (runChat unitOrder demo_refresh)) in
  backendRefreshCounts w = []
  /\ exists address, mget (requestScope (demo_request "a")) (windowNodes w) = Some address
       /\ cw_backendRefreshing (peekWindow address w) = true.
Proof. split; [vm_compute; reflexivity|]. eexists. split; vm_compute; reflexivity. Qed.
