(* ===== verification/AudioUpload.v ===== *)
(** * The uploader of microphone audio

    Models apps/android/src/data/realtime-audio-uploader.ts: captured chunks are
    joined to batches of one second, and one batch at a time is sent.

    A request is [send(...).catch(...).finally(...)]: that it settles, with the
    handler of [catch], and that [finally] runs are two events, since anything may
    run between them.  Callers of [finish] and [cancel] are numbers; the ones that
    wait are in [drainWaiters].  Durations are doubles, computed as the code
    computes them with the operations of SpecFloat (binary64). *)
From Stdlib Require Import SpecFloat.
From S2P Require Import Prelude Json.

Local Open Scope Z_scope.

(** ** Chunks *)

Inductive AudioEncoding := PcmS16le | Opus.

#[export] Instance AudioEncoding_eq_dec : EqDecision AudioEncoding.
Proof. solve_decision. Defined.

Record RealtimeAudioChunk :=
  { ac_data : jstr; ac_encoding : option AudioEncoding; ac_numChannels : jnum; ac_sampleRate : jnum;
    ac_samplesPerChannel : jnum }.

Record RealtimeAudioFormat := { af_encoding : AudioEncoding; af_numChannels : jnum; af_sampleRate : jnum }.

#[export] Instance RealtimeAudioFormat_eq_dec : EqDecision RealtimeAudioFormat.
Proof. solve_decision. Defined.

Record QueuedBatch := { qb_byteLength : Z; qb_chunks : list RealtimeAudioChunk; qb_id : nat }.

(** A double, its sum, its quotient and the order. *)
Definition double (z : Z) : spec_float := binary_normalize 53 1024 z 0 false.
Definition addDouble (x y : spec_float) : spec_float := SFadd 53 1024 x y.
Definition reaches (limit x : spec_float) : bool := SFleb limit x.

(** [Number.isSafeInteger(n) && n > 0]. *)
Definition positiveSafe (n : jnum) : bool :=
  match n with NInt z => (0 <? z) && (z <=? max_safe_integer) | NDec _ => false end.

Definition positiveInteger (value : jnum) : option Z :=
  match value with NInt z => if positiveSafe value then Some z else None | NDec _ => None end.

Definition chunkDurationMs (chunk : RealtimeAudioChunk) : option spec_float :=
  if bool_decide (ac_data chunk = []) || negb (positiveSafe (ac_sampleRate chunk))
     || negb (positiveSafe (ac_numChannels chunk)) || negb (positiveSafe (ac_samplesPerChannel chunk))
  then None
  else match ac_samplesPerChannel chunk, ac_sampleRate chunk with
       | NInt samples, NInt rate => Some (SFdiv 53 1024 (SFmul 53 1024 (double samples) (double 1000)) (double rate))
       | _, _ => None
       end.

Definition decodedBase64ByteLength (value : jstr) : Z :=
  let padding := if endsWith (js "==") value then 2 else if endsWith (js "=") value then 1 else 0 in
  Z.max 0 (Z.of_nat (length value) * 3 / 4 - padding).

Definition formatOf (chunk : RealtimeAudioChunk) : RealtimeAudioFormat :=
  {| af_encoding := default PcmS16le (ac_encoding chunk); af_numChannels := ac_numChannels chunk;
     af_sampleRate := ac_sampleRate chunk |}.

(** ** The uploader *)

(** [au_sent]: the batches [send] was called with; [au_done]: those whose request
    has run its [finally]; [au_errors]: the calls of [onError]; [au_returned]: the
    callers whose [finish] or [cancel] has returned. *)
Record RealtimeAudioUploader :=
  { batchDurationMs : Z; maxBufferedBytes : Z; au_queue : list QueuedBatch;
    pendingChunks : list RealtimeAudioChunk; pendingBytes : Z; pendingDurationMs : spec_float; bufferedBytes : Z;
    inFlight : option (QueuedBatch * bool); nextBatchId : nat; accepting : bool; failed : bool; cancelled : bool;
    format : option RealtimeAudioFormat; drainWaiters : list nat; aborted : bool;
    au_sent : list QueuedBatch; au_done : list QueuedBatch; au_errors : list jstr; au_returned : list nat }.

Definition REALTIME_AUDIO_BATCH_DURATION_MS : Z := 1000.
Definition REALTIME_AUDIO_MAX_BUFFERED_BYTES : Z := 4 * 1024 * 1024.

(** The constructor; [None] where it throws. *)
Definition newUploader (duration capacity : option jnum) : option RealtimeAudioUploader :=
  duration ← positiveInteger (default (NInt REALTIME_AUDIO_BATCH_DURATION_MS) duration);
  capacity ← positiveInteger (default (NInt REALTIME_AUDIO_MAX_BUFFERED_BYTES) capacity);
  Some {| batchDurationMs := duration; maxBufferedBytes := capacity; au_queue := []; pendingChunks := [];
          pendingBytes := 0; pendingDurationMs := double 0; bufferedBytes := 0; inFlight := None; nextBatchId := 0;
          accepting := true; failed := false; cancelled := false; format := None; drainWaiters := [];
          aborted := false; au_sent := []; au_done := []; au_errors := []; au_returned := [] |}.

Definition withPending (chunks : list RealtimeAudioChunk) (bytes : Z) (duration : spec_float) (buffered : Z)
    (u : RealtimeAudioUploader) : RealtimeAudioUploader :=
  {| batchDurationMs := batchDurationMs u; maxBufferedBytes := maxBufferedBytes u; au_queue := au_queue u;
     pendingChunks := chunks; pendingBytes := bytes; pendingDurationMs := duration; bufferedBytes := buffered;
     inFlight := inFlight u; nextBatchId := nextBatchId u; accepting := accepting u; failed := failed u;
     cancelled := cancelled u; format := format u; drainWaiters := drainWaiters u; aborted := aborted u;
     au_sent := au_sent u; au_done := au_done u; au_errors := au_errors u; au_returned := au_returned u |}.

Definition withQueue (queue : list QueuedBatch) (buffered : Z) (next : nat) (u : RealtimeAudioUploader) : RealtimeAudioUploader :=
  {| batchDurationMs := batchDurationMs u; maxBufferedBytes := maxBufferedBytes u; au_queue := queue;
     pendingChunks := pendingChunks u; pendingBytes := pendingBytes u; pendingDurationMs := pendingDurationMs u;
     bufferedBytes := buffered; inFlight := inFlight u; nextBatchId := next; accepting := accepting u;
     failed := failed u; cancelled := cancelled u; format := format u; drainWaiters := drainWaiters u;
     aborted := aborted u; au_sent := au_sent u; au_done := au_done u; au_errors := au_errors u;
     au_returned := au_returned u |}.

Definition withFlight (flight : option (QueuedBatch * bool)) (sent finished : list QueuedBatch) (buffered : Z)
    (u : RealtimeAudioUploader) : RealtimeAudioUploader :=
  {| batchDurationMs := batchDurationMs u; maxBufferedBytes := maxBufferedBytes u; au_queue := au_queue u;
     pendingChunks := pendingChunks u; pendingBytes := pendingBytes u; pendingDurationMs := pendingDurationMs u;
     bufferedBytes := buffered; inFlight := flight; nextBatchId := nextBatchId u; accepting := accepting u;
     failed := failed u; cancelled := cancelled u; format := format u; drainWaiters := drainWaiters u;
     aborted := aborted u; au_sent := sent; au_done := finished; au_errors := au_errors u;
     au_returned := au_returned u |}.

Definition withWaiters (waiters returned : list nat) (u : RealtimeAudioUploader) : RealtimeAudioUploader :=
  {| batchDurationMs := batchDurationMs u; maxBufferedBytes := maxBufferedBytes u; au_queue := au_queue u;
     pendingChunks := pendingChunks u; pendingBytes := pendingBytes u; pendingDurationMs := pendingDurationMs u;
     bufferedBytes := bufferedBytes u; inFlight := inFlight u; nextBatchId := nextBatchId u; accepting := accepting u;
     failed := failed u; cancelled := cancelled u; format := format u; drainWaiters := waiters; aborted := aborted u;
     au_sent := au_sent u; au_done := au_done u; au_errors := au_errors u; au_returned := returned |}.

(** [#failed], [#cancelled], [#accepting] and the signal. *)
Definition withEnd (accept fail cancel abort : bool) (u : RealtimeAudioUploader) : RealtimeAudioUploader :=
  {| batchDurationMs := batchDurationMs u; maxBufferedBytes := maxBufferedBytes u; au_queue := au_queue u;
     pendingChunks := pendingChunks u; pendingBytes := pendingBytes u; pendingDurationMs := pendingDurationMs u;
     bufferedBytes := bufferedBytes u; inFlight := inFlight u; nextBatchId := nextBatchId u; accepting := accept;
     failed := fail; cancelled := cancel; format := format u; drainWaiters := drainWaiters u; aborted := abort;
     au_sent := au_sent u; au_done := au_done u; au_errors := au_errors u; au_returned := au_returned u |}.

Definition withFormat (chosen : option RealtimeAudioFormat) (errors : list jstr) (u : RealtimeAudioUploader) : RealtimeAudioUploader :=
  {| batchDurationMs := batchDurationMs u; maxBufferedBytes := maxBufferedBytes u; au_queue := au_queue u;
     pendingChunks := pendingChunks u; pendingBytes := pendingBytes u; pendingDurationMs := pendingDurationMs u;
     bufferedBytes := bufferedBytes u; inFlight := inFlight u; nextBatchId := nextBatchId u; accepting := accepting u;
     failed := failed u; cancelled := cancelled u; format := chosen; drainWaiters := drainWaiters u; aborted := aborted u;
     au_sent := au_sent u; au_done := au_done u; au_errors := errors; au_returned := au_returned u |}.

Definition idle (u : RealtimeAudioUploader) : bool := bool_decide (au_queue u = []) && negb (bool_decide (is_Some (inFlight u))).

Definition resolveDrainIfIdle (u : RealtimeAudioUploader) : RealtimeAudioUploader :=
  if idle u then withWaiters [] (au_returned u ++ drainWaiters u) u else u.

Definition waitForDrain (caller : nat) (u : RealtimeAudioUploader) : RealtimeAudioUploader :=
  if idle u then withWaiters (drainWaiters u) (au_returned u ++ [caller]) u
  else withWaiters (drainWaiters u ++ [caller]) (au_returned u) u.

Definition queuedBytes (queue : list QueuedBatch) : Z := foldr (fun entry bytes => qb_byteLength entry + bytes) 0 queue.

Definition discardQueued (u : RealtimeAudioUploader) : RealtimeAudioUploader :=
  resolveDrainIfIdle (withQueue [] (bufferedBytes u - queuedBytes (au_queue u)) (nextBatchId u) u).

Definition discardPending (u : RealtimeAudioUploader) : RealtimeAudioUploader :=
  withPending [] 0 (double 0) (bufferedBytes u - pendingBytes u) u.

(** [#pump]. *)
Definition pump (u : RealtimeAudioUploader) : RealtimeAudioUploader :=
  if failed u || cancelled u || bool_decide (is_Some (inFlight u)) then u
  else
    resolveDrainIfIdle
      match au_queue u with
      | [] => u
      | entry :: queue =>
          withFlight (Some (entry, false)) (au_sent u ++ [entry]) (au_done u) (bufferedBytes u)
            (withQueue queue (bufferedBytes u) (nextBatchId u) u)
      end.

(** [#fail]. *)
Definition fail (message : jstr) (u : RealtimeAudioUploader) : RealtimeAudioUploader :=
  if failed u then u
  else
    let u := discardQueued (discardPending (withEnd false true (cancelled u) true u)) in
    resolveDrainIfIdle (withFormat (format u) (au_errors u ++ [message]) u).

Definition flushPending (u : RealtimeAudioUploader) : RealtimeAudioUploader :=
  if bool_decide (pendingChunks u = []) then u
  else
    let batch := {| qb_byteLength := pendingBytes u; qb_chunks := pendingChunks u; qb_id := nextBatchId u |} in
    pump (withPending [] 0 (double 0) (bufferedBytes u)
            (withQueue (au_queue u ++ [batch]) (bufferedBytes u) (S (nextBatchId u)) u)).

Definition appendPending (chunk : RealtimeAudioChunk) (durationMs : spec_float) (byteLength : Z)
    (u : RealtimeAudioUploader) : RealtimeAudioUploader :=
  let u := withPending (pendingChunks u ++ [chunk]) (pendingBytes u + byteLength)
             (addDouble (pendingDurationMs u) durationMs) (bufferedBytes u + byteLength) u in
  if reaches (double (batchDurationMs u)) (pendingDurationMs u) then flushPending u else u.

(** [append], and whether the chunk was taken. *)
Definition append (chunk : RealtimeAudioChunk) (u : RealtimeAudioUploader) : RealtimeAudioUploader * bool :=
  if negb (accepting u) || failed u then (u, false)
  else
    match chunkDurationMs chunk with
    | None => (fail (js "Invalid microphone audio chunk") u, false)
    | Some durationMs =>
        let '(u, same) :=
          match format u with
          | None => (withFormat (Some (formatOf chunk)) (au_errors u) u, true)
          | Some known => (u, bool_decide (known = formatOf chunk))
          end in
        if negb same then (fail (js "Microphone audio format changed during recording") u, false)
        else
          let byteLength := decodedBase64ByteLength (ac_data chunk) in
          if maxBufferedBytes u <? bufferedBytes u + byteLength
          then (fail (js "Voice audio buffer capacity exceeded") u, false)
          else (appendPending chunk durationMs byteLength u, true)
    end.

(** [finish] and [cancel] until they wait. *)
Definition finish (caller : nat) (u : RealtimeAudioUploader) : RealtimeAudioUploader :=
  let u := withEnd false (failed u) (cancelled u) (aborted u) u in
  if failed u || negb (bool_decide (is_Some (format u))) then withWaiters (drainWaiters u) (au_returned u ++ [caller]) u
  else waitForDrain caller (flushPending u).

Definition cancel (caller : nat) (u : RealtimeAudioUploader) : RealtimeAudioUploader :=
  waitForDrain caller (discardQueued (discardPending (withEnd false (failed u) true true u))).

(** The request in flight settles; a rejection runs the handler of [catch]. *)
Definition settle (rejection : option (option jstr)) (u : RealtimeAudioUploader) : RealtimeAudioUploader :=
  match inFlight u with
  | Some (entry, false) =>
      let u := withFlight (Some (entry, true)) (au_sent u) (au_done u) (bufferedBytes u) u in
      match rejection with
      | None => u
      | Some message => if cancelled u then u else fail (default (js "Audio upload failed") message) u
      end
  | _ => u
  end.

(** The handler of [finally]. *)
Definition requestFinally (u : RealtimeAudioUploader) : RealtimeAudioUploader :=
  match inFlight u with
  | Some (entry, true) =>
      resolveDrainIfIdle (pump (withFlight None (au_sent u) (au_done u ++ [entry]) (bufferedBytes u - qb_byteLength entry) u))
  | _ => u
  end.

(** ** Runs *)

Inductive AudioEvent :=
| AudioAppended (chunk : RealtimeAudioChunk) | FinishCalled (caller : nat) | CancelCalled (caller : nat)
| SendSettled (rejection : option (option jstr)) | SendFinally.

(** The uploader, the chunks it took, and the callers so far. *)
Record AudioRun := { ar_uploader : RealtimeAudioUploader; ar_taken : list RealtimeAudioChunk; ar_callers : list nat }.

Definition audioStep (r : AudioRun) (e : AudioEvent) : AudioRun :=
  let u := ar_uploader r in
  match e with
  | AudioAppended chunk =>
      let '(u, taken) := append chunk u in
      {| ar_uploader := u; ar_taken := ar_taken r ++ (if taken : bool then [chunk] else []); ar_callers := ar_callers r |}
  | FinishCalled caller => {| ar_uploader := finish caller u; ar_taken := ar_taken r; ar_callers := ar_callers r ++ [caller] |}
  | CancelCalled caller => {| ar_uploader := cancel caller u; ar_taken := ar_taken r; ar_callers := ar_callers r ++ [caller] |}
  | SendSettled rejection => {| ar_uploader := settle rejection u; ar_taken := ar_taken r; ar_callers := ar_callers r |}
  | SendFinally => {| ar_uploader := requestFinally u; ar_taken := ar_taken r; ar_callers := ar_callers r |}
  end.

Definition runAudio (u : RealtimeAudioUploader) (events : list AudioEvent) : AudioRun :=
  foldl audioStep {| ar_uploader := u; ar_taken := []; ar_callers := [] |} events.

(** The chunks of batches, in order. *)
Definition chunksOf (batches : list QueuedBatch) : list RealtimeAudioChunk := flat_map qb_chunks batches.

Definition healthy (u : RealtimeAudioUploader) : bool := negb (failed u) && negb (cancelled u).

Definition flying (u : RealtimeAudioUploader) : list QueuedBatch :=
  match inFlight u with Some (entry, _) => [entry] | None => [] end.

Definition chunkBytes (chunks : list RealtimeAudioChunk) : Z :=
  foldr (fun chunk bytes => decodedBase64ByteLength (ac_data chunk) + bytes) 0 chunks.

(** The duration of chunks, summed as they come. *)
Definition totalDuration (chunks : list RealtimeAudioChunk) : spec_float :=
  foldl (fun total chunk => addDouble total (default (double 0) (chunkDurationMs chunk))) (double 0) chunks.

(** No chunk before the last fills the batch. *)
Definition unfilled (limit : Z) (chunks : list RealtimeAudioChunk) : Prop :=
  forall n, (0 < n < length chunks)%nat -> reaches (double limit) (totalDuration (take n chunks)) = false.

Definition filled (limit : Z) (chunks : list RealtimeAudioChunk) : Prop := reaches (double limit) (totalDuration chunks) = true.
