(* ===== verification/AudioLaws.v ===== *)
(** * Laws of the audio uploader

    What [AudioUpload] keeps over every run: speech is sent in order and within
    the capacity, batches are full, and who finishes waits for all of it. *)
From Stdlib Require Import SpecFloat.
From S2P Require Import Prelude Json AudioUpload.

Local Open Scope Z_scope.

(** ** The invariant *)

Record uploaderOk (taken : list RealtimeAudioChunk) (u : RealtimeAudioUploader) : Prop :=
  { uo_sent : au_sent u = au_done u ++ flying u;
    uo_ids : qb_id <$> au_sent u ++ au_queue u = seq 0 (length (au_sent u ++ au_queue u));
    uo_next : healthy u = true -> nextBatchId u = length (au_sent u ++ au_queue u);
    uo_prefix : chunksOf (au_sent u) `prefix_of` taken;
    uo_taken : healthy u = true -> chunksOf (au_sent u ++ au_queue u) ++ pendingChunks u = taken;
    uo_stopped : healthy u = false -> au_queue u = [] /\ pendingChunks u = [] /\ accepting u = false;
    uo_bytes : bufferedBytes u = pendingBytes u + queuedBytes (au_queue u) + queuedBytes (flying u);
    uo_pending : pendingBytes u = chunkBytes (pendingChunks u);
    uo_batches : Forall (fun b => qb_byteLength b = chunkBytes (qb_chunks b)) (au_sent u ++ au_queue u);
    uo_capacity : 0 <= bufferedBytes u <= maxBufferedBytes u }.

(** The batches are full, and none longer than needed. *)
Record batchesFull (u : RealtimeAudioUploader) : Prop :=
  { bf_pending : pendingDurationMs u = totalDuration (pendingChunks u);
    bf_short : forall n, (0 < n <= length (pendingChunks u))%nat -> reaches (double (batchDurationMs u)) (totalDuration (take n (pendingChunks u))) = false;
    bf_unfilled : Forall (fun b => qb_chunks b <> [] /\ unfilled (batchDurationMs u) (qb_chunks b)) (au_sent u ++ au_queue u);
    bf_filled : forall bs cs, au_sent u ++ au_queue u = bs ++ cs -> cs <> [] -> Forall (fun b => filled (batchDurationMs u) (qb_chunks b)) bs;
    bf_open : accepting u = true \/ pendingChunks u <> [] ->
      Forall (fun b => filled (batchDurationMs u) (qb_chunks b)) (au_sent u ++ au_queue u) }.

(** Nobody waits for nothing, and who has returned left nothing behind. *)
Record waitersOk (callers : list nat) (u : RealtimeAudioUploader) : Prop :=
  { wo_callers : au_returned u ++ drainWaiters u ≡ₚ callers;
    wo_waiting : inFlight u = None -> drainWaiters u = [];
    wo_pumped : inFlight u = None -> au_queue u = [];
    wo_closed : callers <> [] -> accepting u = false;
    wo_flushed : accepting u = false -> pendingChunks u = [];
    wo_returned : au_returned u <> [] -> inFlight u = None \/ healthy u = false;
    wo_format : format u = None -> healthy u = true -> au_sent u ++ au_queue u = [] /\ pendingChunks u = [] }.

(** ** Bytes and order *)

Lemma bytes_nonneg value : 0 <= decodedBase64ByteLength value.
Proof. unfold decodedBase64ByteLength. lia. Qed.

Lemma chunkBytes_nonneg chunks : 0 <= chunkBytes chunks.
Proof.
  induction chunks as [|chunk chunks IH]; [done|]. pose proof (bytes_nonneg (ac_data chunk)). cbn [chunkBytes foldr] in *.
  unfold chunkBytes in IH. lia.
Qed.

Lemma chunkBytes_snoc chunks chunk : chunkBytes (chunks ++ [chunk]) = chunkBytes chunks + decodedBase64ByteLength (ac_data chunk).
Proof. unfold chunkBytes. induction chunks as [|c chunks IH]; cbn [app foldr]; lia. Qed.

Lemma queuedBytes_app xs ys : queuedBytes (xs ++ ys) = queuedBytes xs + queuedBytes ys.
Proof. unfold queuedBytes. induction xs as [|x xs IH]; cbn [app foldr]; lia. Qed.

Lemma queuedBytes_nonneg batches : Forall (fun b => qb_byteLength b = chunkBytes (qb_chunks b)) batches -> 0 <= queuedBytes batches.
Proof.
  induction 1 as [|b batches Hb _ IH]; [done|]. cbn. pose proof (chunkBytes_nonneg (qb_chunks b)). fold (queuedBytes batches). lia.
Qed.

Lemma ids_prefix (xs ys : list QueuedBatch) : qb_id <$> xs ++ ys = seq 0 (length (xs ++ ys)) -> qb_id <$> xs = seq 0 (length xs).
Proof.
  intros H. apply (f_equal (take (length xs))) in H. rewrite fmap_app, length_app in H.
  rewrite take_app_le in H by (by rewrite length_fmap). rewrite take_ge in H by (by rewrite length_fmap).
  rewrite H, take_seq. f_equal. lia.
Qed.

Lemma chunksOf_app xs ys : chunksOf (xs ++ ys) = chunksOf xs ++ chunksOf ys.
Proof. apply flat_map_app. Qed.

Lemma uploaderOk_waiters taken waiters returned u : uploaderOk taken u -> uploaderOk taken (withWaiters waiters returned u).
Proof. by destruct 1. Qed.

Lemma uploaderOk_resolve taken u : uploaderOk taken u -> uploaderOk taken (resolveDrainIfIdle u).
Proof. unfold resolveDrainIfIdle. destruct (idle u); [|done]. apply uploaderOk_waiters. Qed.

Lemma uploaderOk_wait taken caller u : uploaderOk taken u -> uploaderOk taken (waitForDrain caller u).
Proof. unfold waitForDrain. destruct (idle u); apply uploaderOk_waiters. Qed.

Lemma uploaderOk_pump taken u : uploaderOk taken u -> uploaderOk taken (pump u).
Proof.
  intros H. unfold pump. destruct (failed u || cancelled u || bool_decide (is_Some (inFlight u))) eqn:E; [done|].
  apply uploaderOk_resolve. destruct (au_queue u) as [|entry queue] eqn:Eq; [done|].
  apply orb_false_iff in E as [[Ef Ec]%orb_false_iff Ei]. apply bool_decide_eq_false in Ei.
  assert (Hn : inFlight u = None) by (destruct (inFlight u) as [f|]; [by exfalso; apply Ei; exists f|done]).
  assert (Hh : healthy u = true) by (unfold healthy; by rewrite Ef, Ec).
  destruct H as [H1 H2 H3 H4 H5 H6 H7 H8 H9 H10].
  rewrite Eq in *. unfold flying in H1, H7. rewrite Hn in H1, H7. rewrite app_nil_r in H1.
  assert (Happ : au_sent u ++ entry :: queue = (au_sent u ++ [entry]) ++ queue) by (by rewrite <- app_assoc).
  split; unfold flying; cbn [withFlight withQueue au_sent au_done au_queue inFlight nextBatchId pendingChunks pendingBytes
    bufferedBytes accepting maxBufferedBytes]; rewrite <- ?Happ; try done.
  - by rewrite H1.
  - rewrite chunksOf_app. specialize (H5 Hh). rewrite chunksOf_app in H5. cbn in H5. rewrite <- H5.
    cbn. rewrite app_nil_r, !app_assoc. rewrite <- (app_assoc _ _ (pendingChunks u)). by eexists.
  - intros Hh'. exfalso. change (healthy u = false) in Hh'. congruence.
  - rewrite H7. cbn. fold (queuedBytes queue). lia.
Qed.

Lemma uploaderOk_flush taken u : uploaderOk taken u -> uploaderOk taken (flushPending u).
Proof.
  intros H. unfold flushPending. case_bool_decide as Hp; [done|]. apply uploaderOk_pump.
  destruct H as [H1 H2 H3 H4 H5 H6 H7 H8 H9 H10].
  assert (Hh : healthy u = true) by (destruct (healthy u) eqn:E; [done|by destruct (H6 eq_refl) as (_ & ? & _)]).
  set (batch := {| qb_byteLength := pendingBytes u; qb_chunks := pendingChunks u; qb_id := nextBatchId u |}).
  split; unfold flying; cbn [withPending withQueue au_sent au_done au_queue inFlight nextBatchId pendingChunks pendingBytes
    bufferedBytes accepting maxBufferedBytes]; rewrite ?app_assoc; try done.
  - rewrite fmap_app, H2, (length_app _ [batch]), seq_app. cbn. by rewrite H3.
  - intros _. rewrite H3, !length_app by done. cbn. lia.
  - intros _. rewrite app_nil_r, chunksOf_app. cbn. rewrite app_nil_r. by apply H5.
  - intros Hh'. exfalso. change (healthy u = false) in Hh'. congruence.
  - rewrite queuedBytes_app, H7. cbn. change (queuedBytes match inFlight u with Some (e, _) => [e] | None => [] end) with (queuedBytes (flying u)). lia.
  - apply Forall_app. split; [done|]. by constructor.
Qed.

(** Everything that was not sent is given up. *)
Lemma uploaderOk_discard taken u v :
  uploaderOk taken u -> healthy v = false -> accepting v = false -> maxBufferedBytes v = maxBufferedBytes u ->
  au_queue v = [] -> pendingChunks v = [] -> pendingBytes v = 0 -> inFlight v = inFlight u -> au_sent v = au_sent u ->
  au_done v = au_done u -> bufferedBytes v = bufferedBytes u - pendingBytes u - queuedBytes (au_queue u) ->
  uploaderOk taken v.
Proof.
  intros [H1 H2 H3 H4 H5 H6 H7 H8 H9 H10] Hh Ha Hm Hq Hp Hpb Hi Hs Hd Hb.
  assert (Hf : flying v = flying u) by (unfold flying; by rewrite Hi).
  apply Forall_app in H9 as [H9 H9']. rewrite H1 in H9. apply Forall_app in H9 as [H9d H9f].
  pose proof (queuedBytes_nonneg _ H9f). pose proof (queuedBytes_nonneg _ H9'). pose proof (chunkBytes_nonneg (pendingChunks u)).
  split; rewrite ?Hf, ?Hm, ?Hq, ?Hp, ?Hpb, ?Hs, ?Hd, ?Hb, ?app_nil_r; try done; try congruence.
  - by eapply ids_prefix.
  - cbn. lia.
  - rewrite H1. by apply Forall_app.
  - lia.
Qed.

Lemma resolve_fields u : let v := resolveDrainIfIdle u in
  failed v = failed u /\ cancelled v = cancelled u /\ accepting v = accepting u /\ maxBufferedBytes v = maxBufferedBytes u
  /\ au_queue v = au_queue u /\ pendingChunks v = pendingChunks u /\ pendingBytes v = pendingBytes u
  /\ inFlight v = inFlight u /\ au_sent v = au_sent u /\ au_done v = au_done u /\ bufferedBytes v = bufferedBytes u.
Proof. cbn zeta. unfold resolveDrainIfIdle. by destruct (idle u). Qed.

Lemma fail_fields message u : failed u = false -> let v := fail message u in
  failed v = true /\ cancelled v = cancelled u /\ accepting v = false /\ maxBufferedBytes v = maxBufferedBytes u
  /\ batchDurationMs v = batchDurationMs u /\ format v = format u
  /\ au_queue v = [] /\ pendingChunks v = [] /\ pendingBytes v = 0
  /\ pendingDurationMs v = double 0
  /\ inFlight v = inFlight u /\ au_sent v = au_sent u /\ au_done v = au_done u
  /\ bufferedBytes v = bufferedBytes u - pendingBytes u - queuedBytes (au_queue u)
  /\ au_returned v ++ drainWaiters v = au_returned u ++ drainWaiters u
  /\ (inFlight u = None -> drainWaiters v = []).
Proof.
  intros Hf. cbn zeta. unfold fail. rewrite Hf. unfold discardQueued, discardPending, resolveDrainIfIdle, idle.
  cbn. destruct (bool_decide (is_Some (inFlight u))) eqn:E; cbn; rewrite ?E; cbn; split_and!; rewrite ?app_nil_r; try done. intros Hn. by rewrite Hn in E.
Qed.

Lemma discard_fields u : let v := discardQueued (discardPending u) in
  failed v = failed u /\ cancelled v = cancelled u /\ accepting v = accepting u /\ maxBufferedBytes v = maxBufferedBytes u
  /\ batchDurationMs v = batchDurationMs u /\ format v = format u
  /\ au_queue v = [] /\ pendingChunks v = [] /\ pendingBytes v = 0
  /\ pendingDurationMs v = double 0
  /\ inFlight v = inFlight u /\ au_sent v = au_sent u /\ au_done v = au_done u
  /\ bufferedBytes v = bufferedBytes u - pendingBytes u - queuedBytes (au_queue u)
  /\ au_returned v ++ drainWaiters v = au_returned u ++ drainWaiters u
  /\ (inFlight u = None -> drainWaiters v = []).
Proof.
  cbn zeta. unfold discardQueued, discardPending, resolveDrainIfIdle, idle. cbn.
  destruct (bool_decide (is_Some (inFlight u))) eqn:E; cbn; rewrite ?E; cbn; split_and!; rewrite ?app_nil_r; try done. intros Hn. by rewrite Hn in E.
Qed.

Lemma uploaderOk_fail taken message u : uploaderOk taken u -> uploaderOk taken (fail message u).
Proof.
  intros H. destruct (failed u) eqn:E; [by unfold fail; rewrite E|].
  destruct (fail_fields message u E) as (F1 & F2 & F3 & F4 & _ & _ & F5 & F6 & F7 & _ & F8 & F9 & F10 & F11 & _).
  apply (uploaderOk_discard taken u); try done. unfold healthy. by rewrite F1.
Qed.

Lemma uploaderOk_cancel taken caller u : uploaderOk taken u -> uploaderOk taken (cancel caller u).
Proof.
  intros H. unfold cancel. apply uploaderOk_wait. set (u1 := withEnd false (failed u) true true u).
  destruct (discard_fields u1) as (F1 & F2 & F3 & F4 & _ & _ & F5 & F6 & F7 & _ & F8 & F9 & F10 & F11 & _).
  apply (uploaderOk_discard taken u); try done. unfold healthy. rewrite F2. cbn. by rewrite andb_false_r.
Qed.

Lemma uploaderOk_pending taken chunk duration u :
  uploaderOk taken u -> accepting u = true -> healthy u = true ->
  bufferedBytes u + decodedBase64ByteLength (ac_data chunk) <= maxBufferedBytes u ->
  uploaderOk (taken ++ [chunk]) (appendPending chunk duration (decodedBase64ByteLength (ac_data chunk)) u).
Proof.
  intros [H1 H2 H3 H4 H5 H6 H7 H8 H9 H10] Ha Hh Hle. unfold appendPending.
  set (u1 := withPending _ _ _ _ u). pose proof (bytes_nonneg (ac_data chunk)).
  assert (H1' : uploaderOk (taken ++ [chunk]) u1).
  { unfold u1. split; cbn [withPending au_sent au_done au_queue inFlight nextBatchId pendingChunks pendingBytes
      bufferedBytes accepting maxBufferedBytes]; try done.
    - by apply prefix_app_r.
    - intros _. by rewrite app_assoc, H5.
    - intros Hh'. exfalso. change (healthy u = false) in Hh'. congruence.
    - rewrite H7. change (flying (withPending _ _ _ _ u)) with (flying u). lia.
    - by rewrite chunkBytes_snoc, H8.
    - lia. }
  destruct (reaches _ _); [by apply uploaderOk_flush|done].
Qed.

Lemma uploaderOk_append taken chunk u : uploaderOk taken u ->
  uploaderOk (taken ++ if (append chunk u).2 then [chunk] else []) (append chunk u).1.
Proof.
  intros H. unfold append. destruct (negb (accepting u) || failed u) eqn:E; cbn; [by rewrite app_nil_r|].
  apply orb_false_iff in E as [Ha%negb_false_iff Hf].
  assert (Hh : healthy u = true).
  { destruct (healthy u) eqn:Eh; [done|]. destruct H. destruct uo_stopped0 as (_ & _ & ?); congruence. }
  destruct (chunkDurationMs chunk) as [duration|]; cbn; [|rewrite app_nil_r; by apply uploaderOk_fail].
  set (u1 := withFormat (Some (formatOf chunk)) (au_errors u) u).
  assert (Hu1 : uploaderOk taken u1) by (by destruct H).
  set (p := match format u with None => (u1, true) | Some known => (u, bool_decide (known = formatOf chunk)) end).
  assert (Hp : uploaderOk taken p.1 /\ accepting p.1 = true /\ healthy p.1 = true) by (unfold p; by destruct (format u)).
  destruct p as [u2 same]. cbn in Hp. destruct Hp as (Hp & Hpa & Hph).
  destruct same; cbn; [|rewrite app_nil_r; by apply uploaderOk_fail].
  destruct (maxBufferedBytes u2 <? bufferedBytes u2 + decodedBase64ByteLength (ac_data chunk)) eqn:Ec; cbn.
  - rewrite app_nil_r. by apply uploaderOk_fail.
  - apply uploaderOk_pending; try done. by apply Z.ltb_ge.
Qed.

Lemma uploaderOk_finish taken caller u : uploaderOk taken u -> uploaderOk taken (finish caller u).
Proof.
  intros H. unfold finish. set (u1 := withEnd false (failed u) (cancelled u) (aborted u) u).
  assert (H1 : uploaderOk taken u1).
  { destruct H. split; try done. intros Hh. by destruct uo_stopped0 as (? & ? & _). }
  destruct (failed u1 || _); [by apply uploaderOk_waiters|]. by apply uploaderOk_wait, uploaderOk_flush.
Qed.

Lemma uploaderOk_settle taken rejection u : uploaderOk taken u -> uploaderOk taken (settle rejection u).
Proof.
  intros H. unfold settle. destruct (inFlight u) as [[entry []]|] eqn:E; [done| |done].
  set (u1 := withFlight _ _ _ _ u).
  assert (H1 : uploaderOk taken u1).
  { destruct H. split; try done; unfold flying in *; cbn; rewrite E in *; done. }
  destruct rejection as [message|]; [|done]. destruct (cancelled u1); [done|]. by apply uploaderOk_fail.
Qed.

Lemma uploaderOk_finally taken u : uploaderOk taken u -> uploaderOk taken (requestFinally u).
Proof.
  intros H. unfold requestFinally. destruct (inFlight u) as [[entry []]|] eqn:E; [|done..].
  apply uploaderOk_resolve, uploaderOk_pump. destruct H as [H1 H2 H3 H4 H5 H6 H7 H8 H9 H10].
  unfold flying in H1, H7. rewrite E in H1, H7. cbn in H7.
  apply Forall_app in H9 as H9'. destruct H9' as [H9s H9q]. rewrite H1 in H9s. apply Forall_app in H9s as [_ H9e].
  apply Forall_cons in H9e as [He _]. pose proof (chunkBytes_nonneg (qb_chunks entry)).
  pose proof (queuedBytes_nonneg _ H9q). pose proof (chunkBytes_nonneg (pendingChunks u)).
  split; unfold flying; cbn [withFlight au_sent au_done au_queue inFlight nextBatchId pendingChunks pendingBytes
    bufferedBytes accepting maxBufferedBytes]; try done.
  - by rewrite app_nil_r.
  - cbn. lia.
  - lia.
Qed.

(** ** Full batches *)

Lemma full_ext u v :
  batchesFull u -> pendingDurationMs v = pendingDurationMs u -> pendingChunks v = pendingChunks u ->
  batchDurationMs v = batchDurationMs u -> au_sent v ++ au_queue v = au_sent u ++ au_queue u ->
  (accepting v = true -> accepting u = true) -> batchesFull v.
Proof.
  intros [H1 H2 H3 H4 H5] E1 E2 E3 E4 Ha. split; rewrite ?E1, ?E2, ?E3, ?E4; try done. intros [?|?]; apply H5; auto.
Qed.

(** What is left when the rest is given up. *)
Lemma full_discard u v :
  batchesFull u -> pendingDurationMs v = double 0 -> pendingChunks v = [] -> batchDurationMs v = batchDurationMs u ->
  au_queue v = [] -> au_sent v = au_sent u -> accepting v = false -> batchesFull v.
Proof.
  intros [H1 H2 H3 H4 H5] E1 E2 E3 E4 E5 Ha. split; rewrite ?E1, ?E2, ?E3, ?E4, ?E5, ?app_nil_r.
  - done.
  - cbn. lia.
  - by apply Forall_app in H3 as [? _].
  - intros bs cs Hs Hc. apply (H4 bs (cs ++ au_queue u)).
    + by rewrite Hs, <- app_assoc.
    + by destruct cs.
  - rewrite Ha. by intros [?|?].
Qed.

Lemma pump_fields u : let v := pump u in
  failed v = failed u /\ cancelled v = cancelled u /\ accepting v = accepting u /\ batchDurationMs v = batchDurationMs u
  /\ format v = format u /\ pendingChunks v = pendingChunks u /\ pendingDurationMs v = pendingDurationMs u
  /\ au_sent v ++ au_queue v = au_sent u ++ au_queue u
  /\ au_returned v ++ drainWaiters v = au_returned u ++ drainWaiters u
  /\ (healthy u = true -> inFlight v = None -> au_queue v = [] /\ drainWaiters v = [] \/ v = u /\ is_Some (inFlight u))
  /\ (au_returned v <> [] -> au_returned u <> [] \/ inFlight v = None).
Proof.
  cbn zeta. unfold pump, healthy. destruct (failed u) eqn:Ef; [split_and!; cbn; auto; done|].
  destruct (cancelled u) eqn:Ec; [split_and!; cbn; auto; done|].
  destruct (inFlight u) as [f|] eqn:Ei; cbn [orb].
  { rewrite bool_decide_true by done. split_and!; auto; by intros _ [=]. }
  rewrite bool_decide_false by (by intros [? [=]]). unfold resolveDrainIfIdle, idle.
  destruct (au_queue u) as [|entry queue] eqn:Eq.
  - rewrite Eq, Ei. cbn. split_and!; rewrite ?app_nil_r; auto. by rewrite Eq, app_nil_r.
  - cbn. rewrite andb_false_r. cbn. split_and!; auto; try done; by rewrite <- app_assoc.
Qed.

Lemma full_pump u : batchesFull u -> batchesFull (pump u).
Proof.
  intros H. destruct (pump_fields u) as (_ & _ & F3 & F4 & _ & F6 & F7 & F8 & _). apply (full_ext u); try done. by rewrite F3.
Qed.

Lemma full_resolve u : batchesFull u -> batchesFull (resolveDrainIfIdle u).
Proof. intros H. unfold resolveDrainIfIdle. destruct (idle u); [by apply (full_ext u)|done]. Qed.

Lemma full_wait caller u : batchesFull u -> batchesFull (waitForDrain caller u).
Proof. intros H. unfold waitForDrain. destruct (idle u); by apply (full_ext u). Qed.

(** The pending chunks become a batch. *)
Lemma full_flush u :
  pendingDurationMs u = totalDuration (pendingChunks u) -> unfilled (batchDurationMs u) (pendingChunks u) ->
  Forall (fun b => qb_chunks b <> [] /\ unfilled (batchDurationMs u) (qb_chunks b)) (au_sent u ++ au_queue u) ->
  (pendingChunks u <> [] -> Forall (fun b => filled (batchDurationMs u) (qb_chunks b)) (au_sent u ++ au_queue u)) ->
  (accepting u = true -> filled (batchDurationMs u) (pendingChunks u)) ->
  (pendingChunks u = [] -> batchesFull u) -> batchesFull (flushPending u).
Proof.
  intros H1 H2 H3 H4 H5 H6. unfold flushPending. case_bool_decide as Hp; [by apply H6|]. apply full_pump.
  specialize (H4 Hp). split; cbn [withPending withQueue au_sent au_queue pendingChunks pendingDurationMs batchDurationMs accepting];
    rewrite ?app_assoc.
  - done.
  - cbn. lia.
  - apply Forall_app. split; [done|]. by constructor.
  - intros bs cs Hs Hc. destruct cs as [|c cs _] using rev_ind; [done|]. rewrite app_assoc in Hs.
    apply app_inj_tail in Hs as [Hs _]. rewrite Hs in H4. by apply Forall_app in H4 as [? _].
  - intros [Ha|Ha]; [|done]. apply Forall_app. split; [done|]. constructor; [by apply H5|constructor].
Qed.

Lemma totalDuration_snoc chunks chunk :
  totalDuration (chunks ++ [chunk]) = addDouble (totalDuration chunks) (default (double 0) (chunkDurationMs chunk)).
Proof. unfold totalDuration. by rewrite foldl_app. Qed.

Lemma full_append chunk u : batchesFull u -> batchesFull (append chunk u).1.
Proof.
  assert (Hfail : forall message v, batchesFull v -> batchesFull (fail message v)).
  { intros message v Hv. destruct (failed v) eqn:E; [by unfold fail; rewrite E|].
    destruct (fail_fields message v E) as (_ & _ & F3 & _ & F5 & _ & F7 & F8 & _ & F10 & _ & F12 & _). by apply (full_discard v). }
  intros H. unfold append. destruct (negb (accepting u) || failed u) eqn:E; [done|].
  apply orb_false_iff in E as [Ha%negb_false_iff _].
  destruct (chunkDurationMs chunk) as [duration|] eqn:Ed; [|by apply Hfail].
  set (u1 := withFormat (Some (formatOf chunk)) (au_errors u) u).
  set (p := match format u with None => (u1, true) | Some known => (u, bool_decide (known = formatOf chunk)) end).
  assert (Hp : batchesFull p.1 /\ accepting p.1 = true).
  { unfold p. destruct (format u); [done|]. split; [by apply (full_ext u)|done]. }
  destruct p as [u2 same]. cbn in Hp. destruct Hp as (Hp & Hpa). clear dependent u.
  destruct same; [|by apply Hfail].
  destruct (maxBufferedBytes u2 <? _); [by apply Hfail|]. cbn. unfold appendPending.
  set (u3 := withPending _ _ _ _ u2). destruct Hp as [H1 H2 H3 H4 H5].
  assert (Hd : pendingDurationMs u3 = totalDuration (pendingChunks u3)).
  { cbn. by rewrite totalDuration_snoc, Ed, H1. }
  assert (Hshort : forall n, (0 < n <= length (pendingChunks u2))%nat ->
    reaches (double (batchDurationMs u3)) (totalDuration (take n (pendingChunks u3))) = false).
  { intros n Hn. cbn. rewrite take_app_le by lia. by apply H2. }
  destruct (reaches (double (batchDurationMs u3)) (pendingDurationMs u3)) eqn:Er.
  - apply full_flush; try done.
    + intros n Hn. cbn in Hn. rewrite length_app in Hn. cbn in Hn. apply Hshort. lia.
    + intros _. apply H5. by left.
    + intros _. unfold filled. by rewrite <- Hd.
    + cbn. intros Hnil. by apply app_eq_nil in Hnil as [_ [=]].
  - split; try done.
    + intros n Hn. cbn in Hn. rewrite length_app in Hn. cbn in Hn.
      destruct (decide (n <= length (pendingChunks u2))%nat); [apply Hshort; lia|].
      rewrite take_ge by (cbn; rewrite length_app; cbn; lia). by rewrite <- Hd.
    + intros _. apply H5. by left.
Qed.

Lemma full_step r e :
  batchesFull (ar_uploader r) -> batchesFull (ar_uploader (audioStep r e)).
Proof.
  intros H. destruct e; cbn [audioStep].
  - pose proof (full_append chunk _ H). by destruct (append _ _).
  - unfold finish. set (u := ar_uploader r) in *. set (u1 := withEnd false _ _ _ u).
    assert (H1 : batchesFull u1) by (by apply (full_ext u)).
    cbn. destruct (failed u || _); [by apply (full_ext u1)|]. apply full_wait. pose proof H1 as [B1 B2 B3 B4 B5].
    apply full_flush; try done; [|by intros ?; apply B5; right]. intros n Hn. apply B2. lia.
  - unfold cancel. cbn. apply full_wait. set (u1 := withEnd false _ _ _ _).
    destruct (discard_fields u1) as (_ & _ & F3 & _ & F5 & _ & F7 & F8 & _ & F10 & _ & F12 & _).
    by apply (full_discard (ar_uploader r)).
  - unfold settle. cbn. set (u := ar_uploader r) in *. destruct (inFlight u) as [[entry []]|]; [done| |done].
    set (u1 := withFlight _ _ _ _ u). assert (H1 : batchesFull u1) by (by apply (full_ext u)).
    destruct rejection as [message|]; [|done]. destruct (cancelled u); [done|].
    destruct (failed u1) eqn:E; [by unfold fail; rewrite E|]. set (m := default _ message).
    destruct (fail_fields m u1 E) as (_ & _ & F3 & _ & F5 & _ & F7 & F8 & _ & F10 & _ & F12 & _). by apply (full_discard u1).
  - unfold requestFinally. cbn. set (u := ar_uploader r) in *. destruct (inFlight u) as [[entry []]|]; [|done..].
    apply full_resolve, full_pump. by apply (full_ext u).
Qed.

(** ** Callers *)

Lemma notSome {A} (x : option A) : bool_decide (is_Some x) = false <-> x = None.
Proof. rewrite bool_decide_eq_false. destruct x; split; try done. intros H. exfalso. by apply H. Qed.

Lemma wait_ok callers caller u :
  waitersOk callers u -> accepting u = false -> waitersOk (callers ++ [caller]) (waitForDrain caller u).
Proof.
  intros [H1 H2 H3 H4 H5 H6 H7] Ha. unfold waitForDrain. destruct (idle u) eqn:E.
  - apply andb_prop in E as [_ E]. apply negb_true_iff, notSome in E.
    split; cbn [withWaiters au_returned drainWaiters inFlight au_queue accepting pendingChunks format au_sent]; try done; auto.
    rewrite <- H1, (H2 E), !app_nil_r. done.
  - assert (Hs : inFlight u <> None).
    { intros Hn. unfold idle in E. rewrite (H3 Hn), Hn in E. done. }
    split; cbn [withWaiters au_returned drainWaiters inFlight au_queue accepting pendingChunks format au_sent]; try done; auto.
    by rewrite app_assoc, H1.
Qed.

Lemma flush_fields u : healthy u = true -> let v := flushPending u in
  pendingChunks v = [] /\ accepting v = accepting u /\ format v = format u /\ healthy v = healthy u
  /\ au_returned v ++ drainWaiters v = au_returned u ++ drainWaiters u
  /\ (inFlight v = None -> v = u) /\ (au_returned v <> [] -> au_returned u <> []).
Proof.
  intros Hh. cbn zeta. unfold flushPending. case_bool_decide as Hp; [done|]. unfold pump. cbn [withPending withQueue failed cancelled inFlight].
  apply andb_prop in Hh as [Hf%negb_true_iff Hc%negb_true_iff]. rewrite Hf, Hc. cbn [orb].
  destruct (inFlight u) as [f|] eqn:Ei.
  - rewrite bool_decide_true by done. cbn [withPending withQueue pendingChunks accepting format au_returned drainWaiters inFlight].
    split_and!; try done. intros ?. congruence.
  - rewrite bool_decide_false by (by intros [? [=]]). cbn [au_queue]. unfold resolveDrainIfIdle, idle.
    destruct (au_queue u) as [|entry queue]; cbn; rewrite ?andb_false_r; by split_and!.
Qed.

Lemma fail_ok callers taken message u : uploaderOk taken u -> waitersOk callers u -> waitersOk callers (fail message u).
Proof.
  intros Hu [H1 H2 H3 H4 H5 H6 H7]. destruct (failed u) eqn:E; [by unfold fail; rewrite E|].
  destruct (fail_fields message u E) as (F1 & F2 & F3 & _ & _ & F6 & F7 & F8 & _ & _ & F11 & F12 & _ & _ & F15 & F16).
  assert (Hh : healthy (fail message u) = false) by (unfold healthy; by rewrite F1).
  split; rewrite ?F3, ?F7, ?F8, ?F11; try done; try congruence; auto.
Qed.

Lemma append_ok callers taken chunk u : uploaderOk taken u -> waitersOk callers u -> waitersOk callers (append chunk u).1.
Proof.
  intros Hu Hw. unfold append. destruct (negb (accepting u) || failed u) eqn:E; [done|].
  apply orb_false_iff in E as [Ha%negb_false_iff Hf].
  assert (Hh : healthy u = true).
  { destruct (healthy u) eqn:Eh; [done|]. destruct (uo_stopped _ _ Hu Eh) as (_ & _ & ?); congruence. }
  destruct (chunkDurationMs chunk) as [duration|]; [|by eapply fail_ok].
  set (u1 := withFormat (Some (formatOf chunk)) (au_errors u) u).
  set (p := match format u with None => (u1, true) | Some known => (u, bool_decide (known = formatOf chunk)) end).
  assert (Hp : uploaderOk taken p.1 /\ waitersOk callers p.1 /\ accepting p.1 = true /\ healthy p.1 = true /\ is_Some (format p.1)).
  { unfold p. destruct (format u) eqn:Ef; cbn [fst].
    - split_and!; try done; by rewrite Ef.
    - split_and!; try done; [by destruct Hu|]. destruct Hw. by split. }
  destruct p as [u2 same]. cbn in Hp. destruct Hp as (Hp & Hpw & Hpa & Hph & [known Hpf]).
  destruct same; cbn; [|by eapply fail_ok]. destruct (maxBufferedBytes u2 <? _); cbn; [by eapply fail_ok|].
  unfold appendPending. set (u3 := withPending _ _ _ _ u2).
  assert (Hc : callers = []).
  { destruct callers as [|caller callers]; [done|]. pose proof (wo_closed _ _ Hpw). naive_solver congruence. }
  assert (Hw3 : waitersOk callers u3).
  { destruct Hpw as [H1 H2 H3 H4 H5 H6 H7].
    split; cbn [u3 withPending au_returned drainWaiters inFlight au_queue accepting pendingChunks format au_sent]; try done; congruence. }
  destruct (reaches _ _); [|done]. destruct (flush_fields u3 Hph) as (F1 & F2 & F3 & F4 & F5 & F6 & F7).
  destruct Hw3 as [H1 H2 H3 H4 H5 H6 H7]. split.
  - by rewrite F5.
  - intros Hn. specialize (F6 Hn). rewrite F6 in *. by apply H2.
  - intros Hn. specialize (F6 Hn). rewrite F6 in *. by apply H3.
  - by rewrite Hc.
  - done.
  - intros Hr%F7. rewrite Hc in H1. apply Permutation_nil_r, app_eq_nil in H1 as [H1 _]. done.
  - rewrite F3. cbn. congruence.
Qed.

Lemma finish_ok callers taken caller u :
  uploaderOk taken u -> waitersOk callers u -> waitersOk (callers ++ [caller]) (finish caller u).
Proof.
  intros Hu Hw. unfold finish. set (u1 := withEnd false (failed u) (cancelled u) (aborted u) u).
  destruct (failed u1 || negb (bool_decide (is_Some (format u1)))) eqn:E.
  - destruct Hw as [H1 H2 H3 H4 H5 H6 H7].
    assert (Hdone : healthy u = false \/ healthy u = true /\ format u = None).
    { apply orb_true_iff in E as [E|E]; [left; unfold healthy; cbn in E; by rewrite E|].
      apply negb_true_iff, notSome in E. destruct (healthy u); auto. }
    assert (Hp : pendingChunks u = []).
    { destruct Hdone as [Hh|[Hh Hf]]; [by destruct (uo_stopped _ _ Hu Hh) as (_ & ? & _)|by destruct (H7 Hf Hh)]. }
    assert (Hi : inFlight u = None \/ healthy u = false).
    { destruct Hdone as [?|[Hh Hf]]; [by right|left]. destruct (H7 Hf Hh) as [Hs _]. pose proof (uo_sent _ _ Hu) as Hsent.
      apply app_eq_nil in Hs as [Hs _]. rewrite Hs in Hsent. symmetry in Hsent. apply app_eq_nil in Hsent as [_ Hfl].
      unfold flying in Hfl. by destruct (inFlight u) as [[? ?]|]. }
    split; cbn [withWaiters withEnd u1 au_returned drainWaiters inFlight au_queue accepting pendingChunks format au_sent]; try done.
    rewrite <- H1, <- !app_assoc. apply Permutation_app_head, Permutation_app_comm.
  - assert (Hf1 : format u1 <> None) by (intros Hn; rewrite Hn in E; cbn in E; by rewrite orb_true_r in E).
    destruct (healthy u1) eqn:Eh.
    + destruct (flush_fields u1 Eh) as (F1 & F2 & F3 & F4 & F5 & F6 & F7). apply wait_ok; [|by rewrite F2].
      destruct Hw as [H1 H2 H3 H4 H5 H6 H7]. split.
      * by rewrite F5.
      * intros Hn. pose proof (F6 Hn) as Hv. rewrite Hv in Hn |- *. by apply H2.
      * intros Hn. pose proof (F6 Hn) as Hv. rewrite Hv in Hn |- *. by apply H3.
      * by rewrite F2.
      * done.
      * intros Hr%F7. cbn in Hr. destruct (H6 Hr) as [Hn|Hh]; [|change (healthy u1) with (healthy u) in Eh; congruence].
        left. destruct (decide (callers = [])) as [Hc|Hc].
        { rewrite Hc in H1. by apply Permutation_nil_r, app_eq_nil in H1 as [? _]. }
        assert (Hpn : pendingChunks u = []) by auto. unfold flushPending. cbn [u1 withEnd pendingChunks]. by rewrite bool_decide_true.
      * by rewrite F3.
    + destruct (uo_stopped _ _ Hu Eh) as (_ & Hp & _).
      assert (Hfl : flushPending u1 = u1) by (unfold flushPending; cbn [u1 withEnd pendingChunks]; by rewrite bool_decide_true).
      rewrite Hfl. apply wait_ok; [|done]. destruct Hw as [H1 H2 H3 H4 H5 H6 H7]. by split.
Qed.

Lemma cancel_ok callers caller u : waitersOk callers u -> waitersOk (callers ++ [caller]) (cancel caller u).
Proof.
  intros [H1 H2 H3 H4 H5 H6 H7]. unfold cancel. set (u1 := withEnd false (failed u) true true u).
  destruct (discard_fields u1) as (_ & F2 & F3 & _ & _ & F6 & F7 & F8 & _ & _ & F11 & F12 & _ & _ & F15 & F16).
  assert (Hh : healthy (discardQueued (discardPending u1)) = false) by (unfold healthy; rewrite F2; cbn; by rewrite andb_false_r).
  apply wait_ok; [|by rewrite F3]. split; rewrite ?F3, ?F7, ?F8, ?F11, ?Hh; try done; auto. by rewrite F15.
Qed.

Lemma settle_waiters callers taken rejection u :
  uploaderOk taken u -> waitersOk callers u -> waitersOk callers (settle rejection u).
Proof.
  intros Hu Hw. unfold settle. destruct (inFlight u) as [[entry []]|] eqn:E; [done| |done].
  set (u1 := withFlight _ _ _ _ u).
  assert (Hu1 : uploaderOk taken u1) by (destruct Hu; split; try done; unfold flying in *; cbn; rewrite E in *; done).
  assert (Hw1 : waitersOk callers u1).
  { destruct Hw as [H1 H2 H3 H4 H5 H6 H7]. split; try done. intros Hr. destruct (H6 Hr); [congruence|by right]. }
  destruct rejection as [message|]; [|done]. destruct (cancelled u1); [done|]. by eapply fail_ok.
Qed.

Lemma finally_waiters callers taken u :
  uploaderOk taken u -> waitersOk callers u -> waitersOk callers (requestFinally u).
Proof.
  intros Hu Hw. unfold requestFinally. destruct (inFlight u) as [[entry []]|] eqn:E; [|done..].
  destruct Hw as [H1 H2 H3 H4 H5 H6 H7].
  set (u1 := withFlight _ _ _ _ u).
  assert (Hr : healthy u = true -> au_returned u = []).
  { intros Hh. destruct (decide (au_returned u = [])) as [?|Hr]; [done|]. destruct (H6 Hr); congruence. }
  destruct (pump_fields u1) as (F1 & F2 & F3 & _ & F5 & F6 & _ & F8 & F9 & F10 & F11).
  assert (Hhe : healthy (pump u1) = healthy u) by (unfold healthy; by rewrite F1, F2).
  set (v := pump u1) in *.
  assert (Hq : inFlight v = None -> au_queue v = []).
  { intros Hn. destruct (healthy u) eqn:Eh.
    - destruct (F10 Eh Hn) as [[? _]|[_ [f Hf]]]; [done|]. by cbn in Hf.
    - destruct (uo_stopped _ _ Hu Eh) as (Hq & _ & _). unfold v, pump. cbn [u1 withFlight failed cancelled].
      assert (Hfc : failed u || cancelled u = true) by (unfold healthy in Eh; by destruct (failed u), (cancelled u)).
      by rewrite Hfc. }
  unfold resolveDrainIfIdle. destruct (idle v) eqn:Ei.
  - apply andb_prop in Ei as [_ Ei]. apply negb_true_iff, notSome in Ei.
    split; cbn [withWaiters au_returned drainWaiters inFlight au_queue accepting pendingChunks format au_sent]; auto.
    + rewrite app_nil_r, F9. done.
    + rewrite F3. done.
    + rewrite F3, F6. done.
    + rewrite F5, F6, F8. change (healthy (withWaiters _ _ v)) with (healthy v). rewrite Hhe. done.
  - assert (Hs : inFlight v <> None) by (intros Hn; unfold idle in Ei; by rewrite (Hq Hn), Hn in Ei).
    split; try done.
    + by rewrite F9.
    + by rewrite F3.
    + by rewrite F3, F6.
    + intros Hv. destruct (F11 Hv) as [Hu1|?]; [|done]. right. rewrite Hhe. destruct (healthy u); [|done].
      change (au_returned u <> []) in Hu1. by rewrite Hr in Hu1.
    + by rewrite F5, F6, F8, Hhe.
Qed.

(** *** Every run *)

Definition runOk (r : AudioRun) : Prop :=
  uploaderOk (ar_taken r) (ar_uploader r) /\ batchesFull (ar_uploader r) /\ waitersOk (ar_callers r) (ar_uploader r).

Lemma runOk_step r e : runOk r -> runOk (audioStep r e).
Proof.
  intros (H1 & H2 & H3). split; [|split; [by apply full_step|]]; destruct e; cbn [audioStep].
  - pose proof (uploaderOk_append _ chunk _ H1). by destruct (append _ _).
  - by apply uploaderOk_finish.
  - by apply uploaderOk_cancel.
  - by apply uploaderOk_settle.
  - by apply uploaderOk_finally.
  - pose proof (append_ok _ _ chunk _ H1 H3). by destruct (append _ _).
  - by eapply finish_ok.
  - by apply cancel_ok.
  - by eapply settle_waiters.
  - by eapply finally_waiters.
Qed.

Lemma runOk_run duration capacity u events : newUploader duration capacity = Some u -> runOk (runAudio u events).
Proof.
  intros Hn. unfold runAudio. induction events as [|e events IH] using rev_ind.
  - unfold newUploader in Hn. destruct (positiveInteger (default _ duration)) as [d|]; [|done]. cbn in Hn.
    destruct (positiveInteger (default _ capacity)) as [c|] eqn:Ec; [|done]. cbn in Hn. injection Hn as <-.
    assert (Hc : 0 < c).
    { unfold positiveInteger in Ec. destruct (default _ capacity) as [z|]; [|done]. cbn in Ec.
      destruct (0 <? z) eqn:E; [|done]. cbn in Ec. apply Z.ltb_lt in E. case_match; [|done]. by injection Ec as <-. }
    split_and!; split; try done; cbn; try lia; by intros [].
  - rewrite foldl_app. by apply runOk_step.
Qed.

Lemma max_constant u events : maxBufferedBytes (ar_uploader (runAudio u events)) = maxBufferedBytes u.
Proof.
  assert (Hfail : forall message v, maxBufferedBytes (fail message v) = maxBufferedBytes v).
  { intros message v. destruct (failed v) eqn:E; [by unfold fail; rewrite E|]. by destruct (fail_fields message v E) as (_ & _ & _ & ? & _). }
  assert (Hres : forall v, maxBufferedBytes (resolveDrainIfIdle v) = maxBufferedBytes v)
    by (intros v; unfold resolveDrainIfIdle; by destruct (idle v)).
  assert (Hpump : forall v, maxBufferedBytes (pump v) = maxBufferedBytes v)
    by (intros v; unfold pump; destruct (_ || _); [done|]; rewrite Hres; by destruct (au_queue v)).
  assert (Hflush : forall v, maxBufferedBytes (flushPending v) = maxBufferedBytes v)
    by (intros v; unfold flushPending; case_bool_decide; [done|]; by rewrite Hpump).
  assert (Hwait : forall c v, maxBufferedBytes (waitForDrain c v) = maxBufferedBytes v)
    by (intros c v; unfold waitForDrain; by destruct (idle v)).
  unfold runAudio. induction events as [|e events IH] using rev_ind; [done|]. rewrite foldl_app. cbn [foldl]. rewrite <- IH.
  set (r := foldl audioStep _ events) in *. clearbody r. destruct e; cbn [audioStep].
  - unfold append. destruct (_ || _); [done|]. destruct (chunkDurationMs chunk); [|apply Hfail].
    destruct (format (ar_uploader r)) as [known|]; [destruct (bool_decide _)|]; cbn; try apply Hfail;
      (destruct (_ <? _); cbn; [by rewrite Hfail|]; unfold appendPending; destruct (reaches _ _); [by rewrite Hflush|done]).
  - cbn. unfold finish. destruct (_ || _); [done|]. by rewrite Hwait, Hflush.
  - cbn. unfold cancel, discardQueued. by rewrite Hwait, Hres.
  - cbn. unfold settle. destruct (inFlight _) as [[? []]|]; [done| |done]. destruct rejection; [|done].
    destruct (cancelled _); [done|]. by rewrite Hfail.
  - cbn. unfold requestFinally. destruct (inFlight _) as [[? []]|]; [|done..]. by rewrite Hres, Hpump.
Qed.

(** ** The theorems *)

(** C25. However capture, responses, failures, finish and cancel interleave, speech is
    sent in order and never twice: the batches sent are numbered from zero, all
    but the last are acknowledged, so one request at most is in flight; together
    they hold a prefix of the chunks taken, and with what is queued and pending
    all of them unless the upload failed or was cancelled.  What is held never
    exceeds the capacity. *)
Theorem speech_sent_in_order duration capacity u events :
  newUploader duration capacity = Some u ->
  let r := runAudio u events in
  let v := ar_uploader r in
  qb_id <$> au_sent v = seq 0 (length (au_sent v))
  /\ au_sent v = au_done v ++ flying v
  /\ chunksOf (au_sent v) `prefix_of` ar_taken r
  /\ (failed v = false -> cancelled v = false -> chunksOf (au_sent v ++ au_queue v) ++ pendingChunks v = ar_taken r)
  /\ bufferedBytes v = chunkBytes (pendingChunks v) + queuedBytes (au_queue v) + queuedBytes (flying v)
  /\ 0 <= bufferedBytes v <= maxBufferedBytes u.
Proof.
  intros Hn r v. destruct (runOk_run _ _ _ events Hn) as (H & _ & _). fold r v in H.
  pose proof (max_constant u events) as Hm. fold r v in Hm. destruct H as [H1 H2 H3 H4 H5 H6 H7 H8 H9 H10].
  split_and!; try done; try lia.
  - by eapply ids_prefix.
  - intros Hf Hc. apply H5. unfold healthy. by rewrite Hf, Hc.
Qed.

(** Batches are as long as they have to be: no chunk before its last fills a
    batch, and every batch but the last one is full; while audio is still taken,
    every batch is. *)
Theorem batches_are_full duration capacity u events :
  newUploader duration capacity = Some u ->
  let v := ar_uploader (runAudio u events) in
  let limit := batchDurationMs v in
  let batches := au_sent v ++ au_queue v in
  Forall (fun b => qb_chunks b <> [] /\ unfilled limit (qb_chunks b)) batches
  /\ (forall bs b, batches = bs ++ [b] -> Forall (fun b => filled limit (qb_chunks b)) bs)
  /\ (accepting v = true -> Forall (fun b => filled limit (qb_chunks b)) batches).
Proof.
  intros Hn v limit batches. destruct (runOk_run _ _ _ events Hn) as (_ & [H1 H2 H3 H4 H5] & _). fold v in H1, H2, H3, H4, H5.
  split_and!; [done| |by intros; apply H5; left]. intros bs b Hb. by apply (H4 bs [b]).
Qed.

(** C26. Who finishes waits until everything taken was sent and acknowledged: a call
    of finish or cancel has returned or waits, exactly once; it waits only while a
    request is in flight; and when it has returned, the upload failed or was
    cancelled, or every chunk taken is in a batch whose request has settled. *)
Theorem finish_waits_for_all duration capacity u events :
  newUploader duration capacity = Some u ->
  let r := runAudio u events in
  let v := ar_uploader r in
  au_returned v ++ drainWaiters v ≡ₚ ar_callers r
  /\ (drainWaiters v <> [] -> is_Some (inFlight v))
  /\ forall caller, caller ∈ au_returned v ->
       failed v = true \/ cancelled v = true \/ (inFlight v = None /\ chunksOf (au_done v) = ar_taken r).
Proof.
  intros Hn r v. destruct (runOk_run _ _ _ events Hn) as (Hu & _ & Hw). fold r v in Hu, Hw.
  destruct Hw as [H1 H2 H3 H4 H5 H6 H7]. split_and!; [done| |].
  - intros Hd. destruct (inFlight v); [done|]. by rewrite H2 in Hd.
  - intros caller Hc. destruct (failed v) eqn:Ef; [by left|right]. destruct (cancelled v) eqn:Ec; [by left|right].
    assert (Hh : healthy v = true) by (unfold healthy; by rewrite Ef, Ec).
    assert (Hr : au_returned v <> []) by (intros Hr; rewrite Hr in Hc; by apply not_elem_of_nil in Hc).
    destruct (H6 Hr) as [Hi|?]; [|congruence]. split; [done|].
    assert (Hcs : ar_callers r <> []).
    { intros Hcs. rewrite Hcs in H1. by apply Permutation_nil_r, app_eq_nil in H1 as [? _]. }
    pose proof (uo_taken _ _ Hu Hh) as Ht. rewrite (H3 Hi), app_nil_r, (H5 (H4 Hcs)), app_nil_r in Ht.
    pose proof (uo_sent _ _ Hu) as Hs. unfold flying in Hs. rewrite Hi, app_nil_r in Hs. by rewrite <- Hs.
Qed.

(** ** A run *)

Definition demo_chunk (name : string) : RealtimeAudioChunk :=
  {| ac_data := js name; ac_encoding := None; ac_numChannels := NInt 1; ac_sampleRate := NInt 44100;
     ac_samplesPerChannel := NInt 441 |}.

(** Five chunks of ten milliseconds in batches of twenty, and a finish. *)
Definition demo_speech : list AudioEvent :=
  (AudioAppended ∘ demo_chunk <$> ["AAAA"; "BBB="; "CCCC"; "DD=="; "EEEE"]%string)
  ++ [SendSettled None; FinishCalled 7; SendFinally; SendSettled None; SendFinally; SendSettled None; SendFinally].

Definition demo_uploader : option RealtimeAudioUploader := newUploader (Some (NInt 20)) None.

Lemma speech_sent_in_order_witness :
  exists u, demo_uploader = Some u
    /\ qb_byteLength <$> au_sent (ar_uploader (runAudio u demo_speech)) = [5; 4; 3]
    /\ 0 <= bufferedBytes (ar_uploader (runAudio u demo_speech)) <= maxBufferedBytes u.
Proof.
  eexists. split; [reflexivity|]. split; [vm_compute; reflexivity|].
  match goal with |- 0 <= bufferedBytes (ar_uploader (runAudio ?u _)) <= _ =>
    exact (proj2 (proj2 (proj2 (proj2 (proj2 (speech_sent_in_order (Some (NInt 20)) None u demo_speech eq_refl)))))) end.
Defined.

Lemma batches_are_full_witness :
  exists u, demo_uploader = Some u
    /\ length ∘ qb_chunks <$> au_sent (ar_uploader (runAudio u demo_speech)) = [2; 2; 1]%nat
    /\ Forall (fun b => qb_chunks b <> [] /\ unfilled (batchDurationMs (ar_uploader (runAudio u demo_speech))) (qb_chunks b))
         (au_sent (ar_uploader (runAudio u demo_speech)) ++ au_queue (ar_uploader (runAudio u demo_speech))).
Proof.
  eexists. split; [reflexivity|]. split; [vm_compute; reflexivity|].
  match goal with |- context [runAudio ?u _] =>
    exact (proj1 (batches_are_full (Some (NInt 20)) None u demo_speech eq_refl)) end.
Defined.

Lemma finish_waits_for_all_witness :
  exists u, demo_uploader = Some u
    /\ au_returned (ar_uploader (runAudio u demo_speech)) = [7%nat]
    /\ drainWaiters (ar_uploader (runAudio u (take 9 demo_speech))) = [7%nat]
    /\ au_returned (ar_uploader (runAudio u demo_speech)) ++ drainWaiters (ar_uploader (runAudio u demo_speech))
       ≡ₚ ar_callers (runAudio u demo_speech).
Proof.
  eexists. split; [reflexivity|]. split; [vm_compute; reflexivity|]. split; [vm_compute; reflexivity|].
  match goal with |- context [runAudio ?u _] =>
    exact (proj1 (finish_waits_for_all (Some (NInt 20)) None u demo_speech eq_refl)) end.
Defined.
