(* ===== verification/CatalogWindow.v ===== *)
(** * Pages of the thread catalogue

    Models apps/android/src/data/thread-catalog-loader.ts with the readers of
    catalog-summary-model.ts and threadCatalogMembership.ts (one page of the
    catalogue as it is read), and thread-catalog-window.ts (the prefix of one
    server's catalogue that was asked for).

    The window runs one drain at a time.  [await port.load(...)] and
    [await port.publish(...)] are the points where it is suspended
    ([DrainPoint]); the last one is the gap between the end of the drain and the
    handler of [finally], which a microtask runs. *)
From S2P Require Import Prelude JsMap Json CursorSync ListStream.

Local Open Scope nat_scope.

(** ** A page *)

Definition THREAD_CATALOG_PAGE_SIZE : nat := 36.

Record ThreadCatalogPage :=
  { pg_archivedCount : option Z; pg_excludedThreadIds : list jstr; pg_nextCursor : option jstr;
    pg_rows : list ThreadListRow }.

(** The ids of [page.threads], which are the threads of the rows. *)
Definition pageThreadIds (page : ThreadCatalogPage) : list jstr := row_threadId <$> pg_rows page.

Definition parseArchivedCatalogCount (value : json) : option Z :=
  match value with JObj o => asSafeNat (oget "archivedCount" o) | _ => None end.

(** [None] where it throws. *)
Definition catalogExcludedThreadIds (summary : option json) : option (list jstr) :=
  match summary with
  | Some (JObj o) =>
      match oget "excludedThreadIds" o with
      | None => Some []
      | Some (JArr ids) =>
          mapM (fun id => match id with JStr s => if bool_decide (s = []) then None else Some s | _ => None end) ids
      | Some _ => None
      end
  | _ => Some []
  end.

(** [response.nextCursor]; [None] where the page is refused. *)
Definition parseNextCursor (requested : option jstr) (value : option json) : option (option jstr) :=
  match value with
  | Some JNull => Some None
  | Some (JStr next) => if bool_decide (next = []) || bool_decide (requested = Some next) then None else Some (Some next)
  | _ => None
  end.

Fixpoint parseCatalogRows (candidates : list json) : option (list ThreadListRow) :=
  match candidates with
  | [] => Some []
  | candidate :: candidates =>
      match parseThreadListRow candidate with
      | ParseError _ => None
      | ParseOk row => rows ← parseCatalogRows candidates; Some (row :: rows)
      end
  end.

(** What [loadThreadCatalogPage] makes of a response; [None] where it throws. *)
Definition parseCatalogPage (requested : option jstr) (response : json) : option ThreadCatalogPage :=
  o ← asObject (Some response);
  candidates ← asArray (oget "data" o);
  nextCursor ← parseNextCursor requested (oget "nextCursor" o);
  rows ← parseCatalogRows candidates;
  excluded ← catalogExcludedThreadIds (oget "codewideCatalogSummary" o);
  Some {| pg_archivedCount := parseArchivedCatalogCount (default JNull (oget "codewideCatalogSummary" o));
          pg_excludedThreadIds := excluded; pg_nextCursor := nextCursor; pg_rows := rows |}.

(** ** The window *)

(** Where the drain is: [seenCursors], what the page was requested for, and the
    prefix that is being published; or its result ([None] when it threw). *)
Inductive DrainPoint :=
| AwaitLoad (seen : list jstr) (replaceHead : bool)
| AwaitPublish (seen : list jstr) (page : ThreadCatalogPage) (ids : list jstr)
| DrainEnded (result : option bool).

(** A publication: the continuation its page was read from, the page, the prefix
    and whether it replaces the head. *)
Record CatalogPublication :=
  { cp_cursor : option jstr; cp_page : ThreadCatalogPage; cp_prefixIds : list jstr; cp_replaceHead : bool }.

(** The log of a window: a prefix dropped by a refresh, and the calls of
    [port.publish], each with what it settled as; [None] while it is awaited. *)
Inductive CatalogEntry :=
| PrefixDropped
| PageOffered (publication : CatalogPublication) (accepted : option bool).

(** [ct_inFlight]: the operation, by number, with the point of its drain;
    [ct_settled]: the operations that have settled. *)
Record ThreadCatalogWindow :=
  { ct_cursor : option jstr; ct_loaded : bool; ct_ids : list jstr; ct_requested : Z;
    ct_inFlight : option (nat * DrainPoint); ct_refreshRequested : bool; ct_closed : bool;
    ct_next : nat; ct_settled : list (nat * option bool); ct_loads : list (option jstr);
    ct_published : list CatalogEntry }.

Definition newCatalogWindow : ThreadCatalogWindow :=
  {| ct_cursor := None; ct_loaded := false; ct_ids := []; ct_requested := 0; ct_inFlight := None;
     ct_refreshRequested := false; ct_closed := false; ct_next := 0; ct_settled := []; ct_loads := [];
     ct_published := [] |}.

Definition withPrefix (cursor : option jstr) (loaded : bool) (ids : list jstr) (w : ThreadCatalogWindow) : ThreadCatalogWindow :=
  {| ct_cursor := cursor; ct_loaded := loaded; ct_ids := ids; ct_requested := ct_requested w;
     ct_inFlight := ct_inFlight w; ct_refreshRequested := ct_refreshRequested w; ct_closed := ct_closed w;
     ct_next := ct_next w; ct_settled := ct_settled w; ct_loads := ct_loads w; ct_published := ct_published w |}.

Definition withDemand (requested : Z) (refresh closed : bool) (w : ThreadCatalogWindow) : ThreadCatalogWindow :=
  {| ct_cursor := ct_cursor w; ct_loaded := ct_loaded w; ct_ids := ct_ids w; ct_requested := requested;
     ct_inFlight := ct_inFlight w; ct_refreshRequested := refresh; ct_closed := closed;
     ct_next := ct_next w; ct_settled := ct_settled w; ct_loads := ct_loads w; ct_published := ct_published w |}.

Definition withDrain (flight : option (nat * DrainPoint)) (next : nat) (settled : list (nat * option bool))
    (loads : list (option jstr)) (published : list CatalogEntry) (w : ThreadCatalogWindow) : ThreadCatalogWindow :=
  {| ct_cursor := ct_cursor w; ct_loaded := ct_loaded w; ct_ids := ct_ids w; ct_requested := ct_requested w;
     ct_inFlight := flight; ct_refreshRequested := ct_refreshRequested w; ct_closed := ct_closed w;
     ct_next := next; ct_settled := settled; ct_loads := loads; ct_published := published |}.

(** The drain goes to a point. *)
Definition drainTo (operation : nat) (point : DrainPoint) (w : ThreadCatalogWindow) : ThreadCatalogWindow :=
  withDrain (Some (operation, point)) (ct_next w) (ct_settled w)
    (match point with AwaitLoad _ _ => ct_loads w ++ [ct_cursor w] | _ => ct_loads w end) (ct_published w) w.

(** Whether the prefix that was asked for has been read. *)
Definition prefixRead (w : ThreadCatalogWindow) : bool :=
  (ct_requested w =? 0)%Z
  || ct_loaded w && (bool_decide (ct_cursor w = None) || (ct_requested w <=? Z.of_nat (length (ct_ids w)))%Z).

(** The head of the loop. *)
Definition drainLoop (operation : nat) (seen : list jstr) (w : ThreadCatalogWindow) : ThreadCatalogWindow :=
  if ct_closed w then drainTo operation (DrainEnded (Some false)) w
  else if prefixRead w then drainTo operation (DrainEnded (Some (negb (bool_decide (ct_cursor w = None))))) w
  else drainTo operation (AwaitLoad seen (bool_decide (ct_cursor w = None))) w.

Definition logged (published : list CatalogEntry) (w : ThreadCatalogWindow) : ThreadCatalogWindow :=
  withDrain (ct_inFlight w) (ct_next w) (ct_settled w) (ct_loads w) published w.

(** [#drain] until it waits. *)
Definition beginDrain (operation : nat) (w : ThreadCatalogWindow) : ThreadCatalogWindow :=
  drainLoop operation []
    (if ct_refreshRequested w
     then withPrefix None false []
            (logged (ct_published w ++ [PrefixDropped]) (withDemand (ct_requested w) false (ct_closed w) w))
     else w).

(** [#run], and the operation it returns. *)
Definition runWindow (w : ThreadCatalogWindow) : ThreadCatalogWindow * nat :=
  match ct_inFlight w with
  | Some (operation, _) => (w, operation)
  | None =>
      let operation := ct_next w in
      (beginDrain operation (withDrain None (S operation) (ct_settled w) (ct_loads w) (ct_published w) w), operation)
  end.

Definition ensure (count : Z) (w : ThreadCatalogWindow) : ThreadCatalogWindow * nat :=
  runWindow (withDemand (Z.max (ct_requested w) count) (ct_refreshRequested w) (ct_closed w) w).

(** [refresh], and the operation it awaits before it runs. *)
Definition refresh (w : ThreadCatalogWindow) : ThreadCatalogWindow * option nat :=
  if (ct_requested w =? 0)%Z then (w, None)
  else
    let w := withDemand (ct_requested w) true (ct_closed w) w in
    match ct_inFlight w with
    | Some (operation, _) => (w, Some operation)
    | None => ((runWindow w).1, None)
    end.

Definition closeWindow (w : ThreadCatalogWindow) : ThreadCatalogWindow :=
  withDemand (ct_requested w) (ct_refreshRequested w) true w.

(** [port.load] settles: with a page, or rejected. *)
Definition pageLoaded (loaded : option ThreadCatalogPage) (w : ThreadCatalogWindow) : ThreadCatalogWindow :=
  match ct_inFlight w with
  | Some (operation, AwaitLoad seen replaceHead) =>
      match loaded with
      | None => drainTo operation (DrainEnded None) w
      | Some page =>
          if ct_closed w then drainTo operation (DrainEnded (Some false)) w
          else if match pg_nextCursor page with Some next => shas next seen | None => false end
          then drainTo operation (DrainEnded None) w
          else
            let seen := match pg_nextCursor page with Some next => sadd next seen | None => seen end in
            let ids := foldl (fun ids id => sadd id ids) (ct_ids w) (pageThreadIds page) in
            let w := logged (ct_published w ++ [PageOffered {| cp_cursor := ct_cursor w; cp_page := page; cp_prefixIds := ids;
                                                               cp_replaceHead := replaceHead |} None]) w in
            drainTo operation (AwaitPublish seen page ids) w
      end
  | _ => w
  end.

(** The call that is awaited, the last one of the log, has settled. *)
Definition settleOffer (accepted : bool) (published : list CatalogEntry) : list CatalogEntry :=
  alter (fun e => match e with PageOffered p _ => PageOffered p (Some accepted) | PrefixDropped => e end)
    (pred (length published)) published.

(** [port.publish] settles: accepted, or rejected. *)
Definition pagePublished (accepted : bool) (w : ThreadCatalogWindow) : ThreadCatalogWindow :=
  match ct_inFlight w with
  | Some (operation, AwaitPublish seen page ids) =>
      let w := logged (settleOffer accepted (ct_published w)) w in
      if accepted then drainLoop operation seen (withPrefix (pg_nextCursor page) true ids w)
      else drainTo operation (DrainEnded None) w
  | _ => w
  end.

(** The handler of [finally]: the operation settles. *)
Definition drainFinally (w : ThreadCatalogWindow) : ThreadCatalogWindow :=
  match ct_inFlight w with
  | Some (operation, DrainEnded result) =>
      withDrain None (ct_next w) (ct_settled w ++ [(operation, result)]) (ct_loads w) (ct_published w) w
  | _ => w
  end.

(** ** Runs *)

(** [cs_ensures]: the calls of [ensure] that joined an operation whose drain had
    not ended; [cs_refreshes]: the operations a [refresh] waits for. *)
Record CatalogSystem :=
  { cs_window : ThreadCatalogWindow; cs_ensures : list (nat * Z); cs_refreshes : list nat }.

Inductive CatalogEvent :=
| EnsureCalled (count : Z) | RefreshCalled | RefreshResumed (i : nat) | PageLoaded (loaded : option ThreadCatalogPage)
| PagePublished (ok : bool) | DrainFinally | WindowClosed.

Definition draining (w : ThreadCatalogWindow) : bool :=
  match ct_inFlight w with Some (_, DrainEnded _) => false | _ => true end.

Definition onWindow (w : ThreadCatalogWindow) (s : CatalogSystem) : CatalogSystem :=
  {| cs_window := w; cs_ensures := cs_ensures s; cs_refreshes := cs_refreshes s |}.

Definition catalogStep (s : CatalogSystem) (e : CatalogEvent) : CatalogSystem :=
  let w := cs_window s in
  match e with
  | EnsureCalled count =>
      let '(w', operation) := ensure count w in
      {| cs_window := w'; cs_ensures := cs_ensures s ++ (if draining w then [(operation, count)] else []);
         cs_refreshes := cs_refreshes s |}
  | RefreshCalled =>
      let '(w', awaited) := refresh w in
      {| cs_window := w'; cs_ensures := cs_ensures s;
         cs_refreshes := cs_refreshes s ++ match awaited with Some operation => [operation] | None => [] end |}
  | RefreshResumed i =>
      match cs_refreshes s !! i with
      | Some operation =>
          if existsb (fun e => (e.1 =? operation) && bool_decide (is_Some e.2)) (ct_settled w)
          then {| cs_window := (runWindow w).1; cs_ensures := cs_ensures s; cs_refreshes := delete i (cs_refreshes s) |}
          else s
      | None => s
      end
  | PageLoaded loaded => onWindow (pageLoaded loaded w) s
  | PagePublished ok => onWindow (pagePublished ok w) s
  | DrainFinally => onWindow (drainFinally w) s
  | WindowClosed => onWindow (closeWindow w) s
  end.

Definition runCatalog (events : list CatalogEvent) : CatalogSystem :=
  foldl catalogStep {| cs_window := newCatalogWindow; cs_ensures := []; cs_refreshes := [] |} events.

(** ** The prefix *)

(** The ids, and those of a page after them. *)
Definition joined (ids : list jstr) (page : ThreadCatalogPage) : list jstr :=
  foldl (fun ids id => sadd id ids) ids (pageThreadIds page).

(** Publications that continue each other, from a continuation and a prefix. *)
Fixpoint linked (cursor : option jstr) (ids : list jstr) (published : list CatalogPublication) : Prop :=
  match published with
  | [] => True
  | p :: published =>
      cp_cursor p = cursor /\ cp_replaceHead p = bool_decide (cursor = None) /\ cp_prefixIds p = joined ids (cp_page p)
      /\ linked (pg_nextCursor (cp_page p)) (cp_prefixIds p) published
  end.

Fixpoint lastOf (cursor : option jstr) (ids : list jstr) (published : list CatalogPublication) : option jstr * list jstr :=
  match published with
  | [] => (cursor, ids)
  | p :: published => lastOf (pg_nextCursor (cp_page p)) (cp_prefixIds p) published
  end.

Lemma linked_snoc cursor ids published p :
  linked cursor ids published ->
  cp_cursor p = (lastOf cursor ids published).1 ->
  cp_replaceHead p = bool_decide ((lastOf cursor ids published).1 = None) ->
  cp_prefixIds p = joined (lastOf cursor ids published).2 (cp_page p) ->
  linked cursor ids (published ++ [p])
  /\ lastOf cursor ids (published ++ [p]) = (pg_nextCursor (cp_page p), cp_prefixIds p).
Proof.
  revert cursor ids. induction published as [|q published IH]; intros cursor ids; cbn [app linked lastOf fst snd].
  - by intros _ -> -> ->.
  - intros (H1 & H2 & H3 & H4) E1 E2 E3. destruct (IH _ _ H4 E1 E2 E3) as [I1 I2]. by split_and!.
Qed.

Lemma joined_nodup ids page : NoDup ids -> NoDup (joined ids page).
Proof. unfold joined. revert ids. induction (pageThreadIds page) as [|id rest IH]; intros ids H; [done|]. apply IH. by apply sadd_nodup. Qed.

(** The publications that were accepted since the prefix was last dropped. *)
Definition accepted (published : list CatalogEntry) : list CatalogPublication :=
  foldl (fun chain e => match e with
                        | PrefixDropped => []
                        | PageOffered p (Some true) => chain ++ [p]
                        | PageOffered _ _ => chain
                        end) [] published.

Lemma accepted_dropped published : accepted (published ++ [PrefixDropped]) = [].
Proof. unfold accepted. by rewrite foldl_app. Qed.

Lemma accepted_offered published p outcome :
  accepted (published ++ [PageOffered p outcome])
  = match outcome with Some true => accepted published ++ [p] | _ => accepted published end.
Proof. unfold accepted. rewrite foldl_app. by destruct outcome as [[]|]. Qed.

Lemma settle_last published p outcome ok :
  settleOffer ok (published ++ [PageOffered p outcome]) = published ++ [PageOffered p (Some ok)].
Proof.
  unfold settleOffer. rewrite length_app. cbn [length]. replace (pred (length published + 1)) with (length published) by lia.
  rewrite alter_app_r_alt by lia. by rewrite Nat.sub_diag.
Qed.

(** What is committed, and the operation that is running. *)
Record prefixOk (w : ThreadCatalogWindow) : Prop :=
  { po_chain : linked None [] (accepted (ct_published w));
    po_last : lastOf None [] (accepted (ct_published w)) = (ct_cursor w, ct_ids w);
    po_some : ct_loaded w = true <-> accepted (ct_published w) <> [];
    po_nodup : NoDup (ct_ids w);
    po_load : forall operation seen replaceHead, ct_inFlight w = Some (operation, AwaitLoad seen replaceHead) ->
      replaceHead = bool_decide (ct_cursor w = None);
    po_pending : forall operation seen page ids, ct_inFlight w = Some (operation, AwaitPublish seen page ids) ->
      ids = joined (ct_ids w) page
      /\ exists earlier, ct_published w = earlier ++ [PageOffered {| cp_cursor := ct_cursor w; cp_page := page;
             cp_prefixIds := ids; cp_replaceHead := bool_decide (ct_cursor w = None) |} None] }.

Lemma prefixOk_drainTo operation point w :
  prefixOk w -> (forall seen page ids, point <> AwaitPublish seen page ids) ->
  (forall seen replaceHead, point = AwaitLoad seen replaceHead -> replaceHead = bool_decide (ct_cursor w = None)) ->
  prefixOk (drainTo operation point w).
Proof.
  intros [H1 H2 H3 H4 H5 H6] Hp Hl. split; try done.
  - intros operation' seen replaceHead [= _ Hq]. by apply (Hl seen).
  - intros operation' seen page ids [= _ Hq]. by apply Hp in Hq.
Qed.

Lemma prefixOk_loop operation seen w : prefixOk w -> prefixOk (drainLoop operation seen w).
Proof.
  intros H. unfold drainLoop. destruct (ct_closed w); [by apply prefixOk_drainTo|].
  destruct (prefixRead w); apply prefixOk_drainTo; try done. by intros ?? [= _ <-].
Qed.

(** The prefix may be dropped at any time, and the operation forgotten. *)
Lemma prefixOk_empty w :
  prefixOk w -> ct_inFlight w = None ->
  prefixOk (withPrefix None false [] (logged (ct_published w ++ [PrefixDropped]) w)).
Proof.
  intros H Hi. split; cbn [withPrefix logged withDrain ct_cursor ct_loaded ct_ids ct_inFlight ct_published];
    rewrite ?accepted_dropped; try congruence; try done. apply NoDup_nil_2.
Qed.

Lemma prefixOk_demand requested fresh closed w : prefixOk w -> prefixOk (withDemand requested fresh closed w).
Proof. by destruct 1. Qed.

Lemma prefixOk_run w : prefixOk w -> prefixOk (runWindow w).1.
Proof.
  intros H. unfold runWindow. destruct (ct_inFlight w) as [[operation point]|] eqn:E; [done|]. cbn [fst]. unfold beginDrain.
  apply prefixOk_loop. set (w1 := withDrain None _ _ _ _ w).
  assert (H1 : prefixOk w1) by (by destruct H). destruct (ct_refreshRequested w1); [|done].
  apply (prefixOk_empty (withDemand (ct_requested w1) false (ct_closed w1) w1)); [by apply prefixOk_demand|done].
Qed.

Lemma prefixOk_loaded loaded w : prefixOk w -> prefixOk (pageLoaded loaded w).
Proof.
  intros H. unfold pageLoaded. destruct (ct_inFlight w) as [[operation [seen replaceHead|seen page ids|result]]|] eqn:E; try done.
  destruct loaded as [page|]; [|by apply prefixOk_drainTo]. destruct (ct_closed w); [by apply prefixOk_drainTo|].
  destruct (match pg_nextCursor page with Some next => shas next seen | None => false end); [by apply prefixOk_drainTo|].
  destruct H as [H1 H2 H3 H4 H5 _]. rewrite (H5 _ _ _ E). clear H5.
  split; cbn [drainTo logged withDrain ct_cursor ct_loaded ct_ids ct_inFlight ct_published]; rewrite ?accepted_offered; try done.
  intros operation' seen' page' ids' [= _ <- <- <-]. split; [done|]. by exists (ct_published w).
Qed.

Lemma prefixOk_published ok w : prefixOk w -> prefixOk (pagePublished ok w).
Proof.
  intros H. unfold pagePublished. destruct (ct_inFlight w) as [[operation [seen replaceHead|seen page ids|result]]|] eqn:E; try done.
  destruct H as [H1 H2 H3 H4 H5 H6]. destruct (H6 _ _ _ _ E) as (P1 & earlier & P2). clear H5 H6. rewrite P2 in *.
  rewrite accepted_offered in H1, H2, H3. set (p := {| cp_cursor := _; cp_page := page; cp_prefixIds := ids; cp_replaceHead := _ |}) in *.
  rewrite settle_last. destruct ok.
  - destruct (linked_snoc None [] (accepted earlier) p H1) as [L1 L2]; [by rewrite H2..|].
    set (v := withPrefix _ _ _ _).
    assert (Hok : forall operation point, (forall seen page ids, point <> AwaitPublish seen page ids) ->
      (forall seen replaceHead, point = AwaitLoad seen replaceHead -> replaceHead = bool_decide (ct_cursor v = None)) ->
      prefixOk (drainTo operation point v)).
    { intros operation' point Hp Hl. split; cbn [v drainTo logged withDrain withPrefix ct_cursor ct_loaded ct_ids ct_inFlight ct_published];
        rewrite ?accepted_offered; try done.
      - split; [|done]. intros _ Hn. by apply app_eq_nil in Hn as [_ [=]].
      - rewrite P1. by apply joined_nodup.
      - intros ? seen' replaceHead [= _ Hq]. by apply (Hl seen').
      - intros ? seen' page' ids' [= _ Hq]. by apply Hp in Hq. }
    unfold drainLoop. destruct (ct_closed v); [by apply Hok|].
    destruct (prefixRead v); apply Hok; try done. by intros ?? [= _ <-].
  - split; cbn [drainTo logged withDrain ct_cursor ct_loaded ct_ids ct_inFlight ct_published]; rewrite ?accepted_offered; try done.
Qed.

Lemma prefixOk_step s e : prefixOk (cs_window s) -> prefixOk (cs_window (catalogStep s e)).
Proof.
  intros H. destruct e; cbn [catalogStep].
  - pose proof (prefixOk_run _ (prefixOk_demand (Z.max (ct_requested (cs_window s)) count) (ct_refreshRequested (cs_window s))
      (ct_closed (cs_window s)) _ H)) as Hr. unfold ensure. by destruct (runWindow _).
  - unfold refresh. destruct (ct_requested (cs_window s) =? 0)%Z; [done|].
    set (w := withDemand _ true _ _). assert (Hw : prefixOk w) by (by apply prefixOk_demand).
    pose proof (prefixOk_run _ Hw) as Hr. destruct (ct_inFlight w) as [[operation point]|]; done.
  - destruct (cs_refreshes s !! i) as [operation|]; [|done]. destruct (existsb _ _); [|done]. by apply prefixOk_run.
  - by apply prefixOk_loaded.
  - by apply prefixOk_published.
  - cbn. unfold drainFinally. destruct (ct_inFlight (cs_window s)) as [[operation [| |result]]|]; try done. by destruct H.
  - by apply prefixOk_demand.
Qed.

(** C21. Whatever pages arrive, are refused or fail to be published, and whenever the
    list is refreshed: what the window holds, without repeated ids, is what the
    publications the consumer accepted since the last refresh give, all of them
    and no other.  The first of them replaced the head, and each of the others
    read the continuation of the one before and published its prefix extended. *)
Theorem catalogue_prefix_linked events :
  let w := cs_window (runCatalog events) in
  let chain := accepted (ct_published w) in
  NoDup (ct_ids w)
  /\ linked None [] chain /\ lastOf None [] chain = (ct_cursor w, ct_ids w) /\ (ct_loaded w = true <-> chain <> []).
Proof.
  assert (H : prefixOk (cs_window (runCatalog events))); [|by destruct H].
  unfold runCatalog. induction events as [|e events IH] using rev_ind.
  - split; try done. apply NoDup_nil_2.
  - rewrite foldl_app. by apply prefixOk_step.
Qed.

(** ** What a call of [ensure] gets *)

Record ensuresOk (s : CatalogSystem) : Prop :=
  { eo_known : forall operation count, (operation, count) ∈ cs_ensures s -> operation < ct_next (cs_window s);
    eo_current : forall operation point, ct_inFlight (cs_window s) = Some (operation, point) -> operation < ct_next (cs_window s);
    eo_waiting : forall operation point count, ct_inFlight (cs_window s) = Some (operation, point) ->
      (operation, count) ∈ cs_ensures s ->
      match point with
      | DrainEnded (Some more) =>
          ct_closed (cs_window s) = true
          \/ more = negb (bool_decide (ct_cursor (cs_window s) = None))
             /\ ((count <= 0)%Z \/ ct_loaded (cs_window s) = true
                 /\ (more = false \/ (count <= Z.of_nat (length (ct_ids (cs_window s))))%Z))
      | DrainEnded None => True
      | _ => (count <= ct_requested (cs_window s))%Z
      end }.

(** What the loop leaves: the demand and the prefix as they were. *)
Lemma drainLoop_fields operation seen w : let v := drainLoop operation seen w in
  ct_requested v = ct_requested w /\ ct_closed v = ct_closed w /\ ct_next v = ct_next w /\ ct_cursor v = ct_cursor w
  /\ ct_loaded v = ct_loaded w /\ ct_ids v = ct_ids w
  /\ exists point, ct_inFlight v = Some (operation, point)
     /\ forall count, (count <= ct_requested w)%Z ->
        match point with
        | DrainEnded (Some more) =>
            ct_closed w = true
            \/ more = negb (bool_decide (ct_cursor w = None))
               /\ ((count <= 0)%Z \/ ct_loaded w = true /\ (more = false \/ (count <= Z.of_nat (length (ct_ids w)))%Z))
        | DrainEnded None => True
        | _ => (count <= ct_requested w)%Z
        end.
Proof.
  cbn zeta. unfold drainLoop. destruct (ct_closed w) eqn:Ec; [split_and!; try done; eexists; split; [done|by left]|].
  destruct (prefixRead w) eqn:Ep; (split_and!; [done..|]); eexists; (split; [done|]); [|done].
  intros count Hc. right. split; [done|]. unfold prefixRead in Ep. apply orb_true_iff in Ep as [E|E].
  - apply Z.eqb_eq in E. left. lia.
  - apply andb_prop in E as [El E]. right. split; [done|]. apply orb_true_iff in E as [E|E].
    + left. apply bool_decide_eq_true in E. by rewrite E.
    + right. apply Z.leb_le in E. lia.
Qed.

Lemma run_ensures requested fresh joins s :
  ensuresOk s -> (ct_requested (cs_window s) <= requested)%Z ->
  let w := withDemand requested fresh (ct_closed (cs_window s)) (cs_window s) in
  (forall operation count, (operation, count) ∈ joins ->
     operation = (runWindow w).2 /\ (count <= requested)%Z /\ draining (cs_window s) = true) ->
  ensuresOk {| cs_window := (runWindow w).1; cs_ensures := cs_ensures s ++ joins; cs_refreshes := cs_refreshes s |}.
Proof.
  intros [H1 H2 H3] Hle w Hj. unfold runWindow in *. cbn [w withDemand ct_inFlight] in *.
  destruct (ct_inFlight (cs_window s)) as [[operation point]|] eqn:E.
  - cbn [fst snd] in *. split; cbn [cs_window cs_ensures w withDemand ct_next ct_inFlight].
    + intros op count [Hin|Hin]%elem_of_app; [by eapply H1|]. destruct (Hj _ _ Hin) as (-> & _). by eapply H2.
    + intros op point' Hop. change (ct_inFlight (cs_window s) = Some (op, point')) in Hop. rewrite E in Hop. by eapply H2.
    + intros op point' count Hop [Hin|Hin]%elem_of_app; change (ct_inFlight (cs_window s) = Some (op, point')) in Hop; rewrite E in Hop.
      * specialize (H3 op point' count Hop Hin). unfold w. cbn [withDemand ct_closed ct_cursor ct_loaded ct_ids ct_requested].
        destruct point' as [| |[more|]]; try done; lia.
      * destruct (Hj _ _ Hin) as (-> & Hc & Hd). injection Hop as <-. unfold draining in Hd. rewrite E in Hd.
        destruct point as [| |]; done.
  - cbn [fst snd] in *. set (w1 := withDrain None _ _ _ _ w). set (op := ct_next w) in *.
    unfold beginDrain. set (w2 := if ct_refreshRequested w1 then _ else w1).
    assert (Hw2 : ct_requested w2 = requested /\ ct_next w2 = S (ct_next (cs_window s))) by (unfold w2; by destruct (ct_refreshRequested w1)).
    destruct Hw2 as [Hr Hn]. destruct (drainLoop_fields op [] w2) as (D1 & D2 & D3 & D4 & D5 & D6 & point & D7 & D8).
    rewrite <- D2, <- D4, <- D5, <- D6, Hr in D8.
    split; cbn [cs_window cs_ensures].
    + intros operation count [Hin|Hin]%elem_of_app; rewrite D3, Hn; [specialize (H1 _ _ Hin); lia|].
      destruct (Hj _ _ Hin) as (-> & _). change op with (ct_next (cs_window s)). lia.
    + intros operation point' Hop. rewrite D7 in Hop. injection Hop as <- <-. rewrite D3, Hn. change op with (ct_next (cs_window s)). lia.
    + intros operation point' count Hop [Hin|Hin]%elem_of_app; rewrite D7 in Hop; injection Hop as <- <-.
      * specialize (H1 _ _ Hin). change op with (ct_next (cs_window s)) in H1. lia.
      * destruct (Hj _ _ Hin) as (_ & Hc & _). rewrite D1, Hr. by apply D8.
Qed.

(** A step of the drain. *)
Lemma ensures_point s w operation point point' :
  ensuresOk s -> ct_inFlight (cs_window s) = Some (operation, point) ->
  (forall more, point <> DrainEnded more) -> ct_inFlight w = Some (operation, point') -> ct_next w = ct_next (cs_window s) ->
  (forall count, (count <= ct_requested (cs_window s))%Z ->
     match point' with
     | DrainEnded (Some more) =>
         ct_closed w = true
         \/ more = negb (bool_decide (ct_cursor w = None))
            /\ ((count <= 0)%Z \/ ct_loaded w = true /\ (more = false \/ (count <= Z.of_nat (length (ct_ids w)))%Z))
     | DrainEnded None => True
     | _ => (count <= ct_requested w)%Z
     end) ->
  ensuresOk (onWindow w s).
Proof.
  intros [H1 H2 H3] Ho Hp Hw Hn Hc. split; cbn [onWindow cs_window cs_ensures]; rewrite ?Hn, ?Hw.
  - exact H1.
  - intros ? ? [= <- <-]. by eapply H2.
  - intros ? ? count [= <- <-] Hin. apply Hc. specialize (H3 _ _ _ Ho Hin).
    destruct point as [| |more]; [exact H3..|]. by destruct (Hp more).
Qed.

Lemma ensures_step s e : ensuresOk s -> ensuresOk (catalogStep s e).
Proof.
  intros H. destruct e; cbn [catalogStep].
  - unfold ensure. set (w := withDemand _ _ _ _).
    pose proof (run_ensures (Z.max (ct_requested (cs_window s)) count) (ct_refreshRequested (cs_window s))
      (if draining (cs_window s) then [((runWindow w).2, count)] else []) s H ltac:(lia)) as Hr.
    fold w in Hr. cbn zeta in Hr. destruct (runWindow w) as [w' operation]. apply Hr.
    intros op c Hin. destruct (draining (cs_window s)); [|by apply not_elem_of_nil in Hin].
    apply list_elem_of_singleton in Hin as [= -> ->]. split_and!; [done|lia|done].
  - unfold refresh. destruct (ct_requested (cs_window s) =? 0)%Z; [rewrite app_nil_r; by destruct s|].
    pose proof (run_ensures (ct_requested (cs_window s)) true [] s H ltac:(lia)) as Hr. cbn zeta in Hr.
    set (w := withDemand _ true _ _) in *.
    assert (Hw : ensuresOk {| cs_window := (runWindow w).1; cs_ensures := cs_ensures s; cs_refreshes := cs_refreshes s |}).
    { rewrite app_nil_r in Hr. apply Hr. by intros ? ? ?%not_elem_of_nil. }
    destruct (ct_inFlight w) as [[operation point]|] eqn:E.
    + unfold runWindow in Hw. rewrite E in Hw. by destruct Hw as [W1 W2 W3].
    + by destruct Hw as [W1 W2 W3].
  - destruct (cs_refreshes s !! i) as [operation|]; [|done]. destruct (existsb _ _); [|done].
    pose proof (run_ensures (ct_requested (cs_window s)) (ct_refreshRequested (cs_window s)) [] s H ltac:(lia)) as Hr.
    cbn zeta in Hr. rewrite app_nil_r in Hr.
    assert (Hid : withDemand (ct_requested (cs_window s)) (ct_refreshRequested (cs_window s)) (ct_closed (cs_window s)) (cs_window s) = cs_window s)
      by (by destruct (cs_window s)).
    rewrite Hid in Hr. destruct Hr as [W1 W2 W3]; [by intros ? ? ?%not_elem_of_nil|]. by split.
  - unfold pageLoaded. destruct (ct_inFlight (cs_window s)) as [[operation [seen replaceHead|seen page ids|result]]|] eqn:E;
      try by destruct s.
    destruct loaded as [page|]; [|by eapply ensures_point].
    destruct (ct_closed (cs_window s)) eqn:Ec; [by eapply ensures_point; try done; left|].
    destruct (match pg_nextCursor page with Some next => shas next seen | None => false end); by eapply ensures_point.
  - unfold pagePublished. destruct (ct_inFlight (cs_window s)) as [[operation [seen replaceHead|seen page ids|result]]|] eqn:E;
      try by destruct s.
    destruct ok; [|by eapply ensures_point].
    set (w := withPrefix _ _ _ _).
    destruct (drainLoop_fields operation seen w) as (D1 & D2 & D3 & D4 & D5 & D6 & point & D7 & D8).
    rewrite <- D2, <- D4, <- D5, <- D6, <- D1 in D8.
    eapply ensures_point; try done. intros count Hc. apply D8. rewrite D1. exact Hc.
  - unfold drainFinally. destruct (ct_inFlight (cs_window s)) as [[operation [| |result]]|] eqn:E; try by destruct s.
    destruct H as [H1 H2 H3]. by split.
  - destruct H as [H1 H2 H3]. split; try done. intros operation point count Hop Hin. specialize (H3 operation point count Hop Hin).
    cbn [onWindow cs_window closeWindow withDemand ct_closed ct_requested] in *. destruct point as [| |[more|]]; try done. by left.
Qed.

Lemma ensures_run events : ensuresOk (runCatalog events).
Proof.
  unfold runCatalog. induction events as [|e events IH] using rev_ind.
  - split; cbn; [by intros ? ? ?%not_elem_of_nil|done..].
  - rewrite foldl_app. by apply ensures_step.
Qed.

(** A call of [ensure] gets what it asked for: when the drain it joined has ended,
    it failed, or the window was closed, or the answer says whether there is a
    continuation, and the count that was asked for has been read if there is. *)
Theorem ensure_reads_enough events :
  let s := runCatalog events in
  let w := cs_window s in
  forall operation count result,
    ct_inFlight w = Some (operation, DrainEnded result) -> (operation, count) ∈ cs_ensures s ->
    result = None \/ ct_closed w = true
    \/ exists more, result = Some more /\ more = negb (bool_decide (ct_cursor w = None))
       /\ ((count <= 0)%Z \/ ct_loaded w = true /\ (more = false \/ (count <= Z.of_nat (length (ct_ids w)))%Z)).
Proof.
  intros s w operation count result Hop Hin.
  pose proof (ensures_run events) as H. fold s in H.
  pose proof (eo_waiting _ H operation (DrainEnded result) count Hop Hin) as Hw. fold w in Hw.
  destruct result as [more|]; [|by left]. right. destruct Hw as [?|[Hm Hw]]; [by left|right]. by exists more.
Qed.

(** ** A drain ends *)

Section server.
(** A server: what it answers to a continuation; [None] where it fails. *)
Variable load : option jstr -> option ThreadCatalogPage.

(** The drain as long as it reads, with publications that are accepted. *)
Fixpoint serveDrain (fuel : nat) (w : ThreadCatalogWindow) : ThreadCatalogWindow :=
  match fuel with
  | O => w
  | S fuel =>
      match ct_inFlight w with
      | Some (_, AwaitLoad _ _) => serveDrain fuel (pagePublished true (pageLoaded (load (ct_cursor w)) w))
      | _ => w
      end
  end.

Lemma serve_ends cursors fuel operation seen replaceHead w :
  (forall cursor page next, load cursor = Some page -> pg_nextCursor page = Some next -> next ∈ cursors) ->
  NoDup seen -> seen ⊆ cursors -> length cursors - length seen < fuel ->
  ct_inFlight w = Some (operation, AwaitLoad seen replaceHead) ->
  exists result, ct_inFlight (serveDrain fuel w) = Some (operation, DrainEnded result).
Proof.
  intros Hc. revert seen replaceHead w. induction fuel as [|fuel IH]; intros seen replaceHead w Hn Hs Hf Hw; [lia|].
  assert (Hdone : forall n v result, ct_inFlight v = Some (operation, DrainEnded result) ->
    exists result, ct_inFlight (serveDrain n v) = Some (operation, DrainEnded result)).
  { intros n v result Hv. exists result. destruct n; cbn [serveDrain]; [done|]. by rewrite Hv. }
  cbn [serveDrain]. rewrite Hw. unfold pageLoaded. rewrite Hw.
  destruct (load (ct_cursor w)) as [page|] eqn:El; [|by eapply Hdone].
  destruct (ct_closed w); [by eapply Hdone|].
  destruct (pg_nextCursor page) as [next|] eqn:En.
  - destruct (shas next seen) eqn:Eh; [by eapply Hdone|]. unfold shas in Eh. apply bool_decide_eq_false in Eh.
    assert (Hnext : next ∈ cursors) by (by eapply Hc).
    assert (Hlen : length seen < length cursors).
    { apply (submseteq_length (next :: seen) cursors), NoDup_submseteq; [by constructor|]. by intros x [->|Hx]%elem_of_cons; [|apply Hs]. }
    assert (Hseen : sadd next seen = seen ++ [next]) by (unfold sadd, shas; by rewrite bool_decide_false).
    unfold pagePublished at 1. cbn [drainTo withDrain ct_inFlight]. unfold drainLoop. cbn [withPrefix ct_closed].
    set (v := withPrefix _ _ _ _). set (b := ct_closed _). destruct b; [by eapply Hdone|].
    destruct (prefixRead v); [by eapply Hdone|]. eapply IH; [| | |done].
    + by apply sadd_nodup.
    + rewrite Hseen. intros x [Hx|Hx]%elem_of_app; [by apply Hs|]. apply list_elem_of_singleton in Hx. by subst.
    + rewrite Hseen, length_app. cbn. lia.
  - unfold pagePublished at 1. cbn [drainTo withDrain ct_inFlight]. unfold drainLoop. set (v := withPrefix _ _ _ _).
    destruct (ct_closed v); [by eapply Hdone|].
    assert (Hp : prefixRead v = true); [|rewrite Hp; by eapply Hdone].
    unfold prefixRead, v. cbn [withPrefix ct_loaded ct_cursor]. rewrite En. by rewrite orb_true_r.
Qed.

(** C22. Reading a catalogue ends: whatever a server answers, as long as its
    continuations are among [n] ones, a drain has ended after [n + 1] pages; a
    server that repeats a continuation is refused. *)
Theorem drain_terminates cursors w operation point :
  (forall cursor page next, load cursor = Some page -> pg_nextCursor page = Some next -> next ∈ cursors) ->
  ct_inFlight w = None -> ct_inFlight (runWindow w).1 = Some (operation, point) ->
  exists result, ct_inFlight (serveDrain (S (length cursors)) (runWindow w).1) = Some (operation, DrainEnded result).
Proof.
  intros Hc Hw Hr. assert (Hp : (exists replaceHead, point = AwaitLoad [] replaceHead) \/ exists result, point = DrainEnded result).
  { unfold runWindow in Hr. rewrite Hw in Hr. cbn [fst] in Hr. unfold beginDrain, drainLoop in Hr.
    set (v := if ct_refreshRequested _ then _ else _) in Hr.
    destruct (ct_closed v); [|destruct (prefixRead v)]; injection Hr as <- <-; eauto. }
  destruct Hp as [[replaceHead ->]|[result ->]].
  - apply (serve_ends cursors (S (length cursors)) operation [] replaceHead); try done; [apply NoDup_nil_2|apply list_subseteq_nil|cbn; lia].
  - exists result. cbn [serveDrain]. by rewrite Hr.
Qed.
End server.

(** ** Runs *)

Definition demo_row_of (id : string) : ThreadListRow :=
  {| meta := {| row_archived := false; row_cursor := 1; row_liveActivity := None |}; row_thread := JNull; row_threadId := js id |}.

Definition demo_page (ids : list string) (next : option string) : ThreadCatalogPage :=
  {| pg_archivedCount := None; pg_excludedThreadIds := []; pg_nextCursor := js <$> next; pg_rows := demo_row_of <$> ids |}.

(** Three threads are asked for and read with two pages. *)
Definition demo_reads : list CatalogEvent :=
  [EnsureCalled 3; PageLoaded (Some (demo_page ["a"; "b"] (Some "p2"))); PagePublished true;
   PageLoaded (Some (demo_page ["b"; "c"; "d"] (Some "p3"))); PagePublished true].

Lemma ensure_reads_enough_witness :
  let w := cs_window (runCatalog demo_reads) in
  ct_inFlight w = Some (0, DrainEnded (Some true))
  /\ (Some true = None \/ ct_closed w = true
      \/ exists more, Some true = Some more /\ more = negb (bool_decide (ct_cursor w = None))
         /\ ((3 <= 0)%Z \/ ct_loaded w = true /\ (more = false \/ (3 <= Z.of_nat (length (ct_ids w)))%Z))).
Proof.
  cbv zeta. assert (Hf : ct_inFlight (cs_window (runCatalog demo_reads)) = Some (0, DrainEnded (Some true))) by (vm_compute; reflexivity).
  assert (He : (0, 3%Z) ∈ cs_ensures (runCatalog demo_reads)) by (apply (bool_decide_unpack _); vm_compute; reflexivity).
  split; [exact Hf|]. exact (ensure_reads_enough demo_reads 0 3%Z (Some true) Hf He).
Defined.

(** A server that gives a continuation twice. *)
Definition demo_server (cursor : option jstr) : option ThreadCatalogPage := Some (demo_page ["a"] (Some "p2")).

Lemma drain_terminates_witness :
  let w := withDemand 5 false false newCatalogWindow in
  exists result, ct_inFlight (serveDrain demo_server 2 (runWindow w).1) = Some (0, DrainEnded result).
Proof.
  cbv zeta. apply (drain_terminates demo_server [js "p2"] _ 0 (AwaitLoad [] true)); [|reflexivity|reflexivity].
  intros cursor page next [= <-] [= <-]. by apply list_elem_of_singleton.
Defined.

(** A call of [ensure] between the end of a drain and its [finally] gets the answer
    of the drain, although nothing of what it asked for was read. *)
Lemma late_ensure_unread :
  let s := runCatalog (demo_reads ++ [EnsureCalled 100; DrainFinally]) in
  let w := cs_window s in
  ct_settled w = [(0, Some true)] /\ ct_inFlight w = None /\ ct_requested w = 100%Z /\ length (ct_ids w) = 4
  /\ length (ct_loads w) = 2.
Proof. vm_compute. by split_and!. Qed.
