(* ===== verification/VoiceReconnect.v ===== *)
(** * The transport of an activation

    Models apps/android/src/data/globalSupervisorReconnectOwner.ts with the
    backoff of globalSupervisorRecoveryPolicy.ts: one logical activation of the
    voice assistant over transports that are replaced, paused and stopped.

    Everything asynchronous is a tracked operation ([Work]); [wk_point] is the
    await it is at.  What waits for nothing but the queue of microtasks goes on by
    [proceed]; what waits for a transport or a timer goes on when that settles.
    Attempts are a heap; each has one transport, which has the number of its
    attempt.  [at_pending] and [at_live] say of it that it is being started, and
    that it was started and its stop is not confirmed. *)
From S2P Require Import Prelude.

Local Open Scope nat_scope.

(** ** Backoff *)

Record RecoveryPolicy := { maxRetryMs : Z; retryBaseMs : Z; stableConnectionMs : Z }.

Definition GLOBAL_SUPERVISOR_RECONNECT_POLICY : RecoveryPolicy :=
  {| maxRetryMs := 30000; retryBaseMs := 500; stableConnectionMs := 10000 |}.

Definition MAX_RETRY_EXPONENT : nat := 16.

(** [ep_stable]: whether the timer that ends the episode runs. *)
Record Episode := { ep_attempts : nat; ep_recovering : bool; ep_stable : bool }.

Definition newEpisode : Episode := {| ep_attempts := 0; ep_recovering := false; ep_stable := false |}.

Definition episodeConnected (e : Episode) : Episode :=
  if negb (ep_recovering e) || ep_stable e then e
  else {| ep_attempts := ep_attempts e; ep_recovering := ep_recovering e; ep_stable := true |}.

Definition episodeInterrupted (e : Episode) : Episode :=
  {| ep_attempts := ep_attempts e; ep_recovering := true; ep_stable := false |}.

(** The ceiling the random delay stays below, and the attempts counted. *)
Definition retryCeiling (policy : RecoveryPolicy) (attempts : nat) : Z :=
  Z.min (maxRetryMs policy) (retryBaseMs policy * 2 ^ Z.of_nat (Nat.min attempts MAX_RETRY_EXPONENT)).

Definition episodeRetry (policy : RecoveryPolicy) (e : Episode) : Episode * Z :=
  ({| ep_attempts := Nat.min (S (ep_attempts e)) MAX_RETRY_EXPONENT; ep_recovering := ep_recovering e;
      ep_stable := ep_stable e |}, retryCeiling policy (ep_attempts e)).

(** ** The owner *)

Inductive Readiness := Ready | Waiting | Blocked.
Inductive OwnerMode := NewOwner | PausedOwner | RunningOwner | StoppedOwner.
Inductive StartReason := ForActivation | ForRecovery | ForResume.
Inductive FatalReason := AccessRequired | TransportFailed.

#[export] Instance Readiness_eq_dec : EqDecision Readiness.
Proof. solve_decision. Defined.
#[export] Instance OwnerMode_eq_dec : EqDecision OwnerMode.
Proof. solve_decision. Defined.

Record Attempt :=
  { at_aborted : bool; at_suspended : bool; at_terminal : bool; at_transport : bool; at_pending : bool; at_live : bool }.

(** Who called [track], and what [beginAttempt] was called for. *)
Inductive WorkOrigin := FromStart | FromResume | FromRecovery.
Inductive AttemptUse := UseActivation | UseResume | UseRetry.

(** The awaits.  [stopping]: whether a transport is being stopped; with [false]
    the promise is settled already. *)
Inductive WorkPoint :=
| Starting (a : nat) (muted : bool) (use : AttemptUse)
| Muting (a : nat) (applied : bool) (use : AttemptUse)
| Refusing (a : nat) (stopping : bool) (use : AttemptUse)
| Failing (a : nat) (stopping : bool) (cleanup : bool) (use : AttemptUse)
| Replacing (previous : option nat) (stopping : bool)
| WaitReady (resolved : bool)
| WaitDelay (ceiling : Z) (elapsed : option bool)
| WorkEnded (ok : bool)
| WorkCaught
| WorkSettled (ok : bool).

Record Work := { wk_origin : WorkOrigin; wk_expected : nat; wk_point : WorkPoint }.

(** A call of [pause]: the transport it is stopping ([Some false] once that was
    refused) and the operation it waits for. *)
Record Pause := { pa_stopping : option nat; pa_refused : bool; pa_work : option nat }.

Inductive OwnerCall :=
| Reconnecting | Recovered (a : nat) | Fatal (reason : FatalReason) | TransportStarted (a : nat) (reason : StartReason)
| TransportStopped (a : nat) | TransportMuted (a : nat) (muted : bool).

Record ReconnectOwner :=
  { ro_attempts : list Attempt; ro_current : option nat; ro_starting : option nat; ro_mode : OwnerMode;
    ro_generation : nat; ro_muted : bool; ro_cancelWait : option nat; ro_work : option nat; ro_works : list Work;
    ro_cleanup : bool; ro_subscribed : bool; ro_readiness : Readiness; ro_episode : Episode;
    ro_ready : Readiness; ro_pauses : list Pause; ro_stops : list nat; ro_log : list OwnerCall }.

Definition newOwner (ready : Readiness) : ReconnectOwner :=
  {| ro_attempts := []; ro_current := None; ro_starting := None; ro_mode := NewOwner; ro_generation := 0;
     ro_muted := false; ro_cancelWait := None; ro_work := None; ro_works := []; ro_cleanup := false;
     ro_subscribed := false; ro_readiness := ready; ro_episode := newEpisode; ro_ready := ready; ro_pauses := [];
     ro_stops := []; ro_log := [] |}.

Definition setAttempts (attempts : list Attempt) (o : ReconnectOwner) : ReconnectOwner :=
  {| ro_attempts := attempts; ro_current := ro_current o; ro_starting := ro_starting o; ro_mode := ro_mode o;
     ro_generation := ro_generation o; ro_muted := ro_muted o; ro_cancelWait := ro_cancelWait o; ro_work := ro_work o;
     ro_works := ro_works o; ro_cleanup := ro_cleanup o; ro_subscribed := ro_subscribed o;
     ro_readiness := ro_readiness o; ro_episode := ro_episode o; ro_ready := ro_ready o; ro_pauses := ro_pauses o;
     ro_stops := ro_stops o; ro_log := ro_log o |}.

Definition setCurrent (current starting : option nat) (o : ReconnectOwner) : ReconnectOwner :=
  {| ro_attempts := ro_attempts o; ro_current := current; ro_starting := starting; ro_mode := ro_mode o;
     ro_generation := ro_generation o; ro_muted := ro_muted o; ro_cancelWait := ro_cancelWait o; ro_work := ro_work o;
     ro_works := ro_works o; ro_cleanup := ro_cleanup o; ro_subscribed := ro_subscribed o;
     ro_readiness := ro_readiness o; ro_episode := ro_episode o; ro_ready := ro_ready o; ro_pauses := ro_pauses o;
     ro_stops := ro_stops o; ro_log := ro_log o |}.

Definition setMode (mode : OwnerMode) (generation : nat) (subscribed : bool) (o : ReconnectOwner) : ReconnectOwner :=
  {| ro_attempts := ro_attempts o; ro_current := ro_current o; ro_starting := ro_starting o; ro_mode := mode;
     ro_generation := generation; ro_muted := ro_muted o; ro_cancelWait := ro_cancelWait o; ro_work := ro_work o;
     ro_works := ro_works o; ro_cleanup := ro_cleanup o; ro_subscribed := subscribed;
     ro_readiness := ro_readiness o; ro_episode := ro_episode o; ro_ready := ro_ready o; ro_pauses := ro_pauses o;
     ro_stops := ro_stops o; ro_log := ro_log o |}.

Definition setWork (work : option nat) (works : list Work) (cancelWait : option nat) (o : ReconnectOwner) : ReconnectOwner :=
  {| ro_attempts := ro_attempts o; ro_current := ro_current o; ro_starting := ro_starting o; ro_mode := ro_mode o;
     ro_generation := ro_generation o; ro_muted := ro_muted o; ro_cancelWait := cancelWait; ro_work := work;
     ro_works := works; ro_cleanup := ro_cleanup o; ro_subscribed := ro_subscribed o;
     ro_readiness := ro_readiness o; ro_episode := ro_episode o; ro_ready := ro_ready o; ro_pauses := ro_pauses o;
     ro_stops := ro_stops o; ro_log := ro_log o |}.

Definition setEnds (pauses : list Pause) (stops : list nat) (cleanup : bool) (o : ReconnectOwner) : ReconnectOwner :=
  {| ro_attempts := ro_attempts o; ro_current := ro_current o; ro_starting := ro_starting o; ro_mode := ro_mode o;
     ro_generation := ro_generation o; ro_muted := ro_muted o; ro_cancelWait := ro_cancelWait o; ro_work := ro_work o;
     ro_works := ro_works o; ro_cleanup := cleanup; ro_subscribed := ro_subscribed o;
     ro_readiness := ro_readiness o; ro_episode := ro_episode o; ro_ready := ro_ready o; ro_pauses := pauses;
     ro_stops := stops; ro_log := ro_log o |}.

Definition setRest (muted : bool) (readiness ready : Readiness) (episode : Episode) (log : list OwnerCall)
    (o : ReconnectOwner) : ReconnectOwner :=
  {| ro_attempts := ro_attempts o; ro_current := ro_current o; ro_starting := ro_starting o; ro_mode := ro_mode o;
     ro_generation := ro_generation o; ro_muted := muted; ro_cancelWait := ro_cancelWait o; ro_work := ro_work o;
     ro_works := ro_works o; ro_cleanup := ro_cleanup o; ro_subscribed := ro_subscribed o;
     ro_readiness := readiness; ro_episode := episode; ro_ready := ready; ro_pauses := ro_pauses o;
     ro_stops := ro_stops o; ro_log := log |}.

Definition setEpisode (episode : Episode) (o : ReconnectOwner) : ReconnectOwner :=
  setRest (ro_muted o) (ro_readiness o) (ro_ready o) episode (ro_log o) o.

Definition logCall (call : OwnerCall) (o : ReconnectOwner) : ReconnectOwner :=
  setRest (ro_muted o) (ro_readiness o) (ro_ready o) (ro_episode o) (ro_log o ++ [call]) o.

Definition onAttempt (f : Attempt -> Attempt) (a : nat) (o : ReconnectOwner) : ReconnectOwner :=
  setAttempts (alter f a (ro_attempts o)) o.

Definition abortAttempt (t : Attempt) : Attempt :=
  {| at_aborted := true; at_suspended := at_suspended t; at_terminal := at_terminal t; at_transport := at_transport t;
     at_pending := at_pending t; at_live := at_live t |}.

Definition releaseTransport (t : Attempt) : Attempt :=
  {| at_aborted := true; at_suspended := at_suspended t; at_terminal := at_terminal t; at_transport := false;
     at_pending := at_pending t; at_live := at_live t |}.

Definition markAttempt (suspended terminal : bool) (t : Attempt) : Attempt :=
  {| at_aborted := at_aborted t; at_suspended := suspended; at_terminal := terminal; at_transport := at_transport t;
     at_pending := at_pending t; at_live := at_live t |}.

(** The promise of the start settles; the stop is confirmed. *)
Definition attemptStarted (ok : bool) (t : Attempt) : Attempt :=
  {| at_aborted := at_aborted t; at_suspended := at_suspended t; at_terminal := at_terminal t; at_transport := ok;
     at_pending := false; at_live := ok |}.

Definition attemptStopped (t : Attempt) : Attempt :=
  {| at_aborted := at_aborted t; at_suspended := at_suspended t; at_terminal := at_terminal t;
     at_transport := at_transport t; at_pending := at_pending t; at_live := false |}.

Definition withPoint (point : WorkPoint) (k : Work) : Work :=
  {| wk_origin := wk_origin k; wk_expected := wk_expected k; wk_point := point |}.

Definition movePoint (w : nat) (point : WorkPoint) (o : ReconnectOwner) : ReconnectOwner :=
  setWork (ro_work o) (alter (withPoint point) w (ro_works o)) (ro_cancelWait o) o.

Definition isTerminal (a : nat) (o : ReconnectOwner) : bool :=
  match ro_attempts o !! a with Some t => at_terminal t | None => false end.

Definition canRun (expected : nat) (o : ReconnectOwner) : bool :=
  bool_decide (ro_mode o = RunningOwner) && (ro_generation o =? expected).

Definition canInstall (a expected : nat) (o : ReconnectOwner) : bool :=
  canRun expected o && match ro_attempts o !! a with Some t => negb (at_terminal t) && negb (at_aborted t) | None => false end
  && bool_decide (ro_ready o = Ready).

Definition interrupted (o : ReconnectOwner) : ReconnectOwner :=
  logCall Reconnecting (setEpisode (episodeInterrupted (ro_episode o)) o).

(** [disposeAttempt] until it waits, and whether it waits for a stop. *)
Definition disposeAttempt (attempt : option nat) (o : ReconnectOwner) : ReconnectOwner * bool :=
  match attempt with
  | None => (o, false)
  | Some a =>
      if match ro_attempts o !! a with Some t => at_transport t | None => false end
      then (logCall (TransportStopped a) (onAttempt releaseTransport a o), true)
      else (onAttempt abortAttempt a o, false)
  end.

(** [cancelWait?.()]. *)
Definition resolveWait (k : Work) : Work :=
  match wk_point k with
  | WaitReady _ => withPoint (WaitReady true) k
  | WaitDelay ceiling None => withPoint (WaitDelay ceiling (Some false)) k
  | _ => k
  end.

Definition cancelWaiting (o : ReconnectOwner) : ReconnectOwner :=
  match ro_cancelWait o with
  | Some w => setWork (ro_work o) (alter resolveWait w (ro_works o)) (ro_cancelWait o) o
  | None => o
  end.

Definition abortStarting (o : ReconnectOwner) : ReconnectOwner :=
  match ro_starting o with Some a => onAttempt abortAttempt a o | None => o end.

Definition cancelOwner (o : ReconnectOwner) : ReconnectOwner :=
  let o := cancelWaiting (setMode (ro_mode o) (S (ro_generation o)) (ro_subscribed o) o) in
  setEpisode newEpisode (abortStarting (setWork (ro_work o) (ro_works o) None o)).

Definition stopOwner (o : ReconnectOwner) : ReconnectOwner :=
  let o := cancelOwner (setMode StoppedOwner (ro_generation o) (ro_subscribed o) o) in
  let previous := ro_current o in
  let o := setCurrent None (ro_starting o) (setMode (ro_mode o) (ro_generation o) false o) in
  if ro_cleanup o then o
  else
    let '(o, stopping) := disposeAttempt previous o in
    setEnds (ro_pauses o) (ro_stops o ++ match previous with Some a => if stopping : bool then [a] else [] | None => [] end) true o.

Definition failOwner (reason : FatalReason) (o : ReconnectOwner) : ReconnectOwner :=
  if bool_decide (ro_mode o = RunningOwner) then logCall (Fatal reason) (stopOwner o) else o.

(** [track] of an operation that is at a point. *)
Definition trackWork (origin : WorkOrigin) (point : WorkPoint) (o : ReconnectOwner) : ReconnectOwner * nat :=
  let w := length (ro_works o) in
  (setWork (Some w) (ro_works o ++ [{| wk_origin := origin; wk_expected := ro_generation o; wk_point := point |}])
     (ro_cancelWait o) o, w).

Definition newAttempt : Attempt :=
  {| at_aborted := false; at_suspended := false; at_terminal := false; at_transport := false; at_pending := true;
     at_live := false |}.

(** [beginAttempt] until it waits. *)
Definition beginAttempt (w : nat) (reason : StartReason) (use : AttemptUse) (o : ReconnectOwner) : ReconnectOwner :=
  let a := length (ro_attempts o) in
  movePoint w (Starting a (ro_muted o) use)
    (logCall (TransportStarted a reason)
       (setCurrent (ro_current o) (Some a) (setAttempts (ro_attempts o ++ [newAttempt]) o))).

(** [retry] until it waits. *)
Definition beginRetry (w : nat) (o : ReconnectOwner) : ReconnectOwner :=
  let o := interrupted o in
  let previous := ro_current o in
  let '(o, stopping) := disposeAttempt previous (setCurrent None (ro_starting o) o) in
  movePoint w (Replacing previous stopping) o.

Definition scheduleReconnect (o : ReconnectOwner) : ReconnectOwner :=
  if negb (bool_decide (ro_mode o = RunningOwner)) then o
  else
    let o := interrupted o in
    match ro_work o with
    | Some _ => o
    | None => let '(o, w) := trackWork FromRecovery (Replacing None false) o in beginRetry w o
    end.

Section policy.
Variable policy : RecoveryPolicy.

(** The loop of [retry] until it waits. *)
Definition retryLoop (w expected : nat) (o : ReconnectOwner) : ReconnectOwner :=
  if negb (canRun expected o) then movePoint w (WorkEnded true) o
  else
    match ro_ready o with
    | Blocked => movePoint w (WorkEnded true) (failOwner AccessRequired o)
    | Waiting => movePoint w (WaitReady false) (setWork (ro_work o) (ro_works o) (Some w) o)
    | Ready =>
        let '(episode, ceiling) := episodeRetry policy (ro_episode o) in
        movePoint w (WaitDelay ceiling None) (setWork (ro_work o) (ro_works o) (Some w) (setEpisode episode o))
    end.

(** What [beginAttempt] returned or threw; [Threw true]: a cleanup was not
    confirmed. *)
Inductive AttemptResult := Installed | NotInstalled | Threw (cleanup : bool).

(** [beginAttempt] is over, and its caller goes on. *)
Definition finishAttempt (w expected : nat) (use : AttemptUse) (result : AttemptResult) (o : ReconnectOwner) : ReconnectOwner :=
  let o := setCurrent (ro_current o) None o in
  match use, result with
  | UseActivation, Installed | UseResume, Installed | UseRetry, Installed => movePoint w (WorkEnded true) o
  | UseActivation, _ => movePoint w (WorkEnded false) o
  | _, Threw true => movePoint w (WorkEnded false) o
  | UseResume, _ => if canRun expected o then beginRetry w o else movePoint w (WorkEnded true) o
  | UseRetry, _ => retryLoop w expected o
  end.

(** A started transport takes the muting that was asked for meanwhile, and is
    installed or refused. *)
Definition settleTransport (w expected a : nat) (applied : bool) (use : AttemptUse) (o : ReconnectOwner) : ReconnectOwner :=
  if canInstall a expected o then
    if Bool.eqb applied (ro_muted o) then
      let suspended := match ro_attempts o !! a with Some t => at_suspended t | None => false end in
      let o := setCurrent (Some a) (ro_starting o) o in
      let o := if suspended then interrupted o else setEpisode (episodeConnected (ro_episode o)) o in
      finishAttempt w expected use Installed o
    else movePoint w (Muting a (ro_muted o) use) (logCall (TransportMuted a (ro_muted o)) o)
  else
    let '(o, stopping) := disposeAttempt (Some a) o in
    movePoint w (Refusing a stopping use) o.

(** An exception in [beginAttempt]. *)
Definition failAttempt (w a : nat) (cleanup : bool) (use : AttemptUse) (o : ReconnectOwner) : ReconnectOwner :=
  let '(o, stopping) := disposeAttempt (Some a) o in
  movePoint w (Failing a stopping cleanup use) o.

(** The handler of [finally] in [track], and the handlers of its rejection. *)
Definition workFinally (w : nat) (origin : WorkOrigin) (ok : bool) (o : ReconnectOwner) : ReconnectOwner :=
  let o := if bool_decide (ro_work o = Some w) then setWork None (ro_works o) (ro_cancelWait o) o else o in
  let o := match ro_current o with
           | Some a => if isTerminal a o then scheduleReconnect o else o
           | None => o
           end in
  movePoint w
    (if ok then WorkSettled true
     else match origin with FromResume => WorkSettled false | _ => WorkCaught end) o.

Definition workCaught (w : nat) (origin : WorkOrigin) (o : ReconnectOwner) : ReconnectOwner :=
  movePoint w (WorkSettled false)
    match origin with
    | FromRecovery => failOwner TransportFailed o
    | _ => stopOwner o
    end.

(** A microtask. *)
Definition proceed (w : nat) (o : ReconnectOwner) : ReconnectOwner :=
  match ro_works o !! w with
  | None => o
  | Some k =>
      let expected := wk_expected k in
      match wk_point k with
      | Refusing _ false use => finishAttempt w expected use NotInstalled o
      | Failing _ false cleanup use => finishAttempt w expected use (Threw cleanup) o
      | Replacing _ false => retryLoop w expected o
      | WaitReady true => retryLoop w expected (setWork (ro_work o) (ro_works o) None o)
      | WaitDelay _ (Some elapsed) =>
          let o := setWork (ro_work o) (ro_works o) None o in
          if negb elapsed || negb (canRun expected o) || negb (bool_decide (ro_ready o = Ready)) then retryLoop w expected o
          else beginAttempt w ForRecovery UseRetry o
      | WorkEnded ok => workFinally w (wk_origin k) ok o
      | WorkCaught => workCaught w (wk_origin k) o
      | _ => o
      end
  end.

(** [options.startTransport] settles. *)
Definition startSettles (w : nat) (ok : bool) (o : ReconnectOwner) : ReconnectOwner :=
  match ro_works o !! w with
  | Some {| wk_expected := expected; wk_point := Starting a muted use |} =>
      let o := onAttempt (attemptStarted ok) a o in
      if ok then settleTransport w expected a muted use o else failAttempt w a false use o
  | _ => o
  end.

Definition muteSettles (w : nat) (ok : bool) (o : ReconnectOwner) : ReconnectOwner :=
  match ro_works o !! w with
  | Some {| wk_expected := expected; wk_point := Muting a applied use |} =>
      if ok then settleTransport w expected a applied use o else failAttempt w a false use o
  | _ => o
  end.

(** Whether an operation waits for the stop of a transport. *)
Definition awaitsStop (a : nat) (k : Work) : bool :=
  match wk_point k with
  | Refusing a' true _ | Failing a' true _ _ | Replacing (Some a') true => a' =? a
  | _ => false
  end.

Definition stopSettled (w : nat) (ok : bool) (k : Work) (o : ReconnectOwner) : ReconnectOwner :=
  match wk_point k with
  | Refusing a _ use => if ok then finishAttempt w (wk_expected k) use NotInstalled o else failAttempt w a true use o
  | Failing _ _ cleanup use => finishAttempt w (wk_expected k) use (Threw (cleanup || negb ok)) o
  | Replacing _ _ => if ok then retryLoop w (wk_expected k) o else movePoint w (WorkEnded false) o
  | _ => o
  end.

Definition pauseStopped (a : nat) (ok : bool) (p : Pause) : Pause :=
  if bool_decide (pa_stopping p = Some a)
  then {| pa_stopping := None; pa_refused := pa_refused p || negb ok; pa_work := pa_work p |} else p.

(** [transport.stop()] settles. *)
Definition stopSettles (a : nat) (ok : bool) (o : ReconnectOwner) : ReconnectOwner :=
  let confirmed := if ok then onAttempt attemptStopped a o else o in
  match list_find (fun k => awaitsStop a k = true) (ro_works o) with
  | Some (w, k) => stopSettled w ok k confirmed
  | None =>
      if existsb (fun p => bool_decide (pa_stopping p = Some a)) (ro_pauses o) || bool_decide (a ∈ ro_stops o)
      then setEnds (pauseStopped a ok <$> ro_pauses o) (filter (fun a' => a' <> a) (ro_stops o)) (ro_cleanup o) confirmed
      else o
  end.

(** ** Its callers *)

Definition startOwner (o : ReconnectOwner) : ReconnectOwner :=
  if negb (bool_decide (ro_mode o = NewOwner)) then o
  else
    let o := setMode RunningOwner (S (ro_generation o)) true o in
    let '(o, w) := trackWork FromStart (WorkEnded false) o in
    if bool_decide (ro_ready o = Ready) then beginAttempt w ForActivation UseActivation o else o.

Definition pauseOwner (o : ReconnectOwner) : ReconnectOwner :=
  if bool_decide (ro_mode o = StoppedOwner) || bool_decide (ro_mode o = PausedOwner) then o
  else
    let o := cancelOwner (setMode PausedOwner (ro_generation o) (ro_subscribed o) o) in
    let previous := ro_current o in
    let '(o, stopping) := disposeAttempt previous (setCurrent None (ro_starting o) o) in
    let pause := {| pa_stopping := if stopping : bool then previous else None; pa_refused := false; pa_work := ro_work o |} in
    setEnds (ro_pauses o ++ [pause]) (ro_stops o) (ro_cleanup o) o.

Definition resumeOwner (o : ReconnectOwner) : ReconnectOwner :=
  if negb (bool_decide (ro_mode o = PausedOwner)) then o
  else
    let o := setMode RunningOwner (S (ro_generation o)) (ro_subscribed o) o in
    let '(o, w) := trackWork FromResume (Replacing None false) o in
    if bool_decide (ro_ready o = Ready) then beginAttempt w ForResume UseResume o else beginRetry w o.

Definition setMicrophoneMuted (muted : bool) (o : ReconnectOwner) : ReconnectOwner :=
  let o := setRest muted (ro_readiness o) (ro_ready o) (ro_episode o) (ro_log o) o in
  match ro_current o with
  | Some a => if match ro_attempts o !! a with Some t => at_transport t | None => false end
              then logCall (TransportMuted a muted) o else o
  | None => o
  end.

(** [observeReadiness]. *)
Definition observeReadiness (o : ReconnectOwner) : ReconnectOwner :=
  let next := ro_ready o in
  if negb (ro_subscribed o) || bool_decide (ro_readiness o = next) then o
  else
    let o := setRest (ro_muted o) next next (ro_episode o) (ro_log o) o in
    if negb (bool_decide (ro_mode o = RunningOwner)) then o
    else
      let o := cancelWaiting o in
      match next with
      | Blocked => failOwner AccessRequired o
      | Waiting =>
          let o := abortStarting o in
          let o := match ro_current o with
                   | Some a => onAttempt (fun t => markAttempt (at_suspended t) true t) a o
                   | None => o
                   end in
          scheduleReconnect o
      | Ready => o
      end.

(** The callbacks of an attempt. *)
Definition transportConnected (a : nat) (o : ReconnectOwner) : ReconnectOwner :=
  match ro_attempts o !! a with
  | None => o
  | Some t =>
      let o := onAttempt (markAttempt false (at_terminal t)) a o in
      if bool_decide (ro_current o = Some a) && at_suspended t && negb (at_terminal t) && at_transport t
      then logCall (Recovered a) (setEpisode (episodeConnected (ro_episode o)) o) else o
  end.

Definition transportSuspended (a : nat) (o : ReconnectOwner) : ReconnectOwner :=
  let o := onAttempt (fun t => markAttempt true (at_terminal t) t) a o in
  if bool_decide (ro_current o = Some a) then interrupted o else o.

Definition transportEnded (a : nat) (o : ReconnectOwner) : ReconnectOwner :=
  let o := onAttempt (fun t => markAttempt (at_suspended t) true t) a o in
  if bool_decide (ro_current o = Some a) then scheduleReconnect o else o.

(** Whether a microtask will go on with the operation. *)
Definition inMicrotask (k : Work) : bool :=
  match wk_point k with
  | Refusing _ false _ | Failing _ false _ _ | Replacing _ false | WaitReady true | WaitDelay _ (Some _) | WorkEnded _
  | WorkCaught => true
  | _ => false
  end.

Definition noMicrotasks (o : ReconnectOwner) : bool := forallb (fun k => negb (inMicrotask k)) (ro_works o).

(** The timer of a delay: timers run when no microtask is left. *)
Definition delayElapses (w : nat) (o : ReconnectOwner) : ReconnectOwner :=
  match ro_works o !! w with
  | Some {| wk_point := WaitDelay ceiling None |} =>
      if noMicrotasks o then movePoint w (WaitDelay ceiling (Some true)) o else o
  | _ => o
  end.

Inductive OwnerEvent :=
| StartCalled | PauseCalled | ResumeCalled | StopCalled | MuteCalled (muted : bool)
| StartSettles (w : nat) (ok : bool) | MuteSettles (w : nat) (ok : bool) | StopSettles (a : nat) (ok : bool)
| Proceeds (w : nat) | DelayElapses (w : nat) | StableElapses
| ReadinessIs (ready : Readiness) | ReadinessNotified
| Connected (a : nat) | Suspended (a : nat) | Terminated (a : nat).

Definition ownerStep (o : ReconnectOwner) (e : OwnerEvent) : ReconnectOwner :=
  match e with
  | StartCalled => startOwner o
  | PauseCalled => pauseOwner o
  | ResumeCalled => resumeOwner o
  | StopCalled => stopOwner o
  | MuteCalled muted => setMicrophoneMuted muted o
  | StartSettles w ok => startSettles w ok o
  | MuteSettles w ok => muteSettles w ok o
  | StopSettles a ok => stopSettles a ok o
  | Proceeds w => proceed w o
  | DelayElapses w => delayElapses w o
  | StableElapses => if ep_stable (ro_episode o) then setEpisode newEpisode o else o
  | ReadinessIs ready => setRest (ro_muted o) (ro_readiness o) ready (ro_episode o) (ro_log o) o
  | ReadinessNotified => observeReadiness o
  | Connected a => transportConnected a o
  | Suspended a => transportSuspended a o
  | Terminated a => transportEnded a o
  end.

Definition runOwner (ready : Readiness) (events : list OwnerEvent) : ReconnectOwner :=
  foldl ownerStep (newOwner ready) events.
End policy.

(** ** Orderly runs *)

(** A promise of an owner that is not stopped was rejected: its caller stops the
    activation. *)
Definition rejected (o : ReconnectOwner) : bool :=
  negb (bool_decide (ro_mode o = StoppedOwner))
  && (existsb (fun k => match wk_point k with WorkSettled false => true | _ => false end) (ro_works o)
      || existsb pa_refused (ro_pauses o)).

(** The promise of a pause is resolved. *)
Definition pauseResolved (o : ReconnectOwner) (p : Pause) : bool :=
  bool_decide (pa_stopping p = None) && negb (pa_refused p)
  && match pa_work p with
     | Some w => match wk_point <$> ro_works o !! w with Some (WorkSettled true) => true | _ => false end
     | None => true
     end.

(** [resume] is called when each [pause] has resolved, [pause] is called when no
    microtask is left, and nothing is asked of an owner that has rejected. *)
Definition orderlyEvent (o : ReconnectOwner) (e : OwnerEvent) : bool :=
  negb (rejected o)
  && match e with
     | ResumeCalled => forallb (pauseResolved o) (ro_pauses o)
     | PauseCalled => noMicrotasks o
     | _ => true
     end.

Fixpoint orderly (policy : RecoveryPolicy) (o : ReconnectOwner) (events : list OwnerEvent) : bool :=
  match events with
  | [] => true
  | e :: events => orderlyEvent o e && orderly policy (ownerStep policy o e) events
  end.

(** The transports that are being started or are not confirmed stopped. *)
Definition openTransport (o : ReconnectOwner) (a : nat) : bool :=
  match ro_attempts o !! a with Some t => at_pending t || at_live t | None => false end.
