(* ===== verification/VoiceLaws.v ===== *)
(** * Laws of the transport of an activation

    Over every orderly run of [VoiceReconnect], one transport at most is being
    started or is not confirmed stopped.  The argument is on a core of the state:
    which transports are there, who accounts for them, and where the operations
    are. *)
From S2P Require Import Prelude VoiceReconnect.

Local Open Scope nat_scope.

(** ** The core *)

(** What an operation is doing: a transport it accounts for, a wait, a delay that
    has elapsed, or a cleanup that was not confirmed; or it is over. *)
Inductive CorePoint :=
| CStarting (a : nat) | CMuting (a : nat) | CStopping (a : nat) | CIdle | CElapsed | CFailed | CEnded (ok : bool) | CCaught
| CSettled (ok : bool).

Definition pointCore (point : WorkPoint) : CorePoint :=
  match point with
  | Starting a _ _ => CStarting a
  | Muting a _ _ => CMuting a
  | Refusing a true _ | Failing a true _ _ | Replacing (Some a) true => CStopping a
  | Failing _ false true _ => CFailed
  | WaitDelay _ (Some true) => CElapsed
  | WorkEnded ok => CEnded ok
  | WorkCaught => CCaught
  | WorkSettled ok => CSettled ok
  | _ => CIdle
  end.

(** Of an attempt: pending, live, and whether the owner has its transport. *)
Record CoreAttempt := { ca_pending : bool; ca_live : bool; ca_transport : bool }.

Definition attemptCore (t : Attempt) : CoreAttempt :=
  {| ca_pending := at_pending t; ca_live := at_live t; ca_transport := at_transport t |}.

Record OwnerCore :=
  { co_attempts : list CoreAttempt; co_current : option nat; co_mode : OwnerMode; co_work : option nat;
    co_works : list CorePoint; co_pauses : list Pause }.

Definition coreOf (o : ReconnectOwner) : OwnerCore :=
  {| co_attempts := attemptCore <$> ro_attempts o; co_current := ro_current o; co_mode := ro_mode o;
     co_work := ro_work o; co_works := (pointCore ∘ wk_point) <$> ro_works o; co_pauses := ro_pauses o |}.

(** A transport that is being started, or is not confirmed stopped. *)
Definition busy (c : OwnerCore) (a : nat) : Prop :=
  exists t, co_attempts c !! a = Some t /\ (ca_pending t = true \/ ca_live t = true).

Definition holds (p : CorePoint) (a : nat) : Prop :=
  match p with CStarting a' | CMuting a' | CStopping a' => a' = a | _ => False end.

Definition active (p : CorePoint) : Prop :=
  match p with CStarting _ | CMuting _ | CStopping _ | CIdle | CElapsed | CFailed => True | _ => False end.

Definition doomed (p : CorePoint) : Prop :=
  match p with CFailed | CCaught | CEnded false | CSettled false => True | _ => False end.

Definition clean (c : OwnerCore) : Prop :=
  (forall w p, co_works c !! w = Some p -> ~ doomed p) /\ (forall pause, pause ∈ co_pauses c -> pa_refused pause = false).

Definition owned (c : OwnerCore) (a : nat) : Prop :=
  co_current c = Some a \/ (exists w p, co_works c !! w = Some p /\ holds p a)
  \/ exists pause, pause ∈ co_pauses c /\ pa_stopping pause = Some a.

(** A transport the owner has, or that is gone. *)
Definition kept (c : OwnerCore) (a : nat) : Prop :=
  forall t, co_attempts c !! a = Some t -> ca_pending t = false /\ (ca_live t = true -> ca_transport t = true).

Definition startedAt (c : OwnerCore) (a : nat) : Prop := forall t, co_attempts c !! a = Some t -> ca_pending t = false.

Record coreOk (c : OwnerCore) : Prop :=
  { ck_one : forall a b, busy c a -> busy c b -> a = b;
    ck_new : co_mode c = NewOwner -> co_attempts c = [] /\ co_works c = [] /\ co_pauses c = [] /\ co_work c = None;
    ck_active : forall w p, co_works c !! w = Some p -> active p -> co_work c = Some w;
    ck_work : forall w, co_work c = Some w -> exists p, co_works c !! w = Some p /\ (active p \/ exists ok, p = CEnded ok);
    ck_current : forall a, co_current c = Some a -> co_mode c = RunningOwner /\ kept c a
      /\ forall w p, co_works c !! w = Some p -> ~ active p;
    ck_paused : co_mode c = PausedOwner -> forall w p, co_works c !! w = Some p -> (forall ok, p <> CSettled ok) ->
      exists pause, pause ∈ co_pauses c /\ pa_work pause = Some w;
    ck_running : co_mode c = RunningOwner -> forall pause, pause ∈ co_pauses c -> pa_stopping pause = None;
    ck_owned : co_mode c = RunningOwner \/ co_mode c = PausedOwner -> clean c -> forall a, busy c a -> owned c a;
    ck_elapsed : co_mode c = RunningOwner -> forall w, co_works c !! w = Some CElapsed -> clean c;
    ck_starting : forall w a, co_works c !! w = Some (CStarting a) -> exists t, co_attempts c !! a = Some t /\ ca_pending t = true;
    ck_muting : forall w a, co_works c !! w = Some (CMuting a) -> kept c a;
    ck_stopping : forall w a, co_works c !! w = Some (CStopping a) -> startedAt c a;
    ck_pausing : forall pause a, pause ∈ co_pauses c -> pa_stopping pause = Some a -> startedAt c a }.

(** ** Moves of the core *)

Definition setPoints (works : list CorePoint) (work : option nat) (c : OwnerCore) : OwnerCore :=
  {| co_attempts := co_attempts c; co_current := co_current c; co_mode := co_mode c; co_work := work;
     co_works := works; co_pauses := co_pauses c |}.

Definition corePoint (w : nat) (p : CorePoint) (c : OwnerCore) : OwnerCore := setPoints (<[w := p]> (co_works c)) (co_work c) c.

Definition coreAttempts (attempts : list CoreAttempt) (c : OwnerCore) : OwnerCore :=
  {| co_attempts := attempts; co_current := co_current c; co_mode := co_mode c; co_work := co_work c;
     co_works := co_works c; co_pauses := co_pauses c |}.

Definition coreCurrent (current : option nat) (mode : OwnerMode) (c : OwnerCore) : OwnerCore :=
  {| co_attempts := co_attempts c; co_current := current; co_mode := mode; co_work := co_work c;
     co_works := co_works c; co_pauses := co_pauses c |}.

Definition corePauses (pauses : list Pause) (c : OwnerCore) : OwnerCore :=
  {| co_attempts := co_attempts c; co_current := co_current c; co_mode := co_mode c; co_work := co_work c;
     co_works := co_works c; co_pauses := pauses |}.

Lemma point_lookup w p c w' p' :
  co_works (corePoint w p c) !! w' = Some p' -> (w' = w /\ p' = p /\ w < length (co_works c)) \/ (w' <> w /\ co_works c !! w' = Some p').
Proof.
  cbn. destruct (decide (w' = w)) as [->|Hne].
  - destruct (decide (w < length (co_works c))) as [Hlt|Hge].
    + rewrite list_lookup_insert_eq by done. intros [= <-]. by left.
    + rewrite list_insert_ge by lia. intros H%lookup_lt_Some. lia.
  - rewrite list_lookup_insert_ne by done. by right.
Qed.

(** An operation goes on to another point. *)
Lemma point_ok w p p' c :
  coreOk c -> co_works c !! w = Some p -> active p -> (active p' \/ exists ok, p' = CEnded ok) ->
  (forall a, holds p a -> holds p' a \/ doomed p' \/ ~ busy c a) -> (doomed p -> doomed p') ->
  (p' = CElapsed -> co_mode c = RunningOwner -> clean c) ->
  (forall a, p' <> CStarting a) -> (forall a, p' = CMuting a -> kept c a) -> (forall a, p' = CStopping a -> startedAt c a) ->
  coreOk (corePoint w p' c).
Proof.
  intros [H1 H2 H3 H4 H5 H6 H7 H8 H9 H9' H10 H11 H12] Hw Hp Hp' Hh Hd He Hst Hm Hs.
  assert (Hwork : co_work c = Some w) by (by eapply H3).
  assert (Hlt : w < length (co_works c)) by (by eapply lookup_lt_Some).
  assert (Hlook : co_works (corePoint w p' c) !! w = Some p') by (by apply list_lookup_insert_eq).
  assert (Hclean : clean (corePoint w p' c) -> clean c).
  { intros [C1 C2]. split; [|done]. intros w' q Hq Hdoom. destruct (decide (w' = w)) as [->|Hne].
    - rewrite Hw in Hq. injection Hq as <-. by apply (C1 w p' Hlook), Hd.
    - apply (C1 w' q); [|done]. cbn. by rewrite list_lookup_insert_ne. }
  split; try done.
  - intros Hn. cbn in Hn. destruct (H2 Hn) as (_ & Hnil & _). by rewrite Hnil in Hw.
  - intros w' q [(-> & -> & _)|[Hne Hq]]%point_lookup Ha; [done|]. by eapply H3.
  - intros w' Hw'. cbn in Hw'. rewrite Hwork in Hw'. injection Hw' as <-. by exists p'.
  - intros a Ha. destruct (H5 a Ha) as (_ & _ & Hno). by destruct (Hno w p Hw).
  - intros Hpa w' q [(-> & -> & _)|[Hne Hq]]%point_lookup Hu; [|by apply (H6 Hpa w' q)].
    apply (H6 Hpa w p Hw). by intros ok ->.
  - intros Hmode Hcl a Hb. destruct (H8 Hmode (Hclean Hcl) a Hb) as [Hc|[(w' & q & Hq & Hqa)|Hpa]]; [by left| |by right; right].
    right. left. destruct (decide (w' = w)) as [->|Hne].
    + rewrite Hw in Hq. injection Hq as <-. destruct (Hh a Hqa) as [?|[Hdoom|?]]; [by exists w, p'| |done].
      by destruct (proj1 Hcl w p' Hlook).
    + exists w', q. split; [|done]. cbn. by rewrite list_lookup_insert_ne.
  - intros Hmode w' [(-> & Heq & _)|[Hne Hq]]%point_lookup.
    + destruct (He (eq_sym Heq) Hmode) as [C1 C2]. split; [|done]. intros w'' q [(-> & -> & _)|[Hne Hq]]%point_lookup; [rewrite <- Heq; by intros []|by eapply C1].
    + exfalso. assert (co_work c = Some w') by (by eapply H3). congruence.
  - intros w' a [(-> & Heq & _)|[Hne Hq]]%point_lookup; [by destruct (Hst a)|by eapply H9'].
  - intros w' a [(-> & Heq & _)|[Hne Hq]]%point_lookup; [by apply Hm|by eapply H10].
  - intros w' a [(-> & Heq & _)|[Hne Hq]]%point_lookup; [by apply Hs|by eapply H11].
Qed.

(** The end of an operation that is over. *)
Lemma point_over_ok w ok p' c :
  coreOk c -> co_works c !! w = Some (CEnded ok) \/ co_works c !! w = Some CCaught /\ ok = false -> co_work c <> Some w ->
  (ok = true /\ p' = CSettled true \/ ok = false /\ (p' = CCaught \/ p' = CSettled false)) ->
  coreOk (corePoint w p' c).
Proof.
  intros [H1 H2 H3 H4 H5 H6 H7 H8 H9 H9' H10 H11 H12] Hold Hwork Hp'.
  assert (Hna : ~ active p') by (destruct Hp' as [[_ ->]|[_ [->| ->]]]; by intros []).
  assert (exists p, co_works c !! w = Some p /\ ~ active p /\ (forall a, ~ holds p a) /\ (doomed p <-> doomed p')
          /\ forall b, p <> CSettled b) as (p & Hw & Hpa & Hph & Hpd & Hps).
  { destruct Hold as [Hw|[Hw Hok]]; eexists; split; try exact Hw; destruct Hp' as [[-> ->]|[-> [->| ->]]]; split_and!; try done; by intros []. }
  assert (Hlook : co_works (corePoint w p' c) !! w = Some p') by (apply list_lookup_insert_eq; by eapply lookup_lt_Some).
  assert (Hclean : clean (corePoint w p' c) <-> clean c).
  { split; intros [C1 C2]; (split; [|done]); intros w' q.
    - intros Hq Hdoom. destruct (decide (w' = w)) as [->|Hne].
      + rewrite Hw in Hq. injection Hq as <-. by apply (C1 w p' Hlook), Hpd.
      + apply (C1 w' q); [|done]. cbn. by rewrite list_lookup_insert_ne.
    - intros [(-> & -> & _)|[Hne Hq]]%point_lookup; [|by eapply C1]. rewrite <- Hpd. by apply (C1 w). }
  split; try done.
  - intros Hn. cbn in Hn. destruct (H2 Hn) as (_ & Hnil & _). by rewrite Hnil in Hw.
  - intros w' q [(-> & -> & _)|[Hne Hq]]%point_lookup Ha; [done|]. by eapply H3.
  - intros w' Hw'. cbn in Hw'. destruct (H4 w' Hw') as (q & Hq & Hqa). exists q. split; [|done].
    cbn. rewrite list_lookup_insert_ne; [done|]. congruence.
  - intros a Ha. destruct (H5 a Ha) as (M1 & M2 & Hno). split_and!; [done..|].
    intros w' q [(-> & -> & _)|[Hne Hq]]%point_lookup; [done|by eapply Hno].
  - intros Hpm w' q [(-> & -> & _)|[Hne Hq]]%point_lookup Hu; [|by apply (H6 Hpm w' q)]. by apply (H6 Hpm w p Hw).
  - intros Hmode Hcl%Hclean a Hb. destruct (H8 Hmode Hcl a Hb) as [Hc|[(w' & q & Hq & Hqa)|Hpa']]; [by left| |by right; right].
    right. left. exists w', q. split; [|done]. cbn. rewrite list_lookup_insert_ne; [done|].
    intros <-. rewrite Hw in Hq. injection Hq as <-. by apply (Hph a).
  - intros Hmode w' [(-> & <- & _)|[Hne Hq]]%point_lookup; [by destruct Hna|]. apply Hclean. by apply (H9 Hmode w').
  - intros w' a [(-> & <- & _)|[Hne Hq]]%point_lookup; [by destruct Hna|by eapply H9'].
  - intros w' a [(-> & <- & _)|[Hne Hq]]%point_lookup; [by destruct Hna|by eapply H10].
  - intros w' a [(-> & <- & _)|[Hne Hq]]%point_lookup; [by destruct Hna|by eapply H11].
Qed.

(** What is known of the transports changes. *)
Lemma attempts_ok attempts c :
  coreOk c -> length attempts = length (co_attempts c) ->
  let c' := coreAttempts attempts c in
  (forall a, busy c' a -> busy c a) ->
  (forall a, kept c a -> co_current c = Some a \/ (exists w, co_works c !! w = Some (CMuting a)) -> kept c' a) ->
  (forall a, startedAt c a -> startedAt c' a) ->
  (forall a t, co_attempts c !! a = Some t -> ca_pending t = true -> exists t', attempts !! a = Some t' /\ ca_pending t' = true) ->
  coreOk c'.
Proof.
  intros [H1 H2 H3 H4 H5 H6 H7 H8 H9 H9' H10 H11 H12] Hlen c' Hb Hk Hs Hp. split; try done.
  - intros a b Ha%Hb Hb'%Hb. by apply H1.
  - intros Hn. destruct (H2 Hn) as (Ha & ?). split; [|done]. apply nil_length_inv. cbn. by rewrite Hlen, Ha.
  - intros a Ha. destruct (H5 a Ha) as (M1 & M2 & M3). split_and!; [done| |done]. apply Hk; [done|by left].
  - intros Hm Hc a Ha%Hb. by apply H8.
  - intros w a Hw. destruct (H9' w a Hw) as (t & Ht & Hpe). by eapply Hp.
  - intros w a Hw. apply Hk; [by eapply H10|]. right. by exists w.
  - intros w a Hw. by eapply Hs, H11.
  - intros pause a Hpa Hst. by eapply Hs, H12.
Qed.

Lemma busy_ext c c' a : co_attempts c = co_attempts c' -> busy c a <-> busy c' a.
Proof. unfold busy. by intros ->. Qed.

Lemma active_current w p c : coreOk c -> co_works c !! w = Some p -> active p -> co_current c = None.
Proof.
  intros H Hw Hp. destruct (co_current c) as [a|] eqn:E; [|done]. destruct (ck_current c H a E) as (_ & _ & Hno). by destruct (Hno w p Hw).
Qed.

(** The start of a transport settles; its operation still accounts for it. *)
Lemma started_ok w a ok c :
  coreOk c -> co_works c !! w = Some (CStarting a) ->
  coreOk (coreAttempts (alter (fun _ => {| ca_pending := false; ca_live := ok; ca_transport := ok |}) a (co_attempts c))
            (corePoint w (CMuting a) c)).
Proof.
  intros H Hw. assert (Hcur : co_current c = None) by (by eapply active_current).
  destruct H as [H1 H2 H3 H4 H5 H6 H7 H8 H9 H9' H10 H11 H12].
  set (f := fun _ : CoreAttempt => _). set (c' := coreAttempts _ _).
  destruct (H9' w a Hw) as (t & Ht & Hpend).
  assert (Hwork : co_work c = Some w) by (by eapply H3).
  assert (Hlook : forall b t', co_attempts c' !! b = Some t' -> b = a /\ t' = f t \/ b <> a /\ co_attempts c !! b = Some t').
  { intros b t' Hb. cbn in Hb. destruct (decide (b = a)) as [->|Hne].
    - rewrite list_lookup_alter_eq, Ht in Hb. left. cbn in Hb. by injection Hb as <-.
    - rewrite list_lookup_alter_ne in Hb by done. by right. }
  assert (Hbusy : forall b, busy c' b -> busy c b).
  { intros b (t' & [[-> ->]|[Hne Hb]]%Hlook & Hor); [exists t; split; [done|by left]|by exists t']. }
  assert (Hpt : co_works c' !! w = Some (CMuting a)) by (apply list_lookup_insert_eq; by eapply lookup_lt_Some).
  assert (Hclean : clean c' -> clean c).
  { intros [C1 C2]. split; [|done]. intros w' q Hq. destruct (decide (w' = w)) as [->|Hne].
    - rewrite Hw in Hq. injection Hq as <-. by intros [].
    - apply (C1 w' q). cbn. by rewrite list_lookup_insert_ne. }
  assert (Hkept : forall b, kept c b -> b <> a -> kept c' b).
  { intros b Hb Hne t' [[? _]|[_ Ht']]%Hlook; [done|by apply Hb]. }
  assert (Hst : forall b, startedAt c b -> startedAt c' b).
  { intros b Hb t' [[-> ->]|[_ Ht']]%Hlook; [done|by apply Hb]. }
  split.
  - intros b d Hb%Hbusy Hd%Hbusy. by apply H1.
  - intros Hn. destruct (H2 Hn) as (_ & Hnil & _). by rewrite Hnil in Hw.
  - intros w' q [(-> & -> & _)|[Hne Hq]]%point_lookup Ha; [done|]. by eapply H3.
  - intros w' Hw'. cbn in Hw'. rewrite Hwork in Hw'. injection Hw' as <-. exists (CMuting a). split; [done|by left].
  - intros b Hb. cbn in Hb. congruence.
  - intros Hpa w' q [(-> & -> & _)|[Hne Hq]]%point_lookup Hu; [by apply (H6 Hpa w _ Hw)|by apply (H6 Hpa w' q)].
  - done.
  - intros Hmode Hcl b Hb%Hbusy. destruct (H8 Hmode (Hclean Hcl) b Hb) as [Hc|[(w' & q & Hq & Hqa)|Hpa]]; [by left| |by right; right].
    right. left. destruct (decide (w' = w)) as [->|Hne].
    + rewrite Hw in Hq. injection Hq as <-. by exists w, (CMuting a).
    + exists w', q. split; [|done]. cbn. by rewrite list_lookup_insert_ne.
  - intros Hmode w' [(-> & [=] & _)|[Hne Hq]]%point_lookup. exfalso. assert (co_work c = Some w') by (by eapply H3). congruence.
  - intros w' b [(-> & [=] & _)|[Hne Hq]]%point_lookup. exfalso. assert (co_work c = Some w') by (by eapply H3). congruence.
  - intros w' b [(-> & [= ->] & _)|[Hne Hq]]%point_lookup; [intros t' [[_ ->]|[? _]]%Hlook; done|].
    exfalso. assert (co_work c = Some w') by (by eapply H3). congruence.
  - intros w' b [(-> & [=] & _)|[Hne Hq]]%point_lookup. by eapply Hst, H11.
  - intros pause b Hpa Hs. by eapply Hst, H12.
Qed.

(** A transport is installed. *)
Lemma install_ok w a c :
  coreOk c -> co_works c !! w = Some (CMuting a) -> co_mode c = RunningOwner ->
  coreOk (corePoint w (CEnded true) (coreCurrent (Some a) (co_mode c) c)).
Proof.
  intros [H1 H2 H3 H4 H5 H6 H7 H8 H9 H9' H10 H11 H12] Hw Hrun.
  assert (Hwork : co_work c = Some w) by (by eapply H3).
  set (c1 := coreCurrent _ _ c). set (c' := corePoint w _ c1).
  assert (Hpt : co_works c' !! w = Some (CEnded true)) by (apply list_lookup_insert_eq; by eapply lookup_lt_Some).
  assert (Hno : forall w' q, co_works c' !! w' = Some q -> ~ active q).
  { intros w' q [(-> & -> & _)|[Hne Hq]]%point_lookup; [by intros []|]. intros Ha. assert (co_work c = Some w') by (by eapply H3). congruence. }
  split; try done.
  - intros Hn. cbn in Hn. congruence.
  - intros w' q Hq Ha. by destruct (Hno w' q Hq).
  - intros w' Hw'. cbn in Hw'. rewrite Hwork in Hw'. injection Hw' as <-. exists (CEnded true). split; [done|right; by exists true].
  - intros b [= <-]. split_and!; [done| |done]. by apply (H10 w).
  - intros Hp. cbn in Hp. congruence.
  - intros Hmode Hcl b Hb.
    assert (Hclc : clean c).
    { destruct Hcl as [C1 C2]. split; [|done]. intros w' q Hq. destruct (decide (w' = w)) as [->|Hne].
      - rewrite Hw in Hq. injection Hq as <-. by intros [].
      - apply (C1 w' q). cbn. by rewrite list_lookup_insert_ne. }
    destruct (H8 (or_introl Hrun) Hclc b Hb) as [Hc|[(w' & q & Hq & Hqa)|Hpa]].
    + destruct (H5 b Hc) as (_ & _ & Hn). by destruct (Hn w _ Hw).
    + destruct (decide (w' = w)) as [->|Hne].
      * rewrite Hw in Hq. injection Hq as <-. cbn in Hqa. subst b. by left.
      * right. left. exists w', q. split; [|done]. cbn. by rewrite list_lookup_insert_ne.
    + by right; right.
  - intros _ w' Hq. by destruct (Hno w' _ Hq).
  - intros w' b Hq. by destruct (Hno w' _ Hq).
  - intros w' b Hq. by destruct (Hno w' _ Hq).
  - intros w' b Hq. by destruct (Hno w' _ Hq).
Qed.

(** An operation is added, or goes on, when no other is on its way and no
    transport is left that it does not account for. *)
Lemma place_ok w q works extra c :
  let c' := {| co_attempts := co_attempts c ++ extra; co_current := None; co_mode := RunningOwner; co_work := Some w;
               co_works := works; co_pauses := co_pauses c |} in
  coreOk c -> works !! w = Some q ->
  (forall w' p, works !! w' = Some p -> w' = w /\ p = q \/ w' <> w /\ co_works c !! w' = Some p /\ ~ active p) ->
  (forall pause, pause ∈ co_pauses c -> pa_stopping pause = None) ->
  (clean c' -> forall a, busy c a -> holds q a) -> (active q \/ exists ok, q = CEnded ok) -> q <> CElapsed ->
  (forall a, q <> CMuting a) -> (forall a, q = CStopping a -> startedAt c a) ->
  match extra with
  | [] => forall a, q <> CStarting a
  | [t] => q = CStarting (length (co_attempts c)) /\ ca_pending t = true /\ forall a, ~ busy c a
  | _ => False
  end ->
  coreOk c'.
Proof.
  intros c' [H1 H2 H3 H4 H5 H6 H7 H8 H9 H9' H10 H11 H12] Hw Hold Hpa Hown Hq He Hm Hs Hx.
  assert (Hbusy : forall a, busy c' a -> busy c a \/ extra <> [] /\ a = length (co_attempts c)).
  { intros a (t & Ht & Hor). cbn in Ht. apply lookup_app_Some in Ht as [Ht|[Hge Ht]]; [left; by exists t|right].
    destruct extra as [|x [|? ?]]; [done| |done]. apply list_lookup_singleton_Some in Ht as [? _]. split; [done|lia]. }
  assert (Hpt : forall w' p, works !! w' = Some p -> active p -> w' = w /\ p = q).
  { intros w' p [?|(_ & _ & ?)]%Hold ?; done. }
  split; try done.
  - intros a b [Ha|[Hx1 ->]]%Hbusy [Hb|[Hx2 ->]]%Hbusy; [by apply H1| | |done];
      destruct extra as [|x [|? ?]]; try done; by destruct Hx as (_ & _ & Hno); edestruct Hno.
  - intros w' p Hp Ha. destruct (Hpt w' p Hp Ha) as [-> _]. done.
  - intros w' [= <-]. by exists q.
  - intros _ Hcl a [Ha|[Hx1 ->]]%Hbusy; right; left; exists w, q; (split; [done|]); [by apply Hown|].
    destruct extra as [|x [|? ?]]; try done. by destruct Hx as (-> & _).
  - intros _ w' Hp. by destruct (Hpt w' _ Hp I) as [_ <-].
  - intros w' a Hp. destruct (Hpt w' _ Hp I) as [-> Heq]. destruct extra as [|x [|? ?]]; [by destruct (Hx a)| |done].
    destruct Hx as (-> & Hpend & _). injection Heq as ->. exists x. split; [|done]. cbn. by apply list_lookup_middle.
  - intros w' a Hp. destruct (Hpt w' _ Hp I) as [-> Heq]. by destruct (Hm a).
  - intros w' a Hp t Ht. destruct (Hpt w' _ Hp I) as [-> Heq]. cbn in Ht.
    apply lookup_app_Some in Ht as [Ht|[Hge Ht]]; [by apply (Hs a (eq_sym Heq))|].
    destruct extra as [|x [|? ?]]; [done| |done]. by destruct Hx as (-> & _).
  - intros pause a Hin Hst. rewrite (Hpa _ Hin) in Hst. done.
Qed.

(** The transport whose owner is the current attempt stays the only one. *)
Lemma running_busy c a :
  coreOk c -> co_mode c = RunningOwner -> clean c -> busy c a ->
  co_current c = Some a \/ exists w p, co_works c !! w = Some p /\ holds p a /\ active p.
Proof.
  intros H Hrun Hcl Hb. destruct (ck_owned c H (or_introl Hrun) Hcl a Hb) as [?|[(w & p & Hp & Hh)|(pause & Hin & Hs)]].
  - by left.
  - right. exists w, p. split_and!; [done..|]. by destruct p.
  - by rewrite (ck_running c H Hrun pause Hin) in Hs.
Qed.

Lemma kept_busy c a t : kept c a -> co_attempts c !! a = Some t -> ca_transport t = false -> ~ busy c a.
Proof. intros Hk Ht Htr (t' & Ht' & Hor). destruct (Hk t' Ht') as [Hp Hl]. assert (t' = t) as -> by congruence. destruct Hor; [congruence|]. rewrite Hl in Htr; done. Qed.

Lemma lookup_snoc_cases {A} (l : list A) (x y : A) w :
  (l ++ [x]) !! w = Some y -> w = length l /\ y = x \/ w <> length l /\ l !! w = Some y.
Proof.
  intros [Hl|[Hge Hl]]%lookup_app_Some; [right; split; [|done]; apply lookup_lt_Some in Hl; lia|left].
  apply list_lookup_singleton_Some in Hl as [? <-]. split; [lia|done].
Qed.

(** A retry begins while no operation is on its way. *)
Lemma replace_ok q c :
  coreOk c -> co_mode c = RunningOwner -> co_work c = None ->
  (q = CIdle /\ (forall a, co_current c = Some a -> ~ busy c a) \/ exists a, q = CStopping a /\ co_current c = Some a) ->
  coreOk (coreCurrent None (co_mode c) (setPoints (co_works c ++ [q]) (Some (length (co_works c))) c)).
Proof.
  intros H Hrun Hwork Hq.
  assert (Hidle : forall w p, co_works c !! w = Some p -> ~ active p).
  { intros w p Hp Ha. pose proof (ck_active c H w p Hp Ha). congruence. }
  assert (Hc : coreCurrent None (co_mode c) (setPoints (co_works c ++ [q]) (Some (length (co_works c))) c)
               = {| co_attempts := co_attempts c ++ []; co_current := None; co_mode := RunningOwner;
                    co_work := Some (length (co_works c)); co_works := co_works c ++ [q]; co_pauses := co_pauses c |}).
  { unfold coreCurrent, setPoints. cbn. by rewrite app_nil_r, Hrun. }
  rewrite Hc. apply (place_ok _ q _ [] c H).
  - by apply list_lookup_middle.
  - intros w p [?|[? ?]]%lookup_snoc_cases; [by left|]. right. split_and!; [done..|by eapply Hidle].
  - by apply ck_running.
  - intros [C1 C2] a Hb. assert (Hcl : clean c).
    { split; [|done]. intros w p Hp. apply (C1 w). cbn. rewrite lookup_app_l; [done|]. by eapply lookup_lt_Some. }
    destruct (running_busy c a H Hrun Hcl Hb) as [Hcur|(w & p & Hp & _ & Ha)]; [|by destruct (Hidle w p Hp)].
    destruct Hq as [[-> Hno]|(b & -> & Hb')]; [by destruct (Hno a)|]. cbn. congruence.
  - destruct Hq as [[-> _]|(b & -> & _)]; by left.
  - by destruct Hq as [[-> _]|(b & -> & _)].
  - by destruct Hq as [[-> _]|(b & -> & _)].
  - intros b Hqb. destruct Hq as [[-> _]|(b' & -> & Hb')]; [done|]. injection Hqb as ->.
    destruct (ck_current c H b Hb') as (_ & Hk & _). intros t Ht. by destruct (Hk t Ht).
  - by destruct Hq as [[-> _]|(b & -> & _)].
Qed.

(** A delay has elapsed and an attempt begins. *)
Lemma begin_ok w t c :
  coreOk c -> co_works c !! w = Some CElapsed -> co_mode c = RunningOwner -> ca_pending t = true ->
  coreOk (corePoint w (CStarting (length (co_attempts c))) (coreAttempts (co_attempts c ++ [t]) c)).
Proof.
  intros H Hw Hrun Ht.
  assert (Hwork : co_work c = Some w) by (by eapply ck_active).
  assert (Hcur : co_current c = None) by (by eapply active_current).
  assert (Hno : forall a, ~ busy c a).
  { intros a Hb. destruct (running_busy c a H Hrun (ck_elapsed c H Hrun w Hw) Hb) as [?|(w' & p & Hp & Hh & Ha)]; [congruence|].
    assert (co_work c = Some w') by (by eapply ck_active). assert (w' = w) as -> by congruence. rewrite Hw in Hp. by injection Hp as <-. }
  unfold corePoint, setPoints, coreAttempts. cbn [co_attempts co_current co_mode co_work co_works co_pauses].
  rewrite Hcur, Hrun, Hwork. apply (place_ok w (CStarting (length (co_attempts c)))); try done.
  - apply list_lookup_insert_eq. by eapply lookup_lt_Some.
  - intros w' p [(-> & -> & _)|[Hne Hp]]%(point_lookup w _ c); [by left|]. right. split_and!; [done..|].
    intros Ha. assert (co_work c = Some w') by (by eapply ck_active). congruence.
  - by apply ck_running.
  - intros _ a Hb. by destruct (Hno a).
  - by left.
Qed.

(** The operation whose promise is settling is no longer the owner's. *)
Lemma clear_ok w ok c :
  coreOk c -> co_works c !! w = Some (CEnded ok) -> co_work c = Some w -> coreOk (setPoints (co_works c) None c).
Proof.
  intros [H1 H2 H3 H4 H5 H6 H7 H8 H9 H9' H10 H11 H12] Hw Hwork. split; try done.
  - intros Hn. by destruct (H2 Hn) as (? & ? & ? & _).
  - intros w' p Hp Ha. exfalso. pose proof (H3 w' p Hp Ha). assert (w' = w) as -> by congruence. cbn in Hp. rewrite Hw in Hp.
    by injection Hp as <-.
Qed.

Lemma stop_ok c : coreOk c -> coreOk (coreCurrent None StoppedOwner c).
Proof. intros [H1 H2 H3 H4 H5 H6 H7 H8 H9 H9' H10 H11 H12]. split; try done. by intros [? | ?]. Qed.

(** The owner pauses. *)
Lemma pause_ok pause c :
  coreOk c -> co_mode c = NewOwner \/ co_mode c = RunningOwner -> (forall w p, co_works c !! w = Some p -> active p \/ exists ok, p = CSettled ok) ->
  pa_refused pause = false -> pa_work pause = co_work c -> (forall a, pa_stopping pause = Some a -> co_current c = Some a) ->
  (forall a, co_current c = Some a -> pa_stopping pause = Some a \/ ~ busy c a) ->
  coreOk (corePauses (co_pauses c ++ [pause]) (coreCurrent None PausedOwner c)).
Proof.
  intros H Hmode Hend Hr Hpw Hst Hcur. set (c' := corePauses _ _).
  assert (Hin : pause ∈ co_pauses c') by (cbn; set_solver).
  assert (Hincl : forall p, p ∈ co_pauses c -> p ∈ co_pauses c') by (cbn; set_solver).
  assert (Hback : forall p, p ∈ co_pauses c' -> p ∈ co_pauses c \/ p = pause) by (cbn; set_solver).
  destruct H as [H1 H2 H3 H4 H5 H6 H7 H8 H9 H9' H10 H11 H12]. split; try done.
  - intros _ w p Hp Hu. exists pause. split; [done|]. rewrite Hpw. destruct (Hend w p Hp) as [Ha|[ok Ho]]; [by eapply H3|by destruct (Hu ok)].
  - intros _ [C1 C2] a Hb. assert (Hcl : clean c) by (split; [done|]; intros q Hq; by apply C2, Hincl).
    destruct Hmode as [Hn|Hrun]; [destruct (H2 Hn) as (Ha & _); destruct Hb as (t & Ht & _); cbn in Ht; by rewrite Ha in Ht|].
    destruct (H8 (or_introl Hrun) Hcl a Hb) as [Hc|[Hw|(q & Hq & Hs)]].
    + destruct (Hcur a Hc) as [Hs|Hno]; [right; right; by exists pause|done].
    + right. by left.
    + right. right. exists q. split; [by apply Hincl|done].
  - intros q a [Hq| ->]%Hback Hs; [by eapply H12|]. destruct (H5 a (Hst a Hs)) as (_ & Hk & _). intros t Ht. by destruct (Hk t Ht).
Qed.

(** The stop of a transport that a pause waits for settles. *)
Lemma pauses_ok a ok c :
  coreOk c -> (ok = true -> ~ busy c a) -> coreOk (corePauses (pauseStopped a ok <$> co_pauses c) c).
Proof.
  intros H Ha. set (c' := corePauses _ c).
  assert (Hback : forall p', p' ∈ co_pauses c' -> exists p, p ∈ co_pauses c /\ p' = pauseStopped a ok p).
  { intros p' (p & -> & Hp)%list_elem_of_fmap. by exists p. }
  assert (Hforth : forall p, p ∈ co_pauses c -> pauseStopped a ok p ∈ co_pauses c') by (intros p Hp; by apply list_elem_of_fmap_2).
  assert (Hstop : forall p b, pa_stopping (pauseStopped a ok p) = Some b -> pa_stopping p = Some b).
  { intros p b. unfold pauseStopped. destruct (bool_decide (pa_stopping p = Some a)); done. }
  assert (Hwork : forall p, pa_work (pauseStopped a ok p) = pa_work p).
  { intros p. unfold pauseStopped. by destruct (bool_decide (pa_stopping p = Some a)). }
  assert (Href : forall p, pa_refused (pauseStopped a ok p) = false -> pa_refused p = false /\ (ok = false -> pa_stopping p <> Some a)).
  { intros p. unfold pauseStopped. case_bool_decide as E; cbn; [|done]. intros [? ?]%orb_false_iff. destruct ok; done. }
  assert (Hclean : clean c' -> clean c) by (intros [C1 C2]; split; [done|]; intros p Hp; by apply Href, C2, Hforth).
  destruct H as [H1 H2 H3 H4 H5 H6 H7 H8 H9 H9' H10 H11 H12]. split; try done.
  - intros Hn. destruct (H2 Hn) as (? & ? & Hp & ?). split_and!; try done. cbn. by rewrite Hp.
  - intros Hp w q Hq Hu. destruct (H6 Hp w q Hq Hu) as (p & Hin & Hpw). exists (pauseStopped a ok p). split; [by apply Hforth|by rewrite Hwork].
  - intros Hrun p' (p & Hp & ->)%Hback. destruct (pa_stopping (pauseStopped a ok p)) as [b|] eqn:E; [|done].
    apply Hstop in E. by rewrite (H7 Hrun p Hp) in E.
  - intros Hmode Hcl b Hb. destruct (H8 Hmode (Hclean Hcl) b Hb) as [?|[?|(p & Hp & Hs)]]; [by left|by right; left|].
    right. right. destruct (decide (b = a)) as [->|Hne].
    + destruct ok; [by destruct (Ha eq_refl)|]. destruct Hcl as [_ C2]. by destruct (Href p (C2 _ (Hforth p Hp))) as [_ []].
    + exists (pauseStopped a ok p). split; [by apply Hforth|]. unfold pauseStopped. rewrite bool_decide_false; [done|]. congruence.
  - intros Hrun w Hw. destruct (H9 Hrun w Hw) as [C1 C2]. split; [done|]. intros p' (p & Hp & ->)%Hback.
    unfold pauseStopped. rewrite bool_decide_false; [by apply C2|]. cbn in Hrun. rewrite (H7 Hrun p Hp). done.
  - intros p' b (p & Hp & ->)%Hback Hs%Hstop. by eapply H12.
Qed.

(** The owner starts, or resumes: nothing is on its way. *)
Lemma restart_ok q extra c :
  coreOk c -> co_current c = None -> (forall w p, co_works c !! w = Some p -> ~ active p) ->
  (forall pause, pause ∈ co_pauses c -> pa_stopping pause = None) -> (forall a, ~ busy c a) ->
  (extra = [] /\ (q = CIdle \/ q = CEnded false) \/ exists t, extra = [t] /\ ca_pending t = true /\ q = CStarting (length (co_attempts c))) ->
  coreOk {| co_attempts := co_attempts c ++ extra; co_current := None; co_mode := RunningOwner;
            co_work := Some (length (co_works c)); co_works := co_works c ++ [q]; co_pauses := co_pauses c |}.
Proof.
  intros H Hcur Hidle Hpa Hno Hq. apply (place_ok _ q _ extra c H); try done.
  - by apply list_lookup_middle.
  - intros w p [?|[? ?]]%lookup_snoc_cases; [by left|]. right. split_and!; [done..|by eapply Hidle].
  - intros _ a Hb. by destruct (Hno a).
  - destruct Hq as [[_ [->| ->]]|(t & _ & _ & ->)]; [by left|right; by exists false|by left].
  - by destruct Hq as [[_ [->| ->]]|(t & _ & _ & ->)].
  - by destruct Hq as [[_ [->| ->]]|(t & _ & _ & ->)].
  - by destruct Hq as [[_ [->| ->]]|(t & _ & _ & ->)].
  - by destruct Hq as [[-> [->| ->]]|(t & -> & Ht & ->)].
Qed.

(** The transport of an attempt is taken from it; its stop is confirmed. *)
Definition coreRelease (t : CoreAttempt) : CoreAttempt :=
  {| ca_pending := ca_pending t; ca_live := ca_live t; ca_transport := false |}.

Definition coreStopped (t : CoreAttempt) : CoreAttempt :=
  {| ca_pending := ca_pending t; ca_live := false; ca_transport := ca_transport t |}.

Lemma alter_lookup {A} (f : A -> A) a (l : list A) b t :
  alter f a l !! b = Some t -> exists t', l !! b = Some t' /\ (b = a /\ t = f t' \/ b <> a /\ t = t').
Proof.
  destruct (decide (b = a)) as [->|Hne].
  - rewrite list_lookup_alter_eq. destruct (l !! a) as [t'|]; [|done]. intros [= <-]. exists t'. split; [done|by left].
  - rewrite list_lookup_alter_ne by done. intros Ht. exists t. split; [done|by right].
Qed.

Lemma transport_release_ok a c :
  coreOk c -> co_current c <> Some a -> (forall w, co_works c !! w <> Some (CMuting a)) ->
  coreOk (coreAttempts (alter coreRelease a (co_attempts c)) c).
Proof.
  intros H Hcur Hm. apply (attempts_ok _ c H); [apply length_alter| | | |].
  - intros b (t & (t' & Ht' & [[-> ->]|[_ ->]])%alter_lookup & Hor); by exists t'.
  - intros b Hk Hor t (t' & Ht' & [[-> ->]|[_ ->]])%alter_lookup; [|by apply Hk]. by destruct Hor as [?|[w Hw]]; [|destruct (Hm w)].
  - intros b Hk t (t' & Ht' & [[-> ->]|[_ ->]])%alter_lookup; by apply (Hk t').
  - intros b t Ht Hp. destruct (decide (b = a)) as [->|Hne].
    + exists (coreRelease t). rewrite list_lookup_alter_eq, Ht. done.
    + exists t. by rewrite list_lookup_alter_ne.
Qed.

Lemma stopped_ok a c : coreOk c -> coreOk (coreAttempts (alter coreStopped a (co_attempts c)) c).
Proof.
  intros H. apply (attempts_ok _ c H); [apply length_alter| | | |].
  - intros b (t & (t' & Ht' & [[-> ->]|[_ ->]])%alter_lookup & Hor); exists t'; (split; [done|]); [destruct Hor; [by left|done]|done].
  - intros b Hk _ t (t' & Ht' & [[-> ->]|[_ ->]])%alter_lookup; [|by apply Hk]. split; [by apply (Hk t')|done].
  - intros b Hk t (t' & Ht' & [[-> ->]|[_ ->]])%alter_lookup; by apply (Hk t').
  - intros b t Ht Hp. destruct (decide (b = a)) as [->|Hne].
    + exists (coreStopped t). rewrite list_lookup_alter_eq, Ht. done.
    + exists t. by rewrite list_lookup_alter_ne.
Qed.

Lemma stopped_idle a c : startedAt c a -> ~ busy (coreAttempts (alter coreStopped a (co_attempts c)) c) a.
Proof. intros Hs (t & (t' & Ht' & [[_ ->]|[? _]])%alter_lookup & Hor); [|done]. destruct Hor as [Hp|?]; [|done]. cbn in Hp. by rewrite (Hs t' Ht') in Hp. Qed.

(** ** The operations on the core *)

Lemma core_move w point o : coreOf (movePoint w point o) = corePoint w (pointCore point) (coreOf o).
Proof.
  unfold coreOf, corePoint, setPoints, movePoint. cbn. f_equal. apply list_eq. intros w'.
  rewrite list_lookup_fmap. destruct (decide (w' = w)) as [->|Hne].
  - rewrite list_lookup_alter_eq. destruct (ro_works o !! w) as [k|] eqn:E; cbn.
    + rewrite list_lookup_insert_eq; [done|]. rewrite length_fmap. by eapply lookup_lt_Some.
    + rewrite list_insert_ge by (rewrite length_fmap; by apply lookup_ge_None). by rewrite list_lookup_fmap, E.
  - rewrite list_lookup_alter_ne, list_lookup_insert_ne by done. by rewrite list_lookup_fmap.
Qed.

Lemma move_move w point point' o : movePoint w point (movePoint w point' o) = movePoint w point o.
Proof.
  unfold movePoint, setWork. cbn. f_equal. apply list_eq. intros w'. destruct (decide (w' = w)) as [->|Hne]; [|by rewrite !list_lookup_alter_ne].
  rewrite !list_lookup_alter_eq. by destruct (ro_works o !! w).
Qed.

Lemma core_alter f g a o :
  (forall t, attemptCore (f t) = g (attemptCore t)) ->
  coreOf (onAttempt f a o) = coreAttempts (alter g a (co_attempts (coreOf o))) (coreOf o).
Proof.
  intros Hfg. unfold coreOf, coreAttempts. cbn. f_equal. apply list_eq. intros b. rewrite list_lookup_fmap.
  destruct (decide (b = a)) as [->|Hne]; [|by rewrite !list_lookup_alter_ne, list_lookup_fmap].
  rewrite !list_lookup_alter_eq, list_lookup_fmap. destruct (ro_attempts o !! a); [|done]. cbn. by rewrite Hfg.
Qed.

Lemma core_onAttempt f a o : (forall t, attemptCore (f t) = attemptCore t) -> coreOf (onAttempt f a o) = coreOf o.
Proof.
  intros Hf. unfold coreOf. cbn. f_equal. apply list_eq. intros b. rewrite !list_lookup_fmap.
  destruct (decide (b = a)) as [->|Hne]; [|by rewrite list_lookup_alter_ne].
  rewrite list_lookup_alter_eq. destruct (ro_attempts o !! a); [|done]. cbn. by rewrite Hf.
Qed.

Lemma core_cancelWaiting o : coreOf (cancelWaiting o) = coreOf o.
Proof.
  unfold cancelWaiting. destruct (ro_cancelWait o) as [w|]; [|done]. unfold coreOf. cbn. f_equal.
  apply list_eq. intros w'. rewrite !list_lookup_fmap. destruct (decide (w' = w)) as [->|Hne]; [|by rewrite list_lookup_alter_ne].
  rewrite list_lookup_alter_eq. destruct (ro_works o !! w) as [k|]; [|done]. cbn. unfold resolveWait. f_equal.
  by destruct (wk_point k) as [| | | |[]| |? [[]|]| | |] eqn:E; cbn; rewrite ?E.
Qed.

Lemma core_abortStarting o : coreOf (abortStarting o) = coreOf o.
Proof. unfold abortStarting. destruct (ro_starting o); [by apply core_onAttempt|done]. Qed.

Lemma core_logCall call o : coreOf (logCall call o) = coreOf o.
Proof. done. Qed.

Lemma core_cancelOwner o : coreOf (cancelOwner o) = coreOf o.
Proof.
  unfold cancelOwner. set (o1 := cancelWaiting _).
  change (coreOf (abortStarting (setWork (ro_work o1) (ro_works o1) None o1)) = coreOf o).
  rewrite core_abortStarting. change (coreOf o1 = coreOf o). unfold o1. by rewrite core_cancelWaiting.
Qed.

Definition hasTransport (attempt : option nat) (c : OwnerCore) : bool :=
  match attempt with
  | Some a => match co_attempts c !! a with Some t => ca_transport t | None => false end
  | None => false
  end.

(** What disposing does to the core. *)
Definition coreDispose (attempt : option nat) (c : OwnerCore) : OwnerCore :=
  match attempt with
  | Some a => if hasTransport attempt c then coreAttempts (alter coreRelease a (co_attempts c)) c else c
  | None => c
  end.

Lemma core_dispose attempt o o' stopping :
  disposeAttempt attempt o = (o', stopping) ->
  coreOf o' = coreDispose attempt (coreOf o) /\ stopping = hasTransport attempt (coreOf o)
  /\ ro_work o' = ro_work o /\ ro_pauses o' = ro_pauses o.
Proof.
  unfold disposeAttempt, coreDispose, hasTransport. destruct attempt as [a|]; [|by intros [= <- <-]].
  change (co_attempts (coreOf o)) with (attemptCore <$> ro_attempts o). rewrite list_lookup_fmap.
  destruct (ro_attempts o !! a) as [t|]; cbn [fmap option_fmap option_map attemptCore ca_transport].
  - destruct (at_transport t); intros [= <- <-]; (split_and!; [|done..]); [|by apply core_onAttempt].
    change (coreOf (onAttempt releaseTransport a o) = coreAttempts (alter coreRelease a (co_attempts (coreOf o))) (coreOf o)).
    by apply core_alter.
  - intros [= <- <-]. split_and!; [|done..]. by apply core_onAttempt.
Qed.

Lemma coreDispose_ok attempt c :
  coreOk c -> co_current c = None -> (forall w a, attempt = Some a -> co_works c !! w <> Some (CMuting a)) -> coreOk (coreDispose attempt c).
Proof.
  intros H Hcur Hm. unfold coreDispose. destruct attempt as [a|]; [|done]. destruct (hasTransport _ _); [|done].
  apply transport_release_ok; [done|congruence|]. intros w. by apply Hm.
Qed.

Definition ownerOk (o : ReconnectOwner) : Prop := coreOk (coreOf o).
Definition pointAt (o : ReconnectOwner) (w : nat) (p : CorePoint) : Prop := co_works (coreOf o) !! w = Some p.

Lemma point_at w k o : ro_works o !! w = Some k -> pointAt o w (pointCore (wk_point k)).
Proof. intros Hw. unfold pointAt. cbn. by rewrite list_lookup_fmap, Hw. Qed.

Lemma stopOwner_ok o :
  ownerOk o -> ownerOk (stopOwner o) /\ co_works (coreOf (stopOwner o)) = co_works (coreOf o)
  /\ co_work (coreOf (stopOwner o)) = co_work (coreOf o).
Proof.
  intros H. unfold stopOwner. set (o0 := cancelOwner _).
  assert (Hc : coreOf o0 = coreCurrent (ro_current o) StoppedOwner (coreOf o)) by (unfold o0; rewrite core_cancelOwner; done).
  set (o1 := setCurrent _ _ _).
  assert (Hc1 : coreOf o1 = coreCurrent None StoppedOwner (coreOf o)).
  { transitivity (coreCurrent None (co_mode (coreOf o0)) (coreOf o0)); [done|]. by rewrite Hc. }
  assert (Hp : ro_current o0 = ro_current o) by (change (co_current (coreOf o0) = ro_current o); by rewrite Hc).
  assert (H1 : ownerOk o1) by (unfold ownerOk; rewrite Hc1; by apply stop_ok).
  unfold ownerOk in *. destruct (ro_cleanup o1); [by rewrite Hc1 in *|]. rewrite Hp.
  destruct (disposeAttempt (ro_current o) o1) as [o2 stopping] eqn:E. apply core_dispose in E as (Hc2 & _).
  change (coreOk (coreOf o2) /\ co_works (coreOf o2) = co_works (coreOf o) /\ co_work (coreOf o2) = co_work (coreOf o)).
  rewrite Hc2, Hc1. split.
  - apply coreDispose_ok; [by apply stop_ok|done|]. intros w a Ha Hw. destruct (ck_current _ H a Ha) as (_ & _ & Hno).
    by destruct (Hno w _ Hw).
  - unfold coreDispose. destruct (ro_current o) as [a|]; [|done]. by destruct (hasTransport _ _).
Qed.

Lemma failOwner_ok reason o :
  ownerOk o -> ownerOk (failOwner reason o) /\ co_works (coreOf (failOwner reason o)) = co_works (coreOf o)
  /\ co_work (coreOf (failOwner reason o)) = co_work (coreOf o).
Proof.
  intros H. unfold failOwner. destruct (bool_decide (ro_mode o = RunningOwner)); [|done].
  unfold ownerOk. rewrite core_logCall. by apply stopOwner_ok.
Qed.

(** An operation that has nothing to account for waits or ends; one that fails
    ends. *)
Lemma move_idle w p point o :
  ownerOk o -> pointAt o w p -> active p -> ~ doomed p -> (forall a, holds p a -> ~ busy (coreOf o) a) ->
  pointCore point = CIdle \/ pointCore point = CEnded true -> ownerOk (movePoint w point o).
Proof.
  intros H Hw Hp Hd Hh Hpt. unfold ownerOk. rewrite core_move. apply (point_ok w p _ _ H Hw Hp).
  - destruct Hpt as [->| ->]; [by left|right; by exists true].
  - intros a Ha. right. right. by apply Hh.
  - done.
  - by destruct Hpt as [->| ->].
  - by destruct Hpt as [->| ->].
  - by destruct Hpt as [->| ->].
  - by destruct Hpt as [->| ->].
Qed.

Lemma move_failed w p o : ownerOk o -> pointAt o w p -> active p -> ownerOk (movePoint w (WorkEnded false) o).
Proof.
  intros H Hw Hp. unfold ownerOk. rewrite core_move. apply (point_ok w p _ _ H Hw Hp); try done.
  - right. by exists false.
  - intros a _. right. by left.
Qed.

Lemma busy_stopped o a : busy (coreOf (stopOwner o)) a -> busy (coreOf o) a.
Proof.
  unfold stopOwner. set (o0 := cancelOwner _).
  assert (Hc : coreOf o0 = coreCurrent (ro_current o) StoppedOwner (coreOf o)) by (unfold o0; rewrite core_cancelOwner; done).
  set (o1 := setCurrent _ _ _).
  assert (Hc1 : coreOf o1 = coreCurrent None StoppedOwner (coreOf o)).
  { transitivity (coreCurrent None (co_mode (coreOf o0)) (coreOf o0)); [done|]. by rewrite Hc. }
  destruct (ro_cleanup o1); [by rewrite Hc1|].
  destruct (disposeAttempt (ro_current o0) o1) as [o2 stopping] eqn:E. apply core_dispose in E as (Hc2 & _).
  intros Hb. apply (busy_ext _ (coreOf o2) a eq_refl) in Hb. rewrite Hc2, Hc1 in Hb.
  unfold coreDispose in Hb. destruct (ro_current o0) as [b|]; [|done]. destruct (hasTransport _ _); [|done].
  destruct Hb as (t & (t' & Ht' & [[-> ->]|[_ ->]])%alter_lookup & Hor); by exists t'.
Qed.

Section policy.
Variable policy : RecoveryPolicy.

Lemma retryLoop_ok w p expected o :
  ownerOk o -> pointAt o w p -> active p -> ~ doomed p -> (forall a, holds p a -> ~ busy (coreOf o) a) ->
  ownerOk (retryLoop policy w expected o).
Proof.
  intros H Hw Hp Hd Hh. unfold retryLoop. destruct (negb (canRun expected o)); [apply (move_idle w p); try done; by right|].
  destruct (ro_ready o).
  - destruct (episodeRetry policy (ro_episode o)) as [episode ceiling]. apply (move_idle w p); try done. by left.
  - apply (move_idle w p); try done. by left.
  - unfold failOwner. destruct (bool_decide (ro_mode o = RunningOwner)); [|apply (move_idle w p); try done; by right].
    destruct (stopOwner_ok o H) as (H' & Hworks & _). pose proof (busy_stopped o) as Hb. revert H' Hworks Hb.
    generalize (stopOwner o). intros o' H' Hworks Hb. apply (move_idle w p).
    + unfold ownerOk. by rewrite core_logCall.
    + unfold pointAt. by rewrite core_logCall, Hworks.
    + done.
    + done.
    + intros a Ha Hb'. rewrite core_logCall in Hb'. by apply (Hh a Ha), Hb.
    + by right.
Qed.

(** [retry] begins when no transport is current. *)
Lemma beginRetry_idle w p o :
  ownerOk o -> pointAt o w p -> active p -> ~ doomed p -> (forall a, holds p a -> ~ busy (coreOf o) a) ->
  ownerOk (beginRetry w o).
Proof.
  intros H Hw Hp Hd Hh. assert (Hcur : ro_current o = None) by exact (active_current w p _ H Hw Hp).
  unfold beginRetry. change (ro_current (interrupted o)) with (ro_current o). rewrite Hcur. cbn [disposeAttempt].
  assert (Hc : coreOf (setCurrent None (ro_starting (interrupted o)) (interrupted o)) = coreOf o).
  { transitivity (coreCurrent None (co_mode (coreOf o)) (coreOf o)); [done|]. unfold coreCurrent, coreOf. by rewrite Hcur. }
  apply (move_idle w p); unfold ownerOk, pointAt; rewrite ?Hc; try done. by left.
Qed.

Lemma core_starting current starting o : current = ro_current o -> coreOf (setCurrent current starting o) = coreOf o.
Proof. by intros ->. Qed.

(** The caller of [beginAttempt] goes on without an installed transport. *)
Lemma finishAttempt_ok w p expected use result o :
  ownerOk o -> pointAt o w p -> active p -> result <> Installed ->
  result = Threw true \/ ~ doomed p /\ (forall a, holds p a -> ~ busy (coreOf o) a) ->
  ownerOk (finishAttempt policy w expected use result o).
Proof.
  intros H Hw Hp Hr Hor. unfold finishAttempt. set (o1 := setCurrent (ro_current o) None o).
  assert (Hc : coreOf o1 = coreOf o) by (by apply core_starting).
  assert (H1 : ownerOk o1) by (unfold ownerOk; by rewrite Hc). assert (Hw1 : pointAt o1 w p) by (unfold pointAt; by rewrite Hc).
  rewrite <- Hc in Hor. clearbody o1. clear Hc H Hw.
  assert (Hfail : ownerOk (movePoint w (WorkEnded false) o1)) by (by apply (move_failed w p)).
  destruct use, result as [| |[]]; try done; destruct Hor as [?|[Hd Hh]]; try done; try by apply (retryLoop_ok w p).
  all: destruct (canRun expected o1); [by apply (beginRetry_idle w p)|apply (move_idle w p); try done; by right].
Qed.

(** The transport of an attempt is given up. *)
Lemma dispose_move w p a (point : bool -> WorkPoint) o :
  ownerOk o -> pointAt o w p -> p = CMuting a \/ p = CStopping a -> pointCore (point true) = CStopping a ->
  pointCore (point false) = CIdle /\ p = CMuting a \/ pointCore (point false) = CFailed ->
  ownerOk (let '(o, stopping) := disposeAttempt (Some a) o in movePoint w (point stopping) o).
Proof.
  intros H Hw Hp Htrue Hfalse.
  assert (Ha : active p) by (by destruct Hp as [->| ->]).
  assert (Hd : ~ doomed p) by (destruct Hp as [->| ->]; by intros []).
  assert (Hold : forall b, holds p b -> b = a) by (destruct Hp as [->| ->]; cbn; congruence).
  assert (Hs : startedAt (coreOf o) a).
  { destruct Hp as [->| ->]; [|by apply (ck_stopping _ H w)]. intros t Ht. by apply (ck_muting _ H w a Hw t). }
  destruct (disposeAttempt (Some a) o) as [o' stopping] eqn:E. apply core_dispose in E as (Hc & -> & _).
  unfold ownerOk. rewrite core_move, Hc. unfold coreDispose. destruct (hasTransport (Some a) (coreOf o)) eqn:Et.
  - rewrite Htrue. assert (H' : coreOk (corePoint w (CStopping a) (coreOf o))).
    { apply (point_ok w p _ _ H Hw Ha); try done; [by left| |].
      - intros b ->%Hold. by left.
      - by intros b [= <-]. }
    apply (transport_release_ok a _ H').
    + change (co_current (coreOf o) <> Some a). by rewrite (active_current w p _ H Hw Ha).
    + intros w' [(_ & ? & _)|[Hne Hq]]%point_lookup; [done|].
      assert (Hwork : co_work (coreOf o) = Some w') by (by eapply (ck_active _ H)). pose proof (ck_active _ H w p Hw Ha). congruence.
  - apply (point_ok w p _ _ H Hw Ha).
    + destruct Hfalse as [[-> _]| ->]; by left.
    + intros b Hb. pose proof (Hold b Hb) as ->. destruct Hfalse as [[_ ->]| ->]; [|right; by left]. right. right.
      intros (t & Ht & Hbusy). apply (kept_busy _ a t (ck_muting _ H w a Hw) Ht); [|by exists t]. cbn in Et. cbn in Ht. by rewrite Ht in Et.
    + done.
    + by destruct Hfalse as [[-> _]| ->].
    + by destruct Hfalse as [[-> _]| ->].
    + by destruct Hfalse as [[-> _]| ->].
    + by destruct Hfalse as [[-> _]| ->].
Qed.

Lemma failAttempt_ok w p a cleanup use o :
  ownerOk o -> pointAt o w p -> p = CMuting a \/ p = CStopping a /\ cleanup = true -> ownerOk (failAttempt w a cleanup use o).
Proof.
  intros H Hw Hp. apply (dispose_move w p a (fun stopping => Failing a stopping cleanup use) o H Hw).
  - destruct Hp as [?|[? _]]; [by left|by right].
  - done.
  - destruct Hp as [->|[_ ->]]; [|by right]. destruct cleanup; [by right|by left].
Qed.

Lemma settleTransport_ok w expected a applied use o :
  ownerOk o -> pointAt o w (CMuting a) -> ownerOk (settleTransport policy w expected a applied use o).
Proof.
  intros H Hw. unfold settleTransport. destruct (canInstall a expected o) eqn:Ei.
  - assert (Hrun : ro_mode o = RunningOwner).
    { unfold canInstall, canRun in Ei. apply andb_prop in Ei as [[[?%bool_decide_eq_true _]%andb_prop _]%andb_prop _]. done. }
    destruct (Bool.eqb applied (ro_muted o)).
    + set (suspended := match ro_attempts o !! a with Some t => at_suspended t | None => false end).
      set (o1 := setCurrent (Some a) (ro_starting o) o).
      set (o2 := if suspended then interrupted o1 else setEpisode (episodeConnected (ro_episode o1)) o1).
      assert (Hc2 : coreOf o2 = coreCurrent (Some a) (ro_mode o) (coreOf o)) by (unfold o2; by destruct suspended).
      assert (Hcur : ro_current o2 = Some a) by (by apply (f_equal co_current) in Hc2).
      clearbody o2. clear o1. cbn [finishAttempt]. unfold ownerOk.
      assert (Hf : finishAttempt policy w expected use Installed o2 = movePoint w (WorkEnded true) (setCurrent (ro_current o2) None o2)) by (by destruct use).
      rewrite Hf, core_move, core_starting, Hc2 by done. by apply install_ok.
    + unfold ownerOk. rewrite core_move, core_logCall. apply (point_ok w (CMuting a) _ _ H Hw I); try done; [by left|intros b; by left|].
      intros b [= <-]. by apply (ck_muting _ H w).
  - apply (dispose_move w (CMuting a) a (fun stopping => Refusing a stopping use) o H Hw); try done; by left.
Qed.

Lemma dispose_move_twice a w point (point' : bool -> WorkPoint) o :
  (let '(o, stopping) := disposeAttempt (Some a) (movePoint w point o) in movePoint w (point' stopping) o)
  = (let '(o, stopping) := disposeAttempt (Some a) o in movePoint w (point' stopping) o).
Proof.
  unfold disposeAttempt. change (ro_attempts (movePoint w point o)) with (ro_attempts o).
  destruct (match ro_attempts o !! a with Some t => at_transport t | None => false end).
  - exact (move_move w (point' true) point (logCall (TransportStopped a) (onAttempt releaseTransport a o))).
  - exact (move_move w (point' false) point (onAttempt abortAttempt a o)).
Qed.

Lemma settle_move w expected a applied use point o :
  settleTransport policy w expected a applied use (movePoint w point o) = settleTransport policy w expected a applied use o.
Proof.
  unfold settleTransport. change (canInstall a expected (movePoint w point o)) with (canInstall a expected o).
  change (ro_muted (movePoint w point o)) with (ro_muted o). destruct (canInstall a expected o).
  - destruct (Bool.eqb applied (ro_muted o)).
    + change (ro_attempts (movePoint w point o)) with (ro_attempts o).
      destruct (match ro_attempts o !! a with Some t => at_suspended t | None => false end).
      * set (o' := setCurrent (ro_current (interrupted (setCurrent (Some a) (ro_starting o) o))) None (interrupted (setCurrent (Some a) (ro_starting o) o))).
        destruct use; exact (move_move w (WorkEnded true) point o').
      * set (o1 := setCurrent (Some a) (ro_starting o) o). set (o2 := setEpisode (episodeConnected (ro_episode o1)) o1).
        destruct use; exact (move_move w (WorkEnded true) point (setCurrent (ro_current o2) None o2)).
    + exact (move_move w _ point (logCall (TransportMuted a (ro_muted o)) o)).
  - apply (dispose_move_twice a w point (fun stopping => Refusing a stopping use)).
Qed.

Lemma startSettles_ok w ok o : ownerOk o -> ownerOk (startSettles policy w ok o).
Proof.
  intros H. unfold startSettles. destruct (ro_works o !! w) as [[origin expected [a muted use| | | | | | | | |]]|] eqn:Ew; try done.
  pose proof (point_at _ _ _ Ew) as Hw. cbn in Hw.
  set (o1 := onAttempt (attemptStarted ok) a o).
  assert (Hc : coreOf (movePoint w (Muting a muted use) o1)
    = coreAttempts (alter (fun _ => {| ca_pending := false; ca_live := ok; ca_transport := ok |}) a (co_attempts (coreOf o)))
            (corePoint w (CMuting a) (coreOf o))).
  { rewrite core_move. unfold o1. by rewrite (core_alter _ (fun _ => {| ca_pending := false; ca_live := ok; ca_transport := ok |})). }
  assert (H1 : ownerOk (movePoint w (Muting a muted use) o1)) by (unfold ownerOk; rewrite Hc; by apply started_ok).
  assert (Hw1 : pointAt (movePoint w (Muting a muted use) o1) w (CMuting a)).
  { unfold pointAt. rewrite Hc. apply list_lookup_insert_eq. by eapply lookup_lt_Some. }
  destruct ok.
  - rewrite <- (settle_move w expected a muted use (Muting a muted use)). by apply settleTransport_ok.
  - unfold failAttempt. rewrite <- (dispose_move_twice a w (Muting a muted use) (fun stopping => Failing a stopping false use)).
    apply (failAttempt_ok w (CMuting a) a false use _ H1 Hw1). by left.
Qed.

Lemma muteSettles_ok w ok o : ownerOk o -> ownerOk (muteSettles policy w ok o).
Proof.
  intros H. unfold muteSettles. destruct (ro_works o !! w) as [[origin expected [|a applied use| | | | | | | |]]|] eqn:Ew; try done.
  pose proof (point_at _ _ _ Ew) as Hw. cbn in Hw. destruct ok; [by apply settleTransport_ok|].
  apply (failAttempt_ok w (CMuting a)); try done. by left.
Qed.

(** The stop of a transport settles: for its operation, or for a pause. *)
Lemma confirmed_ok a ok o :
  let confirmed := if ok : bool then onAttempt attemptStopped a o else o in
  ownerOk o -> ownerOk confirmed /\ (forall w p, pointAt o w p -> pointAt confirmed w p)
  /\ (ok = true -> startedAt (coreOf o) a -> ~ busy (coreOf confirmed) a) /\ ro_pauses confirmed = ro_pauses o.
Proof.
  intros confirmed H. subst confirmed. destruct ok; [|done].
  assert (Hc : coreOf (onAttempt attemptStopped a o) = coreAttempts (alter coreStopped a (co_attempts (coreOf o))) (coreOf o)) by (by apply core_alter).
  unfold ownerOk, pointAt. rewrite Hc. split_and!; [by apply stopped_ok|done| |done]. intros _. apply stopped_idle.
Qed.

Lemma stopSettled_ok w a ok k o :
  ownerOk o -> ro_works o !! w = Some k -> awaitsStop a k = true ->
  ownerOk (stopSettled policy w ok k (if ok : bool then onAttempt attemptStopped a o else o)).
Proof.
  intros H Hk Ha. pose proof (point_at _ _ _ Hk) as Hw.
  assert (Hp : pointCore (wk_point k) = CStopping a).
  { revert Ha. unfold awaitsStop. by destruct (wk_point k) as [| |? [|] ?|? [|] ? ?|[] [|]| | | | |]; try done; intros ->%Nat.eqb_eq. }
  rewrite Hp in Hw. destruct (confirmed_ok a ok o H) as (H' & Hw' & Hb & _). specialize (Hw' w _ Hw).
  specialize (fun Hok => Hb Hok (ck_stopping _ H w a Hw)). set (o' := if ok then _ else _) in *. clearbody o'.
  assert (Hno : ok = true -> forall b, holds (CStopping a) b -> ~ busy (coreOf o') b) by (intros Hok b [= <-]; by apply Hb).
  unfold stopSettled. revert Ha Hp. unfold awaitsStop.
  destruct (wk_point k) as [| |a' [|] use|a' [|] cleanup use|[a'|] [|]| | | | |]; try done; intros ->%Nat.eqb_eq _.
  - destruct ok; [apply (finishAttempt_ok w (CStopping a)); try done; by right; split; [intros []|apply Hno]|].
    apply (failAttempt_ok w (CStopping a)); try done. by right.
  - apply (finishAttempt_ok w (CStopping a)); try done. destruct cleanup; [by left|]. destruct ok; [|by left].
    right. split; [by intros []|by apply Hno].
  - destruct ok; [|by apply (move_failed w (CStopping a))]. apply (retryLoop_ok w (CStopping a)); try done; [by intros []|by apply Hno].
Qed.

Lemma stopSettles_ok a ok o : ownerOk o -> ownerOk (stopSettles policy a ok o).
Proof.
  intros H. unfold stopSettles. destruct (list_find _ (ro_works o)) as [[w k]|] eqn:Ef.
  - apply list_find_Some in Ef as (Hk & Ha & _). by apply stopSettled_ok.
  - destruct (existsb _ (ro_pauses o)) eqn:Ee; cbn [orb].
    + apply existsb_exists in Ee as (pause & Hin%list_elem_of_In & Hs%bool_decide_eq_true).
      destruct (confirmed_ok a ok o H) as (H' & _ & Hb & Hp). set (o' := if ok then _ else _) in *. clearbody o'.
      apply (pauses_ok a ok) in H'; [|intros ->; apply Hb; [done|by apply (ck_pausing _ H pause a Hin)]].
      change (co_pauses (coreOf o')) with (ro_pauses o') in H'. rewrite Hp in H'. exact H'.
    + destruct (bool_decide (a ∈ ro_stops o)); [|done].
      destruct (confirmed_ok a ok o H) as (H' & _ & _ & Hp). set (o' := if ok then _ else _) in *. clearbody o'.
      assert (Hid : pauseStopped a ok <$> ro_pauses o = ro_pauses o').
      { rewrite Hp. rewrite <- (list_fmap_id (ro_pauses o)) at 2. apply list_fmap_ext. intros i pause Hi. cbn. unfold pauseStopped.
        rewrite bool_decide_false; [done|]. intros Hs. enough (existsb (fun p => bool_decide (pa_stopping p = Some a)) (ro_pauses o) = true) by congruence.
        apply existsb_exists. exists pause. split; [apply list_elem_of_In; by eapply list_elem_of_lookup_2|by apply bool_decide_eq_true]. }
      rewrite Hid. exact H'.
Qed.

Lemma insert_snoc {A} (l : list A) (x y : A) : <[length l := y]> (l ++ [x]) = l ++ [y].
Proof. by rewrite <- (Nat.add_0_r (length l)), insert_app_r. Qed.

(** A reconnection is scheduled, unless an operation is on its way. *)
Lemma scheduleReconnect_ok o :
  ownerOk o -> ownerOk (scheduleReconnect o) /\ (forall w p, pointAt o w p -> pointAt (scheduleReconnect o) w p)
  /\ (forall w, w < length (ro_works o) -> ro_work o <> Some w -> ro_work (scheduleReconnect o) <> Some w).
Proof.
  intros H. unfold scheduleReconnect. destruct (bool_decide (ro_mode o = RunningOwner)) eqn:Er; cbn [negb]; [|done].
  apply bool_decide_eq_true in Er. change (ro_work (interrupted o)) with (ro_work o). destruct (ro_work o) as [w0|] eqn:Ew.
  { split_and!; [done|done|]. intros w _ Hw. change (ro_work o <> Some w). by rewrite Ew. }
  set (w := length (ro_works o)). unfold trackWork. change (length (ro_works (interrupted o))) with w.
  set (o1 := setWork _ _ _ _). unfold beginRetry. change (ro_current (interrupted o1)) with (ro_current o).
  set (o2 := setCurrent None _ _).
  assert (Hc2 : coreOf o2 = coreCurrent None (ro_mode o) (setPoints (co_works (coreOf o) ++ [CIdle]) (Some w) (coreOf o))).
  { unfold o2, coreCurrent, setPoints, coreOf, o1. cbn. by rewrite fmap_app. }
  destruct (disposeAttempt (ro_current o) o2) as [o3 stopping] eqn:E. apply core_dispose in E as (Hc3 & -> & Hwork & _).
  assert (Hlen : w = length (co_works (coreOf o))) by (cbn; by rewrite length_fmap).
  set (q := pointCore (Replacing (ro_current o) (hasTransport (ro_current o) (coreOf o2)))).
  assert (Hq : q = CIdle /\ (forall a, co_current (coreOf o) = Some a -> ~ busy (coreOf o) a) \/ exists a, q = CStopping a /\ co_current (coreOf o) = Some a).
  { unfold q. rewrite Hc2. change (co_current (coreOf o)) with (ro_current o). destruct (ro_current o) as [a|] eqn:Ec; [|by left]. cbn [pointCore].
    change (hasTransport (Some a) (coreCurrent None (ro_mode o) (setPoints (co_works (coreOf o) ++ [CIdle]) (Some w) (coreOf o))))
      with (hasTransport (Some a) (coreOf o)).
    destruct (hasTransport (Some a) (coreOf o)) eqn:Et; [right; by exists a|]. left. split; [done|]. intros b [= <-] (t & Ht & Hor).
    destruct (ck_current _ H a Ec) as (_ & Hk & _). apply (kept_busy _ a t Hk Ht); [|by exists t]. cbn in Et. cbn in Ht. by rewrite Ht in Et. }
  pose proof (replace_ok q _ H Er Ew Hq) as H'. rewrite <- Hlen in H'.
  assert (Hcore : coreOf (movePoint w (Replacing (ro_current o) (hasTransport (ro_current o) (coreOf o2))) o3)
    = coreDispose (ro_current o) (coreCurrent None (ro_mode o) (setPoints (co_works (coreOf o) ++ [q]) (Some w) (coreOf o)))).
  { rewrite core_move, Hc3. fold q. rewrite Hc2. unfold coreDispose, hasTransport. destruct (ro_current o) as [a|].
    - cbn [co_attempts coreCurrent setPoints]. destruct (match co_attempts (coreOf o) !! a with Some t => ca_transport t | None => false end);
        unfold corePoint, setPoints, coreAttempts, coreCurrent; cbn [co_attempts co_current co_mode co_work co_works co_pauses]; by rewrite Hlen, insert_snoc.
    - unfold corePoint, setPoints, coreCurrent. cbn [co_attempts co_current co_mode co_work co_works co_pauses]. by rewrite Hlen, insert_snoc. }
  split_and!.
  - unfold ownerOk. rewrite Hcore. apply coreDispose_ok; [exact H'|done|]. intros w' a Ha [(_ & Hm)|[_ Hm]]%lookup_snoc_cases.
    + destruct Hq as [[Heq _]|(b & Heq & _)]; congruence.
    + destruct (ck_current _ H a Ha) as (_ & _ & Hno). by destruct (Hno w' _ Hm).
  - intros w' p Hp. unfold pointAt. rewrite Hcore.
    assert (Hl : (co_works (coreOf o) ++ [q]) !! w' = Some p) by (rewrite lookup_app_l; [done|by eapply lookup_lt_Some]).
    unfold coreDispose. destruct (ro_current o) as [a|]; [|done]. by destruct (hasTransport _ _).
  - intros w' Hlt _ Hw'. change (ro_work (movePoint w _ o3)) with (ro_work o3) in Hw'. rewrite Hwork in Hw'. cbn in Hw'. injection Hw' as <-. unfold w in Hlt. lia.
Qed.

Lemma move_settled w ok point o :
  ownerOk o -> pointAt o w (CEnded ok) \/ pointAt o w CCaught /\ ok = false -> ro_work o <> Some w ->
  point = (if ok then WorkSettled true else WorkCaught) \/ ok = false /\ point = WorkSettled false -> ownerOk (movePoint w point o).
Proof.
  intros H Hw Hwork Hp. unfold ownerOk. rewrite core_move. apply (point_over_ok w ok _ _ H Hw Hwork).
  destruct Hp as [->|[-> ->]]; [|right; split; [done|by right]]. destruct ok; [by left|right; split; [done|by left]].
Qed.

Lemma workFinally_ok w origin ok o : ownerOk o -> pointAt o w (CEnded ok) -> ownerOk (workFinally w origin ok o).
Proof.
  intros H Hw. unfold workFinally.
  set (o1 := if bool_decide (ro_work o = Some w) then _ else o).
  assert (ownerOk o1 /\ pointAt o1 w (CEnded ok) /\ ro_work o1 <> Some w) as (H1 & Hw1 & Hn1).
  { unfold o1. destruct (bool_decide (ro_work o = Some w)) eqn:E; [apply bool_decide_eq_true in E|by apply bool_decide_eq_false in E].
    split_and!; [|done|done]. exact (clear_ok w ok _ H Hw E). }
  clearbody o1. clear H Hw.
  set (o2 := match ro_current o1 with Some _ => _ | None => o1 end).
  assert (ownerOk o2 /\ pointAt o2 w (CEnded ok) /\ ro_work o2 <> Some w) as (H2 & Hw2 & Hn2).
  { unfold o2. destruct (ro_current o1) as [a|]; [|done]. destruct (isTerminal a o1); [|done].
    destruct (scheduleReconnect_ok o1 H1) as (Hs & Hp & Hn). split_and!; [done|by apply Hp|]. apply Hn; [|done].
    apply lookup_lt_Some in Hw1. cbn in Hw1. by rewrite length_fmap in Hw1. }
  clearbody o2. apply (move_settled w ok); [done|by left|done|]. destruct ok; [by left|]. destruct origin; [by left|by right|by left].
Qed.

Lemma workCaught_ok w origin o : ownerOk o -> pointAt o w CCaught -> ownerOk (workCaught w origin o).
Proof.
  intros H Hw. unfold workCaught.
  assert (Hn : co_work (coreOf o) <> Some w).
  { intros Hwork. destruct (ck_work _ H w Hwork) as (p & Hp & Hor). unfold pointAt in Hw. rewrite Hw in Hp. injection Hp as <-. by destruct Hor as [[]|[? ?]]. }
  set (o1 := match origin with FromRecovery => _ | _ => _ end).
  assert (ownerOk o1 /\ co_works (coreOf o1) = co_works (coreOf o) /\ co_work (coreOf o1) = co_work (coreOf o)) as (H1 & Hw1 & Hn1).
  { unfold o1. destruct origin; [by apply stopOwner_ok|by apply stopOwner_ok|by apply failOwner_ok]. }
  clearbody o1. apply (move_settled w false); [done| | |by right].
  - right. unfold pointAt. by rewrite Hw1.
  - change (co_work (coreOf o1) <> Some w). by rewrite Hn1.
Qed.

Lemma core_begin w reason use o :
  coreOf (beginAttempt w reason use o)
  = corePoint w (CStarting (length (co_attempts (coreOf o)))) (coreAttempts (co_attempts (coreOf o) ++ [attemptCore newAttempt]) (coreOf o)).
Proof.
  unfold beginAttempt. rewrite core_move, core_logCall. cbn [pointCore]. unfold coreOf, coreAttempts.
  cbn [co_attempts co_current co_mode co_work co_works co_pauses]. rewrite length_fmap. cbn. by rewrite fmap_app.
Qed.

Lemma proceed_ok w o : ownerOk o -> ownerOk (proceed policy w o).
Proof.
  intros H. unfold proceed. destruct (ro_works o !! w) as [[origin expected point]|] eqn:Ew; [|done].
  pose proof (point_at _ _ _ Ew) as Hw. cbn [wk_point wk_expected wk_origin] in *.
  destruct point as [| |a [|] use|a [|] cleanup use|previous [|]|[|]|ceiling [elapsed|]|ok| |]; try done.
  - apply (finishAttempt_ok w CIdle); try done. right. by split; [intros []|].
  - apply (finishAttempt_ok w (if cleanup then CFailed else CIdle)); try done; destruct cleanup; try done; [by left|].
    right. by split; [intros []|].
  - apply (retryLoop_ok w CIdle); try done; [by destruct previous|by intros []].
  - apply (retryLoop_ok w CIdle); try done. by intros [].
  - set (o1 := setWork (ro_work o) (ro_works o) None o). assert (H1 : ownerOk o1) by exact H.
    assert (Hw1 : pointAt o1 w (if elapsed then CElapsed else CIdle)) by (destruct elapsed; exact Hw). clearbody o1. clear H Hw Ew.
    destruct (negb elapsed || negb (canRun expected o1) || negb (bool_decide (ro_ready o1 = Ready))) eqn:Ec.
    + apply (retryLoop_ok w (if elapsed then CElapsed else CIdle)); try done; destruct elapsed; try done; by intros [].
    + apply orb_false_iff in Ec as [[E1 E2]%orb_false_iff _]. apply negb_false_iff in E1 as ->. apply negb_false_iff in E2.
      unfold canRun in E2. apply andb_prop in E2 as [Hrun%bool_decide_eq_true _].
      unfold ownerOk. rewrite core_begin. by apply begin_ok.
  - by apply workFinally_ok.
  - by apply workCaught_ok.
Qed.

(** ** Its callers *)

Lemma startOwner_ok o : ownerOk o -> ownerOk (startOwner o).
Proof.
  intros H. unfold startOwner. destruct (bool_decide (ro_mode o = NewOwner)) eqn:E; cbn [negb]; [|done]. apply bool_decide_eq_true in E.
  destruct (ck_new _ H E) as (Ha & Hw & Hp & Hwork).
  assert (Hcur : ro_current o = None).
  { destruct (ro_current o) as [a|] eqn:Ec; [|done]. destruct (ck_current _ H a Ec) as (Hrun & _). cbn in Hrun. congruence. }
  set (o1 := setMode RunningOwner (S (ro_generation o)) true o). unfold trackWork. set (o2 := setWork _ _ _ _). set (w := length (ro_works o1)).
  assert (Hlen : w = length (co_works (coreOf o))) by (cbn; by rewrite length_fmap).
  assert (Hnil : forall b, ~ busy (coreOf o) b) by (intros b (t & Ht & _); by rewrite Ha in Ht).
  assert (Hc2 : coreOf o2 = {| co_attempts := co_attempts (coreOf o) ++ []; co_current := None; co_mode := RunningOwner; co_work := Some w;
      co_works := co_works (coreOf o) ++ [CEnded false]; co_pauses := co_pauses (coreOf o) |}).
  { unfold o2, coreOf. cbn. by rewrite Hcur, fmap_app, app_nil_r. }
  assert (Hidle : forall w' p, co_works (coreOf o) !! w' = Some p -> ~ active p) by (intros w' p Hp'; by rewrite Hw in Hp').
  assert (Hpa : forall pause, pause ∈ co_pauses (coreOf o) -> pa_stopping pause = None) by (intros pause Hin; rewrite Hp in Hin; by apply not_elem_of_nil in Hin).
  change (ownerOk (if bool_decide (ro_ready o2 = Ready) then beginAttempt w ForActivation UseActivation o2 else o2)). unfold ownerOk.
  destruct (bool_decide (ro_ready o2 = Ready)).
  - rewrite core_begin, Hc2. unfold corePoint, setPoints, coreAttempts. cbn [co_attempts co_current co_mode co_work co_works co_pauses].
    rewrite !app_nil_r, Hlen, insert_snoc. apply restart_ok; try done. right. by exists (attemptCore newAttempt).
  - rewrite Hc2, Hlen. apply restart_ok; try done. left. split; [done|by right].
Qed.

Lemma resumed_core o w point expected :
  w = length (ro_works o) -> ro_current o = None ->
  coreOf (setWork (Some w) (ro_works o ++ [{| wk_origin := FromResume; wk_expected := expected; wk_point := point |}]) (ro_cancelWait o)
     (setMode RunningOwner expected (ro_subscribed o) o))
  = {| co_attempts := co_attempts (coreOf o) ++ []; co_current := None; co_mode := RunningOwner; co_work := Some (length (co_works (coreOf o)));
      co_works := co_works (coreOf o) ++ [pointCore point]; co_pauses := co_pauses (coreOf o) |}.
Proof. intros -> Hcur. unfold coreOf. cbn. by rewrite Hcur, fmap_app, app_nil_r, length_fmap. Qed.

(** When every pause has resolved, nothing is on its way. *)
Lemma resume_clear o :
  ownerOk o -> orderlyEvent o ResumeCalled = true -> ro_mode o = PausedOwner ->
  ro_current o = None /\ (forall w p, co_works (coreOf o) !! w = Some p -> ~ active p)
  /\ (forall pause, pause ∈ co_pauses (coreOf o) -> pa_stopping pause = None) /\ forall a, ~ busy (coreOf o) a.
Proof.
  intros H Ho E. apply andb_prop in Ho as [Hrej Hres]. rewrite forallb_forall in Hres.
  assert (Hpause : forall pause, pause ∈ ro_pauses o -> pa_stopping pause = None /\ pa_refused pause = false
    /\ forall w, pa_work pause = Some w -> pointAt o w (CSettled true)).
  { intros pause Hin%list_elem_of_In. specialize (Hres pause Hin). unfold pauseResolved in Hres.
    apply andb_prop in Hres as [[?%bool_decide_eq_true ?%negb_true_iff]%andb_prop Hw]. split_and!; [done..|]. intros w Hwork. rewrite Hwork in Hw.
    unfold pointAt. cbn. rewrite list_lookup_fmap. destruct (ro_works o !! w) as [k|]; [|done]. cbn in *. by destruct (wk_point k) as [| | | | | | | | |[]]. }
  assert (Hset : forall w p, pointAt o w p -> p = CSettled true).
  { intros w p Hp. assert (exists ok, p = CSettled ok) as [ok ->].
    { destruct p as [| | | | | |?| |ok]; [..|by exists ok]; (destruct (ck_paused _ H E w _ Hp) as (pause & Hin & Hw); [done|]);
        destruct (Hpause pause Hin) as (_ & _ & Hs); specialize (Hs w Hw); unfold pointAt in *; congruence. }
    destruct ok; [done|]. exfalso. unfold rejected in Hrej. rewrite E in Hrej. apply negb_true_iff, andb_false_iff in Hrej as [?|Hrej]; [done|].
    apply orb_false_iff in Hrej as [Hrej _]. unfold pointAt in Hp. cbn in Hp. rewrite list_lookup_fmap in Hp.
    destruct (ro_works o !! w) as [k|] eqn:Ek; [|done]. cbn in Hp.
    enough (existsb (fun k => match wk_point k with WorkSettled false => true | _ => false end) (ro_works o) = true) by congruence.
    apply existsb_exists. exists k. split; [apply list_elem_of_In; by eapply list_elem_of_lookup_2|].
    by destruct (wk_point k) as [| |? [] ?|? [] [] ?|[] []| |? [[]|]|?| |[]]. }
  assert (Hno : forall a, ~ busy (coreOf o) a).
  { intros a Hb. destruct (ck_owned _ H (or_intror E)) with a as [Hc|[(w & p & Hp & Hh)|(pause & Hin & Hs)]]; [|done|..].
    - split; [|by intros pause Hin; apply Hpause]. intros w p Hp. rewrite (Hset w p Hp). by intros [].
    - destruct (ck_current _ H a Hc) as (Hrun & _). cbn in Hrun. congruence.
    - by rewrite (Hset w p Hp) in Hh.
    - destruct (Hpause pause Hin) as (Hs' & _). congruence. }
  split_and!; [|intros w' p Hp; rewrite (Hset w' p Hp); by intros []|intros pause Hin; by apply Hpause|done].
  destruct (ro_current o) as [a|] eqn:Ec; [|done]. destruct (ck_current _ H a Ec) as (Hrun & _). cbn in Hrun. congruence.
Qed.

Lemma resumeOwner_ok o : ownerOk o -> orderlyEvent o ResumeCalled = true -> ownerOk (resumeOwner o).
Proof.
  intros H Ho. unfold resumeOwner. destruct (bool_decide (ro_mode o = PausedOwner)) eqn:E; cbn [negb]; [|done]. apply bool_decide_eq_true in E.
  destruct (resume_clear o H Ho E) as (Hcur & Hidle & Hpa & Hno).
  unfold trackWork. set (w := length (ro_works (setMode RunningOwner (S (ro_generation o)) (ro_subscribed o) o))). set (o2 := setWork _ _ _ _).
  assert (Hc2 := resumed_core o w (Replacing None false) (S (ro_generation o)) eq_refl Hcur : coreOf o2 = _). cbn [pointCore] in Hc2.
  assert (Hlen : w = length (co_works (coreOf o))) by (cbn; by rewrite length_fmap).
  change (ownerOk (if bool_decide (ro_ready o2 = Ready) then beginAttempt w ForResume UseResume o2 else beginRetry w o2)).
  destruct (bool_decide (ro_ready o2 = Ready)).
  - unfold ownerOk. rewrite core_begin, Hc2. unfold corePoint, setPoints, coreAttempts. cbn [co_attempts co_current co_mode co_work co_works co_pauses].
    rewrite !app_nil_r, Hlen, insert_snoc. apply restart_ok; try done. right. by exists (attemptCore newAttempt).
  - apply (beginRetry_idle w CIdle); try done.
    + unfold ownerOk. rewrite Hc2. apply restart_ok; try done. left. split; [done|by left].
    + unfold pointAt. rewrite Hc2, Hlen. by apply list_lookup_middle.
    + by intros [].
Qed.

Lemma noMicrotasks_points o w p :
  noMicrotasks o = true -> pointAt o w p -> p <> CFailed /\ p <> CCaught /\ forall ok, p <> CEnded ok.
Proof.
  unfold noMicrotasks, pointAt. rewrite forallb_forall. intros Hall Hp. cbn in Hp. rewrite list_lookup_fmap in Hp.
  destruct (ro_works o !! w) as [k|] eqn:Ek; [|done]. injection Hp as <-.
  assert (Hk : negb (inMicrotask k) = true) by (apply Hall, list_elem_of_In; by eapply list_elem_of_lookup_2).
  unfold inMicrotask in Hk. cbn [compose]. by destruct (wk_point k) as [| |? [] ?|? [] [] ?|[] []|[]|? [[]|]|[]| |[]].
Qed.

Lemma pauseOwner_ok o : ownerOk o -> noMicrotasks o = true -> ownerOk (pauseOwner o).
Proof.
  intros H Hmicro. unfold pauseOwner. destruct (bool_decide (ro_mode o = StoppedOwner) || bool_decide (ro_mode o = PausedOwner)) eqn:Em; [done|].
  apply orb_false_iff in Em as [Hs%bool_decide_eq_false Hp%bool_decide_eq_false].
  set (o0 := cancelOwner _).
  assert (Hc : coreOf o0 = coreCurrent (ro_current o) PausedOwner (coreOf o)) by (unfold o0; rewrite core_cancelOwner; done).
  assert (Hcur : ro_current o0 = ro_current o) by (change (co_current (coreOf o0) = ro_current o); by rewrite Hc).
  rewrite Hcur. set (o1 := setCurrent _ _ _).
  assert (Hc1 : coreOf o1 = coreCurrent None PausedOwner (coreOf o)).
  { transitivity (coreCurrent None (co_mode (coreOf o0)) (coreOf o0)); [done|]. by rewrite Hc. }
  destruct (disposeAttempt (ro_current o) o1) as [o2 stopping] eqn:E. apply core_dispose in E as (Hc2 & Hst & Hwork & Hpauses).
  assert (Hw1 : ro_work o1 = ro_work o) by (change (co_work (coreOf o1) = ro_work o); by rewrite Hc1).
  assert (Hp1 : ro_pauses o1 = ro_pauses o) by (change (co_pauses (coreOf o1) = ro_pauses o); by rewrite Hc1).
  set (pause := {| pa_stopping := _; pa_refused := false; pa_work := ro_work o2 |}).
  assert (Hcore : coreOf (setEnds (ro_pauses o2 ++ [pause]) (ro_stops o2) (ro_cleanup o2) o2)
    = coreDispose (ro_current o) (corePauses (co_pauses (coreOf o) ++ [pause]) (coreCurrent None PausedOwner (coreOf o)))).
  { transitivity (corePauses (ro_pauses o2 ++ [pause]) (coreOf o2)); [done|]. rewrite Hc2, Hpauses, Hp1, Hc1. unfold coreDispose, hasTransport.
    destruct (ro_current o) as [a|]; [|done]. cbn [co_attempts coreCurrent corePauses]. by destruct (match _ with Some t => ca_transport t | None => false end). }
  assert (Hstop : pa_stopping pause = if hasTransport (ro_current o) (coreOf o) then ro_current o else None).
  { cbn. rewrite Hst, Hc1. done. }
  unfold ownerOk. rewrite Hcore. apply coreDispose_ok; [|done|].
  - apply pause_ok; try done.
    + cbn. destruct (ro_mode o); try done; [by left|by right].
    + intros w p Hpt. destruct (noMicrotasks_points o w p Hmicro Hpt) as (_ & ? & Hend). destruct p as [| | | | | |ok| |ok]; try (by left); [by destruct (Hend ok)|right; by exists ok].
    + cbn. by rewrite Hwork, Hw1.
    + intros a. rewrite Hstop. by destruct (hasTransport (ro_current o) (coreOf o)).
    + intros a Ha. rewrite Hstop. change (co_current (coreOf o)) with (ro_current o) in Ha. rewrite Ha.
      destruct (hasTransport (Some a) (coreOf o)) eqn:Et; [by left|]. right. intros (t & Ht & Hor).
      destruct (ck_current _ H a Ha) as (_ & Hk & _). apply (kept_busy _ a t Hk Ht); [|by exists t]. cbn in Et. cbn in Ht. by rewrite Ht in Et.
  - intros w a Ha Hm. destruct (ck_current _ H a Ha) as (_ & _ & Hno). by destruct (Hno w _ Hm).
Qed.

Lemma observeReadiness_ok o : ownerOk o -> ownerOk (observeReadiness o).
Proof.
  intros H. unfold observeReadiness. destruct (negb (ro_subscribed o) || bool_decide (ro_readiness o = ro_ready o)); [done|].
  set (o1 := setRest _ _ _ _ _ o). assert (H1 : ownerOk o1) by exact H. clearbody o1.
  destruct (negb (bool_decide (ro_mode o1 = RunningOwner))); [done|].
  assert (H2 : ownerOk (cancelWaiting o1)) by (unfold ownerOk; by rewrite core_cancelWaiting). generalize dependent (cancelWaiting o1). intros o2 H2.
  destruct (ro_ready o); [done| |by apply failOwner_ok].
  assert (H3 : ownerOk (abortStarting o2)) by (unfold ownerOk; by rewrite core_abortStarting). generalize dependent (abortStarting o2). intros o3 H3.
  set (o4 := match ro_current o3 with Some _ => _ | None => o3 end).
  assert (H4 : ownerOk o4) by (unfold o4, ownerOk; destruct (ro_current o3); [by rewrite core_onAttempt|done]). clearbody o4.
  by apply scheduleReconnect_ok.
Qed.

Lemma delayElapses_ok w o : ownerOk o -> orderlyEvent o (DelayElapses w) = true -> ownerOk (delayElapses w o).
Proof.
  intros H Ho. unfold delayElapses. destruct (ro_works o !! w) as [[origin expected point]|] eqn:Ew; [|done].
  pose proof (point_at _ _ _ Ew) as Hw. cbn [wk_point] in *. destruct point as [| | | | | |ceiling [|]| | |]; try done.
  destruct (noMicrotasks o) eqn:Em; [|done]. unfold ownerOk. rewrite core_move. cbn [pointCore].
  apply (point_ok w CIdle _ _ H Hw I); try done; [by left|]. intros _ Hrun. apply andb_prop in Ho as [Hrej _].
  change (ro_mode o = RunningOwner) in Hrun. unfold rejected in Hrej. rewrite Hrun in Hrej. apply negb_true_iff, andb_false_iff in Hrej as [?|Hrej]; [done|].
  apply orb_false_iff in Hrej as [Hrej Href]. split.
  - intros w' p Hp. destruct (noMicrotasks_points o w' p Em Hp) as (? & ? & Hend). destruct p as [| | | | | |ok| |[]]; try done; try by intros [].
    + by destruct (Hend ok).
    + cbn in Hp. rewrite list_lookup_fmap in Hp. destruct (ro_works o !! w') as [k|] eqn:Ek; [|done]. injection Hp as Hp.
      enough (existsb (fun k => match wk_point k with WorkSettled false => true | _ => false end) (ro_works o) = true) by congruence.
      apply existsb_exists. exists k. split; [apply list_elem_of_In; by eapply list_elem_of_lookup_2|].
      by destruct (wk_point k) as [| |? [] ?|? [] [] ?|[] []| |? [[]|]|?| |[]].
  - intros pause Hin. destruct (pa_refused pause) eqn:Er; [|done]. enough (existsb pa_refused (ro_pauses o) = true) by congruence.
    apply existsb_exists. exists pause. by rewrite <- list_elem_of_In.
Qed.

Lemma ownerStep_ok o e : ownerOk o -> orderlyEvent o e = true -> ownerOk (ownerStep policy o e).
Proof.
  intros H Ho. destruct e as [| | | |muted|w ok|w ok|a ok|w|w| |ready| |a|a|a]; cbn [ownerStep].
  - by apply startOwner_ok.
  - apply pauseOwner_ok; [done|]. by apply andb_prop in Ho as [_ ?].
  - by apply resumeOwner_ok.
  - by apply stopOwner_ok.
  - unfold setMicrophoneMuted. set (o1 := setRest _ _ _ _ _ o). assert (H1 : ownerOk o1) by exact H. clearbody o1.
    destruct (ro_current o1) as [a|]; [|done]. by destruct (match ro_attempts o1 !! a with Some t => at_transport t | None => false end).
  - by apply startSettles_ok.
  - by apply muteSettles_ok.
  - by apply stopSettles_ok.
  - by apply proceed_ok.
  - by apply delayElapses_ok.
  - by destruct (ep_stable (ro_episode o)).
  - exact H.
  - by apply observeReadiness_ok.
  - unfold transportConnected. destruct (ro_attempts o !! a) as [t|]; [|done]. set (o1 := onAttempt _ a o).
    assert (H1 : ownerOk o1) by (unfold ownerOk, o1; by rewrite core_onAttempt). clearbody o1.
    by destruct (bool_decide (ro_current o1 = Some a) && at_suspended t && negb (at_terminal t) && at_transport t).
  - unfold transportSuspended. set (o1 := onAttempt _ a o).
    assert (H1 : ownerOk o1) by (unfold ownerOk, o1; by rewrite core_onAttempt). clearbody o1. by destruct (bool_decide (ro_current o1 = Some a)).
  - unfold transportEnded. set (o1 := onAttempt _ a o).
    assert (H1 : ownerOk o1) by (unfold ownerOk, o1; by rewrite core_onAttempt). clearbody o1.
    destruct (bool_decide (ro_current o1 = Some a)); [|done]. by apply scheduleReconnect_ok.
Qed.

Lemma run_ok o events : ownerOk o -> orderly policy o events = true -> ownerOk (foldl (ownerStep policy) o events).
Proof.
  induction events as [|e events IH] in o |- *; intros H Ho; [done|]. apply andb_prop in Ho as [He Ho]. cbn [foldl].
  apply IH; [by apply ownerStep_ok|done].
Qed.
End policy.

Lemma newOwner_ok ready : ownerOk (newOwner ready).
Proof.
  assert (Hb : forall a, ~ busy (coreOf (newOwner ready)) a) by (by intros a (t & Ht & _)).
  split; try done.
  - intros a b Ha. by destruct (Hb a).
  - intros _ _ a Ha. by destruct (Hb a).
Qed.

Lemma open_busy o a : openTransport o a = true -> busy (coreOf o) a.
Proof.
  unfold openTransport, busy. intros Ho. cbn. rewrite list_lookup_fmap. destruct (ro_attempts o !! a) as [t|]; [|done].
  exists (attemptCore t). split; [done|]. by apply orb_true_iff in Ho.
Qed.

(** ** The property *)

(** C24. In every orderly run of an activation's owner, however starts, stops,
    readiness, timers, pauses and callbacks of the transports interleave, at most one
    transport is being started or is not confirmed stopped: a replacement begins only
    after the stop of the one before is confirmed. *)
Theorem one_transport_at_a_time policy ready events a b :
  orderly policy (newOwner ready) events = true ->
  openTransport (runOwner policy ready events) a = true -> openTransport (runOwner policy ready events) b = true -> a = b.
Proof.
  intros Ho Ha%open_busy Hb%open_busy. eapply ck_one; [|exact Ha|exact Hb]. apply run_ok; [apply newOwner_ok|done].
Qed.

(** A transport starts, ends, is stopped, and is replaced after the delay; the
    assistant is paused, and resumed. *)
Definition replacedRun : list OwnerEvent :=
  [StartCalled; StartSettles 0 true; Proceeds 0; Terminated 0; StopSettles 0 true; DelayElapses 1; Proceeds 1].

Lemma one_transport_at_a_time_witness :
  let policy := GLOBAL_SUPERVISOR_RECONNECT_POLICY in
  let o := runOwner policy Ready replacedRun in
  orderly policy (newOwner Ready) replacedRun = true /\ openTransport o 1 = true /\ length (ro_attempts o) = 2
  /\ forall a, openTransport o a = true -> a = 1.
Proof.
  split; [vm_compute; reflexivity|]. split; [vm_compute; reflexivity|]. split; [vm_compute; reflexivity|].
  intros a Ha. apply (one_transport_at_a_time GLOBAL_SUPERVISOR_RECONNECT_POLICY Ready replacedRun a 1); [|exact Ha|]; vm_compute; reflexivity.
Defined.

(** ** What the hypotheses leave out *)

(** A pause whose stop is refused leaves the owner paused: the next pause resolves
    at once, and a resume starts a transport beside the one that was not stopped. *)
Definition refusedPauseRun : list OwnerEvent :=
  [StartCalled; StartSettles 0 true; Proceeds 0; PauseCalled; StopSettles 0 false; PauseCalled; ResumeCalled].

Lemma refused_pause_resumed :
  let o := runOwner GLOBAL_SUPERVISOR_RECONNECT_POLICY Ready refusedPauseRun in
  ro_mode o = RunningOwner /\ openTransport o 0 = true /\ openTransport o 1 = true /\ length (ro_pauses o) = 1.
Proof. vm_compute. repeat split. Qed.

(** A resume whose cleanup is not confirmed rejects and leaves the owner running:
    the next readiness that changes starts a transport beside the old one. *)
Definition refusedResumeRun : list OwnerEvent :=
  [StartCalled; StartSettles 0 true; Proceeds 0; PauseCalled; StopSettles 0 true; ResumeCalled; MuteCalled true;
   StartSettles 1 true; MuteSettles 1 false; StopSettles 1 false; Proceeds 1; Proceeds 1;
   ReadinessIs Waiting; ReadinessNotified; Proceeds 2; ReadinessIs Ready; ReadinessNotified; Proceeds 2; DelayElapses 2; Proceeds 2].

Lemma refused_resume_replaced :
  let o := runOwner GLOBAL_SUPERVISOR_RECONNECT_POLICY Ready refusedResumeRun in
  ro_mode o = RunningOwner /\ openTransport o 1 = true /\ openTransport o 2 = true /\ rejected o = true.
Proof. vm_compute. repeat split. Qed.
