(* ===== verification/ToolPages.v ===== *)
(** * Reading chats page by page

    Models apps/android/src/data/globalSupervisorToolPagination.ts, and the
    operations [readChat] and [listChats] of globalSupervisorTools.ts: the
    assistant reads a chat, or the list of the chats of every server, in pages
    that name the one after them by a cursor.

    What throws is [None].  A server is a function from the cursor of a request to
    its answer, which may fail. *)
From S2P Require Import Prelude JsMap Json JsonText JsonParse SafeText ThreadItems ThreadEvents MemoryCache SupervisorAttention.

Local Open Scope Z_scope.

(** ** Cursors *)

Definition validString (v : option json) : option jstr :=
  match v with Some (JStr (c :: s)) => Some (c :: s) | _ => None end.

Definition isRemoteCursor (v : option json) : option (option jstr) :=
  match v with Some JNull => Some None | Some (JStr s) => Some (Some s) | _ => None end.

Definition hasOnlyKeys (record : jobj) (keys : list string) : bool := forallb (fun k => bool_decide (k ∈ keys)) record.*1.

Definition catalogCursorKeys : list string := ["connectionId"; "connectionOrder"; "kind"; "remoteCursor"; "version"].
Definition historyCursorKeys : list string := ["itemOffset"; "kind"; "remoteCursor"; "target"; "version"].

Definition remoteCursorJson (cursor : option jstr) : json := match cursor with Some s => JStr s | None => JNull end.

(** The loop of [isExactConnectionOrder]. *)
Fixpoint exactOrderLoop (seen : list jstr) (value : list json) (expected : list jstr) : bool :=
  match value, expected with
  | [], [] => true
  | v :: value, connectionId :: expected =>
      match validString (Some v) with
      | Some s => bool_decide (s = connectionId) && negb (bool_decide (s ∈ seen)) && exactOrderLoop (s :: seen) value expected
      | None => false
      end
  | _, _ => false
  end.

Definition isExactConnectionOrder (value : option json) (expected : list jstr) : bool :=
  match value with Some (JArr l) => exactOrderLoop [] l expected | _ => false end.

(** [isCatalogCursorMetadata]: the connection and the remote cursor. *)
Definition isCatalogCursorMetadata (record : jobj) : option (jstr * option jstr) :=
  if hasOnlyKeys record catalogCursorKeys && isStr (oget "kind" record) "listChats" && isInt (oget "version" record) 1 then
    connectionId ← validString (oget "connectionId" record);
    remoteCursor ← isRemoteCursor (oget "remoteCursor" record);
    Some (connectionId, remoteCursor)
  else None.

Definition connectionIndexOf (connectionId : jstr) (order : list jstr) : option nat :=
  fst <$> list_find (fun c => c = connectionId) order.

Definition parseGlobalSupervisorCatalogCursor (cursor : option jstr) (connectionOrder : list jstr) : option (nat * option jstr) :=
  match cursor with
  | None => Some (0%nat, None)
  | Some cursor =>
      record ← asObject (parseJson cursor);
      '(connectionId, remoteCursor) ← isCatalogCursorMetadata record;
      if isExactConnectionOrder (oget "connectionOrder" record) connectionOrder then
        connectionIndex ← connectionIndexOf connectionId connectionOrder;
        Some (connectionIndex, remoteCursor)
      else None
  end.

Definition globalSupervisorCatalogCursor (connectionId : jstr) (connectionOrder : list jstr) (remoteCursor : option jstr) : jstr :=
  stringify (JObj [("connectionId", JStr connectionId); ("connectionOrder", JArr (JStr <$> connectionOrder));
                   ("kind", JStr (js "listChats")); ("remoteCursor", remoteCursorJson remoteCursor); ("version", JNum (NInt 1))]).

(** [isHistoryCursorMetadata], with [validItemOffset]: the offset and the remote
    cursor. *)
Definition isHistoryCursorMetadata (record : jobj) : option (Z * option jstr) :=
  if hasOnlyKeys record historyCursorKeys && isStr (oget "kind" record) "readChat" && isInt (oget "version" record) 1 then
    itemOffset ← asSafeNat (oget "itemOffset" record);
    remoteCursor ← isRemoteCursor (oget "remoteCursor" record);
    Some (itemOffset, remoteCursor)
  else None.

Definition parseGlobalSupervisorQualifiedChatRef (value : option json) : option ChatRef :=
  record ← asObject value;
  connectionId ← validString (oget "connectionId" record);
  threadId ← validString (oget "threadId" record);
  Some {| connectionId := connectionId; threadId := threadId |}.

Definition parseGlobalSupervisorHistoryCursor (cursor : option jstr) (target : ChatRef) : option (Z * option jstr) :=
  match cursor with
  | None => Some (0, None)
  | Some cursor =>
      record ← asObject (parseJson cursor);
      metadata ← isHistoryCursorMetadata record;
      cursorTarget ← parseGlobalSupervisorQualifiedChatRef (oget "target" record);
      if bool_decide (cursorTarget = target) then Some metadata else None
  end.

Definition chatRefJson (target : ChatRef) : json :=
  JObj [("connectionId", JStr (connectionId target)); ("threadId", JStr (threadId target))].

Definition globalSupervisorHistoryCursor (target : ChatRef) (remoteCursor : option jstr) (itemOffset : Z) : option jstr :=
  if bool_decide (remoteCursor = None) && (itemOffset =? 0) then None
  else
    Some (stringify (JObj [("itemOffset", JNum (NInt itemOffset)); ("kind", JStr (js "readChat"));
                           ("remoteCursor", remoteCursorJson remoteCursor); ("target", chatRefJson target);
                           ("version", JNum (NInt 1))])).

(** ** Pages of a server *)

Record GlobalSupervisorCatalogThread :=
  { cat_id : jstr; cat_name : option jstr; cat_preview : jstr; cat_threadSource : option jstr }.

(** [value !== null && typeof value !== "string"] throws. *)
Definition nullOrString (v : option json) : option (option jstr) := isRemoteCursor v.

Definition parseCatalogThread (value : json) : option GlobalSupervisorCatalogThread :=
  thread ← asObject (Some value);
  id ← validString (oget "id" thread);
  preview ← asString (oget "preview" thread);
  name ← nullOrString (oget "name" thread);
  threadSource ← nullOrString (oget "threadSource" thread);
  Some {| cat_id := id; cat_name := name; cat_preview := preview; cat_threadSource := threadSource |}.

Definition boundedPageData (value : json) (maxItems : Z) : option (list json) :=
  page ← asObject (Some value);
  data ← asArray (oget "data" page);
  if maxItems <? Z.of_nat (length data) then None else Some data.

Definition pageNextCursor (value : json) (requestedCursor : option jstr) : option (option jstr) :=
  match field "nextCursor" value with
  | Some JNull => Some None
  | nextCursor =>
      next ← validString nextCursor;
      if bool_decide (requestedCursor = Some next) then None else Some (Some next)
  end.

Definition parseGlobalSupervisorCatalogPage (value : json) (maxEntries : Z) (requestedCursor : option jstr)
    : option (list GlobalSupervisorCatalogThread * option jstr) :=
  source ← boundedPageData value maxEntries;
  nextCursor ← pageNextCursor value requestedCursor;
  data ← mapM parseCatalogThread source;
  Some (data, nextCursor).

(** The turn is its id and its items. *)
Record GlobalSupervisorTurnHistoryPage := { tp_nextCursor : option jstr; tp_turn : option (jstr * list json) }.

Definition parseGlobalSupervisorTurnHistoryPage (value : json) (requestedCursor : option jstr)
    : option GlobalSupervisorTurnHistoryPage :=
  source ← boundedPageData value 1;
  nextCursor ← pageNextCursor value requestedCursor;
  match source with
  | [] => Some {| tp_nextCursor := nextCursor; tp_turn := None |}
  | candidate :: _ =>
      turn ← asObject (Some candidate);
      id ← validString (oget "id" turn);
      items ← asArray (oget "items" turn);
      Some {| tp_nextCursor := nextCursor; tp_turn := Some (id, items) |}
  end.

Definition pageItems (page : GlobalSupervisorTurnHistoryPage) : list json :=
  match tp_turn page with Some (_, items) => items | None => [] end.

(** ** Messages *)

Inductive ChatItemKind := AssistantItem | UserItem.

Record HistoryItemProjection := { hp_id : jstr; hp_kind : ChatItemKind; hp_textParts : list jstr }.

Fixpoint userMessageTextParts (contentValues : list json) : option (list jstr) :=
  match contentValues with
  | [] => Some []
  | value :: contentValues =>
      content ← asObject (Some value);
      type ← validString (oget "type" content);
      if bool_decide (type = js "text") then
        text ← asString (oget "text" content);
        rest ← userMessageTextParts contentValues;
        Some (text :: rest)
      else userMessageTextParts contentValues
  end.

Definition userMessageProjection (item : jobj) (id : jstr) : option (option HistoryItemProjection) :=
  content ← asArray (oget "content" item);
  textParts ← userMessageTextParts content;
  Some (if bool_decide (textParts = []) || bool_decide (textParts = [[]]) then None
        else Some {| hp_id := id; hp_kind := UserItem; hp_textParts := textParts |}).

Definition messageProjection (value : json) : option (option HistoryItemProjection) :=
  item ← asObject (Some value);
  id ← validString (oget "id" item);
  type ← validString (oget "type" item);
  if bool_decide (type = js "agentMessage") then
    text ← asString (oget "text" item);
    Some (Some {| hp_id := id; hp_kind := AssistantItem; hp_textParts := [text] |})
  else if bool_decide (type = js "userMessage") then userMessageProjection item id
  else Some None.

(** ** Bytes *)

(** [character.codePointAt(0)] of a character of [for (const ... of value)]. *)
Definition codePointOf (character : jstr) : N :=
  (match character with
   | [h; l] => (h - 55296) * 1024 + (l - 56320) + 65536
   | c :: _ => c
   | [] => 0
   end)%N.

Definition utf8CodePointBytes (codePoint : N) : Z :=
  if (codePoint <=? 127)%N then 1 else if (codePoint <=? 2047)%N then 2 else if (codePoint <=? 65535)%N then 3 else 4.

Definition JSON_SHORT_ESCAPES : list jstr := [[34]; [92]; [8]; [12]; [10]; [13]; [9]]%N.

Definition jsonCharacterBytes (character : jstr) : Z :=
  if bool_decide (character ∈ JSON_SHORT_ESCAPES) then 2
  else if (codePointOf character <? 32)%N then 6 else utf8CodePointBytes (codePointOf character).

Definition sumBytes {A} (f : A -> Z) (l : list A) : Z := foldl (fun bytes x => bytes + f x) 0 l.

Definition jsonStringContentBytes (value : jstr) : Z := sumBytes jsonCharacterBytes (characters value).

Definition ASSISTANT_PROJECTION_FIXED_BYTES : Z := 38.
Definition USER_PROJECTION_FIXED_BYTES : Z := 33.
Definition JSON_ARRAY_SEPARATOR_BYTES : Z := 2.

(** The loop over the parts: a separator before each but the first. *)
Fixpoint partsBytes (first : bool) (bytes : Z) (parts : list jstr) : Z :=
  match parts with
  | [] => bytes
  | part :: parts =>
      partsBytes false ((if first then bytes else bytes + JSON_ARRAY_SEPARATOR_BYTES) + jsonStringContentBytes part) parts
  end.

Definition projectionBytes (p : HistoryItemProjection) : Z :=
  let fixed := match hp_kind p with AssistantItem => ASSISTANT_PROJECTION_FIXED_BYTES | UserItem => USER_PROJECTION_FIXED_BYTES end in
  partsBytes true (fixed + jsonStringContentBytes (hp_id p)) (hp_textParts p).

Record GlobalSupervisorChatItem := { ci_id : jstr; ci_kind : ChatItemKind; ci_text : jstr }.

Definition materializeProjection (p : HistoryItemProjection) : GlobalSupervisorChatItem :=
  {| ci_id := hp_id p; ci_kind := hp_kind p; ci_text := join ([10%N]) (hp_textParts p) |}.

Definition oversizedText : jstr := js "[Message exceeds read limit]".

Definition oversizedProjection (p : HistoryItemProjection) : GlobalSupervisorChatItem :=
  {| ci_id := hp_id p; ci_kind := hp_kind p; ci_text := oversizedText |}.

Definition oversizedProjectionBytes (p : HistoryItemProjection) : Z :=
  projectionBytes {| hp_id := hp_id p; hp_kind := hp_kind p; hp_textParts := [oversizedText] |}.

(** ** One page of a chat *)

Record Appended := { ap_items : list GlobalSupervisorChatItem; ap_bytes : Z; ap_consumed : bool; ap_stop : bool }.

Definition appendProjection (p : HistoryItemProjection) (items : list GlobalSupervisorChatItem) (maxBytes previousBytes : Z)
    : option Appended :=
  let nextBytes := previousBytes + projectionBytes p in
  if nextBytes <=? maxBytes then
    Some {| ap_items := items ++ [materializeProjection p]; ap_bytes := nextBytes; ap_consumed := true; ap_stop := false |}
  else if bool_decide (items = []) then
    let fallbackBytes := oversizedProjectionBytes p in
    if maxBytes <? fallbackBytes then None
    else Some {| ap_items := items ++ [oversizedProjection p]; ap_bytes := fallbackBytes; ap_consumed := true; ap_stop := true |}
  else Some {| ap_items := items; ap_bytes := previousBytes; ap_consumed := false; ap_stop := true |}.

(** The loop of [collectGlobalSupervisorTurnHistoryItems] over what is left from
    [itemOffset].  When an item does not stop the loop it was consumed. *)
Fixpoint collectItems (limit maxBytes : Z) (source : list json) (inspected bytes itemOffset : Z)
    (items : list GlobalSupervisorChatItem) : option (Z * list GlobalSupervisorChatItem) :=
  match source with
  | [] => Some (itemOffset, items)
  | value :: rest =>
      if inspected <? limit then
        projection ← messageProjection value;
        match projection with
        | None => collectItems limit maxBytes rest (inspected + 1) bytes (itemOffset + 1) items
        | Some p =>
            appended ← appendProjection p items maxBytes bytes;
            let itemOffset := if ap_consumed appended then itemOffset + 1 else itemOffset in
            if ap_stop appended then Some (itemOffset, ap_items appended)
            else collectItems limit maxBytes rest (inspected + 1) (ap_bytes appended) itemOffset (ap_items appended)
        end
      else Some (itemOffset, items)
  end.

Definition collectGlobalSupervisorTurnHistoryItems (page : GlobalSupervisorTurnHistoryPage) (initialOffset limit maxBytes : Z)
    : option (Z * list GlobalSupervisorChatItem) :=
  collectItems limit maxBytes (drop (Z.to_nat initialOffset) (pageItems page)) 0 0 initialOffset [].

(** ** The operations *)

Definition readChatPageMaxBytes : Z := 262144.
Definition readChatPageMaxItems : Z := 100.
Definition listChatsPageMaxEntries : Z := 100.

(** What the policy and the connections say of the target: allowed, and its
    server live. *)
Record TargetAuthority := { ta_allowed : bool; ta_live : bool }.

Definition requireLiveTarget (authority : TargetAuthority) : bool := ta_allowed authority && ta_live authority.

Definition readChat (authority : TargetAuthority) (answer : option jstr -> option json) (cursor : option jstr)
    (limit maxBytes : Z) (target : ChatRef) : option (option jstr * list GlobalSupervisorChatItem) :=
  if negb (ta_allowed authority) then None
  else
    '(itemOffset, remoteCursor) ← parseGlobalSupervisorHistoryCursor cursor target;
    if negb (requireLiveTarget authority) then None
    else
      let boundedLimit := Z.min limit readChatPageMaxItems in
      response ← answer remoteCursor;
      page ← parseGlobalSupervisorTurnHistoryPage response remoteCursor;
      let sourceItems := pageItems page in
      if Z.of_nat (length sourceItems) <? itemOffset then None
      else
        '(nextOffset, items) ← collectGlobalSupervisorTurnHistoryItems page itemOffset boundedLimit (Z.min maxBytes readChatPageMaxBytes);
        Some (if nextOffset <? Z.of_nat (length sourceItems) then globalSupervisorHistoryCursor target remoteCursor nextOffset
              else globalSupervisorHistoryCursor target (tp_nextCursor page) 0, items).

Record ChatListEntry := { le_target : ChatRef; le_preview : jstr; le_title : jstr }.

(** [preview.split("\n", 1)[0]]. *)
Fixpoint firstLine (s : jstr) : jstr :=
  match s with
  | c :: s => if (c =? 10)%N then [] else c :: firstLine s
  | [] => []
  end.

Definition chatListEntry (connection : jstr) (thread : GlobalSupervisorCatalogThread) : option ChatListEntry :=
  target ← globalSupervisorQualifiedChatRef connection (cat_id thread);
  Some {| le_target := target; le_preview := cat_preview thread; le_title := default (firstLine (cat_preview thread)) (cat_name thread) |}.

(** [connectionOrder] is the ids of the enabled connections; [live] and [answer]
    are of each connection. *)
Definition listChats (connectionOrder : list jstr) (live : jstr -> bool) (answer : jstr -> option jstr -> option json)
    (cursor : option jstr) (limit : Z) : option (option jstr * list ChatListEntry) :=
  '(connectionIndex, remoteCursor) ← parseGlobalSupervisorCatalogCursor cursor connectionOrder;
  match connectionOrder !! connectionIndex with
  | None => Some (None, [])
  | Some connection =>
      if negb (live connection) then None
      else
        let boundedLimit := Z.min limit listChatsPageMaxEntries in
        response ← answer connection remoteCursor;
        '(data, nextCursor) ← parseGlobalSupervisorCatalogPage response boundedLimit remoteCursor;
        items ← mapM (chatListEntry connection) data;
        let nextConnectionIndex := match nextCursor with None => S connectionIndex | Some _ => connectionIndex end in
        Some (match connectionOrder !! nextConnectionIndex with
              | None => None
              | Some nextConnection => Some (globalSupervisorCatalogCursor nextConnection connectionOrder nextCursor)
              end, items)
  end.

(** ** Reading a whole chat *)

(** A chat on a server, from a cursor on: the items of its turns, one turn to a
    page. *)
Inductive historyFrom (answer : option jstr -> option json) : option jstr -> list (list json) -> Prop :=
| HistoryEnds cursor response page :
    answer cursor = Some response -> parseGlobalSupervisorTurnHistoryPage response cursor = Some page -> tp_nextCursor page = None ->
    historyFrom answer cursor [pageItems page]
| HistoryGoesOn cursor response page next turns :
    answer cursor = Some response -> parseGlobalSupervisorTurnHistoryPage response cursor = Some page -> tp_nextCursor page = Some next ->
    historyFrom answer (Some next) turns -> historyFrom answer cursor (pageItems page :: turns).

(** A caller that follows the cursors. *)
Fixpoint readAll (fuel : nat) (authority : TargetAuthority) (answer : option jstr -> option json) (limit maxBytes : Z)
    (target : ChatRef) (cursor : option jstr) : option (list GlobalSupervisorChatItem) :=
  match fuel with
  | O => None
  | S fuel =>
      '(next, items) ← readChat authority answer cursor limit maxBytes target;
      match next with
      | None => Some items
      | Some _ => rest ← readAll fuel authority answer limit maxBytes target next; Some (items ++ rest)
      end
  end.

(** What a message is shown as in a page of [maxBytes]. *)
Definition shownItem (maxBytes : Z) (value : json) : list GlobalSupervisorChatItem :=
  match messageProjection value with
  | Some (Some p) => [if projectionBytes p <=? maxBytes then materializeProjection p else oversizedProjection p]
  | _ => []
  end.

(** An item that is accepted, and whose identity fits. *)
Definition readableItem (maxBytes : Z) (value : json) : bool :=
  match messageProjection value with
  | Some (Some p) => oversizedProjectionBytes p <=? maxBytes
  | Some None => true
  | None => false
  end.
