(* ===== verification/ToolCalls.v ===== *)
(** * The tools of the Global Supervisor

    Models apps/android/src/data/globalSupervisorToolRouter.ts: the calls that are
    accepted, what each asks of the capabilities, and the response a request is
    settled with.

    The capabilities are a function from what is asked to its answer, which may
    fail; what was asked is logged in order. *)
From S2P Require Import Prelude JsMap Json JsonText JsonParse SafeText ThreadItems ThreadEvents MemoryCache SupervisorAttention.
From S2P Require Import SupervisorRequests ToolPages.

Local Open Scope Z_scope.

(** ** Calls *)

Inductive SpokenMode := ActiveMode | MutedMode | SnoozedMode.

Inductive ParsedToolCall :=
| StartTaskCall (connection : jstr) (cwd : option jstr) (objective : jstr)
| ListActiveWorkCall
| FindChatCall (connection project title topic : option jstr)
| ListChatsCall (cursor : option jstr)
| ReadChatCall (cursor : option jstr) (target : ChatRef)
| InspectChatCall (target : ChatRef)
| ListChatAttachmentsCall (target : ChatRef)
| ReadChatAttachmentCall (attachmentId : jstr) (offset : Z) (target : ChatRef)
| InterruptChatCall (target : ChatRef)
| RespondToRequestCall (answer : GlobalSupervisorRequestAnswer) (eventId : jstr) (target : ChatRef)
| SetSpokenAttentionCall (durationMinutes : option Z) (mode : SpokenMode) (target : ChatRef)
| SendTextCall (target : ChatRef) (text : jstr)
| FollowChatCall (target : ChatRef)
| UnfollowChatCall (target : ChatRef).

Definition hasClosedKeys (value : jobj) (required optional : list string) : bool :=
  forallb (fun key => match oget key value with Some _ => true | None => false end) required
  && forallb (fun key => bool_decide (key ∈ required ++ optional)) value.*1.

(** [optionalCursor]; [None] where it is [undefined]. *)
Definition optionalCursor (value : option json) : option (option jstr) :=
  match value with
  | Some JNull | None => Some None
  | Some (JStr s) => Some (Some s)
  | _ => None
  end.

Definition nonEmptyString (value : option json) : option jstr := validString value.

Definition optionalNonEmptyString (value : option json) : option (option jstr) :=
  match value with
  | Some JNull | None => Some None
  | _ => Some <$> nonEmptyString value
  end.

Definition parseStartTaskCall (arguments : jobj) : option ParsedToolCall :=
  if negb (hasClosedKeys arguments ["connectionId"; "objective"] ["cwd"]) then None
  else
    connection ← nonEmptyString (oget "connectionId" arguments);
    cwd ← optionalNonEmptyString (oget "cwd" arguments);
    objective ← nonEmptyString (oget "objective" arguments);
    Some (StartTaskCall connection cwd objective).

Definition parseListActiveWorkCall (arguments : jobj) : option ParsedToolCall :=
  if hasClosedKeys arguments [] [] then Some ListActiveWorkCall else None.

Definition findChatArguments (value : jobj) : option (option jstr * option jstr * option jstr * option jstr) :=
  connection ← optionalNonEmptyString (oget "connectionId" value);
  project ← optionalNonEmptyString (oget "project" value);
  title ← optionalNonEmptyString (oget "title" value);
  topic ← optionalNonEmptyString (oget "topic" value);
  Some (connection, project, title, topic).

Definition hasFindChatQuery (project title topic : option jstr) : bool :=
  negb (bool_decide (project = None)) || negb (bool_decide (title = None)) || negb (bool_decide (topic = None)).

Definition parseFindChatCall (arguments : jobj) : option ParsedToolCall :=
  if negb (hasClosedKeys arguments [] ["connectionId"; "project"; "title"; "topic"]) then None
  else
    '(connection, project, title, topic) ← findChatArguments arguments;
    if hasFindChatQuery project title topic then Some (FindChatCall connection project title topic) else None.

(** The target of a call whose keys are only those of the target. *)
Definition onlyTarget (arguments : jobj) : option ChatRef :=
  if negb (hasClosedKeys arguments ["connectionId"; "threadId"] []) then None
  else parseGlobalSupervisorQualifiedChatRef (Some (JObj arguments)).

Definition parseRelationCall (arguments : jobj) (call : ChatRef -> ParsedToolCall) : option ParsedToolCall :=
  call <$> onlyTarget arguments.

Definition parseListChatsCall (arguments : jobj) : option ParsedToolCall :=
  if negb (hasClosedKeys arguments [] ["cursor"]) then None
  else ListChatsCall <$> optionalCursor (oget "cursor" arguments).

Definition parseReadChatCall (arguments : jobj) : option ParsedToolCall :=
  if negb (hasClosedKeys arguments ["connectionId"; "threadId"] ["cursor"]) then None
  else
    cursor ← optionalCursor (oget "cursor" arguments);
    target ← parseGlobalSupervisorQualifiedChatRef (Some (JObj arguments));
    Some (ReadChatCall cursor target).

Definition parseInspectChatCall (arguments : jobj) : option ParsedToolCall := InspectChatCall <$> onlyTarget arguments.

Definition parseTargetCall (arguments : jobj) (call : ChatRef -> ParsedToolCall) : option ParsedToolCall :=
  call <$> onlyTarget arguments.

Definition attachmentTextTotalMaxBytes : Z := 196608.

(** [/^attachment-v1-[a-f0-9]{32}$/u]. *)
Definition isGlobalSupervisorAttachmentId (value : option json) : option jstr :=
  match value with
  | Some (JStr s) =>
      if startsWith (js "attachment-v1-") s
         && (length s =? 46)%nat
         && forallb (fun u => ((48 <=? u) && (u <=? 57) || (97 <=? u) && (u <=? 102))%N) (drop 14 s)
      then Some s else None
  | _ => None
  end.

Definition chatAttachmentOffset (value : option json) : option Z :=
  offset ← asSafeNat (match value with Some JNull | None => Some (JNum (NInt 0)) | v => v end);
  if offset <? attachmentTextTotalMaxBytes then Some offset else None.

Definition parseReadChatAttachmentCall (arguments : jobj) : option ParsedToolCall :=
  if negb (hasClosedKeys arguments ["attachmentId"; "connectionId"; "threadId"] ["offset"]) then None
  else
    target ← parseGlobalSupervisorQualifiedChatRef (Some (JObj arguments));
    attachmentId ← isGlobalSupervisorAttachmentId (oget "attachmentId" arguments);
    offset ← chatAttachmentOffset (oget "offset" arguments);
    Some (ReadChatAttachmentCall attachmentId offset target).

(** ** Answers to requests *)

Definition parseApprovalAnswer (answer : jobj) : option GlobalSupervisorRequestAnswer :=
  if negb (hasClosedKeys answer ["decision"; "kind"] []) then None
  else if isStr (oget "decision" answer) "accept" then Some (ApprovalAnswer Accept)
  else if isStr (oget "decision" answer) "acceptForSession" then Some (ApprovalAnswer AcceptForSession)
  else if isStr (oget "decision" answer) "decline" then Some (ApprovalAnswer Decline) else None.

Definition parsePermissionsAnswer (answer : jobj) : option GlobalSupervisorRequestAnswer :=
  if negb (hasClosedKeys answer ["decision"; "kind"] []) then None
  else if isStr (oget "decision" answer) "allowSession" then Some (PermissionsAnswer AllowSession)
  else if isStr (oget "decision" answer) "allowTurn" then Some (PermissionsAnswer AllowTurn)
  else if isStr (oget "decision" answer) "decline" then Some (PermissionsAnswer DeclinePermissions) else None.

Definition parseGivenAnswer (value : json) : option GivenAnswer :=
  row ← asObject (Some value);
  if negb (hasClosedKeys row ["answer"; "questionId"] []) then None
  else
    response ← nonEmptyString (oget "answer" row);
    question ← nonEmptyString (oget "questionId" row);
    Some {| answer := response; questionId := question |}.

Definition parseUserInputAnswer (answer : jobj) : option GlobalSupervisorRequestAnswer :=
  if negb (hasClosedKeys answer ["answers"; "kind"] []) then None
  else
    rows ← asArray (oget "answers" answer);
    UserInputAnswer <$> mapM parseGivenAnswer rows.

Definition parseElicitationAnswer (answer : jobj) : option GlobalSupervisorRequestAnswer :=
  if negb (hasClosedKeys answer ["action"; "kind"] ["content"]) then None
  else
    action ← (if isStr (oget "action" answer) "accept" then Some AcceptElicitation
              else if isStr (oget "action" answer) "decline" then Some DeclineElicitation else None);
    match oget "content" answer with
    | Some JNull | None => Some (ElicitationAnswer action None)
    | content => (fun c => ElicitationAnswer action (Some c)) <$> asObject content
    end.

Definition parseRequestAnswer (value : option json) : option GlobalSupervisorRequestAnswer :=
  answer ← asObject value;
  if isStr (oget "kind" answer) "approval" then parseApprovalAnswer answer
  else if isStr (oget "kind" answer) "permissions" then parsePermissionsAnswer answer
  else if isStr (oget "kind" answer) "userInput" then parseUserInputAnswer answer
  else if isStr (oget "kind" answer) "elicitation" then parseElicitationAnswer answer
  else None.

Definition parseRespondToRequestCall (arguments : jobj) : option ParsedToolCall :=
  if negb (hasClosedKeys arguments ["answer"; "connectionId"; "eventId"; "threadId"] []) then None
  else
    target ← parseGlobalSupervisorQualifiedChatRef (Some (JObj arguments));
    eventId ← nonEmptyString (oget "eventId" arguments);
    answer ← parseRequestAnswer (oget "answer" arguments);
    Some (RespondToRequestCall answer eventId target).

(** ** Spoken attention *)

Definition MAX_SNOOZE_MINUTES : Z := 10080.

Definition spokenAttentionMode (value : option json) : option SpokenMode :=
  if isStr value "active" then Some ActiveMode
  else if isStr value "muted" then Some MutedMode
  else if isStr value "snoozed" then Some SnoozedMode else None.

Definition hasUnexpectedSpokenAttentionDuration (mode : SpokenMode) (value : option json) : bool :=
  match mode, value with
  | SnoozedMode, _ | _, None | _, Some JNull => false
  | _, _ => true
  end.

Definition spokenAttentionDuration (mode : SpokenMode) (value : option json) : option (option Z) :=
  match mode with
  | SnoozedMode =>
      minutes ← asSafeInt value;
      if (1 <=? minutes) && (minutes <=? MAX_SNOOZE_MINUTES) then Some (Some minutes) else None
  | _ => Some None
  end.

Definition parseSetSpokenAttentionCall (arguments : jobj) : option ParsedToolCall :=
  if negb (hasClosedKeys arguments ["connectionId"; "mode"; "threadId"] ["durationMinutes"]) then None
  else
    target ← parseGlobalSupervisorQualifiedChatRef (Some (JObj arguments));
    mode ← spokenAttentionMode (oget "mode" arguments);
    if hasUnexpectedSpokenAttentionDuration mode (oget "durationMinutes" arguments) then None
    else
      durationMinutes ← spokenAttentionDuration mode (oget "durationMinutes" arguments);
      Some (SetSpokenAttentionCall durationMinutes mode target).

Definition parseSendTextCall (arguments : jobj) : option ParsedToolCall :=
  if negb (hasClosedKeys arguments ["connectionId"; "text"; "threadId"] []) then None
  else
    target ← parseGlobalSupervisorQualifiedChatRef (Some (JObj arguments));
    text ← nonEmptyString (oget "text" arguments);
    Some (SendTextCall target text).

(** ** The envelope *)

Definition validOptionalNamespace (value : option json) : bool :=
  match value with None | Some JNull | Some (JStr _) => true | _ => false end.

Definition parseToolEnvelope (value : option json) : option (jobj * option json) :=
  params ← asObject value;
  if negb (hasClosedKeys params ["arguments"; "callId"; "threadId"; "tool"; "turnId"] ["namespace"]) then None
  else
    _ ← nonEmptyString (oget "callId" params);
    _ ← nonEmptyString (oget "threadId" params);
    _ ← nonEmptyString (oget "turnId" params);
    if negb (validOptionalNamespace (oget "namespace" params)) then None
    else
      arguments ← asObject (oget "arguments" params);
      Some (arguments, oget "tool" params).

Definition parseToolCall (value : option json) : option ParsedToolCall :=
  '(arguments, tool) ← parseToolEnvelope value;
  if isStr tool "startTask" then parseStartTaskCall arguments
  else if isStr tool "listActiveWork" then parseListActiveWorkCall arguments
  else if isStr tool "findChat" then parseFindChatCall arguments
  else if isStr tool "followChat" then parseRelationCall arguments FollowChatCall
  else if isStr tool "inspectChat" then parseInspectChatCall arguments
  else if isStr tool "interruptChat" then parseTargetCall arguments InterruptChatCall
  else if isStr tool "listChatAttachments" then parseTargetCall arguments ListChatAttachmentsCall
  else if isStr tool "listChats" then parseListChatsCall arguments
  else if isStr tool "readChat" then parseReadChatCall arguments
  else if isStr tool "readChatAttachment" then parseReadChatAttachmentCall arguments
  else if isStr tool "sendText" then parseSendTextCall arguments
  else if isStr tool "respondToRequest" then parseRespondToRequestCall arguments
  else if isStr tool "setSpokenAttention" then parseSetSpokenAttentionCall arguments
  else if isStr tool "unfollowChat" then parseRelationCall arguments UnfollowChatCall
  else None.

(** ** Responses *)

Definition dynamicToolInputMaxBytes : Z := 65536.
Definition dynamicToolOutputMaxBytes : Z := 262144.

Definition utf8ByteLength (value : jstr) : Z := sumBytes (fun character => utf8CodePointBytes (codePointOf character)) (characters value).

Inductive ToolFailureKind := InvalidOrUnsupportedToolCall | RequestNotAdmitted | ToolExecutionFailed.

Definition failureText (kind : ToolFailureKind) : jstr :=
  js match kind with
     | InvalidOrUnsupportedToolCall => "invalidOrUnsupportedToolCall"
     | RequestNotAdmitted => "requestNotAdmitted"
     | ToolExecutionFailed => "toolExecutionFailed"
     end.

(** A response: the text of its one item, and whether it succeeded. *)
Record ToolResponse := { tr_text : jstr; tr_success : bool }.

Definition failureResponse (kind : ToolFailureKind) : ToolResponse :=
  {| tr_text := stringify (JObj [("error", JStr (failureText kind))]); tr_success := false |}.

Definition toolResponse (success : bool) (payload : json) : ToolResponse :=
  let text := stringify payload in
  if dynamicToolOutputMaxBytes <? utf8ByteLength text then failureResponse ToolExecutionFailed
  else {| tr_text := text; tr_success := success |}.

Definition validInputSize (value : option json) : bool :=
  match value with
  | Some v => utf8ByteLength (stringify v) <=? dynamicToolInputMaxBytes
  | None => false
  end.

(** ** Execution *)

(** What is asked of the capabilities, and with which of the earlier answers. *)
Inductive CapabilityCall :=
| DeriveWorkerCreationSource | DeriveTargetSendCommandId
| StartTask (connection : jstr) (cwd : option jstr) (objective : jstr) (source commandId : json) (supervisor : ChatRef)
| ListActiveWork (supervisor : ChatRef)
| FindChat (supervisor : ChatRef) (connection project title topic : option jstr)
| ListChats (cursor : option jstr) (limit : Z)
| ReadChat (cursor : option jstr) (limit maxBytes : Z) (target : ChatRef)
| InspectChat (target : ChatRef) | InterruptChat (target : ChatRef) | ListChatAttachments (target : ChatRef)
| ReadChatAttachment (attachmentId : jstr) (offset : Z) (target : ChatRef)
| AssertLiveTarget (target : ChatRef) | FollowChat (supervisor target : ChatRef) | UnfollowChat (supervisor target : ChatRef)
| SendText (commandId : json) (supervisor target : ChatRef) (text : jstr)
| RespondToRequest (answer : GlobalSupervisorRequestAnswer) (eventId : jstr) (target : ChatRef)
| SetSpokenAttention (durationMinutes : option Z) (mode : SpokenMode) (supervisor target : ChatRef).

(** A computation that asks: what was asked, and its value or its exception. *)
Definition Asking : Type := list CapabilityCall * option json.

Section capabilities.
Variable answers : CapabilityCall -> option json.

Definition ask (call : CapabilityCall) (andThen : json -> Asking) : Asking :=
  match answers call with
  | None => ([call], None)
  | Some value => let '(asked, result) := andThen value in (call :: asked, result)
  end.

Definition give (value : json) : Asking := ([], Some value).

Definition executeToolCall (supervisor : ChatRef) (call : ParsedToolCall) : Asking :=
  match call with
  | StartTaskCall connection cwd objective =>
      ask DeriveWorkerCreationSource (fun source =>
      ask DeriveTargetSendCommandId (fun commandId =>
      ask (StartTask connection cwd objective source commandId supervisor) give))
  | ListActiveWorkCall => ask (ListActiveWork supervisor) give
  | FindChatCall connection project title topic => ask (FindChat supervisor connection project title topic) give
  | ListChatsCall cursor => ask (ListChats cursor listChatsPageMaxEntries) give
  | InspectChatCall target => ask (InspectChat target) give
  | InterruptChatCall target => ask (InterruptChat target) give
  | ListChatAttachmentsCall target => ask (ListChatAttachments target) give
  | ReadChatCall cursor target => ask (ReadChat cursor readChatPageMaxItems readChatPageMaxBytes target) give
  | ReadChatAttachmentCall attachmentId offset target => ask (ReadChatAttachment attachmentId offset target) give
  | FollowChatCall target =>
      ask (AssertLiveTarget target) (fun _ => ask (FollowChat supervisor target) (fun _ => give (JObj [("followed", JBool true)])))
  | SendTextCall target text =>
      ask (AssertLiveTarget target) (fun _ =>
      ask DeriveTargetSendCommandId (fun commandId =>
      ask (SendText commandId supervisor target text) (fun sent => give (JObj [("commandId", sent)]))))
  | RespondToRequestCall answer eventId target => ask (RespondToRequest answer eventId target) give
  | SetSpokenAttentionCall durationMinutes mode target =>
      ask (AssertLiveTarget target) (fun _ => ask (SetSpokenAttention durationMinutes mode supervisor target) give)
  | UnfollowChatCall target =>
      ask (UnfollowChat supervisor target) (fun _ => give (JObj [("automaticObservation", JBool true); ("followed", JBool false)]))
  end.

(** [handle]: what was asked, and the response the request is settled with. *)
Definition handleToolRequest (params : option json) (supervisor : option ChatRef) : list CapabilityCall * ToolResponse :=
  match (if validInputSize params then parseToolCall params else None), supervisor with
  | Some call, Some supervisor =>
      match executeToolCall supervisor call with
      | (asked, Some result) => (asked, toolResponse true result)
      | (asked, None) => (asked, failureResponse ToolExecutionFailed)
      end
  | _, _ => ([], failureResponse InvalidOrUnsupportedToolCall)
  end.
End capabilities.

(** ** The payload of a page *)

Definition chatItemJson (item : GlobalSupervisorChatItem) : json :=
  JObj [("id", JStr (ci_id item)); ("kind", JStr (js match ci_kind item with AssistantItem => "assistant" | UserItem => "user" end));
        ("text", JStr (ci_text item))].

Definition chatPageJson (page : option jstr * list GlobalSupervisorChatItem) : json :=
  JObj [("cursor", remoteCursorJson page.1); ("items", JArr (chatItemJson <$> page.2))].

(** ** What an accepted call may contain *)

Definition identityOk (target : ChatRef) : Prop := connectionId target <> [] /\ threadId target <> [].

Definition answerOk (a : GlobalSupervisorRequestAnswer) : Prop :=
  match a with
  | UserInputAnswer rows => Forall (fun row => answer row <> [] /\ questionId row <> []) rows
  | _ => True
  end.

(** Identities and texts are there, a search has a term, an offset is inside an
    attachment, and only a snooze has a duration, of a week at most. *)
Definition callOk (call : ParsedToolCall) : Prop :=
  match call with
  | StartTaskCall connection cwd objective => connection <> [] /\ cwd <> Some [] /\ objective <> []
  | ListActiveWorkCall | ListChatsCall _ => True
  | FindChatCall connection project title topic =>
      Forall (fun term => term <> Some []) [connection; project; title; topic] /\ ~ (project = None /\ title = None /\ topic = None)
  | ReadChatCall _ target | InspectChatCall target | ListChatAttachmentsCall target | InterruptChatCall target
  | FollowChatCall target | UnfollowChatCall target => identityOk target
  | ReadChatAttachmentCall attachmentId offset target =>
      length attachmentId = 46%nat /\ 0 <= offset < attachmentTextTotalMaxBytes /\ identityOk target
  | RespondToRequestCall answer eventId target => answerOk answer /\ eventId <> [] /\ identityOk target
  | SetSpokenAttentionCall durationMinutes mode target =>
      match durationMinutes with Some minutes => mode = SnoozedMode /\ 1 <= minutes <= 10080 | None => mode <> SnoozedMode end
      /\ identityOk target
  | SendTextCall target text => text <> [] /\ identityOk target
  end.

(** The target of what is delivered to a chat or followed. *)
Definition deliveredTo (call : CapabilityCall) : option ChatRef :=
  match call with
  | FollowChat _ target | SendText _ _ target _ | SetSpokenAttention _ _ _ target => Some target
  | _ => None
  end.
