(* ===== verification/ToolLaws.v ===== *)
(** * Laws of the pages of chats

    What [ToolPages] promises: a cursor is read back as it was printed, following
    the cursors of a chat shows every message once and in order, and the messages
    of a page are counted as the bytes they are encoded to. *)
From S2P Require Import Prelude JsMap Json JsonText JsonParse SafeText ThreadItems ThreadEvents MemoryCache SupervisorAttention.
From S2P Require Import SupervisorRequests ToolPages ToolCalls.

Local Open Scope Z_scope.

(** ** Cursors *)

Lemma parse_object o : plain (JObj o) = true -> asObject (parseJson (stringify (JObj o))) = Some o.
Proof. intros H. by rewrite parse_stringify. Qed.

Lemma validString_nonempty s : s <> [] -> validString (Some (JStr s)) = Some s.
Proof. by destruct s. Qed.

Lemma isRemoteCursor_json cursor : isRemoteCursor (Some (remoteCursorJson cursor)) = Some cursor.
Proof. by destruct cursor. Qed.

Lemma safe_exact z : 0 <= z <= max_safe_integer -> (Z.abs z <=? maxExactInteger) = true.
Proof. unfold max_safe_integer. intros H. apply Z.leb_le. change maxExactInteger with 9007199254740992. lia. Qed.

Lemma plain_remote cursor : plain (remoteCursorJson cursor) = true.
Proof. by destruct cursor. Qed.

Lemma parsed_ref target :
  connectionId target <> [] -> threadId target <> [] -> parseGlobalSupervisorQualifiedChatRef (Some (chatRefJson target)) = Some target.
Proof. destruct target as [[|c cs] [|t ts]]; done. Qed.

Lemma history_cursor_read target remote offset :
  connectionId target <> [] -> threadId target <> [] -> 0 <= offset <= max_safe_integer ->
  parseGlobalSupervisorHistoryCursor (globalSupervisorHistoryCursor target remote offset) target = Some (offset, remote).
Proof.
  intros Hc Ht Ho. unfold globalSupervisorHistoryCursor.
  destruct (bool_decide (remote = None) && (offset =? 0)) eqn:E.
  { apply andb_prop in E as [->%bool_decide_eq_true ->%Z.eqb_eq]. done. }
  unfold parseGlobalSupervisorHistoryCursor. rewrite parse_object.
  - cbn [mbind option_bind]. unfold isHistoryCursorMetadata.
    change (hasOnlyKeys _ historyCursorKeys && isStr _ "readChat" && isInt _ 1) with true. cbn iota.
    change (oget "itemOffset" _) with (Some (JNum (NInt offset))). change (oget "remoteCursor" _) with (Some (remoteCursorJson remote)).
    change (oget "target" _) with (Some (chatRefJson target)). unfold asSafeNat.
    rewrite (proj2 (Z.leb_le 0 offset)), (proj2 (Z.leb_le offset max_safe_integer)) by lia. cbn [andb mbind option_bind].
    rewrite isRemoteCursor_json. cbn [mbind option_bind]. rewrite parsed_ref by done. cbn [mbind option_bind]. by rewrite bool_decide_true.
  - cbn [plain forallb snd]. rewrite plain_remote, safe_exact by done. done.
Qed.

Lemma exactOrderLoop_own seen order :
  Forall (fun c => c <> []) order -> NoDup order -> (forall c, c ∈ order -> c ∉ seen) -> exactOrderLoop seen (JStr <$> order) order = true.
Proof.
  revert seen. induction order as [|c order IH]; intros seen Hne Hnd Hs; [done|]. cbn [fmap list_fmap exactOrderLoop].
  apply Forall_cons in Hne as [Hc Hne]. apply NoDup_cons in Hnd as [Hnin Hnd]. rewrite validString_nonempty by done.
  rewrite bool_decide_true by done. rewrite bool_decide_false by (apply Hs; left). cbn [negb andb]. apply IH; [done..|].
  intros d Hd [->|Hd']%elem_of_cons; [done|]. apply (Hs d); [by right|done].
Qed.

Lemma catalog_cursor_read order i c remote :
  Forall (fun c => c <> []) order -> NoDup order -> order !! i = Some c ->
  parseGlobalSupervisorCatalogCursor (Some (globalSupervisorCatalogCursor c order remote)) order = Some (i, remote).
Proof.
  intros Hne Hnd Hi. unfold parseGlobalSupervisorCatalogCursor, globalSupervisorCatalogCursor. rewrite parse_object.
  - cbn [mbind option_bind]. unfold isCatalogCursorMetadata.
    change (hasOnlyKeys _ catalogCursorKeys && isStr _ "listChats" && isInt _ 1) with true. cbn iota.
    change (oget "connectionId" _) with (Some (JStr c)). change (oget "remoteCursor" _) with (Some (remoteCursorJson remote)).
    change (oget "connectionOrder" _) with (Some (JArr (JStr <$> order))).
    rewrite validString_nonempty by (rewrite Forall_forall in Hne; by eapply Hne, list_elem_of_lookup_2). cbn [mbind option_bind].
    rewrite isRemoteCursor_json. cbn [mbind option_bind isExactConnectionOrder].
    rewrite exactOrderLoop_own by (done || (intros ? _; apply not_elem_of_nil)). unfold connectionIndexOf.
    assert (list_find (fun c' => c' = c) order = Some (i, c)) as ->; [|done].
    apply list_find_Some. split_and!; [done..|]. intros j c' Hj Hlt ->. by pose proof (NoDup_lookup _ _ _ _ Hnd Hi Hj); lia.
  - cbn [plain forallb snd]. rewrite plain_remote. rewrite !andb_true_r. apply andb_true_iff. split; [done|].
    apply forallb_forall. by intros v (s & -> & _)%list_elem_of_In%list_elem_of_fmap.
Qed.

(** C30. What a chat's cursor names is read back from it for the same chat: the
    position in the turn and the cursor of the server; and what a cursor of the list
    names is read back under the same connections: the server and its cursor. *)
Theorem cursors_roundtrip target order i c remote offset :
  connectionId target <> [] -> threadId target <> [] -> 0 <= offset <= max_safe_integer ->
  Forall (fun c => c <> []) order -> NoDup order -> order !! i = Some c ->
  parseGlobalSupervisorHistoryCursor (globalSupervisorHistoryCursor target remote offset) target = Some (offset, remote)
  /\ parseGlobalSupervisorCatalogCursor (Some (globalSupervisorCatalogCursor c order remote)) order = Some (i, remote).
Proof. intros. split; [by apply history_cursor_read|by apply catalog_cursor_read]. Qed.

Lemma cursors_roundtrip_witness :
  let target := {| connectionId := js "laptop"; threadId := js "t-1" |} in
  let order := [js "desktop"; js "laptop"] in
  parseGlobalSupervisorHistoryCursor (globalSupervisorHistoryCursor target (Some (js "next")) 7) target = Some (7, Some (js "next"))
  /\ parseGlobalSupervisorCatalogCursor (Some (globalSupervisorCatalogCursor (js "laptop") order (Some (js "next")))) order
     = Some (1%nat, Some (js "next")).
Proof.
  cbn zeta.
  apply (cursors_roundtrip {| connectionId := js "laptop"; threadId := js "t-1" |} [js "desktop"; js "laptop"] 1 (js "laptop") (Some (js "next")) 7);
    [done|done|unfold max_safe_integer; lia|by repeat constructor| |done].
  apply NoDup_cons. split; [|apply NoDup_singleton]. intros H%list_elem_of_singleton. discriminate H.
Defined.

(** ** Bytes *)

Definition notLow (s : jstr) : Prop := forall u, head s = Some u -> isLow u = false.

Lemma characters_split a b : notLow b -> characters (a ++ b) = characters a ++ characters b.
Proof.
  intros Hb. induction a as [a IH] using (induction_ltof1 _ (@length _)). unfold ltof in IH.
  destruct a as [|c [|d a]]; [done| |].
  - destruct b as [|u b]; [done|]. cbn. by rewrite (Hb u eq_refl), andb_false_r.
  - change ((c :: d :: a) ++ b) with (c :: d :: a ++ b). cbn [characters].
    destruct (isHigh c && isLow d); cbn [app]; f_equal; [by apply IH; cbn; lia|]. by apply (IH (d :: a)); cbn; lia.
Qed.

Lemma sumBytes_from {A} (f : A -> Z) l b : foldl (fun bytes x => bytes + f x) b l = b + sumBytes f l.
Proof.
  unfold sumBytes. revert b. induction l as [|x l IH]; intros b; cbn; [lia|]. rewrite IH, (IH (0 + f x)). lia.
Qed.

Lemma sumBytes_cons {A} (f : A -> Z) x l : sumBytes f (x :: l) = f x + sumBytes f l.
Proof. unfold sumBytes at 1. cbn [foldl]. rewrite sumBytes_from. lia. Qed.

Lemma sumBytes_app {A} (f : A -> Z) l k : sumBytes f (l ++ k) = sumBytes f l + sumBytes f k.
Proof. induction l as [|x l IH]; [done|]. rewrite <- app_comm_cons, !sumBytes_cons, IH. lia. Qed.

Lemma utf8_app a b : notLow b -> utf8ByteLength (a ++ b) = utf8ByteLength a + utf8ByteLength b.
Proof. intros Hb. unfold utf8ByteLength. by rewrite characters_split, sumBytes_app. Qed.

Lemma content_app a b : notLow b -> jsonStringContentBytes (a ++ b) = jsonStringContentBytes a + jsonStringContentBytes b.
Proof. intros Hb. unfold jsonStringContentBytes. by rewrite characters_split, sumBytes_app. Qed.

(** No surrogate on its own. *)
Definition wellFormed (s : jstr) : bool :=
  forallb (fun character => match character with [c] => negb (isHigh c || isLow c) | _ => true end) (characters s).

Definition asciiText (s : jstr) : Prop := Forall (fun u => (u < 128)%N) s.

Lemma ascii_surrogate u : (u < 128)%N -> isHigh u = false /\ isLow u = false.
Proof.
  intros H. unfold isHigh, isLow. split; apply andb_false_iff; left; apply N.leb_gt; lia.
Qed.

Lemma utf8_ascii s : asciiText s -> utf8ByteLength s = Z.of_nat (length s).
Proof.
  intros Hs. induction Hs as [|u s Hu Hs IH]; [done|]. change (u :: s) with ([u] ++ s).
  rewrite utf8_app, IH.
  - unfold utf8ByteLength, utf8CodePointBytes. cbn. rewrite (proj2 (N.leb_le u 127)) by lia. lia.
  - intros v Hv. destruct s as [|w s]; [done|]. injection Hv as ->. apply Forall_cons in Hs as [Hw _]. by apply ascii_surrogate.
Qed.

Lemma hexDigit_ascii n : (n < 16)%N -> (hexDigit n < 128)%N.
Proof. unfold hexDigit. intros H. destruct (n <? 10)%N; lia. Qed.

Lemma escapeUnit_bytes c : utf8ByteLength (escapeUnit c) = jsonCharacterBytes [c].
Proof.
  unfold escapeUnit. repeat (case_bool_decide; [by subst|]).
  unfold jsonCharacterBytes. rewrite bool_decide_false.
  2:{ unfold JSON_SHORT_ESCAPES. rewrite !not_elem_of_cons. split_and!; [congruence..|apply not_elem_of_nil]. }
  cbn [codePointOf]. destruct (N.ltb_spec c 32) as [Hc|Hc]; [|unfold utf8ByteLength; cbn; lia].
  rewrite utf8_ascii; [done|]. unfold unicodeEscape. change (js "\u") with [92; 117]%N. cbn [app].
  repeat constructor; try lia; apply hexDigit_ascii; try (by apply N.mod_lt). apply N.Div0.div_lt_upper_bound. lia.
Qed.

Lemma escape_notLow s : notLow (escape s).
Proof.
  intros u Hu. destruct s as [|c s]; [done|]. cbn [escape] in Hu.
  assert (Hcu : forall x y, head (unicodeEscape x ++ y) = Some u -> isLow u = false) by (intros x y [= <-]; done).
  destruct (isHigh c) eqn:Eh.
  - assert (isLow c = false) by (unfold isHigh, isLow in *; apply andb_prop in Eh as [_ Eh%N.leb_le]; apply andb_false_iff; left; apply N.leb_gt; lia).
    destruct s as [|d s]; [by apply (Hcu c []); rewrite app_nil_r|]. destruct (isLow d); [by injection Hu as <-|by eapply Hcu].
  - destruct (isLow c) eqn:El; [by eapply Hcu|]. revert Hu. unfold escapeUnit.
    repeat (case_bool_decide; [by intros [= <-]|]). destruct (c <? 32)%N; [by apply Hcu|]. by intros [= <-].
Qed.

(** What the code counts is what the encoding has. *)
Lemma content_bytes s : wellFormed s = true -> jsonStringContentBytes s = utf8ByteLength (escape s).
Proof.
  induction s as [s IH] using (induction_ltof1 _ (@length _)). unfold ltof in IH. unfold wellFormed. intros Hw.
  destruct s as [|c s]; [done|].
  assert (Hcase : characters (c :: s) = [c] :: characters s -> isHigh c || isLow c = false ->
    jsonStringContentBytes (c :: s) = utf8ByteLength (escape (c :: s))).
  { intros Hc Hs. rewrite Hc in Hw. cbn [forallb] in Hw. apply andb_prop in Hw as [_ Hws].
    unfold jsonStringContentBytes at 1. rewrite Hc, sumBytes_cons. apply orb_false_iff in Hs as [Hh Hl]. cbn [escape]. rewrite Hh, Hl.
    rewrite utf8_app by apply escape_notLow. rewrite escapeUnit_bytes, <- (IH s) by (done || cbn; lia). unfold jsonStringContentBytes. lia. }
  destruct s as [|d s].
  - apply Hcase; [done|]. cbn in Hw. by apply andb_prop in Hw as [Hw%negb_true_iff _].
  - cbn [characters] in *. destruct (isHigh c && isLow d) eqn:E.
    + cbn [forallb] in Hw. apply andb_prop in E as [Eh El]. unfold jsonStringContentBytes, utf8ByteLength. cbn [escape]. rewrite Eh, El.
      cbn [characters]. rewrite Eh, El. cbn [andb]. rewrite !sumBytes_cons. fold (jsonStringContentBytes s). fold (utf8ByteLength (escape s)).
      rewrite IH by (done || cbn; lia). f_equal. apply high_range in Eh as ?. apply low_range in El as ?. unfold jsonCharacterBytes.
      rewrite bool_decide_false by (unfold JSON_SHORT_ESCAPES; rewrite !not_elem_of_cons; split_and!; [done..|apply not_elem_of_nil]).
      rewrite (proj2 (N.ltb_ge _ _)); [done|]. cbn [codePointOf]. lia.
    + apply Hcase; [done|]. cbn [forallb] in Hw. by apply andb_prop in Hw as [Hw%negb_true_iff _].
Qed.

Lemma quoted_bytes a s b : asciiText a -> asciiText b -> b <> [] -> wellFormed s = true ->
  utf8ByteLength (a ++ escape s ++ b) = Z.of_nat (length a) + jsonStringContentBytes s + utf8ByteLength b.
Proof.
  intros Ha Hb Hne Hs. assert (Hlow : notLow b).
  { intros u Hu. destruct Hb as [|v b Hv Hb]; [done|]. injection Hu as <-. by apply ascii_surrogate. }
  rewrite utf8_app, utf8_app, utf8_ascii, <- content_bytes; [lia|done|done|done|].
  intros u Hu. destruct (escape s) as [|v e] eqn:E; [by apply Hlow|]. apply (escape_notLow s). by rewrite E.
Qed.

Definition kindText (kind : ChatItemKind) : string := match kind with AssistantItem => "assistant" | UserItem => "user" end.

Definition beforeId : jstr := js "{" ++ quote (js "id") ++ js ":" ++ [34%N].
Definition betweenIdAndText (kind : ChatItemKind) : jstr :=
  [34%N] ++ js "," ++ quote (js "kind") ++ js ":" ++ quote (js (kindText kind)) ++ js "," ++ quote (js "text") ++ js ":" ++ [34%N].
Definition afterText : jstr := [34%N] ++ js "}".

Lemma item_text item :
  stringify (chatItemJson item)
  = beforeId ++ escape (ci_id item) ++ betweenIdAndText (ci_kind item) ++ escape (ci_text item) ++ afterText.
Proof.
  destruct item as [id [|] text]; cbn [chatItemJson ci_id ci_kind ci_text stringify map fst snd join]; unfold quote, betweenIdAndText, beforeId, afterText;
    generalize (escape id) (escape text); intros; do 4 (rewrite <- ?app_assoc; cbn [app]); reflexivity.
Qed.

(** The bytes the code counts for an item. *)
Definition itemBytes (item : GlobalSupervisorChatItem) : Z :=
  match ci_kind item with AssistantItem => ASSISTANT_PROJECTION_FIXED_BYTES | UserItem => USER_PROJECTION_FIXED_BYTES end
  + jsonStringContentBytes (ci_id item) + jsonStringContentBytes (ci_text item).

Lemma ascii_dec s : forallb (fun u => (u <? 128)%N) s = true -> asciiText s.
Proof. intros H. apply Forall_forall. intros u Hu. rewrite forallb_forall in H. by apply N.ltb_lt, H, list_elem_of_In. Qed.

Lemma item_bytes item :
  wellFormed (ci_id item) = true -> wellFormed (ci_text item) = true -> utf8ByteLength (stringify (chatItemJson item)) = itemBytes item.
Proof.
  intros Hid Htext. rewrite item_text. unfold itemBytes.
  assert (Hafter : utf8ByteLength afterText = 2) by done.
  rewrite utf8_app.
  2:{ intros u Hu. destruct (escape (ci_id item)) as [|v e] eqn:E; [by destruct (ci_kind item); injection Hu as <-|].
      apply (escape_notLow (ci_id item)). by rewrite E. }
  rewrite utf8_app by (intros u Hu; by destruct (ci_kind item); injection Hu as <-).
  rewrite quoted_bytes, Hafter by (done || by apply ascii_dec; destruct (ci_kind item)).
  rewrite <- content_bytes by done. rewrite (utf8_ascii beforeId) by by apply ascii_dec.
  unfold ASSISTANT_PROJECTION_FIXED_BYTES, USER_PROJECTION_FIXED_BYTES.
  destruct (ci_kind item); change (Z.of_nat (length beforeId)) with 7.
  - change (Z.of_nat (length (betweenIdAndText AssistantItem))) with 29. lia.
  - change (Z.of_nat (length (betweenIdAndText UserItem))) with 24. lia.
Qed.

Lemma content_newline part text : jsonStringContentBytes (part ++ [10%N] ++ text) = jsonStringContentBytes part + 2 + jsonStringContentBytes text.
Proof.
  rewrite content_app by (intros u [= <-]; done).
  assert (characters ([10%N] ++ text) = [10%N] :: characters text) as Hc by (by destruct text).
  unfold jsonStringContentBytes. rewrite Hc, sumBytes_cons. change (jsonCharacterBytes [10%N]) with 2. lia.
Qed.

Lemma partsBytes_join parts : forall bytes, parts <> [] -> partsBytes true bytes parts = bytes + jsonStringContentBytes (join [10%N] parts).
Proof.
  assert (Hmore : forall parts bytes part, partsBytes false (bytes + jsonStringContentBytes part) parts
    = bytes + jsonStringContentBytes (join [10%N] (part :: parts))).
  { intros ps. induction ps as [|p ps IH]; intros bytes part; [done|]. rewrite join_cons, content_newline. cbn [partsBytes].
    unfold JSON_ARRAY_SEPARATOR_BYTES. rewrite (IH (bytes + jsonStringContentBytes part + 2)). lia. }
  intros bytes Hne. destruct parts as [|part parts]; [done|]. apply Hmore.
Qed.

Lemma projection_bytes p : hp_textParts p <> [] -> projectionBytes p = itemBytes (materializeProjection p).
Proof. intros Hp. unfold projectionBytes. rewrite partsBytes_join by done. unfold itemBytes, materializeProjection. cbn [ci_kind ci_id ci_text]. destruct (hp_kind p); lia. Qed.

(** ** One page *)

Lemma sumBytes_nonneg {A} (f : A -> Z) l : (forall x, 0 <= f x) -> 0 <= sumBytes f l.
Proof. intros Hf. induction l as [|x l IH]; [done|]. rewrite sumBytes_cons. pose proof (Hf x). lia. Qed.

Lemma utf8_positive c : 0 < utf8CodePointBytes c.
Proof. unfold utf8CodePointBytes. repeat destruct (_ <=? _)%N; lia. Qed.

Lemma content_nonneg s : 0 <= jsonStringContentBytes s.
Proof.
  apply sumBytes_nonneg. intros c. unfold jsonCharacterBytes. destruct (bool_decide _); [lia|]. destruct (_ <? _)%N; [lia|].
  pose proof (utf8_positive (codePointOf c)). lia.
Qed.

Lemma itemBytes_nonneg item : 0 <= itemBytes item.
Proof.
  unfold itemBytes. pose proof (content_nonneg (ci_id item)). pose proof (content_nonneg (ci_text item)). destruct (ci_kind item);
    unfold ASSISTANT_PROJECTION_FIXED_BYTES, USER_PROJECTION_FIXED_BYTES; lia.
Qed.

Lemma message_parts value p : messageProjection value = Some (Some p) -> hp_textParts p <> [].
Proof.
  unfold messageProjection. destruct (asObject (Some value)) as [item|]; [|done]. cbn [mbind option_bind].
  destruct (validString (oget "id" item)) as [id|]; [|done]. cbn [mbind option_bind]. destruct (validString (oget "type" item)) as [type|]; [|done].
  cbn [mbind option_bind]. destruct (bool_decide (type = js "agentMessage")).
  { destruct (asString (oget "text" item)); [|done]. cbn [mbind option_bind]. by intros [= <-]. }
  destruct (bool_decide (type = js "userMessage")); [|done]. unfold userMessageProjection.
  destruct (asArray (oget "content" item)) as [content|]; [|done]. cbn [mbind option_bind].
  destruct (userMessageTextParts content) as [parts|]; [|done]. cbn [mbind option_bind].
  destruct (bool_decide (parts = []) || bool_decide (parts = [[]])) eqn:E; [done|]. intros [= <-]. cbn.
  apply orb_false_iff in E as [E%bool_decide_eq_false _]. done.
Qed.

Lemma oversized_bytes p : oversizedProjectionBytes p = itemBytes (oversizedProjection p).
Proof. unfold oversizedProjectionBytes. by rewrite projection_bytes. Qed.

Section page.
Variables limit maxBytes : Z.

(** What a page collects is what the items it consumed are shown as. *)
Lemma collect_shown source inspected bytes offset items offset' items' :
  collectItems limit maxBytes source inspected bytes offset items = Some (offset', items') ->
  bytes = sumBytes itemBytes items ->
  exists n, offset' = offset + Z.of_nat n /\ (n <= length source)%nat
    /\ items' = items ++ concat (shownItem maxBytes <$> take n source)
    /\ (bytes <= maxBytes -> sumBytes itemBytes items' <= maxBytes)
    /\ (inspected < limit -> source <> [] -> items = [] -> (0 < n)%nat).
Proof.
  revert inspected bytes offset items. induction source as [|value source IH]; intros inspected bytes offset items.
  { intros [= <- <-] ->. exists 0%nat. cbn. rewrite app_nil_r. split_and!; [lia|done..]. }
  cbn [collectItems]. intros Hc Hb. destruct (Z.ltb_spec inspected limit) as [Hlt|Hge].
  2:{ injection Hc as <- <-. exists 0%nat. cbn. rewrite app_nil_r. split_and!; [lia|lia|done|by intros; lia|lia]. }
  destruct (messageProjection value) as [[p|]|] eqn:Ep; [| |done]; cbn [mbind option_bind] in Hc.
  - assert (Hpb : projectionBytes p = itemBytes (materializeProjection p)) by (by eapply projection_bytes, message_parts).
    unfold appendProjection in Hc. destruct (Z.leb_spec (bytes + projectionBytes p) maxBytes) as [Hfit|Hover].
    + cbn [mbind option_bind ap_consumed ap_stop ap_items ap_bytes] in Hc. apply IH in Hc as (n & -> & Hn & -> & Hm & _).
      * assert (Hshown : shownItem maxBytes value = [materializeProjection p]).
        { unfold shownItem. rewrite Ep. rewrite (proj2 (Z.leb_le _ _)); [done|]. subst bytes.
          pose proof (sumBytes_nonneg itemBytes items itemBytes_nonneg). lia. }
        exists (S n). split_and!; [lia|cbn; lia| |by intros _; apply Hm|lia]. cbn [take fmap list_fmap concat]. by rewrite Hshown, <- app_assoc.
      * rewrite sumBytes_app, sumBytes_cons, <- Hpb. cbn. lia.
    + destruct (bool_decide (items = [])) eqn:Ei.
      * apply bool_decide_eq_true in Ei as ->. destruct (Z.ltb_spec maxBytes (oversizedProjectionBytes p)) as [|Hfall]; [done|].
        cbn in Hc. injection Hc as <- <-. exists 1%nat. cbn [take fmap list_fmap concat app length].
        assert (Hshown : shownItem maxBytes value = [oversizedProjection p]).
        { unfold shownItem. rewrite Ep. rewrite (proj2 (Z.leb_gt _ _)); [done|]. subst bytes. cbn in Hover. lia. }
        rewrite Hshown. split_and!; [lia|lia|done| |lia]. intros _. rewrite sumBytes_cons. cbn. rewrite <- oversized_bytes. lia.
      * apply bool_decide_eq_false in Ei. cbn in Hc. injection Hc as <- <-. exists 0%nat. cbn. rewrite app_nil_r.
        split_and!; [lia|lia|done|by subst|done].
  - apply IH in Hc as (n & -> & Hn & -> & Hm & _); [|done]. exists (S n).
    assert (Hshown : shownItem maxBytes value = []) by (unfold shownItem; by rewrite Ep).
    split_and!; [lia|cbn; lia| |done|lia]. cbn [take fmap list_fmap concat]. by rewrite Hshown.
Qed.

(** Readable items are collected without an error. *)
Lemma collect_total source inspected bytes offset items :
  forallb (readableItem maxBytes) source = true -> exists page, collectItems limit maxBytes source inspected bytes offset items = Some page.
Proof.
  revert inspected bytes offset items. induction source as [|value source IH]; intros inspected bytes offset items Hr; [by eexists|].
  cbn [forallb] in Hr. apply andb_prop in Hr as [Hv Hr]. cbn [collectItems]. destruct (inspected <? limit); [|by eexists].
  unfold readableItem in Hv. destruct (messageProjection value) as [[p|]|]; [| |done]; cbn [mbind option_bind]; [|by apply IH].
  unfold appendProjection. destruct (bytes + projectionBytes p <=? maxBytes); cbn [mbind option_bind ap_stop]; [by apply IH|].
  destruct (bool_decide (items = [])); [|by eexists]. rewrite (proj2 (Z.ltb_ge _ _)) by (by apply Z.leb_le in Hv). by eexists.
Qed.
End page.

(** C29. The messages a page of a chat shows take at most the bytes that were allowed,
    as they are encoded, when their texts have no surrogate on its own. *)
Theorem page_bytes_bounded page offset limit maxBytes offset' items :
  0 <= maxBytes -> collectGlobalSupervisorTurnHistoryItems page offset limit maxBytes = Some (offset', items) ->
  Forall (fun item => wellFormed (ci_id item) && wellFormed (ci_text item) = true) items ->
  sumBytes (fun item => utf8ByteLength (stringify (chatItemJson item))) items <= maxBytes.
Proof.
  intros Hmax Hc Hw. apply collect_shown in Hc as (n & _ & _ & _ & Hb & _); [|done].
  assert (sumBytes (fun item => utf8ByteLength (stringify (chatItemJson item))) items = sumBytes itemBytes items) as ->; [|by apply Hb].
  clear Hb. induction Hw as [|item items [Hid Htext]%andb_prop Hw IH]; [done|]. by rewrite !sumBytes_cons, IH, item_bytes.
Qed.

(** ** A whole chat *)

Section chat.
Variables (authority : TargetAuthority) (answer : option jstr -> option json) (limit maxBytes : Z) (target : ChatRef).
Hypothesis Hlive : requireLiveTarget authority = true.
Hypothesis Hconnection : connectionId target <> [].
Hypothesis Hthread : threadId target <> [].
Hypothesis Hlimit : 1 <= limit.

Let pageBytes : Z := Z.min maxBytes readChatPageMaxBytes.

Definition readableTurn (items : list json) : bool :=
  forallb (readableItem pageBytes) items && (Z.of_nat (length items) <=? max_safe_integer).

(** [readChat] from a place in a turn. *)
Lemma readChat_at offset remote response page :
  answer remote = Some response -> parseGlobalSupervisorTurnHistoryPage response remote = Some page ->
  readableTurn (pageItems page) = true -> (offset <= length (pageItems page))%nat ->
  exists n, (offset + n <= length (pageItems page))%nat /\ (offset < length (pageItems page) -> 0 < n)%nat
    /\ readChat authority answer (globalSupervisorHistoryCursor target remote (Z.of_nat offset)) limit maxBytes target
       = Some (if (offset + n <? length (pageItems page))%nat then globalSupervisorHistoryCursor target remote (Z.of_nat (offset + n))
               else globalSupervisorHistoryCursor target (tp_nextCursor page) 0,
               concat (shownItem pageBytes <$> take n (drop offset (pageItems page)))).
Proof.
  intros Ha Hp Hr Ho. unfold readableTurn in Hr. apply andb_prop in Hr as [Hr Hsafe%Z.leb_le]. unfold readChat.
  pose proof Hlive as Hlv. unfold requireLiveTarget in Hlv. apply andb_prop in Hlv as [-> _]. cbn [negb].
  rewrite history_cursor_read by (done || lia). cbn [mbind option_bind]. rewrite Hlive. cbn [negb]. rewrite Ha. cbn [mbind option_bind].
  rewrite Hp. cbn [mbind option_bind]. rewrite (proj2 (Z.ltb_ge _ _)) by lia. unfold collectGlobalSupervisorTurnHistoryItems. fold pageBytes.
  rewrite Nat2Z.id. assert (Hdrop : forallb (readableItem pageBytes) (drop offset (pageItems page)) = true).
  { rewrite forallb_forall in *. intros v Hv%list_elem_of_In. apply Hr, list_elem_of_In.
    rewrite <- (take_drop offset (pageItems page)). apply elem_of_app. by right. }
  destruct (collect_total (Z.min limit readChatPageMaxItems) pageBytes _ 0 0 (Z.of_nat offset) [] Hdrop) as [[offset' items'] Hc].
  rewrite Hc. cbn [mbind option_bind]. apply collect_shown in Hc as (n & -> & Hn & -> & _ & Hpos); [|done]. rewrite length_drop in Hn.
  exists n. split_and!; [lia| |].
  - intros Hlt. apply Hpos; [unfold readChatPageMaxItems; lia| |done]. intros Hnil. apply (f_equal length) in Hnil. rewrite length_drop in Hnil. cbn in Hnil. lia.
  - rewrite <- Nat2Z.inj_add. destruct (Nat.ltb_spec (offset + n) (length (pageItems page))) as [H|H].
    + by rewrite (proj2 (Z.ltb_lt _ _)) by lia.
    + by rewrite (proj2 (Z.ltb_ge _ _)) by lia.
Qed.

Lemma some_cursor remote offset : (0 < offset)%nat \/ remote <> None -> is_Some (globalSupervisorHistoryCursor target remote (Z.of_nat offset)).
Proof.
  intros H. unfold globalSupervisorHistoryCursor. destruct (bool_decide (remote = None) && (Z.of_nat offset =? 0)) eqn:E; [|by eexists].
  apply andb_prop in E as [->%bool_decide_eq_true E%Z.eqb_eq]. destruct H; [lia|done].
Qed.

Lemma readAll_from fuel : forall remote offset turns items rest,
  historyFrom answer remote turns -> turns = items :: rest -> Forall (fun turn => readableTurn turn = true) turns ->
  (offset <= length items)%nat -> (length items - offset + length (concat rest) + length rest < fuel)%nat ->
  readAll fuel authority answer limit maxBytes target (globalSupervisorHistoryCursor target remote (Z.of_nat offset))
  = Some (concat (shownItem pageBytes <$> drop offset items) ++ concat (shownItem pageBytes <$> concat rest)).
Proof.
  induction fuel as [|fuel IH]; intros remote offset turns items rest Hh Heq Hr Ho Hf; [lia|]. cbn [readAll].
  assert (exists response page, answer remote = Some response /\ parseGlobalSupervisorTurnHistoryPage response remote = Some page
    /\ items = pageItems page /\ match tp_nextCursor page with None => rest = [] | Some next => historyFrom answer (Some next) rest end)
    as (response & page & Ha & Hp & -> & Hnext).
  { destruct Hh as [cursor response page Ha Hp Hn|cursor response page next turns Ha Hp Hn Hh]; injection Heq as <- <-; exists response, page; by rewrite Hn. }
  rewrite Heq in Hr. apply Forall_cons in Hr as [Hr1 Hr].
  destruct (readChat_at offset remote response page Ha Hp Hr1 Ho) as (n & Hn & Hpos & ->). cbn [mbind option_bind].
  destruct (Nat.ltb_spec (offset + n) (length (pageItems page))) as [Hlt|Hge].
  - destruct (some_cursor remote (offset + n)) as [c Hc]; [left; lia|]. rewrite Hc, <- Hc.
    rewrite (IH remote (offset + n)%nat (pageItems page :: rest) (pageItems page) rest); [| |done|by constructor|lia|lia].
    + cbn [mbind option_bind]. f_equal. rewrite app_assoc. f_equal. rewrite <- drop_drop, <- concat_app, <- fmap_app, take_drop. done.
    + by rewrite Heq in Hh.
  - rewrite (take_ge (drop offset (pageItems page)) n) by (rewrite length_drop; lia).
    destruct (tp_nextCursor page) as [next|] eqn:En; [|subst rest; cbn; by rewrite app_nil_r].
    destruct (some_cursor (Some next) 0) as [c Hc]; [by right|]. change 0 with (Z.of_nat 0). rewrite Hc, <- Hc.
    assert (exists items' rest', rest = items' :: rest') as (items' & rest' & ->) by (destruct Hnext; by eexists _, _).
    rewrite (IH (Some next) 0%nat (items' :: rest') items' rest' Hnext eq_refl Hr); [|lia|].
    + cbn [mbind option_bind drop concat fmap list_fmap]. f_equal. f_equal. by rewrite <- concat_app, <- fmap_app.
    + cbn [concat length] in Hf. rewrite length_app in Hf. lia.
Qed.
End chat.

(** C28. Following the cursors of a chat, whatever the sizes of its messages and of the
    pages, ends and shows every message of every turn once and in order; a message too
    large for a page is replaced by a notice. *)
Theorem chat_read_whole authority answer limit maxBytes target turns :
  requireLiveTarget authority = true -> connectionId target <> [] -> threadId target <> [] -> 1 <= limit ->
  historyFrom answer None turns -> Forall (fun turn => readableTurn maxBytes turn = true) turns ->
  readAll (S (length (concat turns) + length turns)) authority answer limit maxBytes target None
  = Some (concat (shownItem (Z.min maxBytes readChatPageMaxBytes) <$> concat turns)).
Proof.
  intros Hlive Hc Ht Hl Hh Hr. destruct turns as [|items rest]; [by inversion Hh|].
  change None with (globalSupervisorHistoryCursor target None (Z.of_nat 0)) at 1.
  rewrite (readAll_from authority answer limit maxBytes target Hlive Hc Ht Hl _ None 0 (items :: rest) items rest Hh eq_refl Hr).
  - cbn [drop concat]. by rewrite fmap_app, concat_app.
  - lia.
  - cbn [concat length]. rewrite length_app. lia.
Qed.

(** A chat of two turns, read a message at a time within 120 bytes. *)
Definition sampleMessage (id text : string) : json := JObj [("id", JStr (js id)); ("type", JStr (js "agentMessage")); ("text", JStr (js text))].
Definition sampleTurns : list (list json) :=
  [[sampleMessage "a" "first"; JObj [("id", JStr (js "r")); ("type", JStr (js "reasoning"))];
    sampleMessage "b" "a message that is longer than what a page of this size could ever hold, with all that is around it in a page"];
   [sampleMessage "c" "last"]].
Definition sampleAnswer (cursor : option jstr) : option json :=
  let page turn items next := JObj [("data", JArr [JObj [("id", JStr (js turn)); ("items", JArr items)]]); ("nextCursor", next)] in
  match cursor with
  | None => Some (page "t1" (nth 0 sampleTurns []) (JStr (js "second")))
  | Some _ => Some (page "t2" (nth 1 sampleTurns []) JNull)
  end.
Definition sampleTarget : ChatRef := {| connectionId := js "laptop"; threadId := js "t-1" |}.

Lemma chat_read_whole_witness :
  let authority := {| ta_allowed := true; ta_live := true |} in
  readAll 7 authority sampleAnswer 1 120 sampleTarget None = Some (concat (shownItem 120 <$> concat sampleTurns))
  /\ (ci_id <$> concat (shownItem 120 <$> concat sampleTurns)) = [js "a"; js "b"; js "c"].
Proof.
  split; [|vm_compute; reflexivity].
  apply (chat_read_whole {| ta_allowed := true; ta_live := true |} sampleAnswer 1 120 sampleTarget sampleTurns); try done.
  - apply (HistoryGoesOn sampleAnswer None (default JNull (sampleAnswer None))
             {| tp_nextCursor := Some (js "second"); tp_turn := Some (js "t1", nth 0 sampleTurns []) |} (js "second") [nth 1 sampleTurns []]);
      [reflexivity|vm_compute; reflexivity|reflexivity|].
    apply (HistoryEnds sampleAnswer (Some (js "second")) (default JNull (sampleAnswer (Some (js "second"))))
             {| tp_nextCursor := None; tp_turn := Some (js "t2", nth 1 sampleTurns []) |}); [reflexivity|vm_compute; reflexivity|reflexivity].
  - repeat constructor.
Defined.

Lemma page_bytes_bounded_witness :
  let page := {| tp_nextCursor := None; tp_turn := Some (js "t1", nth 0 sampleTurns []) |} in
  exists offset items, collectGlobalSupervisorTurnHistoryItems page 0 100 120 = Some (offset, items) /\ length items = 1%nat
    /\ sumBytes (fun item => utf8ByteLength (stringify (chatItemJson item))) items <= 120.
Proof.
  cbn zeta. eexists _, _. split; [vm_compute; reflexivity|]. split; [reflexivity|].
  apply (page_bytes_bounded {| tp_nextCursor := None; tp_turn := Some (js "t1", nth 0 sampleTurns []) |} 0 100 120 2); [lia|vm_compute; reflexivity|].
  by repeat constructor.
Defined.

(** ** What the bounds leave out *)

(** A surrogate on its own is counted as three bytes and encoded as six. *)
Lemma lone_surrogate_undercounted : jsonStringContentBytes [55296%N] = 3 /\ utf8ByteLength (escape [55296%N]) = 6.
Proof. done. Qed.

Lemma letters_ascii n : asciiText (replicate n 97%N).
Proof. apply Forall_replicate. lia. Qed.

Lemma letters_escape n : escape (replicate n 97%N) = replicate n 97%N.
Proof. induction n as [|n IH]; [done|]. cbn. by rewrite IH. Qed.

Lemma letters_wellFormed n : wellFormed (replicate n 97%N) = true.
Proof.
  unfold wellFormed. induction n as [|n IH]; [done|]. destruct n as [|n]; [done|].
  change (replicate (S (S n)) 97%N) with ([97%N] ++ replicate (S n) 97%N). rewrite characters_split by (by intros u [= <-]).
  rewrite forallb_app, IH. done.
Qed.

Definition oneMessageChat (text : jstr) : json :=
  JObj [("data", JArr [JObj [("id", JStr (js "t")); ("items", JArr [JObj [("id", JStr (js "m")); ("type", JStr (js "agentMessage")); ("text", JStr text)]])]]);
        ("nextCursor", JNull)].

(** A message that fits the bound of a page by less than what a page has around
    its items: the page is read, and the response to the request is a failure. *)
Lemma large_message_unreadable n :
  262080 <= n <= 262105 ->
  let text := replicate (Z.to_nat n) 97%N in
  let item := {| ci_id := js "m"; ci_kind := AssistantItem; ci_text := text |} in
  readChat {| ta_allowed := true; ta_live := true |} (fun _ => Some (oneMessageChat text)) None readChatPageMaxItems readChatPageMaxBytes sampleTarget
    = Some (None, [item])
  /\ toolResponse true (chatPageJson (None, [item])) = failureResponse ToolExecutionFailed.
Proof.
  intros Hn text item.
  assert (Hitem : itemBytes item = 39 + n).
  { unfold itemBytes. cbn [ci_id ci_kind ci_text item]. rewrite (content_bytes text) by apply letters_wellFormed. unfold text.
    rewrite letters_escape, (utf8_ascii _ (letters_ascii _)), length_replicate. change (jsonStringContentBytes (js "m")) with 1.
    unfold ASSISTANT_PROJECTION_FIXED_BYTES. lia. }
  set (message := JObj [("id", JStr (js "m")); ("type", JStr (js "agentMessage")); ("text", JStr text)]).
  assert (Hcollect : collectItems 100 262144 [message] 0 0 0 [] = Some (1, [item])).
  { set (p := {| hp_id := js "m"; hp_kind := AssistantItem; hp_textParts := [text] |}).
    assert (Hp : projectionBytes p = 39 + n) by (rewrite projection_bytes; done).
    cbn [collectItems]. change (messageProjection message) with (Some (Some p)). change (0 <? 100) with true. cbn iota. cbn [mbind option_bind].
    unfold appendProjection. rewrite Hp, (proj2 (Z.leb_le _ _)) by lia. reflexivity. }
  split.
  - transitivity ('(nextOffset, items) ← collectItems 100 262144 [message] 0 0 0 [];
                   Some (if nextOffset <? 1 then globalSupervisorHistoryCursor sampleTarget None nextOffset
                         else globalSupervisorHistoryCursor sampleTarget None 0, items)); [reflexivity|]. by rewrite Hcollect.
  - unfold toolResponse. rewrite (proj2 (Z.ltb_lt _ _)); [done|].
    assert (Htext : stringify (chatPageJson (None, [item]))
       = (js "{" ++ quote (js "cursor") ++ js ":null," ++ quote (js "items") ++ js ":[") ++ stringify (chatItemJson item) ++ js "]}").
    { unfold chatPageJson. cbn [fst snd remoteCursorJson fmap list_fmap]. rewrite stringify_object. unfold entryText. cbn [fmap list_fmap fst snd join stringify map].
      generalize (stringify (chatItemJson item)). intros. unfold quote. do 4 (rewrite <- ?app_assoc; cbn [app]). reflexivity. }
    rewrite Htext, utf8_app, (utf8_app (stringify (chatItemJson item))), item_bytes, Hitem; [|reflexivity|apply letters_wellFormed|by intros u [= <-]|intros u Hu; rewrite item_text in Hu; by injection Hu as <-].
    unfold dynamicToolOutputMaxBytes. change (utf8ByteLength (js "]}")) with 2. change (utf8ByteLength _) with 24. lia.
Qed.

(** ** Calls *)

Lemma validString_Some v s : validString v = Some s -> s <> [].
Proof. destruct v as [[| | |[|c t]| |]|]; try done. by intros [= <-]. Qed.

Lemma optionalNonEmpty_Some v s : optionalNonEmptyString v = Some s -> s <> Some [].
Proof.
  assert (Hne : Some <$> nonEmptyString v = Some s -> s <> Some []).
  { destruct (nonEmptyString v) as [t|] eqn:E; [|done]. intros [= <-] [= ->]. by apply validString_Some in E. }
  destruct v as [[| | | | |]|]; try exact Hne; by intros [= <-].
Qed.

Lemma ref_ok v target : parseGlobalSupervisorQualifiedChatRef v = Some target -> identityOk target.
Proof.
  unfold parseGlobalSupervisorQualifiedChatRef. intros (record & _ & H)%bind_Some. apply bind_Some in H as (c & Hc & H).
  apply bind_Some in H as (t & Ht & H). injection H as <-. split; by eapply validString_Some.
Qed.

Lemma onlyTarget_ok arguments target : onlyTarget arguments = Some target -> identityOk target.
Proof. unfold onlyTarget. destruct (hasClosedKeys _ _ _); [apply ref_ok|done]. Qed.

Lemma relation_ok arguments (make : ChatRef -> ParsedToolCall) call :
  (forall target, identityOk target -> callOk (make target)) -> make <$> onlyTarget arguments = Some call -> callOk call.
Proof. intros Hm (target & Ht & ->)%fmap_Some. by eapply Hm, onlyTarget_ok. Qed.

Lemma givenAnswer_ok value row : parseGivenAnswer value = Some row -> answer row <> [] /\ questionId row <> [].
Proof.
  unfold parseGivenAnswer. intros (o & _ & H)%bind_Some. destruct (hasClosedKeys _ _ _); [|done]. cbn [negb] in H.
  apply bind_Some in H as (r & Hr & H). apply bind_Some in H as (q & Hq & H). injection H as <-. split; by eapply validString_Some.
Qed.

Lemma requestAnswer_ok v a : parseRequestAnswer v = Some a -> answerOk a.
Proof.
  unfold parseRequestAnswer. intros (o & _ & H)%bind_Some.
  destruct (isStr (oget "kind" o) "approval").
  { unfold parseApprovalAnswer in H. destruct (negb _); [done|]. by repeat (destruct (isStr _ _) in H; [by injection H as <-|]). }
  destruct (isStr (oget "kind" o) "permissions").
  { unfold parsePermissionsAnswer in H. destruct (negb _); [done|]. by repeat (destruct (isStr _ _) in H; [by injection H as <-|]). }
  destruct (isStr (oget "kind" o) "userInput").
  { unfold parseUserInputAnswer in H. destruct (negb _); [done|]. apply bind_Some in H as (rows & _ & H).
    apply fmap_Some in H as (answers & Hm & ->). cbn. apply mapM_Some_1 in Hm. induction Hm as [|x y rows ys Hxy _ IH]; constructor; [|done].
    by eapply givenAnswer_ok. }
  destruct (isStr (oget "kind" o) "elicitation"); [|done].
  unfold parseElicitationAnswer in H. destruct (negb _); [done|]. apply bind_Some in H as (action & _ & H).
  destruct (oget "content" o) as [[| | | | |]|]; cbn in H; try done; by injection H as <-.
Qed.

Lemma startTask_ok arguments call : parseStartTaskCall arguments = Some call -> callOk call.
Proof.
  unfold parseStartTaskCall. destruct (negb _); [done|]. intros (c & Hc & H)%bind_Some. apply bind_Some in H as (cwd & Hw & H).
  apply bind_Some in H as (objective & Ho & H). injection H as <-. cbn.
  split_and!; [by eapply validString_Some|by eapply optionalNonEmpty_Some|by eapply validString_Some].
Qed.

Lemma findChat_ok arguments call : parseFindChatCall arguments = Some call -> callOk call.
Proof.
  unfold parseFindChatCall, findChatArguments. destruct (negb _); [done|]. intros ([[[c p] ti] to] & Ha & H)%bind_Some.
  apply bind_Some in Ha as (c' & Hc & Ha). apply bind_Some in Ha as (p' & Hp & Ha). apply bind_Some in Ha as (ti' & Hti & Ha).
  apply bind_Some in Ha as (to' & Hto & Ha). injection Ha as -> -> -> ->.
  destruct (hasFindChatQuery p ti to) eqn:Eq; [|done]. injection H as <-. cbn. split.
  - repeat constructor; by eapply optionalNonEmpty_Some.
  - intros (-> & -> & ->). done.
Qed.

Lemma safeNat_nonneg v z : asSafeNat v = Some z -> 0 <= z.
Proof.
  destruct v as [[| |[w|]| | |]|]; try done. cbn [asSafeNat]. destruct (Z.leb_spec 0 w); [|done]. destruct (w <=? _); [|done]. by intros [= <-].
Qed.

Lemma readAttachment_ok arguments call : parseReadChatAttachmentCall arguments = Some call -> callOk call.
Proof.
  unfold parseReadChatAttachmentCall. destruct (negb _); [done|]. intros (target & Ht & H)%bind_Some. apply bind_Some in H as (id & Hid & H).
  apply bind_Some in H as (offset & Ho & H). injection H as <-. cbn. split_and!; [| | |by eapply ref_ok].
  - unfold isGlobalSupervisorAttachmentId in Hid. destruct (oget "attachmentId" arguments) as [[| | |s| |]|]; try done.
    destruct (_ && _) eqn:E; [|done]. injection Hid as <-. by apply andb_prop in E as [[_ E%Nat.eqb_eq]%andb_prop _].
  - unfold chatAttachmentOffset in Ho. apply bind_Some in Ho as (z & Hz & Ho). destruct (z <? _); [|done]. injection Ho as <-. by eapply safeNat_nonneg.
  - unfold chatAttachmentOffset in Ho. apply bind_Some in Ho as (z & Hz & Ho). destruct (z <? _) eqn:E; [|done]. injection Ho as <-. by apply Z.ltb_lt.
Qed.

Lemma respond_ok arguments call : parseRespondToRequestCall arguments = Some call -> callOk call.
Proof.
  unfold parseRespondToRequestCall. destruct (negb _); [done|]. intros (target & Ht & H)%bind_Some. apply bind_Some in H as (event & He & H).
  apply bind_Some in H as (a & Ha & H). injection H as <-. cbn. split_and!; [by eapply requestAnswer_ok|by eapply validString_Some|by eapply ref_ok..].
Qed.

Lemma spoken_ok arguments call : parseSetSpokenAttentionCall arguments = Some call -> callOk call.
Proof.
  unfold parseSetSpokenAttentionCall. destruct (negb _); [done|]. intros (target & Ht & H)%bind_Some. apply bind_Some in H as (mode & _ & H).
  destruct (hasUnexpectedSpokenAttentionDuration _ _); [done|]. apply bind_Some in H as (minutes & Hm & H). injection H as <-. cbn.
  split; [|by eapply ref_ok]. destruct mode; [by injection Hm as <-|by injection Hm as <-|].
  unfold spokenAttentionDuration in Hm. apply bind_Some in Hm as (z & _ & Hm). destruct (_ && _) eqn:E; [|done]. injection Hm as <-.
  split; [done|]. apply andb_prop in E as [E1%Z.leb_le E2%Z.leb_le]. unfold MAX_SNOOZE_MINUTES in E2. lia.
Qed.

Lemma sendText_ok arguments call : parseSendTextCall arguments = Some call -> callOk call.
Proof.
  unfold parseSendTextCall. destruct (negb _); [done|]. intros (target & Ht & H)%bind_Some. apply bind_Some in H as (text & Hx & H).
  injection H as <-. cbn. split; [by eapply validString_Some|by eapply ref_ok].
Qed.

Lemma readChat_ok arguments call : parseReadChatCall arguments = Some call -> callOk call.
Proof.
  unfold parseReadChatCall. destruct (negb _); [done|]. intros (cursor & _ & H)%bind_Some. apply bind_Some in H as (target & Ht & H).
  injection H as <-. cbn. by eapply ref_ok.
Qed.

Lemma parsed_call_ok v call : parseToolCall v = Some call -> callOk call.
Proof.
  unfold parseToolCall. intros ([arguments tool] & _ & H)%bind_Some.
  destruct (isStr tool "startTask"); [by eapply startTask_ok|].
  destruct (isStr tool "listActiveWork"); [unfold parseListActiveWorkCall in H; destruct (hasClosedKeys _ _ _); [by injection H as <-|done]|].
  destruct (isStr tool "findChat"); [by eapply findChat_ok|].
  destruct (isStr tool "followChat"); [by eapply (relation_ok arguments FollowChatCall)|].
  destruct (isStr tool "inspectChat"); [by eapply (relation_ok arguments InspectChatCall)|].
  destruct (isStr tool "interruptChat"); [by eapply (relation_ok arguments InterruptChatCall)|].
  destruct (isStr tool "listChatAttachments"); [by eapply (relation_ok arguments ListChatAttachmentsCall)|].
  destruct (isStr tool "listChats").
  { unfold parseListChatsCall in H. destruct (negb _); [done|]. by apply fmap_Some in H as (cursor & _ & ->). }
  destruct (isStr tool "readChat"); [by eapply readChat_ok|].
  destruct (isStr tool "readChatAttachment"); [by eapply readAttachment_ok|].
  destruct (isStr tool "sendText"); [by eapply sendText_ok|].
  destruct (isStr tool "respondToRequest"); [by eapply respond_ok|].
  destruct (isStr tool "setSpokenAttention"); [by eapply spoken_ok|].
  destruct (isStr tool "unfollowChat"); [by eapply (relation_ok arguments UnfollowChatCall)|done].
Qed.

(** ** Requests *)

Lemma failure_bytes kind : utf8ByteLength (tr_text (failureResponse kind)) <= dynamicToolOutputMaxBytes.
Proof. by destruct kind; vm_compute. Qed.

Lemma response_bytes success payload : utf8ByteLength (tr_text (toolResponse success payload)) <= dynamicToolOutputMaxBytes.
Proof.
  unfold toolResponse. destruct (Z.ltb_spec dynamicToolOutputMaxBytes (utf8ByteLength (stringify payload))); [apply failure_bytes|done].
Qed.

(** Nothing is delivered to a chat before its server was seen to be live. *)
Definition liveFirst (answers : CapabilityCall -> option json) (asked : list CapabilityCall) : Prop :=
  forall i call target, asked !! i = Some call -> deliveredTo call = Some target ->
    exists j, (j < i)%nat /\ asked !! j = Some (AssertLiveTarget target) /\ answers (AssertLiveTarget target) <> None.

Lemma executed_live answers supervisor call : liveFirst answers (executeToolCall answers supervisor call).1.
Proof.
  intros i asked target. destruct call; cbn [executeToolCall]; unfold ask, give;
    repeat match goal with |- context [answers ?c] => let E := fresh "E" in destruct (answers c) eqn:E end;
    cbn [fst]; intros Hi Hd; destruct i as [|[|[|i]]]; cbn in Hi; try done; injection Hi as <-; try done; cbn in Hd; injection Hd as <-;
    exists 0%nat; (split_and!; [lia|done|congruence]).
Qed.

(** C31. A tool request is settled by one response of bounded size; a capability is
    asked only for a call that was accepted, whose identities, texts, offsets and
    durations are in bounds, and nothing is delivered to a chat whose server was not
    seen to be live first. *)
Theorem tool_requests_sound answers params supervisor asked response :
  handleToolRequest answers params supervisor = (asked, response) ->
  utf8ByteLength (tr_text response) <= dynamicToolOutputMaxBytes
  /\ (asked = [] /\ tr_success response = false
      \/ exists call, parseToolCall params = Some call /\ callOk call /\ validInputSize params = true /\ supervisor <> None)
  /\ liveFirst answers asked.
Proof.
  unfold handleToolRequest. intros H. destruct (validInputSize params) eqn:Ev.
  2:{ injection H as <- <-. split_and!; [apply failure_bytes|by left|done]. }
  destruct (parseToolCall params) as [call|] eqn:Ep; [|injection H as <- <-; split_and!; [apply failure_bytes|by left|done]].
  destruct supervisor as [supervisor|]; [|injection H as <- <-; split_and!; [apply failure_bytes|by left|done]].
  pose proof (executed_live answers supervisor call) as Hl. destruct (executeToolCall answers supervisor call) as [asked' result].
  assert (Hcall : exists call', Some call = Some call' /\ callOk call' /\ true = true /\ Some supervisor <> None).
  { exists call. split_and!; [done|by eapply parsed_call_ok|done|done]. }
  destruct result as [result|]; injection H as <- <-; (split_and!; [apply response_bytes || apply failure_bytes|by right|exact Hl]).
Qed.

Definition sampleParams : json :=
  JObj [("arguments", JObj [("connectionId", JStr (js "laptop")); ("threadId", JStr (js "t-1")); ("text", JStr (js "go on"))]);
        ("callId", JStr (js "c")); ("threadId", JStr (js "s")); ("tool", JStr (js "sendText")); ("turnId", JStr (js "u"))].

Lemma tool_requests_sound_witness :
  exists asked response, handleToolRequest (fun _ => Some (JStr (js "id"))) (Some sampleParams) (Some sampleTarget) = (asked, response)
    /\ length asked = 3%nat /\ tr_success response = true /\ liveFirst (fun _ => Some (JStr (js "id"))) asked.
Proof.
  eexists _, _. split; [vm_compute; reflexivity|]. split; [reflexivity|]. split; [reflexivity|].
  eapply (tool_requests_sound (fun _ => Some (JStr (js "id"))) (Some sampleParams) (Some sampleTarget)). vm_compute. reflexivity.
Defined.
